(* ===== verification/_CoqProject ===== *)
-Q . S2P
Prelude.v
Ordered.v
Loop.v
Crc.v
Format.v
Rows.v
Headers.v
Tables.v
Frames.v
Device.v
Scan.v
File.v
Rebuild.v
Recovery.v
Regions.v
GroupWriter.v
Crash.v
Inspect.v
Decimal.v
Resp.v
TierDirectory.v
ScoreCodec.v
Expire.v
Swar.v
SwissTable.v
SetTable.v
InlineList.v
ChunkRing.v
Fenwick.v
ValueLog.v
NativeList.v
NativeRefines.v
NativeOps.v
NativeSweeps.v
NativeTrim.v
NativeDemote.v
ListMeaning.v
ListRun.v
ListWorld.v
ListCommands.v
ListDurable.v
WaitSlab.v
ListSpec.v
ListRefines.v
ListServe.v
ListBlocked.v
ListHistory.v
ListClients.v
ListReplay.v
TreeBlocks.v
TreeArrays.v
TreeOps.v
TreeShape.v
TreeNodes.v
TreeBranches.v
TreeSearch.v
TreeInsert.v
TreeGrow.v
TreeRep.v
TreeReads.v
TreeWalks.v
TreeRemove.v
TreeMend.v
TreeDelete.v
TreePops.v
TreeAppend.v
TreeHistory.v
Pel.v
Examples.v
CodecTheorems.v
FileTheorems.v
RecoveryTheorems.v
RegionTheorems.v
GroupTheorems.v
ToolTheorems.v
RespTheorems.v
EngineTheorems.v
ListTheorems.v
KeyspaceTheorems.v
TreeTheorems.v
