(* ===== verification/Prelude.v ===== *)
(** A verification library for the f3 storage engine: the .aki file and parts of the
    in-memory engine and wire protocol above it.

    The program.  engine/f3/akifile is the single-file storage format under the f3
    engine: a header page with an immutable prefix and two meta slots, followed by an
    append-only run of checksummed segments on 4 KiB boundaries.  One writer appends
    groups of segments; a commit flips the stale meta slot to name new roots; a
    checkpoint appends the shard root table and commits it; recovery elects the live
    slot, reads its roots, rebuilds the per-shard tables from their checkpoint chains
    and replays the tail; a barrier segment marks a point-in-time cut.  Records,
    values and cold chunks live in segments of their own kind, and a group-commit
    goroutine drains per-shard rings into shared appends.  Tools inspect and dump a
    file without changing it.  Above the file, a shard goroutine owns the containers:
    a native set is a record slab behind a group-probed member table; a sorted set
    orders members by score keys in a counted B+ tree and spills to cold frames found
    through a tier directory; the same tree orders the pending entries of a stream's
    consumer group by ID; a list is a packed blob up to a budget and a ring of chunk slabs with a
    rank directory above it, whose interior chunks spill to an append log; keys carry
    deadlines that one expiry core sets for every type.  List commands change the keyspace,
    publish events, cut the log frames a restart replays, and hand elements to clients
    blocked on a key.  Commands arrive through an incremental RESP parser and leave
    through its builders.

    The parts and their files (Go files are under src/engine/f3/akifile/ unless said
    otherwise).

    - [Prelude]: Go results ([res]: a value, an error or a panic), machine integers
      as [Z] with written-out wrap-around, byte strings, checked slicing and
      little-endian access, and the tactics over them.
    - [Ordered]: byte-string order ([bytes_Compare]), binary search ([sort_Search])
      and sorted map keys.
    - [Loop]: bounded loops with a binary fuel ([loop], [fuel64] = 2^65 steps) and
      the measure lemma that shows the bound is never reached.
    - [Crc], [Format]: format.go (CRC-32C, checksum kinds, constants, errors,
      [AlignUp], [SegmentSpan]).
    - [Rows]: the interface of a fixed-size row codec ([RowCodec]) and the
      bounds-checked table of rows every list of the format is built on.
    - [Headers]: prefix.go, meta.go, segment.go, srt.go, extent.go.
    - [Tables]: checkpoint.go, segstats.go, chunkdir.go, ttlindex.go, freemap.go,
      metakv.go, barrier.go.
    - [Frames]: recordlog.go, valuelog.go, collectionlog.go.
    - [Device]: the Device interface of file.go as a class, the laws the writer relies
      on ([DeviceLaws]), the read-only adapter, and [Disk], a file with a write cache
      and a script of faults that discharges the laws.
    - [Scan]: [readSegmentAt] (writer.go) and [ReplayTail] (recovery.go), with the
      abstract log they implement ([log], [fold_visit]).
    - [File]: file.go, writer.go, commit.go, snapshot.go.  A method is a function from
      a [File] to the next [File] and the call's result; [file_inv f m segs] is the
      invariant: root [m] is live and the append space holds exactly the log [segs].
    - [Rebuild]: the three checkpoint-chain rebuilders of recovery.go, proved once
      against the interface [DeltaTable] and instantiated for the index, the segment
      statistics and the chunk directory; [chain_lookup] is their specification.
    - [Recovery]: the rest of recovery.go (open decision, roots, [Recover],
      [CrossCheck], [FindBarrier], [ReplayToBarrier]).
    - [Regions]: recordregion.go, valueregion.go, coldregion.go, recordwriter.go,
      valuewriter.go.
    - [GroupWriter]: groupwriter.go as a transition system ([step]) over rings,
      doorbell, barrier and quit, with its invariant [ginv] by induction on [reachable];
      the groups handed to the append are kept with the error each append returned, and
      [tracks] ties them to the log of the file.
    - [Crash]: power loss on a [Disk]: any subset of the 512-byte sectors of the
      unflushed writes may be on the media ([crash_image]).
    - [Inspect]: inspect.go ([Inspect], [ScanSegments], [Persistence], [Findings]) and
      dump.go ([Dump]).
    - [Decimal]: [ParseInt] (engine/f3/store/str.go) and the decimal emitters of
      f3srv/resp/write.go, against canonical decimal text.
    - [Resp]: f3srv/resp/parse.go and write.go.  [Next] is one parser call; [receive]
      feeds it a connection's reads.
    - [TierDirectory]: engine/f3/tier/directory.go; [dir_map] is the finite map it is.
    - [ScoreCodec]: engine/f3/zset/codec.go and [discOf] of cold.go, over the bits of a
      float64; [f64_scaled] is its value in units of 2^-1074.
    - [Expire]: engine/f3/expire/expire.go against the class [Backend] with
      [BackendLaws], and, apart from the code, what a command line asks for
      ([expire_request]) and when it is refused ([rejected]); its module [ListKeys] is the list keyspace of engine/f3/list
      (reg.go, keyexpire.go, the deadline effects of durable.go), which discharges them.
    - [Swar], [SwissTable]: engine/f3/struct/table.go: the eight-byte group match, and
      the table against the class [MemberSet] with [MemberSetLaws]; [table_inv] is its
      invariant and [contents] the ordinals it holds.
    - [SetTable]: engine/f3/set/member.go and the hash of engine/f3/store/hash.go.
      [htable] discharges [MemberSetLaws]; [hinv] is its invariant and [elems] the set
      of byte strings it stands for.  The cold chunks are the parameter [ColdTier].
    - [InlineList]: engine/f3/list/list.go and ops.go: the packed band [klist], its budget,
      and the operations that dispatch on the band, against the class of a chunked deque.
    - [ChunkRing], [Fenwick], [NativeList]: engine/f3/list/native.go and cold.go: chunk
      slabs and their ring, the rank directory, and the deque [native] with its cold
      chunks.  [NativeRefines], [NativeOps], [NativeSweeps], [NativeTrim] and
      [NativeDemote] prove its operations against the sequence of its elements.
    - [ValueLog]: engine/f3/store/vlog.go, chunkframe.go, coldframe.go, coldchunk.go and the
      header reads of cold.go.
    - [ListMeaning]: what LREM, LPOS, LRANGE, LTRIM and the indexed commands mean on a
      plain sequence ([lrem_spec], [lpos_spec], [window], [index_in]), written apart from
      the code and proved equal to its loops.
    - [ListRun]: any sequence of operations on one list, and on two that share a region.
    - [ListWorld]: the registry of a shard's lists (engine/f3/list/reg.go) with its list
      objects behind handles, so that an object held across a call can go stale as in the
      code, the slab of waiting clients (waiter.go), and the effects that leave the shard
      ([effect]: events, log frames, replies to blocked clients, timers).
    - [ListCommands]: commands.go, lmove.go, lmpop.go, blocking.go, blockmove.go and
      keyexpire.go: every handler, the EXPIRE family with its arguments among them, the
      serve loop, parking and timeouts.
    - [ListDurable]: durable.go: snapshots and the replay of the log.
    - [WaitSlab]: the slab as the queues and sibling rings it encodes ([slab]).
    - [ListSpec], [ListRefines], [ListServe], [ListBlocked]: the keyspace as a map from keys
      to sequences and deadlines ([kv]) with its queue of clients, the options of LPOS
      and the grammar of LMPOP ([lpos_options], [mpop_line]), the relation [shows] between
      it and a world, and one lemma per handler.
    - [ListHistory], [ListClients], [ListReplay]: histories of commands, the shard with
      blocked clients as a transition system ([reached]), and the log replayed.
    - [TreeBlocks], [TreeOps]: engine/f3/struct/tree.go and tree_pop.go at the geometry
      [NewTree] bakes: the two arenas of byte blocks with their free lists, and every
      operation of the counted tree.  A client resolves references to member bytes
      through the class [Members].
    - [TreeArrays], [TreeShape]: the blocks as the arrays they encode ([enc]), and the
      tree they hold ([ptree]) with its fill, leaf chain, order and owned blocks.
    - [TreeNodes], [TreeBranches], [TreeSearch]: one lemma per node operation.
      [TreeInsert], [TreeGrow], [TreeAppend]: insertion and splits; [TreeReads],
      [TreeWalks]: lookups, walks and cursors; [TreeRemove], [TreeMend], [TreeDelete],
      [TreePops]: removal, borrowing and merging.  [TreeRep] has the invariant
      [tree_rep mb t es]: the tree [t] keeps the sorted sequence [es]; [TreeHistory]
      runs any sequence of operations against that sequence.
    - [Pel]: engine/f3/stream/pel.go over the tree, against the list of its slabs in ID
      order ([pel_rep]).
    - [Examples]: the concrete file and tables the theorems are exercised on.
    - [CodecTheorems], [FileTheorems], [RecoveryTheorems], [RegionTheorems],
      [GroupTheorems], [ToolTheorems], [RespTheorems], [EngineTheorems],
      [ListTheorems], [KeyspaceTheorems], [TreeTheorems]: the theorems.

    What the theorems show.

    - Bytes: every structure reads back as written; no decoder of bytes in memory panics
      on any input (the readers of a device can, [read_record_panics]); the elected slot is the newest whole one and a slot corrupted within four
      summed bytes is rejected.
    - Files: create and open, append and reopen, commit and checkpoint round-trip on a
      healthy device; on any failing device an append keeps the invariant; replay
      visits exactly the abstract log, soundly and completely, and terminates; the
      read-only adapter changes nothing.
    - Power loss: a commit is atomic; an acknowledged append under SyncAlways is
      durable, at the very end of the log unless an intact stale segment of an earlier
      torn run follows it; an interrupted append never harms the log below it; a checkpoint under
      SyncAlways leaves the old or the new root usable, and under SyncNo it may not.
    - Recovery: each chain rebuild computes [chain_lookup]; cycles are rejected; the
      walk terminates; the cross-check reports exactly the disagreements; a barrier
      cuts the replay exactly.
    - Regions: every address handed out reads its item back, before and after a flush
      and across compaction, and the walks visit exactly the logged records.
    - Group commit: per-shard order, no lost wakeup, a drained exit, progress to an empty
      parked state, and published addresses that read back, or the append's own error.
      When a barrier answers, every batch accepted before it is in the log or its
      completion has the error, and a nil answer makes that log survive a power loss; it
      does not tell that no append failed ([barrier_hides_append_error]).
    - Tools: a report agrees with recovery and counts the log exactly; the dump is the
      live key set in order; the derived checkpoint lag is exact.
    - Protocol: parsing does not depend on how a stream is cut into reads; commands
      round-trip; the presized emitters write what the plain ones would; [ParseInt]
      accepts exactly canonical 64-bit integers.
    - Engine: the directory is a sorted finite map of discriminators up to 32 bytes, and
      duplicates longer ones; score keys order and round-trip; the EXPIRE family stores
      exact deadlines or refuses, exactly when the request is malformed or does not fit; the list keyspace keeps its
      byte accounting; the member table and the native set implement finite sets
      through growth, tombstones and compaction, and a pinned enumeration reads its
      snapshot.  Outside its size limits the set is shown to lose members
      ([set_long_member_lost]) and the table to grow forever ([table_growth_bound]).
    - Lists: a list is the sequence of its elements through both bands, demotion and
      promotion, whatever the writes of the region do, and lists that share a region do
      not disturb each other; an offset of the value log reads its value back; the rank
      directory answers what a scan does; the reported encoding follows the budget.  A
      slab wider than 64 KiB that is kept for small elements misreads them
      ([wide_slab_misreads]), and LREM with the least count removes nothing
      ([lrem_min_count_keeps]).
    - List commands: every command is a step of the keyspace map, replies, events and log
      frames included; with blocked clients the elements go to the client that parked
      first, a client leaves all its queues at once, and no key has both a list and a
      queue; the log and its checkpoints bring the keyspace back, when
      the log keeps every frame it is handed.  Two interleavings lose
      elements: a chain of blocked moves that re-creates a key during the serve loop
      ([chained_move_loses]), and a key re-created after its deadline, once replayed
      ([expired_recreate_lost]).

    - Counted tree: through any history of inserts, appends, deletes, pops and reads the
      tree answers what the sorted sequence of its entries answers, walks and cursors
      visit exactly its entries, its blocks keep their widths and none leaks.  The
      pending-entries list is the list of its slabs in ID order as long as no slab is
      reused; a reused one changes what a separator resolves to, and an entry is lost to
      lookups ([pel_reuse_loses_entry]).

    Bounds.  Go's [make] panics above [max_alloc] (2^48).  Loops run under [fuel64]:
    replay moves a 64-bit cursor forward at every step and a chain walk visits each
    of fewer than 2^63 offsets once, so both leave long before the fuel ends, which
    is proved ([replay_terminates], [chain_walk_terminates]); a table probe visits each
    of at most 2^26 groups once ([findSlot_spec], [place_spec]).  Digit loops have the
    20 steps a 64-bit number needs, the mask walk the eight flags of a group.  Theorems
    about running files assume sequences below 2^64 and file offsets below 2^63, the
    range of the signed offsets ReadAt takes; theorems about sets assume members below
    2^16 bytes, slabs below 2^32 and at most 7 * 2^26 records.  Theorems about lists
    assume elements whose chunk frame is at most 65536 bytes ([okv]), lists below 2^62
    elements, replies below 2^48 bytes and a waiter slab below 2^32 - 1 nodes, its nil
    index; the serve loop runs once per parked node at most and has as much fuel.  The
    refinement with blocked clients covers clients of BLPOP, BRPOP and BLMPOP parked on
    one shard; with a client of BLMOVE [chained_move_loses] shows that it fails.
    Theorems about the tree assume room in its 32-bit ordinals and counts ([has_room]);
    descents recurse on the height, and a walk runs for as many leaves as the arena has,
    each of which the leaf chain visits once.

    Not modelled: the printers of inspect.go and dump.go, the operating system's files
    behind Create, Open and InspectPath, strconv's floating-point text (a blocking
    command's timeout is taken parsed), the estimates of resident bytes, which read slice
    capacities, the set's cold chunks and algebra arrays, the record log behind the list
    frames (LogCollectionOp of store/collectionseam.go, which does nothing without a log
    and holds back a flush error: the frames are a list that takes every one), the
    cross-shard hops of the list commands (their requests appear as effects and claims),
    DUMP, RESTORE, SORT and OBJECT, the string store's index and arena, the sorted set's native store and commands over
    the tree, hashes, stream blocks and stream commands, the shard runtime and the servers.
    The tree's bulk load is translated, with its float division as a parameter, but nothing
    is proved of it.  The next extensions are the bulk load, the sorted set's native store,
    which joins the member table and the tree, and the store's extendible index over its
    record arena. *)

From Stdlib Require Strings.Byte Strings.String.
From stdpp Require Export base gmap list.
From Stdlib Require Export ZArith Lia.
From Corelib Require Export Init.Byte.
Export Strings.String.StringSyntax.

#[export] Set Warnings "-clear-no-such-hyp".
#[global] Open Scope Z_scope.

(** ** Results of Go calls

    A fallible Go function returns a value, returns an error, or panics (an
    out-of-range slice expression, a [make] with an impossible length).  The
    three outcomes are kept apart so that freedom from panics is a theorem. *)

Inductive res (E A : Type) : Type :=
| Ok (a : A)
| Err (e : E)
| Panic.
Arguments Ok {E A} a.
Arguments Err {E A} e.
Arguments Panic {E A}.

Declare Scope go_scope.
Delimit Scope go_scope with go.
#[global] Open Scope go_scope.

Notation "'let*' x ':=' c 'in' k" :=
  (match c with Ok x => k | Err e => Err e | Panic => Panic end)
  (at level 10, x name, c at level 200, k at level 200,
   format "'[v' 'let*'  x  ':='  c  'in' '/' k ']'") : go_scope.
Notation "'let*' ' p ':=' c 'in' k" :=
  (match c with Ok p => k | Err e => Err e | Panic => Panic end)
  (at level 10, p strict pattern, c at level 200, k at level 200) : go_scope.

Definition no_panic {E A} (r : res E A) : Prop := r <> Panic.

(** ** Machine integers

    Go's [uint64] and [uint32] arithmetic wraps; the model computes in [Z] and
    writes the wrap-around where the code's operands are not already bounded. *)

Abbreviation two16 := 65536.
Abbreviation two32 := 4294967296.
Abbreviation two63 := 9223372036854775808.
Abbreviation two64 := 18446744073709551616.

Definition add64 (a b : Z) : Z := (a + b) mod two64.
Definition sub64 (a b : Z) : Z := (a - b) mod two64.
Definition cast32 (a : Z) : Z := a mod two32.

(** Range of a value of a Go unsigned type. *)
Definition is_u8 (z : Z) : Prop := 0 <= z < 256.
Definition is_u16 (z : Z) : Prop := 0 <= z < two16.
Definition is_u32 (z : Z) : Prop := 0 <= z < two32.
Definition is_u64 (z : Z) : Prop := 0 <= z < two64.

Lemma add64_small a b : 0 <= a + b < two64 -> add64 a b = a + b.
Proof. intros. unfold add64. by apply Z.mod_small. Qed.

Lemma add64_range a b : is_u64 (add64 a b).
Proof. unfold add64, is_u64. by apply Z.mod_pos_bound. Qed.

(** The largest slice a Go program on a 64-bit platform can allocate; [make]
    panics above it, so no slice is longer. *)
Abbreviation max_alloc := 281474976710656.

(** ** Bytes and Z-indexed lists *)

Abbreviation bytes := (list byte).

#[global] Instance byte_eq_decision : EqDecision byte := Strings.Byte.byte_eq_dec.

Definition byte_Z (b : byte) : Z := Z.of_N (Strings.Byte.to_N b).
Definition Z_byte (z : Z) : byte :=
  match Strings.Byte.of_N (Z.to_N (z mod 256)) with Some b => b | None => x00 end.

Lemma byte_Z_range b : 0 <= byte_Z b < 256.
Proof. unfold byte_Z. pose proof (Strings.Byte.to_N_bounded b). lia. Qed.

Lemma byte_Z_Z_byte z : byte_Z (Z_byte z) = z mod 256.
Proof.
  unfold Z_byte, byte_Z.
  pose proof (Z.mod_pos_bound z 256 eq_refl) as Hb.
  destruct (Strings.Byte.of_N _) as [b|] eqn:E.
  - apply Strings.Byte.to_of_N in E. rewrite E. lia.
  - apply Strings.Byte.of_N_None_iff in E. lia.
Qed.

Lemma Z_byte_byte_Z b : Z_byte (byte_Z b) = b.
Proof.
  unfold Z_byte. rewrite Z.mod_small by apply byte_Z_range.
  unfold byte_Z. by rewrite N2Z.id, Strings.Byte.of_to_N.
Qed.

Lemma byte_Z_inj a b : byte_Z a = byte_Z b -> a = b.
Proof. intros H. by rewrite <- (Z_byte_byte_Z a), H, Z_byte_byte_Z. Qed.

(** The bytes of a Go string constant. *)
Definition str (s : Strings.String.string) : bytes := Strings.String.list_byte_of_string s.
#[global] Arguments str s%_string_scope.

(** Go's [len], and Z-counted prefixes and suffixes that recurse on the list so
    that an untrusted 64-bit count never becomes a unary number. *)
Definition zlen {A} (l : list A) : Z := Z.of_nat (length l).

Fixpoint ztake {A} (n : Z) (l : list A) : list A :=
  match l with
  | [] => []
  | x :: l' => if n <=? 0 then [] else x :: ztake (n - 1) l'
  end.

Fixpoint zdrop {A} (n : Z) (l : list A) : list A :=
  match l with
  | [] => []
  | x :: l' => if n <=? 0 then l else zdrop (n - 1) l'
  end.

(** [b[i:i+n]] without its bounds check. *)
Definition sl {A} (b : list A) (i n : Z) : list A := ztake n (zdrop i b).

(** Overwrites a run of a fixed buffer in place; the length never changes. *)
Fixpoint put (b : bytes) (off : Z) (s : bytes) : bytes :=
  match b with
  | [] => []
  | x :: b' =>
      if 0 <? off then x :: put b' (off - 1) s
      else match s with [] => b | y :: s' => y :: put b' 0 s' end
  end.

(** [make([]byte, n)] for a constant [n]. *)
Definition zeros (n : Z) : bytes := replicate (Z.to_nat n) x00.

Section zlists.
Context {A : Type}.
Implicit Types (l k : list A) (n i : Z).

Lemma ztake_take n l : ztake n l = take (Z.to_nat n) l.
Proof.
  revert n. induction l as [|x l IH]; intros n; simpl; [by rewrite take_nil|].
  destruct (Z.leb_spec n 0).
  - by replace (Z.to_nat n) with 0%nat by lia.
  - replace (Z.to_nat n) with (S (Z.to_nat (n - 1))) by lia. simpl. by rewrite IH.
Qed.

Lemma zdrop_drop n l : zdrop n l = drop (Z.to_nat n) l.
Proof.
  revert n. induction l as [|x l IH]; intros n; simpl; [by rewrite drop_nil|].
  destruct (Z.leb_spec n 0).
  - by replace (Z.to_nat n) with 0%nat by lia.
  - replace (Z.to_nat n) with (S (Z.to_nat (n - 1))) by lia. simpl. by rewrite IH.
Qed.

Lemma zlen_nonneg l : 0 <= zlen l.
Proof. unfold zlen. lia. Qed.

Lemma zlen_nil : zlen (@nil A) = 0.
Proof. done. Qed.

Lemma zlen_cons x l : zlen (x :: l) = 1 + zlen l.
Proof. unfold zlen. simpl length. lia. Qed.

Lemma zlen_app l k : zlen (l ++ k) = zlen l + zlen k.
Proof. unfold zlen. rewrite length_app. lia. Qed.

Lemma zlen_ztake n l : zlen (ztake n l) = Z.max 0 (Z.min n (zlen l)).
Proof. unfold zlen. rewrite ztake_take, length_take. lia. Qed.

Lemma zlen_zdrop n l : zlen (zdrop n l) = Z.max 0 (zlen l - Z.max 0 n).
Proof. unfold zlen. rewrite zdrop_drop, length_drop. lia. Qed.

Lemma zlen_sl l i n :
  0 <= i -> 0 <= n -> i + n <= zlen l -> zlen (sl l i n) = n.
Proof. intros. unfold sl. rewrite zlen_ztake, zlen_zdrop. lia. Qed.

Lemma zlen_0_nil l : zlen l <= 0 -> l = [].
Proof. destruct l; [done|]. unfold zlen. simpl length. lia. Qed.

Lemma ztake_all n l : zlen l <= n -> ztake n l = l.
Proof. intros. rewrite ztake_take. apply take_ge. unfold zlen in *. lia. Qed.

Lemma ztake_nonpos n l : n <= 0 -> ztake n l = [].
Proof. intros. rewrite ztake_take. by replace (Z.to_nat n) with 0%nat by lia. Qed.

Lemma zdrop_nonpos n l : n <= 0 -> zdrop n l = l.
Proof. intros. rewrite zdrop_drop. by replace (Z.to_nat n) with 0%nat by lia. Qed.

Lemma zdrop_all n l : zlen l <= n -> zdrop n l = [].
Proof. intros. rewrite zdrop_drop. apply drop_ge. unfold zlen in *. lia. Qed.

Lemma ztake_zdrop n l : ztake n l ++ zdrop n l = l.
Proof. rewrite ztake_take, zdrop_drop. apply take_drop. Qed.

Lemma zdrop_zdrop i n l : 0 <= i -> 0 <= n -> zdrop i (zdrop n l) = zdrop (n + i) l.
Proof.
  intros. rewrite !zdrop_drop, drop_drop. f_equal. lia.
Qed.

Lemma ztake_ztake i n l : ztake i (ztake n l) = ztake (Z.min i n) l.
Proof.
  rewrite !ztake_take, take_take. f_equal. lia.
Qed.

Lemma zdrop_app_ge n l k : zlen l <= n -> zdrop n (l ++ k) = zdrop (n - zlen l) k.
Proof.
  intros. rewrite !zdrop_drop, drop_app_ge by (unfold zlen in *; lia).
  f_equal. unfold zlen in *. lia.
Qed.

Lemma zdrop_app_le n l k : n <= zlen l -> zdrop n (l ++ k) = zdrop n l ++ k.
Proof.
  intros. rewrite !zdrop_drop, drop_app_le by (unfold zlen in *; lia). done.
Qed.

Lemma ztake_app_le n l k : n <= zlen l -> ztake n (l ++ k) = ztake n l.
Proof.
  intros. rewrite !ztake_take, take_app_le by (unfold zlen in *; lia). done.
Qed.

Lemma ztake_app_ge n l k : zlen l <= n -> ztake n (l ++ k) = l ++ ztake (n - zlen l) k.
Proof.
  intros. rewrite !ztake_take, take_app_ge by (unfold zlen in *; lia).
  do 2 f_equal. unfold zlen in *. lia.
Qed.

(** Slices of concatenations: in the left part, in the right part, exact. *)
Lemma sl_app_l l k i n :
  0 <= i -> 0 <= n -> i + n <= zlen l -> sl (l ++ k) i n = sl l i n.
Proof.
  intros. unfold sl. rewrite zdrop_app_le by lia.
  apply ztake_app_le. rewrite zlen_zdrop. lia.
Qed.

Lemma sl_app_r l k i n : zlen l <= i -> sl (l ++ k) i n = sl k (i - zlen l) n.
Proof. intros. unfold sl. by rewrite zdrop_app_ge. Qed.

Lemma sl_all l n : zlen l <= n -> sl l 0 n = l.
Proof. intros. unfold sl. rewrite zdrop_nonpos by lia. by apply ztake_all. Qed.

Lemma sl_mid l k r i n :
  i = zlen l -> n = zlen k -> sl (l ++ k ++ r) i n = k.
Proof.
  intros -> ->. pose proof (zlen_nonneg k).
  rewrite sl_app_r, Z.sub_diag by lia.
  rewrite sl_app_l by lia. by apply sl_all.
Qed.

Lemma sl_end l k i n : i = zlen l -> n = zlen k -> sl (l ++ k) i n = k.
Proof. intros -> ->. rewrite sl_app_r, Z.sub_diag by lia. by apply sl_all. Qed.

Lemma sl_sl l i n j m :
  0 <= i -> 0 <= j -> 0 <= m -> j + m <= n -> sl (sl l i n) j m = sl l (i + j) m.
Proof.
  intros. unfold sl.
  rewrite !ztake_take, !zdrop_drop, skipn_firstn_comm, take_take, drop_drop.
  f_equal; [lia|]. f_equal. lia.
Qed.

Lemma sl_split l i n m :
  0 <= i -> 0 <= n -> 0 <= m -> sl l i (n + m) = sl l i n ++ sl l (i + n) m.
Proof.
  intros. unfold sl. rewrite <- zdrop_zdrop by lia.
  generalize (zdrop i l); intros d.
  rewrite !ztake_take, zdrop_drop, Z2Nat.inj_add by lia.
  by rewrite take_take_drop.
Qed.

Lemma sl_length l i n : (length (sl l i n) <= length l)%nat.
Proof.
  unfold sl. rewrite ztake_take, zdrop_drop, length_take, length_drop. lia.
Qed.
End zlists.

(** ** Overwriting a buffer *)

Lemma put_nil b off : put b off [] = b.
Proof.
  revert off. induction b as [|x b IH]; intros off; simpl; [done|].
  destruct (0 <? off); [by rewrite IH|done].
Qed.

Lemma length_put b off s : length (put b off s) = length b.
Proof.
  revert off s. induction b as [|x b IH]; intros off s; simpl; [done|].
  destruct (0 <? off); simpl; [by rewrite IH|].
  destruct s; simpl; [done|]. by rewrite IH.
Qed.

Lemma zlen_put b off s : zlen (put b off s) = zlen b.
Proof. unfold zlen. by rewrite length_put. Qed.

Lemma zlen_zeros n : 0 <= n -> zlen (zeros n) = n.
Proof. intros. unfold zlen, zeros. rewrite length_replicate. lia. Qed.

(** In range, overwriting is splicing. *)
Lemma put_splice b off s :
  0 <= off -> off + zlen s <= zlen b ->
  put b off s = ztake off b ++ s ++ zdrop (off + zlen s) b.
Proof.
  revert off s. induction b as [|x b IH]; intros off s Hoff Hlen.
  - assert (s = []) as -> by (apply zlen_0_nil; rewrite zlen_nil in Hlen; lia). done.
  - rewrite zlen_cons in Hlen. simpl. destruct (Z.ltb_spec 0 off).
    + replace (off <=? 0) with false by lia.
      pose proof (zlen_nonneg s).
      replace (off + zlen s <=? 0) with false by lia.
      rewrite IH by lia. simpl. do 4 f_equal. lia.
    + assert (off = 0) as -> by lia. destruct s as [|y s]; [done|].
      rewrite zlen_cons in *. pose proof (zlen_nonneg s).
      replace (0 + (1 + zlen s) <=? 0) with false by lia.
      rewrite IH by lia. replace (0 + (1 + zlen s) - 1) with (0 + zlen s) by lia.
      by rewrite ztake_nonpos by lia.
Qed.

Lemma sl_put_same b off s n :
  0 <= off -> off + zlen s <= zlen b -> n = zlen s -> sl (put b off s) off n = s.
Proof.
  intros. rewrite put_splice by done. apply sl_mid; [|done].
  rewrite zlen_ztake. pose proof (zlen_nonneg s). lia.
Qed.

Lemma sl_put_before b off s i n :
  0 <= i -> 0 <= n -> i + n <= off -> sl (put b off s) i n = sl b i n.
Proof.
  revert off i n. induction b as [|x b IH]; intros off i n Hi Hn Hin; [done|].
  unfold sl in *. simpl.
  destruct (Z.ltb_spec 0 off) as [Ho|Ho].
  - simpl. destruct (Z.leb_spec i 0).
    + simpl. destruct (Z.leb_spec n 0); [done|]. f_equal.
      specialize (IH (off - 1) 0 (n - 1)). rewrite !(zdrop_nonpos 0) in IH by lia.
      apply IH; lia.
    + apply IH; lia.
  - rewrite (ztake_nonpos n) by lia. by rewrite (ztake_nonpos n) by lia.
Qed.

Lemma sl_put_after b off s i n :
  0 <= off -> 0 <= n -> off + zlen s <= i -> sl (put b off s) i n = sl b i n.
Proof.
  intros Ho Hn. unfold sl. intros Hi. f_equal. revert off s i Ho Hi.
  induction b as [|x b IH]; intros off s i Ho Hi; [done|].
  pose proof (zlen_nonneg s). simpl. destruct (Z.ltb_spec 0 off).
  - simpl. destruct (Z.leb_spec i 0); [lia|]. apply IH; lia.
  - destruct s as [|y s]; [done|]. rewrite zlen_cons in *.
    pose proof (zlen_nonneg s).
    simpl. destruct (Z.leb_spec i 0); [lia|]. apply IH; lia.
Qed.

(** ** Little-endian integers: [encoding/binary] *)

Fixpoint le_enc (n : nat) (v : Z) : bytes :=
  match n with
  | O => []
  | S n' => Z_byte v :: le_enc n' (Z.shiftr v 8)
  end.

Fixpoint le_dec (b : bytes) : Z :=
  match b with
  | [] => 0
  | x :: b' => byte_Z x + 256 * le_dec b'
  end.

Lemma length_le_enc n v : length (le_enc n v) = n.
Proof. revert v. induction n as [|n IH]; intros v; simpl; [done|]. by rewrite IH. Qed.

Lemma zlen_le_enc n v : zlen (le_enc n v) = Z.of_nat n.
Proof. unfold zlen. by rewrite length_le_enc. Qed.

Lemma le_dec_enc n v : 0 <= v < 256 ^ Z.of_nat n -> le_dec (le_enc n v) = v.
Proof.
  revert v. induction n as [|n IH]; intros v Hv; simpl; [lia|].
  rewrite Nat2Z.inj_succ, Z.pow_succ_r in Hv by lia.
  rewrite byte_Z_Z_byte, Z.shiftr_div_pow2 by lia. change (2 ^ 8) with 256.
  rewrite IH.
  - pose proof (Z.div_mod v 256). lia.
  - split; [apply Z.div_pos; lia|]. apply Z.div_lt_upper_bound; lia.
Qed.

Lemma le_dec_range b : 0 <= le_dec b < 256 ^ zlen b.
Proof.
  induction b as [|x b IH]; [done|]. rewrite zlen_cons.
  pose proof (zlen_nonneg b). rewrite Z.add_comm, Z.pow_add_r by lia.
  pose proof (byte_Z_range x). simpl. change (256 ^ 1) with 256. lia.
Qed.

Lemma le_enc_dec b : le_enc (length b) (le_dec b) = b.
Proof.
  induction b as [|x b IH]; simpl; [done|].
  pose proof (byte_Z_range x).
  f_equal.
  - apply byte_Z_inj. rewrite byte_Z_Z_byte.
    rewrite (Z.mul_comm 256), Z.mod_add, Z.mod_small; lia.
  - rewrite Z.shiftr_div_pow2 by lia. change (2 ^ 8) with 256.
    by rewrite (Z.mul_comm 256), Z.div_add, Z.div_small by lia.
Qed.

(** [le.PutUintN(b[off:], v)] *)
Definition put16 (b : bytes) (off v : Z) : bytes := put b off (le_enc 2 v).
Definition put32 (b : bytes) (off v : Z) : bytes := put b off (le_enc 4 v).
Definition put64 (b : bytes) (off v : Z) : bytes := put b off (le_enc 8 v).
Definition put8 (b : bytes) (off v : Z) : bytes := put b off (le_enc 1 v).

(** ** Checked accesses

    [slice b i j] is Go's [b[i:j]]: it panics unless [0 <= i <= j <= len b].
    (Go admits [j] up to the capacity; the length is the stricter test, so a
    proof that the model does not panic covers both.)  [u16at], [u32at] and
    [u64at] are [le.UintN(b[off:])] and [at8] is [b[off]]. *)

Section access.
Context {E : Type}.

Definition slice (b : bytes) (i j : Z) : res E bytes :=
  if (0 <=? i) && (i <=? j) && (j <=? zlen b) then Ok (sl b i (j - i)) else Panic.

Definition uint_at (n : nat) (b : bytes) (off : Z) : res E Z :=
  if (0 <=? off) && (off + Z.of_nat n <=? zlen b)
  then Ok (le_dec (sl b off (Z.of_nat n))) else Panic.

Definition at8 : bytes -> Z -> res E Z := uint_at 1.
Definition u16at : bytes -> Z -> res E Z := uint_at 2.
Definition u32at : bytes -> Z -> res E Z := uint_at 4.
Definition u64at : bytes -> Z -> res E Z := uint_at 8.

Lemma slice_ok b i j :
  0 <= i -> i <= j -> j <= zlen b -> slice b i j = Ok (sl b i (j - i)).
Proof.
  intros. unfold slice.
  by rewrite !(proj2 (Z.leb_le _ _)) by done.
Qed.

Lemma slice_n b i j n :
  j - i = n -> 0 <= i -> 0 <= n -> i + n <= zlen b -> slice b i j = Ok (sl b i n).
Proof. intros <- ???. apply slice_ok; lia. Qed.

Lemma slice_len b i n :
  0 <= i -> 0 <= n -> i + n <= zlen b -> slice b i (i + n) = Ok (sl b i n).
Proof. intros. apply slice_n; lia. Qed.

Lemma uint_at_ok n b off :
  0 <= off -> off + Z.of_nat n <= zlen b ->
  uint_at n b off = Ok (le_dec (sl b off (Z.of_nat n))).
Proof.
  intros. unfold uint_at. by rewrite !(proj2 (Z.leb_le _ _)) by done.
Qed.

Lemma at8_ok b off :
  0 <= off -> off + 1 <= zlen b -> at8 b off = Ok (le_dec (sl b off 1)).
Proof. apply (uint_at_ok 1). Qed.
Lemma u16at_ok b off :
  0 <= off -> off + 2 <= zlen b -> u16at b off = Ok (le_dec (sl b off 2)).
Proof. apply (uint_at_ok 2). Qed.
Lemma u32at_ok b off :
  0 <= off -> off + 4 <= zlen b -> u32at b off = Ok (le_dec (sl b off 4)).
Proof. apply (uint_at_ok 4). Qed.
Lemma u64at_ok b off :
  0 <= off -> off + 8 <= zlen b -> u64at b off = Ok (le_dec (sl b off 8)).
Proof. apply (uint_at_ok 8). Qed.
End access.

(** Decoded fields are in the range of their Go type. *)
Lemma le_dec_sl_range b off n k :
  k = 256 ^ n -> 0 <= n -> 0 <= le_dec (sl b off n) < k.
Proof.
  intros -> Hn. pose proof (le_dec_range (sl b off n)) as [Hl Hu]. split; [done|].
  eapply Z.lt_le_trans; [exact Hu|]. apply Z.pow_le_mono_r; [lia|].
  unfold sl. rewrite zlen_ztake. lia.
Qed.

Lemma le_dec_u8 v : is_u8 v -> le_dec (le_enc 1 v) = v.
Proof. intros. by apply le_dec_enc. Qed.
Lemma le_dec_u16 v : is_u16 v -> le_dec (le_enc 2 v) = v.
Proof. intros. by apply le_dec_enc. Qed.
Lemma le_dec_u32 v : is_u32 v -> le_dec (le_enc 4 v) = v.
Proof. intros. by apply le_dec_enc. Qed.
Lemma le_dec_u64 v : is_u64 v -> le_dec (le_enc 8 v) = v.
Proof. intros. by apply le_dec_enc. Qed.

(** ** Automation

    [zl] holds the length equations, [layout] resolves a slice of a buffer that
    was filled by a sequence of [put]s, and [reads] discharges the bounds checks
    of fixed-offset accesses. *)

Create Rewrite HintDb zl.
#[export] Hint Rewrite @zlen_nil @zlen_cons @zlen_app zlen_put zlen_le_enc : zl.
#[export] Hint Rewrite zlen_zeros using lia : zl.

Ltac zl := autorewrite with zl; try lia.
Ltac zlia := autorewrite with zl in *; lia.

(** The same three cases for an integer field at literal offsets, with the
    arithmetic decided by computation. *)
Lemma sl_le_before b k off v i n :
  (0 <=? i) && (0 <=? n) && (i + n <=? off) = true ->
  sl (put b off (le_enc k v)) i n = sl b i n.
Proof. intros H. apply sl_put_before; lia. Qed.

Lemma sl_le_after b k off v i n :
  (0 <=? off) && (0 <=? n) && (off + Z.of_nat k <=? i) = true ->
  sl (put b off (le_enc k v)) i n = sl b i n.
Proof. intros H. apply sl_put_after; rewrite ?zlen_le_enc; lia. Qed.

Lemma sl_le_same b k off v n :
  (0 <=? off) && (n =? Z.of_nat k) = true -> off + n <= zlen b ->
  sl (put b off (le_enc k v)) off n = le_enc k v.
Proof. intros H ?. apply sl_put_same; rewrite ?zlen_le_enc; lia. Qed.

Ltac layout_step :=
  match goal with
  | |- context [sl (put ?b ?o (le_enc ?k ?v)) ?i ?n] =>
      first
        [ rewrite (sl_le_before b k o v i n eq_refl)
        | rewrite (sl_le_after b k o v i n eq_refl)
        | rewrite (sl_le_same b k o v n eq_refl) by (rewrite ?zlen_put; zl) ]
  | |- context [sl (put ?b ?o ?s) ?i ?n] =>
      first
        [ rewrite (sl_put_before b o s i n) by lia
        | rewrite (sl_put_after b o s i n) by (autorewrite with zl; lia)
        | rewrite (sl_put_same b o s n) by (autorewrite with zl; lia) ]
  end.
Ltac layout := unfold put8, put16, put32, put64; repeat layout_step.

(** Discharges bounds checks from a length fact in the context. *)
Ltac reads :=
  repeat match goal with
  | |- context [at8 ?b ?o] => rewrite (at8_ok b o) by lia
  | |- context [u16at ?b ?o] => rewrite (u16at_ok b o) by lia
  | |- context [u32at ?b ?o] => rewrite (u32at_ok b o) by lia
  | |- context [u64at ?b ?o] => rewrite (u64at_ok b o) by lia
  | |- context [slice ?b ?i (?i + ?n)] => rewrite (slice_len b i n) by lia
  | |- context [slice ?b ?i ?j] =>
      let n := eval vm_compute in (j - i) in
      rewrite (slice_n b i j n eq_refl) by lia
  end.

(** Decodes an encoded field back to its value. *)
Ltac fields :=
  repeat match goal with
  | |- context [le_dec (le_enc 1 ?v)] => rewrite (le_dec_u8 v) by (unfold is_u8 in *; lia)
  | |- context [le_dec (le_enc 2 ?v)] => rewrite (le_dec_u16 v) by (unfold is_u16 in *; lia)
  | |- context [le_dec (le_enc 4 ?v)] => rewrite (le_dec_u32 v) by (unfold is_u32 in *; lia)
  | |- context [le_dec (le_enc 8 ?v)] => rewrite (le_dec_u64 v) by (unfold is_u64 in *; lia)
  end.

(** Peels a [let*] chain in a hypothesis: each bind must have produced [Ok]. *)
Ltac binds H :=
  repeat match type of H with
  | context [match ?c with Ok _ => _ | Err _ => _ | Panic => _ end] =>
      let E := fresh "E" in destruct c eqn:E; [|discriminate H|discriminate H]
  | context [if ?c then _ else _] =>
      let E := fresh "C" in destruct c eqn:E; try discriminate H
  end.

(** Go byte-slice comparison, [string(a) == string(b)]. *)
Definition bytes_eqb (a b : bytes) : bool := bool_decide (a = b).

Lemma bytes_eqb_refl a : bytes_eqb a a = true.
Proof. by apply bool_decide_eq_true. Qed.

Lemma bytes_eqb_eq a b : bytes_eqb a b = true <-> a = b.
Proof. apply bool_decide_eq_true. Qed.
