(* ===== verification/Ordered.v ===== *)
(** Byte-lexicographic order ([bytes.Compare], [sort.Strings]) and the binary search
    of Go's sort package ([sort.Search]), shared by the components that keep sorted
    arrays. *)

From S2P Require Import Prelude.
From stdpp Require Import sorting.
#[local] Open Scope Z_scope.

(** ** bytes.Compare *)

Fixpoint bytes_Compare (a b : bytes) : comparison :=
  match a, b with
  | [], [] => Eq
  | [], _ => Lt
  | _, [] => Gt
  | x :: a', y :: b' =>
      match byte_Z x ?= byte_Z y with
      | Eq => bytes_Compare a' b'
      | c => c
      end
  end.

Definition bytes_lt (a b : bytes) : Prop := bytes_Compare a b = Lt.
Definition bytes_le (a b : bytes) : Prop := bytes_Compare a b <> Gt.

#[global] Instance bytes_lt_dec : RelDecision bytes_lt.
Proof. intros a b. unfold bytes_lt. apply _. Defined.
#[global] Instance bytes_le_dec : RelDecision bytes_le.
Proof. intros a b. unfold bytes_le. apply _. Defined.

Lemma bytes_Compare_refl a : bytes_Compare a a = Eq.
Proof. induction a as [|x a IH]; [done|]. cbn. by rewrite Z.compare_refl. Qed.

Lemma bytes_Compare_eq a b : bytes_Compare a b = Eq -> a = b.
Proof.
  revert b. induction a as [|x a IH]; intros [|y b]; try done. cbn.
  destruct (Z.compare_spec (byte_Z x) (byte_Z y)) as [E| |]; try done.
  intros H%IH. by rewrite (byte_Z_inj _ _ E), H.
Qed.

Lemma bytes_Compare_antisym a b : bytes_Compare b a = CompOpp (bytes_Compare a b).
Proof.
  revert b. induction a as [|x a IH]; intros [|y b]; try done. cbn.
  rewrite (Z.compare_antisym (byte_Z x) (byte_Z y)). destruct (byte_Z x ?= byte_Z y); cbn; auto.
Qed.

Lemma bytes_lt_trans a b c : bytes_lt a b -> bytes_lt b c -> bytes_lt a c.
Proof.
  unfold bytes_lt. revert b c. induction a as [|x a IH]; intros [|y b] [|z c]; try done. cbn.
  destruct (Z.compare_spec (byte_Z x) (byte_Z y)), (Z.compare_spec (byte_Z y) (byte_Z z)),
    (Z.compare_spec (byte_Z x) (byte_Z z)); try done; try lia; eauto.
Qed.

Lemma bytes_le_lteq a b : bytes_le a b <-> bytes_lt a b \/ a = b.
Proof.
  unfold bytes_le, bytes_lt. split.
  - destruct (bytes_Compare a b) eqn:E; try done; [|by left].
    right. by apply bytes_Compare_eq.
  - intros [-> | ->]; [done|]. by rewrite bytes_Compare_refl.
Qed.

Lemma bytes_lt_not_le a b : bytes_lt a b <-> ~ bytes_le b a.
Proof.
  unfold bytes_lt, bytes_le. rewrite (bytes_Compare_antisym b a).
  destruct (bytes_Compare b a); cbn; naive_solver.
Qed.

#[global] Instance bytes_lt_strict : StrictOrder bytes_lt.
Proof.
  split.
  - intros a H. unfold bytes_lt in H. by rewrite bytes_Compare_refl in H.
  - intros a b c. apply bytes_lt_trans.
Qed.

#[global] Instance bytes_le_trans : Transitive bytes_le.
Proof.
  intros a b c. rewrite !bytes_le_lteq. intros [H | ->] [H' | ->]; eauto using bytes_lt_trans.
Qed.

#[global] Instance bytes_le_total : Total bytes_le.
Proof.
  intros a b. destruct (decide (bytes_le a b)) as [|n]; [by left|right].
  apply bytes_lt_not_le in n. apply bytes_le_lteq. by left.
Qed.

#[global] Instance bytes_le_antisym : AntiSymm (=) bytes_le.
Proof.
  intros a b. rewrite !bytes_le_lteq. intros [H|?] [H'|?]; try done.
  exfalso. by apply (StrictOrder_Irreflexive a), (bytes_lt_trans _ b).
Qed.

(** A prefix sorts at or below the string it is cut from. *)
Lemma bytes_le_prefix a b : bytes_le a (a ++ b).
Proof.
  unfold bytes_le. induction a as [|x a IH]; cbn; [by destruct b|]. by rewrite Z.compare_refl.
Qed.

(** ** sort.Search *)

(** [i, j := 0, n; for i < j { h := (i+j)/2; if !f(h) { i = h+1 } else { j = h } }] *)
Fixpoint search_loop (fuel : nat) (f : nat -> bool) (i j : nat) : nat :=
  match fuel with
  | O => i
  | S fuel' =>
      if decide (i < j)%nat then
        let h := Nat.div2 (i + j) in
        if f h then search_loop fuel' f i h else search_loop fuel' f (S h) j
      else i
  end.

Definition sort_Search (n : nat) (f : nat -> bool) : nat := search_loop n f 0 n.

Definition mono (n : nat) (f : nat -> bool) : Prop :=
  forall i j, (i <= j < n)%nat -> f i = true -> f j = true.

(** [r] splits the range into a false and a true part. *)
Definition splits (n : nat) (f : nat -> bool) (r : nat) : Prop :=
  (r <= n)%nat /\ (forall i, (i < r)%nat -> f i = false) /\ (forall i, (r <= i < n)%nat -> f i = true).

Lemma splits_fun n f r r' : splits n f r -> splits n f r' -> r = r'.
Proof.
  intros (?&Hf&Ht) (?&Hf'&Ht'). destruct (Nat.lt_trichotomy r r') as [|[|]]; [|done|].
  - specialize (Hf' r). rewrite Ht in Hf' by lia. discriminate Hf'. lia.
  - specialize (Hf r'). rewrite Ht' in Hf by lia. discriminate Hf. lia.
Qed.

Lemma search_loop_spec n f : mono n f -> forall fuel i j,
  (i <= j <= n)%nat -> (j - i <= fuel)%nat ->
  (forall k, (k < i)%nat -> f k = false) -> (forall k, (j <= k < n)%nat -> f k = true) ->
  splits n f (search_loop fuel f i j).
Proof.
  intros Hm. induction fuel as [|fuel IH]; intros i j Hij Hfuel Hlo Hhi; cbn [search_loop].
  { assert (i = j) as -> by lia. by split_and!; [lia| |]. }
  destruct (decide (i < j)%nat) as [Hlt|]; cycle 1.
  { assert (i = j) as -> by lia. by split_and!; [lia| |]. }
  assert (i <= Nat.div2 (i + j) < j)%nat as [Hh1 Hh2].
  { rewrite Nat.div2_div. split; [apply Nat.div_le_lower_bound|apply Nat.Div0.div_lt_upper_bound]; lia. }
  set (h := Nat.div2 (i + j)) in *. destruct (f h) eqn:E; apply IH; try lia; try done.
  - intros k Hk. apply (Hm h k); [lia|done].
  - intros k Hk. destruct (f k) eqn:Ek; [|done]. rewrite (Hm k h) in E; [done|lia|done].
Qed.

(** On a predicate that is false up to some point and true from there on, the
    search returns that point. *)
Lemma sort_Search_spec n f : mono n f -> splits n f (sort_Search n f).
Proof. intros Hm. apply search_loop_spec; try done; lia. Qed.

Lemma sort_Search_eq n f r : splits n f r -> sort_Search n f = r.
Proof.
  intros Hs. apply (splits_fun n f); [|done]. apply sort_Search_spec.
  intros i j Hij Hi. destruct Hs as (Hr & Hf & Ht). apply Ht. split; [|lia].
  destruct (decide (r <= i)%nat); [lia|]. rewrite Hf in Hi by lia. done.
Qed.

(** ** Byte strings as map keys *)

#[global] Instance byte_countable : Countable byte.
Proof. exact (inj_countable' byte_Z Z_byte Z_byte_byte_Z). Defined.

(** The keys of a map in [sort.Strings] order. *)
Definition sorted_keys {V} (m : gmap bytes V) : list bytes :=
  merge_sort bytes_le ((map_to_list m).*1).

Lemma sorted_keys_elem {V} (m : gmap bytes V) k : k ∈ sorted_keys m <-> is_Some (m !! k).
Proof.
  unfold sorted_keys. rewrite merge_sort_Permutation, list_elem_of_fmap. split.
  - intros ([k' v] & -> & H%elem_of_map_to_list). by eexists.
  - intros [v H]. exists (k, v). by rewrite elem_of_map_to_list.
Qed.

Lemma sorted_le_NoDup_lt l : StronglySorted bytes_le l -> NoDup l -> StronglySorted bytes_lt l.
Proof.
  induction 1 as [|x l Hs IH Hf]; intros Hn; [constructor|].
  apply NoDup_cons in Hn as [Hx Hn]. constructor; [by apply IH|].
  apply Forall_forall. intros y Hy. eapply Forall_forall in Hf; [|done].
  apply bytes_le_lteq in Hf as [|<-]; done.
Qed.

Lemma sorted_keys_sorted {V} (m : gmap bytes V) : StronglySorted bytes_lt (sorted_keys m).
Proof.
  apply sorted_le_NoDup_lt.
  - apply (StronglySorted_merge_sort _).
  - unfold sorted_keys. rewrite merge_sort_Permutation. apply NoDup_fst_map_to_list.
Qed.
