(* ===== verification/Loop.v ===== *)
(** Go [for] loops whose bound is a 64-bit quantity.

    [loop n body s] runs [body] at most [n] times from [s].  A [body] step either
    continues with a new state ([inl]) or leaves the loop with a result ([inr]);
    [inl] out of the whole loop means the budget ran out.  The budget is a binary
    number and the recursion doubles, so a budget of 2^64 costs nothing beyond the
    steps the loop takes, and the definitions stay executable.  [loop_measure] is
    the termination rule every loop of the development goes through. *)

From S2P Require Import Prelude.

Section loop.
Context {S A : Type} (body : S -> S + A).

Fixpoint loop (n : positive) (s : S) : S + A :=
  match n with
  | xH => body s
  | xO n' =>
      match loop n' s with inl s' => loop n' s' | inr a => inr a end
  | xI n' =>
      match body s with
      | inl s1 =>
          match loop n' s1 with inl s' => loop n' s' | inr a => inr a end
      | inr a => inr a
      end
  end.

(** The same loop counted in unary, for proofs by induction. *)
Fixpoint loopn (n : nat) (s : S) : S + A :=
  match n with
  | O => inl s
  | Datatypes.S n' => match body s with inl s' => loopn n' s' | inr a => inr a end
  end.

Lemma loopn_add n m s :
  loopn (n + m) s = match loopn n s with inl s' => loopn m s' | inr a => inr a end.
Proof.
  revert s. induction n as [|n IH]; intros s; simpl; [done|].
  destruct (body s) as [s'|a]; [apply IH|done].
Qed.

Lemma loop_loopn n s : loop n s = loopn (Pos.to_nat n) s.
Proof.
  revert s. induction n as [n IH|n IH|]; intros s; cbn [loop].
  - rewrite Pos2Nat.inj_xI.
    replace (2 * Pos.to_nat n)%nat with (Pos.to_nat n + Pos.to_nat n)%nat by lia.
    cbn [loopn]. destruct (body s) as [s1|a]; [|done].
    rewrite loopn_add, <- IH. destruct (loop n s1); [apply IH|done].
  - rewrite Pos2Nat.inj_xO.
    replace (2 * Pos.to_nat n)%nat with (Pos.to_nat n + Pos.to_nat n)%nat by lia.
    rewrite loopn_add, <- IH. destruct (loop n s); [apply IH|done].
  - change (Pos.to_nat 1) with 1%nat. cbn [loopn]. by destruct (body s).
Qed.

(** Once the loop has left, a larger budget does not change the result. *)
Lemma loopn_mono n m s a : (n <= m)%nat -> loopn n s = inr a -> loopn m s = inr a.
Proof.
  intros Hle H. replace m with (n + (m - n))%nat by lia.
  by rewrite loopn_add, H.
Qed.

(** Termination with a postcondition: an invariant under which every
    continuing step decreases a measure that starts below the budget. *)
Lemma loop_measure (Inv : S -> Prop) (m : S -> Z) (Q : A -> Prop) n s :
  (forall s, Inv s ->
     match body s with
     | inl s' => Inv s' /\ 0 <= m s' < m s
     | inr a => Q a
     end) ->
  Inv s -> 0 <= m s < Z.pos n ->
  exists a, loop n s = inr a /\ Q a.
Proof.
  intros Hstep Hi Hm. rewrite loop_loopn.
  assert (Z.to_nat (m s) < Pos.to_nat n)%nat as Hk by lia.
  generalize dependent (Pos.to_nat n). intros k Hk.
  revert k Hk Hi Hm. generalize s as s0. clear s.
  intros s0 k. revert s0. induction k as [|k IH]; intros s0 Hk Hi Hm; [lia|].
  simpl. specialize (Hstep s0 Hi). destruct (body s0) as [s'|a]; [|eauto].
  destruct Hstep as [Hi' Hm']. apply IH; [lia|done|lia].
Qed.

(** The run of a loop as a relation, and its agreement with the function. *)
Inductive leaves : S -> A -> Prop :=
| leaves_now s a : body s = inr a -> leaves s a
| leaves_step s s' a : body s = inl s' -> leaves s' a -> leaves s a.

Lemma loopn_leaves n s a : loopn n s = inr a -> leaves s a.
Proof.
  revert s. induction n as [|n IH]; intros s; simpl; [done|].
  destruct (body s) as [s'|b] eqn:E.
  - intros H. eapply leaves_step; [done|]. by apply IH.
  - intros [= ->]. by apply leaves_now.
Qed.

Lemma loop_leaves n s a : loop n s = inr a -> leaves s a.
Proof. rewrite loop_loopn. apply loopn_leaves. Qed.

Lemma leaves_det s a b : leaves s a -> leaves s b -> a = b.
Proof.
  intros H. revert b. induction H as [s a E|s s' a E _ IH]; intros c Hc;
    inversion Hc as [? ? E'|? ? ? E' H']; subst; rewrite E in E'; simplify_eq; eauto.
Qed.

(** A terminating loop computes the result of any run. *)
Lemma loop_eq n s a b : loop n s = inr b -> leaves s a -> loop n s = inr a.
Proof.
  intros H Ha. rewrite H. f_equal. eapply leaves_det; [|done]. by apply loop_leaves in H.
Qed.
End loop.

#[export] Hint Constructors leaves : core.

(** The budget of the loops that step a 64-bit counter. *)
Abbreviation fuel64 := 36893488147419103232%positive.
