(* ===== verification/Crc.v ===== *)
(** CRC32C, the checksum under every header, root and frame of the file.

    [crc32c] and [checksum] model the functions of engine/f3/akifile/format.go;
    the table-driven update is Go's [crc32.Update] with the Castagnoli
    polynomial.  The theorems show that the multi-span sum is the sum of the
    concatenation, that a sum always fits its 32-bit field, and that every
    corruption confined to four consecutive bytes changes the sum. *)

From S2P Require Import Prelude.

(** ** The register *)

(** The reflected Castagnoli polynomial 0x82F63B78. *)
Definition castagnoli : Z := 2197175160.
Definition mask32 : Z := 4294967295.

(** One bit of the reflected division. *)
Definition bit_step (c : Z) : Z :=
  if Z.odd c then Z.lxor (Z.shiftr c 1) castagnoli else Z.shiftr c 1.

(** Eight bits at once; [tab i] is entry [i] of [crc32.MakeTable]. *)
Definition tab (i : Z) : Z := Nat.iter 8 bit_step i.

(** [tab[byte(crc)^v] ^ (crc >> 8)] *)
Definition crc_byte (c : Z) (v : byte) : Z :=
  Z.lxor (tab (Z.lxor (Z.land c 255) (byte_Z v))) (Z.shiftr c 8).

(** [crc32.Update]: complement, absorb, complement. *)
Definition crc_update (c : Z) (p : bytes) : Z :=
  Z.lxor (fold_left crc_byte p (Z.lxor c mask32)) mask32.

(** [crc32c(spans...)]: the running sum over the spans in order. *)
Definition crc32c_spans (spans : list bytes) : Z := fold_left crc_update spans 0.
Definition crc32c (b : bytes) : Z := crc32c_spans [b].

(** Checksum kinds, as stored in the prefix. *)
Definition ChecksumCRC32C : Z := 1.
Definition ChecksumXXH3 : Z := 2.

(** [checksum(kind, spans...)]; [None] is the code's [ok = false]. *)
Definition checksum_spans (kind : Z) (spans : list bytes) : option Z :=
  if kind =? ChecksumCRC32C then Some (crc32c_spans spans) else None.
Definition checksum (kind : Z) (b : bytes) : option Z := checksum_spans kind [b].

(** ** Bounds and linearity *)

Definition is_reg (c : Z) : Prop := 0 <= c < two32.

Lemma lxor_bound n a b :
  0 <= n -> 0 <= a < 2 ^ n -> 0 <= b < 2 ^ n -> 0 <= Z.lxor a b < 2 ^ n.
Proof.
  intros Hn Ha Hb.
  assert (0 <= Z.lxor a b) as H0 by (apply Z.lxor_nonneg; lia).
  split; [done|].
  destruct (Z.eq_dec (Z.lxor a b) 0) as [->|Hne]; [apply Z.pow_pos_nonneg; lia|].
  apply Z.log2_lt_pow2; [lia|].
  assert (forall x, 0 <= x < 2 ^ n -> x <> 0 -> Z.log2 x < n) as Hl.
  { intros x Hx Hx0. apply Z.log2_lt_pow2; lia. }
  assert (forall x, 0 <= x < 2 ^ n -> Z.log2 x < n \/ x = 0) as Hl'.
  { intros x Hx. destruct (Z.eq_dec x 0); [by right|left; by apply Hl]. }
  destruct (Hl' a Ha) as [La| ->], (Hl' b Hb) as [Lb| ->].
  - pose proof (Z.log2_lxor a b). lia.
  - by rewrite Z.lxor_0_r in *.
  - by rewrite Z.lxor_0_l in *.
  - done.
Qed.

Lemma lxor_reg a b : is_reg a -> is_reg b -> is_reg (Z.lxor a b).
Proof. intros. by apply (lxor_bound 32). Qed.

Lemma lxor_lower n a b :
  0 <= n -> 0 <= b < 2 ^ n -> 0 <= Z.lxor a b < 2 ^ n -> 0 <= a < 2 ^ n.
Proof.
  intros Hn Hb Hx.
  replace a with (Z.lxor (Z.lxor a b) b).
  - by apply lxor_bound.
  - by rewrite Z.lxor_assoc, Z.lxor_nilpotent, Z.lxor_0_r.
Qed.

Lemma byte_reg v : is_reg (byte_Z v).
Proof. unfold is_reg. pose proof (byte_Z_range v). lia. Qed.

Lemma bit_step_xor a b : bit_step (Z.lxor a b) = Z.lxor (bit_step a) (bit_step b).
Proof.
  unfold bit_step.
  assert (Z.odd (Z.lxor a b) = xorb (Z.odd a) (Z.odd b)) as ->.
  { rewrite <- !Z.bit0_odd. apply Z.lxor_spec. }
  rewrite Z.shiftr_lxor.
  destruct (Z.odd a), (Z.odd b); cbn [xorb]; apply Z.bits_inj'; intros i _;
    rewrite !Z.lxor_spec; generalize (Z.testbit castagnoli i);
    intros t; destruct (Z.testbit _ i), (Z.testbit _ i), t; done.
Qed.

Lemma tab_xor a b : tab (Z.lxor a b) = Z.lxor (tab a) (tab b).
Proof. unfold tab. simpl. by rewrite !bit_step_xor. Qed.

Lemma bit_step_half x : bit_step (2 * x) = x.
Proof.
  unfold bit_step. rewrite Z.odd_mul. simpl.
  rewrite Z.shiftr_div_pow2 by lia. change (2 ^ 1) with 2.
  rewrite Z.mul_comm. by apply Z.div_mul.
Qed.

(** The table form is eight bit steps of the whole register. *)
Lemma crc_byte_tab c v : 0 <= c -> crc_byte c v = tab (Z.lxor c (byte_Z v)).
Proof.
  intros Hc. unfold crc_byte.
  assert (c = Z.lxor (Z.land c 255) (Z.shiftl (Z.shiftr c 8) 8)) as Hsplit.
  { apply Z.bits_inj'. intros i Hi.
    rewrite Z.lxor_spec, Z.land_spec, Z.shiftl_spec by done.
    change 255 with (Z.ones 8).
    destruct (Z.ltb_spec i 8).
    - rewrite Z.ones_spec_low by lia.
      rewrite (Z.testbit_neg_r _ (i - 8)) by lia.
      by destruct (Z.testbit c i).
    - rewrite Z.ones_spec_high by lia.
      rewrite Z.shiftr_spec by lia. replace (i - 8 + 8) with i by lia.
      by destruct (Z.testbit c i). }
  rewrite Hsplit at 3.
  rewrite (Z.lxor_comm (Z.land c 255) (Z.shiftl _ _)).
  rewrite Z.lxor_assoc, (tab_xor (Z.shiftl _ _)). rewrite Z.lxor_comm. f_equal.
  rewrite Z.shiftl_mul_pow2 by lia. change (2 ^ 8) with 256.
  generalize (Z.shiftr c 8); intros q.
  replace (q * 256) with (2 * (2 * (2 * (2 * (2 * (2 * (2 * (2 * q)))))))) by lia.
  unfold tab. cbn [Nat.iter nat_rect]. by rewrite !bit_step_half.
Qed.

Lemma bit_step_reg c : is_reg c -> is_reg (bit_step c).
Proof.
  intros Hc. assert (is_reg (Z.shiftr c 1)).
  { unfold is_reg in *. rewrite Z.shiftr_div_pow2 by lia. change (2 ^ 1) with 2.
    pose proof (Z.div_mod c 2). pose proof (Z.mod_pos_bound c 2). lia. }
  unfold bit_step. destruct (Z.odd c); [|done]. by apply lxor_reg.
Qed.

Lemma tab_reg c : is_reg c -> is_reg (tab c).
Proof. intros. unfold tab. simpl. by do 8 apply bit_step_reg. Qed.

Lemma crc_byte_reg c v : is_reg c -> is_reg (crc_byte c v).
Proof.
  intros Hc. rewrite crc_byte_tab by (unfold is_reg in Hc; lia).
  apply tab_reg, lxor_reg; [done|apply byte_reg].
Qed.

Lemma crc_fold_reg p c : is_reg c -> is_reg (fold_left crc_byte p c).
Proof.
  revert c. induction p as [|v p IH]; intros c Hc; simpl; [done|].
  by apply IH, crc_byte_reg.
Qed.

Lemma crc_update_reg c p : is_reg c -> is_reg (crc_update c p).
Proof.
  intros. unfold crc_update.
  apply lxor_reg; [|done]. apply crc_fold_reg. by apply lxor_reg.
Qed.

Lemma crc32c_spans_reg spans : is_reg (crc32c_spans spans).
Proof.
  unfold crc32c_spans. assert (is_reg 0) as H0 by done. revert H0. generalize 0.
  induction spans as [|s spans IH]; intros c Hc; simpl; [done|].
  by apply IH, crc_update_reg.
Qed.

Lemma crc32c_u32 b : is_u32 (crc32c b).
Proof. apply crc32c_spans_reg. Qed.

Lemma crc_update_app c p q : crc_update (crc_update c p) q = crc_update c (p ++ q).
Proof.
  unfold crc_update. rewrite fold_left_app.
  by rewrite (Z.lxor_assoc _ mask32 mask32), Z.lxor_nilpotent, Z.lxor_0_r.
Qed.

Lemma crc32c_spans_concat spans : crc32c_spans spans = crc32c (concat spans).
Proof.
  unfold crc32c, crc32c_spans. simpl. generalize 0.
  assert (forall c, crc_update c [] = c) as Hnil.
  { intros c. unfold crc_update. simpl.
    by rewrite Z.lxor_assoc, Z.lxor_nilpotent, Z.lxor_0_r. }
  induction spans as [|s spans IH]; intros c; simpl; [by rewrite Hnil|].
  by rewrite IH, crc_update_app.
Qed.

Lemma checksum_CRC32C b : checksum ChecksumCRC32C b = Some (crc32c b).
Proof. done. Qed.

Lemma checksum_u64 kind spans s : checksum_spans kind spans = Some s -> is_u64 s.
Proof.
  unfold checksum_spans. destruct (kind =? _); [|done]. intros [= <-].
  pose proof (crc32c_spans_reg spans). unfold is_reg, is_u64 in *. lia.
Qed.

(** ** Detection *)

(** The difference of two registers evolves by [tab] of the combined
    differences, whatever the common data. *)
Lemma crc_byte_diff c c' v v' :
  0 <= c -> 0 <= c' ->
  Z.lxor (crc_byte c v) (crc_byte c' v')
  = tab (Z.lxor (Z.lxor c c') (Z.lxor (byte_Z v) (byte_Z v'))).
Proof.
  intros. rewrite !crc_byte_tab, <- tab_xor by done. f_equal.
  rewrite !Z.lxor_assoc. f_equal. rewrite <- !Z.lxor_assoc. f_equal. apply Z.lxor_comm.
Qed.

(** A register whose successor is small was even: the top bit of the polynomial
    would have shown. *)
Lemma bit_step_small m d :
  is_reg d -> 0 <= m <= 31 -> bit_step d < 2 ^ m -> d = 2 * bit_step d.
Proof.
  intros Hd Hm. unfold bit_step. destruct (Z.odd d) eqn:Ho; intros Hs.
  - exfalso.
    assert (Z.testbit (Z.lxor (Z.shiftr d 1) castagnoli) 31 = true) as Hb.
    { rewrite Z.lxor_spec, Z.shiftr_spec by lia.
      rewrite (Z.bits_above_log2 d (31 + 1)); [done|unfold is_reg in Hd; lia|].
      destruct (Z.eq_dec d 0) as [->|]; [done|].
      apply Z.log2_lt_pow2; unfold is_reg in Hd; lia. }
    assert (Z.testbit (Z.lxor (Z.shiftr d 1) castagnoli) 31 = false) as Hb'; [|congruence].
    assert (0 <= Z.lxor (Z.shiftr d 1) castagnoli).
    { apply Z.lxor_nonneg. rewrite Z.shiftr_nonneg. unfold is_reg in Hd.
      unfold castagnoli. lia. }
    destruct (Z.eq_dec (Z.lxor (Z.shiftr d 1) castagnoli) 0) as [->|]; [by rewrite Z.bits_0|].
    apply Z.bits_above_log2; [done|].
    apply Z.lt_le_trans with m; [apply Z.log2_lt_pow2; lia|lia].
  - rewrite Z.shiftr_div_pow2 by lia. change (2 ^ 1) with 2.
    assert (Z.even d = true) as He by (by rewrite <- Z.negb_odd, Ho).
    apply Z.even_spec in He as [k ->].
    rewrite Z.mul_comm at 2. by rewrite Z.div_mul.
Qed.

Lemma iter_bit_step_reg k d : is_reg d -> is_reg (Nat.iter k bit_step d).
Proof. intros Hd. induction k as [|k IH]; [done|]. simpl. by apply bit_step_reg. Qed.

Lemma iter_bit_step_small k m d :
  is_reg d -> 0 <= m -> m + Z.of_nat k <= 32 -> Nat.iter k bit_step d < 2 ^ m ->
  d = 2 ^ Z.of_nat k * Nat.iter k bit_step d.
Proof.
  intros Hd. revert m. induction k as [|k IH]; intros m H0 Hm Hs; [by rewrite Z.mul_1_l|].
  change (Nat.iter (S k) bit_step d) with (bit_step (Nat.iter k bit_step d)) in *.
  assert (Nat.iter k bit_step d = 2 * bit_step (Nat.iter k bit_step d)) as He.
  { eapply bit_step_small; [by apply iter_bit_step_reg| |exact Hs]. lia. }
  assert (d = 2 ^ Z.of_nat k * Nat.iter k bit_step d) as Hk.
  { apply (IH (m + 1)); [lia|lia|]. rewrite He, Z.pow_add_r by lia. lia. }
  rewrite Hk at 1. rewrite He at 1. rewrite Nat2Z.inj_succ, Z.pow_succ_r by lia. lia.
Qed.

Lemma tab_small m d :
  is_reg d -> 0 <= m <= 24 -> tab d < 2 ^ m -> d = 256 * tab d.
Proof. intros. apply (iter_bit_step_small 8 m); [done|lia|lia|done]. Qed.

Lemma tab_zero d : is_reg d -> tab d = 0 -> d = 0.
Proof. intros Hd H0. rewrite (tab_small 0 d); [lia|done|lia|lia]. Qed.

(** A common suffix never cancels a difference. *)
Lemma crc_fold_inj s c c' :
  is_reg c -> is_reg c' ->
  fold_left crc_byte s c = fold_left crc_byte s c' -> c = c'.
Proof.
  revert c c'. induction s as [|v s IH]; intros c c' Hc Hc' H; [done|].
  simpl in H. apply IH in H; [|by apply crc_byte_reg..].
  apply Z.lxor_eq. apply tab_zero; [by apply lxor_reg|].
  assert (Z.lxor (crc_byte c v) (crc_byte c' v) = 0) as Hx by (rewrite H; apply Z.lxor_nilpotent).
  rewrite crc_byte_diff, Z.lxor_nilpotent, Z.lxor_0_r in Hx
    by (unfold is_reg in *; lia).
  done.
Qed.

Lemma byte_xor_range v v' : 0 <= Z.lxor (byte_Z v) (byte_Z v') < 2 ^ 8.
Proof. apply lxor_bound; [lia|apply byte_Z_range..]. Qed.

(** If [n] absorbed bytes cancel a difference, it was below [2^(8n)]. *)
Lemma crc_window_bound x y c c' :
  length x = length y -> zlen x <= 4 -> is_reg c -> is_reg c' ->
  fold_left crc_byte x c = fold_left crc_byte y c' ->
  0 <= Z.lxor c c' < 2 ^ (8 * zlen x).
Proof.
  revert y c c'. induction x as [|v x IH]; intros [|v' y] c c' Hlen H4 Hc Hc' H;
    try discriminate Hlen.
  { simpl in H. rewrite H, Z.lxor_nilpotent. done. }
  rewrite zlen_cons in *. pose proof (zlen_nonneg x).
  simpl in H. apply IH in H; [|by injection Hlen|lia|by apply crc_byte_reg..].
  rewrite crc_byte_diff in H by (unfold is_reg in *; lia).
  pose proof (byte_xor_range v v') as Hb.
  set (e := Z.lxor (byte_Z v) (byte_Z v')) in *.
  assert (is_reg (Z.lxor (Z.lxor c c') e)) as Hr.
  { apply lxor_reg; [by apply lxor_reg|]. unfold is_reg. lia. }
  pose proof (tab_small (8 * zlen x) _ Hr ltac:(lia) ltac:(lia)) as Ht.
  apply (lxor_lower (8 * (1 + zlen x)) _ e); [lia| |].
  - split; [lia|]. apply Z.lt_le_trans with (2 ^ 8); [lia|].
    apply Z.pow_le_mono_r; lia.
  - replace (8 * (1 + zlen x)) with (8 + 8 * zlen x) by lia.
    rewrite Z.pow_add_r by lia. lia.
Qed.

Lemma crc_window x y c :
  length x = length y -> zlen x <= 4 -> is_reg c ->
  fold_left crc_byte x c = fold_left crc_byte y c -> x = y.
Proof.
  revert y c. induction x as [|v x IH]; intros [|v' y] c Hlen H4 Hc H;
    try discriminate Hlen; [done|].
  rewrite zlen_cons in *. simpl in H. pose proof (zlen_nonneg x).
  pose proof (crc_window_bound x y _ _ ltac:(by injection Hlen) ltac:(lia)
                (crc_byte_reg c v Hc) (crc_byte_reg c v' Hc) H) as Hb.
  rewrite crc_byte_diff, Z.lxor_nilpotent, Z.lxor_0_l in Hb by (unfold is_reg in *; lia).
  pose proof (byte_xor_range v v') as Hr.
  assert (is_reg (Z.lxor (byte_Z v) (byte_Z v'))) as Hreg by (unfold is_reg; lia).
  pose proof (tab_small (8 * zlen x) _ Hreg ltac:(lia) ltac:(lia)) as Ht.
  assert (Z.lxor (byte_Z v) (byte_Z v') = 0) as He by lia.
  apply Z.lxor_eq, byte_Z_inj in He as ->.
  f_equal. eapply IH; [by injection Hlen|lia|exact (crc_byte_reg c v' Hc)|done].
Qed.

Lemma crc32c_burst p x y s :
  length x = length y -> zlen x <= 4 ->
  crc32c (p ++ x ++ s) = crc32c (p ++ y ++ s) -> x = y.
Proof.
  intros Hlen H4. unfold crc32c, crc32c_spans. simpl. unfold crc_update.
  intros H. apply (f_equal (fun z => Z.lxor z mask32)) in H.
  rewrite !(Z.lxor_assoc _ mask32 mask32), Z.lxor_nilpotent, !Z.lxor_0_r in H.
  rewrite !fold_left_app in H.
  assert (is_reg (fold_left crc_byte p (Z.lxor 0 mask32))) as Hp by by apply crc_fold_reg.
  apply crc_fold_inj in H; [|by apply crc_fold_reg..].
  by eapply crc_window.
Qed.
