(* ===== verification/Format.v ===== *)
(** Layout constants, errors and segment-grid arithmetic
    (engine/f3/akifile/format.go). *)

From S2P Require Import Prelude Crc.

(** ** Errors

    The package's error values, the two [io] errors the code produces or tests,
    [ErrIO] for a device failure and [ErrVisit] for an error a caller's visitor
    returned. *)
Inductive error : Type :=
| ErrMagic
| ErrMajor
| ErrChecksumKind
| ErrChecksum
| ErrShort
| ErrLength
| ErrCheckpoint
| ErrShardCount
| ErrReadOnly
| ErrSegStats
| ErrChunkDir
| ErrBarrier
| ErrNoBarrier
| ErrSnapshotWatermark
| errStopScan
| EOF
| ErrShortWrite
| ErrIO
| ErrVisit (code : Z).

#[global] Instance error_eq_dec : EqDecision error.
Proof. solve_decision. Defined.

Abbreviation R A := (res error A).

(** ** Constants *)

Definition Magic : bytes := str "AKI store v3" ++ zeros 4.
Definition FormatMajor : Z := 3.
Definition FormatMinor : Z := 0.
Definition PageSize : Z := 16384.
Definition SegmentAlign : Z := 4096.
Definition SlotCount : Z := 16384.
Definition PrefixSize : Z := 100.
Definition MetaSlotSize : Z := 128.
Definition SRTHeaderLen : Z := 40.
Definition SRTRowSize : Z := 80.
Definition SegHeaderLen : Z := 64.
Definition ExtentSize : Z := 24.
Definition MetaSlotAOff : Z := 4096.
Definition MetaSlotBOff : Z := 8192.

(** Segment kinds. *)
Definition KindLog : Z := 0.
Definition KindColdChunk : Z := 1.
Definition KindValueLog : Z := 2.
Definition KindIndexCkpt : Z := 3.
Definition KindChunkDir : Z := 4.
Definition KindSegStats : Z := 5.
Definition KindSRT : Z := 6.
Definition KindExtentTable : Z := 7.
Definition KindFreeMap : Z := 8.
Definition KindBarrier : Z := 9.
Definition KindTTLIndex : Z := 10.
Definition KindMetaKV : Z := 11.
Definition KindFree : Z := 12.

Definition ShardOwnerless : Z := 65535.

(** Segment header flag bits. *)
Definition SegSealed : Z := 1.
Definition SegCompactionOutput : Z := 2.
Definition SegBarrierFollows : Z := 4.
Definition SegDeltaCheckpoint : Z := 8.

(** [lia] sees through the size constants. *)
Create HintDb aki.
#[export] Hint Unfold PageSize SegmentAlign SlotCount PrefixSize MetaSlotSize
  SRTHeaderLen SRTRowSize SegHeaderLen ExtentSize MetaSlotAOff MetaSlotBOff
  is_u8 is_u16 is_u32 is_u64 : aki.
Ltac Zify.zify_pre_hook ::= autounfold with aki in *.

(** ** The segment grid *)

(** [(n + a - 1) &^ (a - 1)] on [uint64]. *)
Definition AlignUp (n a : Z) : Z := Z.ldiff (add64 n (a - 1)) (a - 1).

Definition SegmentSpan (payloadLen : Z) : Z :=
  AlignUp (add64 SegHeaderLen payloadLen) SegmentAlign.

Lemma ldiff_ones x k : 0 <= k -> Z.ldiff x (2 ^ k - 1) = x - x mod 2 ^ k.
Proof.
  intros Hk. replace (2 ^ k - 1) with (Z.ones k) by (rewrite Z.ones_equiv; lia).
  rewrite Z.ldiff_ones_r, Z.shiftr_div_pow2, Z.shiftl_mul_pow2 by done.
  pose proof (Z.div_mod x (2 ^ k)). pose proof (Z.pow_pos_nonneg 2 k). lia.
Qed.

Lemma AlignUp_spec n k :
  0 <= k < 64 -> 0 <= n -> n + 2 ^ k - 1 < two64 ->
  n <= AlignUp n (2 ^ k) < n + 2 ^ k /\ AlignUp n (2 ^ k) mod 2 ^ k = 0.
Proof.
  intros Hk Hn Hb. unfold AlignUp.
  pose proof (Z.pow_pos_nonneg 2 k) as Hp.
  rewrite add64_small, ldiff_ones by lia.
  set (x := n + (2 ^ k - 1)).
  pose proof (Z.mod_pos_bound x (2 ^ k)) as Hm.
  split; [unfold x in *; lia|].
  rewrite Zminus_mod, Zmod_mod, Z.sub_diag. apply Z.mod_0_l. lia.
Qed.

(** The span of a payload an allocator can hold: header and payload fit, the
    next segment starts on the grid, and less than one grid cell is padding. *)
Lemma SegmentSpan_spec n :
  0 <= n < two63 ->
  SegHeaderLen + n <= SegmentSpan n < SegHeaderLen + n + SegmentAlign
  /\ SegmentSpan n mod SegmentAlign = 0.
Proof.
  intros Hn. unfold SegmentSpan, SegHeaderLen, SegmentAlign in *.
  rewrite (add64_small 64 n) by lia.
  apply (AlignUp_spec (64 + n) 12); lia.
Qed.

Lemma SegmentSpan_ge n : 0 <= n < two63 -> SegHeaderLen + n <= SegmentSpan n.
Proof. intros. by apply SegmentSpan_spec. Qed.

Lemma SegmentSpan_pos n : 0 <= n < two63 -> 0 < SegmentSpan n.
Proof. intros Hn. pose proof (SegmentSpan_ge n Hn). lia. Qed.
