(* ===== verification/Rows.v ===== *)
(** Fixed-width row tables.

    Every root of the format that is a run of equal-size entries (the extent
    map, the shard root table, index checkpoints, seg-stats, the free map,
    barrier tails) is decoded by the same bounded loop.  [RowCodec] is the
    contract a row type owes that loop; the tables are proved against it and
    each row codec discharges it once. *)

From S2P Require Import Prelude Format.

Class RowCodec (A : Type) := {
  row_size : Z;
  row_enc : A -> bytes;
  row_dec : bytes -> R A;
  row_wf : A -> Prop;
  row_size_pos : 0 < row_size;
  zlen_row_enc : forall a, zlen (row_enc a) = row_size;
  row_dec_enc : forall a, row_wf a -> row_dec (row_enc a) = Ok a;
  row_dec_total : forall b,
    zlen b = row_size -> exists a, row_dec b = Ok a /\ row_wf a
}.

(** ** The decoding loop *)

Section decode.
Context {A : Type} (dec : bytes -> R A) (size : Z).

(** [for i := range rows { rows[i] = dec(payload[off:off+size]); off += size }] *)
Fixpoint decode_with (payload : bytes) (off : Z) (n : nat) : R (list A) :=
  match n with
  | O => Ok []
  | S n' =>
      let* s := slice payload off (off + size) in
      let* e := dec s in
      let* es := decode_with payload (off + size) n' in
      Ok (e :: es)
  end.

Lemma decode_with_enc (enc : A -> bytes) (wf : A -> Prop) pre es post :
  0 <= size ->
  (forall a, wf a -> zlen (enc a) = size) ->
  (forall a, wf a -> dec (enc a) = Ok a) ->
  Forall wf es ->
  decode_with (pre ++ concat (map enc es) ++ post) (zlen pre) (length es) = Ok es.
Proof.
  intros Hsz Hlen Hdec Hwf. revert pre.
  induction Hwf as [|e es He Hes IH]; intros pre; [done|].
  simpl. pose proof (zlen_nonneg pre).
  pose proof (zlen_nonneg (concat (map enc es))). pose proof (zlen_nonneg post).
  rewrite <- (app_assoc (enc e)).
  rewrite slice_len by (rewrite ?zlen_app, ?Hlen by done; lia).
  rewrite sl_mid by (by rewrite ?Hlen).
  rewrite Hdec by done.
  specialize (IH (pre ++ enc e)).
  rewrite zlen_app, Hlen, <- app_assoc in IH by done. by rewrite IH.
Qed.

Lemma decode_with_no_panic payload off n :
  0 <= size -> (forall b, zlen b = size -> no_panic (dec b)) ->
  0 <= off -> off + Z.of_nat n * size <= zlen payload ->
  no_panic (decode_with payload off n).
Proof.
  intros Hsz Hdec. unfold no_panic in *. revert off.
  induction n as [|n IH]; intros off Ho Hl; [done|].
  simpl. rewrite slice_len by lia.
  specialize (Hdec (sl payload off size)). rewrite zlen_sl in Hdec by lia.
  destruct (dec _); [|done|by destruct Hdec].
  specialize (IH (off + size)).
  destruct (decode_with payload _ n); [done|done|]. apply IH; lia.
Qed.
End decode.

Section rows.
Context {A : Type} `{!RowCodec A}.

Definition decode_rows : bytes -> Z -> nat -> R (list A) := decode_with row_dec row_size.

(** The rows an encoder appended one after another. *)
Definition encode_rows (es : list A) : bytes := concat (map row_enc es).

Lemma zlen_encode_rows es : zlen (encode_rows es) = zlen es * row_size.
Proof.
  unfold encode_rows. induction es as [|e es IH]; [done|].
  simpl. rewrite zlen_app, zlen_cons, zlen_row_enc, IH. lia.
Qed.

Lemma decode_encode_rows pre es post :
  Forall row_wf es ->
  decode_rows (pre ++ encode_rows es ++ post) (zlen pre) (length es) = Ok es.
Proof.
  intros Hwf. pose proof (row_size_pos (A:=A)).
  apply (decode_with_enc row_dec row_size row_enc row_wf); [lia| | |done].
  - intros. apply zlen_row_enc.
  - apply row_dec_enc.
Qed.

Lemma decode_rows_total payload off n :
  0 <= off -> off + Z.of_nat n * row_size <= zlen payload ->
  exists es, decode_rows payload off n = Ok es /\ length es = n /\ Forall row_wf es.
Proof.
  unfold decode_rows. revert off. induction n as [|n IH]; intros off Ho Hl; [by exists []|].
  pose proof row_size_pos. simpl.
  rewrite slice_len by lia.
  destruct (row_dec_total (sl payload off row_size)) as (e & -> & He);
    [apply zlen_sl; lia|].
  destruct (IH (off + row_size)) as (es & -> & <- & Hes); [lia|lia|].
  exists (e :: es). repeat split; auto.
Qed.
End rows.

(** The common shape of the flat tables: a header, then [count] rows, the count
    bounded against the bytes before any row is read. *)
Section table.
Context {A : Type} `{!RowCodec A}.

Definition table_rows (hdr : Z) (payload : bytes) (count : Z) : R (list A) :=
  if zlen payload <? hdr then Err ErrShort else
  let avail := (zlen payload - hdr) / row_size in
  if avail <? count then Err ErrLength else
  decode_rows payload hdr (Z.to_nat count).

Lemma table_rows_bounded hdr payload count :
  0 <= hdr -> hdr <= zlen payload -> 0 <= count ->
  count * row_size <= zlen payload - hdr ->
  exists es, table_rows hdr payload count = Ok es /\ zlen es = count
             /\ Forall row_wf es.
Proof.
  intros H0 Hh Hc Hb. pose proof row_size_pos. unfold table_rows.
  destruct (Z.ltb_spec (zlen payload) hdr); [lia|].
  destruct (Z.ltb_spec ((zlen payload - hdr) / row_size) count) as [Hlt|_].
  - exfalso.
    assert (count <= (zlen payload - hdr) / row_size); [|lia].
    apply Z.div_le_lower_bound; lia.
  - destruct (decode_rows_total payload hdr (Z.to_nat count)) as (es & -> & Hl & Hw).
    + lia.
    + lia.
    + exists es. split; [done|]. split; [unfold zlen; lia|done].
Qed.

(** The loader never panics, whatever the count says: a count that outruns the
    bytes is [ErrLength]. *)
Lemma table_rows_spec hdr payload count :
  0 <= hdr -> 0 <= count ->
  (zlen payload < hdr /\ table_rows hdr payload count = Err ErrShort)
  \/ (hdr <= zlen payload /\ zlen payload - hdr < count * row_size
      /\ table_rows hdr payload count = Err ErrLength)
  \/ (exists es, hdr + count * row_size <= zlen payload
      /\ table_rows hdr payload count = Ok es /\ zlen es = count
      /\ Forall row_wf es).
Proof.
  intros H0 Hc. pose proof row_size_pos.
  destruct (Z.lt_ge_cases (zlen payload) hdr).
  - left. split; [done|]. unfold table_rows.
    by destruct (Z.ltb_spec (zlen payload) hdr); [|lia].
  - right. destruct (Z.le_gt_cases (count * row_size) (zlen payload - hdr)) as [Hle|Hgt].
    + right. destruct (table_rows_bounded hdr payload count) as (es & ? & ? & ?);
        [lia..|]. exists es. repeat split; auto; lia.
    + left. split; [done|]. split; [lia|]. unfold table_rows.
      destruct (Z.ltb_spec (zlen payload) hdr); [lia|].
      destruct (Z.ltb_spec ((zlen payload - hdr) / row_size) count); [done|].
      exfalso. pose proof (Z.mul_div_le (zlen payload - hdr) row_size row_size_pos).
      assert (count * row_size <= (zlen payload - hdr) / row_size * row_size)
        by (apply Z.mul_le_mono_nonneg_r; lia).
      lia.
Qed.

Lemma table_rows_no_panic hdr payload count :
  0 <= hdr -> 0 <= count -> no_panic (table_rows hdr payload count).
Proof.
  intros H0 Hc. unfold no_panic.
  destruct (table_rows_spec hdr payload count H0 Hc)
    as [[_ ->]|[(_ & _ & ->)|(es & _ & -> & _)]]; done.
Qed.

Lemma table_rows_roundtrip hd es :
  Forall row_wf es ->
  table_rows (zlen hd) (hd ++ encode_rows es) (zlen es) = Ok es.
Proof.
  intros Hwf. pose proof row_size_pos. pose proof (zlen_nonneg hd).
  pose proof (zlen_nonneg es).
  unfold table_rows. rewrite zlen_app, zlen_encode_rows.
  destruct (Z.ltb_spec (zlen hd + zlen es * row_size) (zlen hd)); [nia|].
  replace (zlen hd + zlen es * row_size - zlen hd) with (zlen es * row_size) by lia.
  rewrite Z.div_mul, Z.ltb_irrefl by lia.
  rewrite <- (app_nil_r (encode_rows es)).
  replace (Z.to_nat (zlen es)) with (length es) by (unfold zlen; lia).
  by apply decode_encode_rows.
Qed.
End table.
