(* ===== verification/Headers.v ===== *)
(** The fixed-layout headers and roots of the file: the immutable prefix
    (prefix.go), the two meta slots (meta.go), the segment header (segment.go),
    the extent map (extent.go) and the shard root table (srt.go).

    A [Marshal] fills a fixed buffer field by field at the code's offsets; a
    [Parse] performs the code's checks in the code's order. *)

From S2P Require Import Prelude Crc Format Rows.

(** An integer field decodes to the value that was written. *)
Ltac solve_field :=
  apply le_dec_enc; first [assumption | exact (crc32c_u32 _) | lia].

(** The laws of a fixed-width row whose fields are all integers. *)
Ltac row_length enc := intros; unfold enc, put8, put16, put32, put64; zl.
Ltac row_roundtrip enc dec wf size :=
  let a := fresh "a" in let Hwf := fresh "Hwf" in
  intros a Hwf; unfold wf in Hwf; destruct_and? Hwf; unfold dec;
  assert (zlen (enc a) = size) by (row_length enc);
  reads; unfold enc; layout; fields; by destruct a.
Ltac row_total dec wf :=
  intros; unfold dec; reads; eexists; split; [done|]; unfold wf; cbn;
  split_and?; by apply le_dec_sl_range.

(** ** Prefix *)

Record Prefix := mkPrefix {
  px_FormatMajor : Z;
  px_FormatMinor : Z;
  px_PageSize : Z;
  px_SegmentAlign : Z;
  px_Flags : Z;
  px_ChecksumKind : Z;
  px_ShardCount : Z;
  px_CreatedUnixNanos : Z;
  px_StoreUUID : bytes;
  px_SlotCount : Z;
  px_SepThreshold : Z;
  px_MetaSlotAOff : Z;
  px_MetaSlotBOff : Z;
  px_MetaSlotSize : Z
}.

Definition NewPrefix (shardCount sepThreshold : Z) (uuid : bytes) (createdUnixNanos : Z) : Prefix :=
  {| px_FormatMajor := FormatMajor;
     px_FormatMinor := FormatMinor;
     px_PageSize := PageSize;
     px_SegmentAlign := SegmentAlign;
     px_Flags := 0;
     px_ChecksumKind := ChecksumCRC32C;
     px_ShardCount := shardCount;
     px_CreatedUnixNanos := createdUnixNanos;
     px_StoreUUID := uuid;
     px_SlotCount := SlotCount;
     px_SepThreshold := sepThreshold;
     px_MetaSlotAOff := MetaSlotAOff;
     px_MetaSlotBOff := MetaSlotBOff;
     px_MetaSlotSize := MetaSlotSize |}.

Definition Prefix_Marshal (p : Prefix) : bytes :=
  let b := zeros PrefixSize in
  let b := put b 0 Magic in
  let b := put16 b 16 p.(px_FormatMajor) in
  let b := put16 b 18 p.(px_FormatMinor) in
  let b := put32 b 20 p.(px_PageSize) in
  let b := put32 b 24 p.(px_SegmentAlign) in
  let b := put32 b 28 p.(px_Flags) in
  let b := put32 b 32 p.(px_ChecksumKind) in
  let b := put32 b 36 p.(px_ShardCount) in
  let b := put64 b 40 p.(px_CreatedUnixNanos) in
  let b := put b 48 p.(px_StoreUUID) in
  let b := put32 b 64 p.(px_SlotCount) in
  let b := put32 b 68 p.(px_SepThreshold) in
  let b := put32 b 72 (crc32c (sl b 0 72)) in
  let b := put64 b 76 p.(px_MetaSlotAOff) in
  let b := put64 b 84 p.(px_MetaSlotBOff) in
  let b := put32 b 92 p.(px_MetaSlotSize) in
  put32 b 96 (crc32c (sl b 0 96)).

Definition ParsePrefix (b : bytes) : R Prefix :=
  if zlen b <? PrefixSize then Err ErrShort else
  let* magic := slice b 0 16 in
  if negb (bytes_eqb magic Magic) then Err ErrMagic else
  let* h := slice b 0 72 in
  let* hcrc := u32at b 72 in
  if negb (crc32c h =? hcrc) then Err ErrChecksum else
  let* p := slice b 0 96 in
  let* pcrc := u32at b 96 in
  if negb (crc32c p =? pcrc) then Err ErrChecksum else
  let* major := u16at b 16 in
  if negb (major =? FormatMajor) then Err ErrMajor else
  let* minor := u16at b 18 in
  let* pageSize := u32at b 20 in
  let* segmentAlign := u32at b 24 in
  let* flags := u32at b 28 in
  let* checksumKind := u32at b 32 in
  let* shardCount := u32at b 36 in
  let* created := u64at b 40 in
  let* slotCount := u32at b 64 in
  let* sepThreshold := u32at b 68 in
  let* aOff := u64at b 76 in
  let* bOff := u64at b 84 in
  let* slotSize := u32at b 92 in
  let* uuid := slice b 48 64 in
  Ok {| px_FormatMajor := major; px_FormatMinor := minor; px_PageSize := pageSize;
        px_SegmentAlign := segmentAlign; px_Flags := flags;
        px_ChecksumKind := checksumKind; px_ShardCount := shardCount;
        px_CreatedUnixNanos := created; px_StoreUUID := uuid;
        px_SlotCount := slotCount; px_SepThreshold := sepThreshold;
        px_MetaSlotAOff := aOff; px_MetaSlotBOff := bOff;
        px_MetaSlotSize := slotSize |}.

(** The field ranges of the Go struct. *)
Definition Prefix_wf (p : Prefix) : Prop :=
  is_u16 p.(px_FormatMajor) /\ is_u16 p.(px_FormatMinor) /\ is_u32 p.(px_PageSize)
  /\ is_u32 p.(px_SegmentAlign) /\ is_u32 p.(px_Flags) /\ is_u32 p.(px_ChecksumKind)
  /\ is_u32 p.(px_ShardCount) /\ is_u64 p.(px_CreatedUnixNanos)
  /\ zlen p.(px_StoreUUID) = 16 /\ is_u32 p.(px_SlotCount)
  /\ is_u32 p.(px_SepThreshold) /\ is_u64 p.(px_MetaSlotAOff)
  /\ is_u64 p.(px_MetaSlotBOff) /\ is_u32 p.(px_MetaSlotSize).

Lemma zlen_Prefix_Marshal p : zlen (Prefix_Marshal p) = PrefixSize.
Proof. unfold Prefix_Marshal, put16, put32, put64. zl. Qed.

Lemma zlen_Magic : zlen Magic = 16.
Proof. done. Qed.
#[export] Hint Rewrite zlen_Magic : zl.

Lemma Prefix_layout p :
  Prefix_wf p ->
  let b := Prefix_Marshal p in
  sl b 0 16 = Magic /\ le_dec (sl b 16 2) = px_FormatMajor p
  /\ le_dec (sl b 18 2) = px_FormatMinor p /\ le_dec (sl b 20 4) = px_PageSize p
  /\ le_dec (sl b 24 4) = px_SegmentAlign p /\ le_dec (sl b 28 4) = px_Flags p
  /\ le_dec (sl b 32 4) = px_ChecksumKind p /\ le_dec (sl b 36 4) = px_ShardCount p
  /\ le_dec (sl b 40 8) = px_CreatedUnixNanos p /\ sl b 48 16 = px_StoreUUID p
  /\ le_dec (sl b 64 4) = px_SlotCount p /\ le_dec (sl b 68 4) = px_SepThreshold p
  /\ le_dec (sl b 76 8) = px_MetaSlotAOff p /\ le_dec (sl b 84 8) = px_MetaSlotBOff p
  /\ le_dec (sl b 92 4) = px_MetaSlotSize p
  /\ le_dec (sl b 72 4) = crc32c (sl b 0 72) /\ le_dec (sl b 96 4) = crc32c (sl b 0 96).
Proof.
  intros (?&?&?&?&?&?&?&?&?&?&?&?&?&?) b. unfold b, Prefix_Marshal.
  split_and!; layout; try done; solve_field.
Qed.

Lemma ParsePrefix_Marshal_ok p :
  Prefix_wf p -> px_FormatMajor p = FormatMajor ->
  ParsePrefix (Prefix_Marshal p) = Ok p.
Proof.
  intros Hwf HM. pose proof (Prefix_layout p Hwf) as Hl. cbv zeta in Hl.
  pose proof (zlen_Prefix_Marshal p) as Hz.
  set (b := Prefix_Marshal p) in *. clearbody b.
  destruct Hl as (H1&H2&H3&H4&H5&H6&H7&H8&H9&H10&H11&H12&H13&H14&H15&H16&H17).
  unfold ParsePrefix. rewrite Hz. cbn [Z.ltb Z.compare Pos.compare Pos.compare_cont].
  reads.
  rewrite H1, H2, H3, H4, H5, H6, H7, H8, H9, H10, H11, H12, H13, H14, H15, H16, H17, HM.
  rewrite bytes_eqb_refl, !Z.eqb_refl. cbn [negb]. rewrite <- HM. by destruct p.
Qed.

(** The checks run in bounds on every input. *)
Ltac no_panics :=
  unfold no_panic; reads;
  repeat match goal with
  | |- context [if ?c then _ else _] => destruct c
  | |- _ <> _ => discriminate
  end.

Lemma ParsePrefix_no_panic b : no_panic (ParsePrefix b).
Proof.
  unfold ParsePrefix. destruct (Z.ltb_spec (zlen b) PrefixSize); [done|].
  no_panics.
Qed.

(** ** Meta slots *)

Record MetaSlot := mkMetaSlot {
  ms_CommitSeq : Z;
  ms_GlobalSeq : Z;
  ms_SRTOff : Z;
  ms_SRTLen : Z;
  ms_SRTShardCount : Z;
  ms_ExtentTableOff : Z;
  ms_ExtentTableLen : Z;
  ms_TTLIndexLen : Z;
  ms_TTLIndexOff : Z;
  ms_FreeMapOff : Z;
  ms_FileSize : Z;
  ms_LiveBytes : Z;
  ms_DeadBytes : Z;
  ms_RecordCount : Z;
  ms_LastCkptUnix : Z;
  ms_CleanShutdown : Z;
  ms_MetaKVOff : Z
}.

Definition MetaSlot_body (m : MetaSlot) : bytes :=
  let b := zeros MetaSlotSize in
  let b := put64 b 0 m.(ms_CommitSeq) in
  let b := put64 b 8 m.(ms_GlobalSeq) in
  let b := put64 b 16 m.(ms_SRTOff) in
  let b := put32 b 24 m.(ms_SRTLen) in
  let b := put32 b 28 m.(ms_SRTShardCount) in
  let b := put64 b 32 m.(ms_ExtentTableOff) in
  let b := put32 b 40 m.(ms_ExtentTableLen) in
  let b := put32 b 44 m.(ms_TTLIndexLen) in
  let b := put64 b 48 m.(ms_TTLIndexOff) in
  let b := put64 b 56 m.(ms_FreeMapOff) in
  let b := put64 b 64 m.(ms_FileSize) in
  let b := put64 b 72 m.(ms_LiveBytes) in
  let b := put64 b 80 m.(ms_DeadBytes) in
  let b := put64 b 88 m.(ms_RecordCount) in
  let b := put64 b 96 m.(ms_LastCkptUnix) in
  let b := put8 b 104 m.(ms_CleanShutdown) in
  put64 b 105 m.(ms_MetaKVOff).

Definition MetaSlot_Marshal (m : MetaSlot) (kind : Z) : R bytes :=
  let b := MetaSlot_body m in
  match checksum kind (sl b 0 120) with
  | None => Err ErrChecksumKind
  | Some sum => Ok (put64 b 120 sum)
  end.

Definition ParseMetaSlot (b : bytes) (kind : Z) : R MetaSlot :=
  if zlen b <? MetaSlotSize then Err ErrShort else
  let* body := slice b 0 120 in
  match checksum kind body with
  | None => Err ErrChecksumKind
  | Some sum =>
      let* stored := u64at b 120 in
      if negb (sum =? stored) then Err ErrChecksum else
      let* commitSeq := u64at b 0 in
      let* globalSeq := u64at b 8 in
      let* srtOff := u64at b 16 in
      let* srtLen := u32at b 24 in
      let* srtShardCount := u32at b 28 in
      let* extOff := u64at b 32 in
      let* extLen := u32at b 40 in
      let* ttlLen := u32at b 44 in
      let* ttlOff := u64at b 48 in
      let* freeOff := u64at b 56 in
      let* fileSize := u64at b 64 in
      let* live := u64at b 72 in
      let* dead := u64at b 80 in
      let* records := u64at b 88 in
      let* lastCkpt := u64at b 96 in
      let* clean := at8 b 104 in
      let* kvOff := u64at b 105 in
      Ok {| ms_CommitSeq := commitSeq; ms_GlobalSeq := globalSeq; ms_SRTOff := srtOff;
            ms_SRTLen := srtLen; ms_SRTShardCount := srtShardCount;
            ms_ExtentTableOff := extOff; ms_ExtentTableLen := extLen;
            ms_TTLIndexLen := ttlLen; ms_TTLIndexOff := ttlOff;
            ms_FreeMapOff := freeOff; ms_FileSize := fileSize;
            ms_LiveBytes := live; ms_DeadBytes := dead;
            ms_RecordCount := records; ms_LastCkptUnix := lastCkpt;
            ms_CleanShutdown := clean; ms_MetaKVOff := kvOff |}
  end.

(** [MetaLive(a, b, kind)]: the live root and its slot (0 for A, 1 for B). *)
Definition MetaLive (a b : bytes) (kind : Z) : R (MetaSlot * Z) :=
  match ParseMetaSlot a kind, ParseMetaSlot b kind with
  | Panic, _ | _, Panic => Panic
  | Ok ma, Ok mb =>
      if ms_CommitSeq ma <? ms_CommitSeq mb then Ok (mb, 1) else Ok (ma, 0)
  | Ok ma, Err _ => Ok (ma, 0)
  | Err _, Ok mb => Ok (mb, 1)
  | Err ea, Err _ => Err ea
  end.

Definition MetaSlot_wf (m : MetaSlot) : Prop :=
  is_u64 m.(ms_CommitSeq) /\ is_u64 m.(ms_GlobalSeq) /\ is_u64 m.(ms_SRTOff)
  /\ is_u32 m.(ms_SRTLen) /\ is_u32 m.(ms_SRTShardCount)
  /\ is_u64 m.(ms_ExtentTableOff) /\ is_u32 m.(ms_ExtentTableLen)
  /\ is_u32 m.(ms_TTLIndexLen) /\ is_u64 m.(ms_TTLIndexOff)
  /\ is_u64 m.(ms_FreeMapOff) /\ is_u64 m.(ms_FileSize) /\ is_u64 m.(ms_LiveBytes)
  /\ is_u64 m.(ms_DeadBytes) /\ is_u64 m.(ms_RecordCount)
  /\ is_u64 m.(ms_LastCkptUnix) /\ is_u8 m.(ms_CleanShutdown)
  /\ is_u64 m.(ms_MetaKVOff).

Lemma zlen_MetaSlot_body m : zlen (MetaSlot_body m) = MetaSlotSize.
Proof. unfold MetaSlot_body, put8, put16, put32, put64. zl. Qed.

Lemma MetaSlot_layout m :
  MetaSlot_wf m ->
  let b := MetaSlot_body m in
  le_dec (sl b 0 8) = ms_CommitSeq m /\ le_dec (sl b 8 8) = ms_GlobalSeq m
  /\ le_dec (sl b 16 8) = ms_SRTOff m /\ le_dec (sl b 24 4) = ms_SRTLen m
  /\ le_dec (sl b 28 4) = ms_SRTShardCount m /\ le_dec (sl b 32 8) = ms_ExtentTableOff m
  /\ le_dec (sl b 40 4) = ms_ExtentTableLen m /\ le_dec (sl b 44 4) = ms_TTLIndexLen m
  /\ le_dec (sl b 48 8) = ms_TTLIndexOff m /\ le_dec (sl b 56 8) = ms_FreeMapOff m
  /\ le_dec (sl b 64 8) = ms_FileSize m /\ le_dec (sl b 72 8) = ms_LiveBytes m
  /\ le_dec (sl b 80 8) = ms_DeadBytes m /\ le_dec (sl b 88 8) = ms_RecordCount m
  /\ le_dec (sl b 96 8) = ms_LastCkptUnix m /\ le_dec (sl b 104 1) = ms_CleanShutdown m
  /\ le_dec (sl b 105 8) = ms_MetaKVOff m.
Proof.
  intros (?&?&?&?&?&?&?&?&?&?&?&?&?&?&?&?&?) b. unfold b, MetaSlot_body.
  split_and!; layout; solve_field.
Qed.

Lemma MetaSlot_Marshal_ok m kind mb :
  MetaSlot_Marshal m kind = Ok mb ->
  exists sum, checksum kind (sl (MetaSlot_body m) 0 120) = Some sum
              /\ mb = put64 (MetaSlot_body m) 120 sum /\ zlen mb = MetaSlotSize.
Proof.
  unfold MetaSlot_Marshal. destruct (checksum _ _) as [sum|]; [|done].
  intros [= <-]. exists sum. split_and!; [done|done|].
  unfold put64. by rewrite zlen_put, zlen_MetaSlot_body.
Qed.

Lemma ParseMetaSlot_Marshal_ok m kind mb post :
  MetaSlot_wf m -> MetaSlot_Marshal m kind = Ok mb ->
  ParseMetaSlot (mb ++ post) kind = Ok m.
Proof.
  intros Hwf Hm.
  pose proof (MetaSlot_layout m Hwf) as Hl. cbv zeta in Hl.
  apply MetaSlot_Marshal_ok in Hm as (sum & Hc & -> & Hz).
  pose proof (zlen_MetaSlot_body m) as Hb.
  set (b := MetaSlot_body m) in *. clearbody b.
  assert (forall i n, 0 <= i -> 0 <= n -> i + n <= 120 ->
    sl (put64 b 120 sum ++ post) i n = sl b i n) as Hs.
  { intros. rewrite sl_app_l by lia. unfold put64. apply sl_put_before; lia. }
  assert (le_dec (sl (put64 b 120 sum ++ post) 120 8) = sum) as Hsum.
  { rewrite sl_app_l by lia. layout.
    apply le_dec_enc. exact (checksum_u64 _ _ _ Hc). }
  assert (MetaSlotSize <= zlen (put64 b 120 sum ++ post)) as Hz'.
  { rewrite zlen_app. pose proof (zlen_nonneg post). lia. }
  set (w := put64 b 120 sum ++ post) in *. clearbody w.
  destruct Hl as (H1&H2&H3&H4&H5&H6&H7&H8&H9&H10&H11&H12&H13&H14&H15&H16&H17).
  unfold ParseMetaSlot. destruct (Z.ltb_spec (zlen w) MetaSlotSize); [lia|].
  reads. rewrite Hsum, !Hs by lia. rewrite Hc, Z.eqb_refl. cbn [negb].
  rewrite H1, H2, H3, H4, H5, H6, H7, H8, H9, H10, H11, H12, H13, H14, H15, H16, H17.
  by destruct m.
Qed.

Lemma ParseMetaSlot_no_panic b kind : no_panic (ParseMetaSlot b kind).
Proof.
  unfold ParseMetaSlot. destruct (Z.ltb_spec (zlen b) MetaSlotSize); [done|].
  reads. destruct (checksum _ _); [|done]. no_panics.
Qed.

(** A decoded slot holds values of the Go field types. *)
Lemma ParseMetaSlot_wf b kind m : ParseMetaSlot b kind = Ok m -> MetaSlot_wf m.
Proof.
  unfold ParseMetaSlot. destruct (Z.ltb_spec (zlen b) MetaSlotSize); [done|].
  reads. destruct (checksum _ _); [|done]. destruct (negb _); [done|].
  intros [= <-]. unfold MetaSlot_wf. cbn.
  split_and!; by apply le_dec_sl_range.
Qed.

(** A slot that differs from a valid one in at most four consecutive bytes of
    its summed region is rejected. *)
Lemma ParseMetaSlot_burst p x y s kind m :
  zlen (p ++ x ++ s) = MetaSlotSize -> zlen p + zlen x <= 120 ->
  length x = length y -> zlen x <= 4 -> x <> y ->
  ParseMetaSlot (p ++ x ++ s) kind = Ok m ->
  ParseMetaSlot (p ++ y ++ s) kind = Err ErrChecksum.
Proof.
  intros Hz Hp Hlen H4 Hne Hok.
  pose proof (zlen_nonneg p). pose proof (zlen_nonneg x). pose proof (zlen_nonneg s).
  assert (zlen y = zlen x) as Hy by (unfold zlen; lia).
  assert (zlen (p ++ y ++ s) = MetaSlotSize) as Hz' by (rewrite !zlen_app in *; lia).
  unfold ParseMetaSlot in *. rewrite Hz in Hok. rewrite Hz'.
  cbn [Z.ltb Z.compare Pos.compare Pos.compare_cont MetaSlotSize] in *.
  revert Hok. reads.
  assert (forall w, length w = length x ->
    sl (p ++ w ++ s) 0 120 = p ++ w ++ ztake (120 - zlen p - zlen w) s) as Hpre.
  { intros w Hw. assert (zlen w = zlen x) by (unfold zlen; lia).
    unfold sl. rewrite zdrop_nonpos by lia.
    rewrite ztake_app_ge, ztake_app_ge by lia. done. }
  assert (sl (p ++ y ++ s) 120 8 = sl (p ++ x ++ s) 120 8) as Hst.
  { rewrite !sl_app_r by lia. by rewrite Hy. }
  rewrite !Hpre by done. rewrite Hst, Hy.
  unfold checksum, checksum_spans. destruct (kind =? _); [|done].
  fold (crc32c (p ++ x ++ ztake (120 - zlen p - zlen x) s)).
  fold (crc32c (p ++ y ++ ztake (120 - zlen p - zlen x) s)).
  destruct (negb _) eqn:E1; [done|]. intros _.
  destruct (negb (crc32c (p ++ y ++ _) =? _)) eqn:E2; [done|].
  exfalso. apply Hne.
  apply (crc32c_burst p x y (ztake (120 - zlen p - zlen x) s)); [done|done|].
  apply negb_false_iff, Z.eqb_eq in E1, E2. congruence.
Qed.

Lemma MetaLive_no_panic a b kind : no_panic (MetaLive a b kind).
Proof.
  unfold MetaLive, no_panic.
  pose proof (ParseMetaSlot_no_panic a kind). pose proof (ParseMetaSlot_no_panic b kind).
  unfold no_panic in *.
  destruct (ParseMetaSlot a kind), (ParseMetaSlot b kind); try done. by case_match.
Qed.

(** The live root is a slot that validates, and no slot that validates carries a
    higher commit sequence; slot A wins a tie. *)
Lemma MetaLive_ok a b kind m which :
  MetaLive a b kind = Ok (m, which) ->
  (which = 0 /\ ParseMetaSlot a kind = Ok m
     /\ forall mb, ParseMetaSlot b kind = Ok mb -> ms_CommitSeq mb <= ms_CommitSeq m)
  \/ (which = 1 /\ ParseMetaSlot b kind = Ok m
     /\ forall ma, ParseMetaSlot a kind = Ok ma -> ms_CommitSeq ma < ms_CommitSeq m).
Proof.
  unfold MetaLive. intros H.
  destruct (ParseMetaSlot a kind) as [ma|ea|], (ParseMetaSlot b kind) as [mb|eb|];
    try discriminate H.
  - destruct (Z.ltb_spec (ms_CommitSeq ma) (ms_CommitSeq mb)); simplify_eq;
      [right|left]; split_and!; try done; intros ? [= <-]; lia.
  - simplify_eq. left. split_and!; done.
  - simplify_eq. right. split_and!; done.
Qed.

(** ** Segment headers *)

Definition segMagic : bytes := str "SEG3".

Record SegHeader := mkSegHeader {
  sh_Shard : Z;
  sh_Kind : Z;
  sh_GlobalSeq : Z;
  sh_ShardSeq : Z;
  sh_PayloadLen : Z;
  sh_PrevShardSeg : Z;
  sh_TTLClass : Z;
  sh_Flags : Z;
  sh_PayloadCRC : Z
}.

(** [h.Marshal(kind, payload)]: the 64 header bytes and the header with its
    length and payload sum stamped. *)
Definition SegHeader_Marshal (h : SegHeader) (kind : Z) (payload : bytes) : R (bytes * SegHeader) :=
  match checksum kind payload with
  | None => Err ErrChecksumKind
  | Some pc =>
      let b := zeros SegHeaderLen in
      let b := put b 0 segMagic in
      let b := put16 b 4 h.(sh_Shard) in
      let b := put16 b 6 h.(sh_Kind) in
      let b := put64 b 8 h.(sh_GlobalSeq) in
      let b := put64 b 16 h.(sh_ShardSeq) in
      let b := put64 b 24 (zlen payload) in
      let b := put64 b 32 h.(sh_PrevShardSeg) in
      let b := put32 b 40 h.(sh_TTLClass) in
      let b := put32 b 44 h.(sh_Flags) in
      let b := put32 b 48 (crc32c (sl b 0 48)) in
      let b := put64 b 56 pc in
      Ok (b, {| sh_Shard := h.(sh_Shard); sh_Kind := h.(sh_Kind);
                sh_GlobalSeq := h.(sh_GlobalSeq); sh_ShardSeq := h.(sh_ShardSeq);
                sh_PayloadLen := zlen payload; sh_PrevShardSeg := h.(sh_PrevShardSeg);
                sh_TTLClass := h.(sh_TTLClass); sh_Flags := h.(sh_Flags);
                sh_PayloadCRC := pc |})
  end.

Definition ParseSegHeader (b : bytes) : R SegHeader :=
  if zlen b <? SegHeaderLen then Err ErrShort else
  let* magic := slice b 0 4 in
  if negb (bytes_eqb magic segMagic) then Err ErrMagic else
  let* hd := slice b 0 48 in
  let* crc := u32at b 48 in
  if negb (crc32c hd =? crc) then Err ErrChecksum else
  let* shard := u16at b 4 in
  let* kind := u16at b 6 in
  let* gseq := u64at b 8 in
  let* sseq := u64at b 16 in
  let* plen := u64at b 24 in
  let* prev := u64at b 32 in
  let* ttl := u32at b 40 in
  let* flags := u32at b 44 in
  let* pcrc := u64at b 56 in
  Ok {| sh_Shard := shard; sh_Kind := kind; sh_GlobalSeq := gseq; sh_ShardSeq := sseq;
        sh_PayloadLen := plen; sh_PrevShardSeg := prev; sh_TTLClass := ttl;
        sh_Flags := flags; sh_PayloadCRC := pcrc |}.

(** [h.VerifyPayload(payload, kind)]; [None] is a nil error. *)
Definition VerifyPayload (h : SegHeader) (payload : bytes) (kind : Z) : option error :=
  if negb (zlen payload =? h.(sh_PayloadLen)) then Some ErrLength else
  match checksum kind payload with
  | None => Some ErrChecksumKind
  | Some pc => if negb (pc =? h.(sh_PayloadCRC)) then Some ErrChecksum else None
  end.

Definition Sealed (h : SegHeader) : bool := negb (Z.land h.(sh_Flags) SegSealed =? 0).

(** Ranges of the caller-supplied fields (length and sum are the writer's). *)
Definition SegHeader_wf (h : SegHeader) : Prop :=
  is_u16 h.(sh_Shard) /\ is_u16 h.(sh_Kind) /\ is_u64 h.(sh_GlobalSeq)
  /\ is_u64 h.(sh_ShardSeq) /\ is_u64 h.(sh_PrevShardSeg)
  /\ is_u32 h.(sh_TTLClass) /\ is_u32 h.(sh_Flags).

Lemma zlen_segMagic : zlen segMagic = 4.
Proof. done. Qed.
#[export] Hint Rewrite zlen_segMagic : zl.

Lemma SegHeader_layout h kind payload b h' :
  SegHeader_wf h -> is_u64 (zlen payload) ->
  SegHeader_Marshal h kind payload = Ok (b, h') ->
  zlen b = SegHeaderLen /\ sl b 0 4 = segMagic
  /\ le_dec (sl b 48 4) = crc32c (sl b 0 48)
  /\ le_dec (sl b 4 2) = sh_Shard h' /\ le_dec (sl b 6 2) = sh_Kind h'
  /\ le_dec (sl b 8 8) = sh_GlobalSeq h' /\ le_dec (sl b 16 8) = sh_ShardSeq h'
  /\ le_dec (sl b 24 8) = sh_PayloadLen h' /\ le_dec (sl b 32 8) = sh_PrevShardSeg h'
  /\ le_dec (sl b 40 4) = sh_TTLClass h' /\ le_dec (sl b 44 4) = sh_Flags h'
  /\ le_dec (sl b 56 8) = sh_PayloadCRC h'.
Proof.
  intros (?&?&?&?&?&?&?) Hp. unfold SegHeader_Marshal.
  destruct (checksum kind payload) as [pc|] eqn:Hc; [|done].
  apply checksum_u64 in Hc.
  intros [= <- <-]. cbn [sh_Shard sh_Kind sh_GlobalSeq sh_ShardSeq sh_PayloadLen
    sh_PrevShardSeg sh_TTLClass sh_Flags sh_PayloadCRC].
  split_and!; [unfold put16, put32, put64; by zl|..]; layout; try done; solve_field.
Qed.

(** Parsing what was marshalled, with anything after it, gives the stamped
    header back. *)
Lemma ParseSegHeader_Marshal_ok h kind payload b h' :
  SegHeader_wf h -> is_u64 (zlen payload) ->
  SegHeader_Marshal h kind payload = Ok (b, h') -> ParseSegHeader b = Ok h'.
Proof.
  intros Hwf Hp Hm.
  destruct (SegHeader_layout _ _ _ _ _ Hwf Hp Hm)
    as (Hz & Hg & Hcrc & H1 & H2 & H3 & H4 & H5 & H6 & H7 & H8 & H9).
  clear Hm. unfold ParseSegHeader. rewrite Hz.
  cbn [Z.ltb Z.compare Pos.compare Pos.compare_cont]. reads.
  rewrite Hg, Hcrc, bytes_eqb_refl, Z.eqb_refl. cbn [negb].
  rewrite H1, H2, H3, H4, H5, H6, H7, H8, H9. by destruct h'.
Qed.

(** The stamped header verifies its own payload. *)
Lemma SegHeader_Marshal_verifies h kind payload b h' :
  SegHeader_Marshal h kind payload = Ok (b, h') ->
  VerifyPayload h' payload kind = None /\ sh_PayloadLen h' = zlen payload
  /\ sh_GlobalSeq h' = sh_GlobalSeq h /\ sh_Kind h' = sh_Kind h
  /\ sh_Shard h' = sh_Shard h /\ sh_ShardSeq h' = sh_ShardSeq h.
Proof.
  unfold SegHeader_Marshal, VerifyPayload.
  destruct (checksum kind payload) as [pc|]; [|done].
  intros [= <- <-]. cbn. by rewrite !Z.eqb_refl.
Qed.

Lemma ParseSegHeader_no_panic b : no_panic (ParseSegHeader b).
Proof.
  unfold ParseSegHeader. destruct (Z.ltb_spec (zlen b) SegHeaderLen); [done|].
  no_panics.
Qed.

Lemma ParseSegHeader_len b h : ParseSegHeader b = Ok h -> is_u64 (sh_PayloadLen h).
Proof.
  unfold ParseSegHeader. destruct (Z.ltb_spec (zlen b) SegHeaderLen); [done|].
  reads. destruct (negb _); [done|]. destruct (negb _); [done|].
  intros [= <-]. cbn. by apply le_dec_sl_range.
Qed.

(** ** The extent map *)

Record Extent := mkExtent {
  ex_Kind : Z;
  ex_Flags : Z;
  ex_StartOff : Z;
  ex_Length : Z
}.

Definition put_Extent (e : Extent) : bytes :=
  let b := zeros ExtentSize in
  let b := put32 b 0 e.(ex_Kind) in
  let b := put32 b 4 e.(ex_Flags) in
  let b := put64 b 8 e.(ex_StartOff) in
  put64 b 16 e.(ex_Length).

Definition get_Extent (b : bytes) : R Extent :=
  let* kind := u32at b 0 in
  let* flags := u32at b 4 in
  let* start := u64at b 8 in
  let* len := u64at b 16 in
  Ok {| ex_Kind := kind; ex_Flags := flags; ex_StartOff := start; ex_Length := len |}.

Definition Extent_wf (e : Extent) : Prop :=
  is_u32 e.(ex_Kind) /\ is_u32 e.(ex_Flags) /\ is_u64 e.(ex_StartOff) /\ is_u64 e.(ex_Length).

#[export] Program Instance Extent_row : RowCodec Extent := {|
  row_size := ExtentSize; row_enc := put_Extent; row_dec := get_Extent;
  row_wf := Extent_wf |}.
Next Obligation. done. Qed.
Next Obligation. row_length put_Extent. Qed.
Next Obligation. row_roundtrip put_Extent get_Extent Extent_wf ExtentSize. Qed.
Next Obligation. row_total get_Extent Extent_wf. Qed.

Definition MarshalExtents (es : list Extent) : bytes := encode_rows es.

Definition ParseExtents (b : bytes) : R (list Extent) :=
  if negb (zlen b mod ExtentSize =? 0) then Err ErrLength else
  decode_rows b 0 (Z.to_nat (zlen b / ExtentSize)).

Lemma ParseExtents_Marshal_ok es :
  Forall Extent_wf es -> ParseExtents (MarshalExtents es) = Ok es.
Proof.
  intros Hwf. unfold ParseExtents, MarshalExtents. rewrite zlen_encode_rows.
  cbn [row_size Extent_row]. rewrite Z.mod_mul, Z.div_mul by done. cbn [Z.eqb negb].
  replace (Z.to_nat (zlen es)) with (length es) by (unfold zlen; lia).
  pose proof (decode_encode_rows [] es [] Hwf) as H. rewrite app_nil_r in H. exact H.
Qed.

Lemma ParseExtents_no_panic b : no_panic (ParseExtents b).
Proof.
  unfold ParseExtents, no_panic. destruct (negb _) eqn:E; [done|].
  apply negb_false_iff, Z.eqb_eq in E.
  pose proof (Z.div_mod (zlen b) ExtentSize ltac:(done)) as Hd.
  pose proof (zlen_nonneg b).
  pose proof (Z.div_pos (zlen b) ExtentSize ltac:(lia) ltac:(done)).
  destruct (decode_rows_total (A:=Extent) b 0 (Z.to_nat (zlen b / ExtentSize)))
    as (es & -> & _); [lia|cbn [row_size Extent_row]; lia|done].
Qed.

(** ** The shard root table *)

Definition srtMagic : bytes := str "SRT3".
Definition SRTSnapshotRoot : Z := 1.

Record SRTRow := mkSRTRow {
  sr_IndexCkptOff : Z;
  sr_IndexCkptLen : Z;
  sr_ChunkdirOff : Z;
  sr_ChunkdirLen : Z;
  sr_SegstatsOff : Z;
  sr_SegstatsLen : Z;
  sr_CkptLogPos : Z;
  sr_ShardSeqHigh : Z;
  sr_FirstTailSeg : Z;
  sr_LiveRecords : Z
}.

Record SRT := mkSRT {
  srt_Gen : Z;
  srt_SnapWbar : Z;
  srt_Flags : Z;
  srt_Rows : list SRTRow
}.

Definition IsSnapshotRoot (s : SRT) : bool :=
  negb (Z.land s.(srt_Flags) SRTSnapshotRoot =? 0).

Definition putSRTRow (r : SRTRow) : bytes :=
  let b := zeros SRTRowSize in
  let b := put64 b 0 r.(sr_IndexCkptOff) in
  let b := put64 b 8 r.(sr_IndexCkptLen) in
  let b := put64 b 16 r.(sr_ChunkdirOff) in
  let b := put64 b 24 r.(sr_ChunkdirLen) in
  let b := put64 b 32 r.(sr_SegstatsOff) in
  let b := put64 b 40 r.(sr_SegstatsLen) in
  let b := put64 b 48 r.(sr_CkptLogPos) in
  let b := put64 b 56 r.(sr_ShardSeqHigh) in
  let b := put64 b 64 r.(sr_FirstTailSeg) in
  put64 b 72 r.(sr_LiveRecords).

Definition getSRTRow (b : bytes) : R SRTRow :=
  let* ickpt := u64at b 0 in
  let* ilen := u64at b 8 in
  let* coff := u64at b 16 in
  let* clen := u64at b 24 in
  let* soff := u64at b 32 in
  let* slen := u64at b 40 in
  let* lpos := u64at b 48 in
  let* high := u64at b 56 in
  let* tail := u64at b 64 in
  let* live := u64at b 72 in
  Ok {| sr_IndexCkptOff := ickpt; sr_IndexCkptLen := ilen; sr_ChunkdirOff := coff;
        sr_ChunkdirLen := clen; sr_SegstatsOff := soff; sr_SegstatsLen := slen;
        sr_CkptLogPos := lpos; sr_ShardSeqHigh := high; sr_FirstTailSeg := tail;
        sr_LiveRecords := live |}.

Definition SRTRow_wf (r : SRTRow) : Prop :=
  is_u64 r.(sr_IndexCkptOff) /\ is_u64 r.(sr_IndexCkptLen) /\ is_u64 r.(sr_ChunkdirOff)
  /\ is_u64 r.(sr_ChunkdirLen) /\ is_u64 r.(sr_SegstatsOff) /\ is_u64 r.(sr_SegstatsLen)
  /\ is_u64 r.(sr_CkptLogPos) /\ is_u64 r.(sr_ShardSeqHigh)
  /\ is_u64 r.(sr_FirstTailSeg) /\ is_u64 r.(sr_LiveRecords).

#[export] Program Instance SRTRow_row : RowCodec SRTRow := {|
  row_size := SRTRowSize; row_enc := putSRTRow; row_dec := getSRTRow;
  row_wf := SRTRow_wf |}.
Next Obligation. done. Qed.
Next Obligation. row_length putSRTRow. Qed.
Next Obligation. row_roundtrip putSRTRow getSRTRow SRTRow_wf SRTRowSize. Qed.
Next Obligation. row_total getSRTRow SRTRow_wf. Qed.

(** The 40-byte header before its crc word is stamped. *)
Definition SRT_head (s : SRT) : bytes :=
  let b := zeros SRTHeaderLen in
  let b := put b 0 srtMagic in
  let b := put32 b 4 (cast32 (zlen s.(srt_Rows))) in
  let b := put64 b 8 s.(srt_Gen) in
  let b := put64 b 16 s.(srt_SnapWbar) in
  put32 b 24 s.(srt_Flags).

Definition SRT_Marshal (s : SRT) (kind : Z) : R bytes :=
  let rows := encode_rows s.(srt_Rows) in
  let b := SRT_head s in
  match checksum_spans kind [sl b 0 32; rows] with
  | None => Err ErrChecksumKind
  | Some sum => Ok (put64 b 32 sum ++ rows)
  end.

Definition ParseSRT (b : bytes) (kind : Z) : R SRT :=
  if zlen b <? SRTHeaderLen then Err ErrShort else
  let* magic := slice b 0 4 in
  if negb (bytes_eqb magic srtMagic) then Err ErrMagic else
  let* n := u32at b 4 in
  if zlen b <? SRTHeaderLen + n * SRTRowSize then Err ErrShort else
  let* hd := slice b 0 32 in
  let* rows := slice b SRTHeaderLen (SRTHeaderLen + n * SRTRowSize) in
  match checksum_spans kind [hd; rows] with
  | None => Err ErrChecksumKind
  | Some sum =>
      let* stored := u64at b 32 in
      if negb (sum =? stored) then Err ErrChecksum else
      let* gen := u64at b 8 in
      let* wbar := u64at b 16 in
      let* flags := u32at b 24 in
      let* rs := decode_rows b SRTHeaderLen (Z.to_nat n) in
      Ok {| srt_Gen := gen; srt_SnapWbar := wbar; srt_Flags := flags; srt_Rows := rs |}
  end.

Definition SRT_wf (s : SRT) : Prop :=
  is_u64 s.(srt_Gen) /\ is_u64 s.(srt_SnapWbar) /\ is_u32 s.(srt_Flags)
  /\ Forall SRTRow_wf s.(srt_Rows) /\ zlen s.(srt_Rows) < two32.

Lemma zlen_srtMagic : zlen srtMagic = 4.
Proof. done. Qed.
#[export] Hint Rewrite zlen_srtMagic : zl.

Lemma zlen_SRT_head s : zlen (SRT_head s) = SRTHeaderLen.
Proof. unfold SRT_head, put32, put64. zl. Qed.

Lemma SRT_layout s :
  SRT_wf s ->
  let b := SRT_head s in
  sl b 0 4 = srtMagic /\ le_dec (sl b 4 4) = zlen (srt_Rows s)
  /\ le_dec (sl b 8 8) = srt_Gen s /\ le_dec (sl b 16 8) = srt_SnapWbar s
  /\ le_dec (sl b 24 4) = srt_Flags s.
Proof.
  intros (?&?&?&?&Hn) b. unfold b, SRT_head.
  pose proof (zlen_nonneg (srt_Rows s)).
  unfold cast32. rewrite Z.mod_small by lia.
  split_and!; layout; try done; solve_field.
Qed.

Lemma SRT_Marshal_len s kind b :
  SRT_Marshal s kind = Ok b -> zlen b = SRTHeaderLen + zlen (srt_Rows s) * SRTRowSize.
Proof.
  unfold SRT_Marshal. destruct (checksum_spans _ _) as [sum|]; [|done]. intros H.
  assert (b = put64 (SRT_head s) 32 sum ++ encode_rows (srt_Rows s)) as -> by congruence.
  unfold put64. by rewrite zlen_app, zlen_put, zlen_SRT_head, zlen_encode_rows.
Qed.

Lemma ParseSRT_Marshal_ok s kind b :
  SRT_wf s -> SRT_Marshal s kind = Ok b -> ParseSRT b kind = Ok s.
Proof.
  intros Hwf Hm. pose proof (SRT_Marshal_len _ _ _ Hm) as Hz.
  pose proof (SRT_layout s Hwf) as (H1 & H2 & H3 & H4 & H5). cbv zeta in *.
  destruct Hwf as (_ & _ & _ & Hrows & Hn).
  pose proof (zlen_SRT_head s) as Hh. unfold SRT_Marshal in Hm.
  set (hd := SRT_head s) in *. clearbody hd.
  destruct (checksum_spans kind _) as [sum|] eqn:Hc; [|done].
  injection Hm as <-.
  pose proof (zlen_nonneg (srt_Rows s)).
  assert (zlen (put64 hd 32 sum) = 40) as Hp by (unfold put64; zl).
  assert (forall i n, 0 <= i -> 0 <= n -> i + n <= 32 ->
    sl (put64 hd 32 sum ++ encode_rows (srt_Rows s)) i n = sl hd i n) as Hs.
  { intros. rewrite sl_app_l by lia. unfold put64. apply sl_put_before; lia. }
  assert (le_dec (sl (put64 hd 32 sum ++ encode_rows (srt_Rows s)) 32 8) = sum) as Hsum.
  { rewrite sl_app_l by lia. layout. apply le_dec_enc. exact (checksum_u64 _ _ _ Hc). }
  assert (sl (put64 hd 32 sum ++ encode_rows (srt_Rows s)) SRTHeaderLen
            (zlen (srt_Rows s) * SRTRowSize) = encode_rows (srt_Rows s)) as Hr.
  { apply sl_end; [done|]. by rewrite zlen_encode_rows. }
  assert (decode_rows (put64 hd 32 sum ++ encode_rows (srt_Rows s)) SRTHeaderLen
            (Z.to_nat (zlen (srt_Rows s))) = Ok (srt_Rows s)) as Hd.
  { pose proof (decode_encode_rows (put64 hd 32 sum) (srt_Rows s) [] Hrows) as Hd.
    rewrite app_nil_r, Hp in Hd. rewrite <- Hd. f_equal. unfold zlen. lia. }
  set (w := put64 hd 32 sum ++ encode_rows (srt_Rows s)) in *. clearbody w.
  unfold ParseSRT. destruct (Z.ltb_spec (zlen w) SRTHeaderLen); [lia|].
  reads. rewrite Hsum, !Hs by lia. rewrite H1, H2, bytes_eqb_refl. cbn [negb].
  destruct (Z.ltb_spec (zlen w) (SRTHeaderLen + zlen (srt_Rows s) * SRTRowSize)); [lia|].
  rewrite slice_len by lia. rewrite Hr, Hc, Z.eqb_refl. cbn [negb].
  rewrite H3, H4, H5, Hd. by destruct s.
Qed.

Lemma ParseSRT_no_panic b kind : no_panic (ParseSRT b kind).
Proof.
  unfold ParseSRT, no_panic. destruct (Z.ltb_spec (zlen b) SRTHeaderLen); [done|].
  reads. destruct (negb _); [done|].
  pose proof (le_dec_sl_range b 4 4 two32 eq_refl ltac:(done)) as Hn.
  destruct (Z.ltb_spec (zlen b) (SRTHeaderLen + le_dec (sl b 4 4) * SRTRowSize)); [done|].
  rewrite slice_len by lia.
  destruct (checksum_spans _ _); [|done]. destruct (negb _); [done|].
  destruct (decode_rows_total (A:=SRTRow) b SRTHeaderLen (Z.to_nat (le_dec (sl b 4 4))))
    as (rs & -> & _); [lia|cbn [row_size SRTRow_row]; lia|done].
Qed.
