(* ===== verification/Tables.v ===== *)
(** The checkpointed roots: index checkpoints (checkpoint.go), dead-byte
    accounting (segstats.go), the cold-chunk directory (chunkdir.go), the TTL
    reclaim index (ttlindex.go), the free map (freemap.go), the meta_kv string
    map (metakv.go) and snapshot barriers (barrier.go).

    Each is a payload framed by [Append...] functions onto a growing slice and
    read back by a header parse and a bounded walk. *)

From S2P Require Import Prelude Crc Format Rows Headers.

(** ** Index checkpoints *)

Definition CkptMagic : bytes := str "CKP3".
Definition CkptHeaderLen : Z := 48.
Definition CkptEntrySize : Z := 20.
Definition CkptFull : Z := 1.
Definition CkptDelta : Z := 2.
Definition CkptTombstone : Z := 1.
#[export] Hint Unfold CkptHeaderLen CkptEntrySize : aki.

Record CkptHeader := mkCkptHeader {
  ch_FullOrDelta : Z;
  ch_CkptLogPos : Z;
  ch_EntryCount : Z;
  ch_BucketCount : Z;
  ch_BaseCkptOff : Z;
  ch_SeqHigh : Z
}.

Record CkptEntry := mkCkptEntry {
  ce_KeyHash : Z;
  ce_RecordAddr : Z;
  ce_Slot : Z;
  ce_Flags : Z
}.

Definition put_CkptHeader (h : CkptHeader) : bytes :=
  let b := zeros CkptHeaderLen in
  let b := put b 0 CkptMagic in
  let b := put8 b 4 h.(ch_FullOrDelta) in
  let b := put64 b 8 h.(ch_CkptLogPos) in
  let b := put64 b 16 h.(ch_EntryCount) in
  let b := put64 b 24 h.(ch_BucketCount) in
  let b := put64 b 32 h.(ch_BaseCkptOff) in
  put64 b 40 h.(ch_SeqHigh).

Definition AppendCkptHeader (dst : bytes) (h : CkptHeader) : bytes := dst ++ put_CkptHeader h.

Definition put_CkptEntry (e : CkptEntry) : bytes :=
  let b := zeros CkptEntrySize in
  let b := put64 b 0 e.(ce_KeyHash) in
  let b := put64 b 8 e.(ce_RecordAddr) in
  let b := put16 b 16 e.(ce_Slot) in
  put16 b 18 e.(ce_Flags).

Definition AppendCkptEntry (dst : bytes) (e : CkptEntry) : bytes := dst ++ put_CkptEntry e.

(** The shared full-or-delta test of the three delta-chained roots: a full
    carries no base, a delta any, another kind is malformed. *)
Definition full_or_delta_ok (fd base full delta : Z) : bool :=
  if fd =? full then base =? 0 else fd =? delta.

Definition ParseCkptHeader (b : bytes) : R CkptHeader :=
  if zlen b <? CkptHeaderLen then Err ErrShort else
  let* magic := slice b 0 4 in
  if negb (bytes_eqb magic CkptMagic) then Err ErrMagic else
  let* fd := at8 b 4 in
  let* pos := u64at b 8 in
  let* count := u64at b 16 in
  let* buckets := u64at b 24 in
  let* base := u64at b 32 in
  let* high := u64at b 40 in
  if full_or_delta_ok fd base CkptFull CkptDelta
  then Ok {| ch_FullOrDelta := fd; ch_CkptLogPos := pos; ch_EntryCount := count;
             ch_BucketCount := buckets; ch_BaseCkptOff := base; ch_SeqHigh := high |}
  else Err ErrCheckpoint.

Definition ParseCkptEntry (b : bytes) : R CkptEntry :=
  if zlen b <? CkptEntrySize then Err ErrShort else
  let* hash := u64at b 0 in
  let* addr := u64at b 8 in
  let* slot := u16at b 16 in
  let* flags := u16at b 18 in
  Ok {| ce_KeyHash := hash; ce_RecordAddr := addr; ce_Slot := slot; ce_Flags := flags |}.

Definition CkptHeader_wf (h : CkptHeader) : Prop :=
  is_u8 h.(ch_FullOrDelta) /\ is_u64 h.(ch_CkptLogPos) /\ is_u64 h.(ch_EntryCount)
  /\ is_u64 h.(ch_BucketCount) /\ is_u64 h.(ch_BaseCkptOff) /\ is_u64 h.(ch_SeqHigh).

Definition CkptEntry_wf (e : CkptEntry) : Prop :=
  is_u64 e.(ce_KeyHash) /\ is_u64 e.(ce_RecordAddr) /\ is_u16 e.(ce_Slot) /\ is_u16 e.(ce_Flags).

(** The laws of a row whose parser starts with a length guard. *)
Ltac guarded_roundtrip enc dec wf size :=
  let a := fresh "a" in let Hwf := fresh "Hwf" in let Hz := fresh "Hz" in
  intros a Hwf; unfold wf in Hwf; destruct_and? Hwf; unfold dec;
  assert (zlen (enc a) = size) as Hz by (row_length enc);
  destruct (Z.ltb_spec (zlen (enc a)) size); [lia|];
  reads; unfold enc; layout; fields; by destruct a.
Ltac guarded_total dec wf size :=
  let b := fresh "b" in
  intros b ?; unfold dec; destruct (Z.ltb_spec (zlen b) size); [lia|];
  reads; eexists; split; [done|]; unfold wf; cbn;
  split_and?; by apply le_dec_sl_range.

#[export] Program Instance CkptEntry_row : RowCodec CkptEntry := {|
  row_size := CkptEntrySize; row_enc := put_CkptEntry; row_dec := ParseCkptEntry;
  row_wf := CkptEntry_wf |}.
Next Obligation. done. Qed.
Next Obligation. row_length put_CkptEntry. Qed.
Next Obligation. guarded_roundtrip put_CkptEntry ParseCkptEntry CkptEntry_wf CkptEntrySize. Qed.
Next Obligation. guarded_total ParseCkptEntry CkptEntry_wf CkptEntrySize. Qed.

Definition CkptEntries (payload : bytes) (h : CkptHeader) : R (list CkptEntry) :=
  table_rows CkptHeaderLen payload h.(ch_EntryCount).

(** ** Seg-stats *)

Definition SegStatsMagic : bytes := str "SST3".
Definition SegStatsHeaderLen : Z := 32.
Definition SegStatsEntrySize : Z := 32.
Definition SegStatsFull : Z := 1.
Definition SegStatsDelta : Z := 2.
Definition SegStatsFreed : Z := 1.
#[export] Hint Unfold SegStatsHeaderLen SegStatsEntrySize : aki.

Record SegStatsHeader := mkSegStatsHeader {
  sth_FullOrDelta : Z;
  sth_CkptLogPos : Z;
  sth_EntryCount : Z;
  sth_BaseCkptOff : Z
}.

Record SegStatsEntry := mkSegStatsEntry {
  se_SegOff : Z;
  se_LiveBytes : Z;
  se_DeadBytes : Z;
  se_Flags : Z
}.

Definition put_SegStatsHeader (h : SegStatsHeader) : bytes :=
  let b := zeros SegStatsHeaderLen in
  let b := put b 0 SegStatsMagic in
  let b := put8 b 4 h.(sth_FullOrDelta) in
  let b := put64 b 8 h.(sth_CkptLogPos) in
  let b := put64 b 16 h.(sth_EntryCount) in
  put64 b 24 h.(sth_BaseCkptOff).

Definition AppendSegStatsHeader (dst : bytes) (h : SegStatsHeader) : bytes :=
  dst ++ put_SegStatsHeader h.

Definition put_SegStatsEntry (e : SegStatsEntry) : bytes :=
  let b := zeros SegStatsEntrySize in
  let b := put64 b 0 e.(se_SegOff) in
  let b := put64 b 8 e.(se_LiveBytes) in
  let b := put64 b 16 e.(se_DeadBytes) in
  put32 b 24 e.(se_Flags).

Definition AppendSegStatsEntry (dst : bytes) (e : SegStatsEntry) : bytes :=
  dst ++ put_SegStatsEntry e.

Definition ParseSegStatsHeader (b : bytes) : R SegStatsHeader :=
  if zlen b <? SegStatsHeaderLen then Err ErrShort else
  let* magic := slice b 0 4 in
  if negb (bytes_eqb magic SegStatsMagic) then Err ErrMagic else
  let* fd := at8 b 4 in
  let* pos := u64at b 8 in
  let* count := u64at b 16 in
  let* base := u64at b 24 in
  if full_or_delta_ok fd base SegStatsFull SegStatsDelta
  then Ok {| sth_FullOrDelta := fd; sth_CkptLogPos := pos; sth_EntryCount := count;
             sth_BaseCkptOff := base |}
  else Err ErrSegStats.

Definition ParseSegStatsEntry (b : bytes) : R SegStatsEntry :=
  if zlen b <? SegStatsEntrySize then Err ErrShort else
  let* off := u64at b 0 in
  let* live := u64at b 8 in
  let* dead := u64at b 16 in
  let* flags := u32at b 24 in
  Ok {| se_SegOff := off; se_LiveBytes := live; se_DeadBytes := dead; se_Flags := flags |}.

Definition SegStatsHeader_wf (h : SegStatsHeader) : Prop :=
  is_u8 h.(sth_FullOrDelta) /\ is_u64 h.(sth_CkptLogPos) /\ is_u64 h.(sth_EntryCount)
  /\ is_u64 h.(sth_BaseCkptOff).

Definition SegStatsEntry_wf (e : SegStatsEntry) : Prop :=
  is_u64 e.(se_SegOff) /\ is_u64 e.(se_LiveBytes) /\ is_u64 e.(se_DeadBytes) /\ is_u32 e.(se_Flags).

#[export] Program Instance SegStatsEntry_row : RowCodec SegStatsEntry := {|
  row_size := SegStatsEntrySize; row_enc := put_SegStatsEntry; row_dec := ParseSegStatsEntry;
  row_wf := SegStatsEntry_wf |}.
Next Obligation. done. Qed.
Next Obligation. row_length put_SegStatsEntry. Qed.
Next Obligation. guarded_roundtrip put_SegStatsEntry ParseSegStatsEntry SegStatsEntry_wf SegStatsEntrySize. Qed.
Next Obligation. guarded_total ParseSegStatsEntry SegStatsEntry_wf SegStatsEntrySize. Qed.

Definition SegStatsEntries (payload : bytes) (h : SegStatsHeader) : R (list SegStatsEntry) :=
  table_rows SegStatsHeaderLen payload h.(sth_EntryCount).

(** ** The free map *)

Definition FreeMapMagic : bytes := str "FRM3".
Definition FreeMapHeaderLen : Z := 16.
Definition FreeExtentSize : Z := 24.
Definition FreeMapPending : Z := 1.
#[export] Hint Unfold FreeMapHeaderLen FreeExtentSize : aki.

Record FreeMapHeader := mkFreeMapHeader { fm_EntryCount : Z }.

Record FreeExtent := mkFreeExtent {
  fe_StartOff : Z;
  fe_Length : Z;
  fe_Flags : Z
}.

(** The three count-only headers (free map, TTL index, meta_kv) share a shape. *)
Definition put_CountHeader (magic : bytes) (count : Z) : bytes :=
  let b := zeros 16 in
  let b := put b 0 magic in
  put64 b 8 count.

Definition ParseCountHeader (magic : bytes) (b : bytes) : R Z :=
  if zlen b <? 16 then Err ErrShort else
  let* m := slice b 0 4 in
  if negb (bytes_eqb m magic) then Err ErrMagic else
  u64at b 8.

Definition AppendFreeMapHeader (dst : bytes) (h : FreeMapHeader) : bytes :=
  dst ++ put_CountHeader FreeMapMagic h.(fm_EntryCount).

Definition put_FreeExtent (e : FreeExtent) : bytes :=
  let b := zeros FreeExtentSize in
  let b := put64 b 0 e.(fe_StartOff) in
  let b := put64 b 8 e.(fe_Length) in
  put32 b 16 e.(fe_Flags).

Definition AppendFreeExtent (dst : bytes) (e : FreeExtent) : bytes := dst ++ put_FreeExtent e.

Definition ParseFreeMapHeader (b : bytes) : R FreeMapHeader :=
  let* n := ParseCountHeader FreeMapMagic b in Ok {| fm_EntryCount := n |}.

Definition ParseFreeExtent (b : bytes) : R FreeExtent :=
  if zlen b <? FreeExtentSize then Err ErrShort else
  let* start := u64at b 0 in
  let* len := u64at b 8 in
  let* flags := u32at b 16 in
  Ok {| fe_StartOff := start; fe_Length := len; fe_Flags := flags |}.

Definition FreeExtent_wf (e : FreeExtent) : Prop :=
  is_u64 e.(fe_StartOff) /\ is_u64 e.(fe_Length) /\ is_u32 e.(fe_Flags).

#[export] Program Instance FreeExtent_row : RowCodec FreeExtent := {|
  row_size := FreeExtentSize; row_enc := put_FreeExtent; row_dec := ParseFreeExtent;
  row_wf := FreeExtent_wf |}.
Next Obligation. done. Qed.
Next Obligation. row_length put_FreeExtent. Qed.
Next Obligation. guarded_roundtrip put_FreeExtent ParseFreeExtent FreeExtent_wf FreeExtentSize. Qed.
Next Obligation. guarded_total ParseFreeExtent FreeExtent_wf FreeExtentSize. Qed.

Definition FreeExtents (payload : bytes) (h : FreeMapHeader) : R (list FreeExtent) :=
  table_rows FreeMapHeaderLen payload h.(fm_EntryCount).

Definition is_pending (e : FreeExtent) : bool := negb (Z.land e.(fe_Flags) FreeMapPending =? 0).

(** [FreeMapTotals]: allocatable and pending-free bytes, summed on [uint64]. *)
Definition FreeMapTotals (entries : list FreeExtent) : Z * Z :=
  fold_left (fun '(free, pending) e =>
    if is_pending e then (free, add64 pending e.(fe_Length))
    else (add64 free e.(fe_Length), pending)) entries (0, 0).

(** ** Barriers *)

Definition BarrierMagic : bytes := str "BAR3".
Definition BarrierHeaderLen : Z := 24.
Definition BarrierShardSize : Z := 16.
#[export] Hint Unfold BarrierHeaderLen BarrierShardSize : aki.

Record BarrierHeader := mkBarrierHeader { bh_Wbar : Z; bh_ShardCount : Z }.
Record BarrierShard := mkBarrierShard { bs_TailSeg : Z; bs_TailSeq : Z }.

Definition put_BarrierHeader (h : BarrierHeader) : bytes :=
  let b := zeros BarrierHeaderLen in
  let b := put b 0 BarrierMagic in
  let b := put64 b 8 h.(bh_Wbar) in
  put64 b 16 h.(bh_ShardCount).

Definition AppendBarrierHeader (dst : bytes) (h : BarrierHeader) : bytes :=
  dst ++ put_BarrierHeader h.

Definition put_BarrierShard (s : BarrierShard) : bytes :=
  let b := zeros BarrierShardSize in
  let b := put64 b 0 s.(bs_TailSeg) in
  put64 b 8 s.(bs_TailSeq).

Definition AppendBarrierShard (dst : bytes) (s : BarrierShard) : bytes :=
  dst ++ put_BarrierShard s.

Definition MarshalBarrier (h : BarrierHeader) (shards : list BarrierShard) : bytes :=
  fold_left AppendBarrierShard shards (AppendBarrierHeader [] h).

Definition ParseBarrierHeader (b : bytes) : R BarrierHeader :=
  if zlen b <? BarrierHeaderLen then Err ErrShort else
  let* magic := slice b 0 4 in
  if negb (bytes_eqb magic BarrierMagic) then Err ErrMagic else
  let* wbar := u64at b 8 in
  let* count := u64at b 16 in
  Ok {| bh_Wbar := wbar; bh_ShardCount := count |}.

Definition get_BarrierShard (b : bytes) : R BarrierShard :=
  let* seg := u64at b 0 in
  let* seq := u64at b 8 in
  Ok {| bs_TailSeg := seg; bs_TailSeq := seq |}.

Definition BarrierHeader_wf (h : BarrierHeader) : Prop :=
  is_u64 h.(bh_Wbar) /\ is_u64 h.(bh_ShardCount).
Definition BarrierShard_wf (s : BarrierShard) : Prop :=
  is_u64 s.(bs_TailSeg) /\ is_u64 s.(bs_TailSeq).

#[export] Program Instance BarrierShard_row : RowCodec BarrierShard := {|
  row_size := BarrierShardSize; row_enc := put_BarrierShard; row_dec := get_BarrierShard;
  row_wf := BarrierShard_wf |}.
Next Obligation. done. Qed.
Next Obligation. row_length put_BarrierShard. Qed.
Next Obligation. row_roundtrip put_BarrierShard get_BarrierShard BarrierShard_wf BarrierShardSize. Qed.
Next Obligation. row_total get_BarrierShard BarrierShard_wf. Qed.

Definition BarrierShards (payload : bytes) (h : BarrierHeader) : R (list BarrierShard) :=
  table_rows BarrierHeaderLen payload h.(bh_ShardCount).

Definition BarrierConsistent (h : BarrierHeader) (shards : list BarrierShard) : bool :=
  forallb (fun s => s.(bs_TailSeq) <=? h.(bh_Wbar)) shards.

(** ** The TTL index *)

Definition TTLIndexMagic : bytes := str "TTL3".
Definition TTLIndexHeaderLen : Z := 16.
Definition TTLClassHeaderLen : Z := 16.
Definition TTLSegmentSize : Z := 8.
#[export] Hint Unfold TTLIndexHeaderLen TTLClassHeaderLen TTLSegmentSize : aki.

Record TTLIndexHeader := mkTTLIndexHeader { th_ClassCount : Z }.

Record TTLClass := mkTTLClass {
  tc_Class : Z;
  tc_ExpiryUpperUnix : Z;
  tc_Segments : list Z
}.

Definition AppendTTLIndexHeader (dst : bytes) (h : TTLIndexHeader) : bytes :=
  dst ++ put_CountHeader TTLIndexMagic h.(th_ClassCount).

Definition put_TTLClassHeader (class segmentCount expiryUpperUnix : Z) : bytes :=
  let b := zeros TTLClassHeaderLen in
  let b := put32 b 0 class in
  let b := put32 b 4 segmentCount in
  put64 b 8 expiryUpperUnix.

Definition AppendTTLClassHeader (dst : bytes) (class segmentCount expiryUpperUnix : Z) : bytes :=
  dst ++ put_TTLClassHeader class segmentCount expiryUpperUnix.

Definition put_TTLSegment (segOff : Z) : bytes := put64 (zeros TTLSegmentSize) 0 segOff.

Definition AppendTTLSegment (dst : bytes) (segOff : Z) : bytes := dst ++ put_TTLSegment segOff.

Definition ParseTTLIndexHeader (b : bytes) : R TTLIndexHeader :=
  let* n := ParseCountHeader TTLIndexMagic b in Ok {| th_ClassCount := n |}.

#[export] Program Instance TTLSegment_row : RowCodec Z := {|
  row_size := TTLSegmentSize; row_enc := put_TTLSegment; row_dec := fun b => u64at b 0;
  row_wf := is_u64 |}.
Next Obligation. done. Qed.
Next Obligation. row_length put_TTLSegment. Qed.
Next Obligation.
  intros z Hz. assert (zlen (put_TTLSegment z) = 8) by (row_length put_TTLSegment).
  cbv beta. reads. unfold put_TTLSegment. layout. by fields.
Qed.
Next Obligation.
  intros b Hb. cbv beta. unfold TTLSegmentSize in Hb. reads. eexists. split; [done|].
  by apply le_dec_sl_range.
Qed.

(** The class walk: [n] classes still to read, the next at [off]. *)
Fixpoint ttl_classes (payload : bytes) (off : Z) (n : nat) : R (list TTLClass) :=
  match n with
  | O => Ok []
  | S n' =>
      if zlen payload <? off + TTLClassHeaderLen then Err ErrLength else
      let* class := u32at payload off in
      let* segCount := u32at payload (off + 4) in
      let* expiry := u64at payload (off + 8) in
      let off := off + TTLClassHeaderLen in
      let need := segCount * TTLSegmentSize in
      if zlen payload - off <? need then Err ErrLength else
      let* segs := decode_rows payload off (Z.to_nat segCount) in
      let* rest := ttl_classes payload (off + need) n' in
      Ok ({| tc_Class := class; tc_ExpiryUpperUnix := expiry; tc_Segments := segs |} :: rest)
  end.

Definition TTLClasses (payload : bytes) (h : TTLIndexHeader) : R (list TTLClass) :=
  if zlen payload <? TTLIndexHeaderLen then Err ErrShort else
  let rest := zlen payload - TTLIndexHeaderLen in
  if rest / TTLClassHeaderLen <? h.(th_ClassCount) then Err ErrLength else
  ttl_classes payload TTLIndexHeaderLen (Z.to_nat h.(th_ClassCount)).

Definition ExpiredSegments (classes : list TTLClass) (nowUnix : Z) : list Z :=
  fold_left (fun out c =>
    if c.(tc_ExpiryUpperUnix) <=? nowUnix then out ++ c.(tc_Segments) else out) classes [].

(** The stream a writer of the index lays down: the header, then per class its
    header and one offset per segment. *)
Definition TTLIndex_stream (classes : list TTLClass) : bytes :=
  fold_left (fun dst c =>
    fold_left AppendTTLSegment c.(tc_Segments)
      (AppendTTLClassHeader dst c.(tc_Class) (cast32 (zlen c.(tc_Segments))) c.(tc_ExpiryUpperUnix)))
    classes (AppendTTLIndexHeader [] {| th_ClassCount := zlen classes |}).

Definition TTLClass_wf (c : TTLClass) : Prop :=
  is_u32 c.(tc_Class) /\ is_u64 c.(tc_ExpiryUpperUnix)
  /\ Forall is_u64 c.(tc_Segments) /\ zlen c.(tc_Segments) < two32.

(** ** meta_kv *)

Definition MetaKVMagic : bytes := str "MKV3".
Definition MetaKVHeaderLen : Z := 16.
Definition MetaKVPairOverhead : Z := 8.
#[export] Hint Unfold MetaKVHeaderLen MetaKVPairOverhead : aki.

Record MetaKVHeader := mkMetaKVHeader { mk_EntryCount : Z }.
Record MetaKVPair := mkMetaKVPair { kv_Key : bytes; kv_Value : bytes }.

Definition AppendMetaKVHeader (dst : bytes) (h : MetaKVHeader) : bytes :=
  dst ++ put_CountHeader MetaKVMagic h.(mk_EntryCount).

Definition AppendMetaKVPair (dst key value : bytes) : bytes :=
  let dst := dst ++ le_enc 4 (cast32 (zlen key)) in
  let dst := dst ++ key in
  let dst := dst ++ le_enc 4 (cast32 (zlen value)) in
  dst ++ value.

Definition ParseMetaKVHeader (b : bytes) : R MetaKVHeader :=
  let* n := ParseCountHeader MetaKVMagic b in Ok {| mk_EntryCount := n |}.

Definition readMetaKVField (payload : bytes) (off n : Z) : R (bytes * Z) :=
  if n <? off + 4 then Err ErrLength else
  let* l := u32at payload off in
  let off := off + 4 in
  if n - off <? l then Err ErrLength else
  let* field := slice payload off (off + l) in
  Ok (field, off + l).

Fixpoint metakv_pairs (payload : bytes) (off : Z) (k : nat) : R (list MetaKVPair) :=
  match k with
  | O => Ok []
  | S k' =>
      let* '(key, next) := readMetaKVField payload off (zlen payload) in
      let* '(value, next) := readMetaKVField payload next (zlen payload) in
      let* rest := metakv_pairs payload next k' in
      Ok ({| kv_Key := key; kv_Value := value |} :: rest)
  end.

Definition MetaKVPairs (payload : bytes) (h : MetaKVHeader) : R (list MetaKVPair) :=
  if zlen payload <? MetaKVHeaderLen then Err ErrShort else
  if (zlen payload - MetaKVHeaderLen) / MetaKVPairOverhead <? h.(mk_EntryCount) then Err ErrLength else
  metakv_pairs payload MetaKVHeaderLen (Z.to_nat h.(mk_EntryCount)).

(** [MetaKVLookup]: the first match wins. *)
Fixpoint MetaKVLookup (pairs : list MetaKVPair) (key : bytes) : option bytes :=
  match pairs with
  | [] => None
  | p :: rest => if bytes_eqb p.(kv_Key) key then Some p.(kv_Value) else MetaKVLookup rest key
  end.

Definition MetaKV_stream (pairs : list MetaKVPair) : bytes :=
  fold_left (fun dst p => AppendMetaKVPair dst p.(kv_Key) p.(kv_Value)) pairs
    (AppendMetaKVHeader [] {| mk_EntryCount := zlen pairs |}).

Definition MetaKVPair_wf (p : MetaKVPair) : Prop :=
  zlen p.(kv_Key) < two32 /\ zlen p.(kv_Value) < two32.

(** ** The chunk directory *)

Definition ChunkDirMagic : bytes := str "CHD3".
Definition ChunkDirHeaderLen : Z := 32.
Definition ChunkDirCollectionLen : Z := 16.
Definition ChunkDirRowSize : Z := 56.
Definition ChunkDirMaxDisc : Z := 32.
Definition ChunkDirFull : Z := 1.
Definition ChunkDirDelta : Z := 2.
Definition ChunkDirTombstone : Z := 1.
#[export] Hint Unfold ChunkDirHeaderLen ChunkDirCollectionLen ChunkDirRowSize ChunkDirMaxDisc : aki.

Record ChunkDirHeader := mkChunkDirHeader {
  cdh_FullOrDelta : Z;
  cdh_CkptLogPos : Z;
  cdh_CollectionCount : Z;
  cdh_BaseCkptOff : Z
}.

Record ChunkDirRow := mkChunkDirRow {
  cr_FirstDisc : bytes;
  cr_ElementCount : Z;
  cr_ChunkOff : Z;
  cr_ChunkLiveBytes : Z
}.

Record ChunkDirCollection := mkChunkDirCollection {
  cc_KeyHash : Z;
  cc_Flags : Z;
  cc_Chunks : list ChunkDirRow
}.

Definition put_ChunkDirHeader (h : ChunkDirHeader) : bytes :=
  let b := zeros ChunkDirHeaderLen in
  let b := put b 0 ChunkDirMagic in
  let b := put8 b 4 h.(cdh_FullOrDelta) in
  let b := put64 b 8 h.(cdh_CkptLogPos) in
  let b := put64 b 16 h.(cdh_CollectionCount) in
  put64 b 24 h.(cdh_BaseCkptOff).

Definition AppendChunkDirHeader (dst : bytes) (h : ChunkDirHeader) : bytes :=
  dst ++ put_ChunkDirHeader h.

Definition put_ChunkDirCollectionHeader (keyHash chunkCount flags : Z) : bytes :=
  let b := zeros ChunkDirCollectionLen in
  let b := put64 b 0 keyHash in
  let b := put32 b 8 chunkCount in
  put32 b 12 flags.

Definition AppendChunkDirCollectionHeader (dst : bytes) (keyHash chunkCount flags : Z) : bytes :=
  dst ++ put_ChunkDirCollectionHeader keyHash chunkCount flags.

(** [copy(b[0:32], FirstDisc)] keeps the discriminator's ordering prefix. *)
Definition put_ChunkDirRow (r : ChunkDirRow) : bytes :=
  let disc := ztake ChunkDirMaxDisc r.(cr_FirstDisc) in
  let b := zeros ChunkDirRowSize in
  let b := put b 0 disc in
  let b := put8 b ChunkDirMaxDisc (zlen disc) in
  let b := put32 b 36 r.(cr_ElementCount) in
  let b := put64 b 40 r.(cr_ChunkOff) in
  put64 b 48 r.(cr_ChunkLiveBytes).

Definition AppendChunkDirRow (dst : bytes) (r : ChunkDirRow) : bytes := dst ++ put_ChunkDirRow r.

Definition ParseChunkDirHeader (b : bytes) : R ChunkDirHeader :=
  if zlen b <? ChunkDirHeaderLen then Err ErrShort else
  let* magic := slice b 0 4 in
  if negb (bytes_eqb magic ChunkDirMagic) then Err ErrMagic else
  let* fd := at8 b 4 in
  let* pos := u64at b 8 in
  let* count := u64at b 16 in
  let* base := u64at b 24 in
  if full_or_delta_ok fd base ChunkDirFull ChunkDirDelta
  then Ok {| cdh_FullOrDelta := fd; cdh_CkptLogPos := pos; cdh_CollectionCount := count;
             cdh_BaseCkptOff := base |}
  else Err ErrChunkDir.

Definition parseChunkDirRow (b : bytes) : R ChunkDirRow :=
  if zlen b <? ChunkDirRowSize then Err ErrShort else
  let* dlen := at8 b ChunkDirMaxDisc in
  if ChunkDirMaxDisc <? dlen then Err ErrChunkDir else
  let* disc := slice b 0 dlen in
  let* count := u32at b 36 in
  let* off := u64at b 40 in
  let* live := u64at b 48 in
  Ok {| cr_FirstDisc := disc; cr_ElementCount := count; cr_ChunkOff := off;
        cr_ChunkLiveBytes := live |}.

Fixpoint chunkdir_collections (payload : bytes) (off : Z) (n : nat) : R (list ChunkDirCollection) :=
  match n with
  | O => Ok []
  | S n' =>
      if zlen payload <? off + ChunkDirCollectionLen then Err ErrLength else
      let* keyHash := u64at payload off in
      let* chunkCount := u32at payload (off + 8) in
      let* flags := u32at payload (off + 12) in
      let off := off + ChunkDirCollectionLen in
      let need := chunkCount * ChunkDirRowSize in
      if zlen payload - off <? need then Err ErrLength else
      let* rows := decode_with parseChunkDirRow ChunkDirRowSize payload off (Z.to_nat chunkCount) in
      let* rest := chunkdir_collections payload (off + need) n' in
      Ok ({| cc_KeyHash := keyHash; cc_Flags := flags; cc_Chunks := rows |} :: rest)
  end.

Definition ChunkDirCollections (payload : bytes) (h : ChunkDirHeader) : R (list ChunkDirCollection) :=
  if zlen payload <? ChunkDirHeaderLen then Err ErrShort else
  let rest := zlen payload - ChunkDirHeaderLen in
  if rest / ChunkDirCollectionLen <? h.(cdh_CollectionCount) then Err ErrLength else
  chunkdir_collections payload ChunkDirHeaderLen (Z.to_nat h.(cdh_CollectionCount)).

Definition ChunkDir_stream (h : ChunkDirHeader) (cols : list ChunkDirCollection) : bytes :=
  fold_left (fun dst c =>
    fold_left AppendChunkDirRow c.(cc_Chunks)
      (AppendChunkDirCollectionHeader dst c.(cc_KeyHash) (cast32 (zlen c.(cc_Chunks))) c.(cc_Flags)))
    cols (AppendChunkDirHeader [] h).

Definition ChunkDirRow_wf (r : ChunkDirRow) : Prop :=
  zlen r.(cr_FirstDisc) <= ChunkDirMaxDisc /\ is_u32 r.(cr_ElementCount)
  /\ is_u64 r.(cr_ChunkOff) /\ is_u64 r.(cr_ChunkLiveBytes).
Definition ChunkDirCollection_wf (c : ChunkDirCollection) : Prop :=
  is_u64 c.(cc_KeyHash) /\ is_u32 c.(cc_Flags)
  /\ Forall ChunkDirRow_wf c.(cc_Chunks) /\ zlen c.(cc_Chunks) < two32.
Definition ChunkDirHeader_wf (h : ChunkDirHeader) : Prop :=
  is_u8 h.(cdh_FullOrDelta) /\ is_u64 h.(cdh_CkptLogPos)
  /\ is_u64 h.(cdh_CollectionCount) /\ is_u64 h.(cdh_BaseCkptOff).

(** ** Streaming appends

    Rows appended one at a time are the concatenation of their encodings. *)
Lemma fold_append {A} (f : A -> bytes) es dst :
  fold_left (fun d e => d ++ f e) es dst = dst ++ concat (map f es).
Proof.
  revert dst. induction es as [|e es IH]; intros dst; simpl; [by rewrite app_nil_r|].
  by rewrite IH, <- app_assoc.
Qed.

(** A header followed by rows parses to the header it was built from. *)
Ltac header_roundtrip enc dec size :=
  let Hz := fresh "Hz" in let Hs := fresh "Hs" in
  match goal with
  | |- dec (?e ++ ?post) = _ =>
      assert (zlen e = size) as Hz by (row_length enc);
      assert (forall i n, 0 <= i -> 0 <= n -> i + n <= size ->
        sl (e ++ post) i n = sl e i n) as Hs by (intros; apply sl_app_l; lia);
      assert (size <= zlen (e ++ post))
        by (rewrite zlen_app; pose proof (zlen_nonneg post); lia);
      unfold dec; destruct (Z.ltb_spec (zlen (e ++ post)) size); [lia|];
      reads; rewrite !Hs by lia; clear Hs Hz; unfold enc; layout; fields;
      rewrite ?bytes_eqb_refl; cbn [negb]
  end.

Lemma zlen_CkptMagic : zlen CkptMagic = 4.
Proof. done. Qed.
Lemma zlen_SegStatsMagic : zlen SegStatsMagic = 4.
Proof. done. Qed.
Lemma zlen_BarrierMagic : zlen BarrierMagic = 4.
Proof. done. Qed.
Lemma zlen_ChunkDirMagic : zlen ChunkDirMagic = 4.
Proof. done. Qed.
#[export] Hint Rewrite zlen_CkptMagic zlen_SegStatsMagic zlen_BarrierMagic zlen_ChunkDirMagic : zl.

Lemma ParseCkptHeader_put h post :
  CkptHeader_wf h ->
  full_or_delta_ok h.(ch_FullOrDelta) h.(ch_BaseCkptOff) CkptFull CkptDelta = true ->
  ParseCkptHeader (put_CkptHeader h ++ post) = Ok h.
Proof.
  intros (?&?&?&?&?&?) Hfd.
  header_roundtrip put_CkptHeader ParseCkptHeader CkptHeaderLen.
  rewrite Hfd. by destruct h.
Qed.

Lemma ParseSegStatsHeader_put h post :
  SegStatsHeader_wf h ->
  full_or_delta_ok h.(sth_FullOrDelta) h.(sth_BaseCkptOff) SegStatsFull SegStatsDelta = true ->
  ParseSegStatsHeader (put_SegStatsHeader h ++ post) = Ok h.
Proof.
  intros (?&?&?&?) Hfd.
  header_roundtrip put_SegStatsHeader ParseSegStatsHeader SegStatsHeaderLen.
  rewrite Hfd. by destruct h.
Qed.

Lemma ParseChunkDirHeader_put h post :
  ChunkDirHeader_wf h ->
  full_or_delta_ok h.(cdh_FullOrDelta) h.(cdh_BaseCkptOff) ChunkDirFull ChunkDirDelta = true ->
  ParseChunkDirHeader (put_ChunkDirHeader h ++ post) = Ok h.
Proof.
  intros (?&?&?&?) Hfd.
  header_roundtrip put_ChunkDirHeader ParseChunkDirHeader ChunkDirHeaderLen.
  rewrite Hfd. by destruct h.
Qed.

Lemma ParseBarrierHeader_put h post :
  BarrierHeader_wf h -> ParseBarrierHeader (put_BarrierHeader h ++ post) = Ok h.
Proof.
  intros (?&?). header_roundtrip put_BarrierHeader ParseBarrierHeader BarrierHeaderLen.
  by destruct h.
Qed.

Lemma ParseCountHeader_put magic n post :
  zlen magic = 4 -> is_u64 n ->
  ParseCountHeader magic (put_CountHeader magic n ++ post) = Ok n.
Proof.
  intros Hm Hn.
  assert (zlen (put_CountHeader magic n) = 16) as Hz by (row_length put_CountHeader).
  assert (16 <= zlen (put_CountHeader magic n ++ post))
    by (rewrite zlen_app; pose proof (zlen_nonneg post); lia).
  unfold ParseCountHeader. destruct (Z.ltb_spec (zlen (put_CountHeader magic n ++ post)) 16); [lia|].
  reads. rewrite !sl_app_l by lia. unfold put_CountHeader. layout.
  rewrite bytes_eqb_refl. cbn [negb]. by fields.
Qed.

(** ** Flat tables: round trip *)

Definition Ckpt_stream (h : CkptHeader) (es : list CkptEntry) : bytes :=
  fold_left AppendCkptEntry es (AppendCkptHeader [] h).
Definition SegStats_stream (h : SegStatsHeader) (es : list SegStatsEntry) : bytes :=
  fold_left AppendSegStatsEntry es (AppendSegStatsHeader [] h).
Definition FreeMap_stream (es : list FreeExtent) : bytes :=
  fold_left AppendFreeExtent es (AppendFreeMapHeader [] {| fm_EntryCount := zlen es |}).

Lemma Ckpt_stream_eq h es : Ckpt_stream h es = put_CkptHeader h ++ encode_rows es.
Proof. apply (fold_append put_CkptEntry). Qed.
Lemma SegStats_stream_eq h es : SegStats_stream h es = put_SegStatsHeader h ++ encode_rows es.
Proof. apply (fold_append put_SegStatsEntry). Qed.
Lemma FreeMap_stream_eq es :
  FreeMap_stream es = put_CountHeader FreeMapMagic (zlen es) ++ encode_rows es.
Proof. apply (fold_append put_FreeExtent). Qed.
Lemma MarshalBarrier_eq h ss : MarshalBarrier h ss = put_BarrierHeader h ++ encode_rows ss.
Proof. apply (fold_append put_BarrierShard). Qed.

Lemma Ckpt_stream_ok h es :
  CkptHeader_wf h -> Forall CkptEntry_wf es -> ch_EntryCount h = zlen es ->
  full_or_delta_ok h.(ch_FullOrDelta) h.(ch_BaseCkptOff) CkptFull CkptDelta = true ->
  ParseCkptHeader (Ckpt_stream h es) = Ok h /\ CkptEntries (Ckpt_stream h es) h = Ok es.
Proof.
  intros Hh He Hn Hfd. rewrite Ckpt_stream_eq. split; [by apply ParseCkptHeader_put|].
  unfold CkptEntries. rewrite Hn.
  replace CkptHeaderLen with (zlen (put_CkptHeader h)) by (row_length put_CkptHeader).
  by apply table_rows_roundtrip.
Qed.

Lemma SegStats_stream_ok h es :
  SegStatsHeader_wf h -> Forall SegStatsEntry_wf es -> sth_EntryCount h = zlen es ->
  full_or_delta_ok h.(sth_FullOrDelta) h.(sth_BaseCkptOff) SegStatsFull SegStatsDelta = true ->
  ParseSegStatsHeader (SegStats_stream h es) = Ok h
  /\ SegStatsEntries (SegStats_stream h es) h = Ok es.
Proof.
  intros Hh He Hn Hfd. rewrite SegStats_stream_eq. split; [by apply ParseSegStatsHeader_put|].
  unfold SegStatsEntries. rewrite Hn.
  replace SegStatsHeaderLen with (zlen (put_SegStatsHeader h)) by (row_length put_SegStatsHeader).
  by apply table_rows_roundtrip.
Qed.

Lemma FreeMap_stream_ok es :
  Forall FreeExtent_wf es -> is_u64 (zlen es) ->
  ParseFreeMapHeader (FreeMap_stream es) = Ok {| fm_EntryCount := zlen es |}
  /\ FreeExtents (FreeMap_stream es) {| fm_EntryCount := zlen es |} = Ok es.
Proof.
  intros He Hn. rewrite FreeMap_stream_eq. split.
  - unfold ParseFreeMapHeader. by rewrite ParseCountHeader_put.
  - unfold FreeExtents. cbn [fm_EntryCount].
    replace FreeMapHeaderLen with (zlen (put_CountHeader FreeMapMagic (zlen es)))
      by (row_length put_CountHeader).
    by apply table_rows_roundtrip.
Qed.

Lemma MarshalBarrier_ok h ss :
  BarrierHeader_wf h -> Forall BarrierShard_wf ss -> bh_ShardCount h = zlen ss ->
  ParseBarrierHeader (MarshalBarrier h ss) = Ok h
  /\ BarrierShards (MarshalBarrier h ss) h = Ok ss.
Proof.
  intros Hh Hs Hn. rewrite MarshalBarrier_eq. split; [by apply ParseBarrierHeader_put|].
  unfold BarrierShards. rewrite Hn.
  replace BarrierHeaderLen with (zlen (put_BarrierHeader h)) by (row_length put_BarrierHeader).
  by apply table_rows_roundtrip.
Qed.

(** ** Decoders never read out of bounds *)

Ltac no_panic_parse size :=
  unfold no_panic;
  match goal with |- context [zlen ?b <? size] =>
    destruct (Z.ltb_spec (zlen b) size); [done|] end; no_panics.

Lemma ParseCkptHeader_no_panic b : no_panic (ParseCkptHeader b).
Proof. unfold ParseCkptHeader. no_panic_parse CkptHeaderLen. Qed.
Lemma ParseSegStatsHeader_no_panic b : no_panic (ParseSegStatsHeader b).
Proof. unfold ParseSegStatsHeader. no_panic_parse SegStatsHeaderLen. Qed.
Lemma ParseChunkDirHeader_no_panic b : no_panic (ParseChunkDirHeader b).
Proof. unfold ParseChunkDirHeader. no_panic_parse ChunkDirHeaderLen. Qed.
Lemma ParseBarrierHeader_no_panic b : no_panic (ParseBarrierHeader b).
Proof. unfold ParseBarrierHeader. no_panic_parse BarrierHeaderLen. Qed.
Lemma ParseCountHeader_no_panic magic b : no_panic (ParseCountHeader magic b).
Proof. unfold ParseCountHeader. no_panic_parse 16. Qed.

Lemma count_header_no_panic {A} magic (mk : Z -> A) b :
  no_panic (let* n := ParseCountHeader magic b in Ok (mk n)).
Proof. pose proof (ParseCountHeader_no_panic magic b). unfold no_panic in *. by destruct (ParseCountHeader magic b). Qed.

Lemma ParseCkptEntry_no_panic b : no_panic (ParseCkptEntry b).
Proof. unfold ParseCkptEntry. no_panic_parse CkptEntrySize. Qed.
Lemma ParseSegStatsEntry_no_panic b : no_panic (ParseSegStatsEntry b).
Proof. unfold ParseSegStatsEntry. no_panic_parse SegStatsEntrySize. Qed.
Lemma ParseFreeExtent_no_panic b : no_panic (ParseFreeExtent b).
Proof. unfold ParseFreeExtent. no_panic_parse FreeExtentSize. Qed.

Lemma parseChunkDirRow_no_panic b : no_panic (parseChunkDirRow b).
Proof.
  unfold parseChunkDirRow, no_panic.
  destruct (Z.ltb_spec (zlen b) ChunkDirRowSize); [done|].
  reads.
  pose proof (le_dec_sl_range b ChunkDirMaxDisc 1 256 eq_refl ltac:(lia)).
  destruct (Z.ltb_spec ChunkDirMaxDisc (le_dec (sl b ChunkDirMaxDisc 1))); [done|].
  rewrite slice_ok by lia. done.
Qed.

(** A header that parsed carries counts and offsets of its field types. *)
Lemma ParseCkptHeader_ok b h :
  ParseCkptHeader b = Ok h ->
  CkptHeader_wf h
  /\ full_or_delta_ok h.(ch_FullOrDelta) h.(ch_BaseCkptOff) CkptFull CkptDelta = true.
Proof.
  unfold ParseCkptHeader. destruct (Z.ltb_spec (zlen b) CkptHeaderLen); [done|].
  reads. destruct (negb _); [done|]. destruct (full_or_delta_ok _ _ _ _) eqn:E; [|done].
  intros [= <-]. split; [|done]. unfold CkptHeader_wf. cbn.
  split_and!; by apply le_dec_sl_range.
Qed.

Lemma ParseSegStatsHeader_ok b h :
  ParseSegStatsHeader b = Ok h ->
  SegStatsHeader_wf h
  /\ full_or_delta_ok h.(sth_FullOrDelta) h.(sth_BaseCkptOff) SegStatsFull SegStatsDelta = true.
Proof.
  unfold ParseSegStatsHeader. destruct (Z.ltb_spec (zlen b) SegStatsHeaderLen); [done|].
  reads. destruct (negb _); [done|]. destruct (full_or_delta_ok _ _ _ _) eqn:E; [|done].
  intros [= <-]. split; [|done]. unfold SegStatsHeader_wf. cbn.
  split_and!; by apply le_dec_sl_range.
Qed.

Lemma ParseChunkDirHeader_ok b h :
  ParseChunkDirHeader b = Ok h ->
  ChunkDirHeader_wf h
  /\ full_or_delta_ok h.(cdh_FullOrDelta) h.(cdh_BaseCkptOff) ChunkDirFull ChunkDirDelta = true.
Proof.
  unfold ParseChunkDirHeader. destruct (Z.ltb_spec (zlen b) ChunkDirHeaderLen); [done|].
  reads. destruct (negb _); [done|]. destruct (full_or_delta_ok _ _ _ _) eqn:E; [|done].
  intros [= <-]. split; [|done]. unfold ChunkDirHeader_wf. cbn.
  split_and!; by apply le_dec_sl_range.
Qed.

Lemma ParseCountHeader_ok magic b n : ParseCountHeader magic b = Ok n -> is_u64 n.
Proof.
  unfold ParseCountHeader. destruct (Z.ltb_spec (zlen b) 16); [done|].
  reads. destruct (negb _); [done|]. intros [= <-]. by apply le_dec_sl_range.
Qed.

Lemma ParseBarrierHeader_ok b h : ParseBarrierHeader b = Ok h -> BarrierHeader_wf h.
Proof.
  unfold ParseBarrierHeader. destruct (Z.ltb_spec (zlen b) BarrierHeaderLen); [done|].
  reads. destruct (negb _); [done|]. intros [= <-].
  split; by apply le_dec_sl_range.
Qed.

(** The nested walks: every step is guarded by the bytes that remain. *)
Lemma ttl_classes_no_panic payload off n :
  0 <= off -> no_panic (ttl_classes payload off n).
Proof.
  unfold no_panic. revert off. induction n as [|n IH]; intros off Ho; [done|].
  simpl. destruct (Z.ltb_spec (zlen payload) (off + TTLClassHeaderLen)); [done|].
  reads.
  pose proof (le_dec_sl_range payload (off + 4) 4 two32 eq_refl ltac:(done)) as Hc.
  set (cnt := le_dec (sl payload (off + 4) 4)) in *.
  destruct (Z.ltb_spec (zlen payload - (off + TTLClassHeaderLen)) (cnt * TTLSegmentSize)); [done|].
  destruct (decode_rows_total (A:=Z) payload (off + TTLClassHeaderLen) (Z.to_nat cnt))
    as (segs & -> & _); [lia|cbn [row_size TTLSegment_row]; lia|].
  specialize (IH (off + TTLClassHeaderLen + cnt * TTLSegmentSize)).
  destruct (ttl_classes payload _ n); [done|done|]. apply IH. lia.
Qed.

Lemma TTLClasses_no_panic payload h : no_panic (TTLClasses payload h).
Proof.
  unfold TTLClasses. destruct (_ <? _); [done|]. destruct (_ <? _); [done|].
  by apply ttl_classes_no_panic.
Qed.

Lemma chunkdir_collections_no_panic payload off n :
  0 <= off -> no_panic (chunkdir_collections payload off n).
Proof.
  unfold no_panic. revert off. induction n as [|n IH]; intros off Ho; [done|].
  simpl. destruct (Z.ltb_spec (zlen payload) (off + ChunkDirCollectionLen)); [done|].
  reads.
  pose proof (le_dec_sl_range payload (off + 8) 4 two32 eq_refl ltac:(done)) as Hc.
  set (cnt := le_dec (sl payload (off + 8) 4)) in *.
  destruct (Z.ltb_spec (zlen payload - (off + ChunkDirCollectionLen)) (cnt * ChunkDirRowSize)); [done|].
  pose proof (decode_with_no_panic parseChunkDirRow ChunkDirRowSize payload
    (off + ChunkDirCollectionLen) (Z.to_nat cnt) ltac:(lia)
    (fun b _ => parseChunkDirRow_no_panic b) ltac:(lia) ltac:(lia)) as Hd.
  unfold no_panic in Hd. destruct (decode_with _ _ _ _ _); [|done|done].
  specialize (IH (off + ChunkDirCollectionLen + cnt * ChunkDirRowSize)).
  destruct (chunkdir_collections payload _ n); [done|done|]. apply IH. lia.
Qed.

Lemma ChunkDirCollections_no_panic payload h : no_panic (ChunkDirCollections payload h).
Proof.
  unfold ChunkDirCollections. destruct (_ <? _); [done|]. destruct (_ <? _); [done|].
  by apply chunkdir_collections_no_panic.
Qed.

Lemma readMetaKVField_spec payload off :
  0 <= off ->
  readMetaKVField payload off (zlen payload) = Err ErrLength
  \/ exists field next, readMetaKVField payload off (zlen payload) = Ok (field, next)
       /\ off + 4 <= next <= zlen payload.
Proof.
  intros Ho. unfold readMetaKVField.
  destruct (Z.ltb_spec (zlen payload) (off + 4)); [by left|].
  reads. pose proof (le_dec_sl_range payload off 4 two32 eq_refl ltac:(done)) as Hc.
  set (l := le_dec (sl payload off 4)) in *.
  destruct (Z.ltb_spec (zlen payload - (off + 4)) l); [by left|].
  right. reads. eexists _, _. split; [done|]. lia.
Qed.

Lemma metakv_pairs_no_panic payload off k :
  0 <= off -> no_panic (metakv_pairs payload off k).
Proof.
  unfold no_panic. revert off. induction k as [|k IH]; intros off Ho; [done|]. simpl.
  destruct (readMetaKVField_spec payload off Ho) as [->|(key & next & -> & ?)]; [done|].
  destruct (readMetaKVField_spec payload next) as [->|(v & next' & -> & ?)]; [lia|done|].
  specialize (IH next'). destruct (metakv_pairs payload next' k); [done|done|].
  apply IH. lia.
Qed.

Lemma MetaKVPairs_no_panic payload h : no_panic (MetaKVPairs payload h).
Proof.
  unfold MetaKVPairs. destruct (_ <? _); [done|]. destruct (_ <? _); [done|].
  by apply metakv_pairs_no_panic.
Qed.

(** ** Nested tables: round trip *)

Definition put_TTLClass (c : TTLClass) : bytes :=
  put_TTLClassHeader c.(tc_Class) (zlen c.(tc_Segments)) c.(tc_ExpiryUpperUnix)
  ++ encode_rows c.(tc_Segments).

Lemma zlen_put_TTLClass c :
  zlen (put_TTLClass c) = TTLClassHeaderLen + zlen (tc_Segments c) * TTLSegmentSize.
Proof.
  unfold put_TTLClass. rewrite zlen_app, zlen_encode_rows.
  by replace (zlen (put_TTLClassHeader _ _ _)) with TTLClassHeaderLen
    by (row_length put_TTLClassHeader).
Qed.

Lemma ttl_class_step c dst :
  TTLClass_wf c ->
  fold_left AppendTTLSegment c.(tc_Segments)
    (AppendTTLClassHeader dst c.(tc_Class) (cast32 (zlen c.(tc_Segments))) c.(tc_ExpiryUpperUnix))
  = dst ++ put_TTLClass c.
Proof.
  intros (_ & _ & _ & Hc). pose proof (zlen_nonneg (tc_Segments c)).
  unfold cast32. rewrite Z.mod_small by lia.
  unfold AppendTTLSegment. rewrite (fold_append put_TTLSegment).
  unfold AppendTTLClassHeader, put_TTLClass. by rewrite <- app_assoc.
Qed.

(** Folding equal steps over a well-formed list. *)
Lemma fold_append_wf {A} (wf : A -> Prop) (step : bytes -> A -> bytes) (f : A -> bytes) es dst :
  (forall d e, wf e -> step d e = d ++ f e) -> Forall wf es ->
  fold_left step es dst = dst ++ concat (map f es).
Proof.
  intros Hs Hwf. revert dst. induction Hwf as [|e es He Hes IH]; intros dst; simpl.
  - by rewrite app_nil_r.
  - by rewrite IH, Hs, <- app_assoc.
Qed.

Lemma TTLIndex_stream_eq cs :
  Forall TTLClass_wf cs ->
  TTLIndex_stream cs = put_CountHeader TTLIndexMagic (zlen cs) ++ concat (map put_TTLClass cs).
Proof.
  intros Hwf. unfold TTLIndex_stream.
  by rewrite (fold_append_wf TTLClass_wf _ put_TTLClass) by (auto using ttl_class_step).
Qed.

Lemma ttl_classes_stream pre cs post :
  Forall TTLClass_wf cs ->
  ttl_classes (pre ++ concat (map put_TTLClass cs) ++ post) (zlen pre) (length cs) = Ok cs.
Proof.
  intros Hwf. revert pre. induction Hwf as [|c cs Hc Hcs IH]; intros pre; [done|].
  destruct Hc as (H1 & H2 & H3 & H4).
  pose proof (zlen_nonneg pre). pose proof (zlen_nonneg (tc_Segments c)).
  pose proof (zlen_nonneg post). pose proof (zlen_nonneg (concat (map put_TTLClass cs))).
  cbn [length map concat ttl_classes]. rewrite <- app_assoc.
  set (rest := concat (map put_TTLClass cs) ++ post) in *.
  specialize (IH (pre ++ put_TTLClass c)).
  rewrite <- app_assoc, zlen_app, zlen_put_TTLClass in IH.
  assert (zlen (pre ++ put_TTLClass c ++ rest)
          = zlen pre + TTLClassHeaderLen + zlen (tc_Segments c) * TTLSegmentSize + zlen rest) as Hz
    by (rewrite !zlen_app, zlen_put_TTLClass; lia).
  pose proof (zlen_nonneg rest).
  assert (forall i n, 0 <= i -> 0 <= n -> i + n <= TTLClassHeaderLen ->
    sl (pre ++ put_TTLClass c ++ rest) (zlen pre + i) n
    = sl (put_TTLClassHeader (tc_Class c) (zlen (tc_Segments c)) (tc_ExpiryUpperUnix c)) i n) as Hs.
  { intros i n Hi Hn Hin. rewrite sl_app_r by lia.
    replace (zlen pre + i - zlen pre) with i by lia.
    unfold put_TTLClass. rewrite <- app_assoc. apply sl_app_l; [lia..|].
    replace (zlen (put_TTLClassHeader _ _ _)) with TTLClassHeaderLen
      by (row_length put_TTLClassHeader). lia. }
  assert (decode_rows (pre ++ put_TTLClass c ++ rest) (zlen pre + TTLClassHeaderLen)
            (Z.to_nat (zlen (tc_Segments c))) = Ok (tc_Segments c)) as Hd.
  { pose proof (decode_encode_rows
      (pre ++ put_TTLClassHeader (tc_Class c) (zlen (tc_Segments c)) (tc_ExpiryUpperUnix c))
      (tc_Segments c) rest H3) as Hd.
    rewrite zlen_app in Hd.
    replace (zlen (put_TTLClassHeader _ _ _)) with TTLClassHeaderLen in Hd
      by (row_length put_TTLClassHeader).
    unfold put_TTLClass. rewrite <- !app_assoc in *. rewrite <- Hd. f_equal. unfold zlen; lia. }
  set (w := pre ++ put_TTLClass c ++ rest) in *. clearbody w.
  destruct (Z.ltb_spec (zlen w) (zlen pre + TTLClassHeaderLen)); [lia|].
  pose proof (Hs 0 4 ltac:(lia) ltac:(lia) ltac:(lia)) as Hs0. rewrite Z.add_0_r in Hs0.
  reads. rewrite Hs0, !Hs by lia. unfold put_TTLClassHeader. layout. fields.
  destruct (Z.ltb_spec (zlen w - (zlen pre + TTLClassHeaderLen))
              (zlen (tc_Segments c) * TTLSegmentSize)); [lia|].
  rewrite Hd.
  replace (zlen pre + TTLClassHeaderLen + zlen (tc_Segments c) * TTLSegmentSize)
    with (zlen pre + (TTLClassHeaderLen + zlen (tc_Segments c) * TTLSegmentSize)) by lia.
  rewrite IH. by destruct c.
Qed.

(** Items of at least [k] bytes fill at least [k] bytes each. *)
Lemma zlen_concat_ge {A} (f : A -> bytes) (k : Z) es :
  0 <= k -> (forall a, k <= zlen (f a)) -> zlen es * k <= zlen (concat (map f es)).
Proof.
  intros Hk Hf. induction es as [|e es IH]; [done|].
  simpl. rewrite zlen_cons, zlen_app. pose proof (Hf e). lia.
Qed.

Lemma TTLIndex_stream_ok cs :
  Forall TTLClass_wf cs -> is_u64 (zlen cs) ->
  ParseTTLIndexHeader (TTLIndex_stream cs) = Ok {| th_ClassCount := zlen cs |}
  /\ TTLClasses (TTLIndex_stream cs) {| th_ClassCount := zlen cs |} = Ok cs.
Proof.
  intros Hwf Hn. rewrite TTLIndex_stream_eq by done. split.
  { unfold ParseTTLIndexHeader. by rewrite ParseCountHeader_put. }
  assert (zlen (put_CountHeader TTLIndexMagic (zlen cs)) = 16) as Hz
    by (row_length put_CountHeader).
  pose proof (zlen_concat_ge put_TTLClass TTLClassHeaderLen cs ltac:(lia)) as Hge.
  unfold TTLClasses. cbn [th_ClassCount]. rewrite zlen_app, Hz.
  destruct (Z.ltb_spec (16 + zlen (concat (map put_TTLClass cs))) TTLIndexHeaderLen);
    [pose proof (zlen_nonneg (concat (map put_TTLClass cs))); lia|].
  destruct (Z.ltb_spec ((16 + zlen (concat (map put_TTLClass cs)) - TTLIndexHeaderLen)
      / TTLClassHeaderLen) (zlen cs)) as [Hlt|_].
  { exfalso. apply Z.lt_nge in Hlt. apply Hlt, Z.div_le_lower_bound; [lia|].
    assert (zlen cs * TTLClassHeaderLen <= zlen (concat (map put_TTLClass cs))); [|lia].
    apply Hge. intros c. rewrite zlen_put_TTLClass. pose proof (zlen_nonneg (tc_Segments c)). lia. }
  pose proof (ttl_classes_stream (put_CountHeader TTLIndexMagic (zlen cs)) cs [] Hwf) as Hs.
  rewrite app_nil_r, Hz in Hs. rewrite <- Hs. f_equal. unfold zlen. lia.
Qed.

(** ** meta_kv: round trip *)

Definition put_MetaKVPair (p : MetaKVPair) : bytes :=
  le_enc 4 (zlen p.(kv_Key)) ++ p.(kv_Key) ++ le_enc 4 (zlen p.(kv_Value)) ++ p.(kv_Value).

Lemma AppendMetaKVPair_eq d p :
  MetaKVPair_wf p -> AppendMetaKVPair d p.(kv_Key) p.(kv_Value) = d ++ put_MetaKVPair p.
Proof.
  intros [Hk Hv]. pose proof (zlen_nonneg (kv_Key p)). pose proof (zlen_nonneg (kv_Value p)).
  unfold AppendMetaKVPair, put_MetaKVPair, cast32.
  rewrite !Z.mod_small by lia. by rewrite <- !app_assoc.
Qed.

Lemma readMetaKVField_put w off pre f post :
  w = pre ++ le_enc 4 (zlen f) ++ f ++ post -> off = zlen pre -> zlen f < two32 ->
  readMetaKVField w off (zlen w) = Ok (f, off + 4 + zlen f).
Proof.
  intros Hw -> Hf. pose proof (zlen_nonneg pre). pose proof (zlen_nonneg f).
  pose proof (zlen_nonneg post). unfold readMetaKVField.
  assert (zlen w = zlen pre + 4 + zlen f + zlen post) as Hz
    by (rewrite Hw, !zlen_app, zlen_le_enc; lia).
  assert (sl w (zlen pre) 4 = le_enc 4 (zlen f)) as H4
    by (rewrite Hw; by apply sl_mid).
  assert (sl w (zlen pre + 4) (zlen f) = f) as Hfd.
  { rewrite Hw, (app_assoc pre). apply sl_mid; [|done]. rewrite zlen_app, zlen_le_enc. lia. }
  destruct (Z.ltb_spec (zlen w) (zlen pre + 4)); [lia|].
  reads. rewrite H4. fields.
  destruct (Z.ltb_spec (zlen w - (zlen pre + 4)) (zlen f)); [lia|].
  reads. by rewrite Hfd.
Qed.

Lemma metakv_pairs_stream pre ps post :
  Forall MetaKVPair_wf ps ->
  metakv_pairs (pre ++ concat (map put_MetaKVPair ps) ++ post) (zlen pre) (length ps) = Ok ps.
Proof.
  intros Hwf. revert pre. induction Hwf as [|p ps [Hk Hv] Hps IH]; intros pre; [done|].
  specialize (IH (pre ++ put_MetaKVPair p)).
  cbn [length map concat metakv_pairs]. rewrite <- (app_assoc pre) in IH.
  rewrite <- (app_assoc (put_MetaKVPair p)).
  set (rest := concat (map put_MetaKVPair ps) ++ post) in *.
  set (w := pre ++ put_MetaKVPair p ++ rest) in *.
  rewrite (readMetaKVField_put w (zlen pre) pre (kv_Key p)
    (le_enc 4 (zlen (kv_Value p)) ++ kv_Value p ++ rest));
    [|by unfold w, put_MetaKVPair; rewrite <- !app_assoc|done|done].
  rewrite (readMetaKVField_put w _ (pre ++ le_enc 4 (zlen (kv_Key p)) ++ kv_Key p) (kv_Value p) rest);
    [|by unfold w, put_MetaKVPair; rewrite <- !app_assoc|rewrite !zlen_app, zlen_le_enc; lia|done].
  replace (zlen (pre ++ put_MetaKVPair p))
    with (zlen pre + 4 + zlen (kv_Key p) + 4 + zlen (kv_Value p)) in IH
    by (unfold put_MetaKVPair; rewrite !zlen_app, !zlen_le_enc; lia).
  rewrite IH. by destruct p.
Qed.

Lemma MetaKV_stream_ok ps :
  Forall MetaKVPair_wf ps -> is_u64 (zlen ps) ->
  ParseMetaKVHeader (MetaKV_stream ps) = Ok {| mk_EntryCount := zlen ps |}
  /\ MetaKVPairs (MetaKV_stream ps) {| mk_EntryCount := zlen ps |} = Ok ps.
Proof.
  intros Hwf Hn.
  assert (MetaKV_stream ps = put_CountHeader MetaKVMagic (zlen ps) ++ concat (map put_MetaKVPair ps)) as ->.
  { unfold MetaKV_stream.
    by rewrite (fold_append_wf MetaKVPair_wf _ put_MetaKVPair) by (auto using AppendMetaKVPair_eq). }
  split.
  { unfold ParseMetaKVHeader. by rewrite ParseCountHeader_put. }
  assert (zlen (put_CountHeader MetaKVMagic (zlen ps)) = 16) as Hz by (row_length put_CountHeader).
  pose proof (zlen_concat_ge put_MetaKVPair MetaKVPairOverhead ps ltac:(lia)) as Hge.
  unfold MetaKVPairs. cbn [mk_EntryCount]. rewrite zlen_app, Hz.
  pose proof (zlen_nonneg (concat (map put_MetaKVPair ps))).
  destruct (Z.ltb_spec (16 + zlen (concat (map put_MetaKVPair ps))) MetaKVHeaderLen); [lia|].
  destruct (Z.ltb_spec ((16 + zlen (concat (map put_MetaKVPair ps)) - MetaKVHeaderLen)
      / MetaKVPairOverhead) (zlen ps)) as [Hlt|_].
  { exfalso. apply Z.lt_nge in Hlt. apply Hlt, Z.div_le_lower_bound; [lia|].
    assert (zlen ps * MetaKVPairOverhead <= zlen (concat (map put_MetaKVPair ps))); [|lia].
    apply Hge. intros p. unfold put_MetaKVPair. rewrite !zlen_app, !zlen_le_enc.
    pose proof (zlen_nonneg (kv_Key p)). pose proof (zlen_nonneg (kv_Value p)). lia. }
  pose proof (metakv_pairs_stream (put_CountHeader MetaKVMagic (zlen ps)) ps [] Hwf) as Hs.
  rewrite app_nil_r, Hz in Hs. rewrite <- Hs. f_equal. unfold zlen. lia.
Qed.

Lemma MetaKVLookup_spec pairs key v :
  MetaKVLookup pairs key = Some v <->
  exists pre post, pairs = pre ++ {| kv_Key := key; kv_Value := v |} :: post
    /\ Forall (fun p => kv_Key p <> key) pre.
Proof.
  induction pairs as [|[k w] pairs IH]; simpl.
  - split; [done|]. intros ([|] & ? & ? & _); discriminate.
  - destruct (bytes_eqb k key) eqn:E.
    + apply bytes_eqb_eq in E as ->. split.
      * intros [= ->]. exists [], pairs. done.
      * intros ([|p pre] & post & Heq & Hpre); simplify_eq/=; [done|].
        inversion Hpre; simplify_eq/=.
    + rewrite IH. split.
      * intros (pre & post & -> & Hpre). exists ({| kv_Key := k; kv_Value := w |} :: pre), post.
        split; [done|]. constructor; [|done]. cbn. intros ->. by rewrite bytes_eqb_refl in E.
      * intros ([|p pre] & post & Heq & Hpre); simplify_eq/=.
        { by rewrite bytes_eqb_refl in E. }
        inversion Hpre; subst. by eexists _, _.
Qed.

(** ** The chunk directory: round trip *)

Lemma zlen_put_ChunkDirRow r : zlen (put_ChunkDirRow r) = ChunkDirRowSize.
Proof. row_length put_ChunkDirRow. Qed.

(** The stored discriminator is the first 32 bytes of the given one. *)
Lemma parseChunkDirRow_put r :
  is_u32 r.(cr_ElementCount) -> is_u64 r.(cr_ChunkOff) -> is_u64 r.(cr_ChunkLiveBytes) ->
  parseChunkDirRow (put_ChunkDirRow r)
  = Ok {| cr_FirstDisc := ztake ChunkDirMaxDisc r.(cr_FirstDisc);
          cr_ElementCount := r.(cr_ElementCount); cr_ChunkOff := r.(cr_ChunkOff);
          cr_ChunkLiveBytes := r.(cr_ChunkLiveBytes) |}.
Proof.
  intros H1 H2 H3. pose proof (zlen_put_ChunkDirRow r) as Hz.
  set (d := ztake ChunkDirMaxDisc (cr_FirstDisc r)).
  assert (0 <= zlen d <= 32) as Hd
    by (unfold d; rewrite zlen_ztake; pose proof (zlen_nonneg (cr_FirstDisc r)); lia).
  assert (le_dec (sl (put_ChunkDirRow r) ChunkDirMaxDisc 1) = zlen d) as Hl.
  { unfold put_ChunkDirRow, ChunkDirMaxDisc. layout. apply le_dec_u8. lia. }
  assert (sl (put_ChunkDirRow r) 0 (zlen d) = d) as Hdd.
  { unfold put_ChunkDirRow. fold d. by layout. }
  unfold parseChunkDirRow. rewrite Hz. cbn [Z.ltb Z.compare Pos.compare Pos.compare_cont ChunkDirRowSize].
  unfold ChunkDirRowSize in Hz.
  rewrite at8_ok by lia. rewrite Hl.
  destruct (Z.ltb_spec ChunkDirMaxDisc (zlen d)); [lia|].
  rewrite slice_n with (n := zlen d) by lia. rewrite Hdd.
  reads. unfold put_ChunkDirRow. layout. by fields.
Qed.

Lemma parseChunkDirRow_put_wf r : ChunkDirRow_wf r -> parseChunkDirRow (put_ChunkDirRow r) = Ok r.
Proof.
  intros (Hd & ? & ? & ?). rewrite parseChunkDirRow_put by done.
  rewrite ztake_all by done. by destruct r.
Qed.

Definition put_ChunkDirCollection (c : ChunkDirCollection) : bytes :=
  put_ChunkDirCollectionHeader c.(cc_KeyHash) (zlen c.(cc_Chunks)) c.(cc_Flags)
  ++ concat (map put_ChunkDirRow c.(cc_Chunks)).

Lemma zlen_concat_const {A} (f : A -> bytes) k es :
  (forall a, zlen (f a) = k) -> zlen (concat (map f es)) = zlen es * k.
Proof.
  intros Hf. induction es as [|e es IH]; [done|].
  simpl. rewrite zlen_app, zlen_cons, Hf, IH. lia.
Qed.

Lemma zlen_ChunkDirCollectionHeader k n f :
  zlen (put_ChunkDirCollectionHeader k n f) = ChunkDirCollectionLen.
Proof. row_length put_ChunkDirCollectionHeader. Qed.

Lemma zlen_put_ChunkDirCollection c :
  zlen (put_ChunkDirCollection c)
  = ChunkDirCollectionLen + zlen (cc_Chunks c) * ChunkDirRowSize.
Proof.
  unfold put_ChunkDirCollection.
  rewrite zlen_app, zlen_ChunkDirCollectionHeader.
  by rewrite (zlen_concat_const _ ChunkDirRowSize) by apply zlen_put_ChunkDirRow.
Qed.

Lemma chunkdir_step c dst :
  ChunkDirCollection_wf c ->
  fold_left AppendChunkDirRow c.(cc_Chunks)
    (AppendChunkDirCollectionHeader dst c.(cc_KeyHash) (cast32 (zlen c.(cc_Chunks))) c.(cc_Flags))
  = dst ++ put_ChunkDirCollection c.
Proof.
  intros (_ & _ & _ & Hc). pose proof (zlen_nonneg (cc_Chunks c)).
  unfold cast32. rewrite Z.mod_small by lia.
  unfold AppendChunkDirRow. rewrite (fold_append put_ChunkDirRow).
  unfold AppendChunkDirCollectionHeader, put_ChunkDirCollection. by rewrite <- app_assoc.
Qed.

(** One collection of the walk, at any position of the payload. *)
Lemma chunkdir_collections_cons w off pre c rest n :
  w = pre ++ put_ChunkDirCollection c ++ rest -> off = zlen pre -> ChunkDirCollection_wf c ->
  chunkdir_collections w off (S n)
  = let* cs := chunkdir_collections w (off + zlen (put_ChunkDirCollection c)) n in Ok (c :: cs).
Proof.
  intros Hw -> (H1 & H2 & H3 & H4). rewrite zlen_put_ChunkDirCollection.
  pose proof (zlen_nonneg pre). pose proof (zlen_nonneg (cc_Chunks c)). pose proof (zlen_nonneg rest).
  set (hd := put_ChunkDirCollectionHeader (cc_KeyHash c) (zlen (cc_Chunks c)) (cc_Flags c)).
  assert (zlen hd = ChunkDirCollectionLen) as Hh by apply zlen_ChunkDirCollectionHeader.
  assert (zlen w = zlen pre + ChunkDirCollectionLen + zlen (cc_Chunks c) * ChunkDirRowSize + zlen rest) as Hz
    by (rewrite Hw, !zlen_app, zlen_put_ChunkDirCollection; lia).
  assert (forall i n, 0 <= i -> 0 <= n -> i + n <= ChunkDirCollectionLen ->
    sl w (zlen pre + i) n = sl hd i n) as Hs.
  { intros i m Hi Hn Hin. rewrite Hw, sl_app_r by lia.
    replace (zlen pre + i - zlen pre) with i by lia.
    unfold put_ChunkDirCollection. rewrite <- app_assoc. apply sl_app_l; [lia..|fold hd; lia]. }
  assert (decode_with parseChunkDirRow ChunkDirRowSize w (zlen pre + ChunkDirCollectionLen)
            (Z.to_nat (zlen (cc_Chunks c))) = Ok (cc_Chunks c)) as Hd.
  { pose proof (decode_with_enc parseChunkDirRow ChunkDirRowSize put_ChunkDirRow ChunkDirRow_wf
      (pre ++ hd) (cc_Chunks c) rest ltac:(lia) (fun a _ => zlen_put_ChunkDirRow a)
      parseChunkDirRow_put_wf H3) as Hd.
    rewrite zlen_app, Hh in Hd. rewrite Hw. unfold put_ChunkDirCollection. fold hd.
    rewrite <- !app_assoc in *. rewrite <- Hd. f_equal. unfold zlen; lia. }
  cbn [chunkdir_collections].
  destruct (Z.ltb_spec (zlen w) (zlen pre + ChunkDirCollectionLen)); [lia|].
  pose proof (Hs 0 8 ltac:(lia) ltac:(lia) ltac:(lia)) as Hs0. rewrite Z.add_0_r in Hs0.
  reads. rewrite Hs0, !Hs by lia. unfold hd, put_ChunkDirCollectionHeader. layout. fields.
  destruct (Z.ltb_spec (zlen w - (zlen pre + ChunkDirCollectionLen))
              (zlen (cc_Chunks c) * ChunkDirRowSize)); [lia|].
  rewrite Hd, Z.add_assoc. by destruct c.
Qed.

Lemma chunkdir_collections_stream pre cs post :
  Forall ChunkDirCollection_wf cs ->
  chunkdir_collections (pre ++ concat (map put_ChunkDirCollection cs) ++ post) (zlen pre) (length cs)
  = Ok cs.
Proof.
  intros Hwf. revert pre. induction Hwf as [|c cs Hc Hcs IH]; intros pre; [done|].
  cbn [length map concat]. rewrite <- app_assoc.
  rewrite (chunkdir_collections_cons _ _ pre c (concat (map put_ChunkDirCollection cs) ++ post)) by done.
  specialize (IH (pre ++ put_ChunkDirCollection c)).
  rewrite <- app_assoc, zlen_app in IH. by rewrite IH.
Qed.

Lemma ChunkDir_stream_ok h cs :
  ChunkDirHeader_wf h -> Forall ChunkDirCollection_wf cs -> cdh_CollectionCount h = zlen cs ->
  full_or_delta_ok h.(cdh_FullOrDelta) h.(cdh_BaseCkptOff) ChunkDirFull ChunkDirDelta = true ->
  ParseChunkDirHeader (ChunkDir_stream h cs) = Ok h
  /\ ChunkDirCollections (ChunkDir_stream h cs) h = Ok cs.
Proof.
  intros Hh Hwf Hn Hfd.
  assert (ChunkDir_stream h cs = put_ChunkDirHeader h ++ concat (map put_ChunkDirCollection cs)) as ->.
  { unfold ChunkDir_stream.
    by rewrite (fold_append_wf ChunkDirCollection_wf _ put_ChunkDirCollection)
      by (auto using chunkdir_step). }
  split; [by apply ParseChunkDirHeader_put|].
  assert (zlen (put_ChunkDirHeader h) = ChunkDirHeaderLen) as Hz by (row_length put_ChunkDirHeader).
  pose proof (zlen_nonneg (concat (map put_ChunkDirCollection cs))).
  unfold ChunkDirCollections. rewrite Hn, zlen_app, Hz.
  destruct (Z.ltb_spec (ChunkDirHeaderLen + zlen (concat (map put_ChunkDirCollection cs)))
              ChunkDirHeaderLen); [lia|].
  match goal with |- context [?q <? zlen cs] => destruct (Z.ltb_spec q (zlen cs)) as [Hlt|_] end.
  { exfalso. apply Z.lt_nge in Hlt. apply Hlt, Z.div_le_lower_bound; [lia|].
    pose proof (zlen_concat_ge put_ChunkDirCollection ChunkDirCollectionLen cs ltac:(lia)) as Hge.
    assert (zlen cs * ChunkDirCollectionLen <= zlen (concat (map put_ChunkDirCollection cs))); [|lia].
    apply Hge. intros c. rewrite zlen_put_ChunkDirCollection.
    pose proof (zlen_nonneg (cc_Chunks c)). lia. }
  pose proof (chunkdir_collections_stream (put_ChunkDirHeader h) cs [] Hwf) as Hs.
  rewrite app_nil_r, Hz in Hs. rewrite <- Hs. f_equal. unfold zlen. lia.
Qed.

(** ** Accounting over decoded tables *)

Definition sum_length (es : list FreeExtent) : Z := fold_right (fun e n => fe_Length e + n) 0 es.

Lemma sum_length_nonneg es : Forall FreeExtent_wf es -> 0 <= sum_length es.
Proof.
  induction 1 as [|e es (_ & He & _) _ IH]; simpl; [lia|]. unfold is_u64 in He. lia.
Qed.

(** The totals split the runs by the pending flag, exactly while they fit. *)
Lemma FreeMapTotals_exact es :
  Forall FreeExtent_wf es -> sum_length es < two64 ->
  FreeMapTotals es = (sum_length (filter (fun e => is_pending e = false) es),
                      sum_length (filter (fun e => is_pending e = true) es)).
Proof.
  intros Hwf Hsum. unfold FreeMapTotals.
  assert (forall f p, 0 <= f -> 0 <= p -> f + p + sum_length es < two64 ->
    fold_left (fun '(free, pending) e =>
      if is_pending e then (free, add64 pending e.(fe_Length))
      else (add64 free e.(fe_Length), pending)) es (f, p)
    = (f + sum_length (filter (fun e => is_pending e = false) es),
       p + sum_length (filter (fun e => is_pending e = true) es))) as H.
  { clear Hsum. induction Hwf as [|e es He Hes IH]; intros f p Hf Hp Hs; simpl in *.
    - by rewrite !Z.add_0_r.
    - pose proof (sum_length_nonneg es Hes). destruct He as (_ & He & _). unfold is_u64 in He.
      rewrite !filter_cons. destruct (is_pending e) eqn:E; simpl;
        rewrite add64_small, IH by lia; f_equal; lia. }
  rewrite H by lia. done.
Qed.

(** A segment is queued for reclaim exactly when it belongs to a class whose
    expiry bound the clock has reached. *)
Lemma ExpiredSegments_in classes now s :
  s ∈ ExpiredSegments classes now <->
  exists c, c ∈ classes /\ tc_ExpiryUpperUnix c <= now /\ s ∈ tc_Segments c.
Proof.
  unfold ExpiredSegments.
  assert (forall out, s ∈ fold_left (fun out c =>
    if c.(tc_ExpiryUpperUnix) <=? now then out ++ c.(tc_Segments) else out) classes out
    <-> s ∈ out \/ exists c, c ∈ classes /\ tc_ExpiryUpperUnix c <= now /\ s ∈ tc_Segments c) as H.
  { induction classes as [|c cs IH]; intros out; simpl.
    - split; [by left|]. intros [?|(c & Hc & _)]; [done|]. by apply elem_of_nil in Hc.
    - rewrite IH. setoid_rewrite elem_of_cons.
      destruct (Z.leb_spec (tc_ExpiryUpperUnix c) now).
      + rewrite elem_of_app. naive_solver.
      + naive_solver lia. }
  rewrite H. rewrite elem_of_nil. naive_solver.
Qed.
