(* ===== verification/Frames.v ===== *)
(** The self-delimiting frames inside segment payloads: the record log
    (recordlog.go), the value log (valuelog.go) and the collection payloads
    (collectionlog.go), over Go's unsigned varints. *)

From S2P Require Import Prelude Crc Format.

(** ** Unsigned varints: [encoding/binary] *)

Definition MaxVarintLen64 : Z := 10.

(** [binary.PutUvarint]: ten bytes hold every 64-bit value. *)
Fixpoint put_uvarint (fuel : nat) (x : Z) : bytes :=
  match fuel with
  | O => []
  | S f =>
      if x <? 128 then [Z_byte x]
      else Z_byte (Z.lor (x mod 256) 128) :: put_uvarint f (Z.shiftr x 7)
  end.
Definition PutUvarint (x : Z) : bytes := put_uvarint 10 x.

(** [binary.Uvarint]: the value and the bytes consumed; a count of 0 is a
    truncated varint, a negative count an overflow. *)
Fixpoint uvarint_loop (buf : bytes) (i s x : Z) : Z * Z :=
  match buf with
  | [] => (0, 0)
  | c :: buf' =>
      let b := byte_Z c in
      if i =? MaxVarintLen64 then (0, - (i + 1))
      else if b <? 128 then
        if (i =? MaxVarintLen64 - 1) && (1 <? b) then (0, - (i + 1))
        else (Z.lor x (Z.shiftl b s mod two64), i + 1)
      else uvarint_loop buf' (i + 1) (s + 7) (Z.lor x (Z.shiftl (Z.land b 127) s mod two64))
  end.
Definition Uvarint (buf : bytes) : Z * Z := uvarint_loop buf 0 0 0.

(** Disjoint bits add. *)
Lemma lor_shiftl_add x y s :
  0 <= s -> 0 <= x < 2 ^ s -> Z.lor x (Z.shiftl y s) = x + y * 2 ^ s.
Proof.
  intros Hs Hx. rewrite <- Z.shiftl_mul_pow2 by done.
  symmetry. apply Z.add_nocarry_lor. apply Z.bits_inj'. intros i Hi.
  rewrite Z.land_spec, Z.shiftl_spec, Z.bits_0 by done.
  destruct (Z.lt_ge_cases i s).
  - rewrite (Z.testbit_neg_r y) by lia. apply andb_false_r.
  - destruct (Z.eq_dec x 0) as [->|]; [by rewrite Z.bits_0|].
    rewrite Z.bits_above_log2; [done|lia|].
    apply Z.lt_le_trans with s; [|done]. apply Z.log2_lt_pow2; lia.
Qed.

Lemma cont_byte x :
  0 <= x ->
  128 <= byte_Z (Z_byte (Z.lor (x mod 256) 128)) < 256
  /\ Z.land (byte_Z (Z_byte (Z.lor (x mod 256) 128))) 127 = x mod 128.
Proof.
  intros Hx. pose proof (Z.mod_pos_bound x 256 ltac:(lia)) as Hb.
  assert (0 <= Z.lor (x mod 256) 128 < 256) as Hl.
  { split; [apply Z.lor_nonneg; lia|].
    assert (Z.log2 (Z.lor (x mod 256) 128) < 8); [|apply Z.log2_lt_cancel; done].
    rewrite Z.log2_lor by lia. change (Z.log2 128) with 7.
    assert (Z.log2 (x mod 256) <= Z.log2 255) by (apply Z.log2_le_mono; lia).
    change (Z.log2 255) with 7 in *. lia. }
  rewrite byte_Z_Z_byte, Z.mod_small by done.
  split.
  - split; [|lia]. change 128 with (2 ^ 7) at 1. apply Z.log2_le_pow2.
    + assert (Z.lor (x mod 256) 128 <> 0); [|lia].
      intros H0. apply Z.lor_eq_0_iff in H0. lia.
    + rewrite Z.log2_lor by lia. change (Z.log2 128) with 7. lia.
  - rewrite Z.land_lor_distr_l. change (Z.land 128 127) with 0. rewrite Z.lor_0_r.
    change 127 with (Z.ones 7). rewrite Z.land_ones by lia.
    apply Z.mod_mod_divide. by exists 2.
Qed.

Lemma put_uvarint_loop fuel x i acc post :
  Z.of_nat fuel = 10 - i -> 0 <= i -> 0 <= x -> x < 2 ^ (64 - 7 * i) ->
  0 <= acc < 2 ^ (7 * i) -> (fuel <> 0)%nat ->
  uvarint_loop (put_uvarint fuel x ++ post) i (7 * i) acc
  = (acc + x * 2 ^ (7 * i), i + zlen (put_uvarint fuel x)).
Proof.
  revert x i acc. induction fuel as [|f IH]; intros x i acc Hf Hi Hx0 Hx Hacc Hne; [done|].
  assert (2 ^ (64 - 7 * i) * 2 ^ (7 * i) = two64) as Hpow
    by (rewrite <- Z.pow_add_r by lia; by replace (64 - 7 * i + 7 * i) with 64 by lia).
  pose proof (Z.pow_pos_nonneg 2 (7 * i) ltac:(lia) ltac:(lia)) as Hp.
  simpl. destruct (Z.ltb_spec x 128) as [Hlt|Hge].
  - simpl. rewrite byte_Z_Z_byte, (Z.mod_small x 256) by lia.
    destruct (Z.eqb_spec i MaxVarintLen64) as [->|]; [unfold MaxVarintLen64 in *; lia|].
    destruct (Z.ltb_spec x 128); [|lia].
    destruct ((i =? MaxVarintLen64 - 1) && (1 <? x)) eqn:E.
    { apply andb_true_iff in E as [E1 E2]. apply Z.eqb_eq in E1. apply Z.ltb_lt in E2.
      subst i. change (2 ^ (64 - 7 * (MaxVarintLen64 - 1))) with 2 in Hx. lia. }
    rewrite Z.mod_small.
    + by rewrite lor_shiftl_add by lia.
    + rewrite Z.shiftl_mul_pow2 by lia. nia.
  - cbn [app uvarint_loop]. destruct (cont_byte x Hx0) as [Hb Hland].
    assert (i < 9).
    { destruct (Z.lt_ge_cases i 9); [done|].
      assert (2 ^ (64 - 7 * i) <= 2 ^ 1) by (apply Z.pow_le_mono_r; lia). lia. }
    destruct (Z.eqb_spec i MaxVarintLen64); [unfold MaxVarintLen64 in *; lia|].
    destruct (Z.ltb_spec (byte_Z (Z_byte (Z.lor (x mod 256) 128))) 128); [lia|].
    rewrite Hland. pose proof (Z.mod_pos_bound x 128 ltac:(lia)) as Hm.
    rewrite Z.mod_small.
    2: { rewrite Z.shiftl_mul_pow2 by lia. split; [nia|].
         pose proof (Z.mod_le x 128 ltac:(lia) ltac:(lia)). nia. }
    rewrite lor_shiftl_add by lia.
    replace (7 * i + 7) with (7 * (i + 1)) by lia.
    rewrite IH; [|lia|lia|apply Z.shiftr_nonneg; lia| | |].
    + rewrite zlen_cons, Z.shiftr_div_pow2 by lia. change (2 ^ 7) with 128.
      replace (7 * (i + 1)) with (7 * i + 7) by lia.
      rewrite Z.pow_add_r by lia. change (2 ^ 7) with 128.
      pose proof (Z.div_mod x 128 ltac:(lia)). f_equal; [|lia].
      transitivity (acc + (128 * (x / 128) + x mod 128) * 2 ^ (7 * i)); [|by f_equal; lia].
      lia.
    + rewrite Z.shiftr_div_pow2 by lia. apply Z.div_lt_upper_bound; [lia|].
      rewrite <- Z.pow_add_r by lia.
      by replace (7 + (64 - 7 * (i + 1))) with (64 - 7 * i) by lia.
    + split; [nia|]. replace (7 * (i + 1)) with (7 * i + 7) by lia.
      rewrite Z.pow_add_r by lia. change (2 ^ 7) with 128. nia.
    + lia.
Qed.

Lemma Uvarint_Put x post :
  is_u64 x -> Uvarint (PutUvarint x ++ post) = (x, zlen (PutUvarint x)).
Proof.
  intros Hx. unfold Uvarint, PutUvarint.
  pose proof (put_uvarint_loop 10 x 0 0 post) as H. change (7 * 0) with 0 in H.
  rewrite H; [|done|done|unfold is_u64 in Hx; lia..|done|done].
  f_equal; lia.
Qed.

Lemma zlen_put_uvarint f x : zlen (put_uvarint f x) <= Z.of_nat f.
Proof.
  revert x. induction f as [|f IH]; intros x; [done|].
  simpl. destruct (x <? 128); [rewrite zlen_cons; unfold zlen; simpl; lia|].
  rewrite zlen_cons. specialize (IH (Z.shiftr x 7)). lia.
Qed.

Lemma zlen_put_uvarint_pos f x : 1 <= zlen (put_uvarint (S f) x).
Proof.
  cbn [put_uvarint]. destruct (x <? 128); rewrite zlen_cons; [done|].
  pose proof (zlen_nonneg (put_uvarint f (Z.shiftr x 7))). lia.
Qed.

Lemma zlen_PutUvarint x : 1 <= zlen (PutUvarint x) <= 10.
Proof. split; [apply zlen_put_uvarint_pos|apply (zlen_put_uvarint 10)]. Qed.

Lemma uvarint_loop_spec buf i s x v n :
  uvarint_loop buf i s x = (v, n) -> 0 <= i -> 0 < n ->
  i < n <= i + zlen buf.
Proof.
  revert i s x. induction buf as [|c buf IH]; intros i s x; simpl.
  - intros [= <- <-]. lia.
  - rewrite zlen_cons. pose proof (zlen_nonneg buf).
    destruct (i =? _); [intros [= <- <-]; lia|].
    destruct (byte_Z c <? 128).
    + destruct (_ && _); intros [= <- <-]; lia.
    + intros Hr Hi Hn. apply IH in Hr; lia.
Qed.

(** A varint that decodes consumed at least one byte and only bytes it was given. *)
Lemma Uvarint_adv buf v n : Uvarint buf = (v, n) -> 0 < n -> n <= zlen buf.
Proof. intros H Hn. apply uvarint_loop_spec in H; lia. Qed.

Lemma lor_u64 a b : is_u64 a -> is_u64 b -> is_u64 (Z.lor a b).
Proof.
  unfold is_u64. intros Ha Hb. split; [apply Z.lor_nonneg; lia|].
  destruct (Z.eq_dec a 0) as [->|]; [rewrite Z.lor_0_l; lia|].
  destruct (Z.eq_dec b 0) as [->|]; [rewrite Z.lor_0_r; lia|].
  apply (Z.log2_lt_pow2 _ 64); [|].
  { assert (0 <= Z.lor a b) by (apply Z.lor_nonneg; lia).
    assert (Z.lor a b <> 0); [|lia]. intros H0. apply Z.lor_eq_0_iff in H0. lia. }
  rewrite Z.log2_lor by lia.
  assert (Z.log2 a < 64) by (apply Z.log2_lt_pow2; lia).
  assert (Z.log2 b < 64) by (apply Z.log2_lt_pow2; lia). lia.
Qed.

Lemma uvarint_loop_u64 buf i s x : is_u64 x -> is_u64 (uvarint_loop buf i s x).1.
Proof.
  revert i s x. induction buf as [|c buf IH]; intros i s x Hx; simpl; [done|].
  destruct (i =? _); [done|]. destruct (byte_Z c <? 128).
  - destruct (_ && _); [done|]. cbn. apply lor_u64; [done|]. by apply Z.mod_pos_bound.
  - apply IH, lor_u64; [done|]. by apply Z.mod_pos_bound.
Qed.

Lemma Uvarint_u64 buf v n : Uvarint buf = (v, n) -> is_u64 v.
Proof.
  intros H. pose proof (uvarint_loop_u64 buf 0 0 0 ltac:(done)) as Hu.
  unfold Uvarint in H. by rewrite H in Hu.
Qed.

(** ** Record frames *)

Definition recRowHdr : Z := 24.
#[export] Hint Unfold recRowHdr : aki.

Definition RecFlagTombstone : Z := 1.
Definition RecFlagInline : Z := 2.
Definition RecFlagChunked : Z := 4.
Definition RecFlagCollectionOp : Z := 8.
Definition RecFlagCollectionSnap : Z := 16.

Record RecordRow := mkRecordRow {
  rr_Flags : Z;
  rr_ValueWord : Z;
  rr_ValueLen : Z;
  rr_ExpireAt : Z;
  rr_Value : bytes;
  rr_Key : bytes
}.

(** The Go zero value, what an error return carries. *)
Definition zeroRecordRow : RecordRow := mkRecordRow 0 0 0 0 [] [].

Record RecordFrame := mkRecordFrame {
  rf_FrameOff : Z;
  rf_BodyOff : Z;
  rf_BodyLen : Z;
  rf_CRC : Z
}.

Definition framePayload (flags : Z) : bool :=
  negb (Z.land flags (Z.lor RecFlagInline (Z.lor RecFlagCollectionOp RecFlagCollectionSnap)) =? 0).
Definition is_chunked (flags : Z) : bool := negb (Z.land flags RecFlagChunked =? 0).

(** [fixed[0:24]] *)
Definition put_RecordFixed (row : RecordRow) : bytes :=
  let b := zeros recRowHdr in
  let b := put32 b 0 row.(rr_Flags) in
  let b := put64 b 4 row.(rr_ValueWord) in
  let b := put32 b 12 row.(rr_ValueLen) in
  put64 b 16 row.(rr_ExpireAt).

Definition AppendRecordFrame (dst : bytes) (row : RecordRow) : bytes * RecordFrame :=
  let frameOff := zlen dst in
  let inline := framePayload row.(rr_Flags) in
  let chunked := is_chunked row.(rr_Flags) in
  let plenBuf := if chunked then PutUvarint (zlen row.(rr_Value)) else [] in
  let valLen := if chunked then zlen row.(rr_Value)
                else if inline then zlen row.(rr_Value) else 0 in
  let bodyLen := recRowHdr + zlen plenBuf + valLen + zlen row.(rr_Key) in
  let dst := dst ++ PutUvarint bodyLen in
  let bodyOff := zlen dst in
  let dst := dst ++ put_RecordFixed row in
  let dst := if chunked then (dst ++ plenBuf) ++ row.(rr_Value)
             else if inline then dst ++ row.(rr_Value) else dst in
  let dst := dst ++ row.(rr_Key) in
  let crc := crc32c (sl dst bodyOff bodyLen) in
  (dst ++ le_enc 4 crc,
   {| rf_FrameOff := frameOff; rf_BodyOff := bodyOff;
      rf_BodyLen := cast32 bodyLen; rf_CRC := crc |}).

Definition ParseRecordBody (body : bytes) : R RecordRow :=
  if zlen body <? recRowHdr then Err ErrShort else
  let* flags := u32at body 0 in
  let* word := u64at body 4 in
  let* vlen := u32at body 12 in
  let* expire := u64at body 16 in
  let* tail := slice body recRowHdr (zlen body) in
  let row v k := {| rr_Flags := flags; rr_ValueWord := word; rr_ValueLen := vlen;
                    rr_ExpireAt := expire; rr_Value := v; rr_Key := k |} in
  if framePayload flags then
    if zlen tail <? vlen then Err ErrLength else
    let* v := slice tail 0 vlen in
    let* k := slice tail vlen (zlen tail) in
    Ok (row v k)
  else if is_chunked flags then
    let '(plen, adv) := Uvarint tail in
    if (adv <=? 0) || (zlen tail - adv <? plen) then Err ErrLength else
    let* v := slice tail adv (adv + plen) in
    let* k := slice tail (adv + plen) (zlen tail) in
    Ok (row v k)
  else Ok (row [] tail).

(** The frame, its row and the offset of the next frame.  The code drops the
    error of [ParseRecordBody] and keeps the zero row it returned. *)
Definition NextRecordFrame (payload : bytes) (off : Z) : R (RecordFrame * RecordRow * Z) :=
  if zlen payload <=? off then Err ErrShort else
  let* rest := slice payload off (zlen payload) in
  let '(bl, adv) := Uvarint rest in
  if adv <=? 0 then Err ErrLength else
  if (bl <? recRowHdr) || (zlen payload <? bl) then Err ErrShort else
  let bodyOff := add64 off adv in
  if zlen payload <? add64 (add64 bodyOff bl) 4 then Err ErrShort else
  let* body := slice payload bodyOff (add64 bodyOff bl) in
  let* crc := u32at payload (add64 bodyOff bl) in
  if negb (crc32c body =? crc) then Err ErrChecksum else
  let* row := match ParseRecordBody body with
              | Ok row => Ok row
              | Err _ => Ok zeroRecordRow
              | Panic => Panic
              end in
  Ok ({| rf_FrameOff := off; rf_BodyOff := bodyOff; rf_BodyLen := cast32 bl; rf_CRC := crc |},
      row, add64 (add64 bodyOff bl) 4).

(** ** Value frames *)

Definition PointerSize : Z := 16.
#[export] Hint Unfold PointerSize : aki.

Record ValuePointer := mkValuePointer {
  vp_ValueOff : Z;
  vp_ValueLen : Z;
  vp_ValueCRC : Z
}.

Record ValueFrame := mkValueFrame {
  vf_FrameOff : Z;
  vf_ValueOff : Z;
  vf_ValueLen : Z;
  vf_CRC : Z
}.

Definition ValuePointer_Marshal (p : ValuePointer) : bytes :=
  let b := zeros PointerSize in
  let b := put64 b 0 p.(vp_ValueOff) in
  let b := put32 b 8 p.(vp_ValueLen) in
  put32 b 12 p.(vp_ValueCRC).

Definition ParseValuePointer (b : bytes) : R ValuePointer :=
  if zlen b <? PointerSize then Err ErrShort else
  let* off := u64at b 0 in
  let* len := u32at b 8 in
  let* crc := u32at b 12 in
  Ok {| vp_ValueOff := off; vp_ValueLen := len; vp_ValueCRC := crc |}.

Definition AppendValueFrame (dst val : bytes) : bytes * ValueFrame :=
  let frameOff := zlen dst in
  let dst := dst ++ PutUvarint (zlen val) in
  let valueOff := zlen dst in
  let dst := dst ++ val in
  let crc := crc32c val in
  (dst ++ le_enc 4 crc,
   {| vf_FrameOff := frameOff; vf_ValueOff := valueOff;
      vf_ValueLen := cast32 (zlen val); vf_CRC := crc |}).

Definition ReadValue (payload : bytes) (base : Z) (p : ValuePointer) : R bytes :=
  if p.(vp_ValueOff) <? base then Err ErrShort else
  let start := p.(vp_ValueOff) - base in
  if (zlen payload <? start) || (sub64 (zlen payload) start <? p.(vp_ValueLen))
  then Err ErrShort else
  let* val := slice payload start (start + p.(vp_ValueLen)) in
  if negb (crc32c val =? p.(vp_ValueCRC)) then Err ErrChecksum else Ok val.

Definition NextValueFrame (payload : bytes) (off : Z) : R (ValueFrame * bytes * Z) :=
  if zlen payload <=? off then Err ErrShort else
  let* rest := slice payload off (zlen payload) in
  let '(n, adv) := Uvarint rest in
  if adv <=? 0 then Err ErrLength else
  let valueOff := add64 off adv in
  if (zlen payload <? n) || (zlen payload <? add64 (add64 valueOff n) 4) then Err ErrShort else
  let stop := add64 valueOff n in
  let* val := slice payload valueOff stop in
  let* crc := u32at payload stop in
  if negb (crc32c val =? crc) then Err ErrChecksum else
  Ok ({| vf_FrameOff := off; vf_ValueOff := valueOff; vf_ValueLen := cast32 n; vf_CRC := crc |},
      val, add64 stop 4).

(** ** Collection payloads *)

Definition CollKindSet : Z := 1.
Definition CollKindZset : Z := 2.
Definition CollKindList : Z := 3.
Definition CollKindHash : Z := 4.
Definition CollKindStream : Z := 5.

Record CollOpRow := mkCollOpRow {
  co_Kind : Z;
  co_Op : Z;
  co_SubKey : bytes;
  co_SubValue : bytes
}.

Definition AppendCollOp (dst : bytes) (row : CollOpRow) : bytes :=
  let dst := dst ++ [Z_byte row.(co_Kind); Z_byte row.(co_Op)] in
  let dst := dst ++ PutUvarint (zlen row.(co_SubKey)) in
  let dst := dst ++ row.(co_SubKey) in
  dst ++ row.(co_SubValue).

Definition ParseCollOp (payload : bytes) : R CollOpRow :=
  if zlen payload <? 2 then Err ErrShort else
  let* kind := at8 payload 0 in
  let* op := at8 payload 1 in
  let* rest := slice payload 2 (zlen payload) in
  let '(klen, adv) := Uvarint rest in
  if adv <=? 0 then Err ErrLength else
  let* rest := slice rest adv (zlen rest) in
  if zlen rest <? klen then Err ErrLength else
  let* k := slice rest 0 klen in
  let* v := slice rest klen (zlen rest) in
  Ok {| co_Kind := kind; co_Op := op; co_SubKey := k; co_SubValue := v |}.

Record CollSnapRow := mkCollSnapRow {
  cs_Kind : Z;
  cs_Header : bytes;
  cs_ElementRun : bytes
}.

Definition AppendCollSnap (dst : bytes) (row : CollSnapRow) : bytes :=
  let dst := dst ++ [Z_byte row.(cs_Kind)] in
  let dst := dst ++ PutUvarint (zlen row.(cs_Header)) in
  let dst := dst ++ row.(cs_Header) in
  dst ++ row.(cs_ElementRun).

Definition ParseCollSnap (payload : bytes) : R CollSnapRow :=
  if zlen payload <? 1 then Err ErrShort else
  let* kind := at8 payload 0 in
  let* rest := slice payload 1 (zlen payload) in
  let '(hlen, adv) := Uvarint rest in
  if adv <=? 0 then Err ErrLength else
  let* rest := slice rest adv (zlen rest) in
  if zlen rest <? hlen then Err ErrLength else
  let* h := slice rest 0 hlen in
  let* e := slice rest hlen (zlen rest) in
  Ok {| cs_Kind := kind; cs_Header := h; cs_ElementRun := e |}.

(** ** Record bodies: round trip *)

(** A row as the store builds it: fields in range, a payload-carrying row's
    [ValueLen] is its payload's length, a row has one payload form, and a
    pointer row carries no value bytes. *)
Definition RecordRow_wf (r : RecordRow) : Prop :=
  is_u32 r.(rr_Flags) /\ is_u64 r.(rr_ValueWord) /\ is_u32 r.(rr_ValueLen)
  /\ is_u64 r.(rr_ExpireAt)
  /\ (if framePayload r.(rr_Flags)
      then is_chunked r.(rr_Flags) = false /\ r.(rr_ValueLen) = zlen r.(rr_Value)
      else is_chunked r.(rr_Flags) = false -> r.(rr_Value) = [])
  /\ zlen r.(rr_Value) + zlen r.(rr_Key) < 2147483648.

(** The body a frame carries. *)
Definition RecordBody (row : RecordRow) : bytes :=
  put_RecordFixed row
  ++ (if is_chunked row.(rr_Flags) then PutUvarint (zlen row.(rr_Value)) ++ row.(rr_Value)
      else if framePayload row.(rr_Flags) then row.(rr_Value) else [])
  ++ row.(rr_Key).

Lemma zlen_put_RecordFixed r : zlen (put_RecordFixed r) = recRowHdr.
Proof. unfold put_RecordFixed, put32, put64. zl. Qed.

Lemma zlen_RecordBody r :
  RecordRow_wf r -> recRowHdr <= zlen (RecordBody r) < 2147483648 + 34.
Proof.
  intros (_ & _ & _ & _ & _ & Hl). unfold RecordBody.
  rewrite !zlen_app, zlen_put_RecordFixed.
  pose proof (zlen_nonneg (rr_Value r)). pose proof (zlen_nonneg (rr_Key r)).
  pose proof (zlen_PutUvarint (zlen (rr_Value r))).
  destruct (is_chunked _); [rewrite zlen_app; lia|].
  destruct (framePayload _); rewrite ?zlen_nil; lia.
Qed.

Lemma AppendRecordFrame_eq dst row :
  AppendRecordFrame dst row
  = (dst ++ PutUvarint (zlen (RecordBody row)) ++ RecordBody row ++ le_enc 4 (crc32c (RecordBody row)),
     {| rf_FrameOff := zlen dst;
        rf_BodyOff := zlen dst + zlen (PutUvarint (zlen (RecordBody row)));
        rf_BodyLen := cast32 (zlen (RecordBody row));
        rf_CRC := crc32c (RecordBody row) |}).
Proof.
  unfold AppendRecordFrame.
  assert (recRowHdr
    + zlen (if is_chunked row.(rr_Flags) then PutUvarint (zlen row.(rr_Value)) else [])
    + (if is_chunked row.(rr_Flags) then zlen row.(rr_Value)
       else if framePayload row.(rr_Flags) then zlen row.(rr_Value) else 0)
    + zlen row.(rr_Key) = zlen (RecordBody row)) as ->.
  { unfold RecordBody. rewrite !zlen_app, zlen_put_RecordFixed.
    destruct (is_chunked (rr_Flags row)), (framePayload (rr_Flags row));
      rewrite ?zlen_app, ?zlen_nil; lia. }
  set (n := zlen (RecordBody row)).
  assert (forall d,
    ((if is_chunked row.(rr_Flags)
      then ((d ++ put_RecordFixed row) ++
            (if is_chunked row.(rr_Flags) then PutUvarint (zlen row.(rr_Value)) else [])) ++ row.(rr_Value)
      else if framePayload row.(rr_Flags) then (d ++ put_RecordFixed row) ++ row.(rr_Value)
      else d ++ put_RecordFixed row) ++ row.(rr_Key))
    = d ++ RecordBody row) as Hb.
  { intros d. unfold RecordBody.
    destruct (is_chunked (rr_Flags row)), (framePayload (rr_Flags row));
      by rewrite <- ?app_assoc. }
  rewrite Hb. rewrite (sl_end (dst ++ PutUvarint n) (RecordBody row)) by done.
  rewrite zlen_app, <- !app_assoc. done.
Qed.

Lemma ParseRecordBody_put r : RecordRow_wf r -> ParseRecordBody (RecordBody r) = Ok r.
Proof.
  intros Hwf. pose proof (zlen_RecordBody r Hwf) as Hz.
  destruct Hwf as (H1 & H2 & H3 & H4 & Hp & Hl).
  pose proof (zlen_nonneg (rr_Value r)). pose proof (zlen_nonneg (rr_Key r)).
  pose proof (zlen_put_RecordFixed r) as Hf.
  assert (forall i n, 0 <= i -> 0 <= n -> i + n <= recRowHdr ->
    sl (RecordBody r) i n = sl (put_RecordFixed r) i n) as Hs
    by (intros; unfold RecordBody; apply sl_app_l; lia).
  unfold ParseRecordBody. destruct (Z.ltb_spec (zlen (RecordBody r)) recRowHdr); [lia|].
  reads. rewrite !Hs by lia. unfold put_RecordFixed. layout. fields. clear Hs.
  rewrite slice_n with (n := zlen (RecordBody r) - recRowHdr) by lia.
  set (p := if is_chunked (rr_Flags r) then PutUvarint (zlen (rr_Value r)) ++ rr_Value r
            else if framePayload (rr_Flags r) then rr_Value r else []).
  assert (sl (RecordBody r) recRowHdr (zlen (RecordBody r) - recRowHdr) = p ++ rr_Key r) as ->.
  { unfold RecordBody. fold p. apply sl_end; [done|]. rewrite (zlen_app (put_RecordFixed r)). lia. }
  destruct (framePayload (rr_Flags r)) eqn:Ef.
  - destruct Hp as [Hc Hv]. subst p. rewrite Hc.
    rewrite Hv, zlen_app.
    destruct (Z.ltb_spec (zlen (rr_Value r) + zlen (rr_Key r)) (zlen (rr_Value r))); [lia|].
    rewrite slice_n with (n := zlen (rr_Value r)) by (rewrite ?zlen_app; lia).
    rewrite slice_n with (n := zlen (rr_Key r)) by (rewrite ?zlen_app; lia).
    rewrite sl_app_l, sl_all, sl_end by lia. rewrite <- Hv. by destruct r.
  - destruct (is_chunked (rr_Flags r)) eqn:Ec.
    + subst p. rewrite <- app_assoc, Uvarint_Put by lia.
      set (u := PutUvarint (zlen (rr_Value r))).
      pose proof (zlen_PutUvarint (zlen (rr_Value r))) as Hu. fold u in Hu.
      rewrite !zlen_app.
      destruct ((zlen u <=? 0) || (zlen u + (zlen (rr_Value r) + zlen (rr_Key r)) - zlen u
                <? zlen (rr_Value r))) eqn:E; [lia|].
      rewrite slice_n with (n := zlen (rr_Value r)) by (rewrite ?zlen_app; lia).
      rewrite slice_n with (n := zlen (rr_Key r)) by (rewrite ?zlen_app; lia).
      rewrite sl_mid by done. rewrite (app_assoc u), sl_end by (rewrite ?zlen_app; lia).
      by destruct r.
    + pose proof (Hp eq_refl) as Hv. subst p. clear - Hv.
      destruct r; cbn in Hv |- *. by subst.
Qed.

Lemma cast32_small z : is_u32 z -> cast32 z = z.
Proof. intros. unfold cast32. by apply Z.mod_small. Qed.

(** A frame appended anywhere in a payload reads back as its row, its location,
    and the offset just past it. *)
Lemma NextRecordFrame_put pre row post :
  RecordRow_wf row ->
  zlen ((AppendRecordFrame pre row).1 ++ post) <= max_alloc ->
  NextRecordFrame ((AppendRecordFrame pre row).1 ++ post) (zlen pre)
  = Ok ((AppendRecordFrame pre row).2, row, zlen (AppendRecordFrame pre row).1).
Proof.
  intros Hwf. rewrite AppendRecordFrame_eq. cbn [fst snd].
  pose proof (zlen_RecordBody row Hwf) as Hb.
  set (body := RecordBody row) in *. set (u := PutUvarint (zlen body)).
  pose proof (zlen_PutUvarint (zlen body)) as Hu. fold u in Hu.
  rewrite <- !app_assoc. intros Hmax.
  pose proof (zlen_nonneg pre). pose proof (zlen_nonneg post).
  set (w := pre ++ u ++ body ++ le_enc 4 (crc32c body) ++ post) in *.
  assert (zlen w = zlen pre + zlen u + zlen body + 4 + zlen post) as Hz
    by (unfold w; rewrite !zlen_app, zlen_le_enc; lia).
  assert (sl w (zlen pre) (zlen w - zlen pre) = u ++ body ++ le_enc 4 (crc32c body) ++ post) as Hr
    by (apply sl_end; [done|unfold w; rewrite zlen_app; lia]).
  assert (sl w (zlen pre + zlen u) (zlen body) = body) as Hbd
    by (unfold w; rewrite app_assoc; apply sl_mid; [by rewrite zlen_app|done]).
  assert (sl w (zlen pre + zlen u + zlen body) 4 = le_enc 4 (crc32c body)) as Hc.
  { unfold w. rewrite (app_assoc pre), (app_assoc (pre ++ u)).
    apply sl_mid; [by rewrite !zlen_app|done]. }
  unfold NextRecordFrame. destruct (Z.leb_spec (zlen w) (zlen pre)); [lia|].
  rewrite slice_n with (n := zlen w - zlen pre) by lia. rewrite Hr.
  unfold u at 1. rewrite Uvarint_Put by lia. fold u.
  destruct (Z.leb_spec (zlen u) 0); [lia|].
  destruct ((zlen body <? recRowHdr) || (zlen w <? zlen body)) eqn:E; [lia|].
  rewrite (add64_small (zlen pre) (zlen u)) by lia.
  rewrite (add64_small (zlen pre + zlen u) (zlen body)) by lia.
  rewrite (add64_small (zlen pre + zlen u + zlen body) 4) by lia.
  destruct (Z.ltb_spec (zlen w) (zlen pre + zlen u + zlen body + 4)); [lia|].
  rewrite slice_n with (n := zlen body) by lia. reads. rewrite Hbd, Hc.
  rewrite le_dec_u32 by apply crc32c_u32. rewrite Z.eqb_refl. cbn [negb].
  replace (ParseRecordBody body) with (Ok (E:=error) row)
    by (symmetry; by apply ParseRecordBody_put).
  rewrite !zlen_app, zlen_le_enc. do 2 f_equal. lia.
Qed.

(** ** Record frames: safety and progress *)

Lemma ParseRecordBody_no_panic body : no_panic (ParseRecordBody body).
Proof.
  unfold ParseRecordBody, no_panic. destruct (Z.ltb_spec (zlen body) recRowHdr); [done|].
  reads. rewrite slice_n with (n := zlen body - recRowHdr) by lia.
  set (tail := sl body recRowHdr (zlen body - recRowHdr)).
  pose proof (zlen_nonneg tail).
  pose proof (le_dec_sl_range body 12 4 two32 eq_refl ltac:(done)) as Hv.
  destruct (framePayload _).
  - destruct (Z.ltb_spec (zlen tail) (le_dec (sl body 12 4))); [done|].
    rewrite !slice_ok by lia. done.
  - destruct (is_chunked _); [|done].
    destruct (Uvarint tail) as [plen adv] eqn:Eu. apply Uvarint_u64 in Eu as Hu.
    destruct ((adv <=? 0) || (zlen tail - adv <? plen)) eqn:E; [done|].
    apply orb_false_iff in E as [E1 E2]. apply Z.leb_gt in E1. apply Z.ltb_ge in E2.
    apply Uvarint_adv in Eu; [|done].
    unfold is_u64 in Hu. rewrite !slice_ok by lia. done.
Qed.

(** The guarded decode of a length-prefixed run, shared by the two frame walks:
    past the guards no 64-bit sum has wrapped. *)
Lemma frame_bounds (payload : bytes) off n adv :
  zlen payload <= max_alloc -> 0 <= off < zlen payload -> is_u64 n ->
  0 < adv <= zlen payload - off -> n <= zlen payload ->
  add64 (add64 (add64 off adv) n) 4 <= zlen payload ->
  add64 off adv = off + adv /\ add64 (off + adv) n = off + adv + n
  /\ add64 (off + adv + n) 4 = off + adv + n + 4 /\ off + adv + n + 4 <= zlen payload.
Proof.
  intros Hm Ho Hn Ha Hb. unfold is_u64 in Hn.
  rewrite (add64_small off adv) by lia.
  rewrite (add64_small (off + adv) n) by lia.
  rewrite (add64_small (off + adv + n) 4) by lia. auto with lia.
Qed.

(** On any payload a Go slice can hold, the record walk's step neither panics
    nor stalls: it fails with an error or moves strictly forward in bounds. *)
Lemma NextRecordFrame_step payload off :
  zlen payload <= max_alloc -> 0 <= off ->
  (exists e, NextRecordFrame payload off = Err e)
  \/ exists fr row next, NextRecordFrame payload off = Ok (fr, row, next)
       /\ rf_FrameOff fr = off /\ off < next <= zlen payload.
Proof.
  intros Hm Ho. unfold NextRecordFrame.
  destruct (Z.leb_spec (zlen payload) off); [eauto|].
  rewrite slice_n with (n := zlen payload - off) by lia.
  destruct (Uvarint _) as [bl adv] eqn:Eu. apply Uvarint_u64 in Eu as Hu.
  destruct (Z.leb_spec adv 0); [eauto|].
  apply Uvarint_adv in Eu; [|done]. rewrite zlen_sl in Eu by lia.
  destruct ((bl <? recRowHdr) || (zlen payload <? bl)) eqn:E; [eauto|].
  apply orb_false_iff in E as [E1 E2]. apply Z.ltb_ge in E1, E2.
  destruct (Z.ltb_spec (zlen payload) (add64 (add64 (add64 off adv) bl) 4)) as [|Hle]; [eauto|].
  destruct (frame_bounds payload off bl adv) as (Ha & Hb & Hc & Hd); [lia..|].
  rewrite Ha, Hb, Hc. rewrite slice_n with (n := bl) by lia. reads.
  destruct (negb _); [eauto|].
  pose proof (ParseRecordBody_no_panic (sl payload (off + adv) bl)) as Hp.
  unfold no_panic in Hp.
  right. destruct (ParseRecordBody _); [..|done]; eexists _, _, _; (split; [done|]); cbn; lia.
Qed.

(** ** Value frames *)

Lemma ParseValuePointer_Marshal p :
  is_u64 p.(vp_ValueOff) -> is_u32 p.(vp_ValueLen) -> is_u32 p.(vp_ValueCRC) ->
  ParseValuePointer (ValuePointer_Marshal p) = Ok p.
Proof.
  intros. unfold ParseValuePointer.
  assert (zlen (ValuePointer_Marshal p) = 16) as Hz
    by (unfold ValuePointer_Marshal, put32, put64; by zl).
  rewrite Hz. cbn [Z.ltb Z.compare Pos.compare Pos.compare_cont PointerSize]. reads.
  unfold ValuePointer_Marshal. layout. fields. by destruct p.
Qed.

Lemma ParseValuePointer_no_panic b : no_panic (ParseValuePointer b).
Proof. unfold ParseValuePointer, no_panic. destruct (Z.ltb_spec (zlen b) PointerSize); [done|]. by reads. Qed.

(** A value is read inside the payload or not at all. *)
Lemma ReadValue_no_panic payload base p :
  zlen payload <= max_alloc -> 0 <= base -> 0 <= vp_ValueLen p -> no_panic (ReadValue payload base p).
Proof.
  intros Hm Hb Hl. unfold ReadValue, no_panic. destruct (Z.ltb_spec (vp_ValueOff p) base); [done|].
  destruct ((_ <? _) || _) eqn:E; [done|]. apply orb_false_iff in E as [E1 E2]. apply Z.ltb_ge in E1, E2.
  pose proof (zlen_nonneg payload).
  assert (sub64 (zlen payload) (vp_ValueOff p - base) = zlen payload - (vp_ValueOff p - base)) as Es
    by (unfold sub64; rewrite Z.mod_small; lia).
  rewrite Es in E2. rewrite slice_n with (n := vp_ValueLen p) by lia. cbn. by destruct (negb _).
Qed.

Lemma AppendValueFrame_eq dst val :
  AppendValueFrame dst val
  = (dst ++ PutUvarint (zlen val) ++ val ++ le_enc 4 (crc32c val),
     {| vf_FrameOff := zlen dst; vf_ValueOff := zlen dst + zlen (PutUvarint (zlen val));
        vf_ValueLen := cast32 (zlen val); vf_CRC := crc32c val |}).
Proof. unfold AppendValueFrame. by rewrite zlen_app, <- !app_assoc. Qed.

Lemma NextValueFrame_put pre val post :
  zlen ((AppendValueFrame pre val).1 ++ post) <= max_alloc ->
  NextValueFrame ((AppendValueFrame pre val).1 ++ post) (zlen pre)
  = Ok ((AppendValueFrame pre val).2, val, zlen (AppendValueFrame pre val).1).
Proof.
  rewrite AppendValueFrame_eq. cbn [fst snd].
  set (u := PutUvarint (zlen val)).
  pose proof (zlen_PutUvarint (zlen val)) as Hu. fold u in Hu.
  rewrite <- !app_assoc. intros Hmax.
  pose proof (zlen_nonneg pre). pose proof (zlen_nonneg post). pose proof (zlen_nonneg val).
  set (w := pre ++ u ++ val ++ le_enc 4 (crc32c val) ++ post) in *.
  assert (zlen w = zlen pre + zlen u + zlen val + 4 + zlen post) as Hz
    by (unfold w; rewrite !zlen_app, zlen_le_enc; lia).
  assert (sl w (zlen pre) (zlen w - zlen pre) = u ++ val ++ le_enc 4 (crc32c val) ++ post) as Hr
    by (apply sl_end; [done|unfold w; rewrite zlen_app; lia]).
  assert (sl w (zlen pre + zlen u) (zlen val) = val) as Hbd
    by (unfold w; rewrite app_assoc; apply sl_mid; [by rewrite zlen_app|done]).
  assert (sl w (zlen pre + zlen u + zlen val) 4 = le_enc 4 (crc32c val)) as Hc.
  { unfold w. rewrite (app_assoc pre), (app_assoc (pre ++ u)).
    apply sl_mid; [by rewrite !zlen_app|done]. }
  unfold NextValueFrame. destruct (Z.leb_spec (zlen w) (zlen pre)); [lia|].
  rewrite slice_n with (n := zlen w - zlen pre) by lia. rewrite Hr.
  unfold u at 1. rewrite Uvarint_Put by lia. fold u.
  destruct (Z.leb_spec (zlen u) 0); [lia|].
  rewrite (add64_small (zlen pre) (zlen u)) by lia.
  rewrite (add64_small (zlen pre + zlen u) (zlen val)) by lia.
  rewrite (add64_small (zlen pre + zlen u + zlen val) 4) by lia.
  destruct ((zlen w <? zlen val) || (zlen w <? zlen pre + zlen u + zlen val + 4)) eqn:E; [lia|].
  rewrite slice_n with (n := zlen val) by lia. reads. rewrite Hbd, Hc.
  rewrite le_dec_u32 by apply crc32c_u32. rewrite Z.eqb_refl. cbn [negb].
  rewrite !zlen_app, zlen_le_enc. do 2 f_equal. lia.
Qed.

Lemma NextValueFrame_step payload off :
  zlen payload <= max_alloc -> 0 <= off ->
  (exists e, NextValueFrame payload off = Err e)
  \/ exists fr val next, NextValueFrame payload off = Ok (fr, val, next)
       /\ off < next <= zlen payload
       /\ val = sl payload (vf_ValueOff fr) (zlen val) /\ vf_CRC fr = crc32c val.
Proof.
  intros Hm Ho. unfold NextValueFrame.
  destruct (Z.leb_spec (zlen payload) off); [eauto|].
  rewrite slice_n with (n := zlen payload - off) by lia.
  destruct (Uvarint _) as [n adv] eqn:Eu. apply Uvarint_u64 in Eu as Hu.
  destruct (Z.leb_spec adv 0); [eauto|].
  apply Uvarint_adv in Eu; [|done]. rewrite zlen_sl in Eu by lia.
  destruct ((zlen payload <? n) || (zlen payload <? add64 (add64 (add64 off adv) n) 4)) eqn:E; [eauto|].
  apply orb_false_iff in E as [E1 E2]. apply Z.ltb_ge in E1, E2.
  destruct (frame_bounds payload off n adv) as (Ha & Hb & Hc & Hd); [lia..|].
  unfold is_u64 in Hu.
  rewrite Ha, Hb, Hc. rewrite slice_n with (n := n) by lia. reads.
  destruct (negb _) eqn:Eq; [eauto|]. apply negb_false_iff, Z.eqb_eq in Eq.
  right. eexists _, _, _. split; [done|]. cbn. rewrite zlen_sl by lia.
  split; [lia|]. by rewrite <- Eq.
Qed.

(** A pointer published for a value reads that value back from its payload, and
    never anything else: a returned value always carries the pointer's sum. *)
Lemma ReadValue_put pre val post base :
  zlen val < two32 -> zlen ((AppendValueFrame pre val).1 ++ post) <= max_alloc -> 0 <= base ->
  let fr := (AppendValueFrame pre val).2 in
  ReadValue ((AppendValueFrame pre val).1 ++ post) base
    {| vp_ValueOff := base + vf_ValueOff fr; vp_ValueLen := vf_ValueLen fr; vp_ValueCRC := vf_CRC fr |}
  = Ok val.
Proof.
  rewrite AppendValueFrame_eq. cbn [fst snd]. intros Hv Hm Hb.
  unfold ReadValue. cbn [vp_ValueOff vp_ValueLen vp_ValueCRC vf_ValueOff vf_ValueLen vf_CRC].
  set (u := PutUvarint (zlen val)) in *.
  pose proof (zlen_PutUvarint (zlen val)) as Hu. fold u in Hu.
  rewrite <- !app_assoc in *.
  pose proof (zlen_nonneg pre). pose proof (zlen_nonneg post). pose proof (zlen_nonneg val).
  rewrite cast32_small by (unfold is_u32; lia).
  destruct (Z.ltb_spec (base + (zlen pre + zlen u)) base); [lia|].
  replace (base + (zlen pre + zlen u) - base) with (zlen pre + zlen u) by lia.
  set (w := pre ++ u ++ val ++ le_enc 4 (crc32c val) ++ post) in *.
  assert (zlen w = zlen pre + zlen u + zlen val + 4 + zlen post) as Hz
    by (unfold w; rewrite !zlen_app, zlen_le_enc; lia).
  assert (sl w (zlen pre + zlen u) (zlen val) = val) as Hbd
    by (unfold w; rewrite app_assoc; apply sl_mid; [by rewrite zlen_app|done]).
  unfold sub64. rewrite Z.mod_small by lia.
  destruct ((zlen w <? zlen pre + zlen u) || (zlen w - (zlen pre + zlen u) <? zlen val)) eqn:E; [lia|].
  reads. by rewrite Hbd, Z.eqb_refl.
Qed.

Lemma ReadValue_crc payload base p val :
  ReadValue payload base p = Ok val -> crc32c val = vp_ValueCRC p.
Proof.
  unfold ReadValue. intros H. binds H. simplify_eq.
  by apply negb_false_iff, Z.eqb_eq in C1.
Qed.

(** ** Collection payloads: round trip *)

Lemma le_dec_byte z : is_u8 z -> le_dec [Z_byte z] = z.
Proof. intros. simpl. rewrite byte_Z_Z_byte, Z.mod_small by done. lia. Qed.

(** The tail both payloads share: a length-prefixed field, then the rest. *)
Lemma length_prefixed (w hd f r : bytes) :
  w = hd ++ PutUvarint (zlen f) ++ f ++ r -> zlen f + zlen r <= max_alloc ->
  exists rest, slice (E:=error) w (zlen hd) (zlen w) = Ok rest
    /\ Uvarint rest = (zlen f, zlen (PutUvarint (zlen f)))
    /\ slice (E:=error) rest (zlen (PutUvarint (zlen f))) (zlen rest) = Ok (f ++ r).
Proof.
  intros -> Hl. set (u := PutUvarint (zlen f)).
  pose proof (zlen_nonneg hd). pose proof (zlen_nonneg f). pose proof (zlen_nonneg r).
  pose proof (zlen_PutUvarint (zlen f)) as Hu. fold u in Hu.
  exists (u ++ f ++ r). split_and!.
  - rewrite slice_n with (n := zlen (u ++ f ++ r)) by (rewrite ?zlen_app; lia).
    by rewrite sl_end.
  - apply Uvarint_Put. lia.
  - rewrite slice_n with (n := zlen (f ++ r)) by (rewrite ?zlen_app; lia).
    by rewrite sl_end.
Qed.

(** Splitting the rest at the field's length. *)
Lemma split_prefixed (f r : bytes) :
  slice (E:=error) (f ++ r) 0 (zlen f) = Ok f
  /\ slice (E:=error) (f ++ r) (zlen f) (zlen (f ++ r)) = Ok r
  /\ (zlen (f ++ r) <? zlen f) = false.
Proof.
  pose proof (zlen_nonneg f). pose proof (zlen_nonneg r). split_and!.
  - rewrite slice_n with (n := zlen f) by (rewrite ?zlen_app; lia).
    by rewrite sl_app_l, sl_all by lia.
  - rewrite slice_n with (n := zlen r) by (rewrite ?zlen_app; lia). by rewrite sl_end.
  - rewrite zlen_app. lia.
Qed.

Lemma ParseCollOp_put row :
  is_u8 row.(co_Kind) -> is_u8 row.(co_Op) ->
  zlen row.(co_SubKey) + zlen row.(co_SubValue) <= max_alloc ->
  ParseCollOp (AppendCollOp [] row) = Ok row.
Proof.
  intros Hk Ho Hl. unfold AppendCollOp. rewrite <- !app_assoc, app_nil_l.
  set (w := [Z_byte (co_Kind row); Z_byte (co_Op row)] ++ _).
  destruct (length_prefixed w _ _ _ eq_refl Hl) as (rest & H1 & H2 & H3).
  change (zlen [Z_byte (co_Kind row); Z_byte (co_Op row)]) with 2 in H1.
  assert (2 <= zlen w) as Hz.
  { unfold w. simpl app. rewrite !zlen_cons.
    match goal with |- context [zlen ?l] => pose proof (zlen_nonneg l) end. lia. }
  assert (le_dec (sl w 0 1) = co_Kind row) as Hk' by (by apply le_dec_byte).
  assert (le_dec (sl w 1 1) = co_Op row) as Ho'
    by (unfold w; rewrite sl_app_l by done; by apply le_dec_byte).
  unfold ParseCollOp. destruct (Z.ltb_spec (zlen w) 2); [lia|].
  rewrite !at8_ok by lia. rewrite H1, H2, Hk', Ho'.
  pose proof (zlen_PutUvarint (zlen (co_SubKey row))).
  destruct (Z.leb_spec (zlen (PutUvarint (zlen (co_SubKey row)))) 0); [lia|].
  rewrite H3. destruct (split_prefixed (co_SubKey row) (co_SubValue row)) as (-> & -> & ->).
  by destruct row.
Qed.

Lemma ParseCollSnap_put row :
  is_u8 row.(cs_Kind) -> zlen row.(cs_Header) + zlen row.(cs_ElementRun) <= max_alloc ->
  ParseCollSnap (AppendCollSnap [] row) = Ok row.
Proof.
  intros Hk Hl. unfold AppendCollSnap. rewrite <- !app_assoc, app_nil_l.
  set (w := [Z_byte (cs_Kind row)] ++ _).
  destruct (length_prefixed w _ _ _ eq_refl Hl) as (rest & H1 & H2 & H3).
  change (zlen [Z_byte (cs_Kind row)]) with 1 in H1.
  assert (1 <= zlen w) as Hz.
  { unfold w. simpl app. rewrite !zlen_cons.
    match goal with |- context [zlen ?l] => pose proof (zlen_nonneg l) end. lia. }
  assert (le_dec (sl w 0 1) = cs_Kind row) as Hk'
    by (unfold w; rewrite sl_app_l by done; by apply le_dec_byte).
  unfold ParseCollSnap. destruct (Z.ltb_spec (zlen w) 1); [lia|].
  rewrite !at8_ok by lia. rewrite H1, H2, Hk'.
  pose proof (zlen_PutUvarint (zlen (cs_Header row))).
  destruct (Z.leb_spec (zlen (PutUvarint (zlen (cs_Header row)))) 0); [lia|].
  rewrite H3. destruct (split_prefixed (cs_Header row) (cs_ElementRun row)) as (-> & -> & ->).
  by destruct row.
Qed.

Lemma ParseCollOp_no_panic payload : no_panic (ParseCollOp payload).
Proof.
  unfold ParseCollOp, no_panic. destruct (Z.ltb_spec (zlen payload) 2); [done|].
  reads. rewrite slice_n with (n := zlen payload - 2) by lia.
  set (rest := sl payload 2 _).
  destruct (Uvarint rest) as [klen adv] eqn:Eu. apply Uvarint_u64 in Eu as Hu. unfold is_u64 in Hu.
  destruct (Z.leb_spec adv 0); [done|]. apply Uvarint_adv in Eu; [|done].
  rewrite slice_ok by lia. set (r2 := sl rest adv _).
  destruct (Z.ltb_spec (zlen r2) klen); [done|]. by rewrite !slice_ok by lia.
Qed.

Lemma ParseCollSnap_no_panic payload : no_panic (ParseCollSnap payload).
Proof.
  unfold ParseCollSnap, no_panic. destruct (Z.ltb_spec (zlen payload) 1); [done|].
  reads. rewrite slice_n with (n := zlen payload - 1) by lia.
  set (rest := sl payload 1 _).
  destruct (Uvarint rest) as [hlen adv] eqn:Eu. apply Uvarint_u64 in Eu as Hu. unfold is_u64 in Hu.
  destruct (Z.leb_spec adv 0); [done|]. apply Uvarint_adv in Eu; [|done].
  rewrite slice_ok by lia. set (r2 := sl rest adv _).
  destruct (Z.ltb_spec (zlen r2) hlen); [done|]. by rewrite !slice_ok by lia.
Qed.
