(* ===== verification/Device.v ===== *)
(** The device under a file (engine/f3/akifile/file.go, [Device], [osDevice],
    [roDevice]).

    [Device] is the Go interface; [DeviceLaws] is what the writer and recovery
    rely on, over a ghost [contents].  Everything above is proved against these
    two classes.  Two instances discharge them: [Disk], an operating-system file
    with a volatile cache and a script of write faults, and [roDevice], the
    read-only adapter over any device. *)

From S2P Require Import Prelude Format.

(** [int64(off)] of a [uint64]. *)
Definition int64 (z : Z) : Z := if z <? two63 then z else z - two64.

Lemma int64_small z : z < two63 -> int64 z = z.
Proof. intros. unfold int64. destruct (Z.ltb_spec z two63); [done|lia]. Qed.

Lemma int64_nonneg z : is_u64 z -> 0 <= int64 z -> z < two63 /\ int64 z = z.
Proof. unfold int64. intros. destruct (Z.ltb_spec z two63); [done|]. lia. Qed.

(** [int64] addition wraps. *)
Definition int64_add (a b : Z) : Z := int64 ((a + b) mod two64).

Lemma int64_add_small a b : 0 <= a + b < two63 -> int64_add a b = a + b.
Proof. intros. unfold int64_add. rewrite Z.mod_small by lia. apply int64_small. lia. Qed.

(** ** File contents *)

(** The contents after [b] lands at [off]: a write past the end extends the file
    and the gap reads back as zero. *)
Definition overlay (c : bytes) (off : Z) (b : bytes) : bytes :=
  match b with
  | [] => c
  | _ => put (c ++ zeros (off + zlen b - zlen c)) off b
  end.

(** The contents after a truncation (or an extension) to [n] bytes. *)
Definition resize (c : bytes) (n : Z) : bytes := ztake n c ++ zeros (n - zlen c).

Lemma zlen_zeros_max n : zlen (zeros n) = Z.max 0 n.
Proof. unfold zlen, zeros. rewrite length_replicate. lia. Qed.

Lemma zlen_overlay c off b :
  0 <= off -> zlen (overlay c off b) = if zlen b =? 0 then zlen c else Z.max (zlen c) (off + zlen b).
Proof.
  intros Ho. destruct b as [|x b]; [done|]. unfold overlay.
  rewrite zlen_put, zlen_app, zlen_zeros_max.
  pose proof (zlen_nonneg b). rewrite zlen_cons in *.
  destruct (Z.eqb_spec (1 + zlen b) 0); lia.
Qed.

Lemma zlen_overlay_ge c off b : 0 <= off -> zlen c <= zlen (overlay c off b).
Proof. intros. rewrite zlen_overlay by done. destruct (_ =? _); lia. Qed.

Lemma zlen_overlay_end c off b :
  0 <= off -> off <= zlen c \/ 0 < zlen b -> off + zlen b <= zlen (overlay c off b).
Proof.
  intros. rewrite zlen_overlay by done. pose proof (zlen_nonneg b).
  destruct (Z.eqb_spec (zlen b) 0); lia.
Qed.

Lemma zlen_overlay_le c off b n :
  0 <= off -> zlen c <= n -> off + zlen b <= n -> zlen (overlay c off b) <= n.
Proof. intros. rewrite zlen_overlay by done. destruct (_ =? _); lia. Qed.

Lemma sl_overlay_same c off b n :
  0 <= off -> n = zlen b -> sl (overlay c off b) off n = b.
Proof.
  intros Ho ->. destruct b as [|x b].
  - unfold sl. by apply ztake_nonpos.
  - unfold overlay. apply sl_put_same; [done| |done].
    rewrite zlen_app, zlen_zeros_max. lia.
Qed.

Lemma sl_overlay_before c off b i n :
  0 <= i -> 0 <= n -> i + n <= off -> i + n <= zlen c ->
  sl (overlay c off b) i n = sl c i n.
Proof.
  intros. destruct b as [|x b]; [done|]. unfold overlay.
  rewrite sl_put_before by lia. apply sl_app_l; lia.
Qed.

Lemma sl_overlay_after c off b i n :
  0 <= off -> 0 <= n -> off + zlen b <= i -> i + n <= zlen c ->
  sl (overlay c off b) i n = sl c i n.
Proof.
  intros. destruct b as [|x b]; [done|]. unfold overlay.
  pose proof (zlen_nonneg (x :: b)).
  rewrite sl_put_after by lia. apply sl_app_l; lia.
Qed.

(** Two contents that agree up to a bound. *)
Definition agree_upto (n : Z) (c c' : bytes) : Prop := sl c' 0 n = sl c 0 n.

Lemma agree_sl n c c' i k :
  agree_upto n c c' -> 0 <= i -> 0 <= k -> i + k <= n -> sl c' i k = sl c i k.
Proof.
  unfold agree_upto. intros H ???.
  pose proof (sl_sl c' 0 n i k) as E'. pose proof (sl_sl c 0 n i k) as E.
  rewrite Z.add_0_l in E, E'. rewrite <- E, <- E' by lia. by rewrite H.
Qed.

(** ** The interface *)

(** [ReadAt d n off] fills an [n]-byte buffer: the bytes read and the error.
    [WriteAt] returns the byte count and the error; [None] is a nil error. *)
Class Device (D : Type) := {
  ReadAt : D -> Z -> Z -> bytes * option error;
  WriteAt : D -> bytes -> Z -> D * (Z * option error);
  Sync : D -> D * option error;
  Truncate : D -> Z -> D * option error;
  Size : D -> Z * option error;
  CloseDevice : D -> D * option error
}.

(** What the code relies on.  [readable] devices serve every read inside the file
    and [healthy] ones accept every write too; a device that is neither may fail
    at any call, but never lies about a call it reports as done. *)
Class DeviceLaws (D : Type) `{Device D} := {
  contents : D -> bytes;
  readable : D -> Prop;
  healthy : D -> Prop;
  read_exact d n off bs :
    ReadAt d n off = (bs, None) -> 0 <= n ->
    0 <= off /\ bs = sl (contents d) off n /\ zlen bs = n;
  read_inside d n off :
    readable d -> 0 <= off -> 0 <= n -> off + n <= zlen (contents d) ->
    ReadAt d n off = (sl (contents d) off n, None);
  read_past_end d n off :
    readable d -> 0 <= off -> 0 < n -> zlen (contents d) < off + n ->
    ReadAt d n off = (sl (contents d) off n, Some EOF);
  write_prefix d b off d' k err :
    WriteAt d b off = (d', (k, err)) ->
    exists j, 0 <= j <= zlen b
      /\ contents d' = (if 0 <=? off then overlay (contents d) off (ztake j b) else contents d)
      /\ (err = None -> 0 <= off /\ (k = zlen b -> j = zlen b));
  write_readable d b off d' r : readable d -> WriteAt d b off = (d', r) -> readable d';
  write_healthy d b off :
    healthy d -> 0 <= off -> off + zlen b <= two63 ->
    exists d', WriteAt d b off = (d', (zlen b, None)) /\ healthy d';
  sync_contents d d' err : Sync d = (d', err) -> contents d' = contents d;
  sync_readable d d' err : readable d -> Sync d = (d', err) -> readable d';
  sync_healthy d : healthy d -> exists d', Sync d = (d', None) /\ healthy d';
  truncate_contents d n d' :
    Truncate d n = (d', None) -> 0 <= n /\ contents d' = resize (contents d) n;
  truncate_readable d n d' r : readable d -> Truncate d n = (d', r) -> readable d';
  truncate_healthy d n : healthy d -> 0 <= n -> exists d', Truncate d n = (d', None) /\ healthy d';
  size_contents d n : Size d = (n, None) -> n = zlen (contents d);
  size_readable d : readable d -> Size d = (zlen (contents d), None);
  healthy_readable d : healthy d -> readable d
}.

(** ** A disk

    [dk_durable] is what is on the media, [dk_pending] the writes since the last
    [Sync] in issue order (the OS cache), and [dk_faults] says how the next
    mutating calls fail: [FWrite k e] is a write that stops after [k] bytes with
    error [e] (a nil error is a short write), [FSync] a failed flush. *)
Inductive op : Type :=
| OpWrite (off : Z) (b : bytes)
| OpTruncate (n : Z).

Inductive fault : Type :=
| FNone
| FWrite (k : Z) (e : option error)
| FSync.

Record Disk := mkDisk {
  dk_durable : bytes;
  dk_pending : list op;
  dk_faults : list fault
}.

Definition apply_op (c : bytes) (o : op) : bytes :=
  match o with OpWrite off b => overlay c off b | OpTruncate n => resize c n end.

Definition disk_contents (d : Disk) : bytes := foldl apply_op (dk_durable d) (dk_pending d).

Definition next_fault (d : Disk) : fault * list fault :=
  match dk_faults d with [] => (FNone, []) | f :: fs => (f, fs) end.

Definition disk_ReadAt (d : Disk) (n off : Z) : bytes * option error :=
  if off <? 0 then ([], Some ErrIO) else
  let bs := sl (disk_contents d) off n in
  (bs, if zlen bs <? n then Some EOF else None).

Definition disk_write (d : Disk) (off : Z) (b : bytes) (fs : list fault) : Disk :=
  {| dk_durable := dk_durable d; dk_pending := dk_pending d ++ [OpWrite off b]; dk_faults := fs |}.

Definition disk_WriteAt (d : Disk) (b : bytes) (off : Z) : Disk * (Z * option error) :=
  if off <? 0 then (d, (0, Some ErrIO)) else
  match next_fault d with
  | (FWrite k e, fs) =>
      let w := ztake k b in (disk_write d off w fs, (zlen w, e))
  | (_, fs) => (disk_write d off b fs, (zlen b, None))
  end.

Definition disk_Sync (d : Disk) : Disk * option error :=
  match next_fault d with
  | (FSync, fs) =>
      ({| dk_durable := dk_durable d; dk_pending := dk_pending d; dk_faults := fs |}, Some ErrIO)
  | (_, fs) =>
      ({| dk_durable := disk_contents d; dk_pending := []; dk_faults := fs |}, None)
  end.

Definition disk_Truncate (d : Disk) (n : Z) : Disk * option error :=
  if n <? 0 then (d, Some ErrIO) else
  ({| dk_durable := dk_durable d; dk_pending := dk_pending d ++ [OpTruncate n];
      dk_faults := dk_faults d |}, None).

#[global] Instance Disk_device : Device Disk := {|
  ReadAt := disk_ReadAt;
  WriteAt := disk_WriteAt;
  Sync := disk_Sync;
  Truncate := disk_Truncate;
  Size d := (zlen (disk_contents d), None);
  CloseDevice d := (d, None)
|}.

Lemma disk_contents_snoc c ops o fs :
  disk_contents {| dk_durable := c; dk_pending := ops ++ [o]; dk_faults := fs |}
  = apply_op (foldl apply_op c ops) o.
Proof. unfold disk_contents. cbn. by rewrite foldl_app. Qed.

(** The law of a disk write, for either outcome of the fault script. *)
Lemma disk_write_prefix d b off d' k err :
  disk_WriteAt d b off = (d', (k, err)) ->
  exists j, 0 <= j <= zlen b
    /\ disk_contents d' = (if 0 <=? off then overlay (disk_contents d) off (ztake j b) else disk_contents d)
    /\ (err = None -> 0 <= off /\ (k = zlen b -> j = zlen b)).
Proof.
  unfold disk_WriteAt. pose proof (zlen_nonneg b).
  destruct (Z.ltb_spec off 0) as [Hlt|Hge].
  - intros [= <- <- <-]. exists 0. destruct (Z.leb_spec 0 off); [lia|]. split_and!; (done || lia).
  - destruct (next_fault d) as [[|k0 e|] fs] eqn:Ef; intros [= <- <- <-]; unfold disk_write;
      rewrite disk_contents_snoc; cbn [apply_op]; fold (disk_contents d).
    1,3: exists (zlen b); rewrite ztake_all by lia;
         destruct (Z.leb_spec 0 off); [|lia]; split_and!; (done || lia).
    exists (zlen (ztake k0 b)). rewrite zlen_ztake.
    destruct (Z.leb_spec 0 off); [|lia]. split_and!; [lia|lia| |].
    + f_equal. rewrite !ztake_take. destruct (Z.le_gt_cases k0 (zlen b)).
      * f_equal. lia.
      * rewrite !take_ge; [done| |]; unfold zlen in *; lia.
    + intros ->. split; [lia|]. lia.
Qed.

#[global] Program Instance Disk_laws : DeviceLaws Disk := {|
  contents := disk_contents;
  readable d := True;
  healthy d := dk_faults d = []
|}.
Next Obligation.
  intros d n off bs. cbn. unfold disk_ReadAt. destruct (Z.ltb_spec off 0); [done|].
  destruct (Z.ltb_spec (zlen (sl (disk_contents d) off n)) n) as [|Hge]; [done|].
  intros [= <-] Hn. split_and!; [done..|]. unfold sl in *. rewrite zlen_ztake in *. lia.
Qed.
Next Obligation.
  intros d n off _ ???. cbn. unfold disk_ReadAt. destruct (Z.ltb_spec off 0); [lia|].
  rewrite zlen_sl by lia. destruct (Z.ltb_spec n n); [lia|done].
Qed.
Next Obligation.
  intros d n off _ ???. cbn. unfold disk_ReadAt. destruct (Z.ltb_spec off 0); [lia|].
  destruct (Z.ltb_spec (zlen (sl (disk_contents d) off n)) n) as [|Hge]; [done|].
  unfold sl in Hge. rewrite zlen_ztake, zlen_zdrop in Hge. pose proof (zlen_nonneg (disk_contents d)). lia.
Qed.
Next Obligation. intros d b off d' k err. apply disk_write_prefix. Qed.
Next Obligation. done. Qed.
Next Obligation.
  intros d b off Hf Ho _. cbn. unfold disk_WriteAt, next_fault. rewrite Hf.
  destruct (Z.ltb_spec off 0); [lia|]. eauto.
Qed.
Next Obligation.
  intros d d' err. cbn. unfold disk_Sync. by destruct (next_fault d) as [[] fs]; intros [= <- <-].
Qed.
Next Obligation. done. Qed.
Next Obligation. intros d Hf. cbn. unfold disk_Sync, next_fault. rewrite Hf. eauto. Qed.
Next Obligation.
  intros d n d'. cbn. unfold disk_Truncate. destruct (Z.ltb_spec n 0); [done|].
  intros [= <-]. split; [done|]. by rewrite disk_contents_snoc.
Qed.
Next Obligation. done. Qed.
Next Obligation.
  intros d n Hf Hn. cbn. unfold disk_Truncate. destruct (Z.ltb_spec n 0); [lia|]. eauto.
Qed.
Next Obligation. intros d n. cbn. by intros [= <-]. Qed.
Next Obligation. done. Qed.
Next Obligation. done. Qed.

(** ** The read-only adapter *)

Record roDevice (D : Type) := mkRO { ro_dev : D }.
Arguments mkRO {D} _.
Arguments ro_dev {D} _.

#[global] Instance roDevice_device (D : Type) `{Device D} : Device (roDevice D) := {|
  ReadAt d n off := ReadAt (ro_dev d) n off;
  WriteAt d b off := (d, (0, Some ErrReadOnly));
  Sync d := (d, Some ErrReadOnly);
  Truncate d n := (d, Some ErrReadOnly);
  Size d := Size (ro_dev d);
  CloseDevice d := let '(d', e) := CloseDevice (ro_dev d) in (mkRO d', e)
|}.

#[global] Program Instance roDevice_laws (D : Type) `{DeviceLaws D} : DeviceLaws (roDevice D) := {|
  contents d := contents (ro_dev d);
  readable d := readable (ro_dev d);
  healthy d := False
|}.
Next Obligation. intros D ? ? d n off bs. apply (read_exact (ro_dev d)). Qed.
Next Obligation. intros D ? ? d n off. apply (read_inside (ro_dev d)). Qed.
Next Obligation. intros D ? ? d n off. apply (read_past_end (ro_dev d)). Qed.
Next Obligation.
  intros D ? ? d b off d' k err. cbn. intros [= <- <- <-]. exists 0.
  pose proof (zlen_nonneg b). split; [lia|]. rewrite ztake_nonpos by lia. split; [|done].
  by destruct (0 <=? off).
Qed.
Next Obligation. intros D ? ? d b off d' r. cbn. by intros ? [= <- <-]. Qed.
Next Obligation. done. Qed.
Next Obligation. intros D ? ? d d' err. cbn. by intros [= <- <-]. Qed.
Next Obligation. intros D ? ? d d' err. cbn. by intros ? [= <- <-]. Qed.
Next Obligation. done. Qed.
Next Obligation. done. Qed.
Next Obligation. intros D ? ? d n d' r. cbn. by intros ? [= <- <-]. Qed.
Next Obligation. done. Qed.
Next Obligation. intros D ? ? d n. apply (size_contents (ro_dev d)). Qed.
Next Obligation. intros D ? ? d. apply (size_readable (ro_dev d)). Qed.
Next Obligation. done. Qed.
