(* ===== verification/Scan.v ===== *)
(** Reading the append space: [readSegmentAt] (engine/f3/akifile/writer.go) and
    [ReplayTail] (recovery.go), with the abstract log they implement.

    A log is a run of intact segments, each starting where the span of the one
    before it ends ([log]).  [ReplayTail] is proved to walk exactly such a run:
    every segment it visits is one ([ReplayTail_sound]), and over a given log that
    ends at a torn or missing segment it visits all of it and stops there
    ([ReplayTail_log]). *)

From S2P Require Import Prelude Loop Crc Format Headers Device.

(** ** Visitors

    A Go visitor closes over mutable state: it is a state-passing function that
    asks to continue, stops the walk with an error, or panics. *)
Inductive vres (St : Type) : Type :=
| VCont (st : St)
| VStop (st : St) (e : error)
| VPanic.
Arguments VCont {St} st.
Arguments VStop {St} st e.
Arguments VPanic {St}.

Abbreviation visitor St := (St -> Z -> SegHeader -> bytes -> vres St).

Section read.
Context {D : Type} `{Device D}.

(** [readSegmentAt]: the header as far as it parsed, and the verified payload. *)
Definition readSegmentAt (dev : D) (kind off : Z) : option SegHeader * R bytes :=
  match ReadAt dev SegHeaderLen (int64 off) with
  | (_, Some e) => (None, Err e)
  | (hb, None) =>
      match ParseSegHeader hb with
      | Panic => (None, Panic)
      | Err e => (None, Err e)
      | Ok h =>
          if max_alloc <? sh_PayloadLen h then (Some h, Panic) else
          match ReadAt dev (sh_PayloadLen h) (int64_add (int64 off) SegHeaderLen) with
          | (_, Some e) => (Some h, Err e)
          | (payload, None) =>
              match VerifyPayload h payload kind with
              | Some e => (Some h, Err e)
              | None => (Some h, Ok payload)
              end
          end
      end
  end.

(** The same read for the callers that drop the header on an error. *)
Definition read_segment (dev : D) (kind off : Z) : R (SegHeader * bytes) :=
  match readSegmentAt dev kind off with
  | (Some h, Ok payload) => Ok (h, payload)
  | (None, Ok _) => Panic
  | (_, Err e) => Err e
  | (_, Panic) => Panic
  end.

(** ** [ReplayTail] *)

Context {St : Type}.

(** One iteration; leaving the loop gives the cursor, the visitor's state and
    the error the call returns. *)
Definition replay_body (dev : D) (prefix : Prefix) (size : Z) (visit : option (visitor St))
    (s : Z * St) : (Z * St) + R (Z * St * option error) :=
  let '(cursor, st) := s in
  let stop := inr (Ok (cursor, st, None)) in
  if negb (add64 cursor SegHeaderLen <=? size) then stop else
  match ReadAt dev SegHeaderLen (int64 cursor) with
  | (_, Some _) => stop
  | (hb, None) =>
      match ParseSegHeader hb with
      | Panic => inr Panic
      | Err _ => stop
      | Ok h =>
          if size <? add64 (add64 cursor SegHeaderLen) (sh_PayloadLen h) then stop else
          if max_alloc <? sh_PayloadLen h then inr Panic else
          match ReadAt dev (sh_PayloadLen h) (int64_add (int64 cursor) SegHeaderLen) with
          | (_, Some _) => stop
          | (payload, None) =>
              match VerifyPayload h payload (px_ChecksumKind prefix) with
              | Some _ => stop
              | None =>
                  let next := add64 cursor (SegmentSpan (sh_PayloadLen h)) in
                  match visit with
                  | None => inl (next, st)
                  | Some v =>
                      match v st cursor h payload with
                      | VPanic => inr Panic
                      | VStop st' e => inr (Ok (cursor, st', Some e))
                      | VCont st' => inl (next, st')
                      end
                  end
              end
          end
      end
  end.

Definition ReplayTail (dev : D) (prefix : Prefix) (from size : Z)
    (visit : option (visitor St)) (st : St) : R (Z * St * option error) :=
  match loop (replay_body dev prefix size visit) fuel64 (from, st) with
  | inr r => r
  | inl _ => Panic
  end.
End read.

(** ** The abstract log *)

Record seg := mkSeg { sg_off : Z; sg_hdr : SegHeader; sg_payload : bytes }.

(** An intact segment at [off]: a header that parses, followed by the payload it
    frames and sums. *)
Definition seg_at (c : bytes) (kind off : Z) (h : SegHeader) (payload : bytes) : Prop :=
  0 <= off /\ off + SegHeaderLen + zlen payload <= zlen c
  /\ zlen payload <= max_alloc
  /\ ParseSegHeader (sl c off SegHeaderLen) = Ok h
  /\ sl c (off + SegHeaderLen) (zlen payload) = payload
  /\ VerifyPayload h payload kind = None.

Inductive log (c : bytes) (kind : Z) : Z -> list seg -> Z -> Prop :=
| log_nil from : log c kind from [] from
| log_cons from h payload segs to :
    seg_at c kind from h payload ->
    log c kind (from + SegmentSpan (zlen payload)) segs to ->
    log c kind from (mkSeg from h payload :: segs) to.
#[export] Hint Constructors log : core.

(** Where the walk over a file of [size] bytes must stop: no room for a header,
    a header that does not parse, or a payload that is cut short or fails its sum.
    (A header that parses is one the writer framed, so its length is one an
    allocation can hold.) *)
Definition torn (c : bytes) (kind size at_ : Z) : Prop :=
  size < at_ + SegHeaderLen \/ zlen c < at_ + SegHeaderLen
  \/ (exists e, ParseSegHeader (sl c at_ SegHeaderLen) = Err e)
  \/ (exists h, ParseSegHeader (sl c at_ SegHeaderLen) = Ok h
       /\ sh_PayloadLen h <= max_alloc
       /\ (size < at_ + SegHeaderLen + sh_PayloadLen h
           \/ zlen c < at_ + SegHeaderLen + sh_PayloadLen h
           \/ exists e, VerifyPayload h (sl c (at_ + SegHeaderLen) (sh_PayloadLen h)) kind = Some e)).

(** The walk a visitor makes over a run of segments that ends at [to]. *)
Fixpoint fold_visit {St} (visit : visitor St) (st : St) (segs : list seg) (to : Z)
  : R (Z * St * option error) :=
  match segs with
  | [] => Ok (to, st, None)
  | s :: segs' =>
      match visit st (sg_off s) (sg_hdr s) (sg_payload s) with
      | VPanic => Panic
      | VStop st' e => Ok (sg_off s, st', Some e)
      | VCont st' => fold_visit visit st' segs' to
      end
  end.

Lemma VerifyPayload_len h payload kind :
  VerifyPayload h payload kind = None -> sh_PayloadLen h = zlen payload.
Proof.
  unfold VerifyPayload. destruct (Z.eqb_spec (zlen payload) (sh_PayloadLen h)); [done|]. done.
Qed.

Lemma seg_at_len c kind off h payload :
  seg_at c kind off h payload -> sh_PayloadLen h = zlen payload.
Proof. intros (?&?&?&?&?&Hv). by eapply VerifyPayload_len. Qed.

Lemma seg_at_fun c kind off h payload h' payload' :
  seg_at c kind off h payload -> seg_at c kind off h' payload' -> h = h' /\ payload = payload'.
Proof.
  intros H1 H2. pose proof (seg_at_len _ _ _ _ _ H1). pose proof (seg_at_len _ _ _ _ _ H2).
  destruct H1 as (?&?&?&E1&E2&?), H2 as (?&?&?&F1&F2&?). split; [congruence|].
  rewrite <- E2, <- F2. congruence.
Qed.

(** Spans move the cursor forward by at least a header and a bounded amount. *)
Lemma span_bounds (payload : bytes) :
  zlen payload <= max_alloc ->
  SegHeaderLen + zlen payload <= SegmentSpan (zlen payload) <= max_alloc + 4160.
Proof.
  intros Hl. pose proof (zlen_nonneg payload).
  pose proof (SegmentSpan_spec (zlen payload)) as [Hs _]; lia.
Qed.

Lemma log_app c kind from segs1 mid segs2 to :
  log c kind from segs1 mid -> log c kind mid segs2 to -> log c kind from (segs1 ++ segs2) to.
Proof. induction 1; simpl; auto. Qed.

Lemma log_le c kind from segs to : log c kind from segs to -> from <= to.
Proof.
  induction 1 as [|from h payload segs to (?&?&?&?) Hl IH]; [lia|].
  pose proof (span_bounds payload). pose proof (zlen_nonneg payload). lia.
Qed.

Lemma log_fun c kind from segs segs' to :
  log c kind from segs to -> log c kind from segs' to -> segs = segs'.
Proof.
  intros H. revert segs'. induction H as [|from h payload segs to Hs Hl IH]; intros segs' H'.
  - inversion H' as [|? h p ? ? (?&?&?&?) Hl]; subst; [done|].
    apply log_le in Hl. pose proof (span_bounds p). pose proof (zlen_nonneg p). lia.
  - inversion H' as [|? h' p' segs2 ? Hs' Hl']; subst.
    + apply log_le in Hl. destruct Hs as (?&?&?&?).
      pose proof (span_bounds payload). pose proof (zlen_nonneg payload). lia.
    + destruct (seg_at_fun _ _ _ _ _ _ _ Hs Hs') as [-> ->]. f_equal. by apply IH.
Qed.

(** Every offset of a log lies between its ends. *)
Lemma log_offsets c kind from segs to s :
  log c kind from segs to -> s ∈ segs -> from <= sg_off s < to.
Proof.
  intros H. revert s. induction H as [|from h payload segs to Hs Hl IH]; intros s Hin.
  - by apply elem_of_nil in Hin.
  - pose proof (log_le _ _ _ _ _ Hl). destruct Hs as (?&?&?&?).
    pose proof (span_bounds payload). pose proof (zlen_nonneg payload).
    apply elem_of_cons in Hin as [->|Hin]; [cbn; lia|].
    specialize (IH s Hin). lia.
Qed.

(** The segments of a log fit below its end. *)
Lemma log_fits c kind from segs to s :
  log c kind from segs to -> s ∈ segs ->
  sg_off s + SegHeaderLen + zlen (sg_payload s) <= to.
Proof.
  induction 1 as [|from h payload segs to Hs Hl IH]; intros Hin; [by apply elem_of_nil in Hin|].
  pose proof Hs as (?&?&?&_). pose proof (span_bounds payload). pose proof (zlen_nonneg payload).
  apply log_le in Hl as Hle. apply elem_of_cons in Hin as [->|Hin]; [cbn; lia|]. by apply IH.
Qed.

Lemma log_seg_at c kind from segs to s :
  log c kind from segs to -> s ∈ segs ->
  seg_at c kind (sg_off s) (sg_hdr s) (sg_payload s).
Proof.
  induction 1 as [|from h payload segs to Hs Hl IH]; intros Hin.
  - by apply elem_of_nil in Hin.
  - apply elem_of_cons in Hin as [->|Hin]; [done|]. by apply IH.
Qed.

(** ** Preservation under writes elsewhere *)

(** [c'] keeps the bytes of [c] between [lo] and [hi]. *)
Definition keeps (lo hi : Z) (c c' : bytes) : Prop :=
  zlen c <= zlen c' /\
  forall i n, lo <= i -> 0 <= n -> i + n <= hi -> i + n <= zlen c -> sl c' i n = sl c i n.

#[global] Instance keeps_refl lo hi : Reflexive (keeps lo hi).
Proof. intros c. split; [lia|done]. Qed.

#[global] Instance keeps_trans lo hi : Transitive (keeps lo hi).
Proof.
  intros c1 c2 c3 [Hl1 H1] [Hl2 H2]. split; [lia|].
  intros. rewrite H2, H1 by lia. done.
Qed.

Lemma keeps_mono lo hi lo' hi' c c' : lo <= lo' -> hi' <= hi -> keeps lo hi c c' -> keeps lo' hi' c c'.
Proof. intros ?? [? Hk]. split; [done|]. intros. apply Hk; lia. Qed.

Lemma keeps_overlay_above lo hi c off b : 0 <= lo -> 0 <= off -> hi <= off -> keeps lo hi c (overlay c off b).
Proof.
  intros. split; [by apply zlen_overlay_ge|]. intros. apply sl_overlay_before; lia.
Qed.

Lemma keeps_overlay_below lo hi c off b :
  0 <= off -> off + zlen b <= lo -> keeps lo hi c (overlay c off b).
Proof.
  intros. split; [by apply zlen_overlay_ge|]. intros.
  apply sl_overlay_after; lia.
Qed.

Lemma seg_at_keeps lo hi c c' kind off h payload :
  keeps lo hi c c' -> lo <= off -> off + SegHeaderLen + zlen payload <= hi ->
  seg_at c kind off h payload -> seg_at c' kind off h payload.
Proof.
  intros [Hl Hk] ?? (?&?&?&Hp&Hb&?). pose proof (zlen_nonneg payload).
  unfold seg_at. rewrite !Hk by lia. split_and!; try done; lia.
Qed.

Lemma log_keeps lo hi c c' kind from segs to :
  keeps lo hi c c' -> lo <= from -> to <= hi ->
  log c kind from segs to -> log c' kind from segs to.
Proof.
  intros Hk Hlo Hhi H. induction H as [|from h payload segs to Hs Hl IH]; [done|].
  pose proof Hs as (?&?&?&_). pose proof (log_le _ _ _ _ _ Hl).
  pose proof (span_bounds payload). pose proof (zlen_nonneg payload).
  constructor; [|apply IH; lia].
  eapply seg_at_keeps; [done|lia|lia|done].
Qed.

(** ** What the walk does *)

Section replay.
Context {D : Type} `{DeviceLaws D} {St : Type}.
Implicit Types (dev : D) (st : St).

(** Reading a segment that is there. *)
Lemma readSegmentAt_ok dev kind off h payload :
  readable dev -> seg_at (contents dev) kind off h payload ->
  off + SegHeaderLen < two63 ->
  readSegmentAt dev kind off = (Some h, Ok payload).
Proof.
  intros Hr Hs Hb. pose proof (seg_at_len _ _ _ _ _ Hs) as Hlen.
  destruct Hs as (?&?&?&Hp&Hd&Hv). pose proof (zlen_nonneg payload).
  unfold readSegmentAt. rewrite int64_small by lia.
  rewrite read_inside, Hp, Hlen by (done || lia).
  destruct (Z.ltb_spec max_alloc (zlen payload)); [lia|].
  rewrite int64_add_small, read_inside, Hd, Hv by (done || lia). done.
Qed.

(** Reading succeeds only on a segment that is there. *)
Lemma readSegmentAt_sound dev kind off h payload :
  is_u64 off -> readSegmentAt dev kind off = (Some h, Ok payload) ->
  seg_at (contents dev) kind off h payload /\ off < two63.
Proof.
  intros Hu. unfold readSegmentAt.
  destruct (ReadAt dev SegHeaderLen (int64 off)) as [hb [e|]] eqn:E1; [done|].
  apply read_exact in E1 as (Ho & -> & Hz); [|lia].
  apply int64_nonneg in Ho as [Ho Hoe]; [|done]. rewrite Hoe in *.
  destruct (ParseSegHeader _) as [h0|e|] eqn:Hp; [|done|done].
  destruct (Z.ltb_spec max_alloc (sh_PayloadLen h0)); [done|].
  pose proof (ParseSegHeader_len _ _ Hp) as Hl.
  destruct (ReadAt dev (sh_PayloadLen h0) _) as [p [e|]] eqn:E2; [done|].
  apply read_exact in E2 as (Ho2 & -> & Hz2); [|lia].
  destruct (VerifyPayload _ _ _) eqn:Hv; [done|]. intros [= <- <-].
  assert (off + SegHeaderLen < two63) as Hb.
  { unfold int64_add in Ho2. rewrite Z.mod_small in Ho2 by lia.
    unfold int64 in Ho2. destruct (Z.ltb_spec (off + SegHeaderLen) two63); lia. }
  rewrite int64_add_small in * by lia.
  split; [|lia]. unfold seg_at. rewrite !Hz2. split_and!; try done; try lia.
  unfold sl in Hz, Hz2. rewrite zlen_ztake, zlen_zdrop in Hz, Hz2. lia.
Qed.

(** One step over an intact segment. *)
Lemma replay_body_seg dev prefix size visit cursor st h payload :
  readable dev -> 0 <= cursor -> size < two63 ->
  seg_at (contents dev) (px_ChecksumKind prefix) cursor h payload ->
  cursor + SegHeaderLen + zlen payload <= size ->
  replay_body dev prefix size visit (cursor, st) =
    let next := cursor + SegmentSpan (zlen payload) in
    match visit with
    | None => inl (next, st)
    | Some v =>
        match v st cursor h payload with
        | VPanic => inr Panic
        | VStop st' e => inr (Ok (cursor, st', Some e))
        | VCont st' => inl (next, st')
        end
    end.
Proof.
  intros Hr Hc Hs Hseg Hsz. pose proof (seg_at_len _ _ _ _ _ Hseg) as Hlen.
  destruct Hseg as (?&?&?&Hp&Hd&Hv). pose proof (zlen_nonneg payload).
  pose proof (span_bounds payload).
  unfold replay_body. rewrite (add64_small cursor SegHeaderLen) by lia.
  destruct (Z.leb_spec (cursor + SegHeaderLen) size); [|lia]. cbn [negb].
  rewrite int64_small, read_inside, Hp, Hlen by (done || lia).
  rewrite (add64_small (cursor + SegHeaderLen)) by lia.
  destruct (Z.ltb_spec size (cursor + SegHeaderLen + zlen payload)); [lia|].
  destruct (Z.ltb_spec max_alloc (zlen payload)); [lia|].
  rewrite int64_add_small, read_inside, Hd, Hv by (done || lia).
  by rewrite (add64_small cursor (SegmentSpan _)) by lia.
Qed.

(** The walk leaves at a torn segment. *)
Lemma replay_body_torn dev prefix size visit cursor st :
  readable dev -> 0 <= cursor -> size < two63 -> cursor < two63 ->
  torn (contents dev) (px_ChecksumKind prefix) size cursor ->
  replay_body dev prefix size visit (cursor, st) = inr (Ok (cursor, st, None)).
Proof.
  intros Hr Hc Hs Hcs Ht. unfold replay_body. rewrite (add64_small cursor) by lia.
  destruct (Z.leb_spec (cursor + SegHeaderLen) size) as [Hle|]; [|done]. cbn [negb].
  rewrite int64_small by lia.
  destruct (Z.lt_ge_cases (zlen (contents dev)) (cursor + SegHeaderLen)).
  { by rewrite read_past_end by (done || lia). }
  rewrite read_inside by (done || lia).
  destruct Ht as [?|[?|[[e ->]|(h & Hp & Hm & Ht)]]]; [lia|lia|done|].
  rewrite Hp. pose proof (ParseSegHeader_len _ _ Hp) as Hl.
  rewrite (add64_small (cursor + SegHeaderLen)) by lia.
  destruct (Z.ltb_spec size (cursor + SegHeaderLen + sh_PayloadLen h)); [done|].
  destruct (Z.ltb_spec max_alloc (sh_PayloadLen h)); [lia|].
  rewrite int64_add_small by lia.
  destruct (Z.lt_ge_cases (zlen (contents dev)) (cursor + SegHeaderLen + sh_PayloadLen h)).
  { by rewrite read_past_end by (done || lia). }
  rewrite read_inside by (done || lia).
  by destruct Ht as [?|[?|[e ->]]]; [lia|lia|].
Qed.

(** The loop ends on every device, prefix, range and visitor: a step moves the
    cursor forward by a whole span without wrapping. *)
Lemma replay_terminates dev prefix size visit from st :
  is_u64 from ->
  exists r, loop (replay_body dev prefix size visit) fuel64 (from, st) = inr r.
Proof.
  intros Hf.
  destruct (loop_measure (replay_body dev prefix size visit)
    (fun s => is_u64 s.1) (fun s => two64 - s.1) (fun _ => True) fuel64 (from, st))
    as (r & Hr & _); [|done|cbn; lia|eauto].
  intros [cursor s] Hi. cbn [fst] in *. unfold replay_body.
  destruct (negb _); [done|].
  destruct (ReadAt dev SegHeaderLen (int64 cursor)) as [hb [e|]] eqn:E1; [done|].
  apply read_exact in E1 as (Ho & _ & _); [|lia].
  apply int64_nonneg in Ho as [Ho _]; [|done].
  destruct (ParseSegHeader hb) as [h|e|] eqn:Hp; [|done|done].
  destruct (size <? _); [done|].
  destruct (Z.ltb_spec max_alloc (sh_PayloadLen h)); [done|].
  pose proof (ParseSegHeader_len _ _ Hp) as Hl.
  pose proof (SegmentSpan_spec (sh_PayloadLen h)) as [Hsp _]; [lia|].
  destruct (ReadAt dev (sh_PayloadLen h) _) as [p [e|]]; [done|].
  destruct (VerifyPayload _ _ _); [done|].
  rewrite add64_small by lia.
  destruct visit as [v|]; [destruct (v s cursor h p); [|done|done]|]; cbn; lia.
Qed.

(** Over a log that ends at a torn segment the walk visits the whole log, in
    file order, and returns the offset past it. *)
Lemma ReplayTail_log dev prefix from size visit st segs to :
  readable dev -> 0 <= from -> size < two63 -> to < two63 ->
  log (contents dev) (px_ChecksumKind prefix) from segs to ->
  (forall s, s ∈ segs -> sg_off s + SegHeaderLen + zlen (sg_payload s) <= size) ->
  torn (contents dev) (px_ChecksumKind prefix) size to ->
  ReplayTail dev prefix from size (Some visit) st = fold_visit visit st segs to.
Proof.
  intros Hr Hf Hs Hto Hlog Hfit Ht. pose proof (log_le _ _ _ _ _ Hlog) as Hft.
  assert (leaves (replay_body dev prefix size (Some visit)) (from, st)
            (fold_visit visit st segs to)) as Hl.
  { clear Hft. revert st Hf Hfit. induction Hlog as [|from h p segs to Hseg Hl IH]; intros st Hf Hfit.
    - apply leaves_now. cbn [fold_visit]. apply replay_body_torn; (done || lia).
    - pose proof (Hfit _ (list_elem_of_here _ _)) as Hhere. cbn in Hhere.
      pose proof (replay_body_seg dev prefix size (Some visit) from st h p Hr Hf Hs Hseg Hhere) as Hb.
      pose proof (log_le _ _ _ _ _ Hl). pose proof Hseg as (?&?&?&_). pose proof (span_bounds p).
      pose proof (zlen_nonneg p).
      cbv beta iota zeta in Hb. cbn [fold_visit sg_off sg_hdr sg_payload]. revert Hb.
      intros Hb. destruct (visit st from h p) as [st'|st' e|] eqn:Ev; [|apply leaves_now; exact Hb..].
      eapply leaves_step; [done|]. apply IH; [done|done|lia|].
      intros s Hin. apply Hfit. by right. }
  destruct (replay_terminates dev prefix size (Some visit) from st) as [r Hr']; [lia|].
  unfold ReplayTail. by rewrite (loop_eq _ _ _ _ _ Hr' Hl).
Qed.

(** The walk as a run of its loop. *)
Lemma ReplayTail_leaves dev prefix from size visit st r :
  is_u64 from ->
  ReplayTail dev prefix from size visit st = r
  <-> leaves (replay_body dev prefix size visit) (from, st) r.
Proof.
  intros Hf. destruct (replay_terminates dev prefix size visit from st Hf) as [r0 Hr0].
  pose proof (loop_leaves _ _ _ _ Hr0) as Hl0.
  assert (E : ReplayTail dev prefix from size visit st = r0) by (unfold ReplayTail; by rewrite Hr0).
  rewrite E. split; [by intros <-|]. intros Hl. by eapply leaves_det.
Qed.

(** A walk that never stops on its own crosses a log: whatever lies past it, its
    result is the result of a walk from the log's end. *)
Lemma ReplayTail_crosses dev prefix from size visit st segs to r :
  readable dev -> 0 <= from -> size < two63 -> to < two63 ->
  log (contents dev) (px_ChecksumKind prefix) from segs to ->
  (forall s, s ∈ segs -> sg_off s + SegHeaderLen + zlen (sg_payload s) <= size) ->
  (forall st off h payload, exists st', visit st off h payload = VCont st') ->
  ReplayTail dev prefix from size (Some visit) st = r ->
  exists st', ReplayTail dev prefix to size (Some visit) st' = r.
Proof.
  intros Hr Hf Hs Hto Hlog Hfit Hv Hw. pose proof (log_le _ _ _ _ _ Hlog) as Hle.
  apply ReplayTail_leaves in Hw; [|lia].
  cut (exists st', leaves (replay_body dev prefix size (Some visit)) (to, st') r).
  { intros [st' Hl]. exists st'. apply ReplayTail_leaves; [lia|done]. }
  clear Hle. revert st Hf Hfit Hw.
  induction Hlog as [|from h p segs to Hseg Hl IH]; intros st Hf Hfit Hw; [by exists st|].
  pose proof (Hfit _ (list_elem_of_here _ _)) as Hhere. cbn in Hhere.
  pose proof (replay_body_seg dev prefix size (Some visit) from st h p Hr Hf Hs Hseg Hhere) as Hb.
  destruct (Hv st from h p) as [st' Ev]. cbv beta iota zeta in Hb. rewrite Ev in Hb.
  pose proof Hseg as (?&?&?&_). pose proof (span_bounds p). pose proof (zlen_nonneg p).
  inversion Hw as [? ? E|? ? ? E Hrest]; subst; rewrite Hb in E; [done|]. injection E as <-.
  apply (IH Hto st'); [lia| |done]. intros s Hin. apply Hfit. by right.
Qed.

(** The reads and checks of an iteration that reached the visitor amount to a
    [readSegmentAt], so the segment is on the device. *)
Ltac found_segment :=
  match goal with
  | E1 : ReadAt ?dev SegHeaderLen (int64 ?from) = (_, None),
    E2 : ReadAt ?dev _ (int64_add _ _) = (_, None),
    Hp : ParseSegHeader _ = Ok ?h, Hv : VerifyPayload ?h ?p ?kind = None |- _ =>
      let Hrd := fresh "Hrd" in
      assert (readSegmentAt dev kind from = (Some h, Ok p)) as Hrd
        by (unfold readSegmentAt; rewrite E1, Hp, E2, Hv; by case_match);
      apply readSegmentAt_sound in Hrd as [Hs ?]; [|done];
      pose proof Hs as (?&?&?&_); pose proof (span_bounds p); pose proof (zlen_nonneg p)
  end.

(** Whatever is on the device, the segments handed to the visitor form a log
    from the start of the walk: every one parsed, was framed inside [size] and
    matched its sum, and none was skipped. *)
Lemma ReplayTail_sound dev prefix from size visit st r :
  is_u64 from ->
  ReplayTail dev prefix from size (Some visit) st = Ok r ->
  exists segs to, log (contents dev) (px_ChecksumKind prefix) from segs to
    /\ fold_visit visit st segs to = Ok r /\ is_u64 to.
Proof.
  intros Hf. unfold ReplayTail.
  destruct (loop _ _ _) as [s|r0] eqn:E; [done|]. intros ->. apply loop_leaves in E.
  remember (from, st) as s0 eqn:Es. remember (Ok r) as r0 eqn:Er.
  revert from st Hf Es. induction E as [s r1 Hb|s s' r1 Hb _ IH]; intros from st Hf ->;
    subst; unfold replay_body in Hb.
  - repeat (case_match; simplify_eq); try (exists [], from; split_and!; [constructor|done|done]).
    (* the visitor stopped the walk *)
    found_segment. eexists [_], _.
    split_and!; [by apply log_cons, log_nil| |lia]. simpl. by case_match; simplify_eq.
  - repeat (case_match; simplify_eq).
    found_segment. pose proof (seg_at_len _ _ _ _ _ Hs) as Hlen.
    rewrite Hlen, add64_small in IH by lia.
    edestruct (IH eq_refl) as (segs & to & Hl & Hfv & Hto); [|done|]; [lia|].
    eexists (_ :: segs), to. split_and!; [by apply log_cons| |done].
    simpl. by case_match; simplify_eq.
Qed.
End replay.
