(* ===== verification/File.v ===== *)
(** An open .aki file: create, open, group append, commit, checkpoint, barriers
    and close (engine/f3/akifile/file.go, writer.go, commit.go, snapshot.go).

    [File] is the Go struct.  Its methods mutate it, so each is a function from a
    file to the next file and the call's result.  [file_inv f m segs] is the
    invariant the methods keep: the header page names root [m], and the append
    space holds exactly the log [segs] up to the cursor. *)

From S2P Require Import Prelude Loop Crc Format Rows Headers Tables Device Scan.
From Stdlib Require Import Sorting.Sorted.

(** ** Data *)

Inductive SyncPolicy : Type := SyncAlways | SyncEverySec | SyncNo.

(** A clock: the time, in nanoseconds, that the k-th call of [now] returns. *)
Abbreviation clock := (Z -> Z).

Record CreateOptions := mkCreateOptions {
  cro_ShardCount : Z;
  cro_SepThreshold : Z;
  cro_UUID : bytes;
  cro_CreatedUnixNanos : Z;
  cro_Sync : SyncPolicy;
  cro_SyncInterval : Z;
  cro_Now : option clock
}.

Record OpenOptions := mkOpenOptions {
  opo_Sync : SyncPolicy;
  opo_SyncInterval : Z;
  opo_Now : option clock
}.

(** [fl_ticks] counts the calls made to [fl_now]. *)
Record File (D : Type) := mkFile {
  fl_dev : D;
  fl_prefix : Prefix;
  fl_cursor : Z;
  fl_globalSeq : Z;
  fl_commitSeq : Z;
  fl_liveSlot : Z;
  fl_sync : SyncPolicy;
  fl_interval : Z;
  fl_now : clock;
  fl_ticks : Z;
  fl_lastSync : Z
}.
Arguments mkFile {D}.
Arguments fl_dev {D}. Arguments fl_prefix {D}. Arguments fl_cursor {D}.
Arguments fl_globalSeq {D}. Arguments fl_commitSeq {D}. Arguments fl_liveSlot {D}.
Arguments fl_sync {D}. Arguments fl_interval {D}. Arguments fl_now {D}.
Arguments fl_ticks {D}. Arguments fl_lastSync {D}.

Record Pending := mkPending {
  pn_Shard : Z;
  pn_Kind : Z;
  pn_ShardSeq : Z;
  pn_PrevShardSeg : Z;
  pn_TTLClass : Z;
  pn_Flags : Z;
  pn_Payload : bytes
}.

(** [Pending{Shard: .., Kind: .., ShardSeq: .., Payload: ..}] *)
Definition pending (shard kind shardSeq : Z) (payload : bytes) : Pending :=
  {| pn_Shard := shard; pn_Kind := kind; pn_ShardSeq := shardSeq; pn_PrevShardSeg := 0;
     pn_TTLClass := 0; pn_Flags := 0; pn_Payload := payload |}.

Record CheckpointStats := mkStats {
  ck_LiveBytes : Z;
  ck_DeadBytes : Z;
  ck_RecordCount : Z;
  ck_LastCkptUnix : Z;
  ck_Clean : bool
}.

Record CheckpointGlobals := mkGlobals {
  cg_TTLIndexOff : Z;
  cg_TTLIndexLen : Z;
  cg_FreeMapOff : Z;
  cg_MetaKVOff : Z
}.

(** [now().Sub(lastSync)]: a saturating difference of instants. *)
Definition time_Sub (a b : Z) : Z := Z.max (- two63) (Z.min (two63 - 1) (a - b)).

Definition second : Z := 1000000000.

(** ** Field updates *)

Section updates.
Context {D : Type}.
Implicit Types (f : File D).

Definition with_dev f (d : D) : File D :=
  mkFile d (fl_prefix f) (fl_cursor f) (fl_globalSeq f) (fl_commitSeq f) (fl_liveSlot f)
    (fl_sync f) (fl_interval f) (fl_now f) (fl_ticks f) (fl_lastSync f).
Definition with_cursor f (c : Z) : File D :=
  mkFile (fl_dev f) (fl_prefix f) c (fl_globalSeq f) (fl_commitSeq f) (fl_liveSlot f)
    (fl_sync f) (fl_interval f) (fl_now f) (fl_ticks f) (fl_lastSync f).
Definition with_seq f (s : Z) : File D :=
  mkFile (fl_dev f) (fl_prefix f) (fl_cursor f) s (fl_commitSeq f) (fl_liveSlot f)
    (fl_sync f) (fl_interval f) (fl_now f) (fl_ticks f) (fl_lastSync f).
Definition with_root f (cs ls : Z) : File D :=
  mkFile (fl_dev f) (fl_prefix f) (fl_cursor f) (fl_globalSeq f) cs ls
    (fl_sync f) (fl_interval f) (fl_now f) (fl_ticks f) (fl_lastSync f).

(** [f.now()] *)
Definition tick f : File D * Z :=
  (mkFile (fl_dev f) (fl_prefix f) (fl_cursor f) (fl_globalSeq f) (fl_commitSeq f) (fl_liveSlot f)
     (fl_sync f) (fl_interval f) (fl_now f) (fl_ticks f + 1) (fl_lastSync f),
   fl_now f (fl_ticks f)).

(** [f.lastSync = f.now()] *)
Definition stamp_sync f : File D :=
  let '(f, t) := tick f in
  mkFile (fl_dev f) (fl_prefix f) (fl_cursor f) (fl_globalSeq f) (fl_commitSeq f) (fl_liveSlot f)
    (fl_sync f) (fl_interval f) (fl_now f) (fl_ticks f) t.
End updates.

(** ** Operations *)

Section ops.
Context {D : Type} `{Device D}.
Implicit Types (f : File D).

Definition writeAt f (b : bytes) (off : Z) : File D * option error :=
  let '(d, (n, err)) := WriteAt (fl_dev f) b (int64 off) in
  let f := with_dev f d in
  match err with
  | Some e => (f, Some e)
  | None => (f, if negb (n =? zlen b) then Some ErrShortWrite else None)
  end.

Definition doSync f : File D * option error :=
  let '(d, err) := Sync (fl_dev f) in
  let f := with_dev f d in
  match err with
  | Some e => (f, Some e)
  | None => (stamp_sync f, None)
  end.

Definition maybeSync f : File D * option error :=
  match fl_sync f with
  | SyncAlways => doSync f
  | SyncEverySec =>
      let '(f, t) := tick f in
      if fl_interval f <=? time_Sub t (fl_lastSync f) then doSync f else (f, None)
  | SyncNo => (f, None)
  end.

(** The group loop: [offs[:i]] and the outcome. *)
Fixpoint append_loop f (group : list Pending) : File D * list Z * R unit :=
  match group with
  | [] => (f, [], Ok tt)
  | p :: rest =>
      let f := with_seq f (add64 (fl_globalSeq f) 1) in
      let h := {| sh_Shard := pn_Shard p; sh_Kind := pn_Kind p;
                  sh_GlobalSeq := fl_globalSeq f; sh_ShardSeq := pn_ShardSeq p;
                  sh_PayloadLen := 0; sh_PrevShardSeg := pn_PrevShardSeg p;
                  sh_TTLClass := pn_TTLClass p; sh_Flags := pn_Flags p;
                  sh_PayloadCRC := 0 |} in
      match SegHeader_Marshal h (px_ChecksumKind (fl_prefix f)) (pn_Payload p) with
      | Panic => (f, [], Panic)
      | Err e => (with_seq f (sub64 (fl_globalSeq f) 1), [], Err e)
      | Ok (hb, _) =>
          let off := fl_cursor f in
          match writeAt f hb off with
          | (f, Some e) => (f, [], Err e)
          | (f, None) =>
              match writeAt f (pn_Payload p) (add64 off SegHeaderLen) with
              | (f, Some e) => (f, [], Err e)
              | (f, None) =>
                  let f := with_cursor f (add64 off (SegmentSpan (zlen (pn_Payload p)))) in
                  let '(f, offs, r) := append_loop f rest in
                  (f, off :: offs, r)
              end
          end
      end
  end.

Definition AppendGroup f (group : list Pending) : File D * list Z * R unit :=
  match group with
  | [] => (f, [], Ok tt)
  | _ =>
      match append_loop f group with
      | (f, offs, Ok _) =>
          match maybeSync f with
          | (f, Some e) => (f, offs, Err e)
          | (f, None) => (f, offs, Ok tt)
          end
      | failed => failed
      end
  end.

Definition ReadSegmentAt f (off : Z) : option SegHeader * R bytes :=
  readSegmentAt (fl_dev f) (px_ChecksumKind (fl_prefix f)) off.

(** [scanTail]: the append tail and the highest sequence seen. *)
Definition scan_visit : visitor Z :=
  fun seq _ h _ => VCont (if seq <? sh_GlobalSeq h then sh_GlobalSeq h else seq).

Definition scanTail (dev : D) (prefix : Prefix) (size : Z) : R (Z * Z) :=
  let* '(cursor, seq, _) := ReplayTail dev prefix (px_PageSize prefix) size (Some scan_visit) 0 in
  Ok (cursor, seq).

Definition newFile (time_Now : clock) (dev : D) (prefix : Prefix) (sync : SyncPolicy)
    (interval : Z) (now : option clock) (cursor seq commitSeq liveSlot : Z) : File D :=
  let now := match now with None => time_Now | Some n => n end in
  let interval := if interval <=? 0 then second else interval in
  {| fl_dev := dev; fl_prefix := prefix; fl_cursor := cursor; fl_globalSeq := seq;
     fl_commitSeq := commitSeq; fl_liveSlot := liveSlot; fl_sync := sync;
     fl_interval := interval; fl_now := now; fl_ticks := 1; fl_lastSync := now 0 |}.

Definition fresh_meta : MetaSlot :=
  {| ms_CommitSeq := 0; ms_GlobalSeq := 0; ms_SRTOff := 0; ms_SRTLen := 0;
     ms_SRTShardCount := 0; ms_ExtentTableOff := 0; ms_ExtentTableLen := 0;
     ms_TTLIndexLen := 0; ms_TTLIndexOff := 0; ms_FreeMapOff := 0;
     ms_FileSize := PageSize; ms_LiveBytes := 0; ms_DeadBytes := 0;
     ms_RecordCount := 0; ms_LastCkptUnix := 0; ms_CleanShutdown := 1;
     ms_MetaKVOff := 0 |}.

Definition CreateOnDevice (time_Now : clock) (dev : D) (opts : CreateOptions) : D * R (File D) :=
  let prefix := NewPrefix (cro_ShardCount opts) (cro_SepThreshold opts) (cro_UUID opts)
                  (cro_CreatedUnixNanos opts) in
  match WriteAt dev (Prefix_Marshal prefix) 0 with
  | (dev, (_, Some e)) => (dev, Err e)
  | (dev, (_, None)) =>
  match MetaSlot_Marshal fresh_meta (px_ChecksumKind prefix) with
  | Err e => (dev, Err e)
  | Panic => (dev, Panic)
  | Ok mb =>
  match WriteAt dev mb (int64 (px_MetaSlotAOff prefix)) with
  | (dev, (_, Some e)) => (dev, Err e)
  | (dev, (_, None)) =>
  match WriteAt dev mb (int64 (px_MetaSlotBOff prefix)) with
  | (dev, (_, Some e)) => (dev, Err e)
  | (dev, (_, None)) =>
  match Truncate dev PageSize with
  | (dev, Some e) => (dev, Err e)
  | (dev, None) =>
  match Sync dev with
  | (dev, Some e) => (dev, Err e)
  | (dev, None) =>
      (dev, Ok (newFile time_Now dev prefix (cro_Sync opts) (cro_SyncInterval opts)
                  (cro_Now opts) PageSize 0 0 0))
  end end end end end end.

Definition OpenOnDevice (time_Now : clock) (dev : D) (opts : OpenOptions) : R (File D) :=
  match ReadAt dev PrefixSize 0 with
  | (_, Some e) => Err e
  | (hb, None) =>
  let* prefix := ParsePrefix hb in
  match Size dev with
  | (_, Some e) => Err e
  | (size, None) =>
  match ReadAt dev MetaSlotSize (int64 (px_MetaSlotAOff prefix)) with
  | (_, Some e) => Err e
  | (a, None) =>
  match ReadAt dev MetaSlotSize (int64 (px_MetaSlotBOff prefix)) with
  | (_, Some e) => Err e
  | (b, None) =>
  let* '(live, which) := MetaLive a b (px_ChecksumKind prefix) in
  let* '(cursor, seq) := scanTail dev prefix size in
  Ok (newFile time_Now dev prefix (opo_Sync opts) (opo_SyncInterval opts) (opo_Now opts)
        cursor seq (ms_CommitSeq live) which)
  end end end end.

(** [f.Close()] *)
Definition FileClose f : File D * option error :=
  match doSync f with
  | (f, Some e) => let '(d, _) := CloseDevice (fl_dev f) in (with_dev f d, Some e)
  | (f, None) => let '(d, e) := CloseDevice (fl_dev f) in (with_dev f d, e)
  end.

(** The caller's roots with the commit's stamps. *)
Definition stamp_meta f (m : MetaSlot) : MetaSlot :=
  {| ms_CommitSeq := add64 (fl_commitSeq f) 1; ms_GlobalSeq := fl_globalSeq f;
     ms_SRTOff := ms_SRTOff m; ms_SRTLen := ms_SRTLen m;
     ms_SRTShardCount := ms_SRTShardCount m; ms_ExtentTableOff := ms_ExtentTableOff m;
     ms_ExtentTableLen := ms_ExtentTableLen m; ms_TTLIndexLen := ms_TTLIndexLen m;
     ms_TTLIndexOff := ms_TTLIndexOff m; ms_FreeMapOff := ms_FreeMapOff m;
     ms_FileSize := fl_cursor f; ms_LiveBytes := ms_LiveBytes m;
     ms_DeadBytes := ms_DeadBytes m; ms_RecordCount := ms_RecordCount m;
     ms_LastCkptUnix := ms_LastCkptUnix m; ms_CleanShutdown := ms_CleanShutdown m;
     ms_MetaKVOff := ms_MetaKVOff m |}.

Definition CommitRoots f (m : MetaSlot) : File D * R unit :=
  let stale := 1 - fl_liveSlot f in
  let m := stamp_meta f m in
  match MetaSlot_Marshal m (px_ChecksumKind (fl_prefix f)) with
  | Err e => (f, Err e)
  | Panic => (f, Panic)
  | Ok b =>
      let off := if stale =? 1 then px_MetaSlotBOff (fl_prefix f)
                 else px_MetaSlotAOff (fl_prefix f) in
      match writeAt f b off with
      | (f, Some e) => (f, Err e)
      | (f, None) =>
          match Sync (fl_dev f) with
          | (d, Some e) => (with_dev f d, Err e)
          | (d, None) =>
              (stamp_sync (with_root (with_dev f d) (ms_CommitSeq m) stale), Ok tt)
          end
      end
  end.

(** The root a checkpoint stamps, from the offsets its segments landed at. *)
Definition checkpoint_meta (srtBytes : bytes) (srt : SRT) (extents : list Extent)
    (stats : CheckpointStats) (globals : CheckpointGlobals) (offs : list Z) : R MetaSlot :=
  match offs with
  | [] => Panic
  | off0 :: offs' =>
      let* '(extOff, extLen) :=
        match extents with
        | [] => Ok (0, 0)
        | _ => match offs' with
               | [] => Panic
               | off1 :: _ =>
                   Ok (add64 off1 SegHeaderLen, cast32 (zlen (MarshalExtents extents)))
               end
        end in
      Ok {| ms_CommitSeq := 0; ms_GlobalSeq := 0;
            ms_SRTOff := add64 off0 SegHeaderLen; ms_SRTLen := cast32 (zlen srtBytes);
            ms_SRTShardCount := cast32 (zlen (srt_Rows srt));
            ms_ExtentTableOff := extOff; ms_ExtentTableLen := extLen;
            ms_TTLIndexLen := cg_TTLIndexLen globals; ms_TTLIndexOff := cg_TTLIndexOff globals;
            ms_FreeMapOff := cg_FreeMapOff globals; ms_FileSize := 0;
            ms_LiveBytes := ck_LiveBytes stats; ms_DeadBytes := ck_DeadBytes stats;
            ms_RecordCount := ck_RecordCount stats; ms_LastCkptUnix := ck_LastCkptUnix stats;
            ms_CleanShutdown := if ck_Clean stats then 1 else 0;
            ms_MetaKVOff := cg_MetaKVOff globals |}
  end.

Definition checkpoint_group (srtBytes : bytes) (extents : list Extent) : list Pending :=
  pending ShardOwnerless KindSRT 0 srtBytes ::
  match extents with
  | [] => []
  | _ => [pending ShardOwnerless KindExtentTable 0 (MarshalExtents extents)]
  end.

Definition CheckpointWithGlobals f (srt : SRT) (extents : list Extent)
    (stats : CheckpointStats) (globals : CheckpointGlobals) : File D * R unit :=
  match SRT_Marshal srt (px_ChecksumKind (fl_prefix f)) with
  | Err e => (f, Err e)
  | Panic => (f, Panic)
  | Ok srtBytes =>
      match AppendGroup f (checkpoint_group srtBytes extents) with
      | (f, _, Err e) => (f, Err e)
      | (f, _, Panic) => (f, Panic)
      | (f, offs, Ok _) =>
          match checkpoint_meta srtBytes srt extents stats globals offs with
          | Ok m => CommitRoots f m
          | Err e => (f, Err e)
          | Panic => (f, Panic)
          end
      end
  end.

Definition Checkpoint f (srt : SRT) (extents : list Extent) (stats : CheckpointStats)
  : File D * R unit :=
  CheckpointWithGlobals f srt extents stats (mkGlobals 0 0 0 0).

Definition WriteBarrier f (shards : list BarrierShard) : File D * R (Z * Z) :=
  let wbar := add64 (fl_globalSeq f) 1 in
  let h := {| bh_Wbar := wbar; bh_ShardCount := zlen shards |} in
  if negb (BarrierConsistent h shards) then (f, Err ErrBarrier) else
  match AppendGroup f [pending ShardOwnerless KindBarrier 0 (MarshalBarrier h shards)] with
  | (f, _, Err e) => (f, Err e)
  | (f, _, Panic) => (f, Panic)
  | (f, off :: _, Ok _) => (f, Ok (off, wbar))
  | (f, [], Ok _) => (f, Panic)
  end.

(** The call also stamps the caller's table, returned here beside the file. *)
Definition CommitSnapshotRoot f (srt : SRT) (extents : list Extent) (stats : CheckpointStats)
    (globals : CheckpointGlobals) (wbar : Z) : File D * SRT * R unit :=
  if wbar =? 0 then (f, srt, Err ErrSnapshotWatermark) else
  let srt := {| srt_Gen := srt_Gen srt; srt_SnapWbar := wbar;
                srt_Flags := Z.lor (srt_Flags srt) SRTSnapshotRoot; srt_Rows := srt_Rows srt |} in
  let '(f, r) := CheckpointWithGlobals f srt extents stats globals in
  (f, srt, r).
End ops.

(** ** The invariant *)

(** The geometry [Create] gives every file. *)
Definition std_prefix (p : Prefix) : Prop :=
  px_PageSize p = PageSize /\ px_MetaSlotAOff p = MetaSlotAOff
  /\ px_MetaSlotBOff p = MetaSlotBOff /\ px_ChecksumKind p = ChecksumCRC32C.

(** The root the two slots of the header page elect. *)
Definition live_root (c : bytes) (kind : Z) : R (MetaSlot * Z) :=
  MetaLive (sl c MetaSlotAOff MetaSlotSize) (sl c MetaSlotBOff MetaSlotSize) kind.

Definition sg_seq (s : seg) : Z := sh_GlobalSeq (sg_hdr s).

(** Sequences strictly increase along the log and stay at or below [hi]. *)
Definition seqs_ok (segs : list seg) (hi : Z) : Prop :=
  StronglySorted Z.lt (sg_seq <$> segs) /\ Forall (fun s => 0 < sg_seq s <= hi) segs.

(** The highest sequence of a log, 0 for none: what a scan recovers. *)
Definition seq_max (segs : list seg) : Z := foldl (fun m s => Z.max m (sg_seq s)) 0 segs.

Section inv.
Context {D : Type} `{DeviceLaws D}.
Implicit Types (f : File D).

(** The invariant of an open file, apart from its root. *)
Record log_inv f (segs : list seg) : Prop := {
  li_readable : readable (fl_dev f);
  li_prefix : ParsePrefix (sl (contents (fl_dev f)) 0 PrefixSize) = Ok (fl_prefix f);
  li_std : std_prefix (fl_prefix f);
  li_page : PageSize <= zlen (contents (fl_dev f));
  li_log : log (contents (fl_dev f)) ChecksumCRC32C PageSize segs (fl_cursor f);
  li_seqs : seqs_ok segs (fl_globalSeq f);
  li_seq : is_u64 (fl_globalSeq f);
  li_cursor : is_u64 (fl_cursor f)
}.

(** Root [m] is live, in the slot and under the sequence the file remembers. *)
Definition root_inv f (m : MetaSlot) : Prop :=
  live_root (contents (fl_dev f)) ChecksumCRC32C = Ok (m, fl_liveSlot f)
  /\ ms_CommitSeq m = fl_commitSeq f.

Definition file_inv f (m : MetaSlot) (segs : list seg) : Prop :=
  log_inv f segs /\ root_inv f m.

(** No bytes past the cursor, and the last assigned sequence is in the log: the
    state of a file whose every append succeeded. *)
Definition tidy f (segs : list seg) : Prop :=
  zlen (contents (fl_dev f)) <= fl_cursor f /\ seq_max segs = fl_globalSeq f.
End inv.

(** ** What a group adds to the log *)

Definition Pending_wf (p : Pending) : Prop :=
  is_u16 (pn_Shard p) /\ is_u16 (pn_Kind p) /\ is_u64 (pn_ShardSeq p)
  /\ is_u64 (pn_PrevShardSeg p) /\ is_u32 (pn_TTLClass p) /\ is_u32 (pn_Flags p)
  /\ zlen (pn_Payload p) <= max_alloc.

(** The header the writer stamps on a pending segment. *)
Definition stamped (seq : Z) (p : Pending) : SegHeader :=
  {| sh_Shard := pn_Shard p; sh_Kind := pn_Kind p; sh_GlobalSeq := seq;
     sh_ShardSeq := pn_ShardSeq p; sh_PayloadLen := zlen (pn_Payload p);
     sh_PrevShardSeg := pn_PrevShardSeg p; sh_TTLClass := pn_TTLClass p;
     sh_Flags := pn_Flags p; sh_PayloadCRC := crc32c (pn_Payload p) |}.

Fixpoint group_segs (seq cursor : Z) (g : list Pending) : list seg :=
  match g with
  | [] => []
  | p :: g' =>
      mkSeg cursor (stamped seq p) (pn_Payload p)
      :: group_segs (seq + 1) (cursor + SegmentSpan (zlen (pn_Payload p))) g'
  end.

Fixpoint group_end (cursor : Z) (g : list Pending) : Z :=
  match g with
  | [] => cursor
  | p :: g' => group_end (cursor + SegmentSpan (zlen (pn_Payload p))) g'
  end.

Lemma length_group_segs seq cursor g : length (group_segs seq cursor g) = length g.
Proof. revert seq cursor. induction g as [|p g IH]; intros; simpl; [done|]. by rewrite IH. Qed.

Lemma group_end_ge cursor g :
  Forall Pending_wf g -> cursor <= group_end cursor g.
Proof.
  revert cursor. induction g as [|p g IH]; intros cursor Hw; simpl; [lia|].
  inversion Hw as [|? ? (?&?&?&?&?&?&Hl)]; subst.
  pose proof (span_bounds (pn_Payload p) Hl). pose proof (zlen_nonneg (pn_Payload p)).
  etrans; [|by apply IH]. lia.
Qed.

(** ** Sequences *)

Lemma seqs_ok_snoc segs hi s :
  seqs_ok segs hi -> hi < sg_seq s -> 0 <= hi -> seqs_ok (segs ++ [s]) (sg_seq s).
Proof.
  intros [Hs Hf] Hlt Hhi. split.
  - rewrite fmap_app. simpl. induction segs as [|a segs IH]; simpl.
    + by repeat constructor.
    + simpl in Hs. apply StronglySorted_inv in Hs as [Hs Hall].
      apply Forall_cons in Hf as [Ha Hf]. constructor; [by apply IH|].
      apply Forall_app. split; [done|]. constructor; [lia|constructor].
  - apply Forall_app. split; [|constructor; [lia|constructor]].
    eapply Forall_impl; [exact Hf|]. intros x. simpl. lia.
Qed.

Lemma seqs_ok_mono segs hi hi' : hi <= hi' -> seqs_ok segs hi -> seqs_ok segs hi'.
Proof.
  intros ? [Hs Hf]. split; [done|]. eapply Forall_impl; [exact Hf|]. intros x. simpl. lia.
Qed.

Lemma seq_max_snoc segs s : seq_max (segs ++ [s]) = Z.max (seq_max segs) (sg_seq s).
Proof. unfold seq_max. by rewrite foldl_app. Qed.

Lemma seq_max_le segs hi : 0 <= hi -> seqs_ok segs hi -> 0 <= seq_max segs <= hi.
Proof.
  intros Hhi [_ Hf]. revert Hf. induction segs as [|s segs IH] using rev_ind; intros Hf.
  - unfold seq_max. simpl. lia.
  - apply Forall_app in Hf as [Hf Hs]. apply Forall_cons in Hs as [Hs _].
    rewrite seq_max_snoc. specialize (IH Hf). lia.
Qed.

Lemma seq_max_ub segs s : s ∈ segs -> sg_seq s <= seq_max segs.
Proof.
  induction segs as [|a segs IH] using rev_ind; [by intros ?%elem_of_nil|].
  rewrite seq_max_snoc. intros [Hin|Hs]%elem_of_app; [|apply list_elem_of_singleton in Hs as ->; lia].
  specialize (IH Hin). lia.
Qed.

(** Computes fields of updated files and nothing else. *)
Ltac fsimpl :=
  cbn [fl_dev fl_prefix fl_cursor fl_globalSeq fl_commitSeq fl_liveSlot fl_sync fl_interval
       fl_now fl_ticks fl_lastSync with_dev with_cursor with_seq with_root stamp_sync tick
       sg_off sg_hdr sg_payload stamped sg_seq sh_GlobalSeq] in *.

(** The parsers are used through their lemmas from here on. *)
#[local] Opaque ParsePrefix ParseMetaSlot ParseSegHeader VerifyPayload crc32c.

(** ** Writes *)

Lemma Marshal_stamped seq p hb h' :
  SegHeader_Marshal
    {| sh_Shard := pn_Shard p; sh_Kind := pn_Kind p; sh_GlobalSeq := seq;
       sh_ShardSeq := pn_ShardSeq p; sh_PayloadLen := 0; sh_PrevShardSeg := pn_PrevShardSeg p;
       sh_TTLClass := pn_TTLClass p; sh_Flags := pn_Flags p; sh_PayloadCRC := 0 |}
    ChecksumCRC32C (pn_Payload p) = Ok (hb, h') ->
  Pending_wf p -> is_u64 seq ->
  zlen hb = SegHeaderLen /\ ParseSegHeader hb = Ok (stamped seq p)
  /\ VerifyPayload (stamped seq p) (pn_Payload p) ChecksumCRC32C = None.
Proof.
  intros Hm (?&?&?&?&?&?&Hl) Hs.
  assert (h' = stamped seq p) as ->.
  { unfold SegHeader_Marshal in Hm. rewrite checksum_CRC32C in Hm. by simplify_eq. }
  pose proof (zlen_nonneg (pn_Payload p)).
  pose proof Hm as Hz. apply SegHeader_layout in Hz as (Hz & _); [|done|lia].
  apply SegHeader_Marshal_verifies in Hm as Hv. destruct Hv as [Hv _].
  split_and!; [done| |done].
  eapply ParseSegHeader_Marshal_ok; [| |exact Hm]; [done|lia].
Qed.

(** A header and then its payload on the device are an intact segment. *)
Lemma seg_written c off hb h payload :
  0 <= off -> zlen hb = SegHeaderLen -> ParseSegHeader hb = Ok h ->
  VerifyPayload h payload ChecksumCRC32C = None -> zlen payload <= max_alloc ->
  seg_at (overlay (overlay c off hb) (off + SegHeaderLen) payload) ChecksumCRC32C off h payload.
Proof.
  intros Ho Hz Hp Hv Hl. pose proof (zlen_nonneg payload).
  pose proof (zlen_overlay_end c off hb Ho ltac:(lia)).
  unfold seg_at. split_and!; [done| |done| | |done].
  - rewrite zlen_overlay by lia. destruct (Z.eqb_spec (zlen payload) 0); lia.
  - rewrite sl_overlay_before by lia. by rewrite sl_overlay_same.
  - by apply sl_overlay_same; [lia|].
Qed.

Section append.
Context {D : Type} `{DeviceLaws D}.
Implicit Types (f : File D).

Lemma writeAt_spec f b off f' e :
  is_u64 off -> writeAt f b off = (f', e) ->
  exists d' j, f' = with_dev f d' /\ (readable (fl_dev f) -> readable d')
    /\ 0 <= j <= zlen b
    /\ contents d' = (if off <? two63 then overlay (contents (fl_dev f)) off (ztake j b)
                      else contents (fl_dev f))
    /\ (e = None -> off < two63 /\ j = zlen b).
Proof.
  intros Hu. unfold writeAt.
  destruct (WriteAt _ _ _) as [d' [n err]] eqn:E. intros Hr.
  destruct (write_prefix _ _ _ _ _ _ E) as (j & Hj & Hc & Hn).
  exists d', j. unfold int64 in *.
  split_and!.
  - by destruct err; simplify_eq.
  - intros Hrd. by eapply write_readable.
  - lia.
  - lia.
  - rewrite Hc. destruct (Z.ltb_spec off two63).
    + by rewrite (proj2 (Z.leb_le 0 off)) by lia.
    + destruct (Z.leb_spec 0 (off - two64)); [lia|done].
  - intros ->. destruct err; simplify_eq. destruct (Z.eqb_spec n (zlen b)); [|done].
    destruct (Hn eq_refl). destruct (Z.ltb_spec off two63); lia.
Qed.

(** A write at or past the cursor leaves the log alone. *)
Lemma writeAt_keeps f b off f' e :
  is_u64 off -> 0 <= fl_cursor f <= off -> writeAt f b off = (f', e) ->
  keeps 0 (fl_cursor f) (contents (fl_dev f)) (contents (fl_dev f')).
Proof.
  intros Hu Hc Hw. destruct (writeAt_spec _ _ _ _ _ Hu Hw) as (d' & j & -> & _ & _ & Hd & _).
  fsimpl. rewrite Hd. destruct (off <? two63); [|done].
  apply keeps_overlay_above; lia.
Qed.

Lemma log_inv_dev f segs d' :
  log_inv f segs -> readable d' ->
  keeps 0 (fl_cursor f) (contents (fl_dev f)) (contents d') ->
  log_inv (with_dev f d') segs.
Proof.
  intros [Hr Hp Hs Hg Hl Hq Hsq Hcu] Hr' Hk. pose proof (log_le _ _ _ _ _ Hl).
  destruct Hk as [Hlen Hk]. constructor; fsimpl; [exact Hr'| |exact Hs|lia| |exact Hq|exact Hsq|exact Hcu].
  - rewrite Hk by lia. exact Hp.
  - eapply log_keeps; [split; [exact Hlen|exact Hk]|lia|lia|exact Hl].
Qed.

Lemma root_keeps c c' kind :
  PageSize <= zlen c -> keeps 0 PageSize c c' -> live_root c' kind = live_root c kind.
Proof.
  intros ? [_ Hk]. unfold live_root.
  rewrite (Hk MetaSlotAOff MetaSlotSize), (Hk MetaSlotBOff MetaSlotSize) by lia. done.
Qed.

(** The fields an append never touches. *)
Definition same_root f f' : Prop :=
  fl_prefix f' = fl_prefix f /\ fl_commitSeq f' = fl_commitSeq f
  /\ fl_liveSlot f' = fl_liveSlot f /\ fl_sync f' = fl_sync f
  /\ keeps 0 (fl_cursor f) (contents (fl_dev f)) (contents (fl_dev f')).

(** Laying down one segment. *)
Lemma append_one f segs p f1 f2 hb :
  log_inv f segs -> Pending_wf p -> fl_globalSeq f + 1 < two64 ->
  zlen hb = SegHeaderLen -> ParseSegHeader hb = Ok (stamped (fl_globalSeq f + 1) p) ->
  VerifyPayload (stamped (fl_globalSeq f + 1) p) (pn_Payload p) ChecksumCRC32C = None ->
  writeAt (with_seq f (fl_globalSeq f + 1)) hb (fl_cursor f) = (f1, None) ->
  writeAt f1 (pn_Payload p) (add64 (fl_cursor f) SegHeaderLen) = (f2, None) ->
  let s := mkSeg (fl_cursor f) (stamped (fl_globalSeq f + 1) p) (pn_Payload p) in
  let f3 := with_cursor f2 (add64 (fl_cursor f) (SegmentSpan (zlen (pn_Payload p)))) in
  log_inv f3 (segs ++ [s]) /\ same_root f f3
  /\ fl_cursor f3 = fl_cursor f + SegmentSpan (zlen (pn_Payload p))
  /\ fl_globalSeq f3 = fl_globalSeq f + 1
  /\ (tidy f segs -> tidy f3 (segs ++ [s])).
Proof.
  intros Hi Hw Hb Hz Hp Hv W1 W2 s f3.
  destruct Hi as [Hr Hpx Hs Hg Hl Hq Hsq Hcu]. pose proof (log_le _ _ _ _ _ Hl) as Hpc.
  destruct (writeAt_spec _ _ _ _ _ Hcu W1) as (d1 & j1 & E1 & Hr1 & _ & Hc1 & Hn1).
  destruct (Hn1 eq_refl) as [Hlt ->]. rewrite add64_small in W2 by lia. clear Hn1.
  assert (Hcu2 : is_u64 (fl_cursor f + SegHeaderLen)) by lia.
  destruct (writeAt_spec f1 _ _ _ _ Hcu2 W2) as (d2 & j2 & E2 & Hr2 & _ & Hc2 & Hn2).
  destruct (Hn2 eq_refl) as [Hlt2 ->]. clear Hn2.
  assert (Hpl : zlen (pn_Payload p) <= max_alloc) by apply Hw.
  pose proof (span_bounds _ Hpl). pose proof (zlen_nonneg (pn_Payload p)).
  rewrite E1 in Hc2, Hr2. fsimpl.
  rewrite (proj2 (Z.ltb_lt _ _) Hlt) in Hc1. rewrite (proj2 (Z.ltb_lt _ _) Hlt2) in Hc2.
  rewrite !ztake_all in Hc1, Hc2 by lia. rewrite Hc1 in Hc2.
  assert (Hk : keeps 0 (fl_cursor f) (contents (fl_dev f)) (contents d2)).
  { rewrite Hc2. etrans; apply keeps_overlay_above; lia. }
  pose proof (seg_written (contents (fl_dev f)) (fl_cursor f) hb _ _ ltac:(lia) Hz Hp Hv Hpl) as Hseg.
  rewrite <- Hc2 in Hseg.
  subst s f3 f2 f1. rewrite (add64_small (fl_cursor f)) by lia.
  split_and!; [|by split_and!|done|done|].
  - destruct (log_inv_dev f segs d2) as [????????]; [done|auto|done|].
    constructor; fsimpl; try done; try lia.
    + eapply log_app; [done|]. by apply log_cons, log_nil.
    + by apply (seqs_ok_snoc _ (fl_globalSeq f)); [|fsimpl; lia|lia].
  - intros [Ht1 Ht2]. split; fsimpl.
    + rewrite Hc2. apply zlen_overlay_le; [lia| |lia]. apply zlen_overlay_le; lia.
    + rewrite seq_max_snoc, Ht2. fsimpl. lia.
Qed.

Lemma same_root_trans f1 f2 f3 :
  fl_cursor f1 <= fl_cursor f2 -> same_root f1 f2 -> same_root f2 f3 -> same_root f1 f3.
Proof.
  intros Hle (?&?&?&?&Hk1) (?&?&?&?&Hk2). split_and!; try congruence.
  etrans; [exact Hk1|]. eapply keeps_mono; [| |exact Hk2]; [done|lia].
Qed.

(** A write past the cursor, on every outcome. *)
Lemma writeAt_log f segs b off f' e :
  log_inv f segs -> is_u64 off -> fl_cursor f <= off -> writeAt f b off = (f', e) ->
  log_inv f' segs /\ same_root f f' /\ fl_cursor f' = fl_cursor f
  /\ (e = None -> off < two63).
Proof.
  intros Hi Hu Hle W. pose proof (li_cursor _ _ Hi).
  pose proof W as Hk. apply writeAt_keeps in Hk; [|done|lia].
  destruct (writeAt_spec _ _ _ _ _ Hu W) as (d & j & -> & Hr & _ & _ & Hn).
  split_and!; try done; [|by intros ->; apply Hn].
  apply log_inv_dev; [done|apply Hr, Hi|done].
Qed.

(** The whole group, on every outcome: the log grows by exactly the segments
    whose offsets come back, each stamped with the next sequence. *)
Lemma append_loop_inv g : forall f segs f' offs r,
  log_inv f segs -> Forall Pending_wf g -> fl_globalSeq f + zlen g < two64 ->
  append_loop f g = (f', offs, r) ->
  let new := take (length offs) (group_segs (fl_globalSeq f + 1) (fl_cursor f) g) in
  log_inv f' (segs ++ new) /\ offs = sg_off <$> new /\ same_root f f'
  /\ fl_cursor f <= fl_cursor f' /\ r <> Panic
  /\ (r = Ok tt -> length offs = length g /\ fl_cursor f' = group_end (fl_cursor f) g
        /\ fl_globalSeq f' = fl_globalSeq f + zlen g
        /\ (tidy f segs -> tidy f' (segs ++ new))).
Proof.
  induction g as [|p g IH]; intros f segs f' offs r Hi Hw Hb Ha new; subst new.
  - simpl in Ha. simplify_eq. simpl. rewrite app_nil_r, zlen_nil.
    split_and!; try done. rewrite Z.add_0_r. done.
  - apply Forall_cons in Hw as [Hwp Hw]. rewrite zlen_cons in Hb. pose proof (zlen_nonneg g).
    pose proof (li_seq _ _ Hi). pose proof (li_cursor _ _ Hi) as Hcu.
    destruct (li_std _ _ Hi) as (_&_&_&Hkind).
    cbn [append_loop] in Ha. rewrite (add64_small (fl_globalSeq f) 1) in Ha by lia. fsimpl. rewrite Hkind in Ha.
    destruct (SegHeader_Marshal _ _ _) as [[hb h']|e|] eqn:Hm; cycle 1.
    { unfold SegHeader_Marshal in Hm. by rewrite checksum_CRC32C in Hm. }
    { unfold SegHeader_Marshal in Hm. by rewrite checksum_CRC32C in Hm. }
    destruct (Marshal_stamped _ _ _ _ Hm Hwp) as (Hz & Hp & Hv); [lia|].
    destruct (writeAt _ hb _) as [f1 e1] eqn:W1.
    assert (Hi0 : log_inv (with_seq f (fl_globalSeq f + 1)) segs).
    { destruct Hi. constructor; try done; fsimpl; [|lia].
      eapply seqs_ok_mono; [|done]. lia. }
    destruct (writeAt_log _ _ _ _ _ _ Hi0 Hcu (Z.le_refl _) W1) as (Hi1 & Hsr1 & Hc1 & Hlt).
    destruct e1 as [e1|].
    { simplify_eq. cbn [length take]. rewrite app_nil_r. split_and!; try done; fsimpl; lia. }
    specialize (Hlt eq_refl). rewrite (add64_small (fl_cursor f)) in Ha by lia.
    destruct (writeAt f1 _ _) as [f2 e2] eqn:W2.
    assert (Hcu2 : is_u64 (fl_cursor f + SegHeaderLen)) by lia. fsimpl.
    assert (Hle2 : fl_cursor f1 <= fl_cursor f + SegHeaderLen) by lia.
    destruct (writeAt_log _ _ _ _ _ _ Hi1 Hcu2 Hle2 W2) as (Hi2 & Hsr2 & Hc2 & _).
    destruct e2 as [e2|].
    { simplify_eq. cbn [length take]. rewrite app_nil_r. split_and!; try done; [|lia].
      eapply same_root_trans; [|exact Hsr1|done]. fsimpl. lia. }
    rewrite <- (add64_small (fl_cursor f) SegHeaderLen) in W2 by lia.
    pose proof (append_one f segs p f1 f2 hb Hi Hwp ltac:(lia) Hz Hp Hv W1 W2) as Hone.
    cbv zeta in Hone. set (f3 := with_cursor f2 _) in *.
    destruct Hone as (Hi3 & Hsr3 & Hc3 & Hs3 & Ht3).
    destruct (append_loop f3 g) as [[f4 offs4] r4] eqn:Hl. simplify_eq.
    apply (IH f3 _ _ _ _ Hi3 Hw) in Hl; [|lia]. destruct Hl as (Hi4 & Ho4 & Hsr4 & Hle4 & Hnp & Hok).
    assert (Hpl : zlen (pn_Payload p) <= max_alloc) by apply Hwp.
    pose proof (span_bounds _ Hpl). pose proof (zlen_nonneg (pn_Payload p)).
    cbn [group_segs length take fmap list_fmap]. rewrite Hc3, Hs3 in *.
    rewrite <- app_assoc in *. cbn [app] in *.
    split_and!; try done; [by f_equal| |lia|].
    { eapply same_root_trans; [|done|done]. lia. }
    intros Hr. destruct (Hok Hr) as (? & ? & ? & Ht).
    rewrite zlen_cons. split_and!; [lia|done|lia|auto].
Qed.
End append.

(** ** Flushes *)

Section flush.
Context {D : Type} `{DeviceLaws D}.
Implicit Types (f : File D).

(** A flush changes neither the contents nor the file's position. *)
Definition synced f f' : Prop :=
  fl_prefix f' = fl_prefix f /\ fl_cursor f' = fl_cursor f
  /\ fl_globalSeq f' = fl_globalSeq f /\ fl_commitSeq f' = fl_commitSeq f
  /\ fl_liveSlot f' = fl_liveSlot f /\ fl_sync f' = fl_sync f
  /\ contents (fl_dev f') = contents (fl_dev f)
  /\ (readable (fl_dev f) -> readable (fl_dev f')).

Lemma doSync_synced f f' e : doSync f = (f', e) -> synced f f'.
Proof.
  unfold doSync. destruct (Sync (fl_dev f)) as [d err] eqn:E.
  pose proof (sync_contents _ _ _ E). pose proof (fun H => sync_readable _ _ _ H E).
  destruct err; intros [= <- <-]; by split_and!.
Qed.

Lemma maybeSync_synced f f' e : maybeSync f = (f', e) -> synced f f'.
Proof.
  unfold maybeSync. destruct (fl_sync f) eqn:E.
  - apply doSync_synced.
  - destruct (tick f) as [f1 t] eqn:Et. unfold tick in Et. injection Et as <- <-.
    destruct (_ <=? _); [|by intros [= <- <-]].
    intros Hs%doSync_synced. exact Hs.
  - by intros [= <- <-].
Qed.

Lemma log_inv_synced f f' segs : synced f f' -> log_inv f segs -> log_inv f' segs.
Proof.
  intros (E1&E2&E3&E4&E5&E6&E7&Hr) [??????]. constructor; rewrite ?E1, ?E2, ?E3, ?E7; auto.
Qed.

Lemma root_inv_synced f f' m : synced f f' -> root_inv f m -> root_inv f' m.
Proof. intros (E1&E2&E3&E4&E5&E6&E7&Hr) [??]. unfold root_inv. by rewrite E4, E5, E7. Qed.

Lemma root_inv_same f f' m :
  same_root f f' -> PageSize <= fl_cursor f -> PageSize <= zlen (contents (fl_dev f)) ->
  root_inv f m -> root_inv f' m.
Proof.
  intros (?&E1&E2&?&Hk) Hc Hp [Hr Hm]. unfold root_inv. rewrite E1, E2.
  rewrite (root_keeps (contents (fl_dev f))); [done|done|].
  eapply keeps_mono; [| |exact Hk]; [done|lia].
Qed.

Lemma doSync_healthy f :
  healthy (fl_dev f) -> exists f', doSync f = (f', None) /\ healthy (fl_dev f').
Proof.
  intros Hh. destruct (sync_healthy _ Hh) as (d & E & Hd).
  unfold doSync. rewrite E. eauto.
Qed.

Lemma maybeSync_healthy f :
  healthy (fl_dev f) -> exists f', maybeSync f = (f', None) /\ healthy (fl_dev f').
Proof.
  intros Hh. unfold maybeSync. destruct (fl_sync f); [by apply doSync_healthy| |eauto].
  destruct (tick f) as [f1 t] eqn:Et. unfold tick in Et. injection Et as <- <-.
  destruct (_ <=? _); [|eauto]. by apply doSync_healthy.
Qed.

(** ** Group append *)

Lemma AppendGroup_inv f m segs g f' offs r :
  file_inv f m segs -> Forall Pending_wf g -> fl_globalSeq f + zlen g < two64 ->
  AppendGroup f g = (f', offs, r) ->
  let new := take (length offs) (group_segs (fl_globalSeq f + 1) (fl_cursor f) g) in
  file_inv f' m (segs ++ new) /\ offs = sg_off <$> new /\ same_root f f'
  /\ fl_cursor f <= fl_cursor f' /\ r <> Panic
  /\ (r = Ok tt -> length offs = length g /\ fl_cursor f' = group_end (fl_cursor f) g
        /\ fl_globalSeq f' = fl_globalSeq f + zlen g
        /\ (tidy f segs -> tidy f' (segs ++ new))).
Proof.
  intros [Hi Hm] Hw Hb. unfold AppendGroup. destruct g as [|p g].
  { intros [= <- <- <-]. simpl. rewrite app_nil_r, zlen_nil, Z.add_0_r. by split_and!. }
  set (g0 := p :: g) in *. destruct (append_loop f g0) as [[f1 offs1] r1] eqn:Ha.
  destruct (append_loop_inv _ _ _ _ _ _ Hi Hw Hb Ha) as (Hi1 & Ho & Hsr & Hle & Hnp & Hok).
  pose proof (log_le _ _ _ _ _ (li_log _ _ Hi)). pose proof (li_page _ _ Hi).
  assert (Hm1 : root_inv f1 m) by (eapply root_inv_same; [done|lia|done|done]).
  destruct r1 as [[]|e1|]; [|by intros [= <- <- <-]; split_and!..].
  destruct (maybeSync f1) as [f2 e2] eqn:Hs. apply maybeSync_synced in Hs.
  assert (Hi2 : log_inv f2 (segs ++ take (length offs1)
    (group_segs (fl_globalSeq f + 1) (fl_cursor f) g0))) by (by eapply log_inv_synced).
  assert (Hm2 : root_inv f2 m) by (by eapply root_inv_synced).
  destruct Hs as (E1&E2&E3&E4&E5&E6&E7&Hr). destruct Hsr as (?&?&?&?&Hk).
  assert (Hsr2 : same_root f f2) by (split_and!; congruence).
  destruct (Hok eq_refl) as (Hn & Hc & Hq & Ht).
  destruct e2; intros [= <- <- <-]; split_and!; try done; try (by split); try lia.
  intros _. rewrite E2, E3. split_and!; [done|done|done|].
  intros [Ht1 Ht2]%Ht. split; congruence.
Qed.

Lemma writeAt_seq f b off f' e : writeAt f b off = (f', e) -> fl_globalSeq f' = fl_globalSeq f.
Proof. unfold writeAt. destruct (WriteAt _ _ _) as [d [n [e0|]]]; by intros [= <- _]. Qed.

(** An append that fails may leave a gap in the sequences, but never uses up more
    of them than it has segments. *)
Lemma append_loop_seq g : forall f f' offs r,
  0 <= fl_globalSeq f -> fl_globalSeq f + zlen g < two64 -> append_loop f g = (f', offs, r) ->
  fl_globalSeq f <= fl_globalSeq f' <= fl_globalSeq f + zlen g.
Proof.
  induction g as [|p g IH]; intros f f' offs r Hlo Hb; cbn [append_loop]; [intros [= <- <- <-]; rewrite zlen_nil; lia|].
  rewrite zlen_cons in *. pose proof (zlen_nonneg g). rewrite (add64_small (fl_globalSeq f) 1) by lia. fsimpl.
  destruct (SegHeader_Marshal _ _ _) as [[hb h']|e|].
  2: { intros [= <- <- <-]. fsimpl. unfold sub64. rewrite Z.mod_small; lia. }
  2: { intros [= <- <- <-]. fsimpl. lia. }
  destruct (writeAt _ hb _) as [f1 e1] eqn:W1. apply writeAt_seq in W1. fsimpl.
  destruct e1; [intros [= <- <- <-]; lia|].
  destruct (writeAt f1 _ _) as [f2 e2] eqn:W2. apply writeAt_seq in W2.
  destruct e2; [intros [= <- <- <-]; lia|].
  destruct (append_loop _ g) as [[f3 offs3] r3] eqn:E. apply IH in E; fsimpl; [|lia|lia].
  intros [= <- <- <-]. lia.
Qed.

Lemma AppendGroup_seq f g f' offs r :
  0 <= fl_globalSeq f -> fl_globalSeq f + zlen g < two64 -> AppendGroup f g = (f', offs, r) ->
  fl_globalSeq f <= fl_globalSeq f' <= fl_globalSeq f + zlen g.
Proof.
  intros Hlo Hb. unfold AppendGroup. destruct g as [|p g]; [intros [= <- <- <-]; rewrite zlen_nil; lia|].
  destruct (append_loop f _) as [[f1 offs1] r1] eqn:E. apply append_loop_seq in E; [|done|done].
  destruct r1 as [[]|e|]; [|intros [= <- <- <-]; lia..].
  destruct (maybeSync f1) as [f2 e2] eqn:Es. apply maybeSync_synced in Es as (_ & _ & Eq & _).
  destruct e2; intros [= <- <- <-]; lia.
Qed.

Lemma writeAt_ok f b off d :
  off < two63 -> WriteAt (fl_dev f) b off = (d, (zlen b, None)) ->
  writeAt f b off = (with_dev f d, None).
Proof. intros Ho Hw. unfold writeAt. by rewrite int64_small, Hw, Z.eqb_refl by lia. Qed.

(** On a healthy device a group with room below 2^63 always lands. *)
Lemma append_loop_healthy g : forall f segs,
  log_inv f segs -> healthy (fl_dev f) -> Forall Pending_wf g ->
  fl_globalSeq f + zlen g < two64 -> group_end (fl_cursor f) g < two63 ->
  exists f' offs, append_loop f g = (f', offs, Ok tt) /\ healthy (fl_dev f').
Proof.
  induction g as [|p g IH]; intros f segs Hi Hh Hw Hb He; [simpl; eauto|].
  apply Forall_cons in Hw as [Hwp Hw]. rewrite zlen_cons in Hb. pose proof (zlen_nonneg g).
  pose proof (li_seq _ _ Hi). pose proof (li_cursor _ _ Hi).
  destruct (li_std _ _ Hi) as (_&_&_&Hkind).
  assert (Hpl : zlen (pn_Payload p) <= max_alloc) by apply Hwp.
  pose proof (span_bounds _ Hpl). pose proof (zlen_nonneg (pn_Payload p)).
  cbn [group_end] in He.
  pose proof (group_end_ge (fl_cursor f + SegmentSpan (zlen (pn_Payload p))) g Hw).
  cbn [append_loop]. rewrite (add64_small (fl_globalSeq f) 1) by lia. fsimpl. rewrite Hkind.
  destruct (SegHeader_Marshal _ _ _) as [[hb h']|e|] eqn:Hm;
    [|unfold SegHeader_Marshal in Hm; by rewrite checksum_CRC32C in Hm..].
  destruct (Marshal_stamped _ _ _ _ Hm Hwp) as (Hz & Hp & Hv); [lia|].
  destruct (write_healthy (fl_dev f) hb (fl_cursor f) Hh) as (d1 & W1 & Hh1); [lia|lia|].
  destruct (write_healthy d1 (pn_Payload p) (fl_cursor f + SegHeaderLen) Hh1)
    as (d2 & W2 & Hh2); [lia|lia|].
  pose proof (writeAt_ok (with_seq f (fl_globalSeq f + 1)) hb (fl_cursor f) d1 ltac:(lia) W1) as W1'.
  pose proof (writeAt_ok (with_dev (with_seq f (fl_globalSeq f + 1)) d1) (pn_Payload p)
    (fl_cursor f + SegHeaderLen) d2 ltac:(lia) W2) as W2'.
  rewrite <- (add64_small (fl_cursor f) SegHeaderLen) in W2' by lia. rewrite W1', W2'.
  pose proof (append_one f segs p _ _ hb Hi Hwp ltac:(lia) Hz Hp Hv W1' W2') as Hone.
  cbv zeta in Hone. set (f3 := with_cursor _ _) in *.
  destruct Hone as (Hi3 & _ & Hc3 & Hs3 & _).
  destruct (IH f3 _ Hi3) as (f4 & offs & -> & Hh4); [done|done|lia|by rewrite Hc3|].
  eauto.
Qed.

Lemma AppendGroup_healthy f m segs g :
  file_inv f m segs -> healthy (fl_dev f) -> Forall Pending_wf g ->
  fl_globalSeq f + zlen g < two64 -> group_end (fl_cursor f) g < two63 ->
  exists f' offs, AppendGroup f g = (f', offs, Ok tt) /\ healthy (fl_dev f').
Proof.
  intros [Hi _] Hh Hw Hb He. unfold AppendGroup. destruct g as [|p g]; [eauto|].
  destruct (append_loop_healthy (p :: g) f segs) as (f1 & offs & -> & Hh1); try done.
  destruct (maybeSync_healthy f1 Hh1) as (f2 & -> & Hh2). eauto.
Qed.
End flush.

(** ** Opening *)

Lemma fold_scan_visit segs to seq :
  fold_visit scan_visit seq segs to
  = Ok (to, foldl (fun m s => Z.max m (sg_seq s)) seq segs, None).
Proof.
  revert seq. induction segs as [|s segs IH]; intros seq; cbn [fold_visit foldl]; [done|].
  unfold scan_visit at 1. rewrite IH.
  replace (Z.max seq (sg_seq s))
    with (if seq <? sh_GlobalSeq (sg_hdr s) then sh_GlobalSeq (sg_hdr s) else seq); [done|].
  unfold sg_seq. destruct (Z.ltb_spec seq (sh_GlobalSeq (sg_hdr s))); lia.
Qed.

Section opening.
Context {D : Type} `{DeviceLaws D}.
Implicit Types (f : File D).

Lemma scanTail_ok f segs :
  log_inv f segs -> fl_cursor f < two63 -> zlen (contents (fl_dev f)) < two63 ->
  torn (contents (fl_dev f)) ChecksumCRC32C (zlen (contents (fl_dev f))) (fl_cursor f) ->
  scanTail (fl_dev f) (fl_prefix f) (zlen (contents (fl_dev f)))
  = Ok (fl_cursor f, seq_max segs).
Proof.
  intros Hi Hc Hz Ht. destruct (li_std _ _ Hi) as (Hps & _ & _ & Hk).
  unfold scanTail. rewrite Hps.
  rewrite (ReplayTail_log _ _ _ _ _ _ segs (fl_cursor f)); rewrite ?Hk; try done.
  - by rewrite fold_scan_visit.
  - apply Hi.
  - apply Hi.
  - intros s Hin. by apply (log_seg_at _ _ _ _ _ _ (li_log _ _ Hi)) in Hin as (?&?&?).
Qed.

(** Reopening a file whose tail is torn or absent finds the root, the cursor and
    the highest sequence of its log. *)
Lemma OpenOnDevice_ok time_Now f m segs opts :
  file_inv f m segs -> fl_cursor f < two63 -> zlen (contents (fl_dev f)) < two63 ->
  torn (contents (fl_dev f)) ChecksumCRC32C (zlen (contents (fl_dev f))) (fl_cursor f) ->
  OpenOnDevice time_Now (fl_dev f) opts
  = Ok (newFile time_Now (fl_dev f) (fl_prefix f) (opo_Sync opts) (opo_SyncInterval opts)
          (opo_Now opts) (fl_cursor f) (seq_max segs) (fl_commitSeq f) (fl_liveSlot f)).
Proof.
  intros [Hi [Hroot Hcs]] Hc Hz Ht.
  pose proof (scanTail_ok f segs Hi Hc Hz Ht) as Hscan.
  destruct Hi as [Hr Hp (Hps&Ha&Hb&Hk) Hpg Hl _ _ _].
  unfold OpenOnDevice. rewrite read_inside, Hp by (done || lia). rewrite size_readable by done.
  rewrite Ha, Hb, !int64_small, !read_inside by (done || lia).
  unfold live_root in Hroot. by rewrite Hk, Hroot, Hscan, Hcs.
Qed.

(** The file an open returns keeps the invariant at the same root and log. *)
Lemma OpenOnDevice_inv time_Now f m segs opts :
  file_inv f m segs -> fl_cursor f < two63 -> zlen (contents (fl_dev f)) < two63 ->
  torn (contents (fl_dev f)) ChecksumCRC32C (zlen (contents (fl_dev f))) (fl_cursor f) ->
  exists f2, OpenOnDevice time_Now (fl_dev f) opts = Ok f2 /\ file_inv f2 m segs
    /\ fl_dev f2 = fl_dev f /\ fl_prefix f2 = fl_prefix f /\ fl_cursor f2 = fl_cursor f
    /\ fl_liveSlot f2 = fl_liveSlot f /\ fl_globalSeq f2 = seq_max segs
    /\ fl_sync f2 = opo_Sync opts.
Proof.
  intros Hi Hc Hz Ht. eexists. split; [by apply (OpenOnDevice_ok _ _ m segs)|].
  destruct Hi as [[? ? ? ? ? Hq ? ?] [? ?]]. unfold newFile. split_and!; try done.
  destruct (seq_max_le segs (fl_globalSeq f)) as [Hm1 Hm2]; [lia|done|].
  split; [|by split]. constructor; fsimpl; try done; [|lia].
  destruct Hq as [Hs Hf]. split; [done|]. apply Forall_forall. intros s Hin.
  eapply Forall_forall in Hf as [? _]; [|done]. split; [done|by apply seq_max_ub].
Qed.

Lemma scan_visit_goes seq off h payload : exists seq', scan_visit seq off h payload = VCont seq'.
Proof. by eexists. Qed.

(** Whatever lies past the log, an open that succeeds finds the log, and past it
    only what the bytes there frame. *)
Lemma OpenOnDevice_covers time_Now f m segs opts f2 :
  file_inv f m segs -> fl_cursor f < two63 -> zlen (contents (fl_dev f)) < two63 ->
  OpenOnDevice time_Now (fl_dev f) opts = Ok f2 ->
  fl_dev f2 = fl_dev f
  /\ exists stale, log (contents (fl_dev f)) ChecksumCRC32C PageSize (segs ++ stale) (fl_cursor f2).
Proof.
  intros [Hi [Hroot Hcs]] Hc Hz. pose proof (li_cursor _ _ Hi) as Hcu.
  destruct Hi as [Hr Hp (Hps&Ha&Hb&Hk) Hpg Hl _ _ _].
  unfold OpenOnDevice. rewrite read_inside, Hp by (done || lia). rewrite size_readable by done.
  rewrite Ha, Hb, !int64_small, !read_inside by (done || lia).
  unfold live_root in Hroot. rewrite Hk, Hroot. unfold scanTail. rewrite Hps.
  destruct (ReplayTail _ _ _ _ _ _) as [[[cursor seq] e]|e|] eqn:E; [|done|done].
  intros [= <-]. split; [done|]. cbn [fl_cursor newFile].
  eapply ReplayTail_crosses in E as [st' E];
    [|done|done|done|exact Hc|by rewrite Hk| |exact scan_visit_goes].
  - apply ReplayTail_sound in E as (stale & to & Hst & Hf & _); [|done].
    rewrite fold_scan_visit in Hf. injection Hf as <- <- <-. rewrite Hk in Hst. exists stale. by eapply log_app.
  - intros s Hin. by apply (log_seg_at _ _ _ _ _ _ Hl) in Hin as (?&?&?).
Qed.

Lemma tidy_torn f segs size :
  tidy f segs -> size <= zlen (contents (fl_dev f)) ->
  torn (contents (fl_dev f)) ChecksumCRC32C size (fl_cursor f).
Proof. intros [Hle _] Hs. left. lia. Qed.

(** ** Creating *)

Definition CreateOptions_wf (o : CreateOptions) : Prop :=
  is_u32 (cro_ShardCount o) /\ is_u32 (cro_SepThreshold o) /\ zlen (cro_UUID o) = 16
  /\ is_u64 (cro_CreatedUnixNanos o).

Lemma zlen_resize c n : 0 <= n -> zlen (resize c n) = n.
Proof.
  intros. unfold resize. rewrite zlen_app, zlen_ztake, zlen_zeros_max.
  pose proof (zlen_nonneg c). lia.
Qed.

Lemma sl_resize c n i k :
  0 <= i -> 0 <= k -> i + k <= n -> i + k <= zlen c -> sl (resize c n) i k = sl c i k.
Proof.
  intros. unfold resize.
  rewrite sl_app_l by (rewrite ?zlen_ztake; lia).
  unfold sl. rewrite !ztake_take, !zdrop_drop, skipn_firstn_comm, take_take. f_equal. lia.
Qed.

(** A healthy write, as an effect on the contents. *)
Lemma write_lands (d : D) b off :
  healthy d -> 0 <= off -> off + zlen b <= two63 ->
  exists d', WriteAt d b off = (d', (zlen b, None)) /\ healthy d'
    /\ contents d' = overlay (contents d) off b.
Proof.
  intros Hh Ho Hb. destruct (write_healthy d b off Hh Ho Hb) as (d' & W & Hh').
  destruct (write_prefix _ _ _ _ _ _ W) as (j & Hj & Hc & Hn).
  destruct (Hn eq_refl) as [_ Hjk]. rewrite (Hjk eq_refl), ztake_all in Hc by lia.
  rewrite (proj2 (Z.leb_le _ _) Ho) in Hc. eauto.
Qed.

(** The header page [Create] lays down over any earlier contents. *)
Definition header_page (c : bytes) (prefix : Prefix) (mb : bytes) : bytes :=
  resize (overlay (overlay (overlay c 0 (Prefix_Marshal prefix)) MetaSlotAOff mb) MetaSlotBOff mb)
    PageSize.

Lemma header_page_reads c prefix mb :
  zlen mb = MetaSlotSize ->
  zlen (header_page c prefix mb) = PageSize
  /\ sl (header_page c prefix mb) 0 PrefixSize = Prefix_Marshal prefix
  /\ sl (header_page c prefix mb) MetaSlotAOff MetaSlotSize = mb
  /\ sl (header_page c prefix mb) MetaSlotBOff MetaSlotSize = mb.
Proof.
  intros Hz. unfold header_page. pose proof (zlen_Prefix_Marshal prefix) as Hp.
  set (c1 := overlay c 0 _).
  assert (PrefixSize <= zlen c1) as H1.
  { rewrite <- Hp, <- (Z.add_0_l (zlen (Prefix_Marshal prefix))). apply zlen_overlay_end; lia. }
  set (c2 := overlay c1 MetaSlotAOff mb).
  assert (MetaSlotAOff + MetaSlotSize <= zlen c2) as H2.
  { rewrite <- Hz. apply zlen_overlay_end; lia. }
  assert (MetaSlotBOff + MetaSlotSize <= zlen (overlay c2 MetaSlotBOff mb)) as H3.
  { rewrite <- Hz. apply zlen_overlay_end; lia. }
  split_and!; [by apply zlen_resize|..]; rewrite sl_resize by lia.
  - rewrite sl_overlay_before by lia. unfold c2. rewrite sl_overlay_before by lia.
    by apply sl_overlay_same.
  - rewrite sl_overlay_before by lia. by apply sl_overlay_same.
  - by apply sl_overlay_same.
Qed.

Lemma fresh_meta_wf : MetaSlot_wf fresh_meta.
Proof. unfold MetaSlot_wf, fresh_meta. cbn. split_and!; lia. Qed.

(** A created file: valid prefix, both slots hold the fresh root (slot A wins the
    tie), an empty log at the header page, and nothing else. *)
Lemma CreateOnDevice_ok time_Now (dev : D) opts :
  healthy dev -> CreateOptions_wf opts ->
  exists dev' f, CreateOnDevice time_Now dev opts = (dev', Ok f)
    /\ fl_dev f = dev' /\ healthy dev' /\ file_inv f fresh_meta [] /\ tidy f []
    /\ fl_cursor f = PageSize /\ fl_globalSeq f = 0
    /\ fl_prefix f = NewPrefix (cro_ShardCount opts) (cro_SepThreshold opts)
                        (cro_UUID opts) (cro_CreatedUnixNanos opts)
    /\ fl_sync f = cro_Sync opts.
Proof.
  intros Hh (?&?&?&?). unfold CreateOnDevice.
  set (prefix := NewPrefix _ _ _ _).
  pose proof (zlen_Prefix_Marshal prefix) as Hpz.
  destruct (write_lands dev (Prefix_Marshal prefix) 0 Hh) as (d1 & -> & Hh1 & Hc1); [lia|lia|].
  change (px_ChecksumKind prefix) with ChecksumCRC32C.
  destruct (MetaSlot_Marshal fresh_meta ChecksumCRC32C) as [mb|e|] eqn:Hm;
    [|unfold MetaSlot_Marshal in Hm; by rewrite checksum_CRC32C in Hm..].
  assert (Hmz : zlen mb = MetaSlotSize) by (by apply MetaSlot_Marshal_ok in Hm as (?&?&?&?)).
  pose proof (ParseMetaSlot_Marshal_ok fresh_meta _ _ [] fresh_meta_wf Hm) as Hpm.
  rewrite app_nil_r in Hpm.
  change (int64 (px_MetaSlotAOff prefix)) with MetaSlotAOff.
  change (int64 (px_MetaSlotBOff prefix)) with MetaSlotBOff.
  destruct (write_lands d1 mb MetaSlotAOff Hh1) as (d2 & -> & Hh2 & Hc2); [lia|lia|].
  destruct (write_lands d2 mb MetaSlotBOff Hh2) as (d3 & -> & Hh3 & Hc3); [lia|lia|].
  destruct (truncate_healthy d3 PageSize Hh3) as (d4 & T & Hh4); [lia|]. rewrite T.
  apply truncate_contents in T as [_ Hc4].
  destruct (sync_healthy d4 Hh4) as (d5 & S & Hh5). rewrite S.
  apply sync_contents in S as Hc5.
  destruct (header_page_reads (contents dev) prefix mb Hmz) as (Hz & R1 & R2 & R3).
  assert (contents d5 = header_page (contents dev) prefix mb) as Hc.
  { unfold header_page. by rewrite Hc5, Hc4, Hc3, Hc2, Hc1. }
  eexists d5, _. split; [reflexivity|]. unfold newFile. fsimpl.
  split; [reflexivity|]. split; [exact Hh5|].
  split; [split|split; [split; fsimpl|by split_and!]].
  - constructor; fsimpl; rewrite ?Hc, ?Hz, ?R1; [|..|lia|lia].
    + by apply healthy_readable.
    + apply ParsePrefix_Marshal_ok; [|done]. unfold Prefix_wf, prefix, NewPrefix. cbn.
      unfold FormatMajor, FormatMinor, ChecksumCRC32C. split_and!; (done || lia).
    + by split_and!.
    + lia.
    + constructor.
    + by repeat constructor.
  - split; fsimpl; [|done]. rewrite Hc. unfold live_root, MetaLive. by rewrite R2, R3, Hpm.
  - rewrite Hc, Hz. lia.
  - done.
Qed.
End opening.

(** ** Commits *)

Definition slot_off (w : Z) : Z := if w =? 1 then MetaSlotBOff else MetaSlotAOff.
Definition slot (c : bytes) (w : Z) : bytes := sl c (slot_off w) MetaSlotSize.

(** The election in terms of the live and the stale slot. *)
Lemma live_root_slots c kind m w :
  live_root c kind = Ok (m, w) <->
  (w = 0 \/ w = 1) /\ ParseMetaSlot (slot c w) kind = Ok m
  /\ (forall m', ParseMetaSlot (slot c (1 - w)) kind = Ok m' ->
        ms_CommitSeq m' < ms_CommitSeq m \/ (w = 0 /\ ms_CommitSeq m' = ms_CommitSeq m)).
Proof.
  unfold live_root, slot. split.
  - intros Hl. apply MetaLive_ok in Hl as [(-> & Hp & Ho)|(-> & Hp & Ho)].
    + split_and!; [by left|done|]. intros m' Hm'. specialize (Ho _ Hm'). lia.
    + split_and!; [by right|done|]. intros m' Hm'. specialize (Ho _ Hm'). lia.
  - intros (Hw & Hp & Ho). unfold MetaLive.
    pose proof (ParseMetaSlot_no_panic (sl c (slot_off (1 - w)) MetaSlotSize) kind) as Hnp.
    destruct Hw as [-> | ->]; cbn [Z.sub Z.opp Z.add Z.pos_sub] in *; unfold slot_off in *; cbn [Z.eqb Pos.eqb] in *;
      rewrite Hp; destruct (ParseMetaSlot _ kind) as [m'|e|] in Ho, Hnp |- *; try done;
      specialize (Ho _ eq_refl); destruct (Z.ltb_spec (ms_CommitSeq m') (ms_CommitSeq m));
      destruct (Z.ltb_spec (ms_CommitSeq m) (ms_CommitSeq m')); done || lia.
Qed.

Lemma slot_overlay_same c w b :
  zlen b = MetaSlotSize -> slot (overlay c (slot_off w) b) w = b.
Proof.
  intros Hz. unfold slot. apply sl_overlay_same; [|done]. unfold slot_off. destruct (w =? 1); lia.
Qed.

Lemma slot_overlay_other c w b :
  w = 0 \/ w = 1 -> PageSize <= zlen c -> zlen b <= MetaSlotSize ->
  slot (overlay c (slot_off (1 - w)) b) w = slot c w.
Proof.
  intros Hw Hp Hz. unfold slot, slot_off.
  pose proof (zlen_nonneg b).
  destruct Hw as [-> | ->].
  - change (1 - 0 =? 1) with true. change (0 =? 1) with false. apply sl_overlay_before; lia.
  - change (1 - 1 =? 1) with false. change (1 =? 1) with true. apply sl_overlay_after; lia.
Qed.

(** A whole slot of a later sequence, written over the stale one, is elected. *)
Lemma slot_elects c w m0 m b :
  w = 0 \/ w = 1 -> ParseMetaSlot (slot c w) ChecksumCRC32C = Ok m0 -> PageSize <= zlen c ->
  MetaSlot_wf m -> ms_CommitSeq m0 < ms_CommitSeq m -> MetaSlot_Marshal m ChecksumCRC32C = Ok b ->
  live_root (overlay c (slot_off (1 - w)) b) ChecksumCRC32C = Ok (m, 1 - w).
Proof.
  intros Hw Hp Hpg Hwf Hlt Hm.
  assert (Hz : zlen b = MetaSlotSize) by (by apply MetaSlot_Marshal_ok in Hm as (?&?&?&?)).
  apply ParseMetaSlot_Marshal_ok with (post := []) in Hm; [|done]. rewrite app_nil_r in Hm.
  apply live_root_slots. split_and!; [lia|by rewrite slot_overlay_same|].
  intros m'. replace (1 - (1 - w)) with w by lia.
  rewrite slot_overlay_other, Hp by (done || lia). intros [= <-]. by left.
Qed.

Section commit.
Context {D : Type} `{DeviceLaws D}.
Implicit Types (f : File D).

Lemma stamp_meta_wf f m :
  MetaSlot_wf m -> is_u64 (fl_globalSeq f) -> is_u64 (fl_cursor f) ->
  MetaSlot_wf (stamp_meta f m).
Proof.
  unfold MetaSlot_wf, stamp_meta. cbn. intros (?&?&?&?&?&?&?&?&?&?&?&?&?&?&?&?&?) ??.
  pose proof (add64_range (fl_commitSeq f) 1). by split_and!.
Qed.

Lemma stamp_meta_seq f m0 m kind :
  ParseMetaSlot (slot (contents (fl_dev f)) (fl_liveSlot f)) kind = Ok m0 ->
  ms_CommitSeq m0 = fl_commitSeq f -> fl_commitSeq f + 1 < two64 ->
  ms_CommitSeq (stamp_meta f m) = fl_commitSeq f + 1.
Proof.
  intros Hp Hcs Hb. pose proof (ParseMetaSlot_wf _ _ _ Hp) as [? _].
  unfold stamp_meta. cbn [ms_CommitSeq]. apply add64_small. lia.
Qed.

(** A slot write leaves the prefix and the append space alone. *)
Lemma log_inv_slot f segs d w b :
  log_inv f segs -> readable d -> zlen b <= MetaSlotSize ->
  contents d = overlay (contents (fl_dev f)) (slot_off w) b ->
  log_inv (with_dev f d) segs.
Proof.
  intros [Hr Hp Hs Hg Hl Hq Hsq Hcu] Hrd Hz Hc. pose proof (log_le _ _ _ _ _ Hl).
  assert (MetaSlotAOff <= slot_off w <= MetaSlotBOff) as Ho
    by (unfold slot_off; destruct (w =? 1); lia).
  pose proof (zlen_overlay_ge (contents (fl_dev f)) (slot_off w) b ltac:(lia)).
  constructor; fsimpl; rewrite ?Hc; try assumption; [|lia|].
  - rewrite sl_overlay_before by lia. exact Hp.
  - eapply log_keeps; [apply (keeps_overlay_below PageSize (fl_cursor f)); lia|lia|lia|exact Hl].
Qed.

(** On a healthy device a commit succeeds. *)
Lemma CommitRoots_healthy f segs m :
  log_inv f segs -> healthy (fl_dev f) ->
  exists f', CommitRoots f m = (f', Ok tt) /\ healthy (fl_dev f').
Proof.
  intros Hi Hh. destruct (li_std _ _ Hi) as (_ & Ha & HB & Hk).
  unfold CommitRoots. rewrite Hk, Ha, HB.
  change (if 1 - fl_liveSlot f =? 1 then MetaSlotBOff else MetaSlotAOff)
    with (slot_off (1 - fl_liveSlot f)).
  assert (Hso : 0 <= slot_off (1 - fl_liveSlot f) <= MetaSlotBOff) by (unfold slot_off; destruct (_ =? 1); lia).
  destruct (MetaSlot_Marshal _ _) as [b|e|] eqn:Hm;
    [|unfold MetaSlot_Marshal in Hm; by rewrite checksum_CRC32C in Hm..].
  assert (Hz : zlen b = MetaSlotSize) by (by apply MetaSlot_Marshal_ok in Hm as (?&?&?&?)).
  destruct (write_healthy (fl_dev f) b (slot_off (1 - fl_liveSlot f)) Hh) as (d & W & Hd); [lia|lia|].
  rewrite (writeAt_ok f b _ d) by (done || lia). fsimpl.
  destruct (sync_healthy d Hd) as (d' & -> & Hd'). eauto.
Qed.

Lemma CommitRoots_ok f m0 segs m f' :
  file_inv f m0 segs -> MetaSlot_wf m -> fl_commitSeq f + 1 < two64 ->
  CommitRoots f m = (f', Ok tt) ->
  file_inv f' (stamp_meta f m) segs
  /\ fl_liveSlot f' = 1 - fl_liveSlot f /\ fl_commitSeq f' = fl_commitSeq f + 1
  /\ fl_cursor f' = fl_cursor f /\ fl_globalSeq f' = fl_globalSeq f
  /\ fl_prefix f' = fl_prefix f /\ (tidy f segs -> tidy f' segs).
Proof.
  intros [Hi [Hroot Hcs]] Hwf Hb Hcm.
  pose proof (li_std _ _ Hi) as (_ & Ha & HB & Hk).
  pose proof (li_seq _ _ Hi). pose proof (li_cursor _ _ Hi) as Hcu. pose proof (li_page _ _ Hi).
  apply live_root_slots in Hroot as (Hw & Hp & _).
  unfold CommitRoots in Hcm. rewrite Hk, Ha, HB in Hcm.
  change (if 1 - fl_liveSlot f =? 1 then MetaSlotBOff else MetaSlotAOff)
    with (slot_off (1 - fl_liveSlot f)) in Hcm.
  destruct (MetaSlot_Marshal _ _) as [b|e|] eqn:Hm; [|done..].
  assert (Hz : zlen b = MetaSlotSize) by (by apply MetaSlot_Marshal_ok in Hm as (?&?&?&?)).
  assert (is_u64 (slot_off (1 - fl_liveSlot f))) as Hu by (unfold slot_off; destruct (_ =? 1); lia).
  destruct (writeAt f b _) as [f1 [e1|]] eqn:W; [done|].
  destruct (writeAt_spec _ _ _ _ _ Hu W) as (d1 & j & E1 & Hr1 & _ & Hc1 & Hn).
  destruct (Hn eq_refl) as [Hlt ->]. rewrite (proj2 (Z.ltb_lt _ _) Hlt), ztake_all in Hc1 by lia.
  destruct (Sync (fl_dev f1)) as [d2 [e2|]] eqn:S; [done|]. simplify_eq.
  pose proof (sync_contents _ _ _ S) as Hc2. fsimpl. rewrite Hc1 in Hc2.
  assert (Hrd : readable d2) by (eapply sync_readable; [|exact S]; apply Hr1, Hi).
  pose proof (log_inv_slot f segs d2 (1 - fl_liveSlot f) b Hi Hrd ltac:(lia) Hc2) as Hi2.
  pose proof (stamp_meta_seq f m0 m _ Hp Hcs Hb) as Hseq.
  split; [split|split_and!; try done].
  - destruct Hi2. by constructor.
  - split; fsimpl; [|done]. rewrite Hc2.
    apply (slot_elects _ _ m0); [done|done|done|by apply stamp_meta_wf|rewrite Hseq; lia|exact Hm].
  - intros [Ht1 Ht2]. split; fsimpl; [|done]. rewrite Hc2.
    apply zlen_overlay_le; [lia|done|].
    pose proof (log_le _ _ _ _ _ (li_log _ _ Hi)). unfold slot_off. destruct (_ =? 1); lia.
Qed.
End commit.
