(* ===== verification/Rebuild.v ===== *)
(** Rebuilding a shard's tables from their checkpoint chains
    (engine/f3/akifile/recovery.go: [IndexRebuilder], [SegStatsRebuilder],
    [ChunkDirRebuilder] and the three [RebuildShard] walks).

    The three tables share one chain discipline, stated as the interface
    [DeltaTable]: a segment of the table's kind holds a full table or a delta over
    a base, the walk follows base offsets back to a full (or to a delta over the
    empty table) and the payloads are applied oldest first.  [rebuild_shard] is
    that walk; each table is an instance. *)

From S2P Require Import Prelude Loop Crc Format Rows Headers Tables Device Scan.

(** ** The interface *)

Class DeltaTable (Rb Hd : Type) := {
  dt_kind : Z;                                  (* the segment kind *)
  dt_err : error;                               (* a corrupt chain *)
  dt_parse : bytes -> R Hd;                     (* the payload's header *)
  dt_full : Hd -> bool;                         (* a full table *)
  dt_base : Hd -> Z;                            (* the base a delta extends *)
  dt_new : Rb;                                  (* the empty table *)
  dt_apply : Rb -> bytes -> R (Rb * Hd)         (* [Apply] *)
}.

(** What the walk relies on: parsing is total, an applied payload is one that
    parsed, offsets are 64-bit, and a full table replaces what was there. *)
Class DeltaTableLaws (Rb Hd : Type) `{DeltaTable Rb Hd} := {
  dt_parse_no_panic b : no_panic (dt_parse b);
  dt_apply_no_panic r b : no_panic (dt_apply r b);
  dt_parse_base b h : dt_parse b = Ok h -> is_u64 (dt_base h);
  dt_apply_parse r b r' h : dt_apply r b = Ok (r', h) -> dt_parse b = Ok h;
  dt_apply_full r b r' h :
    dt_apply r b = Ok (r', h) -> dt_full h = true -> dt_apply dt_new b = Ok (r', h)
}.

Section rebuild.
Context {D : Type} `{Device D} {Rb Hd : Type} `{DeltaTable Rb Hd}.

(** One link of the walk.  The state is the offset to visit, the offsets seen,
    and the payloads read so far with the oldest first. *)
Definition chain_body (dev : D) (kind : Z) (s : Z * gset Z * list bytes)
  : (Z * gset Z * list bytes) + R (list bytes) :=
  let '(off, seen, chain) := s in
  if decide (off ∈ seen) then inr (Err dt_err) else
  let seen := {[ off ]} ∪ seen in
  match read_segment dev kind off with
  | Panic => inr Panic
  | Err e => inr (Err e)
  | Ok (h, payload) =>
      if negb (sh_Kind h =? dt_kind) then inr (Err dt_err) else
      match dt_parse payload with
      | Panic => inr Panic
      | Err e => inr (Err e)
      | Ok ch =>
          let chain := payload :: chain in
          if dt_full ch || (dt_base ch =? 0) then inr (Ok chain)
          else inl (dt_base ch, seen, chain)
      end
  end.

Definition walk_chain (dev : D) (kind off : Z) : R (list bytes) :=
  match loop (chain_body dev kind) fuel64 (off, ∅, []) with
  | inr r => r
  | inl _ => Panic
  end.

(** The apply pass over the payloads, oldest first. *)
Fixpoint apply_all (r : Rb) (chain : list bytes) : R Rb :=
  match chain with
  | [] => Ok r
  | p :: chain' => let* '(r', _) := dt_apply r p in apply_all r' chain'
  end.

Definition rebuild_shard (dev : D) (kind off : Z) : R Rb :=
  if off =? 0 then Ok dt_new else
  let* chain := walk_chain dev kind off in
  apply_all dt_new chain.
End rebuild.

(** ** The index *)

Record IndexRebuilder := mkIndexRebuilder {
  ir_entries : gmap Z CkptEntry;
  ir_LogPos : Z;
  ir_SeqHigh : Z
}.

Definition NewIndexRebuilder : IndexRebuilder :=
  {| ir_entries := ∅; ir_LogPos := 0; ir_SeqHigh := 0 |}.

(** One entry of the apply loop. *)
Definition index_step (delta : bool) (m : gmap Z CkptEntry) (e : CkptEntry) : gmap Z CkptEntry :=
  if delta && negb (Z.land (ce_Flags e) CkptTombstone =? 0)
  then delete (ce_KeyHash e) m
  else <[ce_KeyHash e := e]> m.

Definition IndexRebuilder_Apply (r : IndexRebuilder) (payload : bytes)
  : R (IndexRebuilder * CkptHeader) :=
  let* h := ParseCkptHeader payload in
  let* entries := CkptEntries payload h in
  let base := if ch_FullOrDelta h =? CkptFull then ∅ else ir_entries r in
  let m := foldl (index_step (ch_FullOrDelta h =? CkptDelta)) base entries in
  Ok ({| ir_entries := m; ir_LogPos := ch_CkptLogPos h; ir_SeqHigh := ch_SeqHigh h |}, h).

Definition IndexRebuilder_Len (r : IndexRebuilder) : Z := Z.of_nat (size (ir_entries r)).

#[global] Instance index_table : DeltaTable IndexRebuilder CkptHeader := {|
  dt_kind := KindIndexCkpt;
  dt_err := ErrCheckpoint;
  dt_parse := ParseCkptHeader;
  dt_full h := ch_FullOrDelta h =? CkptFull;
  dt_base := ch_BaseCkptOff;
  dt_new := NewIndexRebuilder;
  dt_apply := IndexRebuilder_Apply
|}.

(** ** Dead-byte accounting *)

Record SegStatsRebuilder := mkSegStatsRebuilder {
  ssr_entries : gmap Z SegStatsEntry;
  ssr_LogPos : Z
}.

Definition NewSegStatsRebuilder : SegStatsRebuilder := {| ssr_entries := ∅; ssr_LogPos := 0 |}.

Definition segstats_step (delta : bool) (m : gmap Z SegStatsEntry) (e : SegStatsEntry)
  : gmap Z SegStatsEntry :=
  if delta && negb (Z.land (se_Flags e) SegStatsFreed =? 0)
  then delete (se_SegOff e) m
  else <[se_SegOff e := e]> m.

Definition SegStatsRebuilder_Apply (r : SegStatsRebuilder) (payload : bytes)
  : R (SegStatsRebuilder * SegStatsHeader) :=
  let* h := ParseSegStatsHeader payload in
  let* entries := SegStatsEntries payload h in
  let base := if sth_FullOrDelta h =? SegStatsFull then ∅ else ssr_entries r in
  let m := foldl (segstats_step (sth_FullOrDelta h =? SegStatsDelta)) base entries in
  Ok ({| ssr_entries := m; ssr_LogPos := sth_CkptLogPos h |}, h).

Definition SegStats_TotalDeadBytes (r : SegStatsRebuilder) : Z :=
  map_fold (fun _ e n => add64 n (se_DeadBytes e)) 0 (ssr_entries r).
Definition SegStats_TotalLiveBytes (r : SegStatsRebuilder) : Z :=
  map_fold (fun _ e n => add64 n (se_LiveBytes e)) 0 (ssr_entries r).

#[global] Instance segstats_table : DeltaTable SegStatsRebuilder SegStatsHeader := {|
  dt_kind := KindSegStats;
  dt_err := ErrSegStats;
  dt_parse := ParseSegStatsHeader;
  dt_full h := sth_FullOrDelta h =? SegStatsFull;
  dt_base := sth_BaseCkptOff;
  dt_new := NewSegStatsRebuilder;
  dt_apply := SegStatsRebuilder_Apply
|}.

(** ** The cold-chunk directory *)

Record ChunkDirRebuilder := mkChunkDirRebuilder {
  cdr_collections : gmap Z ChunkDirCollection;
  cdr_LogPos : Z
}.

Definition NewChunkDirRebuilder : ChunkDirRebuilder := {| cdr_collections := ∅; cdr_LogPos := 0 |}.

Definition chunkdir_apply_step (delta : bool) (m : gmap Z ChunkDirCollection) (c : ChunkDirCollection)
  : gmap Z ChunkDirCollection :=
  if delta && negb (Z.land (cc_Flags c) ChunkDirTombstone =? 0)
  then delete (cc_KeyHash c) m
  else <[cc_KeyHash c := c]> m.

Definition ChunkDirRebuilder_Apply (r : ChunkDirRebuilder) (payload : bytes)
  : R (ChunkDirRebuilder * ChunkDirHeader) :=
  let* h := ParseChunkDirHeader payload in
  let* cols := ChunkDirCollections payload h in
  let base := if cdh_FullOrDelta h =? ChunkDirFull then ∅ else cdr_collections r in
  let m := foldl (chunkdir_apply_step (cdh_FullOrDelta h =? ChunkDirDelta)) base cols in
  Ok ({| cdr_collections := m; cdr_LogPos := cdh_CkptLogPos h |}, h).

Definition ChunkDir_TotalLiveBytes (r : ChunkDirRebuilder) : Z :=
  map_fold (fun _ c n => foldl (fun n row => add64 n (cr_ChunkLiveBytes row)) n (cc_Chunks c))
    0 (cdr_collections r).

#[global] Instance chunkdir_table : DeltaTable ChunkDirRebuilder ChunkDirHeader := {|
  dt_kind := KindChunkDir;
  dt_err := ErrChunkDir;
  dt_parse := ParseChunkDirHeader;
  dt_full h := cdh_FullOrDelta h =? ChunkDirFull;
  dt_base := cdh_BaseCkptOff;
  dt_new := NewChunkDirRebuilder;
  dt_apply := ChunkDirRebuilder_Apply
|}.

(** ** The three walks *)

Section walks.
Context {D : Type} `{Device D}.

Definition RebuildShardIndex (dev : D) (prefix : Prefix) (indexCkptOff : Z) : R IndexRebuilder :=
  rebuild_shard dev (px_ChecksumKind prefix) indexCkptOff.
Definition RebuildShardSegStats (dev : D) (prefix : Prefix) (segStatsOff : Z) : R SegStatsRebuilder :=
  rebuild_shard dev (px_ChecksumKind prefix) segStatsOff.
Definition RebuildShardChunkDir (dev : D) (prefix : Prefix) (chunkdirOff : Z) : R ChunkDirRebuilder :=
  rebuild_shard dev (px_ChecksumKind prefix) chunkdirOff.
End walks.

(** ** The instances keep the interface's laws *)

(** The shape shared by the three [Apply] methods: parse the header, decode the
    rows, fold. *)
Ltac apply_parses apply parse rows :=
  intros *; cbn; unfold apply;
  match goal with |- context [parse ?b] => destruct (parse b) as [?h|?e|] eqn:?Hp end;
  [|done|done];
  match goal with |- context [rows ?b ?h] => destruct (rows b h) as [?es|?e|] eqn:?Hr end;
  [|done|done].

#[global] Program Instance index_table_laws : DeltaTableLaws IndexRebuilder CkptHeader.
Next Obligation. apply ParseCkptHeader_no_panic. Qed.
Next Obligation.
  intros r b. cbn. unfold IndexRebuilder_Apply, no_panic.
  pose proof (ParseCkptHeader_no_panic b) as Hp. unfold no_panic in Hp.
  destruct (ParseCkptHeader b) as [h|e|] eqn:E; [|done|done].
  apply ParseCkptHeader_ok in E as [(?&?&?&?&?&?) _].
  pose proof (table_rows_no_panic (A:=CkptEntry) CkptHeaderLen b (ch_EntryCount h)) as Ht.
  unfold CkptEntries, no_panic in *. destruct (table_rows _ _ _); [done|done|]. exfalso. apply Ht; [lia|lia|done].
Qed.
Next Obligation. intros b h. cbn. by intros [(?&?&?&?&?&?) _]%ParseCkptHeader_ok. Qed.
Next Obligation. apply_parses IndexRebuilder_Apply ParseCkptHeader CkptEntries. by intros [= _ ->]. Qed.
Next Obligation.
  apply_parses IndexRebuilder_Apply ParseCkptHeader CkptEntries.
  intros [= <- <-] Hf. by rewrite Hf.
Qed.

#[global] Program Instance segstats_table_laws : DeltaTableLaws SegStatsRebuilder SegStatsHeader.
Next Obligation. apply ParseSegStatsHeader_no_panic. Qed.
Next Obligation.
  intros r b. cbn. unfold SegStatsRebuilder_Apply, no_panic.
  pose proof (ParseSegStatsHeader_no_panic b) as Hp. unfold no_panic in Hp.
  destruct (ParseSegStatsHeader b) as [h|e|] eqn:E; [|done|done].
  apply ParseSegStatsHeader_ok in E as [(?&?&?&?) _].
  pose proof (table_rows_no_panic (A:=SegStatsEntry) SegStatsHeaderLen b (sth_EntryCount h)) as Ht.
  unfold SegStatsEntries, no_panic in *. destruct (table_rows _ _ _); [done|done|]. exfalso. apply Ht; [lia|lia|done].
Qed.
Next Obligation. intros b h. cbn. by intros [(?&?&?&?) _]%ParseSegStatsHeader_ok. Qed.
Next Obligation.
  apply_parses SegStatsRebuilder_Apply ParseSegStatsHeader SegStatsEntries. by intros [= _ ->].
Qed.
Next Obligation.
  apply_parses SegStatsRebuilder_Apply ParseSegStatsHeader SegStatsEntries.
  intros [= <- <-] Hf. by rewrite Hf.
Qed.

#[global] Program Instance chunkdir_table_laws : DeltaTableLaws ChunkDirRebuilder ChunkDirHeader.
Next Obligation. apply ParseChunkDirHeader_no_panic. Qed.
Next Obligation.
  intros r b. cbn. unfold ChunkDirRebuilder_Apply, no_panic.
  pose proof (ParseChunkDirHeader_no_panic b) as Hp. unfold no_panic in Hp.
  destruct (ParseChunkDirHeader b) as [h|e|]; [|done|done].
  pose proof (ChunkDirCollections_no_panic b h) as Ht. unfold no_panic in Ht.
  by destruct (ChunkDirCollections b h).
Qed.
Next Obligation. intros b h. cbn. by intros [(?&?&?&?) _]%ParseChunkDirHeader_ok. Qed.
Next Obligation.
  apply_parses ChunkDirRebuilder_Apply ParseChunkDirHeader ChunkDirCollections. by intros [= _ ->].
Qed.
Next Obligation.
  apply_parses ChunkDirRebuilder_Apply ParseChunkDirHeader ChunkDirCollections.
  intros [= <- <-] Hf. by rewrite Hf.
Qed.

(** ** The walk

    [hops c kind off l last]: from [off], a run of deltas whose bases lead to
    [last]; [l] lists the offsets visited and their payloads, newest first. *)

Section chain.
Context {D : Type} `{DeviceLaws D} {Rb Hd : Type} `{DeltaTableLaws Rb Hd}.

(** A segment of this table at [off], with its parsed payload header. *)
Definition link_at (c : bytes) (kind off : Z) (p : bytes) (ch : Hd) : Prop :=
  exists h, seg_at c kind off h p /\ off + SegHeaderLen < two63
    /\ sh_Kind h = dt_kind /\ dt_parse p = Ok ch.

Definition is_base (ch : Hd) : bool := dt_full ch || (dt_base ch =? 0).

Inductive hops (c : bytes) (kind : Z) : Z -> list (Z * bytes) -> Z -> Prop :=
| hops_nil off : hops c kind off [] off
| hops_cons off p ch l last :
    link_at c kind off p ch -> is_base ch = false ->
    hops c kind (dt_base ch) l last -> hops c kind off ((off, p) :: l) last.

(** A whole chain: hops to a segment that needs no base. *)
Definition chain_at (c : bytes) (kind off : Z) (l : list (Z * bytes)) : Prop :=
  exists l' last p ch, hops c kind off l' last /\ link_at c kind last p ch
    /\ is_base ch = true /\ l = l' ++ [(last, p)].

Lemma link_at_fun c kind off p ch p' ch' :
  link_at c kind off p ch -> link_at c kind off p' ch' -> p = p' /\ ch = ch'.
Proof.
  intros (h & Hs & _ & _ & Hp) (h' & Hs' & _ & _ & Hp').
  destruct (seg_at_fun _ _ _ _ _ _ _ Hs Hs') as [-> ->]. split; congruence.
Qed.

Lemma chain_at_fun c kind off l l' : chain_at c kind off l -> chain_at c kind off l' -> l = l'.
Proof.
  intros (k & last & p & ch & Hh & Hb & Hi & ->). revert l'.
  induction Hh as [off|off q ch1 k last Hq Hn Hh IH];
    intros l' (k' & last' & p' & ch' & Hh' & Hb' & Hi' & ->);
    inversion Hh' as [off'|off' q' ch2 k2 last2 Hq' Hn' Hh2]; subst; simpl.
  - by destruct (link_at_fun _ _ _ _ _ _ _ Hb Hb') as [-> ->].
  - destruct (link_at_fun _ _ _ _ _ _ _ Hb Hq') as [-> ->]. congruence.
  - destruct (link_at_fun _ _ _ _ _ _ _ Hq Hb') as [-> ->]. congruence.
  - destruct (link_at_fun _ _ _ _ _ _ _ Hq Hq') as [-> ->]. f_equal.
    apply (IH Hb). by exists k2, last', p', ch'.
Qed.

Lemma chain_at_suffix c kind off l x :
  chain_at c kind off l -> x ∈ l.*1 -> exists l1 l2, l = l1 ++ l2 /\ chain_at c kind x l2.
Proof.
  intros (k & last & p & ch & Hh & Hb & Hi & ->).
  induction Hh as [off|off q ch1 k last Hq Hn Hh IH]; simpl; intros Hin.
  - apply list_elem_of_singleton in Hin as ->. exists [], [(off, p)]. split; [done|].
    by exists [], off, p, ch; split_and!; [constructor|..].
  - apply elem_of_cons in Hin as [->|Hin].
    + exists [], ((off, q) :: k ++ [(last, p)]). split; [done|].
      exists ((off, q) :: k), last, p, ch. split_and!; try done. by econstructor.
    + destruct (IH Hb Hin) as (l1 & l2 & -> & Hc). by exists ((off, q) :: l1), l2.
Qed.

(** A chain that ends never revisits an offset. *)
Lemma chain_at_nodup c kind off l : chain_at c kind off l -> NoDup l.*1.
Proof.
  intros (k & last & p & ch & Hh & Hb & Hi & ->).
  induction Hh as [off|off q ch1 k last Hq Hn Hh IH]; simpl; [apply NoDup_singleton|].
  apply NoDup_cons. split; [|by apply IH]. intros Hin.
  assert (chain_at c kind (dt_base ch1) (k ++ [(last, p)])) as Hc by (by exists k, last, p, ch).
  assert (chain_at c kind off ((off, q) :: k ++ [(last, p)])) as Hc0.
  { exists ((off, q) :: k), last, p, ch. split_and!; try done. by econstructor. }
  destruct (chain_at_suffix _ _ _ _ _ Hc Hin) as (l1 & l2 & E & Hc2).
  pose proof (chain_at_fun _ _ _ _ _ Hc0 Hc2) as E2.
  apply (f_equal length) in E, E2. simpl in E2. rewrite E, length_app in E2. lia.
Qed.

(** ** Termination *)

Lemma size_bounded (X : gset Z) N :
  0 <= N -> (forall x, x ∈ X -> 0 <= x < N) -> Z.of_nat (size X) <= N.
Proof.
  intros HN HX. unfold size, set_size. simpl.
  assert (elements X ⊆+ seqZ 0 N) as Hs.
  { apply NoDup_submseteq; [apply NoDup_elements|].
    intros x Hx. apply elem_of_seqZ. apply elem_of_elements, HX in Hx. lia. }
  apply submseteq_length in Hs. rewrite length_seqZ in Hs. lia.
Qed.

(** The walk ends on every device: an offset is read at most once, and there are
    2^64 of them. *)
Lemma chain_walk_terminates (dev : D) kind off :
  is_u64 off -> exists r, loop (chain_body dev kind) fuel64 (off, ∅, []) = inr r.
Proof.
  intros Ho.
  destruct (loop_measure (chain_body dev kind)
    (fun s => is_u64 s.1.1 /\ forall x, x ∈ s.1.2 -> is_u64 x)
    (fun s => two64 - Z.of_nat (size s.1.2)) (fun _ => True) fuel64 (off, ∅, []))
    as (r & Hr & _).
  - intros [[o seen] chain] [Hi Hseen]. cbn [fst snd] in *. unfold chain_body.
    destruct (decide (o ∈ seen)) as [|Hn]; [done|].
    destruct (read_segment dev kind o) as [[h p]|e|]; [|done|done].
    destruct (negb _); [done|].
    destruct (dt_parse p) as [ch|e|] eqn:Hp; [|done|done].
    destruct (_ || _); [done|]. cbn [fst snd].
    apply dt_parse_base in Hp.
    assert (Hall : forall x, x ∈ {[o]} ∪ seen -> is_u64 x) by set_solver.
    pose proof (size_bounded ({[o]} ∪ seen) two64 ltac:(lia) Hall).
    rewrite size_union in * by set_solver. rewrite size_singleton in *.
    split; [done|]. lia.
  - cbn [fst snd]. split; [done|]. set_solver.
  - cbn [fst snd]. rewrite size_empty. lia.
  - eauto.
Qed.

(** ** What the walk returns *)

Lemma read_link dev kind off p ch :
  readable dev -> link_at (contents dev) kind off p ch ->
  exists h, read_segment dev kind off = Ok (h, p) /\ sh_Kind h = dt_kind /\ dt_parse p = Ok ch.
Proof.
  intros Hr (h & Hs & Hb & Hk & Hp). exists h. split_and!; try done.
  unfold read_segment. by rewrite (readSegmentAt_ok _ _ _ _ _ Hr Hs Hb).
Qed.

(** Following the hops: the walk gets to the last one with the payloads read and
    the offsets marked. *)
Lemma walk_hops dev kind off l last seen chain r :
  readable dev -> hops (contents dev) kind off l last ->
  NoDup l.*1 -> (forall x, x ∈ l.*1 -> x ∉ seen) ->
  leaves (chain_body dev kind) (last, list_to_set l.*1 ∪ seen, rev l.*2 ++ chain) r ->
  leaves (chain_body dev kind) (off, seen, chain) r.
Proof.
  intros Hr Hh. revert seen chain.
  induction Hh as [off|off p ch l last Hl Hn Hh IH]; intros seen chain Hnd Hfr Hlv.
  - simpl in Hlv. by rewrite union_empty_l_L in Hlv.
  - simpl in *. apply NoDup_cons in Hnd as [Hni Hnd].
    destruct (read_link _ _ _ _ _ Hr Hl) as (h & Hrd & Hk & Hp).
    eapply leaves_step.
    + unfold chain_body. rewrite decide_False by (apply Hfr; set_solver).
      rewrite Hrd, Hk, Z.eqb_refl, Hp. cbn [negb]. unfold is_base in Hn. rewrite Hn. done.
    + apply IH; [done|set_solver|].
      replace (list_to_set l.*1 ∪ ({[off]} ∪ seen)) with ({[off]} ∪ list_to_set l.*1 ∪ seen)
        by set_solver.
      by rewrite <- app_assoc in Hlv.
Qed.

Lemma walk_chain_ok dev kind off l :
  readable dev -> is_u64 off -> chain_at (contents dev) kind off l ->
  walk_chain dev kind off = Ok (rev l.*2).
Proof.
  intros Hr Ho Hc. pose proof (chain_at_nodup _ _ _ _ Hc) as Hnd.
  destruct Hc as (k & last & p & ch & Hh & Hb & Hi & ->).
  rewrite fmap_app in Hnd. apply NoDup_app in Hnd as (Hnd & Hdis & _).
  destruct (chain_walk_terminates dev kind off Ho) as [r Hr'].
  unfold walk_chain. rewrite (loop_eq _ _ _ (Ok (rev (k ++ [(last, p)]).*2)) _ Hr'); [reflexivity|].
  eapply walk_hops; [exact Hr|exact Hh|exact Hnd|by intros ? ? ?%not_elem_of_empty|].
  destruct (read_link _ _ _ _ _ Hr Hb) as (h & Hrd & Hk & Hp).
  apply leaves_now. unfold chain_body. rewrite decide_False; cycle 1.
  { rewrite elem_of_union, elem_of_list_to_set. intros [Hin|Hin%not_elem_of_empty]; [|done].
    by apply (Hdis _ Hin), list_elem_of_here. }
  rewrite Hrd, Hk, Z.eqb_refl, Hp. cbn [negb]. unfold is_base in Hi. rewrite Hi.
  by rewrite fmap_app, rev_app_distr, app_nil_r.
Qed.

(** A back-pointer into the chain is a corrupt root. *)
Lemma walk_chain_cycle dev kind off l last :
  readable dev -> is_u64 off -> hops (contents dev) kind off l last ->
  NoDup l.*1 -> last ∈ l.*1 ->
  walk_chain dev kind off = Err dt_err.
Proof.
  intros Hr Ho Hh Hnd Hin. destruct (chain_walk_terminates dev kind off Ho) as [r Hr'].
  unfold walk_chain. rewrite (loop_eq _ _ _ (Err dt_err) _ Hr'); [reflexivity|].
  eapply walk_hops; [exact Hr|exact Hh|exact Hnd|by intros ? ? ?%not_elem_of_empty|].
  apply leaves_now. unfold chain_body. rewrite decide_True; [done|].
  by apply elem_of_union_l, elem_of_list_to_set.
Qed.
End chain.

(** ** What a chain means

    A dump is a full table or a delta; reading a key through a chain of dumps
    asks the newest one first, takes its last word on the key, and goes further
    back only past deltas that do not mention it. *)

Section dumps.
Context {E : Type} (key : E -> Z) (dead : E -> bool).

Definition delta_step (delta : bool) (m : gmap Z E) (e : E) : gmap Z E :=
  if delta && dead e then delete (key e) m else <[key e := e]> m.

(** The last entry of a dump for a key. *)
Definition last_word (es : list E) (k : Z) : option E :=
  last (filter (fun e => key e = k) es).

Fixpoint chain_lookup (ds : list (bool * list E)) (k : Z) : option E :=
  match ds with
  | [] => None
  | (full, es) :: older =>
      match last_word es k with
      | Some e => if negb full && dead e then None else Some e
      | None => if full then None else chain_lookup older k
      end
  end.

Definition apply_dump (m : gmap Z E) (d : bool * list E) : gmap Z E :=
  foldl (delta_step (negb d.1)) (if d.1 then ∅ else m) d.2.

Lemma foldl_delta_lookup delta m es k :
  foldl (delta_step delta) m es !! k =
    match last_word es k with
    | Some e => if delta && dead e then None else Some e
    | None => m !! k
    end.
Proof.
  unfold last_word. induction es as [|e es IH] using rev_ind; [done|].
  rewrite foldl_app, filter_app. simpl. unfold delta_step at 1. rewrite filter_cons, filter_nil.
  destruct (decide (key e = k)) as [<-|Hne].
  - rewrite last_snoc. destruct (delta && dead e).
    + by rewrite lookup_delete_eq.
    + by rewrite lookup_insert_eq.
  - rewrite app_nil_r, <- IH. destruct (delta && dead e).
    + by rewrite lookup_delete_ne.
    + by rewrite lookup_insert_ne.
Qed.

(** Applying the dumps oldest first is reading them newest first. *)
Lemma apply_dumps_lookup ds k :
  foldl apply_dump ∅ (rev ds) !! k = chain_lookup ds k.
Proof.
  induction ds as [|[full es] ds IH]; simpl; [apply lookup_empty|].
  rewrite foldl_app. simpl. unfold apply_dump at 1. simpl. rewrite foldl_delta_lookup.
  destruct (last_word es k); [done|]. destruct full; [apply lookup_empty|done].
Qed.
End dumps.

(** The flags a delta deletes by. *)
Definition ckpt_dead (e : CkptEntry) : bool := negb (Z.land (ce_Flags e) CkptTombstone =? 0).
Definition segstats_dead (e : SegStatsEntry) : bool := negb (Z.land (se_Flags e) SegStatsFreed =? 0).
Definition chunkdir_dead (c : ChunkDirCollection) : bool :=
  negb (Z.land (cc_Flags c) ChunkDirTombstone =? 0).

(** Exactly one of the two kinds. *)
Lemma full_xor_delta fd base full delta :
  full <> delta -> full_or_delta_ok fd base full delta = true -> (fd =? delta) = negb (fd =? full).
Proof.
  unfold full_or_delta_ok. intros. destruct (Z.eqb_spec fd full), (Z.eqb_spec fd delta); try done.
  congruence.
Qed.

(** A dump a checkpointer can write. *)
Definition ckpt_dump_ok (d : CkptHeader * list CkptEntry) : Prop :=
  CkptHeader_wf d.1 /\ Forall CkptEntry_wf d.2 /\ ch_EntryCount d.1 = zlen d.2
  /\ full_or_delta_ok (ch_FullOrDelta d.1) (ch_BaseCkptOff d.1) CkptFull CkptDelta = true.
Definition ckpt_dump (d : CkptHeader * list CkptEntry) : bool * list CkptEntry :=
  (ch_FullOrDelta d.1 =? CkptFull, d.2).

Definition segstats_dump_ok (d : SegStatsHeader * list SegStatsEntry) : Prop :=
  SegStatsHeader_wf d.1 /\ Forall SegStatsEntry_wf d.2 /\ sth_EntryCount d.1 = zlen d.2
  /\ full_or_delta_ok (sth_FullOrDelta d.1) (sth_BaseCkptOff d.1) SegStatsFull SegStatsDelta = true.
Definition segstats_dump (d : SegStatsHeader * list SegStatsEntry) : bool * list SegStatsEntry :=
  (sth_FullOrDelta d.1 =? SegStatsFull, d.2).

Definition chunkdir_dump_ok (d : ChunkDirHeader * list ChunkDirCollection) : Prop :=
  ChunkDirHeader_wf d.1 /\ Forall ChunkDirCollection_wf d.2 /\ cdh_CollectionCount d.1 = zlen d.2
  /\ full_or_delta_ok (cdh_FullOrDelta d.1) (cdh_BaseCkptOff d.1) ChunkDirFull ChunkDirDelta = true.
Definition chunkdir_dump (d : ChunkDirHeader * list ChunkDirCollection) : bool * list ChunkDirCollection :=
  (cdh_FullOrDelta d.1 =? ChunkDirFull, d.2).

Lemma index_apply_dump r d :
  ckpt_dump_ok d ->
  IndexRebuilder_Apply r (Ckpt_stream d.1 d.2) =
    Ok ({| ir_entries := apply_dump ce_KeyHash ckpt_dead (ir_entries r) (ckpt_dump d);
           ir_LogPos := ch_CkptLogPos d.1; ir_SeqHigh := ch_SeqHigh d.1 |}, d.1).
Proof.
  intros (Hh & He & Hn & Hfd). destruct (Ckpt_stream_ok _ _ Hh He Hn Hfd) as [Hp Hr].
  unfold IndexRebuilder_Apply. rewrite Hp, Hr. apply full_xor_delta in Hfd; [|done].
  unfold apply_dump, ckpt_dump. by rewrite Hfd.
Qed.

Lemma segstats_apply_dump r d :
  segstats_dump_ok d ->
  SegStatsRebuilder_Apply r (SegStats_stream d.1 d.2) =
    Ok ({| ssr_entries := apply_dump se_SegOff segstats_dead (ssr_entries r) (segstats_dump d);
           ssr_LogPos := sth_CkptLogPos d.1 |}, d.1).
Proof.
  intros (Hh & He & Hn & Hfd). destruct (SegStats_stream_ok _ _ Hh He Hn Hfd) as [Hp Hr].
  unfold SegStatsRebuilder_Apply. rewrite Hp, Hr. apply full_xor_delta in Hfd; [|done].
  unfold apply_dump, segstats_dump. by rewrite Hfd.
Qed.

Lemma chunkdir_apply_dump r d :
  chunkdir_dump_ok d ->
  ChunkDirRebuilder_Apply r (ChunkDir_stream d.1 d.2) =
    Ok ({| cdr_collections := apply_dump cc_KeyHash chunkdir_dead (cdr_collections r) (chunkdir_dump d);
           cdr_LogPos := cdh_CkptLogPos d.1 |}, d.1).
Proof.
  intros (Hh & He & Hn & Hfd). destruct (ChunkDir_stream_ok _ _ Hh He Hn Hfd) as [Hp Hr].
  unfold ChunkDirRebuilder_Apply. rewrite Hp, Hr. apply full_xor_delta in Hfd; [|done].
  unfold apply_dump, chunkdir_dump. by rewrite Hfd.
Qed.

(** The apply pass over a run of dumps, for any of the three tables: [tbl] is the
    map a rebuilder holds. *)
Section apply_all.
Context {Rb Hd E : Type} `{DeltaTable Rb Hd} (key : E -> Z) (dead : E -> bool)
  (tbl : Rb -> gmap Z E) (pos : Rb -> Z) (hpos : Hd -> Z)
  (stream : Hd -> list E -> bytes) (dump : Hd * list E -> bool * list E)
  (ok : Hd * list E -> Prop).
Hypothesis apply_ok : forall r d, ok d -> exists r',
  dt_apply r (stream d.1 d.2) = Ok (r', d.1)
  /\ tbl r' = apply_dump key dead (tbl r) (dump d) /\ pos r' = hpos d.1.

Lemma apply_all_dumps ds : forall r,
  Forall ok ds ->
  exists r', apply_all r (map (fun d => stream d.1 d.2) ds) = Ok r'
    /\ tbl r' = foldl (apply_dump key dead) (tbl r) (map dump ds)
    /\ (forall d, last ds = Some d -> pos r' = hpos d.1).
Proof.
  induction ds as [|d ds IH]; intros r Hok; simpl; [by exists r|].
  apply Forall_cons in Hok as [Hokd Hok].
  destruct (apply_ok r d Hokd) as (r1 & -> & Ht & Hpos).
  destruct (IH r1 Hok) as (r2 & Ha & Ht2 & Hl). exists r2.
  split; [done|]. split; [by rewrite Ht2, Ht|].
  intros d'. destruct ds as [|d2 ds]; [|by apply Hl].
  intros [= <-]. simpl in Ha. by simplify_eq.
Qed.
End apply_all.

(** ** Rebuilding a chain on a device *)

Section rebuilt.
Context {D : Type} `{DeviceLaws D}.

(** [l] is the chain newest first, [ds] the dumps its payloads carry. *)
Lemma rebuild_shard_dumps {Rb Hd E} `{DeltaTableLaws Rb Hd} (key : E -> Z) (dead : E -> bool)
    (tbl : Rb -> gmap Z E) (pos : Rb -> Z) (hpos : Hd -> Z)
    (stream : Hd -> list E -> bytes) (dump : Hd * list E -> bool * list E)
    (ok : Hd * list E -> Prop) (dev : D) kind off l ds :
  (forall r d, ok d -> exists r',
     dt_apply r (stream d.1 d.2) = Ok (r', d.1)
     /\ tbl r' = apply_dump key dead (tbl r) (dump d) /\ pos r' = hpos d.1) ->
  tbl dt_new = ∅ ->
  readable dev -> is_u64 off -> off <> 0 -> chain_at (Rb:=Rb) (Hd:=Hd) (contents dev) kind off l ->
  l.*2 = map (fun d => stream d.1 d.2) ds -> Forall ok ds ->
  exists r, rebuild_shard dev kind off = Ok r
    /\ (forall k, tbl r !! k = chain_lookup key dead (map dump ds) k)
    /\ (forall d, head ds = Some d -> pos r = hpos d.1).
Proof.
  intros Happ Hnew Hr Ho Hnz Hc Hl Hok. unfold rebuild_shard.
  rewrite (proj2 (Z.eqb_neq off 0) Hnz), (walk_chain_ok _ _ _ _ Hr Ho Hc), Hl.
  rewrite <- map_rev.
  destruct (apply_all_dumps key dead tbl pos hpos stream dump ok Happ (rev ds) dt_new)
    as (r & -> & Ht & Hp); [by apply Forall_rev|].
  exists r. split; [done|]. split.
  - intros k. rewrite Ht, Hnew, map_rev. apply apply_dumps_lookup.
  - intros d Hd0. apply Hp. destruct ds as [|d0 ds]; [done|]. injection Hd0 as ->. simpl. apply last_snoc.
Qed.

Lemma RebuildShardIndex_ok (dev : D) prefix off l ds :
  readable dev -> is_u64 off -> off <> 0 ->
  chain_at (Rb:=IndexRebuilder) (Hd:=CkptHeader) (contents dev) (px_ChecksumKind prefix) off l ->
  l.*2 = map (fun d => Ckpt_stream d.1 d.2) ds -> Forall ckpt_dump_ok ds ->
  exists r, RebuildShardIndex dev prefix off = Ok r
    /\ (forall k, ir_entries r !! k = chain_lookup ce_KeyHash ckpt_dead (map ckpt_dump ds) k)
    /\ (forall d, head ds = Some d -> ir_LogPos r = ch_CkptLogPos d.1).
Proof.
  intros Hr Ho Hz Hc Hl Hok. eapply (rebuild_shard_dumps ce_KeyHash ckpt_dead ir_entries ir_LogPos ch_CkptLogPos
    Ckpt_stream ckpt_dump ckpt_dump_ok); [|done|exact Hr|exact Ho|exact Hz|exact Hc|exact Hl|exact Hok].
  intros r d Hd. eexists. split; [by apply (index_apply_dump r d)|]. done.
Qed.

Lemma RebuildShardSegStats_ok (dev : D) prefix off l ds :
  readable dev -> is_u64 off -> off <> 0 ->
  chain_at (Rb:=SegStatsRebuilder) (Hd:=SegStatsHeader) (contents dev) (px_ChecksumKind prefix) off l ->
  l.*2 = map (fun d => SegStats_stream d.1 d.2) ds -> Forall segstats_dump_ok ds ->
  exists r, RebuildShardSegStats dev prefix off = Ok r
    /\ (forall k, ssr_entries r !! k
          = chain_lookup se_SegOff segstats_dead (map segstats_dump ds) k)
    /\ (forall d, head ds = Some d -> ssr_LogPos r = sth_CkptLogPos d.1).
Proof.
  intros Hr Ho Hz Hc Hl Hok. eapply (rebuild_shard_dumps se_SegOff segstats_dead ssr_entries ssr_LogPos sth_CkptLogPos
    SegStats_stream segstats_dump segstats_dump_ok); [|done|exact Hr|exact Ho|exact Hz|exact Hc|exact Hl|exact Hok].
  intros r d Hd. eexists. split; [by apply (segstats_apply_dump r d)|]. done.
Qed.

Lemma RebuildShardChunkDir_ok (dev : D) prefix off l ds :
  readable dev -> is_u64 off -> off <> 0 ->
  chain_at (Rb:=ChunkDirRebuilder) (Hd:=ChunkDirHeader) (contents dev) (px_ChecksumKind prefix) off l ->
  l.*2 = map (fun d => ChunkDir_stream d.1 d.2) ds -> Forall chunkdir_dump_ok ds ->
  exists r, RebuildShardChunkDir dev prefix off = Ok r
    /\ (forall k, cdr_collections r !! k
          = chain_lookup cc_KeyHash chunkdir_dead (map chunkdir_dump ds) k)
    /\ (forall d, head ds = Some d -> cdr_LogPos r = cdh_CkptLogPos d.1).
Proof.
  intros Hr Ho Hz Hc Hl Hok. eapply (rebuild_shard_dumps cc_KeyHash chunkdir_dead cdr_collections cdr_LogPos
    cdh_CkptLogPos ChunkDir_stream chunkdir_dump chunkdir_dump_ok); [|done|exact Hr|exact Ho|exact Hz|exact Hc|exact Hl|exact Hok].
  intros r d Hd. eexists. split; [by apply (chunkdir_apply_dump r d)|]. done.
Qed.
End rebuilt.
