(* ===== verification/Recovery.v ===== *)
(** Recovery: the open decision, the roots a live meta slot names, the whole
    [Recover] sequence, its cross-checks, and point-in-time replay up to a
    snapshot barrier (engine/f3/akifile/recovery.go). *)

From S2P Require Import Prelude Loop Crc Format Rows Headers Tables Device Scan File Rebuild.
From Stdlib Require Import Sorting.Sorted.

(** ** The open decision *)

Inductive OpenOutcome : Type := OpenClean | OpenCrashed | OpenScanFallback.
#[global] Instance OpenOutcome_eq_dec : EqDecision OpenOutcome.
Proof. solve_decision. Defined.

Record OpenState := mkOpenState {
  os_Prefix : Prefix;
  os_Meta : option MetaSlot;
  os_Which : Z;
  os_Outcome : OpenOutcome
}.

Record Recovery := mkRecovery {
  rc_State : OpenState;
  rc_SRT : option SRT;
  rc_Indexes : list IndexRebuilder;
  rc_SegStats : list SegStatsRebuilder;
  rc_ChunkDirs : list ChunkDirRebuilder;
  rc_TTLClasses : list TTLClass;
  rc_FreeMap : list FreeExtent;
  rc_MetaKV : list MetaKVPair;
  rc_TailFrom : Z
}.

Record SRTRowDrift := mkDrift {
  dr_Shard : Z;
  dr_RowLiveRecords : Z;
  dr_CkptEntries : Z;
  dr_RowSeqHigh : Z;
  dr_CkptSeqHigh : Z
}.

Record ShardBytes := mkShardBytes { sb_LiveBytes : Z; sb_DeadBytes : Z }.

Record DeadByteAudit := mkAudit {
  da_PerShard : list ShardBytes;
  da_TotalLive : Z;
  da_TotalDead : Z
}.

Section recovery.
Context {D : Type} `{Device D}.
Implicit Types (dev : D).

Definition ReadOpenState dev : R OpenState :=
  match ReadAt dev PrefixSize 0 with
  | (_, Some e) => Err e
  | (hb, None) =>
  let* prefix := ParsePrefix hb in
  match ReadAt dev MetaSlotSize (int64 (px_MetaSlotAOff prefix)) with
  | (_, Some e) => Err e
  | (a, None) =>
  match ReadAt dev MetaSlotSize (int64 (px_MetaSlotBOff prefix)) with
  | (_, Some e) => Err e
  | (b, None) =>
  match MetaLive a b (px_ChecksumKind prefix) with
  | Panic => Panic
  | Err _ =>
      Ok {| os_Prefix := prefix; os_Meta := None; os_Which := -1; os_Outcome := OpenScanFallback |}
  | Ok (live, which) =>
      if negb (ms_SRTShardCount live =? 0) && negb (ms_SRTShardCount live =? px_ShardCount prefix)
      then Err ErrShardCount
      else Ok {| os_Prefix := prefix; os_Meta := Some live; os_Which := which;
                 os_Outcome := if ms_CleanShutdown live =? 1 then OpenClean else OpenCrashed |}
  end end end end.

(** ** The roots of a meta slot *)

Definition ReadSRT dev (prefix : Prefix) (meta : option MetaSlot) : R (option SRT) :=
  match meta with
  | None => Ok None
  | Some m =>
      if ms_SRTLen m =? 0 then Ok None else
      match ReadAt dev (ms_SRTLen m) (int64 (ms_SRTOff m)) with
      | (_, Some e) => Err e
      | (buf, None) =>
          let* srt := ParseSRT buf (px_ChecksumKind prefix) in
          if negb (zlen (srt_Rows srt) =? px_ShardCount prefix) then Err ErrShardCount
          else Ok (Some srt)
      end
  end.

Definition ReadExtentTable dev (meta : option MetaSlot) : R (list Extent) :=
  match meta with
  | None => Ok []
  | Some m =>
      if ms_ExtentTableLen m =? 0 then Ok [] else
      match ReadAt dev (ms_ExtentTableLen m) (int64 (ms_ExtentTableOff m)) with
      | (_, Some e) => Err e
      | (buf, None) => ParseExtents buf
      end
  end.

Definition ReadTTLIndex dev (meta : option MetaSlot) : R (list TTLClass) :=
  match meta with
  | None => Ok []
  | Some m =>
      if ms_TTLIndexLen m =? 0 then Ok [] else
      match ReadAt dev (ms_TTLIndexLen m) (int64 (ms_TTLIndexOff m)) with
      | (_, Some e) => Err e
      | (buf, None) =>
          let* h := ParseTTLIndexHeader buf in
          TTLClasses buf h
      end
  end.

Definition ReadFreeMap dev (prefix : Prefix) (meta : option MetaSlot) : R (list FreeExtent) :=
  match meta with
  | None => Ok []
  | Some m =>
      if ms_FreeMapOff m =? 0 then Ok [] else
      let* '(h, payload) := read_segment dev (px_ChecksumKind prefix) (ms_FreeMapOff m) in
      if negb (sh_Kind h =? KindFreeMap) then Err ErrMagic else
      let* fh := ParseFreeMapHeader payload in
      FreeExtents payload fh
  end.

Definition ReadMetaKV dev (prefix : Prefix) (meta : option MetaSlot) : R (list MetaKVPair) :=
  match meta with
  | None => Ok []
  | Some m =>
      if ms_MetaKVOff m =? 0 then Ok [] else
      let* '(h, payload) := read_segment dev (px_ChecksumKind prefix) (ms_MetaKVOff m) in
      if negb (sh_Kind h =? KindMetaKV) then Err ErrMagic else
      let* mh := ParseMetaKVHeader payload in
      MetaKVPairs payload mh
  end.

(** ** The whole sequence *)

(** The loop over the rows: the three tables of each shard, and the earliest
    first tail segment below [tailFrom]. *)
Fixpoint rebuild_rows dev (prefix : Prefix) (rows : list SRTRow) (tailFrom : Z)
  : R (list IndexRebuilder * list SegStatsRebuilder * list ChunkDirRebuilder * Z) :=
  match rows with
  | [] => Ok ([], [], [], tailFrom)
  | row :: rows' =>
      let* idx := RebuildShardIndex dev prefix (sr_IndexCkptOff row) in
      let* ss := RebuildShardSegStats dev prefix (sr_SegstatsOff row) in
      let* cd := RebuildShardChunkDir dev prefix (sr_ChunkdirOff row) in
      let ft := sr_FirstTailSeg row in
      let tailFrom := if negb (ft =? 0) && (ft <? tailFrom) then ft else tailFrom in
      let* '(ixs, sss, cds, tf) := rebuild_rows dev prefix rows' tailFrom in
      Ok (idx :: ixs, ss :: sss, cd :: cds, tf)
  end.

Definition Recover dev : R Recovery :=
  let* st := ReadOpenState dev in
  let empty srt ttl fm kv tail :=
    {| rc_State := st; rc_SRT := srt; rc_Indexes := []; rc_SegStats := []; rc_ChunkDirs := [];
       rc_TTLClasses := ttl; rc_FreeMap := fm; rc_MetaKV := kv; rc_TailFrom := tail |} in
  match os_Outcome st with
  | OpenScanFallback => Ok (empty None [] [] [] PageSize)
  | _ =>
      let* srt := ReadSRT dev (os_Prefix st) (os_Meta st) in
      let* ttl := ReadTTLIndex dev (os_Meta st) in
      let* fm := ReadFreeMap dev (os_Prefix st) (os_Meta st) in
      let* kv := ReadMetaKV dev (os_Prefix st) (os_Meta st) in
      match srt, os_Meta st with
      | None, _ => Ok (empty None ttl fm kv PageSize)
      | Some _, None => Panic
      | Some s, Some meta =>
          let* '(ixs, sss, cds, tailFrom) :=
            rebuild_rows dev (os_Prefix st) (srt_Rows s) (ms_FileSize meta) in
          Ok {| rc_State := st; rc_SRT := Some s; rc_Indexes := ixs; rc_SegStats := sss;
                rc_ChunkDirs := cds; rc_TTLClasses := ttl; rc_FreeMap := fm; rc_MetaKV := kv;
                rc_TailFrom := match os_Outcome st with
                               | OpenClean => ms_FileSize meta
                               | _ => tailFrom
                               end |}
      end
  end.

(** ** Cross-checks *)

Fixpoint drift_rows (i : Z) (rows : list SRTRow) (idxs : list IndexRebuilder) : R (list SRTRowDrift) :=
  match rows with
  | [] => Ok []
  | row :: rows' =>
      match idxs with
      | [] => Panic
      | idx :: idxs' =>
          let entries := IndexRebuilder_Len idx in
          let* rest := drift_rows (i + 1) rows' idxs' in
          if (entries =? sr_LiveRecords row) && (ir_SeqHigh idx =? sr_ShardSeqHigh row)
          then Ok rest
          else Ok ({| dr_Shard := i; dr_RowLiveRecords := sr_LiveRecords row;
                      dr_CkptEntries := entries; dr_RowSeqHigh := sr_ShardSeqHigh row;
                      dr_CkptSeqHigh := ir_SeqHigh idx |} :: rest)
      end
  end.

Definition CrossCheck (r : Recovery) : R (list SRTRowDrift) :=
  match rc_SRT r with
  | None => Ok []
  | Some srt => drift_rows 0 (srt_Rows srt) (rc_Indexes r)
  end.

Definition Recovery_DeadByteAudit (r : Recovery) : DeadByteAudit :=
  foldl (fun a ss =>
           let live := SegStats_TotalLiveBytes ss in
           let dead := SegStats_TotalDeadBytes ss in
           {| da_PerShard := da_PerShard a ++ [mkShardBytes live dead];
              da_TotalLive := add64 (da_TotalLive a) live;
              da_TotalDead := add64 (da_TotalDead a) dead |})
    (mkAudit [] 0 0) (rc_SegStats r).

(** ** Barriers *)

(** The variables [FindBarrier]'s visitor closes over. *)
Record find_state := mkFind {
  fb_found : option (BarrierHeader * list BarrierShard * Z);
  fb_bad : option error
}.

Definition find_visit (wbar : Z) : visitor find_state := fun st off h payload =>
  if negb (sh_Kind h =? KindBarrier) then VCont st else
  match ParseBarrierHeader payload with
  | Panic => VPanic
  | Err _ => VCont st
  | Ok bh =>
      if negb (bh_Wbar bh =? wbar) then VCont st else
      match BarrierShards payload bh with
      | Panic => VPanic
      | Err _ => VStop (mkFind (fb_found st) (Some ErrBarrier)) errStopScan
      | Ok rows =>
          if negb (sh_GlobalSeq h =? bh_Wbar bh) || negb (BarrierConsistent bh rows)
          then VStop (mkFind (fb_found st) (Some ErrBarrier)) errStopScan
          else VStop (mkFind (Some (bh, rows, off)) (fb_bad st)) errStopScan
      end
  end.

Definition FindBarrier dev (prefix : Prefix) (from size wbar : Z)
  : R (BarrierHeader * list BarrierShard * Z) :=
  let* '(_, st, err) := ReplayTail dev prefix from size (Some (find_visit wbar)) (mkFind None None) in
  match fb_bad st with
  | Some e => Err e
  | None =>
      match err with
      | Some e =>
          if decide (e = errStopScan)
          then match fb_found st with Some r => Ok r | None => Err ErrNoBarrier end
          else Err e
      | None => match fb_found st with Some r => Ok r | None => Err ErrNoBarrier end
      end
  end.

(** The visitor of the bounded replay. *)
Definition cut_visit {St} (wbar : Z) (visit : option (visitor St)) : visitor St :=
  fun st off h payload =>
    if wbar <? sh_GlobalSeq h then VStop st errStopScan else
    if sh_Kind h =? KindBarrier then VCont st else
    match visit with
    | None => VCont st
    | Some v => v st off h payload
    end.

Definition ReplayToBarrier {St} dev (prefix : Prefix) (from size wbar : Z)
    (visit : option (visitor St)) (st : St) : St * R (BarrierHeader * list BarrierShard) :=
  match FindBarrier dev prefix from size wbar with
  | Panic => (st, Panic)
  | Err e => (st, Err e)
  | Ok (hdr, shards, _) =>
      match ReplayTail dev prefix from size (Some (cut_visit wbar visit)) st with
      | Panic => (st, Panic)
      | Err e => (st, Err e)
      | Ok (_, st', None) => (st', Ok (hdr, shards))
      | Ok (_, st', Some e) =>
          (st', if decide (e = errStopScan) then Ok (hdr, shards) else Err e)
      end
  end.
End recovery.

#[local] Opaque ParsePrefix ParseMetaSlot ParseSegHeader VerifyPayload crc32c ParseSRT.

(** ** The open decision on a file that keeps its invariant *)

Section open_state.
Context {D : Type} `{DeviceLaws D}.
Implicit Types (f : File D).

Lemma ReadOpenState_ok f m segs :
  file_inv f m segs ->
  ms_SRTShardCount m = 0 \/ ms_SRTShardCount m = px_ShardCount (fl_prefix f) ->
  ReadOpenState (fl_dev f) =
    Ok {| os_Prefix := fl_prefix f; os_Meta := Some m; os_Which := fl_liveSlot f;
          os_Outcome := if ms_CleanShutdown m =? 1 then OpenClean else OpenCrashed |}.
Proof.
  intros [Hi [Hroot Hcs]] Hn.
  destruct Hi as [Hr Hp (Hps&Ha&Hb&Hk) Hpg Hl _ _ _].
  unfold ReadOpenState. rewrite read_inside, Hp by (done || lia).
  rewrite Ha, Hb, !int64_small, !read_inside by (done || lia).
  unfold live_root in Hroot. rewrite Hk, Hroot.
  destruct (negb (ms_SRTShardCount m =? 0) && _) eqn:E; [|done].
  destruct Hn as [Hn|Hn]; rewrite Hn in E; [done|]. by rewrite Z.eqb_refl, andb_false_r in E.
Qed.

(** Reading back the bytes of an appended payload. *)
Lemma read_payload f m segs s :
  file_inv f m segs -> s ∈ segs -> zlen (contents (fl_dev f)) < two63 ->
  ReadAt (fl_dev f) (zlen (sg_payload s)) (int64 (sg_off s + SegHeaderLen))
  = (sg_payload s, None).
Proof.
  intros [Hi _] Hin Hz. pose proof (log_offsets _ _ _ _ _ _ (li_log _ _ Hi) Hin).
  destruct (log_seg_at _ _ _ _ _ _ (li_log _ _ Hi) Hin) as (?&?&?&_&Hb&_).
  pose proof (zlen_nonneg (sg_payload s)).
  rewrite int64_small by lia. rewrite read_inside by (apply Hi || lia). by rewrite Hb.
Qed.

(** A root that points at the payload of a logged shard root table. *)
Lemma ReadSRT_ok f m segs s srt m1 :
  file_inv f m segs -> s ∈ segs -> zlen (contents (fl_dev f)) < two63 ->
  SRT_wf srt -> SRT_Marshal srt ChecksumCRC32C = Ok (sg_payload s) ->
  zlen (srt_Rows srt) = px_ShardCount (fl_prefix f) ->
  ms_SRTOff m1 = sg_off s + SegHeaderLen -> ms_SRTLen m1 = zlen (sg_payload s) ->
  ReadSRT (fl_dev f) (fl_prefix f) (Some m1) = Ok (Some srt).
Proof.
  intros Hi Hin Hz Hwf Hm Hrows Ho Hl. destruct (li_std _ _ (proj1 Hi)) as (_&_&_&Hk).
  pose proof (SRT_Marshal_len _ _ _ Hm) as Hlen. pose proof (zlen_nonneg (srt_Rows srt)).
  unfold ReadSRT. rewrite Ho, Hl. destruct (Z.eqb_spec (zlen (sg_payload s)) 0); [lia|].
  rewrite (read_payload f m segs s Hi Hin Hz).
  by rewrite Hk, (ParseSRT_Marshal_ok _ _ _ Hwf Hm), Hrows, Z.eqb_refl.
Qed.
End open_state.

(** ** Checkpoints *)

Definition CheckpointStats_wf (s : CheckpointStats) : Prop :=
  is_u64 (ck_LiveBytes s) /\ is_u64 (ck_DeadBytes s) /\ is_u64 (ck_RecordCount s)
  /\ is_u64 (ck_LastCkptUnix s).

Definition CheckpointGlobals_wf (g : CheckpointGlobals) : Prop :=
  is_u64 (cg_TTLIndexOff g) /\ is_u32 (cg_TTLIndexLen g) /\ is_u64 (cg_FreeMapOff g)
  /\ is_u64 (cg_MetaKVOff g).

(** The root a checkpoint must leave live: what the caller gave, at the offsets
    the table and the extent map land at. *)
Definition checkpoint_root (commitSeq globalSeq cursor fileSize : Z) (srt : SRT) (extents : list Extent)
    (stats : CheckpointStats) (globals : CheckpointGlobals) : MetaSlot :=
  let srtLen := SRTHeaderLen + zlen (srt_Rows srt) * SRTRowSize in
  {| ms_CommitSeq := commitSeq; ms_GlobalSeq := globalSeq;
     ms_SRTOff := cursor + SegHeaderLen; ms_SRTLen := srtLen;
     ms_SRTShardCount := zlen (srt_Rows srt);
     ms_ExtentTableOff :=
       match extents with [] => 0 | _ => cursor + SegmentSpan srtLen + SegHeaderLen end;
     ms_ExtentTableLen := zlen extents * ExtentSize;
     ms_TTLIndexLen := cg_TTLIndexLen globals; ms_TTLIndexOff := cg_TTLIndexOff globals;
     ms_FreeMapOff := cg_FreeMapOff globals; ms_FileSize := fileSize;
     ms_LiveBytes := ck_LiveBytes stats; ms_DeadBytes := ck_DeadBytes stats;
     ms_RecordCount := ck_RecordCount stats; ms_LastCkptUnix := ck_LastCkptUnix stats;
     ms_CleanShutdown := if ck_Clean stats then 1 else 0;
     ms_MetaKVOff := cg_MetaKVOff globals |}.

Lemma zlen_MarshalExtents es : zlen (MarshalExtents es) = zlen es * ExtentSize.
Proof. unfold MarshalExtents. by rewrite zlen_encode_rows. Qed.

Lemma checkpoint_group_wf srtBytes extents :
  zlen srtBytes <= max_alloc -> zlen extents * ExtentSize < two32 ->
  Forall Pending_wf (checkpoint_group srtBytes extents).
Proof.
  intros Hs He. unfold checkpoint_group, pending, ShardOwnerless, KindSRT, KindExtentTable.
  assert (forall k p, 0 <= k < 100 -> zlen p <= max_alloc ->
    Pending_wf {| pn_Shard := 65535; pn_Kind := k; pn_ShardSeq := 0; pn_PrevShardSeg := 0;
                  pn_TTLClass := 0; pn_Flags := 0; pn_Payload := p |}) as Hw.
  { intros k p ??. unfold Pending_wf. cbn. split_and!; lia. }
  constructor; [by apply Hw|].
  destruct extents as [|e es]; [constructor|]. constructor; [|constructor].
  apply Hw; [done|]. rewrite zlen_MarshalExtents. lia.
Qed.

(** Small sizes survive the [uint32] casts. *)
Lemma checkpoint_meta_ok srtBytes srt extents stats globals offs cursor :
  offs = sg_off <$> group_segs 0 cursor (checkpoint_group srtBytes extents) ->
  zlen srtBytes = SRTHeaderLen + zlen (srt_Rows srt) * SRTRowSize ->
  zlen srtBytes < two32 -> zlen extents * ExtentSize < two32 ->
  0 <= cursor -> group_end cursor (checkpoint_group srtBytes extents) < two64 ->
  checkpoint_meta srtBytes srt extents stats globals offs
  = Ok (checkpoint_root 0 0 cursor 0 srt extents stats globals).
Proof.
  intros -> Hl Hs He Hc Hend. unfold checkpoint_meta, checkpoint_root, checkpoint_group in *.
  pose proof (zlen_nonneg (srt_Rows srt)). pose proof (zlen_nonneg extents).
  pose proof (span_bounds srtBytes ltac:(lia)).
  destruct extents as [|e es]; cbn [group_segs group_end fmap list_fmap pending pn_Payload sg_off] in *;
    rewrite <- Hl; unfold cast32.
  - rewrite (add64_small cursor) by lia. by rewrite !Z.mod_small by lia.
  - pose proof (span_bounds (MarshalExtents (e :: es))) as Hsp.
    rewrite zlen_MarshalExtents in *.
    rewrite !(add64_small _ SegHeaderLen) by lia. by rewrite !Z.mod_small by lia.
Qed.

Lemma group_offs_seq g : forall s s' cursor,
  sg_off <$> group_segs s cursor g = sg_off <$> group_segs s' cursor g.
Proof. induction g as [|p g IH]; intros; [done|]. simpl. f_equal. apply IH. Qed.

Lemma checkpoint_root_wf cs gs cursor fsz srt extents stats globals :
  is_u64 cs -> is_u64 gs -> is_u64 fsz -> CheckpointStats_wf stats -> CheckpointGlobals_wf globals ->
  SRTHeaderLen + zlen (srt_Rows srt) * SRTRowSize < two32 -> zlen extents * ExtentSize < two32 ->
  0 <= cursor < two63 ->
  MetaSlot_wf (checkpoint_root cs gs cursor fsz srt extents stats globals).
Proof.
  intros ??? (?&?&?&?) (?&?&?&?) ???. unfold MetaSlot_wf, checkpoint_root. cbn.
  pose proof (zlen_nonneg (srt_Rows srt)). pose proof (zlen_nonneg extents).
  pose proof (SegmentSpan_spec (SRTHeaderLen + zlen (srt_Rows srt) * SRTRowSize)) as [Hsp _]; [lia|].
  split_and!; try done; try lia; destruct extents, (ck_Clean stats); lia.
Qed.

Section checkpoint.
Context {D : Type} `{DeviceLaws D}.
Implicit Types (f : File D).

Lemma CheckpointWithGlobals_ok f m0 segs srt extents stats globals f' :
  file_inv f m0 segs -> SRT_wf srt -> CheckpointStats_wf stats -> CheckpointGlobals_wf globals ->
  SRTHeaderLen + zlen (srt_Rows srt) * SRTRowSize < two32 -> zlen extents * ExtentSize < two32 ->
  fl_globalSeq f + 2 < two64 -> fl_commitSeq f + 1 < two64 -> fl_cursor f < two63 ->
  CheckpointWithGlobals f srt extents stats globals = (f', Ok tt) ->
  exists srtBytes, SRT_Marshal srt ChecksumCRC32C = Ok srtBytes
    /\ file_inv f'
         (checkpoint_root (fl_commitSeq f + 1) (fl_globalSeq f') (fl_cursor f) (fl_cursor f')
            srt extents stats globals)
         (segs ++ group_segs (fl_globalSeq f + 1) (fl_cursor f) (checkpoint_group srtBytes extents))
    /\ fl_prefix f' = fl_prefix f /\ fl_liveSlot f' = 1 - fl_liveSlot f
    /\ fl_commitSeq f' = fl_commitSeq f + 1
    /\ fl_cursor f' = group_end (fl_cursor f) (checkpoint_group srtBytes extents)
    /\ (tidy f segs -> tidy f' (segs ++ group_segs (fl_globalSeq f + 1) (fl_cursor f)
                                           (checkpoint_group srtBytes extents))).
Proof.
  intros Hi Hsrt Hst Hgl Hsz Hez Hgs Hcs Hcur. unfold CheckpointWithGlobals.
  destruct (li_std _ _ (proj1 Hi)) as (_&_&_&Hk). rewrite Hk.
  destruct (SRT_Marshal srt ChecksumCRC32C) as [srtBytes|e|] eqn:Hm; [|done|done].
  pose proof (SRT_Marshal_len _ _ _ Hm) as Hlen. rewrite <- Hlen in Hsz.
  set (g := checkpoint_group srtBytes extents) in *.
  assert (Hg : Forall Pending_wf g) by (apply checkpoint_group_wf; lia).
  assert (zlen g <= 2) as Hg2 by (unfold g, checkpoint_group; destruct extents; done).
  destruct (AppendGroup f g) as [[f1 offs] r] eqn:Ha.
  destruct (AppendGroup_inv _ _ _ _ _ _ _ Hi Hg ltac:(lia) Ha) as (Hi1 & Ho & Hsr & Hle & Hnp & Hok).
  destruct r as [[]|e|]; [|done|done].
  destruct (Hok eq_refl) as (Hn & Hc1 & Hs1 & Ht1). rewrite Hn, <- (length_group_segs
    (fl_globalSeq f + 1) (fl_cursor f) g), take_ge in * by lia.
  pose proof (li_cursor _ _ (proj1 Hi)). pose proof (li_cursor _ _ (proj1 Hi1)).
  rewrite (checkpoint_meta_ok _ _ _ _ _ _ (fl_cursor f));
    [|rewrite Ho; apply group_offs_seq|done|done|done|lia|fold g; lia].
  destruct Hsr as (Hp1 & Hcs1 & Hls1 & _ & _).
  intros Hcm. apply (CommitRoots_ok _ _ _ _ _ Hi1) in Hcm as (Hi2 & Hls2 & Hcs2 & Hc2 & Hs2 & Hp2 & Ht2);
    [|apply checkpoint_root_wf; try done; lia|lia].
  exists srtBytes. split; [done|]. rewrite Hc2, Hs2, Hcs2, Hls2, Hp2, Hp1, Hls1, Hcs1.
  split_and!; try done; [|by auto].
  unfold stamp_meta, checkpoint_root in *. cbn in Hi2. rewrite Hcs1 in Hi2.
  pose proof (ParseMetaSlot_wf _ _ _ (proj1 (proj2 (proj1 (live_root_slots _ _ _ _) (proj1 (proj2 Hi)))))) as [Hu _].
  rewrite (proj2 (proj2 Hi)) in Hu. rewrite add64_small in Hi2 by lia. exact Hi2.
Qed.

(** On a healthy device with room a checkpoint succeeds. *)
Lemma CheckpointWithGlobals_healthy f m0 segs srt extents stats globals :
  file_inv f m0 segs -> healthy (fl_dev f) ->
  SRTHeaderLen + zlen (srt_Rows srt) * SRTRowSize < two32 -> zlen extents * ExtentSize < two32 ->
  fl_globalSeq f + 2 < two64 -> fl_cursor f + 4 * two32 < two63 ->
  exists f', CheckpointWithGlobals f srt extents stats globals = (f', Ok tt) /\ healthy (fl_dev f').
Proof.
  intros Hi Hh Hsz Hez Hgs Hcur. unfold CheckpointWithGlobals.
  destruct (li_std _ _ (proj1 Hi)) as (_&_&_&Hk). rewrite Hk.
  destruct (SRT_Marshal srt ChecksumCRC32C) as [srtBytes|e|] eqn:Hm;
    [|unfold SRT_Marshal, checksum_spans in Hm; by rewrite Z.eqb_refl in Hm..].
  pose proof (SRT_Marshal_len _ _ _ Hm) as Hlen. rewrite <- Hlen in Hsz.
  pose proof (li_cursor _ _ (proj1 Hi)).
  set (g := checkpoint_group srtBytes extents) in *.
  assert (Hg : Forall Pending_wf g) by (apply checkpoint_group_wf; lia).
  assert (zlen g <= 2) as Hg2 by (unfold g, checkpoint_group; destruct extents; done).
  assert (Hend : group_end (fl_cursor f) g < two63).
  { unfold g, checkpoint_group. pose proof (zlen_nonneg srtBytes). pose proof (zlen_nonneg extents).
    pose proof (proj1 (SegmentSpan_spec (zlen srtBytes) ltac:(lia))).
    destruct extents as [|e es]; cbn [group_end pending pn_Payload]; [lia|].
    rewrite zlen_MarshalExtents.
    pose proof (proj1 (SegmentSpan_spec (zlen (e :: es) * ExtentSize) ltac:(lia))). lia. }
  destruct (AppendGroup_healthy f m0 segs g Hi Hh Hg ltac:(lia) Hend) as (f1 & offs & Ha & Hh1).
  rewrite Ha.
  destruct (AppendGroup_inv _ _ _ _ _ _ _ Hi Hg ltac:(lia) Ha) as (Hi1 & Ho & _ & _ & _ & Hok).
  destruct (Hok eq_refl) as (Hn & _). rewrite Hn, <- (length_group_segs
    (fl_globalSeq f + 1) (fl_cursor f) g), take_ge in * by lia.
  rewrite (checkpoint_meta_ok _ _ _ _ _ _ (fl_cursor f));
    [|rewrite Ho; apply group_offs_seq|done|done|done|lia|fold g; lia].
  by eapply CommitRoots_healthy; [apply Hi1|].
Qed.

(** Recovery reads the committed table and extent map back. *)
Lemma checkpoint_reads f m0 segs srt extents stats globals f' :
  file_inv f m0 segs -> SRT_wf srt -> Forall Extent_wf extents ->
  CheckpointStats_wf stats -> CheckpointGlobals_wf globals ->
  SRTHeaderLen + zlen (srt_Rows srt) * SRTRowSize < two32 -> zlen extents * ExtentSize < two32 ->
  fl_globalSeq f + 2 < two64 -> fl_commitSeq f + 1 < two64 -> fl_cursor f < two63 ->
  zlen (srt_Rows srt) = px_ShardCount (fl_prefix f) ->
  CheckpointWithGlobals f srt extents stats globals = (f', Ok tt) ->
  zlen (contents (fl_dev f')) < two63 ->
  let m := checkpoint_root (fl_commitSeq f + 1) (fl_globalSeq f') (fl_cursor f) (fl_cursor f')
             srt extents stats globals in
  ReadOpenState (fl_dev f') =
    Ok {| os_Prefix := fl_prefix f; os_Meta := Some m; os_Which := 1 - fl_liveSlot f;
          os_Outcome := if ck_Clean stats then OpenClean else OpenCrashed |}
  /\ ReadSRT (fl_dev f') (fl_prefix f) (Some m) = Ok (Some srt)
  /\ ReadExtentTable (fl_dev f') (Some m) = Ok extents.
Proof.
  intros Hi Hsrt Hext Hst Hgl Hsz Hez Hgs Hcs Hcur Hrows Hck Hz m.
  destruct (CheckpointWithGlobals_ok _ _ _ _ _ _ _ _ Hi Hsrt Hst Hgl Hsz Hez Hgs Hcs Hcur Hck)
    as (srtBytes & Hm & Hi' & Hp & Hls & _ & _). fold m in Hi'.
  pose proof (SRT_Marshal_len _ _ _ Hm) as Hlen.
  pose proof (zlen_nonneg (srt_Rows srt)). pose proof (zlen_nonneg extents).
  destruct (li_std _ _ (proj1 Hi)) as (_&_&_&Hk).
  pose proof (fun s => read_payload f' m _ s Hi') as Hrd.
  split_and!.
  - rewrite (ReadOpenState_ok _ _ _ Hi'); [|right; by rewrite Hp].
    rewrite Hp, Hls. unfold m, checkpoint_root. cbn. by destruct (ck_Clean stats).
  - rewrite <- Hp. eapply (ReadSRT_ok f' m _ (mkSeg (fl_cursor f)
      (stamped (fl_globalSeq f + 1) (pending ShardOwnerless KindSRT 0 srtBytes)) srtBytes) srt m Hi');
      [unfold checkpoint_group; apply elem_of_app; right; left|done|done|done|by rewrite Hp|done|].
    unfold m, checkpoint_root. cbn [ms_SRTLen sg_payload]. by rewrite Hlen.
  - unfold ReadExtentTable, m, checkpoint_root. cbn. rewrite <- Hlen.
    destruct extents as [|e es]; [done|]. rewrite <- zlen_MarshalExtents.
    rewrite zlen_cons in *. pose proof (zlen_nonneg es).
    destruct (Z.eqb_spec (zlen (MarshalExtents (e :: es))) 0) as [E|].
    { rewrite zlen_MarshalExtents, zlen_cons in E. lia. }
    specialize (Hrd (mkSeg (fl_cursor f + SegmentSpan (zlen srtBytes))
      (stamped (fl_globalSeq f + 1 + 1) (pending ShardOwnerless KindExtentTable 0 (MarshalExtents (e :: es))))
      (MarshalExtents (e :: es)))).
    cbn [sg_payload sg_off] in Hrd. rewrite Hrd;
      [|unfold checkpoint_group; apply elem_of_app; right; right; left|done].
    by apply ParseExtents_Marshal_ok.
Qed.
End checkpoint.

(** ** Barriers *)

(** A segment the search for [wbar] passes over. *)
Definition not_cut (wbar : Z) (s : seg) : Prop :=
  sh_Kind (sg_hdr s) = KindBarrier ->
  forall bh, ParseBarrierHeader (sg_payload s) = Ok bh -> bh_Wbar bh <> wbar.

(** The barrier segment of a genuine cut. *)
Definition is_cut (wbar : Z) (bh : BarrierHeader) (rows : list BarrierShard) (s : seg) : Prop :=
  sh_Kind (sg_hdr s) = KindBarrier /\ sg_seq s = wbar /\ bh_Wbar bh = wbar
  /\ ParseBarrierHeader (sg_payload s) = Ok bh /\ BarrierShards (sg_payload s) bh = Ok rows
  /\ BarrierConsistent bh rows = true.

Definition data_seg (s : seg) : Prop := sh_Kind (sg_hdr s) <> KindBarrier.
#[global] Instance data_seg_dec s : Decision (data_seg s).
Proof. unfold data_seg. apply _. Defined.

Lemma fold_find_skip wbar st pre rest to :
  Forall (not_cut wbar) pre ->
  fold_visit (find_visit wbar) st (pre ++ rest) to = fold_visit (find_visit wbar) st rest to.
Proof.
  induction 1 as [|s pre Hs _ IH]; [done|]. cbn [app fold_visit]. rewrite <- IH.
  unfold find_visit at 1. destruct (Z.eqb_spec (sh_Kind (sg_hdr s)) KindBarrier) as [E|]; [|done].
  cbn [negb]. specialize (Hs E). pose proof (ParseBarrierHeader_no_panic (sg_payload s)) as Hp.
  unfold no_panic in Hp. destruct (ParseBarrierHeader (sg_payload s)) as [bh|e|]; [|done|done].
  specialize (Hs _ eq_refl). destruct (Z.eqb_spec (bh_Wbar bh) wbar); [done|]. done.
Qed.

Lemma find_visit_cut wbar bh rows s st :
  is_cut wbar bh rows s ->
  find_visit wbar st (sg_off s) (sg_hdr s) (sg_payload s)
  = VStop (mkFind (Some (bh, rows, sg_off s)) (fb_bad st)) errStopScan.
Proof.
  intros (Hk & Hq & Hw & Hp & Hr & Hc). unfold sg_seq in Hq. unfold find_visit.
  by rewrite Hk, Hp, Hr, Hq, Hw, Hc, !Z.eqb_refl.
Qed.

(** A replay cut at [wbar] sees the data segments up to it and nothing later. *)
Lemma fold_cut {St} (v : visitor St) wbar st pre later to :
  Forall (fun s => sg_seq s <= wbar) pre -> Forall (fun s => wbar < sg_seq s) later ->
  fold_visit (cut_visit wbar (Some v)) st (pre ++ later) to =
    match fold_visit v st (filter data_seg pre) to with
    | Ok (_, st', None) =>
        match later with
        | [] => Ok (to, st', None)
        | s :: _ => Ok (sg_off s, st', Some errStopScan)
        end
    | r => r
    end.
Proof.
  intros Hpre Hlat. revert st. induction Hpre as [|s pre Hs _ IH]; intros st.
  - rewrite filter_nil. cbn [app fold_visit]. destruct later as [|s later]; [done|].
    apply Forall_cons in Hlat as [Hs _]. cbn [fold_visit]. unfold cut_visit, sg_seq in *.
    by destruct (Z.ltb_spec wbar (sh_GlobalSeq (sg_hdr s))); [|lia].
  - cbn [app fold_visit]. unfold cut_visit at 1. unfold sg_seq in *.
    destruct (Z.ltb_spec wbar (sh_GlobalSeq (sg_hdr s))); [lia|].
    rewrite filter_cons. unfold data_seg at 1.
    destruct (Z.eqb_spec (sh_Kind (sg_hdr s)) KindBarrier) as [E|E].
    + rewrite decide_False by (by intros ?). apply IH.
    + rewrite decide_True by done. cbn [fold_visit].
      destruct (v st _ _ _); [apply IH|done|done].
Qed.

(** The sequences before and after a segment of a log. *)
Lemma seqs_around pre s later hi :
  seqs_ok (pre ++ s :: later) hi ->
  Forall (fun x => sg_seq x <= sg_seq s) pre /\ Forall (fun x => sg_seq s < sg_seq x) later.
Proof.
  intros [Hs _]. rewrite fmap_app, fmap_cons in Hs. induction pre as [|a pre IH].
  - split; [constructor|]. apply StronglySorted_inv in Hs as [_ Hs].
    exact (proj1 (Forall_fmap sg_seq (Z.lt (sg_seq s)) later) Hs).
  - rewrite fmap_cons in Hs. apply StronglySorted_inv in Hs as [Hs Ha].
    destruct (IH Hs) as [H1 H2]. split; [|done].
    constructor; [|done]. apply Forall_app in Ha as [_ Ha]. apply Forall_cons in Ha. lia.
Qed.

Section barriers.
Context {D : Type} `{DeviceLaws D}.
Implicit Types (f : File D).

(** [FindBarrier] over a log finds the first cut at its watermark. *)
Lemma FindBarrier_log (dev : D) prefix from size pre s later to wbar bh rows :
  readable dev -> 0 <= from -> size < two63 -> to < two63 ->
  log (contents dev) (px_ChecksumKind prefix) from (pre ++ s :: later) to ->
  (forall x, x ∈ pre ++ s :: later -> sg_off x + SegHeaderLen + zlen (sg_payload x) <= size) ->
  torn (contents dev) (px_ChecksumKind prefix) size to ->
  Forall (not_cut wbar) pre -> is_cut wbar bh rows s ->
  FindBarrier dev prefix from size wbar = Ok (bh, rows, sg_off s).
Proof.
  intros Hr Hf Hs Hto Hl Hfit Ht Hpre Hcut. unfold FindBarrier.
  rewrite (ReplayTail_log _ _ _ _ _ _ _ _ Hr Hf Hs Hto Hl Hfit Ht).
  rewrite fold_find_skip by done. cbn [fold_visit].
  rewrite (find_visit_cut _ _ _ _ _ Hcut). cbn [fb_bad fb_found].
  by rewrite decide_True.
Qed.

Lemma FindBarrier_none (dev : D) prefix from size segs to wbar :
  readable dev -> 0 <= from -> size < two63 -> to < two63 ->
  log (contents dev) (px_ChecksumKind prefix) from segs to ->
  (forall x, x ∈ segs -> sg_off x + SegHeaderLen + zlen (sg_payload x) <= size) ->
  torn (contents dev) (px_ChecksumKind prefix) size to ->
  Forall (not_cut wbar) segs ->
  FindBarrier dev prefix from size wbar = Err ErrNoBarrier.
Proof.
  intros Hr Hf Hs Hto Hl Hfit Ht Hpre. unfold FindBarrier.
  rewrite (ReplayTail_log _ _ _ _ _ _ _ _ Hr Hf Hs Hto Hl Hfit Ht).
  rewrite <- (app_nil_r segs), fold_find_skip by done. done.
Qed.

(** Writing a barrier: the cut takes the next sequence and lands as one
    owner-less segment. *)
Lemma WriteBarrier_ok f m segs shards f' off wbar :
  file_inv f m segs -> Forall BarrierShard_wf shards ->
  zlen shards * BarrierShardSize < max_alloc - 64 -> fl_globalSeq f + 1 < two64 ->
  WriteBarrier f shards = (f', Ok (off, wbar)) ->
  let bh := {| bh_Wbar := wbar; bh_ShardCount := zlen shards |} in
  let s := mkSeg off (stamped wbar (pending ShardOwnerless KindBarrier 0 (MarshalBarrier bh shards)))
             (MarshalBarrier bh shards) in
  wbar = fl_globalSeq f + 1 /\ off = fl_cursor f
  /\ file_inv f' m (segs ++ [s]) /\ is_cut wbar bh shards s
  /\ fl_globalSeq f' = wbar /\ fl_prefix f' = fl_prefix f
  /\ (tidy f segs -> tidy f' (segs ++ [s])).
Proof.
  intros Hi Hw Hz Hb. unfold WriteBarrier.
  pose proof (li_seq _ _ (proj1 Hi)). pose proof (zlen_nonneg shards).
  rewrite add64_small by lia. set (bh0 := {| bh_Wbar := fl_globalSeq f + 1; bh_ShardCount := _ |}).
  destruct (BarrierConsistent bh0 shards) eqn:Hc; [|done]. cbn [negb].
  set (p := pending _ _ _ _).
  assert (zlen (MarshalBarrier bh0 shards) = BarrierHeaderLen + zlen shards * BarrierShardSize) as Hlen.
  { rewrite MarshalBarrier_eq, zlen_app, zlen_encode_rows.
    by replace (zlen (put_BarrierHeader bh0)) with BarrierHeaderLen by (row_length put_BarrierHeader). }
  assert (Hg : Forall Pending_wf [p]).
  { constructor; [|constructor]. unfold Pending_wf, p, pending, ShardOwnerless, KindBarrier.
    cbn [pn_Shard pn_Kind pn_ShardSeq pn_PrevShardSeg pn_TTLClass pn_Flags pn_Payload].
    split_and!; lia. }
  destruct (AppendGroup f [p]) as [[f1 offs] r] eqn:Ha.
  assert (Hb1 : fl_globalSeq f + zlen [p] < two64) by (rewrite zlen_cons, zlen_nil; lia).
  destruct (AppendGroup_inv _ _ _ _ _ _ _ Hi Hg Hb1 Ha) as (Hi1 & Ho & Hsr & _ & _ & Hok).
  destruct offs as [|o offs]; destruct r as [[]|e|]; try done. intros [= <- <- <-].
  destruct (Hok eq_refl) as (Hn & _ & Hs1 & Ht). cbn [length] in *. injection Hn as Hn.
  destruct offs; [|done]. cbn [group_segs take fmap list_fmap] in *. injection Ho as Ho.
  rewrite Ho in *. split_and!; try done.
  - assert (BarrierHeader_wf bh0) as Hbh by (unfold BarrierHeader_wf; cbn; lia).
    destruct (MarshalBarrier_ok bh0 shards Hbh Hw eq_refl) as [Hp1 Hp2].
    by split_and!.
  - apply Hsr.
Qed.

(** A bounded replay over a log that holds the cut. *)
Lemma ReplayToBarrier_log {St} f m pre s later wbar bh rows (v : visitor St) st :
  file_inv f m (pre ++ s :: later) -> fl_cursor f < two63 ->
  Forall (not_cut wbar) pre -> is_cut wbar bh rows s ->
  ReplayToBarrier (fl_dev f) (fl_prefix f) PageSize (fl_cursor f) wbar (Some v) st
  = match fold_visit v st (filter data_seg pre) (fl_cursor f) with
    | Panic => (st, Panic)
    | Err e => (st, Err e)
    | Ok (_, st', None) => (st', Ok (bh, rows))
    | Ok (_, st', Some e) => (st', if decide (e = errStopScan) then Ok (bh, rows) else Err e)
    end.
Proof.
  intros [Hi _] Hc Hpre Hcut. destruct (li_std _ _ Hi) as (_ & _ & _ & Hk).
  pose proof (li_readable _ _ Hi) as Hr. pose proof (li_log _ _ Hi) as Hl. rewrite <- Hk in Hl.
  assert (Hfit : forall x, x ∈ pre ++ s :: later -> sg_off x + SegHeaderLen + zlen (sg_payload x) <= fl_cursor f)
    by (intros x Hx; by eapply log_fits).
  assert (Ht : torn (contents (fl_dev f)) (px_ChecksumKind (fl_prefix f)) (fl_cursor f) (fl_cursor f)) by (left; lia).
  assert (Hp : 0 <= PageSize) by done. unfold ReplayToBarrier.
  rewrite (FindBarrier_log _ _ _ _ pre s later _ _ _ _ Hr Hp Hc Hc Hl Hfit Ht Hpre Hcut).
  rewrite (ReplayTail_log _ _ _ _ _ _ _ _ Hr Hp Hc Hc Hl Hfit Ht).
  destruct (seqs_around _ _ _ _ (li_seqs _ _ Hi)) as [Hlo Hhi]. pose proof Hcut as (Hks & Hq & _).
  rewrite Hq in Hlo, Hhi.
  replace (pre ++ s :: later) with ((pre ++ [s]) ++ later) by (by rewrite <- app_assoc).
  rewrite fold_cut; [|apply Forall_app; split; [exact Hlo|constructor; [lia|constructor]]|done].
  assert (Hf : filter data_seg (pre ++ [s]) = filter data_seg pre).
  { rewrite filter_app, filter_cons, decide_False, filter_nil, app_nil_r; [done|]. by intros ?. }
  rewrite Hf. destruct (fold_visit v st _ _) as [[[c st'] [e|]]|e|]; [done| |done|done].
  destruct later; [done|]. by rewrite decide_True.
Qed.
End barriers.

(** ** Cross-checks *)

Definition row_agrees (row : SRTRow) (idx : IndexRebuilder) : bool :=
  (IndexRebuilder_Len idx =? sr_LiveRecords row) && (ir_SeqHigh idx =? sr_ShardSeqHigh row).

(** With an index per row the report has one entry for each shard whose row and
    index disagree. *)
Lemma drift_rows_ok rows : forall i idxs, (length rows <= length idxs)%nat ->
  exists ds, drift_rows i rows idxs = Ok ds /\
    forall d, d ∈ ds <-> exists n row idx, rows !! n = Some row /\ idxs !! n = Some idx
      /\ row_agrees row idx = false
      /\ d = {| dr_Shard := i + Z.of_nat n; dr_RowLiveRecords := sr_LiveRecords row;
                dr_CkptEntries := IndexRebuilder_Len idx; dr_RowSeqHigh := sr_ShardSeqHigh row;
                dr_CkptSeqHigh := ir_SeqHigh idx |}.
Proof.
  induction rows as [|row rows IH]; intros i idxs Hl.
  { exists []. split; [done|]. intros d. split; [by intros ?%elem_of_nil|by intros (n & ? & ? & ? & _)]. }
  destruct idxs as [|idx idxs]; [simpl in Hl; lia|]. cbn [drift_rows].
  destruct (IH (i + 1) idxs) as (ds & -> & Hds); [simpl in Hl; lia|].
  set (d0 := {| dr_Shard := i; dr_RowLiveRecords := sr_LiveRecords row;
    dr_CkptEntries := IndexRebuilder_Len idx; dr_RowSeqHigh := sr_ShardSeqHigh row; dr_CkptSeqHigh := ir_SeqHigh idx |}).
  assert (Hmem : forall d, (d = d0 /\ row_agrees row idx = false) \/ d ∈ ds <->
    exists n row' idx', (row :: rows) !! n = Some row' /\ (idx :: idxs) !! n = Some idx'
      /\ row_agrees row' idx' = false
      /\ d = {| dr_Shard := i + Z.of_nat n; dr_RowLiveRecords := sr_LiveRecords row';
                dr_CkptEntries := IndexRebuilder_Len idx'; dr_RowSeqHigh := sr_ShardSeqHigh row';
                dr_CkptSeqHigh := ir_SeqHigh idx' |}).
  { intros d. rewrite Hds. split.
    - intros [[-> Ha]|(n & r & x & ? & ? & ? & ->)].
      + exists 0%nat, row, idx. rewrite Z.add_0_r. by split_and!.
      + exists (S n), r, x. split_and!; try done. f_equal. lia.
    - intros ([|n] & r & x & Hr & Hx & Ha & ->).
      + injection Hr as <-. injection Hx as <-. left. split; [|done]. unfold d0. f_equal. lia.
      + right. exists n, r, x. split_and!; try done. f_equal. lia. }
  unfold row_agrees in Hmem at 1. destruct (_ && _).
  - exists ds. split; [done|]. intros d. rewrite <- Hmem. naive_solver.
  - exists (d0 :: ds). split; [done|]. intros d. rewrite <- Hmem, elem_of_cons. naive_solver.
Qed.

Section whole.
Context {D : Type} `{Device D}.

(** A recovery holds one table of each kind per row. *)
Lemma rebuild_rows_lengths (dev : D) prefix rows : forall tail ixs sss cds tf,
  rebuild_rows dev prefix rows tail = Ok (ixs, sss, cds, tf) ->
  length ixs = length rows /\ length sss = length rows /\ length cds = length rows
  /\ tf <= tail.
Proof.
  induction rows as [|row rows IH]; intros tail ixs sss cds tf; cbn [rebuild_rows].
  { intros [= <- <- <- <-]. split_and!; (done || lia). }
  destruct (RebuildShardIndex _ _ _) as [idx|e|]; [|done|done].
  destruct (RebuildShardSegStats _ _ _) as [ss|e|]; [|done|done].
  destruct (RebuildShardChunkDir _ _ _) as [cd|e|]; [|done|done].
  set (t := if _ && _ then _ else _). assert (t <= tail).
  { unfold t. destruct (Z.eqb_spec (sr_FirstTailSeg row) 0); [cbn; lia|].
    destruct (Z.ltb_spec (sr_FirstTailSeg row) tail); cbn; lia. }
  destruct (rebuild_rows dev prefix rows t) as [[[[a b] c] d]|e|] eqn:E; [|done|done].
  intros [= <- <- <- <-]. apply IH in E as (? & ? & ? & ?). simpl. split_and!; lia.
Qed.

Lemma Recover_lengths (dev : D) r srt :
  Recover dev = Ok r -> rc_SRT r = Some srt ->
  length (rc_Indexes r) = length (srt_Rows srt) /\ length (rc_SegStats r) = length (srt_Rows srt)
  /\ length (rc_ChunkDirs r) = length (srt_Rows srt).
Proof.
  unfold Recover. destruct (ReadOpenState dev) as [st|e|]; [|done|done].
  assert (forall s, os_Outcome st = s -> s <> OpenScanFallback ->
    forall k1 k2 : R Recovery, match s with OpenScanFallback => k1 | _ => k2 end = k2) as Hm
    by (intros [] ? ?; done).
  destruct (decide (os_Outcome st = OpenScanFallback)) as [E|E].
  { rewrite E. intros [= <-]. done. }
  rewrite (Hm _ eq_refl E).
  destruct (ReadSRT _ _ _) as [srt'|e|]; [|done|done].
  destruct (ReadTTLIndex _ _) as [ttl|e|]; [|done|done].
  destruct (ReadFreeMap _ _ _) as [fm|e|]; [|done|done].
  destruct (ReadMetaKV _ _ _) as [kv|e|]; [|done|done].
  destruct srt' as [s|]; [|by intros [= <-]]. destruct (os_Meta st) as [meta|]; [|done].
  destruct (rebuild_rows _ _ _ _) as [[[[a b] c] d]|e|] eqn:Er; [|done|done].
  intros [= <-] [= <-]. apply rebuild_rows_lengths in Er as (? & ? & ? & _). done.
Qed.
End whole.

(** The audit's totals are the sums of the shards'. *)
Definition sum64 (l : list Z) : Z := foldl add64 0 l.

Lemma DeadByteAudit_eq r :
  let per := map (fun ss => mkShardBytes (SegStats_TotalLiveBytes ss) (SegStats_TotalDeadBytes ss)) (rc_SegStats r) in
  Recovery_DeadByteAudit r
  = {| da_PerShard := per; da_TotalLive := sum64 (map sb_LiveBytes per);
       da_TotalDead := sum64 (map sb_DeadBytes per) |}.
Proof.
  unfold Recovery_DeadByteAudit, sum64. induction (rc_SegStats r) as [|ss l IH] using rev_ind; [done|].
  cbv zeta in *. by rewrite foldl_app, IH, !map_app, !foldl_app.
Qed.
