(* ===== verification/Regions.v ===== *)
(** The regions of the append space: record log, value log and cold chunks, with
    the accumulators that batch them (engine/f3/akifile/recordregion.go,
    valueregion.go, coldregion.go, recordwriter.go, valuewriter.go). *)

From S2P Require Import Prelude Loop Crc Format Rows Headers Tables Frames Device Scan File.

(** ** Walking the frames of a payload *)

(** [for cur := 0; cur < len(payload); cur = next]: [next payload cur] decodes the
    frame at [cur] and says where the following one starts. *)
Section walk.
Context {St X : Type} (next : bytes -> Z -> R (X * Z)) (visit : St -> X -> vres St).

Definition frames_body (payload : bytes) (s : Z * St) : (Z * St) + vres St :=
  let '(cur, st) := s in
  if negb (cur <? zlen payload) then inr (VCont st) else
  match next payload cur with
  | Panic => inr VPanic
  | Err e => inr (VStop st e)
  | Ok (x, nxt) =>
      match visit st x with
      | VPanic => inr VPanic
      | VStop st' e => inr (VStop st' e)
      | VCont st' => inl (nxt, st')
      end
  end.

Definition walk_frames (payload : bytes) (st : St) : vres St :=
  match loop (frames_body payload) fuel64 (0, st) with
  | inr r => r
  | inl _ => VPanic
  end.
End walk.

(** Framing a run of items into one payload: the payload and the frame of each. *)
Fixpoint frame_all {A F} (app : bytes -> A -> bytes * F) (dst : bytes) (l : list A) : bytes * list F :=
  match l with
  | [] => (dst, [])
  | a :: l' =>
      let '(dst1, fr) := app dst a in
      let '(dst2, frs) := frame_all app dst1 l' in
      (dst2, fr :: frs)
  end.

Section regions.
Context {D : Type} `{Device D}.
Implicit Types (f : File D).

(** The error of a tail walk, with the visitor's state. *)
Definition walk_segments {St} f (from : Z) (visit : visitor St) (st : St) : R (St * option error) :=
  let* '(_, st', err) := ReplayTail (fl_dev f) (fl_prefix f) from (fl_cursor f) (Some visit) st in
  Ok (st', err).

(** ** The record log *)

Definition record_next (payload : bytes) (cur : Z) : R ((Z * RecordRow) * Z) :=
  let* '(fr, row, nxt) := NextRecordFrame payload cur in Ok ((rf_FrameOff fr, row), nxt).

Definition WalkRecords {St} f (from : Z) (visit : St -> Z -> RecordRow -> vres St) (st : St)
  : R (St * option error) :=
  walk_segments f from
    (fun st off h payload =>
       if negb (sh_Kind h =? KindLog) then VCont st else
       let base := add64 off SegHeaderLen in
       walk_frames record_next (fun st '(fo, row) => visit st (add64 base fo) row) payload st) st.

Definition WalkShardRecords {St} f (shard from : Z) (visit : St -> Z -> RecordRow -> vres St) (st : St)
  : R (St * option error) :=
  walk_segments f from
    (fun st off h payload =>
       if negb (sh_Kind h =? KindLog) || negb (sh_Shard h =? shard) then VCont st else
       let base := add64 off SegHeaderLen in
       walk_frames record_next (fun st '(fo, row) => visit st (add64 base fo) row) payload st) st.

Definition ReadRecordAt f (addr : Z) : R RecordRow :=
  let '(hdr, err) := ReadAt (fl_dev f) MaxVarintLen64 (int64 addr) in
  if zlen hdr =? 0 then
    match err with
    | None | Some EOF => Err ErrShort
    | Some e => Err e
    end
  else
  let '(bl, adv) := Uvarint hdr in
  if (adv <=? 0) || (bl <? recRowHdr) then Err ErrLength else
  let need := add64 bl 4 in
  if max_alloc <? need then Panic else
  match ReadAt (fl_dev f) need (int64_add (int64 addr) adv) with
  | (_, Some e) => Err e
  | (buf, None) =>
      let* body := slice buf 0 bl in
      let* crc := u32at buf bl in
      if negb (crc32c body =? crc) then Err ErrChecksum else
      ParseRecordBody body
  end.

(** Reads every address, in order, stopping at the first error. *)
Fixpoint read_all {A} (read : A -> R bytes) (l : list A) : R (list bytes) :=
  match l with
  | [] => Ok []
  | a :: l' => let* v := read a in let* vs := read_all read l' in Ok (v :: vs)
  end.
Fixpoint read_rows f (addrs : list Z) : R (list RecordRow) :=
  match addrs with
  | [] => Ok []
  | a :: l' => let* row := ReadRecordAt f a in let* rows := read_rows f l' in Ok (row :: rows)
  end.

(** The one-segment append the region writers share, and the segment's payload
    base on success ([offs[0] + SegHeaderLen]). *)
Definition append_one_segment f (shard kind shardSeq : Z) (payload : bytes) : File D * R Z :=
  match AppendGroup f [pending shard kind shardSeq payload] with
  | (f, _, Err e) => (f, Err e)
  | (f, _, Panic) => (f, Panic)
  | (f, [], Ok _) => (f, Panic)
  | (f, off :: _, Ok _) => (f, Ok (add64 off SegHeaderLen))
  end.

Definition CompactRecords f (shard shardSeq : Z) (live : list Z) : File D * R (list Z) :=
  match live with
  | [] => (f, Ok [])
  | _ =>
      match read_rows f live with
      | Err e => (f, Err e)
      | Panic => (f, Panic)
      | Ok rows =>
          let '(payload, frames) := frame_all AppendRecordFrame [] rows in
          match append_one_segment f shard KindLog shardSeq payload with
          | (f, Err e) => (f, Err e)
          | (f, Panic) => (f, Panic)
          | (f, Ok base) => (f, Ok (map (fun fr => add64 base (rf_FrameOff fr)) frames))
          end
      end
  end.

(** ** The value log *)

Definition value_pointer (base : Z) (fr : ValueFrame) : ValuePointer :=
  {| vp_ValueOff := add64 base (vf_ValueOff fr); vp_ValueLen := vf_ValueLen fr;
     vp_ValueCRC := vf_CRC fr |}.

Definition AppendValues f (shard shardSeq : Z) (vals : list bytes) : File D * R (list ValuePointer) :=
  match vals with
  | [] => (f, Ok [])
  | _ =>
      let '(payload, frames) := frame_all AppendValueFrame [] vals in
      match append_one_segment f shard KindValueLog shardSeq payload with
      | (f, Err e) => (f, Err e)
      | (f, Panic) => (f, Panic)
      | (f, Ok base) => (f, Ok (map (value_pointer base) frames))
      end
  end.

(** The caller's [dst] only lends its storage, so it is not an argument. *)
Definition ReadValueAt f (p : ValuePointer) : R bytes :=
  match ReadAt (fl_dev f) (vp_ValueLen p) (int64 (vp_ValueOff p)) with
  | (_, Some e) => Err e
  | (dst, None) => if negb (crc32c dst =? vp_ValueCRC p) then Err ErrChecksum else Ok dst
  end.

Definition CompactValues f (shard shardSeq : Z) (live : list ValuePointer)
  : File D * R (list ValuePointer) :=
  match live with
  | [] => (f, Ok [])
  | _ =>
      match read_all (ReadValueAt f) live with
      | Err e => (f, Err e)
      | Panic => (f, Panic)
      | Ok vals =>
          let '(payload, frames) := frame_all AppendValueFrame [] vals in
          match append_one_segment f shard KindValueLog shardSeq payload with
          | (f, Err e) => (f, Err e)
          | (f, Panic) => (f, Panic)
          | (f, Ok base) => (f, Ok (map (value_pointer base) frames))
          end
      end
  end.

Definition value_next (payload : bytes) (cur : Z) : R (ValueFrame * Z) :=
  let* '(fr, _, nxt) := NextValueFrame payload cur in Ok (fr, nxt).

Definition WalkValues {St} f (from : Z) (visit : St -> ValuePointer -> vres St) (st : St)
  : R (St * option error) :=
  walk_segments f from
    (fun st off h payload =>
       if negb (sh_Kind h =? KindValueLog) then VCont st else
       let base := add64 off SegHeaderLen in
       walk_frames value_next (fun st fr => visit st (value_pointer base fr)) payload st) st.

Definition ReadValueFrameAt f (off valLen : Z) : R bytes :=
  let need := valLen + 4 in
  match ReadAt (fl_dev f) need (int64 off) with
  | (_, Some e) => Err e
  | (dst, None) =>
      let* val := slice dst 0 valLen in
      let* crc := u32at dst valLen in
      if negb (crc32c val =? crc) then Err ErrChecksum else Ok val
  end.

(** Fills [into], a buffer of [n] bytes. *)
Definition ReadValueRangeAt f (off n : Z) : bytes * option error :=
  ReadAt (fl_dev f) n (int64 off).

(** ** Cold chunks *)

Definition coldFrameTotal (payload : bytes) (off : Z) : R Z :=
  if zlen payload <? add64 off 4 then Err ErrShort else u32at payload off.

Lemma coldFrameTotal_no_panic payload off :
  zlen payload <= max_alloc -> 0 <= off <= zlen payload -> no_panic (coldFrameTotal payload off).
Proof.
  intros Hm Ho. unfold coldFrameTotal, no_panic. rewrite add64_small by lia.
  destruct (Z.ltb_spec (zlen payload) (off + 4)); [done|]. reads. done.
Qed.

(** [offs[i] = uint64(len(payload))] before each frame is appended. *)
Fixpoint cold_offs (at_ : Z) (frames : list bytes) : list Z :=
  match frames with
  | [] => []
  | fr :: frames' => at_ :: cold_offs (at_ + zlen fr) frames'
  end.

Definition AppendColdFrames f (shard shardSeq : Z) (frames : list bytes) : File D * R (list Z) :=
  match frames with
  | [] => (f, Ok [])
  | _ =>
      match append_one_segment f shard KindColdChunk shardSeq (concat frames) with
      | (f, Err e) => (f, Err e)
      | (f, Panic) => (f, Panic)
      | (f, Ok base) => (f, Ok (map (fun o => add64 o base) (cold_offs 0 frames)))
      end
  end.

Definition ReadColdFrame f (off : Z) : R bytes :=
  match ReadAt (fl_dev f) 4 (int64 off) with
  | (_, Some e) => Err e
  | (h, None) =>
      let* total := u32at h 0 in
      if total <? 4 then Err ErrLength else
      match ReadAt (fl_dev f) total (int64 off) with
      | (_, Some e) => Err e
      | (dst, None) => Ok dst
      end
  end.

Definition cold_next (payload : bytes) (cur : Z) : R ((Z * bytes) * Z) :=
  let* total := coldFrameTotal payload cur in
  if (total <? 4) || (zlen payload <? add64 cur total) then Err ErrShort else
  let* fr := slice payload cur (add64 cur total) in
  Ok ((cur, fr), add64 cur total).

Definition WalkColdFrames {St} f (from : Z) (visit : St -> Z -> bytes -> vres St) (st : St)
  : R (St * option error) :=
  walk_segments f from
    (fun st off h payload =>
       if negb (sh_Kind h =? KindColdChunk) then VCont st else
       let base := add64 off SegHeaderLen in
       walk_frames cold_next (fun st '(cur, fr) => visit st (add64 base cur) fr) payload st) st.
End regions.

(** ** The accumulators

    The writer's file is shared, so [Flush] takes it and returns it. *)

Record RecordLogWriter := mkRecordLogWriter {
  rw_shard : Z;
  rw_pending : bytes;
  rw_frames : list RecordFrame
}.

Definition NewRecordLogWriter (shard : Z) : RecordLogWriter := mkRecordLogWriter shard [] [].

Definition RecordLogWriter_Stage (w : RecordLogWriter) (row : RecordRow) : RecordLogWriter * Z :=
  let '(pending, fr) := AppendRecordFrame (rw_pending w) row in
  (mkRecordLogWriter (rw_shard w) pending (rw_frames w ++ [fr]), zlen (rw_frames w)).

Definition RecordLogWriter_Staged (w : RecordLogWriter) : Z := zlen (rw_frames w).
Definition RecordLogWriter_PendingBytes (w : RecordLogWriter) : Z := zlen (rw_pending w).

Definition RecordLogWriter_ReadStaged (w : RecordLogWriter) (idx : Z) : R RecordRow :=
  if (idx <? 0) || (zlen (rw_frames w) <=? idx) then Err ErrShort else
  match rw_frames w !! Z.to_nat idx with
  | None => Panic
  | Some fr =>
      let* body := slice (rw_pending w) (rf_BodyOff fr) (add64 (rf_BodyOff fr) (rf_BodyLen fr)) in
      ParseRecordBody body
  end.

Definition RecordLogWriter_Seal (w : RecordLogWriter) : RecordLogWriter * (bytes * list RecordFrame) :=
  match rw_frames w with
  | [] => (w, ([], []))
  | _ => (mkRecordLogWriter (rw_shard w) [] [], (rw_pending w, rw_frames w))
  end.

Record ValueLogWriter := mkValueLogWriter {
  vw_shard : Z;
  vw_pending : bytes;
  vw_frames : list ValueFrame
}.

Definition NewValueLogWriter (shard : Z) : ValueLogWriter := mkValueLogWriter shard [] [].

Definition ValueLogWriter_Stage (w : ValueLogWriter) (val : bytes) : ValueLogWriter * Z :=
  let '(pending, fr) := AppendValueFrame (vw_pending w) val in
  (mkValueLogWriter (vw_shard w) pending (vw_frames w ++ [fr]), zlen (vw_frames w)).

Definition ValueLogWriter_ReadStaged (w : ValueLogWriter) (idx : Z) : R bytes :=
  if (idx <? 0) || (zlen (vw_frames w) <=? idx) then Err ErrShort else
  match vw_frames w !! Z.to_nat idx with
  | None => Panic
  | Some fr => slice (vw_pending w) (vf_ValueOff fr) (add64 (vf_ValueOff fr) (vf_ValueLen fr))
  end.

Section flush_writers.
Context {D : Type} `{Device D}.

Definition RecordLogWriter_Flush (f : File D) (w : RecordLogWriter) (shardSeq : Z)
  : File D * RecordLogWriter * R (list Z) :=
  match rw_frames w with
  | [] => (f, w, Ok [])
  | _ =>
      match append_one_segment f (rw_shard w) KindLog shardSeq (rw_pending w) with
      | (f, Err e) => (f, w, Err e)
      | (f, Panic) => (f, w, Panic)
      | (f, Ok base) =>
          (f, mkRecordLogWriter (rw_shard w) [] [],
           Ok (map (fun fr => add64 base (rf_FrameOff fr)) (rw_frames w)))
      end
  end.

Definition ValueLogWriter_Flush (f : File D) (w : ValueLogWriter) (shardSeq : Z)
  : File D * ValueLogWriter * R (list ValuePointer) :=
  match vw_frames w with
  | [] => (f, w, Ok [])
  | _ =>
      match append_one_segment f (vw_shard w) KindValueLog shardSeq (vw_pending w) with
      | (f, Err e) => (f, w, Err e)
      | (f, Panic) => (f, w, Panic)
      | (f, Ok base) =>
          (f, mkValueLogWriter (vw_shard w) [] [], Ok (map (value_pointer base) (vw_frames w)))
      end
  end.
End flush_writers.

#[local] Opaque ParsePrefix ParseMetaSlot ParseSegHeader VerifyPayload crc32c ParseRecordBody.

(** ** Packed items *)

Section packing.
Context {A : Type} (enc : A -> bytes).

Definition pack (l : list A) : bytes := concat (map enc l).

Fixpoint offs_at (at_ : Z) (l : list A) : list Z :=
  match l with
  | [] => []
  | a :: l' => at_ :: offs_at (at_ + zlen (enc a)) l'
  end.

Lemma length_offs_at at_ l : length (offs_at at_ l) = length l.
Proof. revert at_. induction l as [|a l IH]; intros; simpl; [done|]. by rewrite IH. Qed.

(** Where each item sits. *)
Lemma pack_lookup pre l i a :
  l !! i = Some a ->
  exists o, offs_at (zlen pre) l !! i = Some o /\ zlen pre <= o
    /\ o + zlen (enc a) <= zlen (pre ++ pack l)
    /\ forall post, sl (pre ++ pack l ++ post) o (zlen (enc a)) = enc a.
Proof.
  revert pre i. induction l as [|b l IH]; intros pre i Hi; [done|].
  unfold pack in *. cbn [map concat offs_at].
  pose proof (zlen_nonneg (enc b)). pose proof (zlen_nonneg (concat (map enc l))).
  destruct i as [|i].
  - injection Hi as ->. exists (zlen pre). split_and!; [done|lia|rewrite !zlen_app; lia|].
    intros post. rewrite <- app_assoc. by apply sl_mid.
  - destruct (IH (pre ++ enc b) i Hi) as (o & Ho & Hge & Hle & Hs).
    rewrite zlen_app in Ho, Hge. exists o. rewrite <- app_assoc in Hle.
    split_and!; [done|lia|done|].
    intros post. rewrite <- app_assoc. specialize (Hs post). by rewrite <- app_assoc in Hs.
Qed.

(** An append that frames one item at the end of the buffer. *)
Context {F : Type} (app : bytes -> A -> bytes * F) (fr : Z -> A -> F).
Hypothesis app_eq : forall dst a, app dst a = (dst ++ enc a, fr (zlen dst) a).

Lemma frame_all_eq dst l :
  frame_all app dst l
  = (dst ++ pack l, zip_with fr (offs_at (zlen dst) l) l).
Proof.
  revert dst. induction l as [|a l IH]; intros dst; simpl; [by rewrite app_nil_r|].
  rewrite app_eq, IH, zlen_app, <- app_assoc. done.
Qed.

(** ** Walking packed items *)

Context {St X : Type} (next : bytes -> Z -> R (X * Z)) (visit : St -> X -> vres St)
  (item : Z -> A -> X) (wf : A -> Prop).
Hypothesis next_enc : forall pre a post,
  wf a -> zlen (pre ++ enc a ++ post) <= max_alloc ->
  next (pre ++ enc a ++ post) (zlen pre) = Ok (item (zlen pre) a, zlen (pre ++ enc a)).
Hypothesis next_step : forall payload cur,
  zlen payload <= max_alloc -> 0 <= cur <= zlen payload ->
  match next payload cur with
  | Ok (_, nxt) => cur < nxt <= zlen payload
  | Err _ => True
  | Panic => False
  end.
Hypothesis enc_pos : forall a, 0 < zlen (enc a).

Fixpoint fold_items (st : St) (xs : list X) : vres St :=
  match xs with
  | [] => VCont st
  | x :: xs' =>
      match visit st x with
      | VCont st' => fold_items st' xs'
      | r => r
      end
  end.

(** A walk ends on every payload. *)
Lemma frames_walk_terminates payload st :
  zlen payload <= max_alloc ->
  exists r, loop (frames_body next visit payload) fuel64 (0, st) = inr r.
Proof.
  intros Hl. pose proof (zlen_nonneg payload).
  destruct (loop_measure (frames_body next visit payload) (fun s => 0 <= s.1 <= zlen payload)
    (fun s => zlen payload - s.1) (fun _ => True) fuel64 (0, st)) as (r & Hr & _);
    [|cbn; lia|cbn; lia|eauto].
  intros [cur s] Hi. cbn [fst] in *. unfold frames_body.
  destruct (negb _); [done|]. specialize (next_step payload cur Hl ltac:(lia)).
  destruct (next payload cur) as [[x nxt]|e|]; [|done|done].
  destruct (visit s x); [|done|done]. cbn [fst]. lia.
Qed.

Lemma walk_frames_pack l st :
  Forall wf l -> zlen (pack l) <= max_alloc ->
  walk_frames next visit (pack l) st = fold_items st (zip_with item (offs_at 0 l) l).
Proof.
  intros Hwf Hm. destruct (frames_walk_terminates (pack l) st Hm) as [r Hr].
  unfold walk_frames.
  assert (forall suf pre st0, Forall wf suf -> pack l = pre ++ pack suf ->
    leaves (frames_body next visit (pack l)) (zlen pre, st0)
      (fold_items st0 (zip_with item (offs_at (zlen pre) suf) suf))) as Hgen.
  { induction suf as [|a suf IH]; intros pre st0 Hw E.
    - apply leaves_now. unfold frames_body. rewrite E. unfold pack at 1. simpl.
      rewrite app_nil_r. destruct (Z.ltb_spec (zlen pre) (zlen pre)); [lia|done].
    - apply Forall_cons in Hw as [Ha Hw]. cbn [offs_at zip_with fold_items].
      assert (pack (a :: suf) = enc a ++ pack suf) as Ec by done. rewrite Ec in E.
      assert (Hb : (zlen pre <? zlen (pack l)) = true).
      { rewrite E, !zlen_app. pose proof (enc_pos a). pose proof (zlen_nonneg (pack suf)). lia. }
      assert (Hn : next (pack l) (zlen pre) = Ok (item (zlen pre) a, zlen (pre ++ enc a))).
      { rewrite E. apply next_enc; [done|]. by rewrite <- E. }
      destruct (visit st0 (item (zlen pre) a)) as [st'|st' e|] eqn:Ev.
      + eapply leaves_step; [unfold frames_body; by rewrite Hb, Hn, Ev|].
        rewrite <- zlen_app. apply IH; [done|]. by rewrite <- app_assoc.
      + apply leaves_now. unfold frames_body. by rewrite Hb, Hn, Ev.
      + apply leaves_now. unfold frames_body. by rewrite Hb, Hn, Ev. }
  specialize (Hgen l [] st Hwf eq_refl). rewrite zlen_nil in Hgen.
  by rewrite (loop_eq _ _ _ _ _ Hr Hgen).
Qed.
End packing.

(** ** The three encodings *)

Definition rec_enc (row : RecordRow) : bytes :=
  PutUvarint (zlen (RecordBody row)) ++ RecordBody row ++ le_enc 4 (crc32c (RecordBody row)).
Definition rec_frame (off : Z) (row : RecordRow) : RecordFrame :=
  {| rf_FrameOff := off; rf_BodyOff := off + zlen (PutUvarint (zlen (RecordBody row)));
     rf_BodyLen := cast32 (zlen (RecordBody row)); rf_CRC := crc32c (RecordBody row) |}.

Definition val_enc (val : bytes) : bytes := PutUvarint (zlen val) ++ val ++ le_enc 4 (crc32c val).
Definition val_frame (off : Z) (val : bytes) : ValueFrame :=
  {| vf_FrameOff := off; vf_ValueOff := off + zlen (PutUvarint (zlen val));
     vf_ValueLen := cast32 (zlen val); vf_CRC := crc32c val |}.

Lemma AppendRecordFrame_enc dst row :
  AppendRecordFrame dst row = (dst ++ rec_enc row, rec_frame (zlen dst) row).
Proof. apply AppendRecordFrame_eq. Qed.

Lemma AppendValueFrame_enc dst val :
  AppendValueFrame dst val = (dst ++ val_enc val, val_frame (zlen dst) val).
Proof. apply AppendValueFrame_eq. Qed.

Lemma zlen_rec_enc row :
  zlen (rec_enc row) = zlen (PutUvarint (zlen (RecordBody row))) + zlen (RecordBody row) + 4.
Proof. unfold rec_enc. rewrite !zlen_app, zlen_le_enc. lia. Qed.

Lemma zlen_val_enc val : zlen (val_enc val) = zlen (PutUvarint (zlen val)) + zlen val + 4.
Proof. unfold val_enc. rewrite !zlen_app, zlen_le_enc. lia. Qed.

Lemma rec_enc_pos row : 0 < zlen (rec_enc row).
Proof. rewrite zlen_rec_enc. pose proof (zlen_nonneg (RecordBody row)).
  pose proof (zlen_PutUvarint (zlen (RecordBody row))). lia. Qed.

Lemma val_enc_pos val : 0 < zlen (val_enc val).
Proof. rewrite zlen_val_enc. pose proof (zlen_nonneg val).
  pose proof (zlen_PutUvarint (zlen val)). lia. Qed.

Lemma record_next_enc pre row post :
  RecordRow_wf row -> zlen (pre ++ rec_enc row ++ post) <= max_alloc ->
  record_next (pre ++ rec_enc row ++ post) (zlen pre)
  = Ok ((zlen pre, row), zlen (pre ++ rec_enc row)).
Proof.
  intros Hw Hm. pose proof (NextRecordFrame_put pre row post Hw) as Hn.
  rewrite AppendRecordFrame_enc in Hn. cbn [fst snd] in Hn. rewrite <- app_assoc in Hn.
  unfold record_next. by rewrite (Hn Hm).
Qed.

Lemma record_next_step payload cur :
  zlen payload <= max_alloc -> 0 <= cur <= zlen payload ->
  match record_next payload cur with
  | Ok (_, nxt) => cur < nxt <= zlen payload
  | Err _ => True
  | Panic => False
  end.
Proof.
  intros Hm Hc. unfold record_next.
  destruct (NextRecordFrame_step payload cur Hm ltac:(lia)) as [[e ->]|(fr & row & nxt & -> & _ & ?)]; done.
Qed.

Lemma value_next_enc pre val post :
  True -> zlen (pre ++ val_enc val ++ post) <= max_alloc ->
  value_next (pre ++ val_enc val ++ post) (zlen pre)
  = Ok (val_frame (zlen pre) val, zlen (pre ++ val_enc val)).
Proof.
  intros _ Hm. pose proof (NextValueFrame_put pre val post) as Hn.
  rewrite AppendValueFrame_enc in Hn. cbn [fst snd] in Hn. rewrite <- app_assoc in Hn.
  unfold value_next. by rewrite (Hn Hm).
Qed.

Lemma value_next_step payload cur :
  zlen payload <= max_alloc -> 0 <= cur <= zlen payload ->
  match value_next payload cur with
  | Ok (_, nxt) => cur < nxt <= zlen payload
  | Err _ => True
  | Panic => False
  end.
Proof.
  intros Hm Hc. unfold value_next.
  destruct (NextValueFrame_step payload cur Hm ltac:(lia)) as [[e ->]|(fr & val & nxt & -> & ? & _)]; done.
Qed.

(** A cold frame: its leading word is its own length. *)
Definition cold_ok (fr : bytes) : Prop := 4 <= zlen fr < two32 /\ sl fr 0 4 = le_enc 4 (zlen fr).

Lemma cold_total (w : bytes) pre fr post :
  cold_ok fr -> w = pre ++ fr ++ post -> le_dec (sl w (zlen pre) 4) = zlen fr.
Proof.
  intros [Hl He] ->. rewrite sl_app_r, Z.sub_diag by lia. rewrite sl_app_l, He by lia.
  apply le_dec_u32. lia.
Qed.

Lemma cold_next_enc pre fr post :
  cold_ok fr -> zlen (pre ++ fr ++ post) <= max_alloc ->
  cold_next (pre ++ fr ++ post) (zlen pre) = Ok ((zlen pre, fr), zlen (pre ++ fr)).
Proof.
  intros Hf Hm. pose proof (cold_total _ pre fr post Hf eq_refl) as Ht. destruct Hf as [Hl _].
  pose proof (zlen_nonneg pre). pose proof (zlen_nonneg post).
  assert (zlen (pre ++ fr ++ post) = zlen pre + zlen fr + zlen post) as Hz by (rewrite !zlen_app; lia).
  assert (sl (pre ++ fr ++ post) (zlen pre) (zlen fr) = fr) as Hs by (by apply sl_mid).
  set (w := pre ++ fr ++ post) in *. unfold cold_next, coldFrameTotal.
  rewrite (add64_small (zlen pre) 4) by lia.
  destruct (Z.ltb_spec (zlen w) (zlen pre + 4)); [lia|].
  rewrite u32at_ok, Ht by lia. rewrite (add64_small (zlen pre)) by lia.
  destruct ((zlen fr <? 4) || (zlen w <? zlen pre + zlen fr)) eqn:E; [lia|].
  rewrite slice_len, Hs by lia. by rewrite zlen_app.
Qed.

Lemma cold_next_step payload cur :
  zlen payload <= max_alloc -> 0 <= cur <= zlen payload ->
  match cold_next payload cur with
  | Ok (_, nxt) => cur < nxt <= zlen payload
  | Err _ => True
  | Panic => False
  end.
Proof.
  intros Hm Hc. unfold cold_next, coldFrameTotal.
  rewrite add64_small by lia. destruct (Z.ltb_spec (zlen payload) (cur + 4)); [done|].
  rewrite u32at_ok by lia. pose proof (le_dec_sl_range payload cur 4 two32 eq_refl ltac:(done)).
  set (t := le_dec _) in *. rewrite (add64_small cur t) by lia.
  destruct ((t <? 4) || (zlen payload <? cur + t)) eqn:E; [done|].
  rewrite slice_len by lia. lia.
Qed.

(** ** Appending a region segment and reading from it *)

Section region_io.
Context {D : Type} `{DeviceLaws D}.
Implicit Types (f : File D).

Definition region_seg f (shard kind shardSeq : Z) (payload : bytes) : seg :=
  mkSeg (fl_cursor f) (stamped (fl_globalSeq f + 1) (pending shard kind shardSeq payload)) payload.

Definition region_ok f (shard kind shardSeq : Z) (payload : bytes) : Prop :=
  is_u16 shard /\ is_u16 kind /\ is_u64 shardSeq /\ zlen payload <= max_alloc
  /\ fl_globalSeq f + 1 < two64.

Lemma append_one_segment_ok f m segs shard kind shardSeq payload f' base :
  file_inv f m segs -> region_ok f shard kind shardSeq payload -> fl_cursor f < two63 ->
  append_one_segment f shard kind shardSeq payload = (f', Ok base) ->
  file_inv f' m (segs ++ [region_seg f shard kind shardSeq payload])
  /\ base = fl_cursor f + SegHeaderLen
  /\ fl_cursor f' = fl_cursor f + SegmentSpan (zlen payload)
  /\ fl_prefix f' = fl_prefix f
  /\ keeps 0 (fl_cursor f) (contents (fl_dev f)) (contents (fl_dev f')).
Proof.
  intros Hi (?&?&?&?&?) Hc. unfold append_one_segment.
  set (p := pending shard kind shardSeq payload).
  assert (Hg : Forall Pending_wf [p]).
  { constructor; [|constructor]. unfold Pending_wf, p, pending.
    cbn [pn_Shard pn_Kind pn_ShardSeq pn_PrevShardSeg pn_TTLClass pn_Flags pn_Payload].
    split_and!; (done || lia). }
  assert (Hb : fl_globalSeq f + zlen [p] < two64) by (rewrite zlen_cons, zlen_nil; lia).
  destruct (AppendGroup f [p]) as [[f1 offs] r] eqn:Ha.
  destruct (AppendGroup_inv _ _ _ _ _ _ _ Hi Hg Hb Ha) as (Hi1 & Ho & Hsr & _ & _ & Hok).
  destruct offs as [|o offs]; destruct r as [[]|e|]; try done. intros [= <- <-].
  destruct (Hok eq_refl) as (Hn & Hcur & _ & _). cbn [length] in Hn. injection Hn as Hn.
  destruct offs; [|done]. cbn [length group_segs group_end take fmap list_fmap] in *.
  injection Ho as Ho. subst o. pose proof (li_cursor _ _ (proj1 Hi)).
  split_and!; try done; [|apply Hsr..].
  cbn [sg_off]. apply add64_small. lia.
Qed.

(** On a healthy device with room the append succeeds. *)
Lemma append_one_segment_healthy f m segs shard kind shardSeq payload :
  file_inv f m segs -> tidy f segs -> healthy (fl_dev f) -> region_ok f shard kind shardSeq payload ->
  fl_cursor f + SegmentSpan (zlen payload) < two63 ->
  exists f' base, append_one_segment f shard kind shardSeq payload = (f', Ok base)
    /\ healthy (fl_dev f') /\ zlen (contents (fl_dev f')) < two63.
Proof.
  intros Hi Ht Hh (?&?&?&?&?) Hc. unfold append_one_segment.
  set (p := pending shard kind shardSeq payload).
  assert (Hg : Forall Pending_wf [p]).
  { constructor; [|constructor]. unfold Pending_wf, p, pending.
    cbn [pn_Shard pn_Kind pn_ShardSeq pn_PrevShardSeg pn_TTLClass pn_Flags pn_Payload].
    split_and!; (done || lia). }
  assert (Hb : fl_globalSeq f + zlen [p] < two64) by (rewrite zlen_cons, zlen_nil; lia).
  destruct (AppendGroup_healthy f m segs [p] Hi Hh Hg Hb) as (f1 & offs & Ha & Hh1); [exact Hc|].
  destruct (AppendGroup_inv _ _ _ _ _ _ _ Hi Hg Hb Ha) as (_ & _ & _ & _ & _ & Hok).
  destruct (Hok eq_refl) as (Hn & Hcur & _ & Htd). rewrite Ha. destruct offs as [|o offs]; [done|].
  eexists f1, _. split_and!; [reflexivity|done|]. destruct (Htd Ht) as [Hz _].
  cbn [group_end] in Hcur. unfold p in Hcur. cbn [pending pn_Payload] in Hcur. lia.
Qed.

(** The payload of an appended segment is on the device. *)
Lemma payload_on_device f m segs s :
  file_inv f m segs -> s ∈ segs ->
  0 <= sg_off s /\ sg_off s + SegHeaderLen + zlen (sg_payload s) <= zlen (contents (fl_dev f))
  /\ sl (contents (fl_dev f)) (sg_off s + SegHeaderLen) (zlen (sg_payload s)) = sg_payload s.
Proof.
  intros [Hi _] Hin. by destruct (log_seg_at _ _ _ _ _ _ (li_log _ _ Hi) Hin) as (?&?&?&_&?&_).
Qed.

(** A slice of a payload, read at its absolute offset. *)
Lemma sl_payload (c payload : bytes) base o n x :
  0 <= base -> 0 <= o -> 0 <= n -> o + n <= zlen payload ->
  sl c base (zlen payload) = payload -> sl payload o n = x -> sl c (base + o) n = x.
Proof. intros ???? Hp <-. rewrite <- Hp. rewrite sl_sl by lia. done. Qed.

(** [ReadRecordAt] decodes a frame wherever one is on the device. *)
Lemma ReadRecordAt_ok f addr row :
  readable (fl_dev f) -> RecordRow_wf row -> 0 <= addr ->
  zlen (contents (fl_dev f)) < two63 ->
  addr + zlen (rec_enc row) <= zlen (contents (fl_dev f)) ->
  sl (contents (fl_dev f)) addr (zlen (rec_enc row)) = rec_enc row ->
  ReadRecordAt f addr = Ok row.
Proof.
  intros Hr Hw Ha Hz Hle Hs. pose proof (zlen_RecordBody row Hw) as Hb.
  rewrite zlen_rec_enc in *. set (c := contents (fl_dev f)) in *.
  set (body := RecordBody row) in *. set (u := PutUvarint (zlen body)) in *.
  pose proof (zlen_PutUvarint (zlen body)) as Hu. fold u in Hu.
  assert (recRowHdr = 24) as Hrh by done.
  assert (Hparts : sl c addr (zlen u) = u /\ sl c (addr + zlen u) (zlen body + 4)
                     = body ++ le_enc 4 (crc32c body)).
  { unfold rec_enc in Hs. fold body u in Hs.
    replace (zlen u + zlen body + 4) with (zlen u + (zlen body + 4)) in Hs by lia.
    rewrite sl_split in Hs by lia. apply app_inj_1 in Hs; [done|].
    apply Nat2Z.inj. apply (zlen_sl c addr (zlen u)); lia. }
  destruct Hparts as [Hpu Hpb].
  assert (exists err, ReadAt (fl_dev f) MaxVarintLen64 (int64 addr) = (sl c addr 10, err)) as [err E].
  { rewrite int64_small by lia. destruct (Z.le_gt_cases (addr + 10) (zlen c)).
    - exists None. apply read_inside; done || lia.
    - exists (Some EOF). apply read_past_end; done || lia. }
  unfold ReadRecordAt. rewrite E.
  replace 10 with (zlen u + (10 - zlen u)) by lia. rewrite sl_split, Hpu by lia.
  set (rest := sl c (addr + zlen u) (10 - zlen u)).
  destruct (Z.eqb_spec (zlen (u ++ rest)) 0) as [E0|].
  { rewrite zlen_app in E0. pose proof (zlen_nonneg rest). lia. }
  unfold u. rewrite Uvarint_Put by lia. fold u.
  destruct ((zlen u <=? 0) || (zlen body <? recRowHdr)) eqn:E1; [lia|].
  rewrite add64_small by lia. destruct (Z.ltb_spec max_alloc (zlen body + 4)); [lia|].
  rewrite int64_small by lia. rewrite int64_add_small by lia. rewrite read_inside; [|done|lia|lia|fold c; lia].
  fold c. rewrite Hpb.
  rewrite slice_n with (n := zlen body) by (rewrite ?zlen_app, ?zlen_le_enc; lia).
  rewrite sl_app_l, sl_all by lia.
  rewrite u32at_ok by (rewrite ?zlen_app, ?zlen_le_enc; lia).
  rewrite sl_end by (rewrite ?zlen_le_enc; done).
  rewrite le_dec_u32, Z.eqb_refl by apply crc32c_u32. by apply ParseRecordBody_put.
Qed.

Lemma ReadValueAt_ok f off val :
  readable (fl_dev f) -> 0 <= off -> zlen val < two32 ->
  zlen (contents (fl_dev f)) < two63 -> off + zlen val <= zlen (contents (fl_dev f)) ->
  sl (contents (fl_dev f)) off (zlen val) = val ->
  ReadValueAt f {| vp_ValueOff := off; vp_ValueLen := cast32 (zlen val); vp_ValueCRC := crc32c val |}
  = Ok val.
Proof.
  intros Hr Ho Hv Hz Hle Hs. unfold ReadValueAt. cbn [vp_ValueOff vp_ValueLen vp_ValueCRC].
  pose proof (zlen_nonneg val).
  rewrite cast32_small, int64_small, read_inside, Hs by (done || lia). by rewrite Z.eqb_refl.
Qed.

Lemma ReadColdFrame_ok f off fr :
  readable (fl_dev f) -> 0 <= off -> cold_ok fr ->
  zlen (contents (fl_dev f)) < two63 -> off + zlen fr <= zlen (contents (fl_dev f)) ->
  sl (contents (fl_dev f)) off (zlen fr) = fr -> ReadColdFrame f off = Ok fr.
Proof.
  intros Hr Ho [Hl He] Hz Hle Hs. unfold ReadColdFrame.
  rewrite int64_small, read_inside by (done || lia).
  assert (sl (contents (fl_dev f)) off 4 = le_enc 4 (zlen fr)) as ->.
  { rewrite <- He, <- Hs at 1. rewrite sl_sl by lia. by rewrite Z.add_0_r. }
  rewrite u32at_ok by (rewrite ?zlen_le_enc; lia).
  rewrite sl_all, le_dec_u32 by (rewrite ?zlen_le_enc; lia).
  destruct (Z.ltb_spec (zlen fr) 4); [lia|].
  by rewrite read_inside, Hs by (done || lia).
Qed.
End region_io.

(** ** Walks over a log *)

Lemma fold_items_app {St X} (visit : St -> X -> vres St) st xs ys :
  fold_items visit st (xs ++ ys)
  = match fold_items visit st xs with VCont st' => fold_items visit st' ys | r => r end.
Proof.
  revert st. induction xs as [|x xs IH]; intros st; simpl; [done|].
  destruct (visit st x); [apply IH|done|done].
Qed.

Section log_walk.
Context {D : Type} `{DeviceLaws D} {St X : Type}.
Implicit Types (f : File D).

(** The outcome of a walk, from the outcome of visiting the items in order. *)
Definition walk_result (r : vres St) : R (St * option error) :=
  match r with
  | VCont st => Ok (st, None)
  | VStop st e => Ok (st, Some e)
  | VPanic => Panic
  end.

Lemma fold_visit_items (v : visitor St) (visit : St -> X -> vres St) (items : seg -> list X) segs to st :
  (forall st s, s ∈ segs -> v st (sg_off s) (sg_hdr s) (sg_payload s) = fold_items visit st (items s)) ->
  (let* '(_, st', err) := fold_visit v st segs to in Ok (st', err))
  = walk_result (fold_items visit st (concat (map items segs))).
Proof.
  revert st. induction segs as [|s segs IH]; intros st Hv; [done|].
  cbn [fold_visit map concat]. rewrite Hv by left. rewrite fold_items_app.
  destruct (fold_items visit st (items s)); [|done|done].
  apply IH. intros. apply Hv. by right.
Qed.

(** A tail walk bounded by the cursor covers the whole log. *)
Lemma walk_segments_log f m segs (v : visitor St) (visit : St -> X -> vres St) (items : seg -> list X) st :
  file_inv f m segs -> fl_cursor f < two63 ->
  (forall st s, s ∈ segs -> v st (sg_off s) (sg_hdr s) (sg_payload s) = fold_items visit st (items s)) ->
  walk_segments f PageSize v st = walk_result (fold_items visit st (concat (map items segs))).
Proof.
  intros [Hi _] Hc Hv. destruct (li_std _ _ Hi) as (_&_&_&Hk).
  unfold walk_segments.
  rewrite (ReplayTail_log _ _ _ _ _ _ segs (fl_cursor f)); rewrite ?Hk.
  - by apply fold_visit_items.
  - apply Hi.
  - lia.
  - done.
  - done.
  - apply Hi.
  - intros s Hin. exact (log_fits _ _ _ _ _ _ (li_log _ _ Hi) Hin).
  - left. lia.
Qed.
End log_walk.

(** ** The regions keep what they are given *)

Section region_laws.
Context {D : Type} `{DeviceLaws D}.
Implicit Types (f : File D).

(** The records of a log: [rows] says what each log segment was cut from. *)
Definition log_records (rows : seg -> list RecordRow) (s : seg) : list (Z * RecordRow) :=
  if sh_Kind (sg_hdr s) =? KindLog
  then zip_with (fun o row => (sg_off s + SegHeaderLen + o, row)) (offs_at rec_enc 0 (rows s)) (rows s)
  else [].

Definition cut_from (rows : seg -> list RecordRow) (s : seg) : Prop :=
  sh_Kind (sg_hdr s) = KindLog ->
  sg_payload s = pack rec_enc (rows s) /\ Forall RecordRow_wf (rows s).

Lemma offs_at_bound {A} (enc : A -> bytes) at_ l o :
  o ∈ offs_at enc at_ l -> at_ <= o <= at_ + zlen (pack enc l).
Proof.
  revert at_. induction l as [|a l IH]; intros at_ Hin; [by apply elem_of_nil in Hin|].
  unfold pack in *. cbn [offs_at map concat] in *. rewrite zlen_app.
  pose proof (zlen_nonneg (enc a)). pose proof (zlen_nonneg (concat (map enc l))).
  apply elem_of_cons in Hin as [->|Hin]; [lia|]. apply IH in Hin. lia.
Qed.

(** Visiting frame offsets under a base is visiting absolute addresses. *)
Lemma fold_items_addr {St X} (visit : St -> Z -> X -> vres St) base (os : list Z) (xs : list X) st :
  (forall o, o ∈ os -> 0 <= base + o < two64) ->
  fold_items (fun st '(o, x) => visit st (add64 base o) x) st (zip_with pair os xs)
  = fold_items (fun st '(a, x) => visit st a x) st (zip_with (fun o x => (base + o, x)) os xs).
Proof.
  revert xs st. induction os as [|o os IH]; intros xs st Ho; [done|].
  destruct xs as [|x xs]; [done|]. cbn [zip_with fold_items].
  rewrite add64_small by (apply Ho; left).
  destruct (visit st (base + o) x); [|done|done]. apply IH. intros. apply Ho. by right.
Qed.

Lemma WalkRecords_log {St} f m segs rows (visit : St -> Z -> RecordRow -> vres St) st :
  file_inv f m segs -> fl_cursor f < two63 -> Forall (cut_from rows) segs ->
  WalkRecords f PageSize visit st
  = walk_result (fold_items (fun st '(a, row) => visit st a row) st
                   (concat (map (log_records rows) segs))).
Proof.
  intros Hi Hc Hcut. unfold WalkRecords. apply (walk_segments_log f m); [done|done|].
  intros st0 s Hin. unfold log_records.
  destruct (Z.eqb_spec (sh_Kind (sg_hdr s)) KindLog) as [E|]; [|done]. cbn [negb].
  rewrite Forall_forall in Hcut. destruct (Hcut s Hin E) as [Hp Hw].
  pose proof (log_offsets _ _ _ _ _ _ (li_log _ _ (proj1 Hi)) Hin).
  destruct (log_seg_at _ _ _ _ _ _ (li_log _ _ (proj1 Hi)) Hin) as (?&_&Hm&_).
  rewrite add64_small by lia. rewrite Hp in Hm |- *.
  rewrite (walk_frames_pack rec_enc record_next _ pair RecordRow_wf);
    [|apply record_next_enc|apply record_next_step|apply rec_enc_pos|done|done].
  apply fold_items_addr. intros o Ho. apply offs_at_bound in Ho. lia.
Qed.

(** What a shard's own replay sees. *)
Definition shard_records (shard : Z) (rows : seg -> list RecordRow) (s : seg) : list (Z * RecordRow) :=
  if sh_Shard (sg_hdr s) =? shard then log_records rows s else [].

Lemma WalkShardRecords_log {St} f m segs rows shard (visit : St -> Z -> RecordRow -> vres St) st :
  file_inv f m segs -> fl_cursor f < two63 -> Forall (cut_from rows) segs ->
  WalkShardRecords f shard PageSize visit st
  = walk_result (fold_items (fun st '(a, row) => visit st a row) st
                   (concat (map (shard_records shard rows) segs))).
Proof.
  intros Hi Hc Hcut. unfold WalkShardRecords. apply (walk_segments_log f m); [done|done|].
  intros st0 s Hin. unfold shard_records, log_records.
  destruct (Z.eqb_spec (sh_Kind (sg_hdr s)) KindLog) as [E|]; cycle 1.
  { cbn [negb orb]. by destruct (_ =? shard). }
  cbn [negb orb]. destruct (Z.eqb_spec (sh_Shard (sg_hdr s)) shard); [|done]. cbn [negb].
  rewrite Forall_forall in Hcut. destruct (Hcut s Hin E) as [Hp Hw].
  pose proof (log_offsets _ _ _ _ _ _ (li_log _ _ (proj1 Hi)) Hin).
  destruct (log_seg_at _ _ _ _ _ _ (li_log _ _ (proj1 Hi)) Hin) as (?&_&Hm&_).
  rewrite add64_small by lia. rewrite Hp in Hm |- *.
  rewrite (walk_frames_pack rec_enc record_next _ pair RecordRow_wf);
    [|apply record_next_enc|apply record_next_step|apply rec_enc_pos|done|done].
  apply fold_items_addr. intros o Ho. apply offs_at_bound in Ho. lia.
Qed.

(** ** Round trips *)

(** An item of a packed payload, at its absolute address. *)
Lemma packed_on_device {A} (enc : A -> bytes) f m segs s l i a :
  file_inv f m segs -> s ∈ segs -> sg_payload s = pack enc l -> l !! i = Some a ->
  exists o, offs_at enc 0 l !! i = Some o /\ 0 <= o /\ 0 <= sg_off s
    /\ sg_off s + SegHeaderLen + o + zlen (enc a) <= zlen (contents (fl_dev f))
    /\ sl (contents (fl_dev f)) (sg_off s + SegHeaderLen + o) (zlen (enc a)) = enc a.
Proof.
  intros Hi Hin Hp Ha. destruct (payload_on_device _ _ _ _ Hi Hin) as (Ho & Hle & Hs).
  rewrite Hp in Hle, Hs. destruct (pack_lookup enc [] l i a Ha) as (o & Hl & Hge & Hle2 & Hsl).
  rewrite zlen_nil in *. cbn [app] in *. specialize (Hsl []). rewrite app_nil_r in Hsl.
  pose proof (zlen_nonneg (enc a)). pose proof (zlen_nonneg (pack enc l)).
  exists o. split_and!; try done; try lia.
  eapply sl_payload; [| | | |exact Hs|exact Hsl]; lia.
Qed.

Lemma lookup_zip_map {A B C E} (g : B -> E) (h : A -> C -> B) (os : list A) (l : list C) i e :
  map g (zip_with h os l) !! i = Some e ->
  exists o c, os !! i = Some o /\ l !! i = Some c /\ e = g (h o c).
Proof.
  intros He. apply list_lookup_fmap_Some in He as (b & -> & Hb).
  apply lookup_zip_with_Some in Hb as (o & c & -> & ? & ?). eauto.
Qed.

(** Every address a flush publishes reads its record back. *)
Lemma flush_records_read f m segs shard shardSeq rows f' base :
  file_inv f m segs -> region_ok f shard KindLog shardSeq (pack rec_enc rows) ->
  fl_cursor f < two63 -> Forall RecordRow_wf rows ->
  append_one_segment f shard KindLog shardSeq (pack rec_enc rows) = (f', Ok base) ->
  zlen (contents (fl_dev f')) < two63 ->
  forall i addr,
    map (fun fr => add64 base (rf_FrameOff fr)) (zip_with rec_frame (offs_at rec_enc 0 rows) rows) !! i
      = Some addr ->
    exists row, rows !! i = Some row /\ ReadRecordAt f' addr = Ok row.
Proof.
  intros Hi Hok Hc Hw Ha Hz i addr Haddr.
  destruct (append_one_segment_ok _ _ _ _ _ _ _ _ _ Hi Hok Hc Ha) as (Hi' & -> & _).
  apply lookup_zip_map in Haddr as (o & row & Ho & Hrow & ->).
  destruct (packed_on_device rec_enc f' m _ (region_seg f shard KindLog shardSeq (pack rec_enc rows))
    rows i row Hi') as (o' & Ho' & ? & ? & Hle & Hs); [by apply elem_of_app; right; left|done|done|].
  rewrite Ho in Ho'. injection Ho' as <-. exists row. split; [done|].
  cbn [region_seg sg_off rec_frame rf_FrameOff] in *.
  pose proof (zlen_nonneg (rec_enc row)).
  rewrite add64_small by lia.
  apply ReadRecordAt_ok; try done; try lia; [apply Hi'|].
  by eapply Forall_lookup_1 in Hw.
Qed.

Lemma flush_values_read f m segs shard shardSeq vals f' base :
  file_inv f m segs -> region_ok f shard KindValueLog shardSeq (pack val_enc vals) ->
  fl_cursor f < two63 -> Forall (fun v => zlen v < two32) vals ->
  append_one_segment f shard KindValueLog shardSeq (pack val_enc vals) = (f', Ok base) ->
  zlen (contents (fl_dev f')) < two63 ->
  forall i p,
    map (value_pointer base) (zip_with val_frame (offs_at val_enc 0 vals) vals) !! i = Some p ->
    exists val, vals !! i = Some val /\ ReadValueAt f' p = Ok val.
Proof.
  intros Hi Hok Hc Hw Ha Hz i p Hp.
  destruct (append_one_segment_ok _ _ _ _ _ _ _ _ _ Hi Hok Hc Ha) as (Hi' & -> & _).
  apply lookup_zip_map in Hp as (o & val & Ho & Hval & ->).
  destruct (packed_on_device val_enc f' m _ (region_seg f shard KindValueLog shardSeq (pack val_enc vals))
    vals i val Hi') as (o' & Ho' & ? & ? & Hle & Hs); [by apply elem_of_app; right; left|done|done|].
  rewrite Ho in Ho'. injection Ho' as <-. exists val. split; [done|].
  cbn [region_seg sg_off] in *. rewrite zlen_val_enc in *.
  pose proof (zlen_nonneg val). pose proof (zlen_PutUvarint (zlen val)).
  unfold value_pointer, val_frame. cbn [vf_ValueOff vf_ValueLen vf_CRC].
  rewrite add64_small by lia.
  apply ReadValueAt_ok; try done; try lia; [apply Hi'|by eapply Forall_lookup_1 in Hw|].
  unfold val_enc in Hs. rewrite Z.add_assoc. eapply (sl_payload _ (PutUvarint (zlen val) ++ val ++ le_enc 4 (crc32c val)));
    [lia|lia|lia|rewrite !zlen_app, zlen_le_enc; lia| |by apply sl_mid].
  rewrite !zlen_app, zlen_le_enc. by replace (zlen (PutUvarint (zlen val)) + (zlen val + Z.of_nat 4))
    with (zlen (PutUvarint (zlen val)) + zlen val + 4) by lia.
Qed.

Lemma AppendColdFrames_read f m segs shard shardSeq frames f' offs :
  file_inv f m segs -> region_ok f shard KindColdChunk shardSeq (concat frames) ->
  fl_cursor f < two63 -> Forall cold_ok frames ->
  AppendColdFrames f shard shardSeq frames = (f', Ok offs) ->
  zlen (contents (fl_dev f')) < two63 ->
  length offs = length frames /\
  forall i off, offs !! i = Some off ->
    exists fr, frames !! i = Some fr /\ ReadColdFrame f' off = Ok fr.
Proof.
  intros Hi Hok Hc Hw Ha Hz. unfold AppendColdFrames in Ha.
  destruct frames as [|fr0 frames0]; [by simplify_eq|]. set (frames := fr0 :: frames0) in *.
  destruct (append_one_segment _ _ _ _ _) as [f1 [base|e|]] eqn:Ho; [|done|done].
  assert (offs = map (fun o => add64 o base) (cold_offs 0 frames)) as -> by congruence.
  assert (f1 = f') as -> by congruence. clear Ha.
  assert (forall at_ l, cold_offs at_ l = offs_at (fun b : bytes => b) at_ l) as Eo.
  { intros at_ l. revert at_. induction l as [|x l IH]; intros; simpl; [done|]. by rewrite IH. }
  assert (concat frames = pack (fun b : bytes => b) frames) as Ep by (unfold pack; by rewrite map_id).
  destruct (append_one_segment_ok _ _ _ _ _ _ _ _ _ Hi Hok Hc Ho) as (Hi' & -> & _).
  rewrite Eo. split; [by rewrite length_map, length_offs_at|].
  intros i off Hoff. apply list_lookup_fmap_Some in Hoff as (o & -> & Hl).
  destruct (lookup_lt_is_Some_2 frames i) as [fr Hfr].
  { apply lookup_lt_Some in Hl. by rewrite length_offs_at in Hl. }
  destruct (packed_on_device (fun b : bytes => b) f' m _
    (region_seg f shard KindColdChunk shardSeq (concat frames)) frames i fr Hi')
    as (o' & Ho' & ? & ? & Hle & Hs); [by apply elem_of_app; right; left|exact Ep|done|].
  rewrite Hl in Ho'. injection Ho' as <-. exists fr. split; [done|].
  cbn [region_seg sg_off] in *. pose proof (zlen_nonneg fr).
  rewrite add64_small by lia. rewrite (Z.add_comm o).
  apply ReadColdFrame_ok; try done; try lia; [apply Hi'|by eapply Forall_lookup_1 in Hw].
Qed.
End region_laws.

(** ** The accumulators hold exactly what was staged *)

Lemma pack_snoc {A} (enc : A -> bytes) l a : pack enc (l ++ [a]) = pack enc l ++ enc a.
Proof. unfold pack. rewrite map_app, concat_app. simpl. by rewrite app_nil_r. Qed.

Lemma offs_at_snoc {A} (enc : A -> bytes) at_ l a :
  offs_at enc at_ (l ++ [a]) = offs_at enc at_ l ++ [at_ + zlen (pack enc l)].
Proof.
  revert at_. induction l as [|b l IH]; intros at_; simpl.
  - unfold pack. simpl. rewrite zlen_nil. by rewrite Z.add_0_r.
  - rewrite IH. unfold pack. simpl. rewrite zlen_app. do 3 f_equal. lia.
Qed.

Definition record_writer_holds (w : RecordLogWriter) (rows : list RecordRow) : Prop :=
  rw_pending w = pack rec_enc rows
  /\ rw_frames w = zip_with rec_frame (offs_at rec_enc 0 rows) rows.

Definition value_writer_holds (w : ValueLogWriter) (vals : list bytes) : Prop :=
  vw_pending w = pack val_enc vals
  /\ vw_frames w = zip_with val_frame (offs_at val_enc 0 vals) vals.

Lemma zip_frames_length {A F} (enc : A -> bytes) (fr : Z -> A -> F) at_ l :
  length (zip_with fr (offs_at enc at_ l) l) = length l.
Proof. rewrite length_zip_with, length_offs_at. lia. Qed.

Lemma record_Stage_holds w rows row :
  record_writer_holds w rows ->
  record_writer_holds (RecordLogWriter_Stage w row).1 (rows ++ [row])
  /\ (RecordLogWriter_Stage w row).2 = zlen rows.
Proof.
  intros [Hp Hf]. unfold RecordLogWriter_Stage. rewrite AppendRecordFrame_enc. cbn [fst snd].
  split; [split; cbn [rw_pending rw_frames]|].
  - by rewrite pack_snoc, Hp.
  - rewrite offs_at_snoc, zip_with_app, Hf, Hp by apply length_offs_at. done.
  - rewrite Hf. unfold zlen. by rewrite zip_frames_length.
Qed.

Lemma value_Stage_holds w vals val :
  value_writer_holds w vals ->
  value_writer_holds (ValueLogWriter_Stage w val).1 (vals ++ [val])
  /\ (ValueLogWriter_Stage w val).2 = zlen vals.
Proof.
  intros [Hp Hf]. unfold ValueLogWriter_Stage. rewrite AppendValueFrame_enc. cbn [fst snd].
  split; [split; cbn [vw_pending vw_frames]|].
  - by rewrite pack_snoc, Hp.
  - rewrite offs_at_snoc, zip_with_app, Hf, Hp by apply length_offs_at. done.
  - rewrite Hf. unfold zlen. by rewrite zip_frames_length.
Qed.

(** A staged record is readable before the segment is cut. *)
Lemma record_ReadStaged w rows i row :
  record_writer_holds w rows -> zlen (pack rec_enc rows) <= max_alloc ->
  rows !! i = Some row -> RecordRow_wf row ->
  RecordLogWriter_ReadStaged w (Z.of_nat i) = Ok row.
Proof.
  intros [Hp Hf] Hm Hi Hw. pose proof (zlen_RecordBody row Hw) as Hb.
  unfold RecordLogWriter_ReadStaged. rewrite Nat2Z.id.
  pose proof (lookup_lt_Some _ _ _ Hi) as Hlt.
  assert (zlen (rw_frames w) = zlen rows) as Hl by (rewrite Hf; unfold zlen; by rewrite zip_frames_length).
  rewrite Hl. unfold zlen at 1. destruct ((Z.of_nat i <? 0) || _) eqn:E; [lia|].
  destruct (pack_lookup rec_enc [] rows i row Hi) as (o & Ho & Hge & Hle & Hs).
  rewrite zlen_nil in *. cbn [app] in *. specialize (Hs []). rewrite app_nil_r in Hs.
  assert (rw_frames w !! i = Some (rec_frame o row)) as ->.
  { rewrite Hf. apply lookup_zip_with_Some. eauto. }
  cbn [rec_frame rf_BodyOff rf_BodyLen]. rewrite Hp.
  set (body := RecordBody row) in *. set (u := PutUvarint (zlen body)) in *.
  pose proof (zlen_PutUvarint (zlen body)) as Hu. fold u in Hu.
  rewrite zlen_rec_enc in *. fold body u in Hle, Hs.
  rewrite cast32_small, add64_small by (unfold recRowHdr in *; lia).
  rewrite slice_len by (unfold recRowHdr in *; lia).
  assert (sl (pack rec_enc rows) (o + zlen u) (zlen body) = body) as ->.
  { eapply (sl_payload _ (rec_enc row)); [lia|lia|unfold recRowHdr in *; lia|rewrite zlen_rec_enc; fold body u; lia| |].
    - rewrite zlen_rec_enc. fold body u. exact Hs.
    - unfold rec_enc. fold body u. by apply sl_mid. }
  by apply ParseRecordBody_put.
Qed.
