(* ===== verification/GroupWriter.v ===== *)
(** The group-commit writer (engine/f3/akifile/groupwriter.go): S shard owners
    hand sealed batches to the one goroutine that owns the file.

    The channels and goroutines are a transition system: producers push and then
    ring the doorbell, the writer drains ring by ring, commits, parks, and serves
    barriers and the shutdown.  [gs_submitted] records the accepted batches,
    [gs_groups] the groups handed to [AppendGroup], each with the error it returned,
    [gs_calls] the completions in call order.  A batch counts as committed
    ([gs_committed]) when its group was handed to the append; what a commit that
    failed means for it is [outcome_ok] below. *)

From S2P Require Import Prelude Loop Crc Format Rows Headers Tables Frames Device Scan File Regions.

Record sealed := mkSealed {
  sd_shard : Z;
  sd_shardSeq : Z;
  sd_payload : bytes;
  sd_frames : list RecordFrame;
  sd_done : bool                    (* a non-nil completion *)
}.

(** ** Commit *)

Section commit.
Context {D : Type} `{Device D}.

Definition sealed_pending (b : sealed) : Pending :=
  pending (sd_shard b) KindLog (sd_shardSeq b) (sd_payload b).

Definition batch_addrs (off : Z) (b : sealed) : list Z :=
  let base := add64 off SegHeaderLen in
  map (fun fr => add64 base (rf_FrameOff fr)) (sd_frames b).

(** The completions of a landed group, in group order; [offs[i]] is checked. *)
Fixpoint resolve (group : list sealed) (offs : list Z) : R (list (sealed * R (list Z))) :=
  match group with
  | [] => Ok []
  | b :: group' =>
      if sd_done b then
        match offs with
        | [] => Panic
        | off :: offs' =>
            let* rest := resolve group' offs' in
            Ok ((b, Ok (batch_addrs off b)) :: rest)
        end
      else resolve group' (tail offs)
  end.

Definition commit (f : File D) (group : list sealed) : File D * R (list (sealed * R (list Z))) :=
  match AppendGroup f (map sealed_pending group) with
  | (f, _, Panic) => (f, Panic)
  | (f, _, Err e) => (f, Ok (map (fun b => (b, Err e)) (filter (fun b => sd_done b = true) group)))
  | (f, offs, Ok _) => (f, resolve group offs)
  end.

(** The error [w.f.AppendGroup(pend)] returned for a group. *)
Definition append_error (f : File D) (group : list sealed) : option error :=
  match AppendGroup f (map sealed_pending group) with
  | (_, _, Err e) => Some e
  | _ => None
  end.
End commit.

(** ** The state *)

(** Why the writer is draining: its main loop, a barrier (with the batches
    accepted when it was received), or the shutdown. *)
Inductive mode : Type :=
| MLoop
| MBarrier (snap : list sealed)
| MQuit.

Inductive wpc : Type :=
| PIdle                                               (* not started *)
| PDrain (i : nat) (group : list sealed) (m : mode)   (* at ring [i] of a pass *)
| PParked                                             (* in the select *)
| PExited.

Record gstate (D : Type) := mkG {
  gs_file : File D;
  gs_rings : list (list sealed);
  gs_cap : nat;
  gs_signal : bool;
  gs_quit : bool;
  gs_pc : wpc;
  gs_ringing : nat;           (* producers between the push and the doorbell *)
  gs_submitted : list sealed;
  gs_groups : list (list sealed * option error);
  gs_calls : list (sealed * R (list Z));
  gs_acks : list (option error)
}.
Arguments mkG {D}.
Arguments gs_file {D}. Arguments gs_rings {D}. Arguments gs_cap {D}. Arguments gs_signal {D}.
Arguments gs_quit {D}. Arguments gs_pc {D}. Arguments gs_ringing {D}.
Arguments gs_submitted {D}. Arguments gs_groups {D}. Arguments gs_calls {D}. Arguments gs_acks {D}.

(** The batches handed to the append, in order. *)
Definition gs_committed {D} (g : gstate D) : list sealed := concat (gs_groups g).*1.

Section writer.
Context {D : Type} `{Device D}.
Implicit Types (g : gstate D).

Definition NewGroupWriter (f : File D) (shards ring : Z) : gstate D :=
  let shards := if shards <? 1 then 1 else shards in
  let ring := if ring <? 1 then 1 else ring in
  {| gs_file := f; gs_rings := replicate (Z.to_nat shards) []; gs_cap := Z.to_nat ring;
     gs_signal := false; gs_quit := false; gs_pc := PIdle; gs_ringing := 0;
     gs_submitted := []; gs_groups := []; gs_calls := []; gs_acks := [] |}.

(** [w.begin.Do]: the first caller starts the goroutine. *)
Definition start g : gstate D :=
  match gs_pc g with
  | PIdle => mkG (gs_file g) (gs_rings g) (gs_cap g) (gs_signal g) (gs_quit g) (PDrain 0 [] MLoop)
               (gs_ringing g) (gs_submitted g) (gs_groups g) (gs_calls g) (gs_acks g)
  | _ => g
  end.

(** [Submit] up to the push: [Some true] when the ring took the batch, [Some
    false] when it is full, [None] when the shard has no ring (a panic). *)
Definition Submit_push g (b : sealed) : gstate D * option bool :=
  let g := start g in
  match gs_rings g !! Z.to_nat (sd_shard b) with
  | None => (g, None)
  | Some q =>
      if decide (length q < gs_cap g)%nat then
        (mkG (gs_file g) (<[Z.to_nat (sd_shard b) := q ++ [b]]> (gs_rings g)) (gs_cap g)
           (gs_signal g) (gs_quit g) (gs_pc g) (S (gs_ringing g))
           (gs_submitted g ++ [b]) (gs_groups g) (gs_calls g) (gs_acks g), Some true)
      else (g, Some false)
  end.

(** The rest of [Submit]: the doorbell, a capacity-one send that never blocks. *)
Definition Submit_bell g : gstate D :=
  mkG (gs_file g) (gs_rings g) (gs_cap g) true (gs_quit g) (gs_pc g) (pred (gs_ringing g))
    (gs_submitted g) (gs_groups g) (gs_calls g) (gs_acks g).

Definition with_pc g (pc : wpc) : gstate D :=
  mkG (gs_file g) (gs_rings g) (gs_cap g) (gs_signal g) (gs_quit g) pc (gs_ringing g)
    (gs_submitted g) (gs_groups g) (gs_calls g) (gs_acks g).

(** [if len(group) > 0 { w.commit(group) }] *)
Definition commit_group g (group : list sealed) : option (gstate D) :=
  match group with
  | [] => Some g
  | _ =>
      match commit (gs_file g) group with
      | (f, Ok calls) =>
          Some (mkG f (gs_rings g) (gs_cap g) (gs_signal g) (gs_quit g) (gs_pc g) (gs_ringing g)
                  (gs_submitted g) (gs_groups g ++ [(group, append_error (gs_file g) group)])
                  (gs_calls g ++ calls) (gs_acks g))
      | _ => None
      end
  end.

(** The end of a pass. *)
Definition finish g (group : list sealed) (m : mode) : option (gstate D) :=
  match commit_group g group with
  | None => None
  | Some g =>
      match m with
      | MLoop => Some (with_pc g (match group with [] => PParked | _ => PDrain 0 [] MLoop end))
      | MBarrier _ =>
          let '(f, e) := doSync (gs_file g) in
          Some (mkG f (gs_rings g) (gs_cap g) (gs_signal g) (gs_quit g) (PDrain 0 [] MLoop)
                  (gs_ringing g) (gs_submitted g) (gs_groups g) (gs_calls g) (gs_acks g ++ [e]))
      | MQuit => Some (with_pc g PExited)
      end
  end.

(** One drain step of the writer: take a batch, move to the next ring, or end
    the pass. *)
Definition drain_step g (i : nat) (group : list sealed) (m : mode) : option (gstate D) :=
  match gs_rings g !! i with
  | Some (b :: q) =>
      Some (mkG (gs_file g) (<[i := q]> (gs_rings g)) (gs_cap g) (gs_signal g) (gs_quit g)
              (PDrain i (group ++ [b]) m) (gs_ringing g) (gs_submitted g) (gs_groups g)
              (gs_calls g) (gs_acks g))
  | Some [] => Some (with_pc g (PDrain (S i) group m))
  | None => finish g group m
  end.

Inductive step : gstate D -> gstate D -> Prop :=
| step_push g b g' :
    gs_quit g = false -> Submit_push g b = (g', Some true) -> step g g'
| step_full g b g' :
    gs_quit g = false -> Submit_push g b = (g', Some false) -> step g g'
| step_bell g : (0 < gs_ringing g)%nat -> step g (Submit_bell g)
| step_drain g i group m g' :
    gs_pc g = PDrain i group m -> drain_step g i group m = Some g' -> step g g'
| step_wake g :
    gs_pc g = PParked -> gs_signal g = true ->
    step g (mkG (gs_file g) (gs_rings g) (gs_cap g) false (gs_quit g) (PDrain 0 [] MLoop)
              (gs_ringing g) (gs_submitted g) (gs_groups g) (gs_calls g) (gs_acks g))
| step_start_barrier g : gs_quit g = false -> step g (start g)
| step_barrier g :
    gs_pc g = PParked -> step g (with_pc g (PDrain 0 [] (MBarrier (gs_submitted g))))
| step_stop g :
    gs_pc g <> PIdle -> gs_ringing g = 0%nat ->
    step g (mkG (gs_file g) (gs_rings g) (gs_cap g) (gs_signal g) true (gs_pc g) (gs_ringing g)
              (gs_submitted g) (gs_groups g) (gs_calls g) (gs_acks g))
| step_quit g :
    gs_pc g = PParked -> gs_quit g = true -> step g (with_pc g (PDrain 0 [] MQuit)).

Inductive reachable (f : File D) (shards ring : Z) : gstate D -> Prop :=
| reach_new : reachable f shards ring (NewGroupWriter f shards ring)
| reach_step g g' : reachable f shards ring g -> step g g' -> reachable f shards ring g'.
End writer.

(** ** Invariants *)

(** The batches of one shard, in order. *)
Definition proj (k : nat) (l : list sealed) : list sealed :=
  filter (fun b => Z.to_nat (sd_shard b) = k) l.

Lemma proj_app k l1 l2 : proj k (l1 ++ l2) = proj k l1 ++ proj k l2.
Proof. apply filter_app. Qed.

Lemma proj_self k b : Z.to_nat (sd_shard b) = k -> proj k [b] = [b].
Proof. intros. unfold proj. rewrite filter_cons, filter_nil. by rewrite decide_True. Qed.

Lemma proj_other k b : Z.to_nat (sd_shard b) <> k -> proj k [b] = [].
Proof. intros. unfold proj. rewrite filter_cons, filter_nil. by rewrite decide_False. Qed.

(** The batches the writer has taken off the rings and not committed yet. *)
Definition in_flight (pc : wpc) : list sealed :=
  match pc with PDrain _ group _ => group | _ => [] end.

(** Computes fields of updated states and nothing else. *)
Ltac gsimpl :=
  unfold gs_committed in *;
  cbn [gs_file gs_rings gs_cap gs_signal gs_quit gs_pc gs_ringing gs_submitted gs_groups
       gs_calls gs_acks with_pc Submit_bell in_flight] in *.

Section invariant.
Context {D : Type} `{Device D}.
Implicit Types (g : gstate D).

(** Somebody will wake the writer. *)
Definition will_wake g : Prop := gs_signal g = true \/ (0 < gs_ringing g)%nat.

Definition pc_inv g : Prop :=
  match gs_pc g with
  | PIdle => forall j q, gs_rings g !! j = Some q -> q = []
  | PDrain i group MLoop =>
      group = [] ->
      forall j q, (j < i)%nat -> gs_rings g !! j = Some q -> q <> [] -> will_wake g
  | PDrain i group (MBarrier snap) =>
      forall k q, gs_rings g !! k = Some q ->
        proj k snap `prefix_of`
          proj k (gs_committed g) ++ proj k group ++ (if decide (k < i)%nat then [] else q)
  | PDrain i _ MQuit =>
      gs_quit g = true /\ forall j q, (j < i)%nat -> gs_rings g !! j = Some q -> q = []
  | PParked => forall j q, gs_rings g !! j = Some q -> q <> [] -> will_wake g
  | PExited => gs_quit g = true /\ forall j q, gs_rings g !! j = Some q -> q = []
  end.

Record ginv g : Prop := {
  gi_shard : forall k q, gs_rings g !! k = Some q -> Forall (fun b => Z.to_nat (sd_shard b) = k) q;
  gi_cap : forall k q, gs_rings g !! k = Some q -> (length q <= gs_cap g)%nat;
  gi_fifo : forall k q, gs_rings g !! k = Some q ->
    proj k (gs_submitted g) = proj k (gs_committed g) ++ proj k (in_flight (gs_pc g)) ++ q;
  gi_quit : gs_quit g = true -> gs_ringing g = 0%nat;
  gi_pc : pc_inv g
}.

Lemma ginv_new f shards ring : ginv (NewGroupWriter f shards ring).
Proof.
  unfold NewGroupWriter. constructor; gsimpl; try done; intros k q [-> _]%lookup_replicate_1;
    [done|simpl; lia|done|done].
Qed.

Lemma ginv_start g : ginv g -> ginv (start g).
Proof.
  intros Hg. unfold start. destruct (gs_pc g) eqn:E; try done.
  destruct Hg as [H1 H2 H3 H4 H5]. unfold pc_inv in H5. rewrite E in *.
  constructor; gsimpl; try done. unfold pc_inv. gsimpl. lia.
Qed.

Lemma ginv_push g b g' : gs_quit g = false -> Submit_push g b = (g', Some true) -> ginv g -> ginv g'.
Proof.
  intros Hq Hs Hg. unfold Submit_push in Hs. pose proof (ginv_start g Hg) as Hg1.
  assert (Hq1 : gs_quit (start g) = false) by (unfold start; by destruct (gs_pc g)).
  assert (Hpc : gs_pc (start g) <> PIdle) by (unfold start; by destruct (gs_pc g) eqn:E; rewrite ?E).
  generalize dependent (start g). intros g1 Hs Hg1 Hq1 Hpc. clear g Hg Hq.
  destruct (gs_rings g1 !! Z.to_nat (sd_shard b)) as [q|] eqn:Er; [|done].
  destruct (decide _) as [Hlt|]; [|done]. injection Hs as <-.
  destruct Hg1 as [H1 H2 H3 H4 H5].
  constructor; gsimpl.
  - intros k q' [(<- & <- & _)|(_ & Hk)]%list_lookup_insert_Some; [|by eapply H1].
    apply Forall_app. split; [by eapply H1|]. by constructor.
  - intros k q' [(<- & <- & _)|(_ & Hk)]%list_lookup_insert_Some; [|by eapply H2].
    rewrite length_app. simpl. lia.
  - intros k q' [(<- & <- & _)|(Hne & Hk)]%list_lookup_insert_Some; rewrite proj_app.
    + rewrite proj_self, (H3 _ _ Er), <- !app_assoc by done. done.
    + rewrite proj_other, app_nil_r by done. by apply H3.
  - rewrite Hq1. done.
  - unfold pc_inv, will_wake in *. gsimpl.
    destruct (gs_pc g1) as [|i group [|snap|]| |]; try done; try (intros; right; lia).
    all: try (destruct H5 as [Hq2 _]; congruence).
    all: intros k q' [(<- & <- & _)|(Hne & Hk)]%list_lookup_insert_Some; [|by apply H5].
    all: specialize (H5 _ _ Er); destruct (decide _); [done|].
    all: rewrite !app_assoc in *; by apply prefix_app_r.
Qed.

Lemma ginv_bell g : (0 < gs_ringing g)%nat -> ginv g -> ginv (Submit_bell g).
Proof.
  intros Hr [H1 H2 H3 H4 H5]. constructor; gsimpl; try done.
  - intros Hq. rewrite H4; done.
  - unfold pc_inv, will_wake in *. gsimpl.
    destruct (gs_pc g) as [|i group [|snap|]| |]; try done; by left.
Qed.

(** A commit moves the group to the committed batches and touches no channel. *)
Lemma commit_group_spec g group g' :
  commit_group g group = Some g' ->
  gs_rings g' = gs_rings g /\ gs_cap g' = gs_cap g /\ gs_signal g' = gs_signal g
  /\ gs_quit g' = gs_quit g /\ gs_ringing g' = gs_ringing g
  /\ gs_submitted g' = gs_submitted g /\ gs_committed g' = gs_committed g ++ group
  /\ gs_acks g' = gs_acks g.
Proof.
  unfold commit_group. destruct group as [|b group].
  - intros [= <-]. by rewrite app_nil_r.
  - destruct (commit _ _) as [f [calls|e|]]; [|done|done]. intros [= <-]. split_and!; try done.
    unfold gs_committed. cbn [gs_groups]. rewrite fmap_app, concat_app. cbn. by rewrite app_nil_r.
Qed.

(** The state after a pass that found every ring drained. *)
Lemma finish_spec g group m g' :
  finish g group m = Some g' ->
  gs_rings g' = gs_rings g /\ gs_cap g' = gs_cap g /\ gs_signal g' = gs_signal g
  /\ gs_quit g' = gs_quit g /\ gs_ringing g' = gs_ringing g
  /\ gs_submitted g' = gs_submitted g /\ gs_committed g' = gs_committed g ++ group
  /\ gs_pc g' = match m with
                | MLoop => match group with [] => PParked | _ => PDrain 0 [] MLoop end
                | MBarrier _ => PDrain 0 [] MLoop
                | MQuit => PExited
                end.
Proof.
  unfold finish. destruct (commit_group g group) as [g1|] eqn:E; [|done].
  apply commit_group_spec in E as (E1&E2&E3&E4&E5&E6&E7&E8).
  destruct m; [by intros [= <-]| |by intros [= <-]].
  destruct (doSync _) as [f e]. by intros [= <-].
Qed.

Lemma finish_groups g b group m g' :
  finish g (b :: group) m = Some g' ->
  gs_groups g' = gs_groups g ++ [(b :: group, append_error (gs_file g) (b :: group))].
Proof.
  unfold finish, commit_group. destruct (commit _ _) as [f [calls|e|]]; [|done|done].
  destruct m; [by intros [= <-]| |by intros [= <-]]. destruct (doSync _). by intros [= <-].
Qed.

Lemma ginv_finish g i group m g' :
  gs_pc g = PDrain i group m -> gs_rings g !! i = None ->
  finish g group m = Some g' -> ginv g -> ginv g'.
Proof.
  intros Hpc Hi Hf [H1 H2 H3 H4 H5].
  apply finish_spec in Hf as (E1&E2&E3&E4&E5&E6&E7&E8).
  assert (Hlt : forall k q, gs_rings g !! k = Some q -> (k < i)%nat).
  { intros k q Hk. apply lookup_lt_Some in Hk. apply lookup_ge_None in Hi. lia. }
  rewrite Hpc in H3. unfold pc_inv, will_wake in H5. rewrite Hpc in H5. gsimpl.
  constructor; rewrite ?E1, ?E2, ?E4, ?E5, ?E6, ?E7; try done.
  - intros k q Hk. unfold gs_committed. rewrite E7, (H3 k q Hk), proj_app, <- app_assoc. f_equal.
    rewrite E8. destruct m; [destruct group|..]; done.
  - unfold pc_inv, will_wake. rewrite E8, E1, E3, E4, E5.
    destruct m as [|snap|]; [destruct group as [|b group]|..]; try (intros; lia).
    + intros j q Hj. by apply (H5 eq_refl j q (Hlt j q Hj)).
    + destruct H5 as [Hq H5]. split; [done|]. intros j q Hj. apply (H5 j q (Hlt j q Hj) Hj).
Qed.

Lemma ginv_drain g i group m g' :
  gs_pc g = PDrain i group m -> drain_step g i group m = Some g' -> ginv g -> ginv g'.
Proof.
  intros Hpc Hd Hg. unfold drain_step in Hd.
  destruct (gs_rings g !! i) as [[|b q]|] eqn:Hi; [| |by eapply ginv_finish];
    injection Hd as <-; destruct Hg as [H1 H2 H3 H4 H5];
    unfold pc_inv, will_wake in H5; rewrite Hpc in *; gsimpl.
  - (* an empty ring: the pass moves on *)
    constructor; gsimpl; try done. unfold pc_inv, will_wake. gsimpl.
    assert (Hnew : forall j q, (j < S i)%nat -> gs_rings g !! j = Some q -> (j < i)%nat \/ q = []).
    { intros j q Hj Hjq. destruct (decide (j = i)) as [->|]; [right; congruence|left; lia]. }
    destruct m as [|snap|].
    + intros He j q Hj Hjq Hne. destruct (Hnew j q Hj Hjq) as [|]; [eauto|done].
    + intros k q Hk. specialize (H5 k q Hk).
      destruct (decide (k < i)%nat), (decide (k < S i)%nat); try done; [lia|].
      assert (k = i) as -> by lia. rewrite Hi in Hk. by injection Hk as <-.
    + destruct H5 as [Hq H5]. split; [done|]. intros j q Hj Hjq.
      destruct (Hnew j q Hj Hjq) as [|]; [eauto|done].
  - (* a batch off the ring *)
    pose proof (H1 i _ Hi) as Hb. apply Forall_cons in Hb as [Hbk Hq].
    constructor; gsimpl.
    + intros k q' [(<- & <- & _)|(_ & Hk)]%list_lookup_insert_Some; [done|by eapply H1].
    + intros k q' [(<- & <- & _)|(_ & Hk)]%list_lookup_insert_Some; [|by eapply H2].
      specialize (H2 i _ Hi). simpl in H2. lia.
    + intros k q' [(<- & <- & _)|(Hne & Hk)]%list_lookup_insert_Some; rewrite proj_app.
      * rewrite proj_self, (H3 _ _ Hi), <- !app_assoc by done. done.
      * rewrite proj_other, app_nil_r by congruence. by apply H3.
    + done.
    + unfold pc_inv, will_wake. gsimpl.
      destruct m as [|snap|]; [by intros []%app_eq_nil|..].
      * intros k q' [(<- & <- & _)|(Hne & Hk)]%list_lookup_insert_Some; rewrite proj_app.
        -- specialize (H5 _ _ Hi). rewrite proj_self by done.
           destruct (decide (i < i)%nat); [lia|]. by rewrite <- app_assoc.
        -- rewrite (proj_other k b), app_nil_r by congruence. by apply H5.
      * destruct H5 as [Hqt H5]. split; [done|].
        intros j q' Hj [(<- & <- & _)|(Hne & Hk)]%list_lookup_insert_Some; [lia|eauto].
Qed.

Lemma ginv_step g g' : step g g' -> ginv g -> ginv g'.
Proof.
  intros Hs Hg. destruct Hs.
  - by eapply ginv_push.
  - assert (g' = start g) as ->.
    { unfold Submit_push in *. destruct (gs_rings (start g) !! _); [|done].
      by destruct (decide _); simplify_eq. }
    by apply ginv_start.
  - by apply ginv_bell.
  - by eapply ginv_drain.
  - destruct Hg as [I1 I2 I3 I4 I5]. rewrite H0 in I3. constructor; gsimpl; try done.
    unfold pc_inv. gsimpl. lia.
  - by apply ginv_start.
  - destruct Hg as [I1 I2 I3 I4 I5]. rewrite H0 in I3. constructor; gsimpl; try done.
    unfold pc_inv. gsimpl. intros k q Hk. rewrite (I3 k q Hk).
    by destruct (decide (k < 0)%nat); [lia|].
  - destruct Hg as [I1 I2 I3 I4 I5]. constructor; gsimpl; try done.
    unfold pc_inv, will_wake in *. gsimpl.
    destruct (gs_pc g) as [|i group [|snap|]| |]; try done; by destruct I5.
  - destruct Hg as [I1 I2 I3 I4 I5]. rewrite H0 in I3. constructor; gsimpl; try done.
    unfold pc_inv. gsimpl. split; [done|]. lia.
Qed.

Lemma reachable_ginv f shards ring g : reachable f shards ring g -> ginv g.
Proof. induction 1; [apply ginv_new|by eapply ginv_step]. Qed.
End invariant.

(** ** Barriers *)

Section barrier.
Context {D : Type} `{Device D}.
Implicit Types (g : gstate D).

(** At the end of a barrier's pass everything accepted before it has been handed
    to the append, in order. *)
Lemma barrier_prefix f shards ring g i group snap g' k q :
  reachable f shards ring g -> gs_pc g = PDrain i group (MBarrier snap) -> gs_rings g !! i = None ->
  drain_step g i group (MBarrier snap) = Some g' -> gs_rings g !! k = Some q ->
  proj k snap `prefix_of` proj k (gs_committed g').
Proof.
  intros Hr%reachable_ginv Hp Hn Hd Hk. unfold drain_step in Hd. rewrite Hn in Hd.
  apply finish_spec in Hd as (_ & _ & _ & _ & _ & _ & Hc & _).
  pose proof (gi_pc _ Hr) as Hi. unfold pc_inv in Hi. rewrite Hp in Hi. specialize (Hi k q Hk).
  rewrite Hc, proj_app. apply lookup_ge_None in Hn. apply lookup_lt_Some in Hk.
  destruct (decide (k < i)%nat); [|lia]. by rewrite app_nil_r in Hi.
Qed.

(** The flush comes last and its result is the answer. *)
Lemma barrier_flushes g i group snap g' :
  gs_rings g !! i = None -> drain_step g i group (MBarrier snap) = Some g' ->
  exists f1 e, doSync f1 = (gs_file g', e) /\ gs_acks g' = gs_acks g ++ [e].
Proof.
  intros Hn Hd. unfold drain_step in Hd. rewrite Hn in Hd. unfold finish in Hd.
  destruct (commit_group g group) as [g1|] eqn:Ec; [|done].
  apply commit_group_spec in Ec as (_ & _ & _ & _ & _ & _ & _ & Ea).
  destruct (doSync (gs_file g1)) as [f2 e] eqn:Es. injection Hd as <-.
  exists (gs_file g1), e. cbn. by rewrite Ea.
Qed.
End barrier.

(** ** Publishing *)

(** A batch sealed by a record accumulator that held [rows]. *)
Definition batch_of (b : sealed) (rows : list RecordRow) : Prop :=
  sd_payload b = pack rec_enc rows
  /\ sd_frames b = zip_with rec_frame (offs_at rec_enc 0 rows) rows
  /\ Forall RecordRow_wf rows /\ is_u16 (sd_shard b) /\ is_u64 (sd_shardSeq b)
  /\ zlen (sd_payload b) <= max_alloc.

Lemma batch_pending_wf b rows : batch_of b rows -> Pending_wf (sealed_pending b).
Proof.
  intros (_ & _ & _ & ? & ? & ?). unfold Pending_wf, sealed_pending, pending, KindLog.
  cbn [pn_Shard pn_Kind pn_ShardSeq pn_PrevShardSeg pn_TTLClass pn_Flags pn_Payload].
  split_and!; (done || lia).
Qed.

Lemma resolve_spec group : forall seq cursor calls b r,
  resolve group (sg_off <$> group_segs seq cursor (map sealed_pending group)) = Ok calls ->
  (b, r) ∈ calls ->
  b ∈ group /\ exists s, s ∈ group_segs seq cursor (map sealed_pending group)
    /\ sg_payload s = sd_payload b /\ r = Ok (batch_addrs (sg_off s) b).
Proof.
  induction group as [|b0 group IH]; intros seq cursor calls b r Hr Hin.
  - simpl in Hr. simplify_eq. by apply elem_of_nil in Hin.
  - cbn [resolve map group_segs fmap list_fmap] in *. cbn [sg_off tail] in Hr.
    assert (Hrec : forall calls', resolve group (sg_off <$> group_segs (seq + 1)
              (cursor + SegmentSpan (zlen (pn_Payload (sealed_pending b0)))) (map sealed_pending group))
              = Ok calls' -> (b, r) ∈ calls' ->
            b ∈ b0 :: group /\ exists s, s ∈ mkSeg cursor (stamped seq (sealed_pending b0))
              (pn_Payload (sealed_pending b0)) :: group_segs (seq + 1)
              (cursor + SegmentSpan (zlen (pn_Payload (sealed_pending b0)))) (map sealed_pending group)
              /\ sg_payload s = sd_payload b /\ r = Ok (batch_addrs (sg_off s) b)).
    { intros calls' Hc Hi. destruct (IH _ _ _ _ _ Hc Hi) as (Hb & s & Hs & ? & ?).
      split; [by right|]. exists s. split; [by right|done]. }
    destruct (sd_done b0); [|by apply (Hrec calls)].
    destruct (resolve group _) as [rest|e|] eqn:E; [|done|done]. injection Hr as <-.
    apply elem_of_cons in Hin as [Heq|Hin]; [|by apply (Hrec rest)].
    injection Heq as -> ->. split; [by left|]. eexists. split; [by left|]. done.
Qed.

Lemma resolve_total group : forall offs,
  length offs = length group -> exists calls, resolve group offs = Ok calls
    /\ calls.*1 = filter (fun b => sd_done b = true) group.
Proof.
  induction group as [|b group IH]; intros offs Hl; [by exists []|].
  destruct offs as [|off offs]; [done|]. injection Hl as Hl.
  destruct (IH offs Hl) as (calls & Hc & Hf). cbn [resolve tail].
  rewrite filter_cons. destruct (sd_done b) eqn:E.
  - rewrite Hc, decide_True by done. eexists. split; [done|]. by rewrite fmap_cons, Hf.
  - rewrite decide_False by done. eauto.
Qed.

Section publish.
Context {D : Type} `{DeviceLaws D}.

(** A commit never panics, completes each batch that asked for it exactly once
    and in group order.  When the append returns an error every completion gets
    that error; when it succeeds the group is in the log and the completions hand
    out addresses that all read back. *)
Lemma commit_ok (f : File D) m segs group :
  file_inv f m segs -> (forall b, b ∈ group -> exists rows, batch_of b rows) ->
  fl_globalSeq f + zlen group < two64 ->
  let new := group_segs (fl_globalSeq f + 1) (fl_cursor f) (map sealed_pending group) in
  exists f' offs r calls, AppendGroup f (map sealed_pending group) = (f', offs, r)
    /\ commit f group = (f', Ok calls)
    /\ calls.*1 = filter (fun b => sd_done b = true) group
    /\ file_inv f' m (segs ++ take (length offs) new)
    /\ match r with
       | Err e => Forall (fun c => c.2 = Err e) calls
       | Ok _ => length offs = length group
           /\ (zlen (contents (fl_dev f')) < two63 ->
               forall b r rows, (b, r) ∈ calls -> batch_of b rows ->
                 exists addrs, r = Ok addrs /\ length addrs = length rows
                   /\ forall i a, addrs !! i = Some a ->
                        exists row, rows !! i = Some row /\ ReadRecordAt f' a = Ok row)
       | Panic => False
       end.
Proof.
  intros Hi Hb Hs new. unfold commit.
  assert (Hw : Forall Pending_wf (map sealed_pending group)).
  { rewrite Forall_forall. intros p (b & -> & Hin)%list_elem_of_fmap.
    destruct (Hb b Hin) as [rows Hr]. by eapply batch_pending_wf. }
  assert (Hz : zlen (map sealed_pending group) = zlen group) by (unfold zlen; by rewrite length_map).
  destruct (AppendGroup f _) as [[f1 offs] r] eqn:Ha.
  destruct (AppendGroup_inv _ _ _ _ _ _ _ Hi Hw ltac:(lia) Ha) as (Hi1 & Ho & _ & _ & Hnp & Hok).
  fold new in Hi1, Ho. destruct r as [[]|e|]; [| |done].
  - destruct (Hok eq_refl) as (Hn & _). rewrite length_map in Hn.
    assert (Hall : take (length offs) new = new) by (apply take_ge; unfold new; rewrite length_group_segs, length_map; lia).
    destruct (resolve_total group offs Hn) as (calls & Hc & Hf).
    exists f1, offs, (Ok tt), calls. rewrite Hc. split_and!; try done.
    intros Hz63 b r rows Hin Hbr. rewrite Hall in Ho, Hi1. rewrite Ho in Hc.
    destruct (resolve_spec _ _ _ _ _ _ Hc Hin) as (_ & s & Hs' & Hp & ->).
    destruct Hbr as (Hpay & Hfr & Hrows & _). eexists. split; [done|].
    unfold batch_addrs. rewrite Hfr. split; [by rewrite length_map, zip_frames_length|].
    intros i a Hia. apply lookup_zip_map in Hia as (o & row & Hoff & Hrow & ->).
    exists row. split; [done|]. rewrite Hpay in Hp.
    destruct (packed_on_device rec_enc f1 m _ s rows i row Hi1) as (o' & Ho' & ? & ? & Hle & Hsl);
      [by apply elem_of_app; right|done|done|].
    rewrite Hoff in Ho'. injection Ho' as <-. cbn [rec_frame rf_FrameOff].
    pose proof (zlen_nonneg (rec_enc row)).
    rewrite (add64_small (sg_off s)), add64_small by lia.
    apply ReadRecordAt_ok; try done; try lia; [apply Hi1|]. by eapply Forall_lookup_1 in Hrows.
  - eexists f1, offs, (Err e), _. split_and!; [done|done| |done|by apply Forall_fmap, Forall_true].
    rewrite <- list_fmap_compose. rewrite <- (list_fmap_id (filter _ group)) at 2. done.
Qed.
End publish.

(** ** What a commit means for the log *)

(** The segment of a batch is in a log. *)
Definition in_log (segs : list seg) (b : sealed) : Prop :=
  exists s seq, s ∈ segs /\ sg_hdr s = stamped seq (sealed_pending b) /\ sg_payload s = sd_payload b.

(** A group whose append succeeded is in the log; a batch of a group whose append
    failed got that error, if it asked to be told. *)
Definition outcome_ok (segs : list seg) (calls : list (sealed * R (list Z)))
    (o : list sealed * option error) : Prop :=
  match o.2 with
  | None => forall b, b ∈ o.1 -> in_log segs b
  | Some e => forall b, b ∈ o.1 -> sd_done b = true -> (b, Err e) ∈ calls
  end.

Lemma outcome_ok_mono segs segs' calls calls' o :
  segs ⊆ segs' -> calls ⊆ calls' -> outcome_ok segs calls o -> outcome_ok segs' calls' o.
Proof.
  unfold outcome_ok. intros Hs Hc. destruct (o.2); [by eauto|].
  intros Ho b Hb. destruct (Ho b Hb) as (s & seq & ? & ?). exists s, seq. split; [by apply Hs|done].
Qed.

Lemma group_segs_in_log group : forall seq cursor b, b ∈ group ->
  in_log (group_segs seq cursor (map sealed_pending group)) b.
Proof.
  induction group as [|b0 group IH]; intros seq cursor b Hin; [by apply elem_of_nil in Hin|].
  cbn [map group_segs]. apply elem_of_cons in Hin as [->|Hin].
  - eexists _, seq. split; [by left|done].
  - destruct (IH (seq + 1) (cursor + SegmentSpan (zlen (pn_Payload (sealed_pending b0)))) b Hin) as (s & sq & Hs & ?).
    exists s, sq. split; [by right|done].
Qed.

Lemma concat_snoc_ring (rs : list (list sealed)) k q b :
  rs !! k = Some q -> concat (<[k := q ++ [b]]> rs) ≡ₚ concat rs ++ [b].
Proof.
  intros Hk. pose proof (lookup_lt_Some _ _ _ Hk). rewrite insert_take_drop by done.
  rewrite <- (take_drop_middle rs k q Hk) at 3. rewrite !concat_app. cbn [concat].
  rewrite <- !app_assoc. do 2 apply Permutation_app_head. apply Permutation_app_comm.
Qed.

Lemma concat_pop_ring (rs : list (list sealed)) k q b :
  rs !! k = Some (b :: q) -> concat rs ≡ₚ b :: concat (<[k := q]> rs).
Proof.
  intros Hk. pose proof (lookup_lt_Some _ _ _ Hk). rewrite insert_take_drop by done.
  rewrite <- (take_drop_middle rs k _ Hk) at 1. rewrite !concat_app. cbn [concat app].
  symmetry. apply Permutation_middle.
Qed.

Section tracks.
Context {D : Type} `{DeviceLaws D}.
Implicit Types (g : gstate D).

(** Every accepted batch is in exactly one place, for a ring the writer has. *)
Record placed g : Prop := {
  pl_perm : gs_submitted g ≡ₚ gs_committed g ++ in_flight (gs_pc g) ++ concat (gs_rings g);
  pl_ring : Forall (fun b => is_Some (gs_rings g !! Z.to_nat (sd_shard b))) (gs_submitted g);
  pl_snap : forall i group snap, gs_pc g = PDrain i group (MBarrier snap) -> snap ⊆ gs_submitted g
}.

(** The file's log holds what the groups' outcomes say it holds. *)
Definition tracks m hi g : Prop :=
  exists segs, file_inv (gs_file g) m segs
    /\ 0 <= fl_globalSeq (gs_file g) <= hi + zlen (gs_committed g)
    /\ Forall (outcome_ok segs (gs_calls g)) (gs_groups g).

Lemma placed_same_file g g' :
  gs_submitted g' = gs_submitted g -> gs_groups g' = gs_groups g ->
  in_flight (gs_pc g') = in_flight (gs_pc g) -> gs_rings g' = gs_rings g ->
  (forall i group snap, gs_pc g' = PDrain i group (MBarrier snap) ->
     snap = gs_submitted g \/ exists i group, gs_pc g = PDrain i group (MBarrier snap)) ->
  placed g -> placed g'.
Proof.
  intros E1 E2 E3 E4 E5 [Hp Hr Hs]. constructor; rewrite ?E1, ?E3, ?E4; [|done|].
  - unfold gs_committed in *. by rewrite E2.
  - intros i group snap Hpc. destruct (E5 _ _ _ Hpc) as [->|(i0 & group0 & Hpc0)]; [done|by eapply Hs].
Qed.

Lemma placed_start g : placed g -> placed (start g).
Proof.
  intros Hp. unfold start. destruct (gs_pc g) eqn:E; [|done..].
  eapply placed_same_file; [| | | | |exact Hp]; gsimpl; try done. by rewrite E.
Qed.

Lemma placed_push g b g' : Submit_push g b = (g', Some true) -> placed g -> placed g'.
Proof.
  intros Hs Hp%placed_start. unfold Submit_push in Hs. generalize dependent (start g). clear g. intros g Hs Hp.
  destruct (gs_rings g !! Z.to_nat (sd_shard b)) as [q|] eqn:Er; [|done].
  destruct (decide _) as [Hlt|]; [|done]. injection Hs as <-. destruct Hp as [Hp Hr Hsn].
  constructor; gsimpl.
  - rewrite (concat_snoc_ring _ _ _ _ Er), Hp, <- !app_assoc. done.
  - apply Forall_app. split.
    + eapply Forall_impl; [exact Hr|]. intros b' [q' Hq']. rewrite list_lookup_insert. by destruct (decide _).
    + constructor; [|constructor]. rewrite list_lookup_insert_eq by (by eapply lookup_lt_Some). done.
  - intros i group snap Hpc b' Hin. apply elem_of_app. left. by eapply Hsn.
Qed.

Lemma placed_drain g i group m g' :
  gs_pc g = PDrain i group m -> drain_step g i group m = Some g' -> placed g -> placed g'.
Proof.
  intros Hpc Hd Hp. unfold drain_step in Hd. destruct (gs_rings g !! i) as [[|b q]|] eqn:Er.
  - injection Hd as <-. eapply placed_same_file; [| | | | |exact Hp]; gsimpl; try done; [by rewrite Hpc|].
    intros ? ? snap [= _ _ ->]. eauto.
  - injection Hd as <-. destruct Hp as [Hp Hr Hs]. rewrite Hpc in Hp. constructor; gsimpl.
    + rewrite Hp, (concat_pop_ring _ _ _ _ Er), <- !app_assoc. done.
    + eapply Forall_impl; [exact Hr|]. intros b' [q' Hq']. rewrite list_lookup_insert. by destruct (decide _).
    + intros ? ? snap [= _ _ ->]. by eapply Hs.
  - apply finish_spec in Hd as (E1&_&_&_&_&E6&E7&E8). destruct Hp as [Hp Hr Hs]. rewrite Hpc in Hp.
    constructor; rewrite ?E1, ?E6, ?E7; [|done|].
    + rewrite Hp, <- !app_assoc. gsimpl. rewrite E8. destruct m; [destruct group|..]; done.
    + rewrite E8. destruct m; [destruct group|..]; done.
Qed.

Lemma placed_step g g' : step g g' -> placed g -> placed g'.
Proof.
  intros Hs Hp. destruct Hs as [g b g' _ Hb|g b g' _ Hb|g _|g i group m g' Hpc Hd|g Hpc _|g _|g Hpc|g Hpc _|g Hpc _].
  - by eapply placed_push.
  - assert (g' = start g) as ->; [|by apply placed_start].
    unfold Submit_push in *. destruct (gs_rings (start g) !! _); [|done]. by destruct (decide _); simplify_eq.
  - eapply placed_same_file; [| | | | |exact Hp]; gsimpl; try done. eauto.
  - by eapply placed_drain.
  - eapply placed_same_file; [| | | | |exact Hp]; gsimpl; try done. by rewrite Hpc.
  - by apply placed_start.
  - eapply placed_same_file; [| | | | |exact Hp]; gsimpl; try done; [by rewrite Hpc|]. intros ? ? ? [= _ _ <-]. by left.
  - eapply placed_same_file; [| | | | |exact Hp]; gsimpl; try done. eauto.
  - eapply placed_same_file; [| | | | |exact Hp]; gsimpl; try done. by rewrite Hpc.
Qed.

Lemma reachable_placed f shards ring g : reachable f shards ring g -> placed g.
Proof.
  induction 1 as [|g g' _ IH Hs]; [|by eapply placed_step].
  constructor; [|done|done]. unfold gs_committed, NewGroupWriter. cbn. by induction (Z.to_nat _).
Qed.

(** A batch sealed by an accumulator. *)
Definition sealed_ok (b : sealed) : Prop := exists rows, batch_of b rows.

Lemma tracks_commit m hi g group g' :
  Forall sealed_ok group -> hi + zlen (gs_committed g) + zlen group < two64 ->
  commit_group g group = Some g' -> tracks m hi g -> tracks m hi g'.
Proof.
  intros Hok Hb Hc (segs & Hi & Hq & Ho). unfold commit_group in Hc.
  destruct group as [|b0 group0]; [injection Hc as <-; by exists segs|]. set (group := b0 :: group0) in *.
  destruct (commit_ok (gs_file g) m segs group Hi) as (f' & offs & r & calls & Ha & Hcm & Hf & Hi' & Hr);
    [by apply Forall_forall|lia|].
  rewrite Hcm in Hc. injection Hc as <-. unfold tracks, gs_committed. cbn [gs_file gs_groups gs_calls].
  exists (segs ++ take (length offs) (group_segs (fl_globalSeq (gs_file g) + 1) (fl_cursor (gs_file g)) (map sealed_pending group))).
  split; [done|]. split.
  - apply AppendGroup_seq in Ha; [|lia|unfold zlen in *; rewrite length_map; lia].
    fold (gs_committed g). rewrite fmap_app, concat_app, zlen_app. fold (gs_committed g). cbn [fmap list_fmap concat fst].
    rewrite app_nil_r. unfold zlen in *. rewrite length_map in Ha. lia.
  - apply Forall_app. split.
    + eapply Forall_impl; [exact Ho|]. intros o. apply outcome_ok_mono; intros ? ?; apply elem_of_app; by left.
    + constructor; [|constructor]. unfold outcome_ok, append_error. cbn [fst snd]. rewrite Ha.
      destruct r as [[]|e|]; [| |done].
      * destruct Hr as [Hn _]. intros b Hin.
        rewrite take_ge by (rewrite length_group_segs, length_map; lia).
        destruct (group_segs_in_log group (fl_globalSeq (gs_file g) + 1) (fl_cursor (gs_file g)) b Hin) as (s & sq & Hs & ?).
        exists s, sq. split; [|done]. apply elem_of_app. by right.
      * intros b Hin Hdone. apply elem_of_app. right.
        assert (Hbc : b ∈ calls.*1) by (rewrite Hf; by apply list_elem_of_filter).
        apply list_elem_of_fmap in Hbc as ([b' r'] & -> & Hin'). eapply Forall_forall in Hr; [|exact Hin'].
        cbn in *. by subst.
Qed.

Lemma tracks_same m hi g g' :
  gs_file g' = gs_file g -> gs_groups g' = gs_groups g -> gs_calls g' = gs_calls g -> tracks m hi g -> tracks m hi g'.
Proof. intros E1 E2 E3. unfold tracks, gs_committed. by rewrite E1, E2, E3. Qed.

Lemma tracks_finish m hi g group mo g' :
  Forall sealed_ok group -> hi + zlen (gs_committed g) + zlen group < two64 ->
  finish g group mo = Some g' -> tracks m hi g -> tracks m hi g'.
Proof.
  intros Hok Hb Hf Ht. unfold finish in Hf. destruct (commit_group g group) as [g1|] eqn:Ec; [|done].
  apply (tracks_commit m hi) in Ec; [|done|done|done].
  destruct mo; [injection Hf as <-; by eapply tracks_same|..|injection Hf as <-; by eapply tracks_same].
  destruct (doSync (gs_file g1)) as [f e] eqn:Es. injection Hf as <-.
  apply doSync_synced in Es. destruct Ec as (segs & [Hi Hroot] & Hq & Ho). exists segs. split_and!; cbn [gs_file gs_groups gs_calls].
  - split; [by eapply log_inv_synced|by eapply root_inv_synced].
  - destruct Es as (_ & _ & -> & _). lia.
  - destruct Es as (_ & _ & -> & _). unfold gs_committed. cbn. apply Hq.
  - done.
Qed.

Lemma tracks_step m hi g g' :
  step g g' -> placed g -> Forall sealed_ok (gs_submitted g) -> hi + zlen (gs_submitted g) < two64 ->
  tracks m hi g -> tracks m hi g'.
Proof.
  intros Hs Hp Hok Hb Ht.
  assert (Hst : tracks m hi (start g)) by (unfold start; destruct (gs_pc g); by eapply tracks_same).
  destruct Hs as [g b g' _ Hps|g b g' _ Hps|g _|g i group mo g' Hpc Hd|g Hpc _|g _|g Hpc|g Hpc _|g Hpc _];
    try by eapply tracks_same.
  - unfold Submit_push in Hps. destruct (gs_rings (start g) !! _); [|done].
    destruct (decide _); [|done]. injection Hps as <-. by eapply tracks_same.
  - unfold Submit_push in Hps. destruct (gs_rings (start g) !! _); [|done]. by destruct (decide _); simplify_eq.
  - unfold drain_step in Hd. destruct (gs_rings g !! i) as [[|b q]|] eqn:Er; [injection Hd as <-; by eapply tracks_same..|].
    destruct Hp as [Hp _ _]. rewrite Hpc in Hp. cbn [in_flight] in Hp.
    eapply tracks_finish; [| |exact Hd|done].
    + rewrite Hp in Hok. by apply Forall_app in Hok as [_ [? _]%Forall_app].
    + apply Permutation_length in Hp. rewrite !length_app in Hp. unfold zlen in *. lia.
Qed.

Lemma step_submitted g g' : step g g' -> gs_submitted g `prefix_of` gs_submitted g'.
Proof.
  assert (Hst : forall g : gstate D, gs_submitted (start g) = gs_submitted g) by (intros g0; unfold start; by destruct (gs_pc g0)).
  intros Hs. destruct Hs as [g b g' _ Hps|g b g' _ Hps|g _|g i group mo g' Hpc Hd|g Hpc _|g _|g Hpc|g Hpc _|g Hpc _];
    try done; [..|by rewrite Hst].
  - unfold Submit_push in Hps. destruct (gs_rings (start g) !! _); [|done].
    destruct (decide _); [|done]. injection Hps as <-. cbn. rewrite Hst. by apply prefix_app_r.
  - unfold Submit_push in Hps. destruct (gs_rings (start g) !! _); [|done]. destruct (decide _); [done|].
    injection Hps as <-. by rewrite Hst.
  - unfold drain_step in Hd. destruct (gs_rings g !! i) as [[|b q]|] eqn:Er; [by injection Hd as <-..|].
    by apply finish_spec in Hd as (_&_&_&_&_&->&_).
Qed.

(** In every run over sealed batches the log holds what the outcomes say. *)
Lemma reachable_tracks f m segs shards ring g :
  file_inv f m segs -> reachable f shards ring g -> Forall sealed_ok (gs_submitted g) ->
  fl_globalSeq f + zlen (gs_submitted g) < two64 -> tracks m (fl_globalSeq f) g.
Proof.
  intros Hi Hr. induction Hr as [|g g' Hr IH Hs]; intros Hok Hb.
  - pose proof (li_seq _ _ (proj1 Hi)). exists segs. split_and!; [done|cbn; lia| |by apply Forall_nil].
    change (gs_committed _) with (@nil sealed). rewrite zlen_nil. cbn. lia.
  - pose proof (step_submitted _ _ Hs) as [more Hm]. rewrite Hm, ?zlen_app in *.
    apply Forall_app in Hok as [Hok _]. pose proof (zlen_nonneg more).
    eapply tracks_step; [done|by eapply reachable_placed|done|lia|apply IH; [done|lia]].
Qed.
End tracks.

(** ** Progress *)

Section progress.
Context {D : Type} `{Device D}.
Implicit Types (g : gstate D).

Lemma append_loop_no_panic gr : forall (f : File D) f' offs r,
  append_loop f gr = (f', offs, r) -> r <> Panic /\ (r = Ok tt -> length offs = length gr).
Proof.
  induction gr as [|p gr IH]; intros f f' offs r Ha; cbn [append_loop] in Ha; [by simplify_eq|].
  unfold SegHeader_Marshal in Ha. destruct (checksum _ _) as [sum|]; [|by simplify_eq].
  destruct (writeAt _ _ _) as [f1 [e|]]; [by simplify_eq|].
  destruct (writeAt f1 _ _) as [f2 [e|]]; [by simplify_eq|].
  destruct (append_loop _ gr) as [[f3 offs3] r3] eqn:E. simplify_eq.
  destruct (IH _ _ _ _ E) as [? Hl]. split; [done|]. intros Hr. simpl. by rewrite Hl.
Qed.

(** A commit always completes: it publishes or it reports the error. *)
Lemma commit_total (f : File D) group : exists f' calls, commit f group = (f', Ok calls).
Proof.
  unfold commit, AppendGroup. destruct group as [|b group]; [by eexists _, _|].
  cbn [map]. destruct (append_loop f _) as [[f1 offs] r] eqn:Ha.
  apply append_loop_no_panic in Ha as [Hnp Hl]. destruct r as [[]|e|]; [|by eexists _, _|done].
  destruct (maybeSync f1) as [f2 [e|]]; [by eexists _, _|].
  destruct (resolve_total (b :: group) offs) as (calls & -> & _).
  { rewrite Hl by done. simpl. by rewrite length_map. }
  by eexists _, _.
Qed.

Lemma finish_total g group m : exists g', finish g group m = Some g'.
Proof.
  unfold finish, commit_group. destruct group as [|b group].
  - destruct m; [by eexists| |by eexists]. destruct (doSync _). by eexists.
  - destruct (commit_total (gs_file g) (b :: group)) as (f' & calls & ->).
    destruct m; [by eexists| |by eexists]. destruct (doSync _). by eexists.
Qed.

(** The steps the writer and the doorbells take on their own: no new batch, no
    barrier and no shutdown. *)
Inductive quiet : gstate D -> gstate D -> Prop :=
| quiet_bell g : (0 < gs_ringing g)%nat -> quiet g (Submit_bell g)
| quiet_drain g i group m g' :
    gs_pc g = PDrain i group m -> drain_step g i group m = Some g' -> quiet g g'
| quiet_wake g :
    gs_pc g = PParked -> gs_signal g = true ->
    quiet g (mkG (gs_file g) (gs_rings g) (gs_cap g) false (gs_quit g) (PDrain 0 [] MLoop)
               (gs_ringing g) (gs_submitted g) (gs_groups g) (gs_calls g) (gs_acks g)).

Lemma quiet_is_step g g' : quiet g g' -> step g g'.
Proof. destruct 1; by econstructor. Qed.

Lemma quiet_reachable f shards ring g g' :
  rtc quiet g g' -> reachable f shards ring g -> reachable f shards ring g'.
Proof. induction 1; [done|]. intros Hr. apply IHrtc. by eapply reach_step, quiet_is_step. Qed.

(** What a quiet run never changes. *)
Definition steady g g' : Prop :=
  gs_submitted g' = gs_submitted g /\ gs_quit g' = gs_quit g
  /\ length (gs_rings g') = length (gs_rings g).

(** The rings from [i] on are empty, the ones below as before. *)
Definition drained_from (i : nat) g g' : Prop :=
  forall k q, gs_rings g' !! k = Some q -> ((i <= k)%nat -> q = []) /\ ((k < i)%nat -> gs_rings g !! k = Some q).

(** A pass runs to its end. *)
Lemma pass_ends n : forall g i group m,
  gs_pc g = PDrain i group m -> (i + n = length (gs_rings g))%nat ->
  exists g' extra, rtc quiet g g' /\ gs_pc g' = PDrain (length (gs_rings g')) (group ++ extra) m
    /\ steady g g' /\ gs_ringing g' = gs_ringing g /\ gs_signal g' = gs_signal g
    /\ drained_from i g g'
    /\ ((forall k q, (i <= k)%nat -> gs_rings g !! k = Some q -> q = []) -> extra = []).
Proof.
  induction n as [|n IHn]; intros g i group m Hpc Hn.
  { exists g, []. rewrite app_nil_r. split; [apply rtc_refl|]. split; [by replace (length (gs_rings g)) with i by lia|].
    split_and!; try done. intros k q Hk. split; [|done]. apply lookup_lt_Some in Hk. lia. }
  destruct (lookup_lt_is_Some_2 (gs_rings g) i ltac:(lia)) as [q Hq].
  revert g group Hpc Hn Hq. induction q as [|b q IHq]; intros g group Hpc Hn Hq.
  - set (g1 := with_pc g (PDrain (S i) group m)).
    destruct (IHn g1 (S i) group m eq_refl) as (g' & extra & Hrun & Hpc' & Hst & Hr & Hs & Hd & He); [cbn; lia|].
    exists g', extra. split_and!; try done; [|by apply Hst..| |].
    + eapply rtc_l; [|exact Hrun]. eapply quiet_drain; [exact Hpc|]. unfold drain_step. by rewrite Hq.
    + intros k q' Hk. destruct (Hd k q' Hk) as [H1 H2]. split; [|intros; apply H2; lia].
      intros Hik. destruct (decide (k = i)) as [->|]; [|apply H1; lia].
      specialize (H2 ltac:(lia)). cbn in H2. congruence.
    + intros Hempty. apply He. intros k q' Hk. apply Hempty. lia.
  - set (g1 := mkG (gs_file g) (<[i := q]> (gs_rings g)) (gs_cap g) (gs_signal g) (gs_quit g)
      (PDrain i (group ++ [b]) m) (gs_ringing g) (gs_submitted g) (gs_groups g) (gs_calls g) (gs_acks g)).
    assert (Hlen : length (gs_rings g1) = length (gs_rings g)) by (cbn; by rewrite length_insert).
    destruct (IHq g1 (group ++ [b]) eq_refl) as (g' & extra & Hrun & Hpc' & Hst & Hr & Hs & Hd & _).
    { by rewrite Hlen. }
    { cbn. rewrite list_lookup_insert_eq; [done|]. lia. }
    exists g', (b :: extra). rewrite <- app_assoc in Hpc'. destruct Hst as (? & ? & ?).
    split_and!; try done; [|split_and!; [done|done|congruence]| |].
    + eapply rtc_l; [|exact Hrun]. eapply quiet_drain; [exact Hpc|]. unfold drain_step. by rewrite Hq.
    + intros k q' Hk. destruct (Hd k q' Hk) as [Hge Hlow]. split; [done|]. intros Hlt.
      specialize (Hlow Hlt). cbn in Hlow. rewrite list_lookup_insert_ne in Hlow by lia. done.
    + intros Hempty. specialize (Hempty i _ ltac:(lia) Hq). done.
Qed.

(** The doorbells in flight ring. *)
Lemma bells_ring n : forall g, gs_ringing g = n ->
  exists g', rtc quiet g g' /\ gs_ringing g' = 0%nat /\ gs_pc g' = gs_pc g /\ gs_rings g' = gs_rings g
    /\ steady g g' /\ (will_wake g -> gs_signal g' = true).
Proof.
  induction n as [|n IH]; intros g Hn.
  { exists g. split; [apply rtc_refl|]. split_and!; try done. intros [?|?]; [done|lia]. }
  destruct (IH (Submit_bell g)) as (g' & Hrun & ? & ? & ? & ? & Hw); [cbn; by rewrite Hn|].
  exists g'. split_and!; try done; [|intros _; apply Hw; by left].
  eapply rtc_l; [|exact Hrun]. apply quiet_bell. lia.
Qed.

(** A pass that starts at the first ring ends in a park with every ring empty,
    after at most one more pass. *)
Lemma empty_pass g :
  gs_pc g = PDrain 0 [] MLoop -> (forall k q, gs_rings g !! k = Some q -> q = []) ->
  exists g', rtc quiet g g' /\ gs_pc g' = PParked /\ steady g g'
    /\ forall k q, gs_rings g' !! k = Some q -> q = [].
Proof.
  intros Hpc Hempty.
  destruct (pass_ends (length (gs_rings g)) g 0 [] MLoop Hpc eq_refl)
    as (g1 & extra & Hrun & Hpc1 & (Es & Eq & El) & _ & _ & Hd & He).
  rewrite He in Hpc1 by (intros k q _; apply Hempty). cbn [app] in Hpc1.
  destruct (finish_total g1 [] MLoop) as [g2 Hf].
  exists g2. pose proof Hf as (Er & _ & _ & Eq2 & _ & Es2 & _ & Ep)%finish_spec.
  split_and!; [|done|split_and!; congruence|].
  - eapply rtc_r; [exact Hrun|]. eapply quiet_drain; [exact Hpc1|].
    unfold drain_step. by rewrite lookup_ge_None_2.
  - intros k q. rewrite Er. intros Hk. apply (Hd k q Hk). lia.
Qed.

Lemma full_pass g :
  gs_pc g = PDrain 0 [] MLoop ->
  exists g', rtc quiet g g' /\ gs_pc g' = PParked /\ steady g g'
    /\ forall k q, gs_rings g' !! k = Some q -> q = [].
Proof.
  intros Hpc.
  destruct (pass_ends (length (gs_rings g)) g 0 [] MLoop Hpc eq_refl)
    as (g1 & extra & Hrun & Hpc1 & (Es & Eq & El) & _ & _ & Hd & _). cbn [app] in Hpc1.
  destruct (finish_total g1 extra MLoop) as [g2 Hf].
  pose proof Hf as (Er & _ & _ & Eq2 & _ & Es2 & _ & Ep)%finish_spec.
  assert (Hempty : forall k q, gs_rings g2 !! k = Some q -> q = []).
  { intros k q. rewrite Er. intros Hk. apply (Hd k q Hk). lia. }
  assert (Hrun2 : rtc quiet g g2).
  { eapply rtc_r; [exact Hrun|]. eapply quiet_drain; [exact Hpc1|].
    unfold drain_step. by rewrite lookup_ge_None_2. }
  destruct extra as [|b extra].
  - exists g2. split_and!; try done. split_and!; congruence.
  - destruct (empty_pass g2 Ep Hempty) as (g3 & Hrun3 & Hp3 & (?&?&?) & He3).
    exists g3. split_and!; [by etrans|done|split_and!; congruence|done].
Qed.

(** From every running state the writer drains everything accepted. *)
Lemma writer_drains f shards ring g :
  reachable f shards ring g -> gs_pc g <> PIdle -> gs_quit g = false ->
  exists g', rtc quiet g g' /\ gs_pc g' = PParked /\ gs_submitted g' = gs_submitted g
    /\ length (gs_rings g') = length (gs_rings g)
    /\ forall k q, gs_rings g' !! k = Some q -> q = [].
Proof.
  intros Hr Hidle Hq.
  assert (Hpark : forall g, reachable f shards ring g -> gs_pc g = PParked ->
    exists g', rtc quiet g g' /\ gs_pc g' = PParked /\ steady g g'
      /\ forall k q, gs_rings g' !! k = Some q -> q = []).
  { clear g Hr Hidle Hq. intros g Hr Hp. pose proof (gi_pc _ (reachable_ginv _ _ _ _ Hr)) as Hi.
    unfold pc_inv in Hi. rewrite Hp in Hi.
    destruct (bells_ring _ g eq_refl) as (g1 & Hrun1 & Hr1 & Hp1 & Hrings1 & (?&?&?) & Hw1).
    destruct (decide (Forall (fun q => q = []) (gs_rings g))) as [Hall|Hsome].
    { exists g1. split_and!; [done|congruence|by split_and!|].
      intros k q. rewrite Hrings1. intros Hk. by eapply Forall_lookup_1 in Hall. }
    apply not_Forall_Exists, Exists_exists in Hsome as (q & (k & Hk)%list_elem_of_lookup & Hne); [|apply _].
    assert (Hsig : gs_signal g1 = true) by (apply Hw1; by eapply Hi).
    set (g2 := mkG (gs_file g1) (gs_rings g1) (gs_cap g1) false (gs_quit g1) (PDrain 0 [] MLoop)
      (gs_ringing g1) (gs_submitted g1) (gs_groups g1) (gs_calls g1) (gs_acks g1)).
    destruct (full_pass g2 eq_refl) as (g3 & Hrun3 & Hp3 & (Es3&Eq3&El3) & He3). cbn in Es3, Eq3, El3.
    exists g3. split_and!; [|done|split_and!; congruence|done].
    etrans; [exact Hrun1|]. eapply rtc_l; [|exact Hrun3]. by apply quiet_wake; [congruence|]. }
  pose proof (gi_pc _ (reachable_ginv _ _ _ _ Hr)) as Hi. unfold pc_inv in Hi.
  destruct (gs_pc g) as [|i group m| |] eqn:Hpc; [done| | |by destruct Hi; congruence].
  - (* finish the pass in hand, then settle *)
    assert (Hend : exists g1 i1 group1, rtc quiet g g1 /\ gs_pc g1 = PDrain i1 group1 m
      /\ gs_rings g1 !! i1 = None /\ steady g g1).
    { destruct (decide (i <= length (gs_rings g))%nat) as [Hle|Hgt].
      - destruct (pass_ends (length (gs_rings g) - i) g i group m Hpc)
          as (g1 & extra & Hrun & Hpc1 & Hst & _); [lia|].
        exists g1, (length (gs_rings g1)), (group ++ extra). split_and!; try done. by apply lookup_ge_None_2.
      - exists g, i, group. split; [apply rtc_refl|]. split_and!; try done. apply lookup_ge_None_2. lia. }
    destruct Hend as (g1 & i1 & group1 & Hrun1 & Hpc1 & Hn1 & (Es1 & Eq1 & El1)).
    destruct (finish_total g1 group1 m) as [g2 Hf].
    pose proof Hf as (Er & _ & _ & Eq2 & _ & Es2 & _ & Ep)%finish_spec.
    assert (Hrun2 : rtc quiet g g2).
    { eapply rtc_r; [exact Hrun1|]. eapply quiet_drain; [exact Hpc1|]. unfold drain_step. by rewrite Hn1. }
    assert (Hset : exists g', rtc quiet g2 g' /\ gs_pc g' = PParked /\ steady g2 g'
      /\ forall k q, gs_rings g' !! k = Some q -> q = []).
    { destruct m as [|snap|]; [|by apply full_pass|by destruct Hi; congruence].
      destruct group1; [|by apply full_pass]. apply Hpark; [|done]. by eapply quiet_reachable. }
    destruct Hset as (g3 & ? & ? & (?&?&?) & ?). exists g3. split_and!; [by etrans|done|congruence|congruence|done].
  - destruct (Hpark g Hr Hpc) as (g' & ? & ? & (?&?&?) & ?). exists g'. by split_and!.
Qed.
End progress.
