(* ===== verification/Crash.v ===== *)
(** Power loss.

    A [Disk] keeps what is on the media and the writes issued since the last
    flush.  A power loss may keep any of those writes, sector by sector: each
    512-byte sector of each unflushed write is either on the media or not
    ([crash_image]).  The theorems say what a file opened on such an image finds:
    a commit is all or nothing, an append never damages what came before it, and
    what a flush covered is there. *)

From S2P Require Import Prelude Loop Crc Format Rows Headers Tables Device Scan File Rebuild Recovery.

Definition sector : Z := 512.
#[export] Hint Unfold sector : aki.

(** [img] is [old] with some sectors of [new] in it, at either length. *)
Definition sector_mix (old new img : bytes) : Prop :=
  (zlen img = zlen old \/ zlen img = zlen new) /\
  forall s, 0 <= s ->
    sl img (sector * s) sector = sl (resize old (zlen img)) (sector * s) sector
    \/ sl img (sector * s) sector = sl (resize new (zlen img)) (sector * s) sector.

Inductive crash_ops : bytes -> list op -> bytes -> Prop :=
| crash_done c : crash_ops c [] c
| crash_op c o ops c1 c2 :
    sector_mix c (apply_op c o) c1 -> crash_ops c1 ops c2 -> crash_ops c (o :: ops) c2.

Definition crash_image (d : Disk) (img : bytes) : Prop := crash_ops (dk_durable d) (dk_pending d) img.

(** The device a machine that lost power comes back with. *)
Definition reboot (img : bytes) : Disk := mkDisk img [] [].

(** ** Sectors *)

Lemma zdrop_sl (l : bytes) i n : 0 <= i -> 0 <= n -> zlen l <= i + n -> sl l i n = zdrop i l.
Proof. intros. unfold sl. apply ztake_all. rewrite zlen_zdrop. pose proof (zlen_nonneg l). lia. Qed.

(** Agreement sector by sector up to a sector boundary is agreement. *)
Lemma sectors_agree (a b : bytes) k :
  (forall s, 0 <= s < Z.of_nat k -> sl a (sector * s) sector = sl b (sector * s) sector) ->
  sl a 0 (sector * Z.of_nat k) = sl b 0 (sector * Z.of_nat k).
Proof.
  induction k as [|k IH]; intros Hs.
  - rewrite Z.mul_0_r. unfold sl. by rewrite !ztake_nonpos.
  - replace (sector * Z.of_nat (S k)) with (sector * Z.of_nat k + sector) by lia.
    rewrite !(sl_split _ 0) by lia. rewrite IH by (intros; apply Hs; lia).
    rewrite Z.add_0_l. rewrite (Hs (Z.of_nat k)) by lia. done.
Qed.

Lemma sectors_ext (a b : bytes) :
  zlen a = zlen b ->
  (forall s, 0 <= s -> sl a (sector * s) sector = sl b (sector * s) sector) -> a = b.
Proof.
  intros Hz Hs. pose proof (zlen_nonneg a).
  set (k := Z.to_nat (zlen a / sector + 1)).
  assert (zlen a <= sector * Z.of_nat k).
  { unfold k. pose proof (Z.div_mod (zlen a) sector). pose proof (Z.mod_pos_bound (zlen a) sector).
    pose proof (Z.div_pos (zlen a) sector). lia. }
  rewrite <- (sl_all a (sector * Z.of_nat k)), <- (sl_all b (sector * Z.of_nat k)) by lia.
  apply sectors_agree. intros s Hk. apply Hs. lia.
Qed.

Lemma resize_self c : resize c (zlen c) = c.
Proof. unfold resize. rewrite ztake_all, Z.sub_diag by lia. by rewrite app_nil_r. Qed.

(** A write inside the file and inside one sector is all or nothing. *)
Lemma one_sector_atomic c off b img s :
  0 <= s -> sector * s <= off -> off + zlen b <= sector * (s + 1) -> off + zlen b <= zlen c ->
  sector_mix c (overlay c off b) img -> img = c \/ img = overlay c off b.
Proof.
  intros Hs Hlo Hhi Hle [Hz Hsec]. pose proof (zlen_nonneg b).
  assert (zlen (overlay c off b) = zlen c) as Ho.
  { rewrite zlen_overlay by lia. destruct (Z.eqb_spec (zlen b) 0); lia. }
  assert (zlen img = zlen c) as Hi by lia.
  assert (forall x : bytes, zlen x = zlen img -> resize x (zlen img) = x) as Hrs
    by (intros x <-; apply resize_self).
  rewrite !Hrs in Hsec by lia.
  assert (forall t, 0 <= t -> t <> s -> sl (overlay c off b) (sector * t) sector = sl c (sector * t) sector) as Hsame.
  { intros t Ht Hne. destruct (Z.le_gt_cases (sector * t + sector) (zlen c)).
    - destruct (Z.lt_ge_cases t s); [apply sl_overlay_before|apply sl_overlay_after]; lia.
    - destruct (Z.le_gt_cases (zlen c) (sector * t)).
      + unfold sl. by rewrite !zdrop_all by lia.
      + set (n := zlen c - sector * t).
        assert (forall x : bytes, zlen x = zlen c -> sl x (sector * t) sector = sl x (sector * t) n) as Ht'.
        { intros x Hx. rewrite !zdrop_sl by lia. done. }
        rewrite !Ht' by lia.
        destruct (Z.lt_ge_cases t s); [apply sl_overlay_before|apply sl_overlay_after]; lia. }
  destruct (Hsec s Hs) as [E|E]; [left|right]; apply sectors_ext; try lia; intros t Ht;
    destruct (decide (t = s)) as [->|Hne]; try done;
    destruct (Hsec t Ht) as [->| ->]; rewrite ?Hsame by done; done.
Qed.

(** Below its offset a write changes nothing, at either length. *)
Lemma ztake_overlay hi c off b :
  0 <= off -> hi <= off -> ztake hi (overlay c off b) = ztake hi (c ++ zeros (zlen (overlay c off b) - zlen c)).
Proof.
  intros Ho Hhi. destruct b as [|x b].
  - cbn [overlay]. rewrite Z.sub_diag. by rewrite app_nil_r.
  - rewrite zlen_overlay by done. pose proof (zlen_nonneg b). rewrite zlen_cons.
    destruct (Z.eqb_spec (1 + zlen b) 0); [lia|]. cbn [overlay]. rewrite zlen_cons.
    rewrite put_splice by (rewrite ?zlen_app, ?zlen_zeros_max, ?zlen_cons; lia).
    assert (Hlen : zlen (c ++ zeros (off + (1 + zlen b) - zlen c)) = Z.max (zlen c) (off + (1 + zlen b))).
    { rewrite zlen_app, zlen_zeros_max. lia. }
    rewrite ztake_app_le by (rewrite zlen_ztake, Hlen; lia).
    rewrite ztake_ztake, Z.min_l by lia. do 2 f_equal. unfold zeros. f_equal. lia.
Qed.

Lemma ztake_resize_overlay hi c off b n :
  0 <= off -> hi <= off -> n = zlen c \/ n = zlen (overlay c off b) ->
  ztake hi (resize (overlay c off b) n) = ztake hi (resize c n).
Proof.
  intros Ho Hhi Hn. pose proof (zlen_overlay_ge c off b Ho) as Hge.
  assert (Hz0 : forall k, k <= 0 -> zeros k = []) by (intros k ?; unfold zeros; by replace (Z.to_nat k) with 0%nat by lia).
  destruct Hn as [->| ->].
  - rewrite resize_self. unfold resize. rewrite (Hz0 (zlen c - _)), app_nil_r by lia.
    rewrite ztake_ztake, ztake_overlay by lia.
    rewrite ztake_app_le by lia. by rewrite <- ztake_ztake, (ztake_all (zlen c)) by lia.
  - rewrite resize_self, ztake_overlay by done. unfold resize. by rewrite (ztake_all _ c) by lia.
Qed.

Lemma sl_ztake {A} (l : list A) hi i n : 0 <= i -> 0 <= n -> i + n <= hi -> sl (ztake hi l) i n = sl l i n.
Proof.
  intros. unfold sl. rewrite !ztake_take, !zdrop_drop, skipn_firstn_comm, take_take. f_equal. lia.
Qed.

(** A write at or past a sector boundary leaves the bytes below it. *)
Lemma mix_keeps c off b img hi :
  0 <= hi -> hi mod sector = 0 -> hi <= off ->
  sector_mix c (overlay c off b) img -> keeps 0 hi c img.
Proof.
  intros Hhi Hmod Hoff [Hz Hsec].
  pose proof (zlen_overlay_ge c off b ltac:(lia)) as Hge. pose proof (zlen_nonneg c).
  split; [lia|]. intros i n Hi Hn Hin Hic.
  set (k := Z.to_nat (hi / sector)).
  assert (hi = sector * Z.of_nat k) as Hk.
  { unfold k. pose proof (Z.div_mod hi sector). pose proof (Z.div_pos hi sector). lia. }
  set (c0 := resize c (zlen img)).
  assert (sl img 0 hi = sl c0 0 hi) as Hag.
  { rewrite Hk. apply sectors_agree. intros s Hs. destruct (Hsec s ltac:(lia)) as [E|E]; [done|].
    rewrite E. rewrite <- (sl_ztake (resize (overlay c off b) _) hi) by lia.
    rewrite ztake_resize_overlay by lia. apply sl_ztake; lia. }
  rewrite (agree_sl hi c0 img i n) by (done || lia). apply sl_resize; lia.
Qed.

(** A run of such writes. *)
Definition above (hi : Z) (o : op) : Prop :=
  match o with OpWrite off _ => hi <= off | OpTruncate _ => False end.

Lemma crash_keeps c ops img hi :
  0 <= hi -> hi mod sector = 0 -> Forall (above hi) ops -> crash_ops c ops img -> keeps 0 hi c img.
Proof.
  intros Hhi Hmod Hall Hcr. induction Hcr as [c|c o ops c1 c2 Hm Hcr IH]; [done|].
  apply Forall_cons in Hall as [Ho Hall]. destruct o as [off b|n]; [|done].
  etrans; [|by apply IH]. by eapply mix_keeps.
Qed.

(** Losing every unflushed write is one of the images, keeping them all another. *)
Lemma mix_old c c' : sector_mix c c' c.
Proof. split; [by left|]. intros. left. by rewrite resize_self. Qed.

Lemma mix_new c c' : sector_mix c c' c'.
Proof. split; [by right|]. intros. right. by rewrite resize_self. Qed.

Lemma crash_none c ops : crash_ops c ops c.
Proof. induction ops as [|o ops IH]; [constructor|]. econstructor; [apply mix_old|done]. Qed.

Lemma crash_all c ops : crash_ops c ops (foldl apply_op c ops).
Proof.
  revert c. induction ops as [|o ops IH]; intros c; [constructor|].
  simpl. econstructor; [apply mix_new|apply IH].
Qed.

(** ** What a reboot reads *)

#[local] Opaque ParsePrefix ParseMetaSlot ParseSegHeader VerifyPayload crc32c ParseSRT.

Lemma SegmentSpan_aligned (payload : bytes) :
  zlen payload <= max_alloc -> SegmentSpan (zlen payload) mod SegmentAlign = 0.
Proof.
  intros Hl. pose proof (zlen_nonneg payload).
  destruct (SegmentSpan_spec (zlen payload)) as [_ Hm]; [lia|]. exact Hm.
Qed.

(** Segments start on 4 KiB boundaries, so on sector boundaries. *)
Lemma log_aligned c kind from segs to :
  log c kind from segs to -> from mod SegmentAlign = 0 -> to mod SegmentAlign = 0.
Proof.
  induction 1 as [|from h payload segs to Hs Hl IH]; intros Hf; [done|].
  apply IH. destruct Hs as (?&?&Hz&_).
  by rewrite Z.add_mod, Hf, (SegmentSpan_aligned payload Hz) by done.
Qed.

Lemma align_sector z : z mod SegmentAlign = 0 -> z mod sector = 0.
Proof.
  intros Hz. pose proof (Z.div_mod z SegmentAlign ltac:(done)) as E. rewrite Hz in E.
  replace z with (8 * (z / SegmentAlign) * sector) by lia. by apply Z.mod_mul.
Qed.

Section reopen.
Implicit Types (f : File Disk).

(** An image with the file's prefix, a root and a log that ends torn opens, on
    that root, at the end of that log. *)
Lemma reopen_image time_Now opts img prefix m w segs to hi :
  ParsePrefix (sl img 0 PrefixSize) = Ok prefix -> std_prefix prefix ->
  PageSize <= zlen img < two63 -> live_root img ChecksumCRC32C = Ok (m, w) ->
  log img ChecksumCRC32C PageSize segs to -> to < two63 -> seqs_ok segs hi -> is_u64 hi ->
  torn img ChecksumCRC32C (zlen img) to ->
  exists f, OpenOnDevice time_Now (reboot img) opts = Ok f
    /\ file_inv f m segs /\ fl_cursor f = to /\ fl_liveSlot f = w
    /\ fl_globalSeq f = seq_max segs.
Proof.
  intros Hp Hs Hz Hr Hl Hto Hq Hhi Ht. pose proof (log_le _ _ _ _ _ Hl).
  set (f := mkFile (reboot img) prefix to hi (ms_CommitSeq m) w SyncNo 0 (fun _ => 0) 0 0).
  assert (Hi : file_inv f m segs).
  { split; [|done]. constructor; fsimpl; try done; cbn; lia. }
  destruct (OpenOnDevice_inv time_Now f m segs opts Hi Hto) as (f2 & ? & ? & _ & _ & ? & ? & ? & _);
    [cbn in *; lia|done|]. exists f2. by split_and!.
Qed.

(** A file's invariant over a disk that comes back with the same bytes. *)
Lemma file_inv_reboot f m segs :
  file_inv f m segs -> file_inv (with_dev f (reboot (contents (fl_dev f)))) m segs.
Proof. intros [[] [? ?]]. split; [|done]. by constructor. Qed.

(** A crash with everything flushed loses nothing. *)
Lemma crash_flushed f img :
  dk_pending (fl_dev f) = [] -> crash_image (fl_dev f) img -> img = contents (fl_dev f).
Proof.
  unfold crash_image. cbn. unfold disk_contents. intros -> Hc. by inversion Hc.
Qed.
End reopen.

(** ** Commits *)

Definition no_short_write (fs : list fault) : Prop :=
  Forall (fun x => match x with FWrite _ _ => False | _ => True end) fs.

Lemma disk_write_whole d b off :
  0 <= off -> no_short_write (dk_faults d) ->
  exists fs, WriteAt d b off = (disk_write d off b fs, (zlen b, None)) /\ no_short_write fs.
Proof.
  intros Ho Hf. cbn. unfold disk_WriteAt, next_fault. destruct (Z.ltb_spec off 0); [lia|].
  destruct (dk_faults d) as [|[|k e|] fs]; [by eauto|..];
    apply Forall_cons in Hf as [Hx Hf]; try done; by eauto.
Qed.

Section commit_crash.
Implicit Types (f : File Disk).

Lemma slot_sector w : w = 0 \/ w = 1 -> slot_off w = sector * (8 * (w + 1)).
Proof. by intros [-> | ->]. Qed.

(** Every image of a commit holds the old contents or the new slot whole. *)
Lemma commit_images f m0 segs m f' r img :
  file_inv f m0 segs -> dk_pending (fl_dev f) = [] -> no_short_write (dk_faults (fl_dev f)) ->
  MetaSlot_wf m -> CommitRoots f m = (f', r) -> crash_image (fl_dev f') img ->
  exists b, MetaSlot_Marshal (stamp_meta f m) ChecksumCRC32C = Ok b /\
    let c := contents (fl_dev f) in
    let c' := overlay c (slot_off (1 - fl_liveSlot f)) b in
    contents (fl_dev f') = c' /\ (img = c \/ img = c') /\ (r = Ok tt -> img = c').
Proof.
  intros [Hi [Hroot Hcs]] Hpend Hf Hwf Hcm Himg.
  pose proof (li_std _ _ Hi) as (_ & Ha & HB & Hk). pose proof (li_page _ _ Hi) as Hpg.
  apply live_root_slots in Hroot as (Hw & _ & _).
  unfold CommitRoots in Hcm. rewrite Hk, Ha, HB in Hcm.
  change (if 1 - fl_liveSlot f =? 1 then MetaSlotBOff else MetaSlotAOff)
    with (slot_off (1 - fl_liveSlot f)) in Hcm.
  assert (Hso : slot_off (1 - fl_liveSlot f) = sector * (8 * (1 - fl_liveSlot f + 1)))
    by (apply slot_sector; lia).
  set (so := slot_off _) in *.
  destruct (MetaSlot_Marshal _ _) as [b|e|] eqn:Hm;
    [|unfold MetaSlot_Marshal in Hm; by rewrite checksum_CRC32C in Hm..].
  assert (Hz : zlen b = MetaSlotSize) by (by apply MetaSlot_Marshal_ok in Hm as (?&?&?&?)).
  exists b. split; [done|]. intros c c'.
  destruct (disk_write_whole (fl_dev f) b so) as (fs & W & Hfs); [lia|done|].
  rewrite (writeAt_ok f b so _ ltac:(lia) W) in Hcm.
  assert (Hd : disk_contents (disk_write (fl_dev f) so b fs) = c').
  { unfold disk_write. by rewrite disk_contents_snoc. }
  set (d1 := disk_write _ _ _ _) in *. cbn [Sync Disk_device fl_dev with_dev] in Hcm.
  unfold disk_Sync in Hcm.
  assert (Hmix : forall x, crash_ops (dk_durable (fl_dev f)) (dk_pending d1) x -> x = c \/ x = c').
  { cbn [d1 disk_write dk_pending]. rewrite Hpend. intros x Hx.
    inversion Hx as [|? ? ? c1 ? Hmx Hn]; subst. inversion Hn; subst.
    apply (one_sector_atomic _ so b _ (8 * (1 - fl_liveSlot f + 1))) in Hmx; [|lia..|].
    - unfold c', c. cbn. unfold disk_contents. by rewrite Hpend.
    - unfold c in *. cbn in Hpg. unfold disk_contents in Hpg. rewrite Hpend in Hpg. cbn in Hpg. lia. }
  destruct (next_fault d1) as [[|k e|] fs'] eqn:Ef; injection Hcm as <- <-;
    unfold crash_image in Himg; cbn in Himg |- *; unfold disk_contents at 1; cbn.
  3: split_and!; [by fold (disk_contents d1)|by apply Hmix|done].
  all: fold (disk_contents d1); inversion Himg; subst; split_and!; auto.
Qed.

(** The image with the new slot whole: the file it is. *)
Lemma committed_image f m0 segs m b :
  file_inv f m0 segs -> MetaSlot_wf m -> fl_commitSeq f + 1 < two64 ->
  MetaSlot_Marshal (stamp_meta f m) ChecksumCRC32C = Ok b ->
  let c := overlay (contents (fl_dev f)) (slot_off (1 - fl_liveSlot f)) b in
  live_root c ChecksumCRC32C = Ok (stamp_meta f m, 1 - fl_liveSlot f)
  /\ file_inv (with_root (with_dev f (reboot c)) (ms_CommitSeq (stamp_meta f m)) (1 - fl_liveSlot f))
       (stamp_meta f m) segs.
Proof.
  intros [Hi [Hroot Hcs]] Hwf Hb Hm c. pose proof (li_page _ _ Hi) as Hpg.
  assert (Hz : zlen b = MetaSlotSize) by (by apply MetaSlot_Marshal_ok in Hm as (?&?&?&?)).
  pose proof Hroot as (Hw & Hp & _)%live_root_slots.
  pose proof (stamp_meta_seq f m0 m _ Hp Hcs Hb) as Hseq.
  assert (Hwf' : MetaSlot_wf (stamp_meta f m)) by (apply stamp_meta_wf; [done|apply Hi..]).
  pose proof (slot_elects _ _ _ _ _ Hw Hp Hpg Hwf' ltac:(lia) Hm) as Hnew.
  split; [exact Hnew|]. split; [|done].
  destruct (log_inv_slot f segs (reboot c) (1 - fl_liveSlot f) b Hi I ltac:(lia) eq_refl). by constructor.
Qed.

(** Power loss during a commit: the machine comes back with the old root or the
    new one, at the same log; after a successful commit, with the new one. *)
Lemma commit_crash f m0 segs m f' r img time_Now opts :
  file_inv f m0 segs -> tidy f segs -> fl_cursor f < two63 ->
  dk_pending (fl_dev f) = [] -> no_short_write (dk_faults (fl_dev f)) ->
  MetaSlot_wf m -> fl_commitSeq f + 1 < two64 ->
  CommitRoots f m = (f', r) -> crash_image (fl_dev f') img ->
  exists f2 m2, OpenOnDevice time_Now (reboot img) opts = Ok f2 /\ file_inv f2 m2 segs
    /\ fl_cursor f2 = fl_cursor f
    /\ (m2 = m0 \/ m2 = stamp_meta f m) /\ (r = Ok tt -> m2 = stamp_meta f m).
Proof.
  intros Hi [Ht1 Ht2] Hcur Hpend Hf Hwf Hb Hcm Himg.
  destruct (commit_images _ _ _ _ _ _ _ Hi Hpend Hf Hwf Hcm Himg) as (b & Hm & _ & Hor & Hok).
  assert (Hz : zlen b = MetaSlotSize) by (by apply MetaSlot_Marshal_ok in Hm as (?&?&?&?)).
  destruct (committed_image f m0 segs m b Hi Hwf Hb Hm) as [Hnew _].
  destruct Hi as [Hi [Hroot _]]. pose proof (li_page _ _ Hi) as Hpg.
  pose proof (log_le _ _ _ _ _ (li_log _ _ Hi)).
  set (so := slot_off _) in *.
  assert (MetaSlotAOff <= so <= MetaSlotBOff) by (unfold so, slot_off; destruct (_ =? 1); lia).
  assert (zlen (overlay (contents (fl_dev f)) so b) <= fl_cursor f) by (apply zlen_overlay_le; lia).
  pose proof (zlen_overlay_ge (contents (fl_dev f)) so b ltac:(lia)).
  pose proof (log_inv_slot f segs (reboot (overlay (contents (fl_dev f)) so b)) _ b Hi I ltac:(lia) eq_refl) as Hi2.
  assert (Hopen : forall c m2 w, log_inv (with_dev f (reboot c)) segs ->
    live_root c ChecksumCRC32C = Ok (m2, w) -> zlen c <= fl_cursor f ->
    exists f2, OpenOnDevice time_Now (reboot c) opts = Ok f2 /\ file_inv f2 m2 segs
      /\ fl_cursor f2 = fl_cursor f).
  { intros c m2 w [? ? ? ? ? ? ? ?] Hl Hc. fsimpl. cbn [contents Disk_laws] in *.
    edestruct (reopen_image time_Now opts c) as (f2 & ? & ? & ? & _);
      [done|done|cbn in *; lia|exact Hl|done|done|done|done|left; lia|]. eauto. }
  assert (Hi0 : log_inv (with_dev f (reboot (contents (fl_dev f)))) segs) by (by apply log_inv_dev).
  destruct (Hopen _ _ _ Hi0 Hroot ltac:(lia)) as (fo & ? & ? & ?).
  destruct (Hopen _ _ _ Hi2 Hnew ltac:(lia)) as (fn & ? & ? & ?).
  assert (img = overlay (contents (fl_dev f)) so b \/ img = contents (fl_dev f) /\ r <> Ok tt) as [-> | [-> ?]].
  { destruct Hor as [-> | ->]; [|by left]. destruct r as [[]|e|]; [left; by apply Hok|by right..]. }
  - exists fn, (stamp_meta f m). split_and!; auto.
  - exists fo, m0. split_and!; auto. done.
Qed.
End commit_crash.

(** ** Appends *)

(** The disk took writes at or past [hi] and flushed nothing. *)
Definition grows (hi : Z) (d d' : Disk) : Prop :=
  dk_durable d' = dk_durable d
  /\ exists ops, dk_pending d' = dk_pending d ++ ops /\ Forall (above hi) ops.

#[global] Instance grows_refl hi : Reflexive (grows hi).
Proof. intros d. split; [done|]. exists []. by rewrite app_nil_r. Qed.

#[global] Instance grows_trans hi : Transitive (grows hi).
Proof.
  intros d1 d2 d3 [E1 (o1 & P1 & F1)] [E2 (o2 & P2 & F2)]. split; [congruence|].
  exists (o1 ++ o2). rewrite P2, P1, app_assoc. split; [done|]. by apply Forall_app.
Qed.

Lemma grows_mono hi hi' d d' : hi' <= hi -> grows hi d d' -> grows hi' d d'.
Proof.
  intros Hle [E (ops & P & F)]. split; [done|]. exists ops. split; [done|].
  eapply Forall_impl; [exact F|]. intros [off b|n]; simpl; [lia|done].
Qed.

Section append_crash.
Implicit Types (f : File Disk).

Lemma writeAt_grows f b off f' e :
  is_u64 off -> writeAt f b off = (f', e) -> grows off (fl_dev f) (fl_dev f').
Proof.
  intros Hu. unfold writeAt. cbn [WriteAt Disk_device]. unfold disk_WriteAt.
  unfold int64. destruct (Z.ltb_spec off two63).
  - destruct (Z.ltb_spec off 0); [lia|].
    assert (forall b' fs, grows off (fl_dev f) (disk_write (fl_dev f) off b' fs)) as Hg.
    { intros b' fs. split; [done|]. exists [OpWrite off b']. split; [done|]. constructor; [cbn; lia|constructor]. }
    destruct (next_fault (fl_dev f)) as [[|k [er|]|] fs]; intros [= <- <-]; apply Hg.
  - destruct (Z.ltb_spec (off - two64) 0); [|lia]. intros [= <- <-]. fsimpl. done.
Qed.

Lemma append_loop_grows g : forall f segs f' offs r,
  log_inv f segs -> Forall Pending_wf g -> fl_globalSeq f + zlen g < two64 ->
  append_loop f g = (f', offs, r) -> grows (fl_cursor f) (fl_dev f) (fl_dev f').
Proof.
  induction g as [|p g IH]; intros f segs f' offs r Hi Hw Hb Ha.
  { simpl in Ha. by simplify_eq. }
  pose proof (append_loop_inv [p] f segs) as H1.
  apply Forall_cons in Hw as [Hwp Hw]. rewrite zlen_cons in Hb. pose proof (zlen_nonneg g).
  cbn [append_loop] in Ha, H1. destruct (SegHeader_Marshal _ _ _) as [[hb h']|e|]; [|by simplify_eq..].
  pose proof (li_cursor _ _ Hi) as Hcu. fsimpl.
  destruct (writeAt _ hb _) as [f1 [e1|]] eqn:W1; pose proof W1 as G1;
    apply writeAt_grows in G1; try done; fsimpl; [by simplify_eq|].
  pose proof (add64_range (fl_cursor f) SegHeaderLen) as Hr.
  assert (fl_cursor f < two63) as Hlt.
  { apply writeAt_spec in W1 as (?&?&_&_&_&_&Hn); [|done]. by apply Hn. }
  rewrite (add64_small (fl_cursor f) SegHeaderLen) in Ha, H1 by lia.
  destruct (writeAt f1 _ _) as [f2 [e2|]] eqn:W2; apply writeAt_grows in W2; try lia;
    apply (grows_mono _ (fl_cursor f)) in W2; try lia.
  { simplify_eq. by etrans. }
  set (f3 := with_cursor f2 _) in *.
  destruct (append_loop f3 g) as [[f4 offs4] r4] eqn:Hl. simplify_eq.
  destruct (H1 f3 [fl_cursor f] (Ok tt)) as (Hi3 & _ & _ & Hle & _ & Hok);
    [done|by constructor|rewrite zlen_cons, zlen_nil; lia|done|].
  destruct (Hok eq_refl) as (_ & _ & Hs & _). rewrite zlen_cons, zlen_nil in Hs.
  apply (IH _ _ _ _ _ Hi3 Hw ltac:(lia)) in Hl.
  etrans; [exact G1|]. etrans; [exact W2|]. by eapply grows_mono; [|exact Hl].
Qed.

Lemma doSync_disk f f' e :
  doSync f = (f', e) ->
  (dk_pending (fl_dev f') = [] /\ e = None)
  \/ (dk_pending (fl_dev f') = dk_pending (fl_dev f) /\ dk_durable (fl_dev f') = dk_durable (fl_dev f)
      /\ e <> None).
Proof.
  unfold doSync. cbn [Sync Disk_device]. unfold disk_Sync.
  destruct (next_fault (fl_dev f)) as [[] fs]; intros [= <- <-]; fsimpl; auto.
Qed.

Lemma maybeSync_disk f f' e :
  maybeSync f = (f', e) ->
  (dk_pending (fl_dev f') = [] /\ e = None)
  \/ (dk_pending (fl_dev f') = dk_pending (fl_dev f) /\ dk_durable (fl_dev f') = dk_durable (fl_dev f)
      /\ (fl_sync f = SyncAlways -> e <> None)).
Proof.
  unfold maybeSync. destruct (fl_sync f) eqn:E.
  - intros [?|(?&?&?)]%doSync_disk; auto.
  - destruct (tick f) as [f1 t] eqn:Et. unfold tick in Et. injection Et as <- <-.
    destruct (_ <=? _); [|intros [= <- <-]; by right].
    intros [?|(?&?&?)]%doSync_disk; auto.
  - intros [= <- <-]. by right.
Qed.

(** After an append the disk is flushed, or holds unflushed writes past the old
    cursor only; a successful append under [SyncAlways] is flushed. *)
Lemma AppendGroup_disk f m segs g f' offs r :
  file_inv f m segs -> dk_pending (fl_dev f) = [] -> Forall Pending_wf g ->
  fl_globalSeq f + zlen g < two64 -> AppendGroup f g = (f', offs, r) ->
  (dk_pending (fl_dev f') = [] \/ grows (fl_cursor f) (fl_dev f) (fl_dev f'))
  /\ (fl_sync f = SyncAlways -> r = Ok tt -> dk_pending (fl_dev f') = []).
Proof.
  intros [Hi _] Hp Hw Hb. unfold AppendGroup. destruct g as [|p g].
  { intros [= <- <- <-]. auto. }
  destruct (append_loop f (p :: g)) as [[f1 offs1] r1] eqn:Ha.
  destruct (append_loop_inv _ _ _ _ _ _ Hi Hw Hb Ha) as (_ & _ & (_&_&_&Hsy&_) & _).
  apply (append_loop_grows _ _ _ _ _ _ Hi Hw Hb) in Ha.
  destruct r1 as [[]|e1|]; [|intros [= <- <- <-]; split; [by right|done]..].
  destruct (maybeSync f1) as [f2 e2] eqn:Hs. apply maybeSync_disk in Hs.
  intros Heq. assert (f2 = f') by (destruct e2; congruence). subst.
  destruct Hs as [[? ->]|(E1 & E2 & Hal)]; [by auto|].
  split.
  - right. destruct Ha as [? (ops & ? & ?)]. split; [congruence|]. exists ops. split; [congruence|done].
  - intros Hyes. rewrite Hsy in Hal. specialize (Hal Hyes). destruct e2; [|done]. congruence.
Qed.

(** Power loss during or after an append: the earlier log and the root are
    untouched. *)
Lemma append_crash f m segs g f' offs r img :
  file_inv f m segs -> dk_pending (fl_dev f) = [] -> Forall Pending_wf g ->
  fl_globalSeq f + zlen g < two64 -> AppendGroup f g = (f', offs, r) ->
  crash_image (fl_dev f') img -> keeps 0 (fl_cursor f) (contents (fl_dev f)) img.
Proof.
  intros Hi Hp Hw Hb Ha Himg.
  destruct (AppendGroup_disk _ _ _ _ _ _ _ Hi Hp Hw Hb Ha) as [[E|G] _].
  - rewrite (crash_flushed _ _ E Himg).
    destruct (AppendGroup_inv _ _ _ _ _ _ _ Hi Hw Hb Ha) as (_ & _ & (_&_&_&_&Hk) & _). done.
  - destruct G as [Ed (ops & Ep & Hab)]. unfold crash_image in Himg. rewrite Ed, Ep, Hp in Himg.
    cbn [app] in Himg. destruct Hi as [Hi _]. pose proof (li_cursor _ _ Hi).
    replace (contents (fl_dev f)) with (dk_durable (fl_dev f))
      by (cbn; unfold disk_contents; by rewrite Hp).
    eapply crash_keeps; [lia| |exact Hab|exact Himg].
    apply align_sector. by eapply log_aligned; [apply Hi|].
Qed.
End append_crash.

(** ** A checkpoint without an append flush

    Under [SyncNo] and [SyncEverySec] nothing orders the shard root table's blocks
    before the slot that names them: both wait for the one flush at the end of the
    commit. *)
Section unordered.
Implicit Types (f : File Disk).

(** The one-segment append of a checkpoint with no extents, on a disk that takes
    its two writes. *)
Lemma append_one_disk f m segs p fs :
  file_inv f m segs -> Pending_wf p -> fl_globalSeq f + 1 < two64 ->
  fl_cursor f + SegHeaderLen < two63 -> fl_sync f = SyncNo ->
  dk_faults (fl_dev f) = FNone :: FNone :: fs ->
  exists f1 hb, AppendGroup f [p] = (f1, [fl_cursor f], Ok tt)
    /\ fl_dev f1 = mkDisk (dk_durable (fl_dev f))
         (dk_pending (fl_dev f) ++ [OpWrite (fl_cursor f) hb; OpWrite (fl_cursor f + SegHeaderLen) (pn_Payload p)]) fs.
Proof.
  intros [Hi _] Hw Hb Hc Hsy Hf. pose proof (li_seq _ _ Hi). pose proof (li_cursor _ _ Hi).
  destruct (li_std _ _ Hi) as (_&_&_&Hk).
  cbn [AppendGroup append_loop]. rewrite (add64_small (fl_globalSeq f) 1) by lia. fsimpl. rewrite Hk.
  destruct (SegHeader_Marshal _ _ _) as [[hb h']|e|] eqn:Hm;
    [|unfold SegHeader_Marshal in Hm; by rewrite checksum_CRC32C in Hm..].
  assert (HW : forall (d : Disk) b off x, 0 <= off -> dk_faults d = FNone :: x ->
    WriteAt d b off = (disk_write d off b x, (zlen b, None))).
  { intros d b off x Ho Hd. cbn. unfold disk_WriteAt, next_fault. rewrite Hd.
    by destruct (Z.ltb_spec off 0); [lia|]. }
  rewrite (writeAt_ok _ hb _ (disk_write (fl_dev f) (fl_cursor f) hb (FNone :: fs)));
    [|lia|by apply HW; [lia|]].
  rewrite (add64_small (fl_cursor f) SegHeaderLen) by lia.
  rewrite (writeAt_ok _ (pn_Payload p) _ (disk_write (disk_write (fl_dev f) (fl_cursor f) hb (FNone :: fs))
    (fl_cursor f + SegHeaderLen) (pn_Payload p) fs)); [|lia|by apply HW; [lia|]].
  unfold maybeSync. fsimpl. rewrite Hsy. eexists _, hb. split; [reflexivity|]. fsimpl.
  unfold disk_write. cbn [dk_durable dk_pending]. by rewrite <- app_assoc.
Qed.

(** A commit whose flush fails leaves its slot write unflushed. *)
Lemma commit_unflushed f m segs c ops :
  log_inv f segs -> fl_liveSlot f = 0 \/ fl_liveSlot f = 1 ->
  fl_dev f = mkDisk c ops [FNone; FSync] ->
  exists f' b, CommitRoots f m = (f', Err ErrIO)
    /\ MetaSlot_Marshal (stamp_meta f m) ChecksumCRC32C = Ok b
    /\ fl_dev f' = mkDisk c (ops ++ [OpWrite (slot_off (1 - fl_liveSlot f)) b]) [].
Proof.
  intros Hi Hw Hd. pose proof (li_std _ _ Hi) as (_ & Ha & HB & Hk).
  unfold CommitRoots. rewrite Hk, Ha, HB.
  change (if 1 - fl_liveSlot f =? 1 then MetaSlotBOff else MetaSlotAOff)
    with (slot_off (1 - fl_liveSlot f)).
  assert (Hso : 0 <= slot_off (1 - fl_liveSlot f) < two63) by (unfold slot_off; destruct (_ =? 1); lia).
  destruct (MetaSlot_Marshal _ _) as [b|e|] eqn:Hm;
    [|unfold MetaSlot_Marshal in Hm; by rewrite checksum_CRC32C in Hm..].
  rewrite (writeAt_ok f b _ (mkDisk c (ops ++ [OpWrite (slot_off (1 - fl_liveSlot f)) b]) [FSync]));
    [|lia|].
  - cbn [Sync Disk_device fl_dev with_dev]. unfold disk_Sync, next_fault. cbn [dk_faults].
    eexists _, b. by split_and!.
  - rewrite Hd. cbn [WriteAt Disk_device]. unfold disk_WriteAt, next_fault, disk_write.
    cbn [dk_faults dk_durable dk_pending].
    by destruct (Z.ltb_spec (slot_off (1 - fl_liveSlot f)) 0); [lia|].
Qed.

(** A live root whose table lies past the end of the file. *)
Lemma recover_missing_table f segs m1 w b :
  let img := overlay (contents (fl_dev f)) (slot_off w) b in
  log_inv f segs -> zlen b = MetaSlotSize -> live_root img ChecksumCRC32C = Ok (m1, w) ->
  ms_SRTShardCount m1 = px_ShardCount (fl_prefix f) -> 0 < ms_SRTLen m1 ->
  0 <= ms_SRTOff m1 < two63 -> zlen img < ms_SRTOff m1 + ms_SRTLen m1 ->
  Recover (reboot img) = Err EOF.
Proof.
  intros img Hi Hz Hroot Hn Hl Ho Hpast.
  assert (Hi2 : log_inv (with_dev f (reboot img)) segs) by (apply (log_inv_slot f segs _ w b); (done || lia)).
  set (f0 := with_root (with_dev f (reboot img)) (ms_CommitSeq m1) w).
  assert (Hinv : file_inv f0 m1 segs) by (split; [destruct Hi2; by constructor|done]).
  pose proof (ReadOpenState_ok f0 m1 segs Hinv (or_intror Hn)) as Hos.
  change (fl_dev f0) with (reboot img) in Hos. unfold Recover. rewrite Hos.
  assert (Hsrt : forall p, ReadSRT (reboot img) p (Some m1) = Err EOF).
  { intros p. unfold ReadSRT. destruct (Z.eqb_spec (ms_SRTLen m1) 0); [lia|].
    rewrite int64_small, read_past_end by (done || lia). done. }
  cbn [os_Outcome os_Prefix os_Meta]. rewrite Hsrt. by destruct (_ =? 1).
Qed.

Lemma checkpoint_unordered f m0 segs srt stats :
  file_inv f m0 segs -> tidy f segs -> dk_pending (fl_dev f) = [] -> fl_sync f = SyncNo ->
  dk_faults (fl_dev f) = [FNone; FNone; FNone; FSync] ->
  SRT_wf srt -> CheckpointStats_wf stats ->
  SRTHeaderLen + zlen (srt_Rows srt) * SRTRowSize < two32 ->
  zlen (srt_Rows srt) = px_ShardCount (fl_prefix f) ->
  fl_globalSeq f + 2 < two64 -> fl_commitSeq f + 1 < two64 -> fl_cursor f + two32 < two63 ->
  exists f' img, Checkpoint f srt [] stats = (f', Err ErrIO)
    /\ crash_image (fl_dev f') img /\ Recover (reboot img) = Err EOF.
Proof.
  intros Hi [Ht1 Ht2] Hpend Hsy Hf Hsrt Hst Hsz Hrows Hgs Hcs Hcur.
  unfold Checkpoint, CheckpointWithGlobals.
  destruct (li_std _ _ (proj1 Hi)) as (Hps&Ha&HB&Hk). rewrite Hk.
  destruct (SRT_Marshal srt ChecksumCRC32C) as [srtBytes|e|] eqn:Hm;
    [|unfold SRT_Marshal, checksum_spans in Hm; by rewrite Z.eqb_refl in Hm..].
  pose proof (SRT_Marshal_len _ _ _ Hm) as Hlen. pose proof (zlen_nonneg (srt_Rows srt)).
  change (checkpoint_group srtBytes []) with [pending ShardOwnerless KindSRT 0 srtBytes].
  set (p := pending _ _ _ _).
  assert (Hg : Forall Pending_wf [p]) by (apply (checkpoint_group_wf srtBytes []); [lia|done]).
  pose proof (Forall_inv Hg) as Hwp.
  destruct (append_one_disk f m0 segs p [FNone; FSync] Hi Hwp) as (f1 & hb & Hap & Hdev); [lia|lia|done|done|].
  rewrite Hap. pose proof Hap as Hinv.
  apply (AppendGroup_inv _ _ _ _ _ _ _ Hi Hg) in Hinv; [|rewrite zlen_cons, zlen_nil; lia].
  cbn [length group_segs take] in Hinv.
  destruct Hinv as (Hi1 & _ & (Hp1 & Hcs1 & Hls1 & _ & _) & _ & _ & Hok).
  destruct (Hok eq_refl) as (_ & Hc1 & Hs1 & _). cbn [group_end] in Hc1. rewrite zlen_cons, zlen_nil in Hs1.
  set (gl := mkGlobals 0 0 0 0).
  assert (Hcm : checkpoint_meta srtBytes srt [] stats gl [fl_cursor f]
    = Ok (checkpoint_root 0 0 (fl_cursor f) 0 srt [] stats gl)).
  { pose proof (span_bounds srtBytes ltac:(lia)) as Hsb. pose proof (li_cursor _ _ (proj1 Hi1)).
    pose proof (li_cursor _ _ (proj1 Hi)).
    apply checkpoint_meta_ok; [done|done|lia|done|lia|].
    unfold checkpoint_group. cbn [group_end pending pn_Payload] in *. lia. }
  rewrite Hcm. clear Hcm. set (mr := checkpoint_root _ _ _ _ _ _ _ _).
  pose proof (li_cursor _ _ (proj1 Hi)).
  assert (Hmr : MetaSlot_wf mr) by (apply checkpoint_root_wf; try done; lia).
  destruct Hi as [Hi [Hroot Hcs0]]. pose proof Hroot as (Hw & Hpar & _)%live_root_slots.
  destruct (commit_unflushed f1 mr _ _ _ (proj1 Hi1) ltac:(rewrite Hls1; exact Hw) Hdev)
    as (f2 & b & Hcr & Hmb & Hdev2).
  rewrite Hls1 in Hdev2. set (m1 := stamp_meta f1 mr) in *.
  set (img := overlay (contents (fl_dev f)) (slot_off (1 - fl_liveSlot f)) b).
  exists f2, img. split; [exact Hcr|]. split.
  { unfold crash_image. rewrite Hdev2, Hpend. cbn [dk_durable dk_pending app].
    replace (dk_durable (fl_dev f)) with (contents (fl_dev f))
      by (cbn; unfold disk_contents; by rewrite Hpend).
    do 2 (eapply crash_op; [apply mix_old|]). eapply crash_op; [apply mix_new|]. constructor. }
  assert (Hseq1 : ms_CommitSeq m1 = fl_commitSeq f + 1).
  { rewrite <- Hcs1. destruct (proj2 Hi1) as [(_ & Hp1' & _)%live_root_slots Hc1'].
    eapply stamp_meta_seq; [exact Hp1'|done|lia]. }
  pose proof (li_page _ _ Hi) as Hpg. pose proof (li_cursor _ _ (proj1 Hi1)). pose proof (li_seq _ _ (proj1 Hi1)).
  assert (Hm1 : MetaSlot_wf m1) by (apply stamp_meta_wf; done).
  pose proof (slot_elects _ _ _ _ _ Hw Hpar Hpg Hm1 ltac:(lia) Hmb) as Hnew. fold img in Hnew.
  assert (Hzb : zlen b = MetaSlotSize) by (by apply MetaSlot_Marshal_ok in Hmb as (?&?&?&?)).
  assert (zlen img <= fl_cursor f).
  { pose proof (log_le _ _ _ _ _ (li_log _ _ Hi)).
    assert (MetaSlotAOff <= slot_off (1 - fl_liveSlot f) <= MetaSlotBOff)
      by (unfold slot_off; destruct (_ =? 1); lia).
    apply zlen_overlay_le; lia. }
  apply (recover_missing_table f segs m1 (1 - fl_liveSlot f) b); try done;
    unfold m1, stamp_meta, mr, checkpoint_root; cbn [ms_SRTLen ms_SRTOff]; fold img; lia.
Qed.
End unordered.

(** ** A checkpoint with an append flush *)
Section ordered.
Implicit Types (f : File Disk).

Lemma no_short_next (d : Disk) :
  no_short_write (dk_faults d) -> no_short_write (next_fault d).2.
Proof. unfold next_fault. destruct (dk_faults d); [done|]. by intros [_ ?]%Forall_cons. Qed.

Lemma no_short_writeAt f b off f' e :
  writeAt f b off = (f', e) -> no_short_write (dk_faults (fl_dev f)) ->
  no_short_write (dk_faults (fl_dev f')).
Proof.
  intros W Hn. pose proof (no_short_next _ Hn) as Hn'. unfold writeAt in W.
  cbn [WriteAt Disk_device] in W. unfold disk_WriteAt in W.
  destruct (int64 off <? 0); [by simplify_eq|].
  destruct (next_fault (fl_dev f)) as [[|k [er|]|] fs]; by simplify_eq.
Qed.

Lemma no_short_append g : forall f f' offs r,
  append_loop f g = (f', offs, r) -> no_short_write (dk_faults (fl_dev f)) ->
  no_short_write (dk_faults (fl_dev f')).
Proof.
  induction g as [|p g IH]; intros f f' offs r Ha Hn; cbn [append_loop] in Ha; [by simplify_eq|].
  destruct (SegHeader_Marshal _ _ _) as [[hb h']|e|]; [|by simplify_eq..].
  destruct (writeAt _ hb _) as [f1 [e1|]] eqn:W1; apply no_short_writeAt in W1; try done; [by simplify_eq|].
  destruct (writeAt f1 _ _) as [f2 [e2|]] eqn:W2; apply no_short_writeAt in W2; try done; [by simplify_eq|].
  destruct (append_loop _ g) as [[f4 offs4] r4] eqn:Hl. simplify_eq. by eapply IH in Hl.
Qed.

Lemma no_short_group f g f' offs r :
  AppendGroup f g = (f', offs, r) -> fl_sync f' = SyncAlways ->
  no_short_write (dk_faults (fl_dev f)) -> no_short_write (dk_faults (fl_dev f')).
Proof.
  intros Ha Hsy Hn. unfold AppendGroup in Ha. destruct g as [|p g]; [by simplify_eq|].
  destruct (append_loop f (p :: g)) as [[f1 offs1] r1] eqn:Hl. apply no_short_append in Hl; [|done].
  destruct r1 as [[]|e1|]; [|by simplify_eq..].
  destruct (maybeSync f1) as [f2 e2] eqn:Hs.
  assert (f2 = f') by (destruct e2; congruence). subst.
  pose proof (maybeSync_synced _ _ _ Hs) as (_&_&_&_&_&E&_). unfold maybeSync in Hs. rewrite <- E, Hsy in Hs.
  unfold doSync in Hs. cbn [Sync Disk_device] in Hs. unfold disk_Sync in Hs.
  pose proof (no_short_next _ Hl) as Hl'.
  destruct (next_fault (fl_dev f1)) as [[|k [er|]|] fs]; by simplify_eq.
Qed.

(** Power loss anywhere in a checkpoint under [SyncAlways]: the live root is the
    old one, or the new one with its table in place. *)
Lemma checkpoint_crash f m0 segs srt extents stats globals f' r img :
  file_inv f m0 segs -> fl_sync f = SyncAlways -> dk_pending (fl_dev f) = [] ->
  no_short_write (dk_faults (fl_dev f)) -> SRT_wf srt ->
  CheckpointStats_wf stats -> CheckpointGlobals_wf globals ->
  SRTHeaderLen + zlen (srt_Rows srt) * SRTRowSize < two32 -> zlen extents * ExtentSize < two32 ->
  fl_globalSeq f + 2 < two64 -> fl_commitSeq f + 1 < two64 -> fl_cursor f < two63 ->
  zlen (srt_Rows srt) = px_ShardCount (fl_prefix f) ->
  CheckpointWithGlobals f srt extents stats globals = (f', r) ->
  crash_image (fl_dev f') img -> zlen img < two63 ->
  live_root img ChecksumCRC32C = Ok (m0, fl_liveSlot f)
  \/ exists m1, live_root img ChecksumCRC32C = Ok (m1, 1 - fl_liveSlot f)
       /\ ReadSRT (reboot img) (fl_prefix f) (Some m1) = Ok (Some srt).
Proof.
  intros Hi Hsy Hpend Hn Hsrt Hst Hgl Hsz Hez Hgs Hcs Hcur Hrows Hck Himg Hzi.
  unfold CheckpointWithGlobals in Hck.
  destruct (li_std _ _ (proj1 Hi)) as (_&_&_&Hk). rewrite Hk in Hck.
  pose proof (li_page _ _ (proj1 Hi)). pose proof (log_le _ _ _ _ _ (li_log _ _ (proj1 Hi))).
  pose proof (proj1 (proj2 Hi)) as Hroot.
  destruct (SRT_Marshal srt ChecksumCRC32C) as [srtBytes|e|] eqn:Hm;
    [|unfold SRT_Marshal, checksum_spans in Hm; by rewrite Z.eqb_refl in Hm..].
  pose proof (SRT_Marshal_len _ _ _ Hm) as Hlen. pose proof (zlen_nonneg (srt_Rows srt)).
  assert (Hg : Forall Pending_wf (checkpoint_group srtBytes extents)) by (apply checkpoint_group_wf; lia).
  assert (zlen (checkpoint_group srtBytes extents) <= 2) as Hg2 by (unfold checkpoint_group; destruct extents; done).
  destruct (AppendGroup f _) as [[f1 offs] r1] eqn:Ha.
  destruct (AppendGroup_inv _ _ _ _ _ _ _ Hi Hg ltac:(lia) Ha) as (Hi1 & Ho & (Hp1&Hcs1&Hls1&Hsy1&_) & Hle & Hnp & Hok).
  assert (Hold : crash_image (fl_dev f1) img -> live_root img ChecksumCRC32C = Ok (m0, fl_liveSlot f)).
  { intros Hc1. rewrite <- Hroot. apply root_keeps; [done|].
    apply (keeps_mono 0 (fl_cursor f)); [lia|lia|].
    exact (append_crash f m0 segs _ f1 offs r1 img Hi Hpend Hg ltac:(lia) Ha Hc1). }
  destruct r1 as [[]|e1|]; [|left; apply Hold; by simplify_eq|done].
  destruct (Hok eq_refl) as (Hlo & Hc1 & Hs1 & _).
  rewrite Hlo, <- (length_group_segs (fl_globalSeq f + 1) (fl_cursor f) (checkpoint_group srtBytes extents)),
    take_ge in * by lia.
  pose proof (li_cursor _ _ (proj1 Hi)). pose proof (li_cursor _ _ (proj1 Hi1)).
  rewrite (checkpoint_meta_ok _ _ _ _ _ _ (fl_cursor f)) in Hck;
    [|rewrite Ho; apply group_offs_seq|done|lia|done|lia|lia].
  destruct (AppendGroup_disk _ _ _ _ _ _ _ Hi Hpend Hg ltac:(lia) Ha) as [_ Hfl].
  specialize (Hfl Hsy eq_refl). pose proof (no_short_group _ _ _ _ _ Ha ltac:(congruence) Hn) as Hn1.
  set (mr := checkpoint_root _ _ _ _ _ _ _ _) in *.
  assert (Hmr : MetaSlot_wf mr) by (apply checkpoint_root_wf; try done; lia).
  destruct (commit_images _ _ _ _ _ _ _ Hi1 Hfl Hn1 Hmr Hck Himg) as (b & Hmb & _ & [->|Eimg] & _).
  { left. rewrite <- Hls1. apply Hi1. }
  right. exists (stamp_meta f1 mr). cbv zeta in Eimg.
  destruct (committed_image f1 m0 _ mr b Hi1 Hmr ltac:(lia) Hmb) as [Hnew Hi2]. rewrite <- Eimg in Hnew, Hi2.
  rewrite Hls1 in Hnew. split; [done|]. rewrite <- Hp1.
  apply (ReadSRT_ok _ _ _ (mkSeg (fl_cursor f)
    (stamped (fl_globalSeq f + 1) (pending ShardOwnerless KindSRT 0 srtBytes)) srtBytes) srt _ Hi2);
    [unfold checkpoint_group; apply elem_of_app; right; left|done|done|done|by fsimpl; rewrite Hp1|done|].
  unfold mr, stamp_meta, checkpoint_root. cbn [ms_SRTLen sg_payload]. by rewrite Hlen.
Qed.
End ordered.
