(* ===== verification/Inspect.v ===== *)
(** Read-only tools over a file: the inspection report and the fields and findings
    derived from it (engine/f3/akifile/inspect.go), and the logical dump
    (engine/f3/akifile/dump.go). *)

From S2P Require Import Prelude Ordered Loop Crc Format Rows Headers Tables Frames Device Scan File Rebuild Recovery Regions.
From stdpp Require Import sorting strings.
#[local] Open Scope Z_scope.

(** ** The segment population *)

Record SegmentTally := mkTally {
  st_ByKind : gmap Z Z;
  st_Total : Z;
  st_DurableTail : Z
}.

(** [tally.ByKind[h.Kind]++; tally.Total++] *)
Definition tally_visit : visitor SegmentTally := fun t _ h _ =>
  VCont {| st_ByKind := <[sh_Kind h := default 0 (st_ByKind t !! sh_Kind h) + 1]> (st_ByKind t);
           st_Total := st_Total t + 1;
           st_DurableTail := st_DurableTail t |}.

Definition ScanSegments {D} `{Device D} (dev : D) (prefix : Prefix) (from size : Z) : R SegmentTally :=
  let* '(end_, tally, err) := ReplayTail dev prefix from size (Some tally_visit) (mkTally ∅ 0 0) in
  match err with
  | Some e => Err e
  | None => Ok {| st_ByKind := st_ByKind tally; st_Total := st_Total tally; st_DurableTail := end_ |}
  end.

(** ** The report *)

Record SlotReport := mkSlotReport {
  sl_Off : Z;
  sl_Valid : bool;
  sl_CommitSeq : Z;
  sl_CleanShutdown : bool;
  sl_Err : option error
}.

Record Report := mkReport {
  rp_Prefix : Prefix;
  rp_SlotA : SlotReport;
  rp_SlotB : SlotReport;
  rp_Live : Z;
  rp_LiveMeta : option MetaSlot;
  rp_PhysicalSize : Z;
  rp_SRT : option SRT;
  rp_SRTErr : option error;
  rp_Extents : list Extent;
  rp_ExtErr : option error;
  rp_TTL : list TTLClass;
  rp_TTLErr : option error;
  rp_FreeMap : list FreeExtent;
  rp_FreeMapErr : option error;
  rp_MetaKV : list MetaKVPair;
  rp_MetaKVErr : option error;
  rp_Segments : SegmentTally
}.

Section inspect.
Context {D : Type} `{Device D}.
Implicit Types (dev : D).

(** One iteration of the slot loop. *)
Definition judge_slot dev (kind off : Z) : R (SlotReport * option MetaSlot) :=
  let torn e := Ok (mkSlotReport off false 0 false (Some e), None) in
  match ReadAt dev MetaSlotSize (int64 off) with
  | (_, Some e) => torn e
  | (buf, None) =>
      match ParseMetaSlot buf kind with
      | Panic => Panic
      | Err e => torn e
      | Ok m => Ok (mkSlotReport off true (ms_CommitSeq m) (ms_CleanShutdown m =? 1) None, Some m)
      end
  end.

Definition pick_live (a b : option MetaSlot) : Z * option MetaSlot :=
  match a, b with
  | Some ma, Some mb => if ms_CommitSeq ma <? ms_CommitSeq mb then (1, b) else (0, a)
  | Some _, None => (0, a)
  | None, Some _ => (1, b)
  | None, None => (-1, None)
  end.

(** [rep.X, rep.XErr = Read...]: the error is kept beside the zero value. *)
Definition best_effort {A} (zero : A) (r : R A) : R (A * option error) :=
  match r with
  | Ok a => Ok (a, None)
  | Err e => Ok (zero, Some e)
  | Panic => Panic
  end.

Definition Inspect dev : R Report :=
  match ReadAt dev PrefixSize 0 with
  | (_, Some e) => Err e
  | (hb, None) =>
  let* prefix := ParsePrefix hb in
  let* '(slotA, ma) := judge_slot dev (px_ChecksumKind prefix) (px_MetaSlotAOff prefix) in
  let* '(slotB, mb) := judge_slot dev (px_ChecksumKind prefix) (px_MetaSlotBOff prefix) in
  let '(which, live) := pick_live ma mb in
  (* with no live root the readers answer the zero values the report starts from *)
  let* '(srt, srtErr) := best_effort None (ReadSRT dev prefix live) in
  let* '(ext, extErr) := best_effort [] (ReadExtentTable dev live) in
  let* '(ttl, ttlErr) := best_effort [] (ReadTTLIndex dev live) in
  let* '(fm, fmErr) := best_effort [] (ReadFreeMap dev prefix live) in
  let* '(kv, kvErr) := best_effort [] (ReadMetaKV dev prefix live) in
  match Device.Size dev with
  | (_, Some e) => Err e
  | (size, None) =>
  let* tally := ScanSegments dev prefix PageSize size in
  Ok {| rp_Prefix := prefix; rp_SlotA := slotA; rp_SlotB := slotB; rp_Live := which;
        rp_LiveMeta := live; rp_PhysicalSize := size;
        rp_SRT := srt; rp_SRTErr := srtErr; rp_Extents := ext; rp_ExtErr := extErr;
        rp_TTL := ttl; rp_TTLErr := ttlErr; rp_FreeMap := fm; rp_FreeMapErr := fmErr;
        rp_MetaKV := kv; rp_MetaKVErr := kvErr; rp_Segments := tally |}
  end end.
End inspect.

(** ** INFO persistence

    [DeadFraction] is the quotient of two float64 conversions: it is kept as its two
    operands, absent when the code leaves it zero. *)
Record PersistenceInfo := mkPersistence {
  pi_FileSizeLogical : Z;
  pi_FileSizePhysical : Z;
  pi_LiveBytes : Z;
  pi_DeadBytes : Z;
  pi_DeadFraction : option (Z * Z);
  pi_RecordCount : Z;
  pi_ShardCount : Z;
  pi_CkptLagBytes : Z;
  pi_LastCkptUnix : Z;
  pi_TTLNextDropUnix : Z
}.

(** The loop over the rows, keeping the earliest first tail segment in range. *)
Definition earliest_step (tail earliest : Z) (row : SRTRow) : Z :=
  let ft := sr_FirstTailSeg row in
  if (ft =? 0) || (tail <? ft) then earliest
  else if (earliest =? 0) || (ft <? earliest) then ft else earliest.

Definition next_drop_step (next : Z) (c : TTLClass) : Z :=
  let u := tc_ExpiryUpperUnix c in
  if u =? 0 then next else if (next =? 0) || (u <? next) then u else next.

Definition Persistence (r : Report) : PersistenceInfo :=
  match rp_LiveMeta r with
  | None => mkPersistence 0 0 0 0 None 0 0 0 0 0
  | Some m =>
      let total := add64 (ms_LiveBytes m) (ms_DeadBytes m) in
      let tail := st_DurableTail (rp_Segments r) in
      let earliest := match rp_SRT r with
                      | None => 0
                      | Some s => foldl (earliest_step tail) 0 (srt_Rows s)
                      end in
      {| pi_FileSizeLogical := ms_FileSize m;
         pi_FileSizePhysical := rp_PhysicalSize r;
         pi_LiveBytes := ms_LiveBytes m;
         pi_DeadBytes := ms_DeadBytes m;
         pi_DeadFraction := if 0 <? total then Some (ms_DeadBytes m, total) else None;
         pi_RecordCount := ms_RecordCount m;
         pi_ShardCount := px_ShardCount (rp_Prefix r);
         pi_CkptLagBytes := if negb (earliest =? 0) then sub64 tail earliest else 0;
         pi_LastCkptUnix := ms_LastCkptUnix m;
         pi_TTLNextDropUnix := foldl next_drop_step 0 (rp_TTL r) |}
  end.

(** ** Findings *)

Definition slotName (i : Z) : string := if i =? 1 then "B" else "A".

Section findings.
(** [Error()] of an error value, the text [%v] prints. *)
Context (Error : error -> string).

Definition finding (what : string) (e : option error) : list string :=
  match e with
  | None => []
  | Some e => [what +:+ ": " +:+ Error e]%string
  end.

(** A slot the report holds as invalid always carries the error that tore it. *)
Definition slot_finding (i : Z) (s : SlotReport) : list string :=
  if sl_Valid s then []
  else ["meta slot " +:+ slotName i +:+ " did not validate: "
          +:+ match sl_Err s with Some e => Error e | None => "<nil>" end]%string.

Definition Findings (r : Report) : list string :=
  slot_finding 0 (rp_SlotA r) ++ slot_finding 1 (rp_SlotB r)
  ++ (if rp_Live r <? 0
      then ["no trusted meta slot: both tore, recovery falls back to a full segment scan"]%string
      else [])
  ++ finding "shard root table did not read" (rp_SRTErr r)
  ++ finding "extent map did not read" (rp_ExtErr r)
  ++ finding "ttl index did not read" (rp_TTLErr r)
  ++ finding "free map did not read" (rp_FreeMapErr r)
  ++ finding "meta kv did not read" (rp_MetaKVErr r).
End findings.

(** ** The dump *)

Record DumpRecord := mkDump {
  du_Shard : Z;
  du_Key : bytes;
  du_Flags : Z;
  du_Value : bytes;
  du_ValueWord : Z;
  du_ValueLen : Z;
  du_ExpireAt : Z
}.

(** The Go zero value. *)
Definition zeroDumpRecord : DumpRecord := mkDump 0 [] 0 [] 0 0 0.

Definition dump_of (shard : Z) (row : RecordRow) : DumpRecord :=
  {| du_Shard := shard; du_Key := rr_Key row; du_Flags := rr_Flags row;
     du_Value := if negb (Z.land (rr_Flags row) RecFlagInline =? 0) then rr_Value row else [];
     du_ValueWord := rr_ValueWord row; du_ValueLen := rr_ValueLen row;
     du_ExpireAt := rr_ExpireAt row |}.

Definition is_tombstone (row : RecordRow) : bool :=
  negb (Z.land (rr_Flags row) RecFlagTombstone =? 0).

(** The closure the walk of one shard runs: fold to the live key set. *)
Definition dump_visit (shard : Z) (live : gmap bytes DumpRecord) (_ : Z) (row : RecordRow)
  : vres (gmap bytes DumpRecord) :=
  VCont (if is_tombstone row then delete (rr_Key row) live
         else <[rr_Key row := dump_of shard row]> live).

Section dump.
Context {D : Type} `{Device D} {St : Type}.
Implicit Types (f : File D).

(** [for _, k := range keys { visit(live[k]) }] *)
Fixpoint dump_keys (visit : St -> DumpRecord -> vres St) (live : gmap bytes DumpRecord)
    (keys : list bytes) (st : St) : R (St * option error) :=
  match keys with
  | [] => Ok (st, None)
  | k :: keys' =>
      match visit st (default zeroDumpRecord (live !! k)) with
      | VPanic => Panic
      | VStop st' e => Ok (st', Some e)
      | VCont st' => dump_keys visit live keys' st'
      end
  end.

(** The loop over the shards [s, s+1, ...], [n] of them; the shard number is cut to
    16 bits before it is used. *)
Fixpoint dump_shards f (visit : St -> DumpRecord -> vres St) (s : Z) (n : nat) (st : St)
  : R (St * option error) :=
  match n with
  | O => Ok (st, None)
  | S n' =>
      let shard := s mod two16 in
      let* '(live, err) := WalkShardRecords f shard PageSize (dump_visit shard) ∅ in
      match err with
      | Some e => Ok (st, Some e)
      | None =>
          let* '(st, err) := dump_keys visit live (sorted_keys live) st in
          match err with
          | Some e => Ok (st, Some e)
          | None => dump_shards f visit (s + 1) n' st
          end
      end
  end.

Definition Dump f (visit : St -> DumpRecord -> vres St) (st : St) : R (St * option error) :=
  dump_shards f visit 0 (Z.to_nat (px_ShardCount (fl_prefix f))) st.
End dump.

(** ** The report agrees with recovery *)

(** How many segments of a run have kind [k]. *)
Definition kind_count (k : Z) (segs : list seg) : Z :=
  zlen (filter (fun s => sh_Kind (sg_hdr s) = k) segs).

Lemma fold_tally segs : forall t to,
  exists t', fold_visit tally_visit t segs to = Ok (to, t', None)
    /\ st_Total t' = st_Total t + zlen segs
    /\ forall k, default 0 (st_ByKind t' !! k) = default 0 (st_ByKind t !! k) + kind_count k segs.
Proof.
  induction segs as [|s segs IH]; intros t to; cbn [fold_visit].
  { exists t. split_and!; [done|change (zlen []) with 0; lia|]. intros k. change (kind_count k []) with 0. lia. }
  unfold tally_visit at 1. destruct (IH (mkTally
      (<[sh_Kind (sg_hdr s) := default 0 (st_ByKind t !! sh_Kind (sg_hdr s)) + 1]> (st_ByKind t))
      (st_Total t + 1) (st_DurableTail t)) to) as (t' & -> & Ht & Hk).
  exists t'. split_and!; [done|rewrite Ht, zlen_cons; cbn; lia|].
  intros k. rewrite Hk. unfold kind_count. cbn [st_ByKind]. rewrite filter_cons.
  destruct (decide (sh_Kind (sg_hdr s) = k)) as [->|Hne].
  - rewrite lookup_insert_eq, zlen_cons. cbn. lia.
  - by rewrite lookup_insert_ne.
Qed.

(** A visitor that never stops a walk does not decide where it ends. *)
Definition never_stops {St} (v : visitor St) : Prop :=
  forall st off h p, exists st', v st off h p = VCont st'.

Section tail.
Context {D : Type} `{Device D} {St1 St2 : Type}.
Context (dev : D) (prefix : Prefix) (size : Z) (v1 : visitor St1) (v2 : visitor St2).
Hypothesis (Hv1 : never_stops v1) (Hv2 : never_stops v2).

Lemma ReplayTail_no_err from s1 to s1' err :
  ReplayTail dev prefix from size (Some v1) s1 = Ok (to, s1', err) -> err = None.
Proof using Hv1.
  unfold ReplayTail. destruct (loop _ _ _) as [?|x] eqn:El; [done|]. intros ->.
  apply loop_leaves in El. remember (Ok (to, s1', err)) as r eqn:Er.
  induction El as [x r Hb|x x' r Hb _ IH]; [|by apply IH].
  subst. unfold replay_body in Hb. destruct x. repeat (case_match; simplify_eq); try done.
  match goal with H : v1 ?a ?b ?c ?d = _ |- _ => destruct (Hv1 a b c d) as [? ?]; congruence end.
Qed.

(** One step of either walk moves the same cursor or ends at the same place. *)
Lemma replay_step_same c s1 s2 :
  match replay_body dev prefix size (Some v1) (c, s1) with
  | inl (c', _) => exists s2', replay_body dev prefix size (Some v2) (c, s2) = inl (c', s2')
  | inr (Ok (to, _, None)) =>
      exists s2', replay_body dev prefix size (Some v2) (c, s2) = inr (Ok (to, s2', None))
  | inr _ => True
  end.
Proof.
  unfold replay_body. repeat case_match; simplify_eq; try done; eauto;
    repeat match goal with
    | H : v2 ?a ?b ?c ?d = _ |- _ => destruct (Hv2 a b c d) as [? ?]; congruence
    | H : v1 ?a ?b ?c ?d = VStop _ _ |- _ => destruct (Hv1 a b c d) as [? ?]; congruence
    end.
  all: match goal with |- context [v2 ?a ?b ?c ?d] => destruct (Hv2 a b c d) as [? ->]; eauto end.
Qed.

Lemma replay_same_end c s1 s2 to s1' :
  leaves (replay_body dev prefix size (Some v1)) (c, s1) (Ok (to, s1', None)) ->
  exists s2', leaves (replay_body dev prefix size (Some v2)) (c, s2) (Ok (to, s2', None)).
Proof.
  remember (c, s1) as x eqn:Ex. remember (Ok (to, s1', None)) as r eqn:Er. intros Hl.
  revert c s1 s2 Ex. induction Hl as [x r Hb|x x' r Hb _ IH]; intros c s1 s2 ->; subst;
    pose proof (replay_step_same c s1 s2) as Hs; rewrite Hb in Hs.
  - destruct Hs as [s2' Hs]. exists s2'. by apply leaves_now.
  - destruct x' as [c' s1'']. destruct Hs as [s2' Hs].
    destruct (IH eq_refl c' s1'' s2' eq_refl) as [s3 H3]. exists s3. by eapply leaves_step.
Qed.

Lemma ReplayTail_same_end from s1 s2 to1 r1 to2 r2 :
  ReplayTail dev prefix from size (Some v1) s1 = Ok (to1, r1, None) ->
  ReplayTail dev prefix from size (Some v2) s2 = Ok (to2, r2, None) -> to1 = to2.
Proof.
  unfold ReplayTail. destruct (loop _ _ _) as [?|x1] eqn:E1; [done|]. intros ->.
  destruct (loop _ _ (_, s2)) as [?|x2] eqn:E2; [done|]. intros ->.
  apply loop_leaves in E1. apply loop_leaves in E2.
  destruct (replay_same_end _ _ s2 _ _ E1) as [r Hl].
  pose proof (leaves_det _ _ _ _ E2 Hl). by simplify_eq.
Qed.
End tail.

#[local] Opaque loop ParsePrefix ParseMetaSlot.

Section agreement.
Context {D : Type} `{Device D}.
Implicit Types (dev : D).

(** The two slot readings of a report elect what [MetaLive] elects. *)
Lemma judge_elects dev kind offA offB a b sa sb ma mb :
  ReadAt dev MetaSlotSize (int64 offA) = (a, None) -> ReadAt dev MetaSlotSize (int64 offB) = (b, None) ->
  judge_slot dev kind offA = Ok (sa, ma) -> judge_slot dev kind offB = Ok (sb, mb) ->
  match MetaLive a b kind with
  | Ok (live, which) => pick_live ma mb = (which, Some live)
  | Err _ => pick_live ma mb = (-1, None)
  | Panic => False
  end.
Proof.
  intros Ha Hb. unfold judge_slot. rewrite Ha, Hb. intros Ja Jb. unfold MetaLive, pick_live.
  destruct (ParseMetaSlot a kind), (ParseMetaSlot b kind); simplify_eq; try done.
  all: destruct (_ <? _); done.
Qed.

(** What a finished report is made of. *)
Lemma Inspect_parts dev rep :
  Inspect dev = Ok rep ->
  exists hb ma mb, ReadAt dev PrefixSize 0 = (hb, None) /\ ParsePrefix hb = Ok (rp_Prefix rep)
    /\ judge_slot dev (px_ChecksumKind (rp_Prefix rep)) (px_MetaSlotAOff (rp_Prefix rep)) = Ok (rp_SlotA rep, ma)
    /\ judge_slot dev (px_ChecksumKind (rp_Prefix rep)) (px_MetaSlotBOff (rp_Prefix rep)) = Ok (rp_SlotB rep, mb)
    /\ pick_live ma mb = (rp_Live rep, rp_LiveMeta rep)
    /\ Device.Size dev = (rp_PhysicalSize rep, None)
    /\ ScanSegments dev (rp_Prefix rep) PageSize (rp_PhysicalSize rep) = Ok (rp_Segments rep).
Proof.
  unfold Inspect. destruct (ReadAt dev PrefixSize 0) as [hb [e|]]; [done|].
  destruct (ParsePrefix hb) as [prefix|e|] eqn:Ep; [|done|done].
  destruct (judge_slot dev _ (px_MetaSlotAOff prefix)) as [[sa ma]|e|] eqn:Ea; [|done|done].
  destruct (judge_slot dev _ (px_MetaSlotBOff prefix)) as [[sb mb]|e|] eqn:Eb; [|done|done].
  destruct (pick_live ma mb) as [which live] eqn:El.
  repeat match goal with
  | |- context [best_effort ?z ?r] => destruct (best_effort z r) as [[? ?]|?|]; [|done|done]
  end.
  destruct (Device.Size dev) as [size [e|]]; [done|].
  destruct (ScanSegments dev prefix PageSize size) as [t|e|] eqn:Et; [|done|done].
  intros [= <-]. by exists hb, ma, mb.
Qed.

Lemma Inspect_ReadOpenState dev rep st :
  Inspect dev = Ok rep -> ReadOpenState dev = Ok st ->
  rp_Prefix rep = os_Prefix st /\ rp_LiveMeta rep = os_Meta st /\ rp_Live rep = os_Which st.
Proof.
  intros (hb & ma & mb & Hr & Hp & Ja & Jb & Hl & _)%Inspect_parts.
  unfold ReadOpenState. rewrite Hr, Hp.
  destruct (ReadAt dev MetaSlotSize (int64 (px_MetaSlotAOff _))) as [a [e|]] eqn:Ea; [done|].
  destruct (ReadAt dev MetaSlotSize (int64 (px_MetaSlotBOff _))) as [b [e|]] eqn:Eb; [done|].
  pose proof (judge_elects _ _ _ _ _ _ _ _ _ _ Ea Eb Ja Jb) as Hm.
  destruct (MetaLive a b _) as [[live which]|e|]; [| |done]; rewrite Hl in Hm.
  - case_match; [done|]. intros [= <-]. cbn. by simplify_eq.
  - intros [= <-]. cbn. by simplify_eq.
Qed.

Lemma scan_visit_never : never_stops scan_visit.
Proof. intros st off h p. by eexists. Qed.
Lemma tally_visit_never : never_stops tally_visit.
Proof. intros st off h p. by eexists. Qed.

Lemma Inspect_OpenOnDevice dev rep time_Now opts f :
  Inspect dev = Ok rep -> OpenOnDevice time_Now dev opts = Ok f ->
  px_PageSize (rp_Prefix rep) = PageSize ->
  fl_prefix f = rp_Prefix rep /\ fl_liveSlot f = rp_Live rep
  /\ (ms_CommitSeq <$> rp_LiveMeta rep) = Some (fl_commitSeq f)
  /\ fl_cursor f = st_DurableTail (rp_Segments rep).
Proof.
  intros (hb & ma & mb & Hr & Hp & Ja & Jb & Hl & Hs & Ht)%Inspect_parts Ho Hpg.
  unfold OpenOnDevice in Ho. rewrite Hr, Hp, Hs in Ho.
  destruct (ReadAt dev MetaSlotSize (int64 (px_MetaSlotAOff _))) as [a [e|]] eqn:Ea; [done|].
  destruct (ReadAt dev MetaSlotSize (int64 (px_MetaSlotBOff _))) as [b [e|]] eqn:Eb; [done|].
  pose proof (judge_elects _ _ _ _ _ _ _ _ _ _ Ea Eb Ja Jb) as Hm.
  destruct (MetaLive a b _) as [[live which]|e|]; [|done|done]. rewrite Hl in Hm.
  unfold scanTail in Ho. rewrite Hpg in Ho.
  destruct (ReplayTail _ _ _ _ (Some scan_visit) _) as [[[cur seq] err]|e|] eqn:E1; [|done|done].
  unfold ScanSegments in Ht.
  destruct (ReplayTail _ _ _ _ (Some tally_visit) _) as [[[cur' t] [e|]]|e|] eqn:E2; try done.
  pose proof (ReplayTail_no_err _ _ _ _ scan_visit_never _ _ _ _ _ E1) as ->.
  assert (cur = cur') as ->
    by (eapply ReplayTail_same_end; [apply tally_visit_never|exact E1|exact E2]).
  injection Ho as <-. injection Ht as Ht. injection Hm as -> Hm. rewrite <- Ht, Hm. by split_and!.
Qed.
End agreement.

(** The tally is the population of the log the report walked, whatever the device
    holds. *)
Lemma ScanSegments_sound {D} `{DeviceLaws D} (dev : D) prefix size t :
  ScanSegments dev prefix PageSize size = Ok t ->
  exists segs, log (contents dev) (px_ChecksumKind prefix) PageSize segs (st_DurableTail t)
    /\ st_Total t = zlen segs
    /\ forall k, default 0 (st_ByKind t !! k) = kind_count k segs.
Proof.
  unfold ScanSegments.
  destruct (ReplayTail _ _ _ _ _ _) as [[[to t'] [e|]]|e|] eqn:E; try done. intros [= <-].
  apply ReplayTail_sound in E as (segs & to' & Hl & Hf & _); [|lia].
  destruct (fold_tally segs (mkTally ∅ 0 0) to') as (t1 & Hf1 & Ht & Hk).
  rewrite Hf1 in Hf. simplify_eq. exists segs. split_and!; [done|done|].
  intros k. cbn [st_ByKind]. rewrite Hk. cbn. by rewrite lookup_empty.
Qed.

(** ** The dump is the live key set *)

Definition row_step (shard : Z) (live : gmap bytes DumpRecord) (p : Z * RecordRow) : gmap bytes DumpRecord :=
  if is_tombstone p.2 then delete (rr_Key p.2) live
  else <[rr_Key p.2 := dump_of shard p.2]> live.

(** The last record logged for a key. *)
Definition last_row (k : bytes) (rs : list (Z * RecordRow)) : option RecordRow :=
  snd <$> last (filter (fun p => rr_Key p.2 = k) rs).

Lemma last_row_snoc k rs a row :
  last_row k (rs ++ [(a, row)]) = if decide (rr_Key row = k) then Some row else last_row k rs.
Proof.
  unfold last_row. rewrite filter_app. cbn. case_decide.
  - by rewrite last_snoc.
  - by rewrite app_nil_r.
Qed.

Lemma last_row_key k rs row : last_row k rs = Some row -> rr_Key row = k.
Proof.
  unfold last_row. rewrite fmap_Some. intros ([a r] & Hl & ->).
  apply last_Some_elem_of in Hl. by apply list_elem_of_filter in Hl as [? _].
Qed.

Lemma row_fold_lookup shard rs k :
  foldl (row_step shard) ∅ rs !! k
  = match last_row k rs with
    | Some row => if is_tombstone row then None else Some (dump_of shard row)
    | None => None
    end.
Proof.
  induction rs as [|[a row] rs IH] using rev_ind; [done|].
  rewrite foldl_app, last_row_snoc. cbn [foldl]. unfold row_step at 1. cbn.
  destruct (decide (rr_Key row = k)) as [<-|Hne].
  - destruct (is_tombstone row); [apply lookup_delete_eq|apply lookup_insert_eq].
  - destruct (is_tombstone row); [rewrite lookup_delete_ne|rewrite lookup_insert_ne]; done.
Qed.

Lemma fold_dump_visit shard rs live :
  fold_items (fun st '(a, row) => dump_visit shard st a row) live rs = VCont (foldl (row_step shard) live rs).
Proof. revert live. induction rs as [|[a row] rs IH]; intros live; [done|]. cbn. apply IH. Qed.

(** What one shard contributes, in the order it is visited. *)
Definition shard_dump (live : gmap bytes DumpRecord) : list DumpRecord :=
  (fun k => default zeroDumpRecord (live !! k)) <$> sorted_keys live.

Lemma dump_keys_fold {St} (visit : St -> DumpRecord -> vres St) live keys st :
  dump_keys visit live keys st
  = walk_result (fold_items visit st ((fun k => default zeroDumpRecord (live !! k)) <$> keys)).
Proof.
  revert st. induction keys as [|k keys IH]; intros st; [done|]. cbn.
  by destruct (visit st _).
Qed.

Lemma shard_dump_elem shard rs d :
  d ∈ shard_dump (foldl (row_step shard) ∅ rs) <->
  exists row, last_row (rr_Key row) rs = Some row /\ is_tombstone row = false /\ d = dump_of shard row.
Proof.
  unfold shard_dump. rewrite list_elem_of_fmap. split.
  - intros (k & -> & [d' Hk]%sorted_keys_elem). rewrite Hk. cbn. rewrite row_fold_lookup in Hk.
    destruct (last_row k rs) as [row|] eqn:E; [|done]. pose proof (last_row_key _ _ _ E) as <-.
    destruct (is_tombstone row) eqn:Et; [done|]. exists row. by simplify_eq.
  - intros (row & Hl & Ht & ->). exists (rr_Key row).
    pose proof (row_fold_lookup shard rs (rr_Key row)) as E. rewrite Hl, Ht in E.
    split; [by rewrite E|]. apply sorted_keys_elem. by rewrite E.
Qed.

Lemma shard_dump_keys shard rs :
  du_Key <$> shard_dump (foldl (row_step shard) ∅ rs) = sorted_keys (foldl (row_step shard) ∅ rs).
Proof.
  unfold shard_dump. rewrite <- list_fmap_compose. rewrite <- (list_fmap_id (sorted_keys _)) at 2.
  apply list_fmap_ext. intros i k Hk. cbn.
  apply list_elem_of_lookup_2, sorted_keys_elem in Hk as [d Hd]. rewrite Hd. cbn.
  rewrite row_fold_lookup in Hd. destruct (last_row k rs) as [row|] eqn:E; [|done].
  pose proof (last_row_key _ _ _ E) as <-. by destruct (is_tombstone row); simplify_eq.
Qed.

Lemma dump_shards_log {D} `{DeviceLaws D} {St} f m segs rows (visit : St -> DumpRecord -> vres St) n : forall s st,
  file_inv f m segs -> fl_cursor f < two63 -> Forall (cut_from rows) segs ->
  0 <= s -> s + Z.of_nat n <= two16 ->
  dump_shards f visit s n st
  = walk_result (fold_items visit st
      (concat (map (fun i => let shard := s + Z.of_nat i in
                 shard_dump (foldl (row_step shard) ∅ (concat (map (shard_records shard rows) segs))))
               (seq 0 n)))).
Proof.
  induction n as [|n IH]; intros s st Hi Hc Hcut Hs Hn; [done|].
  cbn [dump_shards]. rewrite Z.mod_small by lia.
  rewrite (WalkShardRecords_log f m segs rows) by done. rewrite fold_dump_visit. cbn [walk_result].
  rewrite dump_keys_fold. cbn [seq map concat]. rewrite fold_items_app.
  change (Z.of_nat 0) with 0. rewrite Z.add_0_r. fold (shard_dump (foldl (row_step s) ∅ (concat (map (shard_records s rows) segs)))).
  destruct (fold_items visit st (shard_dump _)) as [st'|st' e|]; [|done|done]. cbn [walk_result].
  rewrite IH by (done || lia). do 2 f_equal. f_equal.
  rewrite <- seq_shift, map_map. apply map_ext. intros i. cbv zeta.
  by replace (s + 1 + Z.of_nat i) with (s + Z.of_nat (S i)) by lia.
Qed.

(** ** Derived fields *)

Definition in_tail (tail : Z) (row : SRTRow) : Prop := 0 < sr_FirstTailSeg row <= tail.

(** The row loop keeps the least first tail segment at or before the tail. *)
Lemma fold_earliest tail rows :
  Forall (fun r => 0 <= sr_FirstTailSeg r) rows ->
  let e := foldl (earliest_step tail) 0 rows in
  (e = 0 /\ Forall (fun r => ~ in_tail tail r) rows)
  \/ ((exists r, r ∈ rows /\ in_tail tail r /\ e = sr_FirstTailSeg r)
      /\ Forall (fun r => in_tail tail r -> e <= sr_FirstTailSeg r) rows).
Proof.
  induction rows as [|r rows IH] using rev_ind; intros Hf; [by left|].
  apply Forall_app in Hf as [Hf Hr]. rewrite Forall_singleton in Hr. specialize (IH Hf). cbv zeta in *.
  rewrite foldl_app. cbn [foldl]. set (e := foldl (earliest_step tail) 0 rows) in *.
  setoid_rewrite elem_of_app. setoid_rewrite list_elem_of_singleton. rewrite !Forall_app, !Forall_singleton.
  unfold earliest_step. unfold in_tail in *.
  destruct (Z.eqb_spec (sr_FirstTailSeg r) 0) as [E0|E0]; cbn [orb].
  { destruct IH as [[? ?]|[(r' & ? & ? & ?) ?]]; [left|right]; split_and!; try done; try lia.
    exists r'; auto. }
  destruct (Z.ltb_spec tail (sr_FirstTailSeg r)) as [El|El].
  { destruct IH as [[? ?]|[(r' & ? & ? & ?) ?]]; [left|right]; split_and!; try done; try lia.
    exists r'; auto. }
  right. destruct IH as [[He Hn]|[(r' & Hin & Ht & He) Hmin]].
  - rewrite He. cbn. split_and!; [exists r; split_and!; auto; lia| |lia].
    eapply Forall_impl; [exact Hn|]. cbn. intros; lia.
  - destruct (Z.eqb_spec e 0); [lia|]. cbn [orb].
    destruct (Z.ltb_spec (sr_FirstTailSeg r) e); split_and!; try lia; try done.
    + exists r; split_and!; auto; lia.
    + eapply Forall_impl; [exact Hmin|]. cbn. intros; lia.
    + exists r'; auto.
Qed.

Lemma Persistence_lag_eq r m s :
  rp_LiveMeta r = Some m -> rp_SRT r = Some s -> is_u64 (st_DurableTail (rp_Segments r)) ->
  Forall (fun row => 0 <= sr_FirstTailSeg row) (srt_Rows s) ->
  let tail := st_DurableTail (rp_Segments r) in
  let lag := pi_CkptLagBytes (Persistence r) in
  0 <= lag <= tail
  /\ Forall (fun row => in_tail tail row -> tail - sr_FirstTailSeg row <= lag) (srt_Rows s)
  /\ (lag = 0 \/ exists row, row ∈ srt_Rows s /\ in_tail tail row /\ lag = tail - sr_FirstTailSeg row).
Proof.
  intros Hm Hs Ht Hf. unfold Persistence. rewrite Hm, Hs. cbn zeta. cbn [pi_CkptLagBytes].
  set (tail := st_DurableTail _) in *. pose proof (fold_earliest tail _ Hf) as He. cbv zeta in He.
  set (e := foldl _ 0 (srt_Rows s)) in *. destruct He as [[He Hn]|[(row & Hin & Hr & He) Hmin]].
  - rewrite He. cbn. split_and!; [lia|lia| |by left].
    eapply Forall_impl; [exact Hn|]. cbn. intros row Hn' Hi. done.
  - unfold in_tail in *. destruct (Z.eqb_spec e 0); [lia|]. cbn [negb].
    unfold sub64. rewrite Z.mod_small by lia. split_and!; [lia|lia| |right; exists row; split_and!; auto; lia].
    eapply Forall_impl; [exact Hmin|]. cbn. intros; lia.
Qed.

Lemma finding_nil Error what e : finding Error what e = [] <-> e = None.
Proof. by destruct e. Qed.

Lemma slot_finding_nil Error i s : slot_finding Error i s = [] <-> sl_Valid s = true.
Proof. unfold slot_finding. by destruct (sl_Valid s). Qed.

Lemma Findings_nil Error r :
  Findings Error r = [] <->
  sl_Valid (rp_SlotA r) = true /\ sl_Valid (rp_SlotB r) = true /\ 0 <= rp_Live r
  /\ rp_SRTErr r = None /\ rp_ExtErr r = None /\ rp_TTLErr r = None
  /\ rp_FreeMapErr r = None /\ rp_MetaKVErr r = None.
Proof.
  unfold Findings. rewrite !app_nil, !finding_nil, !slot_finding_nil.
  destruct (Z.ltb_spec (rp_Live r) 0); split; intros; split_and!; try tauto; (lia || naive_solver lia).
Qed.

(** ** The report of a consistent file *)

(** None of the readers behind the root panics on what the device holds. *)
Definition roots_read {D} `{Device D} (dev : D) (prefix : Prefix) (m : MetaSlot) : Prop :=
  no_panic (ReadSRT dev prefix (Some m)) /\ no_panic (ReadExtentTable dev (Some m))
  /\ no_panic (ReadTTLIndex dev (Some m)) /\ no_panic (ReadFreeMap dev prefix (Some m))
  /\ no_panic (ReadMetaKV dev prefix (Some m)).

Lemma best_effort_total {A} (zero : A) r : no_panic r -> exists x, best_effort zero r = Ok x.
Proof. intros Hr. destruct r as [a|e|]; [by eexists..|done]. Qed.

Lemma judge_slot_total {D} `{Device D} (dev : D) kind off : exists x, judge_slot dev kind off = Ok x.
Proof.
  unfold judge_slot. destruct (ReadAt dev _ _) as [buf [e|]]; [by eexists|].
  pose proof (ParseMetaSlot_no_panic buf kind) as Hn. destruct (ParseMetaSlot buf kind); [by eexists..|done].
Qed.

Lemma Inspect_file {D} `{DeviceLaws D} (f : File D) m segs :
  file_inv f m segs -> fl_cursor f < two63 -> zlen (contents (fl_dev f)) < two63 ->
  torn (contents (fl_dev f)) ChecksumCRC32C (zlen (contents (fl_dev f))) (fl_cursor f) ->
  roots_read (fl_dev f) (fl_prefix f) m ->
  exists rep, Inspect (fl_dev f) = Ok rep
    /\ rp_Prefix rep = fl_prefix f /\ rp_Live rep = fl_liveSlot f /\ rp_LiveMeta rep = Some m
    /\ st_DurableTail (rp_Segments rep) = fl_cursor f /\ st_Total (rp_Segments rep) = zlen segs
    /\ forall k, default 0 (st_ByKind (rp_Segments rep) !! k) = kind_count k segs.
Proof.
  intros [Hi [Hroot Hcs]] Hc Hz Ht (R1 & R2 & R3 & R4 & R5).
  destruct Hi as [Hr Hp (Hps&Ha&Hb&Hk) Hpg Hl _ _ _].
  destruct (judge_slot_total (fl_dev f) (px_ChecksumKind (fl_prefix f)) (px_MetaSlotAOff (fl_prefix f))) as [[sa ma] Ja].
  destruct (judge_slot_total (fl_dev f) (px_ChecksumKind (fl_prefix f)) (px_MetaSlotBOff (fl_prefix f))) as [[sb mb] Jb].
  assert (pick_live ma mb = (fl_liveSlot f, Some m)) as Hpick.
  { epose proof (judge_elects (fl_dev f) _ _ _ _ _ _ _ _ _ _ _ Ja Jb) as Hm.
    unfold live_root in Hroot. rewrite Hk, Hroot in Hm. exact Hm.
    Unshelve. all: rewrite ?Ha, ?Hb, ?int64_small, read_inside by (done || lia); done. }
  unfold Inspect. rewrite read_inside, Hp by (done || lia). rewrite Ja, Jb, Hpick.
  destruct (best_effort_total None _ R1) as [[? ?] ->]. destruct (best_effort_total [] _ R2) as [[? ?] ->].
  destruct (best_effort_total [] _ R3) as [[? ?] ->]. destruct (best_effort_total [] _ R4) as [[? ?] ->].
  destruct (best_effort_total [] _ R5) as [[? ?] ->]. rewrite size_readable by done.
  destruct (fold_tally segs (mkTally ∅ 0 0) (fl_cursor f)) as (t & Hf & Htot & Hkind).
  unfold ScanSegments. rewrite (ReplayTail_log _ _ _ _ _ _ segs (fl_cursor f)); rewrite ?Hk; try done.
  2: { intros s Hin. by apply (log_seg_at _ _ _ _ _ _ Hl) in Hin as (?&?&?). }
  rewrite Hf. eexists. split; [reflexivity|]. cbn [rp_Prefix rp_Live rp_LiveMeta rp_Segments st_DurableTail st_Total st_ByKind].
  split_and!; [done..|rewrite Htot; done|]. intros k. rewrite Hkind. cbn. by rewrite lookup_empty.
Qed.
