(* ===== verification/Decimal.v ===== *)
(** Decimal text: the digit loops of f3srv/resp/write.go, [strconv.AppendInt] in base
    ten, and the strict integer parser of engine/f3/store/str.go ([ParseInt]). *)

From S2P Require Import Prelude Format.
#[local] Open Scope Z_scope.

Definition digit (d : Z) : byte := Z_byte (48 + d).

(** [declen(u)]: a uint64 has at most 20 digits, so 20 steps always end. *)
Fixpoint declen_loop (fuel : nat) (u n : Z) : Z :=
  match fuel with
  | O => n
  | S fuel' => if 10 <=? u then declen_loop fuel' (u / 10) (n + 1) else n
  end.

Definition declen (u : Z) : Z := declen_loop 20 u 1.

(** The loop of [putDecimal]: [i--; dst[i] = '0' + u%10; u /= 10] until [u] is 0. *)
Fixpoint putDecimal_loop (fuel : nat) (dst : bytes) (i u : Z) : bytes :=
  match fuel with
  | O => dst
  | S fuel' =>
      let i := i - 1 in
      let dst := put dst i [digit (u mod 10)] in
      if u / 10 =? 0 then dst else putDecimal_loop fuel' dst i (u / 10)
  end.

(** The digits of [u], most significant first. *)
Fixpoint dec_loop (fuel : nat) (u : Z) (acc : bytes) : bytes :=
  match fuel with
  | O => acc
  | S fuel' =>
      let acc := digit (u mod 10) :: acc in
      if u / 10 =? 0 then acc else dec_loop fuel' (u / 10) acc
  end.

Definition dec (u : Z) : bytes := dec_loop 20 u [].

(** [strconv.FormatInt(n, 10)] *)
Definition FormatInt (n : Z) : bytes := if n <? 0 then x2d :: dec (- n) else dec n.

Definition isDigit (c : byte) : bool := (48 <=? byte_Z c) && (byte_Z c <=? 57).

(** [ParseInt]: the digit loop under the limit of the sign. *)
Fixpoint ParseInt_loop (lim : Z) (b : bytes) (u : Z) : option Z :=
  match b with
  | [] => Some u
  | c :: b' =>
      if negb (isDigit c) then None else
      let d := byte_Z c - 48 in
      if (lim - d) / 10 <? u then None else ParseInt_loop lim b' (u * 10 + d)
  end.

Definition MaxInt64 : Z := 9223372036854775807.

Definition ParseInt (b : bytes) : option Z :=
  if (zlen b =? 0) || (20 <? zlen b) then None else
  let neg := match b with c :: _ => byte_Z c =? 45 | [] => false end in
  if neg && (zlen b =? 1) then None else
  let ds := if neg then tail b else b in
  match ds with
  | [] => None
  | c :: _ =>
      if byte_Z c =? 48 then (if negb neg && (zlen b =? 1) then Some 0 else None)
      else
        let lim := if neg then MaxInt64 + 1 else MaxInt64 in
        u ← ParseInt_loop lim ds 0;
        Some (if neg then (if u =? lim then - (MaxInt64 + 1) else - u) else u)
  end.

(** ** Digit strings *)

Definition digits_val (b : bytes) : Z := foldl (fun v c => v * 10 + (byte_Z c - 48)) 0 b.

(** No leading zero, except alone. *)
Definition canonical (b : bytes) : Prop :=
  Forall (fun c => isDigit c = true) b /\ b <> [] /\ (byte_Z <$> head b = Some 48 -> zlen b = 1).

Lemma isDigit_spec c : isDigit c = true <-> 48 <= byte_Z c <= 57.
Proof. unfold isDigit. rewrite andb_true_iff, !Z.leb_le. done. Qed.

Lemma byte_digit d : 0 <= d < 10 -> byte_Z (digit d) = 48 + d.
Proof. intros. unfold digit. rewrite byte_Z_Z_byte, Z.mod_small; lia. Qed.

Lemma digits_val_snoc b c : digits_val (b ++ [c]) = digits_val b * 10 + (byte_Z c - 48).
Proof. unfold digits_val. by rewrite foldl_app. Qed.

Lemma digits_val_one c : digits_val [c] = byte_Z c - 48.
Proof. done. Qed.

Lemma digits_val_acc b v :
  foldl (fun v c => v * 10 + (byte_Z c - 48)) v b = v * 10 ^ zlen b + digits_val b.
Proof.
  unfold digits_val. revert v. induction b as [|c b IH] using rev_ind; intros v.
  { change (zlen []) with 0. cbn. lia. }
  rewrite !foldl_app, zlen_app. cbn [foldl]. rewrite IH. change (zlen [c]) with 1.
  rewrite Z.pow_add_r by (pose proof (zlen_nonneg b); lia). lia.
Qed.

Lemma digits_val_cons c b : digits_val (c :: b) = (byte_Z c - 48) * 10 ^ zlen b + digits_val b.
Proof. unfold digits_val at 1. cbn [foldl]. rewrite digits_val_acc. lia. Qed.

Lemma digits_val_range b :
  Forall (fun c => isDigit c = true) b -> 0 <= digits_val b < 10 ^ zlen b.
Proof.
  induction b as [|c b IH]; intros Hf; [done|]. apply Forall_cons in Hf as [Hc%isDigit_spec Hf].
  specialize (IH Hf). rewrite digits_val_cons, zlen_cons.
  rewrite Z.pow_add_r by (pose proof (zlen_nonneg b); lia). nia.
Qed.

(** A canonical string is determined by its value. *)
Lemma canonical_inj b b' :
  canonical b -> canonical b' -> digits_val b = digits_val b' -> b = b'.
Proof.
  revert b'. induction b as [|c b IH] using rev_ind; intros b' (Hd & Hn & Hz) (Hd' & Hn' & Hz') E; [done|].
  destruct b' as [|c' b' _] using rev_ind; [done|].
  rewrite !digits_val_snoc in E. apply Forall_app in Hd as [Hd Hc]. apply Forall_app in Hd' as [Hd' Hc'].
  rewrite Forall_singleton, isDigit_spec in Hc. rewrite Forall_singleton, isDigit_spec in Hc'.
  pose proof (digits_val_range _ Hd) as Hr. pose proof (digits_val_range _ Hd') as Hr'.
  assert (byte_Z c = byte_Z c' /\ digits_val b = digits_val b') as [Ec Ev] by lia.
  apply byte_Z_inj in Ec as ->. f_equal.
  assert (forall l x, Forall (fun c => isDigit c = true) l -> l <> [] ->
    (byte_Z <$> head (l ++ [x]) = Some 48 -> zlen (l ++ [x]) = 1) -> 0 < digits_val l /\ canonical l) as Hpre.
  { intros l x Hl Hne Hh. destruct l as [|a l]; [done|]. cbn in Hh. rewrite zlen_cons, zlen_app in Hh.
    change (zlen [x]) with 1 in Hh. pose proof (zlen_nonneg l).
    apply Forall_cons in Hl as [Ha Hl]. pose proof (digits_val_range l Hl). apply isDigit_spec in Ha as Ha'.
    assert (byte_Z a <> 48) by (intros Ea; rewrite Ea in Hh; specialize (Hh eq_refl); lia).
    assert (0 < 10 ^ zlen l) by (apply Z.pow_pos_nonneg; lia).
    split; [rewrite digits_val_cons; nia|]. split_and!; [by constructor|done|]. cbn. intros [=]. lia. }
  destruct b as [|x b0]; destruct b' as [|y b0']; try done.
  - destruct (Hpre (y :: b0') c' Hd' ltac:(done) Hz'). change (digits_val []) with 0 in Ev. lia.
  - destruct (Hpre (x :: b0) c' Hd ltac:(done) Hz). change (digits_val []) with 0 in Ev. lia.
  - apply IH; [by eapply Hpre|by eapply Hpre|done].
Qed.

Lemma dec_loop_spec fuel : forall u acc,
  0 <= u < 10 ^ Z.of_nat fuel -> (0 < fuel)%nat ->
  exists l, dec_loop fuel u acc = l ++ acc /\ canonical l /\ digits_val l = u.
Proof.
  induction fuel as [|fuel IH]; intros u acc Hu Hf; [lia|]. cbn [dec_loop].
  pose proof (Z.div_mod u 10 ltac:(lia)) as Hd. pose proof (Z.mod_pos_bound u 10 ltac:(lia)) as Hm.
  pose proof (byte_digit (u mod 10) Hm) as Hb.
  assert (Hdig : isDigit (digit (u mod 10)) = true) by (apply isDigit_spec; lia).
  destruct (Z.eqb_spec (u / 10) 0) as [E|E].
  - exists [digit (u mod 10)]. split_and!; [done| |].
    + by split_and!; [constructor|done|done].
    + rewrite digits_val_one, Hb. lia.
  - destruct fuel as [|fuel].
    { change (10 ^ Z.of_nat 1) with 10 in Hu. rewrite Z.div_small in E by lia. done. }
    destruct (IH (u / 10) (digit (u mod 10) :: acc)) as (l & -> & (Hl & Hn & Hz) & Hv); [|lia|].
    { rewrite Nat2Z.inj_succ, Z.pow_succ_r in Hu by lia.
      split; [apply Z.div_pos; lia|apply Z.div_lt_upper_bound; lia]. }
    exists (l ++ [digit (u mod 10)]). split_and!; [by rewrite <- app_assoc| |].
    + split_and!; [apply Forall_app; by split; [|constructor]|by destruct l|].
      destruct l as [|a l]; [done|]. cbn. intros [= Ha]. exfalso. specialize (Hz (f_equal Some Ha)).
      destruct l; [|rewrite !zlen_cons in Hz; pose proof (zlen_nonneg l); lia].
      rewrite digits_val_one in Hv. lia.
    + rewrite digits_val_snoc, Hv, Hb. lia.
Qed.

Lemma dec_spec u : is_u64 u -> canonical (dec u) /\ digits_val (dec u) = u.
Proof.
  intros Hu. destruct (dec_loop_spec 20 u []) as (l & E & ? & ?); [cbn; lia|lia|].
  rewrite app_nil_r in E. unfold dec. by rewrite E.
Qed.

Lemma canonical_dec b : canonical b -> is_u64 (digits_val b) -> b = dec (digits_val b).
Proof.
  intros Hc Hu. destruct (dec_spec _ Hu) as [Hc' Hv]. by apply canonical_inj.
Qed.

(** The two loops of [AppendBulk] produce the digits in place. *)
Lemma declen_loop_spec fuel : forall u n acc,
  0 <= u < 10 ^ Z.of_nat fuel -> (0 < fuel)%nat ->
  declen_loop fuel u n - n + 1 + zlen acc = zlen (dec_loop fuel u acc).
Proof.
  induction fuel as [|fuel IH]; intros u n acc Hu Hf; [lia|]. cbn [declen_loop dec_loop].
  destruct (Z.leb_spec 10 u) as [H|H].
  - destruct (Z.eqb_spec (u / 10) 0) as [E|E].
    { pose proof (Z.div_mod u 10 ltac:(lia)). pose proof (Z.mod_pos_bound u 10). lia. }
    destruct fuel as [|fuel]; [change (10 ^ Z.of_nat 1) with 10 in Hu; lia|].
    rewrite <- (IH _ (n + 1)); [rewrite zlen_cons; lia| |lia].
    rewrite Nat2Z.inj_succ, Z.pow_succ_r in Hu by lia.
    split; [apply Z.div_pos; lia|apply Z.div_lt_upper_bound; lia].
  - rewrite Z.div_small by lia. cbn. rewrite zlen_cons. lia.
Qed.

Lemma declen_spec u : is_u64 u -> declen u = zlen (dec u).
Proof.
  intros Hu. pose proof (declen_loop_spec 20 u 1 []) as H. change (zlen []) with 0 in H.
  unfold declen, dec. rewrite <- H; [lia|cbn; lia|lia].
Qed.

Lemma dec_loop_acc f : forall v x, dec_loop f v x = dec_loop f v [] ++ x.
Proof.
  induction f as [|f IH]; intros v x; [done|]. cbn.
  destruct (_ =? 0); [done|]. rewrite (IH _ (_ :: x)), (IH _ [_]), <- app_assoc. done.
Qed.

(** Overwriting the byte before a suffix. *)
Lemma put_before (a : bytes) x (b : bytes) y : put (a ++ x :: b) (zlen a) [y] = a ++ y :: b.
Proof.
  pose proof (zlen_nonneg a). pose proof (zlen_nonneg b). change (x :: b) with ([x] ++ b).
  rewrite put_splice by (rewrite ?zlen_app; change (zlen [x]) with 1; change (zlen [y]) with 1; lia).
  change (zlen [y]) with 1. rewrite (ztake_app_le (zlen a) a), (ztake_all (zlen a) a) by lia.
  rewrite zdrop_app_ge by lia. replace (zlen a + 1 - zlen a) with 1 by lia.
  rewrite zdrop_app_ge by done. by rewrite (zdrop_nonpos _ b) by done.
Qed.

Lemma putDecimal_loop_spec fuel : forall u (a b : bytes) acc,
  0 <= u < 10 ^ Z.of_nat fuel -> (0 < fuel)%nat ->
  zlen a = zlen (dec_loop fuel u []) ->
  putDecimal_loop fuel (a ++ acc ++ b) (zlen a) u = dec_loop fuel u acc ++ b.
Proof.
  induction fuel as [|fuel IH]; intros u a b acc Hu Hf Ha; [lia|].
  cbn [putDecimal_loop dec_loop] in *.
  destruct a as [|x a _] using rev_ind.
  { destruct (u / 10 =? 0); [done|]. rewrite dec_loop_acc, zlen_app in Ha. change (zlen []) with 0 in Ha.
    change (zlen [digit (u mod 10)]) with 1 in Ha. pose proof (zlen_nonneg (dec_loop fuel (u / 10) [])). lia. }
  assert (Hput : put ((a ++ [x]) ++ acc ++ b) (zlen (a ++ [x]) - 1) [digit (u mod 10)]
                 = a ++ (digit (u mod 10) :: acc) ++ b).
  { rewrite zlen_app, <- app_assoc. change (zlen [x]) with 1. replace (zlen a + 1 - 1) with (zlen a) by lia.
    apply put_before. }
  rewrite Hput. destruct (Z.eqb_spec (u / 10) 0) as [E|E].
  - change (zlen [digit (u mod 10)]) with 1 in Ha. rewrite zlen_app in Ha. change (zlen [x]) with 1 in Ha.
    assert (a = []) as -> by (apply zlen_0_nil; lia). done.
  - destruct fuel as [|fuel].
    { change (10 ^ Z.of_nat 1) with 10 in Hu. rewrite Z.div_small in E by lia. done. }
    rewrite dec_loop_acc, !zlen_app in Ha. change (zlen [x]) with 1 in Ha. change (zlen [digit (u mod 10)]) with 1 in Ha.
    rewrite zlen_app. change (zlen [x]) with 1. replace (zlen a + 1 - 1) with (zlen a) by lia.
    apply IH; [|lia|lia]. rewrite Nat2Z.inj_succ, Z.pow_succ_r in Hu by lia.
    split; [apply Z.div_pos; lia|apply Z.div_lt_upper_bound; lia].
Qed.

(** [putDecimal] on a buffer of exactly [declen u] bytes. *)
Definition putDecimal (dst : bytes) (u : Z) : bytes := putDecimal_loop 20 dst (zlen dst) u.

Lemma putDecimal_spec dst u : is_u64 u -> zlen dst = declen u -> putDecimal dst u = dec u.
Proof.
  intros Hu Hl. rewrite declen_spec in Hl by done. unfold putDecimal, dec in *.
  pose proof (putDecimal_loop_spec 20 u dst [] []) as H. cbn [app] in H. rewrite !app_nil_r in H.
  apply H; [cbn; lia|lia|done].
Qed.

(** ** The strict parser *)

Lemma ParseInt_loop_spec lim b : forall u v,
  9 <= lim -> 0 <= u ->
  ParseInt_loop lim b u = Some v <->
  Forall (fun c => isDigit c = true) b /\ v = u * 10 ^ zlen b + digits_val b /\ (b = [] \/ v <= lim).
Proof.
  induction b as [|c b IH]; intros u v Hl Hu.
  { cbn [ParseInt_loop]. change (zlen []) with 0. change (digits_val []) with 0.
    split; [intros [= ->]|intros (_ & -> & _)]; [|f_equal; lia]. split_and!; [constructor|lia|by left]. }
  cbn [ParseInt_loop]. rewrite Forall_cons, digits_val_cons, zlen_cons.
  rewrite Z.pow_add_r by (pose proof (zlen_nonneg b); lia). change (10 ^ 1) with 10.
  destruct (isDigit c) eqn:Ec; cbn [negb]; [|naive_solver]. apply isDigit_spec in Ec as Hc.
  set (d := byte_Z c - 48) in *. assert (0 <= d <= 9) by lia.
  pose proof (Z.div_mod (lim - d) 10 ltac:(lia)). pose proof (Z.mod_pos_bound (lim - d) 10 ltac:(lia)).
  assert (1 <= 10 ^ zlen b) by (pose proof (Z.pow_pos_nonneg 10 (zlen b)); pose proof (zlen_nonneg b); lia).
  destruct (Z.ltb_spec ((lim - d) / 10) u) as [Hov|Hok].
  - split; [done|]. intros ([_ Hf] & -> & [|Hle]); [done|]. exfalso.
    pose proof (digits_val_range b Hf). assert (lim < u * 10 + d) by lia. nia.
  - rewrite IH by lia. split.
    + intros (Hf & -> & Hb). split_and!; [done|done|lia|right].
      destruct Hb as [->|]; [change (zlen []) with 0; change (digits_val []) with 0|]; lia.
    + intros ([_ Hf] & -> & [|Hle]); [done|]. split_and!; [done|lia|right; lia].
Qed.

Lemma canonical_digits c b :
  canonical (c :: b) <-> Forall (fun c => isDigit c = true) (c :: b) /\ (byte_Z c = 48 -> b = []).
Proof.
  unfold canonical. cbn. rewrite zlen_cons. split.
  - intros (H & _ & Hz). split; [done|]. intros E. rewrite E in Hz. apply zlen_0_nil.
    specialize (Hz eq_refl). lia.
  - intros [H Hz]. split_and!; [done|done|]. intros [= E]. by rewrite (Hz E).
Qed.

Lemma dec_nonneg_head n : is_u64 n -> exists c b, dec n = c :: b /\ byte_Z c <> 45 /\ (byte_Z c = 48 <-> n = 0).
Proof.
  intros Hn. destruct (dec_spec n Hn) as [Hc Hv]. destruct (dec n) as [|c b]; [by destruct Hc as (_&?&_)|].
  exists c, b. pose proof Hc as Hc0. apply canonical_digits in Hc as [Hf Hz].
  pose proof (digits_val_range b ltac:(by apply Forall_cons in Hf as [_ ?])) as Hr.
  apply Forall_cons in Hf as [Hd%isDigit_spec _].
  rewrite digits_val_cons in Hv. split_and!; [done|lia|]. split; intros E.
  - rewrite (Hz E) in Hv. change (zlen []) with 0 in Hv. change (digits_val []) with 0 in Hv. lia.
  - pose proof (Z.pow_pos_nonneg 10 (zlen b) ltac:(lia) (zlen_nonneg b)). nia.
Qed.

Lemma dec_zero : dec 0 = [digit 0].
Proof. done. Qed.

Lemma dec_length n : is_u64 n -> n <= 9223372036854775808 -> zlen (dec n) <= 19.
Proof.
  intros Hu Hn. destruct (dec_spec n Hu) as [Hc Hv]. destruct (dec n) as [|c b]; [done|].
  apply canonical_digits in Hc as [Hf Hz]. apply Forall_cons in Hf as [Hd%isDigit_spec Hf].
  pose proof (digits_val_range b Hf) as Hr. rewrite digits_val_cons in Hv. rewrite zlen_cons.
  destruct (Z.le_gt_cases (zlen b) 18) as [|Hgt]; [lia|]. exfalso.
  destruct (Z.eq_dec (byte_Z c) 48) as [E|]; [rewrite (Hz E) in Hgt; done|].
  assert (10 ^ 19 <= 10 ^ zlen b) by (apply Z.pow_le_mono_r; lia). nia.
Qed.

(** A run of digits that does not start with a zero, against a limit. *)
Lemma ParseInt_digits lim c b u :
  9 <= lim -> lim <= 9223372036854775808 -> byte_Z c <> 48 ->
  ParseInt_loop lim (c :: b) 0 = Some u <-> c :: b = dec u /\ 0 < u <= lim.
Proof.
  intros Hl Hl2 Hc. rewrite ParseInt_loop_spec by lia. rewrite Z.mul_0_l, Z.add_0_l. split.
  - intros (Hf & -> & [|Hle]); [done|].
    assert (canonical (c :: b)) as Hcan by (by apply canonical_digits).
    pose proof (digits_val_range _ Hf) as Hr.
    assert (Hd : c :: b = dec (digits_val (c :: b))) by (apply canonical_dec; [done|lia]).
    split; [done|]. split; [|done].
    destruct (dec_nonneg_head (digits_val (c :: b)) ltac:(lia)) as (c' & b' & E & _ & Hz).
    rewrite <- Hd in E. injection E as <- <-. lia.
  - intros [E Hu]. destruct (dec_spec u ltac:(lia)) as [Hcan Hv]. rewrite <- E in Hcan, Hv.
    split_and!; [by destruct Hcan|done|right; lia].
Qed.

(** The parser accepts exactly the canonical text of the int64 values. *)
Lemma ParseInt_spec b n :
  ParseInt b = Some n <-> - 9223372036854775808 <= n < 9223372036854775808 /\ b = FormatInt n.
Proof.
  unfold ParseInt, FormatInt, MaxInt64. change (9223372036854775807 + 1) with 9223372036854775808. split.
  - destruct (Z.eqb_spec (zlen b) 0); [done|]. destruct (Z.ltb_spec 20 (zlen b)); [done|]. cbn [orb].
    destruct b as [|c b]; [done|]. cbn [tail]. destruct (Z.eqb_spec (byte_Z c) 45) as [Ec|Ec]; cbn [andb].
    + assert (c = x2d) as -> by (by apply byte_Z_inj). clear Ec.
      destruct (Z.eqb_spec (zlen (x2d :: b)) 1); [done|]. destruct b as [|c b]; [done|].
      destruct (Z.eqb_spec (byte_Z c) 48) as [E0|E0]; [done|].
      destruct (ParseInt_loop _ (c :: b) 0) as [u|] eqn:E; [|done]. cbn [mbind option_bind]. intros [= <-].
      apply ParseInt_digits in E as [E Hu]; [|lia..].
      destruct (Z.eqb_spec u 9223372036854775808) as [->|];
        [split; [lia|]; cbn [Z.ltb Z.compare Z.opp]; by rewrite E|].
      split; [lia|]. destruct (Z.ltb_spec (- u) 0); [|lia]. by rewrite Z.opp_involutive, E.
    + destruct (Z.eqb_spec (byte_Z c) 48) as [E0|E0]; cbn [negb andb].
      { destruct (Z.eqb_spec (zlen (c :: b)) 1) as [E1|]; [|done]. intros [= <-]. split; [lia|].
        rewrite zlen_cons in E1. rewrite (zlen_0_nil b) by lia. cbn [Z.ltb Z.compare].
        rewrite dec_zero. f_equal. by apply byte_Z_inj. }
      destruct (ParseInt_loop _ (c :: b) 0) as [u|] eqn:E; [|done]. cbn [mbind option_bind]. intros [= <-].
      apply ParseInt_digits in E as [E Hu]; [|lia..]. split; [lia|]. by destruct (Z.ltb_spec u 0); [lia|].
  - intros [Hn ->]. destruct (Z.ltb_spec n 0) as [Hneg|Hpos].
    + destruct (dec_nonneg_head (- n)) as (c & b & E & H45 & H48); [lia|].
      pose proof (dec_length (- n) ltac:(lia) ltac:(lia)) as Hlen. rewrite E in *. rewrite zlen_cons in *.
      pose proof (zlen_nonneg b). rewrite zlen_cons.
      destruct (Z.eqb_spec (1 + (1 + zlen b)) 0), (Z.ltb_spec 20 (1 + (1 + zlen b))); try lia.
      change (byte_Z x2d =? 45) with true. cbn [orb andb tail].
      destruct (Z.eqb_spec (1 + (1 + zlen b)) 1); [lia|]. destruct (Z.eqb_spec (byte_Z c) 48); [lia|].
      rewrite (proj2 (ParseInt_digits 9223372036854775808 c b (- n) ltac:(lia) ltac:(lia) ltac:(lia)));
        [|split; [done|lia]]. cbn [mbind option_bind]. destruct (Z.eqb_spec (- n) 9223372036854775808); f_equal; lia.
    + destruct (dec_nonneg_head n) as (c & b & E & H45 & H48); [lia|].
      pose proof (dec_length n ltac:(lia) ltac:(lia)) as Hlen. pose proof dec_zero. rewrite E in *.
      rewrite zlen_cons in *. pose proof (zlen_nonneg b).
      destruct (Z.eqb_spec (1 + zlen b) 0), (Z.ltb_spec 20 (1 + zlen b)); try lia.
      destruct (Z.eqb_spec (byte_Z c) 45); [lia|]. cbn [orb andb negb].
      destruct (Z.eqb_spec (byte_Z c) 48) as [E0|].
      { apply H48 in E0. subst n. rewrite dec_zero in E. by simplify_eq. }
      rewrite (proj2 (ParseInt_digits 9223372036854775807 c b n ltac:(lia) ltac:(lia) ltac:(lia))); [done|].
      split; [done|lia].
Qed.
