(* ===== verification/Resp.v ===== *)
(** The RESP request parser (f3srv/resp/parse.go) and reply builders
    (f3srv/resp/write.go).

    The parser is stateless across calls apart from the reused argument slice and the
    message of the last protocol error: a call is a function of the bytes it is given,
    and the message rides the [ProtoErr] answer. *)

From S2P Require Import Prelude Format Decimal.
#[local] Open Scope Z_scope.

(** ** The parser *)

Inductive Status : Type :=
| POk (args : list bytes) (consumed : nat)
| NeedMore
| ProtoErr (err : bytes).

Definition maxMultibulk : Z := 1024 * 1024.
Definition MaxBulk : Z := Z.shiftl 512 20.
Definition maxInline : Z := Z.shiftl 64 10.
Definition maxHeaderDigits : nat := 18.

Definition errMultibulk : bytes := str "invalid multibulk length".
Definition errBulk : bytes := str "invalid bulk length".
Definition errInline : bytes := str "too big inline request".

Definition printable (c : byte) : bytes :=
  if (32 <=? byte_Z c) && (byte_Z c <? 127) then [c] else str ".".

(** One length line: its value and the index past the terminator. *)
Inductive lineRes : Type :=
| LOk (v : Z) (next : nat)
| LMore
| LErr (err : bytes).

(** The digit loop of [line] over [b[i:]], [n = i - start] digits seen. *)
Fixpoint line_loop (msg : bytes) (neg : bool) (rest : bytes) (i n : nat) (v : Z) : lineRes :=
  match rest with
  | [] => LMore
  | c :: rest' =>
      if isDigit c then
        if decide (maxHeaderDigits <= n)%nat then LErr msg
        else line_loop msg neg rest' (S i) (S n) (v * 10 + (byte_Z c - 48))
      else if negb (byte_Z c =? 13) || bool_decide (n = 0%nat) then LErr msg
      else match rest' with
           | [] => LMore
           | c' :: _ =>
               if negb (byte_Z c' =? 10) then LErr msg
               else LOk (if neg then - v else v) (i + 2)
           end
  end.

Definition line (b : bytes) (i : nat) (msg : bytes) : lineRes :=
  match drop i b with
  | c :: rest => if byte_Z c =? 45 then line_loop msg true rest (S i) 0 0
                 else line_loop msg false (c :: rest) i 0 0
  | [] => LMore
  end.

(** The argument loop: [k] arguments to go, at index [i]. *)
Fixpoint args_loop (k : nat) (b : bytes) (i : nat) (args : list bytes) : Status :=
  match k with
  | O => POk args i
  | S k' =>
      match b !! i with
      | None => NeedMore
      | Some c =>
          if negb (byte_Z c =? 36)
          then ProtoErr (str "expected '$', got '" ++ printable c ++ str "'")
          else
            match line b (S i) errBulk with
            | LMore => NeedMore
            | LErr e => ProtoErr e
            | LOk bl j =>
                if (bl <? 0) || (MaxBulk <? bl) then ProtoErr errBulk
                else
                  let end_ := (j + Z.to_nat bl)%nat in
                  if decide (length b < end_ + 2)%nat then NeedMore
                  else args_loop k' b (end_ + 2) (args ++ [take (Z.to_nat bl) (drop j b)])
            end
      end
  end.

Definition isBlank (c : byte) : bool := (byte_Z c =? 32) || (byte_Z c =? 9).

(** The split loop of [inline]: [cur] is the word being read. *)
Fixpoint split_words (line cur : bytes) (args : list bytes) : list bytes :=
  let flush := match cur with [] => args | _ => args ++ [cur] end in
  match line with
  | [] => flush
  | c :: line' => if isBlank c then split_words line' [] flush else split_words line' (cur ++ [c]) args
  end.

Fixpoint index_nl (b : bytes) : option nat :=
  match b with
  | [] => None
  | c :: b' => if byte_Z c =? 10 then Some 0%nat else S <$> index_nl b'
  end.

Definition trim_cr (line : bytes) : bytes :=
  match last line with
  | Some c => if byte_Z c =? 13 then take (pred (length line)) line else line
  | None => line
  end.

Definition inline (b : bytes) : Status :=
  match index_nl b with
  | None => if maxInline <? zlen b then ProtoErr errInline else NeedMore
  | Some nl =>
      if maxInline <? Z.of_nat nl then ProtoErr errInline
      else POk (split_words (trim_cr (take nl b)) [] []) (S nl)
  end.

Definition Next (b : bytes) : Status :=
  match b with
  | [] => NeedMore
  | c :: _ =>
      if negb (byte_Z c =? 42) then inline b else
      match line b 1 errMultibulk with
      | LMore => NeedMore
      | LErr e => ProtoErr e
      | LOk n i =>
          if maxMultibulk <? n then ProtoErr errMultibulk
          else if n <=? 0 then POk [] i
          else args_loop (Z.to_nat n) b i []
      end
  end.

(** ** The reply builders *)

Definition CRLF : bytes := [x0d; x0a].

Definition AppendStatus (dst s : bytes) : bytes := dst ++ str "+" ++ s ++ CRLF.
Definition AppendError (dst msg : bytes) : bytes := dst ++ str "-" ++ msg ++ CRLF.
Definition AppendErrorBytes (dst msg : bytes) : bytes := dst ++ str "-" ++ msg ++ CRLF.
Definition AppendInt (dst : bytes) (n : Z) : bytes := dst ++ str ":" ++ FormatInt n ++ CRLF.
Definition AppendNull (dst : bytes) : bytes := dst ++ str "$-1" ++ CRLF.
Definition AppendNullArray (dst : bytes) : bytes := dst ++ str "*-1" ++ CRLF.
Definition AppendNull3 (dst : bytes) : bytes := dst ++ str "_" ++ CRLF.
Definition AppendMapHeader (dst : bytes) (n : Z) : bytes := dst ++ str "%" ++ FormatInt n ++ CRLF.
Definition AppendSetHeader (dst : bytes) (n : Z) : bytes := dst ++ str "~" ++ FormatInt n ++ CRLF.
Definition AppendPushHeader (dst : bytes) (n : Z) : bytes := dst ++ str ">" ++ FormatInt n ++ CRLF.
Definition AppendDoubleBytes (dst digits : bytes) : bytes := dst ++ str "," ++ digits ++ CRLF.
Definition AppendBool (dst : bytes) (v : bool) : bytes := dst ++ (if v then str "#t" else str "#f") ++ CRLF.
Definition AppendBigNumber (dst digits : bytes) : bytes := dst ++ str "(" ++ digits ++ CRLF.
Definition AppendArrayHeader (dst : bytes) (n : Z) : bytes := dst ++ str "*" ++ FormatInt n ++ CRLF.

(** The presized emitters write into a buffer grown once to its final length; the
    bytes [slices.Grow] exposes past [dst] are whatever the backing array held. *)
Definition AppendBulk (spare : bytes) (dst v : bytes) : bytes :=
  let hl := declen (zlen v) in
  let total := 1 + hl + 2 + zlen v + 2 in
  let n := zlen dst in
  let dst := dst ++ ztake total spare in
  let dst := put dst n (str "$") in
  let dst := put dst (n + 1) (putDecimal (sl dst (n + 1) hl) (zlen v)) in
  let dst := put dst (n + 1 + hl) [x0d] in
  let dst := put dst (n + 2 + hl) [x0a] in
  let dst := put dst (n + 3 + hl) v in
  let dst := put dst (n + total - 2) [x0d] in
  put dst (n + total - 1) [x0a].

Definition AppendVerbatim (spare : bytes) (dst format payload : bytes) : bytes :=
  let body := zlen format + 1 + zlen payload in
  let hl := declen body in
  let total := 1 + hl + 2 + body + 2 in
  let n := zlen dst in
  let dst := dst ++ ztake total spare in
  let dst := put dst n (str "=") in
  let dst := put dst (n + 1) (putDecimal (sl dst (n + 1) hl) body) in
  let dst := put dst (n + 1 + hl) [x0d] in
  let dst := put dst (n + 2 + hl) [x0a] in
  let p := n + 3 + hl in
  let dst := put dst p format in
  let p := p + zlen format in
  let dst := put dst p (str ":") in
  let p := p + 1 in
  let dst := put dst p payload in
  let p := p + zlen payload in
  let dst := put dst p [x0d] in
  put dst (p + 1) [x0a].

Example parse_ping : Next (str "*1" ++ CRLF ++ str "$4" ++ CRLF ++ str "PING" ++ CRLF ++ str "*") = POk [str "PING"] 14.
Proof. vm_compute. reflexivity. Qed.
Example parse_inline : Next (str " SET  k v" ++ CRLF) = POk [str "SET"; str "k"; str "v"] 11.
Proof. vm_compute. reflexivity. Qed.

(** ** More bytes never change an answer *)

Lemma line_loop_stable msg neg x : forall rest i n v,
  line_loop msg neg rest i n v <> LMore ->
  line_loop msg neg (rest ++ x) i n v = line_loop msg neg rest i n v.
Proof.
  induction rest as [|c rest IH]; intros i n v Hd; [done|]. cbn [line_loop app] in *.
  destruct (isDigit c); [destruct (decide _); [done|by apply IH]|].
  destruct (_ || _); [done|]. by destruct rest.
Qed.

Lemma line_loop_bounds msg neg : forall rest i n v w j,
  line_loop msg neg rest i n v = LOk w j -> (i + 2 <= j <= i + length rest)%nat.
Proof.
  induction rest as [|c rest IH]; intros i n v w j; [done|]. cbn [line_loop length].
  destruct (isDigit c).
  { destruct (decide _); [done|]. intros H%IH. lia. }
  destruct (_ || _); [done|]. destruct rest as [|c' rest]; [done|].
  destruct (negb _); [done|]. intros [= <- <-]. cbn. lia.
Qed.

Lemma line_stable b i msg x :
  line b i msg <> LMore -> line (b ++ x) i msg = line b i msg.
Proof.
  unfold line. intros Hd. destruct (drop i b) as [|c rest] eqn:E; [done|].
  assert (i <= length b)%nat.
  { destruct (decide (i <= length b)%nat); [done|]. rewrite drop_ge in E by lia. done. }
  rewrite drop_app_le, E by done. cbn [app].
  destruct (byte_Z c =? 45); [by apply line_loop_stable|].
  by apply (line_loop_stable _ _ x (c :: rest)).
Qed.

Lemma line_bounds b i msg v j :
  line b i msg = LOk v j -> (i + 2 <= j <= length b)%nat.
Proof.
  unfold line. intros H. destruct (drop i b) as [|c rest] eqn:E; [done|].
  pose proof (length_drop b i) as Hl. rewrite E in Hl. cbn in Hl.
  destruct (byte_Z c =? 45); apply line_loop_bounds in H; cbn in H; lia.
Qed.

Lemma args_loop_stable b x : forall k i args,
  args_loop k b i args <> NeedMore -> (i <= length b)%nat ->
  args_loop k (b ++ x) i args = args_loop k b i args.
Proof.
  induction k as [|k IH]; intros i args Hd Hi; [done|]. cbn [args_loop] in *.
  destruct (b !! i) as [c|] eqn:E; [|done]. rewrite (lookup_app_l_Some _ _ _ _ E).
  destruct (negb (byte_Z c =? 36)); [done|].
  destruct (line b (S i) errBulk) as [bl j| |e] eqn:El; [|done|].
  - pose proof (line_bounds _ _ _ _ _ El). rewrite line_stable, El by (by rewrite El).
    destruct (_ || _); [done|]. destruct (decide (length b < _)%nat) as [|Hlen]; [done|].
    rewrite length_app. rewrite decide_False by lia.
    replace (take (Z.to_nat bl) (drop j (b ++ x))) with (take (Z.to_nat bl) (drop j b)).
    + apply IH; [done|lia].
    + rewrite drop_app_le by lia. rewrite take_app_le; [done|]. rewrite length_drop. lia.
  - by rewrite line_stable, El by (by rewrite El).
Qed.

Lemma args_loop_bounds b : forall k i args r n,
  args_loop k b i args = POk r n -> (i <= length b)%nat -> (i <= n <= length b)%nat.
Proof.
  induction k as [|k IH]; intros i args r n; cbn [args_loop]; [intros [= <- <-]; lia|].
  destruct (b !! i) as [c|] eqn:E; [|done]. destruct (negb _); [done|].
  destruct (line b (S i) errBulk) as [bl j| |e] eqn:El; [|done|done].
  destruct (_ || _); [done|]. destruct (decide _); [done|].
  pose proof (line_bounds _ _ _ _ _ El). intros Hr%IH; lia.
Qed.

Lemma index_nl_app b x nl : index_nl b = Some nl -> index_nl (b ++ x) = Some nl.
Proof.
  revert nl. induction b as [|c b IH]; intros nl; [done|]. cbn. destruct (_ =? 10); [done|].
  destruct (index_nl b) as [k|]; [|done]. by rewrite (IH k).
Qed.

Lemma index_nl_lt b nl : index_nl b = Some nl -> (nl < length b)%nat.
Proof.
  revert nl. induction b as [|c b IH]; intros nl; [done|]. cbn. destruct (_ =? 10); [intros [= <-]; lia|].
  destruct (index_nl b) as [k|]; [|done]. specialize (IH k eq_refl). intros [= <-]. lia.
Qed.

Lemma index_nl_none_app b x nl : index_nl b = None -> index_nl (b ++ x) = Some nl -> (length b <= nl)%nat.
Proof.
  revert nl. induction b as [|c b IH]; intros nl; cbn; [lia|]. destruct (_ =? 10); [done|].
  destruct (index_nl b) as [k|]; [done|]. intros _. destruct (index_nl (b ++ x)) as [k|]; [|done].
  specialize (IH k eq_refl eq_refl). intros [= <-]. lia.
Qed.

Lemma inline_stable b x : inline b <> NeedMore -> inline (b ++ x) = inline b.
Proof.
  unfold inline. destruct (index_nl b) as [nl|] eqn:E.
  - intros _. rewrite (index_nl_app _ x _ E). pose proof (index_nl_lt _ _ E).
    by rewrite take_app_le by lia.
  - destruct (Z.ltb_spec maxInline (zlen b)); [intros _|done].
    pose proof (zlen_app b x). pose proof (zlen_nonneg x).
    destruct (index_nl (b ++ x)) as [nl|] eqn:E'.
    + apply index_nl_none_app in E'; [|done]. destruct (Z.ltb_spec maxInline (Z.of_nat nl)); [done|].
      unfold zlen in *. lia.
    + destruct (Z.ltb_spec maxInline (zlen (b ++ x))); [done|lia].
Qed.

(** Once a call answers, with a command or with an error, every longer buffer gets
    the same answer. *)
Lemma Next_stable b x : Next b <> NeedMore -> Next (b ++ x) = Next b.
Proof.
  intros Hd. destruct b as [|c b]; [done|]. cbn [app]. unfold Next in *.
  destruct (negb (byte_Z c =? 42)).
  { change (c :: b ++ x) with ((c :: b) ++ x). by apply inline_stable. }
  change (c :: b ++ x) with ((c :: b) ++ x).
  destruct (line (c :: b) 1 errMultibulk) as [n i| |e] eqn:El; [|done|].
  - rewrite line_stable, El by (by rewrite El). destruct (_ <? n); [done|]. destruct (n <=? 0); [done|].
    apply args_loop_stable; [done|]. apply line_bounds in El. lia.
  - by rewrite line_stable, El by (by rewrite El).
Qed.

(** A command takes at least one byte and at most what is there. *)
Lemma Next_bounds b args n : Next b = POk args n -> (0 < n <= length b)%nat.
Proof.
  unfold Next. destruct b as [|c b]; [done|]. destruct (negb _).
  - unfold inline. destruct (index_nl (c :: b)) as [nl|] eqn:E; [|by destruct (_ <? _)].
    destruct (_ <? _); [done|]. intros [= <- <-]. apply index_nl_lt in E. lia.
  - destruct (line (c :: b) 1 errMultibulk) as [v i| |e] eqn:El; [|done|done].
    pose proof (line_bounds _ _ _ _ _ El). destruct (_ <? v); [done|].
    destruct (v <=? 0); [intros [= <- <-]; lia|]. intros Hr%args_loop_bounds; lia.
Qed.

(** ** Streams

    The use the parser is made for: take commands off the head of the buffer until it
    asks for more or fails, append the next read, go on.  After an error the
    connection is closed, so later reads are dropped. *)

Record conn := mkConn { cn_cmds : list (list bytes); cn_buf : bytes; cn_err : option bytes }.

Fixpoint take_commands (fuel : nat) (b : bytes) : conn :=
  match Next b with
  | NeedMore => mkConn [] b None
  | ProtoErr e => mkConn [] b (Some e)
  | POk args n =>
      match fuel with
      | O => mkConn [] b None
      | S fuel' =>
          let c := take_commands fuel' (drop n b) in
          mkConn (args :: cn_cmds c) (cn_buf c) (cn_err c)
      end
  end.

(** Every command takes a byte, so the buffer length bounds the commands in it. *)
Definition parse_all (b : bytes) : conn := take_commands (length b) b.

Definition receive (c : conn) (chunk : bytes) : conn :=
  match cn_err c with
  | Some _ => c
  | None =>
      let c' := parse_all (cn_buf c ++ chunk) in
      mkConn (cn_cmds c ++ cn_cmds c') (cn_buf c') (cn_err c')
  end.

Definition receive_all (chunks : list bytes) : conn := foldl receive (mkConn [] [] None) chunks.

Lemma take_commands_fuel b : forall f f', (length b <= f)%nat -> (length b <= f')%nat ->
  take_commands f b = take_commands f' b.
Proof.
  remember (length b) as n eqn:Hn. revert b Hn.
  induction (lt_wf n) as [n _ IH]. intros b Hn f f' Hf Hf'. subst n.
  assert (forall args k, Next b = POk args k -> (length (drop k b) < length b)%nat) as Hlt.
  { intros args k Hk%Next_bounds. rewrite length_drop. lia. }
  destruct f as [|f], f' as [|f']; cbn [take_commands]; destruct (Next b) as [args k| |e] eqn:E; try done;
    specialize (Hlt _ _ eq_refl); try lia.
  by rewrite (IH _ Hlt (drop k b) eq_refl f f') by lia.
Qed.

Lemma parse_all_eq b :
  parse_all b =
  match Next b with
  | NeedMore => mkConn [] b None
  | ProtoErr e => mkConn [] b (Some e)
  | POk args n =>
      let c := parse_all (drop n b) in mkConn (args :: cn_cmds c) (cn_buf c) (cn_err c)
  end.
Proof.
  unfold parse_all. destruct (length b) as [|m] eqn:Hl; cbn [take_commands];
    destruct (Next b) as [args k| |e] eqn:E; try done; pose proof (Next_bounds _ _ _ E) as Hb; [lia|].
  rewrite (take_commands_fuel (drop k b) m (length (drop k b))); [done|rewrite length_drop; lia|lia].
Qed.

(** Where the parse of a buffer stopped tells the parse of every longer one. *)
Lemma parse_all_app b x :
  parse_all (b ++ x) =
  let c := parse_all b in
  match cn_err c with
  | Some e => mkConn (cn_cmds c) (cn_buf c ++ x) (Some e)
  | None => let c' := parse_all (cn_buf c ++ x) in
            mkConn (cn_cmds c ++ cn_cmds c') (cn_buf c') (cn_err c')
  end.
Proof.
  remember (length b) as n eqn:Hn. revert b Hn.
  induction (lt_wf n) as [n _ IH]. intros b Hn. subst n. cbv zeta.
  rewrite (parse_all_eq b). destruct (Next b) as [args k| |e] eqn:E.
  - pose proof (Next_bounds _ _ _ E) as Hk. cbv zeta. cbn [cn_cmds cn_buf cn_err].
    rewrite (parse_all_eq (b ++ x)), Next_stable, E by (by rewrite E).
    rewrite drop_app_le by lia. rewrite (IH (length (drop k b))) by (rewrite ?length_drop; lia || done).
    cbv zeta. by destruct (cn_err (parse_all (drop k b))).
  - cbn [cn_cmds cn_buf cn_err app]. by destruct (parse_all (b ++ x)).
  - cbn [cn_cmds cn_buf cn_err app]. by rewrite (parse_all_eq (b ++ x)), Next_stable, E by (by rewrite E).
Qed.

(** Receiving a stream in pieces is parsing it whole: same commands, same error, and
    the same bytes left over while there is no error. *)
Lemma receive_all_concat chunks :
  let c := receive_all chunks in let w := parse_all (concat chunks) in
  cn_cmds c = cn_cmds w /\ cn_err c = cn_err w /\ (cn_err c = None -> cn_buf c = cn_buf w).
Proof.
  unfold receive_all. induction chunks as [|x chunks IH] using rev_ind; [done|].
  cbv zeta in *. rewrite foldl_app, concat_app. cbn [foldl concat]. rewrite app_nil_r.
  set (c := foldl receive (mkConn [] [] None) chunks) in *. destruct IH as (Hc & He & Hb).
  rewrite parse_all_app. cbv zeta. rewrite <- He, <- Hc. unfold receive.
  destruct (cn_err c) as [e|] eqn:E; [by rewrite E|]. by rewrite <- Hb.
Qed.

(** ** Commands read back *)

(** A client's encoding of a command. *)
Definition bulk (v : bytes) : bytes := str "$" ++ dec (zlen v) ++ CRLF ++ v ++ CRLF.
Definition encode_command (args : list bytes) : bytes :=
  str "*" ++ dec (zlen args) ++ CRLF ++ concat (map bulk args).

Lemma line_loop_digits msg neg ds rest : forall i n v,
  Forall (fun c => isDigit c = true) ds -> (n + length ds <= maxHeaderDigits)%nat ->
  (0 < n + length ds)%nat ->
  line_loop msg neg (ds ++ CRLF ++ rest) i n v
  = LOk (let w := v * 10 ^ zlen ds + digits_val ds in if neg then - w else w) (i + length ds + 2).
Proof.
  induction ds as [|c ds IH]; intros i n v Hf Hn H0.
  - cbn [app line_loop CRLF length] in *. change (isDigit x0d) with false.
    rewrite (bool_decide_eq_false_2 (n = 0%nat)) by lia. change (byte_Z x0d =? 13) with true.
    change (byte_Z x0a =? 10) with true. cbn [negb orb].
    change (zlen []) with 0. change (digits_val []) with 0.
    replace (v * 10 ^ 0 + 0) with v by lia. cbv zeta. f_equal; lia.
  - apply Forall_cons in Hf as [Hc Hf]. cbn [app line_loop length] in *. rewrite Hc.
    rewrite decide_False by lia. rewrite IH by (done || lia). rewrite digits_val_cons, zlen_cons.
    rewrite Z.pow_add_r by (pose proof (zlen_nonneg ds); lia). change (10 ^ 1) with 10.
    cbv zeta. f_equal; [|lia]. destruct neg; ring.
Qed.

Lemma dec_short n : 0 <= n < 10 ^ 18 -> (0 < length (dec n) <= maxHeaderDigits)%nat.
Proof.
  intros Hn. destruct (dec_spec n) as [Hc Hv]; [lia|]. destruct (dec n) as [|c b]; [by destruct Hc as (_&?&_)|].
  apply canonical_digits in Hc as [Hf Hz]. apply Forall_cons in Hf as [Hd%isDigit_spec Hf].
  pose proof (digits_val_range b Hf). rewrite digits_val_cons in Hv. cbn [length]. unfold maxHeaderDigits.
  split; [lia|]. destruct (decide (length b <= 17)%nat); [lia|]. exfalso.
  destruct (Z.eq_dec (byte_Z c) 48) as [E|]; [rewrite (Hz E) in *; cbn in *; lia|].
  assert (10 ^ 18 <= 10 ^ zlen b) by (apply Z.pow_le_mono_r; unfold zlen; lia). nia.
Qed.

Lemma line_dec pre n rest msg i :
  0 <= n < 10 ^ 18 -> i = length pre ->
  line (pre ++ dec n ++ CRLF ++ rest) i msg = LOk n (i + length (dec n) + 2).
Proof.
  intros Hn ->. pose proof (dec_short n Hn) as Hl. unfold line. rewrite drop_app_length.
  destruct (dec_nonneg_head n) as (c & b & E & H45 & _); [lia|]. destruct (dec_spec n) as [(Hf & _) Hv]; [lia|].
  destruct (dec n ++ CRLF ++ rest) as [|c' r] eqn:Er; [by rewrite E in Er|].
  assert (c' = c) as -> by (rewrite E in Er; by injection Er). 
  destruct (Z.eqb_spec (byte_Z c) 45); [done|]. rewrite <- Er, line_loop_digits by (done || lia).
  cbv zeta. rewrite Hv. f_equal.
Qed.

Lemma MaxBulk_eq : MaxBulk = 536870912.
Proof. done. Qed.
Lemma maxMultibulk_eq : maxMultibulk = 1048576.
Proof. done. Qed.

Lemma length_bulk v : length (bulk v) = (1 + length (dec (zlen v)) + 2 + length v + 2)%nat.
Proof. unfold bulk. rewrite !length_app. cbn. lia. Qed.

Lemma args_loop_encoded args : forall pre acc rest,
  Forall (fun v => zlen v <= MaxBulk) args ->
  args_loop (length args) (pre ++ concat (map bulk args) ++ rest) (length pre) acc
  = POk (acc ++ args) (length pre + length (concat (map bulk args))).
Proof.
  induction args as [|v args IH]; intros pre acc rest Hf.
  { cbn. by rewrite app_nil_r, Nat.add_0_r. }
  apply Forall_cons in Hf as [Hv Hf]. cbn [length args_loop map concat].
  rewrite MaxBulk_eq in Hv. pose proof (zlen_nonneg v) as Hv0. rewrite <- app_assoc.
  set (tl := concat (map bulk args) ++ rest).
  rewrite lookup_app_r, Nat.sub_diag by lia.
  change ((bulk v ++ tl) !! 0%nat) with (Some x24). change (byte_Z x24 =? 36) with true. cbn [negb].
  assert (Hb : pre ++ bulk v ++ tl = (pre ++ str "$") ++ dec (zlen v) ++ CRLF ++ v ++ CRLF ++ tl).
  { unfold bulk. by rewrite <- !app_assoc. }
  rewrite Hb at 1. rewrite line_dec by (lia || by rewrite length_app, Nat.add_1_r).
  rewrite MaxBulk_eq. destruct (Z.ltb_spec (zlen v) 0), (Z.ltb_spec 536870912 (zlen v)); try lia. cbn [orb].
  assert (Hz : Z.to_nat (zlen v) = length v) by (unfold zlen; lia). rewrite Hz.
  set (j := (S (length pre) + length (dec (zlen v)) + 2)%nat).
  rewrite !length_app, length_bulk. rewrite decide_False by (unfold j; lia).
  replace (take (length v) (drop j (pre ++ bulk v ++ tl))) with v.
  - replace (j + length v + 2)%nat with (length (pre ++ bulk v)) by (rewrite length_app, length_bulk; unfold j; lia).
    assert (pre ++ bulk v ++ tl = (pre ++ bulk v) ++ concat (map bulk args) ++ rest) as -> by (unfold tl; by rewrite app_assoc).
    rewrite IH by done. rewrite <- app_assoc. cbn [app]. f_equal.
    rewrite !length_app, length_bulk. lia.
  - rewrite Hb, !app_assoc, <- (app_assoc _ v), <- (app_assoc _ (v ++ _)).
    replace j with (length (((pre ++ str "$") ++ dec (zlen v)) ++ CRLF)) by (rewrite !length_app; cbn; unfold j; lia).
    rewrite drop_app_length, <- app_assoc. by rewrite take_app_length.
Qed.

(** An encoded command parses to itself, whatever follows it. *)
Lemma Next_encode args rest :
  args <> [] -> zlen args <= maxMultibulk -> Forall (fun v => zlen v <= MaxBulk) args ->
  Next (encode_command args ++ rest) = POk args (length (encode_command args)).
Proof.
  intros Hne Hn Hf. rewrite maxMultibulk_eq in Hn. pose proof (zlen_nonneg args).
  assert (0 < zlen args) by (destruct args; [done|]; rewrite zlen_cons; pose proof (zlen_nonneg args); lia).
  assert (Hb : encode_command args ++ rest = str "*" ++ dec (zlen args) ++ CRLF ++ concat (map bulk args) ++ rest)
    by (unfold encode_command; by rewrite <- !app_assoc).
  unfold Next. destruct (encode_command args ++ rest) as [|c b] eqn:E; [by rewrite Hb in E|].
  assert (c = x2a) as -> by (by injection Hb as ->). change (byte_Z x2a =? 42) with true. cbn [negb].
  rewrite Hb. rewrite line_dec by (done || lia).
  rewrite maxMultibulk_eq. destruct (Z.ltb_spec 1048576 (zlen args)), (Z.leb_spec (zlen args) 0); try lia.
  replace (Z.to_nat (zlen args)) with (length args) by (unfold zlen; lia).
  set (pre := str "*" ++ dec (zlen args) ++ CRLF).
  replace (1 + length (dec (zlen args)) + 2)%nat with (length pre)
    by (unfold pre; rewrite !length_app; cbn; lia).
  replace (str "*" ++ dec (zlen args) ++ CRLF ++ concat (map bulk args) ++ rest)
    with (pre ++ concat (map bulk args) ++ rest) by (unfold pre; by rewrite <- !app_assoc).
  rewrite args_loop_encoded by done. cbn [app]. f_equal. unfold encode_command, pre. rewrite !length_app. lia.
Qed.

(** ** The presized emitters *)

(** A write that fills the next bytes of a buffer. *)
Lemma put_next (done_ spare s : bytes) :
  zlen s <= zlen spare -> put (done_ ++ spare) (zlen done_) s = (done_ ++ s) ++ zdrop (zlen s) spare.
Proof.
  intros Hs. pose proof (zlen_nonneg done_). pose proof (zlen_nonneg s).
  rewrite put_splice by (rewrite ?zlen_app; lia).
  rewrite ztake_app_le, ztake_all, zdrop_app_ge by lia.
  replace (zlen done_ + zlen s - zlen done_) with (zlen s) by lia. by rewrite <- app_assoc.
Qed.

Lemma put_next_at i (done_ spare s : bytes) :
  i = zlen done_ -> zlen s <= zlen spare -> put (done_ ++ spare) i s = (done_ ++ s) ++ zdrop (zlen s) spare.
Proof. intros ->. apply put_next. Qed.

(** [slices.Grow] leaves room for the whole reply. *)
Definition grown (spare : bytes) (total : Z) : Prop := total <= zlen spare.

(** The header of a presized frame: type byte, decimal length, CRLF. *)
Definition frame_header (spare dst : bytes) (tag : byte) (body total : Z) : bytes :=
  let hl := declen body in
  let n := zlen dst in
  let dst := dst ++ ztake total spare in
  let dst := put dst n [tag] in
  let dst := put dst (n + 1) (putDecimal (sl dst (n + 1) hl) body) in
  let dst := put dst (n + 1 + hl) [x0d] in
  put dst (n + 2 + hl) [x0a].

Lemma frame_header_eq spare dst tag body total :
  is_u64 body -> 3 + declen body <= total <= zlen spare ->
  exists room, frame_header spare dst tag body total = (dst ++ [tag] ++ dec body ++ CRLF) ++ room
    /\ zlen room = total - 3 - declen body.
Proof.
  intros Hb Ht. unfold frame_header. cbv zeta.
  pose proof (declen_spec body Hb) as Hd. pose proof (zlen_nonneg (dec body)).
  set (r0 := ztake total spare). assert (Hr0 : zlen r0 = total) by (unfold r0; rewrite zlen_ztake; lia).
  clearbody r0. rewrite (put_next_at (zlen dst) dst r0 [tag]) by (done || (change (zlen [tag]) with 1; lia)).
  change (zlen [tag]) with 1. set (r1 := zdrop 1 r0).
  assert (Hr1 : zlen r1 = total - 1) by (unfold r1; rewrite zlen_zdrop; lia). clearbody r1.
  assert (Hd1 : zlen (dst ++ [tag]) = zlen dst + 1) by (by rewrite zlen_app).
  rewrite sl_app_r by lia. rewrite Hd1, Z.sub_diag.
  rewrite putDecimal_spec by (done || (rewrite zlen_sl; lia)).
  rewrite (put_next_at (zlen dst + 1) (dst ++ [tag]) r1 (dec body)) by lia.
  set (r2 := zdrop _ r1). assert (Hr2 : zlen r2 = total - 1 - declen body) by (unfold r2; rewrite zlen_zdrop; lia).
  clearbody r2. assert (Hd2 : zlen ((dst ++ [tag]) ++ dec body) = zlen dst + 1 + declen body) by (rewrite zlen_app; lia).
  rewrite (put_next_at (zlen dst + 1 + declen body) _ r2 [x0d]) by (done || (change (zlen [x0d]) with 1; lia)).
  change (zlen [x0d]) with 1. set (r3 := zdrop 1 r2).
  assert (Hr3 : zlen r3 = total - 2 - declen body) by (unfold r3; rewrite zlen_zdrop; lia). clearbody r3.
  rewrite (put_next_at (zlen dst + 2 + declen body) _ r3 [x0a])
    by (rewrite ?(zlen_app _ [x0d]), ?Hd2; change (zlen [x0d]) with 1; change (zlen [x0a]) with 1; lia).
  change (zlen [x0a]) with 1. exists (zdrop 1 r3). split; [by rewrite <- !app_assoc|]. rewrite zlen_zdrop. lia.
Qed.

(** The single-pass writes produce the reply a plain concatenation would. *)
Lemma AppendBulk_eq spare dst v :
  is_u64 (zlen v) -> grown spare (1 + declen (zlen v) + 2 + zlen v + 2) ->
  AppendBulk spare dst v = dst ++ bulk v.
Proof.
  intros Hv Hg. unfold grown in Hg. pose proof (zlen_nonneg v). pose proof (declen_spec _ Hv) as Hd.
  unfold AppendBulk. cbv zeta. set (total := 1 + declen (zlen v) + 2 + zlen v + 2) in *.
  destruct (frame_header_eq spare dst x24 (zlen v) total Hv) as (room & Hh & Hr); [lia|].
  unfold frame_header in Hh. cbv zeta in Hh. change (str "$") with [x24]. rewrite Hh. clear Hh.
  set (hd := dst ++ [x24] ++ dec (zlen v) ++ CRLF).
  assert (Hhd : zlen hd = zlen dst + 3 + declen (zlen v))
    by (unfold hd; rewrite !zlen_app, Hd; change (zlen [x24]) with 1; change (zlen CRLF) with 2; lia).
  rewrite (put_next_at (zlen dst + 3 + declen (zlen v)) hd room v) by lia.
  set (r1 := zdrop _ room). assert (Hr1 : zlen r1 = 2) by (unfold r1; rewrite zlen_zdrop; lia). clearbody r1.
  rewrite (put_next_at (zlen dst + total - 2) (hd ++ v) r1 [x0d])
    by (rewrite ?zlen_app; change (zlen [x0d]) with 1; lia).
  change (zlen [x0d]) with 1.
  rewrite (put_next_at (zlen dst + total - 1) _ (zdrop 1 r1) [x0a])
    by (rewrite ?zlen_app, ?zlen_zdrop; change (zlen [x0d]) with 1; change (zlen [x0a]) with 1; lia).
  change (zlen [x0a]) with 1. rewrite (zdrop_all 1 (zdrop 1 r1)) by (rewrite zlen_zdrop; lia).
  unfold hd, bulk. by rewrite app_nil_r, <- !app_assoc.
Qed.

Lemma AppendVerbatim_eq spare dst format payload :
  is_u64 (zlen format + 1 + zlen payload) ->
  grown spare (1 + declen (zlen format + 1 + zlen payload) + 2 + (zlen format + 1 + zlen payload) + 2) ->
  AppendVerbatim spare dst format payload
  = dst ++ str "=" ++ dec (zlen format + 1 + zlen payload) ++ CRLF ++ format ++ str ":" ++ payload ++ CRLF.
Proof.
  intros Hv Hg. unfold grown in Hg. pose proof (zlen_nonneg format). pose proof (zlen_nonneg payload).
  unfold AppendVerbatim. cbv zeta. set (body := zlen format + 1 + zlen payload) in *.
  pose proof (declen_spec _ Hv) as Hd. set (total := 1 + declen body + 2 + body + 2) in *.
  destruct (frame_header_eq spare dst x3d body total Hv) as (room & Hh & Hr); [lia|].
  unfold frame_header in Hh. cbv zeta in Hh. change (str "=") with [x3d]. rewrite Hh. clear Hh.
  set (hd := dst ++ [x3d] ++ dec body ++ CRLF).
  assert (Hhd : zlen hd = zlen dst + 3 + declen body)
    by (unfold hd; rewrite !zlen_app, Hd; change (zlen [x3d]) with 1; change (zlen CRLF) with 2; lia).
  rewrite (put_next_at _ hd room format) by lia.
  set (r1 := zdrop _ room). assert (Hr1 : zlen r1 = zlen payload + 3) by (unfold r1; rewrite zlen_zdrop; lia).
  clearbody r1. rewrite (put_next_at _ (hd ++ format) r1 (str ":"))
    by (rewrite ?zlen_app; change (zlen (str ":")) with 1; lia). change (zlen (str ":")) with 1.
  set (r2 := zdrop 1 r1). assert (Hr2 : zlen r2 = zlen payload + 2) by (unfold r2; rewrite zlen_zdrop; lia).
  clearbody r2. rewrite (put_next_at _ ((hd ++ format) ++ str ":") r2 payload)
    by (rewrite ?zlen_app; change (zlen (str ":")) with 1; lia).
  set (r3 := zdrop _ r2). assert (Hr3 : zlen r3 = 2) by (unfold r3; rewrite zlen_zdrop; lia).
  clearbody r3. rewrite (put_next_at _ _ r3 [x0d])
    by (rewrite ?zlen_app; change (zlen (str ":")) with 1; change (zlen [x0d]) with 1; lia).
  change (zlen [x0d]) with 1. rewrite (put_next_at _ _ (zdrop 1 r3) [x0a])
    by (rewrite ?zlen_app, ?zlen_zdrop; change (zlen (str ":")) with 1; change (zlen [x0d]) with 1;
        change (zlen [x0a]) with 1; lia).
  change (zlen [x0a]) with 1. rewrite (zdrop_all 1 (zdrop 1 r3)) by (rewrite zlen_zdrop; lia).
  unfold hd. by rewrite app_nil_r, <- !app_assoc.
Qed.
