(* ===== verification/TierDirectory.v ===== *)
(** The resident chunk directory of a cold collection (engine/f3/tier/directory.go):
    an array of chunk descriptors ordered by first discriminator, searched by
    bisection, with a running element total. *)

From S2P Require Import Prelude Ordered.
From stdpp Require Import sorting.
#[local] Open Scope Z_scope.

Definition maxDisc : Z := 32.

Definition DescPromoting : Z := 1.
Definition DescDirty : Z := 2.
Definition DescDead : Z := 4.

(** [disc] is the 32-byte inline array, [dlen] the length in use. *)
Record desc := mkDesc {
  de_disc : bytes;
  de_off : Z;
  de_count : Z;
  de_dlen : Z;
  de_status : Z
}.

Definition discBytes (d : desc) : bytes := ztake (de_dlen d) (de_disc d).

Record Directory := mkDirectory { dir_descs : list desc; dir_total : Z }.

Definition Directory_Len (dir : Directory) : Z := zlen (dir_descs dir).

(** The chunk array at index [i]: an empty discriminator when out of range, which
    the searches below never ask for. *)
Definition disc_at (ds : list desc) (i : nat) : bytes := from_option discBytes [] (ds !! i).

Definition search (dir : Directory) (disc : bytes) : nat * bool :=
  let ds := dir_descs dir in
  let i := sort_Search (length ds) (fun i => bool_decide (bytes_Compare (disc_at ds i) disc <> Lt)) in
  (i, bool_decide (i < length ds)%nat && bytes_eqb (disc_at ds i) disc).

Definition Directory_Insert (dir : Directory) (disc : bytes) (count off : Z) : Directory :=
  let ds := dir_descs dir in
  match search dir disc with
  | (i, true) =>
      match ds !! i with
      | None => dir
      | Some d =>
          {| dir_descs := <[i := {| de_disc := de_disc d; de_off := off; de_count := count;
                                    de_dlen := de_dlen d; de_status := 0 |}]> ds;
             dir_total := add64 (sub64 (dir_total dir) (de_count d)) count |}
      end
  | (i, false) =>
      let n := Z.min maxDisc (zlen disc) in
      let d := {| de_disc := put (zeros maxDisc) 0 (ztake n disc); de_off := off;
                  de_count := count; de_dlen := n; de_status := 0 |} in
      {| dir_descs := take i ds ++ d :: drop i ds; dir_total := add64 (dir_total dir) count |}
  end.

Definition Floor (dir : Directory) (disc : bytes) : option nat :=
  let ds := dir_descs dir in
  match sort_Search (length ds) (fun i => bool_decide (bytes_Compare (disc_at ds i) disc = Gt)) with
  | O => None
  | S i => Some i
  end.

(** [for i := 0; i < idx && i < len(dir.descs); i++ { n += uint64(count) }] *)
Definition RankBefore (dir : Directory) (idx : nat) : Z :=
  foldl add64 0 (de_count <$> take idx (dir_descs dir)).

(** The indexed accessors panic out of range ([None]). *)
Definition Directory_At (dir : Directory) (idx : nat) : option (Z * Z * Z) :=
  (fun d => (de_off d, de_count d, de_status d)) <$> dir_descs dir !! idx.

Definition DiscAt (dir : Directory) (idx : nat) : option bytes := discBytes <$> dir_descs dir !! idx.

Definition SetStatus (dir : Directory) (idx : nat) (status : Z) : option Directory :=
  d ← dir_descs dir !! idx;
  Some {| dir_descs := <[idx := {| de_disc := de_disc d; de_off := de_off d; de_count := de_count d;
                                   de_dlen := de_dlen d; de_status := status |}]> (dir_descs dir);
          dir_total := dir_total dir |}.

Definition Directory_Remove (dir : Directory) (idx : nat) : option Directory :=
  d ← dir_descs dir !! idx;
  Some {| dir_descs := take idx (dir_descs dir) ++ drop (S idx) (dir_descs dir);
          dir_total := sub64 (dir_total dir) (de_count d) |}.

(** ** The invariant and the map a directory stands for *)

Definition sum_counts (ds : list desc) : Z := foldr Z.add 0 (de_count <$> ds).

Definition desc_wf (d : desc) : Prop :=
  zlen (de_disc d) = maxDisc /\ 0 <= de_dlen d <= maxDisc /\ is_u32 (de_count d).

Record dir_inv (dir : Directory) : Prop := {
  di_wf : Forall desc_wf (dir_descs dir);
  di_sorted : StronglySorted bytes_lt (discBytes <$> dir_descs dir);
  di_total : dir_total dir = sum_counts (dir_descs dir) mod two64
}.

(** First discriminator to frame offset and element count. *)
Definition dir_map (dir : Directory) : gmap bytes (Z * Z) :=
  list_to_map ((fun d => (discBytes d, (de_off d, de_count d))) <$> dir_descs dir).

Lemma sum_counts_app ds ds' : sum_counts (ds ++ ds') = sum_counts ds + sum_counts ds'.
Proof. unfold sum_counts. rewrite fmap_app, foldr_app. induction ds as [|d ds IH]; cbn in *; lia. Qed.

Lemma add64_mod a b : add64 (a mod two64) b = (a + b) mod two64.
Proof. unfold add64. by rewrite Zplus_mod_idemp_l. Qed.
Lemma sub64_mod a b : sub64 (a mod two64) b = (a - b) mod two64.
Proof. unfold sub64. by rewrite Zminus_mod_idemp_l. Qed.

Lemma sorted_split (ds1 ds2 : list bytes) :
  StronglySorted bytes_lt (ds1 ++ ds2) <->
  StronglySorted bytes_lt ds1 /\ StronglySorted bytes_lt ds2
  /\ (forall a b, a ∈ ds1 -> b ∈ ds2 -> bytes_lt a b).
Proof.
  induction ds1 as [|a ds1 IH]; cbn.
  { split; [|tauto]. intros. split_and!; [constructor|done|]. intros a b Ha. by apply elem_of_nil in Ha. }
  split.
  - intros Hs. apply StronglySorted_inv in Hs as [Hs Hf]. apply IH in Hs as (H1 & H2 & H3).
    apply Forall_app in Hf as [Hf1 Hf2]. split_and!; [by constructor|done|].
    intros x b Hx Hb. apply elem_of_cons in Hx as [->|Hx]; [|by apply H3].
    by eapply Forall_forall in Hf2.
  - intros (H1 & H2 & H3). apply StronglySorted_inv in H1 as [H1 Hf]. constructor.
    + apply IH. split_and!; [done|done|]. intros. apply H3; [by right|done].
    + apply Forall_app. split; [done|]. apply Forall_forall. intros b Hb. apply H3; [left|done].
Qed.

Lemma disc_at_fmap ds i : disc_at ds i = default [] ((discBytes <$> ds) !! i).
Proof. unfold disc_at. rewrite list_lookup_fmap. by destruct (ds !! i). Qed.

(** A sorted array is cut by any upward-closed test of its discriminators. *)
Lemma sorted_search ds (P : bytes -> bool) :
  StronglySorted bytes_lt (discBytes <$> ds) ->
  (forall a b, bytes_lt a b -> P a = true -> P b = true) ->
  exists ds1 ds2, ds = ds1 ++ ds2 /\ sort_Search (length ds) (fun i => P (disc_at ds i)) = length ds1
    /\ Forall (fun d => P (discBytes d) = false) ds1 /\ Forall (fun d => P (discBytes d) = true) ds2.
Proof.
  intros Hs HP. set (r := sort_Search _ _).
  assert (Hm : splits (length ds) (fun i => P (disc_at ds i)) r).
  { apply sort_Search_spec. intros i j [Hij Hj] Hi. destruct (decide (i = j)) as [->|]; [done|].
    eapply HP; [|exact Hi]. destruct (lookup_lt_is_Some_2 ds i) as [di Hdi]; [lia|].
    destruct (lookup_lt_is_Some_2 ds j) as [dj Hdj]; [lia|]. unfold disc_at. rewrite Hdi, Hdj. cbn.
    rewrite <- (take_drop j ds), fmap_app in Hs. apply sorted_split in Hs as (_ & _ & Hs). apply Hs.
    - apply list_elem_of_fmap. exists di. split; [done|]. apply (list_elem_of_lookup_2 _ i).
      rewrite lookup_take_lt; [done|lia].
    - apply list_elem_of_fmap. exists dj. split; [done|]. apply (list_elem_of_lookup_2 _ 0).
      by rewrite lookup_drop, Nat.add_0_r. }
  destruct Hm as (Hr & Hlo & Hhi). exists (take r ds), (drop r ds).
  split_and!; [by rewrite take_drop|rewrite length_take; lia| |]; apply Forall_lookup; intros i d.
  - intros [Hd Hlt]%lookup_take_Some. specialize (Hlo i Hlt). unfold disc_at in Hlo. by rewrite Hd in Hlo.
  - rewrite lookup_drop. intros Hd. pose proof (lookup_lt_Some _ _ _ Hd).
    specialize (Hhi (r + i)%nat ltac:(lia)). unfold disc_at in Hhi. by rewrite Hd in Hhi.
Qed.

Lemma search_spec dir disc :
  dir_inv dir ->
  exists ds1 ds2, dir_descs dir = ds1 ++ ds2
    /\ Forall (fun d => bytes_lt (discBytes d) disc) ds1
    /\ Forall (fun d => bytes_le disc (discBytes d)) ds2
    /\ search dir disc = (length ds1, match ds2 with d :: _ => bytes_eqb (discBytes d) disc | [] => false end).
Proof.
  intros Hi. destruct (sorted_search (dir_descs dir) (fun a => bool_decide (bytes_Compare a disc <> Lt)))
    as (ds1 & ds2 & Hd & Hs & H1 & H2); [apply Hi| |].
  { intros a b Hab. rewrite !bool_decide_eq_true. intros Ha Hb. by apply Ha, (bytes_lt_trans _ b). }
  exists ds1, ds2. split_and!; [done| | |].
  - eapply Forall_impl; [exact H1|]. intros d Hf%bool_decide_eq_false_1. by apply dec_stable in Hf.
  - eapply Forall_impl; [exact H2|]. intros d Hf%bool_decide_eq_true_1. unfold bytes_le.
    rewrite bytes_Compare_antisym. by destruct (bytes_Compare _ _).
  - unfold search. rewrite Hs, Hd. f_equal. unfold disc_at. rewrite length_app.
    destruct ds2 as [|d ds2].
    + rewrite bool_decide_eq_false_2 by (cbn; lia). done.
    + rewrite bool_decide_eq_true_2 by (cbn; lia). by rewrite list_lookup_middle.
Qed.

(** ** The operations on the map *)

Lemma dir_map_keys ds1 ds2 k :
  k ∉ (discBytes <$> ds1) ->
  list_to_map (M := gmap bytes (Z * Z)) ((fun d => (discBytes d, (de_off d, de_count d))) <$> ds1 ++ ds2) !! k
  = list_to_map (M := gmap bytes (Z * Z)) ((fun d => (discBytes d, (de_off d, de_count d))) <$> ds2) !! k.
Proof.
  intros Hk. rewrite fmap_app, list_to_map_app. apply lookup_union_r, not_elem_of_list_to_map.
  by rewrite <- list_fmap_compose.
Qed.

(** The entry of a descriptor in a sorted array is its own. *)
Lemma dir_map_lookup ds d k v :
  StronglySorted bytes_lt (discBytes <$> ds) -> d ∈ ds -> discBytes d = k ->
  (de_off d, de_count d) = v ->
  list_to_map (M := gmap bytes (Z * Z)) ((fun d => (discBytes d, (de_off d, de_count d))) <$> ds) !! k = Some v.
Proof.
  intros Hs Hin <- <-. apply elem_of_list_to_map; [|apply list_elem_of_fmap; by exists d].
  rewrite <- list_fmap_compose. change (_ ∘ _) with discBytes. clear -Hs.
  induction Hs as [|a l Hs IH Hf]; [constructor|]. constructor; [|done].
  intros Hin. eapply Forall_forall in Hf; [|done]. by apply (StrictOrder_Irreflexive a).
Qed.

Lemma dir_map_none ds k :
  k ∉ (discBytes <$> ds) ->
  list_to_map (M := gmap bytes (Z * Z)) ((fun d => (discBytes d, (de_off d, de_count d))) <$> ds) !! k = None.
Proof. intros Hk. apply not_elem_of_list_to_map. by rewrite <- list_fmap_compose. Qed.

(** Two sorted arrays that agree but for one descriptor stand for maps that differ
    there only. *)
Lemma dir_map_replace ds1 d ds2 :
  StronglySorted bytes_lt (discBytes <$> ds1 ++ d :: ds2) -> forall k,
  list_to_map (M := gmap bytes (Z * Z)) ((fun d => (discBytes d, (de_off d, de_count d))) <$> ds1 ++ d :: ds2) !! k
  = if decide (k = discBytes d) then Some (de_off d, de_count d)
    else list_to_map (M := gmap bytes (Z * Z)) ((fun d => (discBytes d, (de_off d, de_count d))) <$> ds1 ++ ds2) !! k.
Proof.
  intros Hs k. case_decide as Hk.
  - eapply dir_map_lookup; [done| |done|done]. apply elem_of_app. right. left.
  - rewrite !fmap_app, !list_to_map_app, !lookup_union. f_equal. cbn. by rewrite lookup_insert_ne.
Qed.

Lemma desc_disc_short disc count off :
  zlen disc <= maxDisc ->
  discBytes {| de_disc := put (zeros maxDisc) 0 (ztake (Z.min maxDisc (zlen disc)) disc); de_off := off;
               de_count := count; de_dlen := Z.min maxDisc (zlen disc); de_status := 0 |} = disc.
Proof.
  intros Hl. unfold discBytes. cbn [de_dlen de_disc]. rewrite Z.min_r by done.
  rewrite (ztake_all (zlen disc) disc) by done.
  assert (Hz : zlen (zeros maxDisc) = maxDisc) by (by apply zlen_zeros).
  revert Hz. generalize (zeros maxDisc) as z. intros z Hz.
  pose proof (sl_put_same z 0 disc (zlen disc)) as Hp. unfold sl in Hp.
  rewrite zdrop_nonpos in Hp by done. apply Hp; [done|lia|done].
Qed.

Lemma desc_disc_long disc count off :
  maxDisc < zlen disc ->
  discBytes {| de_disc := put (zeros maxDisc) 0 (ztake (Z.min maxDisc (zlen disc)) disc); de_off := off;
               de_count := count; de_dlen := Z.min maxDisc (zlen disc); de_status := 0 |} = ztake maxDisc disc.
Proof.
  intros Hl. unfold discBytes. cbn [de_dlen de_disc]. rewrite Z.min_l by lia.
  assert (Hw : zlen (ztake maxDisc disc) = maxDisc) by (rewrite zlen_ztake; unfold maxDisc in *; lia).
  assert (Hz : zlen (zeros maxDisc) = maxDisc) by (by apply zlen_zeros).
  revert Hz Hw. generalize (zeros maxDisc) as z, (ztake maxDisc disc) as w. intros z w Hz Hw.
  pose proof (sl_put_same z 0 w maxDisc) as Hp. unfold sl in Hp.
  rewrite zdrop_nonpos in Hp by done. apply Hp; [done|lia|done].
Qed.

Lemma dir_inv_insert ds1 d ds2 t :
  dir_inv (mkDirectory (ds1 ++ ds2) t) -> desc_wf d ->
  Forall (fun e => bytes_lt (discBytes e) (discBytes d)) ds1 ->
  Forall (fun e => bytes_lt (discBytes d) (discBytes e)) ds2 ->
  dir_inv (mkDirectory (ds1 ++ d :: ds2) (add64 t (de_count d))).
Proof.
  intros [Hw Hs Ht] Hd H1 H2. cbn [dir_descs dir_total] in *. apply Forall_app in Hw as [Hw1 Hw2].
  constructor; cbn [dir_descs dir_total].
  - apply Forall_app. by split; [|constructor].
  - rewrite fmap_app in *. apply sorted_split in Hs as (Hs1 & Hs2 & Hlt). apply sorted_split.
    split_and!; [done| |].
    + cbn. constructor; [done|]. by apply Forall_fmap.
    + intros a b Ha. cbn. rewrite elem_of_cons. intros [->|Hb]; [|by apply Hlt].
      apply list_elem_of_fmap in Ha as (e & -> & He). by eapply Forall_forall in H1.
  - rewrite Ht, add64_mod, !sum_counts_app. f_equal. unfold sum_counts. cbn. lia.
Qed.

Lemma dir_inv_remove ds1 d ds2 t :
  dir_inv (mkDirectory (ds1 ++ d :: ds2) t) ->
  dir_inv (mkDirectory (ds1 ++ ds2) (sub64 t (de_count d))).
Proof.
  intros [Hw Hs Ht]. cbn [dir_descs dir_total] in *. apply Forall_app in Hw as [Hw1 Hw2].
  apply Forall_cons in Hw2 as [_ Hw2]. constructor; cbn [dir_descs dir_total].
  - by apply Forall_app.
  - rewrite fmap_app in *. cbn in Hs. apply sorted_split in Hs as (Hs1 & Hs2 & Hlt).
    apply StronglySorted_inv in Hs2 as [Hs2 _].
    apply sorted_split. split_and!; [done|done|]. intros a b Ha Hb. apply Hlt; [done|by right].
  - rewrite Ht, sub64_mod, !sum_counts_app. f_equal. unfold sum_counts. cbn. lia.
Qed.

(** Past an inexact hit every descriptor is strictly above. *)
Lemma strict_above disc ds :
  StronglySorted bytes_lt (discBytes <$> ds) -> Forall (fun d => bytes_le disc (discBytes d)) ds ->
  match ds with d :: _ => bytes_eqb (discBytes d) disc | [] => false end = false ->
  Forall (fun d => bytes_lt disc (discBytes d)) ds.
Proof.
  intros Hs Hf Hx. destruct ds as [|d ds]; [constructor|]. cbn in Hs.
  apply StronglySorted_inv in Hs as [_ Hs]. rewrite Forall_fmap in Hs.
  apply Forall_cons in Hf as [Hle _]. apply bytes_le_lteq in Hle as [Hlt|E].
  - constructor; [done|]. eapply Forall_impl; [exact Hs|]. intros e He. by eapply bytes_lt_trans.
  - rewrite E, bytes_eqb_refl in Hx. done.
Qed.

(** Inserting keeps the invariant and is insertion into the map. *)
Lemma Directory_Insert_ok dir disc count off :
  dir_inv dir -> zlen disc <= maxDisc -> is_u32 count ->
  dir_inv (Directory_Insert dir disc count off)
  /\ dir_map (Directory_Insert dir disc count off) = <[disc := (off, count)]> (dir_map dir).
Proof.
  intros Hi Hl Hc. destruct (search_spec dir disc Hi) as (ds1 & ds2 & Hd & H1 & H2 & Hsr).
  destruct dir as [ds t]. cbn [dir_descs] in Hd. subst ds.
  unfold Directory_Insert. rewrite Hsr. cbn [dir_descs dir_total].
  pose proof (di_sorted _ Hi) as Hs. cbn [dir_descs] in Hs. rewrite fmap_app in Hs.
  apply sorted_split in Hs as (_ & Hs & _).
  destruct (match ds2 with d :: _ => _ | [] => _ end) eqn:E.
  - destruct ds2 as [|d ds2]; [done|]. apply bytes_eqb_eq in E. rewrite list_lookup_middle by done.
    rewrite insert_app_r_alt, Nat.sub_diag by done. cbn [insert list_insert].
    set (d' := mkDesc _ _ _ _ _). assert (Hdd : discBytes d' = disc) by done.
    cbn in Hs. apply StronglySorted_inv in Hs as [_ Hs]. rewrite Forall_fmap in Hs.
    pose proof (di_wf _ Hi) as Hw. cbn [dir_descs] in Hw. apply Forall_app in Hw as [_ Hw].
    apply Forall_cons in Hw as [(?&?&?) _].
    assert (dir_inv (mkDirectory (ds1 ++ d' :: ds2) (add64 (sub64 t (de_count d)) count))) as Hi'.
    { apply (dir_inv_insert _ d'); rewrite ?Hdd, <- ?E; [by eapply dir_inv_remove|done|by rewrite E|done]. }
    split; [done|]. apply map_eq. intros k. unfold dir_map. cbn [dir_descs].
    rewrite (dir_map_replace ds1 d' _ (di_sorted _ Hi')), Hdd. case_decide as Hk.
    + subst k. by rewrite lookup_insert_eq.
    + rewrite lookup_insert_ne, (dir_map_replace ds1 d _ (di_sorted _ Hi)) by done.
      by rewrite decide_False by congruence.
  - rewrite take_app_length, drop_app_length. set (d := mkDesc _ _ _ _ _).
    assert (Hdd : discBytes d = disc) by (by apply desc_disc_short).
    assert (dir_inv (mkDirectory (ds1 ++ d :: ds2) (add64 t (de_count d)))) as Hi'.
    { apply dir_inv_insert; rewrite ?Hdd; [done| |done|by apply strict_above].
      split_and!; cbn [d de_disc de_dlen de_count]; try done.
      - rewrite zlen_put. by apply zlen_zeros.
      - unfold maxDisc. pose proof (zlen_nonneg disc). lia.
      - unfold maxDisc. lia. }
    split; [done|]. apply map_eq. intros k. unfold dir_map. cbn [dir_descs].
    rewrite (dir_map_replace ds1 d _ (di_sorted _ Hi')), Hdd. case_decide as Hk.
    + subst k. by rewrite lookup_insert_eq.
    + by rewrite lookup_insert_ne.
Qed.

Lemma Directory_Remove_ok dir idx d :
  dir_inv dir -> dir_descs dir !! idx = Some d ->
  exists dir', Directory_Remove dir idx = Some dir' /\ dir_inv dir'
    /\ dir_map dir' = delete (discBytes d) (dir_map dir).
Proof.
  intros Hi Hd. unfold Directory_Remove. rewrite Hd. cbn. eexists. split; [done|].
  destruct dir as [ds t]. cbn [dir_descs dir_total] in *.
  pose proof (take_drop_middle _ _ _ Hd) as E. rewrite <- E in Hi.
  split; [by apply dir_inv_remove|]. apply map_eq. intros k. unfold dir_map. cbn [dir_descs].
  rewrite <- E at 3. destruct (decide (k = discBytes d)) as [->|Hne].
  - rewrite lookup_delete_eq. apply dir_map_none. rewrite fmap_app, elem_of_app.
    pose proof (di_sorted _ Hi) as Hs. cbn [dir_descs] in Hs. rewrite fmap_app in Hs. cbn in Hs.
    apply sorted_split in Hs as (_ & Hs & Hlt). apply StronglySorted_inv in Hs as [_ Hf].
    intros [Hin|Hin]; apply (StrictOrder_Irreflexive (discBytes d)).
    + apply Hlt; [done|left].
    + by eapply Forall_forall in Hf.
  - rewrite lookup_delete_ne, (dir_map_replace _ d _ (di_sorted _ Hi)) by done. by rewrite decide_False.
Qed.

Lemma SetStatus_ok dir idx status d :
  dir_inv dir -> dir_descs dir !! idx = Some d ->
  exists dir', SetStatus dir idx status = Some dir' /\ dir_inv dir' /\ dir_map dir' = dir_map dir
    /\ Directory_At dir' idx = Some (de_off d, de_count d, status).
Proof.
  intros Hi Hd. unfold SetStatus. rewrite Hd. cbn. eexists. split; [done|].
  destruct dir as [ds t]. cbn [dir_descs dir_total] in *.
  pose proof (lookup_lt_Some _ _ _ Hd) as Hlt. unfold Directory_At, dir_map. cbn [dir_descs dir_total].
  rewrite list_lookup_insert_eq by done.
  set (d' := mkDesc _ _ _ _ _).
  assert (forall {X} (g : desc -> X), g d' = g d -> g <$> <[idx := d']> ds = g <$> ds) as Hg.
  { intros X g Hg. rewrite list_fmap_insert, Hg. apply list_insert_id. by rewrite list_lookup_fmap, Hd. }
  split_and!; [|by rewrite Hg|done]. destruct Hi as [Hw Hs Ht]. constructor; cbn [dir_descs dir_total] in *.
  - apply Forall_insert; [done|]. eapply Forall_lookup_1 in Hw; [|done]. exact Hw.
  - by rewrite Hg.
  - unfold sum_counts. by rewrite Hg.
Qed.

(** The owning chunk: the last one that starts at or before the discriminator. *)
Lemma Floor_ok dir disc :
  dir_inv dir ->
  match Floor dir disc with
  | Some i => exists d, dir_descs dir !! i = Some d /\ bytes_le (discBytes d) disc
      /\ Forall (fun e => bytes_lt disc (discBytes e)) (drop (S i) (dir_descs dir))
  | None => Forall (fun e => bytes_lt disc (discBytes e)) (dir_descs dir)
  end.
Proof.
  intros Hi. destruct (sorted_search (dir_descs dir) (fun a => bool_decide (bytes_Compare a disc = Gt)))
    as (ds1 & ds2 & Hd & Hs & H1 & H2); [apply Hi| |].
  { intros a b Hab. rewrite !bool_decide_eq_true. intros Ha.
    assert (bytes_lt disc a) by (unfold bytes_lt; by rewrite bytes_Compare_antisym, Ha).
    assert (bytes_lt disc b) as Hb by (by eapply bytes_lt_trans).
    unfold bytes_lt in Hb. by rewrite bytes_Compare_antisym, Hb. }
  assert (Hgt : Forall (fun e => bytes_lt disc (discBytes e)) ds2).
  { eapply Forall_impl; [exact H2|]. intros e He%bool_decide_eq_true_1. unfold bytes_lt.
    by rewrite bytes_Compare_antisym, He. }
  unfold Floor. rewrite Hs, Hd. destruct ds1 as [|d ds1 _] using rev_ind; [done|].
  rewrite length_app, Nat.add_1_r. cbn [length]. exists d. rewrite <- app_assoc. cbn [app].
  split_and!; [by rewrite list_lookup_middle| |].
  - apply Forall_app in H1 as [_ H1]. rewrite Forall_singleton in H1.
    by apply bool_decide_eq_false_1 in H1.
  - rewrite cons_middle, app_assoc, <- (Nat.add_1_r (length ds1)), <- (length_app _ [d]).
    by rewrite drop_app_length.
Qed.

Lemma RankBefore_eq dir idx : RankBefore dir idx = sum_counts (take idx (dir_descs dir)) mod two64.
Proof.
  unfold RankBefore, sum_counts. set (l := de_count <$> _). clearbody l.
  assert (forall a, foldl add64 (a mod two64) l = (a + foldr Z.add 0 l) mod two64) as Hg.
  { induction l as [|x l IH]; intros a; cbn; [by rewrite Z.add_0_r|].
    rewrite add64_mod, IH. f_equal. lia. }
  specialize (Hg 0). by rewrite Zmod_0_l in Hg.
Qed.

(** Any sequence of inserts leaves a directory for the map of the inserts. *)
Definition insert_all (dir : Directory) (l : list (bytes * (Z * Z))) : Directory :=
  foldl (fun dir '(disc, (off, count)) => Directory_Insert dir disc count off) dir l.

Lemma insert_all_ok l : forall dir,
  dir_inv dir -> Forall (fun p => zlen p.1 <= maxDisc /\ is_u32 p.2.2) l ->
  dir_inv (insert_all dir l)
  /\ dir_map (insert_all dir l) = foldl (fun m p => <[p.1 := p.2]> m) (dir_map dir) l.
Proof.
  induction l as [|[disc [off count]] l IH]; intros dir Hi Hf; [done|].
  apply Forall_cons in Hf as [[Hl Hc] Hf]. cbn in *.
  destruct (Directory_Insert_ok dir disc count off Hi Hl Hc) as [Hi' Hm].
  rewrite <- Hm. by apply IH.
Qed.
