(* ===== verification/ScoreCodec.v ===== *)
(** The sorted-set score codecs (engine/f3/zset/codec.go) and the cold discriminator
    built on them (engine/f3/zset/cold.go, [discOf]).

    A float64 is its IEEE-754 bit pattern, a 64-bit [Z]; [f64_scaled] is the number it
    stands for times 2^1074, an integer for every finite double and the next larger
    power for an infinity, so numeric comparison of doubles is comparison of [Z]. *)

From S2P Require Import Prelude Format Ordered.
#[local] Open Scope Z_scope.

(** ** Doubles as bit patterns *)

Definition signBit : Z := 9223372036854775808.
Definition two52 : Z := 4503599627370496.
#[local] Hint Unfold signBit two52 : aki.

Definition f64_mag_bits (b : Z) : Z := b mod signBit.
Definition f64_neg (b : Z) : bool := signBit <=? b.

(** The magnitude bits: exponent above the 52 fraction bits. *)
Definition mag_value (m : Z) : Z :=
  let e := m / two52 in
  let fr := m mod two52 in
  if e =? 0 then fr else (two52 + fr) * 2 ^ (e - 1).

Definition f64_scaled (b : Z) : Z :=
  if f64_neg b then - mag_value (f64_mag_bits b) else mag_value (f64_mag_bits b).

Definition f64_inf_bits : Z := 2047 * two52.
Definition f64_is_nan (b : Z) : bool := f64_inf_bits <? f64_mag_bits b.

(** [f == 0], true of both zeros. *)
Definition f64_is_zero (b : Z) : bool := f64_mag_bits b =? 0.

(** [float64(n)] of an integer the 53-bit significand holds. *)
Definition f64_of_int (n : Z) : Z :=
  if n =? 0 then 0 else
  let a := Z.abs n in
  let e := Z.log2 a in
  (if n <? 0 then signBit else 0) + (e + 1023) * two52 + (a * 2 ^ (52 - e) - two52).

(** ** The tree key *)

Definition keySignBit : Z := signBit.

Definition scoreKey (f : Z) : Z :=
  let b := if f64_is_zero f then 0 else f in
  if Z.land b keySignBit =? 0 then Z.lxor b keySignBit else two64 - 1 - b.

Definition scoreFromKey (k : Z) : Z :=
  if negb (Z.land k keySignBit =? 0) then Z.lxor k keySignBit else two64 - 1 - k.

(** [discOf]: big-endian key, then the member. *)
Definition be_enc (n : nat) (v : Z) : bytes := rev (le_enc n v).
Definition be_dec (b : bytes) : Z := le_dec (rev b).

Definition discOf (key : Z) (member : bytes) : bytes := be_enc 8 key ++ member.

(** ** The inline codec *)

Definition scoreF64 : Z := 0.
Definition scoreI8 : Z := 1.
Definition scoreI16 : Z := 2.
Definition scoreI32 : Z := 4.

Definition scale : Z := 2 ^ 1074.

(** [f < MinInt32 || f > MaxInt32], then [f != math.Trunc(f)]: a NaN fails only the
    second test. *)
Definition intScore (f : Z) : option Z :=
  if f64_is_nan f then None else
  let v := f64_scaled f in
  if (v <? - 2147483648 * scale) || (2147483647 * scale <? v) then None else
  if negb (v mod scale =? 0) then None else Some (v / scale).

Definition fits (w n : Z) : bool := (- 2 ^ (w - 1) <=? n) && (n <=? 2 ^ (w - 1) - 1).

Definition encScoreWidth (score : Z) : Z :=
  match intScore score with
  | None => 9
  | Some iv => if fits 8 iv then 2 else if fits 16 iv then 3 else 5
  end.

(** [putScore(b, score)]: the buffer after the write and the bytes written. *)
Definition score_bytes (score : Z) : bytes :=
  match intScore score with
  | None => Z_byte scoreF64 :: be_enc 8 score
  | Some iv =>
      if fits 8 iv then Z_byte scoreI8 :: be_enc 1 (iv mod 256)
      else if fits 16 iv then Z_byte scoreI16 :: be_enc 2 (iv mod two16)
      else Z_byte scoreI32 :: be_enc 4 (iv mod two32)
  end.

Definition putScore (b : bytes) (score : Z) : bytes * Z :=
  (put b 0 (score_bytes score), zlen (score_bytes score)).

(** [intN(u)]: two's complement. *)
Definition to_signed (w u : Z) : Z := if u <? 2 ^ (w - 1) then u else u - 2 ^ w.

Definition be_at {E} (b : bytes) (off n : Z) : res E Z :=
  let* s := slice b off (off + n) in Ok (be_dec s).

Definition readScore {E} (b : bytes) : res E (Z * Z) :=
  let* c := at8 b 0 in
  if c =? scoreI8 then let* u := be_at b 1 1 in Ok (f64_of_int (to_signed 8 u), 2)
  else if c =? scoreI16 then let* u := be_at b 1 2 in Ok (f64_of_int (to_signed 16 u), 3)
  else if c =? scoreI32 then let* u := be_at b 1 4 in Ok (f64_of_int (to_signed 32 u), 5)
  else let* u := be_at b 1 8 in Ok (u, 9).

Definition scoreWidthAt {E} (b : bytes) (i : Z) : res E Z :=
  let* c := at8 b i in
  Ok (if c =? scoreI8 then 2 else if c =? scoreI16 then 3 else if c =? scoreI32 then 5 else 9).

(** ** Order *)

Lemma mag_value_mono a b : 0 <= a -> a < b -> mag_value a < mag_value b.
Proof.
  intros Ha Hab. unfold mag_value.
  pose proof (Z.div_mod a two52 ltac:(done)) as Ea. pose proof (Z.mod_pos_bound a two52 ltac:(done)) as Ba.
  pose proof (Z.div_mod b two52 ltac:(done)) as Eb. pose proof (Z.mod_pos_bound b two52 ltac:(done)) as Bb.
  assert (0 <= a / two52) by (apply Z.div_pos; lia).
  assert (a / two52 <= b / two52) by (apply Z.div_le_mono; lia).
  set (ea := a / two52) in *. set (fa := a mod two52) in *.
  set (eb := b / two52) in *. set (fb := b mod two52) in *. clearbody ea fa eb fb.
  unfold two52 in *.
  destruct (Z.eqb_spec ea 0), (Z.eqb_spec eb 0); try lia.
  - destruct (Z.eq_dec ea eb) as [->|].
    + assert (0 < 2 ^ (eb - 1)) by (apply Z.pow_pos_nonneg; lia). apply Z.mul_lt_mono_pos_r; lia.
    + assert (2 * 2 ^ (ea - 1) <= 2 ^ (eb - 1)).
      { rewrite <- Z.pow_succ_r by lia. apply Z.pow_le_mono_r; lia. }
      assert (0 < 2 ^ (ea - 1)) by (apply Z.pow_pos_nonneg; lia).
      apply Z.lt_le_trans with (4503599627370496 * (2 * 2 ^ (ea - 1))); [nia|].
      apply Z.mul_le_mono_nonneg; lia.
Qed.

Lemma mag_value_0 : mag_value 0 = 0.
Proof. done. Qed.

Lemma mag_value_pos m : 0 < m -> 0 < mag_value m.
Proof. intros. rewrite <- mag_value_0. by apply mag_value_mono. Qed.

Lemma mag_value_inj a b : 0 <= a -> 0 <= b -> mag_value a = mag_value b -> a = b.
Proof.
  intros Ha Hb E. destruct (Z.lt_trichotomy a b) as [H|[|H]]; [|done|];
    apply mag_value_mono in H; lia.
Qed.

(** The sign test and flip of a 64-bit pattern, as arithmetic. *)
Lemma sign_test b : is_u64 b -> (Z.land b signBit =? 0) = negb (f64_neg b).
Proof.
  intros Hb. unfold f64_neg, signBit in *. change 9223372036854775808 with (2 ^ 63).
  rewrite Z.land_comm. change (2 ^ 63) with (Z.shiftl 1 63).
  destruct (Z.leb_spec (Z.shiftl 1 63) b) as [H|H]; change (Z.shiftl 1 63) with (2 ^ 63) in *; cbn [negb].
  - apply Z.eqb_neq. intros E.
    assert (Z.testbit b 63 = true) as Ht.
    { rewrite Z.testbit_true by lia. replace (b / 2 ^ 63) with 1; [done|].
      apply (Z.div_unique b (2 ^ 63) 1 (b - 2 ^ 63)); lia. }
    apply (f_equal (fun z => Z.testbit z 63)) in E. rewrite Z.land_spec, Ht in E. done.
  - apply Z.eqb_eq. apply Z.bits_inj'. intros n Hn. rewrite Z.land_spec, Z.testbit_0_l.
    rewrite Z.pow2_bits_eqb by lia. destruct (Z.eqb_spec 63 n) as [<-|]; [|done]. cbn [andb].
    apply Z.testbit_false; [lia|]. by rewrite Z.div_small by lia.
Qed.

Lemma sign_flip b : 0 <= b < signBit -> Z.lxor b signBit = b + signBit.
Proof.
  intros Hb. symmetry. apply Z.add_nocarry_lxor.
  pose proof (sign_test b ltac:(unfold is_u64, signBit in *; lia)) as H. unfold f64_neg in H.
  destruct (Z.leb_spec signBit b); [lia|]. by apply Z.eqb_eq in H.
Qed.

(** What the transform does, sign by sign. *)
Lemma scoreKey_eq f :
  is_u64 f -> scoreKey f = if f64_is_zero f then signBit
                           else if f64_neg f then two64 - 1 - f else f + signBit.
Proof.
  intros Hf. unfold scoreKey, keySignBit. destruct (f64_is_zero f); [done|].
  rewrite sign_test by done. unfold f64_neg.
  destruct (Z.leb_spec signBit f); cbn [negb]; [done|]. apply sign_flip. lia.
Qed.

Lemma mag_bits_eq f : is_u64 f -> f64_mag_bits f = if f64_neg f then f - signBit else f.
Proof.
  intros Hf. unfold f64_mag_bits, f64_neg. destruct (Z.leb_spec signBit f).
  - symmetry. apply (Z.mod_unique f signBit 1); lia.
  - apply Z.mod_small. lia.
Qed.

(** The key order is the numeric order of the scores. *)
Lemma scoreKey_lt f g :
  is_u64 f -> is_u64 g -> (scoreKey f < scoreKey g <-> f64_scaled f < f64_scaled g).
Proof.
  intros Hf Hg. rewrite !scoreKey_eq by done. unfold f64_scaled, f64_is_zero.
  pose proof (mag_bits_eq f Hf) as Ef. pose proof (mag_bits_eq g Hg) as Eg. unfold f64_neg in *.
  set (mf := f64_mag_bits f) in *. set (mg := f64_mag_bits g) in *. clearbody mf mg.
  pose proof mag_value_0 as H0.
  assert (0 <= mf /\ 0 <= mg) as [Hmf Hmg]
    by (destruct (Z.leb_spec signBit f), (Z.leb_spec signBit g); lia).
  assert (forall a b, 0 <= a -> 0 <= b -> (mag_value a < mag_value b <-> a < b)) as Hm.
  { intros a b Ha Hb. split; [|by apply mag_value_mono]. intros H.
    destruct (Z.lt_trichotomy a b) as [|[->|H']]; [done|lia|]. apply mag_value_mono in H'; lia. }
  pose proof (Hm mf mg Hmf Hmg). pose proof (Hm mg mf Hmg Hmf).
  pose proof (Hm 0 mf ltac:(lia) Hmf). pose proof (Hm 0 mg ltac:(lia) Hmg). rewrite H0 in *.
  pose proof (mag_value_inj mf 0 Hmf). pose proof (mag_value_inj mg 0 Hmg). rewrite H0 in *.
  destruct (Z.eqb_spec mf 0) as [E|]; [rewrite E in *|];
    destruct (Z.eqb_spec mg 0) as [E'|]; try rewrite E' in *; rewrite ?H0 in *;
    destruct (Z.leb_spec signBit f), (Z.leb_spec signBit g); lia.
Qed.

(** The transform loses nothing but the sign of a zero. *)
Lemma scoreFromKey_scoreKey f :
  is_u64 f -> scoreFromKey (scoreKey f) = if f64_is_zero f then 0 else f.
Proof.
  intros Hf. rewrite scoreKey_eq by done. unfold scoreFromKey, keySignBit.
  pose proof (mag_bits_eq f Hf) as Em. unfold f64_is_zero. unfold f64_neg in *.
  destruct (Z.eqb_spec (f64_mag_bits f) 0); [done|].
  destruct (Z.leb_spec signBit f); rewrite sign_test by lia; unfold f64_neg.
  - destruct (Z.leb_spec signBit (two64 - 1 - f)); [lia|]. cbn. lia.
  - destruct (Z.leb_spec signBit (f + signBit)); [|lia]. cbn [negb].
    rewrite <- sign_flip by lia. by rewrite Z.lxor_assoc, Z.lxor_nilpotent, Z.lxor_0_r.
Qed.

Lemma be_enc_S n v : be_enc (S n) v = be_enc n (v / 256) ++ [Z_byte v].
Proof. unfold be_enc. cbn [le_enc rev]. by rewrite Z.shiftr_div_pow2 by lia. Qed.

Lemma zlen_be_enc n v : zlen (be_enc n v) = Z.of_nat n.
Proof. unfold be_enc, zlen. rewrite length_rev. by rewrite length_le_enc. Qed.

Lemma be_dec_enc n v : 0 <= v < 256 ^ Z.of_nat n -> be_dec (be_enc n v) = v.
Proof. intros. unfold be_dec, be_enc. rewrite rev_involutive. by apply le_dec_enc. Qed.

(** Big-endian bytes order as the numbers they encode. *)
Lemma be_enc_compare n : forall a b m m',
  0 <= a < 256 ^ Z.of_nat n -> 0 <= b < 256 ^ Z.of_nat n ->
  bytes_Compare (be_enc n a ++ m) (be_enc n b ++ m')
  = match a ?= b with Eq => bytes_Compare m m' | c => c end.
Proof.
  induction n as [|n IH]; intros a b m m' Ha Hb.
  { assert (a = b) as -> by (cbn in Ha, Hb; lia). by rewrite Z.compare_refl. }
  rewrite Nat2Z.inj_succ, Z.pow_succ_r in Ha, Hb by lia.
  rewrite !be_enc_S, <- !app_assoc. cbn [app].
  rewrite IH by (split; [apply Z.div_pos; lia|apply Z.div_lt_upper_bound; lia]).
  cbn [bytes_Compare]. rewrite !byte_Z_Z_byte.
  pose proof (Z.div_mod a 256 ltac:(lia)). pose proof (Z.div_mod b 256 ltac:(lia)).
  pose proof (Z.mod_pos_bound a 256). pose proof (Z.mod_pos_bound b 256).
  destruct (Z.compare_spec (a / 256) (b / 256)), (Z.compare_spec (a mod 256) (b mod 256)),
    (Z.compare_spec a b); done || lia.
Qed.

Lemma discOf_compare k k' m m' :
  is_u64 k -> is_u64 k' ->
  bytes_Compare (discOf k m) (discOf k' m') = match k ?= k' with Eq => bytes_Compare m m' | c => c end.
Proof. intros. apply be_enc_compare; done || (cbn; lia). Qed.

Lemma scoreKey_u64 f : is_u64 f -> is_u64 (scoreKey f).
Proof.
  intros Hf. rewrite scoreKey_eq by done. unfold f64_neg.
  destruct (f64_is_zero f), (Z.leb_spec signBit f); lia.
Qed.

(** ** The inline codec reads back *)

Lemma f64_of_int_value n :
  Z.abs n < 2 ^ 53 ->
  is_u64 (f64_of_int n) /\ f64_is_nan (f64_of_int n) = false /\ f64_scaled (f64_of_int n) = n * scale
  /\ (f64_of_int n = 0 <-> n = 0) /\ (f64_neg (f64_of_int n) = (n <? 0)).
Proof.
  intros Hn. unfold f64_of_int. destruct (Z.eqb_spec n 0) as [->|H0]; [by split_and!|].
  pose proof (Z.log2_spec (Z.abs n) ltac:(lia)) as [Hlo Hhi].
  assert (0 <= Z.log2 (Z.abs n) < 53) as He.
  { split; [apply Z.log2_nonneg|]. apply Z.log2_lt_pow2; lia. }
  set (e := Z.log2 (Z.abs n)) in *. set (a := Z.abs n) in *.
  assert (Hp : two52 = 2 ^ e * 2 ^ (52 - e)) by (rewrite <- Z.pow_add_r by lia; by replace (e + (52 - e)) with 52 by lia).
  assert (0 < 2 ^ (52 - e)) by (apply Z.pow_pos_nonneg; lia).
  rewrite Z.pow_succ_r in Hhi by lia.
  assert (two52 <= a * 2 ^ (52 - e) < 2 * two52) as Hfr by (rewrite Hp; split; nia).
  set (m := (e + 1023) * two52 + (a * 2 ^ (52 - e) - two52)).
  assert (Hm : 0 < m < 2047 * two52) by (unfold m, two52 in *; lia).
  set (b := (if n <? 0 then signBit else 0) + (e + 1023) * two52 + (a * 2 ^ (52 - e) - two52)).
  assert (Hb : b = (if n <? 0 then signBit else 0) + m) by (unfold b, m; lia).
  assert (Hu : is_u64 b) by (rewrite Hb; destruct (n <? 0); lia).
  assert (Hneg : f64_neg b = (n <? 0)).
  { unfold f64_neg. rewrite Hb. destruct (n <? 0); [apply Z.leb_le|apply Z.leb_gt]; lia. }
  assert (Hmb : f64_mag_bits b = m) by (rewrite mag_bits_eq, Hneg, Hb by done; destruct (n <? 0); lia).
  assert (Hv : mag_value m = a * scale).
  { unfold mag_value. assert (m / two52 = e + 1023) as ->.
    { symmetry. apply (Z.div_unique _ _ _ (a * 2 ^ (52 - e) - two52)); [lia|]. unfold m. lia. }
    assert (m mod two52 = a * 2 ^ (52 - e) - two52) as ->.
    { symmetry. apply (Z.mod_unique _ _ (e + 1023)); [lia|]. unfold m. lia. }
    destruct (Z.eqb_spec (e + 1023) 0); [lia|].
    replace (two52 + (a * 2 ^ (52 - e) - two52)) with (a * 2 ^ (52 - e)) by lia.
    rewrite <- Z.mul_assoc, <- Z.pow_add_r by lia. unfold scale. do 2 f_equal. lia. }
  split_and!; try done.
  - unfold f64_is_nan, f64_inf_bits. rewrite Hmb. apply Z.ltb_ge. lia.
  - unfold f64_scaled. rewrite Hneg, Hmb, Hv. unfold a. destruct (Z.ltb_spec n 0); lia.
  - rewrite Hb. destruct (n <? 0); lia.
Qed.

(** A bit pattern is determined by its number, the two zeros apart. *)
Lemma f64_scaled_inj f g :
  is_u64 f -> is_u64 g -> f64_scaled f = f64_scaled g -> f64_is_zero f = false -> f = g.
Proof.
  intros Hf Hg. unfold f64_scaled, f64_is_zero.
  pose proof (mag_bits_eq f Hf) as Ef. pose proof (mag_bits_eq g Hg) as Eg. unfold f64_neg in *.
  assert (0 <= f64_mag_bits f /\ 0 <= f64_mag_bits g) as [Bf Bg]
    by (unfold f64_mag_bits; split; by apply Z.mod_pos_bound).
  set (mf := f64_mag_bits f) in *. set (mg := f64_mag_bits g) in *. clearbody mf mg.
  pose proof (mag_value_inj mf mg Bf Bg) as Hi. intros E Hz%Z.eqb_neq.
  pose proof (mag_value_pos mf ltac:(lia)) as Hp.
  assert (0 <= mag_value mg).
  { destruct (Z.eq_dec mg 0) as [->|]; [by rewrite mag_value_0|]. pose proof (mag_value_pos mg). lia. }
  destruct (Z.leb_spec signBit f), (Z.leb_spec signBit g); lia.
Qed.

(** The integer band: in range, and the double is that integer. *)
Lemma intScore_Some f iv :
  is_u64 f -> intScore f = Some iv ->
  - 2147483648 <= iv <= 2147483647 /\ f64_of_int iv = (if f64_is_zero f then 0 else f).
Proof.
  intros Hf. unfold intScore. assert (Hsc : 0 < scale) by done.
  destruct (f64_is_nan f); [done|].
  destruct (Z.ltb_spec (f64_scaled f) (- 2147483648 * scale)); [done|].
  destruct (Z.ltb_spec (2147483647 * scale) (f64_scaled f)); [done|]. cbn [orb].
  destruct (Z.eqb_spec (f64_scaled f mod scale) 0) as [E|]; [|done]. cbn [negb]. intros [= <-].
  pose proof (Z.div_mod (f64_scaled f) scale ltac:(lia)) as Hd. rewrite E, Z.add_0_r in Hd.
  set (v := f64_scaled f / scale) in *.
  assert (- 2147483648 <= v <= 2147483647) as Hv by (rewrite Hd in *; generalize dependent scale; intros; split; nia).
  split; [done|]. destruct (f64_of_int_value v) as (Hu & _ & Hs & Hv0 & _); [lia|].
  destruct (f64_is_zero f) eqn:Ez.
  - apply Hv0. assert (f64_scaled f = 0) as Hz.
    { unfold f64_is_zero in Ez. apply Z.eqb_eq in Ez. unfold f64_scaled. rewrite Ez.
      by destruct (f64_neg f). }
    rewrite Hz in Hd. generalize dependent scale. intros. nia.
  - symmetry. apply f64_scaled_inj; try done. rewrite Hs, Hd. apply Z.mul_comm.
Qed.

Lemma to_signed_mod w n :
  0 < w -> - 2 ^ (w - 1) <= n <= 2 ^ (w - 1) - 1 -> to_signed w (n mod 2 ^ w) = n.
Proof.
  intros Hw Hn. assert (H2 : 2 ^ w = 2 * 2 ^ (w - 1)) by (rewrite <- Z.pow_succ_r by lia; f_equal; lia).
  unfold to_signed. destruct (Z.le_gt_cases 0 n).
  - rewrite Z.mod_small by lia. destruct (Z.ltb_spec n (2 ^ (w - 1))); lia.
  - replace (n mod 2 ^ w) with (n + 2 ^ w) by (apply (Z.mod_unique _ _ (-1)); lia).
    destruct (Z.ltb_spec (n + 2 ^ w) (2 ^ (w - 1))); lia.
Qed.

Lemma fits_spec w n : fits w n = true <-> - 2 ^ (w - 1) <= n <= 2 ^ (w - 1) - 1.
Proof. unfold fits. rewrite andb_true_iff, !Z.leb_le. done. Qed.

Lemma be_at_enc {E} c n v rest :
  0 <= v < 256 ^ Z.of_nat n -> @be_at E ((c :: be_enc n v) ++ rest) 1 (Z.of_nat n) = Ok v.
Proof.
  intros Hv. unfold be_at.
  assert (1 + Z.of_nat n <= zlen ((c :: be_enc n v) ++ rest)).
  { rewrite zlen_app, zlen_cons, zlen_be_enc. pose proof (zlen_nonneg rest). lia. }
  rewrite slice_ok by lia. replace (1 + Z.of_nat n - 1) with (Z.of_nat n) by lia.
  change ((c :: be_enc n v) ++ rest) with ([c] ++ be_enc n v ++ rest).
  by rewrite sl_mid, be_dec_enc by (done || by rewrite zlen_be_enc).
Qed.

Lemma at8_cons {E} z (b : bytes) : is_u8 z -> @at8 E (Z_byte z :: b) 0 = Ok z.
Proof.
  intros Hz. assert (1 <= zlen (Z_byte z :: b)) by (rewrite zlen_cons; pose proof (zlen_nonneg b); lia).
  rewrite at8_ok by lia.
  rewrite (sl_mid [] [Z_byte z] b) by done. cbn [le_dec]. rewrite byte_Z_Z_byte, Z.mod_small; [f_equal; lia|done].
Qed.

(** An integer band reads its integer back. *)
Lemma band_read {E} c (n : nat) iv rest (w : Z) :
  (0 < n)%nat -> fits (8 * Z.of_nat n) iv = true ->
  (let* u := @be_at E (c :: be_enc n (iv mod 2 ^ (8 * Z.of_nat n)) ++ rest) 1 (Z.of_nat n) in
   Ok (f64_of_int (to_signed (8 * Z.of_nat n) u), w)) = Ok (f64_of_int iv, w).
Proof.
  intros Hn Hf. apply fits_spec in Hf.
  assert (0 < 2 ^ (8 * Z.of_nat n)) by (apply Z.pow_pos_nonneg; lia).
  pose proof (be_at_enc (E:=E) c n (iv mod 2 ^ (8 * Z.of_nat n)) rest) as Hb. cbn [app] in Hb.
  rewrite Hb by (rewrite Z.pow_mul_r by lia; apply Z.mod_pos_bound; lia).
  by rewrite to_signed_mod by (done || lia).
Qed.

(** A score written at the front of a buffer reads back, up to the sign of a zero. *)
Lemma readScore_score_bytes {E} f rest :
  is_u64 f ->
  @readScore E (score_bytes f ++ rest)
  = Ok (match intScore f with Some _ => if f64_is_zero f then 0 else f | None => f end, encScoreWidth f)
  /\ @scoreWidthAt E (score_bytes f ++ rest) 0 = Ok (encScoreWidth f)
  /\ zlen (score_bytes f) = encScoreWidth f.
Proof.
  intros Hf. unfold readScore, scoreWidthAt, score_bytes, encScoreWidth.
  destruct (intScore f) as [iv|] eqn:Ei.
  - apply intScore_Some in Ei as [Hr Ho]; [|done].
    destruct (fits 8 iv) eqn:F8; [|destruct (fits 16 iv) eqn:F16];
      rewrite ?zlen_cons, ?zlen_be_enc; cbn [app]; rewrite at8_cons by done; cbn [Z.eqb Pos.eqb scoreI8 scoreI16 scoreI32];
      (split; [|done]); rewrite <- Ho.
    + apply (band_read _ 1); [lia|exact F8].
    + apply (band_read _ 2); [lia|exact F16].
    + apply (band_read _ 4); [lia|]. by apply fits_spec.
  - rewrite zlen_cons, zlen_be_enc. cbn [app]. rewrite at8_cons by done. cbn [Z.eqb Pos.eqb scoreF64 scoreI8 scoreI16 scoreI32].
    split; [|done]. pose proof (be_at_enc (E:=E) (Z_byte scoreF64) 8 f rest) as Hb.
    cbn [app] in Hb. change (Z.of_nat 8) with 8 in Hb. rewrite Hb; [done|]. cbn. lia.
Qed.
