(* ===== verification/Expire.v ===== *)
(** The EXPIRE family (engine/f3/expire/expire.go): target instants in int64
    milliseconds, the condition flags, and the shared core over a keyspace's deadline
    plumbing; and the list keyspace's plumbing (engine/f3/list/keyexpire.go, the [live],
    [peek] and [drop] funnels of engine/f3/list/reg.go). *)

From S2P Require Import Prelude Format Ordered Decimal.
#[local] Open Scope Z_scope.

(** ** int64 arithmetic *)

Definition two63z : Z := 9223372036854775808.
Definition is_i64 (z : Z) : Prop := - 9223372036854775808 <= z < 9223372036854775808.
Definition wrap64 (z : Z) : Z := (z + two63z) mod two64 - two63z.

(** The result and whether it fit. *)
Definition secToMs (sec : Z) : option Z :=
  let ms := wrap64 (sec * 1000) in
  if negb (sec =? 0) && negb (Z.quot ms 1000 =? sec) then None else Some ms.

Definition addOverflow (a b : Z) : option Z :=
  let s := wrap64 (a + b) in
  if ((0 <? b) && (s <? a)) || ((b <? 0) && (a <? s)) then None else Some s.

Inductive unit_ : Type := unitEXsec | unitPXms | unitEXat | unitPXat.

Definition instant (nowMs : Z) (unit : unit_) (n : Z) : option Z :=
  match unit with
  | unitEXsec => ms ← secToMs n; addOverflow nowMs ms
  | unitPXms => addOverflow nowMs n
  | unitEXat => secToMs n
  | unitPXat => Some n
  end.

(** ** Options *)

Definition upper (c : byte) : Z :=
  if (97 <=? byte_Z c) && (byte_Z c <=? 122) then byte_Z c - 32 else byte_Z c.

Fixpoint eqFold (b s : bytes) : bool :=
  match b, s with
  | [], [] => true
  | x :: b', y :: s' => (upper x =? byte_Z y) && eqFold b' s'
  | _, _ => false
  end.

Record flags := mkFlags { fg_nx : bool; fg_xx : bool; fg_gt : bool; fg_lt : bool }.

(** The flag loop; an unknown option stops it. *)
Fixpoint parse_flags (args : list bytes) (f : flags) : flags + bytes :=
  match args with
  | [] => inl f
  | a :: args' =>
      if eqFold a (str "NX") then parse_flags args' (mkFlags true (fg_xx f) (fg_gt f) (fg_lt f))
      else if eqFold a (str "XX") then parse_flags args' (mkFlags (fg_nx f) true (fg_gt f) (fg_lt f))
      else if eqFold a (str "GT") then parse_flags args' (mkFlags (fg_nx f) (fg_xx f) true (fg_lt f))
      else if eqFold a (str "LT") then parse_flags args' (mkFlags (fg_nx f) (fg_xx f) (fg_gt f) true)
      else inr a
  end.

(** ** The core *)

Inductive reply : Type := RErr (msg : bytes) | RInt (n : Z).

(** What a command leaves in the shard context: the clock and the published events. *)
Record Ctx := mkCtx { cx_NowMs : Z; cx_events : list (bytes * bytes) }.
Definition notify (cx : Ctx) (event key : bytes) : Ctx :=
  mkCtx (cx_NowMs cx) (cx_events cx ++ [(event, key)]).

(** The Backend interface. *)
Class Backend (B : Type) := {
  Present : B -> Ctx -> B * Ctx * (Z * bool);
  Store : B -> Z -> B * bool;
  Delete : B -> B
}.

Definition verb_unit (verb : bytes) : unit_ * bytes :=
  if bytes_eqb verb (str "EXPIRE") then (unitEXsec, str "expire")
  else if bytes_eqb verb (str "PEXPIRE") then (unitPXms, str "pexpire")
  else if bytes_eqb verb (str "EXPIREAT") then (unitEXat, str "expireat")
  else (unitPXat, str "pexpireat").

(** [nx && hasTTL], [xx && !hasTTL], [gt && (!hasTTL || at <= curAt)],
    [lt && hasTTL && at >= curAt]: the cases that answer 0. *)
Definition gated (f : flags) (curAt at_ : Z) : bool :=
  let hasTTL := negb (curAt =? 0) in
  (fg_nx f && hasTTL) || (fg_xx f && negb hasTTL)
  || (fg_gt f && (negb hasTTL || (at_ <=? curAt))) || (fg_lt f && hasTTL && (curAt <=? at_)).

(** [Apply] up to the deadline: the condition flags and the instant, or the error text. *)
Definition apply_args (nowMs : Z) (verb time : bytes) (opts : list bytes) : (flags * Z) + bytes :=
  let '(unit, lname) := verb_unit verb in
  match ParseInt time with
  | None => inr (str "ERR value is not an integer or out of range")
  | Some n =>
      match parse_flags opts (mkFlags false false false false) with
      | inr a => inr (str "ERR Unsupported option " ++ a)
      | inl f =>
          if (fg_nx f && (fg_xx f || fg_gt f || fg_lt f)) || (fg_gt f && fg_lt f)
          then inr (str "ERR NX and XX, GT or LT options at the same time are not compatible")
          else
            match instant nowMs unit n with
            | None => inr (str "ERR invalid expire time in '" ++ lname ++ str "' command")
            | Some at_ => inl (f, at_)
            end
      end
  end.

(** [Apply]: the backend, the context and the reply; no reply of its own when the
    backend refused the store.  [None] is the out-of-range panic on a short [args]. *)
Definition Apply {B} `{Backend B} (cx : Ctx) (args : list bytes) (verb : bytes) (be : B)
  : option (B * Ctx * option reply) :=
  match args with
  | key :: time :: opts => Some
      match apply_args (cx_NowMs cx) verb time opts with
      | inr msg => (be, cx, Some (RErr msg))
      | inl (f, at_) =>
      let '(be, cx, (curAt, present)) := Present be cx in
      if negb present then (be, cx, Some (RInt 0))
      else if gated f curAt at_ then (be, cx, Some (RInt 0))
      else if at_ <=? cx_NowMs cx then (Delete be, notify cx (str "del") key, Some (RInt 1))
      else
        let '(be, ok) := Store be at_ in
        if negb ok then (be, cx, None) else (be, notify cx (str "expire") key, Some (RInt 1))
      end
  | _ => None
  end.

(** ** Arithmetic is exact or refused *)

Lemma wrap64_small z : is_i64 z -> wrap64 z = z.
Proof. intros Hz. unfold wrap64, two63z, is_i64 in *. rewrite Z.mod_small; lia. Qed.

Lemma wrap64_range z : is_i64 (wrap64 z).
Proof.
  unfold wrap64, two63z, is_i64. pose proof (Z.mod_pos_bound (z + 9223372036854775808) two64). lia.
Qed.

Lemma secToMs_spec sec ms :
  is_i64 sec -> (secToMs sec = Some ms <-> ms = sec * 1000 /\ is_i64 ms).
Proof.
  intros Hs. unfold secToMs. destruct (Z.eqb_spec sec 0) as [->|H0]; cbn [negb andb].
  { change (wrap64 (0 * 1000)) with 0. split; [intros [= <-]; by split|intros [-> _]; done]. }
  assert (is_i64 (sec * 1000) \/ ~ is_i64 (sec * 1000)) as [Hf|Hf] by (unfold is_i64; lia).
  - rewrite wrap64_small by done. rewrite Z.quot_mul, Z.eqb_refl by lia. cbn.
    split; [intros [= <-]; done|intros [-> _]; done].
  - destruct (Z.eqb_spec (Z.quot (wrap64 (sec * 1000)) 1000) sec) as [E|]; cbn [negb].
    + exfalso. pose proof (wrap64_range (sec * 1000)) as Hw.
      pose proof (Z.quot_rem (wrap64 (sec * 1000)) 1000 ltac:(lia)) as Hq. rewrite E in Hq.
      pose proof (Z.rem_bound_abs (wrap64 (sec * 1000)) 1000 ltac:(lia)) as Hr.
      pose proof (Z.rem_sign_nz (wrap64 (sec * 1000)) 1000 ltac:(lia)) as Hsg.
      unfold is_i64 in *. lia.
    + split; [done|]. intros [-> ?]. done.
Qed.

Lemma addOverflow_spec a b s :
  is_i64 a -> is_i64 b -> (addOverflow a b = Some s <-> s = a + b /\ is_i64 s).
Proof.
  intros Ha Hb. unfold addOverflow.
  assert (wrap64 (a + b) = a + b /\ is_i64 (a + b)
          \/ (9223372036854775808 <= a + b /\ wrap64 (a + b) = a + b - two64)
          \/ (a + b < - 9223372036854775808 /\ wrap64 (a + b) = a + b + two64)) as Hc.
  { unfold is_i64 in *. destruct (Z.lt_ge_cases (a + b) (- 9223372036854775808)).
    - right; right. split; [done|]. unfold wrap64, two63z.
      rewrite <- (Z.mod_unique (a + b + 9223372036854775808) two64 (-1) (a + b + 9223372036854775808 + two64)); lia.
    - destruct (Z.lt_ge_cases (a + b) 9223372036854775808); [left; split; [apply wrap64_small; unfold is_i64|]; lia|].
      right; left. split; [done|]. unfold wrap64, two63z.
      rewrite <- (Z.mod_unique (a + b + 9223372036854775808) two64 1 (a + b + 9223372036854775808 - two64)); lia. }
  unfold is_i64 in *. destruct Hc as [[-> Hc]|[[Hc ->]|[Hc ->]]];
    repeat match goal with |- context [?x <? ?y] => destruct (Z.ltb_spec x y) end; cbn [andb orb];
    (split; [intros [=]|intros [-> ?]]); try done; lia.
Qed.

(** The instant a verb names, over the integers. *)
Definition target (nowMs : Z) (unit : unit_) (n : Z) : Z :=
  match unit with
  | unitEXsec => nowMs + n * 1000
  | unitPXms => nowMs + n
  | unitEXat => n * 1000
  | unitPXat => n
  end.

(** Clocks do not run before the epoch. *)
Lemma instant_spec nowMs unit n at_ :
  0 <= nowMs < two63z -> is_i64 n ->
  instant nowMs unit n = Some at_ ->
  at_ = target nowMs unit n /\ is_i64 at_.
Proof.
  intros Hn Hi. assert (is_i64 nowMs) by (unfold is_i64, two63z in *; lia). unfold instant, target.
  destruct unit.
  - destruct (secToMs n) as [ms|] eqn:E; [|done]. apply secToMs_spec in E as [-> Hm]; [|done]. cbn.
    by apply addOverflow_spec.
  - by apply addOverflow_spec.
  - by apply secToMs_spec.
  - by intros [= <-].
Qed.

(** Every target that fits is accepted: for the relative-seconds verb the product has
    to fit on its own. *)
Lemma instant_complete nowMs unit n :
  0 <= nowMs < two63z -> is_i64 n -> is_i64 (target nowMs unit n) ->
  (unit = unitEXsec -> is_i64 (n * 1000)) ->
  instant nowMs unit n = Some (target nowMs unit n).
Proof.
  intros Hn Hi Ht Hs. assert (is_i64 nowMs) by (unfold is_i64, two63z in *; lia). unfold instant, target in *.
  destruct unit.
  - rewrite (proj2 (secToMs_spec n (n * 1000) Hi)) by (split; [done|by apply Hs]). cbn.
    apply addOverflow_spec; [done|by apply Hs|done].
  - by apply addOverflow_spec.
  - by apply secToMs_spec.
  - done.
Qed.

(** ** What a keyspace promises *)

(** [deadline b now]: absent, or live with a deadline in milliseconds, 0 for none. *)
Class BackendLaws (B : Type) `{Backend B} := {
  deadline : B -> Z -> option Z;
  (** a backend whose [Present] has answered present *)
  resolved : B -> Z -> Prop;
  present_now b cx b' cx' r : Present b cx = (b', cx', r) -> cx_NowMs cx' = cx_NowMs cx;
  present_deadline b cx b' cx' at_ ok :
    Present b cx = (b', cx', (at_, ok)) ->
    deadline b' (cx_NowMs cx) = deadline b (cx_NowMs cx)
    /\ (if ok then deadline b (cx_NowMs cx) = Some at_ /\ resolved b' (cx_NowMs cx)
        else deadline b (cx_NowMs cx) = None);
  store_deadline b now at_ b' ok :
    resolved b now -> now < at_ -> Store b at_ = (b', ok) ->
    deadline b' now = if ok then Some at_ else deadline b now;
  delete_deadline b now : resolved b now -> deadline (Delete b) now = None
}.

(** The condition flags, read as Redis documents them: no deadline counts as never. *)
Definition allowed (f : flags) (cur at_ : Z) : Prop :=
  (fg_nx f = true -> cur = 0) /\ (fg_xx f = true -> cur <> 0)
  /\ (fg_gt f = true -> cur <> 0 /\ cur < at_) /\ (fg_lt f = true -> cur = 0 \/ at_ < cur).

Lemma gated_allowed f cur at_ : gated f cur at_ = false <-> allowed f cur at_.
Proof.
  unfold gated, allowed. destruct (fg_nx f), (fg_xx f), (fg_gt f), (fg_lt f);
    destruct (Z.eqb_spec cur 0), (Z.leb_spec at_ cur), (Z.leb_spec cur at_);
    cbn; (split; [intros; split_and!; intros; try done; lia|intros (?&?&?&?)]); try done;
    exfalso; intuition (try done; lia).
Qed.

(** The options of a command line, read as a set of words in any case: unknown words
    make it malformed, repetitions do not. *)
Definition same_word (w a : bytes) : bool := bool_decide (map upper a = map byte_Z w).
Definition says (w : bytes) (opts : list bytes) : bool := existsb (same_word w) opts.
Definition option_words : list bytes := [str "NX"; str "XX"; str "GT"; str "LT"].

Definition options (opts : list bytes) : option flags :=
  if forallb (fun a => existsb (fun w => same_word w a) option_words) opts
  then Some (mkFlags (says (str "NX") opts) (says (str "XX") opts) (says (str "GT") opts) (says (str "LT") opts))
  else None.

Lemma eqFold_same_word a : forall w, eqFold a w = same_word w a.
Proof.
  unfold same_word. induction a as [|c a IH]; intros [|d w]; try done. cbn [eqFold map].
  rewrite IH. destruct (Z.eqb_spec (upper c) (byte_Z d)) as [E|E]; cbn [andb].
  - apply bool_decide_ext. rewrite E. split; [by intros ->|]. by intros [= ?].
  - symmetry. apply bool_decide_eq_false. intros [= ? _]. done.
Qed.

Lemma same_word_disjoint w w' a : map byte_Z w <> map byte_Z w' -> same_word w a = true -> same_word w' a = false.
Proof. unfold same_word. rewrite bool_decide_eq_true, bool_decide_eq_false. congruence. Qed.

(** The flag loop reads that set. *)
Lemma parse_flags_options opts : forall f,
  match parse_flags opts f with
  | inl f' => exists g, options opts = Some g
      /\ f' = mkFlags (fg_nx f || fg_nx g) (fg_xx f || fg_xx g) (fg_gt f || fg_gt g) (fg_lt f || fg_lt g)
  | inr _ => options opts = None
  end.
Proof.
  induction opts as [|a opts IH]; intros f; cbn [parse_flags].
  { eexists. split; [done|]. destruct f. cbn. by rewrite !orb_false_r. }
  assert (Hno : forall w w', map byte_Z w <> map byte_Z w' -> same_word w a = true -> same_word w' a = false)
    by (intros; by eapply same_word_disjoint).
  unfold options, says in *. cbn [forallb existsb option_words] in *. rewrite !eqFold_same_word.
  destruct (same_word (str "NX") a) eqn:E1; [rewrite !(Hno (str "NX")) by done|
  destruct (same_word (str "XX") a) eqn:E2; [rewrite !(Hno (str "XX")) by done|
  destruct (same_word (str "GT") a) eqn:E3; [rewrite !(Hno (str "GT")) by done|
  destruct (same_word (str "LT") a) eqn:E4; [|done]]]]; cbn [orb andb];
    match goal with |- context [parse_flags opts ?f'] => specialize (IH f'); destruct (parse_flags opts f') end;
    try (by destruct (forallb _ opts)).
  all: destruct IH as (g & Hg & ->); destruct (forallb _ opts); [|done]; injection Hg as <-;
    eexists; (split; [done|]); cbn; f_equal; by rewrite ?orb_true_r.
Qed.

(** The first word that is none of them. *)
Definition known_word (a : bytes) : bool := existsb (fun w => same_word w a) option_words.
Definition unknown_option (opts : list bytes) : option bytes := head (filter (fun a => known_word a = false) opts).

Lemma parse_flags_unknown opts : forall f,
  match parse_flags opts f with inl _ => unknown_option opts = None | inr a => unknown_option opts = Some a end.
Proof.
  induction opts as [|a opts IH]; intros f; [done|]. unfold unknown_option in *. cbn [parse_flags]. rewrite filter_cons.
  destruct (decide (known_word a = false)) as [Hk|Hk]; unfold known_word in Hk; cbn [existsb option_words] in Hk; rewrite <- !eqFold_same_word in Hk.
  - apply orb_false_iff in Hk as [-> [-> [-> [-> _]%orb_false_iff]%orb_false_iff]%orb_false_iff]. done.
  - repeat match goal with |- context [eqFold a ?w] => destruct (eqFold a w); [apply IH|] end. done.
Qed.

(** The time of a command line: the canonical text of a 64-bit signed integer. *)
Definition time_is (time : bytes) (n : Z) : Prop := is_i64 n /\ time = FormatInt n.

(** NX excludes the other three, GT and LT each other. *)
Definition compatible (f : flags) : Prop :=
  (fg_nx f = true -> fg_xx f = false /\ fg_gt f = false /\ fg_lt f = false)
  /\ (fg_gt f = true -> fg_lt f = false).

(** The deadline is computed in 64 bits: for the second-based verbs the milliseconds
    have to fit on their own, for the relative ones the sum as well. *)
Definition representable (now : Z) (unit : unit_) (n : Z) : Prop :=
  match unit with
  | unitEXsec => is_i64 (n * 1000) /\ is_i64 (now + n * 1000)
  | unitPXms => is_i64 (now + n)
  | unitEXat => is_i64 (n * 1000)
  | unitPXat => True
  end.

#[export] Instance is_i64_dec z : Decision (is_i64 z).
Proof. unfold is_i64. apply _. Defined.
#[export] Instance compatible_dec f : Decision (compatible f).
Proof. unfold compatible. apply _. Defined.
#[export] Instance representable_dec now unit n : Decision (representable now unit n).
Proof. unfold representable. destruct unit; apply _. Defined.
#[export] Instance allowed_dec f cur at_ : Decision (allowed f cur at_).
Proof. unfold allowed. apply _. Defined.

Lemma instant_representable nowMs unit n :
  0 <= nowMs < two63z -> is_i64 n -> (instant nowMs unit n <> None <-> representable nowMs unit n).
Proof.
  intros Hn Hi. assert (is_i64 nowMs) as Hni by (unfold is_i64, two63z in *; lia). unfold instant, representable. split.
  - destruct unit; [|..|done].
    + destruct (secToMs n) as [ms|] eqn:E; [|done]. apply secToMs_spec in E as [-> Hm]; [|done]. cbn.
      destruct (addOverflow nowMs _) as [s|] eqn:Ea; [|done]. by apply addOverflow_spec in Ea as [-> ?].
    + destruct (addOverflow nowMs _) as [s|] eqn:Ea; [|done]. by apply addOverflow_spec in Ea as [-> ?].
    + destruct (secToMs n) as [ms|] eqn:E; [|done]. by apply secToMs_spec in E as [-> Hm].
  - intros Hr. assert (Hc : instant nowMs unit n = Some (target nowMs unit n)).
    { apply instant_complete; try done; destruct unit; cbn [target]; naive_solver. }
    unfold instant in Hc. by rewrite Hc.
Qed.

(** NX excludes the other three, GT and LT each other, as the code tests it. *)
Lemma compatible_checked f :
  compatible f <-> (fg_nx f && (fg_xx f || fg_gt f || fg_lt f)) || (fg_gt f && fg_lt f) = false.
Proof. unfold compatible. destruct (fg_nx f), (fg_xx f), (fg_gt f), (fg_lt f); cbn; intuition congruence. Qed.

(** What a command line asks for: the conditions and the deadline, or the error of the first
    thing wrong with it, the time before the options before the deadline. *)
Definition expire_request (now : Z) (verb time : bytes) (opts : list bytes) : (flags * Z) + bytes :=
  let '(unit, lname) := verb_unit verb in
  match ParseInt time, unknown_option opts with
  | None, _ => inr (str "ERR value is not an integer or out of range")
  | Some _, Some a => inr (str "ERR Unsupported option " ++ a)
  | Some n, None =>
      let f := mkFlags (says (str "NX") opts) (says (str "XX") opts) (says (str "GT") opts) (says (str "LT") opts) in
      if decide (compatible f) then
        if decide (representable now unit n) then inl (f, target now unit n)
        else inr (str "ERR invalid expire time in '" ++ lname ++ str "' command")
      else inr (str "ERR NX and XX, GT or LT options at the same time are not compatible")
  end.

(** The checks of [Apply] read it off the line. *)
Lemma apply_args_request now verb time opts :
  0 <= now < two63z -> apply_args now verb time opts = expire_request now verb time opts.
Proof.
  intros Hnow. unfold apply_args, expire_request. destruct (verb_unit verb) as [unit lname].
  pose proof (parse_flags_options opts (mkFlags false false false false)) as Hp.
  pose proof (parse_flags_unknown opts (mkFlags false false false false)) as Hu.
  destruct (ParseInt time) as [n|] eqn:Ep; [|done]. apply ParseInt_spec in Ep as [Hn _].
  destruct (parse_flags opts _) as [f|a]; rewrite Hu; [|done]. destruct Hp as (g & Hg & ->).
  unfold options in Hg. destruct (forallb _ opts); [|done]. injection Hg as <-. cbn [fg_nx fg_xx fg_gt fg_lt orb].
  set (f := mkFlags _ _ _ _). pose proof (compatible_checked f) as Hc. cbn [f fg_nx fg_xx fg_gt fg_lt] in Hc.
  destruct (decide (compatible f)) as [Hyes|Hno].
  - rewrite (proj1 Hc Hyes). pose proof (instant_representable now unit n Hnow Hn) as Hi.
    destruct (decide (representable now unit n)) as [Hr|Hr].
    + destruct (instant now unit n) as [at_|] eqn:Ei; [|by apply Hi in Hr]. by apply instant_spec in Ei as [-> _].
    + destruct (instant now unit n) as [at_|] eqn:Ei; [|done]. exfalso. by apply Hr, Hi.
  - destruct (_ || _); [done|]. exfalso. by apply Hno, Hc.
Qed.

(** A command is refused unless it has a well-formed time, known and compatible
    options, and a deadline that fits. *)
Definition rejected (now : Z) (unit : unit_) (time : bytes) (opts : list bytes) : Prop :=
  ~ exists n f, time_is time n /\ options opts = Some f /\ compatible f /\ representable now unit n.

(** The flags a line without unknown words sets. *)
Lemma options_known opts : unknown_option opts = None ->
  options opts = Some (mkFlags (says (str "NX") opts) (says (str "XX") opts) (says (str "GT") opts) (says (str "LT") opts)).
Proof.
  intros Hu. pose proof (parse_flags_options opts (mkFlags false false false false)) as Hp.
  pose proof (parse_flags_unknown opts (mkFlags false false false false)) as Hk.
  destruct (parse_flags opts _) as [f|a]; [|congruence]. destruct Hp as (g & Hg & _).
  unfold options in *. by destruct (forallb _ opts).
Qed.

Lemma options_unknown opts a : unknown_option opts = Some a -> options opts = None.
Proof.
  intros Hu. pose proof (parse_flags_options opts (mkFlags false false false false)) as Hp.
  pose proof (parse_flags_unknown opts (mkFlags false false false false)) as Hk.
  destruct (parse_flags opts _) as [f|a']; [congruence|done].
Qed.

Lemma time_is_parse time n : time_is time n <-> ParseInt time = Some n.
Proof. unfold time_is, is_i64. by rewrite ParseInt_spec. Qed.

(** A request is what an accepted line says; the others are refused. *)
Lemma expire_request_ok now verb time opts f at_ :
  expire_request now verb time opts = inl (f, at_) ->
  exists n, time_is time n /\ options opts = Some f /\ compatible f /\ representable now (verb_unit verb).1 n
    /\ at_ = target now (verb_unit verb).1 n.
Proof.
  unfold expire_request. destruct (verb_unit verb) as [unit lname]. cbn [fst].
  destruct (ParseInt time) as [n|] eqn:Ep; [|done]. destruct (unknown_option opts) eqn:Eu; [done|]. cbv zeta.
  destruct (decide (compatible _)); [|done]. destruct (decide (representable _ _ _)); [|done]. intros [= <- <-].
  exists n. split_and!; [by apply time_is_parse|by apply options_known|done|done|done].
Qed.

Lemma expire_request_err now verb time opts :
  (exists msg, expire_request now verb time opts = inr msg) <-> rejected now (verb_unit verb).1 time opts.
Proof.
  split.
  - intros [msg Hm] (n & f & Ht%time_is_parse & Ho & Hc & Hr). revert Hm. unfold expire_request.
    destruct (verb_unit verb) as [unit lname]. cbn [fst] in *. rewrite Ht.
    destruct (unknown_option opts) eqn:Eu; [by rewrite (options_unknown _ _ Eu) in Ho|].
    rewrite (options_known _ Eu) in Ho. injection Ho as <-. cbv zeta. rewrite !decide_True by done. done.
  - intros Hno. destruct (expire_request now verb time opts) as [[f at_]|msg] eqn:E; [|by eexists].
    exfalso. apply Hno. apply expire_request_ok in E as (n & ? & ? & ? & ? & _). by exists n, f.
Qed.

Lemma target_fits now unit n : is_i64 n -> representable now unit n -> is_i64 (target now unit n).
Proof. destruct unit; cbn; tauto. Qed.

Section core.
Context {B : Type} `{BackendLaws B}.

(** What an answered command did. *)
Definition effect (cx : Ctx) (be be' : B) (unit : unit_) (time : bytes) (opts : list bytes)
    (r : option reply) : Prop :=
  let now := cx_NowMs cx in
  match r with
  | Some (RInt n) =>
      exists v f, time_is time v /\ options opts = Some f /\ is_i64 (target now unit v) /\
      let at_ := target now unit v in
      (n = 0 /\ deadline be' now = deadline be now
       /\ (forall cur, deadline be now = Some cur -> ~ allowed f cur at_))
      \/ (n = 1 /\ (exists cur, deadline be now = Some cur /\ allowed f cur at_)
          /\ deadline be' now = if at_ <=? now then None else Some at_)
  | Some (RErr _) => be' = be
  | None => deadline be' now = deadline be now /\ deadline be now <> None
  end.

Lemma Apply_effect cx key time opts verb be be' cx' r :
  0 <= cx_NowMs cx < two63z ->
  Apply cx (key :: time :: opts) verb be = Some (be', cx', r) ->
  effect cx be be' (verb_unit verb).1 time opts r.
Proof.
  intros Hnow. unfold Apply. rewrite apply_args_request by done. intros [= Ha]. revert Ha.
  destruct (expire_request _ verb time opts) as [[f at_]|msg] eqn:Er; [|by intros [= <- <- <-]].
  apply expire_request_ok in Er as (n & Ht & Ho & _ & Hrep & ->). set (unit := (verb_unit verb).1) in *.
  pose proof (target_fits _ _ _ (proj1 Ht) Hrep) as Hi.
  destruct (Present be cx) as [[be1 cx1] [cur ok]] eqn:EP.
  pose proof (present_now _ _ _ _ _ EP) as Hn1. destruct (present_deadline _ _ _ _ _ _ EP) as [Hd Hok].
  destruct ok; cbn [negb].
  2: { intros [= <- <- <-]. exists n, f. split_and!; try done. left. split_and!; try done. congruence. }
  destruct Hok as [Hcur Hres]. destruct (gated f cur (target (cx_NowMs cx) unit n)) eqn:Eg.
  { intros [= <- <- <-]. exists n, f. split_and!; try done. left. split_and!; try done.
    intros cur'. rewrite Hcur. intros [= <-] Hal%gated_allowed. congruence. }
  apply gated_allowed in Eg. rewrite Hn1.
  destruct (Z.leb_spec (target (cx_NowMs cx) unit n) (cx_NowMs cx)) as [Hle|Hgt].
  { intros [= <- <- <-]. exists n, f. split_and!; try done. right. split_and!; [done|by exists cur|].
    destruct (Z.leb_spec (target (cx_NowMs cx) unit n) (cx_NowMs cx)); [|lia]. by apply delete_deadline. }
  destruct (Store be1 _) as [be2 ok] eqn:ES. pose proof (store_deadline _ _ _ _ _ Hres Hgt ES) as Hst.
  destruct ok; cbn [negb]; intros [= <- <- <-].
  - exists n, f. split_and!; try done. right. split_and!; [done|by exists cur|].
    destruct (Z.leb_spec (target (cx_NowMs cx) unit n) (cx_NowMs cx)); [lia|done].
  - cbn. rewrite Hst, Hd, Hcur. done.
Qed.

(** Every command is answered, and with an error exactly when it is refused. *)
Lemma Apply_total cx key time opts verb (be : B) :
  0 <= cx_NowMs cx < two63z ->
  exists be' cx' r, Apply cx (key :: time :: opts) verb be = Some (be', cx', r)
    /\ ((exists msg, r = Some (RErr msg)) <-> rejected (cx_NowMs cx) (verb_unit verb).1 time opts).
Proof using H.
  intros Hnow. pose proof (expire_request_err (cx_NowMs cx) verb time opts) as He.
  unfold Apply. rewrite apply_args_request by done.
  destruct (expire_request _ verb time opts) as [[f at_]|msg]; [|do 3 eexists; split; [reflexivity|rewrite <- He; naive_solver]].
  destruct (Present be cx) as [[be1 cx1] [cur ok]].
  destruct (negb ok); [do 3 eexists; split; [reflexivity|rewrite <- He; naive_solver]|].
  destruct (gated f cur at_); [do 3 eexists; split; [reflexivity|rewrite <- He; naive_solver]|].
  destruct (at_ <=? cx_NowMs cx1); [do 3 eexists; split; [reflexivity|rewrite <- He; naive_solver]|].
  destruct (Store be1 at_) as [be2 ok2]. destruct (negb ok2); do 3 eexists; (split; [reflexivity|rewrite <- He; naive_solver]).
Qed.
End core.

(** ** The list keyspace *)

Module ListKeys.

Definition LRUClock (nowMs : Z) : Z := Z.quot nowMs 1000 mod two16.
Definition IdleSecondsFrom (clock nowMs : Z) : Z := (LRUClock nowMs - clock) mod two16.

Section reg.
(** The elements of a list and its resident-byte estimate are other parts of the type. *)
Context {L : Type} (residentBytes : L -> Z).

Record lst := mkLst { ls_data : L; ls_clock : Z; ls_expireAt : Z; ls_acct : Z }.

Inductive effect_op : Type := listOpDeleteKey (key : bytes) | listOpExpire (key : bytes) (at_ : Z).

Record reg := mkReg {
  rg_m : gmap bytes lst;
  rg_resident : Z;
  rg_acctOn : bool;
  rg_log : list effect_op
}.

Definition with_m (g : reg) (m : gmap bytes lst) : reg := mkReg m (rg_resident g) (rg_acctOn g) (rg_log g).
Definition log (g : reg) (e : effect_op) : reg :=
  mkReg (rg_m g) (rg_resident g) (rg_acctOn g) (rg_log g ++ [e]).

Definition logDeleteKey (g : reg) (key : bytes) : reg := log g (listOpDeleteKey key).
Definition logExpire (g : reg) (key : bytes) (at_ : Z) : reg := log g (listOpExpire key at_).

Definition drop (g : reg) (key : bytes) : reg :=
  let resident := match rg_acctOn g, rg_m g !! key with
                  | true, Some l => sub64 (rg_resident g) (ls_acct l)
                  | _, _ => rg_resident g
                  end in
  mkReg (delete key (rg_m g)) resident (rg_acctOn g) (rg_log g).

(** A list whose deadline has passed is dropped on the way out. *)
Definition peek (g : reg) (cx : Ctx) (key : bytes) : reg * Ctx * option lst :=
  match rg_m g !! key with
  | None => (g, cx, None)
  | Some l =>
      if negb (ls_expireAt l =? 0) && (ls_expireAt l <=? cx_NowMs cx)
      then (drop g key, notify cx (str "expired") key, None)
      else (g, cx, Some l)
  end.

Definition live (g : reg) (cx : Ctx) (key : bytes) : reg * Ctx * option lst :=
  match peek g cx key with
  | (g, cx, Some l) =>
      let l := mkLst (ls_data l) (LRUClock (cx_NowMs cx)) (ls_expireAt l) (ls_acct l) in
      (with_m g (<[key := l]> (rg_m g)), cx, Some l)
  | r => r
  end.

Definition install (g : reg) (cx : Ctx) (key : bytes) (l : lst) : reg :=
  with_m g (<[key := mkLst (ls_data l) (LRUClock (cx_NowMs cx)) (ls_expireAt l) (ls_acct l)]> (rg_m g)).

(** [note(l)] for the list at [key]: post the change of its footprint. *)
Definition note (g : reg) (key : bytes) : reg :=
  if negb (rg_acctOn g) then g else
  match rg_m g !! key with
  | None => g
  | Some l =>
      let nb := residentBytes (ls_data l) in
      mkReg (<[key := mkLst (ls_data l) (ls_clock l) (ls_expireAt l) nb]> (rg_m g))
        (add64 (rg_resident g) (sub64 nb (ls_acct l))) (rg_acctOn g) (rg_log g)
  end.

Definition Flush (g : reg) : reg := mkReg ∅ 0 (rg_acctOn g) (rg_log g).

(** The read-only probes resolve without touching the access clock. *)
Definition IdleSeconds (g : reg) (cx : Ctx) (key : bytes) : reg * Ctx * option Z :=
  let '(g, cx, l) := peek g cx key in
  (g, cx, (fun l => IdleSecondsFrom (ls_clock l) (cx_NowMs cx)) <$> l).

Definition Has (g : reg) (cx : Ctx) (key : bytes) : reg * Ctx * bool :=
  let '(g, cx, l) := peek g cx key in (g, cx, bool_decide (l <> None)).

Definition Len (g : reg) : Z := Z.of_nat (size (rg_m g)).

Definition VolatileLen (g : reg) : Z :=
  Z.of_nat (size (filter (fun p : bytes * lst => ls_expireAt p.2 <> 0) (rg_m g))).

(** The keys [RangeKeys] offers; Go's map order is unspecified, so a set. *)
Definition RangeKeys (g : reg) (cx : Ctx) : gset bytes :=
  dom (filter (fun p : bytes * lst => ~ (ls_expireAt p.2 <> 0 /\ ls_expireAt p.2 <= cx_NowMs cx)) (rg_m g)).

(** DEL *)
Definition Delete_key (g : reg) (cx : Ctx) (key : bytes) : reg * Ctx * bool :=
  match live g cx key with
  | (g, cx, None) => (g, cx, false)
  | (g, cx, Some _) => (drop (logDeleteKey g key) key, cx, true)
  end.

Definition Deadline (g : reg) (cx : Ctx) (key : bytes) : reg * Ctx * option Z :=
  let '(g, cx, l) := live g cx key in (g, cx, ls_expireAt <$> l).

Definition set_expireAt (g : reg) (key : bytes) (at_ : Z) : reg :=
  with_m g (alter (fun l => mkLst (ls_data l) (ls_clock l) at_ (ls_acct l)) key (rg_m g)).

(** PERSIST *)
Definition Persist (g : reg) (cx : Ctx) (key : bytes) : reg * Ctx * bool :=
  match live g cx key with
  | (g, cx, Some l) =>
      if ls_expireAt l =? 0 then (g, cx, false)
      else (logExpire (set_expireAt g key 0) key 0, cx, true)
  | (g, cx, None) => (g, cx, false)
  end.

(** The backend of one command: the list it resolved is the one in the map, so a
    store through it writes the registry. *)
Record listBackend := mkBackend { lb_g : reg; lb_key : bytes; lb_l : bool }.

#[global] Instance listBackend_backend : Backend listBackend := {
  Present b cx :=
    let '(g, cx, l) := live (lb_g b) cx (lb_key b) in
    (mkBackend g (lb_key b) (bool_decide (l <> None)), cx,
     match l with None => (0, false) | Some l => (ls_expireAt l, true) end);
  Store b at_ := (mkBackend (logExpire (set_expireAt (lb_g b) (lb_key b) at_) (lb_key b) at_) (lb_key b) (lb_l b), true);
  Delete b := mkBackend (drop (logDeleteKey (lb_g b) (lb_key b)) (lb_key b)) (lb_key b) (lb_l b)
}.

Definition Expire (g : reg) (cx : Ctx) (args : list bytes) (verb : bytes) : option (reg * Ctx * option reply) :=
  match args with
  | [] => None
  | key :: _ =>
      '(b, cx, r) ← Apply cx args verb (mkBackend g key false);
      Some (lb_g b, cx, r)
  end.

(** *** The laws *)

Definition expired (now : Z) (l : lst) : bool := negb (ls_expireAt l =? 0) && (ls_expireAt l <=? now).

(** What a probe at [now] sees. *)
Definition seen (g : reg) (now : Z) (key : bytes) : option lst :=
  l ← rg_m g !! key; if expired now l then None else Some l.

Lemma drop_m g key : rg_m (drop g key) = delete key (rg_m g).
Proof. done. Qed.

(** KEYS and SCAN list exactly the keys EXISTS confirms, and an expired list is gone for
    both before anything has dropped it. *)
Lemma RangeKeys_Has g cx key : key ∈ RangeKeys g cx <-> (Has g cx key).2 = true.
Proof.
  unfold RangeKeys, Has, peek. rewrite elem_of_dom. split.
  - intros [l [Hl He]%map_lookup_filter_Some]. rewrite Hl. cbn in He.
    destruct (Z.eqb_spec (ls_expireAt l) 0), (Z.leb_spec (ls_expireAt l) (cx_NowMs cx)); cbn; done || lia.
  - destruct (rg_m g !! key) as [l|] eqn:Hl; [|done].
    destruct (Z.eqb_spec (ls_expireAt l) 0), (Z.leb_spec (ls_expireAt l) (cx_NowMs cx)); cbn; try done;
      intros _; exists l; apply map_lookup_filter_Some; (split; [done|cbn; lia]).
Qed.

Lemma live_seen g cx key g' cx' r :
  live g cx key = (g', cx', r) ->
  cx_NowMs cx' = cx_NowMs cx
  /\ (forall k, ls_expireAt <$> seen g' (cx_NowMs cx) k = ls_expireAt <$> seen g (cx_NowMs cx) k)
  /\ ls_expireAt <$> r = ls_expireAt <$> seen g (cx_NowMs cx) key
  /\ (forall l, r = Some l -> rg_m g' !! key = Some l /\ expired (cx_NowMs cx) l = false).
Proof.
  unfold live, peek, seen. destruct (rg_m g !! key) as [l|] eqn:E.
  2: { intros [= <- <- <-]. by split_and!. }
  fold (expired (cx_NowMs cx) l). destruct (expired (cx_NowMs cx) l) eqn:Ex; intros [= <- <- <-].
  - split_and!; [done| |cbn; by rewrite Ex|done]. intros k. rewrite drop_m.
    destruct (decide (k = key)) as [->|]; [rewrite lookup_delete_eq, E; cbn; by rewrite Ex|].
    by rewrite lookup_delete_ne.
  - split_and!; [done| |cbn; by rewrite Ex|].
    + intros k. cbn [with_m rg_m]. destruct (decide (k = key)) as [->|].
      * rewrite lookup_insert_eq, E. cbn. change (expired _ (mkLst _ _ _ _)) with (expired (cx_NowMs cx) l). by rewrite Ex.
      * by rewrite lookup_insert_ne.
    + intros l' [= <-]. cbn [with_m rg_m]. rewrite lookup_insert_eq. by split.
Qed.

#[global] Program Instance listBackend_laws : BackendLaws listBackend := {
  deadline b now := ls_expireAt <$> seen (lb_g b) now (lb_key b);
  resolved b now := exists l, rg_m (lb_g b) !! lb_key b = Some l /\ expired now l = false
}.
Next Obligation.
  intros b cx b' cx' r. cbn. destruct (live _ _ _) as [[g c] l] eqn:E. intros [= <- <- <-].
  by apply live_seen in E as [? _].
Qed.
Next Obligation.
  intros b cx b' cx' at_ ok. cbn. destruct (live _ _ _) as [[g c] l] eqn:E. intros [= <- <- Hr].
  apply live_seen in E as (_ & Hs & Hl & Hr'). cbn [lb_g lb_key]. split; [apply Hs|].
  rewrite <- Hl. destruct l as [l|]; simplify_eq; [|done]. split; [done|]. exists l. by apply Hr'.
Qed.
Next Obligation.
  intros b now at_ b' ok (l & Hm & Hx) Hlt. cbn. intros [= <- <-]. cbn [lb_g lb_key]. unfold seen.
  cbn [logExpire log set_expireAt with_m rg_m]. rewrite lookup_alter_eq, Hm. cbn.
  unfold expired. cbn. destruct (Z.leb_spec at_ now); [lia|]. by rewrite andb_false_r.
Qed.
Next Obligation.
  intros b now _. cbn. unfold seen. rewrite drop_m. by rewrite lookup_delete_eq.
Qed.

(** *** Accounting *)

Definition acct_total (m : gmap bytes lst) : Z := map_fold (fun _ l s => ls_acct l + s) 0 m.

(** The running total is the sum of what the live lists posted. *)
Definition acct_inv (g : reg) : Prop :=
  rg_acctOn g = true -> rg_resident g = acct_total (rg_m g) mod two64.

Lemma acct_insert m k l : m !! k = None -> acct_total (<[k := l]> m) = ls_acct l + acct_total m.
Proof.
  intros Hk. unfold acct_total.
  apply (map_fold_insert_L (fun _ l s => ls_acct l + s) 0 k l m); [|done]. intros. lia.
Qed.

Lemma acct_delete m k l : m !! k = Some l -> acct_total m = ls_acct l + acct_total (delete k m).
Proof.
  intros Hk. rewrite <- (acct_insert _ k) by apply lookup_delete_eq. by rewrite insert_delete_id.
Qed.

Lemma acct_replace m k l l' :
  m !! k = Some l -> acct_total (<[k := l']> m) = acct_total m - ls_acct l + ls_acct l'.
Proof.
  intros Hk. rewrite <- insert_delete_eq, acct_insert by apply lookup_delete_eq.
  rewrite (acct_delete m k l Hk). lia.
Qed.

Lemma drop_acct g key : acct_inv g -> acct_inv (drop g key).
Proof.
  intros Hi Ha. cbn in Ha. specialize (Hi Ha). unfold drop. cbn [rg_resident rg_m]. rewrite Ha.
  destruct (rg_m g !! key) as [l|] eqn:E.
  - rewrite Hi, (acct_delete _ _ _ E). unfold sub64. rewrite Zminus_mod_idemp_l. f_equal. lia.
  - by rewrite delete_id.
Qed.

Lemma replace_acct g key l l' :
  rg_m g !! key = Some l -> ls_acct l' = ls_acct l -> acct_inv g -> acct_inv (with_m g (<[key := l']> (rg_m g))).
Proof.
  intros Hl Ha Hi Hon. cbn. rewrite (Hi Hon), (acct_replace _ _ _ _ Hl), Ha. f_equal. lia.
Qed.

Lemma live_acct g cx key g' cx' r : live g cx key = (g', cx', r) -> acct_inv g -> acct_inv g'.
Proof.
  unfold live, peek. destruct (rg_m g !! key) as [l|] eqn:E; [|by intros [= <- _ _]].
  destruct (_ && _); intros [= <- _ _]; [apply drop_acct|]. by eapply replace_acct.
Qed.

Lemma set_expireAt_acct g key at_ : acct_inv g -> acct_inv (set_expireAt g key at_).
Proof.
  intros Hi Hon. cbn in *. rewrite (Hi Hon). f_equal. destruct (rg_m g !! key) as [l|] eqn:E.
  - set (l' := mkLst (ls_data l) (ls_clock l) at_ (ls_acct l)).
    assert (alter (fun l => mkLst (ls_data l) (ls_clock l) at_ (ls_acct l)) key (rg_m g) = <[key := l']> (rg_m g)) as ->.
    { apply map_eq. intros k. destruct (decide (k = key)) as [->|].
      - by rewrite lookup_alter_eq, lookup_insert_eq, E.
      - by rewrite lookup_alter_ne, lookup_insert_ne. }
    rewrite (acct_replace _ _ _ _ E). cbn. lia.
  - f_equal. apply map_eq. intros k. destruct (decide (k = key)) as [->|].
    + by rewrite lookup_alter_eq, E.
    + by rewrite lookup_alter_ne.
Qed.

Lemma note_acct g key : acct_inv g -> acct_inv (note g key).
Proof.
  intros Hi. unfold note. destruct (rg_acctOn g) eqn:Hon; cbn [negb]; [|done].
  destruct (rg_m g !! key) as [l|] eqn:E; [|done]. intros _. cbn [rg_resident rg_m].
  rewrite (Hi Hon), (acct_replace _ _ _ _ E). unfold add64, sub64. cbn [ls_acct].
  rewrite Zplus_mod_idemp_r, Zplus_mod_idemp_l. f_equal. lia.
Qed.

Lemma log_acct g e : acct_inv g -> acct_inv (log g e).
Proof. done. Qed.

Lemma install_acct g cx key l : rg_m g !! key = None -> ls_acct l = 0 -> acct_inv g -> acct_inv (install g cx key l).
Proof.
  intros Hn Hl Hi Hon. cbn. rewrite acct_insert by done. cbn. rewrite Hl, Z.add_0_l. by apply Hi.
Qed.

Lemma Flush_acct g : acct_inv (Flush g).
Proof. intros _. cbn. unfold acct_total. by rewrite map_fold_empty. Qed.

Lemma Delete_key_acct g cx key g' cx' b : Delete_key g cx key = (g', cx', b) -> acct_inv g -> acct_inv g'.
Proof.
  unfold Delete_key. destruct (live g cx key) as [[g1 cx1] [l|]] eqn:El; intros [= <- <- <-] Hi;
    apply live_acct in El; auto using drop_acct, log_acct.
Qed.

Lemma Persist_acct g cx key g' cx' b : Persist g cx key = (g', cx', b) -> acct_inv g -> acct_inv g'.
Proof.
  unfold Persist. destruct (live g cx key) as [[g1 cx1] [l|]] eqn:El.
  - destruct (ls_expireAt l =? 0); intros [= <- <- <-] Hi; apply live_acct in El; try done.
    by apply log_acct, set_expireAt_acct.
  - intros [= <- <- <-] Hi. by apply live_acct in El.
Qed.

Lemma Apply_acct cx args verb (b b' : listBackend) cx' r :
  Apply cx args verb b = Some (b', cx', r) -> acct_inv (lb_g b) -> acct_inv (lb_g b').
Proof.
  unfold Apply. destruct args as [|key [|time opts]]; [done|done|].
  intros [= Ha] Hi. revert Ha.
  destruct (apply_args _ _ _ _) as [[f at_]|msg]; [|by intros [= <- _ _]]. cbn.
  destruct (live (lb_g b) cx (lb_key b)) as [[g1 cx1] l] eqn:El. apply live_acct in El; [|done].
  destruct l as [l|]; cbn; [|by intros [= <- _ _]].
  destruct (gated f _ at_); [by intros [= <- _ _]|].
  destruct (at_ <=? cx_NowMs cx1); intros [= <- _ _]; cbn.
  - by apply drop_acct, log_acct.
  - by apply log_acct, set_expireAt_acct.
Qed.

Lemma Expire_acct g cx args verb g' cx' r : Expire g cx args verb = Some (g', cx', r) -> acct_inv g -> acct_inv g'.
Proof.
  unfold Expire. destruct args as [|key args]; [done|].
  destruct (Apply _ _ _ _) as [[[b c] r']|] eqn:E; [|done]. intros [= <- _ _] Hi. by eapply Apply_acct.
Qed.
End reg.
End ListKeys.
