(* ===== verification/Swar.v ===== *)
(** The eight-byte group scan of the member table (engine/f3/struct/table.go,
    [matchByte]) and the bit walks over its masks, in terms of the bytes of the group.

    A mask is a word with 0x80 in some bytes and 0 in the others; it is described by
    the list of those flags, lowest byte first. *)

From S2P Require Import Prelude Format.
#[local] Open Scope Z_scope.

Definition lowBits : Z := 72340172838076673.        (* 0x0101010101010101 *)
Definition highBits : Z := 9259542123273814144.     (* 0x8080808080808080 *)

Definition matchByte (group b : Z) : Z :=
  let x := Z.lxor group ((lowBits * b) mod two64) in
  Z.land (Z.ldiff (sub64 x lowBits) x) highBits.

(** [bits.TrailingZeros64] *)
Fixpoint ctz_pos (p : positive) : Z :=
  match p with
  | xO p' => 1 + ctz_pos p'
  | _ => 0
  end.

Definition TrailingZeros64 (z : Z) : Z := match z with Z.pos p => ctz_pos p | _ => 64 end.

(** [m &= m - 1] *)
Definition clear_lowest (m : Z) : Z := Z.land m (m - 1).

(** ** Words as byte lists *)

Fixpoint word (l : list Z) : Z := match l with [] => 0 | x :: l' => x + 256 * word l' end.
Fixpoint rep (n : nat) (b : Z) : Z := match n with O => 0 | S n' => b + 256 * rep n' b end.
Definition mask (l : list bool) : Z := word (map (fun f : bool => if f then 128 else 0) l).

Lemma rep_low : rep 8 1 = lowBits. Proof. reflexivity. Qed.
Lemma rep_high : rep 8 128 = highBits. Proof. reflexivity. Qed.
Lemma rep_mul n b : rep n b = rep n 1 * b.
Proof. induction n as [|n IH]; cbn [rep]; lia. Qed.

Lemma le_dec_word b : le_dec b = word (byte_Z <$> b).
Proof. induction b as [|x b IH]; cbn; [done|]. by rewrite IH. Qed.

(** Bitwise operations act byte by byte. *)
Lemma split_byte (op : Z -> Z -> Z) (f : bool -> bool -> bool) a b c d :
  (forall x y n, Z.testbit (op x y) n = f (Z.testbit x n) (Z.testbit y n)) ->
  f false false = false ->
  0 <= a < 256 -> 0 <= c < 256 -> op (a + 256 * b) (c + 256 * d) = op a c + 256 * op b d.
Proof.
  intros Hop Hf Ha Hc.
  assert (forall u n, 0 <= u < 256 -> 8 <= n -> Z.testbit u n = false) as Hhi.
  { intros u n Hu Hn. destruct (Z.eq_dec u 0) as [->|]; [apply Z.bits_0|].
    apply Z.bits_above_log2; [lia|]. apply Z.log2_lt_pow2; [lia|].
    apply Z.lt_le_trans with (2 ^ 8); [lia|apply Z.pow_le_mono_r; lia]. }
  assert (forall u v, 0 <= u < 256 -> u + 256 * v = Z.lor u (Z.shiftl v 8)) as Hlor.
  { intros u v Hu. rewrite Z.shiftl_mul_pow2, Z.mul_comm by lia. change (2 ^ 8) with 256.
    replace (v * 256) with (Z.shiftl v 8) by (rewrite Z.shiftl_mul_pow2; lia).
    apply Z.add_nocarry_lor, Z.bits_inj'. intros n Hn. rewrite Z.land_spec, Z.shiftl_spec, Z.bits_0 by lia.
    destruct (Z.lt_ge_cases n 8); [by rewrite (Z.testbit_neg_r v), andb_false_r by lia|].
    by rewrite Hhi by lia. }
  assert (0 <= op a c < 256) as Hac.
  { assert (op a c = op a c mod 2 ^ 8) as ->; [|by apply Z.mod_pos_bound].
    apply Z.bits_inj'. intros n Hn. rewrite Z.testbit_mod_pow2 by lia.
    destruct (Z.ltb_spec n 8); [done|]. by rewrite Hop, !Hhi by lia. }
  rewrite !Hlor by done. apply Z.bits_inj'. intros n Hn.
  rewrite Hop, !Z.lor_spec, !Z.shiftl_spec, !Hop by lia.
  destruct (Z.lt_ge_cases n 8).
  - rewrite (Z.testbit_neg_r b), (Z.testbit_neg_r d), !orb_false_r by lia.
    destruct (f false false); [done|]. by rewrite orb_false_r.
  - rewrite (Hhi a), (Hhi c) by done. by rewrite Hf.
Qed.

Lemma land_byte a b c d : 0 <= a < 256 -> 0 <= c < 256 ->
  Z.land (a + 256 * b) (c + 256 * d) = Z.land a c + 256 * Z.land b d.
Proof. apply (split_byte _ andb); [apply Z.land_spec|done]. Qed.
Lemma lxor_byte a b c d : 0 <= a < 256 -> 0 <= c < 256 ->
  Z.lxor (a + 256 * b) (c + 256 * d) = Z.lxor a c + 256 * Z.lxor b d.
Proof. apply (split_byte _ xorb); [apply Z.lxor_spec|done]. Qed.
Lemma ldiff_byte a b c d : 0 <= a < 256 -> 0 <= c < 256 ->
  Z.ldiff (a + 256 * b) (c + 256 * d) = Z.ldiff a c + 256 * Z.ldiff b d.
Proof. apply (split_byte _ (fun x y => x && negb y)); [apply Z.ldiff_spec|done]. Qed.

Lemma lxor_u8 a b : 0 <= a < 256 -> 0 <= b < 256 -> 0 <= Z.lxor a b < 256.
Proof.
  intros Ha Hb. split; [apply Z.lxor_nonneg; lia|].
  destruct (Z.eq_dec (Z.lxor a b) 0); [lia|]. apply (Z.log2_lt_pow2 _ 8); [pose proof (Z.lxor_nonneg a b); lia|].
  eapply Z.le_lt_trans; [apply Z.log2_lxor; lia|].
  assert (forall u, 0 <= u < 256 -> Z.log2 u < 8) as Hl.
  { intros u Hu. destruct (Z.eq_dec u 0) as [->|]; [done|]. apply Z.log2_lt_pow2; lia. }
  apply Z.max_lub_lt; by apply Hl.
Qed.

Lemma ldiff_u8 a b : 0 <= a < 256 -> 0 <= b < 256 -> 0 <= Z.ldiff a b < 256.
Proof.
  intros Ha Hb. assert (Z.ldiff a b = Z.ldiff a b mod 2 ^ 8) as ->; [|by apply Z.mod_pos_bound].
  apply Z.bits_inj'. intros n Hn. rewrite Z.testbit_mod_pow2 by lia.
  destruct (Z.ltb_spec n 8); [done|]. rewrite Z.ldiff_spec.
  assert (Z.testbit a n = false) as ->; [|done].
  destruct (Z.eq_dec a 0) as [->|]; [apply Z.bits_0|]. apply Z.bits_above_log2; [lia|].
  apply Z.log2_lt_pow2; [lia|]. apply Z.lt_le_trans with (2 ^ 8); [lia|apply Z.pow_le_mono_r; lia].
Qed.

(** ** The byte match

    The subtraction borrows through a matching byte, so the byte above it is flagged
    too when it differs from the target in the lowest bit only. *)
Fixpoint match_flags (borrow : bool) (l : list Z) (b : Z) : list bool :=
  match l with
  | [] => []
  | x :: l' =>
      let f := (x =? b) || (borrow && (Z.lxor x b =? 1)) in
      f :: match_flags f l' b
  end.

Definition u8s (l : list Z) : Prop := Forall (fun x => 0 <= x < 256) l.

Lemma word_range l : u8s l -> 0 <= word l < 256 ^ zlen l.
Proof.
  induction l as [|x l IH]; intros Hf; [done|]. apply Forall_cons in Hf as [Hx Hf]. specialize (IH Hf).
  rewrite zlen_cons, Z.pow_add_r by (pose proof (zlen_nonneg l); lia). cbn [word]. change (256 ^ 1) with 256. lia.
Qed.

Lemma word_lxor l b : u8s l -> 0 <= b < 256 ->
  Z.lxor (word l) (rep (length l) b) = word (map (fun x => Z.lxor x b) l).
Proof.
  intros Hf Hb. induction Hf as [|x l Hx Hf IH]; [done|]. cbn [word rep length map].
  by rewrite lxor_byte, IH.
Qed.

(** One byte of [(x - 1 - borrow) &^ x & 0x80]. *)
Definition byte_step (x : Z) (borrow : bool) : Z :=
  Z.land (Z.ldiff ((x - 1 - Z.b2z borrow) mod 256) x) 128.

Lemma byte_step_spec x borrow :
  0 <= x < 256 -> byte_step x borrow = if x <=? Z.b2z borrow then 128 else 0.
Proof.
  intros Hx. assert (forallb (fun n => (byte_step (Z.of_nat n) borrow =? if Z.of_nat n <=? Z.b2z borrow then 128 else 0))
    (seq 0 256) = true) as Hall by (destruct borrow; vm_compute; reflexivity).
  rewrite forallb_forall in Hall. specialize (Hall (Z.to_nat x)). rewrite Z2Nat.id in Hall by lia.
  apply Z.eqb_eq, Hall, in_seq. lia.
Qed.

Lemma match_word l : forall borrow b,
  u8s l -> 0 <= b < 256 ->
  let X := word (map (fun x => Z.lxor x b) l) in
  Z.land (Z.ldiff ((X - rep (length l) 1 - Z.b2z borrow) mod 256 ^ zlen l) X) (rep (length l) 128)
  = mask (match_flags borrow l b).
Proof.
  induction l as [|x l IH]; intros borrow b Hf Hb; cbv zeta.
  { cbn [length rep]. by rewrite Z.land_0_r. }
  apply Forall_cons in Hf as [Hx Hf]. cbn [map word length rep match_flags]. cbv zeta.
  pose proof (lxor_u8 x b Hx Hb) as Hx0. set (x0 := Z.lxor x b) in *.
  set (X := word (map (fun x => Z.lxor x b) l)). set (p := 256 ^ zlen l).
  assert (Hp : 256 ^ zlen (x :: l) = 256 * p)
    by (rewrite zlen_cons, Z.pow_add_r by (pose proof (zlen_nonneg l); lia); done).
  assert (0 < p) by (apply Z.pow_pos_nonneg; [lia|apply zlen_nonneg]).
  set (f := (x =? b) || (borrow && (x0 =? 1))).
  assert (Hf' : f = (x0 <=? Z.b2z borrow)).
  { unfold f. destruct (Z.eqb_spec x b) as [->|Hne].
    - unfold x0. rewrite Z.lxor_nilpotent. by destruct borrow.
    - assert (x0 <> 0) by (intros E; apply Hne; by apply Z.lxor_eq_0_iff). cbn [orb].
      destruct borrow; cbn; destruct (Z.eqb_spec x0 1), (Z.leb_spec x0 1), (Z.leb_spec x0 0); done || lia. }
  assert (Hmod : (x0 + 256 * X - (1 + 256 * rep (length l) 1) - Z.b2z borrow) mod (256 * p)
                 = (x0 - 1 - Z.b2z borrow) mod 256 + 256 * ((X - rep (length l) 1 - Z.b2z f) mod p)).
  { symmetry. set (Y := X - rep (length l) 1 - Z.b2z f).
    apply (Z.mod_unique _ _ (Y / p)).
    - left. pose proof (Z.mod_pos_bound (x0 - 1 - Z.b2z borrow) 256). pose proof (Z.mod_pos_bound Y p). lia.
    - pose proof (Z.div_mod Y p ltac:(lia)) as HY. pose proof (Z.div_mod (x0 - 1 - Z.b2z borrow) 256 ltac:(lia)) as Ht.
      assert ((x0 - 1 - Z.b2z borrow) / 256 = - Z.b2z f) as Hq.
      { rewrite Hf'. destruct (Z.leb_spec x0 (Z.b2z borrow)); destruct borrow; cbn [Z.b2z] in *;
          symmetry; [apply (Z.div_unique _ _ _ (x0 - 1 - 1 + 256))|apply (Z.div_unique _ _ _ (x0 - 1 - 0 + 256))
          |apply (Z.div_unique _ _ _ (x0 - 1 - 1))|apply (Z.div_unique _ _ _ (x0 - 1 - 0))]; lia. }
      rewrite Hq in Ht. unfold Y in *. lia. }
  rewrite Hp, Hmod, ldiff_byte, land_byte; try done; try (by apply Z.mod_pos_bound).
  - specialize (IH f b Hf Hb). cbv zeta in IH. fold X p in IH. rewrite IH.
    change (Z.land (Z.ldiff ((x0 - 1 - Z.b2z borrow) mod 256) x0) 128) with (byte_step x0 borrow).
    rewrite byte_step_spec by done. rewrite <- Hf'. done.
  - apply ldiff_u8; [by apply Z.mod_pos_bound|done].
Qed.

Lemma matchByte_flags l b :
  length l = 8%nat -> u8s l -> 0 <= b < 256 ->
  matchByte (word l) b = mask (match_flags false l b).
Proof.
  intros Hl Hf Hb. unfold matchByte.
  assert ((lowBits * b) mod two64 = rep (length l) b) as ->.
  { rewrite Hl, rep_mul, rep_low. apply Z.mod_small. unfold lowBits. lia. }
  rewrite word_lxor by done. cbv zeta.
  pose proof (match_word l false b Hf Hb) as H. cbv zeta in H. rewrite Hl in H.
  assert (zlen l = 8) as Hz by (unfold zlen; lia). rewrite Hz in H. cbn [Z.b2z] in H. rewrite Z.sub_0_r in H.
  exact H.
Qed.

(** The lowest flag is exact, so the test for any match is. *)
Lemma match_flags_exact l b :
  u8s l -> (exists i, match_flags false l b !! i = Some true) <-> b ∈ l.
Proof.
  intros Hf. induction Hf as [|x l Hx Hf IH]; [split; [by intros [[] Hi]|by intros H%elem_of_nil]|].
  cbn [match_flags]. cbv zeta. cbn [andb]. rewrite orb_false_r.
  destruct (Z.eqb_spec x b) as [->|Hne].
  - split; [intros _; left|intros _; by exists 0%nat].
  - rewrite elem_of_cons, <- IH. split.
    + intros [[|i] Hi]; [done|]. right. by exists i.
    + intros [?|[i Hi]]; [done|]. by exists (S i).
Qed.

(** A real match is always flagged. *)
Lemma match_flags_complete l b : forall borrow i,
  l !! i = Some b -> match_flags borrow l b !! i = Some true.
Proof.
  induction l as [|x l IH]; intros borrow i; [done|]. destruct i as [|i]; cbn [match_flags lookup list_lookup].
  - intros [= ->]. by rewrite Z.eqb_refl.
  - apply IH.
Qed.

(** A flagged byte differs from the target in the lowest bit at most. *)
Lemma match_flags_sound l b : forall borrow i,
  match_flags borrow l b !! i = Some true -> exists x, l !! i = Some x /\ (x = b \/ Z.lxor x b = 1).
Proof.
  induction l as [|x l IH]; intros borrow i; [done|]. destruct i as [|i]; cbn [match_flags lookup list_lookup].
  - intros [= H]. exists x. split; [done|]. apply orb_prop in H as [H|H]; [left; by apply Z.eqb_eq|].
    right. apply andb_prop in H as [_ H]. by apply Z.eqb_eq.
  - apply IH.
Qed.

(** ** Walking a mask *)

Lemma mask_range l : 0 <= mask l.
Proof. unfold mask. induction l as [|[] l IH]; cbn in *; lia. Qed.

Lemma mask_zero l : mask l = 0 <-> forall i, l !! i <> Some true.
Proof.
  unfold mask. induction l as [|f l IH]; [split; [intros _ i; by rewrite lookup_nil|done]|].
  cbn [map word]. pose proof (mask_range l) as Hr. unfold mask in Hr. split.
  - intros E [|i]; cbn; [destruct f; [lia|done]|]. apply IH. destruct f; lia.
  - intros H. assert (f = false) as -> by (specialize (H 0%nat); cbn in H; destruct f; [by exfalso; apply H|done]).
    rewrite (proj2 IH); [done|]. intros i. apply (H (S i)).
Qed.

Lemma ctz_double z : 0 < z -> TrailingZeros64 (2 * z) = 1 + TrailingZeros64 z.
Proof. by destruct z. Qed.

Lemma ctz_256 z : 0 < z -> TrailingZeros64 (256 * z) = 8 + TrailingZeros64 z.
Proof.
  intros Hz. replace (256 * z) with (2 * (2 * (2 * (2 * (2 * (2 * (2 * (2 * z)))))))) by lia.
  rewrite !ctz_double by lia. lia.
Qed.

Lemma ctz_odd z : 0 <= z -> TrailingZeros64 (1 + 2 * z) = 0.
Proof. intros Hz. destruct z; [done|done|lia]. Qed.

(** The trailing-zero count finds the lowest flag; clearing it leaves the others. *)
Lemma mask_lowest l : mask l <> 0 ->
  exists i, l !! i = Some true /\ (forall j, (j < i)%nat -> l !! j = Some false)
    /\ Z.shiftr (TrailingZeros64 (mask l)) 3 = Z.of_nat i
    /\ clear_lowest (mask l) = mask (<[i := false]> l).
Proof.
  unfold mask. induction l as [|f l IH]; [done|]. cbn [map word].
  pose proof (mask_range l) as Hr. unfold mask in Hr. set (W := word (map _ l)) in *.
  destruct f; intros Hne.
  - exists 0%nat. split_and!; [done|lia| |].
    + replace (128 + 256 * W) with (2 * (2 * (2 * (2 * (2 * (2 * (2 * (1 + 2 * W)))))))) by lia.
      rewrite !ctz_double, ctz_odd by lia. done.
    + unfold clear_lowest. replace (128 + 256 * W - 1) with (127 + 256 * W) by lia.
      rewrite land_byte by lia. rewrite Z.land_diag. done.
  - rewrite Z.add_0_l in *. destruct IH as (i & Hi & Hlt & Hc & Hcl); [lia|].
    exists (S i). split_and!; [done|intros [|j] Hj; [done|apply Hlt; lia]| |].
    + rewrite ctz_256 by lia. rewrite Z.shiftr_div_pow2 in * by lia. change (2 ^ 3) with 8 in *.
      replace (8 + TrailingZeros64 W) with (TrailingZeros64 W + 1 * 8) by lia. rewrite Z.div_add, Hc by lia. lia.
    + unfold clear_lowest in *. replace (256 * W - 1) with (255 + 256 * (W - 1)) by lia.
      rewrite <- (Z.add_0_l (256 * W)), land_byte by lia. rewrite Hcl. cbn. done.
Qed.
