(* ===== verification/SwissTable.v ===== *)
(** The native member table (engine/f3/struct/table.go): an open-addressed table of
    control bytes and record ordinals, probed eight slots at a time with triangular
    group stepping.

    The table holds ordinals; the caller's member store turns an ordinal back into
    bytes.  That store is the interface [MemberSet], with the laws the table relies on
    in [MemberSetLaws]; the theorems are proved against it. *)

From S2P Require Import Prelude Loop Format Swar.
#[local] Open Scope Z_scope.

(** A table call returns or panics; it has no errors. *)
Abbreviation P A := (res Empty_set A).

(** ** The member store interface (structs.Set) *)

Class MemberSet (S : Type) := {
  Match : S -> Z -> bytes -> P bool;
  Rehash : S -> Z -> P Z
}.

(** [member s o] is the key stored at ordinal [o], [hash] the hash the caller passes
    for a key; [valid s o] says the ordinal names a stored member. *)
Class MemberSetLaws (S : Type) `{MemberSet S} := {
  member : S -> Z -> bytes;
  hash : bytes -> Z;
  valid : S -> Z -> Prop;
  match_member s o k : valid s o -> Match s o k = Ok (bool_decide (member s o = k));
  rehash_member s o : valid s o -> Rehash s o = Ok (hash (member s o))
}.

(** ** The table *)

Record Table := mkTable {
  t_ctrl : list Z;
  t_ords : list Z;
  t_cap : Z;
  t_count : Z;
  t_dead : Z
}.

Definition ctrlEmpty : Z := 128.
Definition ctrlDeleted : Z := 254.
Definition minCap : Z := 8.
Definition loadNum : Z := 7.
Definition loadDen : Z := 8.

(** uint32 arithmetic *)
Definition u32 (z : Z) : Z := z mod two32.

Definition init (cap : Z) : Table :=
  mkTable (replicate (Z.to_nat cap) ctrlEmpty) (replicate (Z.to_nat cap) 0) cap 0 0.

(** [for uint64(c)*7/8 < n { c <<= 1 }] *)
Definition capFor_body (n c : Z) : Z + Z :=
  if c * loadNum / loadDen <? n then inl (u32 (2 * c)) else inr c.
Definition capFor (n : Z) : P Z :=
  match loop (capFor_body n) fuel64 minCap with inr c => Ok c | inl _ => Panic end.

Definition MakeTable (hint : Z) : P Table := let* c := capFor hint in Ok (init c).

Definition Table_Len (t : Table) : Z := t_count t.
Definition maxLoad (t : Table) : Z := u32 (t_cap t * loadNum) / loadDen.

Definition tagOf (h : Z) : Z := Z.land (h mod 256) 127.
Definition groupOf (h numGroups : Z) : Z := Z.land (u32 (Z.shiftr h 7)) (u32 (numGroups - 1)).

(** [binary.LittleEndian.Uint64(t.ctrl[base : base+8])] *)
Definition group_word (t : Table) (base : Z) : P Z :=
  if (0 <=? base) && (base + 8 <=? zlen (t_ctrl t)) then Ok (word (sl (t_ctrl t) base 8)) else Panic.

Definition at_ord (t : Table) (i : Z) : P Z :=
  if i <? 0 then Panic else match t_ords t !! Z.to_nat i with Some o => Ok o | None => Panic end.
Definition at_ctrl (t : Table) (i : Z) : P Z :=
  if i <? 0 then Panic else match t_ctrl t !! Z.to_nat i with Some o => Ok o | None => Panic end.

(** The next group of a probe: [stride++; g = (g + stride) & (numGroups - 1)]. *)
Definition next_group (numGroups : Z) (gs : Z * Z) : Z * Z :=
  let stride := u32 (gs.2 + 1) in
  (Z.land (u32 (gs.1 + stride)) (u32 (numGroups - 1)), stride).

Section ops.
Context {S : Type} `{MemberSet S}.

(** The candidate loop over one group's mask; a mask has at most eight flags. *)
Fixpoint scan_mask (fuel : nat) (t : Table) (s : S) (key : bytes) (base m : Z) : P (option (Z * Z)) :=
  if m =? 0 then Ok None else
  match fuel with
  | O => Panic
  | Datatypes.S fuel' =>
      let j := Z.shiftr (TrailingZeros64 m) 3 in
      let* o := at_ord t (base + j) in
      let* hit := Match s o key in
      if (hit : bool) then Ok (Some (base + j, o))
      else scan_mask fuel' t s key base (clear_lowest m)
  end.

Definition find_body (t : Table) (key : bytes) (s : S) (tag numGroups : Z) (gs : Z * Z)
  : (Z * Z) + P (option (Z * Z)) :=
  let base := u32 (Z.shiftl gs.1 3) in
  match group_word t base with
  | Ok word =>
      match scan_mask 8 t s key base (matchByte word tag) with
      | Ok None =>
          if negb (matchByte word ctrlEmpty =? 0) then inr (Ok None)
          else inl (next_group numGroups gs)
      | r => inr r
      end
  | Err e => inr (Err e)
  | Panic => inr Panic
  end.

(** The slot and ordinal of [key]. *)
Definition findSlot (t : Table) (h : Z) (key : bytes) (s : S) : P (option (Z * Z)) :=
  let numGroups := Z.shiftr (t_cap t) 3 in
  match loop (find_body t key s (tagOf h) numGroups) fuel64 (groupOf h numGroups, 0) with
  | inr r => r
  | inl _ => Panic
  end.

Definition Find (t : Table) (h : Z) (key : bytes) (s : S) : P (option Z) :=
  let* r := findSlot t h key s in Ok (snd <$> r).

Definition place_body (t : Table) (tag ord numGroups : Z) (gs : Z * Z) : (Z * Z) + P Table :=
  let base := u32 (Z.shiftl gs.1 3) in
  match group_word t base with
  | Ok word =>
      let free := Z.land word highBits in
      if negb (free =? 0) then
        let slot := base + Z.shiftr (TrailingZeros64 free) 3 in
        inr (let* c := at_ctrl t slot in
             Ok (mkTable (<[Z.to_nat slot := tag]> (t_ctrl t)) (<[Z.to_nat slot := ord]> (t_ords t))
                   (t_cap t) (t_count t) (if c =? ctrlDeleted then u32 (t_dead t - 1) else t_dead t)))
      else inl (next_group numGroups gs)
  | Err e => inr (Err e)
  | Panic => inr Panic
  end.

Definition place (t : Table) (h ord : Z) : P Table :=
  let numGroups := Z.shiftr (t_cap t) 3 in
  match loop (place_body t (tagOf h) ord numGroups) fuel64 (groupOf h numGroups, 0) with
  | inr r => r
  | inl _ => Panic
  end.

(** [for t.count+1 > newCap*7/8 { newCap <<= 1 }] on uint32 *)
Definition grow_body (count newCap : Z) : Z + Z :=
  if u32 (newCap * loadNum) / loadDen <? u32 (count + 1) then inl (u32 (2 * newCap)) else inr newCap.

(** Re-place every full slot, in slot order. *)
Fixpoint replace_all (s : S) (ctrl ords : list Z) (t : Table) : P Table :=
  match ctrl with
  | [] => Ok t
  | c :: ctrl' =>
      match ords with
      | [] => if Z.land c 128 =? 0 then Panic else replace_all s ctrl' [] t
      | ord :: ords' =>
          if Z.land c 128 =? 0 then
            let* h := Rehash s ord in
            let* t := place t h ord in
            replace_all s ctrl' ords' (mkTable (t_ctrl t) (t_ords t) (t_cap t) (u32 (t_count t + 1)) (t_dead t))
          else replace_all s ctrl' ords' t
      end
  end.

Definition resize (t : Table) (s : S) : P Table :=
  let newCap := if t_cap t <? minCap then minCap else t_cap t in
  match loop (grow_body (t_count t)) fuel64 newCap with
  | inr c => replace_all s (t_ctrl t) (t_ords t) (init c)
  | inl _ => Panic
  end.

Definition Insert (t : Table) (h ord : Z) (s : S) : P Table :=
  let* t := if maxLoad t <? u32 (u32 (t_count t + t_dead t) + 1) then resize t s else Ok t in
  let* t := place t h ord in
  Ok (mkTable (t_ctrl t) (t_ords t) (t_cap t) (u32 (t_count t + 1)) (t_dead t)).

Definition Delete (t : Table) (h : Z) (key : bytes) (s : S) : P (Table * option Z) :=
  let* r := findSlot t h key s in
  match r with
  | None => Ok (t, None)
  | Some (slot, ord) =>
      Ok (mkTable (<[Z.to_nat slot := ctrlDeleted]> (t_ctrl t)) (t_ords t) (t_cap t)
            (u32 (t_count t - 1)) (u32 (t_dead t + 1)), Some ord)
  end.
End ops.

Definition CapSlots (t : Table) : Z := t_cap t.
Definition Table_Bytes (t : Table) : Z := zlen (t_ctrl t) + zlen (t_ords t) * 4.

(** ** Triangular probing

    The [n]-th group of a probe from [g0] over [2^k] groups. *)
Definition tri (n : Z) : Z := n * (n + 1) / 2.
Definition probe (k g0 n : Z) : Z := (g0 + tri n) mod 2 ^ k.

Lemma tri_double n : 2 * tri n = n * (n + 1).
Proof.
  unfold tri. assert ((n * (n + 1)) mod 2 = 0) as Hm.
  { destruct (Z.Even_or_Odd n) as [[x ->]|[x ->]].
    - replace (2 * x * (2 * x + 1)) with (x * (2 * x + 1) * 2) by lia. by rewrite Z.mod_mul.
    - replace ((2 * x + 1) * (2 * x + 1 + 1)) with ((2 * x + 1) * (x + 1) * 2) by lia. by rewrite Z.mod_mul. }
  pose proof (Z.div_mod (n * (n + 1)) 2 ltac:(lia)). lia.
Qed.

Lemma tri_succ n : tri (n + 1) = tri n + (n + 1).
Proof. pose proof (tri_double n). pose proof (tri_double (n + 1)). nia. Qed.

Lemma pow2_divides_odd k : forall a b, 0 <= k -> Z.odd a = true -> (2 ^ k | a * b) -> (2 ^ k | b).
Proof.
  intros a b Hk Ho. revert b. pattern k. apply natlike_ind; [|clear k Hk|done].
  - intros b _. apply Z.divide_1_l.
  - intros k Hk IH b [q Hq]. rewrite Z.pow_succ_r in Hq by done.
    assert (Z.Even b) as [y ->].
    { apply Z.even_spec. assert (Z.even (a * b) = true) as He.
      { rewrite Hq. apply Z.even_spec. exists (q * 2 ^ k). ring. }
      rewrite Z.even_mul, <- (Z.negb_odd a), Ho in He. exact He. }
    destruct (IH y) as [z Hz]; [exists q; apply (Z.mul_reg_l _ _ 2); lia|]. exists z. rewrite Z.pow_succ_r by done. lia.
Qed.

(** No group is visited twice within one lap. *)
Lemma probe_inj k g0 a b :
  0 <= k -> 0 <= a < 2 ^ k -> 0 <= b < 2 ^ k -> probe k g0 a = probe k g0 b -> a = b.
Proof.
  intros Hk. assert (0 < 2 ^ k) by (apply Z.pow_pos_nonneg; lia).
  assert (forall a b, 0 <= a < 2 ^ k -> 0 <= b < 2 ^ k -> a < b -> probe k g0 a = probe k g0 b -> False) as Hlt.
  { clear a b. intros a b Ha Hb Hab E. unfold probe in E.
    assert ((2 ^ k | tri b - tri a)) as [q Hq].
    { exists ((g0 + tri b) / 2 ^ k - (g0 + tri a) / 2 ^ k).
      pose proof (Z.div_mod (g0 + tri a) (2 ^ k) ltac:(lia)). pose proof (Z.div_mod (g0 + tri b) (2 ^ k) ltac:(lia)). nia. }
    pose proof (tri_double a). pose proof (tri_double b).
    assert (Hk1 : 2 ^ (k + 1) = 2 * 2 ^ k) by (by rewrite Z.pow_add_r, Z.mul_comm by lia).
    assert (Hd : (2 ^ (k + 1) | (b - a) * (b + a + 1))).
    { exists q. rewrite Hk1. replace ((b - a) * (b + a + 1)) with (2 * tri b - 2 * tri a) by lia. lia. }
    destruct (Z.odd (b - a)) eqn:Ho.
    - apply pow2_divides_odd, Z.divide_pos_le in Hd; (done || lia).
    - rewrite Z.mul_comm in Hd. apply pow2_divides_odd, Z.divide_pos_le in Hd; try lia.
      replace (b + a + 1) with (b - a + 2 * a + 1) by lia. by rewrite Z.odd_add, Z.odd_add, Z.odd_mul, Ho. }
  intros Ha Hb E. destruct (Z.lt_trichotomy a b) as [H0|[|H0]]; [|done|];
    exfalso; [by apply (Hlt a b)|by apply (Hlt b a)].
Qed.

(** A lap visits every group. *)
Lemma probe_surj k g0 g :
  0 <= k -> 0 <= g < 2 ^ k -> exists n, 0 <= n < 2 ^ k /\ probe k g0 n = g.
Proof.
  intros Hk Hg. assert (Hp : 0 < 2 ^ k) by (apply Z.pow_pos_nonneg; lia).
  set (N := Z.to_nat (2 ^ k)).
  set (f := fun i : nat => Z.to_nat (probe k g0 (Z.of_nat i))).
  assert (Hr : forall i, 0 <= probe k g0 i < 2 ^ k) by (intros; by apply Z.mod_pos_bound).
  assert (Hnd : NoDup (f <$> seq 0 N)).
  { apply NoDup_fmap_2_strong; [|apply NoDup_seq]. intros i j Hi Hj E.
    apply elem_of_seq in Hi, Hj. unfold f in E. pose proof (Hr (Z.of_nat i)). pose proof (Hr (Z.of_nat j)).
    apply Nat2Z.inj, (probe_inj k g0); unfold N in *; lia. }
  assert (Hsub : f <$> seq 0 N ⊆ seq 0 N).
  { intros x (i & -> & _)%list_elem_of_fmap. apply elem_of_seq. unfold f, N. pose proof (Hr (Z.of_nat i)). lia. }
  assert (Hperm : f <$> seq 0 N ≡ₚ seq 0 N).
  { apply submseteq_length_Permutation; [by apply NoDup_submseteq|by rewrite length_fmap]. }
  assert (Z.to_nat g ∈ f <$> seq 0 N) as Hin by (rewrite Hperm; apply elem_of_seq; unfold N; lia).
  apply list_elem_of_fmap in Hin as (i & E & Hi%elem_of_seq). exists (Z.of_nat i).
  unfold f, N in *. pose proof (Hr (Z.of_nat i)). lia.
Qed.

Lemma land_pow2 x k : 0 <= k -> Z.land x (2 ^ k - 1) = x mod 2 ^ k.
Proof. intros. rewrite <- Z.land_ones by done. by rewrite Z.ones_equiv, <- Z.sub_1_r. Qed.

(** At most [2^26] groups, so the uint32 steps never wrap. *)
Definition maxGroupBits : Z := 26.

Lemma pow2_small k : 0 <= k <= maxGroupBits -> 1 <= 2 ^ k <= 67108864.
Proof.
  unfold maxGroupBits. intros Hk. split; [apply (Z.pow_le_mono_r 2 0); lia|].
  change 67108864 with (2 ^ 26). apply Z.pow_le_mono_r; lia.
Qed.

Lemma next_group_probe k g0 n :
  0 <= k <= maxGroupBits -> 0 <= n < 2 ^ k ->
  next_group (2 ^ k) (probe k g0 n, n) = (probe k g0 (n + 1), n + 1).
Proof.
  intros Hk Hn. pose proof (pow2_small k Hk) as Hp. unfold next_group, u32. cbn [fst snd].
  assert (0 <= probe k g0 n < 2 ^ k) by (apply Z.mod_pos_bound; lia).
  rewrite (Z.mod_small (n + 1)), (Z.mod_small (2 ^ k - 1)), (Z.mod_small (probe k g0 n + (n + 1))) by lia.
  rewrite land_pow2 by lia. unfold probe. rewrite Zplus_mod_idemp_l, tri_succ. do 2 f_equal. lia.
Qed.

Lemma groupOf_probe h k : 0 <= k <= maxGroupBits -> groupOf h (2 ^ k) = probe k (u32 (Z.shiftr h 7)) 0.
Proof.
  intros Hk. pose proof (pow2_small k Hk). unfold groupOf, probe, u32 at 2.
  rewrite (Z.mod_small (2 ^ k - 1)), land_pow2 by lia. change (tri 0) with 0. by rewrite Z.add_0_r.
Qed.

(** ** Slots *)

Definition is_full (c : Z) : Prop := 0 <= c < 128.
#[global] Instance is_full_dec c : Decision (is_full c).
Proof. unfold is_full. apply _. Defined.

Definition ctrl_ok (c : Z) : Prop := is_full c \/ c = ctrlEmpty \/ c = ctrlDeleted.

(** The ordinals of the full slots, in slot order: what the table contains. *)
Fixpoint full_ords (ctrl ords : list Z) : list Z :=
  match ctrl, ords with
  | c :: ctrl', o :: ords' => if decide (is_full c) then o :: full_ords ctrl' ords' else full_ords ctrl' ords'
  | _, _ => []
  end.

Definition contents (t : Table) : list Z := full_ords (t_ctrl t) (t_ords t).

Definition count_of (c : Z) (l : list Z) : Z := zlen (filter (fun x => x = c) l).

Lemma full_ords_elem ctrl : forall ords o, length ctrl = length ords ->
  o ∈ full_ords ctrl ords <-> exists i c, ctrl !! i = Some c /\ is_full c /\ ords !! i = Some o.
Proof.
  induction ctrl as [|c ctrl IH]; intros [|x ords] o Hl; try done; cbn [full_ords].
  { rewrite elem_of_nil. split; [done|]. by intros (i & c & H & _). }
  injection Hl as Hl. specialize (IH ords o Hl). split.
  - intros Hin. destruct (decide (is_full c)) as [Hc|Hc].
    + apply elem_of_cons in Hin as [->|Hin]; [by exists 0%nat, c|].
      apply IH in Hin as (i & c' & ? & ? & ?). by exists (S i), c'.
    + apply IH in Hin as (i & c' & ? & ? & ?). by exists (S i), c'.
  - intros ([|i] & c' & Hc & Hf & Ho); cbn in *.
    + simplify_eq. rewrite decide_True by done. left.
    + assert (o ∈ full_ords ctrl ords) by (apply IH; by exists i, c'). case_decide; [by right|done].
Qed.

Lemma full_ords_fill ctrl : forall ords i c tag o,
  length ctrl = length ords -> ctrl !! i = Some c -> ~ is_full c -> is_full tag ->
  full_ords (<[i := tag]> ctrl) (<[i := o]> ords) ≡ₚ o :: full_ords ctrl ords.
Proof.
  induction ctrl as [|x ctrl IH]; intros [|y ords] i c tag o Hl Hc Hn Ht; try done.
  injection Hl as Hl. destruct i as [|i]; cbn in *.
  - simplify_eq. by rewrite (decide_True (P := is_full tag)), decide_False.
  - case_decide; rewrite (IH _ _ c); [constructor|done..].
Qed.

Lemma full_ords_delete ctrl : forall ords i c o,
  length ctrl = length ords -> ctrl !! i = Some c -> is_full c -> ords !! i = Some o ->
  full_ords ctrl ords ≡ₚ o :: full_ords (<[i := ctrlDeleted]> ctrl) ords.
Proof.
  induction ctrl as [|x ctrl IH]; intros [|y ords] i c o Hl Hc Hf Ho; try done.
  injection Hl as Hl. destruct i as [|i]; cbn in *.
  - simplify_eq. rewrite decide_True by done. rewrite decide_False; [done|]. unfold is_full, ctrlDeleted. lia.
  - case_decide; rewrite (IH _ i c o) by done; [constructor|done].
Qed.

Lemma count_of_insert x l i c c' :
  l !! i = Some c ->
  count_of x (<[i := c']> l) = count_of x l - (if decide (c = x) then 1 else 0) + (if decide (c' = x) then 1 else 0).
Proof.
  unfold count_of. revert i. induction l as [|a l IH]; intros [|i] Hi; try done.
  - change (Some a = Some c) in Hi. change (<[0%nat := c']> (a :: l)) with (c' :: l). simplify_eq. rewrite !filter_cons. repeat case_decide; rewrite ?zlen_cons; lia.
  - change (l !! i = Some c) in Hi. change (<[S i := c']> (a :: l)) with (a :: <[i := c']> l).
    rewrite !filter_cons. specialize (IH i Hi).
    destruct (decide (a = x)), (decide (c = x)), (decide (c' = x)); rewrite ?zlen_cons; lia.
Qed.

(** Every slot is full, empty or a tombstone. *)
Lemma slots_partition ctrl : forall ords, length ctrl = length ords -> Forall ctrl_ok ctrl ->
  zlen ctrl = zlen (full_ords ctrl ords) + count_of ctrlEmpty ctrl + count_of ctrlDeleted ctrl.
Proof.
  unfold count_of. induction ctrl as [|c ctrl IH]; intros [|o ords] Hl Hf; try done.
  apply Forall_cons in Hf as [Hc Hf]. injection Hl as Hl. specialize (IH ords Hl Hf). cbn [full_ords].
  rewrite !filter_cons, zlen_cons. unfold ctrl_ok, is_full, ctrlEmpty, ctrlDeleted in *.
  repeat case_decide; rewrite ?zlen_cons; unfold is_full in *; lia.
Qed.

Lemma count_of_elem x l : 0 < count_of x l -> exists i, l !! i = Some x.
Proof.
  unfold count_of. intros H. destruct (filter _ l) as [|y f] eqn:E; [done|].
  assert (y ∈ filter (fun z => z = x) l) as Hy by (rewrite E; left).
  apply list_elem_of_filter in Hy as [-> Hy]. by apply list_elem_of_lookup in Hy.
Qed.

(** ** Groups *)

Definition grp (ctrl : list Z) (g : nat) : list Z := take 8 (drop (8 * g) ctrl).

Lemma grp_lookup ctrl g j : (j < 8)%nat -> grp ctrl g !! j = ctrl !! (8 * g + j)%nat.
Proof. intros. unfold grp. rewrite lookup_take_lt, lookup_drop by done. done. Qed.

Lemma grp_length ctrl g : (8 * g + 8 <= length ctrl)%nat -> length (grp ctrl g) = 8%nat.
Proof. intros. unfold grp. rewrite length_take, length_drop. lia. Qed.

Definition has_empty (ctrl : list Z) (g : nat) : Prop := ctrlEmpty ∈ grp ctrl g.
Definition has_free (ctrl : list Z) (g : nat) : Prop := exists c, c ∈ grp ctrl g /\ ~ is_full c.

#[global] Instance has_empty_dec ctrl g : Decision (has_empty ctrl g).
Proof. unfold has_empty. apply _. Defined.

Lemma grp_elem ctrl g c : c ∈ grp ctrl g <-> exists j, (j < 8)%nat /\ ctrl !! (8 * g + j)%nat = Some c.
Proof.
  rewrite list_elem_of_lookup. split.
  - intros [j Hj]. assert (j < 8)%nat by (apply lookup_lt_Some in Hj; unfold grp in Hj; rewrite length_take in Hj; lia).
    exists j. by rewrite grp_lookup in Hj.
  - intros (j & Hj & Hc). exists j. by rewrite grp_lookup.
Qed.

Lemma ctrl_ok_u8 l : Forall ctrl_ok l -> u8s l.
Proof.
  intros H. eapply Forall_impl; [exact H|]. intros c [Hc|[->| ->]]; unfold is_full, ctrlEmpty, ctrlDeleted in *; lia.
Qed.

Lemma grp_ok ctrl g : Forall ctrl_ok ctrl -> Forall ctrl_ok (grp ctrl g).
Proof. intros. by apply Forall_take, Forall_drop. Qed.

Lemma tagOf_full h : is_full (tagOf h).
Proof.
  unfold tagOf, is_full. change 127 with (Z.ones 7). rewrite Z.land_ones by lia. apply Z.mod_pos_bound. done.
Qed.

Lemma full_land c : is_full c -> Z.land c 128 = 0.
Proof.
  unfold is_full. intros Hc. apply Z.bits_inj'. intros n Hn.
  rewrite Z.land_spec, Z.bits_0. change 128 with (2 ^ 7). rewrite Z.pow2_bits_eqb by lia.
  destruct (Z.eqb_spec 7 n) as [<-|]; [|by rewrite andb_false_r].
  assert (Z.testbit c 7 = false) as ->; [|done]. apply Z.testbit_false; [lia|]. by rewrite Z.div_small by lia.
Qed.

(** The free mask flags the slots that are not full. *)
Lemma free_mask l : length l = 8%nat -> Forall ctrl_ok l ->
  Z.land (word l) highBits = mask (map (fun c => bool_decide (~ is_full c)) l).
Proof.
  intros Hl Hf. rewrite <- rep_high, <- Hl. clear Hl. unfold mask. rewrite map_map.
  induction Hf as [|c l Hc Hf IH]; [done|]. cbn [length rep word map].
  assert (0 <= c < 256) by (destruct Hc as [?|[->| ->]]; unfold is_full, ctrlEmpty, ctrlDeleted in *; lia).
  rewrite land_byte, IH by lia. f_equal.
  destruct Hc as [Hc|[->| ->]].
  - rewrite bool_decide_eq_false_2 by tauto. by apply full_land.
  - by rewrite bool_decide_eq_true_2 by (unfold is_full, ctrlEmpty; lia).
  - by rewrite bool_decide_eq_true_2 by (unfold is_full, ctrlDeleted; lia).
Qed.

(** ** The invariant *)

(** The group a hash starts at, and the [n]-th group it probes. *)
Definition home (h : Z) : Z := u32 (Z.shiftr h 7).
Definition nth_group (k h n : Z) : nat := Z.to_nat (probe k (home h) n).

(** Group [g] is on the probe path of [h], past groups without an empty slot. *)
Definition reach (ctrl : list Z) (k h : Z) (g : nat) : Prop :=
  exists n, 0 <= n /\ nth_group k h n = g /\ forall m, 0 <= m < n -> ~ has_empty ctrl (nth_group k h m).

Record geometry (t : Table) (k : Z) : Prop := {
  ge_bits : 0 <= k <= maxGroupBits;
  ge_cap : t_cap t = 8 * 2 ^ k;
  ge_ctrl : zlen (t_ctrl t) = t_cap t;
  ge_ords : zlen (t_ords t) = t_cap t;
  ge_ok : Forall ctrl_ok (t_ctrl t)
}.

Section inv.
Context {S : Type} `{MemberSetLaws S}.
Implicit Types (s : S) (t : Table).

Definition slot_ok (s : S) (ctrl : list Z) (k : Z) (i : nat) (c o : Z) : Prop :=
  valid s o /\ c = tagOf (hash (member s o)) /\ reach ctrl k (hash (member s o)) (i / 8).

Record table_inv s t (k : Z) : Prop := {
  ti_geo : geometry t k;
  ti_count : t_count t = zlen (contents t);
  ti_dead : t_dead t = count_of ctrlDeleted (t_ctrl t);
  ti_load : t_count t + t_dead t <= 7 * 2 ^ k;
  ti_slots i c o : t_ctrl t !! i = Some c -> is_full c -> t_ords t !! i = Some o ->
    slot_ok s (t_ctrl t) k i c o;
  ti_nodup : NoDup (member s <$> contents t)
}.

(** *** Geometry *)

Lemma geo_groups t k : geometry t k -> Z.shiftr (t_cap t) 3 = 2 ^ k.
Proof.
  intros [Hk Hc _ _ _]. rewrite Hc, Z.shiftr_div_pow2, Z.mul_comm by lia. by apply Z.div_mul.
Qed.

Lemma geo_probe t k h n : geometry t k -> (8 * nth_group k h n + 8 <= length (t_ctrl t))%nat
  /\ Z.of_nat (nth_group k h n) = probe k (home h) n /\ probe k (home h) n < 2 ^ k.
Proof.
  intros [Hk Hc Hl _ _]. pose proof (pow2_small k Hk).
  assert (0 <= probe k (home h) n < 2 ^ k) by (apply Z.mod_pos_bound; lia).
  unfold nth_group, zlen in *. split_and!; lia.
Qed.

Lemma geo_lengths t k : geometry t k -> length (t_ctrl t) = length (t_ords t).
Proof. intros [_ _ H1 H2 _]. unfold zlen in *. lia. Qed.

Lemma group_word_ok t k h n : geometry t k ->
  group_word t (u32 (Z.shiftl (probe k (home h) n) 3)) = Ok (word (grp (t_ctrl t) (nth_group k h n)))
  /\ u32 (Z.shiftl (probe k (home h) n) 3) = 8 * Z.of_nat (nth_group k h n).
Proof.
  intros Hg. destruct (geo_probe t k h n Hg) as (Hl & Hn & Hp). pose proof (pow2_small k (ge_bits _ _ Hg)).
  assert (u32 (Z.shiftl (probe k (home h) n) 3) = 8 * Z.of_nat (nth_group k h n)) as ->.
  { rewrite Z.shiftl_mul_pow2 by lia. change (2 ^ 3) with 8. unfold u32. rewrite Z.mod_small; lia. }
  split; [|done]. unfold group_word, zlen.
  destruct (Z.leb_spec 0 (8 * Z.of_nat (nth_group k h n))); [|lia].
  destruct (Z.leb_spec (8 * Z.of_nat (nth_group k h n) + 8) (Z.of_nat (length (t_ctrl t)))); [|lia].
  cbn [andb]. do 2 f_equal. unfold sl, grp. rewrite ztake_take, zdrop_drop. f_equal. f_equal. lia.
Qed.

Lemma at_ord_ok t i o : t_ords t !! i = Some o -> at_ord t (Z.of_nat i) = Ok o.
Proof. intros Ho. unfold at_ord. destruct (Z.ltb_spec (Z.of_nat i) 0); [lia|]. by rewrite Nat2Z.id, Ho. Qed.

Lemma at_ctrl_ok t i c : t_ctrl t !! i = Some c -> at_ctrl t (Z.of_nat i) = Ok c.
Proof. intros Ho. unfold at_ctrl. destruct (Z.ltb_spec (Z.of_nat i) 0); [lia|]. by rewrite Nat2Z.id, Ho. Qed.

(** *** Scanning one group *)

Definition flags_left (fl : list bool) : nat := length (filter (fun b => b = true) fl).

Lemma flags_left_insert fl i : fl !! i = Some true -> flags_left fl = Datatypes.S (flags_left (<[i := false]> fl)).
Proof.
  unfold flags_left. revert i. induction fl as [|b fl IH]; intros [|i] Hi; try done.
  - change (Some b = Some true) in Hi. simplify_eq. by rewrite filter_cons_True.
  - change (fl !! i = Some true) in Hi. change (<[Datatypes.S i := false]> (b :: fl)) with (b :: <[i := false]> fl).
    rewrite !filter_cons. specialize (IH i Hi). case_decide; cbn [length]; lia.
Qed.

(** The candidate loop tries the flagged slots and finds a matching one if any. *)
Lemma scan_mask_spec t s key g fuel : forall fl,
  length fl = 8%nat -> (flags_left fl <= fuel)%nat -> (8 * g + 8 <= length (t_ords t))%nat ->
  (forall j o, fl !! j = Some true -> t_ords t !! (8 * g + j)%nat = Some o -> valid s o) ->
  (exists j o, fl !! j = Some true /\ t_ords t !! (8 * g + j)%nat = Some o /\ member s o = key
     /\ scan_mask fuel t s key (8 * Z.of_nat g) (mask fl) = Ok (Some (Z.of_nat (8 * g + j), o)))
  \/ (scan_mask fuel t s key (8 * Z.of_nat g) (mask fl) = Ok None
      /\ forall j o, fl !! j = Some true -> t_ords t !! (8 * g + j)%nat = Some o -> member s o <> key).
Proof.
  induction fuel as [|fuel IH]; intros fl Hl Hf Hr Hval; cbn [scan_mask];
    destruct (Z.eqb_spec (mask fl) 0) as [E|E].
  - right. split; [done|]. intros j o Hj. by apply (proj1 (mask_zero fl)) with (i := j) in E.
  - destruct (mask_lowest fl E) as (i & Hi & _). apply flags_left_insert in Hi. lia.
  - right. split; [done|]. intros j o Hj. by apply (proj1 (mask_zero fl)) with (i := j) in E.
  - destruct (mask_lowest fl E) as (i & Hi & _ & -> & ->).
    pose proof (lookup_lt_Some _ _ _ Hi) as Hlt. pose proof (flags_left_insert _ _ Hi) as Hfl.
    destruct (lookup_lt_is_Some_2 (t_ords t) (8 * g + i)) as [o Ho]; [lia|].
    replace (8 * Z.of_nat g + Z.of_nat i) with (Z.of_nat (8 * g + i)) by lia.
    rewrite (at_ord_ok _ _ _ Ho). rewrite match_member by (by eapply Hval).
    destruct (decide (member s o = key)) as [Em|Em].
    { left. exists i, o. by rewrite bool_decide_eq_true_2. }
    rewrite bool_decide_eq_false_2 by done.
    destruct (IH (<[i := false]> fl)) as [(j & o' & Hj & Ho' & Hm & Hs)|[Hs Hno]];
      [by rewrite length_insert|lia|done| | |].
    + intros j o' Hj. apply Hval. destruct (decide (i = j)) as [->|]; [by rewrite list_lookup_insert_eq in Hj|by rewrite list_lookup_insert_ne in Hj].
    + left. exists j, o'. split_and!; try done.
      destruct (decide (i = j)) as [->|]; [by rewrite list_lookup_insert_eq in Hj|by rewrite list_lookup_insert_ne in Hj].
    + right. split; [done|]. intros j o' Hj Ho'. destruct (decide (i = j)) as [<-|].
      * by simplify_eq.
      * eapply Hno; [|done]. by rewrite list_lookup_insert_ne.
Qed.

Lemma match_flags_length b l : forall borrow, length (match_flags borrow l b) = length l.
Proof. induction l as [|x l IH]; intros borrow; cbn; [done|]. by rewrite IH. Qed.

Lemma flags_left_length fl : (flags_left fl <= length fl)%nat.
Proof. apply length_filter. Qed.

(** A tag differs from the empty marker and the tombstone by more than one bit. *)
Lemma flagged_full c tag : ctrl_ok c -> is_full tag -> (c = tag \/ Z.lxor c tag = 1) -> is_full c.
Proof.
  intros Hc Ht [->|Hx]; [done|]. destruct Hc as [|Hc]; [done|]. exfalso.
  assert (Z.testbit tag 7 = false) as Hb by (unfold is_full in Ht; apply Z.testbit_false; [lia|]; by rewrite Z.div_small by lia).
  apply (f_equal (fun z => Z.testbit z 7)) in Hx. rewrite Z.lxor_spec, Hb in Hx.
  destruct Hc as [->| ->]; done.
Qed.

(** *** Find *)

(** A full slot of group [g] holding [key]. *)
Definition holds s t (g : nat) (key : bytes) : Prop :=
  exists i c o, (i / 8)%nat = g /\ t_ctrl t !! i = Some c /\ is_full c /\ t_ords t !! i = Some o /\ member s o = key.

Lemma slot_div g j : (j < 8)%nat -> ((8 * g + j) / 8)%nat = g.
Proof. intros Hj. rewrite Nat.mul_comm, Nat.div_add_l, Nat.div_small by lia. lia. Qed.

Lemma slot_split i : (i = 8 * (i / 8) + i mod 8)%nat /\ (i mod 8 < 8)%nat.
Proof. split; [by apply Nat.div_mod|by apply Nat.mod_upper_bound]. Qed.

Lemma empty_mask t k g : geometry t k -> (8 * g + 8 <= length (t_ctrl t))%nat ->
  matchByte (word (grp (t_ctrl t) g)) ctrlEmpty = 0 <-> ~ has_empty (t_ctrl t) g.
Proof.
  intros Hg Hl. pose proof (ctrl_ok_u8 _ (grp_ok _ g (ge_ok _ _ Hg))) as Hu.
  rewrite matchByte_flags, mask_zero; [|by apply grp_length|done|done].
  unfold has_empty. rewrite <- match_flags_exact by done. naive_solver.
Qed.

Lemma find_body_spec s t k key n :
  table_inv s t k -> 0 <= n < 2 ^ k ->
  let g := nth_group k (hash key) n in
  let r := find_body t key s (tagOf (hash key)) (2 ^ k) (probe k (home (hash key)) n, n) in
  (exists i c o, t_ctrl t !! i = Some c /\ is_full c /\ t_ords t !! i = Some o /\ member s o = key
     /\ r = inr (Ok (Some (Z.of_nat i, o))))
  \/ (~ holds s t g key /\ (has_empty (t_ctrl t) g -> r = inr (Ok None))
      /\ (~ has_empty (t_ctrl t) g -> r = inl (probe k (home (hash key)) (n + 1), n + 1))).
Proof.
  intros Hi Hn. pose proof (ti_geo _ _ _ Hi) as Hg. cbv zeta. unfold find_body. cbn [fst].
  destruct (group_word_ok t k (hash key) n Hg) as [-> ->].
  destruct (geo_probe t k (hash key) n Hg) as (Hl & _ & _). set (g := nth_group k (hash key) n) in *.
  set (l := grp (t_ctrl t) g). assert (Hl8 : length l = 8%nat) by (by apply grp_length).
  pose proof (grp_ok _ g (ge_ok _ _ Hg)) as Hok. fold l in Hok. pose proof (ctrl_ok_u8 _ Hok) as Hu.
  assert (Hlo : (8 * g + 8 <= length (t_ords t))%nat) by (by rewrite <- (geo_lengths t k Hg)).
  pose proof (tagOf_full (hash key)) as Ht.
  rewrite matchByte_flags by (done || (unfold is_full in Ht; lia)). set (fl := match_flags false l (tagOf (hash key))).
  assert (Hfl : length fl = 8%nat) by (unfold fl; by rewrite match_flags_length).
  assert (Hslot : forall j o, fl !! j = Some true -> t_ords t !! (8 * g + j)%nat = Some o ->
    exists c, t_ctrl t !! (8 * g + j)%nat = Some c /\ is_full c /\ valid s o).
  { intros j o Hj Ho. assert (j < 8)%nat by (rewrite <- Hfl; by eapply lookup_lt_Some).
    destruct (match_flags_sound _ _ _ _ Hj) as (c & Hc & Hx).
    assert (is_full c) as Hf by (eapply flagged_full; [by eapply Forall_lookup_1|done|done]).
    unfold l in Hc. rewrite grp_lookup in Hc by done. exists c. split_and!; [done|done|].
    by eapply (ti_slots _ _ _ Hi) in Hc as (Hv & _). }
  destruct (scan_mask_spec t s key g 8 fl) as [(j & o & Hj & Ho & Hm & ->)|[-> Hno]];
    [done|pose proof (flags_left_length fl); lia|done| | |].
  - intros j o Hj Ho. by destruct (Hslot j o Hj Ho) as (c & _ & _ & Hv).
  - left. destruct (Hslot j o Hj Ho) as (c & Hc & Hf & Hv). by exists (8 * g + j)%nat, c, o.
  - right. split_and!.
    + intros (i & c & o & Hig & Hc & Hf & Ho & Hk). destruct (slot_split i) as [Ei Hj]. rewrite Hig in Ei.
      destruct (ti_slots _ _ _ Hi i c o Hc Hf Ho) as (Hv & Hct & _).
      assert (fl !! (i mod 8)%nat = Some true) as Hfi.
      { apply match_flags_complete. unfold l. rewrite grp_lookup by done. by rewrite <- Ei, Hc, Hct, Hk. }
      rewrite Ei in Ho. by apply (Hno _ _ Hfi Ho).
    + intros He. destruct (Z.eqb_spec (matchByte (word l) ctrlEmpty) 0) as [E|E]; [|done].
      by apply (empty_mask t k g Hg Hl) in E.
    + intros He. apply (empty_mask t k g Hg Hl) in He. fold l in He. rewrite He. cbn [negb Z.eqb].
      by rewrite next_group_probe by (done || apply Hg).
Qed.

(** Below full load some group of every lap has an empty slot. *)
Lemma some_empty s t k h : table_inv s t k -> exists n, 0 <= n < 2 ^ k /\ has_empty (t_ctrl t) (nth_group k h n).
Proof.
  intros Hi. pose proof (ti_geo _ _ _ Hi) as Hg. pose proof (pow2_small k (ge_bits _ _ Hg)).
  pose proof (slots_partition _ _ (geo_lengths t k Hg) (ge_ok _ _ Hg)) as Hp.
  destruct (count_of_elem ctrlEmpty (t_ctrl t)) as [i He].
  { pose proof (ti_load _ _ _ Hi). pose proof (ti_count _ _ _ Hi) as Hc. pose proof (ti_dead _ _ _ Hi) as Hd.
    pose proof (ge_cap _ _ Hg). pose proof (ge_ctrl _ _ Hg). unfold contents in Hc. lia. }
  assert (i < length (t_ctrl t))%nat as Hlt by (by eapply lookup_lt_Some). destruct (slot_split i) as [Ei Hj].
  destruct (probe_surj k (home h) (Z.of_nat (i / 8))) as (n & Hn & Ep); [apply Hg| |].
  { split; [lia|]. pose proof (ge_cap _ _ Hg). pose proof (ge_ctrl _ _ Hg) as Hz. unfold zlen in Hz.
    assert (8 * (i / 8) < 8 * Z.to_nat (2 ^ k))%nat by lia. lia. }
  exists n. split; [done|]. unfold has_empty, nth_group. rewrite Ep, Nat2Z.id. apply grp_elem.
  exists (i mod 8)%nat. by rewrite <- Ei.
Qed.

(** [findSlot] always answers: the key's slot, or that no slot holds it. *)
Lemma findSlot_spec s t k key : table_inv s t k ->
  exists r, findSlot t (hash key) key s = Ok r /\
    match r with
    | Some (slot, o) => exists i c, slot = Z.of_nat i /\ t_ctrl t !! i = Some c /\ is_full c
        /\ t_ords t !! i = Some o /\ member s o = key
    | None => forall o, o ∈ contents t -> member s o <> key
    end.
Proof.
  intros Hi. pose proof (ti_geo _ _ _ Hi) as Hg. pose proof (pow2_small k (ge_bits _ _ Hg)) as Hp.
  unfold findSlot. rewrite (geo_groups t k Hg), (groupOf_probe (hash key) k (ge_bits _ _ Hg)).
  set (Q := fun r : P (option (Z * Z)) => match r with
    | Ok (Some (slot, o)) => exists i c, slot = Z.of_nat i /\ t_ctrl t !! i = Some c /\ is_full c
        /\ t_ords t !! i = Some o /\ member s o = key
    | Ok None => forall o, o ∈ contents t -> member s o <> key
    | _ => False end).
  destruct (loop_measure (find_body t key s (tagOf (hash key)) (2 ^ k))
    (fun gs => exists n, gs = (probe k (home (hash key)) n, n) /\ 0 <= n < 2 ^ k /\
       forall m, 0 <= m < n -> ~ holds s t (nth_group k (hash key) m) key
                              /\ ~ has_empty (t_ctrl t) (nth_group k (hash key) m))
    (fun gs => 2 ^ k - gs.2) Q fuel64 (probe k (u32 (Z.shiftr (hash key) 7)) 0, 0)) as (r & -> & Hr).
  - intros gs (n & -> & Hn & Hpast).
    destruct (find_body_spec s t k key n Hi Hn) as [(i & c & o & Hc & Hf & Ho & Hk & ->)|(Hno & Hemp & Hnext)].
    { unfold Q. by exists i, c. }
    destruct (decide (has_empty (t_ctrl t) (nth_group k (hash key) n))) as [He|He].
    + rewrite (Hemp He). unfold Q. intros o Ho Hk.
      apply full_ords_elem in Ho as (i & c & Hc & Hf & Ho); [|by eapply geo_lengths].
      destruct (ti_slots _ _ _ Hi i c o Hc Hf Ho) as (_ & _ & n' & Hn' & Hg' & Hne). rewrite Hk in Hg', Hne.
      assert (holds s t (nth_group k (hash key) n') key) as Hh by (exists i, c, o; by split_and!).
      destruct (Z.lt_trichotomy n' n) as [Hlt|[->|Hlt]]; [by destruct (Hpast n' ltac:(lia))|done|by destruct (Hne n ltac:(lia))].
    + rewrite (Hnext He). cbn [snd].
      assert (Hpast' : forall m, 0 <= m < n + 1 -> ~ holds s t (nth_group k (hash key) m) key
                              /\ ~ has_empty (t_ctrl t) (nth_group k (hash key) m)).
      { intros m Hm. destruct (decide (m = n)) as [->|]; [done|]. apply Hpast. lia. }
      destruct (decide (n + 1 < 2 ^ k)) as [Hlt|Hge]; [split; [exists (n + 1); split; [done|split; [lia|exact Hpast']]|lia]|].
      destruct (some_empty s t k (hash key) Hi) as (m & Hm & Hme). by destruct (Hpast' m ltac:(lia)).
  - exists 0. split; [done|split; [lia|intros; lia]].
  - cbn [snd]. lia.
  - destruct r as [[[slot o]|]|e|]; try done; by eexists.
Qed.

Lemma Find_spec s t k key : table_inv s t k ->
  exists r, Find t (hash key) key s = Ok r /\
    match r with
    | Some o => o ∈ contents t /\ member s o = key
    | None => key ∉ member s <$> contents t
    end.
Proof.
  intros Hi. destruct (findSlot_spec s t k key Hi) as (r & Hr & Hs). unfold Find. rewrite Hr.
  destruct r as [[slot o]|]; eexists; (split; [reflexivity|]); cbn.
  - destruct Hs as (i & c & _ & Hc & Hf & Ho & Hk). split; [|done].
    apply full_ords_elem; [by eapply geo_lengths, Hi|]. by exists i, c.
  - intros (o & -> & Ho)%list_elem_of_fmap. by apply (Hs o).
Qed.

(** *** Placing an ordinal *)

Lemma place_body_spec t k h ord n :
  geometry t k -> 0 <= n < 2 ^ k ->
  let g := nth_group k h n in
  let r := place_body t (tagOf h) ord (2 ^ k) (probe k (home h) n, n) in
  (exists i c, (i / 8)%nat = g /\ t_ctrl t !! i = Some c /\ ~ is_full c
     /\ r = inr (Ok (mkTable (<[i := tagOf h]> (t_ctrl t)) (<[i := ord]> (t_ords t)) (t_cap t) (t_count t)
              (if c =? ctrlDeleted then u32 (t_dead t - 1) else t_dead t))))
  \/ (~ has_free (t_ctrl t) g /\ r = inl (probe k (home h) (n + 1), n + 1)).
Proof.
  intros Hg Hn. cbv zeta. unfold place_body. cbn [fst].
  destruct (group_word_ok t k h n Hg) as [-> ->]. destruct (geo_probe t k h n Hg) as (Hl & _ & _).
  set (g := nth_group k h n) in *. pose proof (grp_ok _ g (ge_ok _ _ Hg)) as Hok.
  rewrite free_mask by (done || by apply grp_length). set (fl := map _ (grp (t_ctrl t) g)).
  destruct (Z.eqb_spec (mask fl) 0) as [E|E]; cbn [negb].
  - right. split; [|by rewrite next_group_probe by (done || apply Hg)].
    intros (c & (j & Hj & Hc)%grp_elem & Hf). apply (proj1 (mask_zero fl)) with (i := j) in E. apply E.
    unfold fl. change (map ?f ?l) with (f <$> l). rewrite list_lookup_fmap, grp_lookup, Hc by done. cbn. by rewrite bool_decide_eq_true_2.
  - left. destruct (mask_lowest fl E) as (j & Hj & _ & -> & _).
    unfold fl in Hj. change (map ?f ?l) with (f <$> l) in Hj. apply list_lookup_fmap_Some in Hj as (c & Hf & Hc).
    symmetry in Hf. apply bool_decide_eq_true in Hf.
    assert (j < 8)%nat as Hj by (rewrite <- (grp_length (t_ctrl t) g Hl); by eapply lookup_lt_Some).
    rewrite grp_lookup in Hc by done. exists (8 * g + j)%nat, c.
    replace (8 * Z.of_nat g + Z.of_nat j) with (Z.of_nat (8 * g + j)) by lia.
    rewrite (at_ctrl_ok _ _ _ Hc), Nat2Z.id. split_and!; [by apply slot_div|done|done|reflexivity].
Qed.

Lemma has_empty_free ctrl g : has_empty ctrl g -> has_free ctrl g.
Proof. intros H1. exists ctrlEmpty. split; [done|]. unfold is_full, ctrlEmpty. lia. Qed.

(** [place] takes the first free slot of the first group of the probe that has one. *)
Lemma place_spec s t k h ord : table_inv s t k ->
  exists i c, t_ctrl t !! i = Some c /\ ~ is_full c
    /\ (exists n, 0 <= n /\ nth_group k h n = (i / 8)%nat /\ forall m, 0 <= m < n -> ~ has_empty (t_ctrl t) (nth_group k h m))
    /\ place t h ord = Ok (mkTable (<[i := tagOf h]> (t_ctrl t)) (<[i := ord]> (t_ords t)) (t_cap t) (t_count t)
              (if c =? ctrlDeleted then u32 (t_dead t - 1) else t_dead t)).
Proof.
  intros Hi. pose proof (ti_geo _ _ _ Hi) as Hg. pose proof (pow2_small k (ge_bits _ _ Hg)) as Hp.
  unfold place. rewrite (geo_groups t k Hg), (groupOf_probe h k (ge_bits _ _ Hg)).
  destruct (loop_measure (place_body t (tagOf h) ord (2 ^ k))
    (fun gs => exists n, gs = (probe k (home h) n, n) /\ 0 <= n < 2 ^ k /\
       forall m, 0 <= m < n -> ~ has_empty (t_ctrl t) (nth_group k h m))
    (fun gs => 2 ^ k - gs.2)
    (fun r => exists i c, t_ctrl t !! i = Some c /\ ~ is_full c
       /\ (exists n, 0 <= n /\ nth_group k h n = (i / 8)%nat /\ forall m, 0 <= m < n -> ~ has_empty (t_ctrl t) (nth_group k h m))
       /\ r = Ok (mkTable (<[i := tagOf h]> (t_ctrl t)) (<[i := ord]> (t_ords t)) (t_cap t) (t_count t)
              (if c =? ctrlDeleted then u32 (t_dead t - 1) else t_dead t)))
    fuel64 (probe k (u32 (Z.shiftr h 7)) 0, 0)) as (r & -> & Hr).
  - intros gs (n & -> & Hn & Hpast).
    destruct (place_body_spec t k h ord n Hg Hn) as [(i & c & Hig & Hc & Hf & ->)|[Hno ->]].
    { exists i, c. split_and!; [done|done| |done]. exists n. split_and!; [lia|done|done]. }
    cbn [snd]. assert (Hpast' : forall m, 0 <= m < n + 1 -> ~ has_empty (t_ctrl t) (nth_group k h m)).
    { intros m Hm. destruct (decide (m = n)) as [->|]; [|apply Hpast; lia]. intros He. by apply Hno, has_empty_free. }
    destruct (decide (n + 1 < 2 ^ k)) as [Hlt|Hge]; [split; [exists (n + 1); split; [done|split; [lia|exact Hpast']]|lia]|].
    destruct (some_empty s t k h Hi) as (m & Hm & Hme). by destruct (Hpast' m ltac:(lia)).
  - exists 0. split; [done|split; [lia|intros; lia]].
  - cbn [snd]. lia.
  - exact Hr.
Qed.

(** *** Preservation *)

Lemma reach_mono ctrl ctrl' k h g :
  (forall g', has_empty ctrl' g' -> has_empty ctrl g') -> reach ctrl k h g -> reach ctrl' k h g.
Proof. intros He (n & Hn & Hg & Hno). exists n. split_and!; try done. intros m Hm H1. by apply (Hno m Hm), He. Qed.

Lemma insert_no_empty ctrl i c g : c <> ctrlEmpty -> has_empty (<[i := c]> ctrl) g -> has_empty ctrl g.
Proof.
  intros Hc (j & Hj & He)%grp_elem. apply grp_elem. exists j. split; [done|].
  apply list_lookup_insert_Some in He as [(_ & E & _)|[_ He]]; congruence.
Qed.

Definition bump (t : Table) : Table := mkTable (t_ctrl t) (t_ords t) (t_cap t) (u32 (t_count t + 1)) (t_dead t).

Lemma geo_update t k i c o cnt d :
  geometry t k -> ctrl_ok c ->
  geometry (mkTable (<[i := c]> (t_ctrl t)) (<[i := o]> (t_ords t)) (t_cap t) cnt d) k.
Proof.
  intros [? ? ? ? ?] Hc. split; cbn; [done|done|by unfold zlen in *; rewrite length_insert|by unfold zlen in *; rewrite length_insert|by apply Forall_insert].
Qed.

Lemma inv_count_bound s t k : table_inv s t k -> 0 <= t_count t /\ 0 <= t_dead t /\ t_count t + t_dead t <= 469762048.
Proof.
  intros Hi. pose proof (pow2_small k (ge_bits _ _ (ti_geo _ _ _ Hi))). pose proof (ti_load _ _ _ Hi).
  rewrite (ti_count _ _ _ Hi), (ti_dead _ _ _ Hi) in *. unfold count_of in *.
  pose proof (zlen_nonneg (contents t)). pose proof (zlen_nonneg (filter (fun x => x = ctrlDeleted) (t_ctrl t))). lia.
Qed.

(** Placing a new member under the load ceiling keeps the invariant. *)
Lemma place_ok s t k o :
  table_inv s t k -> valid s o -> member s o ∉ member s <$> contents t -> t_count t + t_dead t + 1 <= 7 * 2 ^ k ->
  exists t', place t (hash (member s o)) o = Ok t' /\ table_inv s (bump t') k /\ contents t' ≡ₚ o :: contents t
    /\ t_dead t' <= t_dead t.
Proof.
  intros Hi Hv Hnew Hload. pose proof (ti_geo _ _ _ Hi) as Hg. set (h := hash (member s o)).
  destruct (place_spec s t k h o Hi) as (i & c & Hc & Hnf & (n & Hn & Hng & Hpast) & ->).
  pose proof (inv_count_bound _ _ _ Hi) as Hb. pose proof (tagOf_full h) as Ht.
  pose proof (geo_lengths t k Hg) as Hlen.
  assert (tagOf h <> ctrlEmpty /\ tagOf h <> ctrlDeleted) as [Hte Htd] by (unfold is_full, ctrlEmpty, ctrlDeleted in *; lia).
  pose proof (count_of_insert ctrlDeleted (t_ctrl t) i c (tagOf h) Hc) as Hcd.
  rewrite (decide_False (P := tagOf h = ctrlDeleted)) in Hcd by done.
  set (d := if c =? ctrlDeleted then u32 (t_dead t - 1) else t_dead t).
  assert (Hd : d = count_of ctrlDeleted (<[i := tagOf h]> (t_ctrl t)) /\ d <= t_dead t).
  { rewrite Hcd, <- (ti_dead _ _ _ Hi). unfold d. destruct (Z.eqb_spec c ctrlDeleted) as [->|].
    - rewrite decide_True by done. unfold u32. rewrite Z.mod_small; [lia|].
      rewrite decide_True in Hcd by done. pose proof (ti_dead _ _ _ Hi).
      unfold count_of in *. pose proof (zlen_nonneg (filter (fun x => x = ctrlDeleted) (<[i := tagOf h]> (t_ctrl t)))). lia.
    - rewrite decide_False by done. lia. }
  eexists. split; [reflexivity|]. destruct Hd as [Hd Hdle].
  pose proof (full_ords_fill (t_ctrl t) (t_ords t) i c (tagOf h) o Hlen Hc Hnf Ht) as Hperm.
  split_and!; [|exact Hperm|exact Hdle]. unfold bump. cbn [t_ctrl t_ords t_cap t_count t_dead]. split; cbn.
  - by apply geo_update; [|left].
  - unfold contents. cbn. unfold zlen. rewrite Hperm. fold (contents t). cbn [length]. unfold u32.
    rewrite Z.mod_small by lia. rewrite (ti_count _ _ _ Hi). unfold zlen. lia.
  - exact Hd.
  - unfold u32. rewrite Z.mod_small; lia.
  - intros i' c' o' Hc' Hf' Ho'.
    assert (Hmono : forall g, has_empty (<[i := tagOf h]> (t_ctrl t)) g -> has_empty (t_ctrl t) g)
      by (intros g; by apply insert_no_empty).
    destruct (decide (i = i')) as [<-|Hne].
    + rewrite list_lookup_insert_eq in Hc' by (by eapply lookup_lt_Some).
      rewrite list_lookup_insert_eq in Ho' by (rewrite <- Hlen; by eapply lookup_lt_Some).
      simplify_eq. split_and!; [done|done|]. apply (reach_mono (t_ctrl t)); [done|]. by exists n.
    + rewrite list_lookup_insert_ne in Hc', Ho' by done.
      destruct (ti_slots _ _ _ Hi i' c' o' Hc' Hf' Ho') as (? & ? & Hr). split_and!; [done|done|].
      by apply (reach_mono (t_ctrl t)).
  - unfold contents. cbn. rewrite Hperm. cbn. apply NoDup_cons. split; [done|]. apply Hi.
Qed.

Lemma bump_contents t : contents (bump t) = contents t.
Proof. done. Qed.

(** *** The empty table *)

Lemma full_ords_empty n : full_ords (replicate n ctrlEmpty) (replicate n 0) = [].
Proof.
  induction n as [|n IH]; [done|]. cbn [replicate full_ords]. rewrite decide_False; [done|].
  unfold is_full, ctrlEmpty. lia.
Qed.

Lemma count_deleted_empty n : count_of ctrlDeleted (replicate n ctrlEmpty) = 0.
Proof. unfold count_of. induction n as [|n IH]; [done|]. cbn [replicate]. by rewrite filter_cons_False. Qed.

Lemma init_contents c : contents (init c) = [].
Proof. apply full_ords_empty. Qed.

Lemma init_inv s k : 0 <= k <= maxGroupBits -> table_inv s (init (8 * 2 ^ k)) k.
Proof.
  intros Hk. pose proof (pow2_small k Hk).
  split; rewrite ?init_contents; cbn [t_count t_dead t_ctrl t_ords init].
  - split; cbn [t_cap t_ctrl t_ords init]; [done|done| | |by apply Forall_replicate; right; left];
      unfold zlen; rewrite length_replicate; lia.
  - done.
  - by rewrite count_deleted_empty.
  - lia.
  - intros i c o (-> & _)%lookup_replicate. unfold is_full, ctrlEmpty. lia.
  - constructor.
Qed.

(** *** Growth *)

Lemma full_high c : ctrl_ok c -> (Z.land c 128 =? 0) = bool_decide (is_full c).
Proof.
  intros [Hc|[->| ->]]; [|done|done]. rewrite bool_decide_eq_true_2 by done. apply Z.eqb_eq.
  by apply full_land.
Qed.

(** [capFor] and the growth loop pick a power of two that seats the members. *)
Lemma double_cap k : 0 <= k < maxGroupBits -> u32 (2 * (8 * 2 ^ k)) = 8 * 2 ^ (k + 1).
Proof.
  intros Hk. pose proof (pow2_small k ltac:(unfold maxGroupBits in *; lia)). unfold u32.
  rewrite Z.pow_add_r, Z.mod_small by lia. lia.
Qed.

Lemma load_cap k : 0 <= k <= maxGroupBits -> u32 (8 * 2 ^ k * loadNum) / loadDen = 7 * 2 ^ k.
Proof.
  intros Hk. pose proof (pow2_small k Hk). unfold u32, loadNum, loadDen. rewrite Z.mod_small by lia.
  replace (8 * 2 ^ k * 7) with (7 * 2 ^ k * 8) by lia. by apply Z.div_mul.
Qed.

Lemma below_top k n : 0 <= k <= maxGroupBits -> 7 * 2 ^ k < n -> n <= 469762048 -> k < maxGroupBits.
Proof. intros Hk H1 H2. destruct (decide (k = maxGroupBits)) as [->|]; [|lia]. change (2 ^ maxGroupBits) with 67108864 in H1. lia. Qed.

Lemma grow_loop count k : 0 <= k <= maxGroupBits -> 0 <= count -> count + 1 <= 469762048 ->
  exists k', loop (grow_body count) fuel64 (8 * 2 ^ k) = inr (8 * 2 ^ k') /\ k <= k' <= maxGroupBits /\ count + 1 <= 7 * 2 ^ k'.
Proof.
  intros Hk Hc Hb. pose proof (pow2_small k Hk).
  destruct (loop_measure (grow_body count)
    (fun c => exists k', c = 8 * 2 ^ k' /\ k <= k' <= maxGroupBits) (fun c => 1073741824 - c)
    (fun c => exists k', c = 8 * 2 ^ k' /\ k <= k' <= maxGroupBits /\ count + 1 <= 7 * 2 ^ k')
    fuel64 (8 * 2 ^ k)) as (c & -> & k' & -> & ? & ?).
  - intros c (k' & -> & Hk'). unfold grow_body. rewrite load_cap by lia. unfold u32 at 1. rewrite (Z.mod_small (count + 1)) by lia.
    destruct (Z.ltb_spec (7 * 2 ^ k') (count + 1)) as [Hlt|]; [|by exists k'].
    pose proof (below_top k' (count + 1) ltac:(lia) Hlt ltac:(lia)).
    rewrite double_cap by lia. split; [exists (k' + 1); split; [done|lia]|].
    pose proof (pow2_small k' ltac:(lia)). pose proof (pow2_small (k' + 1) ltac:(lia)).
    rewrite Z.pow_add_r in * by lia. lia.
  - exists k. split; [done|lia].
  - lia.
  - exists k'. done.
Qed.

Lemma replace_all_ok s k ctrl : forall ords t,
  length ctrl = length ords -> Forall ctrl_ok ctrl -> table_inv s t k -> t_dead t = 0 ->
  Forall (valid s) (full_ords ctrl ords) -> NoDup (member s <$> contents t ++ full_ords ctrl ords) ->
  t_count t + zlen (full_ords ctrl ords) <= 7 * 2 ^ k ->
  exists t', replace_all s ctrl ords t = Ok t' /\ table_inv s t' k /\ t_dead t' = 0
    /\ contents t' ≡ₚ contents t ++ full_ords ctrl ords.
Proof.
  induction ctrl as [|c ctrl IH]; intros [|o ords] t Hl Hok Hi Hd Hv Hnd Hload; try done.
  { exists t. cbn. by rewrite app_nil_r. }
  apply Forall_cons in Hok as [Hc Hok]. injection Hl as Hl. cbn [replace_all full_ords] in *.
  rewrite full_high by done. destruct (decide (is_full c)) as [Hf|Hf].
  2: { rewrite bool_decide_eq_false_2 by done. by apply IH. }
  rewrite bool_decide_eq_true_2 by done. apply Forall_cons in Hv as [Hvo Hv]. rewrite zlen_cons in Hload.
  pose proof (zlen_nonneg (full_ords ctrl ords)).
  rewrite rehash_member by done. rewrite fmap_app, fmap_cons in Hnd.
  destruct (place_ok s t k o) as (t' & -> & Hi' & Hperm & Hdle); [done|done| |lia|].
  { apply NoDup_app in Hnd as (_ & Hnd & _). intros Hin. apply (Hnd _ Hin). left. }
  cbn. change (mkTable (t_ctrl t') (t_ords t') (t_cap t') (u32 (t_count t' + 1)) (t_dead t')) with (bump t').
  destruct (IH ords (bump t')) as (t2 & -> & Hi2 & Hd2 & Hp2); try done.
  - pose proof (inv_count_bound _ _ _ Hi'). cbn in *. lia.
  - rewrite bump_contents, fmap_app, Hperm, fmap_cons. cbn. rewrite Permutation_middle. done.
  - rewrite (ti_count _ _ _ Hi'), bump_contents. unfold zlen at 1. rewrite Hperm. cbn [length].
    rewrite (ti_count _ _ _ Hi) in Hload. unfold zlen in *. lia.
  - exists t2. split_and!; [done|done|done|]. rewrite Hp2, bump_contents, Hperm. cbn. by rewrite Permutation_middle.
Qed.

Lemma contents_valid s t k : table_inv s t k -> Forall (valid s) (contents t).
Proof.
  intros Hi. apply Forall_forall. intros o Ho. apply full_ords_elem in Ho as (i & c & Hc & Hf & Ho); [|by eapply geo_lengths, Hi].
  by destruct (ti_slots _ _ _ Hi i c o Hc Hf Ho) as (Hv & _).
Qed.

Lemma resize_ok s t k : table_inv s t k -> t_count t + 1 <= 469762048 ->
  exists t' k', resize t s = Ok t' /\ table_inv s t' k' /\ t_dead t' = 0 /\ k <= k'
    /\ t_count t' = t_count t /\ contents t' ≡ₚ contents t /\ t_count t + 1 <= 7 * 2 ^ k'.
Proof.
  intros Hi Hb. pose proof (ti_geo _ _ _ Hi) as Hg. pose proof (inv_count_bound _ _ _ Hi).
  unfold resize. rewrite (ge_cap _ _ Hg). pose proof (pow2_small k (ge_bits _ _ Hg)).
  destruct (Z.ltb_spec (8 * 2 ^ k) minCap); [unfold minCap in *; lia|].
  destruct (grow_loop (t_count t) k) as (k' & -> & Hk' & Hc); [apply Hg|lia|lia|].
  assert (0 <= k') by (pose proof (ge_bits _ _ Hg); lia).
  destruct (replace_all_ok s k' (t_ctrl t) (t_ords t) (init (8 * 2 ^ k'))) as (t' & -> & Hi' & Hd & Hp).
  - by eapply geo_lengths.
  - apply Hg.
  - apply init_inv. lia.
  - done.
  - by eapply contents_valid.
  - rewrite init_contents. apply Hi.
  - change (t_count (init (8 * 2 ^ k'))) with 0. fold (contents t). rewrite <- (ti_count _ _ _ Hi). lia.
  - rewrite init_contents in Hp. cbn [app] in Hp. fold (contents t) in Hp.
    exists t', k'. split_and!; try done; try lia.
    rewrite (ti_count _ _ _ Hi'), (ti_count _ _ _ Hi). unfold zlen. by rewrite Hp.
Qed.

(** *** Insert and Delete *)

Lemma Insert_ok s t k o : table_inv s t k -> valid s o -> member s o ∉ member s <$> contents t ->
  t_count t + 1 <= 469762048 ->
  exists t' k', Insert t (hash (member s o)) o s = Ok t' /\ table_inv s t' k' /\ contents t' ≡ₚ o :: contents t /\ k <= k'.
Proof.
  intros Hi Hv Hnew Hb. pose proof (inv_count_bound _ _ _ Hi). unfold Insert, maxLoad.
  rewrite (ge_cap _ _ (ti_geo _ _ _ Hi)), load_cap by apply Hi. unfold u32 at 1 2.
  rewrite (Z.mod_small (t_count t + t_dead t)), (Z.mod_small (t_count t + t_dead t + 1)) by lia.
  destruct (Z.ltb_spec (7 * 2 ^ k) (t_count t + t_dead t + 1)) as [Hlt|Hge]; cbn.
  - destruct (resize_ok s t k Hi Hb) as (t1 & k1 & -> & Hi1 & Hd1 & Hk1 & Hc1 & Hp1 & Hl1). cbn.
    destruct (place_ok s t1 k1 o) as (t' & -> & Hi' & Hp & _); [done|done|by rewrite Hp1|lia|].
    cbn. exists (bump t'), k1. split_and!; [done|done| |done]. by rewrite bump_contents, Hp, Hp1.
  - destruct (place_ok s t k o) as (t' & -> & Hi' & Hp & _); [done..|lia|].
    cbn. exists (bump t'), k. split_and!; [done|done|done|lia].
Qed.

Lemma Delete_ok s t k key : table_inv s t k ->
  exists t' r, Delete t (hash key) key s = Ok (t', r) /\ table_inv s t' k /\
    match r with
    | Some o => contents t ≡ₚ o :: contents t' /\ member s o = key
    | None => t' = t /\ key ∉ member s <$> contents t
    end.
Proof.
  intros Hi. pose proof (ti_geo _ _ _ Hi) as Hg. destruct (findSlot_spec s t k key Hi) as (r & Hr & Hs).
  unfold Delete. rewrite Hr. cbn. destruct r as [[slot o]|]; cycle 1.
  { exists t, None. split_and!; [done|done|done|]. intros (o & -> & Ho)%list_elem_of_fmap. by apply (Hs o). }
  destruct Hs as (i & c & -> & Hc & Hf & Ho & Hk). rewrite Nat2Z.id. do 2 eexists. split; [reflexivity|].
  pose proof (geo_lengths t k Hg) as Hlen. pose proof (inv_count_bound _ _ _ Hi).
  pose proof (full_ords_delete _ _ i c o Hlen Hc Hf Ho) as Hp.
  assert (Hz : zlen (contents t) = 1 + zlen (full_ords (<[i:=ctrlDeleted]> (t_ctrl t)) (t_ords t))).
  { unfold contents, zlen. rewrite Hp. cbn [length]. lia. }
  pose proof (zlen_nonneg (full_ords (<[i:=ctrlDeleted]> (t_ctrl t)) (t_ords t))).
  rewrite <- (ti_count _ _ _ Hi) in Hz.
  split; [|by split]. split; unfold contents; cbn.
  - destruct Hg as [? ? ? ? ?]. split; cbn; [done|done|by unfold zlen in *; rewrite length_insert|done|].
    by apply Forall_insert; [|right; right].
  - unfold u32. rewrite Z.mod_small by lia. lia.
  - rewrite (count_of_insert _ _ _ c) by done. rewrite (decide_True (P := ctrlDeleted = ctrlDeleted)) by done.
    rewrite decide_False by (unfold is_full, ctrlDeleted in *; lia). rewrite <- (ti_dead _ _ _ Hi). unfold u32.
    rewrite Z.mod_small; lia.
  - unfold u32. rewrite !Z.mod_small by lia. pose proof (ti_load _ _ _ Hi). lia.
  - intros i' c' o' Hc' Hf' Ho'. apply list_lookup_insert_Some in Hc' as [(_ & E & _)|[Hne Hc']].
    { subst c'. unfold is_full, ctrlDeleted in Hf'. lia. }
    destruct (ti_slots _ _ _ Hi i' c' o' Hc' Hf' Ho') as (? & ? & Hrch). split_and!; [done|done|].
    apply (reach_mono (t_ctrl t)); [|done]. intros g. by apply insert_no_empty.
  - pose proof (ti_nodup _ _ _ Hi) as Hnd. unfold contents in Hnd. rewrite Hp in Hnd. cbn in Hnd.
    by apply NoDup_cons in Hnd as [_ ?].
Qed.

(** The caller's store may change as long as the stored members read the same. *)
Lemma inv_store s s' t k :
  table_inv s t k -> Forall (fun o => valid s' o /\ member s' o = member s o) (contents t) -> table_inv s' t k.
Proof.
  intros Hi Hs. rewrite Forall_forall in Hs. destruct Hi as [Hg Hc Hd Hl Hsl Hnd]. split; try done.
  - intros i c o Hc' Hf Ho. destruct (Hsl i c o Hc' Hf Ho) as (Hv & Ht & Hr).
    destruct (Hs o) as [Hv' Hm]; [|split; [done|by rewrite Hm]].
    apply full_ords_elem; [by eapply geo_lengths|]. by exists i, c.
  - assert (member s' <$> contents t = member s <$> contents t) as ->; [|done].
    apply list_fmap_ext. intros i o Ho. apply Hs. by eapply list_elem_of_lookup_2.
Qed.

(** [MakeTable] seats its hint without a resize. *)
Lemma MakeTable_ok s hint : 0 <= hint <= 469762048 ->
  exists t k, MakeTable hint = Ok t /\ table_inv s t k /\ contents t = [] /\ hint <= maxLoad t.
Proof.
  intros Hh. unfold MakeTable, capFor.
  destruct (loop_measure (capFor_body hint)
    (fun c => exists k, c = 8 * 2 ^ k /\ 0 <= k <= maxGroupBits) (fun c => 1073741824 - c)
    (fun c => exists k, c = 8 * 2 ^ k /\ 0 <= k <= maxGroupBits /\ hint <= 7 * 2 ^ k)
    fuel64 minCap) as (c & -> & k & -> & Hk & Hb).
  - intros c (k & -> & Hk). unfold capFor_body, loadNum, loadDen.
    replace (8 * 2 ^ k * 7 / 8) with (7 * 2 ^ k) by (apply Z.div_unique_exact; lia).
    destruct (Z.ltb_spec (7 * 2 ^ k) hint) as [Hlt|]; [|by exists k].
    pose proof (below_top k hint Hk Hlt ltac:(lia)). rewrite double_cap by lia.
    split; [exists (k + 1); split; [done|lia]|].
    pose proof (pow2_small k Hk). pose proof (pow2_small (k + 1) ltac:(lia)). rewrite Z.pow_add_r in * by lia. lia.
  - exists 0. split; [done|unfold maxGroupBits; lia].
  - unfold minCap. lia.
  - exists (init (8 * 2 ^ k)), k. split_and!; [done|by apply init_inv|apply init_contents|].
    unfold maxLoad. cbn [t_cap init]. by rewrite load_cap.
Qed.
End inv.

(** Past [7 * 2^26] members the growth loop's uint32 product wraps and the capacity
    shifts to zero: the loop never leaves. *)
Lemma grow_stuck n : loopn (grow_body 469762048) n 536870912 = inl (match n with O => 536870912 | 1%nat => 1073741824 | 2%nat => 2147483648 | _ => 0 end).
Proof.
  destruct n as [|[|[|n]]]; [reflexivity..|]. change (S (S (S n))) with (3 + n)%nat. rewrite loopn_add.
  replace (loopn (grow_body 469762048) 3 536870912) with (@inl Z Z 0) by reflexivity.
  induction n as [|n IH]; [reflexivity|]. cbn [loopn].
  by replace (grow_body 469762048 0) with (@inl Z Z 0) by reflexivity.
Qed.
