(* ===== verification/SetTable.v ===== *)
(** The native member band of a set (engine/f3/set/member.go) over the member table,
    and the engine's hash (engine/f3/store/hash.go).

    The cold tier's chunks (set/cold.go) are a parameter, the class [ColdTier]: every
    branch on the cold bit is modelled, and the theorems are about sets whose live
    records are resident.  The algebra arrays are off, the package knob's default.
    [htable_laws] discharges the interface the member table was verified against;
    [elems] is the abstract set. *)

From S2P Require Import Prelude Loop Format Ordered Swar SwissTable.
#[local] Open Scope Z_scope.

(** ** store.Hash *)

Definition mulFold (a b : Z) : Z :=
  let hi := (a * b / two64) mod two64 in
  let lo := (a * b) mod two64 in
  Z.lxor hi lo.

Definition hash_s0 : Z := 11562461410679940143.
Definition hash_s1 : Z := 16646288086500911323.
Definition hash_s2 : Z := 10285213230658275043.

(** [for len(b) >= 8]: eight bytes per step, with the bytes that are left *)
Fixpoint hash_words (h : Z) (b : bytes) : Z * bytes :=
  match b with
  | b0 :: b1 :: b2 :: b3 :: b4 :: b5 :: b6 :: b7 :: b' =>
      hash_words (mulFold (Z.lxor h (le_dec [b0; b1; b2; b3; b4; b5; b6; b7])) hash_s1) b'
  | _ => (h, b)
  end.

(** [for i := 0; i < len(b); i++ { t |= uint64(b[i]) << (8 * uint(i)) }] *)
Fixpoint hash_tail (i : Z) (b : bytes) (t : Z) : Z :=
  match b with
  | [] => t
  | x :: b' => hash_tail (i + 1) b' (Z.lor t (Z.shiftl (byte_Z x) (8 * i) mod two64))
  end.

Definition Hash (b : bytes) : Z :=
  let '(h, r) := hash_words (Z.lxor hash_s0 (zlen b)) b in
  let h := if 0 <? zlen r then mulFold (Z.lxor h (hash_tail 0 r 0)) hash_s1 else h in
  mulFold h hash_s2.

(** ** The record slab *)

Record record := mkRecord { r_loc : Z; r_vslot : Z; r_mlen : Z; r_band : Z }.

Definition tierCold : Z := 1.

Record htable (C : Type) := mkHtable {
  h_tbl : Table;
  h_recs : list record;
  h_slab : bytes;
  h_vec : list Z;
  h_free : list Z;
  h_dead : Z;
  h_streams : Z;
  h_cold : option C
}.
#[global] Arguments mkHtable {C} _ _ _ _ _ _ _ _.
#[global] Arguments h_tbl {C} _.
#[global] Arguments h_recs {C} _.
#[global] Arguments h_slab {C} _.
#[global] Arguments h_vec {C} _.
#[global] Arguments h_free {C} _.
#[global] Arguments h_dead {C} _.
#[global] Arguments h_streams {C} _.
#[global] Arguments h_cold {C} _.

(** What the set asks of its cold chunks: a demoted member's bytes by locator, the mark
    of a removal, and bringing a chunk back. *)
Class ColdTier (C : Type) := {
  cold_member : C -> Z -> option bytes;
  cold_markDirty : C -> Z -> C;
  cold_promote : htable C -> Z -> P (htable C)
}.

Definition is_cold (r : record) : bool := negb (Z.land (r_band r) tierCold =? 0).

Section set.
Context {C : Type} `{ColdTier C}.
Implicit Types h : htable C.

Definition newHashtable (hint : Z) : P (htable C) :=
  let* t := MakeTable hint in Ok (mkHtable t [] [] [] [] 0 0 None).

(** Indexing a Go slice. *)
Definition at_ix {A} (l : list A) (i : Z) : P A :=
  if i <? 0 then Panic else match l !! Z.to_nat i with Some x => Ok x | None => Panic end.
Definition set_ix {A} (l : list A) (i : Z) (x : A) : P (list A) :=
  let* _ := at_ix l i in Ok (<[Z.to_nat i := x]> l).

(** [h.slab[r.loc : r.loc+uint32(r.mlen)]] *)
Definition slab_slice (slab : bytes) (r : record) : P bytes :=
  slice slab (r_loc r) (u32 (r_loc r + r_mlen r)).

(** [h.cold.member(r.loc)]: a nil cold tier panics. *)
Definition cold_read (h : htable C) (r : record) : P (option bytes) :=
  match h_cold h with Some c => Ok (cold_member c (r_loc r)) | None => Panic end.

Definition bytesOf (h : htable C) (r : record) : P bytes :=
  if is_cold r then let* m := cold_read h r in Ok (default [] m)
  else slab_slice (h_slab h) r.

Definition htable_Match (h : htable C) (ord : Z) (key : bytes) : P bool :=
  let* r := at_ix (h_recs h) ord in
  if is_cold r then let* m := cold_read h r in Ok (bool_decide (m = Some key))
  else let* m := slab_slice (h_slab h) r in Ok (bool_decide (m = key)).

Definition htable_Rehash (h : htable C) (ord : Z) : P Z :=
  let* r := at_ix (h_recs h) ord in
  if is_cold r then let* m := cold_read h r in Ok (match m with Some m => Hash m | None => 0 end)
  else let* m := slab_slice (h_slab h) r in Ok (Hash m).

#[global] Instance htable_set : MemberSet (htable C) := { Match := htable_Match; Rehash := htable_Rehash }.

Definition card (h : htable C) : Z := Table_Len (h_tbl h).

Definition has (h : htable C) (m : bytes) : P bool :=
  let* r := Find (h_tbl h) (Hash m) m h in Ok (bool_decide (is_Some r)).

Definition newRecord (h : htable C) (m : bytes) : P (htable C * Z) :=
  let loc := u32 (zlen (h_slab h)) in
  let slab := h_slab h ++ m in
  let r := mkRecord loc (u32 (zlen (h_vec h))) (zlen m mod two16) 0 in
  let n := zlen (h_free h) in
  if (0 <? n) && (h_streams h =? 0) then
    let* ord := at_ix (h_free h) (n - 1) in
    let* recs := set_ix (h_recs h) ord r in
    Ok (mkHtable (h_tbl h) recs slab (h_vec h ++ [ord]) (ztake (n - 1) (h_free h)) (h_dead h) (h_streams h) (h_cold h), ord)
  else
    let ord := u32 (zlen (h_recs h)) in
    Ok (mkHtable (h_tbl h) (h_recs h ++ [r]) slab (h_vec h ++ [ord]) (h_free h) (h_dead h) (h_streams h) (h_cold h), ord).

Definition with_tbl (h : htable C) (t : Table) : htable C :=
  mkHtable t (h_recs h) (h_slab h) (h_vec h) (h_free h) (h_dead h) (h_streams h) (h_cold h).

Definition addRaw (h : htable C) (m : bytes) : P (htable C * bool) :=
  let hash := Hash m in
  let* f := Find (h_tbl h) hash m h in
  match f with
  | Some _ => Ok (h, false)
  | None =>
      let* '(h, ord) := newRecord h m in
      let* t := Insert (h_tbl h) hash ord h in
      Ok (with_tbl h t, true)
  end.

Definition add (h : htable C) (m : bytes) : P (htable C * bool) :=
  let hash := Hash m in
  let* f := Find (h_tbl h) hash m h in
  match f with
  | Some ord =>
      let* r := at_ix (h_recs h) ord in
      if is_cold r then let* h := cold_promote h ord in Ok (h, false) else Ok (h, false)
  | None =>
      let* '(h, ord) := newRecord h m in
      let* t := Insert (h_tbl h) hash ord h in
      Ok (with_tbl h t, true)
  end.

(** The compaction pass over the draw vector: each live member's bytes move to the
    packed slab and its record's location with them. *)
Fixpoint compact_loop (slab : bytes) (vec : list Z) (packed : bytes) (recs : list record) : P (bytes * list record) :=
  match vec with
  | [] => Ok (packed, recs)
  | ord :: vec' =>
      let* r := at_ix recs ord in
      if is_cold r then compact_loop slab vec' packed recs else
      let* m := slab_slice slab r in
      let* recs := set_ix recs ord (mkRecord (u32 (zlen packed)) (r_vslot r) (r_mlen r) (r_band r)) in
      compact_loop slab vec' (packed ++ m) recs
  end.

Definition maybeCompact (h : htable C) : P (htable C) :=
  if 0 <? h_streams h then Ok h else
  if (h_dead h <=? zlen (h_slab h) / 2) || (h_dead h <? 4096) then Ok h else
  if zlen (h_slab h) - h_dead h <? 0 then Panic else
  let* '(packed, recs) := compact_loop (h_slab h) (h_vec h) [] (h_recs h) in
  Ok (mkHtable (h_tbl h) recs packed (h_vec h) (h_free h) 0 (h_streams h) (h_cold h)).

Definition rem (h : htable C) (m : bytes) : P (htable C * bool) :=
  let hash := Hash m in
  let* '(t, d) := Delete (h_tbl h) hash m h in
  match d with
  | None => Ok (h, false)
  | Some ord =>
      let* r := at_ix (h_recs h) ord in
      let v := r_vslot r in
      let last := zlen (h_vec h) - 1 in
      let* moved := at_ix (h_vec h) last in
      let* vec := set_ix (h_vec h) v moved in
      let* mr := at_ix (h_recs h) moved in
      let* recs := set_ix (h_recs h) moved (mkRecord (r_loc mr) v (r_mlen mr) (r_band mr)) in
      let* cold := (if is_cold r
                    then match h_cold h with Some c => Ok (Some (cold_markDirty c hash)) | None => Panic end
                    else Ok (h_cold h)) in
      let* h := maybeCompact (mkHtable t recs (h_slab h) (ztake last vec) (h_free h ++ [ord])
                                (if is_cold r then h_dead h else h_dead h + r_mlen r) (h_streams h) cold) in
      Ok (h, true)
  end.

(** The enumeration in draw-vector order, as the list of members it visits. *)
Fixpoint each_from (h : htable C) (vec : list Z) : P (list bytes) :=
  match vec with
  | [] => Ok []
  | ord :: vec' =>
      let* r := at_ix (h_recs h) ord in
      let* m := bytesOf h r in
      let* ms := each_from h vec' in
      Ok (m :: ms)
  end.
Definition each (h : htable C) : P (list bytes) := each_from h (h_vec h).

Definition at_member (h : htable C) (i : Z) : P bytes :=
  let* ord := at_ix (h_vec h) i in
  let* r := at_ix (h_recs h) ord in
  bytesOf h r.

Definition vlen (h : htable C) : Z := zlen (h_vec h).
Definition ordAt (h : htable C) (i : Z) : P Z := at_ix (h_vec h) i.
Definition memberByOrd (h : htable C) (ord : Z) : P bytes :=
  let* r := at_ix (h_recs h) ord in bytesOf h r.
Definition mlenByOrd (h : htable C) (ord : Z) : P Z :=
  let* r := at_ix (h_recs h) ord in Ok (r_mlen r).

Definition with_streams (h : htable C) (n : Z) : htable C :=
  mkHtable (h_tbl h) (h_recs h) (h_slab h) (h_vec h) (h_free h) (h_dead h) n (h_cold h).
Definition pinStream (h : htable C) : htable C := with_streams h (h_streams h + 1).
Definition unpinStream (h : htable C) : htable C := with_streams h (h_streams h - 1).

(** ** The record layer's invariant *)

Definition in_slab (slab : bytes) (r : record) : Prop :=
  is_cold r = false /\ 0 <= r_loc r /\ 0 <= r_mlen r /\ r_loc r + r_mlen r <= zlen slab.

Definition rec_at (h : htable C) (o : Z) : option record := if o <? 0 then None else h_recs h !! Z.to_nat o.

Definition h_valid (h : htable C) (o : Z) : Prop :=
  exists r, rec_at h o = Some r /\ in_slab (h_slab h) r /\ zlen (h_slab h) < two32.

Definition h_member (h : htable C) (o : Z) : bytes :=
  match rec_at h o with Some r => sl (h_slab h) (r_loc r) (r_mlen r) | None => [] end.

Definition live_bytes (h : htable C) (vec : list Z) : Z :=
  foldr (fun o n => match rec_at h o with Some r => r_mlen r + n | None => n end) 0 vec.

Lemma in_slab_mono slab slab' r : in_slab slab r -> zlen slab <= zlen slab' -> in_slab slab' r.
Proof. intros (? & ? & ? & ?) ?. split; [done|lia]. Qed.

Lemma at_ix_ok {A} (l : list A) i x : l !! i = Some x -> at_ix l (Z.of_nat i) = Ok x.
Proof. intros Hi. unfold at_ix. destruct (Z.ltb_spec (Z.of_nat i) 0); [lia|]. by rewrite Nat2Z.id, Hi. Qed.

Lemma set_ix_ok {A} (l : list A) i x : (i < length l)%nat -> set_ix l (Z.of_nat i) x = Ok (<[i := x]> l).
Proof.
  intros Hi. destruct (lookup_lt_is_Some_2 l i Hi) as [y Hy]. unfold set_ix. by rewrite (at_ix_ok _ _ _ Hy), Nat2Z.id.
Qed.

Lemma rec_at_ix h o r : rec_at h o = Some r -> at_ix (h_recs h) o = Ok r /\ o = Z.of_nat (Z.to_nat o) /\ (Z.to_nat o < length (h_recs h))%nat.
Proof.
  unfold rec_at, at_ix. destruct (Z.ltb_spec o 0); [done|]. intros Hr. rewrite Hr. split_and!; [done|lia|].
  by eapply lookup_lt_Some.
Qed.

Lemma set_ix_rec h o r0 r : rec_at h o = Some r0 -> set_ix (h_recs h) o r = Ok (<[Z.to_nat o := r]> (h_recs h)).
Proof. intros Hr. unfold set_ix. by destruct (rec_at_ix _ _ _ Hr) as [-> _]. Qed.

Lemma slab_slice_ok slab r : in_slab slab r -> zlen slab < two32 ->
  slab_slice slab r = Ok (sl slab (r_loc r) (r_mlen r)).
Proof. intros (_ & ? & ? & ?) ?. unfold slab_slice, u32. rewrite Z.mod_small by lia. by apply slice_len. Qed.

Lemma bytesOf_ok h r : in_slab (h_slab h) r -> zlen (h_slab h) < two32 ->
  bytesOf h r = Ok (sl (h_slab h) (r_loc r) (r_mlen r)).
Proof. intros Hin ?. unfold bytesOf. rewrite (proj1 Hin). by apply slab_slice_ok. Qed.

Lemma memberByOrd_ok h o : h_valid h o -> memberByOrd h o = Ok (h_member h o).
Proof.
  intros (r & Hr & Hin & Hs). unfold memberByOrd, h_member. destruct (rec_at_ix _ _ _ Hr) as [-> _].
  rewrite Hr. by apply bytesOf_ok.
Qed.

(** The record slab pins the promises the member table relies on. *)
#[global] Program Instance htable_laws : MemberSetLaws (htable C) :=
  { member := h_member; hash := Hash; valid := h_valid }.
Next Obligation.
  intros h o k (r & Hr & Hin & Hs). cbn. unfold htable_Match, h_member. destruct (rec_at_ix _ _ _ Hr) as [-> _].
  by rewrite Hr, (proj1 Hin), slab_slice_ok.
Qed.
Next Obligation.
  intros h o (r & Hr & Hin & Hs). cbn. unfold htable_Rehash, h_member. destruct (rec_at_ix _ _ _ Hr) as [-> _].
  by rewrite Hr, (proj1 Hin), slab_slice_ok.
Qed.

Record recs_inv (h : htable C) : Prop := {
  ri_vec i o : h_vec h !! i = Some o ->
    exists r, rec_at h o = Some r /\ r_vslot r = Z.of_nat i /\ in_slab (h_slab h) r;
  ri_free o : o ∈ h_free h -> is_Some (rec_at h o);
  ri_nodup : NoDup (h_free h ++ h_vec h);
  ri_total : zlen (h_vec h) + zlen (h_free h) = zlen (h_recs h);
  ri_dead : 0 <= h_dead h /\ zlen (h_slab h) = h_dead h + live_bytes h (h_vec h);
  ri_sizes : zlen (h_slab h) < two32 /\ zlen (h_recs h) < two32;
  ri_streams : 0 <= h_streams h
}.

(** The invariant of a native set, and the set it stands for. *)
Record hinv (h : htable C) (k : Z) : Prop := {
  hi_tbl : table_inv h (h_tbl h) k;
  hi_vec : contents (h_tbl h) ≡ₚ h_vec h;
  hi_recs : recs_inv h
}.

Definition elems (h : htable C) : gset bytes := list_to_set (h_member h <$> h_vec h).

Lemma recs_vec_valid h : recs_inv h -> Forall (h_valid h) (h_vec h).
Proof.
  intros Hi. apply Forall_forall. intros o Ho. apply list_elem_of_lookup in Ho as [i Ho].
  destruct (ri_vec _ Hi i o Ho) as (r & Hr & _ & Hin). exists r. split_and!; [done|done|apply Hi].
Qed.

(** *** A table change leaves the record layer alone *)

Lemma with_tbl_recs h t : recs_inv h -> recs_inv (with_tbl h t).
Proof. by intros [? ? ? ? ? ? ?]. Qed.

Lemma table_inv_same h h' t k :
  h_recs h' = h_recs h -> h_slab h' = h_slab h -> table_inv h t k -> table_inv h' t k.
Proof.
  intros Hr Hs Hi. apply (inv_store h); [done|]. pose proof (contents_valid _ _ _ Hi) as Hv.
  eapply Forall_impl; [exact Hv|]. intros o Ho. change (h_valid h' o /\ h_member h' o = h_member h o).
  change (h_valid h o) in Ho. unfold h_valid, h_member, rec_at in *. by rewrite Hr, Hs.
Qed.

(** *** Live bytes *)

Lemma live_bytes_perm h v v' : v ≡ₚ v' -> live_bytes h v = live_bytes h v'.
Proof.
  unfold live_bytes. induction 1 as [|o v v' _ IH|a b v|v v' v'' _ IH _ IH']; cbn; [done|by rewrite IH| |congruence].
  destruct (rec_at h a), (rec_at h b); lia.
Qed.

Lemma live_bytes_ext h h' v :
  (forall o, o ∈ v -> r_mlen <$> rec_at h' o = r_mlen <$> rec_at h o) -> live_bytes h' v = live_bytes h v.
Proof.
  unfold live_bytes. induction v as [|o v IH]; intros He; [done|]. cbn.
  rewrite IH by (intros; apply He; by right). specialize (He o ltac:(left)).
  destruct (rec_at h' o), (rec_at h o); cbn in He; simplify_eq; try done; lia.
Qed.

Lemma live_bytes_nonneg h v : Forall (h_valid h) v -> 0 <= live_bytes h v.
Proof.
  unfold live_bytes. induction 1 as [|o v (r & Hr & (_ & _ & ? & _) & _) _ IH]; cbn; [lia|]. rewrite Hr. lia.
Qed.

(** *** newRecord *)

Lemma rec_at_app h o r rs : rec_at h o = Some r -> (h_recs h ++ rs) !! Z.to_nat o = Some r.
Proof. unfold rec_at. destruct (Z.ltb_spec o 0); [done|]. intros Hr. by apply lookup_app_l_Some. Qed.

Lemma rec_at_lt h o r : rec_at h o = Some r -> 0 <= o < zlen (h_recs h).
Proof. intros Hr. destruct (rec_at_ix _ _ _ Hr) as (_ & ? & ?). unfold zlen. lia. Qed.

(** What both branches of [newRecord] do: a fresh ordinal's record is written and the
    other live records keep theirs; under a pinned stream every record does. *)
Record fresh_record (h : htable C) (m : bytes) (h' : htable C) (ord : Z) : Prop := {
  fr_tbl : h_tbl h' = h_tbl h;
  fr_slab : h_slab h' = h_slab h ++ m;
  fr_vec : h_vec h' = h_vec h ++ [ord];
  fr_dead : h_dead h' = h_dead h;
  fr_streams : h_streams h' = h_streams h;
  fr_new : ord ∉ h_vec h;
  fr_rec : rec_at h' ord = Some (mkRecord (u32 (zlen (h_slab h))) (u32 (zlen (h_vec h))) (zlen m mod two16) 0);
  fr_others o r : o <> ord -> rec_at h o = Some r -> rec_at h' o = Some r;
  fr_nodup : NoDup (h_free h' ++ h_vec h');
  fr_free o : o ∈ h_free h' -> o ∈ h_free h /\ o <> ord;
  fr_total : zlen (h_vec h') + zlen (h_free h') = zlen (h_recs h');
  fr_size : zlen (h_recs h') <= zlen (h_recs h) + 1;
  fr_pinned : 0 < h_streams h -> forall o r, rec_at h o = Some r -> rec_at h' o = Some r
}.

Lemma newRecord_append h m : recs_inv h -> zlen (h_recs h) + 1 < two32 ->
  let ord := u32 (zlen (h_recs h)) in
  fresh_record h m
    (mkHtable (h_tbl h) (h_recs h ++ [mkRecord (u32 (zlen (h_slab h))) (u32 (zlen (h_vec h))) (zlen m mod two16) 0])
       (h_slab h ++ m) (h_vec h ++ [ord]) (h_free h) (h_dead h) (h_streams h) (h_cold h)) ord.
Proof.
  intros Hi Hsz. cbv zeta. pose proof (zlen_nonneg (h_recs h)).
  assert (u32 (zlen (h_recs h)) = zlen (h_recs h)) as -> by (unfold u32; rewrite Z.mod_small; lia).
  assert (Hne : forall o, is_Some (rec_at h o) -> o <> zlen (h_recs h)).
  { intros o [r Hr]. apply rec_at_lt in Hr. lia. }
  assert (Hv : forall o, o ∈ h_vec h -> o <> zlen (h_recs h)).
  { intros o Ho. apply Hne. apply list_elem_of_lookup in Ho as [i Ho]. by destruct (ri_vec _ Hi i o Ho) as (r & -> & _). }
  assert (Hold : forall o r, rec_at h o = Some r -> rec_at (mkHtable (h_tbl h)
      (h_recs h ++ [mkRecord (u32 (zlen (h_slab h))) (u32 (zlen (h_vec h))) (zlen m mod two16) 0])
       (h_slab h ++ m) (h_vec h ++ [zlen (h_recs h)]) (h_free h) (h_dead h) (h_streams h) (h_cold h)) o = Some r).
  { intros o r Hr. pose proof (rec_at_lt _ _ _ Hr). unfold rec_at at 1. cbn. destruct (Z.ltb_spec o 0); [lia|].
    by apply rec_at_app. }
  split; cbn [h_tbl h_slab h_vec h_dead h_streams h_free h_recs]; try done.
  - intros Hin. by apply Hv in Hin.
  - unfold rec_at. cbn. destruct (Z.ltb_spec (zlen (h_recs h)) 0); [lia|]. unfold zlen at 1. rewrite Nat2Z.id. by rewrite list_lookup_middle.
  - intros o r _. apply Hold.
  - rewrite (assoc_L (++)). apply NoDup_app. split_and!; [apply Hi| |apply NoDup_singleton].
    intros o Ho ->%list_elem_of_singleton. apply elem_of_app in Ho as [Ho|Ho].
    + by apply (Hne _ (ri_free _ Hi _ Ho)).
    + by apply (Hv _ Ho).
  - intros o Ho. split; [done|]. apply Hne. by apply (ri_free _ Hi).
  - rewrite !zlen_app. pose proof (ri_total _ Hi). change (zlen [zlen (h_recs h)]) with 1. change (zlen [_]) with 1. lia.
  - rewrite zlen_app. change (zlen [_]) with 1. lia.
Qed.

Lemma newRecord_reuse h m fr ord : recs_inv h -> h_free h = fr ++ [ord] -> h_streams h = 0 ->
  fresh_record h m
    (mkHtable (h_tbl h) (<[Z.to_nat ord := mkRecord (u32 (zlen (h_slab h))) (u32 (zlen (h_vec h))) (zlen m mod two16) 0]> (h_recs h))
       (h_slab h ++ m) (h_vec h ++ [ord]) fr (h_dead h) (h_streams h) (h_cold h)) ord.
Proof.
  intros Hi Efr Hs. pose proof (ri_nodup _ Hi) as Hnd. destruct (ri_free _ Hi ord) as [r0 Hr0]; [rewrite Efr; set_solver|].
  pose proof (ri_total _ Hi) as Htot. rewrite Efr, zlen_app in Htot. change (zlen [ord]) with 1 in Htot.
  pose proof (rec_at_lt _ _ _ Hr0) as Hlt. rewrite Efr in Hnd.
  assert ((ord ∉ fr) /\ (ord ∉ h_vec h)) as [Hof Hov].
  { rewrite <- (assoc_L (++)) in Hnd. apply NoDup_app in Hnd as (_ & Hd & Hnd'). cbn in Hnd'.
    apply NoDup_cons in Hnd' as [? _]. split; [|done]. intros Hin. apply (Hd _ Hin). left. }
  split; cbn [h_tbl h_slab h_vec h_dead h_streams h_free h_recs]; try done.
  - unfold rec_at. cbn. destruct (Z.ltb_spec ord 0); [lia|]. rewrite list_lookup_insert_eq; [done|]. unfold zlen in Hlt. lia.
  - intros o r' Hne Hr'. pose proof (rec_at_lt _ _ _ Hr') as Ho. unfold rec_at in *. cbn in *.
    destruct (Z.ltb_spec o 0); [lia|]. rewrite list_lookup_insert_ne by lia. done.
  - by rewrite (Permutation_app_comm (h_vec h)), (assoc_L (++)).
  - intros o Ho. split; [rewrite Efr; set_solver|by intros ->].
  - rewrite zlen_app. change (zlen [ord]) with 1. unfold zlen in *. rewrite length_insert. lia.
  - unfold zlen. rewrite length_insert. lia.
  - rewrite Hs. lia.
Qed.

Lemma newRecord_fresh h m : recs_inv h -> zlen (h_recs h) + 1 < two32 ->
  exists h' ord, newRecord h m = Ok (h', ord) /\ fresh_record h m h' ord.
Proof.
  intros Hi Hsz. unfold newRecord.
  destruct (Z.ltb_spec 0 (zlen (h_free h))) as [Hf|Hf]; cbn [andb];
    [destruct (Z.eqb_spec (h_streams h) 0) as [Hs|Hs]|].
  2, 3: do 2 eexists; (split; [reflexivity|by apply newRecord_append]).
  destruct (exists_last (l := h_free h)) as (fr & ord & Efr); [intros E; by rewrite E in Hf|].
  destruct (ri_free _ Hi ord) as [r0 Hr0]; [rewrite Efr; set_solver|].
  assert (zlen (h_free h) - 1 = Z.of_nat (length fr)) as ->
    by (rewrite Efr, zlen_app; change (zlen [ord]) with 1; unfold zlen; lia).
  rewrite (at_ix_ok _ _ ord) by (by rewrite Efr, list_lookup_middle).
  rewrite (set_ix_rec _ _ r0) by done.
  do 2 eexists. split; [reflexivity|]. rewrite ztake_take, Nat2Z.id. replace (take (length fr) (h_free h)) with fr by (by rewrite Efr, take_app_length).
  by apply newRecord_reuse.
Qed.

(** Seating a member within the size limits pins the record layer, and every live
    ordinal pins its bytes. *)
Lemma newRecord_ok h m : recs_inv h -> zlen m < two16 -> zlen (h_slab h) + zlen m < two32 ->
  zlen (h_recs h) + 1 < two32 ->
  exists h' ord, newRecord h m = Ok (h', ord) /\ fresh_record h m h' ord /\ recs_inv h'
    /\ h_valid h' ord /\ h_member h' ord = m
    /\ Forall (fun o => h_valid h' o /\ h_member h' o = h_member h o) (h_vec h).
Proof.
  intros Hi Hm Hs Hr. destruct (newRecord_fresh h m Hi Hr) as (h' & ord & E & Hf). exists h', ord.
  pose proof (zlen_nonneg m). pose proof (zlen_nonneg (h_slab h)). pose proof (zlen_nonneg (h_vec h)).
  pose proof (ri_total _ Hi). pose proof (zlen_nonneg (h_free h)).
  pose proof (fr_rec _ _ _ _ Hf) as Hrec. unfold u32 in Hrec. rewrite !Z.mod_small in Hrec by lia.
  assert (Hsl : zlen (h_slab h') = zlen (h_slab h) + zlen m) by (by rewrite (fr_slab _ _ _ _ Hf), zlen_app).
  assert (Hold : forall i o, h_vec h !! i = Some o -> exists r, rec_at h o = Some r /\ rec_at h' o = Some r
    /\ r_vslot r = Z.of_nat i /\ in_slab (h_slab h) r).
  { intros i o Ho. destruct (ri_vec _ Hi i o Ho) as (r & Hro & Hv & Hin). exists r. split_and!; try done.
    apply (fr_others _ _ _ _ Hf); [|done]. intros ->. apply (fr_new _ _ _ _ Hf). by eapply list_elem_of_lookup_2. }
  assert (Hself : in_slab (h_slab h') (mkRecord (zlen (h_slab h)) (zlen (h_vec h)) (zlen m) 0))
    by (unfold in_slab; cbn; split; [done|lia]).
  split_and!; [done|done| | | |].
  - split.
    + intros i o. rewrite (fr_vec _ _ _ _ Hf). intros [Ho|[Hge Ho]]%lookup_app_Some.
      * destruct (Hold i o Ho) as (r & _ & Hr' & Hv & Hin). exists r. split_and!; [done|done|].
        eapply in_slab_mono; [done|lia].
      * apply list_lookup_singleton_Some in Ho as [Hi0 <-]. eexists. split_and!; [exact Hrec| |exact Hself].
        cbn. unfold zlen. lia.
    + intros o Ho. destruct (fr_free _ _ _ _ Hf o Ho) as [Ho' Hne]. destruct (ri_free _ Hi o Ho') as [r Hr'].
      rewrite (fr_others _ _ _ _ Hf o r Hne Hr'). done.
    + apply Hf.
    + apply Hf.
    + rewrite (fr_dead _ _ _ _ Hf), Hsl. destruct (ri_dead _ Hi) as [? Hd]. split; [done|].
      rewrite (fr_vec _ _ _ _ Hf), (live_bytes_perm _ (h_vec h ++ [ord]) (ord :: h_vec h)) by (symmetry; apply Permutation_cons_append).
      unfold live_bytes at 1. cbn [foldr]. rewrite Hrec. cbn [r_mlen]. fold (live_bytes h' (h_vec h)).
      rewrite (live_bytes_ext h); [lia|]. intros o Ho. apply list_elem_of_lookup in Ho as [i Ho].
      by destruct (Hold i o Ho) as (r & -> & -> & _).
    + rewrite Hsl. pose proof (fr_size _ _ _ _ Hf). lia.
    + rewrite (fr_streams _ _ _ _ Hf). apply Hi.
  - eexists. split_and!; [exact Hrec|exact Hself|lia].
  - unfold h_member. rewrite Hrec. cbn. rewrite (fr_slab _ _ _ _ Hf). by apply sl_end.
  - apply Forall_forall. intros o Ho. apply list_elem_of_lookup in Ho as [i Ho].
    destruct (Hold i o Ho) as (r & Hr1 & Hr2 & _ & Hin). split.
    + exists r. split_and!; [done|eapply in_slab_mono; [done|lia]|lia].
    + unfold h_member. rewrite Hr1, Hr2, (fr_slab _ _ _ _ Hf). destruct Hin as (_ & ? & ? & ?). by apply sl_app_l.
Qed.

(** *** The abstract set *)

Lemma contents_elems h k m : hinv h k -> m ∈ h_member h <$> contents (h_tbl h) <-> m ∈ elems h.
Proof. intros Hi. unfold elems. rewrite elem_of_list_to_set. by rewrite (hi_vec _ _ Hi). Qed.

Lemma elems_ext h h' : h_vec h' = h_vec h -> Forall (fun o => h_member h' o = h_member h o) (h_vec h) -> elems h' = elems h.
Proof.
  intros Hv Hf. unfold elems. rewrite Hv. f_equal. apply list_fmap_ext. intros i o Ho.
  rewrite Forall_forall in Hf. apply Hf. by eapply list_elem_of_lookup_2.
Qed.

Lemma has_ok h k m : hinv h k -> has h m = Ok (bool_decide (m ∈ elems h)).
Proof.
  intros Hi. destruct (Find_spec h (h_tbl h) k m (hi_tbl _ _ Hi)) as (r & Hr & Hs). unfold has.
  change (Hash m) with (hash m). rewrite Hr. f_equal. apply bool_decide_ext.
  rewrite <- (contents_elems h k m Hi). destruct r as [o|].
  - destruct Hs as [Ho <-]. split; [intros _|by eexists]. by apply list_elem_of_fmap_2.
  - split; [by intros []|]. intros Hin. by exfalso.
Qed.

Lemma card_ok h k : hinv h k -> card h = Z.of_nat (size (elems h)).
Proof.
  intros Hi. unfold card, Table_Len, elems. rewrite (ti_count _ _ _ (hi_tbl _ _ Hi)).
  rewrite size_list_to_set.
  - rewrite length_fmap, <- (Permutation_length (hi_vec _ _ Hi)). done.
  - pose proof (ti_nodup _ _ _ (hi_tbl _ _ Hi)) as Hn. by rewrite (hi_vec _ _ Hi) in Hn.
Qed.

Lemma add_ok h k m : hinv h k -> zlen m < two16 -> zlen (h_slab h) + zlen m < two32 ->
  zlen (h_recs h) + 1 <= 469762048 ->
  exists h' k', add h m = Ok (h', bool_decide (m ∉ elems h)) /\ hinv h' k' /\ elems h' = {[m]} ∪ elems h
    /\ zlen (h_slab h') <= zlen (h_slab h) + zlen m /\ zlen (h_recs h') <= zlen (h_recs h) + 1
    /\ h_streams h' = h_streams h.
Proof.
  intros Hi Hm Hs Hr. pose proof (zlen_nonneg m). unfold add. change (Hash m) with (hash m).
  destruct (Find_spec h (h_tbl h) k m (hi_tbl _ _ Hi)) as (r & -> & Hf). destruct r as [o|].
  { destruct Hf as [Ho Em]. assert (m ∈ elems h).
    { apply (contents_elems h k); [done|]. rewrite <- Em. by apply list_elem_of_fmap_2. }
    pose proof (contents_valid _ _ _ (hi_tbl _ _ Hi)) as Hval. rewrite Forall_forall in Hval.
    destruct (Hval o Ho) as (r & Hro & (Hhot & _) & _). destruct (rec_at_ix _ _ _ Hro) as [-> _]. rewrite Hhot.
    exists h, k. rewrite bool_decide_eq_false_2 by tauto. split_and!; [done|done|set_solver|lia|lia|done]. }
  assert (Hnew : m ∉ elems h) by (intros Hin; by apply Hf, (contents_elems h k)).
  rewrite bool_decide_eq_true_2 by done. pose proof (hi_recs _ _ Hi) as Hri.
  destruct (newRecord_ok h m) as (h1 & ord & -> & Hfr & Hr1 & Hv & Hme & Hall); [done|done|done|lia|].
  assert (Ht1 : table_inv h1 (h_tbl h1) k).
  { rewrite (fr_tbl _ _ _ _ Hfr). apply (inv_store h); [apply Hi|]. by rewrite (hi_vec _ _ Hi). }
  pose proof (ri_total _ Hri). pose proof (zlen_nonneg (h_free h)).
  assert (Hmem1 : h_member h1 <$> contents (h_tbl h1) ≡ₚ h_member h <$> h_vec h).
  { rewrite (fr_tbl _ _ _ _ Hfr), (hi_vec _ _ Hi). apply Permutation_refl', list_fmap_ext. intros i o Ho.
    rewrite Forall_forall in Hall. apply Hall. by eapply list_elem_of_lookup_2. }
  destruct (Insert_ok h1 (h_tbl h1) k ord Ht1 Hv) as (t' & k' & Hins & Ht' & Hp & _).
  { change (h_member h1 ord ∉ h_member h1 <$> contents (h_tbl h1)). rewrite Hme, Hmem1.
    intros Hin. apply Hnew. unfold elems. by apply elem_of_list_to_set. }
  { rewrite (ti_count _ _ _ Ht1), (fr_tbl _ _ _ _ Hfr). unfold zlen at 1. rewrite (hi_vec _ _ Hi). fold (zlen (h_vec h)). lia. }
  change (member h1 ord) with (h_member h1 ord) in Hins. rewrite Hme in Hins. rewrite Hins.
  exists (with_tbl h1 t'), k'. pose proof (fr_size _ _ _ _ Hfr). split_and!; [done| | |..].
  - split.
    + by apply (table_inv_same h1).
    + cbn. rewrite Hp, (fr_tbl _ _ _ _ Hfr), (hi_vec _ _ Hi), (fr_vec _ _ _ _ Hfr). apply Permutation_cons_append.
    + by apply with_tbl_recs.
  - unfold elems. cbn [with_tbl h_vec]. change (h_member (with_tbl h1 t')) with (h_member h1).
    rewrite (fr_vec _ _ _ _ Hfr), fmap_app, list_to_set_app_L. cbn. rewrite Hme.
    assert (h_member h1 <$> h_vec h = h_member h <$> h_vec h) as ->; [|set_solver].
    apply list_fmap_ext. intros i o Ho. rewrite Forall_forall in Hall. apply Hall. by eapply list_elem_of_lookup_2.
  - cbn. rewrite (fr_slab _ _ _ _ Hfr), zlen_app. lia.
  - cbn. lia.
  - apply Hfr.
Qed.

(** The bulk insert is the command's insert on a resident set. *)
Lemma addRaw_add h k m : hinv h k -> addRaw h m = add h m.
Proof.
  intros Hi. unfold addRaw, add. change (Hash m) with (hash m).
  destruct (Find_spec h (h_tbl h) k m (hi_tbl _ _ Hi)) as (r & -> & Hf). destruct r as [o|]; [|done].
  destruct Hf as [Ho _]. pose proof (contents_valid _ _ _ (hi_tbl _ _ Hi)) as Hval. rewrite Forall_forall in Hval.
  destruct (Hval o Ho) as (r & Hro & (Hhot & _) & _). destruct (rec_at_ix _ _ _ Hro) as [-> _]. by rewrite Hhot.
Qed.

(** *** Compaction *)

Definition rec_in (recs : list record) (o : Z) : option record := if o <? 0 then None else recs !! Z.to_nat o.

Definition live_in (recs : list record) (vec : list Z) : Z :=
  foldr (fun o n => match rec_in recs o with Some r => r_mlen r + n | None => n end) 0 vec.

Lemma rec_in_ix recs o r : rec_in recs o = Some r -> at_ix recs o = Ok r /\ 0 <= o /\ (Z.to_nat o < length recs)%nat.
Proof.
  unfold rec_in, at_ix. destruct (Z.ltb_spec o 0); [done|]. intros Hr. rewrite Hr. split_and!; [done|done|].
  by eapply lookup_lt_Some.
Qed.

Lemma rec_in_set recs o o' r : 0 <= o -> (Z.to_nat o < length recs)%nat ->
  rec_in (<[Z.to_nat o := r]> recs) o' = if decide (o' = o) then Some r else rec_in recs o'.
Proof.
  intros Ho Hl. unfold rec_in. destruct (Z.ltb_spec o' 0); [by rewrite decide_False by lia|].
  destruct (decide (o' = o)) as [->|]; [by rewrite list_lookup_insert_eq|]. by rewrite list_lookup_insert_ne by lia.
Qed.

Lemma live_in_set recs o r vec : 0 <= o -> (Z.to_nat o < length recs)%nat -> o ∉ vec ->
  live_in (<[Z.to_nat o := r]> recs) vec = live_in recs vec.
Proof.
  intros Ho Hl. unfold live_in. induction vec as [|x vec IH]; intros Hn; [done|]. cbn.
  apply not_elem_of_cons in Hn as [Hne Hn]. rewrite IH by done. rewrite rec_in_set, decide_False by done. done.
Qed.

Lemma compact_loop_ok slab vec : forall packed recs,
  NoDup vec -> zlen slab < two32 -> zlen packed + live_in recs vec < two32 ->
  (forall o, o ∈ vec -> exists r, rec_in recs o = Some r /\ in_slab slab r) ->
  exists tail recs', compact_loop slab vec packed recs = Ok (packed ++ tail, recs')
    /\ zlen tail = live_in recs vec /\ length recs' = length recs
    /\ (forall o, o ∉ vec -> rec_in recs' o = rec_in recs o)
    /\ (forall o r, o ∈ vec -> rec_in recs o = Some r -> exists loc,
          rec_in recs' o = Some (mkRecord loc (r_vslot r) (r_mlen r) (r_band r)) /\ 0 <= loc
          /\ loc + r_mlen r <= zlen (packed ++ tail) /\ sl (packed ++ tail) loc (r_mlen r) = sl slab (r_loc r) (r_mlen r)).
Proof.
  induction vec as [|o vec IH]; intros packed recs Hnd Hs Hb Hok.
  { exists [], recs. rewrite app_nil_r. split_and!; try done. intros o r Ho. by apply elem_of_nil in Ho. }
  apply NoDup_cons in Hnd as [Hno Hnd]. destruct (Hok o) as (r & Hr & Hin); [left|].
  destruct (rec_in_ix _ _ _ Hr) as (Ha & Ho & Hl). cbn [compact_loop]. rewrite Ha. rewrite (slab_slice_ok _ _ Hin Hs).
  destruct Hin as (H0 & H1 & H2 & H3). rewrite H0.
  unfold set_ix. rewrite Ha. set (m := sl slab (r_loc r) (r_mlen r)). set (recs1 := <[Z.to_nat o := _]> recs).
  assert (Hlive : live_in recs (o :: vec) = r_mlen r + live_in recs vec) by (unfold live_in; cbn; by rewrite Hr).
  assert (Hm : zlen m = r_mlen r) by (unfold m; apply zlen_sl; lia).
  assert (Hlive1 : live_in recs1 vec = live_in recs vec) by (by apply live_in_set).
  destruct (IH (packed ++ m) recs1) as (tail & recs' & -> & Ht & Hlen & Hout & Hin); [done|done| | |].
  { rewrite zlen_app, Hm, Hlive1. lia. }
  { intros o' Ho'. destruct (Hok o') as (r' & Hr' & Hin'); [by right|]. exists r'. split; [|done].
    unfold recs1. rewrite rec_in_set, decide_False by (done || by intros ->). done. }
  exists (m ++ tail), recs'. rewrite (assoc_L (++)). split_and!.
  - done.
  - rewrite zlen_app, Hm, Ht, Hlive1. lia.
  - rewrite Hlen. unfold recs1. by rewrite length_insert.
  - intros o' Ho'. apply not_elem_of_cons in Ho' as [Hne Ho']. rewrite Hout by done.
    unfold recs1. by rewrite rec_in_set, decide_False by done.
  - intros o' r' Ho' Hr'. destruct (decide (o' = o)) as [->|Hne].
    + rewrite Hr in Hr'. injection Hr' as <-. rewrite Hout by done. exists (zlen packed).
      unfold recs1. rewrite rec_in_set, decide_True by done. pose proof (zlen_nonneg packed). pose proof (zlen_nonneg tail).
      assert (0 <= live_in recs1 vec) by (rewrite <- Ht; apply zlen_nonneg).
      unfold u32. rewrite Z.mod_small by lia. split_and!; [done|done| |].
      * rewrite !zlen_app. lia.
      * rewrite <- (assoc_L (++)). by apply sl_mid.
    + apply elem_of_cons in Ho' as [->|Ho']; [done|]. apply Hin; [done|].
      unfold recs1. by rewrite rec_in_set, decide_False by done.
Qed.

(** Compaction moves bytes, never members. *)
Lemma maybeCompact_ok h : recs_inv h ->
  exists h', maybeCompact h = Ok h' /\ recs_inv h' /\ h_tbl h' = h_tbl h /\ h_vec h' = h_vec h
    /\ h_streams h' = h_streams h /\ zlen (h_slab h') <= zlen (h_slab h) /\ zlen (h_recs h') = zlen (h_recs h)
    /\ (0 < h_streams h -> h' = h)
    /\ Forall (fun o => h_valid h' o /\ h_member h' o = h_member h o) (h_vec h).
Proof.
  intros Hi. unfold maybeCompact. pose proof (recs_vec_valid h Hi) as Hval.
  assert (Hsame : Forall (fun o => h_valid h o /\ h_member h o = h_member h o) (h_vec h))
    by (eapply Forall_impl; [exact Hval|done]).
  destruct (Z.ltb_spec 0 (h_streams h)) as [|Hst]; [exists h; by split_and!; try lia|].
  destruct ((h_dead h <=? zlen (h_slab h) / 2) || (h_dead h <? 4096)); [exists h; by split_and!; try lia|].
  destruct (ri_dead _ Hi) as [Hd0 Hd]. pose proof (live_bytes_nonneg h _ Hval). destruct (ri_sizes _ Hi).
  change (live_bytes h (h_vec h)) with (live_in (h_recs h) (h_vec h)) in *.
  destruct (Z.ltb_spec (zlen (h_slab h) - h_dead h) 0); [lia|].
  destruct (compact_loop_ok (h_slab h) (h_vec h) [] (h_recs h)) as (packed & recs & -> & Ht & Hlen & Hout & Hin).
  { pose proof (ri_nodup _ Hi) as Hn. by apply NoDup_app in Hn as (_ & _ & ?). }
  { done. }
  { change (zlen []) with 0. lia. }
  { intros o Ho. rewrite Forall_forall in Hval. destruct (Hval o Ho) as (r & Hr & ? & _). by exists r. }
  cbn [app] in *. eexists. split; [reflexivity|].
  assert (Hz : zlen recs = zlen (h_recs h)) by (unfold zlen; by rewrite Hlen).
  split_and!; cbn [h_tbl h_vec h_streams h_recs h_slab]; try done; try lia.
  - split; cbn [h_tbl h_vec h_free h_streams h_recs h_slab h_dead].
    + intros i o Ho. destruct (ri_vec _ Hi i o Ho) as (r & Hr & Hv & (? & _ & ? & _)).
      destruct (Hin o r) as (loc & Hr' & ? & ? & _); [by eapply list_elem_of_lookup_2|done|].
      eexists. split_and!; [exact Hr'|done|]. split; [done|cbn; lia].
    + intros o Ho. destruct (ri_free _ Hi o Ho) as [r Hr].
      assert (o ∉ h_vec h) as Hnv.
      { pose proof (ri_nodup _ Hi) as Hn. apply NoDup_app in Hn as (_ & Hd' & _). by apply Hd'. }
      change (rec_at _ o) with (rec_in recs o). rewrite Hout by done. by exists r.
    + apply Hi.
    + rewrite Hz. apply Hi.
    + split; [done|]. rewrite Ht, Z.add_0_l. symmetry. apply live_bytes_ext. intros o Ho.
      rewrite Forall_forall in Hval. destruct (Hval o Ho) as (r & Hr & _).
      destruct (Hin o r Ho Hr) as (loc & Hr' & _). change (r_mlen <$> rec_in recs o = r_mlen <$> rec_at h o).
      by rewrite Hr', Hr.
    + lia.
    + apply Hi.
  - apply Forall_forall. intros o Ho. rewrite Forall_forall in Hval. destruct (Hval o Ho) as (r & Hr & Hsl & _).
    destruct (Hin o r Ho Hr) as (loc & Hr' & ? & ? & Hs). destruct Hsl as (? & _ & ? & _). split.
    + eexists. split; [exact Hr'|]. split; [split; [done|cbn; lia]|cbn; lia].
    + unfold h_member. change (rec_at (mkHtable _ _ _ _ _ _ _ _) o) with (rec_in recs o). by rewrite Hr', Hr.
Qed.

(** *** Removal *)

(** [v[i] = v[last]; v = v[:last]] removes exactly the element at [i]. *)
Lemma swap_remove_perm (v : list Z) i x y l :
  v = l ++ [y] -> v !! i = Some x -> v ≡ₚ x :: take (length l) (<[i := y]> v).
Proof.
  intros -> Hi. assert (i < length l \/ i = length l)%nat as [Hlt| ->].
  { apply lookup_lt_Some in Hi. rewrite length_app in Hi. cbn in Hi. lia. }
  - rewrite lookup_app_l in Hi by done. rewrite insert_app_l by done.
    rewrite take_app_length' by (by rewrite length_insert).
    rewrite <- (take_drop_middle l i x) at 1 by done. rewrite insert_take_drop by done.
    rewrite <- (assoc_L (++)). cbn. rewrite <- (Permutation_middle (take i l)). constructor.
    apply Permutation_app_head. by rewrite <- Permutation_cons_append.
  - rewrite list_lookup_middle in Hi by done. injection Hi as ->.
    rewrite insert_app_r_alt, Nat.sub_diag by done. cbn. rewrite take_app_length. symmetry. apply Permutation_cons_append.
Qed.

Definition dropped (h : htable C) (t : Table) (ord : Z) (i : nat) (y : Z) (l : list Z) (ry ro : record) : htable C :=
  mkHtable t (<[Z.to_nat y := mkRecord (r_loc ry) (Z.of_nat i) (r_mlen ry) (r_band ry)]> (h_recs h)) (h_slab h)
    (take (length l) (<[i := y]> (h_vec h))) (h_free h ++ [ord]) (h_dead h + r_mlen ro) (h_streams h) (h_cold h).

(** The swap-remove and its bookkeeping, before compaction. *)
Lemma dropped_ok h t ord i y l ry ro :
  recs_inv h -> h_vec h = l ++ [y] -> h_vec h !! i = Some ord -> rec_at h y = Some ry -> rec_at h ord = Some ro ->
  let h' := dropped h t ord i y l ry ro in
  recs_inv h' /\ h_vec h ≡ₚ ord :: h_vec h'
  /\ (forall o, h_valid h o -> h_valid h' o /\ h_member h' o = h_member h o).
Proof.
  intros Hi Ev Hord Hry Hro. cbv zeta. pose proof (swap_remove_perm _ i ord y l Ev Hord) as Hp.
  set (h' := dropped h t ord i y l ry ro).
  destruct (rec_in_ix _ _ _ Hry) as (_ & Hy & Hly).
  assert (Hrec : forall o, rec_at h' o = if decide (o = y) then Some (mkRecord (r_loc ry) (Z.of_nat i) (r_mlen ry) (r_band ry)) else rec_at h o)
    by (intros o; by apply rec_in_set).
  assert (Hsome : forall o r, rec_at h o = Some r -> exists v, rec_at h' o = Some (mkRecord (r_loc r) v (r_mlen r) (r_band r))).
  { intros o r Hr. rewrite Hrec. destruct (decide (o = y)) as [->|]; [|exists (r_vslot r); by destruct r].
    rewrite Hry in Hr. injection Hr as ->. by eexists. }
  pose proof (ri_nodup _ Hi) as Hnd. assert (Hndv : NoDup (h_vec h)) by (by apply NoDup_app in Hnd as (_ & _ & ?)).
  split_and!; [|exact Hp|].
  - split.
    + intros j o Hj. cbn in Hj. apply lookup_take_Some in Hj as [Hj Hjl].
      destruct (decide (i = j)) as [<-|Hne].
      * rewrite list_lookup_insert_eq in Hj by (by eapply lookup_lt_Some). injection Hj as <-.
        rewrite Hrec, decide_True by done. eexists. split_and!; [done|done|].
        destruct (ri_vec _ Hi (length l) y) as (r & Hr & _ & Hin); [by rewrite Ev, list_lookup_middle|].
        rewrite Hry in Hr. by injection Hr as ->.
      * rewrite list_lookup_insert_ne in Hj by done. destruct (ri_vec _ Hi j o Hj) as (r & Hr & Hv & Hin).
        rewrite Hrec, decide_False; [by exists r|]. intros ->.
        assert (j = length l) as ->; [|lia]. eapply NoDup_lookup; [exact Hndv|done|]. by rewrite Ev, list_lookup_middle.
    + intros o Ho. cbn in Ho. apply elem_of_app in Ho as [Ho|Ho%list_elem_of_singleton].
      * destruct (ri_free _ Hi o Ho) as [r Hr]. destruct (Hsome o r Hr) as [v ->]. by eexists.
      * subst o. destruct (Hsome ord ro Hro) as [v ->]. by eexists.
    + cbn [h' dropped h_free h_vec]. rewrite <- (assoc_L (++)). cbn [app]. by rewrite Hp in Hnd.
    + cbn [h' dropped h_free h_vec h_recs]. pose proof (Permutation_length Hp) as Hl.
      cbn [length] in Hl. pose proof (ri_total _ Hi). unfold zlen in *. rewrite length_app, length_insert. cbn [length]. lia.
    + destruct (ri_dead _ Hi) as [H0 H1]. rewrite (live_bytes_perm _ _ _ Hp) in H1. unfold live_bytes in H1.
      cbn [foldr] in H1. rewrite Hro in H1. fold (live_bytes h (take (length l) (<[i:=y]> (h_vec h)))) in H1.
      destruct (ri_vec _ Hi i ord Hord) as (r & Hr & _ & (_ & _ & ? & _)). rewrite Hro in Hr. injection Hr as <-.
      cbn [h' dropped h_dead h_slab h_vec]. rewrite (live_bytes_ext h); [lia|]. intros o _.
      rewrite Hrec. destruct (decide (o = y)) as [->|]; [|done]. by rewrite Hry.
    + cbn. unfold zlen in *. rewrite length_insert. apply Hi.
    + apply Hi.
  - intros o (r & Hr & Hin & Hs). destruct (Hsome o r Hr) as [v Hv]. split.
    + eexists. split; [exact Hv|]. done.
    + unfold h_member. by rewrite Hv, Hr.
Qed.

Lemma rem_ok h k m : hinv h k ->
  exists h', rem h m = Ok (h', bool_decide (m ∈ elems h)) /\ hinv h' k /\ elems h' = elems h ∖ {[m]}
    /\ zlen (h_slab h') <= zlen (h_slab h) /\ zlen (h_recs h') = zlen (h_recs h) /\ h_streams h' = h_streams h.
Proof.
  intros Hi. unfold rem. change (Hash m) with (hash m).
  destruct (Delete_ok h (h_tbl h) k m (hi_tbl _ _ Hi)) as (t & d & -> & Ht & Hd). destruct d as [ord|].
  2: { destruct Hd as [-> Hnin]. assert (m ∉ elems h) by (intros Hin; by apply Hnin, (contents_elems h k)).
       exists h. rewrite bool_decide_eq_false_2 by done. split_and!; [done|done|set_solver|lia|done|done]. }
  destruct Hd as [Hp Hm]. pose proof (hi_recs _ _ Hi) as Hri.
  assert (Hin : ord ∈ h_vec h) by (rewrite <- (hi_vec _ _ Hi), Hp; left).
  assert (m ∈ elems h) by (apply (contents_elems h k); [done|]; rewrite <- Hm; apply list_elem_of_fmap_2; rewrite Hp; left).
  rewrite bool_decide_eq_true_2 by done.
  apply list_elem_of_lookup in Hin as [i Hord]. destruct (ri_vec _ Hri i ord Hord) as (ro & Hro & Hv & Hsl).
  destruct (exists_last (l := h_vec h)) as (l & y & Ev); [intros E; by rewrite E in Hord|].
  destruct (ri_vec _ Hri (length l) y) as (ry & Hry & _); [by rewrite Ev, list_lookup_middle|].
  destruct (rec_at_ix _ _ _ Hro) as [-> _].
  assert (zlen (h_vec h) - 1 = Z.of_nat (length l)) as -> by (rewrite Ev, zlen_app; change (zlen [y]) with 1; unfold zlen; lia).
  rewrite (at_ix_ok _ _ y) by (by rewrite Ev, list_lookup_middle).
  rewrite Hv, set_ix_ok by (by eapply lookup_lt_Some). destruct (rec_at_ix _ _ _ Hry) as [-> _].
  rewrite (set_ix_rec _ _ ry) by done. rewrite ztake_take, Nat2Z.id, (proj1 Hsl).
  destruct (dropped_ok h t ord i y l ry ro) as (Hri1 & Hp1 & Hall); [done..|].
  fold (dropped h t ord i y l ry ro). set (h1 := dropped h t ord i y l ry ro) in *.
  destruct (maybeCompact_ok h1 Hri1) as (h' & -> & Hri' & Et & Evec & Es & Hss & Hsr & _ & Hall').
  assert (Hc1 : contents t ≡ₚ h_vec h1).
  { apply (Permutation_cons_inv (a := ord)). rewrite <- Hp, (hi_vec _ _ Hi). exact Hp1. }
  assert (Hmem : forall o, o ∈ h_vec h1 -> h_valid h' o /\ h_member h' o = h_member h o).
  { intros o Ho. rewrite Forall_forall in Hall'. destruct (Hall' o Ho) as [? ->]. split; [done|]. apply Hall.
    pose proof (recs_vec_valid h Hri) as Hval. rewrite Forall_forall in Hval. apply Hval. rewrite Hp1. by right. }
  change (h_tbl h1) with t in Et. exists h'. split_and!; [done| | |exact Hss| |exact Es].
  - split; [|by rewrite Et, Evec|done]. rewrite Et. apply (inv_store h); [done|].
    apply Forall_forall. intros o Ho. rewrite Hc1 in Ho. by apply Hmem.
  - unfold elems. rewrite Evec, Hp1. cbn [fmap list_fmap list_to_set].
    assert (h_member h' <$> h_vec h1 = h_member h <$> h_vec h1) as ->.
    { apply list_fmap_ext. intros j o Ho. apply Hmem. by eapply list_elem_of_lookup_2. }
    change (member h ord) with (h_member h ord) in Hm. rewrite Hm.
    pose proof (ti_nodup _ _ _ (hi_tbl _ _ Hi)) as Hn. change (member h) with (h_member h) in Hn.
    rewrite (hi_vec _ _ Hi), Hp1 in Hn. cbn in Hn. rewrite Hm in Hn. apply NoDup_cons in Hn as [Hn _].
    set (X := h_member h <$> h_vec h1) in *. assert (m ∉ (list_to_set X : gset bytes)) by (by rewrite elem_of_list_to_set). set_solver.
  - rewrite Hsr. cbn. unfold zlen. by rewrite length_insert.
Qed.

(** ** Sequences of operations *)

Inductive sop := SAdd (m : bytes) | SRem (m : bytes) | SHas (m : bytes).

Definition sstep (h : htable C) (op : sop) : P (htable C * bool) :=
  match op with
  | SAdd m => add h m
  | SRem m => rem h m
  | SHas m => let* b := has h m in Ok (h, b)
  end.

Fixpoint srun (h : htable C) (ops : list sop) : P (htable C * list bool) :=
  match ops with
  | [] => Ok (h, [])
  | op :: ops' =>
      let* '(h1, b) := sstep h op in
      let* '(h2, bs) := srun h1 ops' in
      Ok (h2, b :: bs)
  end.

(** The mathematical set the operations are about. *)
Definition set_step (X : gset bytes) (op : sop) : gset bytes * bool :=
  match op with
  | SAdd m => ({[m]} ∪ X, bool_decide (m ∉ X))
  | SRem m => (X ∖ {[m]}, bool_decide (m ∈ X))
  | SHas m => (X, bool_decide (m ∈ X))
  end.

Fixpoint set_run (X : gset bytes) (ops : list sop) : gset bytes * list bool :=
  match ops with
  | [] => (X, [])
  | op :: ops' => let '(X1, b) := set_step X op in let '(X2, bs) := set_run X1 ops' in (X2, b :: bs)
  end.

(** The sizes the code assumes without checking: 16-bit member lengths, 32-bit slab
    offsets, and the member table's ceiling. *)
Definition op_fits (op : sop) : Prop := match op with SAdd m => zlen m < two16 | _ => True end.
Definition op_bytes (op : sop) : Z := match op with SAdd m => zlen m | _ => 0 end.
Definition op_recs (op : sop) : Z := match op with SAdd _ => 1 | _ => 0 end.

Definition room (h : htable C) (ops : list sop) : Prop :=
  Forall op_fits ops /\ zlen (h_slab h) + foldr (fun op n => op_bytes op + n) 0 ops < two32
  /\ zlen (h_recs h) + foldr (fun op n => op_recs op + n) 0 ops <= 469762048.

Lemma op_sums ops : 0 <= foldr (fun op n => op_bytes op + n) 0 ops /\ 0 <= foldr (fun op n => op_recs op + n) 0 ops.
Proof.
  induction ops as [|[m|m|m] ops IH]; cbn; try lia. pose proof (zlen_nonneg m). lia.
Qed.

Lemma sstep_ok h k op ops : hinv h k -> room h (op :: ops) ->
  exists h' k', sstep h op = Ok (h', (set_step (elems h) op).2) /\ hinv h' k' /\ elems h' = (set_step (elems h) op).1
    /\ room h' ops /\ h_streams h' = h_streams h.
Proof.
  intros Hi (Hf & Hb & Hr). apply Forall_cons in Hf as [Hop Hf]. cbn [foldr] in Hb, Hr. pose proof (op_sums ops).
  destruct op as [m|m|m]; cbn in *.
  - destruct (add_ok h k m Hi) as (h' & k' & -> & Hi' & He & Hs & Hn & Hst); [done|lia|lia|].
    exists h', k'. split_and!; try done. unfold room. split_and!; [done|lia|lia].
  - destruct (rem_ok h k m Hi) as (h' & -> & Hi' & He & Hs & Hn & Hst).
    exists h', k. split_and!; try done. unfold room. split_and!; [done|lia|lia].
  - rewrite (has_ok h k m Hi). exists h, k. split_and!; try done.
Qed.

Lemma srun_ok ops : forall h k, hinv h k -> room h ops ->
  exists h' k', srun h ops = Ok (h', (set_run (elems h) ops).2) /\ hinv h' k' /\ elems h' = (set_run (elems h) ops).1
    /\ h_streams h' = h_streams h.
Proof.
  induction ops as [|op ops IH]; intros h k Hi Hroom; [by exists h, k|].
  destruct (sstep_ok h k op ops Hi Hroom) as (h1 & k1 & E1 & Hi1 & He1 & Hr1 & Hs1). cbn [srun set_run]. rewrite E1.
  destruct (IH h1 k1 Hi1 Hr1) as (h2 & k2 & -> & Hi2 & He2 & Hs2). rewrite He1 in He2 |- *.
  destruct (set_step (elems h) op) as [X b]. cbn [fst snd] in *. destruct (set_run X ops) as [X2 bs].
  exists h2, k2. split_and!; try done. congruence.
Qed.

Lemma newHashtable_ok hint : 0 <= hint <= 469762048 ->
  exists h k, newHashtable hint = Ok h /\ hinv h k /\ elems h = ∅ /\ h_slab h = [] /\ h_recs h = [] /\ h_streams h = 0.
Proof.
  intros Hh. unfold newHashtable.
  destruct (MakeTable_ok (mkHtable (C := C) (init 8) [] [] [] [] 0 0 None) hint Hh) as (t & k & -> & Ht & Hc & _).
  eexists _, k. split; [reflexivity|]. split_and!; try done. split.
  - apply (table_inv_same (mkHtable (C := C) (init 8) [] [] [] [] 0 0 None)); done.
  - cbn. by rewrite Hc.
  - split; cbn; try done; try lia; [by intros o Ho%elem_of_nil|constructor].
Qed.

(** ** Enumeration *)

Lemma each_from_ok h vec : Forall (h_valid h) vec -> each_from h vec = Ok (h_member h <$> vec).
Proof.
  induction 1 as [|o vec Ho _ IH]; [done|]. cbn [each_from].
  apply memberByOrd_ok in Ho. unfold memberByOrd in Ho. destruct (at_ix (h_recs h) o) as [r| |]; try done.
  by rewrite Ho, IH.
Qed.

(** [each] visits every member once. *)
Lemma each_ok h k : hinv h k -> exists ms, each h = Ok ms /\ NoDup ms /\ list_to_set ms = elems h.
Proof.
  intros Hi. exists (h_member h <$> h_vec h). split_and!; [|..|done].
  - apply each_from_ok, recs_vec_valid, Hi.
  - pose proof (ti_nodup _ _ _ (hi_tbl _ _ Hi)) as Hn. by rewrite (hi_vec _ _ Hi) in Hn.
Qed.

#[local] Opaque loop.

(** ** Pinned streams

    While a stream is open, an operation moves no bytes and reuses no record, whatever
    it does to the set: every readable ordinal pins its bytes. *)

Lemma pinStream_inv h k : hinv h k -> hinv (pinStream h) k /\ 0 < h_streams (pinStream h) /\ elems (pinStream h) = elems h.
Proof.
  intros [Ht Hv Hr]. pose proof (ri_streams _ Hr). split_and!; [|cbn; lia|done]. split; [by apply (table_inv_same h)|done|].
  destruct Hr. split; cbn; try done. lia.
Qed.

Lemma unpinStream_inv h k : hinv h k -> 0 < h_streams h -> hinv (unpinStream h) k /\ elems (unpinStream h) = elems h.
Proof.
  intros [Ht Hv Hr] Hs. split_and!; [|done]. split; [by apply (table_inv_same h)|done|].
  destruct Hr. split; cbn; try done. lia.
Qed.

Definition pins (h h' : htable C) : Prop :=
  (exists tl, h_slab h' = h_slab h ++ tl) /\
  (forall o r, rec_at h o = Some r -> exists v, rec_at h' o = Some (mkRecord (r_loc r) v (r_mlen r) (r_band r))).

Lemma pins_refl h : pins h h.
Proof. split; [exists []; by rewrite app_nil_r|]. intros o r Hr. exists (r_vslot r). by destruct r. Qed.

Lemma pins_trans h1 h2 h3 : pins h1 h2 -> pins h2 h3 -> pins h1 h3.
Proof.
  intros [[t1 E1] H1] [[t2 E2] H2]. split.
  - exists (t1 ++ t2). by rewrite E2, E1, (assoc_L (++)).
  - intros o r Hr. destruct (H1 o r Hr) as [v Hv]. by destruct (H2 o _ Hv) as [w Hw]; exists w.
Qed.

Lemma pins_read h h' o : pins h h' -> h_valid h o -> zlen (h_slab h') < two32 -> memberByOrd h' o = memberByOrd h o.
Proof.
  intros [[tl E] Hk] Hv Hs. pose proof Hv as (r & Hr & Hin & _). destruct (Hk o r Hr) as [v Hr']. pose proof Hin as (_ & H1 & H2 & H3).
  rewrite (memberByOrd_ok h o Hv). pose proof (zlen_nonneg tl) as Ht. rewrite memberByOrd_ok.
  - unfold h_member. rewrite Hr, Hr', E. cbn. by rewrite sl_app_l.
  - eexists. split_and!; [exact Hr'| |done]. destruct Hin as [Hhot _]. split; [done|]. cbn. rewrite E, zlen_app. lia.
Qed.

Lemma add_pins h k m h' b : hinv h k -> 0 < h_streams h -> zlen m < two16 -> zlen (h_slab h) + zlen m < two32 ->
  zlen (h_recs h) + 1 < two32 -> add h m = Ok (h', b) -> pins h h'.
Proof.
  intros Hi Hst Hm Hs Hr. rewrite <- (addRaw_add h k m Hi). unfold addRaw.
  destruct (Find (h_tbl h) (Hash m) m h) as [[o|]|e|]; [intros [= <- _]; apply pins_refl| |done..].
  destruct (newRecord_ok h m) as (h1 & ord & -> & Hf & _); [apply Hi|done|done|done|].
  destruct (Insert (h_tbl h1) (Hash m) ord h1) as [t|e|]; [|done..]. intros [= <- _]. split.
  - exists m. apply Hf.
  - intros o r Hro. exists (r_vslot r). rewrite (fr_pinned _ _ _ _ Hf Hst o r Hro : rec_at (with_tbl h1 t) o = _). by destruct r.
Qed.

Lemma rem_pins h m h' b : 0 < h_streams h -> rem h m = Ok (h', b) -> pins h h'.
Proof.
  intros Hst. unfold rem. destruct (Delete _ _ _ _) as [[t [ord|]]|e|]; [|intros [= <- _]; apply pins_refl|done..].
  destruct (at_ix (h_recs h) ord) as [r|e|]; [|done..]. destruct (at_ix (h_vec h) _) as [y|e|]; [|done..].
  destruct (set_ix (h_vec h) _ _) as [vec|e|]; [|done..].
  destruct (at_ix (h_recs h) y) as [ry|e|] eqn:Ey; [|done..]. unfold set_ix. rewrite Ey.
  destruct (if is_cold r then _ else _) as [cold|e|]; [|done..].
  unfold maybeCompact. cbn [h_streams]. destruct (Z.ltb_spec 0 (h_streams h)); [|lia]. intros [= <- _].
  assert (rec_at h y = Some ry) as Hry.
  { unfold at_ix in Ey. unfold rec_at. destruct (y <? 0); [done|]. destruct (h_recs h !! Z.to_nat y); by simplify_eq. }
  split; [exists []; cbn; by rewrite app_nil_r|]. intros o r' Hr'.
  destruct (rec_in_ix _ _ _ Hry) as (_ & Hy0 & Hl). change (rec_at (mkHtable _ ?rs _ _ _ _ _ _) o) with (rec_in rs o).
  rewrite rec_in_set by done. destruct (decide (o = y)) as [->|].
  - rewrite Hry in Hr'. injection Hr' as ->. by eexists.
  - exists (r_vslot r'). change (rec_in (h_recs h) o) with (rec_at h o). rewrite Hr'. by destruct r'.
Qed.

Lemma sstep_pins h k op ops h' b : hinv h k -> room h (op :: ops) -> 0 < h_streams h -> sstep h op = Ok (h', b) -> pins h h'.
Proof.
  intros Hi (Hf & Hb & Hr) Hst. apply Forall_cons in Hf as [Hop _]. cbn [foldr] in Hb, Hr. pose proof (op_sums ops).
  destruct op as [m|m|m]; cbn [sstep op_fits op_bytes op_recs] in *.
  - apply (add_pins h k m); [done..|lia|lia].
  - by apply rem_pins.
  - destruct (has h m) as [b'| |]; [|done..]. intros [= <- _]. apply pins_refl.
Qed.

Lemma srun_pins ops : forall h k h' bs, hinv h k -> room h ops -> 0 < h_streams h -> srun h ops = Ok (h', bs) ->
  pins h h' /\ zlen (h_slab h') < two32.
Proof.
  induction ops as [|op ops IH]; intros h k h' bs Hi Hroom Hst.
  { intros [= <- _]. split; [apply pins_refl|]. destruct Hroom as (_ & Hb & _). cbn in Hb. lia. }
  destruct (sstep_ok h k op ops Hi Hroom) as (h1 & k1 & E1 & Hi1 & _ & Hr1 & Hs1).
  pose proof (sstep_pins _ _ _ _ _ _ Hi Hroom Hst E1) as Hk1. cbn [srun]. rewrite E1.
  destruct (srun h1 ops) as [[h2 bs2]|e|] eqn:E2; [|done..]. intros [= <- _]. rewrite <- Hs1 in Hst.
  destruct (IH h1 k1 h2 bs2 Hi1 Hr1 Hst E2) as [Hk2 Hs2]. split; [by eapply pins_trans|exact Hs2].
Qed.

(** ** A member longer than its length field

    [mlen] is 16 bits and nothing bounds a member, so a member of 65536 bytes or more
    is recorded with its length truncated: it is counted but never found again. *)

Lemma loop_now {S A} (body : S -> S + A) n s a : body s = inr a -> loop body n s = inr a.
Proof.
  intros Hb. rewrite loop_loopn. destruct (Pos.to_nat n) as [|x] eqn:E; [pose proof (Pos2Nat.is_pos n); lia|].
  cbn [loopn]. by rewrite Hb.
Qed.

Definition fresh : htable C := mkHtable (init 8) [] [] [] [] 0 0 None.

(** The fresh set after one record went in, its bytes shorter than the key. *)
Definition one_record (m : bytes) (r : record) (i : nat) (tag : Z) : htable C :=
  mkHtable (mkTable (<[i := tag]> (replicate 8 ctrlEmpty)) (<[i := 0]> (replicate 8 0)) 8 1 0)
    [r] m [0] [] 0 0 None.

Lemma one_record_geo m r i tag : is_full tag -> geometry (h_tbl (one_record m r i tag)) 0.
Proof.
  intros Ht. split; cbn [one_record h_tbl t_cap t_ctrl t_ords]; [unfold maxGroupBits; lia|done|..];
    try (unfold zlen; by rewrite length_insert, length_replicate).
  apply Forall_insert; [|by left]. by apply Forall_replicate; right; left.
Qed.

Lemma one_record_misses m r i tag key :
  is_full tag -> in_slab m r -> zlen m < two32 -> sl m (r_loc r) (r_mlen r) <> key ->
  has (one_record m r i tag) key = Ok false.
Proof.
  intros Ht Hin Hs Hne. set (h := one_record m r i tag). pose proof (one_record_geo m r i tag Ht) as Hg. fold h in Hg.
  assert (Hv : h_valid h 0) by (exists r; by split_and!).
  assert (Hm : member h 0 = sl m (r_loc r) (r_mlen r)) by done.
  assert (Hall : forall j o, t_ords (h_tbl h) !! j = Some o -> o = 0).
  { intros j o Ho. cbn [h one_record h_tbl t_ords] in Ho. apply list_lookup_insert_Some in Ho as [(_ & <- & _)|[_ Ho]]; [done|].
    by apply lookup_replicate in Ho as [-> _]. }
  assert (findSlot (h_tbl h) (Hash key) key h = Ok None) as Hf.
  { unfold findSlot. rewrite (geo_groups _ 0 Hg), (groupOf_probe (Hash key) 0 (ge_bits _ _ Hg)).
    rewrite (loop_now _ _ _ (Ok None)); [done|]. unfold find_body. cbn [fst].
    destruct (group_word_ok (h_tbl h) 0 (Hash key) 0 Hg) as [Hw Hb]. unfold home in Hw, Hb. rewrite Hw, Hb.
    destruct (geo_probe (h_tbl h) 0 (Hash key) 0 Hg) as (Hl & Hn & Hp). set (g := nth_group 0 (Hash key) 0) in *.
    assert (g = 0%nat) as Eg by (change (2 ^ 0) with 1 in Hp; lia).
    pose proof (grp_ok _ g (ge_ok _ _ Hg)) as Hok. pose proof (tagOf_full (Hash key)) as Htk.
    rewrite matchByte_flags by (done || (by apply grp_length) || (by apply ctrl_ok_u8) || (unfold is_full in Htk; lia)).
    set (fl := match_flags _ _ _).
    assert (Hfl : length fl = 8%nat) by (unfold fl; rewrite match_flags_length; by apply grp_length).
    destruct (scan_mask_spec (h_tbl h) h key g 8 fl) as [(j & o & _ & Ho & Hk & _)|[-> _]];
      [done|pose proof (flags_left_length fl); lia|by rewrite <- (geo_lengths _ 0 Hg)| | |].
    - intros j o _ Ho. by rewrite (Hall _ _ Ho).
    - rewrite (Hall _ _ Ho), Hm in Hk. done.
    - destruct (Z.eqb_spec (matchByte (word (grp (t_ctrl (h_tbl h)) g)) ctrlEmpty) 0) as [E|E]; [|done].
      exfalso. apply (empty_mask (h_tbl h) 0 g Hg Hl) in E. apply E, grp_elem. rewrite Eg.
      exists (if decide (i = 0) then 1 else 0)%nat. destruct (decide (i = 0%nat)) as [->|]; (split; [lia|]); cbn.
      + done.
      + by destruct i. }
  unfold has, Find. rewrite Hf. done.
Qed.

Lemma fresh_inv : hinv fresh 0.
Proof.
  split; [apply (init_inv fresh 0); unfold maxGroupBits; lia|change (contents (init 8) ≡ₚ []); by rewrite init_contents|].
  split; cbn; try done; try lia; [by intros o Ho%elem_of_nil|constructor].
Qed.

(** Adding any member to a fresh set reports a gain and stores one record. *)
Lemma fresh_add m : zlen m < two32 -> exists i tag, is_full tag
  /\ add fresh m = Ok (one_record m (mkRecord 0 0 (zlen m mod two16) 0) i tag, true).
Proof.
  intros Hm. unfold add. destruct (Find_spec fresh (h_tbl fresh) 0 m (hi_tbl _ _ fresh_inv)) as (f & Hf & Hs).
  change (hash m) with (Hash m) in Hf. rewrite Hf. destruct f as [o|].
  { destruct Hs as [Ho _]. change (h_tbl fresh) with (init 8) in Ho. by rewrite init_contents, elem_of_nil in Ho. }
  unfold newRecord. cbn [fresh h_free h_slab h_vec h_recs h_tbl h_streams h_dead].
  change (u32 (zlen (@nil byte))) with 0. change (u32 (zlen (@nil Z))) with 0. change (u32 (zlen (@nil record))) with 0.
  change (zlen (@nil Z)) with 0. cbn [app Z.ltb Z.compare andb].
  set (h1 := mkHtable _ _ _ _ _ _ _ _). unfold Insert. cbn [h_tbl h1].
  replace (maxLoad (init 8) <? u32 (u32 (t_count (init 8) + t_dead (init 8)) + 1)) with false by reflexivity.
  destruct (place_spec h1 (init 8) 0 (Hash m) 0) as (i & c & Hc & _ & _ & ->).
  { apply (init_inv h1 0). unfold maxGroupBits. lia. }
  apply lookup_replicate in Hc as [-> _]. exists i, (tagOf (Hash m)). split; [apply tagOf_full|]. done.
Qed.
End set.
