(* ===== verification/InlineList.v ===== *)
(** One key's list (engine/f3/list/list.go and ops.go): the packed inline blob, its byte
    budget, and the promotion to the native deque.

    The deque (native.go) is the interface [Deque] with its laws; every band-dispatching
    operation is proved to act on the list of elements, whichever band holds it. *)

From S2P Require Import Prelude Format Frames Device Decimal Resp.
#[local] Open Scope Z_scope.

#[local] Abbreviation P A := (res Empty_set A).

(** ** Sizes *)

Definition listpackBudget : Z := 8192.
Definition lpOverhead : Z := 5.

Definition backlenSize (entryLen : Z) : Z :=
  if entryLen <? 128 then 1 else if entryLen <? 16384 then 2
  else if entryLen <? 2097152 then 3 else if entryLen <? 268435456 then 4 else 5.

Definition lpIntEncodingSize (v : Z) : Z :=
  if (0 <=? v) && (v <=? 127) then 1
  else if (-4096 <=? v) && (v <=? 4095) then 2
  else if (-32768 <=? v) && (v <=? 32767) then 3
  else if (-8388608 <=? v) && (v <=? 8388607) then 4
  else if (-2147483648 <=? v) && (v <=? 2147483647) then 5 else 9.

Definition lpEntrySize (v : bytes) : Z :=
  match ParseInt v with
  | Some iv => let enc := lpIntEncodingSize iv in enc + backlenSize enc
  | None =>
      let n := zlen v in
      let hdr := if n <? 64 then 1 else if n <? 4096 then 2 else 5 in
      let sz := hdr + n in sz + backlenSize sz
  end.

(** [for x >= 0x80 { x >>= 7; n++ }]: at most ten bytes for a uint64. *)
Fixpoint uvarintLen_loop (fuel : nat) (x n : Z) : Z :=
  match fuel with
  | O => n
  | S fuel' => if 128 <=? x then uvarintLen_loop fuel' (Z.shiftr x 7) (n + 1) else n
  end.
Definition uvarintLen (x : Z) : Z := uvarintLen_loop 10 x 1.
Definition frameLen (vlen : Z) : Z := uvarintLen vlen + vlen.

Definition blobCap (elems : list bytes) : Z := foldl (fun total v => total + frameLen (zlen v)) 0 elems.

(** ** The native deque's interface *)

Class Deque (N : Type) := {
  dq_new : N;
  dq_count : N -> Z;
  dq_pushBack : N -> bytes -> P N;
  dq_pushFront : N -> bytes -> P N;
  dq_popFront : N -> P (N * bytes);
  dq_popBack : N -> P (N * bytes);
  dq_at : N -> Z -> P (N * bytes);
  dq_rangeInto : (bytes -> bytes -> bytes) -> N -> bytes -> Z -> Z -> P (N * bytes);
  dq_setAt : N -> Z -> bytes -> P N;
  dq_insert : N -> bool -> bytes -> bytes -> P (N * bool);
  dq_remove : N -> Z -> bytes -> P (N * Z);
  dq_trim : N -> Z -> Z -> P N;
  dq_lpos : N -> bytes -> Z -> Z -> Z -> P (list Z);
  dq_each : N -> P (list bytes)
}.

(** ** The list *)

Record klist (N : Type) := mkKlist {
  kl_blob : bytes;
  kl_head : Z;
  kl_n : Z;
  kl_lpsz : Z;
  kl_nat : option N;
  kl_everLarge : bool
}.
#[global] Arguments mkKlist {N} _ _ _ _ _ _.
#[global] Arguments kl_blob {N} _.
#[global] Arguments kl_head {N} _.
#[global] Arguments kl_n {N} _.
#[global] Arguments kl_lpsz {N} _.
#[global] Arguments kl_nat {N} _.
#[global] Arguments kl_everLarge {N} _.

Inductive encoding : Type := encListpack | encQuicklist.

(** The LREM rule: the flags of the victims in the order given; only the forward pass
    reads a zero limit as no limit. *)
Fixpoint mark_loop (all : bool) (limit : Z) (v : bytes) (removed : Z) (elems : list bytes) : list bool * Z :=
  match elems with
  | [] => ([], removed)
  | e :: elems' =>
      let hit := (all || (removed <? limit)) && bytes_eqb e v in
      let '(fl, r) := mark_loop all limit v (if hit then removed + 1 else removed) elems' in (hit :: fl, r)
  end.

Fixpoint keep_loop (elems : list bytes) (drop : list bool) : list bytes :=
  match elems, drop with
  | e :: elems', d :: drop' => if (d : bool) then keep_loop elems' drop' else e :: keep_loop elems' drop'
  | _, _ => []
  end.

(** [limit = -limit] wraps on the least integer. *)
Definition lrem_limit (count : Z) : Z := if count <? 0 then int64_add 0 (- count) else count.

Definition lrem_marks (elems : list bytes) (count : Z) (v : bytes) : list bool * Z :=
  let limit := lrem_limit count in
  if 0 <=? count then mark_loop (limit =? 0) limit v 0 elems
  else let '(fl, r) := mark_loop false limit v 0 (rev elems) in (rev fl, r).

Definition removeMatches (elems : list bytes) (count : Z) (v : bytes) : list bytes * Z :=
  let '(drop, removed) := lrem_marks elems count v in
  if removed =? 0 then (elems, 0) else (keep_loop elems drop, removed).

(** The index of the first match. *)
Fixpoint index_of (pivot : bytes) (elems : list bytes) (i : nat) : option nat :=
  match elems with
  | [] => None
  | e :: elems' => if bytes_eqb e pivot then Some i else index_of pivot elems' (S i)
  end.

(** The closure of the LPOS walks: the matches left to skip, the elements compared and the
    positions found. *)
Definition lpos_state : Type := Z * Z * list Z.

Definition lpos_start (rank : Z) : lpos_state :=
  let skip := if rank <? 0 then int64_add 0 (- rank) else rank in
  (int64_add skip (-1), 0, []).

Definition lpos_stop (maxlen : Z) (st : lpos_state) : bool :=
  let '(_, compared, _) := st in (0 <? maxlen) && (maxlen <=? compared).

(** The visit past the [maxlen] test: whether the walk goes on. *)
Definition lpos_visit (target : bytes) (limit : Z) (st : lpos_state) (i : Z) (val : bytes) : bool * lpos_state :=
  let '(skip, compared, out) := st in
  let compared := compared + 1 in
  if negb (bytes_eqb val target) then (true, (skip, compared, out))
  else if 0 <? skip then (true, (skip - 1, compared, out))
  else let out := out ++ [i] in ((limit <=? 0) || (zlen out <? limit), (skip, compared, out)).

(** The walk over elements already read. *)
Fixpoint lpos_walk (target : bytes) (limit maxlen : Z) (st : lpos_state) (items : list (Z * bytes)) : bool * lpos_state :=
  match items with
  | [] => (true, st)
  | (i, val) :: items' =>
      if lpos_stop maxlen st then (false, st)
      else let '(go, st) := lpos_visit target limit st i val in
           if go then lpos_walk target limit maxlen st items' else (false, st)
  end.

Section ops.
Context {N : Type} `{Deque N}.
Implicit Types l : klist N.

Definition newList : klist N := mkKlist [] 0 0 lpOverhead None false.

Definition encoding_of (l : klist N) : encoding := if kl_everLarge l then encQuicklist else encListpack.

Definition length_of (l : klist N) : Z :=
  match kl_nat l with Some nt => dq_count nt | None => kl_n l end.

Definition wouldExceed (l : klist N) (add : Z) : bool := listpackBudget <? kl_lpsz l + add.

Definition with_inline (l : klist N) (blob : bytes) (head n lpsz : Z) : klist N :=
  mkKlist blob head n lpsz (kl_nat l) (kl_everLarge l).

(** [spare] is the backing array past the slice's length: a grow inside it exposes whatever
    the array held, a grow past it appends zeros. *)
Definition inlineGrow (spare blob : bytes) (n : Z) : bytes :=
  if n <=? zlen spare then blob ++ ztake n spare else blob ++ zeros n.

(** [w := binary.PutUvarint(blob[off:], uint64(len(v))); copy(blob[off+w:], v)] *)
Definition put_frame (blob : bytes) (off : Z) (v : bytes) : bytes :=
  let blob := put blob off (PutUvarint (zlen v)) in
  put blob (off + zlen (PutUvarint (zlen v))) v.

Definition inlinePushBack (spare : bytes) (l : klist N) (v : bytes) : klist N :=
  let off := zlen (kl_blob l) in
  let blob := inlineGrow spare (kl_blob l) (frameLen (zlen v)) in
  with_inline l (put_frame blob off v) (kl_head l) (kl_n l + 1) (kl_lpsz l + lpEntrySize v).

Definition inlinePushFront (spare : bytes) (l : klist N) (v : bytes) : klist N :=
  let f := frameLen (zlen v) in
  if f <=? kl_head l then
    let head := kl_head l - f in
    with_inline l (put_frame (kl_blob l) head v) head (kl_n l + 1) (kl_lpsz l + lpEntrySize v)
  else
    let need := f - kl_head l in
    let old := zlen (kl_blob l) in
    let live := sl (kl_blob l) (kl_head l) (old - kl_head l) in
    let blob := inlineGrow spare (kl_blob l) need in
    let blob := put blob (kl_head l + need) live in
    with_inline l (put_frame blob 0 v) 0 (kl_n l + 1) (kl_lpsz l + lpEntrySize v).

(** [binary.Uvarint(blob[pos:])] *)
Definition uvarint_at (blob : bytes) (pos : Z) : P (Z * Z) :=
  let* b := slice blob pos (zlen blob) in Ok (Uvarint b).

(** The frame at [pos]: its bytes and the position past it. *)
Definition frame_at (blob : bytes) (pos : Z) : P (bytes * Z) :=
  let* '(vlen, w) := uvarint_at blob pos in
  let start := pos + w in
  let end_ := start + int64 vlen in
  let* v := slice blob start end_ in
  Ok (v, end_).

Definition reset (l : klist N) : klist N := with_inline l [] 0 (kl_n l) lpOverhead.

Definition after_pop (l : klist N) : klist N := if kl_n l =? 0 then reset l else l.

Definition inlinePopFront (l : klist N) : P (klist N * bytes) :=
  let* '(v, end_) := frame_at (kl_blob l) (kl_head l) in
  Ok (after_pop (with_inline l (kl_blob l) end_ (kl_n l - 1) (kl_lpsz l - lpEntrySize v)), v).

(** The walk to the last frame: its start, prefix width and length.  Every frame takes a
    byte, so the blob length bounds the walk; a walk that does not advance never ends. *)
Fixpoint last_frame (fuel : nat) (blob : bytes) (pos : Z) (last : Z * Z * Z) : P (Z * Z * Z) :=
  if zlen blob <=? pos then Ok last else
  match fuel with
  | O => Panic
  | S fuel' =>
      let* '(vlen, w) := uvarint_at blob pos in
      last_frame fuel' blob (pos + (w + int64 vlen)) (pos, w, vlen)
  end.

Definition inlinePopBack (l : klist N) : P (klist N * bytes) :=
  let blob := kl_blob l in
  let* '(lastStart, lastW, lastLen) := last_frame (length blob) blob (kl_head l) (kl_head l, 0, 0) in
  let* v := slice blob (lastStart + lastW) (lastStart + lastW + int64 lastLen) in
  let* blob := slice blob 0 lastStart in
  Ok (after_pop (with_inline l blob (kl_head l) (kl_n l - 1) (kl_lpsz l - lpEntrySize v)), v).

(** [for k := 0; k < i; k++] over the frames *)
Fixpoint skip_frames (k : nat) (blob : bytes) (pos : Z) : P Z :=
  match k with
  | O => Ok pos
  | S k' =>
      let* '(vlen, w) := uvarint_at blob pos in
      skip_frames k' blob (pos + (w + int64 vlen))
  end.

Definition inlineAt (l : klist N) (i : Z) : P bytes :=
  let* pos := skip_frames (Z.to_nat i) (kl_blob l) (kl_head l) in
  let* '(v, _) := frame_at (kl_blob l) pos in
  Ok v.

Fixpoint decode_frames (fuel : nat) (blob : bytes) (pos : Z) : P (list bytes) :=
  if zlen blob <=? pos then Ok [] else
  match fuel with
  | O => Panic
  | S fuel' =>
      let* '(v, end_) := frame_at blob pos in
      let* vs := decode_frames fuel' blob end_ in
      Ok (v :: vs)
  end.

Definition inlineDecode (l : klist N) : P (list bytes) :=
  decode_frames (length (kl_blob l)) (kl_blob l) (kl_head l).

(** [nt.pushBack] of every element *)
Fixpoint push_all (nt : N) (vs : list bytes) : P N :=
  match vs with
  | [] => Ok nt
  | v :: vs' => let* nt := dq_pushBack nt v in push_all nt vs'
  end.

Definition toNative (l : klist N) : P (klist N) :=
  match kl_nat l with
  | Some _ => Ok l
  | None =>
      let* vs := inlineDecode l in
      let* nt := push_all dq_new vs in
      Ok (mkKlist [] 0 0 (kl_lpsz l) (Some nt) true)
  end.

(** The fold of [reencodeInline]: the new blob and its packed size. *)
Definition encode_elems (elems : list bytes) : bytes * Z :=
  foldl (fun '(nb, lpsz) v => ((nb ++ PutUvarint (zlen v)) ++ v, lpsz + lpEntrySize v)) ([], lpOverhead) elems.

Definition reencodeInline (l : klist N) (elems : list bytes) : P (klist N) :=
  let '(nb, lpsz) := encode_elems elems in
  let l := with_inline l nb 0 (zlen elems) lpsz in
  if listpackBudget <? lpsz then toNative l else Ok l.

(** ** The band-dispatching operations *)

Definition on_nat (l : klist N) (nt : N) : klist N :=
  mkKlist (kl_blob l) (kl_head l) (kl_n l) (kl_lpsz l) (Some nt) (kl_everLarge l).

Definition push (front : bool) (nt : N) (v : bytes) : P N :=
  if front then dq_pushFront nt v else dq_pushBack nt v.

(** [pushBack] and [pushFront] differ in the end they call. *)
Definition push_end (front : bool) (spare : bytes) (l : klist N) (v : bytes) : P (klist N) :=
  match kl_nat l with
  | Some nt => let* nt := push front nt v in Ok (on_nat l nt)
  | None =>
      if wouldExceed l (lpEntrySize v) then
        let* l := toNative l in
        match kl_nat l with
        | Some nt => let* nt := push front nt v in Ok (on_nat l nt)
        | None => Panic
        end
      else Ok (if front then inlinePushFront spare l v else inlinePushBack spare l v)
  end.
Definition pushBack := push_end false.
Definition pushFront := push_end true.

Definition popFront (l : klist N) : P (klist N * bytes) :=
  match kl_nat l with
  | Some nt => let* '(nt, v) := dq_popFront nt in Ok (on_nat l nt, v)
  | None => inlinePopFront l
  end.

Definition popBack (l : klist N) : P (klist N * bytes) :=
  match kl_nat l with
  | Some nt => let* '(nt, v) := dq_popBack nt in Ok (on_nat l nt, v)
  | None => inlinePopBack l
  end.

Definition get (l : klist N) (i : Z) : P (klist N * bytes) :=
  match kl_nat l with
  | Some nt => let* '(nt, v) := dq_at nt i in Ok (on_nat l nt, v)
  | None => let* v := inlineAt l i in Ok (l, v)
  end.

(** The frames at [k <= hi]: each is appended to the reply as a bulk string. *)
Fixpoint range_frames (sp : bytes -> bytes -> bytes) (k : nat) (blob : bytes) (pos : Z) (out : bytes) : P bytes :=
  match k with
  | O => Ok out
  | S k' =>
      let* '(v, end_) := frame_at blob pos in
      range_frames sp k' blob end_ (AppendBulk (sp out v) out v)
  end.

(** [sp dst v] is the room [slices.Grow] leaves past [dst] for the reply of [v]. *)
Definition appendRange (sp : bytes -> bytes -> bytes) (l : klist N) (out : bytes) (lo hi : Z) : P (klist N * bytes) :=
  match kl_nat l with
  | Some nt => let* '(nt, out) := dq_rangeInto sp nt out lo hi in Ok (on_nat l nt, out)
  | None =>
      let* pos := skip_frames (Z.to_nat lo) (kl_blob l) (kl_head l) in
      let* out := range_frames sp (Z.to_nat (hi + 1 - lo)) (kl_blob l) pos out in
      Ok (l, out)
  end.

Definition setAt (l : klist N) (i : Z) (v : bytes) : P (klist N) :=
  match kl_nat l with
  | Some nt => let* nt := dq_setAt nt i v in Ok (on_nat l nt)
  | None =>
      let* elems := inlineDecode l in
      if (0 <=? i) && (i <? zlen elems) then reencodeInline l (<[Z.to_nat i := v]> elems) else Panic
  end.

Definition insert (l : klist N) (before : bool) (pivot v : bytes) : P (klist N * bool) :=
  match kl_nat l with
  | Some nt => let* '(nt, ok) := dq_insert nt before pivot v in Ok (on_nat l nt, ok)
  | None =>
      let* elems := inlineDecode l in
      match index_of pivot elems 0 with
      | None => Ok (l, false)
      | Some idx =>
          let at_ := if before then idx else S idx in
          let* l := reencodeInline l (take at_ elems ++ v :: drop at_ elems) in
          Ok (l, true)
      end
  end.

Definition remove (l : klist N) (count : Z) (v : bytes) : P (klist N * Z) :=
  match kl_nat l with
  | Some nt => let* '(nt, n) := dq_remove nt count v in Ok (on_nat l nt, n)
  | None =>
      let* elems := inlineDecode l in
      let '(kept, removed) := removeMatches elems count v in
      if 0 <? removed then let* l := reencodeInline l kept in Ok (l, removed) else Ok (l, removed)
  end.

Definition trim (l : klist N) (start stop : Z) : P (klist N * Z) :=
  match kl_nat l with
  | Some nt => let* nt := dq_trim nt start stop in Ok (on_nat l nt, dq_count nt)
  | None =>
      if stop <? start then
        let l := reset l in Ok (with_inline l (kl_blob l) (kl_head l) 0 (kl_lpsz l), 0)
      else
        let* elems := inlineDecode l in
        if (0 <=? start) && (stop + 1 <=? zlen elems) then
          let* l := reencodeInline l (sl elems start (stop + 1 - start)) in Ok (l, length_of l)
        else Panic
  end.

Definition each (l : klist N) : P (list bytes) :=
  match kl_nat l with Some nt => dq_each nt | None => inlineDecode l end.

(** [for i ... { if !visit(i) { break } }] over the inline band *)
Fixpoint lpos_scan (target : bytes) (limit maxlen : Z) (l : klist N) (st : lpos_state) (ix : list Z) : P lpos_state :=
  match ix with
  | [] => Ok st
  | i :: ix' =>
      if lpos_stop maxlen st then Ok st
      else
        let* v := inlineAt l i in
        let '(go, st) := lpos_visit target limit st i v in
        if go then lpos_scan target limit maxlen l st ix' else Ok st
  end.

Definition lposScan (l : klist N) (target : bytes) (rank limit maxlen : Z) : P (list Z) :=
  match kl_nat l with
  | Some nt => dq_lpos nt target rank limit maxlen
  | None =>
      let ix := seqZ 0 (length_of l) in
      let* '(_, _, out) := lpos_scan target limit maxlen l (lpos_start rank) (if 0 <? rank then ix else rev ix) in
      Ok out
  end.
End ops.

Definition normIndex (i n : Z) : Z := if i <? 0 then i + n else i.

Definition clampRange (start stop n : Z) : option (Z * Z) :=
  let start := if start <? 0 then start + n else start in
  let stop := if stop <? 0 then stop + n else stop in
  let start := if start <? 0 then 0 else start in
  let stop := if n <=? stop then n - 1 else stop in
  if (stop <? start) || (n <=? start) || (n =? 0) then None else Some (start, stop).

(** ** What the native deque promises *)

(** The positions LPOS answers for the elements [xs]. *)
Definition lpos_run (xs : list bytes) (target : bytes) (rank limit maxlen : Z) : list Z :=
  let items := zip (seqZ 0 (zlen xs)) xs in
  let '(_, (_, _, out)) := lpos_walk target limit maxlen (lpos_start rank) (if 0 <? rank then items else rev items) in out.

(** The elements LINSERT leaves, [None] when the pivot is absent. *)
Definition insert_spec (before : bool) (pivot v : bytes) (xs : list bytes) : option (list bytes) :=
  match index_of pivot xs 0 with
  | None => None
  | Some idx => let at_ := if before then idx else S idx in Some (take at_ xs ++ v :: drop at_ xs)
  end.

Definition roomy (sp : bytes -> bytes -> bytes) : Prop :=
  forall dst v, grown (sp dst v) (1 + declen (zlen v) + 2 + zlen v + 2).

(** [okv] are the elements the deque takes, [holds] says which list a deque stores. *)
(** A list an int indexes with room to spare. *)
Definition small (xs : list bytes) : Prop := zlen xs < 2 ^ 62.

Class DequeLaws (N : Type) `{Deque N} (okv : bytes -> Prop) (holds : N -> list bytes -> Prop) := {
  dq_ok_fits : forall v, okv v -> zlen v < max_alloc;
  dq_ok_count : forall d xs, holds d xs -> dq_count d = zlen xs;
  dq_ok_new : holds dq_new [];
  dq_ok_pushBack : forall d xs v, holds d xs -> okv v -> exists d', dq_pushBack d v = Ok d' /\ holds d' (xs ++ [v]);
  dq_ok_pushFront : forall d xs v, holds d xs -> okv v -> exists d', dq_pushFront d v = Ok d' /\ holds d' (v :: xs);
  dq_ok_popFront : forall d x xs, holds d (x :: xs) -> exists d', dq_popFront d = Ok (d', x) /\ holds d' xs;
  dq_ok_popBack : forall d xs x, holds d (xs ++ [x]) -> exists d', dq_popBack d = Ok (d', x) /\ holds d' xs;
  dq_ok_at : forall d xs i x, holds d xs -> small xs -> 0 <= i -> xs !! Z.to_nat i = Some x ->
    exists d', dq_at d i = Ok (d', x) /\ holds d' xs;
  dq_ok_rangeInto : forall sp d xs out lo hi, roomy sp -> holds d xs -> small xs -> 0 <= lo <= hi -> hi < zlen xs ->
    exists d', dq_rangeInto sp d out lo hi = Ok (d', out ++ concat (map bulk (sl xs lo (hi + 1 - lo)))) /\ holds d' xs;
  dq_ok_setAt : forall d xs i v, holds d xs -> small xs -> okv v -> 0 <= i < zlen xs ->
    exists d', dq_setAt d i v = Ok d' /\ holds d' (<[Z.to_nat i := v]> xs);
  dq_ok_insert : forall d xs before pivot v, holds d xs -> okv v ->
    exists d', dq_insert d before pivot v = Ok (d', bool_decide (is_Some (insert_spec before pivot v xs)))
      /\ holds d' (default xs (insert_spec before pivot v xs));
  dq_ok_remove : forall d xs count v, holds d xs -> - two63 <= count < two63 ->
    exists d', dq_remove d count v = Ok (d', (removeMatches xs count v).2) /\ holds d' (removeMatches xs count v).1;
  dq_ok_trim : forall d xs start stop, holds d xs -> small xs -> (start <= stop -> 0 <= start /\ stop < zlen xs) ->
    exists d', dq_trim d start stop = Ok d' /\ holds d' (sl xs start (stop + 1 - start));
  dq_ok_lpos : forall d xs target rank limit maxlen, holds d xs ->
    dq_lpos d target rank limit maxlen = Ok (lpos_run xs target rank limit maxlen);
  dq_ok_each : forall d xs, holds d xs -> dq_each d = Ok xs
}.

(** ** Frames *)

Definition frame (v : bytes) : bytes := PutUvarint (zlen v) ++ v.
Definition frames (xs : list bytes) : bytes := concat (map frame xs).
Definition sizes (xs : list bytes) : Z := foldr (fun v n => lpEntrySize v + n) 0 xs.

(** A Go slice is shorter than the address space. *)
Definition fits (v : bytes) : Prop := zlen v < max_alloc.

Lemma frames_cons v xs : frames (v :: xs) = frame v ++ frames xs.
Proof. done. Qed.
Lemma frames_app xs ys : frames (xs ++ ys) = frames xs ++ frames ys.
Proof. unfold frames. by rewrite map_app, concat_app. Qed.
Lemma frames_one v : frames [v] = frame v.
Proof. unfold frames. cbn. apply app_nil_r. Qed.
Lemma sizes_app xs ys : sizes (xs ++ ys) = sizes xs + sizes ys.
Proof. unfold sizes. induction xs as [|v xs IH]; cbn; lia. Qed.

Lemma zlen_frame v : zlen (frame v) = zlen (PutUvarint (zlen v)) + zlen v.
Proof. apply zlen_app. Qed.
Lemma frame_pos v : 1 <= zlen (frame v).
Proof. rewrite zlen_frame. pose proof (zlen_PutUvarint (zlen v)). pose proof (zlen_nonneg v). lia. Qed.

Lemma frames_length xs : (length xs <= length (frames xs))%nat.
Proof.
  induction xs as [|v xs IH]; [done|]. rewrite frames_cons, length_app. pose proof (frame_pos v). unfold zlen in *. cbn [length]. lia.
Qed.

Lemma frames_nil xs : frames xs = [] -> xs = [].
Proof.
  intros E. pose proof (frames_length xs) as Hl. rewrite E in Hl. destruct xs; [done|]. cbn in Hl. lia.
Qed.

Lemma uvarintLen_loop_spec fuel : forall x n, 0 <= x < 2 ^ (7 * Z.of_nat fuel) -> (0 < fuel)%nat ->
  uvarintLen_loop fuel x n = n - 1 + zlen (put_uvarint fuel x).
Proof.
  induction fuel as [|fuel IH]; intros x n Hx Hf; [lia|]. cbn [uvarintLen_loop put_uvarint].
  destruct (Z.leb_spec 128 x) as [Hge|Hlt]; destruct (Z.ltb_spec x 128) as [|]; try lia; [|change (zlen [Z_byte x]) with 1; lia].
  rewrite zlen_cons. destruct fuel as [|fuel'].
  { change (2 ^ (7 * Z.of_nat 1)) with 128 in Hx. lia. }
  rewrite IH; [lia| |lia]. rewrite Z.shiftr_div_pow2 by lia. split; [apply Z.div_pos; lia|].
  apply Z.div_lt_upper_bound; [done|]. rewrite <- Z.pow_add_r by lia.
  replace (7 + 7 * Z.of_nat (S fuel')) with (7 * Z.of_nat (S (S fuel'))) by lia. lia.
Qed.

Lemma frameLen_eq v : fits v -> frameLen (zlen v) = zlen (frame v).
Proof.
  intros Hv. unfold fits in Hv. pose proof (zlen_nonneg v). rewrite zlen_frame. unfold frameLen, uvarintLen, PutUvarint.
  rewrite uvarintLen_loop_spec; [lia| |lia]. split; [done|]. eapply Z.lt_trans; [exact Hv|done].
Qed.

Lemma uvarint_at_frame blob pos v rest : fits v -> 0 <= pos <= zlen blob -> zdrop pos blob = frame v ++ rest ->
  uvarint_at blob pos = Ok (zlen v, zlen (PutUvarint (zlen v))).
Proof.
  intros Hv Hp Hd. unfold uvarint_at. rewrite slice_ok by lia.
  assert (sl blob pos (zlen blob - pos) = frame v ++ rest) as ->.
  { unfold sl. rewrite ztake_all by (rewrite zlen_zdrop; lia). done. }
  unfold frame. rewrite <- (assoc_L (++)), Uvarint_Put; [done|]. unfold fits in Hv. pose proof (zlen_nonneg v). unfold is_u64. lia.
Qed.

Lemma frame_at_ok blob pos v rest : fits v -> 0 <= pos <= zlen blob -> zdrop pos blob = frame v ++ rest ->
  frame_at blob pos = Ok (v, pos + zlen (frame v)) /\ 0 <= pos + zlen (frame v) <= zlen blob
  /\ zdrop (pos + zlen (frame v)) blob = rest.
Proof.
  intros Hv Hp Hd. pose proof (zlen_nonneg v). pose proof (zlen_PutUvarint (zlen v)) as Hw. pose proof (zlen_nonneg rest).
  assert (Hl : zlen blob - pos = zlen (frame v) + zlen rest).
  { rewrite <- zlen_app, <- Hd, zlen_zdrop. lia. }
  rewrite zlen_frame in *. split_and!; [|lia|lia|].
  - unfold frame_at. rewrite (uvarint_at_frame blob pos v rest) by done. unfold fits in Hv.
    rewrite int64_small by lia. rewrite slice_len by lia. do 2 f_equal; [|lia].
    unfold sl. rewrite <- zdrop_zdrop, Hd by lia. unfold frame. rewrite <- (assoc_L (++)).
    rewrite zdrop_app_ge, Z.sub_diag by lia. rewrite zdrop_nonpos by lia. rewrite ztake_app_le by lia. by apply ztake_all.
  - rewrite <- zdrop_zdrop, Hd by lia. unfold frame. rewrite zdrop_app_ge by (rewrite zlen_app; lia).
    rewrite zlen_app. apply zdrop_nonpos. lia.
Qed.

(** ** Walks over a packed run *)

(** The bytes of [blob] from [pos] on are the frames of [xs]. *)
Definition packed (blob : bytes) (pos : Z) (xs : list bytes) : Prop :=
  0 <= pos <= zlen blob /\ zdrop pos blob = frames xs /\ Forall fits xs.

Lemma packed_nil blob pos : packed blob pos [] -> pos = zlen blob.
Proof. intros (Hp & Hd & _). apply (f_equal zlen) in Hd. rewrite zlen_zdrop in Hd. change (zlen (frames [])) with 0 in Hd. lia. Qed.

Lemma packed_cons blob pos v xs : packed blob pos (v :: xs) ->
  fits v /\ zdrop pos blob = frame v ++ frames xs /\ pos < zlen blob
  /\ pos + zlen (frame v) <= zlen blob /\ packed blob (pos + zlen (frame v)) xs.
Proof.
  intros (Hp & Hd & Hf). apply Forall_cons in Hf as [Hv Hf]. rewrite frames_cons in Hd. pose proof (frame_pos v).
  destruct (frame_at_ok blob pos v (frames xs) Hv Hp Hd) as (_ & Hp' & Hd'). split_and!; try done; lia.
Qed.

Lemma frame_at_packed blob pos v xs : packed blob pos (v :: xs) -> frame_at blob pos = Ok (v, pos + zlen (frame v)).
Proof. intros Hp. destruct (packed_cons _ _ _ _ Hp) as (Hv & Hd & Hl & _). apply frame_at_ok with (frames xs); [done| |done]. destruct Hp. lia. Qed.

Lemma uvarint_at_packed blob pos v xs : packed blob pos (v :: xs) ->
  uvarint_at blob pos = Ok (zlen v, zlen (PutUvarint (zlen v)))
  /\ pos + (zlen (PutUvarint (zlen v)) + int64 (zlen v)) = pos + zlen (frame v).
Proof.
  intros Hp. destruct (packed_cons _ _ _ _ Hp) as (Hv & Hd & Hl & _). split.
  - apply uvarint_at_frame with (frames xs); [done| |done]. destruct Hp. lia.
  - rewrite int64_small, zlen_frame; [lia|]. unfold fits in Hv. lia.
Qed.

Lemma packed_fuel blob pos xs : packed blob pos xs -> (length xs <= length blob)%nat.
Proof.
  intros (Hp & Hd & _). pose proof (frames_length xs). apply (f_equal zlen) in Hd. rewrite zlen_zdrop in Hd. unfold zlen in *. lia.
Qed.

Lemma decode_frames_packed xs : forall fuel blob pos, packed blob pos xs -> (length xs <= fuel)%nat ->
  decode_frames fuel blob pos = Ok xs.
Proof.
  induction xs as [|v xs IH]; intros fuel blob pos Hp Hf.
  { rewrite (packed_nil _ _ Hp). destruct fuel; cbn [decode_frames]; by rewrite Z.leb_refl. }
  destruct fuel as [|fuel]; [cbn in Hf; lia|]. destruct (packed_cons _ _ _ _ Hp) as (_ & _ & Hlt & _ & Hp').
  cbn [decode_frames]. destruct (Z.leb_spec (zlen blob) pos); [lia|]. rewrite (frame_at_packed _ _ _ _ Hp).
  rewrite (IH fuel _ _ Hp') by (cbn in Hf; lia). done.
Qed.

Lemma packed_app xs : forall blob pos ys, packed blob pos (xs ++ ys) ->
  packed blob (pos + zlen (frames xs)) ys /\ skip_frames (length xs) blob pos = Ok (pos + zlen (frames xs)).
Proof.
  induction xs as [|v xs IH]; intros blob pos ys Hp.
  { change (zlen (frames [])) with 0. by rewrite Z.add_0_r. }
  cbn [app] in Hp. destruct (packed_cons _ _ _ _ Hp) as (_ & _ & _ & _ & Hp'). destruct (uvarint_at_packed _ _ _ _ Hp) as [Hu Hn].
  destruct (IH _ _ _ Hp') as [H1 H2]. rewrite frames_cons, zlen_app, Z.add_assoc. split; [done|].
  cbn [length skip_frames]. rewrite Hu. by rewrite Hn.
Qed.

Lemma last_frame_packed xs : forall fuel blob pos x last, packed blob pos (xs ++ [x]) -> (length xs < fuel)%nat ->
  last_frame fuel blob pos last = Ok (pos + zlen (frames xs), zlen (PutUvarint (zlen x)), zlen x).
Proof.
  induction xs as [|v xs IH]; intros fuel blob pos x last Hp Hf; (destruct fuel as [|fuel]; [cbn in Hf; lia|]);
    cbn [app] in Hp; destruct (packed_cons _ _ _ _ Hp) as (_ & _ & Hlt & _ & Hp'); destruct (uvarint_at_packed _ _ _ _ Hp) as [Hu Hn];
    cbn [last_frame]; (destruct (Z.leb_spec (zlen blob) pos); [lia|]); rewrite Hu; rewrite Hn.
  - rewrite (packed_nil _ _ Hp'). change (zlen (frames [])) with 0. rewrite Z.add_0_r.
    destruct fuel; cbn [last_frame]; by rewrite Z.leb_refl.
  - rewrite (IH fuel _ _ _ _ Hp') by (cbn in Hf; lia). by rewrite frames_cons, zlen_app, Z.add_assoc.
Qed.

(** ** Writing a frame *)

Lemma put_frame_at pre room post v off : off = zlen pre -> zlen room = zlen (frame v) ->
  put_frame (pre ++ room ++ post) off v = pre ++ frame v ++ post.
Proof.
  intros -> Hr. rewrite zlen_frame in Hr. unfold put_frame. cbv zeta. pose proof (zlen_nonneg v).
  pose proof (zlen_nonneg (PutUvarint (zlen v))).
  rewrite put_next by (rewrite zlen_app; pose proof (zlen_nonneg post); lia).
  rewrite zdrop_app_le by lia. rewrite (put_next_at _ (pre ++ _) _ v); [|by rewrite zlen_app|].
  - rewrite zdrop_app_ge by (rewrite zlen_zdrop; lia). rewrite zlen_zdrop.
    rewrite (zdrop_nonpos _ post) by lia. unfold frame. by rewrite <- !(assoc_L (++)).
  - rewrite zlen_app, zlen_zdrop. pose proof (zlen_nonneg post). lia.
Qed.

Lemma inlineGrow_eq spare blob n : 0 <= n -> exists room, inlineGrow spare blob n = blob ++ room /\ zlen room = n.
Proof.
  intros Hn. unfold inlineGrow. destruct (Z.leb_spec n (zlen spare)); eexists; (split; [done|]).
  - rewrite zlen_ztake. lia.
  - by apply zlen_zeros.
Qed.

(** The shift of the live region makes room for a frame at the front. *)
Lemma shift_front (dead live room : bytes) need : zlen room = need ->
  put ((dead ++ live) ++ room) (zlen dead + need) live
  = ztake (zlen dead + need) ((dead ++ live) ++ room) ++ live.
Proof.
  intros Hr. pose proof (zlen_nonneg dead). pose proof (zlen_nonneg live). pose proof (zlen_nonneg room).
  rewrite put_splice by (rewrite ?zlen_app; lia). rewrite (zdrop_all _ ((dead ++ live) ++ room)) by (rewrite !zlen_app; lia). by rewrite app_nil_r.
Qed.

(** ** The inline band *)

Section inline.
Context {N : Type} `{Deque N} (okv : bytes -> Prop) (holds : N -> list bytes -> Prop) `{!DequeLaws N okv holds}.
Implicit Types (l : klist N) (xs : list bytes).

Record inline_inv l xs : Prop := {
  ii_nat : kl_nat l = None;
  ii_large : kl_everLarge l = false;
  ii_packed : packed (kl_blob l) (kl_head l) xs;
  ii_n : kl_n l = zlen xs;
  ii_lpsz : kl_lpsz l = lpOverhead + sizes xs;
  ii_budget : kl_lpsz l <= listpackBudget;
  ii_ok : Forall okv xs
}.

Lemma ok_fits v : okv v -> fits v.
Proof. apply (dq_ok_fits (okv := okv) (holds := holds)). Qed.

Lemma fits_all xs : Forall okv xs -> Forall fits xs.
Proof. intros Ho. eapply Forall_impl; [exact Ho|apply ok_fits]. Qed.

Lemma packed_whole xs : Forall okv xs -> packed (frames xs) 0 xs.
Proof. intros Hx. pose proof (zlen_nonneg (frames xs)). split_and!; [lia|lia|by apply zdrop_nonpos|by apply fits_all]. Qed.

Lemma newList_inv : inline_inv newList [].
Proof. by split. Qed.

Lemma packed_split blob pos xs : packed blob pos xs -> blob = ztake pos blob ++ frames xs /\ zlen (ztake pos blob) = pos.
Proof. intros (Hp & Hd & _). split; [by rewrite <- Hd, ztake_zdrop|rewrite zlen_ztake; lia]. Qed.

Lemma packed_join dead xs : Forall fits xs -> packed (dead ++ frames xs) (zlen dead) xs.
Proof.
  intros Hf. pose proof (zlen_nonneg dead). pose proof (zlen_nonneg (frames xs)). split_and!; [lia|rewrite zlen_app; lia| |done].
  by rewrite zdrop_app_ge, Z.sub_diag, zdrop_nonpos by lia.
Qed.

Lemma inlinePushBack_inv spare l xs v : inline_inv l xs -> okv v -> wouldExceed l (lpEntrySize v) = false ->
  inline_inv (inlinePushBack spare l v) (xs ++ [v]).
Proof.
  intros [Hn Hg Hp Hc Hs Hb Ho] Hv Hw. pose proof (ok_fits v Hv) as Hf. apply Z.ltb_ge in Hw.
  destruct (packed_split _ _ _ Hp) as [Hbl Hh]. unfold inlinePushBack.
  destruct (inlineGrow_eq spare (kl_blob l) (frameLen (zlen v))) as (room & Hgr & Hr).
  { rewrite frameLen_eq by done. pose proof (frame_pos v). lia. }
  cbv zeta. rewrite Hgr, <- (app_nil_r room), put_frame_at by (done || by rewrite Hr, frameLen_eq).
  split; cbn [with_inline kl_nat kl_everLarge kl_blob kl_head kl_n kl_lpsz]; try done.
  - rewrite app_nil_r, Hbl, <- (assoc_L (++)), <- frames_one, <- frames_app. rewrite <- Hh at 2. apply packed_join.
    apply Forall_app; split; [by apply fits_all|by apply Forall_singleton].
  - rewrite zlen_app. change (zlen [v]) with 1. lia.
  - rewrite sizes_app. cbn [sizes foldr]. lia.
  - apply Forall_app; split; [done|by apply Forall_singleton].
Qed.

Lemma inlinePushFront_inv spare l xs v : inline_inv l xs -> okv v -> wouldExceed l (lpEntrySize v) = false ->
  inline_inv (inlinePushFront spare l v) (v :: xs).
Proof.
  intros [Hn Hg Hp Hc Hs Hb Ho] Hv Hw. pose proof (ok_fits v Hv) as Hf. apply Z.ltb_ge in Hw.
  destruct (packed_split _ _ _ Hp) as [Hbl Hh]. unfold inlinePushFront. cbv zeta. rewrite frameLen_eq by done.
  pose proof (frame_pos v). set (dead := ztake (kl_head l) (kl_blob l)) in *.
  assert (Hfs : Forall fits (v :: xs)) by (apply Forall_cons; split; [done|by apply fits_all]).
  assert (Hlp : kl_lpsz l + lpEntrySize v = lpOverhead + sizes (v :: xs)) by (cbn [sizes foldr]; fold (sizes xs); lia).
  destruct (Z.leb_spec (zlen (frame v)) (kl_head l)) as [Hle|Hgt].
  - assert (Hd : dead = ztake (kl_head l - zlen (frame v)) dead ++ zdrop (kl_head l - zlen (frame v)) dead) by (by rewrite ztake_zdrop).
    set (d1 := ztake _ dead) in Hd. set (d2 := zdrop _ dead) in Hd.
    assert (Hd1 : zlen d1 = kl_head l - zlen (frame v)) by (unfold d1; rewrite zlen_ztake; lia).
    assert (Hd2 : zlen d2 = zlen (frame v)) by (unfold d2; rewrite zlen_zdrop; lia).
    rewrite Hbl, Hd, <- (assoc_L (++)), put_frame_at by done. rewrite <- Hd1, <- frames_cons.
    split; cbn [with_inline kl_nat kl_everLarge kl_blob kl_head kl_n kl_lpsz]; try done.
    + by apply packed_join.
    + rewrite zlen_cons. lia.
    + by apply Forall_cons.
  - destruct (inlineGrow_eq spare (kl_blob l) (zlen (frame v) - kl_head l)) as (room & Hgr & Hr); [lia|].
    rewrite Hgr. assert (sl (kl_blob l) (kl_head l) (zlen (kl_blob l) - kl_head l) = frames xs) as ->.
    { destruct Hp as (? & Hdr & _). unfold sl. rewrite Hdr. apply ztake_all. rewrite <- Hdr, zlen_zdrop. lia. }
    rewrite Hbl at 1. rewrite <- Hh at 1. rewrite shift_front by lia. set (pre := ztake _ _).
    assert (Hpre : zlen pre = zlen (frame v)).
    { unfold pre. rewrite zlen_ztake, !zlen_app. pose proof (zlen_nonneg (frames xs)). lia. }
    change (pre ++ frames xs) with ([] ++ pre ++ frames xs). rewrite put_frame_at by done. cbn [app]. rewrite <- frames_cons.
    split; cbn [with_inline kl_nat kl_everLarge kl_blob kl_head kl_n kl_lpsz]; try done.
    + change 0 with (zlen (A := byte) []). apply (packed_join []). done.
    + rewrite zlen_cons. lia.
    + by apply Forall_cons.
Qed.

Lemma sizes_nonneg xs : 0 <= sizes xs.
Proof.
  induction xs as [|v xs IH]; [done|]. cbn [sizes foldr]. fold (sizes xs).
  assert (Hb : forall n, 1 <= backlenSize n) by (intros n; unfold backlenSize; repeat case_match; lia).
  assert (0 <= lpEntrySize v); [|lia]. unfold lpEntrySize. pose proof (zlen_nonneg v).
  assert (forall z, 1 <= lpIntEncodingSize z) as Hi by (intros z; unfold lpIntEncodingSize; repeat case_match; lia).
  destruct (ParseInt v) as [z|]; cbv zeta.
  - pose proof (Hi z). pose proof (Hb (lpIntEncodingSize z)). lia.
  - set (h := if zlen v <? 64 then 1 else _). assert (1 <= h) by (unfold h; repeat case_match; lia). pose proof (Hb (h + zlen v)). lia.
Qed.

Lemma lpEntrySize_nonneg v : 0 <= lpEntrySize v.
Proof. pose proof (sizes_nonneg [v]). cbn [sizes foldr] in *. lia. Qed.

(** Dropping the last element resets the blob. *)
Lemma after_pop_inv blob head n lpsz nat_ big xs :
  inline_inv (mkKlist blob head n lpsz nat_ big) xs -> inline_inv (after_pop (mkKlist blob head n lpsz nat_ big)) xs.
Proof.
  intros [Hn Hg Hp Hc Hs Hb Ho]. cbn [kl_nat kl_everLarge kl_blob kl_head kl_n kl_lpsz] in *. unfold after_pop.
  cbn [kl_n]. destruct (Z.eqb_spec n 0) as [Hz|]; [|by split]. assert (xs = []) as -> by (apply zlen_0_nil; lia).
  split; cbn [reset with_inline kl_nat kl_everLarge kl_blob kl_head kl_n kl_lpsz]; done.
Qed.

Lemma inlinePopFront_inv l x xs : inline_inv l (x :: xs) ->
  exists l', inlinePopFront l = Ok (l', x) /\ inline_inv l' xs.
Proof.
  intros [Hn Hg Hp Hc Hs Hb Ho]. destruct (packed_cons _ _ _ _ Hp) as (_ & _ & _ & _ & Hp').
  unfold inlinePopFront. rewrite (frame_at_packed _ _ _ _ Hp). eexists. split; [done|]. apply after_pop_inv.
  apply Forall_cons in Ho as [_ Ho]. rewrite zlen_cons in Hc. cbn [sizes foldr] in Hs. fold (sizes xs) in Hs.
  pose proof (lpEntrySize_nonneg x). split; cbn [kl_nat kl_everLarge kl_blob kl_head kl_n kl_lpsz]; (done || lia).
Qed.

Lemma inlinePopBack_inv l xs x : inline_inv l (xs ++ [x]) ->
  exists l', inlinePopBack l = Ok (l', x) /\ inline_inv l' xs.
Proof.
  intros [Hn Hg Hp Hc Hs Hb Ho]. unfold inlinePopBack. cbv zeta. pose proof (packed_fuel _ _ _ Hp) as Hfu.
  rewrite length_app in Hfu. cbn [length] in Hfu. rewrite (last_frame_packed xs _ _ _ x _ Hp) by lia.
  destruct (packed_app xs _ _ _ Hp) as [Hlast _]. pose proof (frame_at_packed _ _ _ _ Hlast) as Hat.
  destruct (uvarint_at_packed _ _ _ _ Hlast) as [Hu _]. unfold frame_at in Hat. rewrite Hu in Hat.
  set (pos := kl_head l + zlen (frames xs)) in *.
  destruct (slice (kl_blob l) (pos + _) _) as [v| |] eqn:Hsl; [|done|done]. injection Hat as -> _.
  pose proof (packed_split _ _ _ Hp) as [Hbl Hh]. pose proof (zlen_nonneg (frames xs)).
  destruct Hlast as (Hpos & _ & _). destruct Hp as (Hh0 & Hd & Hff). rewrite slice_ok by lia.
  eexists. split; [done|]. apply after_pop_inv. apply Forall_app in Ho as [Ho _]. apply Forall_app in Hff as [Hff _].
  rewrite sizes_app in Hs. cbn [sizes foldr] in Hs. rewrite zlen_app in Hc. change (zlen [x]) with 1 in Hc.
  pose proof (lpEntrySize_nonneg x). split; cbn [kl_nat kl_everLarge kl_blob kl_head kl_n kl_lpsz]; try (done || lia).
  assert (Hcut : sl (kl_blob l) 0 (pos - 0) = ztake (kl_head l) (kl_blob l) ++ frames xs).
  { unfold sl. rewrite zdrop_nonpos, Z.sub_0_r by lia. rewrite Hbl at 1. rewrite frames_app, ztake_app_ge by lia.
    f_equal. rewrite Hh, ztake_app_le by (unfold pos; lia). apply ztake_all. unfold pos. lia. }
  rewrite Hcut. rewrite <- Hh at 2. by apply packed_join.
Qed.

Lemma inlineDecode_inv l xs : inline_inv l xs -> inlineDecode l = Ok xs.
Proof. intros [_ _ Hp _ _ _ _]. apply decode_frames_packed; [done|]. by eapply packed_fuel. Qed.

Lemma split_at {A} (xs : list A) i x : xs !! i = Some x -> exists a b, xs = a ++ x :: b /\ length a = i.
Proof.
  intros Hx. exists (take i xs), (drop (S i) xs). split; [symmetry; by apply take_drop_middle|].
  rewrite length_take. apply lookup_lt_Some in Hx. lia.
Qed.

Lemma inlineAt_inv l xs i x : inline_inv l xs -> xs !! Z.to_nat i = Some x -> inlineAt l i = Ok x.
Proof.
  intros [_ _ Hp _ _ _ _] Hx. destruct (split_at _ _ _ Hx) as (a & b & -> & Ha).
  destruct (packed_app a _ _ _ Hp) as [Hp' Hs]. unfold inlineAt. rewrite <- Ha, Hs.
  by rewrite (frame_at_packed _ _ _ _ Hp').
Qed.

(** A list keeps its elements in the blob within the budget, or in the deque. *)
Definition list_inv l xs : Prop :=
  inline_inv l xs
  \/ (Forall okv xs /\ kl_everLarge l = true /\ exists nt, kl_nat l = Some nt /\ holds nt xs).

Lemma list_inv_ok l xs : list_inv l xs -> Forall okv xs.
Proof. intros [[]|[]]; done. Qed.

Lemma on_nat_inv l xs nt : kl_everLarge l = true -> Forall okv xs -> holds nt xs -> list_inv (on_nat l nt) xs.
Proof. intros. right. split_and!; [done|done|]. by exists nt. Qed.

Lemma push_all_ok vs : forall nt ys, holds nt ys -> Forall okv vs -> exists nt', push_all nt vs = Ok nt' /\ holds nt' (ys ++ vs).
Proof.
  induction vs as [|v vs IH]; intros nt ys Hh Ho; [exists nt; by rewrite app_nil_r|]. apply Forall_cons in Ho as [Hv Ho].
  destruct (dq_ok_pushBack nt ys v Hh Hv) as (n1 & E1 & H1). destruct (IH n1 (ys ++ [v]) H1 Ho) as (n2 & E2 & H2).
  exists n2. cbn [push_all]. rewrite E1. split; [done|]. by rewrite <- (assoc_L (++)) in H2.
Qed.

(** Promotion moves every element, in order. *)
Lemma toNative_packed l xs : kl_nat l = None -> packed (kl_blob l) (kl_head l) xs -> Forall okv xs ->
  exists l' nt, toNative l = Ok l' /\ kl_nat l' = Some nt /\ kl_everLarge l' = true /\ holds nt xs.
Proof.
  intros Hn Hp Ho. unfold toNative, inlineDecode. rewrite Hn.
  rewrite (decode_frames_packed xs) by (done || by eapply packed_fuel).
  destruct (push_all_ok xs dq_new [] dq_ok_new Ho) as (nt & E & Hh). rewrite E. by eexists _, nt.
Qed.

Lemma encode_elems_eq xs : encode_elems xs = (frames xs, lpOverhead + sizes xs).
Proof.
  unfold encode_elems. assert (Hg : forall nb n, foldl (fun '(nb, lpsz) v => ((nb ++ PutUvarint (zlen v)) ++ v, lpsz + lpEntrySize v)) (nb, n) xs
    = (nb ++ frames xs, n + sizes xs)); [|by rewrite Hg].
  induction xs as [|v xs IH]; intros nb n; cbn [foldl].
  - unfold frames, sizes. cbn. by rewrite app_nil_r, Z.add_0_r.
  - rewrite IH, frames_cons. cbn [sizes foldr]. fold (sizes xs). unfold frame. rewrite <- !(assoc_L (++)). f_equal. lia.
Qed.

Lemma reencodeInline_inv l ys xs : inline_inv l ys -> Forall okv xs ->
  exists l', reencodeInline l xs = Ok l' /\ list_inv l' xs.
Proof.
  intros [Hn Hg _ _ _ _ _] Ho. unfold reencodeInline. rewrite encode_elems_eq. cbv zeta.
  destruct (Z.ltb_spec listpackBudget (lpOverhead + sizes xs)).
  - destruct (toNative_packed (with_inline l (frames xs) 0 (zlen xs) (lpOverhead + sizes xs)) xs) as (l' & nt & E & Hl & Hb & Hh);
      [done|by apply packed_whole|done|].
    exists l'. split; [done|]. right. split_and!; [done|done|]. by exists nt.
  - eexists. split; [done|]. left. split; cbn [with_inline kl_nat kl_everLarge kl_blob kl_head kl_n kl_lpsz]; try done.
    by apply packed_whole.
Qed.

(** ** The band-dispatching operations act on the elements *)

Lemma length_of_inv l xs : list_inv l xs -> length_of l = zlen xs.
Proof.
  unfold length_of. intros [Hi|(_ & _ & nt & -> & Hh)]; [|by apply dq_ok_count].
  by rewrite (ii_nat _ _ Hi), (ii_n _ _ Hi).
Qed.

Definition pushed (front : bool) (v : bytes) xs : list bytes := if front then v :: xs else xs ++ [v].

Lemma pushed_ok front v xs : Forall okv xs -> okv v -> Forall okv (pushed front v xs).
Proof.
  intros Ho Hv. unfold pushed. destruct front; [by apply Forall_cons|]. apply Forall_app. split; [done|by apply Forall_singleton].
Qed.

Lemma push_ok front nt xs v : holds nt xs -> okv v -> exists nt', push front nt v = Ok nt' /\ holds nt' (pushed front v xs).
Proof. destruct front; [apply dq_ok_pushFront|apply dq_ok_pushBack]. Qed.

Lemma push_end_inv front spare l xs v : list_inv l xs -> okv v ->
  exists l', push_end front spare l v = Ok l' /\ list_inv l' (pushed front v xs).
Proof.
  intros Hl Hv. pose proof (pushed_ok front v xs (list_inv_ok _ _ Hl) Hv) as Ho. unfold push_end.
  destruct Hl as [Hi|(_ & Hb & nt & -> & Hh)].
  - pose proof Hi as [Hn _ Hp _ _ _ Hx]. rewrite Hn. destruct (wouldExceed l (lpEntrySize v)) eqn:Hw.
    + destruct (toNative_packed l xs Hn Hp Hx) as (l1 & nt & E & Hn1 & Hb & Hh). rewrite E, Hn1. clear E.
      destruct (push_ok front nt xs v) as (nt' & E & Hh'); [done|done|]. rewrite E. eexists. split; [done|]. by apply on_nat_inv.
    + eexists. split; [done|]. left. unfold pushed. destruct front; [by apply inlinePushFront_inv|by apply inlinePushBack_inv].
  - destruct (push_ok front nt xs v Hh Hv) as (nt' & E & Hh'). rewrite E. eexists. split; [done|]. by apply on_nat_inv.
Qed.

Lemma popFront_inv l x xs : list_inv l (x :: xs) -> exists l', popFront l = Ok (l', x) /\ list_inv l' xs.
Proof.
  unfold popFront. intros [Hi|(Ho & Hb & nt & -> & Hh)].
  - rewrite (ii_nat _ _ Hi). destruct (inlinePopFront_inv _ _ _ Hi) as (l' & E & Hi'). exists l'. split; [done|]. by left.
  - apply Forall_cons in Ho as [_ Ho]. destruct (dq_ok_popFront _ _ _ Hh) as (nt' & E & Hh'). rewrite E. eexists. split; [done|]. by apply on_nat_inv.
Qed.

Lemma popBack_inv l xs x : list_inv l (xs ++ [x]) -> exists l', popBack l = Ok (l', x) /\ list_inv l' xs.
Proof.
  unfold popBack. intros [Hi|(Ho & Hb & nt & -> & Hh)].
  - rewrite (ii_nat _ _ Hi). destruct (inlinePopBack_inv _ _ _ Hi) as (l' & E & Hi'). exists l'. split; [done|]. by left.
  - apply Forall_app in Ho as [Ho _]. destruct (dq_ok_popBack _ _ _ Hh) as (nt' & E & Hh'). rewrite E. eexists. split; [done|]. by apply on_nat_inv.
Qed.

Lemma get_inv l xs i x : list_inv l xs -> small xs -> 0 <= i -> xs !! Z.to_nat i = Some x ->
  exists l', get l i = Ok (l', x) /\ list_inv l' xs.
Proof.
  unfold get. intros [Hi|(Ho & Hb & nt & -> & Hh)] Hsm H0 Hx.
  - rewrite (ii_nat _ _ Hi), (inlineAt_inv _ _ _ _ Hi Hx). exists l. split; [done|]. by left.
  - destruct (dq_ok_at _ _ _ _ Hh Hsm H0 Hx) as (nt' & E & Hh'). rewrite E. eexists. split; [done|]. by apply on_nat_inv.
Qed.

Lemma range_frames_packed sp ys : roomy sp -> forall blob pos zs out, packed blob pos (ys ++ zs) ->
  range_frames sp (length ys) blob pos out = Ok (out ++ concat (map bulk ys)).
Proof.
  intros Hsp. induction ys as [|y ys IH]; intros blob pos zs out Hp; cbn [length range_frames].
  { cbn. by rewrite app_nil_r. }
  cbn [app] in Hp. destruct (packed_cons _ _ _ _ Hp) as (Hy & _ & _ & _ & Hp'). rewrite (frame_at_packed _ _ _ _ Hp), (IH _ _ _ _ Hp').
  rewrite AppendBulk_eq; [by rewrite <- (assoc_L (++))| |apply Hsp].
  unfold fits in Hy. pose proof (zlen_nonneg y). unfold is_u64. lia.
Qed.

Lemma appendRange_inv sp l xs out lo hi : roomy sp -> list_inv l xs -> small xs -> 0 <= lo <= hi -> hi < zlen xs ->
  exists l', appendRange sp l out lo hi = Ok (l', out ++ concat (map bulk (sl xs lo (hi + 1 - lo)))) /\ list_inv l' xs.
Proof.
  unfold appendRange. intros Hsp [Hi|(Ho & Hb & nt & -> & Hh)] Hsm Hlo Hhi.
  - rewrite (ii_nat _ _ Hi). pose proof (ii_packed _ _ Hi) as Hp.
    assert (Hx : xs = ztake lo xs ++ sl xs lo (hi + 1 - lo) ++ zdrop (hi + 1 - lo) (zdrop lo xs)) by (unfold sl; by rewrite !ztake_zdrop).
    rewrite Hx in Hp. destruct (packed_app _ _ _ _ Hp) as [Hp' Hs].
    replace (Z.to_nat lo) with (length (ztake lo xs)) by (rewrite ztake_take, length_take; unfold zlen in *; lia).
    rewrite Hs. replace (Z.to_nat (hi + 1 - lo)) with (length (sl xs lo (hi + 1 - lo))).
    + rewrite (range_frames_packed sp _ Hsp _ _ _ _ Hp'). exists l. split; [done|]. by left.
    + assert (zlen (sl xs lo (hi + 1 - lo)) = hi + 1 - lo) by (unfold sl; rewrite zlen_ztake, zlen_zdrop; lia). unfold zlen in *. lia.
  - destruct (dq_ok_rangeInto sp nt xs out lo hi Hsp Hh Hsm Hlo Hhi) as (nt' & E & Hh'). rewrite E. eexists. split; [done|]. by apply on_nat_inv.
Qed.

Lemma setAt_inv l xs i v : list_inv l xs -> small xs -> okv v -> 0 <= i < zlen xs ->
  exists l', setAt l i v = Ok l' /\ list_inv l' (<[Z.to_nat i := v]> xs).
Proof.
  intros Hl Hsm Hv Hr. assert (Ho : Forall okv (<[Z.to_nat i := v]> xs)) by (apply Forall_insert; [by eapply list_inv_ok|done]).
  unfold setAt. destruct Hl as [Hi|(_ & Hb & nt & -> & Hh)].
  - rewrite (ii_nat _ _ Hi), (inlineDecode_inv _ _ Hi). destruct (Z.leb_spec 0 i), (Z.ltb_spec i (zlen xs)); try lia. by eapply reencodeInline_inv.
  - destruct (dq_ok_setAt _ _ _ _ Hh Hsm Hv Hr) as (nt' & E & Hh'). rewrite E. eexists. split; [done|]. by apply on_nat_inv.
Qed.

Lemma insert_inv l xs before pivot v : list_inv l xs -> okv v ->
  exists l', insert l before pivot v = Ok (l', bool_decide (is_Some (insert_spec before pivot v xs)))
    /\ list_inv l' (default xs (insert_spec before pivot v xs)).
Proof.
  intros Hl Hv. pose proof (list_inv_ok _ _ Hl) as Ho.
  assert (Ho' : Forall okv (default xs (insert_spec before pivot v xs))).
  { unfold insert_spec. destruct (index_of pivot xs 0); [|done]. cbn. apply Forall_app. split; [by apply Forall_take|].
    apply Forall_cons. split; [done|by apply Forall_drop]. }
  unfold insert. destruct Hl as [Hi|(_ & Hb & nt & -> & Hh)].
  - rewrite (ii_nat _ _ Hi), (inlineDecode_inv _ _ Hi). unfold insert_spec in *. destruct (index_of pivot xs 0) as [idx|].
    + cbn in Ho' |- *. destruct (reencodeInline_inv l xs _ Hi Ho') as (l' & E & Hl'). rewrite E. by exists l'.
    + exists l. rewrite bool_decide_false by (by intros []). split; [done|]. by left.
  - destruct (dq_ok_insert nt xs before pivot v Hh Hv) as (nt' & E & Hh'). rewrite E. eexists. split; [done|]. by apply on_nat_inv.
Qed.

Lemma keep_loop_sub elems : forall drop P, Forall P elems -> Forall (A := bytes) P (keep_loop elems drop).
Proof.
  induction elems as [|e elems IH]; intros [|d drop] P HP; cbn; try by constructor.
  apply Forall_cons in HP as [He HP]. destruct d; [by apply IH|]. apply Forall_cons. split; [done|by apply IH].
Qed.

Lemma removeMatches_sub xs count v P : Forall P xs -> Forall (A := bytes) P (removeMatches xs count v).1.
Proof.
  intros HP. unfold removeMatches. destruct (lrem_marks xs count v) as [drop r]. destruct (r =? 0); [done|]. by apply keep_loop_sub.
Qed.

Lemma mark_loop_count all limit v xs : forall r, r <= (mark_loop all limit v r xs).2.
Proof.
  induction xs as [|x xs IH]; intros r; cbn [mark_loop]; [cbn; lia|].
  set (h := (_ && _)%bool). specialize (IH (if h then r + 1 else r)). destruct (mark_loop _ _ _ _ xs). cbn in *. destruct h; lia.
Qed.

Lemma lrem_marks_nonneg xs count v : 0 <= (lrem_marks xs count v).2.
Proof.
  unfold lrem_marks. cbv zeta. destruct (0 <=? count); [apply mark_loop_count|].
  pose proof (mark_loop_count false (lrem_limit count) v (rev xs) 0). by destruct (mark_loop _ _ _ _ _).
Qed.

Lemma removeMatches_nonneg xs count v : 0 <= (removeMatches xs count v).2.
Proof.
  unfold removeMatches. pose proof (lrem_marks_nonneg xs count v). destruct (lrem_marks xs count v) as [drop r]. by destruct (r =? 0).
Qed.

Lemma removeMatches_none xs count v : (removeMatches xs count v).2 = 0 -> (removeMatches xs count v).1 = xs.
Proof. unfold removeMatches. destruct (lrem_marks xs count v) as [drop r]. by destruct (Z.eqb_spec r 0). Qed.

Lemma remove_inv l xs count v : list_inv l xs -> - two63 <= count < two63 ->
  exists l', remove l count v = Ok (l', (removeMatches xs count v).2) /\ list_inv l' (removeMatches xs count v).1.
Proof.
  intros Hl Hc. pose proof (removeMatches_sub xs count v okv (list_inv_ok _ _ Hl)) as Ho. unfold remove.
  destruct Hl as [Hi|(_ & Hb & nt & -> & Hh)].
  - rewrite (ii_nat _ _ Hi), (inlineDecode_inv _ _ Hi). pose proof (removeMatches_nonneg xs count v).
    pose proof (removeMatches_none xs count v) as Hnone. destruct (removeMatches xs count v) as [kept r]. cbn [fst snd] in *.
    destruct (Z.ltb_spec 0 r).
    + destruct (reencodeInline_inv l xs kept Hi Ho) as (l' & E & Hl'). rewrite E. by exists l'.
    + rewrite Hnone by lia. exists l. split; [done|]. by left.
  - destruct (dq_ok_remove nt xs count v Hh Hc) as (nt' & E & Hh'). rewrite E. eexists. split; [done|]. by apply on_nat_inv.
Qed.

Lemma trim_inv l xs start stop : list_inv l xs -> small xs -> (start <= stop -> 0 <= start /\ stop < zlen xs) ->
  exists l', trim l start stop = Ok (l', zlen (sl xs start (stop + 1 - start))) /\ list_inv l' (sl xs start (stop + 1 - start)).
Proof.
  intros Hl Hsm Hr. assert (Ho : Forall okv (sl xs start (stop + 1 - start))).
  { unfold sl. rewrite ztake_take, zdrop_drop. apply Forall_take, Forall_drop. by eapply list_inv_ok. }
  unfold trim. destruct Hl as [Hi|(_ & Hb & nt & -> & Hh)].
  - rewrite (ii_nat _ _ Hi). destruct (Z.ltb_spec stop start).
    + assert (sl xs start (stop + 1 - start) = []) as -> by (unfold sl; apply ztake_nonpos; lia). eexists. split; [done|].
      left. destruct Hi. by split.
    + rewrite (inlineDecode_inv _ _ Hi). destruct (Z.leb_spec 0 start), (Z.leb_spec (stop + 1) (zlen xs)); try lia. cbn [andb].
      destruct (reencodeInline_inv l xs _ Hi Ho) as (l' & E & Hl'). rewrite E. exists l'. by rewrite (length_of_inv _ _ Hl').
  - destruct (dq_ok_trim nt xs start stop Hh Hsm Hr) as (nt' & E & Hh'). rewrite E. eexists.
    rewrite (dq_ok_count _ _ Hh'). split; [done|]. by apply on_nat_inv.
Qed.

Lemma each_inv l xs : list_inv l xs -> each l = Ok xs.
Proof.
  unfold each. intros [Hi|(_ & _ & nt & -> & Hh)]; [|by apply dq_ok_each]. by rewrite (ii_nat _ _ Hi), (inlineDecode_inv _ _ Hi).
Qed.

Lemma lpos_scan_inv l xs target limit maxlen : inline_inv l xs -> forall ix st,
  Forall (fun p => 0 <= p.1 /\ xs !! Z.to_nat p.1 = Some p.2) ix ->
  lpos_scan target limit maxlen l st (map fst ix) = Ok (lpos_walk target limit maxlen st ix).2.
Proof.
  intros Hi. induction ix as [|[i v] ix IH]; intros st Hf; [done|]. apply Forall_cons in Hf as [[H0 Hv] Hf]. cbn [map fst lpos_scan lpos_walk].
  destruct (lpos_stop maxlen st); [done|]. cbn [fst snd] in *. rewrite (inlineAt_inv _ _ _ _ Hi Hv).
  destruct (lpos_visit _ _ _ _ _) as [[] st']; [by apply IH|done].
Qed.

Lemma lposScan_inv l xs target rank limit maxlen : list_inv l xs ->
  lposScan l target rank limit maxlen = Ok (lpos_run xs target rank limit maxlen).
Proof.
  intros Hl. pose proof (length_of_inv _ _ Hl) as Hn. unfold lposScan. destruct Hl as [Hi|(_ & _ & nt & -> & Hh)]; [|by apply dq_ok_lpos].
  rewrite (ii_nat _ _ Hi), Hn. unfold lpos_run. cbv zeta. set (items := zip (seqZ 0 (zlen xs)) xs).
  assert (Hf : Forall (fun p => 0 <= p.1 /\ xs !! Z.to_nat p.1 = Some p.2) items).
  { apply Forall_lookup. intros i [j v] Hj. apply lookup_zip_Some in Hj as [Hj Hx]. apply lookup_seqZ in Hj as [-> ?]. cbn [fst snd]. split; [lia|].
    by replace (Z.to_nat (0 + Z.of_nat i)) with i by lia. }
  assert (Hm : map fst items = seqZ 0 (zlen xs)).
  { apply fst_zip. rewrite length_seqZ. unfold zlen. lia. }
  assert (E : (if 0 <? rank then seqZ 0 (zlen xs) else rev (seqZ 0 (zlen xs))) = map fst (if 0 <? rank then items else rev items)).
  { destruct (0 <? rank); [done|]. by rewrite map_rev, Hm. }
  rewrite E, (lpos_scan_inv l xs) by (done || (destruct (0 <? rank); [done|by apply Forall_rev])).
  destruct (lpos_walk _ _ _ _ _) as [go [[]]]. done.
Qed.
End inline.
