(* ===== verification/ChunkRing.v ===== *)
(** The ring of chunk handles (engine/f3/list/native.go, [chunkRing]): a growable circular
    buffer, read as the list of its live handles.

    A handle mutated through its pointer is a write of its slot: the live window holds each
    chunk once. *)

From S2P Require Import Prelude.
#[local] Open Scope Z_scope.

#[local] Abbreviation P A := (res Empty_set A).

Record chunkRing (C : Type) := mkRing {
  cr_buf : list (option C);
  cr_head : Z;
  cr_n : Z
}.
#[global] Arguments mkRing {C} _ _ _.
#[global] Arguments cr_buf {C} _.
#[global] Arguments cr_head {C} _.
#[global] Arguments cr_n {C} _.

Section ring.
Context {C : Type}.
Implicit Types (r : chunkRing C) (buf : list (option C)) (c : C) (cs : list C).

(** An index expression of the buffer: Go's remainder panics on an empty buffer, the index
    out of range. *)
Definition slot_read buf (i : Z) : P (option C) :=
  if zlen buf =? 0 then Panic
  else let j := Z.rem i (zlen buf) in
       if j <? 0 then Panic else match buf !! Z.to_nat j with Some x => Ok x | None => Panic end.

Definition slot_write buf (i : Z) (x : option C) : P (list (option C)) :=
  let* _ := slot_read buf i in Ok (<[Z.to_nat (Z.rem i (zlen buf)) := x]> buf).

(** A nil handle panics at its first use. *)
Definition deref (x : option C) : P C := match x with Some c => Ok c | None => Panic end.

Definition ring_at r (i : Z) : P C := let* x := slot_read (cr_buf r) (cr_head r + i) in deref x.
Definition ring_tail r : P C := let* x := slot_read (cr_buf r) (cr_head r + cr_n r - 1) in deref x.
Definition ring_front r : P C :=
  match cr_buf r !! Z.to_nat (cr_head r) with Some x => deref x | None => Panic end.

(** Writing the handle of logical position [i]. *)
Definition ring_set r (i : Z) c : P (chunkRing C) :=
  let* buf := slot_write (cr_buf r) (cr_head r + i) (Some c) in Ok (mkRing buf (cr_head r) (cr_n r)).

(** [for i := 0; i < r.n; i++ { nb[i] = r.at(i) }] *)
Fixpoint copy_handles r (i : Z) (k : nat) : P (list (option C)) :=
  match k with
  | O => Ok []
  | S k' =>
      let* x := slot_read (cr_buf r) (cr_head r + i) in
      let* xs := copy_handles r (i + 1) k' in
      Ok (x :: xs)
  end.

Definition ring_grow r : P (chunkRing C) :=
  let cap := Z.max 4 (zlen (cr_buf r) * 2) in
  let* xs := copy_handles r 0 (Z.to_nat (cr_n r)) in
  Ok (mkRing (xs ++ replicate (Z.to_nat (cap - cr_n r)) None) 0 (cr_n r)).

Definition ring_room r : P (chunkRing C) := if cr_n r =? zlen (cr_buf r) then ring_grow r else Ok r.

Definition pushTail r c : P (chunkRing C) :=
  let* r := ring_room r in
  let* buf := slot_write (cr_buf r) (cr_head r + cr_n r) (Some c) in
  Ok (mkRing buf (cr_head r) (cr_n r + 1)).

Definition pushHead r c : P (chunkRing C) :=
  let* r := ring_room r in
  let len := zlen (cr_buf r) in
  if len =? 0 then Panic
  else
    let head := Z.rem (cr_head r - 1 + len) len in
    let* buf := slot_write (cr_buf r) head (Some c) in
    Ok (mkRing buf head (cr_n r + 1)).

Definition popHead r : P (chunkRing C) :=
  let* buf := slot_write (cr_buf r) (cr_head r) None in
  Ok (mkRing buf (Z.rem (cr_head r + 1) (zlen buf)) (cr_n r - 1)).

Definition popTail r : P (chunkRing C) :=
  let n := cr_n r - 1 in
  let* buf := slot_write (cr_buf r) (cr_head r + n) None in
  Ok (mkRing buf (cr_head r) n).

(** [for j := r.n; j > i; j--]: [k] handles from position [i+k] down *)
Fixpoint shift_up buf (head i : Z) (k : nat) : P (list (option C)) :=
  match k with
  | O => Ok buf
  | S k' =>
      let j := i + Z.of_nat k in
      let* x := slot_read buf (head + j - 1) in
      let* buf := slot_write buf (head + j) x in
      shift_up buf head i k'
  end.

Definition insertAt r (i : Z) c : P (chunkRing C) :=
  if i =? cr_n r then pushTail r c
  else if i =? 0 then pushHead r c
  else
    let* r := ring_room r in
    let* buf := shift_up (cr_buf r) (cr_head r) i (Z.to_nat (cr_n r - i)) in
    let* buf := slot_write buf (cr_head r + i) (Some c) in
    Ok (mkRing buf (cr_head r) (cr_n r + 1)).

(** [for j := i; j < r.n-1; j++] *)
Fixpoint shift_down buf (head j : Z) (k : nat) : P (list (option C)) :=
  match k with
  | O => Ok buf
  | S k' =>
      let* x := slot_read buf (head + j + 1) in
      let* buf := slot_write buf (head + j) x in
      shift_down buf head (j + 1) k'
  end.

Definition removeAt r (i : Z) : P (chunkRing C) :=
  if i =? 0 then popHead r
  else if i =? cr_n r - 1 then popTail r
  else
    let* buf := shift_down (cr_buf r) (cr_head r) i (Z.to_nat (cr_n r - 1 - i)) in
    let* buf := slot_write buf (cr_head r + cr_n r - 1) None in
    Ok (mkRing buf (cr_head r) (cr_n r - 1)).

(** ** The live handles *)

(** The slot of logical position [i]. *)
Definition ix buf (head : Z) (i : Z) : nat := Z.to_nat ((head + i) mod zlen buf).

Definition rview r cs : Prop :=
  zlen cs = cr_n r /\ cr_n r <= zlen (cr_buf r)
  /\ (0 <= cr_head r < zlen (cr_buf r) \/ (cr_head r = 0 /\ zlen (cr_buf r) = 0))
  /\ forall i c, 0 <= i -> cs !! Z.to_nat i = Some c -> cr_buf r !! ix (cr_buf r) (cr_head r) i = Some (Some c).

Definition empty_ring : chunkRing C := mkRing [] 0 0.
Lemma empty_ring_view : rview empty_ring [].
Proof. split_and!; [done|done|by right|]. intros i c _ Hc. by rewrite lookup_nil in Hc. Qed.

Lemma ix_lt buf head i : 0 < zlen buf -> (ix buf head i < length buf)%nat.
Proof. intros Hl. unfold ix. pose proof (Z.mod_pos_bound (head + i) (zlen buf) Hl). unfold zlen in *. lia. Qed.

Lemma ix_inj buf head i j : 0 < zlen buf -> 0 <= i < zlen buf -> 0 <= j < zlen buf -> ix buf head i = ix buf head j -> i = j.
Proof.
  intros Hl Hi Hj E. unfold ix in E. pose proof (Z.mod_pos_bound (head + i) (zlen buf) Hl). pose proof (Z.mod_pos_bound (head + j) (zlen buf) Hl).
  assert (Hm : (head + i) mod zlen buf = (head + j) mod zlen buf) by lia.
  assert (Hz : (i - j) mod zlen buf = 0).
  { replace (i - j) with ((head + i) - (head + j)) by lia. rewrite Zminus_mod, Hm, Z.sub_diag. by apply Z.mod_0_l; lia. }
  apply Z.mod_divide in Hz as [q Hq]; [|lia].
  destruct (Z.lt_trichotomy q 0) as [?|[->|?]]; [nia|lia|nia].
Qed.

Lemma ix_insert buf head i k x : ix (<[k := x]> buf) head i = ix buf head i.
Proof. unfold ix, zlen. by rewrite length_insert. Qed.

Lemma slot_read_ix buf head i : 0 < zlen buf -> 0 <= head + i ->
  exists x, slot_read buf (head + i) = Ok x /\ buf !! ix buf head i = Some x.
Proof.
  intros Hl Hn. unfold slot_read. destruct (Z.eqb_spec (zlen buf) 0); [lia|]. cbv zeta.
  rewrite Z.rem_mod_nonneg by lia. pose proof (Z.mod_pos_bound (head + i) (zlen buf) Hl).
  destruct (Z.ltb_spec ((head + i) mod zlen buf) 0); [lia|]. fold (ix buf head i).
  destruct (lookup_lt_is_Some_2 buf (ix buf head i) (ix_lt _ _ _ Hl)) as [x E]. rewrite E. by exists x.
Qed.

Lemma slot_write_ix buf head i x : 0 < zlen buf -> 0 <= head + i -> slot_write buf (head + i) x = Ok (<[ix buf head i := x]> buf).
Proof.
  intros Hl Hn. unfold slot_write. destruct (slot_read_ix buf head i Hl Hn) as (y & -> & _). by rewrite Z.rem_mod_nonneg by lia.
Qed.

Lemma zlen_insert buf k x : zlen (<[k := x]> buf) = zlen buf.
Proof. unfold zlen. by rewrite length_insert. Qed.

(** A position of a ring with a handle, or of one with room. *)
Lemma lookup_ix_ne buf head i j x : 0 < zlen buf -> 0 <= i < zlen buf -> 0 <= j < zlen buf -> i <> j ->
  <[ix buf head i := x]> buf !! ix buf head j = buf !! ix buf head j.
Proof. intros Hl Hi Hj Hne. apply list_lookup_insert_ne. intros E. by apply Hne, (ix_inj buf head). Qed.

Lemma lookup_ix_eq buf head i x : 0 < zlen buf -> <[ix buf head i := x]> buf !! ix buf head i = Some x.
Proof. intros Hl. apply list_lookup_insert_eq. by apply ix_lt. Qed.
End ring.

Section ring_ops.
Context {C : Type}.
Implicit Types (r : chunkRing C) (c : C) (cs : list C).

Lemma lookup_zrange {A} (cs : list A) i (c : A) : 0 <= i -> cs !! Z.to_nat i = Some c -> i < zlen cs.
Proof. intros Hi Hc. apply lookup_lt_Some in Hc. unfold zlen. lia. Qed.

Lemma ring_at_view r cs i c : rview r cs -> 0 <= i -> cs !! Z.to_nat i = Some c -> ring_at r i = Ok c.
Proof.
  intros (Hn & Hl & Hh & Hv) Hi Hc. pose proof (lookup_zrange _ _ _ Hi Hc). unfold ring_at.
  destruct (slot_read_ix (cr_buf r) (cr_head r) i) as (x & -> & Hx); [lia|lia|]. rewrite (Hv i c Hi Hc) in Hx. by injection Hx as <-.
Qed.

Lemma ring_front_view r c cs : rview r (c :: cs) -> ring_front r = Ok c.
Proof.
  intros (Hn & Hl & Hh & Hv). rewrite zlen_cons in Hn. pose proof (zlen_nonneg cs). specialize (Hv 0 c (Z.le_refl 0) eq_refl).
  unfold ix in Hv. rewrite Z.add_0_r, Z.mod_small in Hv by lia. unfold ring_front. by rewrite Hv.
Qed.

Lemma lookup_last_z (cs : list C) c : (cs ++ [c]) !! Z.to_nat (zlen cs) = Some c.
Proof. unfold zlen. rewrite Nat2Z.id. apply list_lookup_middle. done. Qed.

Lemma ring_tail_view r cs c : rview r (cs ++ [c]) -> ring_tail r = Ok c.
Proof.
  intros Hv. pose proof Hv as (Hn & _). rewrite zlen_app in Hn. change (zlen [c]) with 1 in Hn. pose proof (zlen_nonneg cs).
  pose proof (ring_at_view r (cs ++ [c]) (zlen cs) c Hv (zlen_nonneg cs) (lookup_last_z cs c)) as E. unfold ring_at in E. unfold ring_tail.
  by replace (cr_head r + cr_n r - 1) with (cr_head r + zlen cs) by lia.
Qed.

Lemma ring_set_view r cs i c : rview r cs -> 0 <= i < zlen cs -> exists r', ring_set r i c = Ok r' /\ rview r' (<[Z.to_nat i := c]> cs) /\ cr_n r' = cr_n r.
Proof.
  intros (Hn & Hl & Hh & Hv) Hi. unfold ring_set. rewrite slot_write_ix by lia. eexists. split; [done|]. split; [|done].
  split_and!; cbn [cr_buf cr_head cr_n].
  - unfold zlen in *. by rewrite length_insert.
  - by rewrite zlen_insert.
  - by rewrite zlen_insert.
  - intros j d Hj Hd. rewrite ix_insert. pose proof (lookup_zrange _ _ _ Hj Hd) as Hjl. unfold zlen in Hjl. rewrite length_insert in Hjl. fold (zlen cs) in Hjl.
    destruct (decide (i = j)) as [<-|Hne].
    + rewrite list_lookup_insert_eq in Hd by (unfold zlen in *; lia). injection Hd as <-. apply lookup_ix_eq. lia.
    + rewrite list_lookup_insert_ne in Hd by lia. rewrite lookup_ix_ne by lia. by apply Hv.
Qed.

Lemma copy_handles_view r cs : rview r cs -> forall k i, 0 <= i -> i + Z.of_nat k = zlen cs ->
  copy_handles r i k = Ok (map Some (drop (Z.to_nat i) cs)).
Proof.
  intros (Hn & Hl & Hh & Hv). induction k as [|k IH]; intros i Hi Hk; cbn [copy_handles].
  { rewrite drop_ge; [done|]. unfold zlen in *. lia. }
  destruct (lookup_lt_is_Some_2 cs (Z.to_nat i)) as [c Hc]; [unfold zlen in *; lia|].
  destruct (slot_read_ix (cr_buf r) (cr_head r) i) as (x & -> & Hx); [lia|lia|]. rewrite (Hv i c Hi Hc) in Hx. injection Hx as <-.
  rewrite IH by lia. rewrite (drop_S _ _ _ Hc). by replace (Z.to_nat (i + 1)) with (S (Z.to_nat i)) by lia.
Qed.

(** A full buffer is copied into a larger one, in order. *)
Lemma ring_room_view r cs : rview r cs -> exists r', ring_room r = Ok r' /\ rview r' cs /\ cr_n r' < zlen (cr_buf r') /\ 0 <= cr_head r'.
Proof.
  intros Hr. pose proof Hr as (Hn & Hl & Hh & Hv). pose proof (zlen_nonneg cs). unfold ring_room.
  destruct (Z.eqb_spec (cr_n r) (zlen (cr_buf r))) as [E|]; [|exists r; split_and!; [done|done|lia|lia]].
  unfold ring_grow. rewrite (copy_handles_view r cs Hr) by (unfold zlen in *; lia). eexists. split; [done|].
  cbn [drop Z.to_nat]. rewrite drop_0. set (cap := Z.max 4 _).
  assert (Hlen : zlen (map Some cs ++ replicate (Z.to_nat (cap - cr_n r)) None) = cap).
  { rewrite zlen_app. unfold zlen at 1 2. rewrite length_map, length_replicate. fold (zlen cs). unfold cap in *. unfold zlen in *. lia. }
  assert (cr_n r < cap) by (unfold cap; lia).
  split; [|cbn [cr_n cr_buf cr_head]; lia]. split_and!; cbn [cr_buf cr_head cr_n]; [done|lia|left; lia|].
  intros i c Hi Hc. pose proof (lookup_zrange _ _ _ Hi Hc). unfold ix. rewrite Hlen, Z.add_0_l, Z.mod_small by lia.
  apply lookup_app_l_Some. change (map Some cs) with (Some <$> cs). by rewrite list_lookup_fmap, Hc.
Qed.

Lemma pushTail_view r cs c : rview r cs -> exists r', pushTail r c = Ok r' /\ rview r' (cs ++ [c]).
Proof.
  intros Hr. destruct (ring_room_view r cs Hr) as (r1 & E & (Hn & Hl & Hh & Hv) & Hlt & Hp). unfold pushTail. rewrite E.
  pose proof (zlen_nonneg cs). rewrite slot_write_ix by lia. eexists. split; [done|]. split_and!; cbn [cr_buf cr_head cr_n].
  - rewrite zlen_app. change (zlen [c]) with 1. lia.
  - rewrite zlen_insert. lia.
  - rewrite zlen_insert. lia.
  - intros j d Hj Hd. rewrite ix_insert. apply lookup_snoc_Some in Hd as [[Hjl Hd]|[Hjl <-]].
    + rewrite lookup_ix_ne by (unfold zlen in *; lia). by apply Hv.
    + replace j with (cr_n r1) by (unfold zlen in *; lia). apply lookup_ix_eq. lia.
Qed.

(** Moving the head re-numbers the positions. *)
Lemma ix_head (buf : list (option C)) h d i : 0 < zlen buf -> ix buf ((h + d) mod zlen buf) i = ix buf h (i + d).
Proof. intros Hl. unfold ix. rewrite Zplus_mod_idemp_l. do 2 f_equal. lia. Qed.

Lemma slot_write_head (buf : list (option C)) h x : 0 < zlen buf -> 0 <= h -> slot_write buf h x = Ok (<[ix buf h 0 := x]> buf).
Proof. intros Hl Hh. rewrite <- (slot_write_ix buf h 0 x) by lia. by rewrite Z.add_0_r. Qed.

Lemma pushHead_view r cs c : rview r cs -> exists r', pushHead r c = Ok r' /\ rview r' (c :: cs).
Proof.
  intros Hr. destruct (ring_room_view r cs Hr) as (r1 & E & (Hn & Hl & Hh & Hv) & Hlt & Hp). unfold pushHead. rewrite E. cbv zeta.
  pose proof (zlen_nonneg cs). destruct (Z.eqb_spec (zlen (cr_buf r1)) 0); [lia|]. rewrite Z.rem_mod_nonneg by lia.
  set (len := zlen (cr_buf r1)) in *. replace (cr_head r1 - 1 + len) with (cr_head r1 + (len - 1)) by lia.
  set (head := (cr_head r1 + (len - 1)) mod len). assert (Hhd : 0 <= head < len) by (apply Z.mod_pos_bound; lia).
  rewrite (slot_write_head (cr_buf r1) head) by lia. eexists. split; [done|]. split_and!; cbn [cr_buf cr_head cr_n].
  - rewrite zlen_cons. lia.
  - rewrite zlen_insert. lia.
  - rewrite zlen_insert. lia.
  - intros j d Hj Hd. rewrite ix_insert. destruct (decide (j = 0)) as [->|Hj0].
    + cbn in Hd. injection Hd as <-. apply lookup_ix_eq. lia.
    + pose proof (lookup_zrange _ _ _ Hj Hd) as Hjl. rewrite zlen_cons in Hjl.
      replace (Z.to_nat j) with (S (Z.to_nat (j - 1))) in Hd by lia. cbn in Hd. rewrite lookup_ix_ne by lia.
      unfold head, len. rewrite ix_head by lia. fold len. rewrite <- (Hv (j - 1) d) by (done || lia). f_equal.
      unfold ix. fold len. f_equal. replace (cr_head r1 + (j + (len - 1))) with (cr_head r1 + (j - 1) + 1 * len) by lia. apply Z_mod_plus_full.
Qed.

Lemma popHead_view r c cs : rview r (c :: cs) -> exists r', popHead r = Ok r' /\ rview r' cs.
Proof.
  intros (Hn & Hl & Hh & Hv). rewrite zlen_cons in Hn. pose proof (zlen_nonneg cs). unfold popHead.
  rewrite slot_write_head by lia. eexists. split; [done|]. rewrite zlen_insert.
  rewrite Z.rem_mod_nonneg by lia. pose proof (Z.mod_pos_bound (cr_head r + 1) (zlen (cr_buf r))) as Hm.
  split_and!; cbn [cr_buf cr_head cr_n].
  - lia.
  - rewrite zlen_insert. lia.
  - rewrite zlen_insert. left. lia.
  - intros j d Hj Hd. pose proof (lookup_zrange _ _ _ Hj Hd). rewrite ix_insert, ix_head by lia.
    rewrite lookup_ix_ne by lia. apply Hv; [lia|]. replace (Z.to_nat (j + 1)) with (S (Z.to_nat j)) by lia. done.
Qed.

Lemma popTail_view r cs c : rview r (cs ++ [c]) -> exists r', popTail r = Ok r' /\ rview r' cs.
Proof.
  intros (Hn & Hl & Hh & Hv). rewrite zlen_app in Hn. change (zlen [c]) with 1 in Hn. pose proof (zlen_nonneg cs). unfold popTail. cbv zeta.
  rewrite slot_write_ix by lia. eexists. split; [done|]. split_and!; cbn [cr_buf cr_head cr_n].
  - lia.
  - rewrite zlen_insert. lia.
  - by rewrite zlen_insert.
  - intros j d Hj Hd. pose proof (lookup_zrange _ _ _ Hj Hd). rewrite ix_insert, lookup_ix_ne by lia. apply Hv; [done|]. by apply lookup_app_l_Some.
Qed.

Lemma shift_up_spec head i : 0 <= head -> 0 <= i -> forall k (buf : list (option C)), i + Z.of_nat k < zlen buf ->
  exists buf', shift_up buf head i k = Ok buf' /\ zlen buf' = zlen buf
    /\ forall t, 0 <= t < zlen buf ->
         buf' !! ix buf head t = if decide (i < t <= i + Z.of_nat k) then buf !! ix buf head (t - 1) else buf !! ix buf head t.
Proof.
  intros Hh Hi. induction k as [|k IH]; intros buf Hk.
  { exists buf. split_and!; [done|done|]. intros t Ht. by rewrite decide_False by lia. }
  cbn [shift_up]. set (j := i + Z.of_nat (S k)) in *. replace (head + j - 1) with (head + (j - 1)) by lia.
  destruct (slot_read_ix buf head (j - 1)) as (x & -> & Hx); [lia|lia|]. rewrite slot_write_ix by lia.
  destruct (IH (<[ix buf head j := x]> buf)) as (buf' & E & Hl' & Hs); [rewrite zlen_insert; lia|]. rewrite zlen_insert in Hl', Hs.
  exists buf'. split_and!; [done|done|]. intros t Ht. specialize (Hs t Ht). rewrite !ix_insert in Hs. rewrite Hs.
  destruct (decide (t = j)) as [->|Hne].
  - rewrite decide_False by lia. rewrite decide_True by lia. rewrite Hx. apply lookup_ix_eq. lia.
  - destruct (decide (i < t <= i + Z.of_nat k)).
    + rewrite decide_True by lia. apply lookup_ix_ne; lia.
    + rewrite decide_False by lia. apply lookup_ix_ne; lia.
Qed.

Lemma shift_down_spec head : 0 <= head -> forall k i (buf : list (option C)), 0 <= i -> i + Z.of_nat k < zlen buf ->
  exists buf', shift_down buf head i k = Ok buf' /\ zlen buf' = zlen buf
    /\ forall t, 0 <= t < zlen buf ->
         buf' !! ix buf head t = if decide (i <= t < i + Z.of_nat k) then buf !! ix buf head (t + 1) else buf !! ix buf head t.
Proof.
  intros Hh. induction k as [|k IH]; intros i buf Hi Hk.
  { exists buf. split_and!; [done|done|]. intros t Ht. by rewrite decide_False by lia. }
  cbn [shift_down]. replace (head + i + 1) with (head + (i + 1)) by lia.
  destruct (slot_read_ix buf head (i + 1)) as (x & -> & Hx); [lia|lia|]. rewrite slot_write_ix by lia.
  destruct (IH (i + 1) (<[ix buf head i := x]> buf)) as (buf' & E & Hl' & Hs); [lia|rewrite zlen_insert; lia|]. rewrite zlen_insert in Hl', Hs.
  exists buf'. split_and!; [done|done|]. intros t Ht. specialize (Hs t Ht). rewrite !ix_insert in Hs. rewrite Hs.
  destruct (decide (t = i)) as [->|Hne].
  - rewrite decide_False by lia. rewrite decide_True by lia. rewrite Hx. apply lookup_ix_eq. lia.
  - destruct (decide (i + 1 <= t < i + 1 + Z.of_nat k)).
    + rewrite decide_True by lia. apply lookup_ix_ne; lia.
    + rewrite decide_False by lia. apply lookup_ix_ne; lia.
Qed.

(** The list with [c] at position [i]. *)
Definition ins_at (i : Z) c cs : list C := take (Z.to_nat i) cs ++ c :: drop (Z.to_nat i) cs.

Lemma insertAt_view r cs i c : rview r cs -> 0 <= i <= zlen cs -> exists r', insertAt r i c = Ok r' /\ rview r' (ins_at i c cs).
Proof.
  intros Hr Hi. pose proof Hr as (Hn & _). unfold insertAt, ins_at. destruct (Z.eqb_spec i (cr_n r)) as [E|Hne].
  { rewrite take_ge, drop_ge by (unfold zlen in *; lia). by apply pushTail_view. }
  destruct (Z.eqb_spec i 0) as [->|H0]; [by apply pushHead_view|]. clear Hn.
  destruct (ring_room_view r cs Hr) as (r1 & E & (Hn1 & Hl & Hh & Hv) & Hlt & Hp). rewrite E.
  destruct Hr as (Hn & _). 
  destruct (shift_up_spec (cr_head r1) i Hp (proj1 Hi) (Z.to_nat (cr_n r1 - i)) (cr_buf r1)) as (buf' & E' & Hl' & Hs); [lia|]. rewrite E'.
  assert (Hix : forall t, ix buf' (cr_head r1) t = ix (cr_buf r1) (cr_head r1) t) by (intros t; unfold ix; by rewrite Hl').
  rewrite slot_write_ix by lia. eexists. split; [done|]. split_and!; cbn [cr_buf cr_head cr_n].
  - rewrite zlen_app, zlen_cons. unfold zlen in *. rewrite length_take, length_drop. lia.
  - rewrite zlen_insert. lia.
  - rewrite zlen_insert. lia.
  - intros j d Hj Hd. rewrite ix_insert. pose proof (lookup_zrange _ _ _ Hj Hd) as Hjl.
    rewrite zlen_app, zlen_cons in Hjl. assert (Hjn : j <= cr_n r1) by (unfold zlen in *; rewrite length_take, length_drop in Hjl; lia).
    destruct (decide (j = i)) as [->|Hne'].
    + rewrite lookup_app_r, length_take in Hd by (rewrite length_take; lia).
      replace (Z.to_nat i - (Z.to_nat i `min` length cs))%nat with 0%nat in Hd by (unfold zlen in *; lia). injection Hd as <-.
      apply lookup_ix_eq. lia.
    + rewrite lookup_ix_ne by lia. rewrite Hix, Hs by lia. destruct (decide (i < j <= _)).
      * apply Hv; [lia|]. rewrite lookup_app_r, length_take in Hd by (rewrite length_take; lia).
        replace (Z.to_nat j - (Z.to_nat i `min` length cs))%nat with (S (Z.to_nat (j - 1 - i))) in Hd by (unfold zlen in *; lia).
        rewrite <- lookup_tail in Hd. cbn [tail] in Hd. rewrite lookup_drop in Hd. by replace (Z.to_nat i + Z.to_nat (j - 1 - i))%nat with (Z.to_nat (j - 1)) in Hd by lia.
      * apply Hv; [done|]. rewrite lookup_app_l in Hd by (rewrite length_take; unfold zlen in *; lia). by rewrite lookup_take_Some in Hd; destruct Hd.
Qed.

Lemma removeAt_view r cs i : rview r cs -> 0 <= i < zlen cs -> exists r', removeAt r i = Ok r' /\ rview r' (delete (Z.to_nat i) cs).
Proof.
  intros Hr Hi. pose proof Hr as (Hn & Hl & Hh & Hv). unfold removeAt. destruct (Z.eqb_spec i 0) as [->|H0].
  { destruct cs as [|c cs]; [change (zlen []) with 0 in Hi; lia|]. cbn. by eapply popHead_view. }
  destruct (Z.eqb_spec i (cr_n r - 1)) as [E|Hne].
  { destruct cs as [|c cs _] using rev_ind; [change (zlen []) with 0 in Hi; lia|]. rewrite zlen_app in Hn. change (zlen [c]) with 1 in Hn.
    (replace (delete (Z.to_nat i) (cs ++ [c])) with cs; [by eapply popTail_view|]).
    replace (Z.to_nat i) with (length cs) by (unfold zlen in *; lia). by rewrite (delete_middle cs [] c), app_nil_r. }
  destruct (shift_down_spec (cr_head r) ltac:(lia) (Z.to_nat (cr_n r - 1 - i)) i (cr_buf r)) as (buf' & E' & Hl' & Hs); [lia|lia|]. rewrite E'.
  assert (Hix : forall t, ix buf' (cr_head r) t = ix (cr_buf r) (cr_head r) t) by (intros t; unfold ix; by rewrite Hl').
  replace (cr_head r + cr_n r - 1) with (cr_head r + (cr_n r - 1)) by lia.
  rewrite slot_write_ix by lia. eexists. split; [done|]. split_and!; cbn [cr_buf cr_head cr_n].
  - unfold zlen in *. rewrite length_delete by (apply lookup_lt_is_Some_2; lia). lia.
  - rewrite zlen_insert. lia.
  - rewrite zlen_insert. lia.
  - intros j d Hj Hd. rewrite ix_insert. pose proof (lookup_zrange _ _ _ Hj Hd) as Hjl. unfold zlen in Hjl.
    rewrite length_delete in Hjl by (apply lookup_lt_is_Some_2; unfold zlen in *; lia).
    rewrite lookup_ix_ne by (unfold zlen in *; lia). rewrite Hix, Hs by (unfold zlen in *; lia).
    destruct (decide (i <= j < _)).
    + apply Hv; [lia|]. rewrite list_lookup_delete_ge in Hd by lia. by replace (Z.to_nat (j + 1)) with (S (Z.to_nat j)) by lia.
    + apply Hv; [done|]. by rewrite list_lookup_delete_lt in Hd by (unfold zlen in *; lia).
Qed.
End ring_ops.
