(* ===== verification/Fenwick.v ===== *)
(** The chunk directory (engine/f3/list/native.go, [chunkDir] and [locate]): the flat scan
    over the chunk counts, the Fenwick tree built from them, and the rank descent.

    The descent finds the position the flat scan finds, at every index. *)

From S2P Require Import Prelude ChunkRing.
#[local] Open Scope Z_scope.

#[local] Abbreviation P A := (res Empty_set A).

Definition flatMax : Z := 128.

Record chunkDir := mkDir {
  cd_tree : list Z;
  cd_n : Z;
  cd_pw : Z;
  cd_stale : bool
}.

(** Indexing a [uint64] slice. *)
Definition tree_at (tree : list Z) (i : Z) : P Z :=
  if i <? 0 then Panic else match tree !! Z.to_nat i with Some x => Ok x | None => Panic end.

(** [for i := 1; i <= n; i++]: every node adds itself to its parent *)
Fixpoint build_loop (n : Z) (tree : list Z) (i : Z) (k : nat) : P (list Z) :=
  match k with
  | O => Ok tree
  | S k' =>
      let j := i + Z.land i (- i) in
      let* tree :=
        if j <=? n then
          let* x := tree_at tree i in
          let* y := tree_at tree j in
          Ok (<[Z.to_nat j := add64 y x]> tree)
        else Ok tree in
      build_loop n tree (i + 1) k'
  end.

(** [for pw<<1 <= n { pw <<= 1 }]: an [int] has 63 value bits. *)
Fixpoint pw_loop (fuel : nat) (n pw : Z) : Z :=
  match fuel with
  | O => pw
  | S fuel' => if Z.shiftl pw 1 <=? n then pw_loop fuel' n (Z.shiftl pw 1) else pw
  end.

(** [for pw := d.pw; pw > 0; pw >>= 1] *)
Fixpoint rank_loop (fuel : nat) (d : chunkDir) (pw pos rem : Z) : P (Z * Z) :=
  match fuel with
  | O => Ok (pos, rem)
  | S fuel' =>
      if 0 <? pw then
        let next := pos + pw in
        let* '(pos, rem) :=
          if next <=? cd_n d then
            let* t := tree_at (cd_tree d) next in
            if t <=? rem then Ok (next, rem - t) else Ok (pos, rem)
          else Ok (pos, rem) in
        rank_loop fuel' d (Z.shiftr pw 1) pos rem
      else Ok (pos, rem)
  end.

Definition rank (d : chunkDir) (k : Z) : P (Z * Z) := rank_loop 63 d (cd_pw d) 0 k.

(** The flat scan over counts already read. *)
Fixpoint flat_scan (i k : Z) (counts : list Z) : option (Z * Z) :=
  match counts with
  | [] => None
  | n :: counts' => if k <? n then Some (i, k) else flat_scan (i + 1) (k - n) counts'
  end.

Section dir.
Context {C : Type} (count : C -> Z).

(** The counts the ring's handles carry. *)
Fixpoint ring_counts (r : chunkRing C) (i : Z) (k : nat) : P (list Z) :=
  match k with
  | O => Ok []
  | S k' =>
      let* c := ring_at r i in
      let* ns := ring_counts r (i + 1) k' in
      Ok (count c :: ns)
  end.

Definition sync (d : chunkDir) (r : chunkRing C) : P chunkDir :=
  if negb (cd_stale d) && (cd_n d =? cr_n r) then Ok d
  else
    let n := cr_n r in
    let* ns := ring_counts r 0 (Z.to_nat n) in
    let* tree := build_loop n (0 :: ns) 1 (Z.to_nat n) in
    Ok (mkDir tree n (pw_loop 62 n 1) false).

Fixpoint locate_loop (r : chunkRing C) (i k : Z) (fuel : nat) : P (Z * Z) :=
  match fuel with
  | O => Panic
  | S fuel' =>
      let* c := ring_at r i in
      let n := count c in
      if k <? n then Ok (i, k) else locate_loop r (i + 1) (k - n) fuel'
  end.

(** The directory is a cache: the call leaves it current. *)
Definition locate (d : chunkDir) (r : chunkRing C) (k : Z) : P (chunkDir * (Z * Z)) :=
  if flatMax <? cr_n r then
    let* d := sync d r in
    let* p := rank d k in
    Ok (d, p)
  else
    let* p := locate_loop r 0 k (Z.to_nat (cr_n r)) in
    Ok (d, p).
End dir.

(** ** The lowest set bit *)

Lemma land_odd_neg a : Z.land (2 * a + 1) (- (2 * a + 1)) = 1.
Proof.
  replace (- (2 * a + 1)) with (2 * Z.lnot a + 1) by (unfold Z.lnot; lia). apply Z.bits_inj'. intros n Hn. rewrite Z.land_spec.
  destruct (Z.eq_dec n 0) as [->|Hne]; [by rewrite !Z.testbit_odd_0|]. replace n with (Z.succ (n - 1)) by lia.
  rewrite !Z.testbit_odd_succ by lia. rewrite <- Z.land_spec, Z.land_lnot_diag, Z.bits_0. symmetry. change 1 with (2 * 0 + 1).
  rewrite Z.testbit_odd_succ by lia. apply Z.bits_0.
Qed.

Lemma lowbit_pow a k : 0 <= k -> Z.land ((2 * a + 1) * 2 ^ k) (- ((2 * a + 1) * 2 ^ k)) = 2 ^ k.
Proof.
  intros Hk. rewrite <- Z.mul_opp_l, <- !Z.shiftl_mul_pow2 by done. rewrite <- Z.shiftl_land, land_odd_neg.
  rewrite Z.shiftl_mul_pow2 by done. lia.
Qed.

Lemma odd_pow i : 0 < i -> exists a k, 0 <= a /\ 0 <= k /\ i = (2 * a + 1) * 2 ^ k.
Proof.
  intros Hi. assert (H0 : 0 <= i) by lia. revert Hi. pattern i. apply Zlt_0_ind; [|done]. clear i H0. intros i IH _ Hi.
  destruct (Z.Even_or_Odd i) as [[b Hb]|[b Hb]].
  - destruct (IH b) as (a & k & Ha & Hk & E); [lia|lia|]. exists a, (k + 1). split_and!; [done|lia|]. rewrite Z.pow_add_r by lia. lia.
  - exists b, 0. split_and!; [lia|lia|]. rewrite Hb. lia.
Qed.

(** [i] is [2^k] times an odd number. *)
Definition level (i k : Z) : Prop := 0 <= k /\ exists a, 0 <= a /\ i = (2 * a + 1) * 2 ^ k.

Lemma level_ex i : 0 < i -> exists k, level i k.
Proof. intros Hi. destruct (odd_pow i Hi) as (a & k & ? & ? & ?). exists k. split; [done|]. by exists a. Qed.

Lemma level_lowbit i k : level i k -> Z.land i (- i) = 2 ^ k.
Proof. intros (Hk & a & _ & ->). by apply lowbit_pow. Qed.

Lemma pow2_inj i j : 0 <= i -> 0 <= j -> 2 ^ i = 2 ^ j -> i = j.
Proof. intros Hi Hj E. by apply (Z.pow_inj_r 2) in E. Qed.

(** A number has one level. *)
Lemma level_fun i k k' : level i k -> level i k' -> k = k'.
Proof. intros H1 H2. pose proof (level_lowbit _ _ H1) as E. rewrite (level_lowbit _ _ H2) in E. apply pow2_inj; [apply H1|apply H2|done]. Qed.

(** Below the level of [m], stepping back a smaller power lands on that power's level. *)
Lemma level_child m k s : level m k -> 0 <= s < k -> 0 < m - 2 ^ s /\ level (m - 2 ^ s) s.
Proof.
  intros (Hk & a & Ha & ->) Hs. assert (E : 2 ^ k = 2 * 2 ^ (k - s - 1) * 2 ^ s).
  { rewrite <- (Z.pow_succ_r 2 (k - s - 1)) by lia. rewrite <- Z.pow_add_r by lia. f_equal. lia. }
  pose proof (Z.pow_pos_nonneg 2 s ltac:(lia) ltac:(lia)). pose proof (Z.pow_pos_nonneg 2 (k - s - 1) ltac:(lia) ltac:(lia)).
  rewrite E. set (p := 2 ^ (k - s - 1)) in *. split; [nia|]. split; [lia|]. exists ((2 * a + 1) * p - 1). split; [nia|]. ring.
Qed.

(** The parent's level is above. *)
Lemma level_parent t j : level t j -> exists k, j < k /\ level (t + 2 ^ j) k.
Proof.
  intros (Hj & a & Ha & ->). pose proof (Z.pow_pos_nonneg 2 j ltac:(lia) ltac:(lia)).
  destruct (level_ex (a + 1)) as (e & He & b & Hb & E); [lia|]. exists (e + 1 + j). split; [lia|]. split; [lia|]. exists b. split; [done|].
  rewrite !Z.pow_add_r by lia. replace ((2 * a + 1) * 2 ^ j + 2 ^ j) with ((a + 1) * (2 * 2 ^ j)) by ring. rewrite E. ring.
Qed.

(** ** The tree holds block sums *)

Section tree.
Context (cs : list Z).
Hypothesis cs_nonneg : Forall (fun c => 0 <= c) cs.
#[local] Abbreviation n := (zlen cs).

Definition psum (m : Z) : Z := foldr Z.add 0 (take (Z.to_nat m) cs).

Lemma psum_0 : psum 0 = 0.
Proof. done. Qed.

Lemma foldr_add_app a b : foldr Z.add 0 (a ++ b) = foldr Z.add 0 a + foldr Z.add 0 b.
Proof. induction a as [|x a IH]; cbn; lia. Qed.

Lemma psum_succ m c : 0 <= m -> cs !! Z.to_nat m = Some c -> psum (m + 1) = psum m + c.
Proof.
  intros Hm Hc. unfold psum. replace (Z.to_nat (m + 1)) with (S (Z.to_nat m)) by lia.
  rewrite (take_S_r _ _ _ Hc), foldr_add_app. cbn. lia.
Qed.

Lemma psum_mono a b : 0 <= a <= b -> psum a <= psum b.
Proof.
  intros Hab. unfold psum. replace (Z.to_nat b) with (Z.to_nat a + Z.to_nat (b - a))%nat by lia. rewrite <- take_take_drop, foldr_add_app.
  assert (forall l, Forall (fun c => 0 <= c) l -> 0 <= foldr Z.add 0 l) as Hs.
  { induction 1; cbn; lia. }
  pose proof (Hs _ (Forall_take (fun c => 0 <= c) (Z.to_nat (b - a)) _ (Forall_drop _ (Z.to_nat a) _ cs_nonneg))). lia.
Qed.

Lemma psum_nonneg a : 0 <= a -> 0 <= psum a.
Proof. intros Ha. rewrite <- psum_0. by apply psum_mono. Qed.

(** The nodes up to [i] have added themselves to their parents: node [m] of level [k] holds its
    own count and the block between [m - 2^k] and its last processed child [m - 2^s]. *)
Definition block (m s k : Z) : Z := psum m - psum (m - 1) + psum (m - 2 ^ s) - psum (m - 2 ^ k).

Definition binv (tree : list Z) (i : Z) : Prop :=
  zlen tree = n + 1 /\
  forall m k, 1 <= m <= n -> level m k -> exists s, 0 <= s <= k /\ tree !! Z.to_nat m = Some (block m s k)
    /\ (s = k \/ m - 2 ^ s <= i) /\ (s = 0 \/ i < m - 2 ^ (s - 1)).

Lemma level_range m k : level m k -> 1 <= 2 ^ k <= m.
Proof. intros (Hk & a & Ha & ->). pose proof (Z.pow_pos_nonneg 2 k ltac:(lia) Hk). nia. Qed.

Lemma binv_start : binv (0 :: cs) 0.
Proof.
  split; [rewrite zlen_cons; lia|]. intros m k Hm Hk. pose proof (level_range _ _ Hk). exists k. destruct Hk as (Hk & a & Ha & E).
  split_and!; [done|lia| |by left|].
  - destruct (lookup_lt_is_Some_2 cs (Z.to_nat (m - 1))) as [c Hc]; [unfold zlen in *; lia|].
    replace (Z.to_nat m) with (S (Z.to_nat (m - 1))) by lia. change ((0 :: cs) !! S (Z.to_nat (m - 1))) with (cs !! Z.to_nat (m - 1)). rewrite Hc.
    f_equal. unfold block. pose proof (psum_succ (m - 1) c ltac:(lia) Hc) as Hs. replace (m - 1 + 1) with m in Hs by lia. lia.
  - destruct (Z.eq_dec k 0); [by left|right]. pose proof (Z.pow_lt_mono_r 2 (k - 1) k ltac:(lia) ltac:(lia) ltac:(lia)). lia.
Qed.

Lemma binv_done tree i m k : binv tree i -> 1 <= m <= n -> m <= i + 1 -> level m k ->
  tree !! Z.to_nat m = Some (psum m - psum (m - 2 ^ k)).
Proof.
  intros [_ Hb] Hm Hi Hk. destruct (Hb m k Hm Hk) as (s & Hs & -> & _ & [->|Hlt]).
  - f_equal. unfold block. change (2 ^ 0) with 1. lia.
  - pose proof (Z.pow_pos_nonneg 2 (s - 1) ltac:(lia)). destruct (Z.eq_dec s 0) as [->|]; [f_equal; unfold block; change (2 ^ 0) with 1; lia|lia].
Qed.

Hypothesis cs_fits : psum n < two64.

(** The parent's pending child is the one just processed. *)
Lemma pending_child t j m k s : level t j -> m = t + 2 ^ j -> level m k -> 0 <= s <= k ->
  (s = k \/ m - 2 ^ s <= t - 1) -> (s = 0 \/ t - 1 < m - 2 ^ (s - 1)) -> s = j + 1.
Proof.
  intros Ht -> Hm Hs Ha Hb. destruct (level_parent t j Ht) as (k' & Hk' & Hm'). pose proof (level_fun _ _ _ Hm Hm'). subst k'.
  pose proof (proj1 Ht) as Hj. pose proof (Z.pow_pos_nonneg 2 j ltac:(lia) Hj).
  assert (j < s).
  { destruct Ha as [->|Ha]; [lia|]. apply (Z.pow_lt_mono_r_iff 2); lia. }
  assert (s - 1 <= j); [|lia]. destruct Hb as [->|Hb]; [lia|]. apply (Z.pow_le_mono_r_iff 2); lia.
Qed.

Lemma binv_step tree t j : binv tree (t - 1) -> 1 <= t <= n -> level t j ->
  exists tree',
    (let p := t + Z.land t (- t) in
     if p <=? n then
       let* x := tree_at tree t in
       let* y := tree_at tree p in
       Ok (<[Z.to_nat p := add64 y x]> tree)
     else Ok tree) = (Ok tree' : P (list Z))
    /\ binv tree' t.
Proof.
  intros Hb Ht Hj. rewrite (level_lowbit _ _ Hj). cbv zeta. pose proof (level_range _ _ Hj) as Hr. destruct (level_parent t j Hj) as (kp & Hkp & Hp).
  (* a node that is not the parent keeps its pending child *)
  assert (Hother : forall m k s, level m k -> m <> t + 2 ^ j -> 0 <= s <= k -> (s = k \/ m - 2 ^ s <= t - 1) -> (s = 0 \/ t - 1 < m - 2 ^ (s - 1)) ->
    (s = k \/ m - 2 ^ s <= t) /\ (s = 0 \/ t < m - 2 ^ (s - 1))).
  { intros m k s Hm Hne Hs Ha Hlt. split; [destruct Ha; [by left|right; lia]|]. destruct (Z.eq_dec s 0) as [->|Hs0]; [by left|right].
    destruct (Z.eq_dec (m - 2 ^ (s - 1)) t) as [E|]; [|lia]. exfalso. apply Hne.
    destruct (level_child m k (s - 1) Hm ltac:(lia)) as [_ Hl]. rewrite E in Hl. rewrite (level_fun _ _ _ Hj Hl). lia. }
  destruct Hb as [Hlen Hb]. destruct (Z.leb_spec (t + 2 ^ j) n) as [Hle|Hgt].
  - unfold tree_at. destruct (Z.ltb_spec t 0), (Z.ltb_spec (t + 2 ^ j) 0); try lia.
    rewrite (binv_done tree (t - 1) t j) by (done || lia). destruct (Hb (t + 2 ^ j) kp ltac:(lia) Hp) as (s & Hs & Hy & Ha & Hc). rewrite Hy.
    eexists. split; [done|]. rewrite (pending_child t j (t + 2 ^ j) kp s Hj eq_refl Hp Hs Ha Hc) in *. clear s Hs Ha Hc.
    split; [unfold zlen in *; by rewrite length_insert|]. intros m k Hm Hk. destruct (Z.eq_dec m (t + 2 ^ j)) as [->|Hne].
    + rewrite (level_fun _ _ _ Hk Hp). exists j. split_and!; [apply Hj|lia| |right; lia|].
      * rewrite list_lookup_insert_eq by (unfold zlen in *; lia). f_equal. unfold add64, block.
        rewrite (Z.pow_add_r 2 j 1) by (lia || apply Hj). change (2 ^ 1) with 2. replace (t + 2 ^ j - 2 ^ j * 2) with (t - 2 ^ j) by lia. replace (t + 2 ^ j - 2 ^ j) with t by lia.
        pose proof (level_range _ _ Hp).
        pose proof (Z.pow_le_mono_r 2 (j + 1) kp ltac:(lia) ltac:(lia)) as Hpw. rewrite (Z.pow_add_r 2 j 1) in Hpw by (lia || apply Hj). change (2 ^ 1) with 2 in Hpw.
        pose proof (psum_mono (t + 2 ^ j - 1) (t + 2 ^ j) ltac:(lia)). pose proof (psum_mono (t + 2 ^ j - 2 ^ kp) t ltac:(lia)).
        pose proof (psum_mono t (t + 2 ^ j - 1) ltac:(lia)). pose proof (psum_mono (t + 2 ^ j) n ltac:(lia)).
        pose proof (psum_nonneg (t + 2 ^ j - 2 ^ kp) ltac:(lia)). rewrite Z.mod_small; lia.
      * destruct (Z.eq_dec j 0); [by left|right]. pose proof (proj1 Hj). pose proof (Z.pow_lt_mono_r 2 (j - 1) j ltac:(lia) ltac:(lia) ltac:(lia)). lia.
    + destruct (Hb m k Hm Hk) as (s & Hs & Hv & Ha & Hc). exists s. destruct (Hother m k s Hk Hne Hs Ha Hc). split_and!; try done; try lia.
      by rewrite list_lookup_insert_ne by lia.
  - exists tree. split; [done|]. split; [done|]. intros m k Hm Hk. destruct (Hb m k Hm Hk) as (s & Hs & Hv & Ha & Hc). exists s.
    destruct (Hother m k s Hk ltac:(lia) Hs Ha Hc). split_and!; try done; lia.
Qed.
End tree.

(** ** The descent finds what the scan finds *)

Section rank.
Context (cs : list Z).
Hypothesis cs_nonneg : Forall (fun c => 0 <= c) cs.
Hypothesis cs_fits : psum cs (zlen cs) < two64.
#[local] Abbreviation n := (zlen cs).

Lemma build_loop_spec k : forall tree t, binv cs tree (t - 1) -> 1 <= t -> t + Z.of_nat k = n + 1 ->
  exists tree', build_loop n tree t k = Ok tree' /\ binv cs tree' n.
Proof.
  induction k as [|k IH]; intros tree t Hb Ht Hk; cbn [build_loop].
  { exists tree. split; [done|]. by replace n with (t - 1) by lia. }
  destruct (level_ex t) as [j Hj]; [lia|]. destruct (binv_step cs cs_nonneg cs_fits tree t j Hb ltac:(lia) Hj) as (tree' & E & Hb').
  cbv zeta in E |- *. rewrite E. apply IH; [|lia|lia]. by replace (t + 1 - 1) with t by lia.
Qed.

(** [pos] brackets index [k]. *)
Definition brackets (pos step k rem : Z) : Prop :=
  0 <= pos <= n /\ 0 <= rem /\ psum cs pos + rem = k /\ (n < pos + step \/ k < psum cs (pos + step)).

Lemma rank_step d k e pos rem : cd_n d = n -> binv cs (cd_tree d) n -> 0 <= e ->
  (exists b, 0 <= b /\ pos = b * 2 ^ (e + 1)) -> brackets pos (2 ^ (e + 1)) k rem ->
  exists pos' rem',
    (if pos + 2 ^ e <=? cd_n d then
       let* t := tree_at (cd_tree d) (pos + 2 ^ e) in
       if t <=? rem then Ok (pos + 2 ^ e, rem - t) else Ok (pos, rem)
     else Ok (pos, rem)) = (Ok (pos', rem') : P (Z * Z))
    /\ (exists b, 0 <= b /\ pos' = b * 2 ^ e) /\ brackets pos' (2 ^ e) k rem'.
Proof.
  intros Hn Hb He (b & Hb0 & Hpos) (Hp & Hr & Hk & Hup). pose proof (Z.pow_pos_nonneg 2 e ltac:(lia) He) as Hpw.
  assert (E : 2 ^ (e + 1) = 2 * 2 ^ e) by (rewrite Z.pow_add_r by lia; change (2 ^ 1) with 2; lia). rewrite E in *. rewrite Hn.
  assert (Hstay : exists b, 0 <= b /\ pos = b * 2 ^ e) by (exists (2 * b); lia).
  destruct (Z.leb_spec (pos + 2 ^ e) n) as [Hle|Hgt].
  - assert (Hl : level (pos + 2 ^ e) e) by (split; [done|]; exists b; split; [done|]; rewrite Hpos; ring).
    unfold tree_at. destruct (Z.ltb_spec (pos + 2 ^ e) 0); [lia|].
    rewrite (binv_done cs (cd_tree d) n _ e Hb) by (done || lia). replace (pos + 2 ^ e - 2 ^ e) with pos by lia.
    destruct (Z.leb_spec (psum cs (pos + 2 ^ e) - psum cs pos) rem); eexists _, _; (split; [done|]).
    + split; [exists (2 * b + 1); rewrite Hpos; split; [lia|ring]|]. unfold brackets. split_and!; try lia.
      replace (pos + 2 ^ e + 2 ^ e) with (pos + 2 * 2 ^ e) by lia. done.
    + split; [done|]. unfold brackets. split_and!; try lia.
  - eexists _, _. split; [done|]. split; [done|]. unfold brackets. split_and!; try lia.
Qed.

Lemma rank_loop_spec d k : cd_n d = n -> binv cs (cd_tree d) n -> forall e fuel pos rem,
  (e < fuel)%nat -> (exists b, 0 <= b /\ pos = b * 2 ^ (Z.of_nat e + 1)) -> brackets pos (2 ^ (Z.of_nat e + 1)) k rem ->
  exists pos' rem', rank_loop fuel d (2 ^ Z.of_nat e) pos rem = Ok (pos', rem') /\ brackets pos' 1 k rem'.
Proof.
  intros Hn Hb. assert (Hgo : forall e, (0 <? 2 ^ Z.of_nat e) = true) by (intros; apply Z.ltb_lt, Z.pow_pos_nonneg; lia).
  induction e as [|e IH]; intros fuel pos rem Hf Hpos Hbr; (destruct fuel as [|fuel]; [lia|]); cbn [rank_loop]; cbv zeta;
    destruct (rank_step d k (Z.of_nat _) pos rem Hn Hb ltac:(lia) Hpos Hbr) as (p & r & E & Hp & Hbr');
    rewrite Hgo, E.
  - exists p, r. split; [|done]. by destruct fuel.
  - rewrite Z.shiftr_div_pow2 by lia. replace (2 ^ Z.of_nat (S e) / 2 ^ 1) with (2 ^ Z.of_nat e).
    + replace (Z.of_nat (S e)) with (Z.of_nat e + 1) in Hp, Hbr' by lia. apply IH; [lia|done|done].
    + replace (Z.of_nat (S e)) with (Z.of_nat e + 1) by lia. rewrite Z.pow_add_r by lia. by rewrite Z.div_mul.
Qed.

Lemma pw_loop_spec fuel : forall e, 0 <= e -> 2 ^ e <= n -> n < 2 ^ (e + 1 + Z.of_nat fuel) ->
  exists e', e <= e' <= e + Z.of_nat fuel /\ pw_loop fuel n (2 ^ e) = 2 ^ e' /\ 2 ^ e' <= n < 2 ^ (e' + 1).
Proof.
  induction fuel as [|fuel IH]; intros e He Hle Hlt; cbn [pw_loop].
  { exists e. rewrite Z.add_0_r in Hlt. split_and!; (done || lia). }
  rewrite Z.shiftl_mul_pow2 by lia. rewrite <- Z.pow_add_r by lia. destruct (Z.leb_spec (2 ^ (e + 1)) n).
  - destruct (IH (e + 1)) as (e' & ? & E & ?); [lia|done| |]. { eapply Z.lt_le_trans; [exact Hlt|]. apply Z.pow_le_mono_r; lia. }
    exists e'. split_and!; (done || lia).
  - exists e. split_and!; (done || lia).
Qed.

(** The tree the directory holds is the one of these counts. *)
Definition tree_for (d : chunkDir) : Prop :=
  cd_n d = n /\ binv cs (cd_tree d) n /\ exists e, 0 <= e < 63 /\ cd_pw d = 2 ^ e /\ 2 ^ e <= n < 2 ^ (e + 1).

Lemma rank_spec d k : tree_for d -> 0 <= k < psum cs n ->
  exists ci ord, rank d k = Ok (ci, ord) /\ 0 <= ci < n /\ 0 <= ord /\ psum cs ci + ord = k /\ k < psum cs (ci + 1).
Proof.
  intros (Hn & Hb & e & He & Hpw & Hr) Hk. unfold rank. rewrite Hpw.
  destruct (rank_loop_spec d k Hn Hb (Z.to_nat e) 63 0 k) as (ci & ord & E & Hp & Ho & Hs & Hu); [lia|by exists 0| |].
  - rewrite Z2Nat.id by lia. pose proof (zlen_nonneg cs). unfold brackets. split_and!; try lia. change (psum cs 0) with 0. lia.
  - rewrite Z2Nat.id in E by lia. exists ci, ord. split; [done|].
    assert (ci <> n) by (intros ->; lia). split_and!; lia.
Qed.

Lemma flat_scan_spec : forall rest i k, 0 <= k ->
  (exists done_, cs = done_ ++ rest /\ i = zlen done_) -> k < foldr Z.add 0 rest ->
  exists ci ord, flat_scan i k rest = Some (ci, ord) /\ i <= ci < n /\ 0 <= ord /\ psum cs ci + ord = psum cs i + k /\ psum cs i + k < psum cs (ci + 1).
Proof.
  induction rest as [|c rest IH]; intros i k Hk (pre & Hcs & Hi) Hlt; [cbn in Hlt; lia|]. cbn [flat_scan].
  assert (Hc : cs !! Z.to_nat i = Some c) by (rewrite Hcs; apply list_lookup_middle; unfold zlen in *; lia).
  pose proof (zlen_nonneg pre). pose proof (psum_succ cs i c ltac:(lia) Hc). pose proof (lookup_lt_Some _ _ _ Hc).
  destruct (Z.ltb_spec k c).
  - exists i, k. split_and!; (done || unfold zlen in *; lia).
  - destruct (IH (i + 1) (k - c)) as (ci & ord & E & ?); [lia| |cbn in Hlt; lia|].
    { exists (pre ++ [c]). split; [by rewrite <- (assoc_L (++))|]. rewrite zlen_app. change (zlen [c]) with 1. lia. }
    exists ci, ord. split_and!; (done || lia).
Qed.

(** Two positions that bracket an index are one. *)
Lemma bracket_fun k i o i' o' : 0 <= i < n -> 0 <= i' < n -> 0 <= o -> 0 <= o' ->
  psum cs i + o = k -> k < psum cs (i + 1) -> psum cs i' + o' = k -> k < psum cs (i' + 1) -> i = i' /\ o = o'.
Proof.
  intros. assert (i = i'); [|subst; lia]. destruct (Z.lt_trichotomy i i') as [Hl|[?|Hl]]; [|done|].
  - pose proof (psum_mono cs cs_nonneg (i + 1) i' ltac:(lia)). lia.
  - pose proof (psum_mono cs cs_nonneg (i' + 1) i ltac:(lia)). lia.
Qed.

Lemma psum_all : psum cs n = foldr Z.add 0 cs.
Proof. unfold psum, zlen. by rewrite Nat2Z.id, firstn_all. Qed.

Lemma rank_flat d k : tree_for d -> 0 <= k < psum cs n ->
  exists p, rank d k = Ok p /\ flat_scan 0 k cs = Some p.
Proof.
  intros Hd Hk. destruct (rank_spec d k Hd Hk) as (ci & ord & E & ? & ? & ? & ?).
  destruct (flat_scan_spec cs 0 k) as (ci' & ord' & E' & ? & ? & ? & ?); [lia|by exists []|rewrite <- psum_all; lia|].
  change (psum cs 0) with 0 in *. destruct (bracket_fun k ci ord ci' ord') as [-> ->]; try lia. by eexists.
Qed.
End rank.

(** ** locate *)

Section locate.
Context {C : Type} (count : C -> Z).
Implicit Types (r : chunkRing C) (chs : list C).

Lemma ring_counts_view r chs : rview r chs -> forall k i, 0 <= i -> i + Z.of_nat k = zlen chs ->
  ring_counts count r i k = Ok (map count (drop (Z.to_nat i) chs)).
Proof.
  intros Hr. induction k as [|k IH]; intros i Hi Hk; cbn [ring_counts].
  { rewrite drop_ge; [done|]. unfold zlen in *. lia. }
  destruct (lookup_lt_is_Some_2 chs (Z.to_nat i)) as [c Hc]; [unfold zlen in *; lia|]. rewrite (ring_at_view r chs i c Hr Hi Hc), IH by lia.
  rewrite (drop_S _ _ _ Hc). by replace (Z.to_nat (i + 1)) with (S (Z.to_nat i)) by lia.
Qed.

Lemma locate_loop_view r chs : rview r chs -> forall fuel i k, 0 <= i -> i + Z.of_nat fuel = zlen chs ->
  locate_loop count r i k fuel = match flat_scan i k (map count (drop (Z.to_nat i) chs)) with Some p => Ok p | None => Panic end.
Proof.
  intros Hr. induction fuel as [|fuel IH]; intros i k Hi Hk; cbn [locate_loop].
  { rewrite drop_ge; [done|]. unfold zlen in *. lia. }
  destruct (lookup_lt_is_Some_2 chs (Z.to_nat i)) as [c Hc]; [unfold zlen in *; lia|]. rewrite (ring_at_view r chs i c Hr Hi Hc).
  rewrite (drop_S _ _ _ Hc). cbn [map flat_scan]. cbv zeta. destruct (k <? count c); [done|]. rewrite IH by lia.
  by replace (Z.to_nat (i + 1)) with (S (Z.to_nat i)) by lia.
Qed.

(** A directory that [sync] takes as current is the tree of the counts. *)
Definition dir_ok (d : chunkDir) (ns : list Z) : Prop :=
  cd_stale d = false -> 0 < zlen ns -> cd_n d = zlen ns -> tree_for ns d.

Lemma sync_view d r chs : rview r chs -> Forall (fun c => 0 <= c) (map count chs) -> psum (map count chs) (zlen chs) < two64 ->
  0 < zlen chs < 2 ^ 62 -> dir_ok d (map count chs) ->
  exists d', sync count d r = Ok d' /\ tree_for (map count chs) d'.
Proof.
  intros Hr Hnn Hfit Hn Hd. pose proof (proj1 Hr) as Hrn. assert (Hm : zlen (map count chs) = zlen chs) by (unfold zlen; by rewrite length_map).
  unfold sync. destruct (negb (cd_stale d) && (cd_n d =? cr_n r)) eqn:Hc.
  - apply andb_true_iff in Hc as [Hs Hcn%Z.eqb_eq]. apply negb_true_iff in Hs. exists d. split; [done|]. apply Hd; [done|lia|lia].
  - cbv zeta. rewrite (ring_counts_view r chs Hr) by (unfold zlen in *; lia). cbn [Z.to_nat]. rewrite drop_0.
    destruct (build_loop_spec (map count chs) Hnn ltac:(by rewrite Hm) (Z.to_nat (cr_n r)) (0 :: map count chs) 1) as (tree & E & Hb);
      [by apply binv_start|lia|lia|]. rewrite Hm, Hrn in E. rewrite E. eexists. split; [done|].
    destruct (pw_loop_spec (map count chs) 62 0) as (e & He & Ep & Hpw); [lia|rewrite Hm; lia|rewrite Hm; eapply Z.lt_trans; [apply Hn|done]|].
    rewrite Hm, Hrn in Ep. split_and!; cbn [cd_n cd_tree cd_pw]; [by rewrite Hm|done|]. exists e. split_and!; (done || lia).
Qed.

Lemma tree_for_ok ns d : tree_for ns d -> dir_ok d ns.
Proof. by intros ? ? ? ?. Qed.

(** Above the crossover and below it, [locate] is the flat scan. *)
Lemma locate_view d r chs k : rview r chs -> Forall (fun c => 0 <= c) (map count chs) -> psum (map count chs) (zlen chs) < two64 ->
  zlen chs < 2 ^ 62 -> dir_ok d (map count chs) -> 0 <= k < psum (map count chs) (zlen chs) ->
  exists d' p, locate count d r k = Ok (d', p) /\ flat_scan 0 k (map count chs) = Some p /\ dir_ok d' (map count chs).
Proof.
  intros Hr Hnn Hfit Hn Hd Hk. pose proof (proj1 Hr) as Hrn. assert (Hm : zlen (map count chs) = zlen chs) by (unfold zlen; by rewrite length_map).
  unfold locate. destruct (Z.ltb_spec flatMax (cr_n r)) as [Hgt|Hle].
  - unfold flatMax in Hgt. destruct (sync_view d r chs Hr Hnn Hfit ltac:(lia) Hd) as (d' & E & Ht). rewrite E.
    destruct (rank_flat (map count chs) Hnn d' k Ht) as (p & Ep & Ef); [by rewrite Hm|]. rewrite Ep. exists d', p. split_and!; [done|done|by apply tree_for_ok].
  - rewrite (locate_loop_view r chs Hr) by (unfold zlen in *; lia). cbn [Z.to_nat]. rewrite drop_0.
    destruct (flat_scan_spec (map count chs) (map count chs) 0 k) as (ci & ord & E & _); [lia|by exists []| |].
    + rewrite <- psum_all, Hm. lia.
    + rewrite E. by exists d, (ci, ord).
Qed.
End locate.
