(* ===== verification/ValueLog.v ===== *)
(** The append log and its cold frames (engine/f3/store: vlog.go, chunkframe.go, coldchunk.go,
    coldframe.go and the header reads of cold.go).

    A log stages appends in a pending buffer that a flush writes at the flushed tail.  Every
    write to the file takes its outcome as an argument: [None] lands, [Some k] fails after [k]
    bytes, so the theorems hold for any run of failures.  A read of bytes the file holds
    succeeds. *)

From S2P Require Import Prelude Device.
#[local] Open Scope Z_scope.

#[local] Abbreviation P A := (res Empty_set A).

(** ** The log *)

Record vlog := mkVlog {
  vl_file : bytes;
  vl_tail : Z;
  vl_wtail : Z;
  vl_pending : bytes;
  vl_flushAt : Z;
  vl_werr : bool;
  vl_dead : Z
}.

Definition vlogFlushBytes : Z := 1048576.

Definition openVlog : vlog := mkVlog [] 0 0 [] vlogFlushBytes false 0.

(** The result of a flush: [true] when it returned no error. *)
Definition vlog_flush (w : option Z) (l : vlog) : vlog * bool :=
  if vl_werr l then (l, false)
  else if zlen (vl_pending l) =? 0 then (l, true)
  else match w with
       | Some k =>
           (mkVlog (overlay (vl_file l) (vl_wtail l) (ztake k (vl_pending l)))
              (vl_tail l) (vl_wtail l) (vl_pending l) (vl_flushAt l) true (vl_dead l), false)
       | None =>
           (mkVlog (overlay (vl_file l) (vl_wtail l) (vl_pending l))
              (vl_tail l) (add64 (vl_wtail l) (zlen (vl_pending l))) [] (vl_flushAt l) false (vl_dead l), true)
       end.

(** [None] is [errLogBroken]; a flush that fails still hands the offset out. *)
Definition vlog_append (w : option Z) (l : vlog) (val : bytes) : vlog * option Z :=
  if vl_werr l then (l, None)
  else
    let off := vl_tail l in
    let l := mkVlog (vl_file l) (add64 (vl_tail l) (zlen val)) (vl_wtail l) (vl_pending l ++ val) (vl_flushAt l) (vl_werr l) (vl_dead l) in
    if vl_flushAt l <=? zlen (vl_pending l) then ((vlog_flush w l).1, Some off) else (l, Some off).

Definition vlog_reserve (w : option Z) (l : vlog) (n : Z) : vlog * option Z :=
  if vl_werr l then (l, None)
  else
    let '(l, ok) := vlog_flush w l in
    if negb ok then (l, None)
    else
      let off := vl_tail l in
      let tail := add64 (vl_tail l) n in
      (mkVlog (vl_file l) tail tail (vl_pending l) (vl_flushAt l) (vl_werr l) (vl_dead l), Some off).

(** The off-owner half of a reservation. *)
Definition vlog_writeAt (w : option Z) (l : vlog) (off : Z) (b : bytes) : vlog * bool :=
  if vl_werr l then (l, false)
  else
    let landed := match w with None => b | Some k => ztake k b end in
    (mkVlog (overlay (vl_file l) off landed) (vl_tail l) (vl_wtail l) (vl_pending l) (vl_flushAt l) (vl_werr l) (vl_dead l),
     match w with None => true | Some _ => false end).

(** [f.ReadAt]: a range the file does not hold is an error. *)
Definition file_read (file : bytes) (off n : Z) : option bytes :=
  if n =? 0 then Some []
  else if (0 <=? int64 off) && (int64 off + n <=? zlen file) then Some (sl file (int64 off) n) else None.

Definition readPending (l : vlog) (off n : Z) : P (option bytes) :=
  let i := sub64 off (vl_wtail l) in
  if zlen (vl_pending l) <? add64 i n then Ok None
  else let* rest := slice (vl_pending l) i (zlen (vl_pending l)) in Ok (Some (ztake n rest)).

(** [readFill] and [readInto] read the same bytes; a negative length panics in the slicing. *)
Definition vlog_read (l : vlog) (off n : Z) : P (option bytes) :=
  if n <? 0 then Panic
  else if vl_wtail l <=? off then readPending l off n
  else Ok (file_read (vl_file l) off n).

(** The rewind of [Store.Reset]. *)
Definition vlog_reset (l : vlog) : vlog := mkVlog [] 0 0 [] (vl_flushAt l) false 0.

(** ** The packed chunk frame *)

Definition chunkHdr : Z := 16.
Definition frameChunk : Z := 128.

Record chunkFrame := mkChunkFrame {
  cf_kind : Z;
  cf_flags : Z;
  cf_count : Z;
  cf_key : bytes;
  cf_disc : bytes;
  cf_payload : bytes
}.

Definition appendChunkFrame (dst : bytes) (kind flags count : Z) (key disc payload : bytes) : bytes :=
  let total := chunkHdr + zlen key + zlen disc + zlen payload in
  let h := put32 (zeros chunkHdr) 0 (cast32 total) in
  let h := put8 h 4 kind in
  let h := put8 h 5 flags in
  let h := put16 h 6 (zlen key mod 65536) in
  let h := put32 h 8 (cast32 (zlen payload)) in
  let h := put16 h 12 count in
  let h := put16 h 14 (zlen disc mod 65536) in
  (((dst ++ h) ++ key) ++ disc) ++ payload.

(** [None] is [errChunkShort]. *)
Definition decodeChunkFrame (buf : bytes) : P (option (chunkFrame * Z)) :=
  if zlen buf <? chunkHdr then Ok None
  else
    let* total := u32at buf 0 in
    if (total <? chunkHdr) || (zlen buf <? total) then Ok None
    else
      let* klen := u16at buf 6 in
      let* payloadLen := u32at buf 8 in
      let* dlen := u16at buf 14 in
      if negb (chunkHdr + klen + dlen + payloadLen =? total) then Ok None
      else
        let kstart := chunkHdr in
        let dstart := kstart + klen in
        let pstart := dstart + dlen in
        let* kind := at8 buf 4 in
        let* flags := at8 buf 5 in
        let* count := u16at buf 12 in
        let* key := slice buf kstart dstart in
        let* disc := slice buf dstart pstart in
        let* payload := slice buf pstart total in
        Ok (Some (mkChunkFrame kind flags count key disc payload, total)).

(** ** The whole-record frame *)

Definition coldHdr : Z := 12.

Record coldFrame := mkColdFrame {
  co_kind : Z;
  co_flags : Z;
  co_vlen : Z;
  co_key : bytes;
  co_value : bytes
}.

Definition appendColdFrame (dst : bytes) (kind flags vlen : Z) (key value : bytes) : bytes :=
  let total := coldHdr + zlen key + zlen value in
  let h := put32 (zeros coldHdr) 0 (cast32 total) in
  let h := put8 h 4 kind in
  let h := put8 h 5 flags in
  let h := put16 h 6 (zlen key mod 65536) in
  let h := put32 h 8 vlen in
  ((dst ++ h) ++ key) ++ value.

(** [None] is [errColdShort]. *)
Definition decodeColdFrame (buf : bytes) : P (option (coldFrame * Z)) :=
  if zlen buf <? coldHdr then Ok None
  else
    let* total := u32at buf 0 in
    if (total <? coldHdr) || (zlen buf <? total) then Ok None
    else
      let* klen := u16at buf 6 in
      if total <? coldHdr + klen then Ok None
      else
        let* kind := at8 buf 4 in
        let* flags := at8 buf 5 in
        let* vlen := u32at buf 8 in
        let* key := slice buf coldHdr (coldHdr + klen) in
        let* value := slice buf (coldHdr + klen) total in
        Ok (Some (mkColdFrame kind flags vlen key value, total)).

(** ** The store's cold plane over a scratch region *)

(** [s.cold]: [None] without a cold region. *)
Definition cold_region : Type := option vlog.

Definition AppendChunk (w : option Z) (s : cold_region) (kind flags count : Z) (key disc payload : bytes) : cold_region * option Z :=
  match s with
  | None => (s, None)
  | Some l =>
      if vl_werr l then (s, None)
      else
        let frameBuf := appendChunkFrame [] (Z.lor kind frameChunk) flags count key disc payload in
        let '(l, off) := vlog_append w l frameBuf in (Some l, off)
  end.

(** The view [ReadChunk] returns: kind, count, discriminator and payload. *)
Definition ReadChunk (s : cold_region) (off : Z) : P (option (Z * Z * bytes * bytes)) :=
  match s with
  | None => Ok None
  | Some l =>
      let* h := vlog_read l off chunkHdr in
      match h with
      | None => Ok None
      | Some h =>
          let* total := u32at h 0 in
          if total <? chunkHdr then Ok None
          else
            let* buf := vlog_read l off total in
            match buf with
            | None => Ok None
            | Some buf =>
                let* f := decodeChunkFrame buf in
                match f with
                | None => Ok None
                | Some (f, _) => Ok (Some (Z.ldiff (cf_kind f) frameChunk, cf_count f, cf_disc f, cf_payload f))
                end
            end
      end
  end.

Definition reserveColdNull (w : option Z) (s : cold_region) : cold_region :=
  match s with
  | None => s
  | Some l => if negb (vl_tail l =? 0) then s else Some (vlog_append w l (appendColdFrame [] 0 0 0 [] [])).1
  end.

(** total, klen, flags and vlen *)
Definition coldHeader (l : vlog) (off : Z) : P (option (Z * Z * Z * Z)) :=
  let* h := vlog_read l off coldHdr in
  match h with
  | None => Ok None
  | Some h =>
      let* total := u32at h 0 in
      let* flags := at8 h 5 in
      let* klen := u16at h 6 in
      let* vlen := u32at h 8 in
      Ok (Some (total, klen, flags, vlen))
  end.

Definition coldKeyMatches (l : vlog) (off : Z) (key : bytes) : P bool :=
  let n := coldHdr + zlen key in
  let* buf := vlog_read l off n in
  match buf with
  | None => Ok false
  | Some buf =>
      let* klen := u16at buf 6 in
      if negb (klen =? zlen key) then Ok false
      else let* k := slice buf coldHdr n in Ok (bytes_eqb k key)
  end.

Definition coldKeyAt (l : vlog) (off : Z) : P (option bytes) :=
  let* h := coldHeader l off in
  match h with
  | None => Ok None
  | Some (_, klen, _, _) => vlog_read l (add64 off coldHdr) klen
  end.

Definition coldVlen (l : vlog) (off : Z) : P Z :=
  let* h := coldHeader l off in
  match h with
  | None => Ok 0
  | Some (_, _, _, vlen) => Ok vlen
  end.

(** ** What a log holds *)

(** Positions stay within a signed file offset. *)
Record vl_wf (l : vlog) : Prop := {
  vw_wtail : 0 <= vl_wtail l;
  vw_tail : vl_tail l = vl_wtail l + zlen (vl_pending l);
  vw_bound : vl_tail l < two63
}.

(** The bytes [b] are readable at [off]: all from the file or all from the buffer. *)
Definition stored (l : vlog) (off : Z) (b : bytes) : Prop :=
  0 <= off /\ 0 < zlen b /\
  ((off + zlen b <= vl_wtail l /\ off + zlen b <= zlen (vl_file l) /\ sl (vl_file l) off (zlen b) = b)
   \/ (vl_wtail l <= off /\ off + zlen b <= vl_wtail l + zlen (vl_pending l) /\ sl (vl_pending l) (off - vl_wtail l) (zlen b) = b)).

Lemma ztake_sl (b : bytes) i m n : n <= m -> ztake n (sl b i m) = sl b i n.
Proof. intros. unfold sl. rewrite ztake_ztake. f_equal. lia. Qed.

Lemma zdrop_of_sl (b : bytes) i m n : 0 <= i -> 0 <= n <= m -> i + m <= zlen b -> zdrop n (sl b i m) = sl b (i + n) (m - n).
Proof.
  intros Hi Hn Hm. replace m with (n + (m - n)) at 1 by lia. rewrite sl_split by lia. rewrite zdrop_app_ge by (rewrite zlen_sl; lia).
  rewrite zlen_sl by lia. apply zdrop_nonpos. lia.
Qed.

Lemma openVlog_wf : vl_wf openVlog.
Proof. by split. Qed.

Lemma vlog_reset_wf l : vl_wf (vlog_reset l).
Proof. by split. Qed.

Lemma stored_read l off b : vl_wf l -> stored l off b -> vlog_read l off (zlen b) = Ok (Some b).
Proof.
  intros [Hw Ht Hb] (Ho & Hb0 & Hs). unfold vlog_read. destruct (Z.ltb_spec (zlen b) 0); [lia|].
  pose proof (zlen_nonneg (vl_pending l)). destruct Hs as [(H1 & H2 & H3)|(H1 & H2 & H3)].
  - destruct (Z.leb_spec (vl_wtail l) off); [lia|]. unfold file_read. rewrite int64_small by lia.
    destruct (Z.eqb_spec (zlen b) 0), (Z.leb_spec 0 off), (Z.leb_spec (off + zlen b) (zlen (vl_file l))); try lia. cbn [andb]. by rewrite H3.
  - destruct (Z.leb_spec (vl_wtail l) off); [|lia]. unfold readPending, sub64, add64.
    rewrite (Z.mod_small (off - vl_wtail l)), Z.mod_small by lia. destruct (Z.ltb_spec (zlen (vl_pending l)) (off - vl_wtail l + zlen b)); [lia|].
    rewrite slice_ok by lia. do 2 f_equal. by rewrite ztake_sl by lia.
Qed.

(** A prefix of stored bytes is stored. *)
Lemma stored_prefix l off b n : stored l off b -> 0 < n <= zlen b -> stored l off (ztake n b).
Proof.
  intros (Ho & Hb0 & Hs) Hn. assert (E : zlen (ztake n b) = n) by (rewrite zlen_ztake; lia). split_and!; [done|lia|]. rewrite E.
  destruct Hs as [(H1 & H2 & H3)|(H1 & H2 & H3)]; [left|right]; (split_and!; [lia|lia|]);
    apply (f_equal (ztake n)) in H3; by rewrite ztake_sl in H3 by lia.
Qed.

Lemma stored_drop l off b n : stored l off b -> 0 <= n < zlen b -> stored l (off + n) (zdrop n b).
Proof.
  intros (Ho & Hb0 & Hs) Hn. assert (E : zlen (zdrop n b) = zlen b - n) by (rewrite zlen_zdrop; lia). split_and!; [lia|lia|]. rewrite E.
  destruct Hs as [(H1 & H2 & H3)|(H1 & H2 & H3)]; [left|right]; (split_and!; [lia|lia|]); apply (f_equal (zdrop n)) in H3; rewrite zdrop_of_sl in H3 by lia; [done|].
  by replace (off + n - vl_wtail l) with (off - vl_wtail l + n) by lia.
Qed.

(** ** Appends, flushes and reservations keep what is stored *)

(** [l'] still holds whatever [l] held. *)
Definition log_keeps (l l' : vlog) : Prop := forall off b, stored l off b -> stored l' off b.

Lemma log_keeps_refl l : log_keeps l l.
Proof. by intros off b. Qed.
#[local] Hint Resolve log_keeps_refl : core.

Lemma log_keeps_trans l1 l2 l3 : log_keeps l1 l2 -> log_keeps l2 l3 -> log_keeps l1 l3.
Proof. intros H1 H2 off b Hs. by apply H2, H1. Qed.

(** A write at the flushed tail touches no flushed byte. *)
Lemma overlay_below l b n off : 0 <= vl_wtail l -> 0 <= off -> 0 <= n -> off + n <= vl_wtail l -> off + n <= zlen (vl_file l) ->
  off + n <= zlen (overlay (vl_file l) (vl_wtail l) b) /\ sl (overlay (vl_file l) (vl_wtail l) b) off n = sl (vl_file l) off n.
Proof.
  intros. split; [eapply Z.le_trans; [|apply zlen_overlay_ge]; done|]. by apply sl_overlay_before.
Qed.

Lemma vlog_flush_ok w l : vl_wf l ->
  let '(l', ok) := vlog_flush w l in
  vl_wf l' /\ vl_tail l' = vl_tail l /\ log_keeps l l' /\ (ok = true -> vl_pending l' = []).
Proof.
  intros Hwf. pose proof Hwf as [Hw Ht Hb]. unfold vlog_flush. destruct (vl_werr l); [by split_and!|].
  pose proof (zlen_nonneg (vl_pending l)). destruct (Z.eqb_spec (zlen (vl_pending l)) 0) as [H0|Hne].
  { split_and!; [done|done|done|]. intros _. apply zlen_0_nil. lia. }
  destruct w as [k|]; (split; [|split; [done|split; [|done]]]).
  - by split.
  - intros off b (Ho & Hb0 & [(H1 & H2 & H3)|H1]); (split_and!; [done|done|]); [left|right; done].
    cbn [vl_file vl_wtail]. destruct (overlay_below l (ztake k (vl_pending l)) (zlen b) off) as [Ha Hs]; [lia..|]. split_and!; [done|done|by rewrite Hs].
  - split; cbn [vl_wtail vl_tail vl_pending]; unfold add64; rewrite ?Z.mod_small by lia; [lia| |done]. rewrite zlen_nil. lia.
  - intros off b (Ho & Hb0 & Hs). split_and!; [done|done|]. left. cbn [vl_file vl_wtail]. unfold add64. rewrite Z.mod_small by lia.
    destruct Hs as [(H1 & H2 & H3)|(H1 & H2 & H3)].
    + destruct (overlay_below l (vl_pending l) (zlen b) off) as [Ha Hs]; [lia..|]. split_and!; [lia|done|by rewrite Hs].
    + pose proof (zlen_overlay_end (vl_file l) (vl_wtail l) (vl_pending l) Hw ltac:(right; lia)). split_and!; [lia|lia|].
      rewrite <- H3 at 2. replace off with (vl_wtail l + (off - vl_wtail l)) at 1 by lia.
      rewrite <- (sl_sl (overlay _ _ _) (vl_wtail l) (zlen (vl_pending l))) by lia. by rewrite (sl_overlay_same _ _ _ _ Hw eq_refl).
Qed.

Lemma vlog_append_ok w l val : vl_wf l -> vl_tail l + zlen val < two63 ->
  let '(l', r) := vlog_append w l val in
  vl_wf l' /\ log_keeps l l' /\ vl_tail l' <= vl_tail l + zlen val
  /\ match r with
     | Some off => off = vl_tail l /\ (0 < zlen val -> stored l' off val) /\ vl_tail l' = vl_tail l + zlen val
     | None => vl_werr l = true
     end.
Proof.
  intros Hwf Hfit. pose proof Hwf as [Hw Ht Hb]. pose proof (zlen_nonneg val). pose proof (zlen_nonneg (vl_pending l)). unfold vlog_append.
  destruct (vl_werr l); [split_and!; (done || lia)|]. set (l1 := mkVlog _ _ _ _ _ _ _).
  assert (Hwf1 : vl_wf l1).
  { split; cbn [l1 vl_wtail vl_tail vl_pending]; unfold add64; rewrite ?Z.mod_small by lia; [done| |lia]. rewrite zlen_app. lia. }
  assert (Ht1 : vl_tail l1 = vl_tail l + zlen val) by (cbn [l1 vl_tail]; unfold add64; rewrite Z.mod_small; lia).
  assert (Hk1 : log_keeps l l1).
  { intros off b (Ho & Hb0 & [H1|(H1 & H2 & H3)]); (split_and!; [done|done|]); [by left|right]. cbn [l1 vl_wtail vl_pending].
    rewrite zlen_app. split_and!; [done|lia|]. by rewrite sl_app_l by lia. }
  assert (Hs1 : 0 < zlen val -> stored l1 (vl_tail l) val).
  { intros Hv. split_and!; [lia|done|]. right. cbn [l1 vl_wtail vl_pending]. rewrite zlen_app. split_and!; [lia|lia|]. apply sl_end; lia. }
  destruct (_ <=? _); [|split_and!; (done || lia)]. pose proof (vlog_flush_ok w l1 Hwf1) as Hfl. destruct (vlog_flush w l1) as [l2 ok].
  destruct Hfl as (Hwf2 & Ht2 & Hk2 & _). cbn [fst]. split_and!; [done|by eapply log_keeps_trans|lia|done|auto|lia].
Qed.

Lemma vlog_reserve_ok w l n : vl_wf l -> 0 <= n -> vl_tail l + n < two63 ->
  let '(l', r) := vlog_reserve w l n in
  vl_wf l' /\ log_keeps l l' /\ match r with Some off => off = vl_tail l /\ vl_wtail l' = off + n | None => True end.
Proof.
  intros Hwf Hn Hfit. unfold vlog_reserve. destruct (vl_werr l); [by split_and!|]. pose proof (vlog_flush_ok w l Hwf) as Hfl.
  destruct (vlog_flush w l) as [l1 ok]. destruct Hfl as (Hwf1 & Ht1 & Hk1 & Hp). pose proof Hwf1 as [Hw Ht Hb]. destruct ok; cbn [negb]; [|by split_and!].
  specialize (Hp eq_refl). rewrite Hp, zlen_nil in Ht. rewrite Ht1, Hp. unfold add64. rewrite Z.mod_small by lia. split; [|split].
  - split; cbn [vl_wtail vl_tail vl_pending]; rewrite ?zlen_nil; lia.
  - eapply log_keeps_trans; [exact Hk1|]. intros off b (Ho & Hb0 & Hs). split_and!; [done|done|]. left. cbn [vl_file vl_wtail].
    destruct Hs as [(H1 & H2 & H3)|(H1 & H2 & _)]; [split_and!; (done || lia)|]. rewrite Hp, zlen_nil in H2. lia.
  - cbn [vl_wtail]. lia.
Qed.

(** A reserved range written out of band: the bytes land, and what lies outside it stays. *)
Lemma vlog_reserve_tail w l n : vl_wf l -> 0 <= n -> vl_tail l + n < two63 -> vl_tail (vlog_reserve w l n).1 <= vl_tail l + n.
Proof.
  intros Hwf Hn Hfit. pose proof (vlog_flush_ok w l Hwf) as Hf. pose proof (vw_wtail _ Hwf). pose proof (vw_tail _ Hwf). pose proof (zlen_nonneg (vl_pending l)).
  unfold vlog_reserve. destruct (vl_werr l); [cbn; lia|]. destruct (vlog_flush w l) as [l1 ok]. destruct Hf as (_ & Ht & _). destruct (negb ok); cbn [fst vl_tail]; [lia|].
  unfold add64. rewrite Z.mod_small; lia.
Qed.

Lemma vlog_writeAt_ok l off b : vl_wf l -> vl_werr l = false -> 0 <= off -> 0 < zlen b -> off + zlen b <= vl_wtail l ->
  let '(l', ok) := vlog_writeAt None l off b in
  ok = true /\ vl_wf l' /\ stored l' off b
  /\ forall o c, stored l o c -> o + zlen c <= off \/ off + zlen b <= o -> stored l' o c.
Proof.
  intros [Hw Ht Hb] He Ho Hb0 Hr. unfold vlog_writeAt. rewrite He. split; [done|]. split; [by split|]. split.
  - split_and!; [done|done|]. left. cbn [vl_file vl_wtail]. split_and!; [done|apply zlen_overlay_end; lia|by apply sl_overlay_same].
  - intros o c (Hoo & Hc0 & [(H1 & H2 & H3)|H1]) Hd; (split_and!; [done|done|]); [left|by right]. cbn [vl_file vl_wtail].
    split_and!; [done|eapply Z.le_trans; [exact H2|by apply zlen_overlay_ge]|]. destruct Hd.
    + by rewrite sl_overlay_before by lia.
    + by rewrite sl_overlay_after by lia.
Qed.

(** ** The codecs *)

Definition chunk_head (kind flags count klen dlen plen : Z) : bytes :=
  let h := put32 (zeros chunkHdr) 0 (cast32 (chunkHdr + klen + dlen + plen)) in
  let h := put8 h 4 kind in
  let h := put8 h 5 flags in
  let h := put16 h 6 (klen mod 65536) in
  let h := put32 h 8 (cast32 plen) in
  let h := put16 h 12 count in
  put16 h 14 (dlen mod 65536).

Lemma appendChunkFrame_eq dst kind flags count key disc payload :
  appendChunkFrame dst kind flags count key disc payload
  = dst ++ chunk_head kind flags count (zlen key) (zlen disc) (zlen payload) ++ key ++ disc ++ payload.
Proof. unfold appendChunkFrame, chunk_head. cbv zeta. by rewrite <- !(assoc_L (++)). Qed.

Lemma zlen_chunk_head kind flags count k d p : zlen (chunk_head kind flags count k d p) = 16.
Proof. unfold chunk_head, put8, put16, put32. rewrite !zlen_put. done. Qed.

(** The bounds within which a frame's fields are not cut. *)
Definition chunk_fits (kind flags count : Z) (key disc payload : bytes) : Prop :=
  is_u8 kind /\ is_u8 flags /\ is_u16 count /\ zlen key < 65536 /\ zlen disc < 65536
  /\ chunkHdr + zlen key + zlen disc + zlen payload < two32.

Lemma chunk_head_fields kind flags count k d p :
  is_u8 kind -> is_u8 flags -> is_u16 count -> is_u16 k -> is_u16 d -> 0 <= p -> 16 + k + d + p < two32 ->
  let h := chunk_head kind flags count k d p in
  le_dec (sl h 0 4) = 16 + k + d + p /\ le_dec (sl h 4 1) = kind /\ le_dec (sl h 5 1) = flags /\ le_dec (sl h 6 2) = k
  /\ le_dec (sl h 8 4) = p /\ le_dec (sl h 12 2) = count /\ le_dec (sl h 14 2) = d.
Proof.
  intros Hk Hf Hc Hkl Hd Hp Ht. unfold is_u8, is_u16 in *. cbv zeta. unfold chunk_head, chunkHdr, cast32. cbv zeta.
  split_and!; layout; rewrite ?Z.mod_small by lia; fields; done.
Qed.

Lemma decodeChunkFrame_append kind flags count key disc payload rest : chunk_fits kind flags count key disc payload ->
  decodeChunkFrame (appendChunkFrame [] kind flags count key disc payload ++ rest)
  = Ok (Some (mkChunkFrame kind flags count key disc payload, chunkHdr + zlen key + zlen disc + zlen payload)).
Proof.
  intros (Hk & Hf & Hc & Hkl & Hd & Ht). rewrite appendChunkFrame_eq. cbn [app]. unfold chunkHdr in *.
  pose proof (zlen_nonneg key). pose proof (zlen_nonneg disc). pose proof (zlen_nonneg payload). pose proof (zlen_nonneg rest).
  destruct (chunk_head_fields kind flags count (zlen key) (zlen disc) (zlen payload)) as (F0 & F4 & F5 & F6 & F8 & F12 & F14);
    [done|done|done|unfold is_u16; lia|unfold is_u16; lia|done|done|].
  set (h := chunk_head _ _ _ _ _ _) in *. assert (Hh : zlen h = 16) by apply zlen_chunk_head. clearbody h.
  rewrite <- !(assoc_L (++)). set (body := key ++ disc ++ payload ++ rest).
  assert (Hbl : zlen (h ++ body) = 16 + zlen key + zlen disc + zlen payload + zlen rest) by (unfold body; rewrite !zlen_app; lia).
  unfold decodeChunkFrame, chunkHdr. destruct (Z.ltb_spec (zlen (h ++ body)) 16); [lia|].
  assert (Hsl : forall i n, 0 <= i -> 0 <= n -> i + n <= 16 -> sl (h ++ body) i n = sl h i n) by (intros; apply sl_app_l; lia).
  reads. rewrite !Hsl, F0 by lia. destruct (Z.ltb_spec (16 + zlen key + zlen disc + zlen payload) 16), (Z.ltb_spec (zlen (h ++ body)) (16 + zlen key + zlen disc + zlen payload)); try lia.
  cbn [orb]. rewrite F6, F8, F14, F4, F5, F12. destruct (Z.eqb_spec (16 + zlen key + zlen disc + zlen payload) (16 + zlen key + zlen disc + zlen payload)); [|done].
  cbn [negb]. cbv zeta. rewrite !slice_ok by lia. unfold body. do 4 f_equal.
  - apply sl_mid; lia.
  - rewrite (assoc_L (++)). apply sl_mid; rewrite ?zlen_app; lia.
  - rewrite !(assoc_L (++)), <- (assoc_L (++) _ payload). apply sl_mid; rewrite ?zlen_app; lia.
Qed.

Lemma zlen_appendChunkFrame kind flags count key disc payload :
  zlen (appendChunkFrame [] kind flags count key disc payload) = chunkHdr + zlen key + zlen disc + zlen payload.
Proof. rewrite appendChunkFrame_eq. cbn [app]. rewrite !zlen_app, zlen_chunk_head. unfold chunkHdr. lia. Qed.

(** A torn frame is refused: no proper prefix decodes. *)
Lemma decodeChunkFrame_torn kind flags count key disc payload n : chunk_fits kind flags count key disc payload ->
  0 <= n < chunkHdr + zlen key + zlen disc + zlen payload ->
  decodeChunkFrame (ztake n (appendChunkFrame [] kind flags count key disc payload)) = Ok None.
Proof.
  intros (Hk & Hf & Hc & Hkl & Hd & Ht) Hn. pose proof (zlen_appendChunkFrame kind flags count key disc payload) as Hlen.
  set (f := appendChunkFrame _ _ _ _ _ _ _) in *. unfold decodeChunkFrame. assert (Hz : zlen (ztake n f) = n) by (rewrite zlen_ztake; lia). rewrite Hz.
  unfold chunkHdr in *. destruct (Z.ltb_spec n 16); [done|]. rewrite (u32at_ok _ 0) by lia. unfold sl. rewrite zdrop_nonpos, ztake_ztake, Z.min_l by lia.
  destruct (chunk_head_fields kind flags count (zlen key) (zlen disc) (zlen payload)) as (F0 & _);
    [done|done|done|unfold is_u16; pose proof (zlen_nonneg key); lia|unfold is_u16; pose proof (zlen_nonneg disc); lia|apply zlen_nonneg|done|].
  replace (ztake 4 f) with (sl (chunk_head kind flags count (zlen key) (zlen disc) (zlen payload)) 0 4).
  - rewrite F0. destruct (Z.ltb_spec n (16 + zlen key + zlen disc + zlen payload)); [|lia]. by rewrite orb_true_r.
  - unfold f. rewrite appendChunkFrame_eq. cbn [app]. rewrite ztake_app_le by (rewrite zlen_chunk_head; lia). unfold sl. by rewrite zdrop_nonpos.
Qed.

(** No bytes make the decoder read past its buffer. *)
Lemma decodeChunkFrame_total buf : exists r, decodeChunkFrame buf = Ok r
  /\ forall f n, r = Some (f, n) -> chunkHdr <= n <= zlen buf
     /\ n = chunkHdr + zlen (cf_key f) + zlen (cf_disc f) + zlen (cf_payload f).
Proof.
  unfold decodeChunkFrame, chunkHdr. destruct (Z.ltb_spec (zlen buf) 16); [by eexists|]. reads.
  set (total := le_dec (sl buf 0 4)). destruct ((total <? 16) || (zlen buf <? total)) eqn:E; [by eexists|].
  apply orb_false_iff in E as [E1%Z.ltb_ge E2%Z.ltb_ge].
  pose proof (le_dec_sl_range buf 6 2 65536 eq_refl ltac:(lia)) as H6. pose proof (le_dec_sl_range buf 8 4 4294967296 eq_refl ltac:(lia)) as H8.
  pose proof (le_dec_sl_range buf 14 2 65536 eq_refl ltac:(lia)) as H14.
  destruct (Z.eqb_spec (16 + le_dec (sl buf 6 2) + le_dec (sl buf 14 2) + le_dec (sl buf 8 4)) total) as [Et|]; [|by eexists].
  cbn [negb]. cbv zeta. rewrite !slice_ok by lia. eexists. split; [done|]. intros f n [= <- <-]. cbn [cf_key cf_disc cf_payload]. split; [lia|].
  rewrite !zlen_sl by lia. lia.
Qed.

(** ** The chunk plane *)

Lemma low_bit7 kind : 0 <= kind < 128 -> Z.testbit kind 7 = false.
Proof. intros Hk. apply Z.bits_above_log2; [lia|]. destruct (Z.eq_dec kind 0) as [->|]; [done|]. apply Z.log2_lt_pow2; lia. Qed.

Lemma ldiff_frameChunk kind : 0 <= kind < 128 -> Z.ldiff (Z.lor kind 128) 128 = kind /\ is_u8 (Z.lor kind 128).
Proof.
  intros Hk. pose proof (low_bit7 kind Hk) as H7. assert (E : Z.lor kind 128 = kind + 128).
  { rewrite <- Z.add_lor_land. assert (Z.land kind 128 = 0) as ->; [|lia]. apply Z.bits_inj'. intros i Hi. rewrite Z.land_spec, Z.bits_0.
    change 128 with (2 ^ 7). destruct (Z.eq_dec i 7) as [->|]; [by rewrite H7|rewrite Z.pow2_bits_false by lia; apply andb_false_r]. }
  split; [|unfold is_u8; lia]. apply Z.bits_inj'. intros i Hi. rewrite Z.ldiff_spec, Z.lor_spec. change 128 with (2 ^ 7).
  destruct (Z.eq_dec i 7) as [->|]; [|rewrite Z.pow2_bits_false by lia; by rewrite orb_false_r, andb_true_r].
  by rewrite Z.pow2_bits_true, andb_false_r by lia.
Qed.

(** A chunk the region holds at [off]. *)
Definition chunk_at (s : cold_region) (off kind count : Z) (disc payload : bytes) : Prop :=
  exists l flags key, s = Some l /\ vl_wf l /\ 0 <= kind < 128 /\ chunk_fits kind flags count key disc payload
    /\ stored l off (appendChunkFrame [] (Z.lor kind frameChunk) flags count key disc payload).

Lemma chunk_at_read s off kind count disc payload : chunk_at s off kind count disc payload ->
  ReadChunk s off = Ok (Some (kind, count, disc, payload)).
Proof.
  intros (l & flags & key & -> & Hwf & Hk & Hfits & Hs). unfold frameChunk in *. destruct (ldiff_frameChunk kind Hk) as [Hld Hu8].
  set (k := Z.lor kind 128) in *. assert (Hfits' : chunk_fits k flags count key disc payload) by (destruct Hfits; by split).
  pose proof (zlen_appendChunkFrame k flags count key disc payload) as Hlen. set (f := appendChunkFrame _ _ _ _ _ _ _) in *.
  pose proof (zlen_nonneg key). pose proof (zlen_nonneg disc). pose proof (zlen_nonneg payload). unfold chunkHdr in *.
  pose proof Hfits' as (_ & Hfl & Hc & Hkl & Hd & Ht). unfold ReadChunk, chunkHdr.
  pose proof (stored_read l off (ztake 16 f) Hwf (stored_prefix l off f 16 Hs ltac:(lia))) as Hh.
  rewrite zlen_ztake, Z.min_l, Z.max_r in Hh by lia. rewrite Hh.
  rewrite (u32at_ok _ 0) by (rewrite ?zlen_ztake; lia).
  assert (le_dec (sl (ztake 16 f) 0 4) = zlen f) as ->.
  { destruct (chunk_head_fields k flags count (zlen key) (zlen disc) (zlen payload)) as (F0 & _);
      [done|done|done|unfold is_u16; lia|unfold is_u16; lia|done|done|]. rewrite Hlen, <- F0. apply (f_equal le_dec). unfold f. rewrite appendChunkFrame_eq. cbn [app].
    unfold sl. rewrite !zdrop_nonpos by lia. rewrite ztake_ztake, Z.min_l by lia. apply ztake_app_le. rewrite zlen_chunk_head. lia. }
  destruct (Z.ltb_spec (zlen f) 16); [lia|]. rewrite (stored_read l off f Hwf Hs). pose proof (decodeChunkFrame_append k flags count key disc payload [] Hfits') as Hdec.
  rewrite app_nil_r in Hdec. fold f in Hdec. rewrite Hdec. unfold frameChunk. cbn [cf_kind cf_count cf_disc cf_payload]. by rewrite Hld.
Qed.

Definition region_wf (s : cold_region) : Prop := match s with Some l => vl_wf l | None => True end.
Definition region_tail (s : cold_region) : Z := match s with Some l => vl_tail l | None => 0 end.

(** An accepted append reads back, and every chunk the region held still does. *)
Lemma AppendChunk_ok w s kind flags count key disc payload : region_wf s -> 0 <= kind < 128 ->
  chunk_fits kind flags count key disc payload -> region_tail s + chunkHdr + zlen key + zlen disc + zlen payload < two63 ->
  let '(s', r) := AppendChunk w s kind flags count key disc payload in
  region_wf s' /\ (forall off, r = Some off -> chunk_at s' off kind count disc payload)
  /\ (forall o k n d p, chunk_at s o k n d p -> chunk_at s' o k n d p)
  /\ region_tail s' <= region_tail s + chunkHdr + zlen key + zlen disc + zlen payload.
Proof.
  intros Hwf Hk Hfits Hroom. pose proof (zlen_nonneg key). pose proof (zlen_nonneg disc). pose proof (zlen_nonneg payload). unfold chunkHdr in *.
  unfold AppendChunk. destruct s as [l|]; [|split_and!; (done || cbn; lia)]. cbn [region_wf region_tail] in *.
  destruct (vl_werr l) eqn:He; [split_and!; (done || cbn; lia)|]. unfold frameChunk. set (f := appendChunkFrame _ _ _ _ _ _ _).
  assert (Hlen : zlen f = chunkHdr + zlen key + zlen disc + zlen payload) by apply zlen_appendChunkFrame.
  pose proof (vlog_append_ok w l f Hwf ltac:(unfold chunkHdr in *; lia)) as Ha. destruct (vlog_append w l f) as [l' r]. destruct Ha as (Hwf' & Hkeep & Htl & Hr).
  split_and!; [done| | |cbn [region_tail]; unfold chunkHdr in *; lia].
  - intros off ->. destruct Hr as (-> & Hst & _). exists l', flags, key. split_and!; try done; try lia. apply Hst. rewrite Hlen.
    pose proof (zlen_nonneg key). pose proof (zlen_nonneg disc). pose proof (zlen_nonneg payload). unfold chunkHdr. lia.
  - intros o k n d p (l0 & fl & key0 & [= <-] & _ & Hk0 & Hf0 & Hs0). exists l', fl, key0. split_and!; try done; try lia. by apply Hkeep.
Qed.

(** ** The whole-record plane *)

Definition cold_head (kind flags vlen klen plen : Z) : bytes :=
  let h := put32 (zeros coldHdr) 0 (cast32 (coldHdr + klen + plen)) in
  let h := put8 h 4 kind in
  let h := put8 h 5 flags in
  let h := put16 h 6 (klen mod 65536) in
  put32 h 8 vlen.

Definition cold_fits (kind flags vlen : Z) (key value : bytes) : Prop :=
  is_u8 kind /\ is_u8 flags /\ is_u32 vlen /\ zlen key < 65536 /\ coldHdr + zlen key + zlen value < two32.

Lemma appendColdFrame_eq kind flags vlen key value :
  appendColdFrame [] kind flags vlen key value = cold_head kind flags vlen (zlen key) (zlen value) ++ key ++ value.
Proof. unfold appendColdFrame, cold_head. cbv zeta. by rewrite <- !(assoc_L (++)). Qed.

Lemma zlen_cold_head kind flags vlen k p : zlen (cold_head kind flags vlen k p) = 12.
Proof. unfold cold_head, put8, put16, put32. rewrite !zlen_put. done. Qed.

Lemma zlen_appendColdFrame kind flags vlen key value : zlen (appendColdFrame [] kind flags vlen key value) = 12 + zlen key + zlen value.
Proof. rewrite appendColdFrame_eq, !zlen_app, zlen_cold_head. lia. Qed.

(** The header fields of any buffer that starts with a frame's header. *)
Lemma cold_head_fields kind flags vlen key value rest : cold_fits kind flags vlen key value ->
  let b := cold_head kind flags vlen (zlen key) (zlen value) ++ rest in
  le_dec (sl b 0 4) = 12 + zlen key + zlen value /\ le_dec (sl b 4 1) = kind /\ le_dec (sl b 5 1) = flags
  /\ le_dec (sl b 6 2) = zlen key /\ le_dec (sl b 8 4) = vlen.
Proof.
  intros (Hk & Hf & Hv & Hkl & Ht). unfold coldHdr in Ht. pose proof (zlen_nonneg key). pose proof (zlen_nonneg value). cbv zeta.
  set (h := cold_head _ _ _ _ _). assert (Hh : zlen h = 12) by apply zlen_cold_head. rewrite !(sl_app_l h) by lia. unfold h.
  unfold is_u8, is_u32 in *. unfold cold_head, coldHdr, cast32. cbv zeta. split_and!; layout; rewrite ?Z.mod_small by lia; fields; done.
Qed.

Lemma decodeColdFrame_append kind flags vlen key value rest : cold_fits kind flags vlen key value ->
  decodeColdFrame (appendColdFrame [] kind flags vlen key value ++ rest)
  = Ok (Some (mkColdFrame kind flags vlen key value, coldHdr + zlen key + zlen value)).
Proof.
  intros Hfits. rewrite appendColdFrame_eq, <- !(assoc_L (++)). pose proof (zlen_nonneg key). pose proof (zlen_nonneg value). pose proof (zlen_nonneg rest).
  destruct (cold_head_fields kind flags vlen key value (key ++ value ++ rest) Hfits) as (F0 & F4 & F5 & F6 & F8).
  set (h := cold_head _ _ _ _ _) in *. assert (Hh : zlen h = 12) by apply zlen_cold_head. clearbody h. set (b := h ++ _) in *.
  assert (Hbl : zlen b = 12 + zlen key + zlen value + zlen rest) by (unfold b; rewrite !zlen_app; lia).
  unfold decodeColdFrame, coldHdr. destruct (Z.ltb_spec (zlen b) 12); [lia|]. reads. rewrite F0.
  destruct (Z.ltb_spec (12 + zlen key + zlen value) 12), (Z.ltb_spec (zlen b) (12 + zlen key + zlen value)); try lia. cbn [orb]. rewrite F6.
  destruct (Z.ltb_spec (12 + zlen key + zlen value) (12 + zlen key)); [lia|]. rewrite F4, F5, F8, !slice_ok by lia. unfold b. do 4 f_equal.
  - apply sl_mid; lia.
  - rewrite (assoc_L (++)). apply sl_mid; rewrite ?zlen_app; lia.
Qed.

(** A record frame at [off] answers every header read. *)
Definition cold_at (l : vlog) (off kind flags vlen : Z) (key value : bytes) : Prop :=
  cold_fits kind flags vlen key value /\ off + 12 < two64 /\ stored l off (appendColdFrame [] kind flags vlen key value).

Lemma cold_prefix_read l off kind flags vlen key value n : vl_wf l -> cold_at l off kind flags vlen key value ->
  0 < n <= 12 + zlen key + zlen value ->
  vlog_read l off n = Ok (Some (ztake n (cold_head kind flags vlen (zlen key) (zlen value) ++ key ++ value))).
Proof.
  intros Hwf (Hfits & _ & Hs) Hn. pose proof (zlen_appendColdFrame kind flags vlen key value) as Hlen.
  pose proof (stored_read l off _ Hwf (stored_prefix _ _ _ n Hs ltac:(lia))) as Hr. rewrite zlen_ztake, Hlen, Z.min_l, Z.max_r in Hr by lia.
  by rewrite Hr, appendColdFrame_eq.
Qed.

Lemma coldHeader_at l off kind flags vlen key value : vl_wf l -> cold_at l off kind flags vlen key value ->
  coldHeader l off = Ok (Some (12 + zlen key + zlen value, zlen key, flags, vlen)).
Proof.
  intros Hwf Hat. pose proof (zlen_nonneg key). pose proof (zlen_nonneg value). unfold coldHeader, coldHdr.
  rewrite (cold_prefix_read l off kind flags vlen key value 12 Hwf Hat) by lia. rewrite ztake_app_le by (rewrite zlen_cold_head; lia).
  rewrite ztake_all by (rewrite zlen_cold_head; lia).
  destruct (cold_head_fields kind flags vlen key value [] (proj1 Hat)) as (F0 & _ & F5 & F6 & F8). rewrite app_nil_r in *.
  pose proof (zlen_cold_head kind flags vlen (zlen key) (zlen value)). reads. by rewrite F0, F5, F6, F8.
Qed.

(** The tag-collision check says whether the frame carries the key.  A key longer than the
    frame reads past it, so the check is exact for the keys the frame has room for. *)
Lemma coldKeyMatches_at l off kind flags vlen key value k : vl_wf l -> cold_at l off kind flags vlen key value ->
  zlen k <= zlen key + zlen value -> coldKeyMatches l off k = Ok (bytes_eqb key k).
Proof.
  intros Hwf Hat Hk. pose proof (zlen_nonneg key). pose proof (zlen_nonneg value). pose proof (zlen_nonneg k). unfold coldKeyMatches, coldHdr.
  rewrite (cold_prefix_read l off kind flags vlen key value (12 + zlen k) Hwf Hat) by lia.
  rewrite ztake_app_ge, zlen_cold_head by (rewrite zlen_cold_head; lia). set (rest := ztake (12 + zlen k - 12) (key ++ value)).
  destruct (cold_head_fields kind flags vlen key value rest (proj1 Hat)) as (_ & _ & _ & F6 & _).
  set (h := cold_head _ _ _ _ _) in *. assert (Hh : zlen h = 12) by apply zlen_cold_head. clearbody h.
  assert (Hrl : zlen rest = zlen k) by (unfold rest; rewrite zlen_ztake, zlen_app; lia).
  assert (Hl : zlen (h ++ rest) = 12 + zlen k) by (rewrite zlen_app; lia). rewrite u16at_ok, F6 by lia.
  destruct (Z.eqb_spec (zlen key) (zlen k)) as [E|Hne]; cbn [negb].
  - rewrite slice_ok by lia. rewrite sl_end by lia. unfold rest. rewrite ztake_app_le by lia. by rewrite ztake_all by lia.
  - do 2 f_equal. symmetry. apply bool_decide_eq_false. by intros ->.
Qed.

Lemma coldKeyAt_at l off kind flags vlen key value : vl_wf l -> cold_at l off kind flags vlen key value -> 0 < zlen key ->
  coldKeyAt l off = Ok (Some key).
Proof.
  intros Hwf Hat Hk. pose proof (zlen_nonneg value). unfold coldKeyAt. rewrite (coldHeader_at l off kind flags vlen key value Hwf Hat).
  destruct Hat as (_ & Ho & Hs). pose proof (proj1 Hs). unfold add64, coldHdr. rewrite Z.mod_small by lia.
  pose proof (zlen_appendColdFrame kind flags vlen key value) as Hlen.
  pose proof (stored_drop l off _ 12 Hs ltac:(lia)) as Hd. rewrite appendColdFrame_eq, zdrop_app_ge, zlen_cold_head in Hd by (rewrite zlen_cold_head; lia).
  rewrite zdrop_nonpos in Hd by lia. pose proof (stored_prefix _ _ _ (zlen key) Hd ltac:(rewrite zlen_app; lia)) as Hp.
  rewrite ztake_app_le, ztake_all in Hp by lia. by apply stored_read.
Qed.

Lemma coldVlen_at l off kind flags vlen key value : vl_wf l -> cold_at l off kind flags vlen key value -> coldVlen l off = Ok vlen.
Proof. intros Hwf Hat. unfold coldVlen. by rewrite (coldHeader_at l off kind flags vlen key value Hwf Hat). Qed.

(** The null frame keeps offset 0 out of the offsets handed out. *)
Lemma reserveColdNull_ok w s : region_wf s -> region_tail s < two32 ->
  region_wf (reserveColdNull w s)
  /\ (forall l l', s = Some l -> reserveColdNull w s = Some l' -> log_keeps l l' /\ (vl_tail l' = 0 -> vl_werr l = true)).
Proof.
  intros Hwf Hb. unfold reserveColdNull. destruct s as [l|]; [|by split]. cbn [region_wf region_tail] in *.
  destruct (Z.eqb_spec (vl_tail l) 0) as [H0|Hne]; cbn [negb]; [|split; [done|]; intros l1 l2 [= <-] [= <-]; split; [apply log_keeps_refl|done]].
  assert (Hz : zlen (appendColdFrame [] 0 0 0 [] []) = 12) by apply zlen_appendColdFrame.
  pose proof (vlog_append_ok w l (appendColdFrame [] 0 0 0 [] []) Hwf ltac:(rewrite Hz; lia)) as Ha.
  destruct (vlog_append w l _) as [l' r]. destruct Ha as (Hwf' & Hk & _ & Hr). split; [done|]. intros l1 l2 [= <-] [= <-]. split; [done|].
  cbn [fst]. destruct r as [off|]; [|done]. destruct Hr as (_ & _ & Ht). lia.
Qed.
