(* ===== verification/NativeList.v ===== *)
(** The native list band (engine/f3/list/native.go and cold.go): a ring of chunk slabs with an
    offset directory each, the slab freelist, the chunk surgery of the interior writes, and the
    demotion of interior chunks to the store's cold region.

    A slab is a value held by its ring slot or by the freelist.  The repack scratch and the cold
    read buffers are overwritten whole before they are read, so they carry no state here.  The
    store's cold region ([ValueLog]) is shared and only [demote] writes it: the other operations
    take it as an argument.  The value scans read a chunk's frames before they compare them. *)

From S2P Require Import Prelude Format Frames Device Decimal Resp TierDirectory InlineList ChunkRing Fenwick ValueLog.
#[local] Open Scope Z_scope.

#[local] Abbreviation P A := (res Empty_set A).

Definition chunkBlobCap : Z := 4096.
Definition chunkElemCap : Z := 128.
Definition freeCap : Z := 8.

(** ** Slabs *)

(** [ch_blob] is [None] once the chunk is demoted; a slab's length is its capacity. *)
Record chunk := mkChunk {
  ch_blob : option bytes;
  ch_dir : list Z;
  ch_lo : Z;
  ch_hi : Z;
  ch_bytesUsed : Z;
  ch_coldOff : Z
}.

Definition count (c : chunk) : Z := ch_hi c - ch_lo c.
Definition cold (c : chunk) : bool := match ch_blob c with None => true | Some _ => false end.
Definition blob_of (c : chunk) : bytes := default [] (ch_blob c).
Definition budget (c : chunk) : Z := zlen (blob_of c).
Definition canAppendTail (c : chunk) (f : Z) : bool := (ch_hi c <? chunkElemCap) && (ch_bytesUsed c + f <=? budget c).
Definition canPrependHead (c : chunk) (f : Z) : bool := (0 <? ch_lo c) && (ch_bytesUsed c + f <=? budget c).

Definition with_window (c : chunk) (lo hi used : Z) : chunk :=
  mkChunk (ch_blob c) (ch_dir c) lo hi used (ch_coldOff c).

(** The slab after the frame is packed, and the frame's length. *)
Definition writeFrame (blob : bytes) (off : Z) (v : bytes) : P (bytes * Z) :=
  let w := zlen (PutUvarint (zlen v)) in
  if (off <? 0) || (zlen blob <? off + w) then Panic else Ok (put_frame blob off v, w + zlen v).

Definition frameAt (c : chunk) (off : Z) : P (bytes * Z) :=
  let* '(v, end_) := frame_at (blob_of c) off in Ok (v, end_ - off).

(** Indexing the offset directory. *)
Definition dir_at (dir : list Z) (i : Z) : P Z :=
  if i <? 0 then Panic else match dir !! Z.to_nat i with Some x => Ok x | None => Panic end.
Definition dir_set (dir : list Z) (i off : Z) : P (list Z) :=
  let* _ := dir_at dir i in Ok (<[Z.to_nat i := off mod 65536]> dir).

(** The values at the directory positions [p], [p+1], ... *)
Fixpoint frames_from (c : chunk) (p : Z) (k : nat) : P (list bytes) :=
  match k with
  | O => Ok []
  | S k' =>
      let* off := dir_at (ch_dir c) p in
      let* '(v, _) := frameAt c off in
      let* vs := frames_from c (p + 1) k' in
      Ok (v :: vs)
  end.

(** Every live frame of a resident chunk. *)
Definition live_frames (c : chunk) : P (list bytes) := frames_from c (ch_lo c) (Z.to_nat (count c)).

(** ** The deque *)

Record listCold := mkListCold { lc_dir : Directory; lc_seq : Z }.

Record native := mkNative {
  nt_ring : chunkRing chunk;
  nt_count : Z;
  nt_bytes : Z;
  nt_free : list chunk;
  nt_dir : chunkDir;
  nt_cold : option listCold;
  nt_coldN : Z
}.

Definition empty_dir : chunkDir := mkDir [] 0 0 false.
Definition new_native : native := mkNative empty_ring 0 0 [] empty_dir None 0.

Definition with_ring (nt : native) (r : chunkRing chunk) : native :=
  mkNative r (nt_count nt) (nt_bytes nt) (nt_free nt) (nt_dir nt) (nt_cold nt) (nt_coldN nt).
Definition with_free (nt : native) (fr : list chunk) : native :=
  mkNative (nt_ring nt) (nt_count nt) (nt_bytes nt) fr (nt_dir nt) (nt_cold nt) (nt_coldN nt).
Definition with_dir (nt : native) (d : chunkDir) : native :=
  mkNative (nt_ring nt) (nt_count nt) (nt_bytes nt) (nt_free nt) d (nt_cold nt) (nt_coldN nt).
(** [nt.count += dn; nt.bytes += db] *)
Definition tally (nt : native) (dn db : Z) : native :=
  mkNative (nt_ring nt) (nt_count nt + dn) (nt_bytes nt + db) (nt_free nt) (nt_dir nt) (nt_cold nt) (nt_coldN nt).
(** [nt.dir.stale = true] *)
Definition stale (nt : native) : native :=
  with_dir nt (mkDir (cd_tree (nt_dir nt)) (cd_n (nt_dir nt)) (cd_pw (nt_dir nt)) true).

Definition fresh_chunk (blobCap : Z) : chunk :=
  mkChunk (Some (zeros blobCap)) (replicate (Z.to_nat chunkElemCap) 0) 0 0 0 0.

Definition getChunk (nt : native) (f : Z) : native * chunk :=
  match (if f <=? chunkBlobCap then last (nt_free nt) else None) with
  | Some c => (with_free nt (take (length (nt_free nt) - 1) (nt_free nt)), with_window c 0 0 0)
  | None => (nt, fresh_chunk (if chunkBlobCap <? f then f else chunkBlobCap))
  end.

Definition recycle (nt : native) (c : chunk) : native :=
  if negb (budget c =? chunkBlobCap) || (freeCap <=? zlen (nt_free nt)) then nt
  else with_free nt (nt_free nt ++ [c]).

(** ** The cold tier *)

Definition kindList : Z := 3.

(** [lc.payload]: a torn frame reads as nil; a nil cold state panics. *)
Definition payload (st : cold_region) (nt : native) (off : Z) : P bytes :=
  match nt_cold nt with
  | None => Panic
  | Some _ =>
      let* ck := ReadChunk st off in
      Ok match ck with Some (_, _, _, p) => p | None => [] end
  end.

(** [n] frames off the front of a packed payload. *)
Fixpoint payload_frames (p : bytes) (off : Z) (n : nat) : P (list bytes) :=
  match n with
  | O => Ok []
  | S n' =>
      let* '(v, end_) := frame_at p off in
      let* vs := payload_frames p end_ n' in
      Ok (v :: vs)
  end.

Definition coldFrameAt (p : bytes) (ord : Z) : P bytes :=
  let* off := skip_frames (Z.to_nat ord) p 0 in
  let* '(v, _) := frame_at p off in Ok v.

Definition coldValues (st : cold_region) (nt : native) (c : chunk) : P (list bytes) :=
  let* p := payload st nt (ch_coldOff c) in payload_frames p 0 (Z.to_nat (count c)).

(** The scan stops at the first equal frame. *)
Fixpoint match_loop (p : bytes) (off : Z) (v : bytes) (n : nat) : P bool :=
  match n with
  | O => Ok false
  | S n' =>
      let* '(x, end_) := frame_at p off in
      if bytes_eqb x v then Ok true else match_loop p end_ v n'
  end.

Definition coldHasMatch (st : cold_region) (nt : native) (c : chunk) (v : bytes) : P bool :=
  let* p := payload st nt (ch_coldOff c) in match_loop p 0 v (Z.to_nat (count c)).

(** ** Repacking a chunk *)

Definition groupBytes (vals : list bytes) : Z := foldl (fun total v => total + frameLen (zlen v)) 0 vals.

(** [for i, v := range vals]: the directory entry, then the frame *)
Fixpoint load_loop (dir : list Z) (buf : bytes) (i off : Z) (vals : list bytes) : P (list Z * bytes) :=
  match vals with
  | [] => Ok (dir, buf)
  | v :: vals' =>
      let* dir := dir_set dir i off in
      let* '(buf, w) := writeFrame buf off v in
      load_loop dir buf (i + 1) (off + w) vals'
  end.

Definition loadChunk (c : chunk) (vals : list bytes) : P chunk :=
  let total := groupBytes vals in
  let* '(dir, buf) := load_loop (ch_dir c) (zeros total) 0 0 vals in
  Ok (mkChunk ((fun b => put b 0 buf) <$> ch_blob c) dir 0 (zlen vals) total (ch_coldOff c)).

(** [promote]: the descriptor drop is guarded by the offset. *)
Definition drop_desc (lc : listCold) (disc : bytes) (off : Z) : P listCold :=
  match Floor (lc_dir lc) disc with
  | None => Ok lc
  | Some idx =>
      match Directory_At (lc_dir lc) idx with
      | None => Panic
      | Some (dOff, _, _) =>
          if dOff =? off then
            match Directory_Remove (lc_dir lc) idx with
            | Some d => Ok (mkListCold d (lc_seq lc))
            | None => Panic
            end
          else Ok lc
      end
  end.

Definition promote (st : cold_region) (nt : native) (ci : Z) : P native :=
  let* c := ring_at (nt_ring nt) ci in
  if negb (cold c) then Ok nt
  else
    match nt_cold nt with
    | None => Panic
    | Some lc =>
        let off := ch_coldOff c in
        let* ck := ReadChunk st off in
        match ck with
        | None => Ok nt
        | Some (_, cnt, disc, p) =>
            let* vals := payload_frames p 0 (Z.to_nat cnt) in
            let blobCap := if chunkBlobCap <? zlen p then zlen p else chunkBlobCap in
            let c := mkChunk (Some (zeros blobCap)) (replicate (Z.to_nat chunkElemCap) 0) (ch_lo c) (ch_hi c) (ch_bytesUsed c) 0 in
            let* c := loadChunk c vals in
            let* r := ring_set (nt_ring nt) ci c in
            let* lc := drop_desc lc disc off in
            Ok (mkNative r (nt_count nt) (nt_bytes nt) (nt_free nt) (nt_dir nt) (Some lc) (nt_coldN nt - 1))
        end
    end.

Definition promoteIfCold (st : cold_region) (nt : native) (ci : Z) : P native :=
  let* c := ring_at (nt_ring nt) ci in
  if cold c then promote st nt ci else Ok nt.

(** ** The ends *)

(** Appends [v] to chunk [c], the last one of the ring. *)
Definition append_frame (nt : native) (c : chunk) (v : bytes) : P native :=
  let off := ch_bytesUsed c in
  let* '(blob, w) := writeFrame (blob_of c) off v in
  let* dir := dir_set (ch_dir c) (ch_hi c) off in
  let c := mkChunk (Some blob) dir (ch_lo c) (ch_hi c + 1) (ch_bytesUsed c + w) (ch_coldOff c) in
  let* r := ring_set (nt_ring nt) (cr_n (nt_ring nt) - 1) c in
  Ok (stale (tally (with_ring nt r) 1 (zlen v))).

Definition nt_pushBack (nt : native) (v : bytes) : P native :=
  let f := frameLen (zlen v) in
  let* t := if 0 <? cr_n (nt_ring nt) then
              let* t := ring_tail (nt_ring nt) in Ok (if canAppendTail t f then Some t else None)
            else Ok None in
  match t with
  | Some t => append_frame nt t v
  | None =>
      let '(nt, c) := getChunk nt f in
      let c := with_window c 0 0 (ch_bytesUsed c) in
      let* r := pushTail (nt_ring nt) c in
      append_frame (with_ring nt r) c v
  end.

(** Prepends [v] to chunk [c], the first one of the ring. *)
Definition prepend_frame (nt : native) (c : chunk) (v : bytes) : P native :=
  let off := ch_bytesUsed c in
  let* '(blob, w) := writeFrame (blob_of c) off v in
  let lo := ch_lo c - 1 in
  let* dir := dir_set (ch_dir c) lo off in
  let c := mkChunk (Some blob) dir lo (ch_hi c) (ch_bytesUsed c + w) (ch_coldOff c) in
  let* r := ring_set (nt_ring nt) 0 c in
  Ok (stale (tally (with_ring nt r) 1 (zlen v))).

Definition nt_pushFront (nt : native) (v : bytes) : P native :=
  let f := frameLen (zlen v) in
  let* h := if 0 <? cr_n (nt_ring nt) then
              let* h := ring_front (nt_ring nt) in Ok (if canPrependHead h f then Some h else None)
            else Ok None in
  match h with
  | Some h => prepend_frame nt h v
  | None =>
      let '(nt, c) := getChunk nt f in
      let c := with_window c chunkElemCap chunkElemCap (ch_bytesUsed c) in
      let* r := pushHead (nt_ring nt) c in
      prepend_frame (with_ring nt r) c v
  end.

(** The slab's high-water mark after the frame at [off] left: the last frame written is
    reclaimed. *)
Definition reclaimed (c : chunk) (off flen : Z) : Z := if off + flen =? ch_bytesUsed c then off else ch_bytesUsed c.

Definition nt_popFront (st : cold_region) (nt : native) : P (native * bytes) :=
  let* nt := promoteIfCold st nt 0 in
  let* c := ring_front (nt_ring nt) in
  let* off := dir_at (ch_dir c) (ch_lo c) in
  let* '(v, flen) := frameAt c off in
  let c := with_window c (ch_lo c + 1) (ch_hi c) (reclaimed c off flen) in
  let* r := ring_set (nt_ring nt) 0 c in
  let nt := stale (tally (with_ring nt r) (-1) (- zlen v)) in
  if count c =? 0 then
    let nt := recycle nt c in
    let* r := popHead (nt_ring nt) in
    Ok (with_ring nt r, v)
  else Ok (nt, v).

Definition nt_popBack (st : cold_region) (nt : native) : P (native * bytes) :=
  let* nt := promoteIfCold st nt (cr_n (nt_ring nt) - 1) in
  let* c := ring_tail (nt_ring nt) in
  let* off := dir_at (ch_dir c) (ch_hi c - 1) in
  let* '(v, flen) := frameAt c off in
  let c := with_window c (ch_lo c) (ch_hi c - 1) (reclaimed c off flen) in
  let* r := ring_set (nt_ring nt) (cr_n (nt_ring nt) - 1) c in
  let nt := stale (tally (with_ring nt r) (-1) (- zlen v)) in
  if count c =? 0 then
    let nt := recycle nt c in
    let* r := popTail (nt_ring nt) in
    Ok (with_ring nt r, v)
  else Ok (nt, v).

(** ** Reads *)

Definition nt_locate (nt : native) (k : Z) : P (native * (Z * Z)) :=
  let* '(d, p) := locate count (nt_dir nt) (nt_ring nt) k in Ok (with_dir nt d, p).

Definition frameOf (st : cold_region) (nt : native) (c : chunk) (ord : Z) : P bytes :=
  if cold c then let* p := payload st nt (ch_coldOff c) in coldFrameAt p ord
  else
    let* off := dir_at (ch_dir c) (ch_lo c + ord) in
    let* '(v, _) := frameAt c off in Ok v.

Definition nt_at (st : cold_region) (nt : native) (i : Z) : P (native * bytes) :=
  let* '(nt, (ci, ord)) := nt_locate nt i in
  let* c := ring_at (nt_ring nt) ci in
  let* v := frameOf st nt c ord in
  Ok (nt, v).

(** The rest of a chunk from ordinal [ord], as the range walk emits it: [n] frames. *)
Definition chunk_run (st : cold_region) (nt : native) (c : chunk) (ord : Z) (n : nat) : P (list bytes) :=
  if cold c then
    let* p := payload st nt (ch_coldOff c) in
    let* off := skip_frames (Z.to_nat ord) p 0 in
    payload_frames p off n
  else frames_from c (ch_lo c + ord) n.

Definition emit (sp : bytes -> bytes -> bytes) (out : bytes) (vs : list bytes) : bytes :=
  foldl (fun out v => AppendBulk (sp out v) out v) out vs.

(** [for remaining > 0]: every chunk of the ring is non-empty, so the remaining count bounds the
    walk. *)
Fixpoint range_loop (fuel : nat) (sp : bytes -> bytes -> bytes) (st : cold_region) (nt : native) (ci ord remaining : Z) (out : bytes) : P bytes :=
  if remaining <=? 0 then Ok out
  else
    match fuel with
    | O => Panic
    | S fuel' =>
        let* c := ring_at (nt_ring nt) ci in
        let k := Z.max 0 (Z.min (count c - ord) remaining) in
        let* vs := chunk_run st nt c ord (Z.to_nat k) in
        range_loop fuel' sp st nt (ci + 1) 0 (remaining - k) (emit sp out vs)
    end.

Definition nt_rangeInto (st : cold_region) (sp : bytes -> bytes -> bytes) (nt : native) (out : bytes) (lo hi : Z) : P (native * bytes) :=
  let* '(nt, (ci, ord)) := nt_locate nt lo in
  let remaining := hi - lo + 1 in
  let* out := range_loop (Z.to_nat remaining) sp st nt ci ord remaining out in
  Ok (nt, out).

(** The values of a chunk, resident or cold. *)
Definition chunk_values (st : cold_region) (nt : native) (c : chunk) : P (list bytes) :=
  if cold c then coldValues st nt c else live_frames c.

Fixpoint each_loop (st : cold_region) (nt : native) (i : Z) (k : nat) : P (list bytes) :=
  match k with
  | O => Ok []
  | S k' =>
      let* c := ring_at (nt_ring nt) i in
      let* vs := chunk_values st nt c in
      let* rest := each_loop st nt (i + 1) k' in
      Ok (vs ++ rest)
  end.

Definition nt_each (st : cold_region) (nt : native) : P (list bytes) := each_loop st nt 0 (Z.to_nat (cr_n (nt_ring nt))).

(** ** LPOS *)

(** The walk of one chunk from position [abs], in the direction of the scan. *)
Fixpoint items_from (abs step : Z) (vs : list bytes) : list (Z * bytes) :=
  match vs with [] => [] | v :: vs' => (abs, v) :: items_from (abs + step) step vs' end.

Fixpoint lpos_fwd (st : cold_region) (nt : native) (target : bytes) (limit maxlen : Z) (i abs : Z) (s : lpos_state) (k : nat) : P lpos_state :=
  match k with
  | O => Ok s
  | S k' =>
      let* c := ring_at (nt_ring nt) i in
      let* vs := chunk_values st nt c in
      let '(go, s) := lpos_walk target limit maxlen s (items_from abs 1 vs) in
      if go then lpos_fwd st nt target limit maxlen (i + 1) (abs + zlen vs) s k' else Ok s
  end.

Fixpoint lpos_bwd (st : cold_region) (nt : native) (target : bytes) (limit maxlen : Z) (abs : Z) (s : lpos_state) (k : nat) : P lpos_state :=
  match k with
  | O => Ok s
  | S k' =>
      let* c := ring_at (nt_ring nt) (Z.of_nat k') in
      let* vs := chunk_values st nt c in
      let '(go, s) := lpos_walk target limit maxlen s (items_from abs (-1) (rev vs)) in
      if go then lpos_bwd st nt target limit maxlen (abs - zlen vs) s k' else Ok s
  end.

Definition nt_lpos (st : cold_region) (nt : native) (target : bytes) (rank limit maxlen : Z) : P (list Z) :=
  let n := Z.to_nat (cr_n (nt_ring nt)) in
  let* '(_, _, out) :=
    if 0 <? rank then lpos_fwd st nt target limit maxlen 0 0 (lpos_start rank) n
    else lpos_bwd st nt target limit maxlen (nt_count nt - 1) (lpos_start rank) n in
  Ok out.

(** ** Interior surgery *)

(** The scan of [splitVals]: [cur] is the open group, [used] its bytes. *)
Fixpoint split_loop (vals cur : list bytes) (used : Z) : list (list bytes) :=
  match vals with
  | [] => [cur]
  | v :: vals' =>
      let f := frameLen (zlen v) in
      if (0 <? zlen cur) && ((chunkBlobCap <? used + f) || (chunkElemCap <=? zlen cur))
      then cur :: split_loop vals' [v] f
      else split_loop vals' (cur ++ [v]) (used + f)
  end.

Definition splitVals (vals : list bytes) : list (list bytes) :=
  if (zlen vals <=? chunkElemCap) && (groupBytes vals <=? chunkBlobCap) then [vals] else split_loop vals [] 0.

(** Fresh slabs for the groups. *)
Fixpoint load_groups (nt : native) (groups : list (list bytes)) : P (native * list chunk) :=
  match groups with
  | [] => Ok (nt, [])
  | g :: groups' =>
      let '(nt, nc) := getChunk nt (groupBytes g) in
      let* nc := loadChunk nc g in
      let* '(nt, ncs) := load_groups nt groups' in
      Ok (nt, nc :: ncs)
  end.

(** [for k := 1; k < len(chunks); k++ { insertAt(ci+k, chunks[k]) }] *)
Fixpoint ring_insert_all (r : chunkRing chunk) (i : Z) (cs : list chunk) : P (chunkRing chunk) :=
  match cs with
  | [] => Ok r
  | c :: cs' => let* r := insertAt r i c in ring_insert_all r (i + 1) cs'
  end.

Definition spliceChunk (nt : native) (ci : Z) (vals : list bytes) : P native :=
  let groups := splitVals vals in
  let* c := ring_at (nt_ring nt) ci in
  match groups with
  | [] => Panic
  | g0 :: gs =>
      let* '(nt, c0, cs) :=
        if groupBytes g0 <=? budget c then
          let* '(nt, cs) := load_groups nt gs in
          let* c0 := loadChunk c g0 in
          Ok (nt, c0, cs)
        else
          let* '(nt, cs) := load_groups nt groups in
          match cs with
          | c0 :: cs => Ok (recycle nt c, c0, cs)
          | [] => Panic
          end in
      let* r := ring_set (nt_ring nt) ci c0 in
      let* r := ring_insert_all r (ci + 1) cs in
      Ok (with_ring nt r)
  end.

Definition nt_setAt (st : cold_region) (nt : native) (i : Z) (v : bytes) : P native :=
  let* '(nt, (ci, ord)) := nt_locate nt i in
  let* nt := promoteIfCold st nt ci in
  let* c := ring_at (nt_ring nt) ci in
  let* off := dir_at (ch_dir c) (ch_lo c + ord) in
  let* '(old, _) := frameAt c off in
  if zlen old =? zlen v then
    let at_ := off + uvarintLen (zlen v) in
    let* _ := slice (blob_of c) at_ (zlen (blob_of c)) in
    let c := mkChunk ((fun b => put b at_ v) <$> ch_blob c) (ch_dir c) (ch_lo c) (ch_hi c) (ch_bytesUsed c) (ch_coldOff c) in
    let* r := ring_set (nt_ring nt) ci c in
    Ok (with_ring nt r)
  else
    let* vals := live_frames c in
    let vals := <[Z.to_nat ord := v]> vals in
    let nt := tally nt 0 (zlen v - zlen old) in
    let before := cr_n (nt_ring nt) in
    let* nt := spliceChunk nt ci vals in
    Ok (if cr_n (nt_ring nt) =? before then nt else stale nt).

(** The forward value scan: chunk index and ordinal. *)
Fixpoint find_loop (st : cold_region) (nt : native) (pivot : bytes) (i : Z) (k : nat) : P (option (Z * Z)) :=
  match k with
  | O => Ok None
  | S k' =>
      let* c := ring_at (nt_ring nt) i in
      let* vs := chunk_values st nt c in
      match index_of pivot vs 0 with
      | Some j => Ok (Some (i, Z.of_nat j))
      | None => find_loop st nt pivot (i + 1) k'
      end
  end.

Definition findPivot (st : cold_region) (nt : native) (pivot : bytes) : P (option (Z * Z)) :=
  find_loop st nt pivot 0 (Z.to_nat (cr_n (nt_ring nt))).

Definition nt_insert (st : cold_region) (nt : native) (before : bool) (pivot v : bytes) : P (native * bool) :=
  let* hit := findPivot st nt pivot in
  match hit with
  | None => Ok (nt, false)
  | Some (ci, ord) =>
      let at_ := if before then ord else ord + 1 in
      let* nt := promoteIfCold st nt ci in
      let* c := ring_at (nt_ring nt) ci in
      let* vals := live_frames c in
      let vals := take (Z.to_nat at_) vals ++ v :: drop (Z.to_nat at_) vals in
      let nt := tally nt 1 (zlen v) in
      let* nt := spliceChunk nt ci vals in
      Ok (stale nt, true)
  end.

(** ** LREM *)

(** The marks of one chunk in scan order: the scan breaks once [budget] matches are marked. *)
Fixpoint drop_marks (v : bytes) (lim dropped : Z) (vs : list bytes) : list bool * Z :=
  match vs with
  | [] => ([], dropped)
  | x :: vs' =>
      if negb (bytes_eqb x v) then let '(fl, d) := drop_marks v lim dropped vs' in (false :: fl, d)
      else
        let dropped := dropped + 1 in
        if (lim <=? 0) || (dropped <? lim)
        then let '(fl, d) := drop_marks v lim dropped vs' in (true :: fl, d)
        else (true :: replicate (length vs') false, dropped)
  end.

Definition chunk_marks (v : bytes) (backward : bool) (lim : Z) (vs : list bytes) : list bool * Z :=
  if backward then let '(fl, d) := drop_marks v lim 0 (rev vs) in (rev fl, d) else drop_marks v lim 0 vs.

(** The matches removed and whether the chunk emptied. *)
Definition dropInChunk (st : cold_region) (nt : native) (i : Z) (v : bytes) (backward : bool) (lim : Z) : P (native * (Z * bool)) :=
  let* c := ring_at (nt_ring nt) i in
  let* '(nt, hit) :=
    if cold c then
      let* hit := coldHasMatch st nt c v in
      if negb hit then Ok (nt, false) else let* nt := promote st nt i in Ok (nt, true)
    else Ok (nt, true) in
  if negb hit then Ok (nt, (0, false))
  else
    let* c := ring_at (nt_ring nt) i in
    let* vals := live_frames c in
    let n := count c in
    let '(drop, dropped) := chunk_marks v backward lim vals in
    if dropped =? 0 then Ok (nt, (0, false))
    else
      let nt := tally nt (- dropped) (- (dropped * zlen v)) in
      if dropped =? n then
        let nt := recycle nt c in
        let* r := removeAt (nt_ring nt) i in
        Ok (with_ring nt r, (dropped, true))
      else
        let* c := loadChunk c (keep_loop vals drop) in
        let* r := ring_set (nt_ring nt) i c in
        Ok (with_ring nt r, (dropped, false)).

(** [for i := nt.ring.n - 1; i >= 0 && remaining > 0; i--] *)
Fixpoint remove_bwd (st : cold_region) (nt : native) (v : bytes) (removed remaining : Z) (k : nat) : P (native * Z) :=
  match k with
  | O => Ok (nt, removed)
  | S k' =>
      if remaining <=? 0 then Ok (nt, removed)
      else
        let* '(nt, (r, _)) := dropInChunk st nt (Z.of_nat k') v true remaining in
        remove_bwd st nt v (removed + r) (remaining - r) k'
  end.

(** [for i := 0; i < nt.ring.n; ]: every step moves past a chunk or unlinks one, so [fuel] counts
    the chunks left. *)
Fixpoint remove_fwd (st : cold_region) (nt : native) (v : bytes) (unlimited : bool) (i removed remaining : Z) (fuel : nat) : P (native * Z) :=
  if cr_n (nt_ring nt) <=? i then Ok (nt, removed)
  else if negb unlimited && (remaining =? 0) then Ok (nt, removed)
  else
    match fuel with
    | O => Panic
    | S fuel' =>
        let* '(nt, (r, emptied)) := dropInChunk st nt i v false (if unlimited then 0 else remaining) in
        remove_fwd st nt v unlimited (if (emptied : bool) then i else i + 1) (removed + r) (if unlimited then remaining else remaining - r) fuel'
    end.

Definition nt_remove (st : cold_region) (nt : native) (cnt : Z) (v : bytes) : P (native * Z) :=
  let backward := cnt <? 0 in
  let unlimited := cnt =? 0 in
  let remaining := if backward then int64_add 0 (- cnt) else cnt in
  let n := Z.to_nat (cr_n (nt_ring nt)) in
  let* '(nt, removed) :=
    if backward then remove_bwd st nt v 0 remaining n else remove_fwd st nt v unlimited 0 0 remaining n in
  Ok (if 0 <? removed then stale nt else nt, removed).

(** ** LTRIM *)

(** [for i := 0; i < nt.ring.n; i++ { nt.recycle(nt.ring.at(i)) }] *)
Fixpoint recycle_all (nt : native) (i : Z) (k : nat) : P native :=
  match k with
  | O => Ok nt
  | S k' => let* c := ring_at (nt_ring nt) i in recycle_all (recycle nt c) (i + 1) k'
  end.

Fixpoint push_vals (nt : native) (vals : list bytes) : P native :=
  match vals with
  | [] => Ok nt
  | v :: vals' => let* nt := nt_pushBack nt v in push_vals nt vals'
  end.

Definition rebuild (nt : native) (vals : list bytes) : P native :=
  let* nt := recycle_all nt 0 (Z.to_nat (cr_n (nt_ring nt))) in
  push_vals (mkNative (mkRing (cr_buf (nt_ring nt)) 0 0) 0 0 (nt_free nt) (nt_dir nt) (nt_cold nt) (nt_coldN nt)) vals.

Definition chunkLiveBytes (c : chunk) : P Z :=
  let* vs := live_frames c in Ok (foldl (fun t v => t + zlen v) 0 vs).

(** [for nt.ring.n-1 > eci] *)
Fixpoint trim_tail (st : cold_region) (nt : native) (k : nat) : P native :=
  match k with
  | O => Ok nt
  | S k' =>
      let* nt := promoteIfCold st nt (cr_n (nt_ring nt) - 1) in
      let* c := ring_tail (nt_ring nt) in
      let* b := chunkLiveBytes c in
      let nt := recycle (tally nt 0 (- b)) c in
      let* r := popTail (nt_ring nt) in
      trim_tail st (with_ring nt r) k'
  end.

(** [for k := 0; k < sci; k++] *)
Fixpoint trim_head (st : cold_region) (nt : native) (k : nat) : P native :=
  match k with
  | O => Ok nt
  | S k' =>
      let* nt := promoteIfCold st nt 0 in
      let* c := ring_front (nt_ring nt) in
      let* b := chunkLiveBytes c in
      let nt := recycle (tally nt 0 (- b)) c in
      let* r := popHead (nt_ring nt) in
      trim_head st (with_ring nt r) k'
  end.

(** [for c.count()-1 > eord]: the window's end steps down; the bytes that leave *)
Fixpoint shrink_hi (c : chunk) (bytes_ : Z) (k : nat) : P (chunk * Z) :=
  match k with
  | O => Ok (c, bytes_)
  | S k' =>
      let hi := ch_hi c - 1 in
      let* off := dir_at (ch_dir c) hi in
      let* '(v, _) := frameAt c off in
      shrink_hi (with_window c (ch_lo c) hi (ch_bytesUsed c)) (bytes_ - zlen v) k'
  end.

(** [for k := 0; k < sord; k++] *)
Fixpoint shrink_lo (c : chunk) (bytes_ : Z) (k : nat) : P (chunk * Z) :=
  match k with
  | O => Ok (c, bytes_)
  | S k' =>
      let* off := dir_at (ch_dir c) (ch_lo c) in
      let* '(v, _) := frameAt c off in
      shrink_lo (with_window c (ch_lo c + 1) (ch_hi c) (ch_bytesUsed c)) (bytes_ - zlen v) k'
  end.

Definition with_bytes (nt : native) (b : Z) : native :=
  mkNative (nt_ring nt) (nt_count nt) b (nt_free nt) (nt_dir nt) (nt_cold nt) (nt_coldN nt).

Definition trim_front (st : cold_region) (nt : native) (sord : Z) : P native :=
  let* nt := promoteIfCold st nt 0 in
  let* c := ring_front (nt_ring nt) in
  let* '(c, b) := shrink_lo c (nt_bytes nt) (Z.to_nat sord) in
  let* r := ring_set (nt_ring nt) 0 c in
  Ok (with_bytes (with_ring nt r) b).

Definition trim_back (st : cold_region) (nt : native) (eord : Z) : P native :=
  let* nt := promoteIfCold st nt (cr_n (nt_ring nt) - 1) in
  let* c := ring_tail (nt_ring nt) in
  let* '(c, b) := shrink_hi c (nt_bytes nt) (Z.to_nat (count c - 1 - eord)) in
  let* r := ring_set (nt_ring nt) (cr_n (nt_ring nt) - 1) c in
  Ok (with_bytes (with_ring nt r) b).

(** Start and stop in one chunk: the end is cut before the front. *)
Definition trim_same (st : cold_region) (nt : native) (sord eord : Z) : P native :=
  let* nt := promoteIfCold st nt 0 in
  let* c := ring_front (nt_ring nt) in
  let* '(c, b) := shrink_hi c (nt_bytes nt) (Z.to_nat (count c - 1 - eord)) in
  let* '(c, b) := shrink_lo c b (Z.to_nat sord) in
  let* r := ring_set (nt_ring nt) 0 c in
  Ok (with_bytes (with_ring nt r) b).

Definition nt_trim (st : cold_region) (nt : native) (start stop : Z) : P native :=
  if stop <? start then rebuild nt []
  else
    let* '(nt, (sci, sord)) := nt_locate nt start in
    let* '(nt, (eci, eord)) := nt_locate nt stop in
    let* nt := trim_tail st nt (Z.to_nat (cr_n (nt_ring nt) - 1 - eci)) in
    let* nt := trim_head st nt (Z.to_nat sci) in
    let* nt := if sci =? eci then trim_same st nt sord eord
               else let* nt := trim_front st nt sord in trim_back st nt eord in
    Ok (stale (mkNative (nt_ring nt) (stop - start + 1) (nt_bytes nt) (nt_free nt) (nt_dir nt) (nt_cold nt) (nt_coldN nt))).

(** ** Demotion *)

Definition demoteMargin : Z := 1.
Definition demoteQuantum : Z := 8.

(** The frames of a chunk packed for the region. *)
Definition packFrames (vs : list bytes) : bytes := foldl (fun p v => (p ++ PutUvarint (zlen v)) ++ v) [] vs.

(** The appends of one pass: ring index, offset, discriminator and count of each run; [None]
    when the region refused one. [w i] is the outcome of the write for ring index [i]. *)
Fixpoint demote_loop (w : Z -> option Z) (st : cold_region) (nt : native) (seq : Z) (key : bytes) (i : Z)
    (runs : list (Z * Z * bytes * Z)) (k : nat) : P (cold_region * option (list (Z * Z * bytes * Z))) :=
  match k with
  | O => Ok (st, Some runs)
  | S k' =>
      if demoteQuantum <=? zlen runs then Ok (st, Some runs)
      else
        let* c := ring_at (nt_ring nt) i in
        if cold c then demote_loop w st nt seq key (i + 1) runs k'
        else
          let* vs := live_frames c in
          let disc := rev (le_enc 8 (add64 seq (zlen runs))) in
          let '(st, off) := AppendChunk (w i) st kindList 0 (count c mod 65536) key disc (packFrames vs) in
          match off with
          | None => Ok (st, None)
          | Some off => demote_loop w st nt seq key (i + 1) (runs ++ [(i, off, disc, count c)]) k'
          end
  end.

(** The commit: descriptor in, slab out. *)
Fixpoint demote_commit (nt : native) (lc : listCold) (runs : list (Z * Z * bytes * Z)) : P (native * listCold) :=
  match runs with
  | [] => Ok (nt, lc)
  | (ci, off, disc, cnt) :: runs' =>
      let lc := mkListCold (Directory_Insert (lc_dir lc) disc (cast32 cnt) off) (lc_seq lc) in
      let* c := ring_at (nt_ring nt) ci in
      let* r := ring_set (nt_ring nt) ci (mkChunk None [] 0 cnt (ch_bytesUsed c) off) in
      let nt := mkNative r (nt_count nt) (nt_bytes nt) (nt_free nt) (nt_dir nt) (nt_cold nt) (nt_coldN nt + 1) in
      demote_commit nt lc runs'
  end.

Definition demote (w : Z -> option Z) (st : cold_region) (nt : native) (key : bytes) : P (cold_region * native * Z) :=
  if cr_n (nt_ring nt) <=? 2 * demoteMargin then Ok (st, nt, 0)
  else
    let lc := default (mkListCold (mkDirectory [] 0) 0) (nt_cold nt) in
    let nt := mkNative (nt_ring nt) (nt_count nt) (nt_bytes nt) (nt_free nt) (nt_dir nt) (Some lc) (nt_coldN nt) in
    let* '(st, runs) := demote_loop w st nt (lc_seq lc) key demoteMargin [] (Z.to_nat (cr_n (nt_ring nt) - 2 * demoteMargin)) in
    match runs with
    | None => Ok (st, nt, 0)
    | Some runs =>
        if zlen runs =? 0 then Ok (st, nt, 0)
        else
          let* '(nt, lc) := demote_commit nt lc runs in
          let lc := mkListCold (lc_dir lc) (add64 (lc_seq lc) (zlen runs)) in
          Ok (st, mkNative (nt_ring nt) (nt_count nt) (nt_bytes nt) (nt_free nt) (nt_dir nt) (Some lc) (nt_coldN nt), zlen runs)
    end.

Fixpoint resident_loop (nt : native) (i : Z) (k : nat) : P bool :=
  match k with
  | O => Ok false
  | S k' => let* c := ring_at (nt_ring nt) i in if negb (cold c) then Ok true else resident_loop nt (i + 1) k'
  end.

Definition hasResidentInterior (nt : native) : P bool :=
  resident_loop nt demoteMargin (Z.to_nat (cr_n (nt_ring nt) - 2 * demoteMargin)).

(** ** The deque the inline band promotes to *)

#[export] Instance native_deque (st : cold_region) : Deque native := {
  dq_new := new_native;
  dq_count := nt_count;
  dq_pushBack := nt_pushBack;
  dq_pushFront := nt_pushFront;
  dq_popFront := nt_popFront st;
  dq_popBack := nt_popBack st;
  dq_at := nt_at st;
  dq_rangeInto := nt_rangeInto st;
  dq_setAt := nt_setAt st;
  dq_insert := nt_insert st;
  dq_remove := nt_remove st;
  dq_trim := nt_trim st;
  dq_lpos := nt_lpos st;
  dq_each := nt_each st
}.
