(* ===== verification/NativeRefines.v ===== *)
(** The native deque holds a list: what a resident slab stores, and the lemmas of the slab
    operations (engine/f3/list/native.go). *)

From S2P Require Import Prelude Format Frames Device Decimal Resp TierDirectory InlineList ChunkRing Fenwick ValueLog NativeList.
#[local] Open Scope Z_scope.

#[local] Abbreviation P A := (res Empty_set A).

(** The elements a slab offset can address: a frame no wider than the directory's 16 bits. *)
Definition okv (v : bytes) : Prop := zlen (frame v) <= 65536.

Lemma okv_fits v : okv v -> fits v.
Proof. unfold okv, fits. rewrite zlen_frame. pose proof (zlen_nonneg (PutUvarint (zlen v))). lia. Qed.
#[export] Hint Resolve okv_fits : core.

(** ** Spans *)

(** A frame at its offset in the slab. *)
Abbreviation span := (Z * bytes)%type.
Definition span_end (p : span) : Z := p.1 + zlen (frame p.2).
Definition apart (p q : span) : Prop := span_end p <= q.1 \/ span_end q <= p.1.

Fixpoint pairwise (sp : list span) : Prop :=
  match sp with [] => True | p :: sp' => Forall (apart p) sp' /\ pairwise sp' end.

Lemma apart_sym p q : apart p q -> apart q p.
Proof. unfold apart. tauto. Qed.

Lemma pairwise_snoc sp q : pairwise (sp ++ [q]) <-> pairwise sp /\ Forall (fun p => apart p q) sp.
Proof.
  induction sp as [|p sp IH]; cbn [app pairwise]; [split; [by intros|by intros [_ _]]|].
  rewrite IH, Forall_app, Forall_singleton, Forall_cons. tauto.
Qed.

Definition span_ok (b : bytes) (used : Z) (p : span) : Prop :=
  0 <= p.1 /\ span_end p <= used /\ sl b p.1 (zlen (frame p.2)) = frame p.2.

Lemma span_frame_at b used p : span_ok b used p -> used <= zlen b -> okv p.2 -> frame_at b p.1 = Ok (p.2, span_end p).
Proof.
  intros (H0 & H1 & H2) Hu Hv. unfold span_end in *. pose proof (frame_pos p.2).
  destruct (frame_at_ok b p.1 p.2 (zdrop (zlen (frame p.2)) (zdrop p.1 b))) as (E & _ & _); [by apply okv_fits|lia| |done].
  rewrite <- H2 at 1. unfold sl. by rewrite ztake_zdrop.
Qed.

Record resident (c : chunk) (b : bytes) (sp : list span) : Prop := {
  rs_blob : ch_blob c = Some b;
  rs_cap : zlen b <= 65536;
  rs_dirlen : zlen (ch_dir c) = chunkElemCap;
  rs_lo : 0 <= ch_lo c;
  rs_win : ch_lo c <= ch_hi c <= chunkElemCap;
  rs_dir : sl (ch_dir c) (ch_lo c) (ch_hi c - ch_lo c) = map fst sp;
  rs_sum : zlen (frames (map snd sp)) <= ch_bytesUsed c;
  rs_used : ch_bytesUsed c <= zlen b;
  rs_spans : Forall (span_ok b (ch_bytesUsed c)) sp;
  rs_apart : pairwise sp;
  rs_ok : Forall okv (map snd sp)
}.

Lemma rs_blob_of c b sp : resident c b sp -> blob_of c = b.
Proof. intros H. unfold blob_of. by rewrite (rs_blob _ _ _ H). Qed.

Lemma rs_count c b sp : resident c b sp -> count c = zlen sp.
Proof.
  intros H. destruct H. unfold chunkElemCap, count in *. apply (f_equal zlen) in rs_dir0. rewrite zlen_sl in rs_dir0 by lia.
  unfold zlen in *. rewrite length_map in rs_dir0. lia.
Qed.

Lemma rs_cold c b sp : resident c b sp -> cold c = false.
Proof. intros H. unfold cold. by rewrite (rs_blob _ _ _ H). Qed.

(** The directory entry of a live frame. *)
Lemma rs_dir_at c b sp j p : resident c b sp -> 0 <= j -> sp !! Z.to_nat j = Some p -> dir_at (ch_dir c) (ch_lo c + j) = Ok p.1.
Proof.
  intros H Hj Hp. pose proof (rs_lo _ _ _ H). unfold dir_at. destruct (Z.ltb_spec (ch_lo c + j) 0); [lia|].
  assert (Hd : ch_dir c !! Z.to_nat (ch_lo c + j) = Some p.1); [|by rewrite Hd].
  pose proof (rs_dir _ _ _ H) as Hs. apply (f_equal (fun l => l !! Z.to_nat j)) in Hs. change (map fst sp) with (fst <$> sp) in Hs.
  rewrite list_lookup_fmap, Hp in Hs. cbn in Hs. unfold sl in Hs. rewrite ztake_take, zdrop_drop in Hs. apply lookup_take_Some in Hs as [Hs _].
  rewrite lookup_drop in Hs. by replace (Z.to_nat (ch_lo c) + Z.to_nat j)%nat with (Z.to_nat (ch_lo c + j)) in Hs by lia.
Qed.

Lemma rs_span c b sp j p : resident c b sp -> sp !! j = Some p -> span_ok b (ch_bytesUsed c) p /\ okv p.2.
Proof.
  intros H Hp. split; [eapply Forall_lookup_1; [apply H|done]|]. pose proof (rs_ok _ _ _ H) as Ho. rewrite Forall_map in Ho.
  by apply (Forall_lookup_1 _ _ _ _ Ho Hp).
Qed.

Lemma rs_frameAt c b sp j p : resident c b sp -> sp !! j = Some p -> frameAt c p.1 = Ok (p.2, zlen (frame p.2)).
Proof.
  intros H Hp. destruct (rs_span _ _ _ _ _ H Hp) as [Hs Hv]. unfold frameAt. rewrite (rs_blob_of _ _ _ H).
  rewrite (span_frame_at b (ch_bytesUsed c)) by (done || apply H). do 2 f_equal. unfold span_end. lia.
Qed.

Lemma frames_from_rs c b sp : resident c b sp -> forall k j, 0 <= j -> j + Z.of_nat k <= zlen sp ->
  frames_from c (ch_lo c + j) k = Ok (take k (drop (Z.to_nat j) (map snd sp))).
Proof.
  intros H. induction k as [|k IH]; intros j Hj Hk; [done|]. cbn [frames_from].
  destruct (lookup_lt_is_Some_2 sp (Z.to_nat j)) as [p Hp]; [unfold zlen in *; lia|].
  rewrite (rs_dir_at c b sp j p H Hj Hp), (rs_frameAt c b sp _ p H Hp). replace (ch_lo c + j + 1) with (ch_lo c + (j + 1)) by lia. rewrite IH by lia.
  replace (Z.to_nat (j + 1)) with (S (Z.to_nat j)) by lia.
  assert (Hm : map snd sp !! Z.to_nat j = Some p.2) by (change (map snd sp) with (snd <$> sp); by rewrite list_lookup_fmap, Hp).
  by rewrite (drop_S _ _ _ Hm).
Qed.

Lemma live_frames_rs c b sp : resident c b sp -> live_frames c = Ok (map snd sp).
Proof.
  intros H. unfold live_frames. rewrite (rs_count _ _ _ H). rewrite <- (Z.add_0_r (ch_lo c)), (frames_from_rs c b sp H) by (unfold zlen; lia).
  cbn [Z.to_nat]. rewrite drop_0, take_ge; [done|]. rewrite length_map. unfold zlen. lia.
Qed.

(** ** Packing one more frame *)

Lemma zlen_frames_cons v ys : zlen (frames (v :: ys)) = zlen (frame v) + zlen (frames ys).
Proof. by rewrite frames_cons, zlen_app. Qed.
Lemma zlen_frames_snoc ys v : zlen (frames (ys ++ [v])) = zlen (frames ys) + zlen (frame v).
Proof. by rewrite frames_app, frames_one, zlen_app. Qed.

Lemma writeFrame_ok b off v : 0 <= off -> off + zlen (frame v) <= zlen b ->
  exists b', writeFrame b off v = Ok (b', zlen (frame v)) /\ zlen b' = zlen b /\ sl b' off (zlen (frame v)) = frame v
    /\ forall i n, 0 <= i -> 0 <= n -> i + n <= off \/ off + zlen (frame v) <= i -> i + n <= zlen b -> sl b' i n = sl b i n.
Proof.
  intros Ho Hf. pose proof (frame_pos v). pose proof (zlen_nonneg v). pose proof (zlen_nonneg (PutUvarint (zlen v))). pose proof (zlen_frame v) as Hz.
  assert (Hb : b = ztake off b ++ sl b off (zlen (frame v)) ++ zdrop (off + zlen (frame v)) b).
  { rewrite <- (ztake_zdrop off b) at 1. f_equal. unfold sl. rewrite <- (zdrop_zdrop _ off) by lia. by rewrite ztake_zdrop. }
  exists (ztake off b ++ frame v ++ zdrop (off + zlen (frame v)) b). unfold writeFrame.
  destruct (Z.ltb_spec off 0); [lia|]. destruct (Z.ltb_spec (zlen b) (off + zlen (PutUvarint (zlen v)))); [lia|]. cbn [orb].
  assert (Hp : zlen (ztake off b) = off) by (rewrite zlen_ztake; lia).
  split_and!.
  - rewrite Hb at 1. rewrite put_frame_at; [by rewrite Hz|done|]. rewrite zlen_sl; lia.
  - rewrite !zlen_app, zlen_zdrop, Hp. lia.
  - rewrite sl_app_r by lia. rewrite Hp, Z.sub_diag. rewrite sl_app_l by lia. by apply sl_all.
  - intros i n Hi Hn Hd Hin. transitivity (sl (ztake off b ++ sl b off (zlen (frame v)) ++ zdrop (off + zlen (frame v)) b) i n); [|by rewrite <- Hb].
    destruct Hd.
    + by rewrite !sl_app_l by lia.
    + rewrite !(sl_app_r (ztake off b)) by lia. rewrite Hp. rewrite !sl_app_r by (rewrite ?zlen_sl; lia). by rewrite zlen_sl by lia.
Qed.

(** Live frames below the written range read as before. *)
Lemma spans_keep b b' used used' off len sp :
  zlen b' = zlen b -> used <= zlen b -> used <= used' -> Forall (fun p => span_ok b used p) sp ->
  Forall (fun p => span_end p <= off \/ off + len <= p.1) sp ->
  (forall i n, 0 <= i -> 0 <= n -> i + n <= off \/ off + len <= i -> i + n <= zlen b -> sl b' i n = sl b i n) ->
  Forall (span_ok b' used') sp.
Proof.
  intros Hl Hu Hu' Hs Hd Hk. rewrite Forall_forall in *. intros p Hp. destruct (Hs p Hp) as (H0 & H1 & H2). specialize (Hd p Hp).
  unfold span_end in *. pose proof (frame_pos p.2). split_and!; [done|unfold span_end; lia|]. rewrite Hk by lia. done.
Qed.

(** ** The directory window *)

Lemma sl_insert_out {A} (l : list A) k x i n : 0 <= k -> 0 <= i -> 0 <= n -> k < i \/ i + n <= k ->
  sl (<[Z.to_nat k := x]> l) i n = sl l i n.
Proof.
  intros Hk Hi Hn Hd. unfold sl. rewrite !ztake_take, !zdrop_drop. destruct Hd.
  - by rewrite drop_insert_lt by lia.
  - rewrite drop_insert_ge by lia. by rewrite take_insert_ge by lia.
Qed.

Lemma sl_insert_one {A} (l : list A) k x : 0 <= k < zlen l -> sl (<[Z.to_nat k := x]> l) k 1 = [x].
Proof.
  intros Hk. unfold sl. rewrite ztake_take, zdrop_drop, (drop_S _ x); [done|]. apply list_lookup_insert_eq. unfold zlen in *. lia.
Qed.

Lemma window_snoc (dir : list Z) lo hi x : 0 <= lo <= hi -> hi < zlen dir ->
  sl (<[Z.to_nat hi := x]> dir) lo (hi + 1 - lo) = sl dir lo (hi - lo) ++ [x].
Proof.
  intros Hlo Hhi. replace (hi + 1 - lo) with (hi - lo + 1) by lia. rewrite sl_split by lia. replace (lo + (hi - lo)) with hi by lia.
  by rewrite sl_insert_out, sl_insert_one by lia.
Qed.

Lemma window_cons (dir : list Z) lo hi x : 0 < lo <= hi -> hi <= zlen dir ->
  sl (<[Z.to_nat (lo - 1) := x]> dir) (lo - 1) (hi - (lo - 1)) = x :: sl dir lo (hi - lo).
Proof.
  intros Hlo Hhi. replace (hi - (lo - 1)) with (1 + (hi - lo)) by lia. rewrite sl_split by lia. replace (lo - 1 + 1) with lo by lia.
  by rewrite sl_insert_one, sl_insert_out by lia.
Qed.

Lemma window_tail {A} (dir : list A) lo hi x xs : 0 <= lo < hi -> hi <= zlen dir -> sl dir lo (hi - lo) = x :: xs -> sl dir (lo + 1) (hi - (lo + 1)) = xs.
Proof.
  intros Hlo Hhi E. replace (hi - lo) with (1 + (hi - (lo + 1))) in E by lia. rewrite sl_split in E by lia.
  assert (zlen (sl dir lo 1) = 1) as Hz by (rewrite zlen_sl; lia). destruct (sl dir lo 1) as [|y [|z l]]; [done| |rewrite !zlen_cons in Hz; pose proof (zlen_nonneg l); lia].
  by injection E as _ ->.
Qed.

Lemma window_init {A} (dir : list A) lo hi x xs : 0 <= lo < hi -> hi <= zlen dir -> sl dir lo (hi - lo) = xs ++ [x] -> sl dir lo (hi - 1 - lo) = xs.
Proof.
  intros Hlo Hhi E. replace (hi - lo) with (hi - 1 - lo + 1) in E by lia. rewrite sl_split in E by lia.
  assert (zlen (sl dir (lo + (hi - 1 - lo)) 1) = 1) as Hz by (rewrite zlen_sl; lia).
  destruct (sl dir (lo + (hi - 1 - lo)) 1) as [|y [|z l]]; [done| |rewrite !zlen_cons in Hz; pose proof (zlen_nonneg l); lia].
  by apply app_inj_tail in E as [-> _].
Qed.

Lemma dir_set_ok dir i off : 0 <= i < zlen dir -> 0 <= off < 65536 -> dir_set dir i off = Ok (<[Z.to_nat i := off]> dir).
Proof.
  intros Hi Ho. unfold dir_set, dir_at. destruct (Z.ltb_spec i 0); [lia|].
  destruct (lookup_lt_is_Some_2 dir (Z.to_nat i)) as [x ->]; [unfold zlen in *; lia|]. by rewrite Z.mod_small by lia.
Qed.

(** ** Slab transitions *)

(** A frame at the high-water mark is apart from every live one. *)
Lemma spans_below b used sp : Forall (span_ok b used) sp -> Forall (fun p => span_end p <= used) sp.
Proof. intros H. eapply Forall_impl; [exact H|]. by intros p (_ & ? & _). Qed.

(** The slab, directory and offset of one more frame at the high-water mark. *)
Definition packed_one (c : chunk) (i lo hi : Z) (v : bytes) (c' : chunk) : Prop :=
  exists b dir, writeFrame (blob_of c) (ch_bytesUsed c) v = Ok (b, zlen (frame v)) /\ dir_set (ch_dir c) i (ch_bytesUsed c) = Ok dir
    /\ c' = mkChunk (Some b) dir lo hi (ch_bytesUsed c + zlen (frame v)) (ch_coldOff c).

Lemma rs_append c b sp v : resident c b sp -> okv v -> ch_hi c < chunkElemCap -> ch_bytesUsed c + zlen (frame v) <= zlen b ->
  exists c' b', packed_one c (ch_hi c) (ch_lo c) (ch_hi c + 1) v c' /\ resident c' b' (sp ++ [(ch_bytesUsed c, v)]) /\ budget c' = budget c.
Proof.
  intros H Hv Hhi Hroom. pose proof H as []. pose proof (frame_pos v). pose proof (zlen_nonneg (frames (map snd sp))). unfold chunkElemCap in *.
  destruct (writeFrame_ok b (ch_bytesUsed c) v) as (b' & Ew & Hl & Hs & Hk); [lia|done|].
  eexists _, b'. split; [exists b', (<[Z.to_nat (ch_hi c) := ch_bytesUsed c]> (ch_dir c)); split_and!; [by rewrite (rs_blob_of _ _ _ H)|apply dir_set_ok; lia|done]|].
  split; [|unfold budget, blob_of; cbn; rewrite rs_blob0; cbn; lia].
  split; cbn [ch_blob ch_dir ch_lo ch_hi ch_bytesUsed]; unfold chunkElemCap; rewrite ?map_app; cbn [map fst snd]; try lia.
  - done.
  - unfold zlen in *. by rewrite length_insert.
  - rewrite window_snoc by lia. by rewrite rs_dir0.
  - rewrite zlen_frames_snoc. lia.
  - apply Forall_app. split; [|apply Forall_singleton; split_and!; unfold span_end; cbn [fst snd]; [lia|lia|done]].
    eapply spans_keep with (off := ch_bytesUsed c) (len := zlen (frame v)); [done|done|lia|done| |done].
    eapply Forall_impl; [eapply spans_below; exact rs_spans0|]. intros p Hp. by left.
  - apply pairwise_snoc. split; [done|]. eapply Forall_impl; [eapply spans_below; exact rs_spans0|]. intros p Hp. by left.
  - apply Forall_app. split; [done|by apply Forall_singleton].
Qed.

Lemma rs_prepend c b sp v : resident c b sp -> okv v -> 0 < ch_lo c -> ch_bytesUsed c + zlen (frame v) <= zlen b ->
  exists c' b', packed_one c (ch_lo c - 1) (ch_lo c - 1) (ch_hi c) v c' /\ resident c' b' ((ch_bytesUsed c, v) :: sp) /\ budget c' = budget c.
Proof.
  intros H Hv Hlo Hroom. pose proof H as []. pose proof (frame_pos v). pose proof (zlen_nonneg (frames (map snd sp))). unfold chunkElemCap in *.
  destruct (writeFrame_ok b (ch_bytesUsed c) v) as (b' & Ew & Hl & Hs & Hk); [lia|done|].
  eexists _, b'. split; [exists b', (<[Z.to_nat (ch_lo c - 1) := ch_bytesUsed c]> (ch_dir c)); split_and!; [by rewrite (rs_blob_of _ _ _ H)|apply dir_set_ok; lia|done]|].
  split; [|unfold budget, blob_of; cbn; rewrite rs_blob0; cbn; lia].
  assert (Hbelow : Forall (fun p => span_end p <= ch_bytesUsed c) sp) by (by eapply spans_below).
  split; cbn [ch_blob ch_dir ch_lo ch_hi ch_bytesUsed map fst snd]; unfold chunkElemCap; try lia.
  - done.
  - unfold zlen in *. by rewrite length_insert.
  - rewrite window_cons by lia. by rewrite rs_dir0.
  - rewrite zlen_frames_cons. lia.
  - apply Forall_cons. split; [split_and!; unfold span_end; cbn [fst snd]; [lia|lia|done]|].
    eapply spans_keep with (off := ch_bytesUsed c) (len := zlen (frame v)); [done|done|lia|done| |done].
    eapply Forall_impl; [exact Hbelow|]. intros p Hp. by left.
  - split; [|done]. eapply Forall_impl; [exact Hbelow|]. intros p Hp. right. done.
  - by apply Forall_cons.
Qed.

(** The high-water mark falls back to the popped frame when nothing follows it. *)
Lemma reclaim_spans c b p sp : resident c b sp -> p ∈ sp -> forall rest, (forall q, q ∈ rest -> q ∈ sp) -> Forall (apart p) rest ->
  Forall (span_ok b (reclaimed c p.1 (zlen (frame p.2)))) rest.
Proof.
  intros H Hp rest Hsub Hap. pose proof (rs_spans _ _ _ H) as Hs. rewrite Forall_forall in Hs, Hap |- *. intros q Hq.
  destruct (Hs q (Hsub q Hq)) as (H0 & H1 & H2). unfold reclaimed. destruct (Z.eqb_spec (p.1 + zlen (frame p.2)) (ch_bytesUsed c)) as [E|]; [|by split_and!].
  split_and!; [done| |done]. pose proof (frame_pos q.2). destruct (Hap q Hq) as [Ha|Ha]; [|done]. unfold span_end in *. lia.
Qed.

Lemma reclaim_sum c b p sp rest : resident c b sp -> p ∈ sp -> zlen (frames (map snd sp)) = zlen (frame p.2) + zlen (frames rest) ->
  zlen (frames rest) <= reclaimed c p.1 (zlen (frame p.2)) <= zlen b.
Proof.
  intros H Hp E. pose proof (rs_sum _ _ _ H). pose proof (rs_used _ _ _ H). pose proof (frame_pos p.2).
  pose proof (rs_spans _ _ _ H) as Hs. rewrite Forall_forall in Hs. destruct (Hs p Hp) as (Hp0 & Hp1 & _). unfold span_end in *.
  unfold reclaimed. destruct (Z.eqb_spec (p.1 + zlen (frame p.2)) (ch_bytesUsed c)); lia.
Qed.

Lemma rs_popFront c b p sp : resident c b (p :: sp) ->
  resident (with_window c (ch_lo c + 1) (ch_hi c) (reclaimed c p.1 (zlen (frame p.2)))) b sp.
Proof.
  intros H. pose proof H as []. pose proof (rs_count _ _ _ H) as Hn. rewrite zlen_cons in Hn. pose proof (zlen_nonneg sp). unfold count in Hn.
  destruct (reclaim_sum c b p (p :: sp) (map snd sp) H) as [Hr1 Hr2]; [apply list_elem_of_here|by rewrite map_cons, zlen_frames_cons|].
  cbn [pairwise map fst snd] in *. destruct rs_apart0 as [Hap Hpw]. apply Forall_cons in rs_ok0 as [_ Hok]. unfold chunkElemCap in *.
  split; cbn [with_window ch_blob ch_dir ch_lo ch_hi ch_bytesUsed]; unfold chunkElemCap; try (done || lia).
  - eapply window_tail; [lia|lia|exact rs_dir0].
  - apply (reclaim_spans c b p (p :: sp) H); [apply list_elem_of_here| |done]. intros q Hq. by apply list_elem_of_further.
Qed.

Lemma rs_popBack c b sp p : resident c b (sp ++ [p]) ->
  resident (with_window c (ch_lo c) (ch_hi c - 1) (reclaimed c p.1 (zlen (frame p.2)))) b sp.
Proof.
  intros H. pose proof H as []. pose proof (rs_count _ _ _ H) as Hn. rewrite zlen_app in Hn. change (zlen [p]) with 1 in Hn. pose proof (zlen_nonneg sp). unfold count in Hn.
  assert (Hin : p ∈ sp ++ [p]) by (apply elem_of_app; right; apply list_elem_of_here).
  rewrite !map_app in *. cbn [map] in *.
  destruct (reclaim_sum c b p (sp ++ [p]) (map snd sp) H) as [Hr1 Hr2]; [done|rewrite map_app; cbn [map]; rewrite zlen_frames_snoc; lia|].
  apply pairwise_snoc in rs_apart0 as [Hpw Hap]. apply Forall_app in rs_ok0 as [Hok _]. unfold chunkElemCap in *.
  split; cbn [with_window ch_blob ch_dir ch_lo ch_hi ch_bytesUsed]; unfold chunkElemCap; try (done || lia).
  - eapply window_init; [lia|lia|exact rs_dir0].
  - apply (reclaim_spans c b p (sp ++ [p]) H); [done|intros q Hq; apply elem_of_app; by left|].
    eapply Forall_impl; [exact Hap|]. intros q. apply apart_sym.
Qed.

(** The window cut of LTRIM leaves the bytes in place. *)
Lemma rs_cut_front c b p sp : resident c b (p :: sp) -> resident (with_window c (ch_lo c + 1) (ch_hi c) (ch_bytesUsed c)) b sp.
Proof.
  intros H. pose proof H as []. pose proof (rs_count _ _ _ H) as Hn. rewrite zlen_cons in Hn. pose proof (zlen_nonneg sp). unfold count in Hn.
  cbn [pairwise map fst snd] in *. destruct rs_apart0 as [_ Hpw]. apply Forall_cons in rs_ok0 as [_ Hok]. apply Forall_cons in rs_spans0 as [_ Hsp].
  rewrite zlen_frames_cons in rs_sum0. pose proof (frame_pos p.2). unfold chunkElemCap in *.
  split; cbn [with_window ch_blob ch_dir ch_lo ch_hi ch_bytesUsed]; unfold chunkElemCap; try (done || lia).
  eapply window_tail; [lia|lia|exact rs_dir0].
Qed.

Lemma rs_cut_back c b sp p : resident c b (sp ++ [p]) -> resident (with_window c (ch_lo c) (ch_hi c - 1) (ch_bytesUsed c)) b sp.
Proof.
  intros H. pose proof H as []. pose proof (rs_count _ _ _ H) as Hn. rewrite zlen_app in Hn. change (zlen [p]) with 1 in Hn. pose proof (zlen_nonneg sp). unfold count in Hn.
  rewrite !map_app in *. cbn [map] in *. apply pairwise_snoc in rs_apart0 as [Hpw _]. apply Forall_app in rs_ok0 as [Hok _]. apply Forall_app in rs_spans0 as [Hsp _].
  rewrite zlen_frames_snoc in rs_sum0. pose proof (frame_pos p.2). unfold chunkElemCap in *.
  split; cbn [with_window ch_blob ch_dir ch_lo ch_hi ch_bytesUsed]; unfold chunkElemCap; try (done || lia).
  eapply window_init; [lia|lia|exact rs_dir0].
Qed.

(** ** Overwriting a frame of the same length *)

Lemma uvarintLen_eq v : fits v -> uvarintLen (zlen v) = zlen (PutUvarint (zlen v)).
Proof. intros Hv. pose proof (frameLen_eq v Hv) as E. unfold frameLen in E. rewrite zlen_frame in E. lia. Qed.

Lemma pairwise_insert sp : forall i p q, sp !! i = Some p -> q.1 = p.1 -> zlen (frame q.2) = zlen (frame p.2) ->
  pairwise sp -> pairwise (<[i := q]> sp).
Proof.
  assert (Hap : forall p q r, q.1 = p.1 -> zlen (frame q.2) = zlen (frame p.2) -> apart p r -> apart q r).
  { intros p q r E1 E2. unfold apart, span_end. by rewrite E1, E2. }
  induction sp as [|x sp IH]; intros i p q Hi E1 E2 Hp; [done|]. destruct Hp as [Hx Hp]. destruct i as [|i].
  - injection Hi as ->. cbn. split; [|done]. eapply Forall_impl; [exact Hx|]. intros r. by apply Hap.
  - change (<[S i := q]> (x :: sp)) with (x :: <[i := q]> sp). split; [|by eapply IH]. apply Forall_insert; [done|].
    apply apart_sym. apply (Hap p); [done|done|]. apply apart_sym. by apply (Forall_lookup_1 _ _ _ _ Hx Hi).
Qed.

Lemma zlen_frames_insert ys i x y : ys !! i = Some x -> zlen (frame y) = zlen (frame x) -> zlen (frames (<[i := y]> ys)) = zlen (frames ys).
Proof.
  intros Hx E. rewrite <- (take_drop_middle _ _ _ Hx) at 2. rewrite insert_take_drop by (by eapply lookup_lt_Some).
  rewrite !frames_app, !zlen_app, !zlen_frames_cons. lia.
Qed.

Definition overwrite (c : chunk) (at_ : Z) (v : bytes) : chunk :=
  mkChunk ((fun b => put b at_ v) <$> ch_blob c) (ch_dir c) (ch_lo c) (ch_hi c) (ch_bytesUsed c) (ch_coldOff c).

Lemma rs_overwrite c b sp i p v : resident c b sp -> sp !! i = Some p -> okv v -> zlen v = zlen p.2 ->
  let at_ := p.1 + uvarintLen (zlen v) in
  0 <= at_ <= zlen b /\ resident (overwrite c at_ v) (put b at_ v) (<[i := (p.1, v)]> sp) /\ budget (overwrite c at_ v) = budget c.
Proof.
  intros H Hi Hv Hz. cbv zeta. rewrite uvarintLen_eq by auto. destruct (rs_span _ _ _ _ _ H Hi) as [(H0 & H1 & H2) _]. pose proof H as [].
  set (w := zlen (PutUvarint (zlen v))). assert (Hfv : zlen (frame v) = w + zlen v) by apply zlen_frame.
  assert (Hfp : zlen (frame p.2) = w + zlen v) by (by rewrite zlen_frame, <- Hz). unfold span_end in H1.
  pose proof (zlen_nonneg v). assert (0 <= w) by apply zlen_nonneg. split; [lia|].
  split; [|unfold budget, blob_of, overwrite; cbn; rewrite rs_blob0; cbn; by rewrite zlen_put].
  assert (Hfst : map fst (<[i := (p.1, v)]> sp) = map fst sp).
  { change (map fst) with (fmap (M := list) (fst : span -> Z)). rewrite list_fmap_insert. apply list_insert_id. by rewrite list_lookup_fmap, Hi. }
  assert (Hsnd : map snd (<[i := (p.1, v)]> sp) = <[i := v]> (map snd sp)).
  { change (map snd) with (fmap (M := list) (snd : span -> bytes)). by rewrite list_fmap_insert. }
  split; cbn [overwrite ch_blob ch_dir ch_lo ch_hi ch_bytesUsed]; rewrite ?Hfst, ?Hsnd, ?zlen_put; try done.
  - by rewrite rs_blob0.
  - rewrite (zlen_frames_insert _ _ p.2); [done| |by rewrite Hfv]. change (map snd sp) with (snd <$> sp). by rewrite list_lookup_fmap, Hi.
  - apply Forall_lookup. intros j q Hj. destruct (decide (i = j)) as [<-|Hne].
    + rewrite list_lookup_insert_eq in Hj by (by eapply lookup_lt_Some). injection Hj as <-. split_and!; unfold span_end; cbn [fst snd]; [done|lia|].
      rewrite Hfv, sl_split by lia. unfold frame at 1. fold w. f_equal.
      * rewrite sl_put_before by lia. rewrite Hfp in H2. apply (f_equal (ztake w)) in H2. rewrite ztake_sl in H2 by lia.
        rewrite H2. unfold frame. rewrite <- Hz, ztake_app_le by (fold w; lia). apply ztake_all. fold w. lia.
      * apply sl_put_same; lia.
    + rewrite list_lookup_insert_ne in Hj by done. destruct (rs_span _ _ _ _ _ H Hj) as [(Q0 & Q1 & Q2) _]. split_and!; [done|done|].
      assert (Haq : apart p q).
      { clear -rs_apart0 Hi Hj Hne. revert i j Hi Hj Hne. induction sp as [|x sp IH]; intros [|i] [|j] Hi Hj Hne; try done; destruct rs_apart0 as [Hx Hp].
        - injection Hi as ->. by apply (Forall_lookup_1 _ _ _ _ Hx Hj).
        - injection Hj as ->. apply apart_sym. by apply (Forall_lookup_1 _ _ _ _ Hx Hi).
        - apply (IH Hp i j Hi Hj). congruence. }
      pose proof (frame_pos q.2). unfold apart, span_end in *. destruct Haq; [rewrite sl_put_after by lia|rewrite sl_put_before by lia]; done.
  - eapply pairwise_insert; [done|done|cbn [fst snd]; lia|done].
  - by apply Forall_insert.
Qed.

(** ** Repacking a slab *)

(** The frames of [vals] laid end to end from [off]. *)
Fixpoint laid (off : Z) (vals : list bytes) : list span :=
  match vals with [] => [] | v :: vals' => (off, v) :: laid (off + zlen (frame v)) vals' end.

Lemma laid_snd off vals : map snd (laid off vals) = vals.
Proof. revert off. induction vals as [|v vals IH]; intros off; cbn; [done|]. by rewrite IH. Qed.

Lemma laid_above off vals : Forall (fun p => off <= p.1) (laid off vals).
Proof.
  revert off. induction vals as [|v vals IH]; intros off; cbn; [done|]. apply Forall_cons. split; [done|].
  eapply Forall_impl; [apply IH|]. intros p Hp. pose proof (frame_pos v). cbn in *. lia.
Qed.

Lemma laid_pairwise off vals : pairwise (laid off vals).
Proof.
  revert off. induction vals as [|v vals IH]; intros off; cbn [laid pairwise]; [done|]. split; [|apply IH].
  eapply Forall_impl; [apply laid_above|]. intros p Hp. left. unfold span_end. cbn [fst snd]. lia.
Qed.

Lemma laid_ok b off vals : 0 <= off -> off + zlen (frames vals) <= zlen b -> sl b off (zlen (frames vals)) = frames vals ->
  Forall (span_ok b (off + zlen (frames vals))) (laid off vals).
Proof.
  revert off. induction vals as [|v vals IH]; intros off Ho Hl Hs; cbn [laid]; [done|]. pose proof (frame_pos v). pose proof (zlen_nonneg (frames vals)).
  rewrite zlen_frames_cons in *. rewrite sl_split in Hs by lia. rewrite frames_cons in Hs.
  apply app_inj_1 in Hs as [Hv Hs]; [|assert (zlen (sl b off (zlen (frame v))) = zlen (frame v)) by (rewrite zlen_sl; lia); unfold zlen in *; lia].
  apply Forall_cons. split; [split_and!; unfold span_end; cbn [fst snd]; [lia|lia|done]|]. rewrite Z.add_assoc. apply IH; [lia|lia|done].
Qed.

Lemma groupBytes_eq vals : Forall okv vals -> groupBytes vals = zlen (frames vals).
Proof.
  intros Hv. unfold groupBytes. assert (Hg : forall n, foldl (fun total v => total + frameLen (zlen v)) n vals = n + zlen (frames vals)); [|by rewrite Hg].
  induction Hv as [|v vals Hv _ IH]; intros n; cbn [foldl]; [change (zlen (frames [])) with 0; lia|].
  rewrite IH, zlen_frames_cons, frameLen_eq by auto. lia.
Qed.

Lemma load_loop_ok vals : Forall okv vals -> forall dir buf i off, 0 <= i -> i + zlen vals <= zlen dir -> 0 <= off ->
  off + zlen (frames vals) <= zlen buf -> off + zlen (frames vals) <= 65536 ->
  exists dir' buf', load_loop dir buf i off vals = Ok (dir', buf') /\ zlen dir' = zlen dir /\ zlen buf' = zlen buf
    /\ (forall j n, 0 <= j -> 0 <= n -> j + n <= i -> sl dir' j n = sl dir j n)
    /\ sl dir' i (zlen vals) = map fst (laid off vals)
    /\ (forall j n, 0 <= j -> 0 <= n -> j + n <= off -> sl buf' j n = sl buf j n)
    /\ sl buf' off (zlen (frames vals)) = frames vals.
Proof.
  induction 1 as [|v vals Hv Hvs IH]; intros dir buf i off Hi Hd Ho Hb Hc.
  { exists dir, buf. split_and!; try done; unfold sl; by apply ztake_nonpos. }
  rewrite zlen_frames_cons in *. rewrite zlen_cons in *. pose proof (frame_pos v). pose proof (zlen_nonneg vals). pose proof (zlen_nonneg (frames vals)).
  cbn [load_loop]. rewrite dir_set_ok by lia. destruct (writeFrame_ok buf off v) as (b1 & E1 & Hl1 & Hs1 & Hk1); [lia|lia|]. rewrite E1.
  destruct (IH (<[Z.to_nat i := off]> dir) b1 (i + 1) (off + zlen (frame v))) as (dir' & buf' & E & Hdl & Hbl & Hdk & Hds & Hbk & Hbs);
    [lia|unfold zlen in *; rewrite length_insert; lia|lia|lia|lia|].
  exists dir', buf'. split_and!.
  - done.
  - rewrite Hdl. unfold zlen. by rewrite length_insert.
  - lia.
  - intros j n Hj Hn Hjn. rewrite Hdk by lia. apply sl_insert_out; lia.
  - rewrite sl_split by lia. cbn [laid map fst]. rewrite Hds, Hdk by lia. by rewrite sl_insert_one by lia.
  - intros j n Hj Hn Hjn. rewrite Hbk by lia. apply Hk1; lia.
  - rewrite sl_split by lia. by rewrite Hbs, Hbk, Hs1 by lia.
Qed.

Lemma rs_load c b vals : ch_blob c = Some b -> zlen (ch_dir c) = chunkElemCap -> zlen b <= 65536 ->
  Forall okv vals -> zlen vals <= chunkElemCap -> zlen (frames vals) <= zlen b ->
  exists c' b', loadChunk c vals = Ok c' /\ resident c' b' (laid 0 vals) /\ budget c' = budget c.
Proof.
  intros Hb Hd Hcap Hv Hn Hf. unfold loadChunk, chunkElemCap in *. cbv zeta. rewrite groupBytes_eq by done. pose proof (zlen_nonneg (frames vals)). pose proof (zlen_nonneg vals).
  destruct (load_loop_ok vals Hv (ch_dir c) (zeros (zlen (frames vals))) 0 0) as (dir & buf & E & Hdl & Hbl & _ & Hds & _ & Hbs);
    [lia|lia|lia|rewrite zlen_zeros; lia|lia|]. rewrite E. rewrite zlen_zeros in Hbl by lia.
  assert (buf = frames vals) as -> by (rewrite <- Hbs; symmetry; apply sl_all; lia).
  eexists _, (put b 0 (frames vals)). split; [done|]. split; [|unfold budget, blob_of; cbn; rewrite Hb; cbn; by rewrite zlen_put].
  split; cbn [ch_blob ch_dir ch_lo ch_hi ch_bytesUsed]; unfold chunkElemCap; rewrite ?zlen_put, ?laid_snd; try (done || lia).
  - by rewrite Hb.
  - by rewrite Z.sub_0_r.
  - change (zlen (frames vals)) with (0 + zlen (frames vals)) at 1. apply laid_ok; [lia|rewrite zlen_put; lia|]. apply sl_put_same; lia.
  - apply laid_pairwise.
Qed.

(** ** Splitting an overflowing chunk *)

Definition group_ok (g : list bytes) : Prop := g <> [] /\ zlen g <= chunkElemCap /\ zlen (frames g) <= 65536.

Lemma split_loop_ok vals : Forall okv vals -> forall cur used, Forall okv cur -> used = zlen (frames cur) -> zlen cur <= chunkElemCap ->
  used <= chunkBlobCap \/ zlen cur <= 1 -> cur <> [] \/ vals <> [] ->
  concat (split_loop vals cur used) = cur ++ vals /\ Forall group_ok (split_loop vals cur used).
Proof.
  assert (Hone : forall g, Forall okv g -> g <> [] -> zlen g <= chunkElemCap -> zlen (frames g) <= chunkBlobCap \/ zlen g <= 1 -> group_ok g).
  { intros g Hg Hne Hl Hs. split_and!; [done|done|]. unfold chunkBlobCap in Hs. destruct Hs as [?|Hs]; [lia|].
    destruct g as [|v [|v2 g]]; [done| |rewrite !zlen_cons in Hs; pose proof (zlen_nonneg g); lia]. rewrite frames_one. by apply Forall_cons in Hg as [? _]. }
  unfold chunkElemCap, chunkBlobCap in *. induction 1 as [|v vals Hv Hvs IH]; intros cur used Hc -> Hl Hs Hne; cbn [split_loop].
  { rewrite app_nil_r. cbn [concat]. rewrite app_nil_r. split; [done|]. apply Forall_singleton. apply Hone; (done || tauto). }
  cbv zeta. rewrite frameLen_eq by auto. unfold chunkElemCap, chunkBlobCap. pose proof (zlen_nonneg cur).
  destruct ((0 <? zlen cur) && ((4096 <? zlen (frames cur) + zlen (frame v)) || (128 <=? zlen cur))) eqn:E.
  - apply andb_true_iff in E as [E0%Z.ltb_lt _]. destruct (IH [v] (zlen (frame v))) as [IH1 IH2];
      [by apply Forall_singleton|by rewrite frames_one|done|by right|by left|].
    cbn [concat]. rewrite IH1. split; [done|]. apply Forall_cons. split; [|done]. apply Hone; [done|intros ->; done|done|done].
  - destruct (IH (cur ++ [v]) (zlen (frames cur) + zlen (frame v))) as [IH1 IH2].
    + apply Forall_app. split; [done|by apply Forall_singleton].
    + by rewrite zlen_frames_snoc.
    + rewrite zlen_app. change (zlen [v]) with 1. apply andb_false_iff in E as [E0%Z.ltb_ge|[_ E2%Z.leb_gt]%orb_false_iff]; lia.
    + rewrite zlen_app. change (zlen [v]) with 1. apply andb_false_iff in E as [E0%Z.ltb_ge|[E1%Z.ltb_ge _]%orb_false_iff]; [right|left]; lia.
    + left. by destruct cur.
    + rewrite IH1, <- (assoc_L (++)). done.
Qed.

Lemma splitVals_ok vals : Forall okv vals -> vals <> [] ->
  exists g gs, splitVals vals = g :: gs /\ concat (g :: gs) = vals /\ Forall group_ok (g :: gs).
Proof.
  intros Hv Hne. unfold splitVals. destruct ((zlen vals <=? chunkElemCap) && (groupBytes vals <=? chunkBlobCap)) eqn:E.
  - apply andb_true_iff in E as [E1%Z.leb_le E2%Z.leb_le]. rewrite groupBytes_eq in E2 by done. exists vals, []. cbn [concat]. rewrite app_nil_r. split_and!; [done|done|].
    apply Forall_singleton. split_and!; [done|done|]. unfold chunkBlobCap in E2. lia.
  - destruct (split_loop_ok vals Hv [] 0) as [Hc Hg]; [done|done|done|by left|by right|]. cbn [app] in Hc.
    destruct (split_loop vals [] 0) as [|g gs]; [by subst vals|]. by exists g, gs.
Qed.

(** ** The deque's representation *)

(** A slab ready for use. *)
Definition slab (c : chunk) (b : bytes) : Prop := ch_blob c = Some b /\ zlen (ch_dir c) = chunkElemCap /\ zlen b <= 65536.

Definition free_ok (fr : list chunk) : Prop := Forall (fun c => exists b, slab c b /\ zlen b = chunkBlobCap) fr.

(** A demoted chunk: its frames are a chunk of the region. *)
Definition cold_rep (st : cold_region) (hc : bool) (c : chunk) (ys : list bytes) : Prop :=
  hc = true /\ ch_blob c = None /\ ch_lo c = 0 /\ ch_hi c = zlen ys /\ zlen ys <= chunkElemCap /\ zlen (frames ys) <= 65536
  /\ Forall okv ys /\ 0 <= ch_bytesUsed c /\ exists disc, chunk_at st (ch_coldOff c) kindList (zlen ys) disc (frames ys).

Definition res_rep (c : chunk) (ys : list bytes) : Prop := exists b sp, resident c b sp /\ ys = map snd sp.

Definition rep (st : cold_region) (hc : bool) (c : chunk) (ys : list bytes) : Prop := res_rep c ys \/ cold_rep st hc c ys.

Definition has_cold (nt : native) : bool := bool_decide (is_Some (nt_cold nt)).

(** The ring's chunks and what each stores. *)
Record core (st : cold_region) (nt : native) (chs : list chunk) (yss : list (list bytes)) : Prop := {
  co_ring : rview (nt_ring nt) chs;
  co_reps : Forall2 (rep st (has_cold nt)) chs yss;
  co_free : free_ok (nt_free nt)
}.

Definition bsum (xs : list bytes) : Z := foldr (fun v n => zlen v + n) 0 xs.

(** The deque holds [xs]. *)
Definition holds (st : cold_region) (nt : native) (xs : list bytes) : Prop :=
  exists chs yss, core st nt chs yss /\ xs = concat yss /\ Forall (fun ys => ys <> []) yss
    /\ nt_count nt = zlen xs /\ nt_bytes nt = bsum xs /\ dir_ok (nt_dir nt) (map zlen yss).

Lemma bsum_app xs ys : bsum (xs ++ ys) = bsum xs + bsum ys.
Proof. unfold bsum. induction xs; cbn; lia. Qed.

Lemma rep_count st hc c ys : rep st hc c ys -> count c = zlen ys.
Proof.
  intros [(b & sp & H & ->)|(_ & _ & Hlo & Hhi & _)]; [|unfold count; lia]. rewrite (rs_count _ _ _ H). unfold zlen. by rewrite length_map.
Qed.

Lemma rep_ok st hc c ys : rep st hc c ys -> Forall okv ys.
Proof. by intros [(b & sp & H & ->)|(_ & _ & _ & _ & _ & _ & H & _)]; [apply H|]. Qed.

Lemma core_counts st nt chs yss : core st nt chs yss -> map count chs = map zlen yss.
Proof. intros [_ H _]. induction H as [|c ys chs yss Hr _ IH]; cbn; [done|]. by rewrite IH, (rep_count _ _ _ _ Hr). Qed.

Lemma core_n st nt chs yss : core st nt chs yss -> cr_n (nt_ring nt) = zlen yss /\ zlen chs = zlen yss.
Proof.
  intros [(Hn & _) H _]. assert (zlen chs = zlen yss) by (unfold zlen; by rewrite (Forall2_length _ _ _ H)). lia.
Qed.

Lemma core_ok st nt chs yss : core st nt chs yss -> Forall okv (concat yss).
Proof.
  intros [_ H _]. induction H as [|c ys chs yss Hr _ IH]; cbn; [done|]. apply Forall_app. split; [by eapply rep_ok|done].
Qed.

(** The chunk at ring position [i]. *)
Lemma core_at st nt chs yss i ys : core st nt chs yss -> 0 <= i -> yss !! Z.to_nat i = Some ys ->
  exists c, chs !! Z.to_nat i = Some c /\ ring_at (nt_ring nt) i = Ok c /\ rep st (has_cold nt) c ys.
Proof.
  intros [Hr H _] Hi Hy. destruct (Forall2_lookup_r _ _ _ _ _ H Hy) as (c & Hc & Hrep). exists c. split_and!; [done| |done]. by eapply ring_at_view.
Qed.

Lemma core_set st nt chs yss i c ys : core st nt chs yss -> 0 <= i < zlen yss -> rep st (has_cold nt) c ys ->
  exists r, ring_set (nt_ring nt) i c = Ok r /\ core st (with_ring nt r) (<[Z.to_nat i := c]> chs) (<[Z.to_nat i := ys]> yss) /\ cr_n r = cr_n (nt_ring nt).
Proof.
  intros H Hi Hc. pose proof (core_n _ _ _ _ H) as [_ Hn]. destruct H as [Hr Hf Hfr].
  destruct (ring_set_view _ chs i c Hr ltac:(lia)) as (r & E & Hv & Hn'). exists r. split; [done|]. split; [|done]. split; [done| |done]. by apply Forall2_insert.
Qed.

Lemma core_same st nt nt' chs yss : core st nt chs yss -> nt_ring nt' = nt_ring nt -> nt_free nt' = nt_free nt -> nt_cold nt' = nt_cold nt -> core st nt' chs yss.
Proof. intros [H1 H2 H3] E1 E2 E3. split; [by rewrite E1|unfold has_cold; by rewrite E3|by rewrite E2]. Qed.

(** ** The freelist *)

Lemma getChunk_ok nt f : free_ok (nt_free nt) -> 0 < f <= 65536 ->
  let '(nt', c) := getChunk nt f in
  (exists fr, nt' = with_free nt fr /\ free_ok fr) /\ exists b, slab c b /\ f <= zlen b /\ ch_bytesUsed c = 0.
Proof.
  intros Hf Hr. unfold getChunk, chunkBlobCap, chunkElemCap in *.
  destruct (if f <=? 4096 then last (nt_free nt) else None) as [c|] eqn:E.
  - destruct (Z.leb_spec f 4096) as [Hle|]; [|done]. apply last_Some in E as [fr E]. rewrite E.
    assert (take (length (fr ++ [c]) - 1) (fr ++ [c]) = fr) as ->.
    { rewrite length_app. cbn [length]. replace (length fr + 1 - 1)%nat with (length fr) by lia. apply take_app_length. }
    unfold free_ok in Hf. rewrite E in Hf. apply Forall_app in Hf as [Hf Hc]. apply Forall_singleton in Hc as (b & Hs & Hb). unfold chunkBlobCap in Hb.
    split; [by exists fr|]. exists b. split_and!; [done|lia|done].
  - split; [exists (nt_free nt); split; [by destruct nt|done]|]. set (cap := if 4096 <? f then f else 4096).
    assert (Hcap : f <= cap <= 65536) by (unfold cap; destruct (Z.ltb_spec 4096 f); lia).
    exists (zeros cap). split_and!; [|rewrite zlen_zeros; lia|done]. unfold slab, chunkElemCap. split_and!; [done|done|rewrite zlen_zeros; lia].
Qed.

Lemma recycle_ok nt c b sp : free_ok (nt_free nt) -> resident c b sp -> exists fr, recycle nt c = with_free nt fr /\ free_ok fr.
Proof.
  intros Hf Hc. unfold recycle, budget. rewrite (rs_blob_of _ _ _ Hc). destruct (negb (zlen b =? chunkBlobCap) || (freeCap <=? zlen (nt_free nt))) eqn:E.
  - exists (nt_free nt). split; [by destruct nt|done].
  - apply orb_false_iff in E as [E%negb_false_iff%Z.eqb_eq _]. eexists. split; [done|]. apply Forall_app. split; [done|]. apply Forall_singleton.
    exists b. split; [|done]. split_and!; apply Hc.
Qed.

Lemma slab_empty c b lo : slab c b -> ch_bytesUsed c = 0 -> 0 <= lo <= chunkElemCap -> resident (with_window c lo lo (ch_bytesUsed c)) b [].
Proof.
  intros (Hb & Hd & Hc) Hu Hlo. unfold chunkElemCap in *. pose proof (zlen_nonneg b).
  split; cbn [with_window ch_blob ch_dir ch_lo ch_hi ch_bytesUsed map fst snd]; unfold chunkElemCap; try (done || lia).
  - rewrite Z.sub_diag. unfold sl. by apply ztake_nonpos.
  - change (zlen (frames [])) with 0. lia.
Qed.
