(* ===== verification/NativeOps.v ===== *)
(** The operations of the native deque act on the list it holds (engine/f3/list/native.go and
    cold.go): ends, reads and interior writes. *)

From S2P Require Import Prelude Format Frames Device Decimal Resp Ordered TierDirectory InlineList ChunkRing Fenwick ValueLog NativeList NativeRefines.
#[local] Open Scope Z_scope.

#[local] Abbreviation P A := (res Empty_set A).

(** ** Bringing a chunk resident *)

Lemma search_loop_le f fuel : forall i j, (i <= j)%nat -> (search_loop fuel f i j <= j)%nat.
Proof.
  induction fuel as [|fuel IH]; intros i j Hij; cbn [search_loop]; [done|]. destruct (decide (i < j)%nat) as [Hlt|]; [|done]. cbv zeta.
  assert (i <= Nat.div2 (i + j) < j)%nat as [Hh1 Hh2].
  { rewrite Nat.div2_div. split; [apply Nat.div_le_lower_bound|apply Nat.Div0.div_lt_upper_bound]; lia. }
  destruct (f _); [etransitivity; [by apply IH|lia]|apply IH; lia].
Qed.

Lemma drop_desc_total lc disc off : exists lc', drop_desc lc disc off = Ok lc' /\ lc_seq lc' = lc_seq lc.
Proof.
  unfold drop_desc. destruct (Floor (lc_dir lc) disc) as [idx|] eqn:E; [|by exists lc].
  assert (Hi : (idx < length (dir_descs (lc_dir lc)))%nat).
  { unfold Floor, sort_Search in E. set (f := fun i : nat => _) in E. pose proof (search_loop_le f (length (dir_descs (lc_dir lc))) 0 (length (dir_descs (lc_dir lc))) ltac:(lia)) as Hs.
    destruct (search_loop _ f 0 _) as [|i] eqn:Es; [done|]. injection E as <-. lia. }
  destruct (lookup_lt_is_Some_2 _ _ Hi) as [d Hd]. unfold Directory_At, Directory_Remove. rewrite Hd. cbn. destruct (de_off d =? off); by eexists.
Qed.

Lemma payload_frames_packed ys : forall p off rest, packed p off (ys ++ rest) -> payload_frames p off (length ys) = Ok ys.
Proof.
  induction ys as [|y ys IH]; intros p off rest Hp; [done|]. cbn [length payload_frames app] in *. rewrite (frame_at_packed _ _ _ _ Hp).
  destruct (packed_cons _ _ _ _ Hp) as (_ & _ & _ & _ & Hp'). by rewrite (IH _ _ _ Hp').
Qed.

Lemma frames_packed ys : Forall okv ys -> packed (frames ys) 0 ys.
Proof.
  intros Hy. pose proof (zlen_nonneg (frames ys)). split_and!; [lia|lia|by apply zdrop_nonpos|]. eapply Forall_impl; [exact Hy|]. apply okv_fits.
Qed.

Lemma payload_frames_all ys : Forall okv ys -> payload_frames (frames ys) 0 (Z.to_nat (zlen ys)) = Ok ys.
Proof. intros Hy. unfold zlen. rewrite Nat2Z.id. apply (payload_frames_packed ys _ _ []). rewrite app_nil_r. by apply frames_packed. Qed.

(** What a step that only moves chunks between tiers leaves as it was. *)
Definition same_books (nt nt' : native) : Prop :=
  nt_count nt' = nt_count nt /\ nt_bytes nt' = nt_bytes nt /\ nt_dir nt' = nt_dir nt /\ has_cold nt' = has_cold nt
  /\ cr_n (nt_ring nt') = cr_n (nt_ring nt).

Lemma same_books_refl nt : same_books nt nt.
Proof. by split_and!. Qed.

Lemma core_resident st nt chs yss i c ys : core st nt chs yss -> chs !! Z.to_nat i = Some c -> yss !! Z.to_nat i = Some ys -> cold c = false -> res_rep c ys.
Proof.
  intros [_ H _] Hc Hy Hcold. destruct (Forall2_lookup_lr _ _ _ _ _ _ H Hc Hy) as [?|(_ & Hb & _)]; [done|]. unfold cold in Hcold. by rewrite Hb in Hcold.
Qed.

Lemma promote_ok st nt chs yss i c ys : core st nt chs yss -> 0 <= i -> chs !! Z.to_nat i = Some c -> yss !! Z.to_nat i = Some ys -> cold c = true ->
  exists nt' c', promote st nt i = Ok nt' /\ core st nt' (<[Z.to_nat i := c']> chs) yss /\ res_rep c' ys /\ same_books nt nt'.
Proof.
  intros H Hi Hc Hy Hcold. pose proof H as [Hr Hf Hfr]. unfold promote. rewrite (ring_at_view _ _ _ _ Hr Hi Hc), Hcold. cbn [negb].
  destruct (Forall2_lookup_lr _ _ _ _ _ _ Hf Hc Hy) as [(b & sp & Hres & _)|(Hhc & Hb & Hlo & Hhi & Hn & Hfl & Hok & Hu & disc & Hat)].
  { by rewrite (rs_cold _ _ _ Hres) in Hcold. }
  unfold has_cold in Hhc. apply bool_decide_eq_true in Hhc as [lc Hlc]. rewrite Hlc. cbv zeta.
  rewrite (chunk_at_read _ _ _ _ _ _ Hat), payload_frames_all by done. set (cap := if chunkBlobCap <? zlen (frames ys) then _ else _).
  pose proof (zlen_nonneg (frames ys)). unfold chunkBlobCap in cap. assert (Hcap : zlen (frames ys) <= cap <= 65536) by (unfold cap; destruct (Z.ltb_spec 4096 (zlen (frames ys))); lia).
  destruct (rs_load (mkChunk (Some (zeros cap)) (replicate (Z.to_nat chunkElemCap) 0) (ch_lo c) (ch_hi c) (ch_bytesUsed c) 0) (zeros cap) ys) as (c' & b' & El & Hres & _);
    [done|done|rewrite zlen_zeros; lia|done|done|rewrite zlen_zeros; lia|]. rewrite El.
  assert (Hil : 0 <= i < zlen yss) by (split; [done|]; apply lookup_lt_Some in Hy; unfold zlen; lia).
  assert (Hrep : res_rep c' ys) by (exists b', (laid 0 ys); by rewrite laid_snd).
  destruct (core_set st nt chs yss i c' ys H Hil (or_introl Hrep)) as (r & Er & Hcore & Hnr). rewrite Er.
  destruct (drop_desc_total lc disc (ch_coldOff c)) as (lc' & Ed & _). rewrite Ed. eexists _, c'. split; [done|].
  rewrite (list_insert_id yss) in Hcore by done. split; [|split; [done|]].
  - destruct Hcore as [C1 C2 C3]. split; [done| |done]. eapply Forall2_impl; [exact C2|]. intros ch y [Hres'|Hcold']; [by left|]. right.
    destruct Hcold' as (_ & Hrest). by split.
  - split_and!; try done. unfold has_cold. rewrite Hlc. by rewrite !bool_decide_true by eauto.
Qed.

Lemma promoteIfCold_ok st nt chs yss i ys : core st nt chs yss -> 0 <= i -> yss !! Z.to_nat i = Some ys ->
  exists nt' c', promoteIfCold st nt i = Ok nt' /\ core st nt' (<[Z.to_nat i := c']> chs) yss /\ res_rep c' ys /\ same_books nt nt'.
Proof.
  intros H Hi Hy. destruct (core_at _ _ _ _ _ _ H Hi Hy) as (c & Hc & Ea & _). unfold promoteIfCold. rewrite Ea.
  destruct (cold c) eqn:E; [by eapply promote_ok|]. exists nt, c. split_and!; try apply same_books_refl; [done| |by eapply core_resident].
  by rewrite list_insert_id.
Qed.

(** ** Pushes *)

Lemma dir_ok_stale d ns : cd_stale d = true -> dir_ok d ns.
Proof. intros Hs Hf. by rewrite Hs in Hf. Qed.

(** One more frame in the chunk at the tail of the ring. *)
Lemma append_frame_ok st nt chs yss c b sp v : core st nt (chs ++ [c]) (yss ++ [map snd sp]) -> resident c b sp -> okv v ->
  ch_hi c < chunkElemCap -> ch_bytesUsed c + zlen (frame v) <= zlen b ->
  exists nt' c', append_frame nt c v = Ok nt' /\ core st nt' (chs ++ [c']) (yss ++ [map snd sp ++ [v]])
    /\ nt_count nt' = nt_count nt + 1 /\ nt_bytes nt' = nt_bytes nt + zlen v /\ cd_stale (nt_dir nt') = true.
Proof.
  intros H Hres Hv Hhi Hroom. destruct (rs_append c b sp v Hres Hv Hhi Hroom) as (c' & b' & (b1 & dir & Ew & Ed & ->) & Hres' & _).
  unfold append_frame. cbv zeta. rewrite Ew, Ed. pose proof (core_n _ _ _ _ H) as [Hn Hcn]. rewrite !zlen_app in *. change (zlen [map snd sp]) with 1 in *. change (zlen [c]) with 1 in *.
  pose proof (zlen_nonneg yss). set (c' := mkChunk _ _ _ _ _ _) in *.
  destruct (core_set st nt _ _ (zlen yss) c' (map snd sp ++ [v]) H) as (r & Er & Hcore & Hnr).
  - rewrite zlen_app. change (zlen [map snd sp]) with 1. lia.
  - left. exists b', (sp ++ [(ch_bytesUsed c, v)]). split; [done|]. by rewrite map_app.
  - replace (cr_n (nt_ring nt) - 1) with (zlen yss) by lia. rewrite Er. exists (stale (tally (with_ring nt r) 1 (zlen v))), c'. split; [done|]. split; [|done].
    replace (Z.to_nat (zlen yss)) with (length chs) in Hcore at 1 by (unfold zlen in *; lia).
    replace (Z.to_nat (zlen yss)) with (length yss) in Hcore by (unfold zlen in *; lia).
    rewrite !insert_app_r_alt, !Nat.sub_diag in Hcore by lia. by destruct Hcore.
Qed.

Lemma prepend_frame_ok st nt chs yss c b sp v : core st nt (c :: chs) (map snd sp :: yss) -> resident c b sp -> okv v ->
  0 < ch_lo c -> ch_bytesUsed c + zlen (frame v) <= zlen b ->
  exists nt' c', prepend_frame nt c v = Ok nt' /\ core st nt' (c' :: chs) ((v :: map snd sp) :: yss)
    /\ nt_count nt' = nt_count nt + 1 /\ nt_bytes nt' = nt_bytes nt + zlen v /\ cd_stale (nt_dir nt') = true.
Proof.
  intros H Hres Hv Hlo Hroom. destruct (rs_prepend c b sp v Hres Hv Hlo Hroom) as (c' & b' & (b1 & dir & Ew & Ed & ->) & Hres' & _).
  unfold prepend_frame. cbv zeta. rewrite Ew, Ed. set (c' := mkChunk _ _ _ _ _ _) in *.
  destruct (core_set st nt _ _ 0 c' (v :: map snd sp) H) as (r & Er & Hcore & Hnr).
  - rewrite zlen_cons. pose proof (zlen_nonneg yss). lia.
  - left. by exists b', ((ch_bytesUsed c, v) :: sp).
  - rewrite Er. exists (stale (tally (with_ring nt r) 1 (zlen v))), c'. split; [done|]. split; [|done]. by destruct Hcore.
Qed.

(** A list of chunks by its last one. *)
Lemma snoc_cases {A} (l : list A) : l = [] \/ exists l' x, l = l' ++ [x].
Proof. destruct l as [|x l _] using rev_ind; [by left|right]. by exists l, x. Qed.

Lemma core_snoc_inv st nt chs yss ys : core st nt chs (yss ++ [ys]) ->
  exists chs' c, chs = chs' ++ [c] /\ ring_tail (nt_ring nt) = Ok c /\ rep st (has_cold nt) c ys.
Proof.
  intros [Hr Hf _]. apply Forall2_app_inv_r in Hf as (chs' & l & Hf1 & Hf2 & ->). apply Forall2_cons_inv_r in Hf2 as (c & l' & Hc & Hl & ->).
  apply Forall2_nil_inv_r in Hl as ->. exists chs', c. split_and!; [done| |done]. by eapply ring_tail_view.
Qed.

Lemma core_cons_inv st nt chs ys yss : core st nt chs (ys :: yss) ->
  exists chs' c, chs = c :: chs' /\ ring_front (nt_ring nt) = Ok c /\ rep st (has_cold nt) c ys.
Proof.
  intros [Hr Hf _]. apply Forall2_cons_inv_r in Hf as (c & chs' & Hc & _ & ->). exists chs', c. split_and!; [done| |done]. by eapply ring_front_view.
Qed.

(** A chunk with room is a resident one. *)
Lemma room_resident st hc c ys f : rep st hc c ys -> 0 < f -> ch_bytesUsed c + f <= budget c -> res_rep c ys.
Proof.
  intros [?|(_ & Hb & _ & _ & _ & _ & _ & Hu & _)] Hf Hroom; [done|]. unfold budget, blob_of in Hroom. rewrite Hb in Hroom. cbn in Hroom. unfold zlen in Hroom. cbn in Hroom. lia.
Qed.

Lemma core_free st nt chs yss fr : core st nt chs yss -> free_ok fr -> core st (with_free nt fr) chs yss.
Proof. intros [H1 H2 _] Hf. by split. Qed.

Lemma core_pushTail st nt chs yss c ys : core st nt chs yss -> res_rep c ys ->
  exists r, pushTail (nt_ring nt) c = Ok r /\ core st (with_ring nt r) (chs ++ [c]) (yss ++ [ys]).
Proof.
  intros [Hr Hf Hfr] Hc. destruct (pushTail_view _ _ c Hr) as (r & E & Hv). exists r. split; [done|]. split; [done| |done].
  apply Forall2_app; [done|]. apply Forall2_cons. split; [by left|done].
Qed.

Lemma core_pushHead st nt chs yss c ys : core st nt chs yss -> res_rep c ys ->
  exists r, pushHead (nt_ring nt) c = Ok r /\ core st (with_ring nt r) (c :: chs) (ys :: yss).
Proof.
  intros [Hr Hf Hfr] Hc. destruct (pushHead_view _ _ c Hr) as (r & E & Hv). exists r. split; [done|]. split; [done| |done].
  apply Forall2_cons. split; [by left|done].
Qed.

(** A fresh slab of the ring's end, emptied. *)
Lemma fresh_slab st nt chs yss v lo : core st nt chs yss -> okv v -> 0 <= lo <= chunkElemCap ->
  let '(nt', c) := getChunk nt (frameLen (zlen v)) in
  exists b, core st nt' chs yss /\ (exists fr, nt' = with_free nt fr) /\ resident (with_window c lo lo (ch_bytesUsed c)) b []
    /\ ch_bytesUsed c + zlen (frame v) <= zlen b.
Proof.
  intros H Hv Hlo. rewrite frameLen_eq by auto. pose proof (frame_pos v). unfold okv in Hv.
  pose proof (getChunk_ok nt (zlen (frame v)) (co_free _ _ _ _ H) ltac:(lia)) as Hg. destruct (getChunk nt (zlen (frame v))) as [nt' c].
  destruct Hg as ((fr & -> & Hfr) & b & Hs & Hf & Hu). exists b. split_and!; [by apply core_free|by exists fr|by apply slab_empty|lia].
Qed.

Lemma okv_frame v : okv v -> frameLen (zlen v) = zlen (frame v) /\ 0 < zlen (frame v).
Proof. intros Hv. split; [by apply frameLen_eq; auto|]. pose proof (frame_pos v). lia. Qed.

Lemma nonempty_snoc (yss : list (list bytes)) ys v : Forall (fun ys => ys <> []) yss -> Forall (fun ys => ys <> []) (yss ++ [ys ++ [v]]).
Proof. intros H. apply Forall_app. split; [done|]. apply Forall_singleton. by destruct ys. Qed.

Lemma nt_pushBack_ok st nt xs v : holds st nt xs -> okv v -> exists nt', nt_pushBack nt v = Ok nt' /\ holds st nt' (xs ++ [v]).
Proof.
  intros (chs & yss & H & -> & Hne & Hcnt & Hby & Hdir) Hv. destruct (okv_frame v Hv) as [Ef Hfp]. unfold nt_pushBack. rewrite Ef. cbv zeta.
  (* what either branch leaves *)
  assert (Hdone : forall nt' chs' yss', core st nt' chs' yss' -> concat yss' = concat yss ++ [v] -> Forall (fun ys => ys <> []) yss' ->
    nt_count nt' = nt_count nt + 1 -> nt_bytes nt' = nt_bytes nt + zlen v -> cd_stale (nt_dir nt') = true -> holds st nt' (concat yss ++ [v])).
  { intros nt' chs' yss' Hc Ec Hn' Hc' Hb' Hs. exists chs', yss'. split_and!; [done|done|done| | |by apply dir_ok_stale].
    - rewrite zlen_app. change (zlen [v]) with 1. lia.
    - rewrite bsum_app. cbn [bsum foldr]. lia. }
  assert (Hfresh : exists nt', (let '(nt0, c) := getChunk nt (zlen (frame v)) in
      let* r := pushTail (nt_ring nt0) (with_window c 0 0 (ch_bytesUsed c)) in
      append_frame (with_ring nt0 r) (with_window c 0 0 (ch_bytesUsed c)) v) = Ok nt' /\ holds st nt' (concat yss ++ [v])).
  { pose proof (fresh_slab st nt chs yss v 0 H Hv ltac:(done)) as Hg. rewrite Ef in Hg. destruct (getChunk nt (zlen (frame v))) as [nt0 c].
    destruct Hg as (b & H0 & (fr & ->) & Hres & Hroom). destruct (core_pushTail st _ chs yss (with_window c 0 0 (ch_bytesUsed c)) [] H0) as (r & Er & H1); [by exists b, []|]. rewrite Er.
    destruct (append_frame_ok st _ chs yss _ b [] v H1 Hres Hv) as (nt' & c' & E & H2 & Hc' & Hb' & Hs); [done|done|].
    exists nt'. split; [done|]. eapply Hdone; [exact H2| |by apply (nonempty_snoc yss [])|done|done|done]. by rewrite concat_app. }
  pose proof (core_n _ _ _ _ H) as [Hn _]. destruct (snoc_cases yss) as [->|(yss0 & ys & Ey)].
  { rewrite Hn. exact Hfresh. }
  rewrite Ey in H. destruct (core_snoc_inv _ _ _ _ _ H) as (chs0 & c & -> & Et & Hrep). rewrite Hn, Et.
  destruct (Z.ltb_spec 0 (zlen yss)) as [_|Hbad]; [|rewrite Ey, zlen_app in Hbad; change (zlen [ys]) with 1 in Hbad; pose proof (zlen_nonneg yss0); lia].
  destruct (canAppendTail c (zlen (frame v))) eqn:Ec; [|exact Hfresh]. apply andb_true_iff in Ec as [Hhi%Z.ltb_lt Hroom%Z.leb_le].
  destruct (room_resident _ _ _ _ _ Hrep Hfp Hroom) as (b & sp & Hres & ->). unfold budget in Hroom. rewrite (rs_blob_of _ _ _ Hres) in Hroom.
  destruct (append_frame_ok st nt chs0 yss0 c b sp v H Hres Hv Hhi Hroom) as (nt' & c' & E & H2 & Hc' & Hb' & Hs). exists nt'. split; [done|].
  eapply Hdone; [exact H2| |apply nonempty_snoc; rewrite Ey in Hne; by apply Forall_app in Hne as [? _]|done|done|done].
  rewrite Ey, !concat_app. cbn [concat]. by rewrite !app_nil_r, (assoc_L (++)).
Qed.

Lemma nt_pushFront_ok st nt xs v : holds st nt xs -> okv v -> exists nt', nt_pushFront nt v = Ok nt' /\ holds st nt' (v :: xs).
Proof.
  intros (chs & yss & H & -> & Hne & Hcnt & Hby & Hdir) Hv. destruct (okv_frame v Hv) as [Ef Hfp]. unfold nt_pushFront. rewrite Ef. cbv zeta.
  assert (Hdone : forall nt' chs' yss', core st nt' chs' yss' -> concat yss' = v :: concat yss -> Forall (fun ys => ys <> []) yss' ->
    nt_count nt' = nt_count nt + 1 -> nt_bytes nt' = nt_bytes nt + zlen v -> cd_stale (nt_dir nt') = true -> holds st nt' (v :: concat yss)).
  { intros nt' chs' yss' Hc Ec Hn' Hc' Hb' Hs. exists chs', yss'. split_and!; [done|done|done| | |by apply dir_ok_stale].
    - rewrite zlen_cons. lia.
    - cbn [bsum foldr]. fold (bsum (concat yss)). lia. }
  assert (Hfresh : exists nt', (let '(nt0, c) := getChunk nt (zlen (frame v)) in
      let* r := pushHead (nt_ring nt0) (with_window c chunkElemCap chunkElemCap (ch_bytesUsed c)) in
      prepend_frame (with_ring nt0 r) (with_window c chunkElemCap chunkElemCap (ch_bytesUsed c)) v) = Ok nt' /\ holds st nt' (v :: concat yss)).
  { pose proof (fresh_slab st nt chs yss v chunkElemCap H Hv ltac:(done)) as Hg. rewrite Ef in Hg. destruct (getChunk nt (zlen (frame v))) as [nt0 c].
    destruct Hg as (b & H0 & (fr & ->) & Hres & Hroom). destruct (core_pushHead st _ chs yss (with_window c chunkElemCap chunkElemCap (ch_bytesUsed c)) [] H0) as (r & Er & H1); [by exists b, []|]. rewrite Er.
    destruct (prepend_frame_ok st _ chs yss _ b [] v H1 Hres Hv) as (nt' & c' & E & H2 & Hc' & Hb' & Hs); [done|done|].
    exists nt'. split; [done|]. eapply Hdone; [exact H2|done|by apply Forall_cons|done|done|done]. }
  pose proof (core_n _ _ _ _ H) as [Hn _]. destruct yss as [|ys yss].
  { rewrite Hn. exact Hfresh. }
  destruct (core_cons_inv _ _ _ _ _ H) as (chs0 & c & -> & Et & Hrep). rewrite Hn, Et.
  destruct (Z.ltb_spec 0 (zlen (ys :: yss))) as [_|Hbad]; [|rewrite zlen_cons in Hbad; pose proof (zlen_nonneg yss); lia].
  destruct (canPrependHead c (zlen (frame v))) eqn:Ec; [|exact Hfresh]. apply andb_true_iff in Ec as [Hlo%Z.ltb_lt Hroom%Z.leb_le].
  destruct (room_resident _ _ _ _ _ Hrep Hfp Hroom) as (b & sp & Hres & ->). unfold budget in Hroom. rewrite (rs_blob_of _ _ _ Hres) in Hroom.
  destruct (prepend_frame_ok st nt chs0 yss c b sp v H Hres Hv Hlo Hroom) as (nt' & c' & E & H2 & Hc' & Hb' & Hs). exists nt'. split; [done|].
  apply Forall_cons in Hne as [_ Hne]. eapply Hdone; [exact H2|done|by apply Forall_cons|done|done|done].
Qed.

(** ** Pops *)

Lemma core_popHead st nt c chs ys yss : core st nt (c :: chs) (ys :: yss) ->
  exists r, popHead (nt_ring nt) = Ok r /\ core st (with_ring nt r) chs yss.
Proof.
  intros [Hr Hf Hfr]. destruct (popHead_view _ _ _ Hr) as (r & E & Hv). exists r. split; [done|]. apply Forall2_cons in Hf as [_ Hf]. by split.
Qed.

Lemma core_popTail st nt chs c yss ys : core st nt (chs ++ [c]) (yss ++ [ys]) ->
  exists r, popTail (nt_ring nt) = Ok r /\ core st (with_ring nt r) chs yss.
Proof.
  intros [Hr Hf Hfr]. destruct (popTail_view _ _ _ Hr) as (r & E & Hv). exists r. split; [done|].
  assert (Hl : length chs = length yss) by (apply Forall2_length in Hf; rewrite !length_app in Hf; cbn in Hf; lia).
  apply Forall2_app_inv in Hf as [Hf _]; [|done]. by split.
Qed.

Lemma core_recycle st nt chs yss c b sp : core st nt chs yss -> resident c b sp ->
  exists fr, recycle nt c = with_free nt fr /\ core st (with_free nt fr) chs yss.
Proof.
  intros H Hc. destruct (recycle_ok nt c b sp (co_free _ _ _ _ H) Hc) as (fr & E & Hfr). exists fr. split; [done|]. by apply core_free.
Qed.

Lemma count_zero (c : chunk) b sp : resident c b sp -> (count c =? 0) = bool_decide (sp = []).
Proof.
  intros H. rewrite (rs_count _ _ _ H). destruct sp as [|p sp]; [done|]. rewrite bool_decide_false by done. rewrite zlen_cons. pose proof (zlen_nonneg sp).
  apply Z.eqb_neq. lia.
Qed.

Lemma nt_popFront_ok st nt x xs : holds st nt (x :: xs) -> exists nt', nt_popFront st nt = Ok (nt', x) /\ holds st nt' xs.
Proof.
  intros (chs & yss & H & Ex & Hne & Hcnt & Hby & Hdir). destruct yss as [|[|y ys] yss]; [done|by apply Forall_cons in Hne as [? _]|].
  cbn [concat app] in Ex. injection Ex as <- ->. apply Forall_cons in Hne as [_ Hne]. unfold nt_popFront.
  destruct (promoteIfCold_ok st nt chs _ 0 (x :: ys) H (Z.le_refl 0) eq_refl) as (nt1 & c & E & H1 & (b & sp & Hres & Esp) & Hc1 & Hb1 & Hd1 & Hhc & Hn1). rewrite E.
  destruct (core_cons_inv _ _ _ _ _ H) as (chs0 & c0 & -> & _). cbn in H1. destruct (core_cons_inv _ _ _ _ _ H1) as (? & ? & [= <- <-] & Ef & _). rewrite Ef.
  destruct sp as [|p sp]; [done|]. cbn [map] in Esp. injection Esp as -> ->.
  pose proof (rs_dir_at c b (p :: sp) 0 p Hres (Z.le_refl 0) eq_refl) as Ed. rewrite Z.add_0_r in Ed. rewrite Ed, (rs_frameAt c b (p :: sp) 0 p Hres eq_refl).
  cbv zeta. pose proof (rs_popFront c b p sp Hres) as Hres'. set (c' := with_window _ _ _ _) in *.
  destruct (core_set st nt1 _ _ 0 c' (map snd sp) H1) as (r & Er & H2 & Hr2); [rewrite zlen_cons; pose proof (zlen_nonneg yss); lia|left; by exists b, sp|]. rewrite Er.
  cbn in H2. rewrite (count_zero c' b sp Hres'). set (nt2 := stale (tally (with_ring nt1 r) (-1) (- zlen p.2))).
  assert (H2' : core st nt2 (c' :: chs0) (map snd sp :: yss)) by (by destruct H2).
  assert (Hcnt2 : nt_count nt2 = zlen (map snd sp ++ concat yss)).
  { cbn [nt2 stale tally with_ring with_dir nt_count]. rewrite Hc1, Hcnt, zlen_cons. lia. }
  assert (Hby2 : nt_bytes nt2 = bsum (map snd sp ++ concat yss)).
  { cbn [nt2 stale tally with_ring with_dir nt_bytes]. rewrite Hb1, Hby. cbn [bsum foldr]. fold (bsum (map snd sp ++ concat yss)). lia. }
  destruct (bool_decide_reflect (sp = [])) as [->|Hsp].
  - destruct (core_recycle st nt2 _ _ c' b [] H2' Hres') as (fr & Erc & H3). rewrite Erc. destruct (core_popHead _ _ _ _ _ _ H3) as (r' & Er' & H4). rewrite Er'.
    eexists. split; [done|]. exists chs0, yss. split_and!; try done.
  - eexists. split; [done|]. exists (c' :: chs0), (map snd sp :: yss). split_and!; try done. apply Forall_cons. split; [|done]. by destruct sp.
Qed.

(** Replacing the last of a list. *)
Lemma insert_last {A} (l : list A) n x y : n = length l -> <[n := y]> (l ++ [x]) = l ++ [y].
Proof. intros ->. by rewrite insert_app_r_alt, Nat.sub_diag. Qed.

Lemma snoc_split (yss : list (list bytes)) xs x : concat yss = xs ++ [x] -> Forall (fun ys => ys <> []) yss ->
  exists yss' ys, yss = yss' ++ [ys ++ [x]] /\ xs = concat yss' ++ ys.
Proof.
  intros E Hne. destruct (snoc_cases yss) as [->|(yss' & ys & ->)]; [by destruct xs|]. apply Forall_app in Hne as [_ Hne]. apply Forall_cons in Hne as [Hne _].
  destruct (snoc_cases ys) as [->|(ys' & y & ->)]; [by destruct (Hne eq_refl)|]. rewrite concat_app in E. cbn [concat] in E. rewrite app_nil_r, (assoc_L (++)) in E.
  apply app_inj_tail in E as [<- <-]. by exists yss', ys'.
Qed.

Lemma lookup_last {A} (l : list A) x i : i = zlen l -> (l ++ [x]) !! Z.to_nat i = Some x.
Proof. intros ->. unfold zlen. rewrite Nat2Z.id. by apply list_lookup_middle. Qed.

Lemma nt_popBack_ok st nt xs x : holds st nt (xs ++ [x]) -> exists nt', nt_popBack st nt = Ok (nt', x) /\ holds st nt' xs.
Proof.
  intros (chs & yss & H & Ex & Hne & Hcnt & Hby & Hdir). destruct (snoc_split yss xs x (eq_sym Ex) Hne) as (yss0 & ys & -> & ->).
  apply Forall_app in Hne as [Hne _]. unfold nt_popBack. pose proof (core_n _ _ _ _ H) as [Hn Hcn]. rewrite zlen_app in Hn. change (zlen [ys ++ [x]]) with 1 in Hn. pose proof (zlen_nonneg yss0).
  assert (Hix : cr_n (nt_ring nt) - 1 = zlen yss0) by lia. rewrite Hix.
  destruct (promoteIfCold_ok st nt chs _ (zlen yss0) (ys ++ [x]) H ltac:(done)) as (nt1 & c & E & H1 & (b & sp & Hres & Esp) & Hc1 & Hb1 & Hd1 & Hhc & Hn1); [by apply lookup_last|]. rewrite E.
  destruct (core_snoc_inv _ _ _ _ _ H) as (chs0 & c0 & -> & _). assert (Hlen : length chs0 = length yss0).
  { rewrite !zlen_app in Hcn. change (zlen [ys ++ [x]]) with 1 in Hcn. change (zlen [c0]) with 1 in Hcn. unfold zlen in Hcn. lia. }
  rewrite insert_last in H1 by (unfold zlen; lia). destruct (core_snoc_inv _ _ _ _ _ H1) as (? & ? & [<- <-]%app_inj_tail & Ef & _). rewrite Ef.
  destruct (snoc_cases sp) as [->|(sp' & p & ->)]; [by destruct ys|]. rewrite map_app in Esp. cbn [map] in Esp. apply app_inj_tail in Esp as [-> ->].
  pose proof (rs_count _ _ _ Hres) as Hcnt'. rewrite zlen_app in Hcnt'. change (zlen [p]) with 1 in Hcnt'. unfold count in Hcnt'.
  assert (Hl : (sp' ++ [p]) !! Z.to_nat (zlen sp') = Some p) by (by apply lookup_last).
  pose proof (rs_dir_at c b _ (zlen sp') p Hres (zlen_nonneg sp') Hl) as Ed. replace (ch_lo c + zlen sp') with (ch_hi c - 1) in Ed by lia.
  rewrite Ed, (rs_frameAt c b _ _ p Hres Hl). cbv zeta. pose proof (rs_popBack c b sp' p Hres) as Hres'. set (c' := with_window _ _ _ _) in *.
  rewrite Hn1, Hix. destruct (core_set st nt1 _ _ (zlen yss0) c' (map snd sp') H1) as (r & Er & H2 & Hr2);
    [rewrite zlen_app; change (zlen [map snd sp' ++ [p.2]]) with 1; lia|left; by exists b, sp'|]. rewrite Er.
  rewrite !insert_last in H2 by (unfold zlen; lia). rewrite (count_zero c' b sp' Hres'). set (nt2 := stale (tally (with_ring nt1 r) (-1) (- zlen p.2))).
  assert (H2' : core st nt2 (chs0 ++ [c']) (yss0 ++ [map snd sp'])) by (by destruct H2). rewrite zlen_app in Hcnt. rewrite bsum_app in Hby. change (zlen [p.2]) with 1 in Hcnt. cbn [bsum foldr] in Hby.
  assert (Hcnt2 : nt_count nt2 = zlen (concat yss0 ++ map snd sp')).
  { cbn [nt2 stale tally with_ring with_dir nt_count]. rewrite Hc1, Hcnt. lia. }
  assert (Hby2 : nt_bytes nt2 = bsum (concat yss0 ++ map snd sp')).
  { cbn [nt2 stale tally with_ring with_dir nt_bytes]. rewrite Hb1, Hby. unfold bsum. lia. }
  destruct (bool_decide_reflect (sp' = [])) as [->|Hsp].
  - destruct (core_recycle st nt2 _ _ c' b [] H2' Hres') as (fr & Erc & H3). rewrite Erc. destruct (core_popTail _ _ _ _ _ _ H3) as (r' & Er' & H4). rewrite Er'.
    eexists. split; [done|]. cbn [map] in *. rewrite app_nil_r in *. exists chs0, yss0. split_and!; try done.
  - eexists. split; [done|]. exists (chs0 ++ [c']), (yss0 ++ [map snd sp']). rewrite concat_app. cbn [concat]. rewrite app_nil_r. split_and!; try done.
    apply Forall_app. split; [done|]. apply Forall_singleton. by destruct sp'.
Qed.

(** ** Reads *)


Lemma nonempty_le (yss : list (list bytes)) : Forall (fun ys => ys <> []) yss -> zlen yss <= zlen (concat yss).
Proof.
  induction 1 as [|ys yss Hy _ IH]; [done|]. cbn [concat]. rewrite zlen_cons, zlen_app. destruct ys as [|y ys]; [done|]. rewrite zlen_cons. pose proof (zlen_nonneg ys). lia.
Qed.

Lemma psum_concat (yss : list (list bytes)) n : 0 <= n <= zlen yss -> psum (map zlen yss) n = zlen (concat (take (Z.to_nat n) yss)).
Proof.
  intros Hn. unfold psum. rewrite firstn_map. generalize (Z.to_nat n). intros k. clear. revert k. induction yss as [|ys yss IH]; intros [|k]; cbn; try done.
  rewrite zlen_app. by rewrite IH.
Qed.

Lemma map_zlen_nonneg (yss : list (list bytes)) : Forall (fun c => 0 <= c) (map zlen yss).
Proof. apply Forall_map, Forall_true. intros ys. apply zlen_nonneg. Qed.

(** The position a dense index resolves to: the chunk and its ordinal, with what precedes it. *)
Lemma nt_locate_ok st nt chs yss k : core st nt chs yss -> Forall (fun ys => ys <> []) yss -> small (concat yss) ->
  dir_ok (nt_dir nt) (map zlen yss) -> 0 <= k < zlen (concat yss) ->
  exists d ci ord ys, nt_locate nt k = Ok (with_dir nt d, (ci, ord)) /\ dir_ok d (map zlen yss) /\ 0 <= ci /\ yss !! Z.to_nat ci = Some ys
    /\ 0 <= ord < zlen ys /\ k = zlen (concat (take (Z.to_nat ci) yss)) + ord.
Proof.
  intros H Hne Hsm Hd Hk. unfold small in Hsm. pose proof (nonempty_le yss Hne) as Hle. pose proof (core_counts _ _ _ _ H) as Hct. pose proof (core_n _ _ _ _ H) as [_ Hcn].
  assert (Hm : zlen (map zlen yss) = zlen yss) by (unfold zlen; by rewrite length_map).
  assert (Htot : psum (map count chs) (zlen chs) = zlen (concat yss)).
  { rewrite Hct, Hcn, psum_concat by (pose proof (zlen_nonneg yss); lia). rewrite take_ge by (unfold zlen; lia). done. }
  destruct (locate_view count (nt_dir nt) (nt_ring nt) chs k) as (d & [ci ord] & E & Ef & Hd').
  - apply H.
  - rewrite Hct. apply map_zlen_nonneg.
  - rewrite Htot. lia.
  - lia.
  - by rewrite Hct.
  - by rewrite Htot.
  - unfold nt_locate. rewrite E. rewrite Hct in Ef, Hd'.
    destruct (flat_scan_spec (map zlen yss) (map zlen yss) 0 k) as (ci' & ord' & Ef' & Hc & Ho & Hs & Hu);
      [lia|by exists []|rewrite <- psum_all, Hm, <- Hcn, <- Hct, Htot; lia|].
    rewrite Ef in Ef'. injection Ef' as <- <-. change (psum (map zlen yss) 0) with 0 in *. rewrite Hm in Hc.
    destruct (lookup_lt_is_Some_2 yss (Z.to_nat ci)) as [ys Hy]; [unfold zlen in *; lia|].
    assert (Hp : psum (map zlen yss) (ci + 1) = psum (map zlen yss) ci + zlen ys).
    { apply psum_succ; [lia|]. change (map zlen yss) with (zlen <$> yss). by rewrite list_lookup_fmap, Hy. }
    exists d, ci, ord, ys. split_and!; try done; try lia. rewrite <- psum_concat by lia. lia.
Qed.

Lemma payload_ok st nt c ys : cold_rep st (has_cold nt) c ys -> payload st nt (ch_coldOff c) = Ok (frames ys).
Proof.
  intros (Hhc & _ & _ & _ & _ & _ & _ & _ & disc & Hat). unfold has_cold in Hhc. apply bool_decide_eq_true in Hhc as [lc Hlc].
  unfold payload. rewrite Hlc. by rewrite (chunk_at_read _ _ _ _ _ _ Hat).
Qed.

Lemma cold_rep_cold st hc c ys : cold_rep st hc c ys -> cold c = true.
Proof. intros (_ & Hb & _). unfold cold. by rewrite Hb. Qed.

Lemma skip_payload ys ord : Forall okv ys -> 0 <= ord <= zlen ys ->
  exists off, skip_frames (Z.to_nat ord) (frames ys) 0 = Ok off /\ packed (frames ys) off (drop (Z.to_nat ord) ys).
Proof.
  intros Hy Hord. pose proof (frames_packed ys Hy) as Hp. rewrite <- (take_drop (Z.to_nat ord) ys) in Hp at 2.
  destruct (packed_app _ _ _ _ Hp) as [Hp' Hs]. rewrite length_take in Hs. replace (Z.to_nat ord `min` length ys)%nat with (Z.to_nat ord) in Hs by (unfold zlen in *; lia).
  eexists. split; [exact Hs|done].
Qed.

(** A run of a chunk, resident or cold. *)
Lemma chunk_run_ok st nt c ys ord k : rep st (has_cold nt) c ys -> 0 <= ord -> ord + Z.of_nat k <= zlen ys ->
  chunk_run st nt c ord k = Ok (take k (drop (Z.to_nat ord) ys)).
Proof.
  intros [(b & sp & Hres & ->)|Hc] Ho Hk; unfold chunk_run.
  - rewrite (rs_cold _ _ _ Hres). apply (frames_from_rs c b sp Hres); [done|]. unfold zlen in *. by rewrite length_map in Hk.
  - rewrite (cold_rep_cold _ _ _ _ Hc), (payload_ok _ _ _ _ Hc). pose proof Hc as (_ & _ & _ & _ & _ & _ & Hy & _).
    destruct (skip_payload ys ord Hy ltac:(lia)) as (off & E & Hp). rewrite E. rewrite <- (take_drop k (drop (Z.to_nat ord) ys)) in Hp.
    pose proof (payload_frames_packed _ _ _ _ Hp) as Er. rewrite length_take, length_drop in Er.
    replace (k `min` (length ys - Z.to_nat ord))%nat with k in Er by (unfold zlen in *; lia). done.
Qed.

Lemma frameOf_ok st nt c ys ord y : rep st (has_cold nt) c ys -> 0 <= ord -> ys !! Z.to_nat ord = Some y -> frameOf st nt c ord = Ok y.
Proof.
  intros [(b & sp & Hres & ->)|Hc] Ho Hy; unfold frameOf.
  - rewrite (rs_cold _ _ _ Hres). change (map snd sp) with (snd <$> sp) in Hy. apply list_lookup_fmap_Some in Hy as (p & -> & Hp).
    by rewrite (rs_dir_at c b sp ord p Hres Ho Hp), (rs_frameAt c b sp _ p Hres Hp).
  - rewrite (cold_rep_cold _ _ _ _ Hc), (payload_ok _ _ _ _ Hc). pose proof Hc as (_ & _ & _ & _ & _ & _ & Hok & _).
    pose proof (lookup_lt_Some _ _ _ Hy). destruct (skip_payload ys ord Hok ltac:(unfold zlen; lia)) as (off & E & Hp). unfold coldFrameAt. rewrite E.
    rewrite (drop_S _ _ _ Hy) in Hp. by rewrite (frame_at_packed _ _ _ _ Hp).
Qed.

Lemma chunk_values_ok st nt c ys : rep st (has_cold nt) c ys -> chunk_values st nt c = Ok ys.
Proof.
  intros H. unfold chunk_values. destruct H as [(b & sp & Hres & ->)|Hc].
  - rewrite (rs_cold _ _ _ Hres). by eapply live_frames_rs.
  - rewrite (cold_rep_cold _ _ _ _ Hc). unfold coldValues. rewrite (payload_ok _ _ _ _ Hc). pose proof Hc as (_ & _ & Hlo & Hhi & _ & _ & Hok & _).
    unfold count. rewrite Hlo, Hhi, Z.sub_0_r. by apply payload_frames_all.
Qed.

(** The elements around chunk [ci]. *)
Lemma concat_at (yss : list (list bytes)) ci ys : yss !! ci = Some ys ->
  concat yss = concat (take ci yss) ++ ys ++ concat (drop (S ci) yss).
Proof. intros Hy. rewrite <- (take_drop_middle _ _ _ Hy) at 1. by rewrite concat_app. Qed.

Lemma concat_lookup (yss : list (list bytes)) ci ys ord y : yss !! ci = Some ys -> ys !! ord = Some y ->
  concat yss !! (length (concat (take ci yss)) + ord)%nat = Some y.
Proof.
  intros Hy Ho. rewrite (concat_at _ _ _ Hy). rewrite lookup_app_r by lia. replace (_ + ord - _)%nat with ord by lia. by apply lookup_app_l_Some.
Qed.

Lemma concat_drop (yss : list (list bytes)) ci ys ord : yss !! ci = Some ys -> (ord <= length ys)%nat ->
  drop (length (concat (take ci yss)) + ord) (concat yss) = drop ord ys ++ concat (drop (S ci) yss).
Proof.
  intros Hy Ho. rewrite (concat_at _ _ _ Hy). rewrite drop_app_ge by lia. replace (_ + ord - _)%nat with ord by lia. by rewrite drop_app_le.
Qed.

Lemma holds_dir st nt xs d chs yss : core st nt chs yss -> xs = concat yss -> Forall (fun ys => ys <> []) yss -> nt_count nt = zlen xs -> nt_bytes nt = bsum xs ->
  dir_ok d (map zlen yss) -> holds st (with_dir nt d) xs.
Proof. intros H -> Hne Hc Hb Hd. exists chs, yss. split_and!; try done. by destruct H. Qed.

Lemma nt_at_ok st nt xs i x : holds st nt xs -> small xs -> 0 <= i -> xs !! Z.to_nat i = Some x ->
  exists nt', nt_at st nt i = Ok (nt', x) /\ holds st nt' xs.
Proof.
  intros (chs & yss & H & -> & Hne & Hcnt & Hby & Hdir) Hsm Hi Hx. pose proof (lookup_lt_Some _ _ _ Hx) as Hl.
  destruct (nt_locate_ok st nt chs yss i H Hne Hsm Hdir ltac:(unfold zlen; lia)) as (d & ci & ord & ys & E & Hd & Hci & Hy & Hord & Ek). unfold nt_at. rewrite E.
  destruct (core_at _ _ _ _ _ _ H Hci Hy) as (c & Hc & Ea & Hrep). cbn [with_dir nt_ring]. rewrite Ea.
  destruct (lookup_lt_is_Some_2 ys (Z.to_nat ord)) as [y Hyo]; [unfold zlen in *; lia|].
  pose proof (concat_lookup yss _ ys _ y Hy Hyo) as Hcx. replace (length _ + Z.to_nat ord)%nat with (Z.to_nat i) in Hcx by (unfold zlen in *; lia).
  rewrite Hx in Hcx. injection Hcx as ->. rewrite (frameOf_ok st (with_dir nt d) c ys ord y Hrep) by (done || lia). eexists. split; [done|]. by eapply holds_dir.
Qed.

Lemma emit_ok sp vs : roomy sp -> Forall okv vs -> forall out, emit sp out vs = out ++ concat (map bulk vs).
Proof.
  intros Hsp. induction 1 as [|v vs Hv Hvs IH]; intros out; cbn [emit foldl map concat]; [by rewrite app_nil_r|]. fold (emit sp (AppendBulk (sp out v) out v) vs).
  rewrite IH, AppendBulk_eq; [by rewrite <- (assoc_L (++))| |apply Hsp]. apply okv_fits in Hv. unfold fits in Hv. pose proof (zlen_nonneg v). unfold is_u64. lia.
Qed.

Lemma range_loop_ok sp st nt chs yss : roomy sp -> core st nt chs yss -> Forall (fun ys => ys <> []) yss -> forall fuel ci ord ys remaining out,
  0 <= ci -> yss !! Z.to_nat ci = Some ys -> 0 <= ord < zlen ys ->
  let rest := drop (Z.to_nat ord) ys ++ concat (drop (S (Z.to_nat ci)) yss) in
  0 <= remaining <= zlen rest -> remaining <= Z.of_nat fuel ->
  range_loop fuel sp st nt ci ord remaining out = Ok (out ++ concat (map bulk (ztake remaining rest))).
Proof.
  intros Hsp H Hne. induction fuel as [|fuel IH]; intros ci ord ys remaining out Hci Hy Hord rest Hrem Hfuel; cbn [range_loop].
  all: destruct (Z.leb_spec remaining 0) as [Hz|Hpos]; [rewrite ztake_nonpos by lia; cbn; by rewrite app_nil_r|try lia].
  destruct (core_at _ _ _ _ _ _ H Hci Hy) as (c & Hc & Ea & Hrep). rewrite Ea, (rep_count _ _ _ _ Hrep). cbv zeta.
  rewrite Z.max_r by lia. set (k := Z.min (zlen ys - ord) remaining). rewrite (chunk_run_ok st nt c ys ord _ Hrep) by lia.
  assert (Hdl : zlen (drop (Z.to_nat ord) ys) = zlen ys - ord) by (unfold zlen in *; rewrite length_drop; lia).
  rewrite emit_ok; [|done|apply Forall_take, Forall_drop; by eapply rep_ok].
  destruct (Z.le_gt_cases remaining (zlen ys - ord)) as [Hle|Hgt].
  - assert (Hk : k = remaining) by (unfold k; lia). rewrite Hk, Z.sub_diag.
    assert (range_loop fuel sp st nt (ci + 1) 0 0 (out ++ concat (map bulk (take (Z.to_nat remaining) (drop (Z.to_nat ord) ys))))
      = Ok (out ++ concat (map bulk (take (Z.to_nat remaining) (drop (Z.to_nat ord) ys))))) as ->; [by destruct fuel|].
    unfold rest. rewrite ztake_app_le by lia. by rewrite ztake_take.
  - assert (Hk : k = zlen ys - ord) by (unfold k; lia). rewrite Hk. rewrite take_ge by (unfold zlen in *; lia).
    unfold rest in *. rewrite zlen_app, Hdl in Hrem. rewrite ztake_app_ge, Hdl by lia.
    destruct (lookup_lt_is_Some_2 yss (S (Z.to_nat ci))) as [ys' Hy'].
    { destruct (decide (S (Z.to_nat ci) < length yss)%nat) as [|Hge]; [done|]. rewrite drop_ge in Hrem by lia. change (zlen (concat [])) with 0 in Hrem. lia. }
    pose proof (Forall_lookup_1 _ _ _ _ Hne Hy') as Hne'. assert (0 < zlen ys') by (destruct ys' as [|y0 ys']; [done|]; rewrite zlen_cons; pose proof (zlen_nonneg ys'); lia).
    rewrite (IH (ci + 1) 0 ys'); cycle 1; [lia|by replace (Z.to_nat (ci + 1)) with (S (Z.to_nat ci)) by lia|lia| |lia|].
    + cbn [Z.to_nat]. rewrite drop_0. replace (Z.to_nat (ci + 1)) with (S (Z.to_nat ci)) by lia. rewrite (drop_S _ _ _ Hy') in Hrem. cbn [concat] in Hrem. lia.
    + cbn [Z.to_nat]. rewrite drop_0. replace (Z.to_nat (ci + 1)) with (S (Z.to_nat ci)) by lia. rewrite (drop_S _ _ _ Hy'). cbn [concat].
      by rewrite map_app, concat_app, <- (assoc_L (++)).
Qed.

Lemma nt_rangeInto_ok st sp nt xs out lo hi : roomy sp -> holds st nt xs -> small xs -> 0 <= lo <= hi -> hi < zlen xs ->
  exists nt', nt_rangeInto st sp nt out lo hi = Ok (nt', out ++ concat (map bulk (sl xs lo (hi + 1 - lo)))) /\ holds st nt' xs.
Proof.
  intros Hsp (chs & yss & H & -> & Hne & Hcnt & Hby & Hdir) Hsm Hlo Hhi.
  destruct (nt_locate_ok st nt chs yss lo H Hne Hsm Hdir ltac:(lia)) as (d & ci & ord & ys & E & Hd & Hci & Hy & Hord & Ek). unfold nt_rangeInto. rewrite E. cbv zeta.
  pose proof (concat_drop yss (Z.to_nat ci) ys (Z.to_nat ord) Hy ltac:(unfold zlen in *; lia)) as Hdr.
  replace (length _ + Z.to_nat ord)%nat with (Z.to_nat lo) in Hdr by (unfold zlen in *; lia).
  assert (Hl : zlen (drop (Z.to_nat lo) (concat yss)) = zlen (concat yss) - lo) by (unfold zlen in *; rewrite length_drop; lia). rewrite Hdr in Hl.
  assert (H' : core st (with_dir nt d) chs yss) by (by destruct H).
  rewrite (range_loop_ok sp st (with_dir nt d) chs yss Hsp H' Hne _ ci ord ys) by (done || lia). eexists. split; [|by eapply holds_dir].
  do 2 f_equal. rewrite <- Hdr, <- zdrop_drop. unfold sl. do 5 f_equal. lia.
Qed.

Lemma each_loop_ok st nt chs yss : core st nt chs yss -> forall k i, 0 <= i -> i + Z.of_nat k = zlen yss ->
  each_loop st nt i k = Ok (concat (drop (Z.to_nat i) yss)).
Proof.
  intros H. induction k as [|k IH]; intros i Hi Hk; cbn [each_loop]; [rewrite drop_ge by (unfold zlen in *; lia); done|].
  destruct (lookup_lt_is_Some_2 yss (Z.to_nat i)) as [ys Hy]; [unfold zlen in *; lia|]. destruct (core_at _ _ _ _ _ _ H Hi Hy) as (c & _ & Ea & Hrep).
  rewrite Ea, (chunk_values_ok st nt c ys Hrep), IH by lia. rewrite (drop_S _ _ _ Hy). by replace (Z.to_nat (i + 1)) with (S (Z.to_nat i)) by lia.
Qed.

Lemma nt_each_ok st nt xs : holds st nt xs -> nt_each st nt = Ok xs.
Proof.
  intros (chs & yss & H & -> & _). pose proof (core_n _ _ _ _ H) as [Hn _]. unfold nt_each. by rewrite (each_loop_ok st nt chs yss H) by (unfold zlen in *; lia).
Qed.

(** ** LPOS *)

Lemma lpos_walk_app target limit maxlen a : forall s b,
  lpos_walk target limit maxlen s (a ++ b)
  = let '(go, s') := lpos_walk target limit maxlen s a in if go then lpos_walk target limit maxlen s' b else (false, s').
Proof.
  induction a as [|[i v] a IH]; intros s b; cbn [app lpos_walk]; [done|]. destruct (lpos_stop maxlen s); [done|].
  destruct (lpos_visit target limit s i v) as [[] s']; [apply IH|done].
Qed.

Lemma items_from_app step a : forall abs b, items_from abs step (a ++ b) = items_from abs step a ++ items_from (abs + step * zlen a) step b.
Proof.
  induction a as [|v a IH]; intros abs b; cbn [app items_from]; [change (zlen []) with 0; f_equal; lia|]. rewrite IH, zlen_cons. cbn [app]. do 3 f_equal. lia.
Qed.

Lemma items_from_zip xs : forall m, items_from m 1 xs = zip (seqZ m (zlen xs)) xs.
Proof.
  induction xs as [|x xs IH]; intros m; cbn [items_from]; [done|]. rewrite zlen_cons. pose proof (zlen_nonneg xs). rewrite seqZ_cons by lia. cbn [zip zip_with].
  rewrite IH. do 3 f_equal; lia.
Qed.

Lemma items_from_rev xs : forall m, rev (items_from m 1 xs) = items_from (m + zlen xs - 1) (-1) (rev xs).
Proof.
  induction xs as [|x xs IH]; intros m; cbn [items_from rev]; [done|]. rewrite IH, items_from_app, zlen_cons. f_equal; [f_equal; lia|]. cbn [items_from].
  unfold zlen. rewrite length_rev. do 2 f_equal. lia.
Qed.

Lemma lpos_fwd_ok st nt chs yss target limit maxlen : core st nt chs yss -> forall k i abs s, 0 <= i -> i + Z.of_nat k = zlen yss ->
  lpos_fwd st nt target limit maxlen i abs s k = Ok (lpos_walk target limit maxlen s (items_from abs 1 (concat (drop (Z.to_nat i) yss)))).2.
Proof.
  intros H. induction k as [|k IH]; intros i abs s Hi Hk; cbn [lpos_fwd]; [rewrite drop_ge by (unfold zlen in *; lia); done|].
  destruct (lookup_lt_is_Some_2 yss (Z.to_nat i)) as [ys Hy]; [unfold zlen in *; lia|]. destruct (core_at _ _ _ _ _ _ H Hi Hy) as (c & _ & Ea & Hrep).
  rewrite Ea, (chunk_values_ok st nt c ys Hrep). rewrite (drop_S _ _ _ Hy). cbn [concat]. rewrite items_from_app, lpos_walk_app.
  destruct (lpos_walk _ _ _ _ (items_from abs 1 ys)) as [[] s']; [|done]. rewrite IH by lia. replace (Z.to_nat (i + 1)) with (S (Z.to_nat i)) by lia. by rewrite Z.mul_1_l.
Qed.

Lemma lpos_bwd_ok st nt chs yss target limit maxlen : core st nt chs yss -> forall k abs s, (k <= length yss)%nat ->
  lpos_bwd st nt target limit maxlen abs s k = Ok (lpos_walk target limit maxlen s (items_from abs (-1) (rev (concat (take k yss))))).2.
Proof.
  intros H. induction k as [|k IH]; intros abs s Hk; cbn [lpos_bwd]; [done|].
  destruct (lookup_lt_is_Some_2 yss k) as [ys Hy]; [lia|]. destruct (core_at _ _ _ _ (Z.of_nat k) ys H ltac:(lia)) as (c & _ & Ea & Hrep); [by rewrite Nat2Z.id|].
  rewrite Ea, (chunk_values_ok st nt c ys Hrep). rewrite (take_S_r _ _ _ Hy), concat_app. cbn [concat]. rewrite app_nil_r, rev_app_distr, items_from_app, lpos_walk_app.
  destruct (lpos_walk _ _ _ _ (items_from abs (-1) (rev ys))) as [[] s']; [|done]. rewrite IH by lia. do 4 f_equal. unfold zlen. rewrite length_rev. lia.
Qed.

Lemma nt_lpos_ok st nt xs target rank limit maxlen : holds st nt xs -> nt_lpos st nt target rank limit maxlen = Ok (lpos_run xs target rank limit maxlen).
Proof.
  intros (chs & yss & H & -> & _ & Hcnt & _). pose proof (core_n _ _ _ _ H) as [Hn _]. unfold nt_lpos, lpos_run. cbv zeta. rewrite <- items_from_zip.
  destruct (0 <? rank).
  - rewrite (lpos_fwd_ok st nt chs yss _ _ _ H) by (unfold zlen in *; lia). cbn [Z.to_nat]. rewrite drop_0. by destruct (lpos_walk _ _ _ _ _) as [? [[]]].
  - rewrite (lpos_bwd_ok st nt chs yss _ _ _ H) by (unfold zlen in *; lia). rewrite take_ge by (unfold zlen in *; lia). rewrite items_from_rev, Hcnt.
    replace (0 + zlen (concat yss) - 1) with (zlen (concat yss) - 1) by lia. by destruct (lpos_walk _ _ _ _ _) as [? [[]]].
Qed.

(** ** Interior surgery *)

Lemma load_fresh nt g : free_ok (nt_free nt) -> group_ok g -> Forall okv g ->
  let '(nt', c) := getChunk nt (groupBytes g) in
  exists fr c', nt' = with_free nt fr /\ free_ok fr /\ loadChunk c g = Ok c' /\ res_rep c' g.
Proof.
  intros Hf (Hne & Hl & Hsz) Hok. rewrite groupBytes_eq by done. assert (0 < zlen (frames g)).
  { destruct g as [|v g]; [done|]. rewrite zlen_frames_cons. pose proof (frame_pos v). pose proof (zlen_nonneg (frames g)). lia. }
  pose proof (getChunk_ok nt (zlen (frames g)) Hf ltac:(lia)) as Hg. destruct (getChunk nt (zlen (frames g))) as [nt' c].
  destruct Hg as ((fr & -> & Hfr) & b & (Hb & Hd & Hcap) & Hroom & _). destruct (rs_load c b g Hb Hd Hcap Hok Hl Hroom) as (c' & b' & E & Hres & _).
  exists fr, c'. split_and!; try done. exists b', (laid 0 g). by rewrite laid_snd.
Qed.

Lemma load_groups_ok gs : Forall group_ok gs -> Forall (Forall okv) gs -> forall nt, free_ok (nt_free nt) ->
  exists fr cs, load_groups nt gs = Ok (with_free nt fr, cs) /\ free_ok fr /\ Forall2 res_rep cs gs.
Proof.
  induction 1 as [|g gs Hg Hgs IH]; intros Hok nt Hf; cbn [load_groups].
  { exists (nt_free nt), []. split_and!; [by destruct nt|done|done]. }
  apply Forall_cons in Hok as [Hog Hok]. pose proof (load_fresh nt g Hf Hg Hog) as Hl. destruct (getChunk nt (groupBytes g)) as [nt1 c].
  destruct Hl as (fr & c' & -> & Hfr & El & Hr). rewrite El. destruct (IH Hok (with_free nt fr) Hfr) as (fr2 & cs & E & Hfr2 & Hcs). rewrite E.
  exists fr2, (c' :: cs). split_and!; [done|done|]. by apply Forall2_cons.
Qed.

Lemma ring_insert_all_ok cs : forall r chs i, rview r chs -> 0 <= i <= zlen chs ->
  exists r', ring_insert_all r i cs = Ok r' /\ rview r' (take (Z.to_nat i) chs ++ cs ++ drop (Z.to_nat i) chs).
Proof.
  induction cs as [|c cs IH]; intros r chs i Hr Hi; cbn [ring_insert_all]. { exists r. cbn [app]. by rewrite take_drop. }
  destruct (insertAt_view r chs i c Hr Hi) as (r1 & E1 & H1). rewrite E1. destruct (IH r1 _ (i + 1) H1) as (r2 & E2 & H2).
  { unfold ins_at. rewrite zlen_app, zlen_cons. unfold zlen in *. rewrite length_take, length_drop. lia. }
  exists r2. split; [done|]. unfold ins_at in H2. set (k := Z.to_nat i) in *. assert (Hk : length (take k chs) = k) by (rewrite length_take; unfold zlen, k in *; lia).
  replace (Z.to_nat (i + 1)) with (k + 1)%nat in H2 by (unfold k; lia). rewrite take_app_ge, drop_app_ge, Hk in H2 by lia.
  replace (k + 1 - k)%nat with 1%nat in H2 by lia. cbn [take drop] in H2. rewrite <- (assoc_L (++)) in H2. done.
Qed.

Lemma core_splice st nt chs yss ci c0 g0 cs gs : core st nt chs yss -> 0 <= ci < zlen yss -> res_rep c0 g0 -> Forall2 res_rep cs gs ->
  exists r chs', (let* r := ring_set (nt_ring nt) ci c0 in ring_insert_all r (ci + 1) cs) = (Ok r : P (chunkRing chunk))
    /\ core st (with_ring nt r) chs' (take (Z.to_nat ci) yss ++ (g0 :: gs) ++ drop (S (Z.to_nat ci)) yss).
Proof.
  intros H Hci Hc0 Hcs. destruct (core_set st nt chs yss ci c0 g0 H Hci (or_introl Hc0)) as (r & Er & H1 & _). rewrite Er.
  pose proof (core_n _ _ _ _ H1) as [Hn1 Hcn1]. destruct H1 as [Hr1 Hf1 Hfr1]. cbn [with_ring nt_ring nt_free] in *.
  assert (Hlen : zlen (<[Z.to_nat ci := g0]> yss) = zlen yss) by (unfold zlen; by rewrite length_insert).
  destruct (ring_insert_all_ok cs r _ (ci + 1) Hr1) as (r' & E & Hr'); [lia|]. rewrite E. eexists r', _. split; [done|]. split; [exact Hr'| |done].
  pose proof (Forall2_take _ _ _ (Z.to_nat (ci + 1)) Hf1) as Ht. pose proof (Forall2_drop _ _ _ (Z.to_nat (ci + 1)) Hf1) as Hd.
  replace (Z.to_nat (ci + 1)) with (S (Z.to_nat ci)) in * by lia.
  rewrite (take_S_r (<[Z.to_nat ci := g0]> yss) _ g0), (take_insert_ge yss) in Ht by (lia || (apply list_lookup_insert_eq; unfold zlen in *; lia)).
  rewrite (drop_insert_lt yss) in Hd by lia. replace (take (Z.to_nat ci) yss ++ (g0 :: gs) ++ drop (S (Z.to_nat ci)) yss) with ((take (Z.to_nat ci) yss ++ [g0]) ++ gs ++ drop (S (Z.to_nat ci)) yss)
    by (by rewrite <- (assoc_L (++))). apply Forall2_app; [exact Ht|].
  apply Forall2_app; [|exact Hd]. eapply Forall2_impl; [exact Hcs|]. intros c g Hr. by left.
Qed.

Lemma spliceChunk_ok st nt chs yss ci c b sp vals : core st nt chs yss -> 0 <= ci < zlen yss -> chs !! Z.to_nat ci = Some c -> resident c b sp ->
  vals <> [] -> Forall okv vals ->
  exists nt' chs' g gs, spliceChunk nt ci vals = Ok nt' /\ core st nt' chs' (take (Z.to_nat ci) yss ++ (g :: gs) ++ drop (S (Z.to_nat ci)) yss)
    /\ concat (g :: gs) = vals /\ Forall (fun g => g <> []) (g :: gs)
    /\ nt_count nt' = nt_count nt /\ nt_bytes nt' = nt_bytes nt /\ nt_dir nt' = nt_dir nt.
Proof.
  intros H Hci Hc Hres Hne Hok. destruct (splitVals_ok vals Hok Hne) as (g & gs & Es & Ec & Hg). unfold spliceChunk. cbv zeta. rewrite Es.
  rewrite (ring_at_view _ _ _ _ (co_ring _ _ _ _ H) (proj1 Hci) Hc).
  assert (Hgok : Forall (Forall okv) (g :: gs)).
  { rewrite <- Ec in Hok. clear -Hok. induction (g :: gs) as [|x l IH]; [done|]. cbn [concat] in Hok. apply Forall_app in Hok as [? ?]. apply Forall_cons. split; [done|by apply IH]. }
  assert (Hgne : Forall (fun g => g <> []) (g :: gs)) by (eapply Forall_impl; [exact Hg|]; by intros ? [? _]).
  pose proof Hg as Hg'. apply Forall_cons in Hg' as [Hg0 Hgs]. pose proof Hgok as Hgok'. apply Forall_cons in Hgok' as [Hok0 Hoks].
  (* the replacement slabs *)
  assert (Hslabs : exists fr c0 cs, (if groupBytes g <=? budget c then
        let* '(nt, cs) := load_groups nt gs in let* c0 := loadChunk c g in Ok (nt, c0, cs)
      else let* '(nt, cs) := load_groups nt (g :: gs) in match cs with c0 :: cs => Ok (recycle nt c, c0, cs) | [] => Panic end)
      = (Ok (with_free nt fr, c0, cs) : P _) /\ free_ok fr /\ res_rep c0 g /\ Forall2 res_rep cs gs).
  { destruct (Z.leb_spec (groupBytes g) (budget c)) as [Hfit|_].
    - destruct (load_groups_ok gs Hgs Hoks nt (co_free _ _ _ _ H)) as (fr & cs & El & Hfr & Hcs). rewrite El. rewrite groupBytes_eq in Hfit by done.
      unfold budget in Hfit. rewrite (rs_blob_of _ _ _ Hres) in Hfit. destruct Hg0 as (_ & Hl0 & _).
      destruct (rs_load c b g (rs_blob _ _ _ Hres) (rs_dirlen _ _ _ Hres) (rs_cap _ _ _ Hres) Hok0 Hl0 Hfit) as (c0 & b0 & E0 & Hr0 & _). rewrite E0.
      exists fr, c0, cs. split_and!; try done. exists b0, (laid 0 g). by rewrite laid_snd.
    - destruct (load_groups_ok (g :: gs) Hg Hgok nt (co_free _ _ _ _ H)) as (fr & cs & El & Hfr & Hcs). rewrite El.
      apply Forall2_cons_inv_r in Hcs as (c0 & cs' & H0 & Hcs' & ->). destruct (recycle_ok (with_free nt fr) c b sp Hfr Hres) as (fr2 & Er & Hfr2). rewrite Er.
      exists fr2, c0, cs'. by split_and!. }
  destruct Hslabs as (fr & c0 & cs & E & Hfr & Hc0 & Hcs). rewrite E.
  destruct (core_splice st (with_free nt fr) chs yss ci c0 g cs gs (core_free _ _ _ _ _ H Hfr) Hci Hc0 Hcs) as (r & chs' & Er & Hcore).
  cbn [with_free nt_ring] in Er |- *. destruct (ring_set (nt_ring nt) ci c0) as [r0| |]; [|done|done]. rewrite Er. by exists (with_ring (with_free nt fr) r), chs', g, gs.
Qed.

(** The elements with chunk [ci] replaced. *)
Lemma concat_replace (yss : list (list bytes)) ci gss : concat (take ci yss ++ gss ++ drop (S ci) yss) = concat (take ci yss) ++ concat gss ++ concat (drop (S ci) yss).
Proof. by rewrite !concat_app. Qed.

Lemma nonempty_replace (yss : list (list bytes)) ci gss : Forall (fun ys => ys <> []) yss -> Forall (fun ys => ys <> []) gss ->
  Forall (fun ys => ys <> []) (take ci yss ++ gss ++ drop (S ci) yss).
Proof. intros H1 H2. apply Forall_app. split; [by apply Forall_take|]. apply Forall_app. split; [done|by apply Forall_drop]. Qed.

Lemma concat_insert (yss : list (list bytes)) ci ys ord v : yss !! ci = Some ys -> (ord < length ys)%nat ->
  <[(length (concat (take ci yss)) + ord)%nat := v]> (concat yss) = concat (take ci yss) ++ <[ord := v]> ys ++ concat (drop (S ci) yss).
Proof.
  intros Hy Ho. rewrite (concat_at _ _ _ Hy). rewrite insert_app_r_alt by lia. replace (_ + ord - _)%nat with ord by lia. by rewrite insert_app_l.
Qed.

Lemma bsum_insert xs i x v : xs !! i = Some x -> bsum (<[i := v]> xs) = bsum xs + (zlen v - zlen x).
Proof.
  intros Hx. rewrite insert_take_drop by (by eapply lookup_lt_Some). rewrite <- (take_drop_middle _ _ _ Hx) at 3. rewrite !bsum_app. cbn [bsum foldr].
  fold (bsum (drop (S i) xs)). lia.
Qed.

Lemma zlen_insert' {A} (xs : list A) i v : zlen (<[i := v]> xs) = zlen xs.
Proof. unfold zlen. by rewrite length_insert. Qed.

(** A splice that keeps the number of chunks keeps the chunk counts. *)
Lemma splice_same_n (yss : list (list bytes)) ci ys g gs : yss !! ci = Some ys -> zlen (concat (g :: gs)) = zlen ys ->
  zlen (take ci yss ++ (g :: gs) ++ drop (S ci) yss) = zlen yss ->
  map zlen (take ci yss ++ (g :: gs) ++ drop (S ci) yss) = map zlen yss.
Proof.
  intros Hy Hg Hn. pose proof (take_drop_middle _ _ _ Hy) as E. rewrite <- E in Hn at 3. rewrite !zlen_app, !zlen_cons in Hn.
  assert (gs = []) as -> by (apply zlen_0_nil; lia). cbn [concat] in Hg. rewrite app_nil_r in Hg. rewrite <- E at 3. rewrite !map_app. cbn [map app]. by rewrite Hg.
Qed.

Lemma nt_setAt_ok st nt xs i v : holds st nt xs -> small xs -> okv v -> 0 <= i < zlen xs ->
  exists nt', nt_setAt st nt i v = Ok nt' /\ holds st nt' (<[Z.to_nat i := v]> xs).
Proof.
  intros (chs & yss & H & -> & Hne & Hcnt & Hby & Hdir) Hsm Hv Hi.
  destruct (nt_locate_ok st nt chs yss i H Hne Hsm Hdir Hi) as (d & ci & ord & ys & E & Hd & Hci & Hy & Hord & Ek). unfold nt_setAt. rewrite E.
  assert (H' : core st (with_dir nt d) chs yss) by (by destruct H).
  destruct (promoteIfCold_ok st _ chs yss ci ys H' Hci Hy) as (nt1 & c & Ep & H1 & (b & sp & Hres & Esp) & Hc1 & Hb1 & Hd1 & _ & Hn1). rewrite Ep.
  assert (Hcil : 0 <= ci < zlen yss) by (split; [done|]; apply lookup_lt_Some in Hy; unfold zlen; lia).
  assert (Hcl : <[Z.to_nat ci := c]> chs !! Z.to_nat ci = Some c).
  { apply list_lookup_insert_eq. pose proof (core_n _ _ _ _ H) as [_ Hcn]. unfold zlen in *. lia. }
  rewrite (ring_at_view _ _ _ _ (co_ring _ _ _ _ H1) Hci Hcl).
  destruct (lookup_lt_is_Some_2 sp (Z.to_nat ord)) as [p Hp]; [subst ys; unfold zlen in *; rewrite length_map in Hord; lia|].
  rewrite (rs_dir_at c b sp ord p Hres (proj1 Hord) Hp), (rs_frameAt c b sp _ p Hres Hp).
  assert (Hyp : ys !! Z.to_nat ord = Some p.2) by (subst ys; change (map snd sp) with (snd <$> sp); by rewrite list_lookup_fmap, Hp).
  pose proof (concat_lookup yss _ ys _ p.2 Hy Hyp) as Hxi. pose proof (concat_insert yss _ ys (Z.to_nat ord) v Hy ltac:(unfold zlen in *; lia)) as Hins.
  replace (length (concat (take (Z.to_nat ci) yss)) + Z.to_nat ord)%nat with (Z.to_nat i) in Hxi, Hins by (unfold zlen in *; lia).
  pose proof (bsum_insert _ _ _ v Hxi) as Hbs. pose proof (zlen_insert' (concat yss) (Z.to_nat i) v) as Hzs. cbn [with_dir nt_count nt_bytes nt_dir] in *.
  destruct (Z.eqb_spec (zlen p.2) (zlen v)) as [Heq|Hneq].
  - cbv zeta. destruct (rs_overwrite c b sp _ p v Hres Hp Hv (eq_sym Heq)) as (Hat & Hres' & _). rewrite (rs_blob_of _ _ _ Hres), slice_ok by lia.
    fold (overwrite c (p.1 + uvarintLen (zlen v)) v). set (c' := overwrite c _ v) in *.
    assert (Hrep : res_rep c' (<[Z.to_nat ord := v]> ys)).
    { eexists _, _. split; [exact Hres'|]. rewrite Esp. change (map snd) with (fmap (M := list) (snd : Z * bytes -> bytes)). by rewrite list_fmap_insert. }
    destruct (core_set st nt1 _ yss ci c' (<[Z.to_nat ord := v]> ys) H1 Hcil (or_introl Hrep)) as (r & Er & H2 & _). rewrite Er. eexists. split; [done|].
    exists (<[Z.to_nat ci := c']> (<[Z.to_nat ci := c]> chs)), (<[Z.to_nat ci := <[Z.to_nat ord := v]> ys]> yss).
    assert (Hcc : <[Z.to_nat ci := <[Z.to_nat ord := v]> ys]> yss = take (Z.to_nat ci) yss ++ [<[Z.to_nat ord := v]> ys] ++ drop (S (Z.to_nat ci)) yss)
      by (by rewrite insert_take_drop by (by eapply lookup_lt_Some)).
    split_and!; [done| | | | |].
    + rewrite Hins, Hcc, concat_replace. cbn [concat]. by rewrite app_nil_r.
    + apply Forall_insert; [done|]. intros E0. apply (f_equal length) in E0. rewrite length_insert in E0. cbn in E0. unfold zlen in Hord. lia.
    + cbn [with_ring nt_count]. lia.
    + cbn [with_ring nt_bytes]. lia.
    + cbn [with_ring nt_dir]. rewrite Hd1. replace (map zlen (<[Z.to_nat ci := _]> yss)) with (map zlen yss); [done|].
      change (map zlen) with (fmap (M := list) (zlen (A := bytes))). rewrite list_fmap_insert, zlen_insert'. symmetry. apply list_insert_id. by rewrite list_lookup_fmap, Hy.
  - rewrite (live_frames_rs _ _ _ Hres), <- Esp. cbv zeta. set (vals := <[Z.to_nat ord := v]> ys).
    set (nt2 := tally nt1 0 (zlen v - zlen p.2)). assert (H2 : core st nt2 (<[Z.to_nat ci := c]> chs) yss) by (by destruct H1).
    assert (Hvok : Forall okv vals) by (apply Forall_insert; [subst ys; apply Hres|done]).
    assert (Hvne : vals <> []) by (intros E0; apply (f_equal length) in E0; unfold vals in E0; rewrite length_insert in E0; cbn in E0; unfold zlen in Hord; lia).
    destruct (spliceChunk_ok st nt2 _ yss ci c b sp vals H2 Hcil Hcl Hres Hvne Hvok) as (nt3 & chs' & g & gs & Es & H3 & Eg & Hgne & Hc3 & Hb3 & Hd3). rewrite Es.
    pose proof (core_n _ _ _ _ H3) as [Hn3 _]. pose proof (core_n _ _ _ _ H) as [Hn0 _]. cbn [nt2 tally nt_ring nt_count nt_bytes nt_dir] in *.
    assert (Hfin : forall nt4, core st nt4 chs' (take (Z.to_nat ci) yss ++ (g :: gs) ++ drop (S (Z.to_nat ci)) yss) -> nt_count nt4 = nt_count nt3 -> nt_bytes nt4 = nt_bytes nt3 ->
      dir_ok (nt_dir nt4) (map zlen (take (Z.to_nat ci) yss ++ (g :: gs) ++ drop (S (Z.to_nat ci)) yss)) -> holds st nt4 (<[Z.to_nat i := v]> (concat yss))).
    { intros nt4 H4 Hc4 Hb4 Hd4. eexists chs', _. split_and!; [exact H4| |by apply nonempty_replace|lia|lia|done]. by rewrite Hins, concat_replace, Eg. }
    eexists. split; [done|]. destruct (Z.eqb_spec (cr_n (nt_ring nt3)) (cr_n (nt_ring nt1))) as [En|].
    + apply Hfin; [done|done|done|]. rewrite Hd3, Hd1. rewrite (splice_same_n yss _ ys g gs Hy); [done| |].
      * rewrite Eg. apply zlen_insert'.
      * rewrite <- Hn3, En, Hn1. exact Hn0.
    + apply Hfin; [by destruct H3|done|done|by apply dir_ok_stale].
Qed.

(** ** LINSERT *)

Lemma index_of_shift pivot xs : forall i j, index_of pivot xs (i + j) = (fun k => (k + j)%nat) <$> index_of pivot xs i.
Proof.
  induction xs as [|x xs IH]; intros i j; cbn [index_of]; [done|]. destruct (bytes_eqb x pivot); [done|]. apply (IH (S i) j).
Qed.

Lemma index_of_app pivot a b : index_of pivot (a ++ b) 0 = match index_of pivot a 0 with Some j => Some j | None => (fun k => (length a + k)%nat) <$> index_of pivot b 0 end.
Proof.
  induction a as [|x a IH]; cbn [app index_of]; [by destruct (index_of pivot b 0)|]. destruct (bytes_eqb x pivot); [done|].
  change 1%nat with (0 + 1)%nat. rewrite !index_of_shift, IH. destruct (index_of pivot a 0); [done|]. destruct (index_of pivot b 0); [|done]. cbn. f_equal. lia.
Qed.

Lemma index_of_lt pivot xs j : index_of pivot xs 0 = Some j -> (j < length xs)%nat.
Proof.
  revert j. induction xs as [|x xs IH]; intros j; cbn [index_of length]; [done|]. destruct (bytes_eqb x pivot); [intros [= <-]; lia|].
  change 1%nat with (0 + 1)%nat. rewrite index_of_shift. destruct (index_of pivot xs 0) as [k|]; [|done]. cbn. intros [= <-]. specialize (IH k eq_refl). lia.
Qed.

Lemma find_loop_ok st nt chs yss pivot : core st nt chs yss -> forall k i, 0 <= i -> i + Z.of_nat k = zlen yss ->
  exists hit, find_loop st nt pivot i k = Ok hit
    /\ match hit with
       | None => index_of pivot (concat (drop (Z.to_nat i) yss)) 0 = None
       | Some (ci, ord) => exists ys, 0 <= ci /\ 0 <= ord < zlen ys /\ yss !! Z.to_nat ci = Some ys /\ (Z.to_nat i <= Z.to_nat ci)%nat
           /\ index_of pivot (concat (drop (Z.to_nat i) yss)) 0 = Some (length (concat (take (Z.to_nat ci - Z.to_nat i) (drop (Z.to_nat i) yss))) + Z.to_nat ord)%nat
       end.
Proof.
  intros H. induction k as [|k IH]; intros i Hi Hk; cbn [find_loop]. { exists None. rewrite drop_ge by (unfold zlen in *; lia). done. }
  destruct (lookup_lt_is_Some_2 yss (Z.to_nat i)) as [ys Hy]; [unfold zlen in *; lia|]. destruct (core_at _ _ _ _ _ _ H Hi Hy) as (c & _ & Ea & Hrep).
  rewrite Ea, (chunk_values_ok st nt c ys Hrep), (drop_S _ _ _ Hy). cbn [concat]. rewrite index_of_app. destruct (index_of pivot ys 0) as [j|] eqn:Ej.
  - exists (Some (i, Z.of_nat j)). split; [done|]. exists ys. pose proof (index_of_lt _ _ _ Ej). split_and!; try done; try (unfold zlen; lia).
    rewrite Nat.sub_diag. cbn. f_equal. lia.
  - destruct (IH (i + 1) ltac:(lia) ltac:(lia)) as (hit & E & Hh). exists hit. split; [done|]. replace (Z.to_nat (i + 1)) with (S (Z.to_nat i)) in Hh by lia.
    destruct hit as [[ci ord]|]; [|by rewrite Hh]. destruct Hh as (ys' & Hci & Hord & Hy' & Hle & Hix). exists ys'. split_and!; try done; try lia.
    rewrite Hix. cbn. replace (Z.to_nat ci - Z.to_nat i)%nat with (S (Z.to_nat ci - S (Z.to_nat i))) by lia. cbn [take concat]. rewrite length_app. f_equal. lia.
Qed.

Lemma nt_insert_ok st nt xs before pivot v : holds st nt xs -> okv v ->
  exists nt', nt_insert st nt before pivot v = Ok (nt', bool_decide (is_Some (insert_spec before pivot v xs)))
    /\ holds st nt' (default xs (insert_spec before pivot v xs)).
Proof.
  intros Hh Hv. pose proof Hh as (chs & yss & H & -> & Hne & Hcnt & Hby & Hdir). pose proof (core_n _ _ _ _ H) as [Hn Hcn].
  unfold nt_insert, findPivot, insert_spec. destruct (find_loop_ok st nt chs yss pivot H (Z.to_nat (cr_n (nt_ring nt))) 0) as (hit & E & Hhit); [lia|unfold zlen in *; lia|]. rewrite E.
  cbn [Z.to_nat] in Hhit. rewrite drop_0 in Hhit. destruct hit as [[ci ord]|]; [|rewrite Hhit; exists nt; by split].
  destruct Hhit as (ys & Hci & Hord & Hy & _ & Hix). rewrite Nat.sub_0_r in Hix. rewrite Hix. cbv zeta.
  destruct (promoteIfCold_ok st nt chs yss ci ys H Hci Hy) as (nt1 & c & Ep & H1 & (b & sp & Hres & Esp) & Hc1 & Hb1 & Hd1 & _ & Hn1). rewrite Ep.
  assert (Hcil : 0 <= ci < zlen yss) by (split; [done|]; apply lookup_lt_Some in Hy; unfold zlen; lia).
  assert (Hcl : <[Z.to_nat ci := c]> chs !! Z.to_nat ci = Some c) by (apply list_lookup_insert_eq; unfold zlen in *; lia).
  rewrite (ring_at_view _ _ _ _ (co_ring _ _ _ _ H1) Hci Hcl), (live_frames_rs _ _ _ Hres), <- Esp.
  set (at_ := if before then ord else ord + 1). set (vals := take (Z.to_nat at_) ys ++ v :: drop (Z.to_nat at_) ys).
  set (nt2 := tally nt1 1 (zlen v)). assert (H2 : core st nt2 (<[Z.to_nat ci := c]> chs) yss) by (by destruct H1).
  assert (Hyok : Forall okv ys) by (subst ys; apply Hres).
  assert (Hvok : Forall okv vals) by (apply Forall_app; split; [by apply Forall_take|]; apply Forall_cons; split; [done|by apply Forall_drop]).
  assert (Hvne : vals <> []) by (unfold vals; by destruct (take _ ys)).
  destruct (spliceChunk_ok st nt2 _ yss ci c b sp vals H2 Hcil Hcl Hres Hvne Hvok) as (nt3 & chs' & g & gs & Es & H3 & Eg & Hgne & Hc3 & Hb3 & Hd3). rewrite Es.
  rewrite bool_decide_true by eauto. eexists. split; [done|]. cbn [default nt2 tally nt_count nt_bytes] in *.
  set (pre := concat (take (Z.to_nat ci) yss)). set (k := if before then (length pre + Z.to_nat ord)%nat else S (length pre + Z.to_nat ord)).
  assert (Hk : k = (length pre + Z.to_nat at_)%nat) by (unfold k, at_; destruct before; lia). assert (Hal : (Z.to_nat at_ <= length ys)%nat) by (unfold at_, zlen in *; destruct before; lia).
  assert (Hel : take k (concat yss) ++ v :: drop k (concat yss) = concat (take (Z.to_nat ci) yss ++ (g :: gs) ++ drop (S (Z.to_nat ci)) yss)).
  { rewrite concat_replace, Eg, Hk. rewrite (concat_at _ _ _ Hy) at 1 2. fold pre. rewrite take_app_ge, drop_app_ge by lia.
    replace (length pre + Z.to_nat at_ - length pre)%nat with (Z.to_nat at_) by lia. rewrite take_app_le, drop_app_le by done. unfold vals. by rewrite <- !(assoc_L (++)). }
  cbn. rewrite Hel. eexists chs', _. split_and!; [by destruct H3|done|by apply nonempty_replace| | |by apply dir_ok_stale].
  - rewrite <- Hel, zlen_app, zlen_cons. cbn [stale with_dir nt_count]. unfold zlen in *. rewrite length_take, length_drop. rewrite Hc3, Hc1, Hcnt.
    rewrite (concat_at _ _ _ Hy), !length_app. fold pre. lia.
  - rewrite <- Hel, bsum_app. cbn [bsum foldr stale with_dir nt_bytes]. fold (bsum (drop k (concat yss))). rewrite Hb3, Hb1, Hby.
    rewrite <- (take_drop k (concat yss)) at 1. rewrite bsum_app. lia.
Qed.
