(* ===== verification/NativeSweeps.v ===== *)
(** Removal, trimming and demotion of the native deque (engine/f3/list/native.go and cold.go),
    on the list it holds, and the laws the inline band promotes under. *)

From S2P Require Import Prelude Format Frames Device Decimal Resp Ordered TierDirectory InlineList ChunkRing Fenwick ValueLog NativeList NativeRefines NativeOps.
#[local] Open Scope Z_scope.

#[local] Abbreviation P A := (res Empty_set A).

(** ** LREM *)

(** The first [k] matches of [v] removed, or all of them: what is kept and how many left. *)
Fixpoint rm (all : bool) (k : Z) (v : bytes) (xs : list bytes) : list bytes * Z :=
  match xs with
  | [] => ([], 0)
  | x :: xs' =>
      if (all || (0 <? k)) && bytes_eqb x v then let '(ys, n) := rm all (k - 1) v xs' in (ys, n + 1)
      else let '(ys, n) := rm all k v xs' in (x :: ys, n)
  end.

(** The same from the tail. *)
Definition rmd (backward all : bool) (k : Z) (v : bytes) (xs : list bytes) : list bytes * Z :=
  if backward then (rev (rm all k v (rev xs)).1, (rm all k v (rev xs)).2) else rm all k v xs.

Lemma rm_all v xs : forall k k', rm true k v xs = rm true k' v xs.
Proof.
  induction xs as [|x xs IH]; intros k k'; cbn [rm orb andb]; [done|]. destruct (bytes_eqb x v); [by rewrite (IH (k - 1) (k' - 1))|by rewrite (IH k k')].
Qed.

Lemma rm_none v xs : forall k, k <= 0 -> rm false k v xs = (xs, 0).
Proof. induction xs as [|x xs IH]; intros k Hk; cbn [rm orb]; [done|]. destruct (Z.ltb_spec 0 k); [lia|]. cbn [andb]. by rewrite IH. Qed.

Lemma rm_nonneg all v xs : forall k, 0 <= (rm all k v xs).2.
Proof.
  induction xs as [|x xs IH]; intros k; cbn [rm]; [done|]. destruct (_ && _).
  - specialize (IH (k - 1)). destruct (rm all (k - 1) v xs). cbn in *. lia.
  - specialize (IH k). by destruct (rm all k v xs).
Qed.

Lemma rm_le v xs : forall k, 0 <= k -> (rm false k v xs).2 <= k.
Proof.
  induction xs as [|x xs IH]; intros k Hk; cbn [rm orb]; [done|]. destruct (Z.ltb_spec 0 k); cbn [andb].
  - destruct (bytes_eqb x v).
    + specialize (IH (k - 1) ltac:(lia)). destruct (rm false (k - 1) v xs). cbn in *. lia.
    + specialize (IH k Hk). by destruct (rm false k v xs).
  - specialize (IH k Hk). by destruct (rm false k v xs).
Qed.

(** What is kept, counted and weighed. *)
Lemma rm_books all v xs : forall k, zlen (rm all k v xs).1 = zlen xs - (rm all k v xs).2 /\ bsum (rm all k v xs).1 = bsum xs - (rm all k v xs).2 * zlen v.
Proof.
  induction xs as [|x xs IH]; intros k; cbn [rm]; [done|]. destruct ((all || (0 <? k)) && bytes_eqb x v) eqn:E.
  - apply andb_true_iff in E as [_ ->%bytes_eqb_eq]. specialize (IH (k - 1)). destruct (rm all (k - 1) v xs) as [ys n]. cbn [fst snd bsum foldr] in *. fold (bsum xs) (bsum ys) in *. rewrite zlen_cons. lia.
  - specialize (IH k). destruct (rm all k v xs) as [ys n]. cbn [fst snd bsum foldr] in *. fold (bsum xs) (bsum ys) in *. rewrite !zlen_cons. lia.
Qed.

Lemma rm_id all k v xs : (rm all k v xs).2 = 0 -> (rm all k v xs).1 = xs.
Proof.
  revert k. induction xs as [|x xs IH]; intros k; cbn [rm]; [done|]. destruct (_ && _).
  - pose proof (rm_nonneg all v xs (k - 1)). destruct (rm all (k - 1) v xs). cbn in *. lia.
  - specialize (IH k). destruct (rm all k v xs). cbn in *. intros Hz. by rewrite IH.
Qed.

Lemma rm_sub all v xs (Q : bytes -> Prop) : forall k, Forall Q xs -> Forall Q (rm all k v xs).1.
Proof.
  induction xs as [|x xs IH]; intros k HQ; cbn [rm]; [done|]. apply Forall_cons in HQ as [Hx HQ]. destruct (_ && _).
  - specialize (IH (k - 1) HQ). by destruct (rm all (k - 1) v xs).
  - specialize (IH k HQ). destruct (rm all k v xs). by apply Forall_cons.
Qed.

Lemma rm_app all v a : forall k b, rm all k v (a ++ b)
  = ((rm all k v a).1 ++ (rm all (k - (rm all k v a).2) v b).1, (rm all k v a).2 + (rm all (k - (rm all k v a).2) v b).2).
Proof.
  induction a as [|x a IH]; intros k b; cbn [app rm]; [rewrite Z.sub_0_r; by destruct (rm all k v b)|]. destruct ((all || (0 <? k)) && bytes_eqb x v).
  - rewrite IH. destruct (rm all (k - 1) v a) as [ya na]. cbn [fst snd]. replace (k - 1 - na) with (k - (na + 1)) by lia. f_equal. lia.
  - rewrite IH. by destruct (rm all k v a) as [ya na].
Qed.

(** The marked victims of the inline rule are the removed ones. *)
Lemma mark_keep all limit v xs : forall r, keep_loop xs (mark_loop all limit v r xs).1 = (rm all (limit - r) v xs).1
  /\ (mark_loop all limit v r xs).2 = r + (rm all (limit - r) v xs).2 /\ length (mark_loop all limit v r xs).1 = length xs.
Proof.
  induction xs as [|x xs IH]; intros r; cbn [mark_loop rm keep_loop]; [cbn; split_and!; (done || lia)|].
  replace (0 <? limit - r) with (r <? limit) by (destruct (Z.ltb_spec r limit), (Z.ltb_spec 0 (limit - r)); lia). destruct ((all || (r <? limit)) && bytes_eqb x v).
  - specialize (IH (r + 1)). replace (limit - (r + 1)) with (limit - r - 1) in IH by lia. destruct (mark_loop all limit v (r + 1) xs), (rm all (limit - r - 1) v xs). cbn in *. destruct IH as (-> & -> & ->). split_and!; (done || lia).
  - specialize (IH r). destruct (mark_loop all limit v r xs), (rm all (limit - r) v xs). cbn in *. destruct IH as (-> & -> & ->). done.
Qed.

Lemma keep_loop_app a b fa fb : length fa = length a -> keep_loop (a ++ b) (fa ++ fb) = keep_loop a fa ++ keep_loop b fb.
Proof.
  revert fa. induction a as [|x a IH]; intros [|d fa] Hl; try done. cbn [app keep_loop]. cbn in Hl. rewrite IH by lia. by destruct d.
Qed.

Lemma keep_loop_rev xs : forall fl, length fl = length xs -> keep_loop xs (rev fl) = rev (keep_loop (rev xs) fl).
Proof.
  induction xs as [|x xs IH]; intros fl Hl; [by destruct fl|]. destruct (snoc_cases fl) as [->|(fl' & d & ->)]; [done|].
  rewrite length_app in Hl. cbn in Hl. rewrite rev_app_distr. cbn [rev app keep_loop]. rewrite keep_loop_app by (rewrite length_rev; lia).
  rewrite rev_app_distr, IH by lia. by destruct d.
Qed.

Lemma removeMatches_rmd xs cnt v : removeMatches xs cnt v = rmd (cnt <? 0) (cnt =? 0) (lrem_limit cnt) v xs.
Proof.
  unfold removeMatches, lrem_marks, rmd. cbv zeta. unfold lrem_limit. destruct (Z.leb_spec 0 cnt) as [Hge|Hlt], (Z.ltb_spec cnt 0); try lia.
  - destruct (mark_keep (cnt =? 0) cnt v xs 0) as (Hk & Hr & _). rewrite Z.sub_0_r in *. destruct (mark_loop (cnt =? 0) cnt v 0 xs) as [fl r]. cbn [fst snd] in *.
    pose proof (rm_id (cnt =? 0) cnt v xs). destruct (rm (cnt =? 0) cnt v xs) as [ys n]. cbn [fst snd] in *. subst r. destruct (Z.eqb_spec (0 + n) 0); [|by subst].
    assert (n = 0) as -> by lia. by rewrite H0.
  - destruct (Z.eqb_spec cnt 0); [lia|]. set (lim := int64_add 0 (- cnt)). destruct (mark_keep false lim v (rev xs) 0) as (Hk & Hr & Hl). rewrite Z.sub_0_r in *.
    destruct (mark_loop false lim v 0 (rev xs)) as [fl r]. cbn [fst snd] in *. rewrite length_rev in Hl. rewrite (keep_loop_rev xs fl Hl), Hk.
    pose proof (rm_id false lim v (rev xs)). destruct (rm false lim v (rev xs)) as [ys k]. cbn [fst snd] in *. subst r. destruct (Z.eqb_spec (0 + k) 0); [|done].
    assert (k = 0) as -> by lia. by rewrite H0, rev_involutive.
Qed.

(** The marks of a chunk's scan are the victims of its budget. *)
Lemma drop_marks_keep v lim xs : forall d, lim <= 0 \/ d < lim -> keep_loop xs (drop_marks v lim d xs).1 = (rm (lim <=? 0) (lim - d) v xs).1
  /\ (drop_marks v lim d xs).2 = d + (rm (lim <=? 0) (lim - d) v xs).2 /\ length (drop_marks v lim d xs).1 = length xs.
Proof.
  induction xs as [|x xs IH]; intros d Hd; cbn [drop_marks rm keep_loop]; [cbn; split_and!; (done || lia)|].
  assert (((lim <=? 0) || (0 <? lim - d)) = true) as -> by (destruct (Z.leb_spec lim 0), (Z.ltb_spec 0 (lim - d)); lia). cbn [andb]. destruct (bytes_eqb x v); cbn [negb].
  - destruct ((lim <=? 0) || (d + 1 <? lim)) eqn:Ego.
    + specialize (IH (d + 1)). replace (lim - (d + 1)) with (lim - d - 1) in IH by lia.
      destruct IH as (IH1 & IH2 & IH3); [apply orb_true_iff in Ego as [?%Z.leb_le|?%Z.ltb_lt]; lia|].
      destruct (drop_marks v lim (d + 1) xs), (rm (lim <=? 0) (lim - d - 1) v xs). cbn in *. split_and!; (done || lia).
    + apply orb_false_iff in Ego as [El%Z.leb_gt El2%Z.ltb_ge]. destruct (Z.leb_spec lim 0); [lia|]. rewrite (rm_none v xs) by lia. cbn [fst snd keep_loop length]. rewrite length_replicate.
      split_and!; [|lia|done]. clear. induction xs as [|x xs IH]; cbn; [done|]. by rewrite IH.
  - destruct (IH d Hd) as (IH1 & IH2 & IH3). destruct (drop_marks v lim d xs), (rm (lim <=? 0) (lim - d) v xs). cbn in *. split_and!; [by rewrite IH1|done|by rewrite IH3].
Qed.

Lemma chunk_marks_keep v backward lim xs : keep_loop xs (chunk_marks v backward lim xs).1 = (rmd backward (lim <=? 0) lim v xs).1
  /\ (chunk_marks v backward lim xs).2 = (rmd backward (lim <=? 0) lim v xs).2.
Proof.
  assert (Hd : lim <= 0 \/ 0 < lim) by lia. unfold chunk_marks, rmd. destruct backward.
  - destruct (drop_marks_keep v lim (rev xs) 0 Hd) as (H1 & H2 & H3). rewrite Z.sub_0_r in *. destruct (drop_marks v lim 0 (rev xs)) as [fl d]. cbn [fst snd] in *.
    rewrite length_rev in H3. rewrite keep_loop_rev by done. by rewrite H1, H2.
  - destruct (drop_marks_keep v lim xs 0 Hd) as (H1 & H2 & H3). rewrite Z.sub_0_r in *. by rewrite H1, H2.
Qed.

Lemma rmd_books backward all k v xs : zlen (rmd backward all k v xs).1 = zlen xs - (rmd backward all k v xs).2
  /\ bsum (rmd backward all k v xs).1 = bsum xs - (rmd backward all k v xs).2 * zlen v.
Proof.
  unfold rmd. destruct backward; [|apply rm_books]. destruct (rm_books all v (rev xs) k) as [H1 H2]. cbn [fst snd].
  assert (Hb : forall l, bsum (rev l) = bsum l) by (intros l; induction l as [|y l IH]; cbn [rev]; [done|]; rewrite bsum_app; cbn [bsum foldr]; fold (bsum l); lia).
  assert (Hz : forall l : list bytes, zlen (rev l) = zlen l) by (intros l; unfold zlen; by rewrite length_rev). rewrite Hb, Hz in *. done.
Qed.

Lemma rmd_id backward all k v xs : (rmd backward all k v xs).2 = 0 -> (rmd backward all k v xs).1 = xs.
Proof. unfold rmd. destruct backward; [|apply rm_id]. cbn [fst snd]. intros Hz. rewrite (rm_id _ _ _ _ Hz). apply rev_involutive. Qed.

Lemma rmd_nonneg backward all k v xs : 0 <= (rmd backward all k v xs).2.
Proof. unfold rmd. destruct backward; apply rm_nonneg. Qed.

Lemma rmd_sub backward all k v xs (Q : bytes -> Prop) : Forall Q xs -> Forall Q (rmd backward all k v xs).1.
Proof. intros HQ. unfold rmd. destruct backward; [|by apply rm_sub]. cbn [fst]. apply Forall_rev, rm_sub. by apply Forall_rev. Qed.

(** The scan of a cold payload: no match means nothing to remove. *)
Lemma match_loop_ok v ys : forall p off rest, packed p off (ys ++ rest) -> match_loop p off v (length ys) = Ok (existsb (fun y => bytes_eqb y v) ys).
Proof.
  induction ys as [|y ys IH]; intros p off rest Hp; [done|]. cbn [length match_loop app existsb] in *. rewrite (frame_at_packed _ _ _ _ Hp).
  destruct (packed_cons _ _ _ _ Hp) as (_ & _ & _ & _ & Hp'). destruct (bytes_eqb y v); [done|]. by rewrite (IH _ _ _ Hp').
Qed.

Lemma rm_nomatch all k v xs : existsb (fun y => bytes_eqb y v) xs = false -> rm all k v xs = (xs, 0).
Proof.
  revert k. induction xs as [|x xs IH]; intros k; cbn [existsb rm]; [done|]. intros [Hx Hxs]%orb_false_iff. rewrite Hx, andb_false_r. by rewrite IH.
Qed.

Lemma rmd_nomatch backward all k v xs : existsb (fun y => bytes_eqb y v) xs = false -> rmd backward all k v xs = (xs, 0).
Proof.
  intros He. unfold rmd. destruct backward; [|by apply rm_nomatch]. rewrite rm_nomatch; [cbn; by rewrite rev_involutive|].
  destruct (existsb _ (rev xs)) eqn:E; [|done]. apply existsb_exists in E as (y & Hy & Ey). apply in_rev in Hy. rewrite <- He. symmetry. apply existsb_exists. by exists y.
Qed.

Lemma coldHasMatch_ok st nt c ys v : cold_rep st (has_cold nt) c ys -> coldHasMatch st nt c v = Ok (existsb (fun y => bytes_eqb y v) ys).
Proof.
  intros Hc. unfold coldHasMatch. rewrite (payload_ok _ _ _ _ Hc). pose proof Hc as (_ & _ & Hlo & Hhi & _ & _ & Hok & _). unfold count. rewrite Hlo, Hhi, Z.sub_0_r.
  unfold zlen. rewrite Nat2Z.id. apply (match_loop_ok v ys _ _ []). rewrite app_nil_r. by apply frames_packed.
Qed.

(** What a chunk is replaced by: nothing once emptied. *)
Definition left_over (kept : list bytes) : list (list bytes) := if decide (kept = []) then [] else [kept].

Lemma left_over_ok kept : concat (left_over kept) = kept /\ Forall (fun ys => ys <> []) (left_over kept).
Proof. unfold left_over. destruct (decide (kept = [])) as [->|]; [done|]. cbn. rewrite app_nil_r. split; [done|by apply Forall_singleton]. Qed.

Lemma delete_take_drop {A} (l : list A) i : delete i l = take i l ++ drop (S i) l.
Proof. revert i. induction l as [|x l IH]; intros [|i]; cbn; try done. by rewrite IH. Qed.

Lemma keep_frames_le ys : forall fl, zlen (frames (keep_loop ys fl)) <= zlen (frames ys).
Proof.
  induction ys as [|y ys IH]; intros [|d fl]; cbn [keep_loop]; [done|done|apply zlen_nonneg|]. specialize (IH fl). pose proof (frame_pos y).
  destruct d; rewrite !zlen_frames_cons; lia.
Qed.

Lemma dropInChunk_ok st nt chs yss i ys v backward lim : core st nt chs yss -> 0 <= i -> yss !! Z.to_nat i = Some ys -> ys <> [] ->
  let '(kept, n) := rmd backward (lim <=? 0) lim v ys in
  exists nt' chs', dropInChunk st nt i v backward lim = Ok (nt', (n, bool_decide (kept = [])))
    /\ core st nt' chs' (take (Z.to_nat i) yss ++ left_over kept ++ drop (S (Z.to_nat i)) yss)
    /\ nt_count nt' = nt_count nt - n /\ nt_bytes nt' = nt_bytes nt - n * zlen v /\ nt_dir nt' = nt_dir nt.
Proof.
  intros H Hi Hy Hyne. destruct (rmd backward (lim <=? 0) lim v ys) as [kept n] eqn:Erm.
  pose proof (rmd_books backward (lim <=? 0) lim v ys) as [Hbz _]. pose proof (rmd_id backward (lim <=? 0) lim v ys) as Hid.
  pose proof (rmd_nonneg backward (lim <=? 0) lim v ys) as Hnn. rewrite Erm in Hbz, Hid, Hnn. cbn [fst snd] in *.
  assert (Hil : 0 <= i < zlen yss) by (split; [done|]; apply lookup_lt_Some in Hy; unfold zlen; lia).
  assert (Hsame : take (Z.to_nat i) yss ++ [ys] ++ drop (S (Z.to_nat i)) yss = yss) by (by apply take_drop_middle).
  assert (Hkeep : n = 0 -> left_over kept = [ys] /\ bool_decide (kept = []) = false).
  { intros Hz. rewrite (Hid Hz). unfold left_over. by rewrite decide_False, bool_decide_false by done. }
  destruct (core_at _ _ _ _ _ _ H Hi Hy) as (c & Hc & Ea & Hrep). unfold dropInChunk. rewrite Ea.
  (* the chunk made resident, or left cold without a match *)
  assert (Hpro : (exists nt1, (if cold c then let* hit := coldHasMatch st nt c v in if negb hit then Ok (nt, false) else let* nt := promote st nt i in Ok (nt, true) else Ok (nt, true))
        = (Ok (nt1, true) : P _) /\ exists c1, core st nt1 (<[Z.to_nat i := c1]> chs) yss /\ res_rep c1 ys /\ same_books nt nt1)
      \/ ((if cold c then let* hit := coldHasMatch st nt c v in if negb hit then Ok (nt, false) else let* nt := promote st nt i in Ok (nt, true) else Ok (nt, true))
        = (Ok (nt, false) : P _) /\ n = 0)).
  { destruct Hrep as [Hres|Hcold].
    - left. destruct Hres as (b & sp & Hres & Esp). rewrite (rs_cold _ _ _ Hres). exists nt. split; [done|]. exists c. rewrite list_insert_id by done.
      split_and!; try apply same_books_refl; [done|]. by exists b, sp.
    - rewrite (cold_rep_cold _ _ _ _ Hcold), (coldHasMatch_ok _ _ _ _ v Hcold). destruct (existsb _ ys) eqn:Ex; cbn [negb].
      + left. destruct (promote_ok st nt chs yss i c ys H Hi Hc Hy (cold_rep_cold _ _ _ _ Hcold)) as (nt1 & c1 & Ep & H1 & Hr1 & Hb1). rewrite Ep. exists nt1. split; [done|]. by exists c1.
      + right. split; [done|]. rewrite (rmd_nomatch _ _ _ _ _ Ex) in Erm. by injection Erm. }
  destruct Hpro as [(nt1 & E1 & c1 & H1 & (b & sp & Hres & Esp) & Hc1 & Hb1 & Hd1 & _ & Hn1)|[E1 Hz]]; rewrite E1; cbn [negb]; cycle 1.
  { destruct (Hkeep Hz) as [-> ->]. rewrite Hz. exists nt, chs. rewrite Hsame. split_and!; (done || lia). }
  assert (Hcl : <[Z.to_nat i := c1]> chs !! Z.to_nat i = Some c1) by (apply list_lookup_insert_eq; by eapply lookup_lt_Some).
  rewrite (ring_at_view _ _ _ _ (co_ring _ _ _ _ H1) Hi Hcl), (live_frames_rs _ _ _ Hres), <- Esp. cbv zeta.
  destruct (chunk_marks_keep v backward lim ys) as [Hk Hn]. rewrite Erm in Hk, Hn. destruct (chunk_marks v backward lim ys) as [drop d]. cbn [fst snd] in *. subst d.
  rewrite (rs_count _ _ _ Hres). assert (Hzs : zlen sp = zlen ys) by (subst ys; unfold zlen; by rewrite length_map). rewrite Hzs.
  destruct (Z.eqb_spec n 0) as [Hz|Hnz].
  { destruct (Hkeep Hz) as [-> ->]. rewrite Hz. eexists nt1, _. rewrite Hsame. split_and!; [done|exact H1|lia|lia|done]. }
  set (nt2 := tally nt1 (- n) (- (n * zlen v))). assert (H2 : core st nt2 (<[Z.to_nat i := c1]> chs) yss) by (by destruct H1).
  pose proof (core_n _ _ _ _ H2) as [_ Hcn]. destruct (Z.eqb_spec n (zlen ys)) as [He|Hne].
  - assert (kept = []) as Hkn by (apply zlen_0_nil; lia). rewrite bool_decide_true by done. unfold left_over. rewrite decide_True by done. cbn [app].
    destruct (core_recycle st nt2 _ _ c1 b sp H2 Hres) as (fr & Er & H3). rewrite Er. destruct H3 as [R3 F3 Fr3].
    destruct (removeAt_view _ _ i R3) as (r & Err & Rv); [lia|]. rewrite Err. eexists _, _. split; [done|].
    split; [split; [exact Rv| |done]|cbn [with_ring with_free nt2 tally nt_count nt_bytes nt_dir]; split_and!; (done || lia)].
    rewrite !delete_take_drop. apply Forall2_app; [by apply Forall2_take|by apply Forall2_drop].
  - assert (Hkne : kept <> []) by (intros ->; change (zlen []) with 0 in Hbz; lia). rewrite bool_decide_false by done. unfold left_over. rewrite decide_False by done.
    rewrite Hk. assert (Hok : Forall okv kept) by (pose proof (rmd_sub backward (lim <=? 0) lim v ys okv) as Hsub; rewrite Erm in Hsub; apply Hsub; subst ys; apply Hres).
    pose proof (rs_win _ _ _ Hres) as Hw. pose proof (rs_lo _ _ _ Hres). pose proof (rs_count _ _ _ Hres) as Hct. unfold count in Hct.
    assert (Hfl : zlen (frames kept) <= zlen b).
    { pose proof (rs_sum _ _ _ Hres) as Hs. pose proof (rs_used _ _ _ Hres). rewrite <- Esp in Hs. enough (zlen (frames kept) <= zlen (frames ys)) by lia.
      rewrite <- Hk. apply keep_frames_le. }
    destruct (rs_load c1 b kept (rs_blob _ _ _ Hres) (rs_dirlen _ _ _ Hres) (rs_cap _ _ _ Hres) Hok ltac:(lia) Hfl) as (c2 & b2 & El & Hr2 & _). rewrite El.
    assert (Hrep2 : res_rep c2 kept) by (exists b2, (laid 0 kept); by rewrite laid_snd).
    destruct (core_set st nt2 _ yss i c2 kept H2 Hil (or_introl Hrep2)) as (r & Err & H3 & _). cbn [nt2 tally nt_ring] in Err |- *. rewrite Err. eexists _, _. split; [done|].
    split; [|cbn [with_ring nt2 tally nt_count nt_bytes nt_dir]; split_and!; (done || lia)].
    rewrite (insert_take_drop yss _ kept) in H3 by (by eapply lookup_lt_Some). exact H3.
Qed.

(** The sweep's books: [n] matches of [v] left. *)
Definition removed_from (nt nt' : native) (n : Z) (v : bytes) : Prop :=
  nt_count nt' = nt_count nt - n /\ nt_bytes nt' = nt_bytes nt - n * zlen v /\ nt_dir nt' = nt_dir nt.

Lemma removed_none nt v : removed_from nt nt 0 v.
Proof. split_and!; (done || lia). Qed.

Lemma removed_trans nt1 nt2 nt3 n m v : removed_from nt1 nt2 n v -> removed_from nt2 nt3 m v -> removed_from nt1 nt3 (n + m) v.
Proof. intros (? & ? & ?) (? & ? & ?). split_and!; (lia || congruence). Qed.

Lemma left_over_same ys : ys <> [] -> left_over ys = [ys].
Proof. intros Hy. unfold left_over. by rewrite decide_False. Qed.

Lemma remove_bwd_ok st v k : forall nt chs yss removed remaining, core st nt chs yss -> Forall (fun ys => ys <> []) yss -> (k <= length yss)%nat -> 0 <= remaining ->
  let '(kept, n) := rmd true false remaining v (concat (take k yss)) in
  exists nt' chs' yss', remove_bwd st nt v removed remaining k = Ok (nt', removed + n) /\ core st nt' chs' (yss' ++ drop k yss)
    /\ concat yss' = kept /\ Forall (fun ys => ys <> []) yss' /\ removed_from nt nt' n v /\ (n = 0 -> yss' = take k yss).
Proof.
  induction k as [|k IH]; intros nt chs yss removed remaining H Hne Hk Hrem.
  { cbn. exists nt, chs, []. rewrite Z.add_0_r. split_and!; (done || apply removed_none). }
  cbn [remove_bwd]. destruct (Z.leb_spec remaining 0) as [Hz|Hpos].
  { unfold rmd. rewrite (rm_none v (rev (concat (take (S k) yss))) remaining Hz). cbn [fst snd]. rewrite rev_involutive. exists nt, chs, (take (S k) yss). rewrite take_drop, Z.add_0_r.
    split_and!; [done|done|done|by apply Forall_take|apply removed_none|done]. }
  destruct (lookup_lt_is_Some_2 yss k Hk) as [ys Hy]. pose proof (Forall_lookup_1 _ _ _ _ Hne Hy) as Hyne.
  pose proof (dropInChunk_ok st nt chs yss (Z.of_nat k) ys v true remaining H (Nat2Z.is_nonneg k)) as Hd. rewrite Nat2Z.id in Hd. specialize (Hd Hy Hyne).
  destruct (Z.leb_spec remaining 0); [lia|]. rewrite (take_S_r _ _ _ Hy), concat_app. cbn [concat]. rewrite app_nil_r.
  unfold rmd in Hd |- *. rewrite rev_app_distr, rm_app. pose proof (rm_le v (rev ys) remaining Hrem) as Hle. pose proof (rm_id false remaining v (rev ys)) as Hid.
  pose proof (rm_nonneg false v (rev ys) remaining) as Hn1'. destruct (rm false remaining v (rev ys)) as [yk n1]. cbn [fst snd] in *. destruct Hd as (nt1 & chs1 & E1 & H1 & Hc1 & Hb1 & Hd1). rewrite E1. destruct (left_over_ok (rev yk)) as [Hlc Hln]. set (mid := left_over (rev yk)) in *.
  assert (Hlt : length (take k yss) = k) by (rewrite length_take; lia).
  specialize (IH nt1 chs1 (take k yss ++ mid ++ drop (S k) yss) (removed + n1) (remaining - n1) H1).
  rewrite (take_app_length' (take k yss)), (drop_app_length' (take k yss)) in IH by done. unfold rmd in IH.
  destruct (rm false (remaining - n1) v (rev (concat (take k yss)))) as [yk2 n2] eqn:Erm2. cbn [fst snd] in *.
  destruct IH as (nt2 & chs2 & yss2 & E2 & H2 & Hc2 & Hn2 & Hbk & Hsame); [by apply nonempty_replace|rewrite length_app; lia|lia|]. rewrite E2.
  exists nt2, chs2, (yss2 ++ mid). rewrite <- (assoc_L (++)). split_and!; [do 2 f_equal; lia|done| | | |].
  - by rewrite concat_app, Hc2, Hlc, rev_app_distr.
  - apply Forall_app. by split.
  - eapply removed_trans; [|exact Hbk]. by split_and!.
  - intros Hz. pose proof (rm_nonneg false v (rev (concat (take k yss))) (remaining - n1)) as Hn2'. rewrite Erm2 in Hn2'. cbn in Hn2'.
    rewrite (Hsame ltac:(lia)). unfold mid. rewrite (Hid ltac:(lia)), rev_involutive, left_over_same; done.
Qed.

Lemma remove_fwd_ok st v all fuel : forall nt chs yss i removed remaining, core st nt chs yss -> Forall (fun ys => ys <> []) yss -> 0 <= i <= zlen yss -> 0 <= remaining ->
  (length yss - Z.to_nat i <= fuel)%nat ->
  let '(kept, n) := rm all remaining v (concat (drop (Z.to_nat i) yss)) in
  exists nt' chs' yss', remove_fwd st nt v all i removed remaining fuel = Ok (nt', removed + n) /\ core st nt' chs' (take (Z.to_nat i) yss ++ yss')
    /\ concat yss' = kept /\ Forall (fun ys => ys <> []) yss' /\ removed_from nt nt' n v /\ (n = 0 -> yss' = drop (Z.to_nat i) yss).
Proof.
  induction fuel as [|fuel IH]; intros nt chs yss i removed remaining H Hne Hi Hrem Hfuel; pose proof (core_n _ _ _ _ H) as [Hn _]; cbn [remove_fwd]; rewrite Hn.
  all: destruct (Z.leb_spec (zlen yss) i) as [Hend|Hmore];
    [rewrite drop_ge by (unfold zlen in *; lia); cbn; exists nt, chs, []; rewrite app_nil_r, take_ge, Z.add_0_r by (unfold zlen in *; lia);
     split_and!; (done || apply removed_none)|].
  { unfold zlen in *. lia. }
  destruct (negb all && (remaining =? 0)) eqn:Estop.
  { apply andb_true_iff in Estop as [->%negb_true_iff ->%Z.eqb_eq]. rewrite rm_none by lia. exists nt, chs, (drop (Z.to_nat i) yss). rewrite take_drop, Z.add_0_r.
    split_and!; [done|done|done|by apply Forall_drop|apply removed_none|done]. }
  assert (Hir : (Z.to_nat i < length yss)%nat) by (unfold zlen in *; lia). destruct (lookup_lt_is_Some_2 yss _ Hir) as [ys Hy]. pose proof (Forall_lookup_1 _ _ _ _ Hne Hy) as Hyne.
  set (lim := if all then 0 else remaining). assert (Hlim : (lim <=? 0) = all).
  { unfold lim. destruct all; [done|]. cbn [negb andb] in Estop. apply Z.eqb_neq in Estop. apply Z.leb_gt. lia. }
  pose proof (dropInChunk_ok st nt chs yss i ys v false lim H (proj1 Hi) Hy Hyne) as Hd. rewrite Hlim in Hd. unfold rmd in Hd.
  assert (Hrm : rm all lim v ys = rm all remaining v ys) by (unfold lim; destruct all; [apply rm_all|done]). rewrite Hrm in Hd.
  rewrite (drop_S _ _ _ Hy). cbn [concat]. rewrite rm_app. assert (Hle : all = false -> (rm all remaining v ys).2 <= remaining) by (intros ->; by apply rm_le).
  pose proof (rm_id all remaining v ys) as Hid. pose proof (rm_nonneg all v ys remaining) as Hn1'. destruct (rm all remaining v ys) as [kept n1]. cbn [fst snd] in *. destruct Hd as (nt1 & chs1 & E1 & H1 & Hc1 & Hb1 & Hd1). rewrite E1.
  destruct (left_over_ok kept) as [Hlc Hln]. assert (Hlt : length (take (Z.to_nat i) yss) = Z.to_nat i) by (rewrite length_take; lia).
  set (mid := left_over kept) in *. set (yss1 := take (Z.to_nat i) yss ++ mid ++ drop (S (Z.to_nat i)) yss) in *.
  set (i' := if bool_decide (kept = []) then i else i + 1). assert (Hi' : Z.to_nat i' = (Z.to_nat i + length mid)%nat).
  { unfold i', mid, left_over. destruct (decide (kept = [])); [rewrite bool_decide_true by done|rewrite bool_decide_false by done]; cbn [length]; lia. }
  assert (Hml : (length mid <= 1)%nat) by (unfold mid, left_over; destruct (decide (kept = [])); cbn [length]; lia).
  assert (Hl1 : length yss1 = (Z.to_nat i + length mid + (length yss - S (Z.to_nat i)))%nat) by (unfold yss1; rewrite !length_app, length_drop; lia).
  set (rem' := if all then remaining else remaining - n1). assert (Hrem' : 0 <= rem') by (unfold rem'; destruct all; [done|]; specialize (Hle eq_refl); lia).
  specialize (IH nt1 chs1 yss1 i' (removed + n1) rem' H1).
  assert (Htk : take (Z.to_nat i') yss1 = take (Z.to_nat i) yss ++ mid).
  { rewrite Hi'. unfold yss1. rewrite (assoc_L (++)). apply take_app_length'. rewrite length_app. lia. }
  assert (Hdr : drop (Z.to_nat i') yss1 = drop (S (Z.to_nat i)) yss).
  { rewrite Hi'. unfold yss1. rewrite (assoc_L (++)). apply drop_app_length'. rewrite length_app. lia. }
  assert (Hrm2 : rm all rem' v (concat (drop (S (Z.to_nat i)) yss)) = rm all (remaining - n1) v (concat (drop (S (Z.to_nat i)) yss))).
  { unfold rem'. destruct all; [apply rm_all|done]. }
  rewrite Htk, Hdr, Hrm2 in IH. pose proof (rm_nonneg all v (concat (drop (S (Z.to_nat i)) yss)) (remaining - n1)) as Hn2'.
  destruct (rm all (remaining - n1) v (concat (drop (S (Z.to_nat i)) yss))) as [kept2 n2]. cbn [fst snd] in *.
  destruct IH as (nt2 & chs2 & yss2 & E2 & H2 & Hc2 & Hn2 & Hbk & Hsame); [by apply nonempty_replace|unfold zlen in *; unfold i'; destruct (bool_decide _); lia|done|lia|].
  fold rem' i'. rewrite E2. exists nt2, chs2, (mid ++ yss2). rewrite (assoc_L (++)). split_and!; [do 2 f_equal; lia|done| | | |].
  - by rewrite concat_app, Hc2, Hlc.
  - apply Forall_app. by split.
  - eapply removed_trans; [|exact Hbk]. by split_and!.
  - intros Hz. rewrite (Hsame ltac:(lia)). unfold mid. rewrite (Hid ltac:(lia)), left_over_same by done. done.
Qed.

Lemma nt_remove_ok st nt xs cnt v : holds st nt xs -> - two63 <= cnt < two63 ->
  exists nt', nt_remove st nt cnt v = Ok (nt', (removeMatches xs cnt v).2) /\ holds st nt' (removeMatches xs cnt v).1.
Proof.
  intros (chs & yss & H & -> & Hne & Hcnt & Hby & Hdir) Hc. rewrite removeMatches_rmd. pose proof (core_n _ _ _ _ H) as [Hn _]. unfold nt_remove. cbv zeta. rewrite Hn.
  pose proof (rmd_books (cnt <? 0) (cnt =? 0) (lrem_limit cnt) v (concat yss)) as [Hbz Hbb]. pose proof (rmd_nonneg (cnt <? 0) (cnt =? 0) (lrem_limit cnt) v (concat yss)) as Hnn.
  pose proof (rmd_id (cnt <? 0) (cnt =? 0) (lrem_limit cnt) v (concat yss)) as Hid.
  (* the swept chunks *)
  assert (Hsweep : exists nt' chs' yss', (if cnt <? 0 then remove_bwd st nt v 0 (if cnt <? 0 then int64_add 0 (- cnt) else cnt) (Z.to_nat (zlen yss))
        else remove_fwd st nt v (cnt =? 0) 0 0 (if cnt <? 0 then int64_add 0 (- cnt) else cnt) (Z.to_nat (zlen yss)))
      = Ok (nt', (rmd (cnt <? 0) (cnt =? 0) (lrem_limit cnt) v (concat yss)).2) /\ core st nt' chs' yss'
      /\ concat yss' = (rmd (cnt <? 0) (cnt =? 0) (lrem_limit cnt) v (concat yss)).1 /\ Forall (fun ys => ys <> []) yss'
      /\ removed_from nt nt' (rmd (cnt <? 0) (cnt =? 0) (lrem_limit cnt) v (concat yss)).2 v
      /\ ((rmd (cnt <? 0) (cnt =? 0) (lrem_limit cnt) v (concat yss)).2 = 0 -> yss' = yss)).
  { unfold lrem_limit. destruct (Z.ltb_spec cnt 0) as [Hlt|Hge].
    - destruct (Z.eqb_spec cnt 0); [lia|]. set (lim := int64_add 0 (- cnt)). destruct (Z.le_gt_cases 0 lim) as [H0|H0].
      + pose proof (remove_bwd_ok st v (Z.to_nat (zlen yss)) nt chs yss 0 lim H Hne ltac:(unfold zlen; lia) H0) as Hr. rewrite take_ge, drop_ge in Hr by (unfold zlen; lia).
        destruct (rmd true false lim v (concat yss)) as [kept k]. cbn [fst snd]. destruct Hr as (nt' & chs' & yss' & E & H' & Hcc & Hn' & Hbk). rewrite app_nil_r in H'.
        exists nt', chs', yss'. by rewrite E.
      + unfold rmd. rewrite (rm_none v (rev (concat yss)) lim) by lia. cbn [fst snd]. rewrite rev_involutive. exists nt, chs, yss.
        assert (remove_bwd st nt v 0 lim (Z.to_nat (zlen yss)) = Ok (nt, 0)) as ->.
        { destruct (Z.to_nat (zlen yss)); [done|]. cbn [remove_bwd]. by destruct (Z.leb_spec lim 0); [|lia]. }
        split_and!; (done || apply removed_none).
    - pose proof (zlen_nonneg yss). pose proof (remove_fwd_ok st v (cnt =? 0) (Z.to_nat (zlen yss)) nt chs yss 0 0 cnt H Hne ltac:(lia) Hge ltac:(unfold zlen; lia)) as Hr.
      cbn [Z.to_nat] in Hr. rewrite drop_0 in Hr. unfold rmd. destruct (rm (cnt =? 0) cnt v (concat yss)) as [kept k]. cbn [fst snd].
      destruct Hr as (nt' & chs' & yss' & E & H' & Hcc & Hn' & Hbk). cbn [take app] in H'. exists nt', chs', yss'. by rewrite E. }
  destruct Hsweep as (nt' & chs' & yss' & E & H' & Hcc & Hn' & (Hbk1 & Hbk2 & Hbk3) & Hsame). rewrite E. set (kn := rmd _ _ _ _ _) in *. eexists. split; [done|].
  rewrite <- Hcc. destruct (Z.ltb_spec 0 kn.2) as [Hpos|Hz].
  - exists chs', yss'. split_and!; [by destruct H'|done|done| | |by apply dir_ok_stale]; cbn [stale with_dir nt_count nt_bytes]; rewrite Hcc; lia.
  - assert (Hk0 : kn.2 = 0) by lia. assert (Hcx : concat yss' = concat yss) by (rewrite Hcc; by apply Hid). exists chs', yss'. rewrite Hcx. split_and!; [done|done|done|lia| |].
    + rewrite Hbk2, Hk0. lia.
    + by rewrite Hbk3, (Hsame Hk0).
Qed.
