(* ===== verification/NativeTrim.v ===== *)
(** Trimming of the native deque (engine/f3/list/native.go, [trim] and [rebuild]), on the list it
    holds, and the deque's laws the inline band promotes under. *)

From S2P Require Import Prelude Format Frames Device Decimal Resp Ordered TierDirectory InlineList ChunkRing Fenwick ValueLog NativeList NativeRefines NativeOps NativeSweeps.
#[local] Open Scope Z_scope.

#[local] Abbreviation P A := (res Empty_set A).

(** ** The empty rebuild *)

Lemma recycle_rep st hc nt c ys : free_ok (nt_free nt) -> rep st hc c ys -> exists fr, recycle nt c = with_free nt fr /\ free_ok fr.
Proof.
  intros Hf [(b & sp & Hres & _)|(_ & Hb & _)]; [by eapply recycle_ok|]. exists (nt_free nt). split; [|done]. unfold recycle, budget, blob_of. rewrite Hb. by destruct nt.
Qed.

Lemma recycle_all_ok st nt chs yss : core st nt chs yss -> forall k i, 0 <= i -> i + Z.of_nat k = zlen yss ->
  exists fr, recycle_all nt i k = Ok (with_free nt fr) /\ free_ok fr.
Proof.
  intros H k. revert nt H. induction k as [|k IH]; intros nt H i Hi Hk; cbn [recycle_all]. { exists (nt_free nt). split; [by destruct nt|apply H]. }
  destruct (lookup_lt_is_Some_2 yss (Z.to_nat i)) as [ys Hy]; [unfold zlen in *; lia|]. destruct (core_at _ _ _ _ _ _ H Hi Hy) as (c & _ & -> & Hrep).
  destruct (recycle_rep _ _ _ _ _ (co_free _ _ _ _ H) Hrep) as (fr & -> & Hfr). destruct (IH (with_free nt fr) (core_free _ _ _ _ _ H Hfr) (i + 1)) as (fr' & -> & Hfr'); [lia|lia|].
  by exists fr'.
Qed.

Lemma rebuild_nil_ok st nt xs : holds st nt xs -> exists nt', rebuild nt [] = Ok nt' /\ holds st nt' [].
Proof.
  intros (chs & yss & H & _). pose proof (core_n _ _ _ _ H) as [Hn _]. unfold rebuild. destruct (recycle_all_ok st nt chs yss H (Z.to_nat (cr_n (nt_ring nt))) 0) as (fr & -> & Hfr);
    [lia|unfold zlen in *; lia|]. cbn [push_vals with_free nt_ring nt_free nt_dir nt_cold nt_coldN]. eexists. split; [done|]. exists [], [].
  destruct H as [(_ & Hl & Hh & _) _ _]. split_and!; try done. split; [|done|done]. split_and!; cbn [cr_buf cr_head cr_n]; [done|apply zlen_nonneg| |by intros ? ? _ ?].
  destruct Hh as [Hh|[_ Hh]]; [left|right; done]. cbn. lia.
Qed.

(** ** Whole chunks off an end *)

Lemma chunkLiveBytes_ok c b sp : resident c b sp -> chunkLiveBytes c = Ok (bsum (map snd sp)).
Proof.
  intros H. unfold chunkLiveBytes. rewrite (live_frames_rs _ _ _ H). f_equal. generalize (map snd sp). intros l.
  assert (Hg : forall n, foldl (fun t v => t + zlen v) n l = n + bsum l); [|by rewrite Hg].
  induction l as [|v l IH]; intros n; cbn [foldl bsum foldr]; [lia|]. rewrite IH. fold (bsum l). lia.
Qed.

Lemma trim_tail_ok st b : forall nt chs a, core st nt chs (a ++ b) ->
  exists nt' chs', trim_tail st nt (length b) = Ok nt' /\ core st nt' chs' a /\ nt_bytes nt' = nt_bytes nt - bsum (concat b).
Proof.
  induction b as [|ys b IH] using rev_ind; intros nt chs a H. { exists nt, chs. rewrite app_nil_r in H. split_and!; [done|done|cbn; lia]. }
  rewrite length_app, Nat.add_comm. cbn [length Nat.add trim_tail]. rewrite (assoc_L (++)) in H. pose proof (core_n _ _ _ _ H) as [Hn Hcn]. rewrite zlen_app in Hn, Hcn. change (zlen [ys]) with 1 in *.
  assert (Hix : cr_n (nt_ring nt) - 1 = zlen (a ++ b)) by lia. rewrite Hix.
  destruct (promoteIfCold_ok st nt chs _ (zlen (a ++ b)) ys H (zlen_nonneg _)) as (nt1 & c & -> & H1 & (bl & sp & Hres & Esp) & Hc1 & Hb1 & _); [by apply lookup_last|].
  destruct (core_snoc_inv _ _ _ _ _ H) as (chs0 & c0 & -> & _). rewrite zlen_app in Hcn. change (zlen [c0]) with 1 in Hcn. rewrite insert_last in H1 by (unfold zlen in *; lia).
  destruct (core_snoc_inv _ _ _ _ _ H1) as (? & ? & [<- <-]%app_inj_tail & -> & _). rewrite (chunkLiveBytes_ok _ _ _ Hres), <- Esp.
  assert (H2 : core st (tally nt1 0 (- bsum ys)) (chs0 ++ [c]) ((a ++ b) ++ [ys])) by (by destruct H1).
  destruct (core_recycle _ _ _ _ c bl sp H2 Hres) as (fr & -> & H3). destruct (core_popTail _ _ _ _ _ _ H3) as (r & -> & H4).
  destruct (IH _ _ _ H4) as (nt' & chs' & -> & H' & Hb'). exists nt', chs'. split_and!; [done|done|]. rewrite Hb', concat_app, bsum_app. cbn [with_ring with_free tally nt_bytes concat]. rewrite app_nil_r. lia.
Qed.

Lemma trim_head_ok st b : forall nt chs a, core st nt chs (b ++ a) ->
  exists nt' chs', trim_head st nt (length b) = Ok nt' /\ core st nt' chs' a /\ nt_bytes nt' = nt_bytes nt - bsum (concat b).
Proof.
  induction b as [|ys b IH]; intros nt chs a H. { exists nt, chs. split_and!; [done|done|cbn; lia]. }
  cbn [length trim_head app] in *. destruct (promoteIfCold_ok st nt chs _ 0 ys H (Z.le_refl 0) eq_refl) as (nt1 & c & -> & H1 & (bl & sp & Hres & Esp) & Hc1 & Hb1 & _).
  destruct (core_cons_inv _ _ _ _ _ H) as (chs0 & c0 & -> & _). cbn in H1. destruct (core_cons_inv _ _ _ _ _ H1) as (? & ? & [= <- <-] & -> & _).
  rewrite (chunkLiveBytes_ok _ _ _ Hres), <- Esp. assert (H2 : core st (tally nt1 0 (- bsum ys)) (c :: chs0) (ys :: b ++ a)) by (by destruct H1).
  destruct (core_recycle _ _ _ _ c bl sp H2 Hres) as (fr & -> & H3). destruct (core_popHead _ _ _ _ _ _ H3) as (r & -> & H4).
  destruct (IH _ _ _ H4) as (nt' & chs' & -> & H' & Hb'). exists nt', chs'. split_and!; [done|done|]. rewrite Hb'. cbn [with_ring with_free tally nt_bytes concat]. rewrite bsum_app. lia.
Qed.

(** ** The window cuts *)

Lemma shrink_lo_ok b sp1 : forall c sp2 n, resident c b (sp1 ++ sp2) ->
  exists c', shrink_lo c n (length sp1) = Ok (c', n - bsum (map snd sp1)) /\ resident c' b sp2.
Proof.
  induction sp1 as [|p sp1 IH]; intros c sp2 n H; cbn [length shrink_lo app] in *. { exists c. split; [do 2 f_equal; cbn; lia|done]. }
  pose proof (rs_dir_at c b (p :: sp1 ++ sp2) 0 p H (Z.le_refl 0) eq_refl) as Ed. rewrite Z.add_0_r in Ed. rewrite Ed, (rs_frameAt c b _ 0 p H eq_refl).
  destruct (IH _ sp2 (n - zlen p.2) (rs_cut_front _ _ _ _ H)) as (c' & -> & Hc'). exists c'. split; [|done]. do 2 f_equal. cbn [map bsum foldr]. fold (bsum (map snd sp1)). lia.
Qed.

Lemma shrink_hi_ok b sp2 : forall c sp1 n, resident c b (sp1 ++ sp2) ->
  exists c', shrink_hi c n (length sp2) = Ok (c', n - bsum (map snd sp2)) /\ resident c' b sp1.
Proof.
  induction sp2 as [|p sp2 IH] using rev_ind; intros c sp1 n H. { exists c. rewrite app_nil_r in H. split; [cbn; do 2 f_equal; lia|done]. }
  rewrite length_app, Nat.add_comm. cbn [length Nat.add shrink_hi]. rewrite (assoc_L (++)) in H. cbv zeta.
  pose proof (rs_count _ _ _ H) as Hct. rewrite zlen_app in Hct. change (zlen [p]) with 1 in Hct. unfold count in Hct.
  assert (Hl : ((sp1 ++ sp2) ++ [p]) !! Z.to_nat (zlen (sp1 ++ sp2)) = Some p) by (by apply lookup_last).
  pose proof (rs_dir_at c b _ _ p H (zlen_nonneg _) Hl) as Ed. replace (ch_lo c + zlen (sp1 ++ sp2)) with (ch_hi c - 1) in Ed by lia.
  rewrite Ed, (rs_frameAt c b _ _ p H Hl). destruct (IH _ sp1 (n - zlen p.2) (rs_cut_back _ _ _ _ H)) as (c' & -> & Hc'). exists c'. split; [|done].
  do 2 f_equal. rewrite map_app, bsum_app. cbn [map bsum foldr]. lia.
Qed.

(** A resident chunk cut at a position of its list. *)
Lemma res_split c b sp k : resident c b sp -> 0 <= k <= zlen sp -> exists sp1 sp2, sp = sp1 ++ sp2 /\ zlen sp1 = k /\ map snd sp1 = ztake k (map snd sp) /\ map snd sp2 = zdrop k (map snd sp).
Proof.
  intros _ Hk. exists (take (Z.to_nat k) sp), (drop (Z.to_nat k) sp). rewrite ztake_take, zdrop_drop, take_drop, firstn_map, skipn_map. split_and!; try done. unfold zlen in *. rewrite length_take. lia.
Qed.

Lemma trim_front_ok st nt chs ys yss sord : core st nt chs (ys :: yss) -> 0 <= sord <= zlen ys ->
  exists nt' chs', trim_front st nt sord = Ok nt' /\ core st nt' chs' (zdrop sord ys :: yss) /\ nt_bytes nt' = nt_bytes nt - bsum (ztake sord ys).
Proof.
  intros H Hs. unfold trim_front. destruct (promoteIfCold_ok st nt chs _ 0 ys H (Z.le_refl 0) eq_refl) as (nt1 & c & -> & H1 & (bl & sp & Hres & Esp) & Hc1 & Hb1 & _).
  destruct (core_cons_inv _ _ _ _ _ H) as (chs0 & c0 & -> & _). cbn in H1. destruct (core_cons_inv _ _ _ _ _ H1) as (? & ? & [= <- <-] & -> & _).
  assert (Hz : zlen sp = zlen ys) by (subst ys; unfold zlen; by rewrite length_map).
  destruct (res_split c bl sp sord Hres ltac:(lia)) as (sp1 & sp2 & -> & Hl & E1 & E2). rewrite <- Esp in E1, E2.
  destruct (shrink_lo_ok bl sp1 c sp2 (nt_bytes nt1) Hres) as (c' & Ec & Hc'). replace (Z.to_nat sord) with (length sp1) by (unfold zlen in Hl; lia). rewrite Ec, E1.
  destruct (core_set st nt1 _ _ 0 c' (map snd sp2) H1) as (r & -> & H2 & _); [rewrite zlen_cons; pose proof (zlen_nonneg yss); lia|left; by exists bl, sp2|].
  eexists _, _. split; [done|]. split; [|cbn [with_bytes with_ring nt_bytes]; lia]. rewrite E2 in H2. by destruct H2.
Qed.

Lemma trim_back_ok st nt chs yss ys eord : core st nt chs (yss ++ [ys]) -> 0 <= eord < zlen ys ->
  exists nt' chs', trim_back st nt eord = Ok nt' /\ core st nt' chs' (yss ++ [ztake (eord + 1) ys]) /\ nt_bytes nt' = nt_bytes nt - bsum (zdrop (eord + 1) ys).
Proof.
  intros H He. unfold trim_back. pose proof (core_n _ _ _ _ H) as [Hn Hcn]. rewrite zlen_app in Hn, Hcn. change (zlen [ys]) with 1 in *. assert (Hix : cr_n (nt_ring nt) - 1 = zlen yss) by lia. rewrite Hix.
  destruct (promoteIfCold_ok st nt chs _ (zlen yss) ys H (zlen_nonneg _)) as (nt1 & c & -> & H1 & (bl & sp & Hres & Esp) & Hc1 & Hb1 & _ & _ & Hn1); [by apply lookup_last|].
  destruct (core_snoc_inv _ _ _ _ _ H) as (chs0 & c0 & -> & _). rewrite zlen_app in Hcn. change (zlen [c0]) with 1 in Hcn. rewrite insert_last in H1 by (unfold zlen in *; lia).
  destruct (core_snoc_inv _ _ _ _ _ H1) as (? & ? & [<- <-]%app_inj_tail & -> & _). assert (Hz : zlen sp = zlen ys) by (subst ys; unfold zlen; by rewrite length_map).
  destruct (res_split c bl sp (eord + 1) Hres ltac:(lia)) as (sp1 & sp2 & -> & Hl & E1 & E2). rewrite <- Esp in E1, E2.
  destruct (shrink_hi_ok bl sp2 c sp1 (nt_bytes nt1) Hres) as (c' & Ec & Hc'). rewrite (rs_count _ _ _ Hres), zlen_app.
  replace (Z.to_nat (zlen sp1 + zlen sp2 - 1 - eord)) with (length sp2) by (unfold zlen in *; lia). rewrite Ec, E2, Hn1, Hix.
  destruct (core_set st nt1 _ _ (zlen yss) c' (map snd sp1) H1) as (r & -> & H2 & _); [rewrite zlen_app; change (zlen [ys]) with 1; pose proof (zlen_nonneg yss); lia|left; by exists bl, sp1|].
  eexists _, _. split; [done|]. split; [|cbn [with_bytes with_ring nt_bytes]; lia]. rewrite !insert_last, E1 in H2 by (unfold zlen in *; lia). by destruct H2.
Qed.

Lemma trim_same_ok st nt chs ys yss sord eord : core st nt chs (ys :: yss) -> 0 <= sord <= eord -> eord < zlen ys ->
  exists nt' chs', trim_same st nt sord eord = Ok nt' /\ core st nt' chs' (zdrop sord (ztake (eord + 1) ys) :: yss)
    /\ nt_bytes nt' = nt_bytes nt - bsum (zdrop (eord + 1) ys) - bsum (ztake sord (ztake (eord + 1) ys)).
Proof.
  intros H Hs He. unfold trim_same. destruct (promoteIfCold_ok st nt chs _ 0 ys H (Z.le_refl 0) eq_refl) as (nt1 & c & -> & H1 & (bl & sp & Hres & Esp) & Hc1 & Hb1 & _).
  destruct (core_cons_inv _ _ _ _ _ H) as (chs0 & c0 & -> & _). cbn in H1. destruct (core_cons_inv _ _ _ _ _ H1) as (? & ? & [= <- <-] & -> & _).
  assert (Hz : zlen sp = zlen ys) by (subst ys; unfold zlen; by rewrite length_map).
  destruct (res_split c bl sp (eord + 1) Hres ltac:(lia)) as (sp1 & sp2 & -> & Hl & E1 & E2). rewrite <- Esp in E1, E2.
  destruct (shrink_hi_ok bl sp2 c sp1 (nt_bytes nt1) Hres) as (c' & Ec & Hc'). rewrite (rs_count _ _ _ Hres), zlen_app.
  replace (Z.to_nat (zlen sp1 + zlen sp2 - 1 - eord)) with (length sp2) by (unfold zlen in *; lia). rewrite Ec, E2.
  destruct (res_split c' bl sp1 sord Hc' ltac:(lia)) as (sp3 & sp4 & -> & Hl3 & E3 & E4). rewrite E1 in E3, E4.
  destruct (shrink_lo_ok bl sp3 c' sp4 (nt_bytes nt1 - bsum (zdrop (eord + 1) ys)) Hc') as (c2 & Ec2 & Hc2). replace (Z.to_nat sord) with (length sp3) by (unfold zlen in Hl3; lia). rewrite Ec2, E3.
  destruct (core_set st nt1 _ _ 0 c2 (map snd sp4) H1) as (r & -> & H2 & _); [rewrite zlen_cons; pose proof (zlen_nonneg yss); lia|left; by exists bl, sp4|].
  eexists _, _. split; [done|]. split; [|cbn [with_bytes with_ring nt_bytes]; lia]. rewrite E4 in H2. by destruct H2.
Qed.

(** ** LTRIM *)

Lemma concat_take_mono (yss : list (list bytes)) i j : (i <= j)%nat -> zlen (concat (take i yss)) <= zlen (concat (take j yss)).
Proof.
  intros Hij. replace (take j yss) with (take i yss ++ take (j - i) (drop i yss)).
  - rewrite concat_app, zlen_app. pose proof (zlen_nonneg (concat (take (j - i) (drop i yss)))). lia.
  - rewrite take_drop_commute, <- (take_drop i (take j yss)), take_take, Nat.min_l by lia. by replace (i + (j - i))%nat with j by lia.
Qed.

Lemma concat_take_next (yss : list (list bytes)) i ys : yss !! i = Some ys -> zlen (concat (take (S i) yss)) = zlen (concat (take i yss)) + zlen ys.
Proof. intros Hy. rewrite (take_S_r _ _ _ Hy), concat_app, zlen_app. cbn [concat]. by rewrite app_nil_r. Qed.

Lemma bsum_cut xs k : bsum xs = bsum (ztake k xs) + bsum (zdrop k xs).
Proof. rewrite <- bsum_app. by rewrite ztake_zdrop. Qed.

(** A window of three lists laid end to end, cut inside the outer two. *)
Lemma sl_window {A} (pre mid post : list A) start n : start = zlen pre -> n = zlen mid -> sl (pre ++ mid ++ post) start n = mid.
Proof.
  intros -> ->. pose proof (zlen_nonneg pre). pose proof (zlen_nonneg mid). rewrite sl_app_r by lia. rewrite Z.sub_diag, sl_app_l by lia. by apply sl_all.
Qed.

(** What the window cuts leave of the chunks kept: a list of the window, with its bytes. *)
Definition cut_to (st : cold_region) (out : P native) (win : list bytes) : Prop :=
  exists nt chs kept, out = Ok nt /\ core st nt chs kept /\ Forall (fun ys => ys <> []) kept /\ concat kept = win /\ nt_bytes nt = bsum win.

Lemma zlen_nonnil {A} (l : list A) : 0 < zlen l -> l <> [].
Proof. by intros Hl ->. Qed.

Lemma cut_same_ok st nt chs pre s post sord eord : core st nt chs [s] -> nt_bytes nt = bsum s -> 0 <= sord <= eord -> eord < zlen s ->
  cut_to st (trim_same st nt sord eord) (sl (pre ++ s ++ post) (zlen pre + sord) (eord + 1 - sord)).
Proof.
  intros H Hb Hs He. destruct (trim_same_ok st nt chs s [] sord eord H Hs He) as (nt' & chs' & E & H' & Hb').
  assert (Hz : zlen (zdrop sord (ztake (eord + 1) s)) = eord + 1 - sord) by (rewrite zlen_zdrop, zlen_ztake; lia).
  assert (Hw : sl (pre ++ s ++ post) (zlen pre + sord) (eord + 1 - sord) = zdrop sord (ztake (eord + 1) s)).
  { rewrite <- (ztake_zdrop (eord + 1) s) at 1. rewrite <- (ztake_zdrop sord (ztake (eord + 1) s)) at 1. rewrite <- !(assoc_L (++)), (assoc_L (++) pre).
    apply sl_window; [|lia]. rewrite zlen_app, !zlen_ztake; lia. }
  exists nt', chs', [zdrop sord (ztake (eord + 1) s)]. rewrite Hw. cbn [concat]. rewrite app_nil_r. split_and!; [done|done| |done|].
  - apply Forall_singleton, zlen_nonnil. lia.
  - rewrite Hb', Hb, (bsum_cut s (eord + 1)), (bsum_cut (ztake (eord + 1) s) sord). lia.
Qed.

Lemma cut_ends_ok st nt chs pre s m e post sord eord : core st nt chs (s :: m ++ [e]) -> nt_bytes nt = bsum (s ++ concat m ++ e) -> Forall (fun ys => ys <> []) m ->
  0 <= sord < zlen s -> 0 <= eord < zlen e ->
  cut_to st (let* nt := trim_front st nt sord in trim_back st nt eord) (sl (pre ++ (s ++ concat m ++ e) ++ post) (zlen pre + sord) (zlen s - sord + zlen (concat m) + eord + 1)).
Proof.
  intros H Hb Hm Hs He. destruct (trim_front_ok st nt chs s (m ++ [e]) sord H) as (nt1 & chs1 & -> & H1 & Hb1); [lia|].
  change (zdrop sord s :: m ++ [e]) with ((zdrop sord s :: m) ++ [e]) in H1. destruct (trim_back_ok st nt1 chs1 _ e eord H1 He) as (nt2 & chs2 & -> & H2 & Hb2).
  assert (Hz : zlen (zdrop sord s) = zlen s - sord) by (rewrite zlen_zdrop; lia). assert (Hz2 : zlen (ztake (eord + 1) e) = eord + 1) by (rewrite zlen_ztake; lia).
  assert (Hw : sl (pre ++ (s ++ concat m ++ e) ++ post) (zlen pre + sord) (zlen s - sord + zlen (concat m) + eord + 1) = zdrop sord s ++ concat m ++ ztake (eord + 1) e).
  { rewrite <- (ztake_zdrop sord s) at 1. rewrite <- (ztake_zdrop (eord + 1) e) at 1.
    transitivity (sl ((pre ++ ztake sord s) ++ (zdrop sord s ++ concat m ++ ztake (eord + 1) e) ++ (zdrop (eord + 1) e ++ post)) (zlen pre + sord) (zlen s - sord + zlen (concat m) + eord + 1));
      [by rewrite <- !(assoc_L (++))|]. apply sl_window; [rewrite zlen_app, zlen_ztake; lia|rewrite !zlen_app; lia]. }
  exists nt2, chs2, ((zdrop sord s :: m) ++ [ztake (eord + 1) e]). rewrite Hw, concat_app. cbn [concat]. rewrite app_nil_r, <- (assoc_L (++)). split_and!; [done|done| |done|].
  - apply Forall_app. split; [apply Forall_cons; split; [|done]|apply Forall_singleton]; apply zlen_nonnil; lia.
  - rewrite Hb2, Hb1, Hb, !bsum_app, (bsum_cut s sord), (bsum_cut e (eord + 1)). lia.
Qed.

(** The chunks from [i] to [j] of a list of chunks. *)
Lemma chunk_window {A} (yss : list A) i j s e : yss !! i = Some s -> yss !! j = Some e -> (i < j)%nat ->
  take j yss = take i yss ++ s :: drop (S i) (take j yss) /\ drop i (take (S j) yss) = s :: drop (S i) (take j yss) ++ [e].
Proof.
  intros Hs He Hij. pose proof (lookup_lt_Some _ _ _ He). assert (Ht : take j yss !! i = Some s) by (rewrite lookup_take_lt; [done|lia]). split.
  - rewrite <- (take_drop i (take j yss)) at 1. rewrite take_take, Nat.min_l by lia. f_equal. by apply drop_S.
  - rewrite (take_S_r _ _ _ He), drop_app_le by (rewrite length_take; lia). by rewrite (drop_S _ s).
Qed.

Lemma nt_trim_ok st nt xs start stop : holds st nt xs -> small xs -> (start <= stop -> 0 <= start /\ stop < zlen xs) ->
  exists nt', nt_trim st nt start stop = Ok nt' /\ holds st nt' (sl xs start (stop + 1 - start)).
Proof.
  intros Hh Hsm Hr. unfold nt_trim. destruct (Z.ltb_spec stop start) as [Hlt|Hle].
  { destruct (rebuild_nil_ok _ _ _ Hh) as (nt' & -> & H'). exists nt'. split; [done|]. unfold sl. by rewrite ztake_nonpos by lia. }
  specialize (Hr Hle). destruct Hh as (chs & yss & H & -> & Hne & Hcnt & Hby & Hdir).
  destruct (nt_locate_ok st nt chs yss start H Hne Hsm Hdir ltac:(lia)) as (d & sci & sord & s & -> & Hd & Hsci & Hs & Hso & Es).
  assert (H0 : core st (with_dir nt d) chs yss) by (by destruct H).
  destruct (nt_locate_ok st (with_dir nt d) chs yss stop H0 Hne Hsm Hd ltac:(lia)) as (d2 & eci & eord & e & -> & Hd2 & Heci & He & Heo & Ee).
  assert (H1 : core st (with_dir (with_dir nt d) d2) chs yss) by (by destruct H). set (nt1 := with_dir (with_dir nt d) d2) in *. pose proof (core_n _ _ _ _ H1) as [Hn1 _]. rewrite Hn1.
  assert (Hord : sci <= eci).
  { destruct (Z.le_gt_cases sci eci) as [|Hgt]; [done|]. pose proof (concat_take_mono yss (S (Z.to_nat eci)) (Z.to_nat sci) ltac:(lia)) as Hm. rewrite (concat_take_next _ _ _ He) in Hm. lia. }
  (* the chunks past the stop, then those before the start *)
  pose proof (lookup_lt_Some _ _ _ He) as Hel. set (b := drop (S (Z.to_nat eci)) yss). set (a := take (Z.to_nat sci) yss).
  assert (H1' : core st nt1 chs (take (S (Z.to_nat eci)) yss ++ b)) by (unfold b; by rewrite take_drop).
  destruct (trim_tail_ok st b nt1 chs _ H1') as (nt2 & chs2 & E2 & H2 & Hb2). replace (Z.to_nat (zlen yss - 1 - eci)) with (length b) by (unfold b, zlen; rewrite length_drop; lia). rewrite E2.
  set (mid := drop (Z.to_nat sci) (take (S (Z.to_nat eci)) yss)). assert (Hsplit : take (S (Z.to_nat eci)) yss = a ++ mid).
  { unfold a, mid. rewrite <- (take_drop (Z.to_nat sci) (take (S (Z.to_nat eci)) yss)) at 1. by rewrite take_take, Nat.min_l by lia. }
  rewrite Hsplit in H2. destruct (trim_head_ok st a nt2 chs2 _ H2) as (nt3 & chs3 & E3 & H3 & Hb3).
  assert (Hal : length a = Z.to_nat sci) by (unfold a; rewrite length_take; lia). rewrite Hal in E3. rewrite E3.
  assert (Hyss : concat yss = concat a ++ concat mid ++ concat b) by (rewrite <- !concat_app, (assoc_L (++)), <- Hsplit; unfold b; by rewrite take_drop).
  assert (Hby3 : nt_bytes nt3 = bsum (concat mid)) by (rewrite Hb3, Hb2; change (nt_bytes nt1) with (nt_bytes nt); rewrite Hby, Hyss, !bsum_app; lia).
  assert (Hcuts : cut_to st (if sci =? eci then trim_same st nt3 sord eord else let* nt0 := trim_front st nt3 sord in trim_back st nt0 eord) (sl (concat yss) start (stop + 1 - start))).
  { rewrite Hyss. fold a in Es. destruct (Z.eqb_spec sci eci) as [<-|Hsne].
    - assert (e = s) as -> by (rewrite Hs in He; by injection He). assert (Hmid : mid = [s]).
      { unfold mid. rewrite (take_S_r _ _ _ Hs). by rewrite (drop_app_length' (take (Z.to_nat sci) yss)) by done. }
      rewrite Hmid in *. cbn [concat] in *. rewrite app_nil_r in *. fold a in Ee. pose proof (cut_same_ok st nt3 chs3 (concat a) s (concat b) sord eord H3 Hby3 ltac:(lia) ltac:(lia)) as Hc.
      by replace (zlen (concat a) + sord) with start in Hc by lia; replace (eord + 1 - sord) with (stop + 1 - start) in Hc by lia.
    - destruct (chunk_window yss (Z.to_nat sci) (Z.to_nat eci) s e Hs He ltac:(lia)) as [Hpre Hmid]. fold mid in Hmid. fold a in Hpre. rewrite Hpre, concat_app, zlen_app in Ee. set (m := drop _ _) in Hpre, Hmid, Ee.
      cbn [concat] in Ee. rewrite zlen_app in Ee. rewrite Hmid in *. cbn [concat] in *. rewrite concat_app in *. cbn [concat] in *. rewrite app_nil_r in *.
      pose proof (cut_ends_ok st nt3 chs3 (concat a) s m e (concat b) sord eord H3 Hby3 ltac:(unfold m; by apply Forall_drop, Forall_take) ltac:(lia) ltac:(lia)) as Hc.
      by replace (zlen (concat a) + sord) with start in Hc by lia; replace (zlen s - sord + zlen (concat m) + eord + 1) with (stop + 1 - start) in Hc by lia. }
  destruct Hcuts as (nt4 & chs4 & kept & -> & H4 & Hn4 & Hc4 & Hb4). eexists. split; [done|]. exists chs4, kept. split_and!; [by destruct H4|done|done| |done|by apply dir_ok_stale].
  cbn [stale with_dir nt_count]. rewrite zlen_sl by lia. lia.
Qed.

(** ** The laws the inline band promotes under *)

Lemma new_native_holds st : holds st new_native [].
Proof. exists [], []. split_and!; try done. split; [apply empty_ring_view|by apply Forall2_nil|by apply Forall_nil]. Qed.

#[export] Instance native_laws (st : cold_region) : @DequeLaws native (native_deque st) okv (holds st) := {
  dq_ok_fits := okv_fits;
  dq_ok_count := fun d xs '(ex_intro _ _ (ex_intro _ _ (conj _ (conj _ (conj _ (conj Hc _)))))) => Hc;
  dq_ok_new := new_native_holds st;
  dq_ok_pushBack := nt_pushBack_ok st;
  dq_ok_pushFront := nt_pushFront_ok st;
  dq_ok_popFront := nt_popFront_ok st;
  dq_ok_popBack := nt_popBack_ok st;
  dq_ok_at := nt_at_ok st;
  dq_ok_rangeInto := nt_rangeInto_ok st;
  dq_ok_setAt := nt_setAt_ok st;
  dq_ok_insert := nt_insert_ok st;
  dq_ok_remove := nt_remove_ok st;
  dq_ok_trim := nt_trim_ok st;
  dq_ok_lpos := nt_lpos_ok st;
  dq_ok_each := nt_each_ok st
}.
