(* ===== verification/NativeDemote.v ===== *)
(** Demotion of the native deque (engine/f3/list/cold.go, [demote] and [hasResidentInterior]):
    interior chunks move to the region, whatever its writes do, and every list keeps its elements. *)

From S2P Require Import Prelude Format Frames Device Decimal Resp Ordered TierDirectory InlineList ChunkRing Fenwick ValueLog NativeList NativeRefines NativeOps NativeSweeps.
#[local] Open Scope Z_scope.

#[local] Abbreviation P A := (res Empty_set A).

(** A later state of the region: every chunk of it is still there. *)
Definition region_le (st st' : cold_region) : Prop := forall o k n d p, chunk_at st o k n d p -> chunk_at st' o k n d p.

#[export] Instance region_le_preorder : PreOrder region_le.
Proof. split; [by intros st o k n d p|]. intros s1 s2 s3 H12 H23 o k n d p H. by apply H23, H12. Qed.

Lemma rep_mono st st' hc hc' c ys : region_le st st' -> (hc = true -> hc' = true) -> rep st hc c ys -> rep st' hc' c ys.
Proof.
  intros Hle Hhc [Hr|(H1 & H2 & H3 & H4 & H5 & H6 & H7 & H8 & disc & H9)]; [by left|]. right. split_and!; [by apply Hhc|done|done|done|done|done|done|done|].
  exists disc. by apply Hle.
Qed.

Lemma holds_mono st st' nt xs : region_le st st' -> holds st nt xs -> holds st' nt xs.
Proof.
  intros Hle (chs & yss & [H1 H2 H3] & H). exists chs, yss. split; [|done]. split; [done| |done]. eapply Forall2_impl; [exact H2|]. intros c ys. by apply rep_mono.
Qed.

Lemma rep_sizes st hc c ys : rep st hc c ys -> zlen ys <= chunkElemCap /\ zlen (frames ys) <= 65536 /\ 0 <= ch_bytesUsed c.
Proof.
  intros [(b & sp & H & ->)|(_ & _ & _ & _ & H5 & H6 & _ & H8 & _)]; [|done]. pose proof (rs_count _ _ _ H) as Hc. pose proof H as []. unfold count in Hc.
  pose proof (zlen_nonneg (frames (map snd sp))). assert (zlen (map snd sp) = zlen sp) by (unfold zlen; by rewrite length_map). lia.
Qed.

Lemma packFrames_eq vs : packFrames vs = frames vs.
Proof.
  unfold packFrames. assert (Hg : forall p, foldl (fun p v => (p ++ PutUvarint (zlen v)) ++ v) p vs = p ++ frames vs); [|by rewrite Hg].
  induction vs as [|v vs IH]; intros p; cbn [foldl]; [by rewrite app_nil_r|]. rewrite IH, frames_cons. unfold frame. by rewrite <- !(assoc_L (++)).
Qed.

(** A run the pass placed: the chunk at its index, stored whole. *)
Abbreviation run := (Z * Z * bytes * Z)%type.
Definition run_ok (st : cold_region) (yss : list (list bytes)) (r : run) : Prop :=
  let '(ci, off, disc, cnt) := r in
  exists ys, 0 <= ci /\ yss !! Z.to_nat ci = Some ys /\ cnt = zlen ys /\ chunk_at st off kindList cnt disc (frames ys).

Lemma run_ok_mono st st' yss r : region_le st st' -> run_ok st yss r -> run_ok st' yss r.
Proof. destruct r as [[[ci off] disc] cnt]. intros Hle (ys & H1 & H2 & H3 & H4). exists ys. split_and!; try done. by apply Hle. Qed.

(** The bytes one demoted chunk may take. *)
Definition run_room (key : bytes) : Z := chunkHdr + zlen key + 8 + 65536.

(** One chunk written out. *)
Lemma append_run_ok w st st0 hc nt chs yss key i c ys disc : core st0 nt chs yss -> region_wf st -> zlen key < 65536 -> region_tail st + run_room key < two63 ->
  zlen disc = 8 -> 0 <= i -> yss !! Z.to_nat i = Some ys -> rep st0 hc c ys ->
  let '(st', off) := AppendChunk w st kindList 0 (count c mod 65536) key disc (packFrames ys) in
  region_wf st' /\ region_le st st' /\ region_tail st' <= region_tail st + run_room key /\ (forall o, off = Some o -> run_ok st' yss (i, o, disc, count c)).
Proof.
  intros H Hwf Hk Hroom Hd Hi Hy Hrep. destruct (rep_sizes _ _ _ _ Hrep) as (Hn & Hf & _). pose proof (rep_count _ _ _ _ Hrep) as Hc. pose proof (zlen_nonneg ys).
  unfold run_room, chunkElemCap, chunkHdr in *. pose proof (zlen_nonneg key). pose proof (zlen_nonneg (frames ys)). rewrite packFrames_eq, Hc, Z.mod_small by lia.
  pose proof (AppendChunk_ok w st kindList 0 (zlen ys) key disc (frames ys) Hwf ltac:(by unfold kindList)) as Ha. unfold chunkHdr in *.
  destruct (AppendChunk w st kindList 0 (zlen ys) key disc (frames ys)) as [st' off].
  destruct Ha as (Hwf' & Hat & Hkeep & Htail); [unfold chunk_fits, kindList, is_u8, is_u16, chunkHdr; split_and!; lia|lia|].
  split_and!; [done|done|lia|]. intros o ->. exists ys. split_and!; try done. by apply Hat.
Qed.

Lemma demote_loop_ok w st0 nt chs yss seq key : core st0 nt chs yss -> zlen key < 65536 -> forall k i st runs, 0 <= i -> i + Z.of_nat k <= zlen yss ->
  region_wf st -> region_le st0 st -> zlen runs <= demoteQuantum -> region_tail st + (demoteQuantum - zlen runs) * run_room key < two63 -> Forall (run_ok st yss) runs ->
  exists st' out, demote_loop w st nt seq key i runs k = Ok (st', out) /\ region_wf st' /\ region_le st st'
    /\ region_tail st' <= region_tail st + (demoteQuantum - zlen runs) * run_room key
    /\ match out with None => True | Some runs' => zlen runs' <= demoteQuantum /\ Forall (run_ok st' yss) runs' end.
Proof.
  intros H Hk. assert (0 <= run_room key) by (unfold run_room, chunkHdr; pose proof (zlen_nonneg key); lia).
  induction k as [|k IH]; intros i st runs Hi Hik Hwf Hle Hq Hroom Hruns; cbn [demote_loop]. { exists st, (Some runs). split_and!; (done || nia). }
  destruct (Z.leb_spec demoteQuantum (zlen runs)) as [Hfull|Hmore]. { exists st, (Some runs). split_and!; (done || nia). }
  destruct (lookup_lt_is_Some_2 yss (Z.to_nat i)) as [ys Hy]; [unfold zlen in *; lia|]. destruct (core_at _ _ _ _ _ _ H Hi Hy) as (c & Hc & -> & Hrep).
  destruct (cold c) eqn:Ec; [apply IH; (done || lia)|]. destruct (core_resident _ _ _ _ _ _ _ H Hc Hy Ec) as (b & sp & Hres & ->). rewrite (live_frames_rs _ _ _ Hres). cbv zeta.
  set (disc := rev _).
  assert (Hdz : zlen disc = 8) by (unfold disc, zlen; by rewrite length_rev, length_le_enc).
  pose proof (append_run_ok (w i) st st0 _ nt chs yss key i c _ disc H Hwf Hk ltac:(nia) Hdz Hi Hy Hrep) as Ha. destruct (AppendChunk _ st _ _ _ _ _ _) as [st1 off].
  destruct Ha as (Hwf1 & Hle1 & Ht1 & Hr1). assert (Hruns1 : Forall (run_ok st1 yss) runs) by (eapply Forall_impl; [exact Hruns|]; intros r; by apply run_ok_mono).
  destruct off as [o|]; [|exists st1, None; split_and!; (done || nia)]. specialize (Hr1 o eq_refl). assert (Hz1 : zlen (runs ++ [(i, o, disc, count c)]) = zlen runs + 1) by (by rewrite zlen_app).
  destruct (IH (i + 1) st1 (runs ++ [(i, o, disc, count c)])) as (st' & out & E & Hwf' & Hle' & Htl & Hout); [lia|lia|done|by etransitivity|lia|rewrite Hz1; nia| |].
  - apply Forall_app. split; [done|by apply Forall_singleton].
  - exists st', out. rewrite Hz1 in Htl. split_and!; [done|done|by etransitivity|nia|done].
Qed.

(** The commit flips each placed chunk to its cold form. *)
Lemma demote_commit_ok st yss runs : forall nt chs lc, core st nt chs yss -> has_cold nt = true -> Forall (run_ok st yss) runs ->
  exists nt' chs' lc', demote_commit nt lc runs = Ok (nt', lc') /\ core st nt' chs' yss /\ same_books nt nt'.
Proof.
  induction runs as [|[[[ci off] disc] cnt] runs IH]; intros nt chs lc H Hhc Hr; cbn [demote_commit]. { exists nt, chs, lc. split_and!; (done || apply same_books_refl). }
  apply Forall_cons in Hr as [(ys & Hci & Hy & -> & Hat) Hr]. destruct (core_at _ _ _ _ _ _ H Hci Hy) as (c & Hc & -> & Hrep). destruct (rep_sizes _ _ _ _ Hrep) as (Hn & Hf & Hu).
  assert (Hil : 0 <= ci < zlen yss) by (split; [done|]; apply lookup_lt_Some in Hy; unfold zlen; lia).
  assert (Hcold : rep st (has_cold nt) (mkChunk None [] 0 (zlen ys) (ch_bytesUsed c) off) ys).
  { right. split_and!; try done; [by eapply rep_ok|by exists disc]. }
  destruct (core_set st nt chs yss ci _ ys H Hil Hcold) as (r & -> & H1 & Hr1). rewrite (list_insert_id yss) in H1 by done. cbv zeta. set (nt1 := mkNative r _ _ _ _ _ _). set (lc1 := mkListCold _ _).
  destruct (IH nt1 (<[Z.to_nat ci := mkChunk None [] 0 (zlen ys) (ch_bytesUsed c) off]> chs) lc1) as (nt' & chs' & lc' & -> & H' & B1 & B2 & B3 & B4 & B5); [by destruct H1|done|done|].
  exists nt', chs', lc'. split_and!; try done. split_and!; try done; by etransitivity.
Qed.

(** Demotion keeps the list, and every list of the region, whatever the region's writes do. *)
Lemma demote_ok w st nt xs key : holds st nt xs -> region_wf st -> zlen key < 65536 -> region_tail st + demoteQuantum * run_room key < two63 ->
  exists st' nt' n, demote w st nt key = Ok (st', nt', n) /\ holds st' nt' xs /\ region_wf st' /\ region_le st st' /\ 0 <= n <= demoteQuantum
    /\ region_tail st' <= region_tail st + demoteQuantum * run_room key.
Proof.
  intros Hh Hwf Hk Hroom. assert (Hrr : 0 <= run_room key) by (unfold run_room, chunkHdr; pose proof (zlen_nonneg key); lia). pose proof Hh as (chs & yss & H & Hxs & Hne & Hcnt & Hby & Hdir). pose proof (core_n _ _ _ _ H) as [Hn _]. unfold demote.
  destruct (Z.leb_spec (cr_n (nt_ring nt)) (2 * demoteMargin)) as [Hsmall|Hbig]. { exists st, nt, 0. split_and!; (done || unfold demoteQuantum; lia). }
  unfold demoteMargin in *. cbv zeta. set (lc := default _ _). set (nt1 := mkNative _ _ _ _ _ _ _).
  assert (H1 : core st nt1 chs yss).
  { destruct H as [C1 C2 C3]. split; [done| |done]. eapply Forall2_impl; [exact C2|]. intros c ys. apply rep_mono; [reflexivity|done]. }
  assert (Hh1 : forall st', region_le st st' -> holds st' nt1 xs) by (intros st' Hle; apply (holds_mono st); [done|]; by exists chs, yss).
  change (nt_ring nt1) with (nt_ring nt).
  destruct (demote_loop_ok w st nt1 chs yss (lc_seq lc) key H1 Hk (Z.to_nat (cr_n (nt_ring nt) - 2 * 1)) 1 st []) as (st' & out & -> & Hwf' & Hle' & Htl & Hout);
    [lia|lia|done|reflexivity|done|change (zlen []) with 0; lia|done|].
  rewrite Z.sub_0_r in Htl. destruct out as [runs|]; [|exists st', nt1, 0; split_and!; (done || auto || unfold demoteQuantum; lia)]. destruct Hout as [Hq Hruns]. pose proof (zlen_nonneg runs).
  destruct (Z.eqb_spec (zlen runs) 0); [exists st', nt1, 0; split_and!; (done || auto || unfold demoteQuantum; lia)|].
  assert (H2 : core st' nt1 chs yss).
  { destruct H1 as [C1 C2 C3]. split; [done| |done]. eapply Forall2_impl; [exact C2|]. intros c ys. by apply rep_mono. }
  destruct (demote_commit_ok st' yss runs nt1 chs lc H2 eq_refl Hruns) as (nt2 & chs2 & lc2 & -> & H3 & B1 & B2 & B3 & B4 & B5).
  eexists st', _, _. split; [done|]. split_and!; try done. exists chs2, yss. rewrite Hxs in *. split_and!; cbn [nt_count nt_bytes nt_dir]; try done.
  - destruct H3 as [C1 C2 C3]. split; [done| |done]. eapply Forall2_impl; [exact C2|]. intros c ys. apply rep_mono; [reflexivity|done].
  - by rewrite B1.
  - by rewrite B2.
  - by rewrite B3.
Qed.

(** ** The interior's residency *)

Lemma resident_loop_ok st nt chs yss : core st nt chs yss -> forall k i, 0 <= i -> i + Z.of_nat k <= zlen yss ->
  resident_loop nt i k = Ok (existsb (fun c => negb (cold c)) (take k (drop (Z.to_nat i) chs))).
Proof.
  intros H. pose proof (core_n _ _ _ _ H) as [_ Hn]. induction k as [|k IH]; intros i Hi Hk; cbn [resident_loop take]; [done|].
  destruct (lookup_lt_is_Some_2 chs (Z.to_nat i)) as [c Hc]; [unfold zlen in *; lia|]. rewrite (ring_at_view _ _ _ _ (co_ring _ _ _ _ H) Hi Hc), (drop_S _ _ _ Hc).
  cbn [existsb take]. destruct (negb (cold c)); [done|]. rewrite IH by lia. by replace (Z.to_nat (i + 1)) with (S (Z.to_nat i)) by lia.
Qed.

(** A region that has not failed, whose writes go through. *)
Definition healthy (st : cold_region) : Prop := exists l, st = Some l /\ vl_werr l = false.

Lemma AppendChunk_healthy st kind flags n key disc payload : healthy st ->
  let '(st', off) := AppendChunk None st kind flags n key disc payload in healthy st' /\ is_Some off.
Proof.
  intros (l & -> & Hw). unfold AppendChunk. rewrite Hw. cbv zeta. unfold vlog_append. rewrite Hw. cbv zeta. destruct (_ <=? _); [|split; [by eexists|done]].
  unfold vlog_flush. cbn [vl_werr]. rewrite ?Hw. destruct (_ =? 0); cbn [fst]; (split; [by eexists|done]).
Qed.

Definition residents (cs : list chunk) : Z := zlen (filter (fun c => cold c = false) cs).

Lemma residents_cons c cs : residents (c :: cs) = residents cs + if cold c then 0 else 1.
Proof. unfold residents. rewrite filter_cons. destruct (cold c); [rewrite decide_False by done; lia|]. rewrite decide_True by done. rewrite zlen_cons. lia. Qed.

Lemma residents_nonneg cs : 0 <= residents cs.
Proof. apply zlen_nonneg. Qed.

Lemma residents_exists cs : existsb (fun c => negb (cold c)) cs = (0 <? residents cs).
Proof.
  induction cs as [|c cs IH]; [done|]. cbn [existsb]. rewrite IH, residents_cons. pose proof (residents_nonneg cs). destruct (cold c); cbn [negb orb].
  - by rewrite Z.add_0_r.
  - symmetry. apply Z.ltb_lt. lia.
Qed.

Lemma demote_loop_healthy st0 nt chs yss seq key : core st0 nt chs yss -> forall k i st runs, 0 <= i -> i + Z.of_nat k <= zlen yss -> healthy st -> zlen runs <= demoteQuantum ->
  exists st' runs', demote_loop (fun _ => None) st nt seq key i runs k = Ok (st', Some runs') /\ zlen runs' = Z.min demoteQuantum (zlen runs + residents (take k (drop (Z.to_nat i) chs))).
Proof.
  intros H. pose proof (core_n _ _ _ _ H) as [_ Hn]. induction k as [|k IH]; intros i st runs Hi Hk Hh Hq; cbn [demote_loop]. { exists st, runs. split; [done|]. rewrite take_0. change (residents []) with 0. lia. }
  destruct (lookup_lt_is_Some_2 yss (Z.to_nat i)) as [ys Hy]; [unfold zlen in *; lia|]. destruct (core_at _ _ _ _ _ _ H Hi Hy) as (c & Hc & Ea & Hrep).
  rewrite (drop_S _ _ _ Hc), firstn_cons, residents_cons. set (cs := take k _). pose proof (residents_nonneg cs).
  destruct (Z.leb_spec demoteQuantum (zlen runs)) as [Hfull|Hmore]. { exists st, runs. split; [done|]. destruct (cold c); lia. }
  rewrite Ea. assert (Hcs : cs = take k (drop (Z.to_nat (i + 1)) chs)) by (unfold cs; by replace (Z.to_nat (i + 1)) with (S (Z.to_nat i)) by lia). destruct (cold c) eqn:Ec.
  - rewrite Z.add_0_r, Hcs. apply IH; (done || lia).
  - destruct (core_resident _ _ _ _ _ _ _ H Hc Hy Ec) as (b & sp & Hres & ->). rewrite (live_frames_rs _ _ _ Hres). cbv zeta. set (disc := rev _).
    pose proof (AppendChunk_healthy st kindList 0 (count c mod 65536) key disc (packFrames (map snd sp)) Hh) as Ha. destruct (AppendChunk _ st _ _ _ _ _ _) as [st1 off].
    destruct Ha as [Hh1 [o ->]]. destruct (IH (i + 1) st1 (runs ++ [(i, o, disc, count c)])) as (st' & runs' & E & Hz); [lia|lia|done|rewrite zlen_app; change (zlen [_]) with 1; lia|].
    exists st', runs'. split; [done|]. rewrite Hz, zlen_app, Hcs. change (zlen [_]) with 1. f_equal. lia.
Qed.

(** The interior's resident chunks. *)
Definition interior (chs : list chunk) : list chunk := take (length chs - 2) (drop 1 chs).

Lemma hasResidentInterior_ok st nt chs yss : core st nt chs yss -> hasResidentInterior nt = Ok (0 <? residents (interior chs)).
Proof.
  intros H. pose proof (core_n _ _ _ _ H) as [Hn Hcn]. unfold hasResidentInterior, demoteMargin. rewrite Hn. destruct (Z.le_gt_cases (zlen yss) 2).
  - replace (Z.to_nat (zlen yss - 2 * 1)) with 0%nat by lia. cbn [resident_loop]. unfold interior. by replace (length chs - 2)%nat with 0%nat by (unfold zlen in *; lia).
  - rewrite (resident_loop_ok st nt chs yss H) by lia. rewrite residents_exists. unfold interior. by replace (Z.to_nat (zlen yss - 2 * 1)) with (length chs - 2)%nat by (unfold zlen in *; lia).
Qed.

Lemma demote_healthy st nt chs yss key : core st nt chs yss -> Forall (fun ys => ys <> []) yss -> healthy st -> region_wf st -> zlen key < 65536 ->
  region_tail st + demoteQuantum * run_room key < two63 ->
  exists st' nt', demote (fun _ => None) st nt key = Ok (st', nt', Z.min demoteQuantum (residents (interior chs))).
Proof.
  intros H Hne Hh Hwf Hk Hroom. pose proof (core_n _ _ _ _ H) as [Hn Hcn]. unfold demote, interior. pose proof (residents_nonneg (take (length chs - 2) (drop 1 chs))) as Hrn.
  destruct (Z.leb_spec (cr_n (nt_ring nt)) (2 * demoteMargin)) as [Hsmall|Hbig].
  { exists st, nt. unfold demoteMargin in *. by replace (length chs - 2)%nat with 0%nat by (unfold zlen in *; lia). }
  unfold demoteMargin in *. cbv zeta. set (lc := default _ _). set (nt1 := mkNative _ _ _ _ _ _ _).
  assert (H1 : core st nt1 chs yss).
  { destruct H as [C1 C2 C3]. split; [done| |done]. eapply Forall2_impl; [exact C2|]. intros c ys. apply rep_mono; [reflexivity|done]. }
  change (nt_ring nt1) with (nt_ring nt). replace (Z.to_nat (cr_n (nt_ring nt) - 2 * 1)) with (length chs - 2)%nat by (unfold zlen in *; lia).
  destruct (demote_loop_ok (fun _ => None) st nt1 chs yss (lc_seq lc) key H1 Hk (length chs - 2) 1 st []) as (st' & out & E & Hwf' & Hle' & Htl & Hout);
    [lia|unfold zlen in *; lia|done|reflexivity|done|change (zlen []) with 0; lia|done|].
  destruct (demote_loop_healthy st nt1 chs yss (lc_seq lc) key H1 (length chs - 2) 1 st []) as (st2 & runs & E2 & Hz); [lia|unfold zlen in *; lia|done|done|].
  rewrite E in E2. injection E2 as -> ->. rewrite E. change (zlen []) with 0 in Hz. rewrite Z.add_0_l in Hz. change (Z.to_nat 1) with 1%nat in Hz. rewrite <- Hz.
  destruct (Z.eqb_spec (zlen runs) 0) as [->|]; [by eexists _, _|]. destruct Hout as [_ Hruns]. assert (H2 : core st2 nt1 chs yss).
  { destruct H1 as [C1 C2 C3]. split; [done| |done]. eapply Forall2_impl; [exact C2|]. intros c ys. by apply rep_mono. }
  destruct (demote_commit_ok st2 yss runs nt1 chs lc H2 eq_refl Hruns) as (nt2 & chs2 & lc2 & -> & _). by eexists _, _.
Qed.
