(* ===== verification/ListMeaning.v ===== *)
(** What the interior list commands mean, apart from any representation: LREM, LPOS and the
    index ranges as plain functions of a sequence, and that the rules the code runs
    (engine/f3/list/ops.go, [removeMatches], [lposScan], [clampRange], [normIndex]) compute them. *)

From S2P Require Import Prelude Format Frames Device Decimal Resp Ordered TierDirectory InlineList ChunkRing Fenwick ValueLog NativeList NativeRefines NativeOps NativeSweeps.
#[local] Open Scope Z_scope.

(** ** LREM *)

(** The sequence without its first [n] occurrences of [v]. *)
Fixpoint remove_first (n : Z) (v : bytes) (xs : list bytes) : list bytes :=
  match xs with
  | [] => []
  | x :: xs' =>
      if n <=? 0 then xs
      else if bool_decide (x = v) then remove_first (n - 1) v xs' else x :: remove_first n v xs'
  end.

(** All occurrences for 0, the first [count] for a positive count, the last [-count] for a
    negative one; the least integer, whose negation is not an int, takes nothing. *)
Definition lrem_spec (xs : list bytes) (count : Z) (v : bytes) : list bytes * Z :=
  let ys := if count =? 0 then filter (fun x => x <> v) xs
            else if 0 <? count then remove_first count v xs
            else if count =? - two63 then xs
            else rev (remove_first (- count) v (rev xs)) in
  (ys, zlen xs - zlen ys).

Lemma rm_first v xs : forall n, (rm false n v xs).1 = remove_first n v xs.
Proof.
  induction xs as [|x xs IH]; intros n; cbn [rm remove_first orb]; [done|].
  destruct (Z.leb_spec n 0) as [Hn|Hn].
  - destruct (Z.ltb_spec 0 n); [lia|]. cbn [andb]. specialize (IH n).
    destruct (rm false n v xs) as [ys k]. cbn [fst] in *. subst ys. f_equal. destruct xs; cbn [remove_first]; [done|].
    by destruct (Z.leb_spec n 0); [|lia].
  - destruct (Z.ltb_spec 0 n); [|lia]. cbn [andb]. destruct (bytes_eqb x v) eqn:E.
    + apply bytes_eqb_eq in E as ->. rewrite bool_decide_eq_true_2 by done. rewrite <- IH. by destruct (rm false (n - 1) v xs).
    + rewrite bool_decide_eq_false_2 by (intros ->; by rewrite (proj2 (bytes_eqb_eq v v)) in E).
      rewrite <- IH. by destruct (rm false n v xs).
Qed.

Lemma rm_filter v xs : forall n, (rm true n v xs).1 = filter (fun x => x <> v) xs.
Proof.
  induction xs as [|x xs IH]; intros n; cbn [rm orb andb]; [done|]. rewrite filter_cons. destruct (bytes_eqb x v) eqn:E.
  - apply bytes_eqb_eq in E as ->. rewrite decide_False by auto. rewrite <- (IH (n - 1)). by destruct (rm true (n - 1) v xs).
  - rewrite decide_True by (intros ->; by rewrite (proj2 (bytes_eqb_eq v v)) in E). rewrite <- (IH n). by destruct (rm true n v xs).
Qed.

Lemma lrem_limit_neg count : - two63 < count < 0 -> lrem_limit count = - count.
Proof. intros Hc. unfold lrem_limit. destruct (Z.ltb_spec count 0); [|lia]. apply int64_add_small. lia. Qed.

Lemma removeMatches_spec xs count v : - two63 <= count < two63 -> removeMatches xs count v = lrem_spec xs count v.
Proof.
  intros Hc. rewrite removeMatches_rmd. unfold rmd, lrem_spec. cbv zeta.
  destruct (Z.eqb_spec count 0) as [->|H0].
  { cbn [Z.ltb Z.compare]. pose proof (rm_books true v xs (lrem_limit 0)) as [Hz _]. rewrite <- (rm_filter v xs (lrem_limit 0)).
    destruct (rm true (lrem_limit 0) v xs) as [ys n]. cbn [fst snd] in *. f_equal. lia. }
  destruct (Z.ltb_spec 0 count) as [Hp|Hp].
  { destruct (Z.ltb_spec count 0); [lia|]. unfold lrem_limit. destruct (Z.ltb_spec count 0); [lia|].
    pose proof (rm_books false v xs count) as [Hz _]. rewrite <- rm_first. destruct (rm false count v xs) as [ys n]. cbn [fst snd] in *. f_equal. lia. }
  destruct (Z.ltb_spec count 0); [|lia].
  destruct (Z.eqb_spec count (- two63)) as [->|Hm].
  - pose proof (rm_first v (rev xs) (lrem_limit (- two63))) as Hf. pose proof (rm_books false v (rev xs) (lrem_limit (- two63))) as [Hz _].
    assert (remove_first (lrem_limit (- two63)) v (rev xs) = rev xs) as E by (by destruct (rev xs)).
    destruct (rm false (lrem_limit (- two63)) v (rev xs)) as [ys n]. cbn [fst snd] in *. subst ys. rewrite E, rev_involutive in *.
    f_equal. lia.
  - rewrite lrem_limit_neg by lia. pose proof (rm_books false v (rev xs) (- count)) as [Hz _]. rewrite <- rm_first.
    destruct (rm false (- count) v (rev xs)) as [ys n]. cbn [fst snd] in *. f_equal. unfold zlen in *. rewrite !length_rev in *. lia.
Qed.

(** ** LPOS *)

(** The positions of the matches, from the head for a positive rank and from the tail otherwise,
    among the first [maxlen] elements that way (all for 0), from the [|rank|]-th match on, at most
    [limit] of them (all for 0). *)
Definition lpos_spec (xs : list bytes) (target : bytes) (rank limit maxlen : Z) : list Z :=
  let items := zip (seqZ 0 (zlen xs)) xs in
  let items := if 0 <? rank then items else rev items in
  let seen := if 0 <? maxlen then ztake maxlen items else items in
  let hits := (filter (fun p => p.2 = target) seen).*1 in
  let hits := zdrop (Z.abs rank - 1) hits in
  if 0 <? limit then ztake limit hits else hits.

(** The compared-elements budget is a prefix. *)
Lemma lpos_walk_cut target limit maxlen items : 0 < maxlen -> forall skip compared out,
  (lpos_walk target limit maxlen (skip, compared, out) items).2.2
  = (lpos_walk target limit 0 (skip, compared, out) (ztake (maxlen - compared) items)).2.2.
Proof.
  intros Hm. induction items as [|[i val] items IH]; intros skip compared out; cbn [lpos_walk ztake]; [done|].
  unfold lpos_stop at 1. destruct (Z.ltb_spec 0 maxlen); [|lia]. cbn [andb].
  destruct (Z.leb_spec maxlen compared), (Z.leb_spec (maxlen - compared) 0); try lia; [done|]. cbn [lpos_walk].
  unfold lpos_stop. cbn [Z.ltb Z.compare andb].
  assert (Hstep : forall skip out, (lpos_walk target limit maxlen (skip, compared + 1, out) items).2.2
    = (lpos_walk target limit 0 (skip, compared + 1, out) (ztake (maxlen - compared - 1) items)).2.2).
  { intros. rewrite IH. by replace (maxlen - (compared + 1)) with (maxlen - compared - 1) by lia. }
  unfold lpos_visit. destruct (negb _); [apply Hstep|]. destruct (0 <? skip); [apply Hstep|].
  destruct ((limit <=? 0) || _); [apply Hstep|done].
Qed.

Lemma lpos_walk_unlimited target limit maxlen items : maxlen <= 0 -> forall st,
  lpos_walk target limit maxlen st items = lpos_walk target limit 0 st items.
Proof.
  intros Hm. induction items as [|[i val] items IH]; intros [[skip compared] out]; [done|]. cbn [lpos_walk]. unfold lpos_stop.
  destruct (Z.ltb_spec 0 maxlen); [lia|]. cbn [Z.ltb Z.compare andb]. destruct (lpos_visit _ _ _ _ _) as [[] st']; [apply IH|done].
Qed.

(** Up to [limit] of the matches past the skipped ones. *)
Lemma lpos_walk_hits target limit items : forall skip compared out,
  limit <= 0 \/ zlen out < limit ->
  (lpos_walk target limit 0 (skip, compared, out) items).2.2
  = out ++ (if 0 <? limit then ztake (limit - zlen out) else id) (zdrop skip (filter (fun p => p.2 = target) items).*1).
Proof.
  induction items as [|[i val] items IH]; intros skip compared out Hl; cbn [lpos_walk].
  { cbn. destruct (0 <? limit); cbn; by rewrite app_nil_r. }
  unfold lpos_stop. cbn [Z.ltb Z.compare andb]. unfold lpos_visit. rewrite filter_cons. cbn [snd].
  destruct (bytes_eqb val target) eqn:E; cbn [negb].
  2: { rewrite decide_False by (intros ->; by rewrite (proj2 (bytes_eqb_eq target target)) in E). by apply IH. }
  apply bytes_eqb_eq in E as ->. rewrite decide_True by done. cbn [fmap list_fmap fst zdrop].
  destruct (Z.ltb_spec 0 skip), (Z.leb_spec skip 0); try lia; [by apply IH|].
  assert (Hz : zlen (out ++ [i]) = zlen out + 1) by (by rewrite zlen_app).
  destruct (Z.leb_spec limit 0) as [Hle|Hgt]; cbn [orb].
  - rewrite IH by (by left). destruct (Z.ltb_spec 0 limit); [lia|]. cbn [id]. rewrite zdrop_nonpos by lia. by rewrite <- app_assoc.
  - destruct (Z.ltb_spec 0 limit); [|lia]. cbn [ztake]. destruct (Z.leb_spec (limit - zlen out) 0); [lia|].
    destruct (Z.ltb_spec (zlen (out ++ [i])) limit).
    + rewrite IH by (by right). destruct (Z.ltb_spec 0 limit); [|lia]. rewrite zdrop_nonpos by lia.
      rewrite Hz, <- app_assoc. cbn [app]. do 3 f_equal. lia.
    + cbn [snd]. rewrite (ztake_nonpos (limit - zlen out - 1)) by lia. done.
Qed.

Lemma lpos_start_skip rank : - two63 <= rank < two63 -> rank <> 0 -> lpos_start rank = (Z.abs rank - 1, 0, []).
Proof.
  intros Hr H0. unfold lpos_start. destruct (Z.ltb_spec rank 0).
  - destruct (decide (rank = - two63)) as [->|]; [done|]. rewrite (int64_add_small 0) by lia. rewrite int64_add_small by lia. do 2 f_equal. lia.
  - rewrite int64_add_small by lia. do 2 f_equal. lia.
Qed.

Lemma lpos_run_spec xs target rank limit maxlen : - two63 <= rank < two63 -> rank <> 0 ->
  lpos_run xs target rank limit maxlen = lpos_spec xs target rank limit maxlen.
Proof.
  intros Hr H0. unfold lpos_run, lpos_spec. cbv zeta. set (items := if 0 <? rank then _ else _). rewrite lpos_start_skip by done.
  assert (E : (lpos_walk target limit maxlen (Z.abs rank - 1, 0, []) items).2.2
    = (lpos_walk target limit 0 (Z.abs rank - 1, 0, []) (if 0 <? maxlen then ztake maxlen items else items)).2.2).
  { destruct (Z.ltb_spec 0 maxlen); [by rewrite lpos_walk_cut, Z.sub_0_r|].
    by rewrite lpos_walk_unlimited. }
  destruct (lpos_walk target limit maxlen _ _) as [go [[s1 c1] out]]. cbn [snd] in E. rewrite E, lpos_walk_hits.
  - rewrite Z.sub_0_r. cbn [app]. by destruct (0 <? limit).
  - change (zlen []) with 0. lia.
Qed.

(** ** Index ranges *)

(** An index counted from the head, or from the end when negative. *)
Definition from_end (i n : Z) : Z := if 0 <=? i then i else n + i.

(** The positions between two such indices that a list of [n] elements has. *)
Definition window (start stop n : Z) : option (Z * Z) :=
  let lo := Z.max 0 (from_end start n) in
  let hi := Z.min (n - 1) (from_end stop n) in
  if lo <=? hi then Some (lo, hi) else None.

Lemma clampRange_window start stop n : 0 <= n -> clampRange start stop n = window start stop n.
Proof.
  intros Hn. unfold clampRange, window, from_end. cbv zeta.
  destruct (Z.ltb_spec start 0), (Z.leb_spec 0 start), (Z.ltb_spec stop 0), (Z.leb_spec 0 stop); try lia;
    repeat match goal with |- context [?a <? ?b] => destruct (Z.ltb_spec a b) | |- context [?a <=? ?b] => destruct (Z.leb_spec a b)
      | |- context [?a =? ?b] => destruct (Z.eqb_spec a b) end; cbn [orb]; try lia; try done; f_equal; f_equal; lia.
Qed.

(** The position a signed index names, when it names one. *)
Definition index_in (idx : Z) (xs : list bytes) : option Z :=
  let i := from_end idx (zlen xs) in if (0 <=? i) && (i <? zlen xs) then Some i else None.

Lemma index_in_some idx xs i : index_in idx xs = Some i -> 0 <= i < zlen xs /\ i = normIndex idx (zlen xs).
Proof.
  unfold index_in, from_end, normIndex. destruct (Z.leb_spec 0 idx), (Z.ltb_spec idx 0); try lia;
    (destruct (_ && _) eqn:E; intros [= <-]); apply andb_true_iff in E as [E1%Z.leb_le E2%Z.ltb_lt]; lia.
Qed.

Lemma index_in_test idx xs :
  (normIndex idx (zlen xs) <? 0) || (zlen xs <=? normIndex idx (zlen xs)) = match index_in idx xs with None => true | Some _ => false end.
Proof.
  unfold index_in, from_end, normIndex. destruct (Z.leb_spec 0 idx), (Z.ltb_spec idx 0); try lia; rewrite ?(Z.add_comm idx);
    repeat match goal with |- context [?a <? ?b] => destruct (Z.ltb_spec a b) | |- context [?a <=? ?b] => destruct (Z.leb_spec a b) end; cbn; (done || lia).
Qed.

Lemma zlen_lrem_spec xs count v : zlen (lrem_spec xs count v).1 <= zlen xs.
Proof.
  assert (Hf : forall ys n, zlen (remove_first n v ys) <= zlen ys).
  { induction ys as [|y ys IH]; intros n; cbn [remove_first]; [done|]. destruct (n <=? 0); [done|].
    destruct (bool_decide _); rewrite ?zlen_cons; [specialize (IH (n - 1))|specialize (IH n)]; lia. }
  unfold lrem_spec. cbn [fst]. repeat case_match; [|apply Hf|done|].
  - unfold zlen. pose proof (length_filter (fun x => x <> v) xs). lia.
  - specialize (Hf (rev xs) (- count)). unfold zlen in *. rewrite !length_rev in *. done.
Qed.
