(* ===== verification/ListRun.v ===== *)
(** Runs of one list: the band-dispatching operations of engine/f3/list/list.go and ops.go over
    the native deque, interleaved with demotions of it (engine/f3/list/reg.go, [demote]), and the
    sequence of elements they stand for. *)

From S2P Require Import Prelude Format Frames Device Decimal Resp Ordered TierDirectory InlineList ChunkRing Fenwick ValueLog NativeList NativeRefines NativeOps NativeSweeps NativeTrim NativeDemote ListMeaning.
#[local] Open Scope Z_scope.

#[local] Abbreviation P A := (res Empty_set A).

(** ** The operations as data *)

(** [OPush]'s [spare] is what the grown blob's slack holds, [ORange]'s [sp] the reply buffer's,
    [ODemote]'s [w] the outcomes of the region's writes. *)
Inductive lop : Type :=
  | OPush (front : bool) (spare v : bytes)
  | OPop (front : bool)
  | OGet (i : Z)
  | ORange (sp : bytes -> bytes -> bytes) (lo hi : Z)
  | OSet (i : Z) (v : bytes)
  | OInsert (before : bool) (pivot v : bytes)
  | ORem (cnt : Z) (v : bytes)
  | OTrim (start stop : Z)
  | OPos (target : bytes) (rank limit maxlen : Z)
  | OLen
  | OEach
  | ODemote (w : Z -> option Z) (key : bytes).

Inductive lans : Type :=
  | ADone
  | AElem (v : bytes)
  | ARaw (out : bytes)
  | ANum (n : Z)
  | AFlag (b : bool)
  | APos (ps : list Z)
  | AElems (vs : list bytes).

(** ** The engine's run *)

(** The per-key pass of the registry: an inline list has nothing to shed. *)
Definition demote_list (w : Z -> option Z) (st : cold_region) (l : klist native) (key : bytes) : P (cold_region * klist native * Z) :=
  match kl_nat l with
  | None => Ok (st, l, 0)
  | Some nt => let* '(st, nt, n) := demote w st nt key in Ok (st, on_nat l nt, n)
  end.

Definition engine_step (st : cold_region) (l : klist native) (o : lop) : P (cold_region * klist native * lans) :=
  let _ := native_deque st in
  match o with
  | OPush front spare v => let* l := push_end front spare l v in Ok (st, l, ADone)
  | OPop front => let* '(l, v) := (if front then popFront l else popBack l) in Ok (st, l, AElem v)
  | OGet i => let* '(l, v) := get l i in Ok (st, l, AElem v)
  | ORange sp lo hi => let* '(l, out) := appendRange sp l [] lo hi in Ok (st, l, ARaw out)
  | OSet i v => let* l := setAt l i v in Ok (st, l, ADone)
  | OInsert before pivot v => let* '(l, hit) := insert l before pivot v in Ok (st, l, AFlag hit)
  | ORem cnt v => let* '(l, n) := remove l cnt v in Ok (st, l, ANum n)
  | OTrim start stop => let* '(l, n) := trim l start stop in Ok (st, l, ANum n)
  | OPos target rank limit maxlen => let* ps := lposScan l target rank limit maxlen in Ok (st, l, APos ps)
  | OLen => Ok (st, l, ANum (length_of l))
  | OEach => let* vs := each l in Ok (st, l, AElems vs)
  | ODemote w key => let* '(st, l, _) := demote_list w st l key in Ok (st, l, ADone)
  end.

Fixpoint engine_run (st : cold_region) (l : klist native) (ops : list lop) : P (cold_region * klist native * list lans) :=
  match ops with
  | [] => Ok (st, l, [])
  | o :: ops' =>
      let* '(st, l, a) := engine_step st l o in
      let* '(st, l, tr) := engine_run st l ops' in
      Ok (st, l, a :: tr)
  end.

(** ** What it stands for *)

(** When the command layer calls the operation: ends only of a list that has them, positions
    within it. *)
Definition legal (xs : list bytes) (o : lop) : Prop :=
  small xs /\
  match o with
  | OPush _ _ v => okv v
  | OPop _ => xs <> []
  | OGet i => 0 <= i < zlen xs
  | ORange sp lo hi => roomy sp /\ 0 <= lo <= hi /\ hi < zlen xs
  | OSet i v => okv v /\ 0 <= i < zlen xs
  | OInsert _ _ v => okv v
  | ORem cnt _ => - two63 <= cnt < two63
  | OTrim start stop => start <= stop -> 0 <= start /\ stop < zlen xs
  | ODemote _ key => zlen key < 65536
  | OPos _ rank _ _ => - two63 <= rank < two63 /\ rank <> 0
  | OLen | OEach => True
  end.

Definition spec_step (xs : list bytes) (o : lop) : list bytes * lans :=
  match o with
  | OPush front _ v => (pushed front v xs, ADone)
  | OPop true => (tail xs, AElem (default [] (head xs)))
  | OPop false => (take (length xs - 1) xs, AElem (default [] (last xs)))
  | OGet i => (xs, AElem (default [] (xs !! Z.to_nat i)))
  | ORange _ lo hi => (xs, ARaw (concat (map bulk (sl xs lo (hi + 1 - lo)))))
  | OSet i v => (<[Z.to_nat i := v]> xs, ADone)
  | OInsert before pivot v => (default xs (insert_spec before pivot v xs), AFlag (bool_decide (is_Some (insert_spec before pivot v xs))))
  | ORem cnt v => ((lrem_spec xs cnt v).1, ANum (lrem_spec xs cnt v).2)
  | OTrim start stop => (sl xs start (stop + 1 - start), ANum (zlen (sl xs start (stop + 1 - start))))
  | OPos target rank limit maxlen => (xs, APos (lpos_spec xs target rank limit maxlen))
  | OLen => (xs, ANum (zlen xs))
  | OEach => (xs, AElems xs)
  | ODemote _ _ => (xs, ADone)
  end.

Fixpoint spec_run (xs : list bytes) (ops : list lop) : list bytes * list lans :=
  match ops with
  | [] => (xs, [])
  | o :: ops' => let '(xs, a) := spec_step xs o in let '(xs, tr) := spec_run xs ops' in (xs, a :: tr)
  end.

Fixpoint legal_run (xs : list bytes) (ops : list lop) : Prop :=
  match ops with [] => True | o :: ops' => legal xs o /\ legal_run (spec_step xs o).1 ops' end.

(** The region bytes the run's demotions may take. *)
Definition op_room (o : lop) : Z := match o with ODemote _ key => demoteQuantum * run_room key | _ => 0 end.
Definition run_need (ops : list lop) : Z := foldr (fun o n => op_room o + n) 0 ops.

Lemma op_room_nonneg o : 0 <= op_room o.
Proof. destruct o; cbn; try done. unfold run_room, demoteQuantum, chunkHdr. pose proof (zlen_nonneg key). lia. Qed.

Lemma run_need_nonneg ops : 0 <= run_need ops.
Proof. induction ops as [|o ops IH]; cbn; [done|]. pose proof (op_room_nonneg o). fold (run_need ops). lia. Qed.

(** ** The engine follows it *)

Definition list_holds (st : cold_region) (l : klist native) (xs : list bytes) : Prop := list_inv okv (holds st) l xs.

Lemma list_holds_mono st st' l xs : region_le st st' -> list_holds st l xs -> list_holds st' l xs.
Proof.
  intros Hle [[]|(Ho & Hb & nt & Hn & Hh)]; [left; by split|]. right. split_and!; [done|done|]. exists nt. split; [done|]. by apply (holds_mono st).
Qed.

Lemma new_list_holds st : list_holds st newList [].
Proof. left. by split. Qed.

Lemma demote_list_ok w st l xs key : list_holds st l xs -> region_wf st -> zlen key < 65536 -> region_tail st + demoteQuantum * run_room key < two63 ->
  exists st' l' n, demote_list w st l key = Ok (st', l', n) /\ list_holds st' l' xs /\ region_wf st' /\ region_le st st' /\ 0 <= n <= demoteQuantum
    /\ region_tail st' <= region_tail st + demoteQuantum * run_room key.
Proof.
  intros Hl Hwf Hk Hroom. unfold demote_list. destruct Hl as [Hi|(Ho & Hb & nt & Hn & Hh)].
  - rewrite (ii_nat _ _ _ Hi). exists st, l, 0. split_and!; try done; [by left|]. change (demoteQuantum * run_room key) with (op_room (ODemote w key)). pose proof (op_room_nonneg (ODemote w key)). lia.
  - rewrite Hn. destruct (demote_ok w st nt xs key Hh Hwf Hk Hroom) as (st' & nt' & n & -> & Hh' & Hwf' & Hle & Hn' & Ht). eexists st', _, n. split; [done|].
    split_and!; try (done || lia). right. split_and!; [done|done|]. by exists nt'.
Qed.

Lemma engine_step_ok st l xs o : list_holds st l xs -> region_wf st -> legal xs o -> region_tail st + op_room o < two63 ->
  exists st' l', engine_step st l o = Ok (st', l', (spec_step xs o).2) /\ list_holds st' l' (spec_step xs o).1 /\ region_wf st' /\ region_le st st'
    /\ region_tail st' <= region_tail st + op_room o.
Proof.
  intros Hl Hwf [Hsm Hleg] Hroom. unfold engine_step. cbv zeta.
  assert (Hsame : forall l' xs' (a : lans), list_holds st l' xs' -> op_room o = 0 -> exists st2 l2, (Ok (st, l', a) : P (cold_region * klist native * lans)) = Ok (st2, l2, a) /\ list_holds st2 l2 xs' /\ region_wf st2 /\ region_le st st2
      /\ region_tail st2 <= region_tail st + op_room o) by (intros l' xs' a Hl' E; exists st, l'; split_and!; (done || lia)).
  destruct o as [front spare v|front|i|sp lo hi|i v|before pivot v|cnt v|start stop|target rank limit maxlen| | |w key]; cbn [spec_step fst snd].
  - destruct (push_end_inv (H := native_deque st) _ _ front spare l xs v Hl Hleg) as (l' & -> & Hl'). by apply Hsame.
  - destruct front; cbn [spec_step fst snd].
    + destruct xs as [|x xs]; [done|]. destruct (popFront_inv (H := native_deque st) _ _ l x xs Hl) as (l' & -> & Hl'). by apply Hsame.
    + destruct (snoc_cases xs) as [->|(ys & x & ->)]; [done|]. destruct (popBack_inv (H := native_deque st) _ _ l ys x Hl) as (l' & -> & Hl').
      rewrite length_app, last_snoc. cbn [length default]. replace (length ys + 1 - 1)%nat with (length ys) by lia. rewrite take_app_length. by apply Hsame.
  - destruct (lookup_lt_is_Some_2 xs (Z.to_nat i)) as [x Hx]; [unfold zlen in *; lia|]. destruct (get_inv (H := native_deque st) _ _ l xs i x Hl Hsm (proj1 Hleg) Hx) as (l' & -> & Hl').
    rewrite Hx. by apply Hsame.
  - destruct Hleg as (Hsp & Hlo & Hhi). destruct (appendRange_inv (H := native_deque st) _ _ sp l xs [] lo hi Hsp Hl Hsm Hlo Hhi) as (l' & -> & Hl'). by apply Hsame.
  - destruct Hleg as [Hv Hi]. destruct (setAt_inv (H := native_deque st) _ _ l xs i v Hl Hsm Hv Hi) as (l' & -> & Hl'). by apply Hsame.
  - destruct (insert_inv (H := native_deque st) _ _ l xs before pivot v Hl Hleg) as (l' & -> & Hl'). by apply Hsame.
  - rewrite <- removeMatches_spec by done. destruct (remove_inv (H := native_deque st) _ _ l xs cnt v Hl Hleg) as (l' & -> & Hl'). by apply Hsame.
  - destruct (trim_inv (H := native_deque st) _ _ l xs start stop Hl Hsm Hleg) as (l' & -> & Hl'). by apply Hsame.
  - destruct Hleg. rewrite <- lpos_run_spec by done. rewrite (lposScan_inv (H := native_deque st) _ _ l xs target rank limit maxlen Hl). by apply Hsame.
  - rewrite (length_of_inv (H := native_deque st) _ _ l xs Hl). by apply Hsame.
  - rewrite (each_inv (H := native_deque st) _ _ l xs Hl). by apply Hsame.
  - destruct (demote_list_ok w st l xs key Hl Hwf Hleg Hroom) as (st' & l' & n & -> & Hl' & Hwf' & Hle & _ & Ht). exists st', l'. by split_and!.
Qed.

Lemma engine_run_ok ops : forall st l xs, list_holds st l xs -> region_wf st -> legal_run xs ops -> region_tail st + run_need ops < two63 ->
  exists st' l', engine_run st l ops = Ok (st', l', (spec_run xs ops).2) /\ list_holds st' l' (spec_run xs ops).1 /\ region_wf st' /\ region_le st st'
    /\ region_tail st' <= region_tail st + run_need ops.
Proof.
  induction ops as [|o ops IH]; intros st l xs Hl Hwf Hleg Hroom; cbn [engine_run spec_run]; [exists st, l; split_and!; (done || cbn; lia)|].
  destruct Hleg as [Ho Hleg]. change (run_need (o :: ops)) with (op_room o + run_need ops) in Hroom. pose proof (run_need_nonneg ops). pose proof (op_room_nonneg o).
  destruct (engine_step_ok st l xs o Hl Hwf Ho ltac:(lia)) as (st1 & l1 & -> & Hl1 & Hwf1 & Hle1 & Ht1). destruct (spec_step xs o) as [xs1 a]. cbn [fst snd] in *.
  destruct (IH st1 l1 xs1 Hl1 Hwf1 Hleg ltac:(lia)) as (st2 & l2 & -> & Hl2 & Hwf2 & Hle2 & Ht2). destruct (spec_run xs1 ops) as [xs2 tr]. cbn [fst snd] in *.
  exists st2, l2. change (run_need (o :: ops)) with (op_room o + run_need ops). split_and!; try done; [by etransitivity|lia].
Qed.

(** The band of a list: within the inline budget until it is promoted, and never inline again. *)
Lemma list_holds_band st l xs : list_holds st l xs ->
  match encoding_of l with encListpack => kl_nat l = None /\ lpOverhead + sizes xs <= listpackBudget | encQuicklist => is_Some (kl_nat l) end.
Proof.
  unfold encoding_of. intros [Hi|(Ho & -> & nt & -> & Hh)]; [|done]. rewrite (ii_large _ _ _ Hi). split; [apply Hi|]. rewrite <- (ii_lpsz _ _ _ Hi). apply Hi.
Qed.

Lemma run_need_app ops1 ops2 : run_need (ops1 ++ ops2) = run_need ops1 + run_need ops2.
Proof. unfold run_need. induction ops1; cbn; lia. Qed.

Lemma legal_run_app ops1 ops2 : forall xs, legal_run xs (ops1 ++ ops2) <-> legal_run xs ops1 /\ legal_run (spec_run xs ops1).1 ops2.
Proof.
  induction ops1 as [|o ops1 IH]; intros xs; cbn [app legal_run spec_run fst]; [tauto|]. rewrite IH. destruct (spec_step xs o) as [xs' a]. cbn [fst].
  destruct (spec_run xs' ops1). cbn [fst]. tauto.
Qed.

(** ** Promotion is one way *)

Lemma band_kept st l o st' l' a : engine_step st l o = Ok (st', l', a) -> is_Some (kl_nat l) -> kl_everLarge l' = kl_everLarge l /\ is_Some (kl_nat l').
Proof.
  intros E [nt Hn]. unfold engine_step in E. cbv zeta in E.
  destruct o as [front spare v|[]|i|sp lo hi|i v|before pivot v|cnt v|start stop|target rank limit maxlen| | |w key];
    unfold push_end, popFront, popBack, get, appendRange, setAt, insert, remove, trim, demote_list in E; rewrite ?Hn in E;
    repeat (match goal with Hm : match ?x with _ => _ end = Ok _ |- _ => destruct x eqn:? end; simplify_eq);
    simplify_eq; cbn [on_nat kl_everLarge kl_nat]; (split; [done|by eexists]).
Qed.

(** A list that went native stays native. *)
Lemma engine_run_large ops : forall st l st' l' tr, engine_run st l ops = Ok (st', l', tr) -> is_Some (kl_nat l) -> kl_everLarge l' = kl_everLarge l.
Proof.
  induction ops as [|o ops IH]; intros st l st' l' tr E Hn; cbn [engine_run] in E; [by simplify_eq|].
  destruct (engine_step st l o) as [[[st1 l1] a]| |] eqn:E1; [|done..]. destruct (engine_run st1 l1 ops) as [[[st2 l2] tr2]| |] eqn:E2; [|done..]. simplify_eq.
  destruct (band_kept _ _ _ _ _ _ E1 Hn) as [<- Hn1]. by eapply IH.
Qed.
