(* ===== verification/ListWorld.v ===== *)
(** The list keyspace of one shard with its blocked clients (engine/f3/list/reg.go and waiter.go):
    list objects behind handles, the key map, the waiter slab with its per-key queues and sibling
    rings, and the serve loop a push runs. *)

From stdpp Require Import gmap list_numbers.
From S2P Require Import Prelude Format Frames Device Decimal Resp Ordered TierDirectory InlineList ChunkRing Fenwick ValueLog NativeList.
#[local] Open Scope Z_scope.

#[local] Abbreviation P A := (res Empty_set A).

(** ** Objects and effects *)

(** A list of the registry: its elements, access clock, deadline and posted footprint. *)
Record lobj := mkLobj { lo_data : klist native; lo_clock : Z; lo_expireAt : Z; lo_acct : Z }.

Definition fresh_lobj : lobj := mkLobj newList 0 0 0.

Inductive nclass : Type := NotifyList | NotifyGeneric | NotifyExpired.

(** What leaves the shard: keyspace events, frames of the collection log, replies to blocked
    connections, cancelled timers, and the hops to other shards.  The frames are those the
    handlers hand to the store's collection log, on a shard that has one; what the store does
    with a frame it cannot flush (store/collectionseam.go) is outside the model. *)
Inductive effect : Type :=
  | ENotify (cls : nclass) (event key : bytes)
  | ELog (key : bytes) (op : Z) (subKey subValue : bytes)
  | ESnap (key header run : bytes)
  | EComplete (conn seq : Z) (rep : bytes)
  | ECancelTimer (timer : Z)
  | EArmTimer (timer deadline : Z)
  | EFireCancels (claim : Z)
  | ERemoteMove (src dst : bytes) (node : Z) (srcLeft dstLeft : bool) (deadline : Z).

(** ** Waiters *)

Inductive wkind : Type := kindPop | kindMove | kindMpop.

Definition nilIdx : Z := 4294967295.

(** [wn_wl] is the key of the list the node is on. *)
Record waitNode := mkWaitNode {
  wn_prev : Z; wn_next : Z; wn_sib : Z; wn_wl : bytes;
  wn_conn : Z; wn_seq : Z; wn_timer : option Z; wn_claim : option Z; wn_deadline : Z;
  wn_kind : wkind; wn_front : bool; wn_dstLeft : bool; wn_live : bool; wn_serving : bool;
  wn_count : Z; wn_dstKey : bytes
}.

Definition zeroNode : waitNode := mkWaitNode 0 0 0 [] 0 0 None None 0 kindPop false false false false 0 [].

Record waitSpec := mkWaitSpec { ws_kind : wkind; ws_front : bool; ws_count : Z; ws_dstKey : bytes; ws_dstLeft : bool; ws_claim : option Z }.

Record waitList := mkWaitList { wl_head : Z; wl_tail : Z; wl_n : Z }.

Definition with_links (nd : waitNode) (prev next : Z) : waitNode :=
  mkWaitNode prev next (wn_sib nd) (wn_wl nd) (wn_conn nd) (wn_seq nd) (wn_timer nd) (wn_claim nd) (wn_deadline nd)
    (wn_kind nd) (wn_front nd) (wn_dstLeft nd) (wn_live nd) (wn_serving nd) (wn_count nd) (wn_dstKey nd).
Definition with_sib (nd : waitNode) (sib : Z) : waitNode :=
  mkWaitNode (wn_prev nd) (wn_next nd) sib (wn_wl nd) (wn_conn nd) (wn_seq nd) (wn_timer nd) (wn_claim nd) (wn_deadline nd)
    (wn_kind nd) (wn_front nd) (wn_dstLeft nd) (wn_live nd) (wn_serving nd) (wn_count nd) (wn_dstKey nd).
Definition with_state (nd : waitNode) (timer : option Z) (deadline : Z) (live serving : bool) : waitNode :=
  mkWaitNode (wn_prev nd) (wn_next nd) (wn_sib nd) (wn_wl nd) (wn_conn nd) (wn_seq nd) timer (wn_claim nd) deadline
    (wn_kind nd) (wn_front nd) (wn_dstLeft nd) live serving (wn_count nd) (wn_dstKey nd).

(** ** The shard *)

Record world := mkWorld {
  w_heap : list lobj;
  w_m : gmap bytes nat;
  w_waiters : gmap bytes waitList;
  w_nodes : list waitNode;
  w_free : list Z;
  w_ready : list bytes;
  w_resident : Z;
  w_claims : gset Z;
  w_out : list effect
}.

(** What the world does not change during a command: the clock, the cold region, whether
    accounting is on, the string store's keys, and the keys other shards own. *)
Record env := mkEnv {
  e_now : Z;
  e_st : cold_region;
  e_acctOn : bool;
  e_string : bytes -> bool;
  e_remote : bytes -> bool
}.

Definition with_heap (w : world) (h : list lobj) : world := mkWorld h (w_m w) (w_waiters w) (w_nodes w) (w_free w) (w_ready w) (w_resident w) (w_claims w) (w_out w).
Definition with_m (w : world) (m : gmap bytes nat) : world := mkWorld (w_heap w) m (w_waiters w) (w_nodes w) (w_free w) (w_ready w) (w_resident w) (w_claims w) (w_out w).
Definition with_wait (w : world) (ws : gmap bytes waitList) (ns : list waitNode) (fr : list Z) : world := mkWorld (w_heap w) (w_m w) ws ns fr (w_ready w) (w_resident w) (w_claims w) (w_out w).
Definition with_ready (w : world) (r : list bytes) : world := mkWorld (w_heap w) (w_m w) (w_waiters w) (w_nodes w) (w_free w) r (w_resident w) (w_claims w) (w_out w).
Definition with_resident (w : world) (r : Z) : world := mkWorld (w_heap w) (w_m w) (w_waiters w) (w_nodes w) (w_free w) (w_ready w) r (w_claims w) (w_out w).
Definition with_claims (w : world) (c : gset Z) : world := mkWorld (w_heap w) (w_m w) (w_waiters w) (w_nodes w) (w_free w) (w_ready w) (w_resident w) c (w_out w).
Definition fx (w : world) (e : effect) : world := mkWorld (w_heap w) (w_m w) (w_waiters w) (w_nodes w) (w_free w) (w_ready w) (w_resident w) (w_claims w) (w_out w ++ [e]).
Definition notify (w : world) (cls : nclass) (event key : bytes) : world := fx w (ENotify cls event key).

Definition empty_world : world := mkWorld [] ∅ ∅ [] [] [] 0 ∅ [].

Section shard.
(** A list's resident-byte estimate reads slice capacities; [spare] is what the slack of a grown
    blob holds, [sp] that of a reply buffer. *)
Context (residentBytes : klist native -> Z) (spare : bytes) (sp : bytes -> bytes -> bytes).

(** ** The registry *)

Definition LRUClock (nowMs : Z) : Z := Z.quot nowMs 1000 mod two16.

Definition obj (w : world) (p : nat) : P lobj := match w_heap w !! p with Some o => Ok o | None => Panic end.
Definition set_obj (w : world) (p : nat) (o : lobj) : world := with_heap w (<[p := o]> (w_heap w)).
Definition set_data (o : lobj) (l : klist native) : lobj := mkLobj l (lo_clock o) (lo_expireAt o) (lo_acct o).
Definition set_clock (o : lobj) (c : Z) : lobj := mkLobj (lo_data o) c (lo_expireAt o) (lo_acct o).

Definition drop_key (e : env) (w : world) (key : bytes) : P world :=
  match w_m w !! key with
  | None => Ok w
  | Some p =>
      let* o := obj w p in
      let w := if e_acctOn e then with_resident w (sub64 (w_resident w) (lo_acct o)) else w in
      Ok (with_m w (delete key (w_m w)))
  end.

Definition peek (e : env) (w : world) (key : bytes) : P (world * option nat) :=
  match w_m w !! key with
  | None => Ok (w, None)
  | Some p =>
      let* o := obj w p in
      if negb (lo_expireAt o =? 0) && (lo_expireAt o <=? e_now e) then
        let* w := drop_key e (notify w NotifyExpired (str "expired") key) key in Ok (w, None)
      else Ok (w, Some p)
  end.

Definition live (e : env) (w : world) (key : bytes) : P (world * option nat) :=
  let* '(w, p) := peek e w key in
  match p with
  | None => Ok (w, None)
  | Some p => let* o := obj w p in Ok (set_obj w p (set_clock o (LRUClock (e_now e))), Some p)
  end.

(** The list at a key, and whether the key holds a string instead. *)
Definition lookup_list (e : env) (w : world) (key : bytes) : P (world * option nat * bool) :=
  let* '(w, p) := live e w key in
  match p with
  | Some p => Ok (w, Some p, false)
  | None => Ok (w, None, e_string e key)
  end.

(** [newList] under a key. *)
Definition install (e : env) (w : world) (key : bytes) : world * nat :=
  let p := length (w_heap w) in
  (with_m (with_heap w (w_heap w ++ [set_clock fresh_lobj (LRUClock (e_now e))])) (<[key := p]> (w_m w)), p).

Definition note (e : env) (w : world) (p : nat) : P world :=
  if negb (e_acctOn e) then Ok w
  else
    let* o := obj w p in
    let nb := residentBytes (lo_data o) in
    Ok (with_resident (set_obj w p (mkLobj (lo_data o) (lo_clock o) (lo_expireAt o) nb)) (add64 (w_resident w) (sub64 nb (lo_acct o)))).

(** ** The list behind a handle *)

Definition len_of (e : env) (w : world) (p : nat) : P Z :=
  let* o := obj w p in Ok (length_of (H := native_deque (e_st e)) (lo_data o)).

Definition pushEnd (e : env) (w : world) (p : nat) (v : bytes) (front : bool) : P world :=
  let* o := obj w p in
  let* l := push_end (H := native_deque (e_st e)) front spare (lo_data o) v in
  Ok (set_obj w p (set_data o l)).

Definition popOne (e : env) (w : world) (p : nat) (front : bool) : P (world * bytes) :=
  let* o := obj w p in
  let* '(l, v) := (if front then popFront (H := native_deque (e_st e)) (lo_data o) else popBack (H := native_deque (e_st e)) (lo_data o)) in
  Ok (set_obj w p (set_data o l), v).

(** [n] pops, each appended to the reply as a bulk. *)
Fixpoint pop_bulks (e : env) (w : world) (p : nat) (front : bool) (out : bytes) (n : nat) : P (world * bytes) :=
  match n with
  | O => Ok (w, out)
  | S n' => let* '(w, v) := popOne e w p front in pop_bulks e w p front (AppendBulk (sp out v) out v) n'
  end.

Definition pushEvent (front : bool) : bytes := if front then str "lpush" else str "rpush".
Definition popEvent (front : bool) : bytes := if front then str "lpop" else str "rpop".
Definition wrongType : bytes := str "WRONGTYPE Operation against a key holding the wrong kind of value".

(** The end of a command that may have emptied the list at [key]: the object decides, the map
    entry goes. *)
Definition settle (e : env) (w : world) (key : bytes) (p : nat) : P world :=
  let* n := len_of e w p in
  if n =? 0 then let* w := drop_key e w key in Ok (notify w NotifyGeneric (str "del") key)
  else note e w p.

(** ** The waiter slab *)

Definition node (w : world) (i : Z) : P waitNode :=
  if i <? 0 then Panic else match w_nodes w !! Z.to_nat i with Some nd => Ok nd | None => Panic end.
Definition set_node (w : world) (i : Z) (nd : waitNode) : world := with_wait w (w_waiters w) (<[Z.to_nat i := nd]> (w_nodes w)) (w_free w).

Definition alloc (w : world) : world * Z :=
  match last (w_free w) with
  | Some i => (with_wait w (w_waiters w) (w_nodes w) (take (length (w_free w) - 1) (w_free w)), i)
  | None => (with_wait w (w_waiters w) (w_nodes w ++ [zeroNode]) (w_free w), cast32 (zlen (w_nodes w)))
  end.

Definition release (w : world) (i : Z) : world := with_wait w (w_waiters w) (w_nodes w) (w_free w ++ [i]).

Definition waitListFor (w : world) (key : bytes) : waitList := default (mkWaitList nilIdx nilIdx 0) (w_waiters w !! key).
Definition set_wl (w : world) (key : bytes) (wl : waitList) : world := with_wait w (<[key := wl]> (w_waiters w)) (w_nodes w) (w_free w).

Definition park (w : world) (key : bytes) (spec : waitSpec) (c seq : Z) : P (world * Z) :=
  let wl := waitListFor w key in
  let '(w, i) := alloc w in
  let nd := mkWaitNode (wl_tail wl) nilIdx i key c seq None (ws_claim spec) 0 (ws_kind spec) (ws_front spec) (ws_dstLeft spec) true false (ws_count spec) (ws_dstKey spec) in
  let* _ := node w i in
  let w := set_node w i nd in
  let* w := if wl_tail wl =? nilIdx then Ok w
            else let* t := node w (wl_tail wl) in Ok (set_node w (wl_tail wl) (with_links t (wn_prev t) i)) in
  Ok (set_wl w key (mkWaitList (if wl_tail wl =? nilIdx then i else wl_head wl) i (wl_n wl + 1)), i).

(** One waiter on every key it blocks on, its nodes stitched into a ring. *)
Fixpoint park_loop (w : world) (keys : list bytes) (spec : waitSpec) (c seq first prev : Z) : P (world * Z * Z) :=
  match keys with
  | [] => Ok (w, first, prev)
  | key :: keys' =>
      let* '(w, i) := park w key spec c seq in
      if first =? nilIdx then park_loop w keys' spec c seq i i
      else
        let* p := node w prev in
        park_loop (set_node w prev (with_sib p i)) keys' spec c seq first i
  end.

Definition parkWaiter (w : world) (keys : list bytes) (spec : waitSpec) (c seq : Z) : P (world * Z) :=
  let* '(w, first, prev) := park_loop w keys spec c seq nilIdx nilIdx in
  let* p := node w prev in
  Ok (set_node w prev (with_sib p first), first).

(** A node off its queue; an emptied queue leaves the registry. *)
Definition unlink (w : world) (i : Z) : P world :=
  let* nd := node w i in
  match w_waiters w !! wn_wl nd with
  | None => Panic
  | Some wl =>
      let* w := if wn_prev nd =? nilIdx then Ok w
                else let* a := node w (wn_prev nd) in Ok (set_node w (wn_prev nd) (with_links a (wn_prev a) (wn_next nd))) in
      let* w := if wn_next nd =? nilIdx then Ok w
                else let* b := node w (wn_next nd) in Ok (set_node w (wn_next nd) (with_links b (wn_prev nd) (wn_next b))) in
      let wl := mkWaitList (if wn_prev nd =? nilIdx then wn_next nd else wl_head wl)
                  (if wn_next nd =? nilIdx then wn_prev nd else wl_tail wl) (wl_n wl - 1) in
      Ok (if wl_n wl =? 0 then with_wait w (delete (wn_wl nd) (w_waiters w)) (w_nodes w) (w_free w) else set_wl w (wn_wl nd) wl)
  end.

Definition cancelTimer (w : world) (t : option Z) : world := match t with None => w | Some t => fx w (ECancelTimer t) end.

(** The whole ring off every queue it is on. *)
Fixpoint unlink_ring (fuel : nat) (w : world) (idx j : Z) : P world :=
  match fuel with
  | O => Panic
  | S fuel' =>
      let* nd := node w j in
      let next := wn_sib nd in
      let w := cancelTimer (set_node w j (with_state nd None (wn_deadline nd) false (wn_serving nd))) (wn_timer nd) in
      let* w := unlink w j in
      let w := release w j in
      if next =? idx then Ok w else unlink_ring fuel' w idx next
  end.

Definition unlinkAll (w : world) (idx : Z) : P world := unlink_ring (length (w_nodes w)) w idx idx.

(** The timeout of a co-located waiter. *)
Definition fire (w : world) (head : Z) : P world :=
  let* nd := node w head in
  if negb (wn_live nd) then Ok w
  else
    let w := set_node w head (with_state nd None (wn_deadline nd) (wn_live nd) (wn_serving nd)) in
    let* w := unlinkAll w head in
    Ok (fx w (EComplete (wn_conn nd) (wn_seq nd) (match wn_kind nd with kindMove => AppendNull [] | _ => AppendNullArray [] end))).

(** ** The serve loop *)

Definition appendReply (dst key elem : bytes) : bytes :=
  let dst := AppendArrayHeader dst 2 in
  let dst := AppendBulk (sp dst key) dst key in
  AppendBulk (sp dst elem) dst elem.

(** The claim of a wait parked on several shards: taken once. *)
Definition tryClaim (w : world) (c : option Z) : world * bool :=
  match c with
  | None => (w, true)
  | Some c => if decide (c ∈ w_claims w) then (w, false) else (with_claims w ({[c]} ∪ w_claims w), true)
  end.

Definition fireCancels (w : world) (c : option Z) : world := match c with None => w | Some c => fx w (EFireCancels c) end.

(** A served BLMOVE: the destination's type is checked before the pop. *)
Definition serveMove (e : env) (w : world) (key : bytes) (p : nat) (i : Z) (nd : waitNode) : P world :=
  let dstKey := wn_dstKey nd in
  let self := bytes_eqb dstKey key in
  let* '(w, dst, wrong) := if self then Ok (w, None, false) else lookup_list e w dstKey in
  if wrong then
    let* w := unlinkAll w i in
    Ok (fx w (EComplete (wn_conn nd) (wn_seq nd) (AppendError [] wrongType)))
  else
    let* '(w, elem) := popOne e w p (wn_front nd) in
    let w := notify w NotifyList (popEvent (wn_front nd)) key in
    let w := notify w NotifyList (pushEvent (wn_dstLeft nd)) dstKey in
    let* w := if self then pushEnd e w p elem (wn_dstLeft nd)
              else
                let '(w, d) := match dst with Some d => (w, d) | None => install e w dstKey end in
                let* w := pushEnd e w d elem (wn_dstLeft nd) in
                Ok (with_ready w (w_ready w ++ [dstKey])) in
    let* w := unlinkAll w i in
    Ok (fx w (EComplete (wn_conn nd) (wn_seq nd) (AppendBulk (sp [] elem) [] elem))).

(** A destination another shard owns: the head stays parked and the drain of the key stops. *)
Definition serveMoveRemote (e : env) (w : world) (key : bytes) (i : Z) (nd : waitNode) : world * bool :=
  if negb (e_remote e (wn_dstKey nd)) then (w, false)
  else if wn_serving nd then (w, true)
  else
    let w := cancelTimer (set_node w i (with_state nd None (wn_deadline nd) (wn_live nd) true)) (wn_timer nd) in
    (fx w (ERemoteMove key (wn_dstKey nd) i (wn_front nd) (wn_dstLeft nd) (wn_deadline nd)), true).

(** One waiter of the key, the oldest; [false]: the drain of the key stops. *)
Definition serve_head (e : env) (w : world) (key : bytes) (p : nat) (i : Z) : P (world * bool) :=
  let* nd := node w i in
  let* n := len_of e w p in
  match wn_kind nd with
  | kindPop =>
      let '(w, won) := tryClaim w (wn_claim nd) in
      if negb won then let* w := unlinkAll w i in Ok (w, true)
      else
        let* '(w, v) := popOne e w p (wn_front nd) in
        let w := notify w NotifyList (popEvent (wn_front nd)) key in
        let* w := unlinkAll w i in
        Ok (fx (fireCancels w (wn_claim nd)) (EComplete (wn_conn nd) (wn_seq nd) (appendReply [] key v)), true)
  | kindMpop =>
      let '(w, won) := tryClaim w (wn_claim nd) in
      if negb won then let* w := unlinkAll w i in Ok (w, true)
      else
        let npop := Z.min (wn_count nd) n in
        let rep := AppendArrayHeader [] 2 in
        let rep := AppendArrayHeader (AppendBulk (sp rep key) rep key) npop in
        let* '(w, rep) := pop_bulks e w p (wn_front nd) rep (Z.to_nat npop) in
        let w := notify w NotifyList (popEvent (wn_front nd)) key in
        let* w := unlinkAll w i in
        Ok (fx (fireCancels w (wn_claim nd)) (EComplete (wn_conn nd) (wn_seq nd) rep), true)
  | kindMove =>
      let '(w, remote) := serveMoveRemote e w key i nd in
      if remote then Ok (w, false) else let* w := serveMove e w key p i nd in Ok (w, true)
  end.

(** Until the list empties or no waiter is left. *)
Fixpoint serveKey (fuel : nat) (e : env) (w : world) (key : bytes) (p : nat) : P world :=
  match w_waiters w !! key with
  | None => Ok w
  | Some wl =>
      let* n := len_of e w p in
      if negb ((0 <? wl_n wl) && (0 <? n)) then Ok w
      else if wl_head wl =? nilIdx then Ok w
      else
        match fuel with
        | O => Panic
        | S fuel' =>
            let* '(w, go) := serve_head e w key p (wl_head wl) in
            if go then serveKey fuel' e w key p else Ok w
        end
  end.

(** The chained keys, last queued first. *)
Fixpoint drain_ready (fuel : nat) (e : env) (w : world) : P world :=
  match last (w_ready w) with
  | None => Ok w
  | Some k =>
      match fuel with
      | O => Panic
      | S fuel' =>
          let w := with_ready w (take (length (w_ready w) - 1) (w_ready w)) in
          match w_m w !! k with
          | None => drain_ready fuel' e w
          | Some p =>
              let* w := serveKey (length (w_nodes w)) e w k p in
              let* w := settle e w k p in
              drain_ready fuel' e w
          end
      end
  end.

Definition serveWaiters (e : env) (w : world) (key : bytes) (p : nat) : P world :=
  let* w := serveKey (length (w_nodes w)) e w key p in
  let* w := drain_ready (S (length (w_nodes w))) e w in
  Ok (with_ready w []).

(** The hook of every command that adds to a key. *)
Definition serve_if_waiters (e : env) (w : world) (key : bytes) (p : nat) : P world :=
  if decide (w_waiters w = ∅) then Ok w else serveWaiters e w key p.

End shard.
