(* ===== verification/ListCommands.v ===== *)
(** The list commands of one shard (engine/f3/list/commands.go, lmove.go, lmpop.go, blocking.go,
    blockmove.go and keyexpire.go): every handler with its guards, replies, keyspace events and log frames. *)

From stdpp Require Import gmap.
From S2P Require Import Prelude Format Frames Device Decimal Resp Ordered TierDirectory Expire InlineList ChunkRing Fenwick ValueLog NativeList ListWorld.
#[local] Open Scope Z_scope.

#[local] Abbreviation P A := (res Empty_set A).

(** What a handler leaves in its reply slot. *)
Inductive rep : Type :=
  | RpErr (msg : bytes)
  | RpInt (n : Z)
  | RpBulk (v : bytes)
  | RpNull
  | RpStatus (s : bytes)
  | RpRaw (out : bytes)
  | RpPark.

Definition errNotInt : bytes := str "ERR value is not an integer or out of range".
Definition errOutOfRange : bytes := str "ERR index out of range".
Definition errNoSuchKey : bytes := str "ERR no such key".
Definition errSyntax : bytes := str "ERR syntax error".
Definition errPosCount : bytes := str "ERR value is out of range, must be positive".
Definition errRankZero : bytes := str "ERR RANK can't be zero: use 1 to start from the first match, 2 from the second ... or use negative to start from the end of the list".
Definition errCountNeg : bytes := str "ERR COUNT can't be negative".
Definition errMaxlenNeg : bytes := str "ERR MAXLEN can't be negative".
Definition errNumkeys : bytes := str "ERR numkeys should be greater than 0".
Definition errCountPos : bytes := str "ERR count should be greater than 0".

(** ASCII case folding of an option token. *)
Fixpoint fold_eq (b want : bytes) : bool :=
  match b, want with
  | [], [] => true
  | x :: b', y :: want' => (upper x =? upper y) && fold_eq b' want'
  | _, _ => false
  end.

(** ** The collection log's vocabulary (durable.go) *)

Definition listOpPushFront : Z := 1.
Definition listOpPushBack : Z := 2.
Definition listOpPopFront : Z := 3.
Definition listOpPopBack : Z := 4.
Definition listOpSet : Z := 5.
Definition listOpTrim : Z := 6.
Definition listOpRem : Z := 7.
Definition listOpInsert : Z := 8.
Definition listOpDeleteKey : Z := 9.
Definition listOpExpire : Z := 10.

(** binary.PutVarint: the sign folded into the low bit. *)
Definition zigzag (x : Z) : Z := let ux := (2 * x) mod two64 in if x <? 0 then Z.lxor ux (two64 - 1) else ux.
Definition PutVarint (x : Z) : bytes := PutUvarint (zigzag x).

Definition logPush (w : world) (key value : bytes) (front : bool) : world := fx w (ELog key (if front then listOpPushFront else listOpPushBack) [] value).
Definition logPop (w : world) (key : bytes) (front : bool) : world := fx w (ELog key (if front then listOpPopFront else listOpPopBack) [] []).
Definition logSet (w : world) (key : bytes) (index : Z) (value : bytes) : world := fx w (ELog key listOpSet (PutUvarint index) value).
Definition logTrim (w : world) (key : bytes) (lo hi : Z) : world := fx w (ELog key listOpTrim (PutUvarint lo ++ PutUvarint hi) []).
Definition logRem (w : world) (key : bytes) (count : Z) (element : bytes) : world := fx w (ELog key listOpRem (PutVarint count) element).
Definition logInsert (w : world) (key pivot value : bytes) (before : bool) : world := fx w (ELog key listOpInsert ((if before then x01 else x00) :: pivot) value).
Definition logDeleteKey (w : world) (key : bytes) : world := fx w (ELog key listOpDeleteKey [] []).
Definition logExpire (w : world) (key : bytes) (at_ : Z) : world := fx w (ELog key listOpExpire [] (le_enc 8 (at_ mod two64))).

Section commands.
Context (residentBytes : klist native -> Z) (spare : bytes) (sp : bytes -> bytes -> bytes) (e : env).

#[local] Abbreviation lookup_ := (lookup_list e).
#[local] Abbreviation settle_ := (settle residentBytes e).
#[local] Abbreviation note_ := (note residentBytes e).
#[local] Abbreviation D := (native_deque (e_st e)).

(** ** Pushes and pops *)

Fixpoint push_args (w : world) (key : bytes) (p : nat) (front : bool) (vals : list bytes) : P world :=
  match vals with
  | [] => Ok w
  | v :: vals' => let* w := pushEnd spare e w p v front in push_args (logPush w key v front) key p front vals'
  end.

Definition pushCmd (w : world) (args : list bytes) (front create : bool) : P (world * rep) :=
  match args with
  | [] => Panic
  | key :: vals =>
      let* '(w, l, wrong) := lookup_ w key in
      if wrong then Ok (w, RpErr wrongType)
      else
        match l, create with
        | None, false => Ok (w, RpInt 0)
        | _, _ =>
            let '(w, p) := match l with Some p => (w, p) | None => install e w key end in
            let* w := push_args w key p front vals in
            let w := notify w NotifyList (pushEvent front) key in
            let* n := len_of e w p in
            let* w := serve_if_waiters residentBytes spare sp e w key p in
            let* w := settle_ w key p in
            Ok (w, RpInt n)
        end
  end.

Definition Lpush (w : world) (args : list bytes) := pushCmd w args true true.
Definition Rpush (w : world) (args : list bytes) := pushCmd w args false true.
Definition Lpushx (w : world) (args : list bytes) := pushCmd w args true false.
Definition Rpushx (w : world) (args : list bytes) := pushCmd w args false false.

(** The count form's pops, each logged. *)
Fixpoint pop_logged (w : world) (key : bytes) (p : nat) (front : bool) (out : bytes) (n : nat) : P (world * bytes) :=
  match n with
  | O => Ok (w, out)
  | S n' => let* '(w, v) := popOne e w p front in pop_logged (logPop w key front) key p front (AppendBulk (sp out v) out v) n'
  end.

Definition popCmd (w : world) (args : list bytes) (front : bool) : P (world * rep) :=
  match args with
  | [] => Panic
  | key :: rest =>
      let* '(w, l, wrong) := lookup_ w key in
      if wrong then Ok (w, RpErr wrongType)
      else
        match rest with
        | [] =>
            match l with
            | None => Ok (w, RpNull)
            | Some p =>
                let* '(w, v) := popOne e w p front in
                let w := notify (logPop w key front) NotifyList (popEvent front) key in
                let* w := settle_ w key p in
                Ok (w, RpBulk v)
            end
        | [cnt] =>
            match ParseInt cnt with
            | None => Ok (w, RpErr errPosCount)
            | Some count =>
                if count <? 0 then Ok (w, RpErr errPosCount)
                else
                  match l with
                  | None => Ok (w, RpRaw (AppendNullArray []))
                  | Some p =>
                      let* n := len_of e w p in
                      let popped := Z.min count n in
                      let* '(w, out) := pop_logged w key p front (AppendArrayHeader [] popped) (Z.to_nat popped) in
                      let w := if 0 <? popped then notify w NotifyList (popEvent front) key else w in
                      let* n := len_of e w p in
                      let* w := if n =? 0 then
                                  let* w := drop_key e w key in
                                  Ok (if 0 <? popped then notify w NotifyGeneric (str "del") key else w)
                                else note_ w p in
                      Ok (w, RpRaw out)
                  end
            end
        | _ => Ok (w, RpErr errSyntax)
        end
  end.

Definition Lpop (w : world) (args : list bytes) := popCmd w args true.
Definition Rpop (w : world) (args : list bytes) := popCmd w args false.

(** ** Reads *)

Definition Llen (w : world) (args : list bytes) : P (world * rep) :=
  match args with
  | [] => Panic
  | key :: _ =>
      let* '(w, l, wrong) := lookup_ w key in
      if wrong then Ok (w, RpErr wrongType)
      else match l with None => Ok (w, RpInt 0) | Some p => let* n := len_of e w p in Ok (w, RpInt n) end
  end.

Definition Lindex (w : world) (args : list bytes) : P (world * rep) :=
  match args with
  | key :: ix :: _ =>
      let* '(w, l, wrong) := lookup_ w key in
      if wrong then Ok (w, RpErr wrongType)
      else
        match ParseInt ix with
        | None => Ok (w, RpErr errNotInt)
        | Some idx =>
            match l with
            | None => Ok (w, RpNull)
            | Some p =>
                let* n := len_of e w p in
                let i := normIndex idx n in
                if (i <? 0) || (n <=? i) then Ok (w, RpNull)
                else
                  let* o := obj w p in
                  let* '(l, v) := get (H := D) (lo_data o) i in
                  Ok (set_obj w p (set_data o l), RpBulk v)
            end
        end
  | _ => Panic
  end.

Definition Lrange (w : world) (args : list bytes) : P (world * rep) :=
  match args with
  | key :: a :: b :: _ =>
      let* '(w, l, wrong) := lookup_ w key in
      if wrong then Ok (w, RpErr wrongType)
      else
        match ParseInt a, ParseInt b with
        | Some start, Some stop =>
            match l with
            | None => Ok (w, RpRaw (AppendArrayHeader [] 0))
            | Some p =>
                let* n := len_of e w p in
                match clampRange start stop n with
                | None => Ok (w, RpRaw (AppendArrayHeader [] 0))
                | Some (lo, hi) =>
                    let* o := obj w p in
                    let* '(l, out) := appendRange (H := D) sp (lo_data o) (AppendArrayHeader [] (hi - lo + 1)) lo hi in
                    Ok (set_obj w p (set_data o l), RpRaw out)
                end
            end
        | _, _ => Ok (w, RpErr errNotInt)
        end
  | _ => Panic
  end.

(** LPOS's options: rank, count (-1 absent), maxlen; or the error. *)
Fixpoint lpos_opts (rest : list bytes) (rank count maxlen : Z) : (Z * Z * Z) + bytes :=
  match rest with
  | [] => inl (rank, count, maxlen)
  | [_] => inr errSyntax
  | o :: val :: rest' =>
      if fold_eq o (str "RANK") then
        match ParseInt val with
        | None => inr errNotInt
        | Some v => if v =? 0 then inr errRankZero else lpos_opts rest' v count maxlen
        end
      else if fold_eq o (str "COUNT") then
        match ParseInt val with
        | None => inr errCountNeg
        | Some v => if v <? 0 then inr errCountNeg else lpos_opts rest' rank v maxlen
        end
      else if fold_eq o (str "MAXLEN") then
        match ParseInt val with
        | None => inr errMaxlenNeg
        | Some v => if v <? 0 then inr errMaxlenNeg else lpos_opts rest' rank count v
        end
      else inr errSyntax
  end.

Definition Lpos (w : world) (args : list bytes) : P (world * rep) :=
  match args with
  | key :: target :: rest =>
      let* '(w, l, wrong) := lookup_ w key in
      if wrong then Ok (w, RpErr wrongType)
      else
        match lpos_opts rest 1 (-1) 0 with
        | inr msg => Ok (w, RpErr msg)
        | inl (rank, count, maxlen) =>
            match l with
            | None => Ok (w, if count <? 0 then RpNull else RpRaw (AppendArrayHeader [] 0))
            | Some p =>
                let* o := obj w p in
                let* hits := lposScan (H := D) (lo_data o) target rank (if count <? 0 then 1 else count) maxlen in
                Ok (w, if count <? 0 then match hits with [] => RpNull | h :: _ => RpInt h end
                       else RpRaw (foldl AppendInt (AppendArrayHeader [] (zlen hits)) hits))
            end
        end
  | _ => Panic
  end.

(** ** Interior writes *)

Definition Lset (w : world) (args : list bytes) : P (world * rep) :=
  match args with
  | key :: ix :: v :: _ =>
      let* '(w, l, wrong) := lookup_ w key in
      if wrong then Ok (w, RpErr wrongType)
      else
        match ParseInt ix with
        | None => Ok (w, RpErr errNotInt)
        | Some idx =>
            match l with
            | None => Ok (w, RpErr errNoSuchKey)
            | Some p =>
                let* n := len_of e w p in
                let i := normIndex idx n in
                if (i <? 0) || (n <=? i) then Ok (w, RpErr errOutOfRange)
                else
                  let* o := obj w p in
                  let* l := setAt (H := D) (lo_data o) i v in
                  let w := notify (logSet (set_obj w p (set_data o l)) key i v) NotifyList (str "lset") key in
                  let* w := note_ w p in
                  Ok (w, RpStatus (str "OK"))
            end
        end
  | _ => Panic
  end.

Definition Ltrim (w : world) (args : list bytes) : P (world * rep) :=
  match args with
  | key :: a :: b :: _ =>
      let* '(w, l, wrong) := lookup_ w key in
      if wrong then Ok (w, RpErr wrongType)
      else
        match ParseInt a, ParseInt b with
        | Some start, Some stop =>
            match l with
            | None => Ok (w, RpStatus (str "OK"))
            | Some p =>
                let* n := len_of e w p in
                let '(lo, hi) := default (1, 0) (clampRange start stop n) in
                let* o := obj w p in
                let* '(l, _) := trim (H := D) (lo_data o) lo hi in
                let w := notify (logTrim (set_obj w p (set_data o l)) key lo hi) NotifyList (str "ltrim") key in
                let* w := settle_ w key p in
                Ok (w, RpStatus (str "OK"))
            end
        | _, _ => Ok (w, RpErr errNotInt)
        end
  | _ => Panic
  end.

Definition Lrem (w : world) (args : list bytes) : P (world * rep) :=
  match args with
  | key :: c :: v :: _ =>
      let* '(w, l, wrong) := lookup_ w key in
      if wrong then Ok (w, RpErr wrongType)
      else
        match ParseInt c with
        | None => Ok (w, RpErr errNotInt)
        | Some count =>
            match l with
            | None => Ok (w, RpInt 0)
            | Some p =>
                let* o := obj w p in
                let* '(l, removed) := remove (H := D) (lo_data o) count v in
                let w := set_obj w p (set_data o l) in
                let w := if 0 <? removed then notify (logRem w key count v) NotifyList (str "lrem") key else w in
                let* n := len_of e w p in
                let* w := if n =? 0 then
                            let* w := drop_key e w key in
                            Ok (if 0 <? removed then notify w NotifyGeneric (str "del") key else w)
                          else if 0 <? removed then note_ w p else Ok w in
                Ok (w, RpInt removed)
            end
        end
  | _ => Panic
  end.

Definition Linsert (w : world) (args : list bytes) : P (world * rep) :=
  match args with
  | key :: side :: pivot :: v :: _ =>
      let* '(w, l, wrong) := lookup_ w key in
      if wrong then Ok (w, RpErr wrongType)
      else
        let* before := if fold_eq side (str "BEFORE") then Ok (Some true) else if fold_eq side (str "AFTER") then Ok (Some false) else Ok None in
        match before, l with
        | None, _ => Ok (w, RpErr errSyntax)
        | Some _, None => Ok (w, RpInt 0)
        | Some before, Some p =>
            let* o := obj w p in
            let* '(l, hit) := InlineList.insert (H := D) (lo_data o) before pivot v in
            let w := set_obj w p (set_data o l) in
            if negb hit then Ok (w, RpInt (-1))
            else
              let w := notify (logInsert w key pivot v before) NotifyList (str "linsert") key in
              let* w := note_ w p in
              let* n := len_of e w p in
              Ok (w, RpInt n)
        end
  | _ => Panic
  end.

(** ** Moves *)

(** The move of one element between two keys of the shard: the moved element, or whether a type
    was wrong. *)
Definition lmove (w : world) (srcKey dstKey : bytes) (srcLeft dstLeft : bool) : P (world * option bytes * bool) :=
  let* '(w, src, wrong) := lookup_ w srcKey in
  if wrong then Ok (w, None, true)
  else
    match src with
    | None => Ok (w, None, false)
    | Some s =>
        let* n := len_of e w s in
        if n =? 0 then Ok (w, None, false)
        else
          let* '(w, dst, wrong) := lookup_ w dstKey in
          if wrong then Ok (w, None, true)
          else
            let* '(w, v) := popOne e w s srcLeft in
            if bytes_eqb srcKey dstKey then
              let* w := pushEnd spare e w s v dstLeft in
              let w := notify w NotifyList (popEvent srcLeft) srcKey in
              let w := notify w NotifyList (pushEvent dstLeft) dstKey in
              let* w := note_ w s in
              Ok (w, Some v, false)
            else
              let '(w, d) := match dst with Some d => (w, d) | None => install e w dstKey end in
              let* w := pushEnd spare e w d v dstLeft in
              let w := notify w NotifyList (popEvent srcLeft) srcKey in
              let w := notify w NotifyList (pushEvent dstLeft) dstKey in
              let* w := serve_if_waiters residentBytes spare sp e w dstKey d in
              let* w := settle_ w dstKey d in
              let* w := settle_ w srcKey s in
              Ok (w, Some v, false)
    end.

Definition parseDir (tok : bytes) : option bool :=
  if fold_eq tok (str "LEFT") then Some true else if fold_eq tok (str "RIGHT") then Some false else None.

Definition moveReply (w : world) (srcKey dstKey : bytes) (srcLeft dstLeft : bool) : P (world * rep) :=
  let* '(w, moved, wrong) := lmove w srcKey dstKey srcLeft dstLeft in
  Ok (w, if wrong then RpErr wrongType else match moved with None => RpNull | Some v => RpBulk v end).

Definition Lmove (w : world) (args : list bytes) : P (world * rep) :=
  match args with
  | src :: dst :: a :: b :: _ =>
      match parseDir a, parseDir b with
      | Some from, Some to => moveReply w src dst from to
      | _, _ => Ok (w, RpErr errSyntax)
      end
  | _ => Panic
  end.

Definition Rpoplpush (w : world) (args : list bytes) : P (world * rep) :=
  match args with src :: dst :: _ => moveReply w src dst false true | _ => Panic end.

(** LMPOP: the first key that has elements; [None] when none has. *)
Fixpoint lmpop (w : world) (keys : list bytes) (front : bool) (count : Z) : P (world * option bytes * bool) :=
  match keys with
  | [] => Ok (w, None, false)
  | key :: keys' =>
      let* '(w, l, wrong) := lookup_ w key in
      if wrong then Ok (w, None, true)
      else
        match l with
        | None => lmpop w keys' front count
        | Some p =>
            let* n := len_of e w p in
            if n =? 0 then lmpop w keys' front count
            else
              let npop := Z.min count n in
              let out := AppendArrayHeader [] 2 in
              let out := AppendArrayHeader (AppendBulk (sp out key) out key) npop in
              let* '(w, out) := pop_bulks sp e w p front out (Z.to_nat npop) in
              let w := notify w NotifyList (popEvent front) key in
              let* w := settle_ w key p in
              Ok (w, Some out, false)
        end
  end.

Definition parseLmpopTail (a : list bytes) : P ((list bytes * bool * Z) + bytes) :=
  match a with
  | [] => Panic
  | nk :: rest =>
      match ParseInt nk with
      | None => Ok (inr errNumkeys)
      | Some numkeys =>
          if numkeys <=? 0 then Ok (inr errNumkeys)
          else if (zlen a <? numkeys) || (zlen a <? 1 + numkeys + 1) then Ok (inr errSyntax)
          else
            let keys := take (Z.to_nat numkeys) rest in
            match drop (Z.to_nat numkeys) rest with
            | [] => Panic
            | dir :: opts =>
                match parseDir dir with
                | None => Ok (inr errSyntax)
                | Some front =>
                    match opts with
                    | [] => Ok (inl (keys, front, 1))
                    | [o; c] =>
                        if negb (fold_eq o (str "COUNT")) then Ok (inr errSyntax)
                        else
                          match ParseInt c with
                          | None => Ok (inr errCountPos)
                          | Some c => if c <=? 0 then Ok (inr errCountPos) else Ok (inl (keys, front, c))
                          end
                    | _ => Ok (inr errSyntax)
                    end
                end
            end
      end
  end.

Definition Lmpop (w : world) (args : list bytes) : P (world * rep) :=
  let* t := parseLmpopTail args in
  match t with
  | inr msg => Ok (w, RpErr msg)
  | inl (keys, front, count) =>
      let* '(w, out, wrong) := lmpop w keys front count in
      Ok (w, if wrong then RpErr wrongType else match out with None => RpRaw (AppendNullArray []) | Some out => RpRaw out end)
  end.

(** ** Blocking commands, after their timeout argument has parsed *)

(** The deadline of a positive timeout: its milliseconds from now, and the handle the heap gives
    the timer. Inside EXEC ([noblock]) nothing parks. *)
Record blocking := mkBlocking { b_after : option Z; b_timer : Z; b_conn : Z; b_seq : Z; b_noblock : bool }.

Definition arm (w : world) (b : blocking) (head : Z) (keep : bool) : P world :=
  match b_after b with
  | None => Ok w
  | Some ms =>
      let deadline := int64_add (e_now e) ms in
      let* nd := node w head in
      Ok (fx (set_node w head (with_state nd (Some (b_timer b)) (if keep then deadline else wn_deadline nd) (wn_live nd) (wn_serving nd))) (EArmTimer (b_timer b) deadline))
  end.

(** The first listed key that has an element. *)
Fixpoint blockpop_now (w : world) (keys : list bytes) (front : bool) : P (world * option rep) :=
  match keys with
  | [] => Ok (w, None)
  | key :: keys' =>
      let* '(w, l, wrong) := lookup_ w key in
      if wrong then Ok (w, Some (RpErr wrongType))
      else
        match l with
        | None => blockpop_now w keys' front
        | Some p =>
            let* n := len_of e w p in
            if n =? 0 then blockpop_now w keys' front
            else
              let* '(w, v) := popOne e w p front in
              let w := notify w NotifyList (popEvent front) key in
              let* w := settle_ w key p in
              Ok (w, Some (RpRaw (appendReply sp [] key v)))
        end
  end.

Definition blockpop (w : world) (keys : list bytes) (b : blocking) (front : bool) : P (world * rep) :=
  let* '(w, r) := blockpop_now w keys front in
  match r with
  | Some r => Ok (w, r)
  | None =>
      if b_noblock b then Ok (w, RpRaw (AppendNullArray []))
      else
        let* '(w, head) := parkWaiter w keys (mkWaitSpec kindPop front 0 [] false None) (b_conn b) (b_seq b) in
        let* w := arm w b head false in
        Ok (w, RpPark)
  end.

Definition blmoveDir (w : world) (src dst : bytes) (srcLeft dstLeft : bool) (b : blocking) : P (world * rep) :=
  let* '(w, moved, wrong) := lmove w src dst srcLeft dstLeft in
  if wrong then Ok (w, RpErr wrongType)
  else
    match moved with
    | Some v => Ok (w, RpBulk v)
    | None =>
        if b_noblock b then Ok (w, RpNull)
        else
          let* '(w, head) := parkWaiter w [src] (mkWaitSpec kindMove srcLeft 0 dst dstLeft None) (b_conn b) (b_seq b) in
          let* w := arm w b head true in
          Ok (w, RpPark)
    end.

Definition Blmpop (w : world) (args : list bytes) (b : blocking) : P (world * rep) :=
  let* t := parseLmpopTail args in
  match t with
  | inr msg => Ok (w, RpErr msg)
  | inl (keys, front, count) =>
      let* '(w, out, wrong) := lmpop w keys front count in
      if wrong then Ok (w, RpErr wrongType)
      else
        match out with
        | Some out => Ok (w, RpRaw out)
        | None =>
            if b_noblock b then Ok (w, RpRaw (AppendNullArray []))
            else
              let* '(w, head) := parkWaiter w keys (mkWaitSpec kindMpop front count [] false None) (b_conn b) (b_seq b) in
              let* w := arm w b head false in
              Ok (w, RpPark)
        end
  end.

(** DEL of a list key. *)
Definition Delete (w : world) (key : bytes) : P (world * bool) :=
  let* '(w, l) := live e w key in
  match l with
  | None => Ok (w, false)
  | Some _ => let* w := drop_key e (logDeleteKey w key) key in Ok (w, true)
  end.

(** The backend's store of a deadline, and PERSIST. *)
Definition Store (w : world) (key : bytes) (p : nat) (at_ : Z) : P world :=
  let* o := obj w p in
  Ok (logExpire (set_obj w p (mkLobj (lo_data o) (lo_clock o) at_ (lo_acct o))) key at_).

Definition Persist (w : world) (key : bytes) : P (world * bool) :=
  let* '(w, l) := live e w key in
  match l with
  | None => Ok (w, false)
  | Some p =>
      let* o := obj w p in
      if lo_expireAt o =? 0 then Ok (w, false)
      else let* w := Store w key p 0 in Ok (w, true)
  end.

End commands.

(** ** The command surface as data *)

(** [expire.Apply] past its arguments, over the list backend: [Present] is the live funnel, a
    deadline not in the future deletes, another one is stored (which never fails). *)
Definition expire_core (e : env) (w : world) (key : bytes) (f : flags) (at_ : Z) : P (world * rep) :=
  let* '(w, l) := live e w key in
  match l with
  | None => Ok (w, RpInt 0)
  | Some p =>
      let* o := obj w p in
      if gated f (lo_expireAt o) at_ then Ok (w, RpInt 0)
      else if at_ <=? e_now e then
        let* w := drop_key e (logDeleteKey w key) key in
        Ok (ListWorld.notify w NotifyGeneric (str "del") key, RpInt 1)
      else
        let* w := Store w key p at_ in
        Ok (ListWorld.notify w NotifyGeneric (str "expire") key, RpInt 1)
  end.

(** EXPIRE, PEXPIRE, EXPIREAT and PEXPIREAT on a list key. *)
Definition Expire (e : env) (w : world) (args : list bytes) (verb : bytes) : P (world * rep) :=
  match args with
  | key :: time :: opts =>
      match apply_args (e_now e) verb time opts with
      | inr msg => Ok (w, RpErr msg)
      | inl (f, at_) => expire_core e w key f at_
      end
  | _ => Panic
  end.

Inductive cmd : Type :=
  | KPush (front create : bool) (key : bytes) (vals : list bytes)
  | KPop (front : bool) (key : bytes) (rest : list bytes)
  | KLlen (key : bytes)
  | KLindex (key ix : bytes)
  | KLrange (key a b : bytes)
  | KLpos (key target : bytes) (opts : list bytes)
  | KLset (key ix v : bytes)
  | KLtrim (key a b : bytes)
  | KLrem (key c v : bytes)
  | KLinsert (key side pivot v : bytes)
  | KLmove (src dst a b : bytes)
  | KRpoplpush (src dst : bytes)
  | KLmpop (args : list bytes)
  | KDel (key : bytes)
  | KExpire (verb key time : bytes) (opts : list bytes)
  | KPersist (key : bytes).

Definition flag (b : bool) : rep := RpInt (if b then 1 else 0).

Definition exec (residentBytes : klist native -> Z) (spare : bytes) (sp : bytes -> bytes -> bytes) (e : env) (w : world) (c : cmd) : P (world * rep) :=
  match c with
  | KPush front create key vals => pushCmd residentBytes spare sp e w (key :: vals) front create
  | KPop front key rest => popCmd residentBytes sp e w (key :: rest) front
  | KLlen key => Llen e w [key]
  | KLindex key ix => Lindex e w [key; ix]
  | KLrange key a b => Lrange sp e w [key; a; b]
  | KLpos key target opts => Lpos e w (key :: target :: opts)
  | KLset key ix v => Lset residentBytes e w [key; ix; v]
  | KLtrim key a b => Ltrim residentBytes e w [key; a; b]
  | KLrem key c v => Lrem residentBytes e w [key; c; v]
  | KLinsert key side pivot v => Linsert residentBytes e w [key; side; pivot; v]
  | KLmove src dst a b => Lmove residentBytes spare sp e w [src; dst; a; b]
  | KRpoplpush src dst => Rpoplpush residentBytes spare sp e w [src; dst]
  | KLmpop args => Lmpop residentBytes sp e w args
  | KDel key => let* '(w, b) := Delete e w key in Ok (w, flag b)
  | KExpire verb key time opts => Expire e w (key :: time :: opts) verb
  | KPersist key => let* '(w, b) := Persist e w key in Ok (w, flag b)
  end.
