(* ===== verification/ListDurable.v ===== *)
(** The list log and its replay (engine/f3/list/durable.go): the snapshot of a list, and the
    frames of the collection log driven back onto a registry. *)

From stdpp Require Import gmap.
From S2P Require Import Prelude Format Frames Device Decimal Resp Ordered TierDirectory InlineList ChunkRing Fenwick ValueLog NativeList ListWorld ListCommands.
#[local] Open Scope Z_scope.

#[local] Abbreviation R A := (res error A).

(** A list operation cannot fail, only panic. *)
Definition up {A} (r : res Empty_set A) : R A := match r with Ok a => Ok a | Err x => match x with end | Panic => Panic end.

(** binary.Varint. *)
Definition Varint (buf : bytes) : Z * Z :=
  let '(ux, n) := Uvarint buf in
  let x := Z.shiftr ux 1 in
  (if Z.odd ux then - x - 1 else x, n).

Definition snapHeaderLen : Z := 8.

(** The signed reading of a 64-bit word. *)
Definition int64_of (u : Z) : Z := if u <? two63 then u else u - two64.

(** A run of length-prefixed elements; [None] when it is torn. *)
Fixpoint eachFrame (fuel : nat) (run : bytes) : R (option (list bytes)) :=
  match fuel with
  | O => Panic
  | S fuel' =>
      if zlen run =? 0 then Ok (Some [])
      else
        let '(n, w) := Uvarint run in
        if (w <=? 0) || (zlen run - w <? n) then Ok None
        else
          let p := zdrop w run in
          let* vs := eachFrame fuel' (zdrop n p) in
          Ok ((cons (ztake n p)) <$> vs)
  end.

Section durable.
Context (residentBytes : klist native -> Z) (spare : bytes) (e : env).

#[local] Abbreviation note_ := (note residentBytes e).
#[local] Abbreviation D := (native_deque (e_st e)).

(** ** Snapshots *)

Definition buildListSnapshot (o : lobj) : R (bytes * bytes) :=
  let* vs := up (each (H := D) (lo_data o)) in
  Ok (le_enc 8 (lo_expireAt o mod two64), packFrames vs).

(** Every live list of the registry, in the order the map is walked ([keys]). *)
Fixpoint Snapshot (w : world) (keys : list bytes) : R world :=
  match keys with
  | [] => Ok w
  | key :: keys' =>
      match w_m w !! key with
      | None => Snapshot w keys'
      | Some p =>
          let* o := up (obj w p) in
          if negb (lo_expireAt o =? 0) && (lo_expireAt o <=? e_now e) then Snapshot w keys'
          else
            let* '(header, run) := buildListSnapshot o in
            Snapshot (fx w (ESnap key header run)) keys'
      end
  end.

(** ** Replay *)

Definition getOrCreate (w : world) (key : bytes) : world * nat :=
  match w_m w !! key with Some p => (w, p) | None => install e w key end.

Definition popApply (w : world) (key : bytes) (front : bool) : R world :=
  match w_m w !! key with
  | None => Ok w
  | Some p =>
      let* n := up (len_of e w p) in
      if n =? 0 then Ok w
      else
        let* '(w, _) := up (popOne e w p front) in
        let* n := up (len_of e w p) in
        if n =? 0 then up (drop_key e w key) else up (note_ w p)
  end.

(** The list of a key that is there, changed and noted, or dropped once empty. *)
Definition change (w : world) (key : bytes) (f : klist native -> R (klist native)) (drops : bool) : R world :=
  match w_m w !! key with
  | None => Ok w
  | Some p =>
      let* o := up (obj w p) in
      let* l := f (lo_data o) in
      let w := set_obj w p (set_data o l) in
      let* n := up (len_of e w p) in
      if drops && (n =? 0) then up (drop_key e w key) else up (note_ w p)
  end.

Fixpoint push_run (w : world) (p : nat) (vs : list bytes) : R world :=
  match vs with
  | [] => Ok w
  | v :: vs' => let* w := up (pushEnd spare e w p v false) in push_run w p vs'
  end.

Definition applyListSnapshot (w : world) (key header run : bytes) : R world :=
  let* w := up (drop_key e w key) in
  let* vs := eachFrame (S (length run)) run in
  match vs with
  | None => Err ErrLength
  | Some [] => Ok w
  | Some vs =>
      let '(w, p) := install e w key in
      let* w := push_run w p vs in
      let* o := up (obj w p) in
      let at_ := if snapHeaderLen <=? zlen header then int64_of (le_dec (ztake 8 header)) else lo_expireAt o in
      up (note_ (set_obj w p (mkLobj (lo_data o) (lo_clock o) at_ (lo_acct o))) p)
  end.

Definition applyListOp (w : world) (key : bytes) (op : Z) (subKey subValue : bytes) : R world :=
  if op =? listOpPushFront then
    let '(w, p) := getOrCreate w key in
    let* w := up (pushEnd spare e w p subValue true) in up (note_ w p)
  else if op =? listOpPushBack then
    let '(w, p) := getOrCreate w key in
    let* w := up (pushEnd spare e w p subValue false) in up (note_ w p)
  else if op =? listOpPopFront then popApply w key true
  else if op =? listOpPopBack then popApply w key false
  else if op =? listOpSet then
    let '(idx, n) := Uvarint subKey in
    if n <=? 0 then Err ErrLength
    else
      match w_m w !! key with
      | None => Ok w
      | Some p =>
          let* len := up (len_of e w p) in
          let i := int64_of idx in
          if (i <? 0) || (len <=? i) then Ok w
          else change w key (fun l => up (setAt (H := D) l i subValue)) false
      end
  else if op =? listOpTrim then
    let '(lo, n1) := Uvarint subKey in
    if n1 <=? 0 then Err ErrLength
    else
      let '(hi, n2) := Uvarint (zdrop n1 subKey) in
      if n2 <=? 0 then Err ErrLength
      else change w key (fun l => let* '(l, _) := up (trim (H := D) l (int64_of lo) (int64_of hi)) in Ok l) true
  else if op =? listOpRem then
    let '(count, n) := Varint subKey in
    if n <=? 0 then Err ErrLength
    else change w key (fun l => let* '(l, _) := up (remove (H := D) l count subValue) in Ok l) true
  else if op =? listOpInsert then
    match subKey with
    | [] => Err ErrLength
    | side :: pivot => change w key (fun l => let* '(l, _) := up (InlineList.insert (H := D) l (byte_Z side =? 1) pivot subValue) in Ok l) false
    end
  else if op =? listOpDeleteKey then up (drop_key e w key)
  else if op =? listOpExpire then
    if zlen subValue <? 8 then Err ErrLength
    else
      match w_m w !! key with
      | None => Ok w
      | Some p =>
          let* o := up (obj w p) in
          Ok (set_obj w p (mkLobj (lo_data o) (lo_clock o) (int64_of (le_dec (ztake 8 subValue))) (lo_acct o)))
      end
  else Ok w.

(** The list frames of the log, in append order. *)
Fixpoint Recover (w : world) (frames : list effect) : R world :=
  match frames with
  | [] => Ok w
  | ELog key op subKey subValue :: frames' => let* w := applyListOp w key op subKey subValue in Recover w frames'
  | ESnap key header run :: frames' => let* w := applyListSnapshot w key header run in Recover w frames'
  | _ :: frames' => Recover w frames'
  end.

End durable.
