(* ===== verification/WaitSlab.v ===== *)
(** The waiter slab of a shard (engine/f3/list/waiter.go): the index-linked queues of the keys and
    the sibling rings, as the blocked clients in the order they parked. *)

From stdpp Require Import gmap.
From S2P Require Import Prelude Format Frames Device Decimal Resp Ordered TierDirectory InlineList ChunkRing Fenwick ValueLog NativeList NativeRefines NativeOps NativeSweeps NativeTrim NativeDemote ListRun ListWorld ListCommands.
#[local] Open Scope Z_scope.

#[local] Abbreviation P A := (res Empty_set A).

(** ** Nodes by index *)

Definition nd_at (ns : list waitNode) (i : Z) : option waitNode := if i <? 0 then None else ns !! Z.to_nat i.
Definition nd_set (ns : list waitNode) (i : Z) (nd : waitNode) : list waitNode := <[Z.to_nat i := nd]> ns.

Lemma node_eq w i : node w i = match nd_at (w_nodes w) i with Some nd => Ok nd | None => Panic end.
Proof. unfold node, nd_at. by destruct (i <? 0). Qed.

Lemma nd_at_range ns i nd : nd_at ns i = Some nd -> 0 <= i < zlen ns.
Proof. unfold nd_at. destruct (Z.ltb_spec i 0); [done|]. intros Hl%lookup_lt_Some. unfold zlen. lia. Qed.

Lemma nd_at_some ns i : 0 <= i < zlen ns -> exists nd, nd_at ns i = Some nd.
Proof. intros Hi. unfold nd_at. destruct (Z.ltb_spec i 0); [lia|]. apply lookup_lt_is_Some_2. unfold zlen in Hi. lia. Qed.

Lemma nd_set_eq ns i nd : 0 <= i < zlen ns -> nd_at (nd_set ns i nd) i = Some nd.
Proof. intros Hi. unfold nd_at, nd_set. destruct (Z.ltb_spec i 0); [lia|]. apply list_lookup_insert_eq. unfold zlen in Hi. lia. Qed.

Lemma nd_set_ne ns i j nd : 0 <= i -> i <> j -> nd_at (nd_set ns i nd) j = nd_at ns j.
Proof. intros Hi Hne. unfold nd_at, nd_set. destruct (Z.ltb_spec j 0); [done|]. apply list_lookup_insert_ne. lia. Qed.

Lemma zlen_nd_set ns i nd : zlen (nd_set ns i nd) = zlen ns.
Proof. unfold zlen, nd_set. by rewrite length_insert. Qed.

(** ** Chains *)

(** The indices [q] linked in order between [prev] and [nxt], all on the queue of [k]. *)
Fixpoint seg (ns : list waitNode) (k : bytes) (prev : Z) (q : list Z) (nxt : Z) : Prop :=
  match q with
  | [] => True
  | i :: q' => (exists nd, nd_at ns i = Some nd /\ wn_wl nd = k /\ wn_prev nd = prev /\ wn_next nd = default nxt (head q')) /\ seg ns k i q' nxt
  end.

Lemma head_app_default {A} (q1 q2 : list A) d : default d (head (q1 ++ q2)) = default (default d (head q2)) (head q1).
Proof. by destruct q1. Qed.

Lemma last_cons_default {A} (x : A) q d : default d (last (x :: q)) = default x (last q).
Proof. rewrite last_cons. by destruct (last q). Qed.

Lemma seg_app ns k q1 q2 : forall prev nxt, seg ns k prev (q1 ++ q2) nxt <-> seg ns k prev q1 (default nxt (head q2)) /\ seg ns k (default prev (last q1)) q2 nxt.
Proof.
  induction q1 as [|i q1 IH]; intros prev nxt; cbn [app seg]; [cbn; tauto|]. rewrite IH, last_cons_default, head_app_default. tauto.
Qed.

Definition links (nd : waitNode) : bytes * Z * Z := (wn_wl nd, wn_prev nd, wn_next nd).

Lemma seg_ext ns ns' k q : forall prev nxt, (forall i, i ∈ q -> links <$> nd_at ns' i = links <$> nd_at ns i) -> seg ns k prev q nxt -> seg ns' k prev q nxt.
Proof.
  induction q as [|i q IH]; intros prev nxt Hq; cbn [seg]; [done|]. intros [(nd & E & Hk & Hp & Hn) Hs]. split.
  - specialize (Hq i (list_elem_of_here _ _)). rewrite E in Hq. destruct (nd_at ns' i) as [nd'|]; [|done]. injection Hq as E1 E2 E3. exists nd'. by rewrite E1, E2, E3.
  - apply IH; [|done]. intros j Hj. by apply Hq, list_elem_of_further.
Qed.

Lemma seg_node ns k q prev nxt i : seg ns k prev q nxt -> i ∈ q -> exists nd, nd_at ns i = Some nd /\ wn_wl nd = k.
Proof.
  revert prev. induction q as [|j q IH]; intros prev; [by intros _ ?%not_elem_of_nil|]. intros [(nd & E & Hk & _) Hs] [->|Hi]%elem_of_cons; [by exists nd|by eapply IH].
Qed.

Lemma seg_set_other ns k prev q nxt i nd : 0 <= i -> i ∉ q -> seg ns k prev q nxt -> seg (nd_set ns i nd) k prev q nxt.
Proof. intros Hi Hq. apply seg_ext. intros j Hj. rewrite nd_set_ne; [done|done|]. intros ->. done. Qed.

(** The last link of a chain turned. *)
Lemma seg_turn_last ns k prev q a nxt nxt' nd : a ∉ q -> nd_at ns a = Some nd -> seg ns k prev (q ++ [a]) nxt -> seg (nd_set ns a (with_links nd (wn_prev nd) nxt')) k prev (q ++ [a]) nxt'.
Proof.
  intros Ha E. pose proof (nd_at_range _ _ _ E). rewrite !seg_app. cbn [seg head default from_option id]. intros [H1 [(nd' & E' & Hk & Hp & _) _]]. rewrite E in E'. injection E' as <-. split.
  - apply seg_set_other; [lia|done|done].
  - split; [|done]. exists (with_links nd (wn_prev nd) nxt'). by rewrite nd_set_eq by done.
Qed.

(** The first. *)
Lemma seg_turn_first ns k prev prev' b q nxt nd : b ∉ q -> nd_at ns b = Some nd -> seg ns k prev (b :: q) nxt -> seg (nd_set ns b (with_links nd prev' (wn_next nd))) k prev' (b :: q) nxt.
Proof.
  intros Hb E. pose proof (nd_at_range _ _ _ E). cbn [seg]. intros [(nd' & E' & Hk & _ & Hn) Hs]. rewrite E in E'. injection E' as <-. split.
  - exists (with_links nd prev' (wn_next nd)). by rewrite nd_set_eq by done.
  - apply seg_set_other; [lia|done|done].
Qed.

(** ** The queues of the parked entries *)

(** The nodes on the queue of [k], of entries (key, node) in the order they parked. *)
Definition queue (En : list (bytes * Z)) (k : bytes) : list Z := snd <$> filter (fun x => x.1 = k) En.

Lemma queue_app E1 E2 k : queue (E1 ++ E2) k = queue E1 k ++ queue E2 k.
Proof. unfold queue. by rewrite filter_app, fmap_app. Qed.

Lemma queue_cons k' i En k : queue ((k', i) :: En) k = (if decide (k' = k) then [i] else []) ++ queue En k.
Proof. unfold queue. rewrite filter_cons. cbn [fst]. by destruct (decide (k' = k)). Qed.

Lemma elem_of_queue En k i : i ∈ queue En k <-> (k, i) ∈ En.
Proof.
  unfold queue. rewrite list_elem_of_fmap. split.
  - intros ([k' j] & -> & [Hk Hin]%list_elem_of_filter). cbn in *. by subst.
  - intros H. exists (k, i). split; [done|]. by apply list_elem_of_filter.
Qed.

Lemma queue_NoDup En k : NoDup En.*2 -> NoDup (queue En k).
Proof.
  induction En as [|[k' i] En IH]; [done|]. rewrite fmap_cons, NoDup_cons, queue_cons. intros [Hi Hn]. destruct (decide (k' = k)); [|by apply IH]. apply NoDup_cons. split; [|by apply IH].
  intros Hq%elem_of_queue. apply Hi. by apply (list_elem_of_fmap_2 snd) in Hq.
Qed.

Lemma same_key (En : list (bytes * Z)) k k' i : NoDup En.*2 -> (k, i) ∈ En -> (k', i) ∈ En -> k = k'.
Proof.
  induction En as [|[j n] En IH]; [by intros _ ?%not_elem_of_nil|]. rewrite fmap_cons, NoDup_cons. intros [Hi Hn] [E1|H1]%elem_of_cons [E2|H2]%elem_of_cons; [congruence| | |by apply IH].
  - injection E1 as -> ->. by destruct Hi; apply (list_elem_of_fmap_2 snd) in H2.
  - injection E2 as -> ->. by destruct Hi; apply (list_elem_of_fmap_2 snd) in H1.
Qed.

(** What the registry keeps for a queue. *)
Definition wl_of (q : list Z) : option waitList :=
  match q with [] => None | _ => Some (mkWaitList (default nilIdx (head q)) (default nilIdx (last q)) (zlen q)) end.

Record linked (w : world) (En : list (bytes * Z)) : Prop := {
  ln_size : zlen (w_nodes w) <= nilIdx;
  ln_seg : forall k, seg (w_nodes w) k nilIdx (queue En k) nilIdx;
  ln_wl : forall k, w_waiters w !! k = wl_of (queue En k);
  ln_nodup : NoDup En.*2
}.

Lemma linked_node w En k i : linked w En -> (k, i) ∈ En -> exists nd, nd_at (w_nodes w) i = Some nd /\ wn_wl nd = k /\ 0 <= i < nilIdx.
Proof.
  intros H Hi. destruct (seg_node _ _ _ _ _ i (ln_seg _ _ H k)) as (nd & E & Hk); [by apply elem_of_queue|]. exists nd. pose proof (nd_at_range _ _ _ E). pose proof (ln_size _ _ H). split_and!; [done|done|lia|lia].
Qed.

(** ** A node cut out of its queue *)

Definition turn_next (ns : list waitNode) (a : option Z) (nxt : Z) : list waitNode :=
  match a with
  | None => ns
  | Some a => match nd_at ns a with Some nd => nd_set ns a (with_links nd (wn_prev nd) nxt) | None => ns end
  end.

Definition turn_prev (ns : list waitNode) (b : option Z) (prev : Z) : list waitNode :=
  match b with
  | None => ns
  | Some b => match nd_at ns b with Some nd => nd_set ns b (with_links nd prev (wn_next nd)) | None => ns end
  end.

(** What the links do not hold. *)
Definition core (nd : waitNode) : waitNode := with_links nd 0 0.

Definition same_core (ns ns' : list waitNode) : Prop := zlen ns' = zlen ns /\ forall j, core <$> nd_at ns' j = core <$> nd_at ns j.

Lemma same_core_refl ns : same_core ns ns.
Proof. done. Qed.

Lemma same_core_trans ns1 ns2 ns3 : same_core ns1 ns2 -> same_core ns2 ns3 -> same_core ns1 ns3.
Proof. intros [H1 H2] [H3 H4]. split; [lia|]. intros j. by rewrite H4, H2. Qed.

Lemma nd_set_core ns a nd nd' : nd_at ns a = Some nd -> core nd' = core nd -> same_core ns (nd_set ns a nd').
Proof.
  intros E Hc. pose proof (nd_at_range _ _ _ E). split; [apply zlen_nd_set|]. intros j. destruct (decide (j = a)) as [->|]; [|by rewrite nd_set_ne by (done || lia)]. rewrite nd_set_eq, E by done. cbn. by rewrite Hc.
Qed.

Lemma turn_next_core ns a nxt : same_core ns (turn_next ns a nxt).
Proof. unfold turn_next. destruct a as [a|]; [|done]. destruct (nd_at ns a) as [nd|] eqn:E; [|done]. by eapply nd_set_core. Qed.

Lemma turn_prev_core ns b prev : same_core ns (turn_prev ns b prev).
Proof. unfold turn_prev. destruct b as [b|]; [|done]. destruct (nd_at ns b) as [nd|] eqn:E; [|done]. by eapply nd_set_core. Qed.

Lemma turn_next_links ns a nxt j : a <> Some j -> nd_at (turn_next ns a nxt) j = nd_at ns j.
Proof. intros Ha. unfold turn_next. destruct a as [a|]; [|done]. destruct (nd_at ns a) as [nd|] eqn:E; [|done]. pose proof (nd_at_range _ _ _ E). rewrite nd_set_ne; [done|lia|congruence]. Qed.

Lemma turn_prev_links ns b prev j : b <> Some j -> nd_at (turn_prev ns b prev) j = nd_at ns j.
Proof. intros Hb. unfold turn_prev. destruct b as [b|]; [|done]. destruct (nd_at ns b) as [nd|] eqn:E; [|done]. pose proof (nd_at_range _ _ _ E). rewrite nd_set_ne; [done|lia|congruence]. Qed.

Lemma seg_turn_next ns k prev q nxt nxt' : NoDup q -> seg ns k prev q nxt -> seg (turn_next ns (last q) nxt') k prev q nxt'.
Proof.
  intros Hn Hs. destruct (snoc_cases q) as [->|(q' & a & ->)]; [done|]. rewrite last_snoc. apply NoDup_app in Hn as (_ & Hn & _). destruct (seg_node _ _ _ _ _ a Hs) as (nd & E & _); [by apply elem_of_app; right; left|].
  cbn [turn_next]. rewrite E. eapply seg_turn_last; [|done|done]. intros Ha. by apply (Hn a Ha), list_elem_of_singleton.
Qed.

Lemma seg_turn_prev ns k prev prev' q nxt : NoDup q -> seg ns k prev q nxt -> seg (turn_prev ns (head q) prev') k prev' q nxt.
Proof.
  intros Hn Hs. destruct q as [|b q]; [done|]. apply NoDup_cons in Hn as [Hb _]. destruct (seg_node _ _ _ _ _ b Hs) as (nd & E & _); [left|]. cbn [turn_prev head]. rewrite E. by eapply seg_turn_first.
Qed.

Lemma last_elem {A} (q : list A) a : last q = Some a -> a ∈ q.
Proof. intros (q' & ->)%last_Some. apply elem_of_app. right. by left. Qed.

Lemma head_elem {A} (q : list A) a : head q = Some a -> a ∈ q.
Proof. destruct q; [done|]. intros [= ->]. by left. Qed.

Definition cut (ns : list waitNode) (q1 q2 : list Z) : list waitNode := turn_prev (turn_next ns (last q1) (default nilIdx (head q2))) (head q2) (default nilIdx (last q1)).

Lemma seg_cut ns k q1 i q2 : NoDup (q1 ++ i :: q2) -> seg ns k nilIdx (q1 ++ i :: q2) nilIdx -> seg (cut ns q1 q2) k nilIdx (q1 ++ q2) nilIdx.
Proof.
  intros Hn Hs. apply seg_app in Hs as [H1 [_ H2]]. apply NoDup_app in Hn as (Hn1 & Hd & [_ Hn2]%NoDup_cons).
  assert (Hd' : forall j, j ∈ q1 -> j ∉ q2) by (intros j Hj Hq; apply (Hd j Hj); by right).
  apply seg_app. unfold cut. set (ns1 := turn_next _ _ _). assert (H1' : seg ns1 k nilIdx q1 (default nilIdx (head q2))) by (by eapply seg_turn_next).
  assert (H2' : seg ns1 k i q2 nilIdx) by (apply (seg_ext ns); [|done]; intros j Hj; unfold ns1; rewrite turn_next_links; [done|]; intros Ha%last_elem; by apply (Hd' j)).
  split; [|by eapply seg_turn_prev]. apply (seg_ext ns1); [|done]. intros j Hj. rewrite turn_prev_links; [done|]. intros Hb%head_elem. by apply (Hd' j).
Qed.

(** Fields of the world other than the slab and the effects. *)
Definition rest_same (w w' : world) : Prop :=
  w_heap w' = w_heap w /\ w_m w' = w_m w /\ w_ready w' = w_ready w /\ w_resident w' = w_resident w /\ w_claims w' = w_claims w.

Lemma rest_same_trans w1 w2 w3 : rest_same w1 w2 -> rest_same w2 w3 -> rest_same w1 w3.
Proof. intros (? & ? & ? & ? & ?) (? & ? & ? & ? & ?). by split_and!; etrans. Qed.

Lemma wl_of_zlen q wl : wl_of q = Some wl -> wl_n wl = zlen q.
Proof. by destruct q; [|intros [= <-]]. Qed.

Lemma default_nil_head (q : list Z) : Forall (fun i => i < nilIdx) q -> (default nilIdx (head q) =? nilIdx) = match q with [] => true | _ => false end.
Proof. destruct q as [|a q]; [done|]. intros [Ha _]%Forall_cons. apply Z.eqb_neq. cbn. unfold nilIdx in *. lia. Qed.

Lemma default_nil_last (q : list Z) : Forall (fun i => i < nilIdx) q -> (default nilIdx (last q) =? nilIdx) = match q with [] => true | _ => false end.
Proof.
  destruct (snoc_cases q) as [->|(q' & a & ->)]; [done|]. intros [_ [Ha _]%Forall_cons]%Forall_app. rewrite last_snoc. cbn [default from_option id].
  assert ((a =? nilIdx) = false) as -> by (apply Z.eqb_neq; lia). by destruct q'.
Qed.

Lemma with_wait_id w : with_wait w (w_waiters w) (w_nodes w) (w_free w) = w.
Proof. by destruct w. Qed.

Lemma turn_next_run w q nxt : Forall (fun i => i < nilIdx) q -> (forall i, i ∈ q -> is_Some (nd_at (w_nodes w) i)) ->
  (if default nilIdx (last q) =? nilIdx then Ok w else let* a := node w (default nilIdx (last q)) in Ok (set_node w (default nilIdx (last q)) (with_links a (wn_prev a) nxt)) : P world)
    = Ok (with_wait w (w_waiters w) (turn_next (w_nodes w) (last q) nxt) (w_free w)).
Proof.
  intros Hr Hq. rewrite default_nil_last by done. destruct (snoc_cases q) as [->|(q' & a & ->)]; [cbn; by rewrite with_wait_id|]. rewrite last_snoc. cbn [default from_option id turn_next].
  destruct (Hq a) as [nd E]; [by apply elem_of_app; right; left|]. rewrite node_eq, E. by destruct q'.
Qed.

Lemma turn_prev_run w q prev : Forall (fun i => i < nilIdx) q -> (forall i, i ∈ q -> is_Some (nd_at (w_nodes w) i)) ->
  (if default nilIdx (head q) =? nilIdx then Ok w else let* b := node w (default nilIdx (head q)) in Ok (set_node w (default nilIdx (head q)) (with_links b prev (wn_next b))) : P world)
    = Ok (with_wait w (w_waiters w) (turn_prev (w_nodes w) (head q) prev) (w_free w)).
Proof.
  intros Hr Hq. rewrite default_nil_head by done. destruct q as [|b q]; [cbn; by rewrite with_wait_id|]. cbn [head default from_option id turn_prev]. destruct (Hq b) as [nd E]; [left|]. by rewrite node_eq, E.
Qed.

Lemma same_core_some ns ns' i : same_core ns ns' -> is_Some (nd_at ns i) -> is_Some (nd_at ns' i).
Proof. intros [_ H] [nd E]. specialize (H i). rewrite E in H. destruct (nd_at ns' i); [by eexists|done]. Qed.

Lemma linked_queue w En k : linked w En -> Forall (fun i => i < nilIdx) (queue En k) /\ forall i, i ∈ queue En k -> is_Some (nd_at (w_nodes w) i).
Proof.
  intros H. split; [apply Forall_forall|]; intros i Hi%elem_of_queue; destruct (linked_node w En k i H Hi) as (nd & E & _ & ?); [lia|]. by exists nd.
Qed.

Lemma unlink_ok w E1 k i E2 : linked w (E1 ++ (k, i) :: E2) ->
  exists w', unlink w i = Ok w' /\ linked w' (E1 ++ E2) /\ rest_same w w' /\ same_core (w_nodes w) (w_nodes w') /\ w_free w' = w_free w /\ w_out w' = w_out w.
Proof.
  intros H. pose proof H as [Hz Hs Hw Hn]. set (En := E1 ++ (k, i) :: E2) in *. set (q1 := queue E1 k). set (q2 := queue E2 k).
  assert (Hq : queue En k = q1 ++ i :: q2) by (unfold En; rewrite queue_app, queue_cons, decide_True by done; done).
  destruct (linked_queue w En k H) as [Hr Hex]. rewrite Hq in Hr, Hex. pose proof Hr as [Hr1 [Hri Hr2]%Forall_cons]%Forall_app.
  assert (Hex1 : forall j, j ∈ q1 -> is_Some (nd_at (w_nodes w) j)) by (intros j Hj; apply Hex, elem_of_app; by left).
  assert (Hex2 : forall j, j ∈ q2 -> is_Some (nd_at (w_nodes w) j)) by (intros j Hj; apply Hex, elem_of_app; right; by right).
  pose proof (Hs k) as Hsk. rewrite Hq in Hsk. pose proof Hsk as Hsk'. apply seg_app in Hsk' as [_ [(nd & Ei & Hk & Hp & Hnx) _]].
  unfold unlink. rewrite node_eq, Ei, Hk, Hw, Hq. replace (wl_of (q1 ++ i :: q2)) with (Some (mkWaitList (default nilIdx (head (q1 ++ i :: q2))) (default nilIdx (last (q1 ++ i :: q2))) (zlen (q1 ++ i :: q2)))) by (by destruct q1).
  cbn [wl_head wl_tail wl_n]. rewrite Hp, Hnx, (turn_next_run w q1) by done. set (w1 := with_wait _ _ _ _).
  rewrite (turn_prev_run w1 q2) by first [done|intros j Hj; apply (same_core_some (w_nodes w)); [apply turn_next_core|by apply Hex2]]. set (w2 := with_wait w1 _ _ _). cbv zeta. cbn [wl_n].
  assert (Hwl : wl_of (q1 ++ q2) = if zlen (q1 ++ i :: q2) - 1 =? 0 then None else Some (mkWaitList (if default nilIdx (last q1) =? nilIdx then default nilIdx (head q2) else default nilIdx (head (q1 ++ i :: q2)))
    (if default nilIdx (head q2) =? nilIdx then default nilIdx (last q1) else default nilIdx (last (q1 ++ i :: q2))) (zlen (q1 ++ i :: q2) - 1))).
  { rewrite default_nil_last, default_nil_head by done. assert (Hz1 : zlen (q1 ++ i :: q2) - 1 = zlen (q1 ++ q2)) by (rewrite !zlen_app, zlen_cons; lia). rewrite Hz1.
    destruct q1 as [|a q1']; cbn [app].
    - destruct q2 as [|b q2']; [done|]. destruct (Z.eqb_spec (zlen (b :: q2')) 0) as [E0|_]; [rewrite zlen_cons in E0; pose proof (zlen_nonneg q2'); lia|]. done.
    - destruct (Z.eqb_spec (zlen (a :: q1' ++ q2)) 0) as [E0|_]; [rewrite zlen_cons in E0; pose proof (zlen_nonneg (q1' ++ q2)); lia|]. cbn [wl_of head default from_option id]. do 2 f_equal. destruct q2 as [|b q2']; [by rewrite app_nil_r|].
      rewrite (app_comm_cons q1' (b :: q2') a), (app_comm_cons q1' (i :: b :: q2') a), !last_app_cons. done. }
  eexists. split; [done|].
  assert (Hnodes : w_nodes w2 = cut (w_nodes w) q1 q2) by done.
  assert (Hcore : same_core (w_nodes w) (cut (w_nodes w) q1 q2)) by (eapply same_core_trans; [apply turn_next_core|apply turn_prev_core]).
  split; [|destruct (zlen (q1 ++ i :: q2) - 1 =? 0); by split_and!].
  assert (Hl : forall w', w_nodes w' = cut (w_nodes w) q1 q2 -> w_waiters w' = match wl_of (q1 ++ q2) with None => delete k (w_waiters w) | Some wl => <[k := wl]> (w_waiters w) end -> linked w' (E1 ++ E2)).
  { intros w' E1' E2'. assert (Hq' : forall k', queue (E1 ++ E2) k' = if decide (k' = k) then q1 ++ q2 else queue En k').
    { intros k'. unfold En. rewrite !queue_app, queue_cons. destruct (decide (k' = k)) as [->|Hne]; [done|]. by rewrite decide_False. }
    split.
    - rewrite E1'. destruct Hcore. lia.
    - intros k'. rewrite E1', Hq'. destruct (decide (k' = k)) as [->|Hne]; [apply (seg_cut _ _ _ i); [rewrite <- Hq; by apply queue_NoDup|done]|]. apply (seg_ext (w_nodes w)); [|apply Hs].
      assert (Hout : forall j, j ∈ queue En k' -> j ∉ queue En k) by (intros j H1%elem_of_queue H2%elem_of_queue; apply Hne; by eapply same_key).
      rewrite Hq in Hout. intros j Hj. unfold cut. rewrite turn_prev_links, turn_next_links; [done| |].
      + intros Ha%last_elem. apply (Hout j Hj), elem_of_app. by left.
      + intros Ha%head_elem. apply (Hout j Hj), elem_of_app. right. by right.
    - intros k'. rewrite E2', Hq'. destruct (decide (k' = k)) as [->|Hne].
      + destruct (wl_of (q1 ++ q2)); [by rewrite lookup_insert_eq|by rewrite lookup_delete_eq].
      + rewrite <- Hw. destruct (wl_of (q1 ++ q2)); [by rewrite lookup_insert_ne|by rewrite lookup_delete_ne].
    - unfold En in Hn. rewrite fmap_app, fmap_cons in Hn. apply NoDup_app in Hn as (? & Hd & [? ?]%NoDup_cons). rewrite fmap_app. apply NoDup_app. split_and!; [done| |done]. intros x Hx Hx2. apply (Hd x Hx). by right. }
  apply Hl; [by destruct (zlen (q1 ++ i :: q2) - 1 =? 0)|]. rewrite Hwl. by destruct (zlen (q1 ++ i :: q2) - 1 =? 0).
Qed.

(** ** Rings *)

(** The siblings [l], each naming the next, the last one [stop]. *)
Fixpoint ring (ns : list waitNode) (l : list Z) (stop : Z) : Prop :=
  match l with
  | [] => True
  | i :: l' => (exists nd, nd_at ns i = Some nd /\ wn_sib nd = default stop (head l')) /\ ring ns l' stop
  end.

Lemma ring_app ns l1 l2 stop : ring ns (l1 ++ l2) stop <-> ring ns l1 (default stop (head l2)) /\ ring ns l2 stop.
Proof. induction l1 as [|i l1 IH]; cbn [app ring]; [tauto|]. rewrite IH, head_app_default. tauto. Qed.

Lemma ring_ext ns ns' l stop : (forall i, i ∈ l -> wn_sib <$> nd_at ns' i = wn_sib <$> nd_at ns i) -> ring ns l stop -> ring ns' l stop.
Proof.
  induction l as [|i l IH]; intros Hl; cbn [ring]; [done|]. intros [(nd & E & Hs) Hr]. split.
  - specialize (Hl i (list_elem_of_here _ _)). rewrite E in Hl. destruct (nd_at ns' i) as [nd'|]; [|done]. injection Hl as E1. exists nd'. by rewrite E1.
  - apply IH; [|done]. intros j Hj. by apply Hl, list_elem_of_further.
Qed.

(** A closed ring closes from any of its nodes. *)
Lemma ring_rotate ns l1 i l2 : ring ns (l1 ++ i :: l2) (default i (head (l1 ++ i :: l2))) -> ring ns (i :: l2 ++ l1) i.
Proof.
  intros [H1 H2]%ring_app. change (i :: l2 ++ l1) with ((i :: l2) ++ l1). apply ring_app. split; [|done]. by destruct l1.
Qed.

Definition slab_of (nd : waitNode) : waitNode := with_sib (with_links nd 0 0) 0.

Lemma linked_ext w w' En : linked w En -> w_waiters w' = w_waiters w -> zlen (w_nodes w') = zlen (w_nodes w) ->
  (forall i, i ∈ En.*2 -> links <$> nd_at (w_nodes w') i = links <$> nd_at (w_nodes w) i) -> linked w' En.
Proof.
  intros [Hz Hs Hw Hn] E1 E2 E3. split; [lia| |by intros k; rewrite E1|done]. intros k. apply (seg_ext (w_nodes w)); [|done]. intros i Hi%elem_of_queue. apply E3. by apply (list_elem_of_fmap_2 snd) in Hi.
Qed.

(** The timers the nodes hold. *)
Definition timers (ns : list waitNode) (l : list Z) : list effect := l ≫= (fun i => match nd_at ns i with Some nd => match wn_timer nd with Some t => [ECancelTimer t] | None => [] end | None => [] end).

Lemma timers_ext ns ns' l : (forall i, i ∈ l -> core <$> nd_at ns' i = core <$> nd_at ns i) -> timers ns' l = timers ns l.
Proof.
  intros Hl. unfold timers. induction l as [|i l IH]; [done|]. cbn [mbind list_bind]. rewrite IH by (intros j Hj; by apply Hl, list_elem_of_further). f_equal.
  specialize (Hl i (list_elem_of_here _ _)). destruct (nd_at ns' i) as [nd'|], (nd_at ns i) as [nd|]; try done. injection Hl as E. by destruct nd, nd'; cbn in *; subst.
Qed.

Definition without (l : list Z) (En : list (bytes * Z)) : list (bytes * Z) := filter (fun x => x.2 ∉ l) En.

Lemma without_split E1 k j E2 l : NoDup (E1 ++ (k, j) :: E2).*2 -> without (j :: l) (E1 ++ (k, j) :: E2) = without l (E1 ++ E2).
Proof.
  intros Hn. assert (Hf : forall E, j ∉ E.*2 -> without (j :: l) E = without l E).
  { intros E. unfold without. induction E as [|[k' i] E IH]; [done|]. rewrite fmap_cons, not_elem_of_cons. intros [Hi HE]. rewrite !filter_cons, IH by done. cbn [snd] in *.
    destruct (decide (i ∉ l)); [rewrite decide_True; [done|]|rewrite decide_False; [done|]]; rewrite elem_of_cons; naive_solver. }
  rewrite fmap_app, fmap_cons in Hn. apply NoDup_app in Hn as (_ & Hd & [Hj _]%NoDup_cons). unfold without at 1. rewrite filter_app, filter_cons. cbn [snd]. rewrite decide_False by (intros H; apply H; by left).
  fold (without (j :: l) E1) (without (j :: l) E2). rewrite !Hf; [by unfold without; rewrite filter_app|done|]. intros Hj1. by apply (Hd j Hj1); left.
Qed.

(** The nodes outside [l] untouched. *)
Definition same_out (l : list Z) (ns ns' : list waitNode) : Prop := zlen ns' = zlen ns /\ forall j, j ∉ l -> core <$> nd_at ns' j = core <$> nd_at ns j.

Lemma core_sib (x y : option waitNode) : core <$> x = core <$> y -> wn_sib <$> x = wn_sib <$> y.
Proof. intros E. apply (f_equal (fmap wn_sib)) in E. by destruct x, y. Qed.

Lemma without_nil E : without [] E = E.
Proof. unfold without. induction E as [|x E IH]; [done|]. rewrite filter_cons, decide_True, IH; [done|apply not_elem_of_nil]. Qed.

Lemma without_cons j l E : without (j :: l) E = without l (without [j] E).
Proof.
  unfold without. induction E as [|x E IH]; [done|]. rewrite !filter_cons, IH. destruct (decide (x.2 ∉ [j])) as [Hj|Hj].
  - rewrite filter_cons. destruct (decide (x.2 ∉ l)); [rewrite decide_True by set_solver|rewrite decide_False by set_solver]; done.
  - by rewrite decide_False by set_solver.
Qed.

(** One node of a ring off its queue. *)
Lemma unlink_step w En j nd : linked w En -> nd_at (w_nodes w) j = Some nd -> j ∈ En.*2 ->
  exists w', unlink (cancelTimer (set_node w j (with_state nd None (wn_deadline nd) false (wn_serving nd))) (wn_timer nd)) j = Ok w'
    /\ linked w' (without [j] En) /\ rest_same w w' /\ same_out [j] (w_nodes w) (w_nodes w') /\ w_free w' = w_free w /\ w_out w' = w_out w ++ timers (w_nodes w) [j].
Proof.
  intros H Ej Hin. set (nd' := with_state _ _ _ _ _). set (w1 := cancelTimer _ _). pose proof (nd_at_range _ _ _ Ej) as Hj0.
  assert (Hw1 : w_nodes w1 = nd_set (w_nodes w) j nd' /\ w_waiters w1 = w_waiters w /\ w_free w1 = w_free w /\ rest_same w w1 /\ w_out w1 = w_out w ++ timers (w_nodes w) [j]).
  { unfold w1, cancelTimer, timers. cbn [mbind list_bind]. rewrite Ej. destruct (wn_timer nd); by split_and!; rewrite ?app_nil_r. }
  destruct Hw1 as (En1 & Ew1 & Ef1 & Hrest1 & Eo1).
  assert (H1 : linked w1 En). { apply (linked_ext w); [done|done|by rewrite En1, zlen_nd_set|]. intros i _. rewrite En1. destruct (decide (j = i)) as [<-|]; [by rewrite nd_set_eq, Ej|by rewrite nd_set_ne by (done || lia)]. }
  apply list_elem_of_fmap in Hin as ([k j'] & Ejj & (Ea & Eb & ->)%list_elem_of_split). cbn in Ejj. subst j'.
  destruct (unlink_ok w1 Ea k j Eb H1) as (w2 & E2 & H2 & Hrest2 & Hcore2 & Ef2 & Eo2). exists w2. rewrite (without_split Ea k j Eb []), without_nil by apply H.
  split_and!; [done|done|by eapply rest_same_trans| |by rewrite Ef2|by rewrite Eo2]. destruct Hcore2 as [Hz Hc]. rewrite En1, zlen_nd_set in Hz. split; [done|].
  intros i Hi. rewrite Hc, En1, nd_set_ne; [done|lia|]. intros ->. apply Hi. left.
Qed.

Lemma in_without i l (E : list (bytes * Z)) : i ∈ (without l E).*2 <-> i ∈ E.*2 /\ i ∉ l.
Proof.
  rewrite !list_elem_of_fmap. unfold without. split.
  - intros (x & -> & [Hl Hx]%list_elem_of_filter). split; [by exists x|done].
  - intros [(x & -> & Hx) Hl]. exists x. split; [done|]. by apply list_elem_of_filter.
Qed.

Lemma unlink_ring_ok idx l : forall fuel w En j, (length (j :: l) <= fuel)%nat -> linked w En -> NoDup (j :: l) -> (forall i, i ∈ j :: l -> i ∈ En.*2) -> ring (w_nodes w) (j :: l) idx -> idx ∉ l ->
  exists w', unlink_ring fuel w idx j = Ok w' /\ linked w' (without (j :: l) En) /\ rest_same w w' /\ same_out (j :: l) (w_nodes w) (w_nodes w')
    /\ w_free w' = w_free w ++ j :: l /\ w_out w' = w_out w ++ timers (w_nodes w) (j :: l).
Proof.
  induction l as [|j2 l IH]; intros fuel w En j Hf H Hn Hin Hr Hidx; (destruct fuel as [|fuel]; [cbn in Hf; lia|]); cbn [unlink_ring]; destruct Hr as [(nd & Ej & Hsib) Hr]; cbn [head default from_option id] in Hsib; rewrite node_eq, Ej; cbv zeta;
    (destruct (unlink_step w En j nd H Ej) as (w2 & E2 & H2 & Hrest2 & [Hz2 Hsame] & Ef2 & Eo2); [apply Hin; left|]); rewrite E2, Hsib.
  - rewrite Z.eqb_refl. eexists. split; [done|]. split_and!; [by eapply linked_ext|done|done|cbn; by rewrite Ef2|done].
  - destruct (Z.eqb_spec j2 idx) as [->|_]; [by destruct Hidx; left|]. apply NoDup_cons in Hn as [Hjl Hn]. assert (Hne : forall i, i ∈ j2 :: l -> i ∉ [j]) by (intros i Hi ->%list_elem_of_singleton; done).
    destruct (IH fuel (release w2 j) (without [j] En) j2) as (w3 & E3 & H3 & Hrest3 & [Hz3 Hc3] & Ef3 & Eo3).
    + cbn in *. lia.
    + by eapply linked_ext.
    + done.
    + intros i Hi. apply in_without. split; [by apply Hin; right|by apply Hne].
    + cbn [release with_wait w_nodes]. apply (ring_ext (w_nodes w)); [|done]. intros i Hi. by apply core_sib, Hsame, Hne.
    + intros Hi. apply Hidx. by right.
    + exists w3. cbn [release with_wait w_nodes w_free w_out] in *. rewrite E3, without_cons. split_and!; [done|done|by eapply rest_same_trans| | |].
      * split; [lia|]. intros i [Hij Hi]%not_elem_of_cons. rewrite Hc3 by done. apply Hsame. by intros ->%list_elem_of_singleton.
      * by rewrite Ef3, Ef2, <- (assoc_L (++)).
      * rewrite Eo3, Eo2, (timers_ext (w_nodes w) (w_nodes w2) (j2 :: l)) by (intros i Hi; by apply Hsame, Hne). rewrite <- (assoc_L (++)). f_equal. unfold timers. cbn [mbind list_bind]. by rewrite app_nil_r.
Qed.

(** ** Blocked clients *)

(** A parked client: its connection and sequence number, what it waits for, its armed timer, and
    its nodes with their keys, in ring order. *)
Record awaiter := mkAwaiter { aw_conn : Z; aw_seq : Z; aw_spec : waitSpec; aw_timer : option Z; aw_at : list (bytes * Z) }.

Definition entries (As : list awaiter) : list (bytes * Z) := As ≫= aw_at.

(** What every node of a client says of it. *)
Definition face (nd : waitNode) : Z * Z * option Z * wkind * bool * bool * bool * bool * Z * bytes :=
  (wn_conn nd, wn_seq nd, wn_claim nd, wn_kind nd, wn_front nd, wn_dstLeft nd, wn_live nd, wn_serving nd, wn_count nd, wn_dstKey nd).

Definition face_of (c seq : Z) (s : waitSpec) : Z * Z * option Z * wkind * bool * bool * bool * bool * Z * bytes :=
  (c, seq, ws_claim s, ws_kind s, ws_front s, ws_dstLeft s, true, false, ws_count s, ws_dstKey s).

Definition timer_fx (t : option Z) : list effect := match t with Some t => [ECancelTimer t] | None => [] end.

Record good (ns : list waitNode) (a : awaiter) : Prop := {
  gd_some : aw_at a <> [];
  gd_ring : ring ns (aw_at a).*2 (default 0 (head (aw_at a).*2));
  gd_face : Forall (fun i => face <$> nd_at ns i = Some (face_of (aw_conn a) (aw_seq a) (aw_spec a))) (aw_at a).*2;
  gd_timer : timers ns (aw_at a).*2 = timer_fx (aw_timer a);
  gd_tail : timers ns (tail (aw_at a).*2) = []
}.

(** The slab holds the clients [As], and the nodes [at_] of one that is parking. *)
Record pool (w : world) (As : list awaiter) (at_ : list (bytes * Z)) : Prop := {
  pl_linked : linked w (entries As ++ at_);
  pl_good : Forall (good (w_nodes w)) As;
  pl_free : NoDup (w_free w);
  pl_fresh : Forall (fun i => 0 <= i < zlen (w_nodes w) /\ i ∉ (entries As ++ at_).*2) (w_free w)
}.

Abbreviation slab w As := (pool w As []).

Lemma entries_app A1 A2 : entries (A1 ++ A2) = entries A1 ++ entries A2.
Proof. unfold entries. apply bind_app. Qed.

Lemma core_face (x y : option waitNode) : core <$> x = core <$> y -> face <$> x = face <$> y.
Proof. intros E. apply (f_equal (fmap face)) in E. by destruct x, y. Qed.

Lemma good_ext ns ns' a : (forall i, i ∈ (aw_at a).*2 -> core <$> nd_at ns' i = core <$> nd_at ns i) -> good ns a -> good ns' a.
Proof.
  intros Hc [H1 H2 H3 H4 H5]. split; [done| | |by rewrite (timers_ext ns)|].
  3: { rewrite (timers_ext ns); [done|]. intros i Hi. apply Hc. destruct (aw_at a).*2; [done|]. by right. }
  - apply (ring_ext ns); [|done]. intros i Hi. by apply core_sib, Hc.
  - rewrite Forall_forall in *. intros i Hi. rewrite <- (H3 i Hi). by apply core_face, Hc.
Qed.

Lemma in_entries a As i : a ∈ As -> i ∈ (aw_at a).*2 -> i ∈ (entries As).*2.
Proof.
  intros Ha Hi. apply list_elem_of_fmap in Hi as (x & -> & Hx). apply list_elem_of_fmap_2. unfold entries. apply list_elem_of_bind. by exists a.
Qed.

(** Everything outside [l] untouched leaves the clients without nodes there good. *)
Lemma good_out l ns ns' As : same_out l ns ns' -> (forall i, i ∈ (entries As).*2 -> i ∉ l) -> Forall (good ns) As -> Forall (good ns') As.
Proof.
  intros [_ Hs] Hl. rewrite !Forall_forall. intros HA a Ha. apply (good_ext ns); [|by apply HA]. intros i Hi. apply Hs, Hl. by eapply in_entries.
Qed.

Lemma without_all l (E : list (bytes * Z)) : (forall i, i ∈ E.*2 -> i ∈ l) -> without l E = [].
Proof.
  intros Hl. unfold without. induction E as [|x E IH]; [done|]. rewrite filter_cons, decide_False, IH; [done| |].
  - intros i Hi. apply Hl. rewrite fmap_cons. by right.
  - intros H. apply H, Hl. rewrite fmap_cons. left.
Qed.

Lemma without_disjoint l (E : list (bytes * Z)) : (forall i, i ∈ E.*2 -> i ∉ l) -> without l E = E.
Proof.
  intros Hl. unfold without. induction E as [|x E IH]; [done|]. rewrite filter_cons, decide_True, IH; [done| |].
  - intros i Hi. apply Hl. rewrite fmap_cons. by right.
  - apply Hl. rewrite fmap_cons. left.
Qed.

Lemma length_indices l n : NoDup l -> (forall i, i ∈ l -> 0 <= i < Z.of_nat n) -> (length l <= n)%nat.
Proof.
  intros Hn Hl. assert (Hs : l ⊆+ seqZ 0 (Z.of_nat n)) by (apply NoDup_submseteq; [done|]; intros i Hi; apply elem_of_seqZ; specialize (Hl i Hi); lia).
  apply submseteq_length in Hs. rewrite length_seqZ in Hs. lia.
Qed.

Lemma timers_app ns l1 l2 : timers ns (l1 ++ l2) = timers ns l1 ++ timers ns l2.
Proof. apply bind_app. Qed.

Lemma short_comm {A} (x y : list A) : (length (x ++ y) <= 1)%nat -> y ++ x = x ++ y.
Proof. rewrite length_app. destruct x, y; cbn; try lia; intros _; by rewrite ?app_nil_r. Qed.

Lemma pool_same w w' As at_ : pool w As at_ -> w_waiters w' = w_waiters w -> w_nodes w' = w_nodes w -> w_free w' = w_free w -> pool w' As at_.
Proof.
  intros [Hl Hg Hf Hfr] E1 E2 E3. split; rewrite ?E2, ?E3; try done. apply (linked_ext w); [done|done|by rewrite E2|]. intros i _. by rewrite E2.
Qed.

Lemma empty_slab : slab empty_world [].
Proof. split; [|apply Forall_nil_2|apply NoDup_nil_2|apply Forall_nil_2]. split; [by vm_compute|done| |apply NoDup_nil_2]. intros k. cbn. by rewrite lookup_empty. Qed.

(** A served or expired client leaves every queue it is on. *)
Lemma unlinkAll_ok w A1 a A2 i : slab w (A1 ++ a :: A2) -> i ∈ (aw_at a).*2 ->
  exists w', unlinkAll w i = Ok w' /\ slab w' (A1 ++ A2) /\ rest_same w w' /\ w_out w' = w_out w ++ timer_fx (aw_timer a) /\ zlen (w_nodes w') = zlen (w_nodes w).
Proof.
  intros [Hl Hg Hf Hfr] Hi. rewrite app_nil_r in *. pose proof Hg as [Hg1 [Hga Hg2]%Forall_cons]%Forall_app. pose proof (ln_nodup _ _ Hl) as Hn.
  assert (Ee : entries (A1 ++ a :: A2) = entries A1 ++ aw_at a ++ entries A2) by (rewrite entries_app; done). rewrite Ee in *. rewrite !fmap_app in Hn. apply NoDup_app in Hn as (Hn1 & Hd1 & (Hna & Hd2 & Hn2)%NoDup_app).
  apply list_elem_of_split in Hi as (l1 & l2 & El). destruct Hga as [_ Hr _ Ht _]. rewrite El in Hr, Ht, Hna, Hd1, Hd2.
  assert (Hr' : ring (w_nodes w) (i :: l2 ++ l1) i) by (apply ring_rotate; by destruct l1). assert (Hp : i :: l2 ++ l1 ≡ₚ l1 ++ i :: l2) by (rewrite <- (Permutation_app_comm (i :: l2) l1); done).
  assert (Hin : forall j, j ∈ i :: l2 ++ l1 <-> j ∈ (aw_at a).*2) by (intros j; by rewrite Hp, El).
  assert (Hex : forall j, j ∈ i :: l2 ++ l1 -> j ∈ (entries A1 ++ aw_at a ++ entries A2).*2) by (intros j Hj%Hin; rewrite !fmap_app, !elem_of_app; tauto).
  assert (Hnr : NoDup (i :: l2 ++ l1)) by (by rewrite Hp). assert (Hil : i ∉ l2 ++ l1) by (by apply NoDup_cons in Hnr as [? _]).
  assert (Hlen : (length (i :: l2 ++ l1) <= length (w_nodes w))%nat).
  { apply length_indices; [done|]. intros j Hj%Hex. apply list_elem_of_fmap in Hj as ([k j'] & -> & Hj). destruct (linked_node _ _ _ _ Hl Hj) as (nd & E & _). apply nd_at_range in E. by unfold zlen in E. }
  destruct (unlink_ring_ok i (l2 ++ l1) (length (w_nodes w)) w _ i Hlen Hl Hnr Hex Hr' Hil) as (w' & E & Hl' & Hrest & Hs & Ef & Eo).
  assert (Hout : forall j, j ∈ (entries (A1 ++ A2)).*2 -> j ∉ i :: l2 ++ l1).
  { intros j Hj Hj2%Hin. rewrite entries_app, fmap_app, elem_of_app in Hj. rewrite El in Hj2. destruct Hj as [Hj|Hj]; [apply (Hd1 j Hj); rewrite ?El; apply elem_of_app; by left|by apply (Hd2 j Hj2)]. }
  exists w'. split_and!; [done| |done| |by destruct Hs].
  - assert (Ew : without (i :: l2 ++ l1) (entries A1 ++ aw_at a ++ entries A2) = entries (A1 ++ A2)).
    { unfold without. rewrite !filter_app. fold (without (i :: l2 ++ l1) (entries A1)) (without (i :: l2 ++ l1) (aw_at a)) (without (i :: l2 ++ l1) (entries A2)). rewrite (without_all _ (aw_at a)) by (intros j Hj; by apply Hin). rewrite entries_app in *.
      rewrite !without_disjoint; [done| |]; intros j Hj; apply Hout; rewrite fmap_app, elem_of_app; tauto. }
    rewrite Ew in Hl'. split; [by rewrite app_nil_r|eapply good_out; [done|done|by apply Forall_app]| |].
    + rewrite Ef. apply NoDup_app. split_and!; [done| |done]. intros j Hj Hj2. rewrite Forall_forall in Hfr. by apply (proj2 (Hfr j Hj)), Hex.
    + rewrite app_nil_r, Ef. destruct Hs as [Hz _]. rewrite Hz. apply Forall_app. split.
      * eapply Forall_impl; [done|]. intros j [? Hj]. split; [done|]. intros Hj2. apply Hj. rewrite entries_app, fmap_app, elem_of_app in Hj2. rewrite !fmap_app, !elem_of_app. tauto.
      * apply Forall_forall. intros j Hj. split; [|by intros ?%Hout]. apply Hex, list_elem_of_fmap in Hj as ([k j'] & -> & Hj). destruct (linked_node _ _ _ _ Hl Hj) as (nd & En & _). by apply nd_at_range in En.
  - rewrite Eo. f_equal. rewrite <- Ht. change (i :: l2 ++ l1) with ((i :: l2) ++ l1). rewrite !timers_app. apply short_comm. rewrite <- timers_app, Ht. by destruct (aw_timer a); cbn; lia.
Qed.

(** ** Parking *)

Lemma nd_at_app ns nd i : 0 <= i < zlen ns -> nd_at (ns ++ [nd]) i = nd_at ns i.
Proof. intros Hi. unfold nd_at. destruct (i <? 0); [done|]. apply lookup_app_l. unfold zlen in Hi. lia. Qed.

Lemma linked_in_range w En i : linked w En -> i ∈ En.*2 -> 0 <= i < zlen (w_nodes w).
Proof. intros H Hi. apply list_elem_of_fmap in Hi as ([k j] & -> & Hj). destruct (linked_node _ _ _ _ H Hj) as (nd & E & _). by apply nd_at_range in E. Qed.

(** A node nobody uses. *)
Lemma alloc_ok w As at_ : pool w As at_ -> zlen (w_nodes w) < nilIdx ->
  let '(w', i) := alloc w in pool w' As at_ /\ 0 <= i < zlen (w_nodes w') /\ (i ∉ (entries As ++ at_).*2) /\ (i ∉ w_free w') /\ rest_same w w' /\ w_out w' = w_out w /\ w_waiters w' = w_waiters w
    /\ zlen (w_nodes w') <= zlen (w_nodes w) + 1 /\ (forall j, j ∈ (entries As ++ at_).*2 -> nd_at (w_nodes w') j = nd_at (w_nodes w) j).
Proof.
  intros [Hl Hg Hf Hfr] Hz. unfold alloc. destruct (last (w_free w)) as [i|] eqn:El.
  - apply last_Some in El as (fr & Efr). rewrite Efr in Hf, Hfr |- *. rewrite length_app. cbn [length]. replace (length fr + 1 - 1)%nat with (length fr) by lia. rewrite take_app_length. cbn [with_wait w_nodes w_free w_waiters w_out].
    apply NoDup_app in Hf as (Hf & Hd & _). apply Forall_app in Hfr as [Hfr [[Hi Hi2] _]%Forall_cons]. split_and!; try (done || lia); [|intros Hj; apply (Hd i Hj); left]. split; try done. by eapply linked_ext.
  - apply last_None in El. cbn [with_wait w_nodes w_free w_waiters w_out]. assert (Hlen : zlen (w_nodes w ++ [zeroNode]) = zlen (w_nodes w) + 1) by (rewrite zlen_app, zlen_cons, zlen_nil; lia). pose proof (zlen_nonneg (w_nodes w)).
    assert (Hsm : cast32 (zlen (w_nodes w)) = zlen (w_nodes w)) by (unfold cast32; apply Z.mod_small; unfold nilIdx in Hz; lia). rewrite Hsm, Hlen, El.
    assert (Hnd : forall j, j ∈ (entries As ++ at_).*2 -> nd_at (w_nodes w ++ [zeroNode]) j = nd_at (w_nodes w) j) by (intros j Hj; apply nd_at_app; by eapply linked_in_range).
    split_and!; try (done || lia); [|intros Hj%(linked_in_range w); [lia|done]|apply not_elem_of_nil].
    split; cbn [with_wait w_nodes w_free]; [| |apply NoDup_nil_2|by apply Forall_nil].
    + destruct Hl as [Hz' Hs Hw Hn]. split; cbn [with_wait w_nodes w_waiters]; [lia| |done|done]. intros k. apply (seg_ext (w_nodes w)); [|done]. intros j Hj%elem_of_queue. rewrite Hnd; [done|]. by apply (list_elem_of_fmap_2 snd) in Hj.
    + rewrite !Forall_forall in *. intros a Ha. apply (good_ext (w_nodes w)); [|by apply Hg]. intros j Hj. rewrite Hnd; [done|]. rewrite fmap_app, elem_of_app. left. by eapply in_entries.
Qed.

(** The queue of a key grown at its tail. *)
Lemma seg_snoc ns k q i nd : i ∉ q -> NoDup q -> 0 <= i < zlen ns -> seg ns k nilIdx q nilIdx -> wn_wl nd = k -> wn_prev nd = default nilIdx (last q) -> wn_next nd = nilIdx ->
  seg (turn_next (nd_set ns i nd) (last q) i) k nilIdx (q ++ [i]) nilIdx.
Proof.
  intros Hi Hn Hr Hs H1 H2 H3. assert (Hs1 : seg (nd_set ns i nd) k nilIdx q nilIdx) by (apply seg_set_other; [lia|done|done]). apply seg_app. cbn [head default from_option id seg]. split; [by eapply seg_turn_next|].
  split; [|done]. exists nd. split_and!; try done. rewrite turn_next_links; [by apply nd_set_eq|]. intros Ha%last_elem. done.
Qed.

Lemma wl_of_snoc q i : wl_of (q ++ [i]) = Some (mkWaitList (default i (head q)) i (zlen q + 1)).
Proof. assert (E : zlen (q ++ [i]) = zlen q + 1) by (rewrite zlen_app, zlen_cons, zlen_nil; lia). assert (El : last (q ++ [i]) = Some i) by apply last_snoc. destruct q as [|a q]; [done|]. cbn [app wl_of head default from_option id] in *. by rewrite El, E. Qed.

Lemma waitListFor_of w En key : linked w En -> waitListFor w key = mkWaitList (default nilIdx (head (queue En key))) (default nilIdx (last (queue En key))) (zlen (queue En key)).
Proof. intros H. unfold waitListFor. rewrite (ln_wl _ _ H). by destruct (queue En key). Qed.

(** The node a client parks on a key. *)
Definition parked_node (key : bytes) (s : waitSpec) (c seq i : Z) : waitNode :=
  mkWaitNode 0 0 i key c seq None (ws_claim s) 0 (ws_kind s) (ws_front s) (ws_dstLeft s) true false (ws_count s) (ws_dstKey s).

Lemma park_ok w As at_ key s c seq : pool w As at_ -> zlen (w_nodes w) < nilIdx ->
  exists w' i, park w key s c seq = Ok (w', i) /\ pool w' As (at_ ++ [(key, i)]) /\ (i ∉ (entries As ++ at_).*2) /\ core <$> nd_at (w_nodes w') i = Some (parked_node key s c seq i)
    /\ (forall j, j ∈ (entries As ++ at_).*2 -> core <$> nd_at (w_nodes w') j = core <$> nd_at (w_nodes w) j) /\ rest_same w w' /\ w_out w' = w_out w /\ zlen (w_nodes w') <= zlen (w_nodes w) + 1.
Proof.
  intros Hp Hz. unfold park. rewrite (waitListFor_of w _ key (pl_linked _ _ _ Hp)). set (En := entries As ++ at_) in *. set (q := queue En key). cbn [wl_tail wl_head wl_n].
  pose proof (alloc_ok w As at_ Hp Hz) as Ha. fold En in Ha. destruct (alloc w) as [w1 i]. destruct Ha as (Hp1 & Hi & Hfresh & Hifree & Hrest1 & Eo1 & Ew1 & Hz1 & Hnd1). destruct Hp1 as [Hl Hg Hf Hfr]. fold En in Hl, Hfr.
  rewrite node_eq. destruct (nd_at_some (w_nodes w1) i Hi) as [nd0 ->]. cbv zeta. set (nd := mkWaitNode _ _ _ _ _ _ _ _ _ _ _ _ _ _ _ _). set (w2 := set_node w1 i nd).
  destruct (linked_queue w1 En key Hl) as [Hr Hex]. fold q in Hr, Hex. assert (Hiq : i ∉ q) by (intros Hiq%elem_of_queue; apply Hfresh; by apply (list_elem_of_fmap_2 snd) in Hiq).
  assert (Hne : forall j, j ∈ En.*2 -> nd_at (nd_set (w_nodes w1) i nd) j = nd_at (w_nodes w1) j) by (intros j Hj; apply nd_set_ne; [lia|]; by intros ->).
  assert (Hqin : forall j, j ∈ q -> j ∈ En.*2) by (intros j Hj%elem_of_queue; by apply (list_elem_of_fmap_2 snd) in Hj).
  rewrite (turn_next_run w2 q i) by first [done|intros j Hj; cbn [w2 set_node with_wait w_nodes]; unfold w2; cbn [set_node with_wait w_nodes]; change (<[Z.to_nat i:=nd]> (w_nodes w1)) with (nd_set (w_nodes w1) i nd); rewrite Hne; [by apply Hex|by apply Hqin]].
  set (ns := turn_next (nd_set (w_nodes w1) i nd) (last q) i).
  assert (Hcore : same_core (nd_set (w_nodes w1) i nd) ns) by apply turn_next_core. assert (Hzn : zlen ns = zlen (w_nodes w1)) by (destruct Hcore as [-> _]; apply zlen_nd_set).
  assert (Hkeep : forall j, j ∈ En.*2 -> core <$> nd_at ns j = core <$> nd_at (w_nodes w1) j) by (intros j Hj; destruct Hcore as [_ Hc]; by rewrite Hc, Hne).
  eexists _, i. split; [done|]. split_and!; [|done| |intros j Hj; rewrite <- (Hnd1 j Hj); by apply Hkeep|done|done|change (zlen ns <= zlen (w_nodes w) + 1); lia].
  2: { destruct Hcore as [_ Hc]. cbn [set_wl with_wait w_nodes]. change (turn_next (w_nodes w2) (last q) i) with ns. by rewrite Hc, nd_set_eq. }
  split; cbn [set_wl with_wait w_nodes w_free]; change (turn_next (w_nodes w2) (last q) i) with ns.
  - rewrite (assoc_L (++)). fold En. destruct Hl as [Hz' Hs Hw Hn]. split; cbn [set_wl with_wait w_nodes w_waiters]; change (turn_next (w_nodes w2) (last q) i) with ns.
    + lia.
    + intros k. rewrite queue_app, queue_cons. cbn [queue filter fmap list_fmap list_filter]. destruct (decide (key = k)) as [<-|Hk].
      * by apply seg_snoc; try done; apply queue_NoDup.
      * rewrite !app_nil_r. apply (seg_ext (w_nodes w1)); [|apply Hs]. intros j Hj. assert (Hjk : j ∈ En.*2) by (apply elem_of_queue in Hj; by apply (list_elem_of_fmap_2 snd) in Hj). unfold ns. rewrite turn_next_links, Hne; [done|done|].
        intros Hj2%last_elem. apply Hk. apply elem_of_queue in Hj, Hj2. by eapply same_key.
    + intros k. rewrite queue_app, queue_cons. cbn [queue filter fmap list_fmap list_filter]. destruct (decide (key = k)) as [<-|Hk]; [|by rewrite lookup_insert_ne, !app_nil_r by done].
      rewrite lookup_insert_eq. cbn [app]. fold q. rewrite wl_of_snoc, default_nil_last by done. by destruct q.
    + rewrite fmap_app. apply NoDup_app. split_and!; [done|by intros j Hj ->%list_elem_of_singleton|apply NoDup_singleton].
  - rewrite Forall_forall in *. intros a Ha. apply (good_ext (w_nodes w1)); [|by apply Hg]. intros j Hj. apply Hkeep. unfold En. rewrite fmap_app, elem_of_app. left. by eapply in_entries.
  - done.
  - rewrite Hzn, (assoc_L (++)). fold En. rewrite Forall_forall in *. intros j Hj. destruct (Hfr j Hj) as [? Hj2]. split; [done|]. rewrite fmap_app, elem_of_app. intros [?| ->%list_elem_of_singleton]; [done|done].
Qed.

Lemma ring_turn_last ns l a x y nd : a ∉ l -> nd_at ns a = Some nd -> ring ns (l ++ [a]) x -> ring (nd_set ns a (with_sib nd y)) (l ++ [a]) y.
Proof.
  intros Ha E. pose proof (nd_at_range _ _ _ E). rewrite !ring_app. cbn [ring head default from_option id]. intros [H1 _]. split.
  - apply (ring_ext ns); [|done]. intros i Hi. rewrite nd_set_ne; [done|lia|]. by intros ->.
  - split; [|done]. exists (with_sib nd y). by rewrite nd_set_eq by done.
Qed.

(** The sibling link of a parking node set. *)
Lemma pool_set_sib w As at_ j nd s : pool w As at_ -> j ∈ at_.*2 -> nd_at (w_nodes w) j = Some nd -> pool (set_node w j (with_sib nd s)) As at_.
Proof.
  intros [Hl Hg Hf Hfr] Hj E. pose proof (nd_at_range _ _ _ E) as Hr. pose proof (ln_nodup _ _ Hl) as Hn. rewrite fmap_app in Hn. apply NoDup_app in Hn as (_ & Hd & _).
  split; cbn [set_node with_wait w_nodes w_free]; change (<[Z.to_nat j := with_sib nd s]> (w_nodes w)) with (nd_set (w_nodes w) j (with_sib nd s)); [| |done|by rewrite zlen_nd_set].
  - apply (linked_ext w); [done|done|apply zlen_nd_set|]. intros i _. cbn [set_node with_wait w_nodes]. change (<[Z.to_nat j := with_sib nd s]> (w_nodes w)) with (nd_set (w_nodes w) j (with_sib nd s)).
    destruct (decide (j = i)) as [<-|]; [by rewrite nd_set_eq, E|by rewrite nd_set_ne by (done || lia)].
  - rewrite Forall_forall in *. intros a Ha. apply (good_ext (w_nodes w)); [|by apply Hg]. intros i Hi. rewrite nd_set_ne; [done|lia|]. intros ->. apply (Hd i); [by eapply in_entries|done].
Qed.

(** The nodes of a parking client, the last of them still its own sibling. *)
Record opened (ns : list waitNode) (c seq : Z) (s : waitSpec) (l : list Z) : Prop := {
  op_ring : ring ns l (default 0 (last l));
  op_face : Forall (fun i => face <$> nd_at ns i = Some (face_of c seq s)) l;
  op_timer : timers ns l = []
}.

Lemma opened_ext ns ns' c seq s l : (forall i, i ∈ l -> core <$> nd_at ns' i = core <$> nd_at ns i) -> opened ns c seq s l -> opened ns' c seq s l.
Proof.
  intros Hc [H1 H2 H3]. split; [| |by rewrite (timers_ext ns)].
  - apply (ring_ext ns); [|done]. intros i Hi. by apply core_sib, Hc.
  - rewrite Forall_forall in *. intros i Hi. rewrite <- (H2 i Hi). by apply core_face, Hc.
Qed.

Lemma face_sib ns j nd s i : nd_at ns j = Some nd -> face <$> nd_at (nd_set ns j (with_sib nd s)) i = face <$> nd_at ns i.
Proof. intros E. pose proof (nd_at_range _ _ _ E). destruct (decide (j = i)) as [<-|]; [by rewrite nd_set_eq, E|by rewrite nd_set_ne by (done || lia)]. Qed.

Lemma timers_sib ns j nd s l : nd_at ns j = Some nd -> timers (nd_set ns j (with_sib nd s)) l = timers ns l.
Proof.
  intros E. pose proof (nd_at_range _ _ _ E). unfold timers. induction l as [|i l IH]; [done|]. cbn [mbind list_bind]. rewrite IH. f_equal. destruct (decide (j = i)) as [<-|]; [by rewrite nd_set_eq, E|by rewrite nd_set_ne by (done || lia)].
Qed.

(** The next key's node joins the ring. *)
Lemma opened_snoc ns c seq s l a nd i : a ∉ l -> i ∉ l ++ [a] -> nd_at ns a = Some nd -> opened ns c seq s (l ++ [a]) -> opened ns c seq s [i] -> opened (nd_set ns a (with_sib nd i)) c seq s ((l ++ [a]) ++ [i]).
Proof.
  intros Ha Hi E [H1 H2 H3] [I1 I2 I3]. pose proof (nd_at_range _ _ _ E). split.
  - rewrite last_snoc. cbn [default from_option id]. apply ring_app. cbn [head default from_option id]. split; [by eapply ring_turn_last|]. apply (ring_ext ns); [|done].
    intros j ->%list_elem_of_singleton. rewrite nd_set_ne; [done|lia|]. intros ->. apply Hi, elem_of_app. right. left.
  - apply Forall_app. split; eapply Forall_impl; [done| |done|]; intros j Hj; by rewrite face_sib.
  - by rewrite timers_sib, timers_app, H3, I3.
Qed.

Lemma parked_opened ns key s c seq i : core <$> nd_at ns i = Some (parked_node key s c seq i) -> opened ns c seq s [i].
Proof.
  intros E. destruct (nd_at ns i) as [nd|] eqn:En; [|done]. apply (inj Some) in E. split.
  - cbn. split; [|done]. exists nd. split; [done|]. by apply (f_equal wn_sib) in E.
  - apply Forall_singleton. rewrite En. cbn. f_equal. by apply (f_equal face) in E.
  - unfold timers. cbn. rewrite En. apply (f_equal wn_timer) in E. cbn in E. by rewrite E.
Qed.

Lemma opened_nil ns c seq s : opened ns c seq s [].
Proof. by split. Qed.

Lemma park_loop_ok As s c seq keys : forall w at_, pool w As at_ -> opened (w_nodes w) c seq s at_.*2 -> zlen (w_nodes w) + zlen keys <= nilIdx ->
  exists w' at', park_loop w keys s c seq (default nilIdx (head at_.*2)) (default nilIdx (last at_.*2)) = Ok (w', default nilIdx (head (at_ ++ at').*2), default nilIdx (last (at_ ++ at').*2))
    /\ pool w' As (at_ ++ at') /\ opened (w_nodes w') c seq s (at_ ++ at').*2 /\ at'.*1 = keys /\ rest_same w w' /\ w_out w' = w_out w /\ zlen (w_nodes w') <= zlen (w_nodes w) + zlen keys.
Proof.
  induction keys as [|key keys IH]; intros w at_ Hp Ho Hz; cbn [park_loop].
  { exists w, []. rewrite !app_nil_r, zlen_nil. split_and!; try done. lia. }
  rewrite zlen_cons in *. pose proof (zlen_nonneg keys). destruct (park_ok w As at_ key s c seq Hp ltac:(lia)) as (w1 & i & -> & Hp1 & Hi & Hnew & Hkeep & Hrest1 & Eo1 & Hz1).
  assert (Hgo : forall w2, pool w2 As (at_ ++ [(key, i)]) -> opened (w_nodes w2) c seq s (at_ ++ [(key, i)]).*2 -> rest_same w w2 -> w_out w2 = w_out w -> zlen (w_nodes w2) = zlen (w_nodes w1) ->
    exists w' at', park_loop w2 keys s c seq (default nilIdx (head (at_ ++ [(key, i)]).*2)) i = Ok (w', default nilIdx (head (at_ ++ at').*2), default nilIdx (last (at_ ++ at').*2))
      /\ pool w' As (at_ ++ at') /\ opened (w_nodes w') c seq s (at_ ++ at').*2 /\ at'.*1 = key :: keys /\ rest_same w w' /\ w_out w' = w_out w /\ zlen (w_nodes w') <= zlen (w_nodes w) + (1 + zlen keys)).
  { intros w2 Hp2 Ho2 Hrest2 Eo2 Hz2. destruct (IH w2 (at_ ++ [(key, i)]) Hp2 Ho2 ltac:(lia)) as (w' & at' & E & Hp' & Ho' & Ek & Hrest' & Eo' & Hz'). assert (El : last (at_ ++ [(key, i)]).*2 = Some i) by (rewrite fmap_app; apply last_snoc). rewrite El in E. cbn [default from_option id] in E.
    exists w', ((key, i) :: at'). rewrite <- !(assoc_L (++)) in E, Hp', Ho'. split_and!; [done|done|done|by rewrite fmap_cons, Ek|by eapply rest_same_trans|by rewrite Eo'|lia]. }
  assert (Hi' : i ∉ at_.*2) by (intros Hx; apply Hi; rewrite fmap_app, elem_of_app; by right). pose proof (parked_opened _ _ _ _ _ _ Hnew) as Hoi.
  assert (Ho1 : opened (w_nodes w1) c seq s at_.*2) by (apply (opened_ext (w_nodes w)); [|done]; intros j Hj; apply Hkeep; rewrite fmap_app, elem_of_app; by right).
  assert (Hlt : Forall (fun i => i < nilIdx) at_.*2). { apply Forall_forall. intros j Hj. assert (Hj' : j ∈ (entries As ++ at_).*2) by (rewrite fmap_app, elem_of_app; by right). pose proof (linked_in_range _ _ _ (pl_linked _ _ _ Hp) Hj'). pose proof (ln_size _ _ (pl_linked _ _ _ Hp)). lia. }
  rewrite default_nil_head by done. destruct (snoc_cases at_) as [->|(at0 & [k a] & ->)].
  - apply (Hgo w1); done.
  - rewrite fmap_app in *. cbn [fmap list_fmap snd] in *. rewrite last_snoc. cbn [default from_option id]. rewrite node_eq.
    assert (Ha : a ∉ at0.*2). { pose proof (ln_nodup _ _ (pl_linked _ _ _ Hp)) as Hn. rewrite !fmap_app in Hn. apply NoDup_app in Hn as (_ & _ & (_ & Hd & _)%NoDup_app). intros Hx. apply (Hd a Hx). left. }
    destruct (nd_at (w_nodes w1) a) as [nd|] eqn:Ena; [|pose proof (op_face _ _ _ _ _ Ho1) as Hf; apply Forall_app in Hf as [_ [Hf _]%Forall_cons]; by rewrite Ena in Hf].
    assert (Hm : match at0.*2 ++ [a] with [] => true | _ => false end = false) by (by destruct (at0.*2)). rewrite Hm.
    replace (default nilIdx (head (at0.*2 ++ [a]))) with (default nilIdx (head ((at0 ++ [(k, a)]).*2 ++ [i]))) by (rewrite fmap_app; by destruct (at0.*2)).
    apply (Hgo (set_node w1 a (with_sib nd i))).
    + apply pool_set_sib; [done| |done]. rewrite !fmap_app, !elem_of_app. left. right. left.
    + rewrite fmap_app. by apply opened_snoc.
    + done.
    + done.
    + apply zlen_nd_set.
Qed.

(** A client blocked on its keys: last of the queue of each. *)
Lemma parkWaiter_ok w As keys s c seq : slab w As -> keys <> [] -> zlen (w_nodes w) + zlen keys <= nilIdx ->
  exists w' at_ i, parkWaiter w keys s c seq = Ok (w', i) /\ slab w' (As ++ [mkAwaiter c seq s None at_]) /\ at_.*1 = keys /\ head at_.*2 = Some i /\ rest_same w w' /\ w_out w' = w_out w
    /\ zlen (w_nodes w') <= zlen (w_nodes w) + zlen keys.
Proof.
  intros Hp Hk Hz. unfold parkWaiter. destruct (park_loop_ok As s c seq keys w [] Hp (opened_nil _ _ _ _) Hz) as (w1 & at_ & E & Hp1 & Ho1 & Ek & Hrest & Eo & Hz1). cbn [fmap list_fmap head last default from_option id app] in E. rewrite E. cbn [app] in *.
  destruct (snoc_cases at_) as [->|(at0 & [k a] & ->)]; [by destruct keys|]. rewrite fmap_app in *. cbn [fmap list_fmap snd fst] in *. rewrite last_snoc. cbn [default from_option id]. rewrite node_eq.
  destruct Ho1 as [Hr Hf Ht]. pose proof Hf as [_ [Hfa _]%Forall_cons]%Forall_app. destruct (nd_at (w_nodes w1) a) as [nd|] eqn:Ena; [|done].
  assert (Ha : a ∉ at0.*2). { pose proof (ln_nodup _ _ (pl_linked _ _ _ Hp1)) as Hn. rewrite !fmap_app in Hn. apply NoDup_app in Hn as (_ & _ & (_ & Hd & _)%NoDup_app). intros Hx. apply (Hd a Hx). left. }
  set (first := default nilIdx (head (at0.*2 ++ [a]))). assert (Hfirst : head (at0.*2 ++ [a]) = Some first) by (unfold first; by destruct (at0.*2)).
  eexists _, (at0 ++ [(k, a)]), first. split; [done|]. rewrite !fmap_app. cbn [fmap list_fmap snd fst]. split_and!; try done; [|by rewrite fmap_app in Ek|cbn; unfold zlen; rewrite length_insert; done].
  assert (Hp2 : pool (set_node w1 a (with_sib nd first)) As (at0 ++ [(k, a)])) by (apply pool_set_sib; [done|rewrite fmap_app, elem_of_app; right; left|done]).
  destruct Hp2 as [Hl Hg Hfr Hfr2]. assert (Ee : entries (As ++ [mkAwaiter c seq s None (at0 ++ [(k, a)])]) = entries As ++ at0 ++ [(k, a)]) by (rewrite entries_app; unfold entries at 2; cbn; by rewrite app_nil_r).
  split; rewrite ?Ee, ?app_nil_r; [done| |done|done]. apply Forall_app. split; [done|]. apply Forall_singleton. cbn [set_node with_wait w_nodes]. change (<[Z.to_nat a := with_sib nd first]> (w_nodes w1)) with (nd_set (w_nodes w1) a (with_sib nd first)).
  split; cbn [aw_at aw_conn aw_seq aw_spec aw_timer]; rewrite ?fmap_app; cbn [fmap list_fmap snd].
  - by destruct at0.
  - rewrite Hfirst. cbn [default from_option id]. by eapply ring_turn_last.
  - eapply Forall_impl; [done|]. intros j Hj. by rewrite face_sib.
  - by rewrite timers_sib.
  - rewrite timers_sib by done. destruct (at0.*2 ++ [a]) as [|j l]; [done|]. change (j :: l) with ([j] ++ l) in Ht. rewrite timers_app in Ht. by apply app_eq_nil in Ht as [_ ?].
Qed.

(** ** Timers *)

(** The timer of a client set or cleared on its first node. *)
Lemma set_timer_ok w A1 a A2 i l nd t dl : slab w (A1 ++ a :: A2) -> (aw_at a).*2 = i :: l -> nd_at (w_nodes w) i = Some nd ->
  slab (set_node w i (with_state nd t dl (wn_live nd) (wn_serving nd))) (A1 ++ mkAwaiter (aw_conn a) (aw_seq a) (aw_spec a) t (aw_at a) :: A2).
Proof.
  intros [Hl Hg Hf Hfr] El E. pose proof (nd_at_range _ _ _ E) as Hr. set (nd' := with_state _ _ _ _ _). set (a' := mkAwaiter _ _ _ _ _).
  assert (Ee : entries (A1 ++ a' :: A2) = entries (A1 ++ a :: A2)) by (by rewrite !entries_app). rewrite app_nil_r in *. apply Forall_app in Hg as [Hg1 [Hga Hg2]%Forall_cons].
  pose proof (ln_nodup _ _ Hl) as Hn. rewrite entries_app, !fmap_app in Hn. change (entries (a :: A2)) with (aw_at a ++ entries A2) in Hn. rewrite fmap_app, El in Hn. apply NoDup_app in Hn as (_ & Hd1 & ([Hil _]%NoDup_cons & Hd2 & _)%NoDup_app).
  assert (Hne : forall j, j <> i -> nd_at (nd_set (w_nodes w) i nd') j = nd_at (w_nodes w) j) by (intros j Hj; apply nd_set_ne; [lia|done]).
  split; rewrite ?app_nil_r, ?Ee; cbn [set_node with_wait w_nodes w_free]; change (<[Z.to_nat i := nd']> (w_nodes w)) with (nd_set (w_nodes w) i nd'); [| |done|by rewrite zlen_nd_set].
  - apply (linked_ext w); [done|done|apply zlen_nd_set|]. intros j _. cbn [set_node with_wait w_nodes]. change (<[Z.to_nat i := nd']> (w_nodes w)) with (nd_set (w_nodes w) i nd').
    destruct (decide (j = i)) as [->|]; [by rewrite nd_set_eq, E|by rewrite Hne].
  - assert (Hgs : forall A, i ∉ (entries A).*2 -> Forall (good (w_nodes w)) A -> Forall (good (nd_set (w_nodes w) i nd')) A).
    { intros A HA. rewrite !Forall_forall. intros HG b Hb. apply (good_ext (w_nodes w)); [|by apply HG]. intros j Hj. rewrite Hne; [done|]. intros ->. by apply HA; eapply in_entries. }
    apply Forall_app. split; [apply Hgs; [|done]; intros Hx; apply (Hd1 i Hx); left|]. apply Forall_cons. split; [|apply Hgs; [|done]; apply Hd2; left].
    destruct Hga as [H1 H2 H3 H4 H5]. rewrite El in H2, H3, H4, H5. cbn [tail] in H5.
    assert (Ht : forall j, j ∈ l -> core <$> nd_at (nd_set (w_nodes w) i nd') j = core <$> nd_at (w_nodes w) j) by (intros j Hj; rewrite Hne; [done|]; by intros ->).
    split; cbn [a' aw_at aw_conn aw_seq aw_spec aw_timer]; rewrite ?El; cbn [tail]; [done| | | |by rewrite (timers_ext (w_nodes w))].
    + apply (ring_ext (w_nodes w)); [|done]. intros j Hj. destruct (decide (j = i)) as [->|]; [by rewrite nd_set_eq, E|by rewrite Hne].
    + rewrite Forall_forall in *. intros j Hj. rewrite <- (H3 j Hj). destruct (decide (j = i)) as [->|]; [by rewrite nd_set_eq, E|by rewrite Hne].
    + change (i :: l) with ([i] ++ l). rewrite timers_app, (timers_ext (w_nodes w) _ l), H5, app_nil_r by done. unfold timers. cbn [mbind list_bind]. rewrite nd_set_eq by done. cbn. by destruct t.
Qed.

Definition armed (b : blocking) : option Z := match b_after b with None => None | Some _ => Some (b_timer b) end.
Definition arm_fx (e : env) (b : blocking) : list effect := match b_after b with None => [] | Some ms => [EArmTimer (b_timer b) (int64_add (e_now e) ms)] end.

Lemma arm_ok e w As c seq s at_ i b keep : slab w (As ++ [mkAwaiter c seq s None at_]) -> head at_.*2 = Some i ->
  exists w', arm e w b i keep = Ok w' /\ slab w' (As ++ [mkAwaiter c seq s (armed b) at_]) /\ rest_same w w' /\ w_out w' = w_out w ++ arm_fx e b /\ zlen (w_nodes w') = zlen (w_nodes w).
Proof.
  intros H Hi. unfold arm, armed, arm_fx. destruct (b_after b) as [ms|]; [|exists w; by rewrite app_nil_r]. destruct (at_.*2) as [|j l] eqn:El; [done|]. injection Hi as ->.
  pose proof (pl_good _ _ _ H) as [_ [Hg _]%Forall_cons]%Forall_app. pose proof (gd_face _ _ Hg) as Hf. cbn [aw_at] in Hf. rewrite El in Hf. apply Forall_cons in Hf as [Hf _]. rewrite node_eq. destruct (nd_at (w_nodes w) i) as [nd|] eqn:E; [|done].
  cbv zeta. eexists. split; [done|]. set (dl := if keep then _ else _). pose proof (set_timer_ok w As (mkAwaiter c seq s None at_) [] i l nd (Some (b_timer b)) dl H El E) as H'. split_and!; [|done|done|apply zlen_nd_set].
  destruct H' as [Hl Hg' Hf' Hfr']. split; try done. by eapply linked_ext.
Qed.

(** The timeout of a client: off every queue, its null reply sent, no timer cancelled. *)
Lemma fire_ok w A1 a A2 i l : slab w (A1 ++ a :: A2) -> (aw_at a).*2 = i :: l ->
  exists w', fire w i = Ok w' /\ slab w' (A1 ++ A2) /\ rest_same w w'
    /\ w_out w' = w_out w ++ [EComplete (aw_conn a) (aw_seq a) (match ws_kind (aw_spec a) with kindMove => AppendNull [] | _ => AppendNullArray [] end)] /\ zlen (w_nodes w') = zlen (w_nodes w).
Proof.
  intros H El. unfold fire. pose proof (pl_good _ _ _ H) as [_ [Hg _]%Forall_cons]%Forall_app. pose proof (gd_face _ _ Hg) as Hf. rewrite El in Hf. apply Forall_cons in Hf as [Hf _]. rewrite node_eq.
  destruct (nd_at (w_nodes w) i) as [nd|] eqn:E; [|done]. injection Hf as E1 E2 E3 E4 E5 E6 E7 E8 E9 E10. rewrite E7. cbn [negb].
  pose proof (set_timer_ok w A1 a A2 i l nd None (wn_deadline nd) H El E) as H1. rewrite E7 in H1. set (w1 := set_node w i _) in *.
  destruct (unlinkAll_ok w1 A1 (mkAwaiter (aw_conn a) (aw_seq a) (aw_spec a) None (aw_at a)) A2 i H1) as (w2 & -> & H2 & Hr2 & Eo2 & Hz2); [cbn; rewrite El; left|].
  eexists. split; [done|]. cbn in Eo2. rewrite app_nil_r in Eo2. split_and!; [|done|cbn; by rewrite Eo2, E1, E2, E4|cbn; rewrite Hz2; apply zlen_nd_set]. destruct H2 as [Hl Hg2 Hf2 Hfr2]. split; try done. by eapply linked_ext.
Qed.
