(* ===== verification/ListSpec.v ===== *)
(** The list keyspace as a map from keys to element sequences and deadlines: what each command
    does to it, what it replies, publishes and logs, and that the handlers of
    engine/f3/list/commands.go and lmove.go do exactly that while no client is blocked.  The
    words of LPOS, LMPOP and EXPIRE are given a meaning of their own here ([lpos_options],
    [mpop_line], [expire_request]), which the parsers are proved to compute. *)

From stdpp Require Import gmap.
From S2P Require Import Prelude Format Frames Device Decimal Resp Ordered TierDirectory Expire InlineList ChunkRing Fenwick ValueLog NativeList NativeRefines NativeOps NativeSweeps NativeTrim NativeDemote ListMeaning ListRun ListWorld ListCommands WaitSlab.
#[local] Open Scope Z_scope.

#[local] Abbreviation P A := (res Empty_set A).

(** Elements and deadline (0: none) of each key. *)
Abbreviation kv := (gmap bytes (list bytes * Z)).

(** ** What the world shows *)

Definition entry_shows (e : env) (w : world) (p : option nat) (x : option (list bytes * Z)) : Prop :=
  match p, x with
  | Some p, Some (xs, at_) => exists o, w_heap w !! p = Some o /\ list_holds (e_st e) (lo_data o) xs /\ lo_expireAt o = at_
  | None, None => True
  | _, _ => False
  end.

Section keyspace.
Context {As : list awaiter}.

(** The world shows the keyspace [m] while the clients [As] are parked. *)
Record shows (e : env) (w : world) (m : kv) : Prop := {
  sh_entry : forall key, entry_shows e w (w_m w !! key) (m !! key);
  sh_inj : forall k1 k2 p, w_m w !! k1 = Some p -> w_m w !! k2 = Some p -> k1 = k2;
  sh_wait : slab w As;
  sh_ready : w_ready w = []
}.

(** The list of a key, by its handle. *)
Lemma shows_at e w m key xs at_ : shows e w m -> m !! key = Some (xs, at_) ->
  exists p o, w_m w !! key = Some p /\ w_heap w !! p = Some o /\ list_holds (e_st e) (lo_data o) xs /\ lo_expireAt o = at_.
Proof. intros H Hm. pose proof (sh_entry _ _ _ H key) as He. rewrite Hm in He. destruct (w_m w !! key) as [p|]; [|done]. destruct He as (o & Ho & Hl & Ha). by exists p, o. Qed.

Lemma shows_none e w m key : shows e w m -> m !! key = None -> w_m w !! key = None.
Proof. intros H Hm. pose proof (sh_entry _ _ _ H key) as He. rewrite Hm in He. by destruct (w_m w !! key). Qed.

Lemma shows_obj e w m key p o : shows e w m -> w_m w !! key = Some p -> w_heap w !! p = Some o -> exists xs, m !! key = Some (xs, lo_expireAt o) /\ list_holds (e_st e) (lo_data o) xs.
Proof.
  intros H Hp Ho. pose proof (sh_entry _ _ _ H key) as He. rewrite Hp in He. destruct (m !! key) as [[xs at_]|]; [|done]. cbn in He. destruct He as (o' & Ho' & Hl & <-).
  rewrite Ho in Ho'. injection Ho' as <-. by exists xs.
Qed.

(** The object of a key replaced. *)
Lemma shows_set e w m key p o o' xs : shows e w m -> w_m w !! key = Some p -> w_heap w !! p = Some o -> list_holds (e_st e) (lo_data o') xs ->
  shows e (set_obj w p o') (<[key := (xs, lo_expireAt o')]> m).
Proof.
  intros H Hp Ho Hl. pose proof H as [He Hi Hq Hrd]. split; [|done|by eapply pool_same|done]. intros k. cbn [set_obj with_heap w_m]. destruct (decide (k = key)) as [->|Hne].
  - rewrite Hp, lookup_insert_eq. exists o'. split_and!; [|done|done]. cbn. apply list_lookup_insert_eq. by eapply lookup_lt_Some.
  - rewrite lookup_insert_ne by done. specialize (He k). destruct (w_m w !! k) as [q|] eqn:Hq', (m !! k) as [[ys at_]|]; try done. destruct He as (o1 & Ho1 & Hl1 & Ha1).
    exists o1. split_and!; [|done|done]. cbn. rewrite list_lookup_insert_ne; [done|]. intros <-. apply Hne. by eapply Hi.
Qed.

Lemma shows_same e w m w' : shows e w m -> w_heap w' = w_heap w -> w_m w' = w_m w -> w_waiters w' = w_waiters w -> w_nodes w' = w_nodes w -> w_free w' = w_free w -> w_ready w' = w_ready w -> shows e w' m.
Proof. intros [He Hi Hq Hrd] E1 E2 E3 E4 E5 E6. split; [|by rewrite E2|by eapply pool_same|by rewrite E6]. intros k. specialize (He k). by rewrite E2; unfold entry_shows in *; rewrite E1. Qed.

Lemma shows_fx e w m x : shows e w m -> shows e (fx w x) m.
Proof. intros H. by eapply shows_same. Qed.
#[local] Hint Resolve shows_fx : core.

Lemma shows_drop e w m key : shows e w m -> exists w', drop_key e w key = Ok w' /\ shows e w' (delete key m) /\ w_out w' = w_out w /\ w_m w' = delete key (w_m w).
Proof.
  intros H. pose proof H as [He Hi Hq Hrd]. unfold drop_key. destruct (w_m w !! key) as [p|] eqn:Hp.
  - pose proof (He key) as Hk. rewrite Hp in Hk. destruct (m !! key) as [[xs at_]|]; [|done]. destruct Hk as (o & Ho & _). unfold obj. rewrite Ho. eexists. split; [done|].
    assert (Hs : shows e (with_m w (delete key (w_m w))) (delete key m)).
    { split; [| |by eapply pool_same|done].
      - intros k. cbn [with_m w_m]. destruct (decide (k = key)) as [->|]; [by rewrite !lookup_delete_eq|]. rewrite !lookup_delete_ne by done. apply He.
      - intros k1 k2 q. cbn [with_m w_m]. intros [_ H1]%lookup_delete_Some [_ H2]%lookup_delete_Some. by eapply Hi. }
    destruct (e_acctOn e); [|by split_and!]. split_and!; [|done|done]. by eapply shows_same.
  - exists w. split_and!; [done| |done|by rewrite delete_id]. rewrite delete_id; [done|]. specialize (He key). rewrite Hp in He. by destruct (m !! key).
Qed.

Lemma shows_note rb e w m key p : shows e w m -> w_m w !! key = Some p -> exists w', note rb e w p = Ok w' /\ shows e w' m /\ w_out w' = w_out w /\ w_m w' = w_m w.
Proof.
  intros H Hp. unfold note. destruct (negb (e_acctOn e)); [by exists w|]. pose proof (sh_entry _ _ _ H key) as He. rewrite Hp in He.
  destruct (m !! key) as [[xs at_]|] eqn:Hm; [|done]. destruct He as (o & Ho & Hl & Ha). unfold obj. rewrite Ho. eexists. split; [done|]. split_and!; try done.
  assert (Hs : shows e (set_obj w p (mkLobj (lo_data o) (lo_clock o) (lo_expireAt o) (rb (lo_data o)))) m).
  { rewrite <- (insert_id m key (xs, lo_expireAt o)) by (by rewrite Ha). exact (shows_set e w m key p o (mkLobj (lo_data o) (lo_clock o) (lo_expireAt o) (rb (lo_data o))) xs H Hp Ho Hl). }
  by eapply shows_same.
Qed.

Lemma shows_install e w m key : shows e w m -> m !! key = None ->
  let '(w', p) := install e w key in shows e w' (<[key := ([], 0)]> m) /\ w_m w' !! key = Some p /\ w_out w' = w_out w.
Proof.
  intros H Hm. pose proof H as [He Hi Hq Hrd]. unfold install. cbn [with_m with_heap w_m w_out w_heap]. split_and!; [|apply lookup_insert_eq|done].
  assert (Hlt : forall k q, w_m w !! k = Some q -> (q < length (w_heap w))%nat).
  { intros k q Hk. specialize (He k). rewrite Hk in He. destruct (m !! k) as [[ys at_]|]; [|done]. destruct He as (o & Ho & _). by eapply lookup_lt_Some. }
  split; [| |by eapply pool_same|done].
  - intros k. cbn [with_m with_heap w_m w_heap]. destruct (decide (k = key)) as [->|Hne].
    + rewrite !lookup_insert_eq. exists (set_clock fresh_lobj (LRUClock (e_now e))). split_and!; [|apply new_list_holds|done]. cbn. by rewrite list_lookup_middle.
    + rewrite !lookup_insert_ne by done. specialize (He k). destruct (w_m w !! k) as [q|] eqn:Hk, (m !! k) as [[ys at_]|]; try done. destruct He as (o & Ho & Hl & Ha).
      exists o. split_and!; [|done|done]. cbn. by rewrite lookup_app_l by eauto.
  - intros k1 k2 q. cbn [with_m w_m]. destruct (decide (k1 = key)) as [->|N1], (decide (k2 = key)) as [->|N2]; rewrite ?lookup_insert_eq, ?lookup_insert_ne by done; [done| | |apply Hi].
    + intros [= <-] H2. specialize (Hlt _ _ H2). lia.
    + intros H1 [= <-]. specialize (Hlt _ _ H1). lia.
Qed.

(** ** Reading a key *)

(** A key whose deadline has passed goes, with its event. *)
Definition expire_key (e : env) (m : kv) (key : bytes) : kv * list effect :=
  match m !! key with
  | Some (_, at_) => if negb (at_ =? 0) && (at_ <=? e_now e) then (delete key m, [ENotify NotifyExpired (str "expired") key]) else (m, [])
  | None => (m, [])
  end.

Lemma live_ok e w m key : shows e w m ->
  exists w' p, live e w key = Ok (w', p) /\ shows e w' (expire_key e m key).1 /\ w_out w' = w_out w ++ (expire_key e m key).2
    /\ p = w_m w' !! key /\ w_m w' ⊆ w_m w.
Proof.
  intros H. unfold live, peek, expire_key. pose proof (sh_entry _ _ _ H key) as He. destruct (w_m w !! key) as [p|] eqn:Hp.
  - destruct (m !! key) as [[xs at_]|] eqn:Hm; [|done]. destruct He as (o & Ho & Hl & <-). unfold obj at 1. rewrite Ho. destruct (negb (lo_expireAt o =? 0) && (lo_expireAt o <=? e_now e)).
    + destruct (shows_drop e (notify w NotifyExpired (str "expired") key) m key) as (w1 & -> & H1 & Ho1 & Em); [by apply shows_fx|]. exists w1, None.
      split_and!; [done|done|done|by rewrite Em, lookup_delete_eq|]. rewrite Em. apply delete_subseteq.
    + unfold obj. rewrite Ho. eexists _, (Some p). split; [done|]. cbn [fst snd]. rewrite app_nil_r. split_and!; [|done|done|done].
      rewrite <- (insert_id m key (xs, lo_expireAt o)) by done. exact (shows_set e w m key p o (set_clock o (LRUClock (e_now e))) xs H Hp Ho Hl).
  - destruct (m !! key) as [[xs at_]|] eqn:Hm; [done|]. exists w, None. cbn [fst snd]. by rewrite app_nil_r.
Qed.

Lemma lookup_ok e w m key : shows e w m ->
  exists w' p, lookup_list e w key = Ok (w', p, match p with Some _ => false | None => e_string e key end)
    /\ shows e w' (expire_key e m key).1 /\ w_out w' = w_out w ++ (expire_key e m key).2 /\ p = w_m w' !! key /\ w_m w' ⊆ w_m w.
Proof.
  intros H. unfold lookup_list. destruct (live_ok e w m key H) as (w' & p & -> & H' & Ho & Hp & Hw). exists w', p. by destruct p.
Qed.

(** ** The list of a key *)

Section at_key.
Context (e : env) (w : world) (m : kv) (key : bytes) (p : nat) (xs : list bytes) (at_ : Z).
Hypothesis (H : shows e w m) (Hp : w_m w !! key = Some p) (Hm : m !! key = Some (xs, at_)).

Lemma obj_ok : exists o, obj w p = Ok o /\ w_heap w !! p = Some o /\ list_holds (e_st e) (lo_data o) xs /\ lo_expireAt o = at_.
Proof. destruct (shows_at e w m key xs at_ H Hm) as (q & o & Hq & Ho & Hl & Ha). rewrite Hp in Hq. injection Hq as <-. exists o. unfold obj. by rewrite Ho. Qed.

Lemma len_ok : len_of e w p = Ok (zlen xs).
Proof.
  destruct obj_ok as (o & Eo & _ & Hl & _). unfold len_of. rewrite Eo. f_equal. by apply (length_of_inv (H := native_deque (e_st e)) okv (holds (e_st e))).
Qed.

(** The object's elements replaced. *)
Lemma set_ok o l ys : obj w p = Ok o -> list_holds (e_st e) l ys -> shows e (set_obj w p (set_data o l)) (<[key := (ys, at_)]> m).
Proof.
  intros Eo Hl. destruct obj_ok as (o' & Eo' & Ho & _ & <-). rewrite Eo in Eo'. injection Eo' as <-. exact (shows_set e w m key p o (set_data o l) ys H Hp Ho Hl).
Qed.

Lemma set_same o l : obj w p = Ok o -> list_holds (e_st e) l xs -> shows e (set_obj w p (set_data o l)) m.
Proof. intros Eo Hl. rewrite <- (insert_id m key (xs, at_)) by done. by apply set_ok. Qed.

Lemma pushEnd_ok spare v front : okv v ->
  exists w', pushEnd spare e w p v front = Ok w' /\ shows e w' (<[key := (pushed front v xs, at_)]> m) /\ w_out w' = w_out w /\ w_m w' = w_m w.
Proof.
  intros Hv. destruct obj_ok as (o & Eo & _ & Hl & _). unfold pushEnd. rewrite Eo.
  destruct (push_end_inv (H := native_deque (e_st e)) okv (holds (e_st e)) front spare (lo_data o) xs v Hl Hv) as (l & -> & Hl'). eexists. split; [done|]. split_and!; try done. by apply set_ok.
Qed.
End at_key.

(** The element at an end, and the rest. *)
Definition pop_end (front : bool) (xs : list bytes) : list bytes * bytes :=
  if front then (tail xs, default [] (head xs)) else (take (length xs - 1) xs, default [] (last xs)).

Lemma pop_end_inv st l xs (front : bool) : list_holds st l xs -> xs <> [] ->
  exists l', (if front then popFront (H := native_deque st) l else popBack (H := native_deque st) l) = (Ok (l', (pop_end front xs).2) : P (klist native * bytes)) /\ list_holds st l' (pop_end front xs).1.
Proof.
  intros Hl Hne. destruct front; cbn [pop_end fst snd].
  - destruct xs as [|x xs]; [done|]. by apply (popFront_inv (H := native_deque st) okv (holds st)).
  - destruct (snoc_cases xs) as [->|(ys & x & ->)]; [done|]. rewrite last_snoc, length_app. cbn [length default]. replace (length ys + 1 - 1)%nat with (length ys) by lia. rewrite take_app_length.
    by apply (popBack_inv (H := native_deque st) okv (holds st)).
Qed.

Lemma popOne_ok e w m key p xs at_ front : shows e w m -> w_m w !! key = Some p -> m !! key = Some (xs, at_) -> xs <> [] ->
  exists w', popOne e w p front = Ok (w', (pop_end front xs).2) /\ shows e w' (<[key := ((pop_end front xs).1, at_)]> m) /\ w_out w' = w_out w /\ w_m w' = w_m w.
Proof.
  intros H Hp Hm Hne. destruct (obj_ok e w m key p xs at_ H Hp Hm) as (o & Eo & _ & Hl & _). unfold popOne. rewrite Eo.
  destruct (pop_end_inv _ _ _ front Hl Hne) as (l' & -> & Hl'). eexists. split; [done|]. split_and!; try done. by eapply set_ok.
Qed.

(** ** The end of a command *)

(** An emptied key goes, with its event. *)
Definition settle_spec (m : kv) (key : bytes) (xs : list bytes) (at_ : Z) : kv * list effect :=
  if decide (xs = []) then (delete key m, [ENotify NotifyGeneric (str "del") key]) else (<[key := (xs, at_)]> m, []).

Lemma settle_ok rb e w m key p xs at_ : shows e w (<[key := (xs, at_)]> m) -> w_m w !! key = Some p ->
  exists w', settle rb e w key p = Ok w' /\ shows e w' (settle_spec m key xs at_).1 /\ w_out w' = w_out w ++ (settle_spec m key xs at_).2 /\ w_m w' ⊆ w_m w.
Proof.
  intros H Hp. unfold settle, settle_spec. rewrite (len_ok e w _ key p xs at_ H Hp (lookup_insert_eq _ _ _)). destruct (decide (xs = [])) as [->|Hne].
  - cbn. destruct (shows_drop e w _ key H) as (w1 & -> & H1 & Ho & Em). eexists. split; [done|]. rewrite delete_insert_eq in H1. split; [by apply shows_fx|]. cbn. rewrite Ho, Em. split; [done|apply delete_subseteq].
  - destruct (Z.eqb_spec (zlen xs) 0) as [Hz|]; [exfalso; apply Hne, zlen_0_nil; lia|]. destruct (shows_note rb e w _ key p H Hp) as (w1 & -> & H1 & Ho & Em). exists w1. by rewrite app_nil_r, Em.
Qed.

Lemma settle_nonempty m key (xs : list bytes) at_ : xs <> [] -> settle_spec m key xs at_ = (<[key := (xs, at_)]> m, []).
Proof. intros Hne. unfold settle_spec. by rewrite decide_False. Qed.
End keyspace.
Arguments shows As e w m : clear implicits.
#[export] Hint Resolve shows_fx : core.

(** ** What an argument list means *)

(** LPOS's options: words with their values, the last of a name counting; the first thing wrong
    from the left is the error, a word without a value the last of them. *)
Inductive lpos_word : Type := WRank | WCount | WMaxlen.

#[export] Instance lpos_word_eq : EqDecision lpos_word.
Proof. solve_decision. Defined.

Definition word_of (o : bytes) : option lpos_word :=
  if fold_eq o (str "RANK") then Some WRank
  else if fold_eq o (str "COUNT") then Some WCount
  else if fold_eq o (str "MAXLEN") then Some WMaxlen
  else None.

Fixpoint opt_pairs (opts : list bytes) : list (bytes * bytes) * bool :=
  match opts with
  | [] => ([], false)
  | [_] => ([], true)
  | o :: val :: opts' => let '(ps, odd) := opt_pairs opts' in ((o, val) :: ps, odd)
  end.

Definition opt_error (p : bytes * bytes) : option bytes :=
  match word_of p.1, ParseInt p.2 with
  | None, _ => Some errSyntax
  | Some WRank, None => Some errNotInt
  | Some WRank, Some v => if v =? 0 then Some errRankZero else None
  | Some WCount, Some v => if 0 <=? v then None else Some errCountNeg
  | Some WCount, None => Some errCountNeg
  | Some WMaxlen, Some v => if 0 <=? v then None else Some errMaxlenNeg
  | Some WMaxlen, None => Some errMaxlenNeg
  end.

Definition opt_value (w : lpos_word) (none : Z) (ps : list (bytes * bytes)) : Z :=
  default none (last (omap (fun p => if bool_decide (word_of p.1 = Some w) then ParseInt p.2 else None) ps)).

Definition lpos_options (opts : list bytes) : (Z * Z * Z) + bytes :=
  let '(ps, odd) := opt_pairs opts in
  match omap opt_error ps ++ (if odd then [errSyntax] else []) with
  | err :: _ => inr err
  | [] => inl (opt_value WRank 1 ps, opt_value WCount (-1) ps, opt_value WMaxlen 0 ps)
  end.

Lemma opt_value_cons w none o val ps :
  opt_value w none ((o, val) :: ps)
  = opt_value w (if bool_decide (word_of o = Some w) then default none (ParseInt val) else none) ps.
Proof.
  unfold opt_value. cbn [omap list_omap fst snd]. destruct (bool_decide _); [|done]. destruct (ParseInt val) as [v|]; [|done].
  rewrite last_cons. by destruct (last _).
Qed.

(** The option loop computes them. *)
Lemma lpos_opts_loop n : forall opts rank count maxlen, (length opts <= n)%nat ->
  lpos_opts opts rank count maxlen
  = let '(ps, odd) := opt_pairs opts in
    match omap opt_error ps ++ (if odd then [errSyntax] else []) with
    | err :: _ => inr err
    | [] => inl (opt_value WRank rank ps, opt_value WCount count ps, opt_value WMaxlen maxlen ps)
    end.
Proof.
  induction n as [|n IH]; intros [|o [|val opts]] rank count maxlen Hn; try done; [cbn in Hn; lia|].
  cbn [lpos_opts opt_pairs]. destruct (opt_pairs opts) as [ps odd] eqn:Ep.
  assert (Hrec : forall r c x, lpos_opts opts r c x = match omap opt_error ps ++ (if odd then [errSyntax] else []) with
      err :: _ => inr err | [] => inl (opt_value WRank r ps, opt_value WCount c ps, opt_value WMaxlen x ps) end).
  { intros r c x. rewrite IH by (cbn in Hn; lia). by rewrite Ep. }
  cbn [omap list_omap]. unfold opt_error at 1. rewrite !opt_value_cons. cbn [fst snd]. unfold word_of.
  destruct (fold_eq o (str "RANK")); [|destruct (fold_eq o (str "COUNT")); [|destruct (fold_eq o (str "MAXLEN")); [|done]]];
    (destruct (ParseInt val) as [v|]; [|done]); cbn [bool_decide].
  - destruct (v =? 0); [done|apply Hrec].
  - destruct (Z.ltb_spec v 0), (Z.leb_spec 0 v); try lia; [done|apply Hrec].
  - destruct (Z.ltb_spec v 0), (Z.leb_spec 0 v); try lia; [done|apply Hrec].
Qed.

Lemma lpos_opts_spec opts : lpos_opts opts 1 (-1) 0 = lpos_options opts.
Proof. by rewrite (lpos_opts_loop (length opts)). Qed.

(** The rank is an int and not 0. *)
Lemma lpos_opts_rank n : forall opts rank count maxlen r c x, (length opts <= n)%nat ->
  - two63 <= rank < two63 /\ rank <> 0 -> lpos_opts opts rank count maxlen = inl (r, c, x) -> - two63 <= r < two63 /\ r <> 0.
Proof.
  induction n as [|n IH]; intros [|o [|val opts]] rank count maxlen r c x Hn Hr; cbn [lpos_opts]; try done; try (by intros [= <- _ _]); [cbn in Hn; lia|].
  cbn in Hn. destruct (fold_eq o _); [|destruct (fold_eq o _); [|destruct (fold_eq o _); [|done]]];
    (destruct (ParseInt val) as [v|] eqn:Ev; [|done]).
  - destruct (Z.eqb_spec v 0); [done|]. apply IH; [lia|]. apply ParseInt_spec in Ev as [Hv _]. done.
  - destruct (v <? 0); [done|]. apply IH; [lia|done].
  - destruct (v <? 0); [done|]. apply IH; [lia|done].
Qed.

(** LMPOP's and BLMPOP's tail: a positive number of keys, the keys, LEFT or RIGHT, and
    optionally COUNT with a positive count. *)
Definition mpop_args (args : list bytes) : (list bytes * bool * Z) + bytes :=
  match args with
  | [] => inr errSyntax
  | nk :: rest =>
      match ParseInt nk with
      | Some n =>
          if 0 <? n then
            match zdrop n rest with
            | [dir] => match parseDir dir with Some front => inl (ztake n rest, front, 1) | None => inr errSyntax end
            | [dir; o; c] =>
                match parseDir dir, fold_eq o (str "COUNT"), ParseInt c with
                | Some front, true, Some c => if 0 <? c then inl (ztake n rest, front, c) else inr errCountPos
                | Some _, true, None => inr errCountPos
                | _, _, _ => inr errSyntax
                end
            | _ => inr errSyntax
            end
          else inr errNumkeys
      | None => inr errNumkeys
      end
  end.

(** The accepted lines, as a grammar. *)
Inductive mpop_line : list bytes -> list bytes -> bool -> Z -> Prop :=
| mpop_line_one keys dir front :
    keys <> [] -> parseDir dir = Some front ->
    mpop_line (FormatInt (zlen keys) :: keys ++ [dir]) keys front 1
| mpop_line_count keys dir front o c :
    keys <> [] -> parseDir dir = Some front -> fold_eq o (str "COUNT") = true -> 0 < c < two63 ->
    mpop_line (FormatInt (zlen keys) :: keys ++ [dir; o; FormatInt c]) keys front c.

Lemma mpop_args_line args keys front c : zlen args < two63 ->
  (mpop_args args = inl (keys, front, c) <-> mpop_line args keys front c).
Proof.
  intros Hz. split.
  - destruct args as [|nk rest]; [done|]. cbn [mpop_args]. destruct (ParseInt nk) as [n|] eqn:En; [|done].
    apply ParseInt_spec in En as [_ ->]. destruct (Z.ltb_spec 0 n) as [Hn|]; [|done].
    pose proof (ztake_zdrop n rest) as Hs.
    assert (Hk : zdrop n rest <> [] -> zlen (ztake n rest) = n /\ ztake n rest <> []).
    { intros Hd. assert (n < zlen rest) by (destruct (Z.lt_ge_cases n (zlen rest)); [done|]; by rewrite zdrop_all in Hd).
      rewrite zlen_ztake. split; [lia|]. intros E. pose proof (zlen_ztake n rest) as Hl. rewrite E, zlen_nil in Hl. lia. }
    destruct (zdrop n rest) as [|dir [|o [|c' [|]]]] eqn:Ed; try done; destruct (Hk ltac:(done)) as [Hl Hne].
    + destruct (parseDir dir) as [fr|] eqn:Edir; [|done]. intros [= <- <- <-]. rewrite <- Hs, <- Hl at 1. by constructor.
    + destruct (parseDir dir) as [fr|] eqn:Edir; [|done]. destruct (fold_eq o (str "COUNT")) eqn:Eo; [|done].
      destruct (ParseInt c') as [c0|] eqn:Ec; [|done]. apply ParseInt_spec in Ec as [? ->]. destruct (Z.ltb_spec 0 c0); [|done].
      intros [= <- <- <-]. rewrite <- Hs, <- Hl at 1. constructor; (done || lia).
  - intros Hl. destruct Hl as [keys dir front Hne Hdir|keys dir front o c Hne Hdir Ho Hc]; rewrite zlen_cons, zlen_app in Hz; cbn [mpop_args].
    all: assert (0 < zlen keys) by (destruct keys; [done|rewrite zlen_cons; pose proof (zlen_nonneg keys); lia]).
    all: rewrite (proj2 (ParseInt_spec (FormatInt (zlen keys)) (zlen keys))) by (split; [rewrite ?zlen_cons, ?zlen_nil in Hz; lia|done]).
    all: destruct (Z.ltb_spec 0 (zlen keys)); [|lia]; rewrite zdrop_app_le, ztake_app_le, zdrop_all, ztake_all by done; cbn [app]; rewrite Hdir.
    { done. }
    rewrite Ho, (proj2 (ParseInt_spec (FormatInt c) c)) by (split; [lia|done]). by destruct (Z.ltb_spec 0 c); [|lia].
Qed.

(** The tail parser computes it. *)
Lemma parseLmpopTail_spec args : args <> [] -> parseLmpopTail args = Ok (mpop_args args).
Proof.
  destruct args as [|nk rest]; [done|]. intros _. unfold parseLmpopTail, mpop_args.
  destruct (ParseInt nk) as [n|]; [|done]. destruct (Z.leb_spec n 0), (Z.ltb_spec 0 n); try lia; [done|].
  rewrite zlen_cons, <- ztake_take, <- zdrop_drop. pose proof (zlen_zdrop n rest) as Hd. pose proof (zlen_nonneg rest).
  destruct ((_ <? n) || (_ <? _)) eqn:E.
  - assert (zdrop n rest = []) as ->; [|done]. apply zdrop_all. apply orb_true_iff in E as [E%Z.ltb_lt|E%Z.ltb_lt]; lia.
  - apply orb_false_iff in E as [E1%Z.ltb_ge E2%Z.ltb_ge]. destruct (zdrop n rest) as [|dir opts] eqn:Ez.
    { rewrite zlen_nil in Hd. lia. }
    destruct (parseDir dir) as [front|] eqn:Edir.
    + destruct opts as [|o [|c [|]]]; try done. destruct (fold_eq o (str "COUNT")); cbn [negb]; [|done].
      destruct (ParseInt c) as [v|]; [|done]. destruct (Z.leb_spec v 0), (Z.ltb_spec 0 v); try lia; done.
    + by destruct opts as [|o [|c [|]]].
Qed.

(** ** What each command does *)

(** The keyspace after a command, its reply, and its effects. *)
Abbreviation outcome := (kv * rep * list effect)%type.

Section spec.
Context (e : env).

(** The key read first; a string there is the wrong type. *)
Definition on_key (m : kv) (key : bytes) (k : kv -> option (list bytes * Z) -> outcome) : outcome :=
  let '(m, ev) := expire_key e m key in
  let '(m, r, ev') := match m !! key with
                      | Some x => k m (Some x)
                      | None => if e_string e key then (m, RpErr wrongType, []) else k m None
                      end in
  (m, r, ev ++ ev').

Fixpoint pop_many (front : bool) (n : nat) (xs : list bytes) : list bytes * list bytes :=
  match n with
  | O => (xs, [])
  | S n' => let '(xs, v) := pop_end front xs in let '(xs, vs) := pop_many front n' xs in (xs, v :: vs)
  end.

Definition array (vs : list bytes) : bytes := AppendArrayHeader [] (zlen vs) ++ concat (map bulk vs).
Definition logged (key : bytes) (op : Z) (sk sv : bytes) : effect := ELog key op sk sv.
Definition push_log (front : bool) (key v : bytes) : effect := ELog key (if front then listOpPushFront else listOpPushBack) [] v.
Definition pop_log (front : bool) (key : bytes) : effect := ELog key (if front then listOpPopFront else listOpPopBack) [] [].

Definition spec_push (m : kv) (front create : bool) (key : bytes) (vals : list bytes) : outcome :=
  on_key m key (fun m x =>
    match x, create with
    | None, false => (m, RpInt 0, [])
    | _, _ =>
        let '(xs, at_) := default ([], 0) x in
        let ys := foldl (fun xs v => pushed front v xs) xs vals in
        let '(m, ev) := settle_spec m key ys at_ in
        (m, RpInt (zlen ys), map (push_log front key) vals ++ ENotify NotifyList (pushEvent front) key :: ev)
    end).

Definition spec_pop (m : kv) (front : bool) (key : bytes) (rest : list bytes) : outcome :=
  on_key m key (fun m x =>
    match rest with
    | [] =>
        match x with
        | None => (m, RpNull, [])
        | Some (xs, at_) =>
            let '(ys, v) := pop_end front xs in
            let '(m, ev) := settle_spec m key ys at_ in
            (m, RpBulk v, pop_log front key :: ENotify NotifyList (popEvent front) key :: ev)
        end
    | [c] =>
        match ParseInt c with
        | None => (m, RpErr errPosCount, [])
        | Some count =>
            if count <? 0 then (m, RpErr errPosCount, [])
            else
              match x with
              | None => (m, RpRaw (AppendNullArray []), [])
              | Some (xs, at_) =>
                  let n := Z.to_nat (Z.min count (zlen xs)) in
                  let '(ys, vs) := pop_many front n xs in
                  if decide (n = 0%nat) then (m, RpRaw (array []), [])
                  else
                    let '(m, ev) := settle_spec m key ys at_ in
                    (m, RpRaw (array vs), replicate n (pop_log front key) ++ ENotify NotifyList (popEvent front) key :: ev)
              end
        end
    | _ => (m, RpErr errSyntax, [])
    end).

Definition spec_llen (m : kv) (key : bytes) : outcome :=
  on_key m key (fun m x => (m, RpInt (match x with None => 0 | Some (xs, _) => zlen xs end), [])).

Definition spec_lindex (m : kv) (key ix : bytes) : outcome :=
  on_key m key (fun m x =>
    (m, match ParseInt ix with
        | None => RpErr errNotInt
        | Some idx =>
            match x with
            | None => RpNull
            | Some (xs, _) => match index_in idx xs with None => RpNull | Some i => RpBulk (default [] (xs !! Z.to_nat i)) end
            end
        end, [])).

Definition spec_lrange (m : kv) (key a b : bytes) : outcome :=
  on_key m key (fun m x =>
    (m, match ParseInt a, ParseInt b with
        | Some start, Some stop =>
            RpRaw (array (match x with
                          | None => []
                          | Some (xs, _) => match window start stop (zlen xs) with None => [] | Some (lo, hi) => sl xs lo (hi + 1 - lo) end
                          end))
        | _, _ => RpErr errNotInt
        end, [])).

Definition spec_lpos (m : kv) (key target : bytes) (opts : list bytes) : outcome :=
  on_key m key (fun m x =>
    (m, match lpos_options opts with
        | inr msg => RpErr msg
        | inl (rank, count, maxlen) =>
            let hits := match x with None => [] | Some (xs, _) => lpos_spec xs target rank (if count <? 0 then 1 else count) maxlen end in
            if count <? 0 then match hits with [] => RpNull | h :: _ => RpInt h end
            else RpRaw (foldl AppendInt (AppendArrayHeader [] (zlen hits)) hits)
        end, [])).

Definition spec_lset (m : kv) (key ix v : bytes) : outcome :=
  on_key m key (fun m x =>
    match ParseInt ix with
    | None => (m, RpErr errNotInt, [])
    | Some idx =>
        match x with
        | None => (m, RpErr errNoSuchKey, [])
        | Some (xs, at_) =>
            match index_in idx xs with
            | None => (m, RpErr errOutOfRange, [])
            | Some i => (<[key := (<[Z.to_nat i := v]> xs, at_)]> m, RpStatus (str "OK"), [logged key listOpSet (PutUvarint i) v; ENotify NotifyList (str "lset") key])
            end
        end
    end).

Definition spec_ltrim (m : kv) (key a b : bytes) : outcome :=
  on_key m key (fun m x =>
    match ParseInt a, ParseInt b with
    | Some start, Some stop =>
        match x with
        | None => (m, RpStatus (str "OK"), [])
        | Some (xs, at_) =>
            let '(lo, hi) := default (1, 0) (window start stop (zlen xs)) in
            let '(m, ev) := settle_spec m key (sl xs lo (hi + 1 - lo)) at_ in
            (m, RpStatus (str "OK"), logged key listOpTrim (PutUvarint lo ++ PutUvarint hi) [] :: ENotify NotifyList (str "ltrim") key :: ev)
        end
    | _, _ => (m, RpErr errNotInt, [])
    end).

Definition spec_lrem (m : kv) (key c v : bytes) : outcome :=
  on_key m key (fun m x =>
    match ParseInt c with
    | None => (m, RpErr errNotInt, [])
    | Some count =>
        match x with
        | None => (m, RpInt 0, [])
        | Some (xs, at_) =>
            let '(ys, n) := lrem_spec xs count v in
            if 0 <? n then
              let '(m, ev) := settle_spec m key ys at_ in
              (m, RpInt n, logged key listOpRem (PutVarint count) v :: ENotify NotifyList (str "lrem") key :: ev)
            else (m, RpInt n, [])
        end
    end).

Definition side_of (side : bytes) : option bool :=
  if fold_eq side (str "BEFORE") then Some true else if fold_eq side (str "AFTER") then Some false else None.

Definition spec_linsert (m : kv) (key side pivot v : bytes) : outcome :=
  on_key m key (fun m x =>
    match side_of side, x with
    | None, _ => (m, RpErr errSyntax, [])
    | Some _, None => (m, RpInt 0, [])
    | Some before, Some (xs, at_) =>
        match insert_spec before pivot v xs with
        | None => (m, RpInt (-1), [])
        | Some ys => (<[key := (ys, at_)]> m, RpInt (zlen ys), [logged key listOpInsert ((if before then x01 else x00) :: pivot) v; ENotify NotifyList (str "linsert") key])
        end
    end).

(** The move: the source's type, the source's elements, the destination's type, in that order. *)
Definition spec_move (m : kv) (src dst : bytes) (srcLeft dstLeft : bool) : outcome :=
  on_key m src (fun m x =>
    match x with
    | None => (m, RpNull, [])
    | Some (xs, at_) =>
        on_key m dst (fun m y =>
          let '(xs', v) := pop_end srcLeft xs in
          let evs := [ENotify NotifyList (popEvent srcLeft) src; ENotify NotifyList (pushEvent dstLeft) dst] in
          if bytes_eqb src dst then (<[src := (pushed dstLeft v xs', at_)]> m, RpBulk v, evs)
          else
            let '(ys, dat) := default ([], 0) y in
            let m := <[dst := (pushed dstLeft v ys, dat)]> m in
            let '(m, ev) := settle_spec m src xs' at_ in
            (m, RpBulk v, evs ++ ev))
    end).

Fixpoint spec_mpop (m : kv) (keys : list bytes) (front : bool) (count : Z) : outcome :=
  match keys with
  | [] => (m, RpRaw (AppendNullArray []), [])
  | key :: keys' =>
      on_key m key (fun m x =>
        match x with
        | None => spec_mpop m keys' front count
        | Some (xs, at_) =>
            let '(ys, vs) := pop_many front (Z.to_nat (Z.min count (zlen xs))) xs in
            let '(m, ev) := settle_spec m key ys at_ in
            (m, RpRaw (AppendArrayHeader [] 2 ++ bulk key ++ array vs), ENotify NotifyList (popEvent front) key :: ev)
        end)
  end.

Definition spec_lmpop (m : kv) (args : list bytes) : outcome :=
  match mpop_args args with
  | inl (keys, front, count) => spec_mpop m keys front count
  | inr msg => (m, RpErr msg, [])
  end.

(** The commands outside the type check. *)
Definition on_live (m : kv) (key : bytes) (k : kv -> option (list bytes * Z) -> outcome) : outcome :=
  let '(m, ev) := expire_key e m key in let '(m, r, ev') := k m (m !! key) in (m, r, ev ++ ev').

Definition spec_del (m : kv) (key : bytes) : outcome :=
  on_live m key (fun m x => match x with None => (m, flag false, []) | Some _ => (delete key m, flag true, [logged key listOpDeleteKey [] []]) end).

Definition expire_log (key : bytes) (at_ : Z) : effect := ELog key listOpExpire [] (le_enc 8 (at_ mod two64)).

Definition spec_expire (m : kv) (verb key time : bytes) (opts : list bytes) : outcome :=
  match expire_request (e_now e) verb time opts with
  | inr msg => (m, RpErr msg, [])
  | inl (f, at_) =>
      on_live m key (fun m x =>
        match x with
        | None => (m, RpInt 0, [])
        | Some (xs, cur) =>
            if decide (allowed f cur at_) then
              if at_ <=? e_now e then (delete key m, RpInt 1, [logged key listOpDeleteKey [] []; ENotify NotifyGeneric (str "del") key])
              else (<[key := (xs, at_)]> m, RpInt 1, [expire_log key at_; ENotify NotifyGeneric (str "expire") key])
            else (m, RpInt 0, [])
        end)
  end.

Definition spec_persist (m : kv) (key : bytes) : outcome :=
  on_live m key (fun m x =>
    match x with
    | None => (m, flag false, [])
    | Some (xs, at_) => if at_ =? 0 then (m, flag false, []) else (<[key := (xs, 0)]> m, flag true, [expire_log key 0])
    end).

Definition spec_cmd (m : kv) (c : cmd) : outcome :=
  match c with
  | KPush front create key vals => spec_push m front create key vals
  | KPop front key rest => spec_pop m front key rest
  | KLlen key => spec_llen m key
  | KLindex key ix => spec_lindex m key ix
  | KLrange key a b => spec_lrange m key a b
  | KLpos key target opts => spec_lpos m key target opts
  | KLset key ix v => spec_lset m key ix v
  | KLtrim key a b => spec_ltrim m key a b
  | KLrem key c v => spec_lrem m key c v
  | KLinsert key side pivot v => spec_linsert m key side pivot v
  | KLmove src dst a b => match parseDir a, parseDir b with Some from, Some to => spec_move m src dst from to | _, _ => (m, RpErr errSyntax, []) end
  | KRpoplpush src dst => spec_move m src dst false true
  | KLmpop args => spec_lmpop m args
  | KDel key => spec_del m key
  | KExpire verb key time opts => spec_expire m verb key time opts
  | KPersist key => spec_persist m key
  end.
End spec.

(** The commands the router lets through, at the clock [now]: elements of at most 64 KiB with
    their length prefix, keys an allocation can hold, and for EXPIRE a clock past the epoch. *)
Definition wide_ok (v : bytes) : Prop := zlen v < max_alloc.

Definition cmd_ok (now : Z) (c : cmd) : Prop :=
  match c with
  | KPush _ _ key vals => wide_ok key /\ vals <> [] /\ Forall okv vals
  | KLmove _ dst _ _ | KRpoplpush _ dst => wide_ok dst
  | KLset _ _ v | KLinsert _ _ _ v => okv v
  | KLmpop args => args <> [] /\ Forall wide_ok args
  | KExpire _ _ _ _ => 0 <= now < two63z
  | _ => True
  end.

(** Lists of the keyspace are non-empty and indexable. *)
Definition solid (m : kv) : Prop := map_Forall (fun _ x => x.1 <> [] /\ small x.1) m.
