(* ===== verification/ListRefines.v ===== *)
(** The list commands of one shard do what their specification says while no client is blocked
    (engine/f3/list/commands.go, lmove.go, lmpop.go and keyexpire.go). *)

From stdpp Require Import gmap.
From S2P Require Import Prelude Format Frames Device Decimal Resp Ordered TierDirectory Expire InlineList ChunkRing Fenwick ValueLog NativeList NativeRefines NativeOps NativeSweeps NativeTrim NativeDemote ListMeaning ListRun ListWorld ListCommands WaitSlab ListSpec.
#[local] Open Scope Z_scope.

#[local] Abbreviation P A := (res Empty_set A).

Section refines.
Context {As : list awaiter} (rb : klist native -> Z) (spare : bytes) (sp : bytes -> bytes -> bytes) (e : env).
Hypothesis (Hsp : roomy sp).
#[local] Abbreviation shows := (ListSpec.shows As).

(** A run that ends with the outcome's keyspace, reply and effects. *)
Definition meets (w : world) (o : outcome) (run : P (world * rep)) : Prop :=
  exists w', run = Ok (w', o.1.2) /\ shows e w' o.1.1 /\ w_out w' = w_out w ++ o.2.

Lemma meets_done w m r : shows e w m -> meets w (m, r, []) (Ok (w, r)).
Proof. intros H. exists w. cbn. by rewrite app_nil_r. Qed.
#[local] Hint Resolve meets_done : core.

Lemma solid_at m key xs at_ : solid m -> m !! key = Some (xs, at_) -> xs <> [] /\ small xs.
Proof. intros Hs Hm. by apply (Hs key _ Hm). Qed.

Lemma solid_expire m key : solid m -> solid (expire_key e m key).1.
Proof. intros Hs. unfold expire_key. destruct (m !! key) as [[xs at_]|]; [|done]. destruct (_ && _); [|done]. cbn. by apply map_Forall_delete. Qed.

(** The type check in front of a handler. *)
Lemma on_key_ok w m key k (body : world -> option nat -> P (world * rep)) : shows e w m -> solid m ->
  (forall w1 m1, shows e w1 m1 -> solid m1 -> m1 = (expire_key e m key).1 -> w_m w1 ⊆ w_m w -> meets w1 (k m1 (m1 !! key)) (body w1 (w_m w1 !! key))) ->
  meets w (on_key e m key k) (let* '(w, l, wrong) := lookup_list e w key in if wrong then Ok (w, RpErr wrongType) else body w l).
Proof.
  intros H Hs Hbody. destruct (lookup_ok e w m key H) as (w1 & p & -> & H1 & Ho1 & Hp & Hw). pose proof (solid_expire m key Hs) as Hs1. unfold on_key.
  destruct (expire_key e m key) as [m1 ev]. cbn [fst snd] in *. specialize (Hbody w1 m1 H1 Hs1 eq_refl Hw). pose proof (sh_entry _ _ _ H1 key) as He. rewrite <- Hp in He, Hbody.
  destruct p as [p|], (m1 !! key) as [x|]; try done.
  - destruct (k m1 (Some x)) as [[m' r] ev']. destruct Hbody as (w' & Eb & H' & Ho'). exists w'. cbn [fst snd] in *. split_and!; [done|done|]. by rewrite Ho', Ho1, (assoc_L (++)).
  - destruct (e_string e key); [exists w1; cbn [fst snd]; rewrite app_nil_r; by split_and!|].
    destruct (k m1 None) as [[m' r] ev']. destruct Hbody as (w' & Eb & H' & Ho'). exists w'. cbn [fst snd] in *. split_and!; [done|done|]. by rewrite Ho', Ho1, (assoc_L (++)).
Qed.

Lemma on_live_ok w m key k (body : world -> option nat -> P (world * rep)) : shows e w m -> solid m ->
  (forall w1 m1, shows e w1 m1 -> solid m1 -> m1 = (expire_key e m key).1 -> w_m w1 ⊆ w_m w -> meets w1 (k m1 (m1 !! key)) (body w1 (w_m w1 !! key))) ->
  meets w (on_live e m key k) (let* '(w, l) := live e w key in body w l).
Proof.
  intros H Hs Hbody. destruct (live_ok e w m key H) as (w1 & p & -> & H1 & Ho1 & -> & Hw). pose proof (solid_expire m key Hs) as Hs1. unfold on_live.
  destruct (expire_key e m key) as [m1 ev]. cbn [fst snd] in *. specialize (Hbody w1 m1 H1 Hs1 eq_refl Hw). destruct (k m1 (m1 !! key)) as [[m' r] ev'].
  destruct Hbody as (w' & -> & H' & Ho'). exists w'. cbn [fst snd] in *. split_and!; [done|done|]. by rewrite Ho', Ho1, (assoc_L (++)).
Qed.

(** The two shapes a key has under a handler. *)
Lemma key_cases w m key : shows e w m ->
  (exists p xs at_, w_m w !! key = Some p /\ m !! key = Some (xs, at_)) \/ (w_m w !! key = None /\ m !! key = None).
Proof.
  intros H. pose proof (sh_entry _ _ _ H key) as He. destruct (w_m w !! key) as [p|], (m !! key) as [[xs at_]|]; try done; [left; by exists p, xs, at_|by right].
Qed.

(** ** Pushes *)

Lemma push_args_ok front key at_ vals : Forall okv vals -> forall w m xs p, shows e w m -> w_m w !! key = Some p -> m !! key = Some (xs, at_) ->
  exists w', push_args spare e w key p front vals = Ok w' /\ shows e w' (<[key := (foldl (fun xs v => pushed front v xs) xs vals, at_)]> m)
    /\ w_m w' = w_m w /\ w_out w' = w_out w ++ map (push_log front key) vals.
Proof.
  induction 1 as [|v vals Hv Hvs IH]; intros w m xs p H Hp Hm; cbn [push_args foldl map].
  { exists w. rewrite insert_id, app_nil_r by done. by split_and!. }
  destruct (pushEnd_ok e w m key p xs at_ H Hp Hm spare v front Hv) as (w1 & -> & H1 & Ho1 & Hm1).
  destruct (IH (logPush w1 key v front) _ (pushed front v xs) p (shows_fx _ _ _ _ H1)) as (w2 & -> & H2 & Hm2 & Ho2); [by cbn; rewrite Hm1|apply lookup_insert_eq|].
  exists w2. rewrite insert_insert_eq in H2. split_and!; [done|done|by rewrite Hm2|]. rewrite Ho2. unfold logPush, fx. cbn [w_out]. by rewrite Ho1, <- (assoc_L (++)).
Qed.

(** The settling of a key at the end of a command, after the effects [pre] and [mid]. *)
Lemma finish_ok w0 w m key p xs at_ r pre mid : shows e w (<[key := (xs, at_)]> m) -> w_m w !! key = Some p -> w_out w = (w_out w0 ++ pre) ++ mid ->
  meets w0 (let '(m, ev) := settle_spec m key xs at_ in (m, r, pre ++ mid ++ ev)) (let* w := settle rb e w key p in Ok (w, r)).
Proof.
  intros H Hp Ho. destruct (settle_ok rb e w m key p xs at_ H Hp) as (w' & -> & H' & Ho' & _). destruct (settle_spec m key xs at_) as [m' ev]. cbn [fst snd] in *.
  exists w'. cbn [fst snd]. split_and!; [done|done|]. by rewrite Ho', Ho, !(assoc_L (++)).
Qed.

(** A handler that writes the settling out. *)
Lemma settle_bind w key p r :
  (let* n := len_of e w p in let* w := (if n =? 0 then let* w := drop_key e w key in Ok (notify w NotifyGeneric (str "del") key) else note rb e w p) in Ok (w, r))
    = (let* w := settle rb e w key p in Ok (w, r) : P (world * rep)).
Proof. unfold settle. by destruct (len_of e w p). Qed.

(** ** Reads *)

(** A handler behind the type check, with the key's two shapes. *)
Ltac on_key_cases key :=
  match goal with
  | H : ListSpec.shows _ _ ?w ?m, Hs : solid ?m |- _ =>
      eapply (on_key_ok w m key _ (fun w l => _)); [done|done|]; intros w1 m1 H1 Hs1 _ _; clear w m H Hs; rename w1 into w, m1 into m, H1 into H, Hs1 into Hs;
      destruct (key_cases w m key H) as [(p & xs & at_ & Hp & Hm)|[Hp Hm]]; rewrite Hp, Hm
  end.

(** What is known of the list of a key. *)
Ltac at_key :=
  match goal with
  | H : ListSpec.shows _ ?e ?w ?m, Hs : solid ?m, Hp : w_m ?w !! ?key = Some ?p, Hm : ?m !! ?key = Some (?xs, ?at_) |- _ =>
      destruct (solid_at m key xs at_ Hs Hm) as [Hne Hsm];
      destruct (obj_ok e w m key p xs at_ H Hp Hm) as (o & Eo & Ho & Hl & Hat);
      try rewrite (len_ok e w m key p xs at_ H Hp Hm); try rewrite Eo
  end.

Lemma meets_read w m key p xs at_ o l r : shows e w m -> w_m w !! key = Some p -> m !! key = Some (xs, at_) -> obj w p = Ok o -> list_holds (e_st e) l xs ->
  meets w (m, r, []) (Ok (set_obj w p (set_data o l), r)).
Proof. intros H Hp Hm Eo Hl. eexists. split; [done|]. split; [by eapply set_same|]. cbn. by rewrite app_nil_r. Qed.

Lemma Llen_ok w m key : shows e w m -> solid m -> meets w (spec_llen e m key) (Llen e w [key]).
Proof. intros H Hs. unfold spec_llen, Llen. on_key_cases key; [|by apply meets_done]. at_key. by apply meets_done. Qed.

Lemma Lindex_ok w m key ix : shows e w m -> solid m -> meets w (spec_lindex e m key ix) (Lindex e w [key; ix]).
Proof.
  intros H Hs. unfold spec_lindex, Lindex. on_key_cases key; destruct (ParseInt ix) as [idx|]; try by apply meets_done.
  at_key. cbv zeta. rewrite index_in_test. destruct (index_in idx xs) as [i|] eqn:Hi; [|by apply meets_done]. apply index_in_some in Hi as [Hr <-].
  destruct (lookup_lt_is_Some_2 xs (Z.to_nat i)) as [v Hv]; [unfold zlen in Hr; lia|].
  destruct (get_inv (H := native_deque (e_st e)) okv (holds (e_st e)) (lo_data o) xs i v Hl Hsm ltac:(lia) Hv) as (l' & -> & Hl'). rewrite Hv. by eapply meets_read.
Qed.

Lemma clampRange_some start stop n lo hi : clampRange start stop n = Some (lo, hi) -> 0 <= lo <= hi /\ hi < n.
Proof.
  unfold clampRange. cbv zeta. repeat case_match; intros [= <- <-]; repeat match goal with H : _ |- _ => progress (apply orb_false_iff in H as [? ?] || rewrite ?Z.ltb_lt, ?Z.ltb_ge, ?Z.leb_le, ?Z.leb_gt in H) end; lia.
Qed.

Lemma Lrange_ok w m key a b : shows e w m -> solid m -> meets w (spec_lrange e m key a b) (Lrange sp e w [key; a; b]).
Proof.
  intros H Hs. unfold spec_lrange, Lrange. on_key_cases key; destruct (ParseInt a) as [start|]; [|by apply meets_done| |by apply meets_done]; destruct (ParseInt b) as [stop|]; try by apply meets_done.
  at_key. rewrite <- clampRange_window by apply zlen_nonneg. destruct (clampRange start stop (zlen xs)) as [[lo hi]|] eqn:Hc; [|by apply meets_done]. apply clampRange_some in Hc as [Hlo Hhi].
  destruct (appendRange_inv (H := native_deque (e_st e)) okv (holds (e_st e)) sp (lo_data o) xs (AppendArrayHeader [] (hi - lo + 1)) lo hi Hsp Hl Hsm Hlo Hhi) as (l' & -> & Hl').
  replace (hi - lo + 1) with (zlen (sl xs lo (hi + 1 - lo))) by (unfold sl; rewrite zlen_ztake, zlen_zdrop; lia). by eapply meets_read.
Qed.

Lemma Lpos_ok w m key target opts : shows e w m -> solid m -> meets w (spec_lpos e m key target opts) (Lpos e w (key :: target :: opts)).
Proof.
  intros H Hs. unfold spec_lpos, Lpos. rewrite <- lpos_opts_spec.
  on_key_cases key; destruct (lpos_opts opts 1 (-1) 0) as [[[rank count] maxlen]|] eqn:Eo'; try by apply meets_done.
  apply (lpos_opts_rank (length opts)) in Eo' as [Hr H0]; [|done|done]. rewrite <- lpos_run_spec by done. at_key. rewrite (lposScan_inv (H := native_deque (e_st e)) okv (holds (e_st e)) (lo_data o) xs) by done. by apply meets_done.
Qed.

(** ** Interior writes *)

(** The rewritten list of a key, noted, after the effects [evs]. *)
Lemma noted_ok w0 w m key p xs at_ o l evs (k : world -> P (world * rep)) r : shows e w m -> w_m w !! key = Some p -> m !! key = Some (xs, at_) -> obj w p = Ok o ->
  forall ys, list_holds (e_st e) l ys -> w_out w = w_out w0 ->
  (forall w', shows e w' (<[key := (ys, at_)]> m) -> w_m w' !! key = Some p -> k w' = Ok (w', r)) ->
  meets w0 (<[key := (ys, at_)]> m, r, evs) (let* w := note rb e (foldl fx (set_obj w p (set_data o l)) evs) p in k w).
Proof.
  intros H Hp Hm Eo ys Hl Ho Hk. assert (H1 : shows e (set_obj w p (set_data o l)) (<[key := (ys, at_)]> m)) by (by eapply set_ok).
  assert (Hf : forall evs w1, shows e w1 (<[key := (ys, at_)]> m) -> shows e (foldl fx w1 evs) (<[key := (ys, at_)]> m) /\ w_m (foldl fx w1 evs) = w_m w1 /\ w_out (foldl fx w1 evs) = w_out w1 ++ evs).
  { intros evs0. induction evs0 as [|x evs0 IH]; intros w1 Hw; cbn [foldl]; [by rewrite app_nil_r|]. destruct (IH (fx w1 x) (shows_fx _ _ _ _ Hw)) as (? & ? & ->). split_and!; [done|done|]. cbn [fx w_out]. by rewrite <- (assoc_L (++)). }
  destruct (Hf evs _ H1) as (H2 & Hm2 & Ho2). destruct (shows_note rb e _ _ key p H2) as (w3 & -> & H3 & Ho3 & Hm3); [by rewrite Hm2|].
  rewrite Hk; [|done|by rewrite Hm3, Hm2]. exists w3. split_and!; [done|done|]. rewrite Ho3, Ho2. cbn. by rewrite Ho.
Qed.

Lemma Lset_ok w m key ix v : shows e w m -> solid m -> okv v -> meets w (spec_lset e m key ix v) (Lset rb e w [key; ix; v]).
Proof.
  intros H Hs Hv. unfold spec_lset, Lset. on_key_cases key; destruct (ParseInt ix) as [idx|]; try by apply meets_done.
  at_key. cbv zeta. rewrite index_in_test. destruct (index_in idx xs) as [i|] eqn:Hi; [|by apply meets_done]. apply index_in_some in Hi as [Hr <-].
  destruct (setAt_inv (H := native_deque (e_st e)) okv (holds (e_st e)) (lo_data o) xs i v Hl Hsm Hv Hr) as (l' & -> & Hl').
  by eapply (noted_ok w w m key p xs at_ o l' [_; _] (fun w => Ok (w, _))).
Qed.

Lemma Ltrim_ok w m key a b : shows e w m -> solid m -> meets w (spec_ltrim e m key a b) (Ltrim rb e w [key; a; b]).
Proof.
  intros H Hs. unfold spec_ltrim, Ltrim. on_key_cases key; destruct (ParseInt a) as [start|]; [|by apply meets_done| |by apply meets_done]; destruct (ParseInt b) as [stop|]; try by apply meets_done.
  at_key. rewrite <- clampRange_window by apply zlen_nonneg. destruct (default (1, 0) (clampRange start stop (zlen xs))) as [lo hi] eqn:Hc.
  assert (Hr : lo <= hi -> 0 <= lo /\ hi < zlen xs).
  { destruct (clampRange start stop (zlen xs)) as [[lo' hi']|] eqn:Hc'; cbn in Hc; injection Hc as <- <-; [apply clampRange_some in Hc'|]; lia. }
  destruct (trim_inv (H := native_deque (e_st e)) okv (holds (e_st e)) (lo_data o) xs lo hi Hl Hsm Hr) as (l' & -> & Hl').
  refine (finish_ok w (notify (logTrim _ key lo hi) NotifyList (str "ltrim") key) m key p _ at_ _ [] [_; _] _ _ _); [|done|by cbn; rewrite app_nil_r, <- (assoc_L (++))].
  apply shows_fx, shows_fx. by eapply set_ok.
Qed.

Lemma Linsert_ok w m key side pivot v : shows e w m -> solid m -> okv v -> meets w (spec_linsert e m key side pivot v) (Linsert rb e w [key; side; pivot; v]).
Proof.
  intros H Hs Hv. unfold spec_linsert, Linsert.
  assert (Eside : (if fold_eq side (str "BEFORE") then Ok (Some true) else if fold_eq side (str "AFTER") then Ok (Some false) else Ok None : P (option bool)) = Ok (side_of side)).
  { unfold side_of. by destruct (fold_eq side (str "BEFORE")), (fold_eq side (str "AFTER")). }
  rewrite Eside. clear Eside. on_key_cases key; destruct (side_of side) as [before|]; try by apply meets_done.
  at_key. destruct (insert_inv (H := native_deque (e_st e)) okv (holds (e_st e)) (lo_data o) xs before pivot v Hl Hv) as (l' & -> & Hl').
  destruct (insert_spec before pivot v xs) as [ys|] eqn:Ei; cbn [default] in Hl'.
  - rewrite bool_decide_true by done. cbn [negb]. eapply (noted_ok w w m key p xs at_ o l' [_; _] (fun w => let* n := len_of e w p in Ok (w, RpInt n))); try done.
    intros w' H' Hp'. by rewrite (len_ok e w' _ key p ys at_ H' Hp' (lookup_insert_eq _ _ _)).
  - rewrite bool_decide_false by (by intros []). by eapply meets_read.
Qed.

Lemma Lrem_ok w m key c v : shows e w m -> solid m -> meets w (spec_lrem e m key c v) (Lrem rb e w [key; c; v]).
Proof.
  intros H Hs. unfold spec_lrem, Lrem. on_key_cases key; destruct (ParseInt c) as [count|] eqn:Hc; try by apply meets_done. apply ParseInt_spec in Hc as [Hc _].
  at_key. rewrite <- removeMatches_spec by done. destruct (remove_inv (H := native_deque (e_st e)) okv (holds (e_st e)) (lo_data o) xs count v Hl Hc) as (l' & -> & Hl').
  pose proof (removeMatches_nonneg xs count v) as Hn. pose proof (removeMatches_none xs count v) as Hz. destruct (removeMatches xs count v) as [ys n]. cbn [fst snd] in *. cbv zeta.
  assert (H1 : shows e (set_obj w p (set_data o l')) (<[key := (ys, at_)]> m)) by (by eapply set_ok).
  destruct (Z.ltb_spec 0 n) as [Hpos|Hle].
  - rewrite settle_bind. refine (finish_ok w (notify (logRem _ key count v) NotifyList (str "lrem") key) m key p ys at_ (RpInt n) [] [_; _] _ _ _); [|done|by cbn; rewrite app_nil_r, <- (assoc_L (++))].
    by apply shows_fx, shows_fx.
  - rewrite Hz in * by lia. rewrite (len_ok e _ _ key p xs at_ H1 Hp (lookup_insert_eq _ _ _)). destruct (Z.eqb_spec (zlen xs) 0) as [E|_]; [exfalso; apply Hne, zlen_0_nil; lia|].
    by eapply meets_read.
Qed.

(** ** Pops *)

Lemma okv_wide v : okv v -> zlen v < max_alloc.
Proof. apply (dq_ok_fits (DequeLaws := native_laws (e_st e))). Qed.

Lemma list_holds_ok l xs : list_holds (e_st e) l xs -> Forall okv xs.
Proof. apply list_inv_ok. Qed.

Lemma bulk_ok out v : wide_ok v -> AppendBulk (sp out v) out v = out ++ bulk v.
Proof. intros Hv. apply AppendBulk_eq; [|apply Hsp]. unfold wide_ok in Hv. pose proof (zlen_nonneg v). unfold is_u64. lia. Qed.

Lemma pop_end_okv front xs : Forall okv xs -> xs <> [] -> okv (pop_end front xs).2 /\ Forall okv (pop_end front xs).1.
Proof.
  intros Ho Hne. destruct front; cbn [pop_end fst snd].
  - destruct xs; [done|]. by apply Forall_cons in Ho.
  - destruct (snoc_cases xs) as [->|(ys & x & ->)]; [done|]. rewrite last_snoc, length_app. cbn [length default]. replace (length ys + 1 - 1)%nat with (length ys) by lia. rewrite take_app_length.
    apply Forall_app in Ho as [? [Hx _]%Forall_cons]. done.
Qed.

Lemma pop_end_len front xs : xs <> [] -> length xs = S (length (pop_end front xs).1).
Proof.
  intros Hne. destruct front; cbn [pop_end fst].
  - by destruct xs.
  - rewrite length_take. destruct xs; [done|]. cbn. lia.
Qed.

Lemma pop_many_len front n : forall xs, (n <= length xs)%nat -> length (pop_many front n xs).1 = (length xs - n)%nat /\ length (pop_many front n xs).2 = n.
Proof.
  induction n as [|n IH]; intros xs Hn; cbn [pop_many]; [cbn; lia|]. assert (Hne : xs <> []) by (intros ->; cbn in Hn; lia).
  pose proof (pop_end_len front xs Hne). destruct (pop_end front xs) as [ys v]. cbn [fst] in *. specialize (IH ys). destruct (pop_many front n ys) as [zs vs]. cbn [fst snd length] in *. lia.
Qed.

(** A run of pops into the reply, logged or not. *)
Lemma pops_ok (logs : bool) front key at_ n : forall w m xs p out, shows e w m -> w_m w !! key = Some p -> m !! key = Some (xs, at_) -> (n <= length xs)%nat ->
  exists w', (if logs then pop_logged sp e w key p front out n else pop_bulks sp e w p front out n) = Ok (w', out ++ concat (map bulk (pop_many front n xs).2))
    /\ shows e w' (<[key := ((pop_many front n xs).1, at_)]> m) /\ w_m w' = w_m w /\ w_out w' = w_out w ++ (if logs then replicate n (pop_log front key) else []).
Proof.
  induction n as [|n IH]; intros w m xs p out H Hp Hm Hn; cbn [pop_many].
  { exists w. cbn. rewrite insert_id, app_nil_r by done. destruct logs; by rewrite app_nil_r. }
  assert (Hne : xs <> []) by (intros ->; cbn in Hn; lia). pose proof (pop_end_len front xs Hne) as Hlen.
  destruct (obj_ok e w m key p xs at_ H Hp Hm) as (o & _ & _ & Hl & _). destruct (pop_end_okv front xs (list_holds_ok _ _ Hl) Hne) as [Hv _].
  destruct (popOne_ok e w m key p xs at_ front H Hp Hm Hne) as (w1 & E1 & H1 & Ho1 & Hm1). destruct (pop_end front xs) as [ys v]. cbn [fst snd] in *.
  set (w1' := if logs then logPop w1 key front else w1).
  assert (H1' : shows e w1' (<[key := (ys, at_)]> m)) by (destruct logs; [by apply shows_fx|done]).
  destruct (IH w1' (<[key := (ys, at_)]> m) ys p (out ++ bulk v) H1') as (w2 & E2 & H2 & Hm2 & Ho2); [subst w1'; destruct logs; cbn; by rewrite Hm1|apply lookup_insert_eq|lia|].
  destruct (pop_many front n ys) as [zs vs]. cbn [fst snd map concat] in *. rewrite insert_insert_eq in H2. exists w2. rewrite <- (assoc_L (++)) in E2.
  assert (Hw : wide_ok v) by (by apply okv_wide).
  split_and!; [|done|rewrite Hm2; subst w1'; by destruct logs|].
  - destruct logs; cbn [pop_logged pop_bulks]; rewrite E1; by rewrite bulk_ok.
  - rewrite Ho2. destruct logs; subst w1'; cbn; rewrite Ho1; [by rewrite <- (assoc_L (++))|by rewrite app_nil_r].
Qed.

Lemma popCmd_ok w m front key rest : shows e w m -> solid m -> meets w (spec_pop e m front key rest) (popCmd rb sp e w (key :: rest) front).
Proof.
  intros H Hs. unfold spec_pop, popCmd. on_key_cases key.
  - at_key. destruct rest as [|c [|]]; [| |by apply meets_done].
    + destruct (popOne_ok e w m key p xs at_ front H Hp Hm Hne) as (w1 & -> & H1 & Ho1 & Hm1). destruct (pop_end front xs) as [ys v]. cbn [fst snd] in *.
      refine (finish_ok w (notify (logPop w1 key front) NotifyList (popEvent front) key) m key p ys at_ (RpBulk v) [] [_; _] _ _ _); [by apply shows_fx, shows_fx|by cbn; rewrite Hm1|].
      cbn. by rewrite Ho1, app_nil_r, <- (assoc_L (++)).
    + destruct (ParseInt c) as [count|]; [|by apply meets_done]. destruct (Z.ltb_spec count 0) as [|Hc]; [by apply meets_done|].
      set (n := Z.to_nat (Z.min count (zlen xs))). assert (Hn : (n <= length xs)%nat) by (subst n; unfold zlen; lia). pose proof (zlen_nonneg xs).
      cbv zeta.
      destruct (pops_ok true front key at_ n w m xs p (AppendArrayHeader [] (Z.min count (zlen xs))) H Hp Hm Hn) as (w1 & -> & H1 & Hm1 & Ho1).
      destruct (pop_many_len front n xs Hn) as [Hl1 Hl2]. destruct (pop_many front n xs) as [ys vs] eqn:Epm. cbn [fst snd] in *.
      assert (Hz : Z.min count (zlen xs) = zlen vs) by (unfold zlen at 2; rewrite Hl2; subst n; lia). rewrite Hz. fold (array vs).
      assert (Hp1 : w_m w1 !! key = Some p) by (by rewrite Hm1). destruct (decide (n = 0%nat)) as [Hn0|Hn0].
      * assert (vs = []) as -> by (apply nil_length_inv; lia). change (0 <? zlen (@nil bytes)) with false. cbn [map concat]. rewrite Hn0 in *. cbn [pop_many] in Epm. injection Epm as <-.
        rewrite insert_id in H1 by done. rewrite (len_ok e w1 m key p xs at_ H1 Hp1 Hm). destruct (Z.eqb_spec (zlen xs) 0) as [E|_]; [exfalso; apply Hne, zlen_0_nil; lia|].
        destruct (shows_note rb e w1 m key p H1 Hp1) as (w2 & -> & H2 & Ho2 & _). exists w2. cbn [fst snd]. split_and!; [done|done|]. by rewrite Ho2, Ho1.
      * assert ((0 <? zlen vs) = true) as -> by (unfold zlen; lia). rewrite settle_bind. refine (finish_ok w (notify w1 NotifyList (popEvent front) key) m key p ys at_ (RpRaw (array vs)) (replicate n (pop_log front key)) [_] _ Hp1 _); [by apply shows_fx|].
        cbn. by rewrite Ho1.
  - destruct rest as [|c [|]]; [by apply meets_done| |by apply meets_done]. destruct (ParseInt c) as [count|]; [|by apply meets_done]. destruct (count <? 0); by apply meets_done.
Qed.

(** ** Moves *)

Lemma settle_keep w m key p xs at_ : shows e w m -> m !! key = Some (xs, at_) -> xs <> [] -> w_m w !! key = Some p ->
  exists w', settle rb e w key p = Ok w' /\ shows e w' m /\ w_out w' = w_out w /\ w_m w' = w_m w.
Proof.
  intros H Hm Hne Hp. unfold settle. rewrite (len_ok e w m key p xs at_ H Hp Hm). destruct (Z.eqb_spec (zlen xs) 0) as [E|_]; [exfalso; apply Hne, zlen_0_nil; lia|].
  by eapply shows_note.
Qed.

(** The part of a move behind both type checks. *)
Definition move_tail (srcKey dstKey : bytes) (srcLeft dstLeft : bool) (w : world) (s : nat) (dst : option nat) : P (world * rep) :=
  let* '(w, v) := popOne e w s srcLeft in
  if bytes_eqb srcKey dstKey then
    let* w := pushEnd spare e w s v dstLeft in
    let* w := note rb e (notify (notify w NotifyList (popEvent srcLeft) srcKey) NotifyList (pushEvent dstLeft) dstKey) s in
    Ok (w, RpBulk v)
  else
    let '(w, d) := match dst with Some d => (w, d) | None => install e w dstKey end in
    let* w := pushEnd spare e w d v dstLeft in
    let* w := serve_if_waiters rb spare sp e (notify (notify w NotifyList (popEvent srcLeft) srcKey) NotifyList (pushEvent dstLeft) dstKey) dstKey d in
    let* w := settle rb e w dstKey d in
    let* w := settle rb e w srcKey s in
    Ok (w, RpBulk v).

Lemma moveReply_eq w src dst srcLeft dstLeft : moveReply rb spare sp e w src dst srcLeft dstLeft =
  let* '(w, s, wrong) := lookup_list e w src in
  if wrong then Ok (w, RpErr wrongType)
  else
    match s with
    | None => Ok (w, RpNull)
    | Some s =>
        let* n := len_of e w s in
        if n =? 0 then Ok (w, RpNull)
        else
          let* '(w, d, wrong) := lookup_list e w dst in
          if wrong then Ok (w, RpErr wrongType) else move_tail src dst srcLeft dstLeft w s d
    end.
Proof.
  unfold moveReply, lmove, move_tail. destruct (lookup_list e w src) as [[[w1 [s|]] []]|? |]; try done. destruct (len_of e w1 s) as [n|? |]; try done. destruct (n =? 0); [done|].
  destruct (lookup_list e w1 dst) as [[[w2 d] []]|? |]; try done. destruct (popOne e w2 s srcLeft) as [[w3 v]|? |]; try done. destruct (bytes_eqb src dst).
  - destruct (pushEnd _ _ _ _ _ _) as [w4|? |]; try done. cbv zeta. by destruct (note _ _ _ _).
  - destruct (match d with Some d => _ | None => _ end) as [w4 d']. destruct (pushEnd _ _ _ _ _ _) as [w5|? |]; try done. cbv zeta. destruct (serve_if_waiters _ _ _ _ _ _ _) as [w6|? |]; try done.
    destruct (settle _ _ _ dst _) as [w7|? |]; try done. by destruct (settle _ _ _ src _).
Qed.

(** The destination of a move, made when the key has no list. *)
Lemma target_ok w m key : shows e w m ->
  let '(w', d) := match w_m w !! key with Some d => (w, d) | None => install e w key end in
  shows e w' (<[key := default ([], 0) (m !! key)]> m) /\ w_m w' !! key = Some d /\ w_out w' = w_out w /\ forall k, k <> key -> w_m w' !! k = w_m w !! k.
Proof.
  intros H. destruct (key_cases w m key H) as [(d & ys & dat & Hd & Hm)|[Hd Hm]]; rewrite Hd, Hm; cbn [default].
  - rewrite insert_id by done. by split_and!.
  - pose proof (shows_install e w m key H Hm) as Hi. unfold install in *. destruct Hi as (Hi & Hk & Ho). split_and!; try done. intros k Hne. cbn. by rewrite lookup_insert_ne.
Qed.

Lemma pushed_ne dstLeft v (xs : list bytes) : pushed dstLeft v xs <> [].
Proof. destruct dstLeft; [done|]. by destruct xs. Qed.

Lemma expire_key_fresh m key xs at_ : (expire_key e m key).1 !! key = Some (xs, at_) -> negb (at_ =? 0) && (at_ <=? e_now e) = false.
Proof.
  unfold expire_key. destruct (m !! key) as [[ys dat]|] eqn:Hm; [|cbn [fst]; by rewrite Hm]. destruct (negb (dat =? 0) && (dat <=? e_now e)) eqn:Hx; cbn [fst]; [by rewrite lookup_delete_eq|].
  rewrite Hm. by intros [= -> ->].
Qed.

Lemma expire_key_other m key dst x : m !! key = Some x -> negb (x.2 =? 0) && (x.2 <=? e_now e) = false -> (expire_key e m dst).1 !! key = Some x.
Proof.
  intros Hm Hx. unfold expire_key. destruct (decide (dst = key)) as [->|Hne].
  - rewrite Hm. destruct x as [xs at_]. cbn [snd] in Hx. by rewrite Hx.
  - destruct (m !! dst) as [[ys dat]|]; [|exact Hm]. destruct (negb (dat =? 0) && _); [|exact Hm]. cbn [fst]. by rewrite lookup_delete_ne.
Qed.

(** LMPOP's reply over its keys. *)
Definition mpop_reply (w : world) (keys : list bytes) (front : bool) (count : Z) : P (world * rep) :=
  let* '(w, out, wrong) := lmpop rb sp e w keys front count in
  Ok (w, if wrong then RpErr wrongType else match out with None => RpRaw (AppendNullArray []) | Some out => RpRaw out end).

(** The pops of a key that has elements. *)
Definition mpop_found (w : world) (key : bytes) (p : nat) (front : bool) (count n : Z) : P (world * rep) :=
  let npop := Z.min count n in
  let out := AppendArrayHeader [] 2 in
  let out := AppendArrayHeader (AppendBulk (sp out key) out key) npop in
  let* '(w, out) := pop_bulks sp e w p front out (Z.to_nat npop) in
  let* w := settle rb e (notify w NotifyList (popEvent front) key) key p in
  Ok (w, RpRaw out).

Lemma mpop_reply_cons w key keys front count : mpop_reply w (key :: keys) front count =
  let* '(w, l, wrong) := lookup_list e w key in
  if wrong then Ok (w, RpErr wrongType)
  else
    match l with
    | None => mpop_reply w keys front count
    | Some p =>
        let* n := len_of e w p in
        if n =? 0 then mpop_reply w keys front count
        else mpop_found w key p front count n
    end.
Proof.
  unfold mpop_reply, mpop_found. cbn [lmpop]. destruct (lookup_list e w key) as [[[w1 [p|]] []]|? |]; try done. destruct (len_of e w1 p) as [n|? |]; try done. destruct (n =? 0); [done|]. cbv zeta.
  destruct (pop_bulks _ _ _ _ _ _) as [[w2 out]|? |]; try done. by destruct (settle _ _ _ _ _).
Qed.

Lemma mpop_found_ok w m key p xs at_ front count : shows e w m -> w_m w !! key = Some p -> m !! key = Some (xs, at_) -> xs <> [] -> 0 < count -> wide_ok key ->
  meets w (let '(ys, vs) := pop_many front (Z.to_nat (Z.min count (zlen xs))) xs in let '(m, ev) := settle_spec m key ys at_ in
    (m, RpRaw (AppendArrayHeader [] 2 ++ bulk key ++ array vs), ENotify NotifyList (popEvent front) key :: ev)) (mpop_found w key p front count (zlen xs)).
Proof.
  intros H Hp Hm Hne Hc Hk. unfold mpop_found. cbv zeta. pose proof (zlen_nonneg xs). set (n := Z.to_nat (Z.min count (zlen xs))). assert (Hn : (n <= length xs)%nat) by (subst n; unfold zlen; lia). rewrite bulk_ok by done.
  destruct (pops_ok false front key at_ n w m xs p (AppendArrayHeader (AppendArrayHeader [] 2 ++ bulk key) (Z.min count (zlen xs))) H Hp Hm Hn) as (w1 & -> & H1 & Hm1 & Ho1).
  destruct (pop_many_len front n xs Hn) as [_ Hl2]. destruct (pop_many front n xs) as [ys vs]. cbn [fst snd] in *.
  assert (Z.min count (zlen xs) = zlen vs) as -> by (unfold zlen at 2; rewrite Hl2; subst n; lia).
  assert (AppendArrayHeader (AppendArrayHeader [] 2 ++ bulk key) (zlen vs) ++ concat (map bulk vs) = AppendArrayHeader [] 2 ++ bulk key ++ array vs) as -> by (unfold array, AppendArrayHeader; by rewrite <- !(assoc_L (++))).
  refine (finish_ok w (notify w1 NotifyList (popEvent front) key) m key p ys at_ _ [] [_] _ _ _); [by apply shows_fx|cbn; by rewrite Hm1|]. cbn. by rewrite Ho1, !app_nil_r.
Qed.

Lemma mpop_reply_ok front count keys : 0 < count -> Forall wide_ok keys -> forall w m, shows e w m -> solid m -> meets w (spec_mpop e m keys front count) (mpop_reply w keys front count).
Proof.
  intros Hc. induction 1 as [|key keys Hk Hks IH]; intros w m H Hs; [by apply meets_done|]. rewrite mpop_reply_cons. cbn [spec_mpop]. on_key_cases key; [|by apply IH].
  destruct (solid_at m key xs at_ Hs Hm) as [Hne _]. rewrite (len_ok e w m key p xs at_ H Hp Hm). destruct (Z.eqb_spec (zlen xs) 0) as [E|Hz]; [exfalso; apply Hne, zlen_0_nil; lia|]. by apply mpop_found_ok.
Qed.

Lemma mpop_args_ok args :
  match mpop_args args with inr _ => True | inl (keys, _, count) => 0 < count /\ (forall Q : bytes -> Prop, Forall Q args -> Forall Q keys) /\ keys <> [] /\ zlen keys <= zlen args end.
Proof.
  destruct args as [|nk rest]; [done|]. unfold mpop_args. destruct (ParseInt nk) as [n|]; [|done]. destruct (Z.ltb_spec 0 n) as [Hn|]; [|done].
  assert (Hk : zdrop n rest <> [] -> (forall Q : bytes -> Prop, Forall Q (nk :: rest) -> Forall Q (ztake n rest)) /\ ztake n rest <> [] /\ zlen (ztake n rest) <= zlen (nk :: rest)).
  { intros Hd. pose proof (zlen_ztake n rest) as Hl. pose proof (zlen_nonneg rest). rewrite zlen_cons.
    assert (n < zlen rest) by (destruct (Z.lt_ge_cases n (zlen rest)); [done|]; by rewrite zdrop_all in Hd).
    split_and!; [|intros E; rewrite E, zlen_nil in Hl; lia|lia]. intros Q [_ HQ]%Forall_cons. rewrite ztake_take. by apply Forall_take. }
  destruct (zdrop n rest) as [|dir [|o [|c [|]]]]; try done; destruct (Hk ltac:(done)) as (HQ & Hne & Hz).
  - destruct (parseDir dir); [|done]. split_and!; (done || lia).
  - destruct (parseDir dir); [|done]. destruct (fold_eq o _); [|done]. destruct (ParseInt c) as [v|]; [|done]. destruct (Z.ltb_spec 0 v); [|done]. by split_and!.
Qed.

Lemma Lmpop_ok w m args : shows e w m -> solid m -> args <> [] -> Forall wide_ok args -> meets w (spec_lmpop e m args) (Lmpop rb sp e w args).
Proof.
  intros H Hs Hne Hw. unfold spec_lmpop, Lmpop. pose proof (mpop_args_ok args) as Ht. rewrite parseLmpopTail_spec by done.
  destruct (mpop_args args) as [[[keys front] count]|msg]; [|by apply meets_done].
  destruct Ht as (Hc & Hk & _). apply mpop_reply_ok; auto.
Qed.

(** ** Whole keys *)

Lemma KDel_ok w m key : shows e w m -> solid m -> meets w (spec_del e m key) (let* '(w, b) := Delete e w key in Ok (w, flag b)).
Proof.
  intros H Hs. unfold spec_del, Delete.
  assert (E : (let* '(w, b) := (let* '(w, l) := live e w key in match l with None => Ok (w, false) | Some _ => let* w := drop_key e (logDeleteKey w key) key in Ok (w, true) end) in Ok (w, flag b) : P (world * rep))
    = let* '(w, l) := live e w key in match l with None => Ok (w, flag false) | Some _ => let* w := drop_key e (logDeleteKey w key) key in Ok (w, flag true) end).
  { destruct (live e w key) as [[w1 [p|]]|? |]; try done. by destruct (drop_key _ _ _). }
  rewrite E. clear E. eapply (on_live_ok w m key _ (fun w l => _)); [done|done|]. intros w1 m1 H1 Hs1 _ _.
  destruct (key_cases w1 m1 key H1) as [(p & xs & at_ & Hp & Hm)|[Hp Hm]]; rewrite Hp, Hm; [|by apply meets_done].
  destruct (shows_drop (As := As) e (logDeleteKey w1 key) m1 key) as (w2 & -> & H2 & Ho2 & _); [by apply shows_fx|]. by exists w2.
Qed.

Lemma Store_ok w m key p xs at_ at' : shows e w m -> w_m w !! key = Some p -> m !! key = Some (xs, at_) ->
  exists w', Store w key p at' = Ok w' /\ shows e w' (<[key := (xs, at')]> m) /\ w_out w' = w_out w ++ [expire_log key at'].
Proof.
  intros H Hp Hm. unfold Store. destruct (obj_ok e w m key p xs at_ H Hp Hm) as (o & -> & Ho & Hl & _). eexists. split; [done|]. split; [|done].
  apply shows_fx. exact (shows_set e w m key p o (mkLobj (lo_data o) (lo_clock o) at' (lo_acct o)) xs H Hp Ho Hl).
Qed.

Lemma Expire_ok w m verb key time opts : shows e w m -> solid m -> 0 <= e_now e < two63z ->
  meets w (spec_expire e m verb key time opts) (Expire e w (key :: time :: opts) verb).
Proof.
  intros H Hs Hnow. unfold spec_expire, Expire. rewrite apply_args_request by done. destruct (expire_request _ _ _ _) as [[f at']|msg]; [|by apply meets_done].
  unfold expire_core. eapply (on_live_ok w m key _ (fun w l => _)); [done|done|]. intros w1 m1 H1 Hs1 _ _.
  destruct (key_cases w1 m1 key H1) as [(p & xs & at_ & Hp & Hm)|[Hp Hm]]; rewrite Hp, Hm; [|by apply meets_done].
  destruct (obj_ok e w1 m1 key p xs at_ H1 Hp Hm) as (o & -> & _ & _ & ->). destruct (decide (allowed f at_ at')) as [Hal|Hno].
  - rewrite (proj2 (gated_allowed f at_ at') Hal). destruct (at' <=? e_now e).
    + destruct (shows_drop (As := As) e (logDeleteKey w1 key) m1 key) as (w2 & -> & H2 & Ho2 & _); [by apply shows_fx|]. eexists. split; [done|]. split; [by apply shows_fx|]. cbn. rewrite Ho2. cbn. by rewrite <- (assoc_L (++)).
    + destruct (Store_ok w1 m1 key p xs at_ at' H1 Hp Hm) as (w2 & -> & H2 & Ho2). eexists. split; [done|]. split; [by apply shows_fx|]. cbn. by rewrite Ho2, <- (assoc_L (++)).
  - destruct (gated f at_ at') eqn:Eg; [by apply meets_done|]. by apply gated_allowed in Eg.
Qed.

Lemma KPersist_ok w m key : shows e w m -> solid m -> meets w (spec_persist e m key) (let* '(w, b) := Persist e w key in Ok (w, flag b)).
Proof.
  intros H Hs. unfold spec_persist, Persist.
  assert (E : (let* '(w, b) := (let* '(w, l) := live e w key in match l with None => Ok (w, false) | Some p => let* o := obj w p in if lo_expireAt o =? 0 then Ok (w, false) else let* w := Store w key p 0 in Ok (w, true) end) in Ok (w, flag b) : P (world * rep))
    = let* '(w, l) := live e w key in match l with None => Ok (w, flag false) | Some p => let* o := obj w p in if lo_expireAt o =? 0 then Ok (w, flag false) else let* w := Store w key p 0 in Ok (w, flag true) end).
  { destruct (live e w key) as [[w1 [p|]]|? |]; try done. destruct (obj w1 p) as [o|? |]; try done. destruct (lo_expireAt o =? 0); [done|]. by destruct (Store _ _ _ _). }
  rewrite E. clear E. eapply (on_live_ok w m key _ (fun w l => _)); [done|done|]. intros w1 m1 H1 Hs1 _ _.
  destruct (key_cases w1 m1 key H1) as [(p & xs & at_ & Hp & Hm)|[Hp Hm]]; rewrite Hp, Hm; [|by apply meets_done].
  destruct (obj_ok e w1 m1 key p xs at_ H1 Hp Hm) as (o & -> & _ & _ & ->). destruct (at_ =? 0); [by apply meets_done|].
  destruct (Store_ok w1 m1 key p xs at_ 0 H1 Hp Hm) as (w2 & -> & H2 & Ho2). by exists w2.
Qed.

End refines.
Arguments meets As e w o run : clear implicits.
