(* ===== verification/ListServe.v ===== *)
(** The list commands of a shard with clients blocked on pops (engine/f3/list/commands.go,
    lmove.go, blocking.go, blockmove.go and waiter.go): the serve loop hands the elements of a
    push to the clients in the order they parked, and every command keeps the keyspace and the
    queue of clients in step with their specification. *)

From stdpp Require Import gmap.
From S2P Require Import Prelude Format Frames Device Decimal Resp Ordered TierDirectory Expire InlineList ChunkRing Fenwick ValueLog NativeList NativeRefines NativeOps NativeSweeps NativeTrim NativeDemote ListMeaning ListRun ListWorld ListCommands WaitSlab ListSpec ListRefines.
#[local] Open Scope Z_scope.

#[local] Abbreviation P A := (res Empty_set A).

(** ** Blocked clients and what they get *)

(** A blocked client, without its place in the slab. *)
Record blocked := mkBlocked { bk_conn : Z; bk_seq : Z; bk_spec : waitSpec; bk_timer : option Z; bk_keys : list bytes }.

Definition erase (a : awaiter) : blocked := mkBlocked (aw_conn a) (aw_seq a) (aw_spec a) (aw_timer a) (aw_at a).*1.

(** A client of BLPOP, BRPOP or BLMPOP parked on one shard. *)
Definition pops (a : awaiter) : Prop :=
  ws_claim (aw_spec a) = None /\ Forall wide_ok (aw_at a).*1 /\ match ws_kind (aw_spec a) with kindPop => True | kindMpop => 0 < ws_count (aw_spec a) | kindMove => False end.

(** What is left of [xs] once the client is served from [key], and its effects. *)
Definition serve_one (key : bytes) (xs : list bytes) (b : blocked) : list bytes * list effect :=
  let s := bk_spec b in
  let '(ys, body) := match ws_kind s with
                     | kindMpop => let '(ys, vs) := pop_many (ws_front s) (Z.to_nat (Z.min (ws_count s) (zlen xs))) xs in (ys, array vs)
                     | _ => let '(ys, v) := pop_end (ws_front s) xs in (ys, bulk v)
                     end in
  (ys, ENotify NotifyList (popEvent (ws_front s)) key :: timer_fx (bk_timer b) ++ [EComplete (bk_conn b) (bk_seq b) (AppendArrayHeader [] 2 ++ bulk key ++ body)]).

(** Oldest first, while there are elements. *)
Fixpoint serve_spec (key : bytes) (xs : list bytes) (Bs : list blocked) : list bytes * list blocked * list effect :=
  match Bs with
  | [] => (xs, [], [])
  | b :: Bs' =>
      if decide (key ∈ bk_keys b /\ xs <> []) then
        let '(ys, ev) := serve_one key xs b in let '(zs, Bs2, ev') := serve_spec key ys Bs' in (zs, Bs2, ev ++ ev')
      else let '(zs, Bs2, ev') := serve_spec key xs Bs' in (zs, b :: Bs2, ev')
  end.

Lemma serve_spec_empty key Bs : serve_spec key [] Bs = ([], Bs, []).
Proof. induction Bs as [|b Bs IH]; [done|]. cbn [serve_spec]. rewrite decide_False by naive_solver. by rewrite IH. Qed.

Lemma shows_unlink As As' e w w' m : shows As e w m -> slab w' As' -> rest_same w w' -> shows As' e w' m.
Proof.
  intros [He Hi Hs Hr] Hs' (Eh & Em & Er & _). split; [|by rewrite Em|done|by rewrite Er]. intros key. specialize (He key). rewrite Em. unfold entry_shows in *. by rewrite Eh.
Qed.

(** A command's outcome and the clients still blocked after it. *)
Abbreviation outcomes := (outcome * list blocked)%type.

Section serve.
Context (rb : klist native -> Z) (spare : bytes) (sp : bytes -> bytes -> bytes) (e : env).
Hypothesis (Hsp : roomy sp).

Lemma reply_ok key v : wide_ok key -> wide_ok v -> appendReply sp [] key v = AppendArrayHeader [] 2 ++ bulk key ++ bulk v.
Proof. intros Hk Hv. unfold appendReply. cbv zeta. by rewrite !(bulk_ok sp Hsp), <- (assoc_L (++)). Qed.

(** A served client leaves the slab and gets its reply. *)
Lemma release_ok A1 a A2 w m i r evs : shows (A1 ++ a :: A2) e w m -> i ∈ (aw_at a).*2 ->
  exists w', (let* w := unlinkAll w i in Ok (fx w (EComplete (aw_conn a) (aw_seq a) r), true) : P (world * bool)) = Ok (w', true) /\ shows (A1 ++ A2) e w' m /\ w_m w' = w_m w
    /\ (w_out w = evs -> w_out w' = evs ++ timer_fx (aw_timer a) ++ [EComplete (aw_conn a) (aw_seq a) r]).
Proof.
  intros H Hi. destruct (unlinkAll_ok w A1 a A2 i (sh_wait _ _ _ H) Hi) as (w1 & -> & Hs & Hr & Eo & _). eexists. split; [done|]. split; [apply shows_fx; by eapply shows_unlink|]. split; [apply Hr|].
  intros <-. cbn. by rewrite Eo, <- (assoc_L (++)).
Qed.

Lemma serve_head_ok A1 a A2 w m key p xs at_ i : shows (A1 ++ a :: A2) e w m -> pops a -> wide_ok key -> w_m w !! key = Some p -> m !! key = Some (xs, at_) -> xs <> [] -> i ∈ (aw_at a).*2 ->
  exists w', serve_head spare sp e w key p i = Ok (w', true) /\ shows (A1 ++ A2) e w' (<[key := ((serve_one key xs (erase a)).1, at_)]> m)
    /\ w_out w' = w_out w ++ (serve_one key xs (erase a)).2 /\ w_m w' = w_m w.
Proof.
  intros H (Hcl & _ & Hkind) Hkey Hp Hm Hne Hi. unfold serve_head, serve_one. cbn [erase bk_spec bk_timer bk_conn bk_seq].
  pose proof (pl_good _ _ _ (sh_wait _ _ _ H)) as [_ [Hg _]%Forall_cons]%Forall_app. pose proof (gd_face _ _ Hg) as Hf. rewrite Forall_forall in Hf. specialize (Hf i Hi).
  rewrite node_eq. destruct (nd_at (w_nodes w) i) as [nd|]; [|done]. injection Hf as E1 E2 E3 E4 E5 E6 E7 E8 E9 E10. rewrite (len_ok e w m key p xs at_ H Hp Hm), E1, E2, E3, E4, E5, E9, Hcl. cbn [tryClaim negb fireCancels].
  set (front := ws_front (aw_spec a)). destruct (ws_kind (aw_spec a)); [| |].
  - destruct (obj_ok e w m key p xs at_ H Hp Hm) as (o & _ & _ & Hl & _). destruct (pop_end_okv front xs (list_holds_ok e _ _ Hl) Hne) as [Hv _].
    destruct (popOne_ok e w m key p xs at_ front H Hp Hm Hne) as (w1 & -> & H1 & Eo1 & Em1). destruct (pop_end front xs) as [ys v]. cbn [fst snd] in *. rewrite (reply_ok key v Hkey (okv_wide e v Hv)).
    destruct (release_ok A1 a A2 (notify w1 NotifyList (popEvent front) key) _ i (AppendArrayHeader [] 2 ++ bulk key ++ bulk v) (w_out w ++ [ENotify NotifyList (popEvent front) key]) (shows_fx _ _ _ _ H1) Hi) as (w2 & -> & H2 & Em2 & Eo2).
    exists w2. split_and!; [done|done| |by rewrite Em2]. rewrite Eo2 by (cbn; by rewrite Eo1). by rewrite <- (assoc_L (++)).
  - done.
  - pose proof (zlen_nonneg xs). set (n := Z.to_nat (Z.min (ws_count (aw_spec a)) (zlen xs))). assert (Hn : (n <= length xs)%nat) by (subst n; unfold zlen; lia). cbv zeta. rewrite (bulk_ok sp Hsp) by done.
    destruct (pops_ok sp e Hsp false front key at_ n w m xs p (AppendArrayHeader (AppendArrayHeader [] 2 ++ bulk key) (Z.min (ws_count (aw_spec a)) (zlen xs))) H Hp Hm Hn) as (w1 & -> & H1 & Em1 & Eo1).
    destruct (pop_many_len front n xs Hn) as [_ Hl2]. destruct (pop_many front n xs) as [ys vs]. cbn [fst snd] in *. rewrite app_nil_r in Eo1.
    assert (Z.min (ws_count (aw_spec a)) (zlen xs) = zlen vs) as -> by (unfold zlen at 2; rewrite Hl2; subst n; lia).
    assert (AppendArrayHeader (AppendArrayHeader [] 2 ++ bulk key) (zlen vs) ++ concat (map bulk vs) = AppendArrayHeader [] 2 ++ bulk key ++ array vs) as -> by (unfold array, AppendArrayHeader; by rewrite <- !(assoc_L (++))).
    destruct (release_ok A1 a A2 (notify w1 NotifyList (popEvent front) key) _ i (AppendArrayHeader [] 2 ++ bulk key ++ array vs) (w_out w ++ [ENotify NotifyList (popEvent front) key]) (shows_fx _ _ _ _ H1) Hi) as (w2 & -> & H2 & Em2 & Eo2).
    exists w2. split_and!; [done|done| |by rewrite Em2]. rewrite Eo2 by (cbn; by rewrite Eo1). by rewrite <- (assoc_L (++)).
Qed.

(** The queue of a key none of the first clients waits for. *)
Lemma queue_skip A1 A2 key : (forall a, a ∈ A1 -> key ∉ (aw_at a).*1) -> queue (entries (A1 ++ A2)) key = queue (entries A2) key.
Proof.
  intros H1. rewrite entries_app, queue_app. assert (queue (entries A1) key = []) as ->; [|done]. apply elem_of_nil_inv. intros i Hi%elem_of_queue. unfold entries in Hi. apply list_elem_of_bind in Hi as (a & Hi & Ha).
  apply (H1 a Ha). by apply (list_elem_of_fmap_2 fst) in Hi.
Qed.

Lemma queue_first a A2 key : key ∈ (aw_at a).*1 -> exists i q, queue (entries (a :: A2)) key = i :: q /\ i ∈ (aw_at a).*2.
Proof.
  intros Hk. change (entries (a :: A2)) with (aw_at a ++ entries A2). rewrite queue_app. apply list_elem_of_fmap in Hk as ([k i] & -> & Hk). cbn [fst].
  destruct (queue (aw_at a) k) as [|j q] eqn:Eq; [by apply elem_of_queue in Hk; rewrite Eq in Hk; apply not_elem_of_nil in Hk|]. exists j, (q ++ queue (entries A2) k). split; [done|].
  assert (Hj : j ∈ queue (aw_at a) k) by (rewrite Eq; left). apply elem_of_queue in Hj. by apply (list_elem_of_fmap_2 snd) in Hj.
Qed.

(** The serve loop. *)
Lemma serveKey_ok key p at_ : wide_ok key -> forall A2 A1 w m xs fuel, (forall a, a ∈ A1 -> key ∉ (aw_at a).*1) -> Forall pops A2 -> shows (A1 ++ A2) e w m -> w_m w !! key = Some p -> m !! key = Some (xs, at_) -> (length A2 <= fuel)%nat ->
  exists w' A3, serveKey spare sp fuel e w key p = Ok w' /\ shows (A1 ++ A3) e w' (<[key := ((serve_spec key xs (erase <$> A2)).1.1, at_)]> m) /\ Forall pops A3
    /\ erase <$> A3 = (serve_spec key xs (erase <$> A2)).1.2 /\ w_out w' = w_out w ++ (serve_spec key xs (erase <$> A2)).2 /\ w_m w' = w_m w.
Proof.
  intros Hkey. induction A2 as [|a A2 IH]; intros A1 w m xs fuel HA1 Hpop H Hp Hm Hf; cbn [fmap list_fmap serve_spec].
  - exists w, []. assert (Hq : w_waiters w !! key = None). { rewrite (ln_wl _ _ (pl_linked _ _ _ (sh_wait _ _ _ H))), app_nil_r, queue_skip by done. done. }
    cbn [fst snd]. rewrite insert_id, !app_nil_r by done. rewrite app_nil_r in H. split_and!; try done. destruct fuel; cbn [serveKey]; by rewrite Hq.
  - apply Forall_cons in Hpop as [Hpa Hpop]. destruct (decide (key ∈ bk_keys (erase a) /\ xs <> [])) as [[Hk Hne]|Hno].
    + destruct fuel as [|fuel]; [cbn in Hf; lia|]. destruct (queue_first a A2 key Hk) as (i & q & Eq & Hi).
      assert (Hq : w_waiters w !! key = wl_of (i :: q)) by (rewrite (ln_wl _ _ (pl_linked _ _ _ (sh_wait _ _ _ H))), app_nil_r, queue_skip by done; by rewrite Eq).
      cbn [serveKey]. rewrite Hq. cbn [wl_of wl_n wl_head head default from_option id]. rewrite (len_ok e w m key p xs at_ H Hp Hm). rewrite zlen_cons. pose proof (zlen_nonneg q) as Hq0. pose proof (zlen_nonneg xs) as Hx0.
      assert (Hpos : 0 < zlen xs) by (destruct (decide (zlen xs = 0)); [exfalso; apply Hne, zlen_0_nil|]; lia). assert ((0 <? 1 + zlen q) && (0 <? zlen xs) = true) as -> by lia. cbn [negb].
      assert (Hlt : (i =? nilIdx) = false). { pose proof (linked_in_range _ _ i (pl_linked _ _ _ (sh_wait _ _ _ H))) as Hr. pose proof (ln_size _ _ (pl_linked _ _ _ (sh_wait _ _ _ H))) as Hsz. apply Z.eqb_neq. enough (0 <= i < zlen (w_nodes w)) by lia. apply Hr. rewrite app_nil_r.
        apply (in_entries a); [apply elem_of_app; right; left|done]. }
      rewrite Hlt. destruct (serve_head_ok A1 a A2 w m key p xs at_ i H Hpa Hkey Hp Hm Hne Hi) as (w1 & -> & H1 & Eo1 & Em1). destruct (serve_one key xs (erase a)) as [ys ev]. cbn [fst snd] in *.
      destruct (IH A1 w1 _ ys fuel HA1 Hpop H1) as (w2 & A3 & E2 & H2 & Hp2 & Ee & Eo2 & Em2); [by rewrite Em1|apply lookup_insert_eq|cbn in Hf; lia|]. exists w2, A3.
      destruct (serve_spec key ys (erase <$> A2)) as [[zs Bs2] ev']. cbn [fst snd] in *. rewrite insert_insert_eq in H2. split_and!; [done|done|done|done|by rewrite Eo2, Eo1, <- (assoc_L (++))|by rewrite Em2].
    + destruct (decide (xs = [])) as [->|Hne].
      * rewrite serve_spec_empty. cbn [fst snd]. exists w, (a :: A2). rewrite insert_id, app_nil_r by done. split_and!; try done; [|by apply Forall_cons].
        destruct fuel; cbn [serveKey]; (destruct (w_waiters w !! key) as [wl|]; [|done]); rewrite (len_ok e w m key p [] at_ H Hp Hm); change (0 <? zlen []) with false; rewrite andb_false_r; done.
      * assert (Hk : key ∉ (aw_at a).*1) by (intros Hk; apply Hno; by split).
        replace (A1 ++ a :: A2) with ((A1 ++ [a]) ++ A2) in H by (by rewrite <- (assoc_L (++))).
        destruct (IH (A1 ++ [a]) w m xs fuel) as (w2 & A3 & E2 & H2 & Hp2 & Ee & Eo2 & Em2); [|done|done|done|done|cbn in Hf; lia|].
        { intros b [Hb| ->%list_elem_of_singleton]%elem_of_app; [by apply HA1|done]. }
        exists w2, (a :: A3). destruct (serve_spec key xs (erase <$> A2)) as [[zs Bs2] ev']. cbn [fst snd] in *. rewrite <- (assoc_L (++)) in H2. split_and!; [done|done|by apply Forall_cons|by rewrite fmap_cons, Ee|done|done].
Qed.

Lemma clients_le_nodes w As : slab w As -> (length As <= length (w_nodes w))%nat.
Proof.
  intros H. pose proof (pl_linked _ _ _ H) as Hl. rewrite app_nil_r in Hl. assert (H1 : (length As <= length (entries As).*2)%nat).
  { pose proof (pl_good _ _ _ H) as Hg. clear H Hl. induction As as [|a As IH]; [cbn; lia|]. apply Forall_cons in Hg as [Ha Hg]. specialize (IH Hg). change (entries (a :: As)) with (aw_at a ++ entries As). rewrite fmap_app, length_app, length_fmap.
    pose proof (gd_some _ _ Ha). destruct (aw_at a); [done|]. cbn [length]. lia. }
  transitivity (length (entries As).*2); [done|]. apply length_indices; [apply Hl|]. intros i Hi. pose proof (linked_in_range _ _ i Hl Hi) as Hr. by unfold zlen in Hr.
Qed.

Lemma no_waiters w As : slab w As -> w_waiters w = ∅ -> As = [].
Proof.
  intros H Hw. destruct As as [|a As]; [done|]. pose proof (pl_good _ _ _ H) as [Ha _]%Forall_cons. pose proof (gd_some _ _ Ha) as Hne. destruct (aw_at a) as [|[k i] l] eqn:Ea; [done|].
  destruct (queue_first a As k) as (j & q & Eq & _); [rewrite Ea; left|]. pose proof (ln_wl _ _ (pl_linked _ _ _ H) k) as Hl. by rewrite app_nil_r, Eq, Hw, lookup_empty in Hl.
Qed.

Lemma serve_ok As w m key p xs at_ : shows As e w m -> Forall pops As -> wide_ok key -> w_m w !! key = Some p -> m !! key = Some (xs, at_) ->
  exists w' As', serve_if_waiters rb spare sp e w key p = Ok w' /\ shows As' e w' (<[key := ((serve_spec key xs (erase <$> As)).1.1, at_)]> m) /\ Forall pops As'
    /\ erase <$> As' = (serve_spec key xs (erase <$> As)).1.2 /\ w_out w' = w_out w ++ (serve_spec key xs (erase <$> As)).2 /\ w_m w' = w_m w.
Proof.
  intros H Hpop Hkey Hp Hm. unfold serve_if_waiters. destruct (decide (w_waiters w = ∅)) as [Hw|_].
  - pose proof (no_waiters w As (sh_wait _ _ _ H) Hw) as ->. exists w, []. cbn. rewrite insert_id, app_nil_r by done. by split_and!.
  - unfold serveWaiters. destruct (serveKey_ok key p at_ Hkey As [] w m xs (length (w_nodes w))) as (w1 & A3 & -> & H1 & Hp1 & Ee & Eo1 & Em1); [by intros a ?%not_elem_of_nil|done|done|done|done|by apply clients_le_nodes, (sh_wait _ _ _ H)|].
    cbn [drain_ready]. rewrite (sh_ready _ _ _ H1). cbn [last]. eexists (with_ready w1 []), A3. split_and!; [done| |done|done|done|done]. pose proof (sh_ready _ _ _ H1). by eapply shows_same.
Qed.

(** ** The commands that add to a key *)

(** A run that ends with the outcome's keyspace, reply and effects, and its clients parked. *)
Definition meets_b (w : world) (o : outcomes) (run : P (world * rep)) : Prop :=
  exists w' As', run = Ok (w', o.1.1.2) /\ shows As' e w' o.1.1.1 /\ Forall pops As' /\ erase <$> As' = o.2 /\ w_out w' = w_out w ++ o.1.2.

Lemma meets_blocked As w o run : Forall pops As -> meets As e w o run -> meets_b w (o, erase <$> As) run.
Proof. intros Hp (w' & E & H & Eo). exists w', As. by split_and!. Qed.

Definition on_key_b (Bs : list blocked) (m : kv) (key : bytes) (k : kv -> option (list bytes * Z) -> outcomes) : outcomes :=
  let '(m, ev) := expire_key e m key in
  let '(m, r, ev', Bs') := match m !! key with
                           | Some x => k m (Some x)
                           | None => if e_string e key then (m, RpErr wrongType, [], Bs) else k m None
                           end in
  (m, r, ev ++ ev', Bs').

(** Reading a key leaves the slab alone. *)
Lemma lookup_nodes w key w' p b : lookup_list e w key = Ok (w', p, b) -> w_nodes w' = w_nodes w.
Proof.
  unfold lookup_list, live, peek, drop_key. destruct (w_m w !! key) as [q|] eqn:Hq; [|by intros [= <- _ _]]. unfold obj at 1. destruct (w_heap w !! q) as [o|] eqn:Ho; [|done]. destruct (negb (lo_expireAt o =? 0) && _).
  - change (w_m (notify w NotifyExpired (str "expired") key)) with (w_m w). rewrite Hq. unfold obj. change (w_heap (notify w NotifyExpired (str "expired") key)) with (w_heap w). rewrite Ho. cbn match. intros E. simplify_eq. by destruct (e_acctOn e).
  - unfold obj. rewrite Ho. intros E. by simplify_eq.
Qed.

Lemma on_key_b_ok As w m key k (body : world -> option nat -> P (world * rep)) : shows As e w m -> Forall pops As -> solid m ->
  (forall w1 m1, shows As e w1 m1 -> solid m1 -> m1 = (expire_key e m key).1 -> w_m w1 ⊆ w_m w -> w_nodes w1 = w_nodes w -> meets_b w1 (k m1 (m1 !! key)) (body w1 (w_m w1 !! key))) ->
  meets_b w (on_key_b (erase <$> As) m key k) (let* '(w, l, wrong) := lookup_list e w key in if wrong then Ok (w, RpErr wrongType) else body w l).
Proof.
  intros H Hpop Hs Hbody. destruct (lookup_ok e w m key H) as (w1 & p & El & H1 & Ho1 & Hp & Hw). pose proof (lookup_nodes _ _ _ _ _ El) as Hnod. rewrite El. clear El. pose proof (solid_expire e m key Hs) as Hs1. unfold on_key_b.
  destruct (expire_key e m key) as [m1 ev]. cbn [fst snd] in *. specialize (Hbody w1 m1 H1 Hs1 eq_refl Hw Hnod). pose proof (sh_entry _ _ _ H1 key) as He. rewrite <- Hp in He, Hbody.
  assert (Hend : forall k0, meets_b w1 k0 (body w1 p) -> meets_b w (let '(m, r, ev', Bs') := k0 in (m, r, ev ++ ev', Bs')) (body w1 p)).
  { intros [[[m' r] ev'] Bs'] (w' & As' & Eb & H' & Hp' & Ee & Eo'). exists w', As'. cbn [fst snd] in *. split_and!; try done. by rewrite Eo', Ho1, (assoc_L (++)). }
  destruct p as [p|], (m1 !! key) as [x|]; try done; [by apply Hend|]. destruct (e_string e key); [|by apply Hend]. exists w1, As. cbn [fst snd]. rewrite app_nil_r. by split_and!.
Qed.

(** The settling of a key whose elements were served first. *)
Lemma serve_finish_ok As w0 w m key p ys at_ r mid : shows As e w (<[key := (ys, at_)]> m) -> Forall pops As -> wide_ok key -> w_m w !! key = Some p -> w_out w = w_out w0 ++ mid ->
  meets_b w0 (let '(zs, Bs', sv) := serve_spec key ys (erase <$> As) in let '(m, ev) := settle_spec m key zs at_ in (m, r, mid ++ sv ++ ev, Bs'))
    (let* w := serve_if_waiters rb spare sp e w key p in let* w := settle rb e w key p in Ok (w, r)).
Proof.
  intros H Hpop Hkey Hp Eo. destruct (serve_ok As w _ key p ys at_ H Hpop Hkey Hp (lookup_insert_eq _ _ _)) as (w1 & As' & -> & H1 & Hp1 & Ee & Eo1 & Em1). rewrite insert_insert_eq in H1.
  destruct (serve_spec key ys (erase <$> As)) as [[zs Bs'] sv]. cbn [fst snd] in *. destruct (finish_ok rb e w0 w1 m key p zs at_ r mid sv H1) as (w2 & E2 & H2 & Eo2); [by rewrite Em1|by rewrite Eo1, Eo|].
  destruct (settle_spec m key zs at_) as [m' ev]. cbn [fst snd] in *. exists w2, As'. by split_and!.
Qed.

Definition spec_push_b (Bs : list blocked) (m : kv) (front create : bool) (key : bytes) (vals : list bytes) : outcomes :=
  on_key_b Bs m key (fun m x =>
    match x, create with
    | None, false => (m, RpInt 0, [], Bs)
    | _, _ =>
        let '(xs, at_) := default ([], 0) x in
        let ys := foldl (fun xs v => pushed front v xs) xs vals in
        let '(zs, Bs', sv) := serve_spec key ys Bs in
        let '(m, ev) := settle_spec m key zs at_ in
        (m, RpInt (zlen ys), (map (push_log front key) vals ++ [ENotify NotifyList (pushEvent front) key]) ++ sv ++ ev, Bs')
    end).

Lemma pushCmd_ok As w m front create key vals : shows As e w m -> Forall pops As -> solid m -> wide_ok key -> Forall okv vals ->
  meets_b w (spec_push_b (erase <$> As) m front create key vals) (pushCmd rb spare sp e w (key :: vals) front create).
Proof.
  intros H Hpop Hs Hkey Hv. unfold spec_push_b, pushCmd. eapply (on_key_b_ok As w m key _ (fun w l => _)); [done|done|done|]. intros w1 m1 H1 Hs1 _ _ _. clear w m H Hs. rename w1 into w, m1 into m, H1 into H, Hs1 into Hs.
  assert (Hpush : forall w1 p xs at_ m0, shows As e w1 (<[key := (xs, at_)]> m0) -> w_m w1 !! key = Some p -> w_out w1 = w_out w ->
    meets_b w (let ys := foldl (fun xs v => pushed front v xs) xs vals in let '(zs, Bs', sv) := serve_spec key ys (erase <$> As) in let '(m, ev) := settle_spec m0 key zs at_ in
      (m, RpInt (zlen ys), (map (push_log front key) vals ++ [ENotify NotifyList (pushEvent front) key]) ++ sv ++ ev, Bs'))
      (let* w := push_args spare e w1 key p front vals in let w := notify w NotifyList (pushEvent front) key in let* n := len_of e w p in
       let* w := serve_if_waiters rb spare sp e w key p in let* w := settle rb e w key p in Ok (w, RpInt n))).
  { intros w1 p xs at_ m0 H1 Hp1 Ho1. destruct (push_args_ok spare e front key at_ vals Hv w1 _ xs p H1 Hp1 (lookup_insert_eq _ _ _)) as (w2 & -> & H2 & Hm2 & Ho2). cbv zeta.
    rewrite insert_insert_eq in H2. set (ys := foldl _ _ _) in *. assert (H2' := shows_fx _ _ _ (ENotify NotifyList (pushEvent front) key) H2).
    assert (Hp2 : w_m w2 !! key = Some p) by (by rewrite Hm2). rewrite (len_ok e (notify w2 NotifyList (pushEvent front) key) _ key p ys at_ H2' Hp2 (lookup_insert_eq _ _ _)).
    apply (serve_finish_ok As w (notify w2 NotifyList (pushEvent front) key) m0 key p ys at_ (RpInt (zlen ys)) _ H2' Hpop Hkey Hp2). cbn. by rewrite Ho2, Ho1, <- (assoc_L (++)). }
  destruct (key_cases e w m key H) as [(p & xs & at_ & Hp & Hm)|[Hp Hm]]; rewrite Hp, Hm.
  - cbn [default]. specialize (Hpush w p xs at_ m). rewrite insert_id in Hpush by done. specialize (Hpush H Hp eq_refl). by destruct create.
  - destruct create; [|by apply (meets_blocked As); [|apply meets_done]]. cbn [default]. pose proof (shows_install e w m key H Hm) as Hi. destruct (install e w key) as [w1 p]. destruct Hi as (H1 & Hp1 & Ho1). by apply (Hpush w1 p [] 0 m).
Qed.

(** ** Moves *)

Definition move_spec_b (Bs : list blocked) (m : kv) (src dst : bytes) (srcLeft dstLeft : bool) (xs : list bytes) (at_ : Z) (y : option (list bytes * Z)) : outcomes :=
  let '(xs', v) := pop_end srcLeft xs in
  let evs := [ENotify NotifyList (popEvent srcLeft) src; ENotify NotifyList (pushEvent dstLeft) dst] in
  if bytes_eqb src dst then (<[src := (pushed dstLeft v xs', at_)]> m, RpBulk v, evs, Bs)
  else
    let '(ys, dat) := default ([], 0) y in
    let '(zs, Bs', sv) := serve_spec dst (pushed dstLeft v ys) Bs in
    let '(m, ev1) := settle_spec m dst zs dat in
    let '(m, ev2) := settle_spec m src xs' at_ in
    (m, RpBulk v, (evs ++ sv) ++ ev1 ++ ev2, Bs').

Definition spec_move_b (Bs : list blocked) (m : kv) (src dst : bytes) (srcLeft dstLeft : bool) : outcomes :=
  on_key_b Bs m src (fun m x =>
    match x with
    | None => (m, RpNull, [], Bs)
    | Some (xs, at_) => on_key_b Bs m dst (fun m => move_spec_b Bs m src dst srcLeft dstLeft xs at_)
    end).

Lemma settle_other m src dst zs dat x : dst <> src -> settle_spec (<[src := x]> m) dst zs dat = (<[src := x]> (settle_spec m dst zs dat).1, (settle_spec m dst zs dat).2).
Proof.
  intros Hne. unfold settle_spec. destruct (decide (zs = [])); cbn [fst snd]; [by rewrite delete_insert_ne|by rewrite insert_insert_ne].
Qed.

Lemma move_tail_ok As w m src dst srcLeft dstLeft s xs at_ : shows As e w m -> Forall pops As -> wide_ok dst -> w_m w !! src = Some s -> m !! src = Some (xs, at_) -> xs <> [] ->
  meets_b w (move_spec_b (erase <$> As) m src dst srcLeft dstLeft xs at_ (m !! dst)) (move_tail rb spare sp e src dst srcLeft dstLeft w s (w_m w !! dst)).
Proof.
  intros H Hpop Hkey Hp Hm Hne. destruct (obj_ok e w m src s xs at_ H Hp Hm) as (o & _ & _ & Hl & _). destruct (pop_end_okv srcLeft xs (list_holds_ok e _ _ Hl) Hne) as [Hv _].
  unfold move_tail, move_spec_b. destruct (popOne_ok e w m src s xs at_ srcLeft H Hp Hm Hne) as (w1 & -> & H1 & Ho1 & Hm1). destruct (pop_end srcLeft xs) as [xs' v]. cbn [fst snd] in *.
  assert (Hp1 : w_m w1 !! src = Some s) by (by rewrite Hm1). destruct (bytes_eqb src dst) eqn:Eb.
  - destruct (pushEnd_ok e w1 _ src s xs' at_ H1 Hp1 (lookup_insert_eq _ _ _) spare v dstLeft Hv) as (w2 & -> & H2 & Ho2 & Hm2). rewrite insert_insert_eq in H2.
    destruct (shows_note (As := As) rb e (notify (notify w2 NotifyList (popEvent srcLeft) src) NotifyList (pushEvent dstLeft) dst) (<[src := (pushed dstLeft v xs', at_)]> m) src s) as (w3 & -> & H3 & Ho3 & _); [by apply shows_fx, shows_fx|by cbn; rewrite Hm2|].
    exists w3, As. cbn [fst snd]. split_and!; try done. rewrite Ho3. cbn. by rewrite Ho2, Ho1, <- (assoc_L (++)).
  - assert (Hd : dst <> src) by (intros ->; by rewrite bytes_eqb_refl in Eb). rewrite <- Hm1. pose proof (target_ok e w1 _ dst H1) as Ht.
    destruct (match w_m w1 !! dst with Some d => _ | None => _ end) as [w2 d]. rewrite lookup_insert_ne in Ht by done. destruct Ht as (H2 & Hd2 & Ho2 & Hk2).
    destruct (default ([], 0) (m !! dst)) as [ys dat]. destruct (pushEnd_ok e w2 _ dst d ys dat H2 Hd2 (lookup_insert_eq _ _ _) spare v dstLeft Hv) as (w3 & -> & H3 & Ho3 & Hm3).
    rewrite insert_insert_eq in H3. set (w4 := notify _ _ _ dst). assert (H4 : shows As e w4 (<[dst := (pushed dstLeft v ys, dat)]> (<[src := (xs', at_)]> m))) by (by apply shows_fx, shows_fx).
    assert (Hd4 : w_m w4 !! dst = Some d) by (cbn; by rewrite Hm3).
    destruct (serve_ok As w4 _ dst d _ dat H4 Hpop Hkey Hd4 (lookup_insert_eq _ _ _)) as (w5 & As' & -> & H5 & Hp5 & Ee & Eo5 & Em5). rewrite insert_insert_eq in H5.
    destruct (serve_spec dst (pushed dstLeft v ys) (erase <$> As)) as [[zs Bs'] sv]. cbn [fst snd] in *.
    destruct (settle_ok rb e w5 _ dst d zs dat H5) as (w6 & -> & H6 & Eo6 & Hsub); [by rewrite Em5|]. rewrite settle_other in H6, Eo6 by done. destruct (settle_spec m dst zs dat) as [m1 ev1]. cbn [fst snd] in *.
    destruct (shows_at e w6 _ src xs' at_ H6 (lookup_insert_eq _ _ _)) as (q & o' & Hq & _).
    assert (q = s) as ->. { pose proof (lookup_weaken _ _ _ _ Hq Hsub) as Hq'. rewrite Em5 in Hq'. cbn in Hq'. rewrite Hm3, Hk2 in Hq' by done. congruence. }
    destruct (finish_ok rb e w w6 m1 src s xs' at_ (RpBulk v) ([ENotify NotifyList (popEvent srcLeft) src; ENotify NotifyList (pushEvent dstLeft) dst] ++ sv) ev1 H6 Hq) as (w7 & E7 & H7 & Eo7).
    { rewrite Eo6, Eo5. cbn. by rewrite Ho3, Ho2, Ho1, <- !(assoc_L (++)). }
    destruct (settle_spec m1 src xs' at_) as [m2 ev2]. exists w7, As'. cbn [fst snd] in *. by split_and!.
Qed.

Lemma moveReply_ok As w m src dst srcLeft dstLeft : shows As e w m -> Forall pops As -> solid m -> wide_ok dst -> meets_b w (spec_move_b (erase <$> As) m src dst srcLeft dstLeft) (moveReply rb spare sp e w src dst srcLeft dstLeft).
Proof.
  intros H Hpop Hs Hkey. rewrite moveReply_eq. unfold spec_move_b. eapply (on_key_b_ok As w m src _ (fun w l => _)); [done|done|done|]. intros w1 m1 H1 Hs1 Em1 _ _.
  destruct (key_cases e w1 m1 src H1) as [(p & xs & at_ & Hp & Hm)|[Hp Hm]]; rewrite Hp, Hm; [|by apply (meets_blocked As); [|apply meets_done]]. destruct (solid_at m1 src xs at_ Hs1 Hm) as [Hne _].
  rewrite (len_ok e w1 m1 src p xs at_ H1 Hp Hm). destruct (Z.eqb_spec (zlen xs) 0) as [E|_]; [exfalso; apply Hne, zlen_0_nil; lia|].
  eapply (on_key_b_ok As w1 m1 dst _ (fun w l => _)); [done|done|done|]. intros w2 m2 H2 Hs2 Em2 Hsub _. assert (Hm2 : m2 !! src = Some (xs, at_)) by (rewrite Em2; apply expire_key_other; [done|]; apply (expire_key_fresh e m src xs); by rewrite <- Em1).
  destruct (shows_at e w2 m2 src xs at_ H2 Hm2) as (q & o & Hq & _). assert (q = p) as -> by (pose proof (lookup_weaken _ _ _ _ Hq Hsub) as Hq'; congruence).
  exact (move_tail_ok As w2 m2 src dst srcLeft dstLeft p xs at_ H2 Hpop Hkey Hq Hm2 Hne).
Qed.

(** ** Every command *)

Definition spec_cmd_b (Bs : list blocked) (m : kv) (c : cmd) : outcomes :=
  match c with
  | KPush front create key vals => spec_push_b Bs m front create key vals
  | KLmove src dst a b => match parseDir a, parseDir b with Some from, Some to => spec_move_b Bs m src dst from to | _, _ => (m, RpErr errSyntax, [], Bs) end
  | KRpoplpush src dst => spec_move_b Bs m src dst false true
  | _ => (spec_cmd e m c, Bs)
  end.

Lemma exec_b_ok As w m c : shows As e w m -> Forall pops As -> solid m -> cmd_ok (e_now e) c -> meets_b w (spec_cmd_b (erase <$> As) m c) (exec rb spare sp e w c).
Proof.
  intros H Hpop Hs Hc. destruct c; cbn [exec spec_cmd_b spec_cmd cmd_ok] in *.
  - destruct Hc as (? & ? & ?). by apply pushCmd_ok.
  - apply (meets_blocked As); [done|]. by apply popCmd_ok.
  - apply (meets_blocked As); [done|]. by apply Llen_ok.
  - apply (meets_blocked As); [done|]. by apply Lindex_ok.
  - apply (meets_blocked As); [done|]. by apply Lrange_ok.
  - apply (meets_blocked As); [done|]. by apply Lpos_ok.
  - apply (meets_blocked As); [done|]. by apply Lset_ok.
  - apply (meets_blocked As); [done|]. by apply Ltrim_ok.
  - apply (meets_blocked As); [done|]. by apply Lrem_ok.
  - apply (meets_blocked As); [done|]. by apply Linsert_ok.
  - unfold Lmove. destruct (parseDir a), (parseDir b); try by apply (meets_blocked As); [|apply meets_done]. by apply moveReply_ok.
  - by apply moveReply_ok.
  - apply (meets_blocked As); [done|]. destruct Hc. by apply Lmpop_ok.
  - apply (meets_blocked As); [done|]. by apply KDel_ok.
  - apply (meets_blocked As); [done|]. by apply Expire_ok.
  - apply (meets_blocked As); [done|]. by apply KPersist_ok.
Qed.

(** Without clients the loop serves nobody. *)
Lemma on_key_quiet m key k k' : (forall m x, k' m x = (k m x, [])) -> on_key_b [] m key k' = (on_key e m key k, []).
Proof.
  intros Hk. unfold on_key_b, on_key. destruct (expire_key e m key) as [m1 ev]. destruct (m1 !! key) as [x|]; [rewrite Hk; by destruct (k m1 (Some x)) as [[? ?] ?]|]. destruct (e_string e key); [done|]. rewrite Hk. by destruct (k m1 None) as [[? ?] ?].
Qed.

Lemma spec_move_quiet m src dst srcLeft dstLeft : spec_move_b [] m src dst srcLeft dstLeft = (spec_move e m src dst srcLeft dstLeft, []).
Proof.
  apply on_key_quiet. intros m1 [[xs at_]|]; [|done]. apply on_key_quiet. intros m2 y. unfold move_spec_b. destruct (pop_end srcLeft xs) as [xs' v]. destruct (bytes_eqb src dst); [done|]. destruct (default ([], 0) y) as [ys dat].
  cbn [serve_spec]. rewrite (settle_nonempty m2 dst _ dat (pushed_ne _ _ _)). by destruct (settle_spec _ src xs' at_).
Qed.

Lemma spec_cmd_quiet m c : cmd_ok (e_now e) c -> spec_cmd_b [] m c = (spec_cmd e m c, []).
Proof.
  intros Hc. destruct c; try done; cbn [spec_cmd_b spec_cmd].
  - apply on_key_quiet. intros m1 x. destruct x as [[xs at_]|], create; cbn [default from_option id serve_spec]; try done; destruct (settle_spec _ _ _ _); by rewrite <- (assoc_L (++)).
  - destruct (parseDir a), (parseDir b); try done. apply spec_move_quiet.
  - apply spec_move_quiet.
Qed.

Lemma exec_ok w m c : shows [] e w m -> solid m -> cmd_ok (e_now e) c -> meets [] e w (spec_cmd e m c) (exec rb spare sp e w c).
Proof.
  intros H Hs Hc. destruct (exec_b_ok [] w m c H (Forall_nil_2 _) Hs Hc) as (w' & As' & E & H' & _ & Ee & Eo). cbn [fmap list_fmap] in *. rewrite (spec_cmd_quiet m c Hc) in *. cbn [fst snd] in *. apply fmap_nil_inv in Ee as ->. by exists w'.
Qed.
End serve.
