(* ===== verification/ListBlocked.v ===== *)
(** The blocking pops of a shard (engine/f3/list/blocking.go and blockmove.go): an element at
    once, or a place at the end of the queue of every key, until a push or the timeout. *)

From stdpp Require Import gmap.
From S2P Require Import Prelude Format Frames Device Decimal Resp Ordered TierDirectory Expire InlineList ChunkRing Fenwick ValueLog NativeList NativeRefines NativeOps NativeSweeps NativeTrim NativeDemote ListMeaning ListRun ListWorld ListCommands WaitSlab ListSpec ListRefines ListServe.
#[local] Open Scope Z_scope.

#[local] Abbreviation P A := (res Empty_set A).

Section blocked.
Context (rb : klist native -> Z) (spare : bytes) (sp : bytes -> bytes -> bytes) (e : env).
Hypothesis (Hsp : roomy sp).
#[local] Abbreviation meets_b := (ListServe.meets_b e).

(** ** Parking *)

(** No key has an element: park, or inside EXEC answer null. *)
Definition park_or_null (w : world) (keys : list bytes) (s : waitSpec) (b : blocking) : P (world * rep) :=
  if b_noblock b then Ok (w, RpRaw (AppendNullArray []))
  else
    let* '(w, head) := parkWaiter w keys s (b_conn b) (b_seq b) in
    let* w := arm e w b head false in
    Ok (w, RpPark).

Definition spec_park (Bs : list blocked) (m : kv) (keys : list bytes) (s : waitSpec) (b : blocking) : outcomes :=
  if b_noblock b then (m, RpRaw (AppendNullArray []), [], Bs) else (m, RpPark, arm_fx e b, Bs ++ [mkBlocked (b_conn b) (b_seq b) s (armed b) keys]).

(** Room in the slab for the nodes of the client. *)
Definition room (w : world) (keys : list bytes) : Prop := keys <> [] /\ Forall wide_ok keys /\ zlen (w_nodes w) + zlen keys <= nilIdx.

Definition pop_wait (s : waitSpec) : Prop := ws_claim s = None /\ match ws_kind s with kindPop => True | kindMpop => 0 < ws_count s | kindMove => False end.

Lemma park_or_null_ok As w m keys s b : shows As e w m -> Forall pops As -> room w keys -> pop_wait s -> meets_b w (spec_park (erase <$> As) m keys s b) (park_or_null w keys s b).
Proof.
  intros H Hpop (Hk & Hwide & Hz) (Hcl & Hkind). unfold park_or_null, spec_park. destruct (b_noblock b); [apply (meets_blocked e As); [done|by apply meets_done]|].
  destruct (parkWaiter_ok w As keys s (b_conn b) (b_seq b) (sh_wait _ _ _ H) Hk Hz) as (w1 & at_ & i & -> & Hs1 & Ek & Hh & Hr1 & Eo1 & _).
  destruct (arm_ok e w1 As (b_conn b) (b_seq b) s at_ i b false Hs1 Hh) as (w2 & -> & Hs2 & Hr2 & Eo2 & _). exists w2, (As ++ [mkAwaiter (b_conn b) (b_seq b) s (armed b) at_]). cbn [fst snd]. split_and!; [done| | | |by rewrite Eo2, Eo1].
  - eapply shows_unlink; [done|done|]. by eapply rest_same_trans.
  - apply Forall_app. split; [done|]. apply Forall_singleton. unfold pops. cbn [aw_spec aw_at]. by rewrite Ek.
  - rewrite fmap_app. cbn [fmap list_fmap]. unfold erase at 2. cbn [aw_conn aw_seq aw_spec aw_timer aw_at]. by rewrite Ek.
Qed.

(** ** BLPOP and BRPOP *)

Fixpoint spec_bpop (Bs : list blocked) (m : kv) (all keys : list bytes) (front : bool) (b : blocking) : outcomes :=
  match keys with
  | [] => spec_park Bs m all (mkWaitSpec kindPop front 0 [] false None) b
  | key :: keys' =>
      on_key_b e Bs m key (fun m x =>
        match x with
        | None => spec_bpop Bs m all keys' front b
        | Some (xs, at_) =>
            let '(ys, v) := pop_end front xs in
            let '(m, ev) := settle_spec m key ys at_ in
            (m, RpRaw (AppendArrayHeader [] 2 ++ bulk key ++ bulk v), ENotify NotifyList (popEvent front) key :: ev, Bs)
        end)
  end.

(** [blockpop] with the keys still to probe. *)
Definition bpop_run (all keys : list bytes) (front : bool) (b : blocking) (w : world) : P (world * rep) :=
  let* '(w, r) := blockpop_now rb sp e w keys front in
  match r with Some r => Ok (w, r) | None => park_or_null w all (mkWaitSpec kindPop front 0 [] false None) b end.

Lemma blockpop_run w keys b front : blockpop rb sp e w keys b front = bpop_run keys keys front b w.
Proof. done. Qed.

Lemma bpop_run_cons all key keys front b w : bpop_run all (key :: keys) front b w =
  let* '(w, l, wrong) := lookup_list e w key in
  if wrong then Ok (w, RpErr wrongType)
  else
    match l with
    | None => bpop_run all keys front b w
    | Some p =>
        let* n := len_of e w p in
        if n =? 0 then bpop_run all keys front b w
        else
          let* '(w, v) := popOne e w p front in
          let* w := settle rb e (notify w NotifyList (popEvent front) key) key p in
          Ok (w, RpRaw (appendReply sp [] key v))
    end.
Proof.
  unfold bpop_run. cbn [blockpop_now]. destruct (lookup_list e w key) as [[[w1 [p|]] []]|? |]; try done. destruct (len_of e w1 p) as [n|? |]; try done. destruct (n =? 0); [done|].
  destruct (popOne e w1 p front) as [[w2 v]|? |]; try done. cbv zeta. by destruct (settle _ _ _ _ _).
Qed.

Lemma bpop_run_ok As all front b keys : Forall pops As -> Forall wide_ok keys -> forall w m, shows As e w m -> solid m -> room w all -> meets_b w (spec_bpop (erase <$> As) m all keys front b) (bpop_run all keys front b w).
Proof.
  intros Hpop. induction 1 as [|key keys Hkey Hkeys IH]; intros w m H Hs Hr; [by apply park_or_null_ok|]. rewrite bpop_run_cons. cbn [spec_bpop].
  eapply (on_key_b_ok e As w m key _ (fun w l => _)); [done|done|done|]. intros w1 m1 H1 Hs1 _ _ En. assert (Hr1 : room w1 all) by (unfold room; by rewrite En).
  destruct (key_cases e w1 m1 key H1) as [(p & xs & at_ & Hp & Hm)|[Hp Hm]]; rewrite Hp, Hm; [|by apply IH]. destruct (solid_at m1 key xs at_ Hs1 Hm) as [Hne _].
  rewrite (len_ok e w1 m1 key p xs at_ H1 Hp Hm). destruct (Z.eqb_spec (zlen xs) 0) as [E|_]; [exfalso; apply Hne, zlen_0_nil; lia|].
  destruct (obj_ok e w1 m1 key p xs at_ H1 Hp Hm) as (o & _ & _ & Hl & _). destruct (pop_end_okv front xs (list_holds_ok e _ _ Hl) Hne) as [Hv _].
  destruct (popOne_ok e w1 m1 key p xs at_ front H1 Hp Hm Hne) as (w2 & -> & H2 & Eo2 & Em2). destruct (pop_end front xs) as [ys v]. cbn [fst snd] in *. rewrite (reply_ok sp Hsp key v Hkey (okv_wide e v Hv)).
  pose proof (finish_ok rb e w1 (notify w2 NotifyList (popEvent front) key) m1 key p ys at_ (RpRaw (AppendArrayHeader [] 2 ++ bulk key ++ bulk v)) [] [ENotify NotifyList (popEvent front) key] (shows_fx _ _ _ _ H2)) as Hf.
  destruct (settle_spec m1 key ys at_) as [m2 ev]. apply (meets_blocked e As); [done|]. apply Hf; [by cbn; rewrite Em2|]. cbn. by rewrite Eo2, app_nil_r.
Qed.

Lemma blockpop_ok As w m keys b front : shows As e w m -> Forall pops As -> solid m -> room w keys -> meets_b w (spec_bpop (erase <$> As) m keys keys front b) (blockpop rb sp e w keys b front).
Proof. intros H Hpop Hs Hr. rewrite blockpop_run. apply bpop_run_ok; try done. apply Hr. Qed.

(** ** BLMPOP *)

Fixpoint spec_bmpop (Bs : list blocked) (m : kv) (all keys : list bytes) (front : bool) (count : Z) (b : blocking) : outcomes :=
  match keys with
  | [] => spec_park Bs m all (mkWaitSpec kindMpop front count [] false None) b
  | key :: keys' =>
      on_key_b e Bs m key (fun m x =>
        match x with
        | None => spec_bmpop Bs m all keys' front count b
        | Some (xs, at_) =>
            let '(ys, vs) := pop_many front (Z.to_nat (Z.min count (zlen xs))) xs in
            let '(m, ev) := settle_spec m key ys at_ in
            (m, RpRaw (AppendArrayHeader [] 2 ++ bulk key ++ array vs), ENotify NotifyList (popEvent front) key :: ev, Bs)
        end)
  end.

Definition spec_blmpop (Bs : list blocked) (m : kv) (args : list bytes) (b : blocking) : outcomes :=
  match mpop_args args with
  | inl (keys, front, count) => spec_bmpop Bs m keys keys front count b
  | inr msg => (m, RpErr msg, [], Bs)
  end.

Definition bmpop_run (all keys : list bytes) (front : bool) (count : Z) (b : blocking) (w : world) : P (world * rep) :=
  let* '(w, out, wrong) := lmpop rb sp e w keys front count in
  if wrong then Ok (w, RpErr wrongType)
  else match out with Some out => Ok (w, RpRaw out) | None => park_or_null w all (mkWaitSpec kindMpop front count [] false None) b end.

Lemma bmpop_run_cons all key keys front count b w : bmpop_run all (key :: keys) front count b w =
  let* '(w, l, wrong) := lookup_list e w key in
  if wrong then Ok (w, RpErr wrongType)
  else
    match l with
    | None => bmpop_run all keys front count b w
    | Some p =>
        let* n := len_of e w p in
        if n =? 0 then bmpop_run all keys front count b w
        else mpop_found rb sp e w key p front count n
    end.
Proof.
  unfold bmpop_run, mpop_found. cbn [lmpop]. destruct (lookup_list e w key) as [[[w1 [p|]] []]|? |]; try done. destruct (len_of e w1 p) as [n|? |]; try done. destruct (n =? 0); [done|]. cbv zeta.
  destruct (pop_bulks _ _ _ _ _ _) as [[w2 out]|? |]; try done. by destruct (settle _ _ _ _ _).
Qed.

Lemma bmpop_run_ok As all front count b keys : Forall pops As -> 0 < count -> Forall wide_ok keys -> forall w m, shows As e w m -> solid m -> room w all ->
  meets_b w (spec_bmpop (erase <$> As) m all keys front count b) (bmpop_run all keys front count b w).
Proof.
  intros Hpop Hc. induction 1 as [|key keys Hkey Hkeys IH]; intros w m H Hs Hr; [by apply park_or_null_ok|]. rewrite bmpop_run_cons. cbn [spec_bmpop].
  eapply (on_key_b_ok e As w m key _ (fun w l => _)); [done|done|done|]. intros w1 m1 H1 Hs1 _ _ En. assert (Hr1 : room w1 all) by (unfold room; by rewrite En).
  destruct (key_cases e w1 m1 key H1) as [(p & xs & at_ & Hp & Hm)|[Hp Hm]]; rewrite Hp, Hm; [|by apply IH]. destruct (solid_at m1 key xs at_ Hs1 Hm) as [Hne _].
  rewrite (len_ok e w1 m1 key p xs at_ H1 Hp Hm). destruct (Z.eqb_spec (zlen xs) 0) as [E|_]; [exfalso; apply Hne, zlen_0_nil; lia|].
  pose proof (mpop_found_ok rb sp e Hsp w1 m1 key p xs at_ front count H1 Hp Hm Hne Hc Hkey) as Hf. destruct (pop_many _ _ _) as [ys vs]. destruct (settle_spec m1 key ys at_) as [m2 ev]. by apply (meets_blocked e As).
Qed.

Lemma Blmpop_ok As w m args b : shows As e w m -> Forall pops As -> solid m -> args <> [] -> Forall wide_ok args -> zlen (w_nodes w) + zlen args <= nilIdx ->
  meets_b w (spec_blmpop (erase <$> As) m args b) (Blmpop rb sp e w args b).
Proof.
  intros H Hpop Hs Hne Hwide Hz. unfold spec_blmpop, Blmpop. pose proof (mpop_args_ok args) as Ht. rewrite parseLmpopTail_spec by done.
  destruct (mpop_args args) as [[[keys front] count]|msg]; [|apply (meets_blocked e As); [done|by apply meets_done]].
  destruct Ht as (Hc & Hk & Hkn & Hkl). apply (bmpop_run_ok As keys front count b keys); auto. split_and!; [done|by apply Hk|lia].
Qed.

(** ** One event of the shard *)

(** A command, a blocking pop with its timeout parsed, or the timeout of the [j]-th client, whose
    timer was armed on its first node. *)
Inductive bevent : Type :=
  | BCmd (c : cmd)
  | BPop (keys : list bytes) (front : bool) (b : blocking)
  | BMpop (args : list bytes) (b : blocking)
  | BTimeout (j : nat) (first : Z).

Definition bexec (w : world) (ev : bevent) : P (world * rep) :=
  match ev with
  | BCmd c => exec rb spare sp e w c
  | BPop keys front b => blockpop rb sp e w keys b front
  | BMpop args b => Blmpop rb sp e w args b
  | BTimeout _ first => let* w := fire w first in Ok (w, RpPark)
  end.

Definition spec_event (Bs : list blocked) (m : kv) (ev : bevent) : outcomes :=
  match ev with
  | BCmd c => spec_cmd_b e Bs m c
  | BPop keys front b => spec_bpop Bs m keys keys front b
  | BMpop args b => spec_blmpop Bs m args b
  | BTimeout j _ => (m, RpPark, match Bs !! j with Some b => [EComplete (bk_conn b) (bk_seq b) (AppendNullArray [])] | None => [] end, delete j Bs)
  end.

Definition event_ok (As : list awaiter) (w : world) (now : Z) (ev : bevent) : Prop :=
  match ev with
  | BCmd c => cmd_ok now c
  | BPop keys _ _ => room w keys
  | BMpop args _ => args <> [] /\ Forall wide_ok args /\ zlen (w_nodes w) + zlen args <= nilIdx
  | BTimeout j first => exists a, As !! j = Some a /\ head (aw_at a).*2 = Some first
  end.

Lemma bexec_ok As w m ev : shows As e w m -> Forall pops As -> solid m -> event_ok As w (e_now e) ev -> meets_b w (spec_event (erase <$> As) m ev) (bexec w ev).
Proof.
  intros H Hpop Hs Hok. destruct ev as [c|keys front b|args b|j first]; cbn [bexec spec_event event_ok] in *.
  - by apply exec_b_ok.
  - by apply blockpop_ok.
  - destruct Hok as (? & ? & ?). by apply Blmpop_ok.
  - destruct Hok as (a & Ha & Hh). destruct ((aw_at a).*2) as [|i l] eqn:El; [done|]. injection Hh as ->. rewrite list_lookup_fmap, Ha. cbn [fmap option_fmap option_map].
    pose proof (take_drop_middle As j a Ha) as EA. rewrite <- EA in H, Hpop. destruct (fire_ok w _ a _ first l (sh_wait _ _ _ H) El) as (w1 & -> & Hs1 & Hr1 & Eo1 & _).
    apply Forall_app in Hpop as [Hp1 [Hpa Hp2]%Forall_cons]. destruct Hpa as (_ & _ & Hkind). exists w1, (take j As ++ drop (S j) As). cbn [fst snd]. split_and!; [done|by eapply shows_unlink|by apply Forall_app| |].
    + by rewrite delete_take_drop, fmap_app, fmap_take, fmap_drop.
    + rewrite Eo1. cbn [erase bk_conn bk_seq]. by destruct (ws_kind (aw_spec a)).
Qed.
End blocked.
