(* ===== verification/ListHistory.v ===== *)
(** Histories of list commands on one shard: the keyspace stays within its bounds, every command
    answers as specified, and the log of a history rebuilds the keyspace
    (engine/f3/list/commands.go, durable.go). *)

From stdpp Require Import gmap.
From S2P Require Import Prelude Format Frames Device Decimal Resp Ordered TierDirectory Expire InlineList ChunkRing Fenwick ValueLog NativeList NativeRefines NativeOps NativeSweeps NativeTrim NativeDemote ListMeaning ListRun ListWorld ListCommands ListDurable WaitSlab ListSpec ListRefines ListServe.
#[local] Open Scope Z_scope.

#[local] Abbreviation shows := (ListSpec.shows []).

#[local] Abbreviation P A := (res Empty_set A).

(** ** Bounds *)

(** Lists of at most [N] elements, none empty. *)
Definition bounded (N : Z) (m : kv) : Prop := map_Forall (fun _ x => x.1 <> [] /\ zlen x.1 <= N) m.

Lemma bounded_solid N m : bounded N m -> N < 2 ^ 62 -> solid m.
Proof. intros Hb HN k x Hx. destruct (Hb k x Hx). split; [done|]. unfold small. lia. Qed.

Lemma bounded_mono N N' m : bounded N m -> N <= N' -> bounded N' m.
Proof. intros Hb HN k x Hx. destruct (Hb k x Hx). split; [done|lia]. Qed.

Lemma bounded_insert N m key xs at_ : bounded N m -> xs <> [] -> zlen xs <= N -> bounded N (<[key := (xs, at_)]> m).
Proof. intros Hb Hne Hx. by apply map_Forall_insert_2. Qed.

Lemma bounded_delete N m key : bounded N m -> bounded N (delete key m).
Proof. apply map_Forall_delete. Qed.

Lemma bounded_settle N m key xs at_ : bounded N m -> zlen xs <= N -> bounded N (settle_spec m key xs at_).1.
Proof. intros Hb Hx. unfold settle_spec. destruct (decide (xs = [])); [by apply bounded_delete|by apply bounded_insert]. Qed.

Lemma bounded_at N m key xs at_ : bounded N m -> m !! key = Some (xs, at_) -> xs <> [] /\ zlen xs <= N.
Proof. intros Hb Hm. exact (Hb key _ Hm). Qed.
Create HintDb bounds.
#[export] Hint Resolve bounded_insert bounded_delete bounded_settle : bounds.

Lemma bounded_expire e N m key : bounded N m -> bounded N (expire_key e m key).1.
Proof. intros Hb. unfold expire_key. destruct (m !! key) as [[xs at_]|]; [|done]. destruct (_ && _); [|done]. by apply bounded_delete. Qed.

Lemma bounded_on_key e N N' m key k : bounded N m -> N <= N' -> (forall m1 x, bounded N m1 -> m1 !! key = x -> bounded N' (k m1 x).1.1) -> bounded N' (on_key e m key k).1.1.
Proof.
  intros Hb HN Hk. pose proof (bounded_expire e N m key Hb) as H1. unfold on_key. destruct (expire_key e m key) as [m1 ev]. cbn [fst] in H1. specialize (Hk m1 _ H1 eq_refl).
  destruct (m1 !! key) as [x|]; [by destruct (k m1 (Some x)) as [[? ?] ?]|]. destruct (e_string e key); [by eapply bounded_mono|]. by destruct (k m1 None) as [[? ?] ?].
Qed.

Lemma bounded_on_live e N m key k : bounded N m -> (forall m1 x, bounded N m1 -> m1 !! key = x -> bounded N (k m1 x).1.1) -> bounded N (on_live e m key k).1.1.
Proof.
  intros Hb Hk. pose proof (bounded_expire e N m key Hb) as H1. unfold on_live. destruct (expire_key e m key) as [m1 ev]. cbn [fst] in H1. specialize (Hk m1 _ H1 eq_refl).
  by destruct (k m1 (m1 !! key)) as [[? ?] ?].
Qed.

(** ** How much the operations leave *)

Lemma zlen_pushed front v (xs : list bytes) : zlen (pushed front v xs) = zlen xs + 1.
Proof. destruct front; cbn [pushed]; [rewrite zlen_cons|rewrite zlen_app, zlen_cons, zlen_nil]; lia. Qed.

Lemma zlen_pushes front vals : forall xs : list bytes, zlen (foldl (fun xs v => pushed front v xs) xs vals) = zlen xs + zlen vals.
Proof. induction vals as [|v vals IH]; intros xs; cbn [foldl]; [rewrite zlen_nil; lia|]. rewrite IH, zlen_pushed, zlen_cons. lia. Qed.

Lemma zlen_pop_end front (xs : list bytes) : xs <> [] -> zlen (pop_end front xs).1 = zlen xs - 1.
Proof. intros Hne. pose proof (pop_end_len front xs Hne). unfold zlen. lia. Qed.

Lemma zlen_pop_many front n (xs : list bytes) : (n <= length xs)%nat -> zlen (pop_many front n xs).1 <= zlen xs.
Proof. intros Hn. destruct (pop_many_len front n xs Hn) as [E _]. unfold zlen. lia. Qed.

Lemma zlen_sl_le (xs : list bytes) lo n : zlen (sl xs lo n) <= zlen xs.
Proof. unfold sl. rewrite ztake_take, zdrop_drop. unfold zlen. rewrite length_take, length_drop. lia. Qed.

Lemma insert_spec_some before pivot v xs ys : insert_spec before pivot v xs = Some ys -> ys <> [] /\ zlen ys = zlen xs + 1.
Proof.
  unfold insert_spec. destruct (index_of pivot xs 0) as [i|]; [|done]. intros [= <-]. set (n := if before then i else S i). split; [by destruct (take n xs)|].
  rewrite zlen_app, zlen_cons. unfold zlen. rewrite length_take, length_drop. lia.
Qed.

(** The elements a command may add to a list. *)
Definition cmd_room (c : cmd) : Z :=
  match c with
  | KPush _ _ _ vals => zlen vals
  | KLinsert _ _ _ _ | KLmove _ _ _ _ | KRpoplpush _ _ => 1
  | _ => 0
  end.

Lemma cmd_room_nonneg c : 0 <= cmd_room c.
Proof. destruct c; cbn; try lia. apply zlen_nonneg. Qed.

Lemma settled_bounded N m key xs at_ (r : rep) (evs : list effect -> list effect) : bounded N m -> zlen xs <= N ->
  bounded N (let '(m, ev) := settle_spec m key xs at_ in (m, r, evs ev)).1.1.
Proof. intros Hb Hx. pose proof (bounded_settle N m key xs at_ Hb Hx). by destruct (settle_spec m key xs at_). Qed.

(** Behind the type check, with what is known of the key's list. *)
Ltac bounds_on_key N :=
  apply (bounded_on_key _ N); [done|lia|]; intros m1 x H1 Hx;
  match goal with |- bounded ?N' _ => pose proof (bounded_mono N N' m1 H1 ltac:(lia)) as H1' end;
  destruct x as [[xs at_]|]; [pose proof (bounded_at _ _ _ _ _ H1 Hx) as [Hne Hxs]|].

Section spec_bounds.
Context (e : env) (N : Z) (m : kv).
Hypothesis (HN : 0 <= N) (Hb : bounded N m).

Lemma spec_push_bounded front create key vals : bounded (N + zlen vals) (spec_push e m front create key vals).1.1.
Proof.
  pose proof (zlen_nonneg vals). unfold spec_push. bounds_on_key N.
  - apply (settled_bounded _ _ _ _ _ _ (fun ev => _ ++ _ :: ev)); [done|]. rewrite zlen_pushes. lia.
  - destruct create; [|done]. apply (settled_bounded _ _ _ _ _ _ (fun ev => _ ++ _ :: ev)); [done|]. rewrite zlen_pushes, zlen_nil. lia.
Qed.

Lemma spec_pop_bounded front key rest : bounded N (spec_pop e m front key rest).1.1.
Proof.
  unfold spec_pop. bounds_on_key N.
  - destruct rest as [|c [|]]; [| |done].
    + pose proof (zlen_pop_end front xs Hne). destruct (pop_end front xs) as [ys v]. cbn [fst] in *. apply (settled_bounded _ _ _ _ _ _ (fun ev => _ :: _ :: ev)); [done|lia].
    + destruct (ParseInt c) as [count|]; [|done]. destruct (count <? 0); [done|]. pose proof (zlen_pop_many front (Z.to_nat (Z.min count (zlen xs))) xs ltac:(unfold zlen; lia)).
      destruct (pop_many _ _ _) as [ys vs]. cbn [fst] in *. destruct (decide (_ = 0%nat)); [done|]. apply (settled_bounded _ _ _ _ _ _ (fun ev => _ ++ _ :: ev)); [done|lia].
  - destruct rest as [|c [|]]; try done. destruct (ParseInt c) as [count|]; [|done]. by destruct (count <? 0).
Qed.

Lemma spec_lset_bounded key ix v : bounded N (spec_lset e m key ix v).1.1.
Proof.
  unfold spec_lset. bounds_on_key N; destruct (ParseInt ix) as [idx|]; try done. destruct (index_in idx xs) as [i|]; [|done].
  apply bounded_insert; [done| |unfold zlen in *; by rewrite length_insert]. intros E%(f_equal length). rewrite length_insert in E. by destruct xs.
Qed.

Lemma spec_ltrim_bounded key a b : bounded N (spec_ltrim e m key a b).1.1.
Proof.
  unfold spec_ltrim. bounds_on_key N; destruct (ParseInt a), (ParseInt b); try done. destruct (default (1, 0) _) as [lo hi]. pose proof (zlen_sl_le xs lo (hi + 1 - lo)).
  apply (settled_bounded _ _ _ _ _ _ (fun ev => _ :: _ :: ev)); [done|lia].
Qed.

Lemma spec_lrem_bounded key c v : bounded N (spec_lrem e m key c v).1.1.
Proof.
  unfold spec_lrem. bounds_on_key N; destruct (ParseInt c) as [count|]; try done. pose proof (zlen_lrem_spec xs count v). destruct (lrem_spec xs count v) as [ys n]. cbn [fst] in *.
  destruct (0 <? n); [|done]. apply (settled_bounded _ _ _ _ _ _ (fun ev => _ :: _ :: ev)); [done|lia].
Qed.

Lemma spec_linsert_bounded key side pivot v : bounded (N + 1) (spec_linsert e m key side pivot v).1.1.
Proof.
  unfold spec_linsert. bounds_on_key N; destruct (side_of side) as [before|]; try done. destruct (insert_spec before pivot v xs) as [ys|] eqn:Ei; [|done].
  destruct (insert_spec_some _ _ _ _ _ Ei). apply bounded_insert; [done|done|lia].
Qed.

Lemma spec_del_bounded key : bounded N (spec_del e m key).1.1.
Proof. apply bounded_on_live; [done|]. intros m1 [x|] H1 Hx; [|done]. by apply bounded_delete. Qed.

Lemma spec_expire_bounded verb key time opts : bounded N (spec_expire e m verb key time opts).1.1.
Proof.
  unfold spec_expire. destruct (expire_request _ _ _ _) as [[f at']|msg]; [|done].
  apply bounded_on_live; [done|]. intros m1 [[xs at_]|] H1 Hx; [|done]. destruct (bounded_at _ _ _ _ _ H1 Hx).
  destruct (decide _); [|done]. destruct (at' <=? e_now e); [by apply bounded_delete|by apply bounded_insert].
Qed.

Lemma spec_persist_bounded key : bounded N (spec_persist e m key).1.1.
Proof.
  apply bounded_on_live; [done|]. intros m1 [[xs at_]|] H1 Hx; [|done]. destruct (bounded_at _ _ _ _ _ H1 Hx). destruct (at_ =? 0); [done|by apply bounded_insert].
Qed.
End spec_bounds.

Lemma spec_move_bounded e N m src dst srcLeft dstLeft : 0 <= N -> bounded N m -> bounded (N + 1) (spec_move e m src dst srcLeft dstLeft).1.1.
Proof.
  intros HN Hb. unfold spec_move. bounds_on_key N; [|done]. apply (bounded_on_key e N); [done|lia|]. intros m2 y H2 Hy. pose proof (bounded_mono N (N + 1) m2 H2 ltac:(lia)) as H2'.
  pose proof (zlen_pop_end srcLeft xs Hne). destruct (pop_end srcLeft xs) as [xs' v]. cbn [fst] in *. destruct (bytes_eqb src dst).
  - apply bounded_insert; [done|apply pushed_ne|]. rewrite zlen_pushed. lia.
  - assert (Hy' : zlen (default ([], 0) y).1 <= N). { destruct y as [[ys dat]|]; [by destruct (bounded_at _ _ _ _ _ H2 Hy)|by cbn; rewrite zlen_nil]. }
    destruct (default ([], 0) y) as [ys dat]. cbn [fst] in Hy'. cbv zeta. apply (settled_bounded _ _ _ _ _ _ (fun ev => _ ++ ev)); [|lia]. apply bounded_insert; [done|apply pushed_ne|]. rewrite zlen_pushed. lia.
Qed.

Lemma spec_mpop_bounded e N front count keys : forall m, bounded N m -> bounded N (spec_mpop e m keys front count).1.1.
Proof.
  induction keys as [|key keys IH]; intros m Hb; [done|]. cbn [spec_mpop]. bounds_on_key N; [|by apply IH].
  pose proof (zlen_pop_many front (Z.to_nat (Z.min count (zlen xs))) xs ltac:(unfold zlen; lia)). destruct (pop_many _ _ _) as [ys vs]. cbn [fst] in *.
  apply (settled_bounded _ _ _ _ _ _ (fun ev => _ :: ev)); [done|lia].
Qed.

Lemma spec_cmd_bounded e N m c : 0 <= N -> bounded N m -> bounded (N + cmd_room c) (spec_cmd e m c).1.1.
Proof.
  intros HN Hb. pose proof (bounded_mono N (N + 1) m Hb ltac:(lia)). destruct c; cbn [spec_cmd cmd_room]; rewrite ?Z.add_0_r;
    try (by apply (bounded_on_key e N)); try by (apply spec_push_bounded || apply spec_pop_bounded || apply spec_lset_bounded || apply spec_ltrim_bounded || apply spec_lrem_bounded
      || apply spec_linsert_bounded || apply spec_del_bounded || apply spec_expire_bounded || apply spec_persist_bounded || apply spec_move_bounded).
  - destruct (parseDir a), (parseDir b); try done. by apply spec_move_bounded.
  - unfold spec_lmpop. destruct (mpop_args args) as [[[keys front] count]|msg]; try done. by apply spec_mpop_bounded.
Qed.

(** ** Histories *)

(** The clock of a command. *)
Definition at_time (e : env) (now : Z) : env := mkEnv now (e_st e) (e_acctOn e) (e_string e) (e_remote e).

Section history.
Context (rb : klist native -> Z) (spare : bytes) (sp : bytes -> bytes -> bytes) (e : env).

Fixpoint run_cmds (w : world) (cs : list (Z * cmd)) : P (world * list rep) :=
  match cs with
  | [] => Ok (w, [])
  | (now, c) :: cs' =>
      let* '(w, r) := exec rb spare sp (at_time e now) w c in
      let* '(w, rs) := run_cmds w cs' in
      Ok (w, r :: rs)
  end.

Fixpoint spec_cmds (m : kv) (cs : list (Z * cmd)) : kv * list rep * list effect :=
  match cs with
  | [] => (m, [], [])
  | (now, c) :: cs' =>
      let '(m, r, ev) := spec_cmd (at_time e now) m c in
      let '(m, rs, evs) := spec_cmds m cs' in
      (m, r :: rs, ev ++ evs)
  end.

Definition cmds_room (cs : list (Z * cmd)) : Z := foldr (fun x n => cmd_room x.2 + n) 0 cs.

Lemma cmds_room_nonneg cs : 0 <= cmds_room cs.
Proof. induction cs as [|[? c] cs IH]; cbn; [lia|]. pose proof (cmd_room_nonneg c). unfold cmds_room in *. lia. Qed.

Lemma shows_time w m now : shows e w m <-> shows (at_time e now) w m.
Proof. split; intros [He Hi Hq]; by split. Qed.

Lemma run_cmds_ok cs : roomy sp -> Forall (fun x => cmd_ok x.1 x.2) cs -> forall N w m, 0 <= N -> shows e w m -> bounded N m -> N + cmds_room cs < 2 ^ 62 ->
  exists w', run_cmds w cs = Ok (w', (spec_cmds m cs).1.2) /\ shows e w' (spec_cmds m cs).1.1 /\ w_out w' = w_out w ++ (spec_cmds m cs).2.
Proof.
  intros Hsp. induction 1 as [|[now c] cs Hc Hcs IH]; intros N w m HN H Hb Hr; cbn [run_cmds spec_cmds].
  { exists w. cbn. by rewrite app_nil_r. }
  cbn [cmds_room foldr fst snd] in *. fold (cmds_room cs) in Hr. pose proof (cmd_room_nonneg c) as Hc0. pose proof (cmds_room_nonneg cs) as Hcs0.
  destruct (exec_ok rb spare sp (at_time e now) Hsp w m c (proj1 (shows_time w m now) H) (bounded_solid N m Hb ltac:(lia)) Hc) as (w1 & -> & H1 & Ho1).
  pose proof (spec_cmd_bounded (at_time e now) N m c HN Hb) as Hb1. destruct (spec_cmd (at_time e now) m c) as [[m1 r] ev]. cbn [fst snd] in *.
  destruct (IH (N + cmd_room c) w1 m1 ltac:(lia) (proj2 (shows_time w1 m1 now) H1) Hb1 ltac:(lia)) as (w2 & -> & H2 & Ho2). destruct (spec_cmds m1 cs) as [[m2 rs] evs]. cbn [fst snd] in *.
  exists w2. split_and!; [done|done|]. by rewrite Ho2, Ho1, (assoc_L (++)).
Qed.
End history.

Lemma empty_shows e : shows e empty_world ∅.
Proof. split; [|done|apply empty_slab|done]. intros key. cbn. by rewrite !lookup_empty. Qed.
