(* ===== verification/ListClients.v ===== *)
(** The shard of lists with blocked clients as a transition system: one event after another, with
    the bounds of the keyspace kept (engine/f3/list/commands.go, blocking.go, blockmove.go). *)

From stdpp Require Import gmap.
From S2P Require Import Prelude Format Frames Device Decimal Resp Ordered TierDirectory Expire InlineList ChunkRing Fenwick ValueLog NativeList NativeRefines NativeOps NativeSweeps NativeTrim NativeDemote ListMeaning ListRun ListWorld ListCommands WaitSlab ListSpec ListRefines ListServe ListBlocked ListHistory.
#[local] Open Scope Z_scope.

#[local] Abbreviation P A := (res Empty_set A).

(** ** Bounds *)

Lemma zlen_serve_one key xs b : xs <> [] -> zlen (serve_one key xs b).1 <= zlen xs.
Proof.
  intros Hne. unfold serve_one. pose proof (zlen_pop_end (ws_front (bk_spec b)) xs Hne). pose proof (zlen_pop_many (ws_front (bk_spec b)) (Z.to_nat (Z.min (ws_count (bk_spec b)) (zlen xs))) xs ltac:(unfold zlen; lia)).
  destruct (ws_kind (bk_spec b)); destruct (pop_end _ _), (pop_many _ _ _); cbn [fst] in *; lia.
Qed.

Lemma zlen_serve_spec key Bs : forall xs, zlen (serve_spec key xs Bs).1.1 <= zlen xs.
Proof.
  induction Bs as [|b Bs IH]; intros xs; cbn [serve_spec]; [done|]. case_decide as Hd.
  - pose proof (zlen_serve_one key xs b (proj2 Hd)). destruct (serve_one key xs b) as [ys ev]. specialize (IH ys). destruct (serve_spec key ys Bs) as [[zs Bs2] ev']. cbn [fst] in *. lia.
  - specialize (IH xs). by destruct (serve_spec key xs Bs) as [[zs Bs2] ev'].
Qed.

Lemma bounded_on_key_b e N N' Bs m key k : bounded N m -> N <= N' -> (forall m1 x, bounded N m1 -> m1 !! key = x -> bounded N' (k m1 x).1.1.1) -> bounded N' (on_key_b e Bs m key k).1.1.1.
Proof.
  intros Hb HN Hk. pose proof (bounded_expire e N m key Hb) as H1. unfold on_key_b. destruct (expire_key e m key) as [m1 ev]. cbn [fst] in H1. specialize (Hk m1 _ H1 eq_refl).
  destruct (m1 !! key) as [x|]; [by destruct (k m1 (Some x)) as [[[? ?] ?] ?]|]. destruct (e_string e key); [by eapply bounded_mono|]. by destruct (k m1 None) as [[[? ?] ?] ?].
Qed.

Lemma settled_bounded_b N m key xs at_ (r : rep) (evs : list effect -> list effect) (Bs : list blocked) : bounded N m -> zlen xs <= N ->
  bounded N (let '(m, ev) := settle_spec m key xs at_ in (m, r, evs ev, Bs)).1.1.1.
Proof. intros Hb Hx. pose proof (bounded_settle N m key xs at_ Hb Hx). by destruct (settle_spec m key xs at_). Qed.

(** The settling of a key after the clients took their share. *)
Lemma served_bounded N m key xs at_ Bs (r : rep) (evs : list effect -> list effect -> list effect) : bounded N m -> zlen xs <= N ->
  bounded N (let '(zs, Bs', sv) := serve_spec key xs Bs in let '(m, ev) := settle_spec m key zs at_ in (m, r, evs sv ev, Bs')).1.1.1.
Proof.
  intros Hb Hx. pose proof (zlen_serve_spec key Bs xs). destruct (serve_spec key xs Bs) as [[zs Bs'] sv]. cbn [fst] in *. apply (settled_bounded_b _ _ _ _ _ _ (evs sv)); [done|lia].
Qed.

Ltac bounds_on_key_b N :=
  apply (bounded_on_key_b _ N); [done|lia|]; intros m1 x H1 Hx;
  match goal with |- bounded ?N' _ => pose proof (bounded_mono N N' m1 H1 ltac:(lia)) as H1' end;
  destruct x as [[xs at_]|]; [pose proof (bounded_at _ _ _ _ _ H1 Hx) as [Hne Hxs]|].

Lemma spec_push_b_bounded e N Bs m front create key vals : 0 <= N -> bounded N m -> bounded (N + zlen vals) (spec_push_b e Bs m front create key vals).1.1.1.
Proof.
  intros HN Hb. pose proof (zlen_nonneg vals). unfold spec_push_b. bounds_on_key_b N; [|destruct create; [|done]]; cbn [default from_option id]; [destruct create|];
    apply (served_bounded _ _ _ _ _ _ _ (fun sv ev => _ ++ sv ++ ev)); try done; rewrite zlen_pushes, ?zlen_nil; lia.
Qed.

Lemma spec_move_b_bounded e N Bs m src dst srcLeft dstLeft : 0 <= N -> bounded N m -> bounded (N + 1) (spec_move_b e Bs m src dst srcLeft dstLeft).1.1.1.
Proof.
  intros HN Hb. unfold spec_move_b. bounds_on_key_b N; [|done]. apply (bounded_on_key_b e N); [done|lia|]. intros m2 y H2 Hy. pose proof (bounded_mono N (N + 1) m2 H2 ltac:(lia)) as H2'.
  unfold move_spec_b. pose proof (zlen_pop_end srcLeft xs Hne). destruct (pop_end srcLeft xs) as [xs' v]. cbn [fst] in *. destruct (bytes_eqb src dst).
  - apply bounded_insert; [done|apply pushed_ne|]. rewrite zlen_pushed. lia.
  - assert (Hy' : zlen (default ([], 0) y).1 <= N). { destruct y as [[ys dat]|]; [by destruct (bounded_at _ _ _ _ _ H2 Hy)|by cbn; rewrite zlen_nil]. }
    destruct (default ([], 0) y) as [ys dat]. cbn [fst] in Hy'. pose proof (zlen_serve_spec dst Bs (pushed dstLeft v ys)) as Hz. rewrite zlen_pushed in Hz.
    destruct (serve_spec dst _ Bs) as [[zs Bs'] sv]. cbn [fst] in Hz. pose proof (bounded_settle (N + 1) m2 dst zs dat H2' ltac:(lia)) as H3. destruct (settle_spec m2 dst zs dat) as [m3 ev1]. cbn [fst] in H3.
    apply (settled_bounded_b _ _ _ _ _ _ (fun ev => _ ++ _ ++ ev)); [done|lia].
Qed.

Lemma spec_park_bounded e N Bs m keys s b : bounded N m -> bounded N (spec_park e Bs m keys s b).1.1.1.
Proof. intros Hb. unfold spec_park. by destruct (b_noblock b). Qed.

Lemma spec_bpop_bounded e N Bs all front b keys : forall m, bounded N m -> bounded N (spec_bpop e Bs m all keys front b).1.1.1.
Proof.
  induction keys as [|key keys IH]; intros m Hb; cbn [spec_bpop]; [by apply spec_park_bounded|]. bounds_on_key_b N; [|by apply IH].
  pose proof (zlen_pop_end front xs Hne). destruct (pop_end front xs) as [ys v]. cbn [fst] in *. apply (settled_bounded_b _ _ _ _ _ _ (fun ev => _ :: ev)); [done|lia].
Qed.

Lemma spec_bmpop_bounded e N Bs all front count b keys : forall m, bounded N m -> bounded N (spec_bmpop e Bs m all keys front count b).1.1.1.
Proof.
  induction keys as [|key keys IH]; intros m Hb; cbn [spec_bmpop]; [by apply spec_park_bounded|]. bounds_on_key_b N; [|by apply IH].
  pose proof (zlen_pop_many front (Z.to_nat (Z.min count (zlen xs))) xs ltac:(unfold zlen; lia)). destruct (pop_many _ _ _) as [ys vs]. cbn [fst] in *. apply (settled_bounded_b _ _ _ _ _ _ (fun ev => _ :: ev)); [done|lia].
Qed.

(** ** Nobody waits for what is there *)

(** No key is created. *)
Definition fewer (m m' : kv) : Prop := forall key, m !! key = None -> m' !! key = None.

#[local] Instance fewer_refl : Reflexive fewer.
Proof. by intros m key. Qed.

#[local] Instance fewer_trans : Transitive fewer.
Proof. intros m1 m2 m3 H1 H2 key Hk. by apply H2, H1. Qed.

Lemma fewer_delete m key : fewer m (delete key m).
Proof. intros k Hk. rewrite lookup_delete_None. by right. Qed.

Lemma fewer_insert m key x y : m !! key = Some x -> fewer m (<[key := y]> m).
Proof. intros Hx k Hk. rewrite lookup_insert_ne; [done|]. intros ->. congruence. Qed.

Lemma fewer_settle m key x xs at_ : m !! key = Some x -> fewer m (settle_spec m key xs at_).1.
Proof. intros Hx. unfold settle_spec. destruct (decide (xs = [])); [apply fewer_delete|by eapply fewer_insert]. Qed.

Lemma fewer_expire e m key : fewer m (expire_key e m key).1.
Proof. unfold expire_key. destruct (m !! key) as [[xs at_]|]; [|done]. destruct (_ && _); [apply fewer_delete|done]. Qed.

Lemma fewer_settled m key x xs at_ (r : rep) (evs : list effect -> list effect) : m !! key = Some x -> fewer m (let '(m, ev) := settle_spec m key xs at_ in (m, r, evs ev)).1.1.
Proof. intros Hx. pose proof (fewer_settle m key x xs at_ Hx). by destruct (settle_spec m key xs at_). Qed.

Lemma fewer_on_key e m key k : (forall m1 x, m1 !! key = x -> fewer m1 (k m1 x).1.1) -> fewer m (on_key e m key k).1.1.
Proof.
  intros Hk. pose proof (fewer_expire e m key) as H1. unfold on_key. destruct (expire_key e m key) as [m1 ev]. cbn [fst] in H1. specialize (Hk m1 _ eq_refl).
  destruct (m1 !! key) as [x|]; [destruct (k m1 (Some x)) as [[? ?] ?]; by etransitivity|]. destruct (e_string e key); [done|]. destruct (k m1 None) as [[? ?] ?]; by etransitivity.
Qed.

Lemma fewer_on_live e m key k : (forall m1 x, m1 !! key = x -> fewer m1 (k m1 x).1.1) -> fewer m (on_live e m key k).1.1.
Proof.
  intros Hk. pose proof (fewer_expire e m key) as H1. unfold on_live. destruct (expire_key e m key) as [m1 ev]. cbn [fst] in H1. specialize (Hk m1 _ eq_refl).
  destruct (k m1 (m1 !! key)) as [[? ?] ?]; by etransitivity.
Qed.

Lemma fewer_mpop e front count keys : forall m, fewer m (spec_mpop e m keys front count).1.1.
Proof.
  induction keys as [|key keys IH]; intros m; cbn [spec_mpop]; [done|]. apply fewer_on_key. intros m1 [[xs at_]|] Hx; [|apply IH].
  destruct (pop_many _ _ _) as [ys vs]. by eapply (fewer_settled _ _ _ _ _ _ (fun ev => _ :: ev)).
Qed.

(** A command that serves nobody. *)
Definition serves_nobody (c : cmd) : Prop := match c with KPush _ _ _ _ | KLmove _ _ _ _ | KRpoplpush _ _ => False | _ => True end.

(** Behind the type check, with the key's list or without one. *)
Ltac fewer_on := (apply fewer_on_key || apply fewer_on_live); intros ? [[? ?]|] ?; repeat case_match; try done; cbn [fst];
  try (first [by apply fewer_delete|by eapply fewer_insert|match goal with E : settle_spec ?m ?k ?l ?a = (?m', _) |- fewer ?m ?m' => replace m' with (settle_spec m k l a).1 by (by rewrite E); by eapply fewer_settle end]).

Lemma fewer_cmd e m c : serves_nobody c -> fewer m (spec_cmd e m c).1.1.
Proof.
  intros Hc. destruct c; try done; cbn [spec_cmd]; [unfold spec_pop|unfold spec_llen|unfold spec_lindex|unfold spec_lrange|unfold spec_lpos|unfold spec_lset|unfold spec_ltrim|unfold spec_lrem|unfold spec_linsert| |unfold spec_del| |unfold spec_persist]; try by fewer_on.
  2: { unfold spec_expire. destruct (expire_request _ _ _ _) as [[f at_]|msg]; [by fewer_on|reflexivity]. }
  unfold spec_lmpop. destruct (mpop_args args) as [[[keys front] count]|msg]; [apply fewer_mpop|reflexivity].
Qed.

(** No client is blocked on a key that has a list. *)
Definition idle (Bs : list blocked) (m : kv) : Prop := forall b key, b ∈ Bs -> key ∈ bk_keys b -> m !! key = None.

Lemma idle_fewer Bs m m' : idle Bs m -> fewer m m' -> idle Bs m'.
Proof. intros Hi Hf b key Hb Hk. by eapply Hf, Hi. Qed.

Lemma idle_sub Bs Bs' m : idle Bs m -> Bs' ⊆ Bs -> idle Bs' m.
Proof. intros Hi Hs b key Hb Hk. by eapply Hi; [apply Hs|]. Qed.

(** The loop serves until the list or its clients run out. *)
Lemma serve_spec_idle key Bs : forall xs, (serve_spec key xs Bs).1.2 ⊆ Bs /\ ((serve_spec key xs Bs).1.1 = [] \/ forall b, b ∈ (serve_spec key xs Bs).1.2 -> key ∉ bk_keys b).
Proof.
  induction Bs as [|b Bs IH]; intros xs; cbn [serve_spec]; [split; [done|]; right; intros ? []%not_elem_of_nil|]. case_decide as Hd.
  - destruct (serve_one key xs b) as [ys ev]. destruct (IH ys) as [H1 H2]. destruct (serve_spec key ys Bs) as [[zs Bs2] ev']. cbn [fst snd] in *. split; [set_solver|done].
  - destruct (decide (xs = [])) as [->|Hne]; [rewrite serve_spec_empty; cbn [fst snd]; split; [done|by left]|].
    destruct (IH xs) as [H1 H2]. destruct (serve_spec key xs Bs) as [[zs Bs2] ev']. cbn [fst snd] in *. split; [set_solver|]. destruct H2 as [->|H2]; [by left|]. right. intros c [->|Hc]%elem_of_cons; [|by apply H2]. intros Hk. by apply Hd.
Qed.

(** After a key was served and settled. *)
Lemma idle_served Bs m key xs at_ : idle Bs m -> idle (serve_spec key xs Bs).1.2 (settle_spec m key (serve_spec key xs Bs).1.1 at_).1.
Proof.
  intros Hi. destruct (serve_spec_idle key Bs xs) as [Hs Hor]. destruct (serve_spec key xs Bs) as [[zs Bs'] sv]. cbn [fst snd] in *. apply (idle_sub _ Bs') in Hi; [|done]. unfold settle_spec.
  destruct (decide (zs = [])) as [->|Hne]; cbn [fst]; [eapply idle_fewer; [done|apply fewer_delete]|]. destruct Hor as [->|Hor]; [done|]. intros b k Hb Hk. rewrite lookup_insert_ne; [by eapply Hi|]. intros ->. by eapply Hor.
Qed.

Lemma idle_on_key_b e Bs m key k : idle Bs m -> (forall m1 x, idle Bs m1 -> fewer m m1 -> m1 !! key = x -> idle (k m1 x).2 (k m1 x).1.1.1) -> idle (on_key_b e Bs m key k).2 (on_key_b e Bs m key k).1.1.1.
Proof.
  intros Hi Hk. pose proof (fewer_expire e m key) as H1. unfold on_key_b. destruct (expire_key e m key) as [m1 ev]. cbn [fst] in H1. pose proof (idle_fewer _ _ _ Hi H1) as Hi1. specialize (Hk m1 _ Hi1 H1 eq_refl).
  destruct (m1 !! key) as [x|]; [by destruct (k m1 (Some x)) as [[[? ?] ?] ?]|]. destruct (e_string e key); [done|]. by destruct (k m1 None) as [[[? ?] ?] ?].
Qed.

Lemma idle_push e Bs m front create key vals : idle Bs m -> idle (spec_push_b e Bs m front create key vals).2 (spec_push_b e Bs m front create key vals).1.1.1.
Proof.
  intros Hi. apply idle_on_key_b; [done|]. intros m1 x Hi1 _ _.
  assert (Hserved : forall xs at_ (r : rep) (evs : list effect -> list effect -> list effect),
    let o := (let '(zs, Bs', sv) := serve_spec key xs Bs in let '(m, ev) := settle_spec m1 key zs at_ in (m, r, evs sv ev, Bs')) in idle o.2 o.1.1.1).
  { intros xs at_ r evs. pose proof (idle_served Bs m1 key xs at_ Hi1) as H. destruct (serve_spec key xs Bs) as [[zs Bs'] sv]. cbn [fst snd] in H. by destruct (settle_spec m1 key zs at_). }
  destruct x as [[xs at_]|], create; cbn [default from_option id]; try done; apply (Hserved _ _ _ (fun sv ev => _ ++ sv ++ ev)).
Qed.

Lemma idle_move e Bs m src dst srcLeft dstLeft : idle Bs m -> idle (spec_move_b e Bs m src dst srcLeft dstLeft).2 (spec_move_b e Bs m src dst srcLeft dstLeft).1.1.1.
Proof.
  intros Hi. apply idle_on_key_b; [done|]. intros m1 [[xs at_]|] Hi1 _ Hx; [|done]. assert (Hsrc : forall b, b ∈ Bs -> src ∉ bk_keys b) by (intros b Hb Hk; specialize (Hi1 b src Hb Hk); congruence).
  apply idle_on_key_b; [done|]. intros m2 y Hi2 _ _. unfold move_spec_b. destruct (pop_end srcLeft xs) as [xs' v]. destruct (bytes_eqb src dst).
  - cbn [fst snd]. intros b k Hb Hk. rewrite lookup_insert_ne; [by eapply Hi2|]. intros ->. by eapply Hsrc.
  - destruct (default ([], 0) y) as [ys dat]. pose proof (idle_served Bs m2 dst (pushed dstLeft v ys) dat Hi2) as H3. destruct (serve_spec_idle dst Bs (pushed dstLeft v ys)) as [Hs _].
    destruct (serve_spec dst _ Bs) as [[zs Bs'] sv]. cbn [fst snd] in *. destruct (settle_spec m2 dst zs dat) as [m3 ev1]. cbn [fst snd] in *. unfold settle_spec. destruct (decide (xs' = [])); cbn [fst snd].
    + eapply idle_fewer; [done|apply fewer_delete].
    + intros b k Hb Hk. rewrite lookup_insert_ne; [by eapply H3|]. intros ->. by eapply Hsrc; [apply Hs|].
Qed.

(** A client parks once every one of its keys was found empty. *)
Lemma idle_park e Bs m keys s b : idle Bs m -> (forall key, key ∈ keys -> m !! key = None) -> idle (spec_park e Bs m keys s b).2 (spec_park e Bs m keys s b).1.1.1.
Proof.
  intros Hi Hk. unfold spec_park. destruct (b_noblock b); [done|]. intros c key [Hc| ->%list_elem_of_singleton]%elem_of_app Hkey; [by eapply Hi|by apply Hk].
Qed.

Lemma idle_bpop e Bs all front b keys : forall m, idle Bs m -> (forall key, key ∈ all -> key ∈ keys \/ m !! key = None) -> idle (spec_bpop e Bs m all keys front b).2 (spec_bpop e Bs m all keys front b).1.1.1.
Proof.
  induction keys as [|key keys IH]; intros m Hi Hall; cbn [spec_bpop]; [apply idle_park; [done|]; intros k Hk; destruct (Hall k Hk) as [[]%not_elem_of_nil|]; done|].
  apply idle_on_key_b; [done|]. intros m1 [[xs at_]|] Hi1 Hf Hx.
  - destruct (pop_end front xs) as [ys v]. pose proof (fewer_settle m1 key _ ys at_ Hx) as H2. destruct (settle_spec m1 key ys at_). cbn [fst snd] in *. by eapply idle_fewer.
  - apply IH; [done|]. intros k Hk. destruct (Hall k Hk) as [[->|Hin]%elem_of_cons|Hn]; [by right|by left|right; by apply Hf].
Qed.

Lemma idle_bmpop e Bs all front count b keys : forall m, idle Bs m -> (forall key, key ∈ all -> key ∈ keys \/ m !! key = None) -> idle (spec_bmpop e Bs m all keys front count b).2 (spec_bmpop e Bs m all keys front count b).1.1.1.
Proof.
  induction keys as [|key keys IH]; intros m Hi Hall; cbn [spec_bmpop]; [apply idle_park; [done|]; intros k Hk; destruct (Hall k Hk) as [[]%not_elem_of_nil|]; done|].
  apply idle_on_key_b; [done|]. intros m1 [[xs at_]|] Hi1 Hf Hx.
  - destruct (pop_many _ _ _) as [ys vs]. pose proof (fewer_settle m1 key _ ys at_ Hx) as H2. destruct (settle_spec m1 key ys at_). cbn [fst snd] in *. by eapply idle_fewer.
  - apply IH; [done|]. intros k Hk. destruct (Hall k Hk) as [[->|Hin]%elem_of_cons|Hn]; [by right|by left|right; by apply Hf].
Qed.

Lemma idle_event e Bs m ev : idle Bs m -> idle (spec_event e Bs m ev).2 (spec_event e Bs m ev).1.1.1.
Proof.
  intros Hi. destruct ev as [c|keys front b|args b|j first]; cbn [spec_event].
  - assert (Hq : serves_nobody c -> idle (spec_cmd e m c, Bs).2 (spec_cmd e m c, Bs).1.1.1) by (intros Hc; eapply idle_fewer; [done|by apply fewer_cmd]).
    destruct c; try (by apply Hq); cbn [spec_cmd_b]; [by apply idle_push| |by apply idle_move]. destruct (parseDir a), (parseDir b); try done. by apply idle_move.
  - apply idle_bpop; [done|]. intros key Hk. by left.
  - unfold spec_blmpop. destruct (mpop_args args) as [[[keys front] count]|msg]; try done. apply idle_bmpop; [done|]. intros key Hk. by left.
  - cbn [fst snd]. eapply idle_sub; [done|]. intros b Hb. by eapply elem_of_submseteq, submseteq_delete.
Qed.

(** ** One event *)

Definition event_room (ev : bevent) : Z := match ev with BCmd c => cmd_room c | _ => 0 end.

Lemma event_room_nonneg ev : 0 <= event_room ev.
Proof. destruct ev; cbn [event_room]; [apply cmd_room_nonneg|done..]. Qed.

Lemma spec_event_bounded e N Bs m ev : 0 <= N -> bounded N m -> bounded (N + event_room ev) (spec_event e Bs m ev).1.1.1.
Proof.
  intros HN Hb. pose proof (bounded_mono N (N + 1) m Hb ltac:(lia)). destruct ev as [c|keys front b|args b|j first]; cbn [spec_event event_room]; rewrite ?Z.add_0_r; [|by apply spec_bpop_bounded| |done].
  - pose proof (spec_cmd_bounded e N m c HN Hb) as Hc. destruct c; try exact Hc; cbn [spec_cmd_b cmd_room]; [by apply spec_push_b_bounded| |by apply spec_move_b_bounded].
    destruct (parseDir a), (parseDir b); try done. by apply spec_move_b_bounded.
  - unfold spec_blmpop. destruct (mpop_args args) as [[[keys front] count]|msg]; try done. by apply spec_bmpop_bounded.
Qed.

(** What an event of a shard finds and leaves: the keyspace and its clients, none of them waiting
    for a key that has a list, with lists of at most [N] elements. *)
Definition serves (N : Z) (e : env) (w : world) (m : kv) (As : list awaiter) : Prop := shows As e w m /\ Forall pops As /\ bounded N m /\ idle (erase <$> As) m.

Lemma serves_time N e w m As now : serves N e w m As <-> serves N (at_time e now) w m As.
Proof. split; intros ([He Hi Hq] & Hp & Hb & Hd); by split_and!. Qed.

(** In the shard itself: a key with a queue has no list. *)
Lemma serves_idle N e w m As key wl : serves N e w m As -> w_waiters w !! key = Some wl -> w_m w !! key = None.
Proof.
  intros (H & _ & _ & Hi) Hw. pose proof (ln_wl _ _ (pl_linked _ _ _ (sh_wait _ _ _ H)) key) as Hl. rewrite app_nil_r, Hw in Hl. destruct (queue (entries As) key) as [|i q] eqn:Eq; [done|].
  assert (Hin : (key, i) ∈ entries As) by (apply elem_of_queue; rewrite Eq; left). apply list_elem_of_bind in Hin as (a & Hin & Ha). apply (list_elem_of_fmap_2 fst) in Hin. apply (list_elem_of_fmap_2 erase) in Ha.
  pose proof (Hi _ key Ha Hin) as Hm. by destruct (key_cases e w m key H) as [(p & xs & at_ & Hp & Hm')|[Hp _]]; [congruence|].
Qed.

Section step.
Context (rb : klist native -> Z) (spare : bytes) (sp : bytes -> bytes -> bytes) (e : env).

Lemma event_step N w m As now ev : roomy sp -> 0 <= N -> N + event_room ev < 2 ^ 62 -> serves N e w m As -> event_ok As w now ev ->
  let o := spec_event (at_time e now) (erase <$> As) m ev in
  exists w' As', bexec rb spare sp (at_time e now) w ev = Ok (w', o.1.1.2) /\ serves (N + event_room ev) e w' o.1.1.1 As' /\ erase <$> As' = o.2 /\ w_out w' = w_out w ++ o.1.2.
Proof.
  intros Hsp HN Hr Hs Hok o. apply (serves_time N e w m As now) in Hs as (H & Hp & Hb & Hi). pose proof (event_room_nonneg ev).
  destruct (bexec_ok rb spare sp (at_time e now) Hsp As w m ev H Hp (bounded_solid N m Hb ltac:(lia)) Hok) as (w' & As' & E & H' & Hp' & Ee & Eo).
  exists w', As'. split_and!; [done| |done|done]. apply (serves_time _ e w' _ As' now). split_and!; [done|done|by apply spec_event_bounded|]. rewrite Ee. by apply idle_event.
Qed.

(** ** Reachable shards *)

(** The worlds a shard reaches from its start, with the keyspace and the clients they stand for;
    [slab] names the nodes each client holds. *)
Inductive reached : Z -> world -> kv -> list awaiter -> Prop :=
  | at_start : reached 0 empty_world ∅ []
  | at_event N w m As now ev w' r As' : reached N w m As -> event_ok As w now ev -> N + event_room ev < 2 ^ 62 -> bexec rb spare sp (at_time e now) w ev = Ok (w', r) ->
      slab w' As' -> erase <$> As' = (spec_event (at_time e now) (erase <$> As) m ev).2 -> reached (N + event_room ev) w' (spec_event (at_time e now) (erase <$> As) m ev).1.1.1 As'.

Lemma pops_erase As As' : Forall pops As -> erase <$> As = erase <$> As' -> Forall pops As'.
Proof.
  intros H. revert As'. induction H as [|a As Ha _ IH]; intros [|a' As'] E; try done. rewrite !fmap_cons in E. injection E as E1 E2 E3 E4 E5 E6. constructor; [|by apply IH]. unfold pops in *. by rewrite <- E3, <- E5.
Qed.

Lemma reached_serves N w m As : roomy sp -> reached N w m As -> 0 <= N < 2 ^ 62 /\ serves N e w m As.
Proof.
  intros Hsp. induction 1 as [|N w m As now ev w' r As' _ [HN IH] Hok Hr E Hs Ee].
  - split; [lia|]. split_and!; [apply empty_shows|by constructor|apply map_Forall_empty|intros b key []%not_elem_of_nil].
  - pose proof (event_room_nonneg ev). split; [lia|]. destruct (event_step N w m As now ev Hsp ltac:(lia) Hr IH Hok) as (w1 & A1 & E1 & (H1 & Hp1 & Hb1 & Hi1) & Ee1 & _). rewrite E in E1. simplify_eq.
    split_and!; [|eapply pops_erase; [done|congruence]|done|by rewrite Ee, <- Ee1]. by eapply shows_unlink.
Qed.

(** An event of a reachable shard leads to a reachable one. *)
Lemma reached_step N w m As now ev : roomy sp -> reached N w m As -> event_ok As w now ev -> N + event_room ev < 2 ^ 62 ->
  let o := spec_event (at_time e now) (erase <$> As) m ev in
  exists w' As', bexec rb spare sp (at_time e now) w ev = Ok (w', o.1.1.2) /\ reached (N + event_room ev) w' o.1.1.1 As' /\ erase <$> As' = o.2 /\ w_out w' = w_out w ++ o.1.2.
Proof.
  intros Hsp H Hok Hr o. destruct (reached_serves N w m As Hsp H) as [HN Hs]. destruct (event_step N w m As now ev Hsp ltac:(lia) Hr Hs Hok) as (w' & As' & E & (H' & _) & Ee & Eo).
  exists w', As'. split_and!; [done| |done|done]. eapply at_event; try done. apply H'.
Qed.
End step.
