(* ===== verification/ListReplay.v ===== *)
(** The list log replayed (engine/f3/list/durable.go): what each frame does to the keyspace the
    registry shows, that the frames of a command redo it, and that a snapshot's frames rebuild
    every list. *)

From stdpp Require Import gmap.
From S2P Require Import Prelude Format Frames Device Decimal Resp Ordered TierDirectory Expire InlineList ChunkRing Fenwick ValueLog NativeList NativeRefines NativeOps NativeSweeps NativeTrim NativeDemote ListMeaning ListRun ListWorld ListCommands ListDurable WaitSlab ListSpec ListRefines ListServe ListHistory.
#[local] Open Scope Z_scope.

#[local] Abbreviation shows := (ListSpec.shows []).

#[local] Abbreviation R A := (res error A).

(** ** Numbers in frames *)

Lemma int64_of_mod x : - two63 <= x < two63 -> int64_of (x mod two64) = x.
Proof.
  intros Hx. unfold int64_of. destruct (decide (0 <= x)).
  - rewrite Z.mod_small by lia. destruct (Z.ltb_spec x two63); lia.
  - rewrite <- (Z.mod_unique x two64 (-1) (x + two64)) by lia. destruct (Z.ltb_spec (x + two64) two63); lia.
Qed.

Lemma int64_of_small x : 0 <= x < two63 -> int64_of x = x.
Proof. intros Hx. unfold int64_of. destruct (Z.ltb_spec x two63); lia. Qed.

Lemma lxor_ones n a : 0 <= n -> 0 <= a < 2 ^ n -> Z.lxor a (Z.ones n) = Z.ones n - a.
Proof.
  intros Hn Ha. assert (Hz : Z.ldiff a (Z.ones n) = 0).
  { rewrite Z.ldiff_ones_r, Z.shiftr_div_pow2, Z.div_small, Z.shiftl_0_l by lia. done. }
  rewrite (Z.sub_nocarry_ldiff _ _ Hz). apply Z.bits_inj'. intros i Hi. rewrite Z.lxor_spec, Z.ldiff_spec. destruct (Z.ltb_spec i n).
  - rewrite Z.ones_spec_low by lia. by destruct (Z.testbit a i).
  - rewrite Z.ones_spec_high by lia. apply (f_equal (fun z => Z.testbit z i)) in Hz. rewrite Z.ldiff_spec, Z.ones_spec_high, Z.bits_0 in Hz by lia. by destruct (Z.testbit a i).
Qed.

Lemma zigzag_val x : - two63 <= x < two63 -> zigzag x = if x <? 0 then - 2 * x - 1 else 2 * x.
Proof.
  intros Hx. unfold zigzag. cbv zeta. destruct (Z.ltb_spec x 0); [|by rewrite Z.mod_small by lia].
  rewrite <- (Z.mod_unique (2 * x) two64 (-1) (2 * x + two64)) by lia. change (two64 - 1) with (Z.ones 64). rewrite lxor_ones by lia. change (Z.ones 64) with (two64 - 1). lia.
Qed.

Lemma Varint_Put x : - two63 <= x < two63 -> Varint (PutVarint x) = (x, zlen (PutVarint x)).
Proof.
  intros Hx. unfold Varint, PutVarint. pose proof (zigzag_val x Hx) as E. pose proof (Uvarint_Put (zigzag x) []) as Hu. rewrite app_nil_r in Hu. rewrite Hu by (unfold is_u64; rewrite E; destruct (Z.ltb_spec x 0); lia).
  rewrite E, Z.shiftr_div_pow2 by lia. change (2 ^ 1) with 2. destruct (Z.ltb_spec x 0); f_equal.
  - replace (- 2 * x - 1) with (1 + 2 * (- x - 1)) by lia. rewrite Z.odd_add_mul_2. change (Z.odd 1) with true. cbv iota. rewrite Z.add_comm, Z.mul_comm, Z.div_add_l by lia. change (1 / 2) with 0. lia.
  - replace (2 * x) with (0 + 2 * x) by lia. rewrite Z.odd_add_mul_2. change (Z.odd 0) with false. cbv iota. rewrite Z.add_0_l, Z.mul_comm, Z.div_mul; lia.
Qed.

(** ** One frame *)

Section replay.
Context (rb : klist native -> Z) (spare : bytes) (e : env).

#[local] Abbreviation apply_ := (applyListOp rb spare e).

Definition at_or_new (m : kv) (key : bytes) : list bytes * Z := default ([], 0) (m !! key).

Lemma push_frame w m key v (front : bool) : shows e w m -> okv v ->
  exists w', apply_ w key (if front then listOpPushFront else listOpPushBack) [] v = Ok w'
    /\ shows e w' (<[key := (pushed front v (at_or_new m key).1, (at_or_new m key).2)]> m).
Proof.
  intros H Hv. assert (Hgo : exists w', (let '(w, p) := getOrCreate e w key in let* w := up (pushEnd spare e w p v front) in up (note rb e w p) : R world) = Ok w'
    /\ shows e w' (<[key := (pushed front v (at_or_new m key).1, (at_or_new m key).2)]> m)).
  { unfold getOrCreate, at_or_new. pose proof (target_ok e w m key H) as Ht. destruct (match w_m w !! key with Some d => _ | None => _ end) as [w1 p]. destruct Ht as (H1 & Hp1 & _).
    destruct (default ([], 0) (m !! key)) as [xs at_]. cbn [fst snd]. destruct (pushEnd_ok e w1 _ key p xs at_ H1 Hp1 (lookup_insert_eq _ _ _) spare v front Hv) as (w2 & -> & H2 & _ & Hm2).
    rewrite insert_insert_eq in H2. cbn [up]. destruct (shows_note rb e w2 _ key p H2) as (w3 & -> & H3 & _); [by rewrite Hm2|]. by exists w3. }
  by destruct front.
Qed.

(** The replay's own settling: no event, and a list that cannot be empty is only noted. *)
Lemma resettle_ok w m key p xs at_ (drops : bool) : shows e w (<[key := (xs, at_)]> m) -> w_m w !! key = Some p -> (drops = false -> xs <> []) ->
  exists w', (let* n := up (len_of e w p) in if drops && (n =? 0) then up (drop_key e w key) else up (note rb e w p) : R world) = Ok w' /\ shows e w' (settle_spec m key xs at_).1.
Proof.
  intros H Hp Hd. rewrite (len_ok e w _ key p xs at_ H Hp (lookup_insert_eq _ _ _)). cbn [up]. unfold settle_spec. destruct (decide (xs = [])) as [->|Hne].
  - destruct drops; [|by specialize (Hd eq_refl)]. change (zlen [] =? 0) with true. cbn [andb]. destruct (shows_drop e w _ key H) as (w1 & -> & H1 & _). exists w1. by rewrite delete_insert_eq in H1.
  - destruct (Z.eqb_spec (zlen xs) 0) as [E|_]; [exfalso; apply Hne, zlen_0_nil; lia|]. rewrite andb_false_r. destruct (shows_note rb e w _ key p H Hp) as (w1 & -> & H1 & _). by exists w1.
Qed.

Lemma pop_frame w m key (front : bool) xs at_ : shows e w m -> m !! key = Some (xs, at_) -> xs <> [] ->
  exists w', apply_ w key (if front then listOpPopFront else listOpPopBack) [] [] = Ok w' /\ shows e w' (settle_spec m key (pop_end front xs).1 at_).1.
Proof.
  intros H Hm Hne. assert (Hgo : exists w', popApply rb e w key front = Ok w' /\ shows e w' (settle_spec m key (pop_end front xs).1 at_).1); [|by destruct front].
  destruct (shows_at e w m key xs at_ H Hm) as (p & o & Hp & _). unfold popApply. rewrite Hp, (len_ok e w m key p xs at_ H Hp Hm). cbn [up]. destruct (Z.eqb_spec (zlen xs) 0) as [E|_]; [exfalso; apply Hne, zlen_0_nil; lia|].
  destruct (popOne_ok e w m key p xs at_ front H Hp Hm Hne) as (w1 & -> & H1 & _ & Hm1). cbn [up]. apply (resettle_ok w1 m key p _ at_ true); [done|by rewrite Hm1|done].
Qed.

(** A change of a list that is there. *)
Lemma change_ok w m key xs at_ ys f (drops : bool) : shows e w m -> m !! key = Some (xs, at_) ->
  (forall l, list_holds (e_st e) l xs -> exists l', f l = Ok l' /\ list_holds (e_st e) l' ys) -> (drops = false -> ys <> []) ->
  exists w', change rb e w key f drops = Ok w' /\ shows e w' (settle_spec m key ys at_).1.
Proof.
  intros H Hm Hf Hd. destruct (shows_at e w m key xs at_ H Hm) as (p & _ & Hp & _). unfold change. rewrite Hp. destruct (obj_ok e w m key p xs at_ H Hp Hm) as (o & Eo & _ & Hl & _). rewrite Eo. cbn [up].
  destruct (Hf _ Hl) as (l' & -> & Hl'). cbv zeta. apply resettle_ok; [by eapply set_ok|done|done].
Qed.

Lemma set_frame w m key xs at_ i v : shows e w m -> m !! key = Some (xs, at_) -> small xs -> okv v -> 0 <= i < zlen xs ->
  exists w', apply_ w key listOpSet (PutUvarint i) v = Ok w' /\ shows e w' (<[key := (<[Z.to_nat i := v]> xs, at_)]> m).
Proof.
  intros H Hm Hsm Hv Hi. unfold small in Hsm. change (apply_ w key listOpSet (PutUvarint i) v) with (let '(idx, n) := Uvarint (PutUvarint i) in if n <=? 0 then Err ErrLength else match w_m w !! key with
    | None => Ok w | Some p => let* len := up (len_of e w p) in let i := int64_of idx in if (i <? 0) || (len <=? i) then Ok w else change rb e w key (fun l => up (setAt (H := native_deque (e_st e)) l i v)) false end).
  pose proof (Uvarint_Put i []) as Hu. rewrite app_nil_r in Hu. rewrite Hu by (unfold is_u64; lia). pose proof (zlen_PutUvarint i). destruct (Z.leb_spec (zlen (PutUvarint i)) 0); [lia|].
  destruct (shows_at e w m key xs at_ H Hm) as (p & _ & Hp & _). rewrite Hp, (len_ok e w m key p xs at_ H Hp Hm). cbn [up]. cbv zeta. rewrite int64_of_small by lia.
  destruct (Z.ltb_spec i 0), (Z.leb_spec (zlen xs) i); try lia. cbn [orb].
  assert (Hne : <[Z.to_nat i := v]> xs <> []) by (intros E%(f_equal length); rewrite length_insert in E; destruct xs; [unfold zlen in Hi; cbn in Hi; lia|done]).
  destruct (change_ok w m key xs at_ (<[Z.to_nat i := v]> xs) (fun l => up (setAt (H := native_deque (e_st e)) l i v)) false H Hm) as (w' & -> & H').
  - intros l Hl. destruct (setAt_inv (H := native_deque (e_st e)) okv (holds (e_st e)) l xs i v Hl Hsm Hv Hi) as (l' & -> & Hl'). by exists l'.
  - done.
  - exists w'. split; [done|]. unfold settle_spec in H'. by rewrite decide_False in H'.
Qed.

Lemma trim_frame w m key xs at_ lo hi : shows e w m -> m !! key = Some (xs, at_) -> small xs -> is_u64 lo -> is_u64 hi -> lo < two63 -> hi < two63 -> (lo <= hi -> 0 <= lo /\ hi < zlen xs) ->
  exists w', apply_ w key listOpTrim (PutUvarint lo ++ PutUvarint hi) [] = Ok w' /\ shows e w' (settle_spec m key (sl xs lo (hi + 1 - lo)) at_).1.
Proof.
  intros H Hm Hsm Hlo Hhi Hlo2 Hhi2 Hr. set (sk := PutUvarint lo ++ PutUvarint hi).
  change (apply_ w key listOpTrim sk []) with (let '(lo, n1) := Uvarint sk in if n1 <=? 0 then Err ErrLength else let '(hi, n2) := Uvarint (zdrop n1 sk) in if n2 <=? 0 then Err ErrLength
    else change rb e w key (fun l => let* '(l, _) := up (trim (H := native_deque (e_st e)) l (int64_of lo) (int64_of hi)) in Ok l) true). subst sk.
  rewrite Uvarint_Put by done. pose proof (zlen_PutUvarint lo). destruct (Z.leb_spec (zlen (PutUvarint lo)) 0); [lia|]. rewrite zdrop_app_ge, Z.sub_diag by lia. rewrite (zdrop_nonpos 0) by lia.
  pose proof (Uvarint_Put hi []) as Hu. rewrite app_nil_r in Hu. rewrite Hu by done. pose proof (zlen_PutUvarint hi). destruct (Z.leb_spec (zlen (PutUvarint hi)) 0); [lia|].
  unfold is_u64 in *. rewrite !int64_of_small by lia. apply (change_ok w m key xs); [done|done| |done]. intros l Hl.
  destruct (trim_inv (H := native_deque (e_st e)) okv (holds (e_st e)) l xs lo hi Hl Hsm Hr) as (l' & -> & Hl'). by exists l'.
Qed.

Lemma rem_frame w m key xs at_ count v : shows e w m -> m !! key = Some (xs, at_) -> - two63 <= count < two63 ->
  exists w', apply_ w key listOpRem (PutVarint count) v = Ok w' /\ shows e w' (settle_spec m key (lrem_spec xs count v).1 at_).1.
Proof.
  intros H Hm Hc. change (apply_ w key listOpRem (PutVarint count) v) with (let '(count, n) := Varint (PutVarint count) in if n <=? 0 then Err ErrLength
    else change rb e w key (fun l => let* '(l, _) := up (remove (H := native_deque (e_st e)) l count v) in Ok l) true).
  rewrite Varint_Put by done. pose proof (zlen_PutUvarint (zigzag count)). unfold PutVarint. destruct (Z.leb_spec (zlen (PutUvarint (zigzag count))) 0); [lia|].
  apply (change_ok w m key xs); [done|done| |done]. intros l Hl. rewrite <- removeMatches_spec by done. destruct (remove_inv (H := native_deque (e_st e)) okv (holds (e_st e)) l xs count v Hl Hc) as (l' & -> & Hl'). by exists l'.
Qed.

Lemma insert_frame w m key xs at_ (before : bool) pivot v ys : shows e w m -> m !! key = Some (xs, at_) -> okv v -> insert_spec before pivot v xs = Some ys ->
  exists w', apply_ w key listOpInsert ((if before then x01 else x00) :: pivot) v = Ok w' /\ shows e w' (<[key := (ys, at_)]> m).
Proof.
  intros H Hm Hv Hi. destruct (insert_spec_some _ _ _ _ _ Hi) as [Hne _]. set (b := if before then x01 else x00). assert (Hb : (byte_Z b =? 1) = before) by (by destruct before).
  change (apply_ w key listOpInsert (b :: pivot) v) with (change rb e w key (fun l => let* '(l, _) := up (InlineList.insert (H := native_deque (e_st e)) l (byte_Z b =? 1) pivot v) in Ok l) false). rewrite Hb.
  destruct (change_ok w m key xs at_ ys (fun l => let* '(l, _) := up (InlineList.insert (H := native_deque (e_st e)) l before pivot v) in Ok l) false H Hm) as (w' & -> & H').
  - intros l Hl. destruct (insert_inv (H := native_deque (e_st e)) okv (holds (e_st e)) l xs before pivot v Hl Hv) as (l' & -> & Hl'). rewrite Hi in Hl'. by exists l'.
  - done.
  - exists w'. split; [done|]. unfold settle_spec in H'. by rewrite decide_False in H'.
Qed.

Lemma delete_frame w m key : shows e w m -> exists w', apply_ w key listOpDeleteKey [] [] = Ok w' /\ shows e w' (delete key m).
Proof.
  intros H. change (apply_ w key listOpDeleteKey [] []) with (up (drop_key e w key) : R world). destruct (shows_drop e w m key H) as (w' & -> & H' & _). by exists w'.
Qed.

Lemma expire_frame w m key xs at_ at' : shows e w m -> m !! key = Some (xs, at_) -> - two63 <= at' < two63 ->
  exists w', apply_ w key listOpExpire [] (le_enc 8 (at' mod two64)) = Ok w' /\ shows e w' (<[key := (xs, at')]> m).
Proof.
  intros H Hm Ha. set (sv := le_enc 8 (at' mod two64)). change (apply_ w key listOpExpire [] sv) with (if zlen sv <? 8 then Err ErrLength else match w_m w !! key with None => Ok w
    | Some p => let* o := up (obj w p) in Ok (set_obj w p (mkLobj (lo_data o) (lo_clock o) (int64_of (le_dec (ztake 8 sv))) (lo_acct o))) end : R world).
  assert (Hsv : zlen sv = 8) by (by unfold sv, zlen; rewrite length_le_enc). rewrite Hsv. change (8 <? 8) with false. cbv iota. rewrite (ztake_all 8 sv) by lia. subst sv.
  rewrite le_dec_u64 by (unfold is_u64; pose proof (Z.mod_pos_bound at' two64); lia). rewrite int64_of_mod by done.
  destruct (shows_at e w m key xs at_ H Hm) as (p & _ & Hp & _). rewrite Hp. destruct (obj_ok e w m key p xs at_ H Hp Hm) as (o & -> & Ho & Hl & _). cbn [up]. eexists. split; [done|].
  exact (shows_set e w m key p o (mkLobj (lo_data o) (lo_clock o) at' (lo_acct o)) xs H Hp Ho Hl).
Qed.

(** ** The frames of a command *)

(** Replayed on any registry that shows [m], the effects leave one that shows [m']. *)
Definition redoes (m : kv) (evs : list effect) (m' : kv) : Prop := forall w, shows e w m -> exists w', Recover rb spare e w evs = Ok w' /\ shows e w' m'.

Lemma redoes_nil m : redoes m [] m.
Proof. intros w H. by exists w. Qed.

Lemma redoes_app m evs1 m1 evs2 m2 : redoes m evs1 m1 -> redoes m1 evs2 m2 -> redoes m (evs1 ++ evs2) m2.
Proof.
  intros H1 H2 w H. destruct (H1 w H) as (w1 & E1 & Hw1). destruct (H2 w1 Hw1) as (w2 & E2 & Hw2). exists w2. split; [|done].
  clear H1 H2 H Hw1 Hw2. revert w E1. induction evs1 as [|x evs1 IH]; intros w E1; cbn [app Recover] in *; [by injection E1 as ->|].
  destruct x; try by apply IH.
  - destruct (applyListOp _ _ _ _ _ _ _ _); try done. by apply IH.
  - destruct (applyListSnapshot _ _ _ _ _ _ _); try done. by apply IH.
Qed.

Lemma redoes_notify cls ev key m evs m' : redoes m evs m' -> redoes m (ENotify cls ev key :: evs) m'.
Proof. intros H w Hw. by apply H. Qed.

Lemma redoes_log m key op sk sv m1 evs m' : (forall w, shows e w m -> exists w', apply_ w key op sk sv = Ok w' /\ shows e w' m1) -> redoes m1 evs m' -> redoes m (ELog key op sk sv :: evs) m'.
Proof. intros H1 H2 w Hw. destruct (H1 w Hw) as (w1 & E1 & Hw1). cbn [Recover]. rewrite E1. by apply H2. Qed.

Lemma redoes_settled m key xs at_ m' : redoes m' (settle_spec m key xs at_).2 m'.
Proof. unfold settle_spec. destruct (decide _); [by apply redoes_notify, redoes_nil|apply redoes_nil]. Qed.
#[local] Hint Resolve redoes_nil redoes_notify redoes_settled : core.

Lemma at_or_new_insert m key x : at_or_new (<[key := x]> m) key = x.
Proof. unfold at_or_new. by rewrite lookup_insert_eq. Qed.

Lemma redo_pushes front key vals : Forall okv vals -> forall m, vals <> [] \/ is_Some (m !! key) ->
  redoes m (map (push_log front key) vals) (<[key := (foldl (fun xs v => pushed front v xs) (at_or_new m key).1 vals, (at_or_new m key).2)]> m).
Proof.
  induction 1 as [|v vals Hv Hvs IH]; intros m Hm; cbn [map foldl].
  - destruct Hm as [|[[xs at_] Hm]]; [done|]. unfold at_or_new. rewrite Hm. cbn [default fst snd from_option id]. rewrite insert_id by done. apply redoes_nil.
  - eapply redoes_log; [intros w Hw; by apply push_frame|]. specialize (IH (<[key := (pushed front v (at_or_new m key).1, (at_or_new m key).2)]> m)).
    rewrite at_or_new_insert, insert_insert_eq in IH. apply IH. right. rewrite lookup_insert_eq. by eexists.
Qed.

Lemma redo_pops front key at_ m n : forall xs, (n <= length xs)%nat -> redoes (settle_spec m key xs at_).1 (replicate n (pop_log front key)) (settle_spec m key (pop_many front n xs).1 at_).1.
Proof.
  induction n as [|n IH]; intros xs Hn; cbn [replicate pop_many]; [apply redoes_nil|]. assert (Hne : xs <> []) by (intros ->; cbn in Hn; lia).
  pose proof (pop_end_len front xs Hne) as Hl. rewrite (settle_nonempty m key xs at_ Hne). cbn [fst].
  eapply redoes_log; [intros w Hw; apply (pop_frame w _ key front xs at_ Hw); [apply lookup_insert_eq|done]|].
  destruct (pop_end front xs) as [ys v]. cbn [fst] in *. specialize (IH ys ltac:(lia)). destruct (pop_many front n ys) as [zs vs]. cbn [fst] in *.
  enough ((settle_spec (<[key := (xs, at_)]> m) key ys at_).1 = (settle_spec m key ys at_).1) as -> by done.
  unfold settle_spec. destruct (decide (ys = [])); cbn [fst]; [apply delete_insert_eq|apply insert_insert_eq].
Qed.

(** ** Histories that stay before their deadlines *)

Definition deadlines (T : Z) (m : kv) : Prop := map_Forall (fun _ x => x.2 = 0 \/ T < x.2 < two63) m.

(** A command of the logged surface, run no later than [T], that sets no deadline up to [T]
    except one already past. *)
Definition timely (T : Z) (x : Z * cmd) : Prop :=
  x.1 <= T /\
  match x.2 with
  | KLmove _ _ _ _ | KRpoplpush _ _ | KLmpop _ => False
  | KExpire verb _ time opts => match expire_request x.1 verb time opts with inl (_, at_) => at_ <= x.1 \/ T < at_ | inr _ => True end
  | _ => True
  end.

Lemma deadlines_insert T m key xs at_ : deadlines T m -> at_ = 0 \/ T < at_ < two63 -> deadlines T (<[key := (xs, at_)]> m).
Proof. intros Hd Ha. by apply map_Forall_insert_2. Qed.

Lemma deadlines_settle T m key xs at_ : deadlines T m -> at_ = 0 \/ T < at_ < two63 -> deadlines T (settle_spec m key xs at_).1.
Proof. intros Hd Ha. unfold settle_spec. destruct (decide _); [by apply map_Forall_delete|by apply deadlines_insert]. Qed.

Lemma expire_timely T now m key : deadlines T m -> now <= T -> expire_key (at_time e now) m key = (m, []).
Proof.
  intros Hd Hn. unfold expire_key. destruct (m !! key) as [[xs at_]|] eqn:Hm; [|done]. destruct (Hd key _ Hm) as [Ha|Ha]; cbn [snd] in Ha; cbn [at_time e_now].
  - by rewrite Ha.
  - destruct (Z.leb_spec at_ now); [lia|]. by rewrite andb_false_r.
Qed.

(** The command redone, and no deadline in the way of the next. *)
Definition redone (T : Z) (m : kv) (o : outcome) : Prop := redoes m o.2 o.1.1 /\ deadlines T o.1.1.

Lemma redone_same T m r : deadlines T m -> redone T m (m, r, []).
Proof. intros Hd. split; [apply redoes_nil|done]. Qed.
#[local] Hint Resolve redone_same : core.

Lemma redone_on_key T now m key k : deadlines T m -> now <= T -> redone T m (k m (m !! key)) -> redone T m (on_key (at_time e now) m key k).
Proof.
  intros Hd Hn Hk. unfold on_key. rewrite (expire_timely T) by done. destruct (m !! key) as [x|]; [by destruct (k m (Some x)) as [[? ?] ?]|].
  destruct (e_string _ key); [by apply redone_same|]. by destruct (k m None) as [[? ?] ?].
Qed.

Lemma redone_on_live T now m key k : deadlines T m -> now <= T -> redone T m (k m (m !! key)) -> redone T m (on_live (at_time e now) m key k).
Proof. intros Hd Hn Hk. unfold on_live. rewrite (expire_timely T) by done. by destruct (k m (m !! key)) as [[? ?] ?]. Qed.

(** An outcome that settles the key after [evs]. *)
Lemma redone_settled T m key xs at_ r evs : deadlines T m -> at_ = 0 \/ T < at_ < two63 -> redoes m evs (settle_spec m key xs at_).1 ->
  redone T m (let '(m, ev) := settle_spec m key xs at_ in (m, r, evs ++ ev)).
Proof.
  intros Hd Ha Hr. pose proof (deadlines_settle T m key xs at_ Hd Ha) as Hd'. pose proof (redoes_settled m key xs at_ (settle_spec m key xs at_).1) as Hs. destruct (settle_spec m key xs at_) as [m' ev]. cbn [fst snd] in *.
  split; [|done]. by eapply redoes_app.
Qed.

Section commands.
Context (T now : Z) (m : kv).
Hypothesis (Hd : deadlines T m) (Hn : now <= T) (Hs : solid m).

Lemma push_redone front create key vals : vals <> [] -> Forall okv vals -> redone T m (spec_push (at_time e now) m front create key vals).
Proof.
  intros Hne Hv. apply redone_on_key; [done|done|].
  assert (Hgo : (at_or_new m key).2 = 0 \/ T < (at_or_new m key).2 < two63 -> redone T m (let '(xs, at_) := at_or_new m key in let ys := foldl (fun xs v => pushed front v xs) xs vals in
    let '(m, ev) := settle_spec m key ys at_ in (m, RpInt (zlen ys), map (push_log front key) vals ++ ENotify NotifyList (pushEvent front) key :: ev))).
  { intros Ha. pose proof (redo_pushes front key vals Hv m (or_introl Hne)) as Hr. destruct (at_or_new m key) as [xs at_]. cbn [fst snd] in *. cbv zeta. set (ys := foldl _ _ _) in *.
    assert (Hys : ys <> []) by (intros E%(f_equal zlen); unfold ys in E; rewrite zlen_pushes, zlen_nil in E; pose proof (zlen_nonneg xs); pose proof (zlen_nonneg vals); apply Hne, zlen_0_nil; lia).
    rewrite (settle_nonempty _ _ _ _ Hys). split; [|by apply deadlines_insert]. eapply redoes_app; [done|]. auto. }
  unfold at_or_new in Hgo. destruct (m !! key) as [[xs at_]|] eqn:Hm; [apply Hgo, (Hd key _ Hm)|]. destruct create; [by apply Hgo; left|by apply redone_same].
Qed.

Lemma pop_redone front key rest : redone T m (spec_pop (at_time e now) m front key rest).
Proof.
  apply redone_on_key; [done|done|]. destruct (m !! key) as [[xs at_]|] eqn:Hm.
  - destruct (solid_at m key xs at_ Hs Hm) as [Hne _]. pose proof (Hd key _ Hm) as Ha. cbn [snd] in Ha.
    assert (Hpops : forall n, (n <= length xs)%nat -> redoes m (replicate n (pop_log front key)) (settle_spec m key (pop_many front n xs).1 at_).1).
    { intros n Hl. pose proof (redo_pops front key at_ m n xs Hl) as Hr. rewrite (settle_nonempty m key xs at_ Hne) in Hr. cbn [fst] in Hr. by rewrite insert_id in Hr. }
    destruct rest as [|c [|]]; [| |by apply redone_same].
    + assert (Hl : (1 <= length xs)%nat) by (destruct xs; [done|cbn; lia]). pose proof (Hpops 1%nat Hl) as Hr. cbn [pop_many replicate] in Hr. destruct (pop_end front xs) as [ys v]. cbn [fst] in Hr.
      apply (redone_settled T m key ys at_ (RpBulk v) [_; _]); [done|done|]. eapply (redoes_app _ [_] _ [_]); [done|]. auto.
    + destruct (ParseInt c) as [count|]; [|by apply redone_same]. destruct (count <? 0); [by apply redone_same|]. pose proof (Hpops (Z.to_nat (Z.min count (zlen xs))) ltac:(unfold zlen; lia)) as Hr.
      cbv zeta. destruct (pop_many front _ xs) as [ys vs]. cbn [fst] in Hr. destruct (decide (Z.to_nat (Z.min count (zlen xs)) = 0%nat)); [by apply redone_same|].
      pose proof (redone_settled T m key ys at_ (RpRaw (array vs)) (replicate (Z.to_nat (Z.min count (zlen xs))) (pop_log front key) ++ [ENotify NotifyList (popEvent front) key]) Hd Ha) as Hf.
      destruct (settle_spec m key ys at_) as [m' ev]. rewrite <- (assoc_L (++)) in Hf. apply Hf. eapply redoes_app; [done|]. auto.
  - destruct rest as [|c [|]]; try by apply redone_same. destruct (ParseInt c) as [count|]; [|by apply redone_same]. destruct (count <? 0); by apply redone_same.
Qed.

Lemma lset_redone key ix v : okv v -> redone T m (spec_lset (at_time e now) m key ix v).
Proof.
  intros Hv. apply redone_on_key; [done|done|]. destruct (ParseInt ix) as [idx|]; [|by apply redone_same]. destruct (m !! key) as [[xs at_]|] eqn:Hm; [|by apply redone_same].
  destruct (index_in idx xs) as [i|] eqn:Hi; [|by apply redone_same]. apply index_in_some in Hi as [Hi _]. destruct (solid_at m key xs at_ Hs Hm) as [_ Hsm].
  split; [|apply deadlines_insert; [done|apply (Hd key _ Hm)]]. eapply redoes_log; [intros w Hw; by apply (set_frame w m key xs)|]. auto.
Qed.

Lemma ltrim_redone key a b : redone T m (spec_ltrim (at_time e now) m key a b).
Proof.
  apply redone_on_key; [done|done|]. destruct (ParseInt a) as [start|], (ParseInt b) as [stop|]; try by apply redone_same. destruct (m !! key) as [[xs at_]|] eqn:Hm; [|by apply redone_same].
  destruct (solid_at m key xs at_ Hs Hm) as [_ Hsm]. rewrite <- clampRange_window by apply zlen_nonneg. destruct (default (1, 0) (clampRange start stop (zlen xs))) as [lo hi] eqn:Hc.
  assert (Hr : (lo <= hi -> 0 <= lo /\ hi < zlen xs) /\ 0 <= lo < two63 /\ 0 <= hi < two63).
  { unfold small in Hsm. destruct (clampRange start stop (zlen xs)) as [[lo' hi']|] eqn:Hc'; cbn in Hc; injection Hc as <- <-; [apply clampRange_some in Hc'|]; lia. }
  destruct Hr as (Hr & Hlo & Hhi). apply (redone_settled T m key _ at_ _ [_; _]); [done|apply (Hd key _ Hm)|].
  eapply redoes_log; [intros w Hw; apply (trim_frame w m key xs at_ lo hi Hw Hm Hsm); unfold is_u64; [lia..|done]|]. auto.
Qed.

Lemma lrem_redone key c v : redone T m (spec_lrem (at_time e now) m key c v).
Proof.
  apply redone_on_key; [done|done|]. destruct (ParseInt c) as [count|] eqn:Hc; [|by apply redone_same]. apply ParseInt_spec in Hc as [Hc _]. destruct (m !! key) as [[xs at_]|] eqn:Hm; [|by apply redone_same].
  pose proof (fun w Hw => rem_frame w m key xs at_ count v Hw Hm Hc) as Hf. destruct (lrem_spec xs count v) as [ys n]. cbn [fst] in Hf. destruct (0 <? n); [|by apply redone_same].
  apply (redone_settled T m key _ at_ _ [_; _]); [done|apply (Hd key _ Hm)|]. eapply redoes_log; [done|]. auto.
Qed.

Lemma linsert_redone key side pivot v : okv v -> redone T m (spec_linsert (at_time e now) m key side pivot v).
Proof.
  intros Hv. apply redone_on_key; [done|done|]. destruct (side_of side) as [before|]; [|by apply redone_same]. destruct (m !! key) as [[xs at_]|] eqn:Hm; [|by apply redone_same].
  destruct (insert_spec before pivot v xs) as [ys|] eqn:Hi; [|by apply redone_same]. split; [|apply deadlines_insert; [done|apply (Hd key _ Hm)]].
  eapply redoes_log; [intros w Hw; by apply (insert_frame w m key xs)|]. auto.
Qed.

Lemma del_redone key : redone T m (spec_del (at_time e now) m key).
Proof.
  apply redone_on_live; [done|done|]. destruct (m !! key) as [x|]; [|by apply redone_same]. split; [|by apply map_Forall_delete]. eapply redoes_log; [intros w Hw; by apply delete_frame|]. auto.
Qed.

Lemma expire_redone verb key time opts :
  match expire_request now verb time opts with inl (_, at') => at' <= now \/ T < at' | inr _ => True end ->
  redone T m (spec_expire (at_time e now) m verb key time opts).
Proof.
  unfold spec_expire. cbn [at_time e_now]. destruct (expire_request now verb time opts) as [[f at']|msg] eqn:Er; [|by intros _; apply redone_same].
  apply expire_request_ok in Er as (n & Ht & _ & _ & Hr & Ea). pose proof (target_fits _ _ _ (proj1 Ht) Hr) as Hi. rewrite <- Ea in Hi. unfold is_i64 in Hi.
  intros Ha. apply redone_on_live; [done|done|]. destruct (m !! key) as [[xs at_]|] eqn:Hm; [|by apply redone_same]. destruct (decide _); [|by apply redone_same]. destruct (Z.leb_spec at' now).
  - split; [|by apply map_Forall_delete]. eapply redoes_log; [intros w Hw; by apply delete_frame|]. auto.
  - split; [|apply deadlines_insert; [done|right; lia]]. eapply redoes_log; [intros w Hw; apply (expire_frame w m key xs at_ at' Hw Hm); lia|]. auto.
Qed.

Lemma persist_redone key : redone T m (spec_persist (at_time e now) m key).
Proof.
  apply redone_on_live; [done|done|]. destruct (m !! key) as [[xs at_]|] eqn:Hm; [|by apply redone_same]. destruct (at_ =? 0); [by apply redone_same|].
  split; [|apply deadlines_insert; [done|by left]]. eapply redoes_log; [intros w Hw; by apply (expire_frame w m key xs at_)|]. auto.
Qed.

Lemma cmd_redone c : cmd_ok now c -> timely T (now, c) -> redone T m (spec_cmd (at_time e now) m c).
Proof.
  intros Hc [_ Ht]. destruct c; cbn [spec_cmd cmd_ok snd fst] in *; try done.
  - destruct Hc as (_ & ? & ?). by apply push_redone.
  - apply pop_redone.
  - apply redone_on_key; [done|done|by apply redone_same].
  - apply redone_on_key; [done|done|by apply redone_same].
  - apply redone_on_key; [done|done|by apply redone_same].
  - apply redone_on_key; [done|done|by apply redone_same].
  - by apply lset_redone.
  - apply ltrim_redone.
  - apply lrem_redone.
  - by apply linsert_redone.
  - apply del_redone.
  - by apply expire_redone.
  - apply persist_redone.
Qed.
End commands.

(** ** Checkpoints *)

Lemma eachFrame_frames vs : Forall okv vs -> forall fuel, (length (frames vs) < fuel)%nat -> eachFrame fuel (frames vs) = Ok (Some vs).
Proof.
  induction 1 as [|v vs Hv Hvs IH]; intros [|fuel] Hf; [lia|done|lia|]. cbn [eachFrame]. rewrite frames_cons in *. pose proof (frame_pos v) as Hp. rewrite length_app in Hf. pose proof (zlen_nonneg (frames vs)).
  pose proof (dq_ok_fits (DequeLaws := native_laws (e_st e)) v Hv) as Hfit. pose proof (zlen_nonneg v). pose proof (zlen_PutUvarint (zlen v)).
  destruct (Z.eqb_spec (zlen (frame v ++ frames vs)) 0) as [E|_]; [rewrite zlen_app in E; lia|]. unfold frame. rewrite <- (assoc_L (++)), Uvarint_Put by (unfold is_u64; lia).
  rewrite !zlen_app. destruct (Z.leb_spec (zlen (PutUvarint (zlen v))) 0); [lia|]. destruct (Z.ltb_spec (zlen (PutUvarint (zlen v)) + (zlen v + zlen (frames vs)) - zlen (PutUvarint (zlen v))) (zlen v)); [lia|]. cbn [orb].
  rewrite zdrop_app_ge, Z.sub_diag, (zdrop_nonpos 0) by lia. rewrite zdrop_app_ge, Z.sub_diag, (zdrop_nonpos 0) by lia. rewrite IH by (unfold zlen in Hp; lia). cbn [fmap option_fmap option_map].
  rewrite ztake_app_ge, Z.sub_diag, (ztake_nonpos 0), app_nil_r by lia. done.
Qed.

(** The frame of one list. *)
Definition snap_of (key : bytes) (x : list bytes * Z) : effect := ESnap key (le_enc 8 (x.2 mod two64)) (packFrames x.1).

Lemma push_run_ok key at_ vs : Forall okv vs -> forall w m xs p, shows e w m -> w_m w !! key = Some p -> m !! key = Some (xs, at_) ->
  exists w', push_run spare e w p vs = Ok w' /\ shows e w' (<[key := (xs ++ vs, at_)]> m) /\ w_m w' = w_m w.
Proof.
  induction 1 as [|v vs Hv Hvs IH]; intros w m xs p H Hp Hm; cbn [push_run].
  { exists w. by rewrite app_nil_r, insert_id. }
  destruct (pushEnd_ok e w m key p xs at_ H Hp Hm spare v false Hv) as (w1 & -> & H1 & _ & Hm1). cbn [up].
  destruct (IH w1 _ (xs ++ [v]) p H1) as (w2 & -> & H2 & Hm2); [by rewrite Hm1|apply lookup_insert_eq|]. exists w2. rewrite insert_insert_eq, <- (assoc_L (++)) in H2. by rewrite Hm2.
Qed.

Lemma snap_frame w m key xs at_ : shows e w m -> Forall okv xs -> xs <> [] -> - two63 <= at_ < two63 ->
  exists w', applyListSnapshot rb spare e w key (le_enc 8 (at_ mod two64)) (packFrames xs) = Ok w' /\ shows e w' (<[key := (xs, at_)]> m).
Proof.
  intros H Ho Hne Ha. unfold applyListSnapshot. destruct (shows_drop e w m key H) as (w1 & -> & H1 & _). cbn [up]. rewrite packFrames_eq, eachFrame_frames by (done || lia).
  destruct xs as [|x xs]; [done|]. set (vs := x :: xs) in *. pose proof (shows_install e w1 _ key H1 (lookup_delete_eq _ _)) as Hi. destruct (install e w1 key) as [w2 p]. destruct Hi as (H2 & Hp2 & _). rewrite insert_delete_eq in H2.
  destruct (push_run_ok key 0 vs Ho w2 _ [] p H2 Hp2 (lookup_insert_eq _ _ _)) as (w3 & -> & H3 & Hm3). rewrite insert_insert_eq in H3. cbn [app] in H3. assert (Hp3 : w_m w3 !! key = Some p) by (by rewrite Hm3).
  destruct (obj_ok e w3 _ key p vs 0 H3 Hp3 (lookup_insert_eq _ _ _)) as (o & Eo & Hoo & Hl & _). rewrite Eo. cbn [up]. change (snapHeaderLen <=? zlen (le_enc 8 (at_ mod two64))) with true. cbv iota.
  rewrite (ztake_all 8) by (unfold zlen; rewrite length_le_enc; lia). rewrite le_dec_u64 by (unfold is_u64; pose proof (Z.mod_pos_bound at_ two64); lia). rewrite int64_of_mod by done.
  pose proof (shows_set e w3 _ key p o (mkLobj (lo_data o) (lo_clock o) at_ (lo_acct o)) vs H3 Hp3 Hoo Hl) as H4. rewrite insert_insert_eq in H4. cbn [lo_expireAt] in H4.
  destruct (shows_note rb e _ _ key p H4) as (w5 & -> & H5 & _); [done|]. by exists w5.
Qed.

(** The frames of a checkpoint that visits [keys]. *)
Definition snaps (now : Z) (m : kv) (keys : list bytes) : list effect :=
  keys ≫= (fun key => match m !! key with
                      | None => []
                      | Some x => if negb (x.2 =? 0) && (x.2 <=? now) then [] else [snap_of key x]
                      end).

Lemma Snapshot_ok now m keys : forall w, shows e w m -> exists w', Snapshot (at_time e now) w keys = Ok w' /\ shows e w' m /\ w_out w' = w_out w ++ snaps now m keys.
Proof.
  induction keys as [|key keys IH]; intros w H; cbn [Snapshot snaps mbind list_bind]; [exists w; by rewrite app_nil_r|].
  destruct (key_cases e w m key H) as [(p & xs & at_ & Hp & Hm)|[Hp Hm]]; rewrite Hp, Hm; [|by apply IH].
  destruct (obj_ok e w m key p xs at_ H Hp Hm) as (o & -> & _ & Hl & Ha). cbn [up snd at_time e_now]. rewrite Ha. destruct (negb (at_ =? 0) && (at_ <=? now)); [by apply IH|].
  unfold buildListSnapshot. change (e_st (at_time e now)) with (e_st e). rewrite (each_inv (H := native_deque (e_st e)) okv (holds (e_st e)) (lo_data o) xs Hl). cbn [up]. rewrite Ha.
  destruct (IH (fx w (snap_of key (xs, at_))) (shows_fx _ _ _ _ H)) as (w' & E & H' & Ho'). exists w'. split_and!; [done|done|]. rewrite Ho'. cbn [fx w_out]. by rewrite <- (assoc_L (++)).
Qed.

Lemma snaps_redone T now m keys : 0 <= T -> deadlines T m -> now <= T -> map_Forall (fun _ x => x.1 <> [] /\ Forall okv x.1) m -> redoes m (snaps now m keys) m.
Proof.
  intros HT Hd Hn Ho. induction keys as [|key keys IH]; [apply redoes_nil|]. cbn [snaps mbind list_bind]. destruct (m !! key) as [[xs at_]|] eqn:Hm; [|done]. cbn [fst snd].
  destruct (Ho key _ Hm) as [Hne Hok]. pose proof (Hd key _ Hm) as Ha. cbn [fst snd] in *. destruct (negb (at_ =? 0) && (at_ <=? now)); [done|]. eapply (redoes_app _ [_] m); [|done].
  intros w Hw. destruct (snap_frame w m key xs at_ Hw Hok Hne) as (w1 & E1 & H1); [lia|]. rewrite insert_id in H1 by done. exists w1. split; [|done]. cbn [Recover snap_of fst snd]. by rewrite E1.
Qed.

Lemma shows_okv w m : shows e w m -> map_Forall (fun _ x => Forall okv x.1) m.
Proof. intros H key [xs at_] Hm. destruct (shows_at e w m key xs at_ H Hm) as (p & o & _ & _ & Hl & _). by apply (list_holds_ok e (lo_data o)). Qed.

(** ** A shard's life *)

(** Commands, and checkpoints with the order in which the map is walked. *)
Inductive lstep : Type := SCmd (c : cmd) | SCheckpoint (keys : list bytes).

Definition step_ok (now : Z) (s : lstep) : Prop := match s with SCmd c => cmd_ok now c | SCheckpoint _ => True end.
Definition step_room (s : lstep) : Z := match s with SCmd c => cmd_room c | SCheckpoint _ => 0 end.
Definition steps_room (ss : list (Z * lstep)) : Z := foldr (fun x n => step_room x.2 + n) 0 ss.
Definition step_timely (T : Z) (x : Z * lstep) : Prop := match x.2 with SCmd c => timely T (x.1, c) | SCheckpoint _ => x.1 <= T end.

Fixpoint run_steps (sp : bytes -> bytes -> bytes) (w : world) (ss : list (Z * lstep)) : R world :=
  match ss with
  | [] => Ok w
  | (now, SCmd c) :: ss' => let* '(w, _) := up (exec rb spare sp (at_time e now) w c) in run_steps sp w ss'
  | (now, SCheckpoint keys) :: ss' => let* w := Snapshot (at_time e now) w keys in run_steps sp w ss'
  end.

Lemma steps_room_nonneg ss : 0 <= steps_room ss.
Proof. induction ss as [|[now s] ss IH]; [done|]. cbn [steps_room foldr snd]. fold (steps_room ss). destruct s as [c|]; cbn [step_room]; [pose proof (cmd_room_nonneg c)|]; lia. Qed.

Lemma steps_redone sp T ss : roomy sp -> 0 <= T -> Forall (fun x => step_ok x.1 x.2) ss -> Forall (step_timely T) ss ->
  forall N w m, 0 <= N -> shows e w m -> bounded N m -> deadlines T m -> N + steps_room ss < 2 ^ 62 ->
  exists w' m' evs, run_steps sp w ss = Ok w' /\ shows e w' m' /\ w_out w' = w_out w ++ evs /\ redoes m evs m' /\ bounded (N + steps_room ss) m'.
Proof.
  intros Hsp HT. induction 1 as [|[now s] ss Hc Hcs IH]; intros Ht N w m HN H Hb Hd Hr.
  { exists w, m, []. cbn. rewrite app_nil_r, Z.add_0_r. split_and!; done. }
  apply Forall_cons in Ht as [Ht Hts]. cbn [steps_room foldr fst snd] in *. fold (steps_room ss) in *. pose proof (steps_room_nonneg ss) as Hss0.
  assert (Hsol : solid m) by (apply (bounded_solid N); [done|destruct s; cbn [step_room] in Hr; [pose proof (cmd_room_nonneg c)|]; lia]).
  assert (Hgo : exists w1 m1 evs1, run_steps sp w ((now, s) :: ss) = run_steps sp w1 ss /\ shows e w1 m1 /\ w_out w1 = w_out w ++ evs1 /\ redoes m evs1 m1 /\ bounded (N + step_room s) m1 /\ deadlines T m1).
  { destruct s as [c|keys]; cbn [run_steps step_room step_ok step_timely fst snd] in *.
    - destruct (exec_ok rb spare sp (at_time e now) Hsp w m c (proj1 (shows_time e w m now) H) Hsol Hc) as (w1 & E1 & H1 & Ho1). rewrite E1. cbn [up].
      destruct (cmd_redone T now m Hd (proj1 Ht) Hsol c Hc Ht) as [Hre Hd1]. exists w1, (spec_cmd (at_time e now) m c).1.1, (spec_cmd (at_time e now) m c).2.
      split_and!; [done|by apply (shows_time e w1 _ now)|done|done|by apply spec_cmd_bounded|done].
    - destruct (Snapshot_ok now m keys w H) as (w1 & E1 & H1 & Ho1). rewrite E1. exists w1, m, (snaps now m keys). rewrite Z.add_0_r. split_and!; try done.
      apply (snaps_redone T); try done. intros k x Hx. split; [apply (Hb k x Hx)|apply (shows_okv w m H k x Hx)]. }
  destruct Hgo as (w1 & m1 & evs1 & E1 & H1 & Ho1 & Hre1 & Hb1 & Hd1).
  destruct (IH Hts (N + step_room s) w1 m1) as (w2 & m2 & evs2 & E2 & H2 & Ho2 & Hre2 & Hb2); [destruct s; cbn [step_room]; [pose proof (cmd_room_nonneg c)|]; lia|done|done|done|lia|].
  exists w2, m2, (evs1 ++ evs2). rewrite Z.add_assoc. split_and!; [by rewrite E1|done|by rewrite Ho2, Ho1, (assoc_L (++))|by eapply redoes_app|done].
Qed.
End replay.
