(* ===== verification/TreeBlocks.v ===== *)
(** The node blocks of the counted B+ tree (engine/f3/struct/tree.go): the two arenas of
    fixed-size byte blocks addressed by ordinals, their free lists, the accessors of a leaf's
    entries and of a branch's separators, children and subtree counts, and the whole arena as
    the arrays its blocks encode.

    An arena is the list of its blocks: block [o] of the code is the run of [o*size] bytes
    before it and [size] bytes.  The geometry is the one [NewTree] bakes; the other sizes of
    [newTreeSized] only serve tests. *)

From S2P Require Import Prelude Ordered.
#[local] Open Scope Z_scope.

Abbreviation P A := (res Empty_set A).

(** ** Geometry *)

Definition BranchSize : Z := 256.
Definition LeafSize : Z := 512.
Definition CountWidth : Z := 4.
Definition tagLeaf : Z := 2.
Definition tagBranch : Z := 1.
Definition leafHdr : Z := 8.
Definition branchHdr : Z := 8.
Definition entrySz : Z := 16.
Definition ordSz : Z := 4.
Definition noSplit : Z := two32 - 1.
Definition leafNone : Z := two32 - 1.

Definition ArityFor (branchSz countW : Z) : Z := (branchSz - branchHdr + 8) / (8 + ordSz + countW).
Definition LeafCapFor (leafSz : Z) : Z := (leafSz - leafHdr) / entrySz.

Definition leafCap : Z := LeafCapFor LeafSize.
Definition arity : Z := ArityFor BranchSize CountWidth.
Definition sepMax : Z := arity - 1.
Definition leafMin : Z := leafCap / 4.
Definition branchMin : Z := sepMax / 4.
Definition childOff : Z := branchHdr + sepMax * 8.
Definition countOff : Z := childOff + arity * ordSz.

(** ** The tree *)

Record Tree := mkTree {
  t_leaves : list bytes;
  t_branches : list bytes;
  t_srefs : list Z;
  t_leafFree : list Z;
  t_branchFree : list Z;
  t_nLeaf : Z;
  t_nBranch : Z;
  t_root : Z;
  t_rootIsLeaf : bool;
  t_height : Z;
  t_entries : Z;
  t_minLeaf : Z;
  t_maxLeaf : Z
}.

Definition with_leaves (t : Tree) (ls : list bytes) (free : list Z) (n : Z) : Tree :=
  mkTree ls (t_branches t) (t_srefs t) free (t_branchFree t) n (t_nBranch t) (t_root t) (t_rootIsLeaf t) (t_height t) (t_entries t) (t_minLeaf t) (t_maxLeaf t).
Definition with_branches (t : Tree) (bs : list bytes) (srefs : list Z) (free : list Z) (n : Z) : Tree :=
  mkTree (t_leaves t) bs srefs (t_leafFree t) free (t_nLeaf t) n (t_root t) (t_rootIsLeaf t) (t_height t) (t_entries t) (t_minLeaf t) (t_maxLeaf t).
Definition set_root (t : Tree) (root : Z) (isLeaf : bool) (height : Z) : Tree :=
  mkTree (t_leaves t) (t_branches t) (t_srefs t) (t_leafFree t) (t_branchFree t) (t_nLeaf t) (t_nBranch t) root isLeaf height (t_entries t) (t_minLeaf t) (t_maxLeaf t).
Definition with_entries (t : Tree) (n : Z) : Tree :=
  mkTree (t_leaves t) (t_branches t) (t_srefs t) (t_leafFree t) (t_branchFree t) (t_nLeaf t) (t_nBranch t) (t_root t) (t_rootIsLeaf t) (t_height t) n (t_minLeaf t) (t_maxLeaf t).
Definition with_edges (t : Tree) (lo hi : Z) : Tree :=
  mkTree (t_leaves t) (t_branches t) (t_srefs t) (t_leafFree t) (t_branchFree t) (t_nLeaf t) (t_nBranch t) (t_root t) (t_rootIsLeaf t) (t_height t) (t_entries t) lo hi.

(** Indexing. *)
Definition get_at {A} (l : list A) (i : Z) : P A := if i <? 0 then Panic else match l !! Z.to_nat i with Some x => Ok x | None => Panic end.
Definition ix_set {A} (l : list A) (i : Z) (x : A) : P (list A) := let* _ := get_at l i in Ok (<[Z.to_nat i := x]> l).

Definition leaf (t : Tree) (o : Z) : P bytes := get_at (t_leaves t) o.
Definition branch (t : Tree) (o : Z) : P bytes := get_at (t_branches t) o.
Definition set_leaf (t : Tree) (o : Z) (b : bytes) : P Tree := let* ls := ix_set (t_leaves t) o b in Ok (with_leaves t ls (t_leafFree t) (t_nLeaf t)).
Definition set_branch (t : Tree) (o : Z) (b : bytes) : P Tree := let* bs := ix_set (t_branches t) o b in Ok (with_branches t bs (t_srefs t) (t_branchFree t) (t_nBranch t)).

(** [copy(blk[i:j], blk[k:l])] on one block, which moves as much as the shorter side holds. *)
Definition copy_in (blk : bytes) (i j : Z) (src : bytes) : P bytes :=
  if (0 <=? i) && (i <=? j) && (j <=? zlen blk) then Ok (put blk i (ztake (j - i) src)) else Panic.

(** ** Allocation *)

Definition cleared (tag n : Z) : bytes := put8 (zeros n) 0 tag.

Definition clearLeaf (t : Tree) (o : Z) : P Tree := let* _ := leaf t o in set_leaf t o (cleared tagLeaf LeafSize).

Definition set_sref (t : Tree) (i r : Z) : P Tree := let* rs := ix_set (t_srefs t) i r in Ok (with_branches t (t_branches t) rs (t_branchFree t) (t_nBranch t)).

Fixpoint clear_srefs (n : nat) (t : Tree) (i : Z) : P Tree :=
  match n with O => Ok t | S n' => let* t := set_sref t i 0 in clear_srefs n' t (i + 1) end.

Definition clearBranch (t : Tree) (o : Z) : P Tree :=
  let* _ := branch t o in
  let* t := set_branch t o (cleared tagBranch BranchSize) in
  clear_srefs (Z.to_nat sepMax) t (o * sepMax).

Definition allocLeaf (t : Tree) : P (Tree * Z) :=
  match last (t_leafFree t) with
  | Some o =>
      let* t := clearLeaf (with_leaves t (t_leaves t) (take (length (t_leafFree t) - 1) (t_leafFree t)) (t_nLeaf t)) o in
      Ok (t, o)
  | None =>
      let o := t_nLeaf t in
      let* t := clearLeaf (with_leaves t (t_leaves t ++ [zeros LeafSize]) (t_leafFree t) (cast32 (t_nLeaf t + 1))) o in
      Ok (t, o)
  end.

Definition allocBranch (t : Tree) : P (Tree * Z) :=
  match last (t_branchFree t) with
  | Some o =>
      let* t := clearBranch (with_branches t (t_branches t) (t_srefs t) (take (length (t_branchFree t) - 1) (t_branchFree t)) (t_nBranch t)) o in
      Ok (t, o)
  | None =>
      let o := t_nBranch t in
      let* t := clearBranch (with_branches t (t_branches t ++ [zeros BranchSize]) (t_srefs t ++ replicate (Z.to_nat sepMax) 0) (t_branchFree t) (cast32 (t_nBranch t + 1))) o in
      Ok (t, o)
  end.

Definition freeLeaf (t : Tree) (o : Z) : Tree := with_leaves t (t_leaves t) (t_leafFree t ++ [o]) (t_nLeaf t).
Definition freeBranch (t : Tree) (o : Z) : Tree := with_branches t (t_branches t) (t_srefs t) (t_branchFree t ++ [o]) (t_nBranch t).

(** ** Leaf accessors *)

Definition lNent (t : Tree) (o : Z) : P Z := let* b := leaf t o in at8 b 1.
Definition lSetNent (t : Tree) (o n : Z) : P Tree := let* b := leaf t o in set_leaf t o (put8 b 1 n).
Definition lNext (t : Tree) (o : Z) : P Z := let* b := leaf t o in u32at b 4.
Definition lSetNext (t : Tree) (o v : Z) : P Tree := let* b := leaf t o in set_leaf t o (put32 b 4 v).
Definition lScore (t : Tree) (o i : Z) : P Z := let* b := leaf t o in u64at b (leafHdr + i * entrySz).
Definition lRef (t : Tree) (o i : Z) : P Z := let* b := leaf t o in u32at b (leafHdr + i * entrySz + 8).

Definition lSetEnt (t : Tree) (o i score ref : Z) : P Tree :=
  let* b := leaf t o in
  let* _ := u64at b (leafHdr + i * entrySz) in
  let* _ := u32at b (leafHdr + i * entrySz + 8) in
  set_leaf t o (put32 (put64 b (leafHdr + i * entrySz) score) (leafHdr + i * entrySz + 8) ref).

(** ** Branch accessors *)

Definition bNkeys (t : Tree) (o : Z) : P Z := let* b := branch t o in at8 b 1.
Definition bSetNkeys (t : Tree) (o n : Z) : P Tree := let* b := branch t o in set_branch t o (put8 b 1 n).
Definition bSepScore (t : Tree) (o i : Z) : P Z := let* b := branch t o in u64at b (branchHdr + i * 8).
Definition bSepRef (t : Tree) (o i : Z) : P Z := get_at (t_srefs t) (o * sepMax + i).

Definition bSetSep (t : Tree) (o i score ref : Z) : P Tree :=
  let* b := branch t o in
  let* _ := u64at b (branchHdr + i * 8) in
  let* t := set_branch t o (put64 b (branchHdr + i * 8) score) in
  set_sref t (o * sepMax + i) ref.

Definition bMoveSep (t : Tree) (o dst src : Z) : P Tree :=
  let* s := bSepScore t o src in
  let* r := bSepRef t o src in
  bSetSep t o dst s r.

Definition bChild (t : Tree) (o i : Z) : P Z := let* b := branch t o in u32at b (childOff + i * ordSz).
Definition bSetChild (t : Tree) (o i v : Z) : P Tree :=
  let* b := branch t o in
  let* _ := u32at b (childOff + i * ordSz) in
  set_branch t o (put32 b (childOff + i * ordSz) v).
Definition bCount (t : Tree) (o i : Z) : P Z := let* b := branch t o in u32at b (countOff + i * CountWidth).
Definition bSetCount (t : Tree) (o i v : Z) : P Tree :=
  let* b := branch t o in
  let* _ := u32at b (countOff + i * CountWidth) in
  set_branch t o (put32 b (countOff + i * CountWidth) v).

(** The counts of the children before [c], two to a 64-bit load. *)
Fixpoint packed_counts (n : nat) (b : bytes) (i packed : Z) : P Z :=
  match n with
  | O => Ok packed
  | S n' => let* w := u64at b (countOff + i * 4) in packed_counts n' b (i + 2) (add64 packed w)
  end.

Definition bCountPrefix (t : Tree) (o c : Z) : P Z :=
  let* b := branch t o in
  let* packed := packed_counts (Z.to_nat (c / 2)) b 0 0 in
  let acc := add64 (Z.land packed 4294967295) (Z.shiftr packed 32) in
  let i := c / 2 * 2 in
  if i <? c then let* w := u32at b (countOff + i * 4) in Ok (add64 acc w) else Ok acc.

Fixpoint sum_counts_from (n : nat) (t : Tree) (o i s : Z) : P Z :=
  match n with
  | O => Ok s
  | S n' => let* c := bCount t o i in sum_counts_from n' t o (i + 1) (add64 s c)
  end.

Definition subtreeCount (t : Tree) (o : Z) (isLeaf : bool) : P Z :=
  if isLeaf then lNent t o
  else let* k := bNkeys t o in sum_counts_from (Z.to_nat (k + 1)) t o 0 0.
