(* ===== verification/TreeArrays.v ===== *)
(** The node blocks of the counted tree as the arrays they encode: a leaf is a count, a link and
    thirty-one entry slots, a branch a key count and arrays of separators, member references,
    children and counts.  [enc] lays an arena of such nodes out in bytes; each accessor of
    [TreeBlocks] reads or writes one cell of it and nothing else, so no two fields of a block
    overlap. *)

From S2P Require Import Prelude Ordered TreeBlocks.
#[local] Open Scope Z_scope.

(** ** Cells of equal width *)

Section cells.
Context (w : nat).
Implicit Types (cs : list bytes) (c : bytes).

Lemma zlen_cells cs : Forall (fun c => length c = w) cs -> zlen (concat cs) = zlen cs * Z.of_nat w.
Proof. induction 1 as [|c cs Hc _ IH]; [done|]. cbn [concat]. rewrite zlen_app, IH, zlen_cons. unfold zlen at 1. rewrite Hc. lia. Qed.

Lemma cells_split cs i c : Forall (fun c => length c = w) cs -> cs !! i = Some c -> concat cs = concat (take i cs) ++ c ++ concat (drop (S i) cs) /\ zlen (concat (take i cs)) = Z.of_nat i * Z.of_nat w.
Proof.
  intros Hw Hi. split.
  - rewrite <- (take_drop_middle cs i c Hi) at 1. by rewrite concat_app.
  - rewrite zlen_cells by (by apply Forall_take). unfold zlen. apply lookup_lt_Some in Hi. rewrite length_take. lia.
Qed.
End cells.

Lemma put_mid (H c T : bytes) off c' : off = zlen H -> zlen c = zlen c' -> put (H ++ c ++ T) off c' = H ++ c' ++ T.
Proof.
  intros -> Hc. pose proof (zlen_nonneg H). pose proof (zlen_nonneg T). rewrite put_splice by (rewrite ?zlen_app; lia). rewrite ztake_app_le, ztake_all by lia. do 2 f_equal.
  rewrite zdrop_app_ge by (rewrite <- Hc; pose proof (zlen_nonneg c); lia). rewrite zdrop_app_ge by lia. rewrite zdrop_nonpos by lia. done.
Qed.

Lemma uint_mid n (H T : bytes) v off : off = zlen H -> 0 <= v < 256 ^ Z.of_nat n -> uint_at n (H ++ le_enc n v ++ T) off = (Ok v : P Z).
Proof.
  intros -> Hv. pose proof (zlen_nonneg H). pose proof (zlen_nonneg T). rewrite uint_at_ok by (rewrite ?zlen_app, ?zlen_le_enc; lia). rewrite sl_mid by (rewrite ?zlen_le_enc; lia). by rewrite le_dec_enc.
Qed.

(** ** Nodes *)

Abbreviation ent := (Z * Z)%type.

Record aleaf := mkAleaf { al_n : Z; al_next : Z; al_ents : list ent }.
Record abranch := mkAbranch { ab_k : Z; ab_seps : list Z; ab_refs : list Z; ab_kids : list Z; ab_cnts : list Z }.

Definition enc_ent (e : ent) : bytes := le_enc 8 e.1 ++ le_enc 4 e.2 ++ zeros 4.
Definition enc_leaf (l : aleaf) : bytes := le_enc 1 tagLeaf ++ le_enc 1 (al_n l) ++ zeros 2 ++ le_enc 4 (al_next l) ++ concat (map enc_ent (al_ents l)) ++ zeros 8.
Definition enc_branch (b : abranch) : bytes :=
  le_enc 1 tagBranch ++ le_enc 1 (ab_k b) ++ zeros 6 ++ concat (map (le_enc 8) (ab_seps b)) ++ concat (map (le_enc 4) (ab_kids b)) ++ concat (map (le_enc 4) (ab_cnts b)).

Definition ent_ok (e : ent) : Prop := is_u64 e.1 /\ is_u32 e.2.

Record leaf_ok (l : aleaf) : Prop := {
  lo_n : is_u8 (al_n l);
  lo_next : is_u32 (al_next l);
  lo_size : length (al_ents l) = 31%nat;
  lo_ents : Forall ent_ok (al_ents l)
}.

Record branch_ok (b : abranch) : Prop := {
  bo_k : is_u8 (ab_k b);
  bo_seps : length (ab_seps b) = 15%nat /\ Forall is_u64 (ab_seps b);
  bo_refs : length (ab_refs b) = 15%nat /\ Forall is_u32 (ab_refs b);
  bo_kids : length (ab_kids b) = 16%nat /\ Forall is_u32 (ab_kids b);
  bo_cnts : length (ab_cnts b) = 16%nat /\ Forall is_u32 (ab_cnts b)
}.

Definition clear_leaf : aleaf := mkAleaf 0 0 (replicate 31 (0, 0)).
Definition clear_branch : abranch := mkAbranch 0 (replicate 15 0) (replicate 15 0) (replicate 16 0) (replicate 16 0).

Lemma clear_leaf_ok : leaf_ok clear_leaf.
Proof. split; cbn [clear_leaf clear_branch al_n al_next al_ents ab_k ab_seps ab_refs ab_kids ab_cnts]; [unfold is_u8; lia|unfold is_u32; lia|done|]. apply Forall_replicate. split; cbn; unfold is_u64, is_u32; lia. Qed.
Lemma clear_branch_ok : branch_ok clear_branch.
Proof. split; cbn [clear_leaf clear_branch al_n al_next al_ents ab_k ab_seps ab_refs ab_kids ab_cnts]; [unfold is_u8; lia|..]; (split; [done|]; apply Forall_replicate; unfold is_u64, is_u32; lia). Qed.
Lemma enc_clear_leaf : enc_leaf clear_leaf = cleared tagLeaf LeafSize.
Proof. by vm_compute. Qed.
Lemma enc_clear_branch : enc_branch clear_branch = cleared tagBranch BranchSize.
Proof. by vm_compute. Qed.

(** ** Arenas *)

Record arena := mkArena { ar_leaves : list aleaf; ar_branches : list abranch; ar_rest : Tree }.

Definition enc (a : arena) : Tree :=
  let t := ar_rest a in
  mkTree (enc_leaf <$> ar_leaves a) (enc_branch <$> ar_branches a) (concat (ab_refs <$> ar_branches a)) (t_leafFree t) (t_branchFree t) (t_nLeaf t) (t_nBranch t)
    (t_root t) (t_rootIsLeaf t) (t_height t) (t_entries t) (t_minLeaf t) (t_maxLeaf t).

Record arena_ok (a : arena) : Prop := {
  ao_leaves : Forall leaf_ok (ar_leaves a);
  ao_branches : Forall branch_ok (ar_branches a);
  ao_nLeaf : t_nLeaf (ar_rest a) = zlen (ar_leaves a);
  ao_nBranch : t_nBranch (ar_rest a) = zlen (ar_branches a)
}.

Definition leaf_of (a : arena) (o : Z) : option aleaf := if o <? 0 then None else ar_leaves a !! Z.to_nat o.
Definition branch_of (a : arena) (o : Z) : option abranch := if o <? 0 then None else ar_branches a !! Z.to_nat o.
Definition upd_leaf (a : arena) (o : Z) (l : aleaf) : arena := mkArena (<[Z.to_nat o := l]> (ar_leaves a)) (ar_branches a) (ar_rest a).
Definition upd_branch (a : arena) (o : Z) (b : abranch) : arena := mkArena (ar_leaves a) (<[Z.to_nat o := b]> (ar_branches a)) (ar_rest a).

Lemma leaf_of_ok a o l : arena_ok a -> leaf_of a o = Some l -> leaf_ok l.
Proof. intros H. unfold leaf_of. destruct (o <? 0); [done|]. intros Hl. eapply Forall_lookup_1; [apply H|done]. Qed.
Lemma branch_of_ok a o b : arena_ok a -> branch_of a o = Some b -> branch_ok b.
Proof. intros H. unfold branch_of. destruct (o <? 0); [done|]. intros Hl. eapply Forall_lookup_1; [apply H|done]. Qed.

Lemma leaf_of_range a o l : leaf_of a o = Some l -> 0 <= o < zlen (ar_leaves a).
Proof. unfold leaf_of, zlen. destruct (Z.ltb_spec o 0); [done|]. intros Hl%lookup_lt_Some. lia. Qed.
Lemma branch_of_range a o b : branch_of a o = Some b -> 0 <= o < zlen (ar_branches a).
Proof. unfold branch_of, zlen. destruct (Z.ltb_spec o 0); [done|]. intros Hl%lookup_lt_Some. lia. Qed.

Lemma leaf_of_upd a o l l0 : leaf_of a o = Some l0 -> leaf_of (upd_leaf a o l) o = Some l.
Proof. unfold leaf_of, upd_leaf. destruct (o <? 0); [done|]. intros Hl%lookup_lt_Some. cbn. by apply list_lookup_insert_eq. Qed.
Lemma leaf_of_upd_ne a o o' l : 0 <= o -> o <> o' -> leaf_of (upd_leaf a o l) o' = leaf_of a o'.
Proof. unfold leaf_of, upd_leaf. intros Ho Hne. destruct (Z.ltb_spec o' 0); [done|]. cbn. apply list_lookup_insert_ne. lia. Qed.
Lemma branch_of_upd a o b b0 : branch_of a o = Some b0 -> branch_of (upd_branch a o b) o = Some b.
Proof. unfold branch_of, upd_branch. destruct (o <? 0); [done|]. intros Hl%lookup_lt_Some. cbn. by apply list_lookup_insert_eq. Qed.
Lemma branch_of_upd_ne a o o' b : 0 <= o -> o <> o' -> branch_of (upd_branch a o b) o' = branch_of a o'.
Proof. unfold branch_of, upd_branch. intros Ho Hne. destruct (Z.ltb_spec o' 0); [done|]. cbn. apply list_lookup_insert_ne. lia. Qed.

Lemma arena_ok_upd_leaf a o l : arena_ok a -> leaf_ok l -> arena_ok (upd_leaf a o l).
Proof. intros [H1 H2 H3 H4] Hl. split; cbn; [by apply Forall_insert|done| |done]. rewrite H3. unfold zlen. by rewrite length_insert. Qed.
Lemma arena_ok_upd_branch a o b : arena_ok a -> branch_ok b -> arena_ok (upd_branch a o b).
Proof. intros [H1 H2 H3 H4] Hl. split; cbn; [done|by apply Forall_insert|done|]. rewrite H4. unfold zlen. by rewrite length_insert. Qed.

(** ** Reading and replacing a block *)

Lemma leaf_enc a o l : leaf_of a o = Some l -> leaf (enc a) o = Ok (enc_leaf l).
Proof. unfold leaf_of, leaf, get_at. destruct (o <? 0); [done|]. intros Hl. cbn. by rewrite list_lookup_fmap, Hl. Qed.
Lemma branch_enc a o b : branch_of a o = Some b -> branch (enc a) o = Ok (enc_branch b).
Proof. unfold branch_of, branch, get_at. destruct (o <? 0); [done|]. intros Hl. cbn. by rewrite list_lookup_fmap, Hl. Qed.

Lemma set_leaf_enc a o l l' : leaf_of a o = Some l -> set_leaf (enc a) o (enc_leaf l') = Ok (enc (upd_leaf a o l')).
Proof.
  intros Hl. pose proof (leaf_enc a o l Hl) as He. unfold set_leaf, ix_set. unfold leaf in He. rewrite He. unfold enc, with_leaves, upd_leaf. cbn [t_leaves t_branches t_srefs t_leafFree t_branchFree t_nLeaf t_nBranch t_root t_rootIsLeaf t_height t_entries t_minLeaf t_maxLeaf ar_leaves ar_branches ar_rest]. by rewrite list_fmap_insert.
Qed.

Lemma set_branch_enc a o b b' : branch_of a o = Some b -> ab_refs b' = ab_refs b -> set_branch (enc a) o (enc_branch b') = Ok (enc (upd_branch a o b')).
Proof.
  intros Hl Hr. pose proof (branch_enc a o b Hl) as He. unfold set_branch, ix_set. unfold branch in He. rewrite He. unfold enc, with_branches, upd_branch. cbn [t_leaves t_branches t_srefs t_leafFree t_branchFree t_nLeaf t_nBranch t_root t_rootIsLeaf t_height t_entries t_minLeaf t_maxLeaf ar_leaves ar_branches ar_rest].
  rewrite !list_fmap_insert, Hr, (list_insert_id (ab_refs <$> _)); [done|]. unfold branch_of in Hl. destruct (o <? 0); [done|]. by rewrite list_lookup_fmap, Hl.
Qed.

(** ** Leaf accessors *)

Definition set_n (l : aleaf) (n : Z) : aleaf := mkAleaf n (al_next l) (al_ents l).
Definition set_next (l : aleaf) (v : Z) : aleaf := mkAleaf (al_n l) v (al_ents l).
Definition set_ents (l : aleaf) (es : list ent) : aleaf := mkAleaf (al_n l) (al_next l) es.

Definition leaf_head (l : aleaf) : bytes := le_enc 1 tagLeaf ++ le_enc 1 (al_n l) ++ zeros 2 ++ le_enc 4 (al_next l).

Lemma zlen_leaf_head l : zlen (leaf_head l) = 8.
Proof. done. Qed.

Lemma enc_leaf_eq l : enc_leaf l = leaf_head l ++ concat (map enc_ent (al_ents l)) ++ zeros 8.
Proof. done. Qed.

Lemma ent_cells es : Forall (fun c => length c = 16%nat) (map enc_ent es).
Proof. induction es as [|e es IH]; by constructor. Qed.

Lemma zlen_enc_leaf l : length (al_ents l) = 31%nat -> zlen (enc_leaf l) = 512.
Proof. intros H. rewrite enc_leaf_eq, !zlen_app, (zlen_cells 16) by apply ent_cells. unfold zlen at 2. rewrite length_map, H. done. Qed.

(** The block around entry [i]. *)
Lemma enc_leaf_split l i e : al_ents l !! i = Some e ->
  exists H T, enc_leaf l = H ++ enc_ent e ++ T /\ zlen H = leafHdr + Z.of_nat i * entrySz /\ forall e', enc_leaf (set_ents l (<[i := e']> (al_ents l))) = H ++ enc_ent e' ++ T.
Proof.
  intros Hi. assert (Hm : map enc_ent (al_ents l) !! i = Some (enc_ent e)) by (change (map enc_ent (al_ents l)) with (enc_ent <$> al_ents l); by rewrite list_lookup_fmap, Hi).
  destruct (cells_split 16 _ i _ (ent_cells _) Hm) as [E1 E2]. exists (leaf_head l ++ concat (take i (map enc_ent (al_ents l)))), (concat (drop (S i) (map enc_ent (al_ents l))) ++ zeros 8).
  split_and!.
  - by rewrite enc_leaf_eq, E1, <- !(assoc_L (++)).
  - rewrite zlen_app, E2, zlen_leaf_head. done.
  - intros e'. rewrite enc_leaf_eq. cbn [set_ents al_ents]. assert (Hm' : map enc_ent (<[i := e']> (al_ents l)) !! i = Some (enc_ent e')).
    { change (map enc_ent) with (fmap (M := list) enc_ent). rewrite list_lookup_fmap, list_lookup_insert_eq; [done|]. by eapply lookup_lt_Some. }
    destruct (cells_split 16 _ i _ (ent_cells _) Hm') as [-> _]. change (map enc_ent) with (fmap (M := list) enc_ent). rewrite list_fmap_insert, take_insert_ge, drop_insert_lt by lia. by rewrite <- !(assoc_L (++)).
Qed.

Ltac pow := change (256 ^ Z.of_nat 1) with 256; change (256 ^ Z.of_nat 4) with two32; change (256 ^ Z.of_nat 8) with two64.

Section leaf_access.
Context (a : arena) (o : Z) (l : aleaf).
Hypothesis (Hl : leaf_of a o = Some l) (Hok : leaf_ok l).

Lemma lNent_enc : lNent (enc a) o = Ok (al_n l).
Proof. unfold lNent. rewrite (leaf_enc _ _ _ Hl). apply (uint_mid 1 (le_enc 1 tagLeaf)); [done|]. pow. apply Hok. Qed.

Lemma lSetNent_enc n : lSetNent (enc a) o n = Ok (enc (upd_leaf a o (set_n l n))).
Proof.
  unfold lSetNent. rewrite (leaf_enc _ _ _ Hl), <- (set_leaf_enc _ _ _ (set_n l n) Hl). by f_equal.
Qed.

Lemma lNext_enc : lNext (enc a) o = Ok (al_next l).
Proof.
  unfold lNext. rewrite (leaf_enc _ _ _ Hl). apply (uint_mid 4 (le_enc 1 tagLeaf ++ le_enc 1 (al_n l) ++ zeros 2)); [done|]. pow. apply Hok.
Qed.

Lemma lSetNext_enc v : lSetNext (enc a) o v = Ok (enc (upd_leaf a o (set_next l v))).
Proof.
  unfold lSetNext. rewrite (leaf_enc _ _ _ Hl), <- (set_leaf_enc _ _ _ (set_next l v) Hl).
  assert (put32 (enc_leaf l) 4 v = enc_leaf (set_next l v)) as -> by (by apply (put_mid (le_enc 1 tagLeaf ++ le_enc 1 (al_n l) ++ zeros 2) (le_enc 4 (al_next l)))). done.
Qed.

Section entry.
Context (i : Z) (e : ent).
Hypothesis (Hi : al_ents l !! Z.to_nat i = Some e) (H0 : 0 <= i).

Lemma ent_range : ent_ok e.
Proof. eapply Forall_lookup_1; [apply Hok|exact Hi]. Qed.

Lemma lScore_enc : lScore (enc a) o i = Ok e.1.
Proof.
  unfold lScore. rewrite (leaf_enc _ _ _ Hl). destruct (enc_leaf_split l _ e Hi) as (H & T & -> & Hz & _). unfold enc_ent. rewrite <- !(assoc_L (++)).
  apply (uint_mid 8); [by rewrite Hz, Z2Nat.id|]. pow. apply ent_range.
Qed.

Lemma lRef_enc : lRef (enc a) o i = Ok e.2.
Proof.
  unfold lRef. rewrite (leaf_enc _ _ _ Hl). destruct (enc_leaf_split l _ e Hi) as (H & T & -> & Hz & _). unfold enc_ent. rewrite <- !(assoc_L (++)), (assoc_L (++) H).
  apply (uint_mid 4); [by rewrite zlen_app, zlen_le_enc, Hz, Z2Nat.id|]. pow. apply ent_range.
Qed.

Lemma lSetEnt_enc s r : lSetEnt (enc a) o i s r = Ok (enc (upd_leaf a o (set_ents l (<[Z.to_nat i := (s, r)]> (al_ents l))))).
Proof.
  pose proof lScore_enc as Hs. pose proof lRef_enc as Hr. unfold lSetEnt, lScore, lRef in *. rewrite (leaf_enc _ _ _ Hl) in *. rewrite Hs, Hr. rewrite <- (set_leaf_enc _ _ _ _ Hl). f_equal.
  destruct (enc_leaf_split l _ e Hi) as (H & T & -> & Hz & ->). rewrite Z2Nat.id in Hz by done. unfold enc_ent, put64, put32. rewrite <- !(assoc_L (++)). rewrite put_mid by (try rewrite Hz; done).
  rewrite (assoc_L (++) H (le_enc 8 (s, r).1)). rewrite put_mid; [by rewrite <- !(assoc_L (++))|rewrite zlen_app, Hz, zlen_le_enc; done|done].
Qed.
End entry.
End leaf_access.

(** ** Runs of entries *)

Lemma ents_app_split es i j : (i <= j)%nat -> (j <= length es)%nat ->
  concat (map enc_ent es) = concat (map enc_ent (take i es)) ++ concat (map enc_ent (take (j - i) (drop i es))) ++ concat (map enc_ent (drop j es)).
Proof.
  intros Hij Hj. rewrite <- !concat_app, <- !map_app. do 2 f_equal. rewrite <- (take_drop i es) at 1. f_equal. rewrite <- (take_drop (j - i) (drop i es)) at 1. f_equal. rewrite drop_drop. f_equal. lia.
Qed.

Lemma zlen_ents es : zlen (concat (map enc_ent es)) = zlen es * 16.
Proof. rewrite (zlen_cells 16) by apply ent_cells. unfold zlen. by rewrite length_map. Qed.

Lemma slice_ents l i j : length (al_ents l) = 31%nat -> 0 <= i <= j -> j <= 31 ->
  slice (enc_leaf l) (leafHdr + i * entrySz) (leafHdr + j * entrySz) = (Ok (concat (map enc_ent (sl (al_ents l) i (j - i)))) : P bytes).
Proof.
  intros Hl Hij Hj. unfold leafHdr, entrySz. rewrite slice_ok by (rewrite ?zlen_enc_leaf; lia). f_equal. rewrite enc_leaf_eq, (ents_app_split (al_ents l) (Z.to_nat i) (Z.to_nat j)) by lia.
  rewrite <- !(assoc_L (++)), (assoc_L (++) (leaf_head l)). unfold sl at 2. rewrite ztake_take, zdrop_drop. replace (Z.to_nat (j - i)) with (Z.to_nat j - Z.to_nat i)%nat by lia. apply sl_mid.
  - rewrite zlen_app, zlen_ents, zlen_leaf_head. unfold zlen. rewrite length_take. lia.
  - rewrite zlen_ents. unfold zlen. rewrite length_take, length_drop. lia.
Qed.

Lemma put_ents l i xs : length (al_ents l) = 31%nat -> 0 <= i -> i + zlen xs <= 31 ->
  put (enc_leaf l) (leafHdr + i * entrySz) (concat (map enc_ent xs)) = enc_leaf (set_ents l (take (Z.to_nat i) (al_ents l) ++ xs ++ drop (Z.to_nat i + length xs) (al_ents l))).
Proof.
  intros Hl Hi Hx. unfold zlen in Hx. unfold leafHdr, entrySz. rewrite !enc_leaf_eq. cbn [set_ents al_ents]. rewrite (ents_app_split (al_ents l) (Z.to_nat i) (Z.to_nat i + length xs)) by lia. rewrite !map_app, !concat_app.
  rewrite <- !(assoc_L (++)), (assoc_L (++) (leaf_head l)). rewrite put_mid.
  - by rewrite <- !(assoc_L (++)).
  - rewrite zlen_app, zlen_ents, zlen_leaf_head. unfold zlen. rewrite length_take. lia.
  - rewrite !zlen_ents. unfold zlen. rewrite length_take, length_drop. lia.
Qed.

(** ** Branch accessors *)

Lemma le_cells w xs : Forall (fun c => length c = w) (map (le_enc w) xs).
Proof. induction xs as [|x xs IH]; constructor; [apply length_le_enc|done]. Qed.

Section array.
Context (w : nat) (H T : bytes) (xs : list Z) (i v : Z).
Hypothesis (Hi : xs !! Z.to_nat i = Some v) (H0 : 0 <= i).

Lemma array_split : exists H' T', H ++ concat (map (le_enc w) xs) ++ T = H' ++ le_enc w v ++ T' /\ zlen H' = zlen H + i * Z.of_nat w
  /\ forall u, H ++ concat (map (le_enc w) (<[Z.to_nat i := u]> xs)) ++ T = H' ++ le_enc w u ++ T'.
Proof.
  assert (Hm : forall ys u, ys !! Z.to_nat i = Some u -> map (le_enc w) ys !! Z.to_nat i = Some (le_enc w u)) by (intros ys u Hu; change (map (le_enc w) ys) with (le_enc w <$> ys); by rewrite list_lookup_fmap, Hu).
  destruct (cells_split w _ _ _ (le_cells w _) (Hm _ _ Hi)) as [E1 E2]. exists (H ++ concat (take (Z.to_nat i) (map (le_enc w) xs))), (concat (drop (S (Z.to_nat i)) (map (le_enc w) xs)) ++ T). split_and!.
  - by rewrite E1, <- !(assoc_L (++)).
  - rewrite zlen_app, E2. lia.
  - intros u. assert (Hu : <[Z.to_nat i := u]> xs !! Z.to_nat i = Some u) by (apply list_lookup_insert_eq; by eapply lookup_lt_Some).
    destruct (cells_split w _ _ _ (le_cells w _) (Hm _ _ Hu)) as [-> _]. change (map (le_enc w)) with (fmap (M := list) (le_enc w)). rewrite list_fmap_insert, take_insert_ge, drop_insert_lt by lia. by rewrite <- !(assoc_L (++)).
Qed.

Lemma array_get off : off = zlen H + i * Z.of_nat w -> 0 <= v < 256 ^ Z.of_nat w -> uint_at w (H ++ concat (map (le_enc w) xs) ++ T) off = (Ok v : P Z).
Proof. intros -> Hv. destruct array_split as (H' & T' & -> & Hz & _). by apply uint_mid. Qed.

Lemma array_put off u : off = zlen H + i * Z.of_nat w -> put (H ++ concat (map (le_enc w) xs) ++ T) off (le_enc w u) = H ++ concat (map (le_enc w) (<[Z.to_nat i := u]> xs)) ++ T.
Proof. intros ->. destruct array_split as (H' & T' & -> & Hz & ->). apply put_mid; [done|]. by rewrite !zlen_le_enc. Qed.
End array.

Definition set_k (b : abranch) (k : Z) : abranch := mkAbranch k (ab_seps b) (ab_refs b) (ab_kids b) (ab_cnts b).
Definition set_sep (b : abranch) (i s r : Z) : abranch := mkAbranch (ab_k b) (<[Z.to_nat i := s]> (ab_seps b)) (<[Z.to_nat i := r]> (ab_refs b)) (ab_kids b) (ab_cnts b).
Definition set_kid (b : abranch) (i v : Z) : abranch := mkAbranch (ab_k b) (ab_seps b) (ab_refs b) (<[Z.to_nat i := v]> (ab_kids b)) (ab_cnts b).
Definition set_cnt (b : abranch) (i v : Z) : abranch := mkAbranch (ab_k b) (ab_seps b) (ab_refs b) (ab_kids b) (<[Z.to_nat i := v]> (ab_cnts b)).

Definition bhead (b : abranch) : bytes := le_enc 1 tagBranch ++ le_enc 1 (ab_k b) ++ zeros 6.
Definition bseps (b : abranch) : bytes := concat (map (le_enc 8) (ab_seps b)).
Definition bkids (b : abranch) : bytes := concat (map (le_enc 4) (ab_kids b)).
Definition bcnts (b : abranch) : bytes := concat (map (le_enc 4) (ab_cnts b)).

Lemma enc_branch_eq b : enc_branch b = bhead b ++ bseps b ++ bkids b ++ bcnts b.
Proof. done. Qed.

Lemma zlen_array w xs : zlen (concat (map (le_enc w) xs)) = zlen xs * Z.of_nat w.
Proof. rewrite (zlen_cells w) by apply le_cells. unfold zlen. by rewrite length_map. Qed.

Lemma zlen_bhead b : zlen (bhead b) = 8.
Proof. done. Qed.
Lemma zlen_bseps b : branch_ok b -> zlen (bseps b) = 120.
Proof. intros H. unfold bseps. rewrite zlen_array. unfold zlen. rewrite (proj1 (bo_seps _ H)). done. Qed.
Lemma zlen_bkids b : branch_ok b -> zlen (bkids b) = 64.
Proof. intros H. unfold bkids. rewrite zlen_array. unfold zlen. rewrite (proj1 (bo_kids _ H)). done. Qed.

(** The flat array of member references beside the branches. *)
Lemma groups_lookup {A} (w : nat) (ls : list (list A)) o l i x : Forall (fun l => length l = w) ls -> ls !! o = Some l -> l !! i = Some x -> concat ls !! (o * w + i)%nat = Some x.
Proof.
  intros Hw Ho Hi. rewrite <- (take_drop_middle ls o l Ho), concat_app. cbn [concat]. assert (Hl : length (concat (take o ls)) = (o * w)%nat).
  { apply lookup_lt_Some in Ho. clear Hi. revert ls Hw Ho. induction o as [|o IH]; intros [|l0 ls] Hw Ho; cbn in *; try lia. apply Forall_cons in Hw as [Hl Hw]. rewrite length_app, IH by (done || lia). lia. }
  rewrite lookup_app_r by lia. replace (o * w + i - length (concat (take o ls)))%nat with i by lia. rewrite lookup_app_l; [done|]. by eapply lookup_lt_Some.
Qed.

Lemma groups_insert {A} (w : nat) (ls : list (list A)) o l i x : Forall (fun l => length l = w) ls -> ls !! o = Some l -> (i < length l)%nat -> <[(o * w + i)%nat := x]> (concat ls) = concat (<[o := <[i := x]> l]> ls).
Proof.
  revert ls. induction o as [|o IH]; intros [|l0 ls] Hw Ho Hi; cbn in *; try done.
  - injection Ho as ->. by rewrite insert_app_l.
  - apply Forall_cons in Hw as [Hl Hw]. rewrite <- IH by done. rewrite insert_app_r_alt by lia. do 2 f_equal. lia.
Qed.

Section branch_access.
Context (a : arena) (o : Z) (b : abranch).
Hypothesis (Ha : arena_ok a) (Hb : branch_of a o = Some b).
Lemma branch_here_ok : branch_ok b.
Proof. by eapply branch_of_ok. Qed.
#[local] Hint Resolve branch_here_ok : core.
#[local] Abbreviation Hok := branch_here_ok.

Lemma bNkeys_enc : bNkeys (enc a) o = Ok (ab_k b).
Proof. unfold bNkeys. rewrite (branch_enc _ _ _ Hb). apply (uint_mid 1 (le_enc 1 tagBranch)); [done|]. pow. apply Hok. Qed.

Lemma bSetNkeys_enc k : bSetNkeys (enc a) o k = Ok (enc (upd_branch a o (set_k b k))).
Proof.
  unfold bSetNkeys. rewrite (branch_enc _ _ _ Hb), <- (set_branch_enc _ _ _ (set_k b k) Hb eq_refl).
  assert (put8 (enc_branch b) 1 k = enc_branch (set_k b k)) as -> by (by apply (put_mid (le_enc 1 tagBranch) (le_enc 1 (ab_k b)))). done.
Qed.

Lemma srefs_width : Forall (fun l => length l = 15%nat) (ab_refs <$> ar_branches a).
Proof. apply Forall_fmap. eapply Forall_impl; [apply Ha|]. intros x Hx. apply (bo_refs _ Hx). Qed.

Lemma srefs_at : (ab_refs <$> ar_branches a) !! Z.to_nat o = Some (ab_refs b) /\ 0 <= o.
Proof. pose proof (branch_of_range _ _ _ Hb). split; [|lia]. pose proof Hb as Hb'. unfold branch_of in Hb'. destruct (o <? 0); [done|]. by rewrite list_lookup_fmap, Hb'. Qed.

Lemma sref_enc i r : ab_refs b !! Z.to_nat i = Some r -> 0 <= i -> get_at (t_srefs (enc a)) (o * sepMax + i) = Ok r.
Proof.
  intros Hi H0. destruct srefs_at as [Ho Ho0]. change sepMax with 15. unfold get_at. destruct (Z.ltb_spec (o * 15 + i) 0); [lia|]. replace (Z.to_nat (o * 15 + i)) with (Z.to_nat o * 15 + Z.to_nat i)%nat by lia.
  cbn [enc t_srefs]. by rewrite (groups_lookup 15 _ _ _ _ _ srefs_width Ho Hi).
Qed.

Lemma bSepRef_enc i r : ab_refs b !! Z.to_nat i = Some r -> 0 <= i -> bSepRef (enc a) o i = Ok r.
Proof. apply sref_enc. Qed.

Section cell.
Context (i : Z).
Hypothesis (H0 : 0 <= i).

Lemma bSepScore_enc s : ab_seps b !! Z.to_nat i = Some s -> bSepScore (enc a) o i = Ok s.
Proof.
  intros Hi. unfold bSepScore. rewrite (branch_enc _ _ _ Hb), enc_branch_eq. apply (array_get 8 (bhead b) _ _ i); [done|done|by rewrite zlen_bhead|]. pow. eapply (Forall_lookup_1 is_u64); [apply (bo_seps _ Hok)|exact Hi].
Qed.

Lemma bChild_enc v : ab_kids b !! Z.to_nat i = Some v -> bChild (enc a) o i = Ok v.
Proof.
  intros Hi. unfold bChild. rewrite (branch_enc _ _ _ Hb), enc_branch_eq, (assoc_L (++)). apply (array_get 4 (bhead b ++ bseps b) (bcnts b) _ i); [done|done|by rewrite zlen_app, zlen_bhead, zlen_bseps by done|].
  pow. eapply (Forall_lookup_1 is_u32); [apply (bo_kids _ Hok)|exact Hi].
Qed.

Lemma bCount_enc v : ab_cnts b !! Z.to_nat i = Some v -> bCount (enc a) o i = Ok v.
Proof.
  intros Hi. unfold bCount. rewrite (branch_enc _ _ _ Hb), enc_branch_eq, <- (app_nil_r (bcnts b)), !(assoc_L (++)), <- (assoc_L (++) _ (bcnts b)).
  apply (array_get 4 ((bhead b ++ bseps b) ++ bkids b) [] _ i); [done|done|by rewrite !zlen_app, zlen_bhead, zlen_bseps, zlen_bkids by done|]. pow. eapply (Forall_lookup_1 is_u32); [apply (bo_cnts _ Hok)|exact Hi].
Qed.

Lemma bSetChild_enc v : i < 16 -> bSetChild (enc a) o i v = Ok (enc (upd_branch a o (set_kid b i v))).
Proof.
  intros H1. destruct (lookup_lt_is_Some_2 (ab_kids b) (Z.to_nat i)) as [x Hx]; [rewrite (proj1 (bo_kids _ Hok)); lia|]. pose proof (bChild_enc x Hx) as Hc. unfold bSetChild, bChild in *. rewrite (branch_enc _ _ _ Hb) in *. rewrite Hc.
  rewrite <- (set_branch_enc _ _ _ (set_kid b i v) Hb eq_refl). assert (put32 (enc_branch b) (childOff + i * ordSz) v = enc_branch (set_kid b i v)) as ->; [|done].
  rewrite enc_branch_eq, (assoc_L (++)). unfold put32, bkids. rewrite (array_put 4 (bhead b ++ bseps b) (bcnts b) _ i x Hx H0); [by rewrite <- !(assoc_L (++))|by rewrite zlen_app, zlen_bhead, zlen_bseps by done].
Qed.

Lemma bSetCount_enc v : i < 16 -> bSetCount (enc a) o i v = Ok (enc (upd_branch a o (set_cnt b i v))).
Proof.
  intros H1. destruct (lookup_lt_is_Some_2 (ab_cnts b) (Z.to_nat i)) as [x Hx]; [rewrite (proj1 (bo_cnts _ Hok)); lia|]. pose proof (bCount_enc x Hx) as Hc. unfold bSetCount, bCount in *. rewrite (branch_enc _ _ _ Hb) in *. rewrite Hc.
  rewrite <- (set_branch_enc _ _ _ (set_cnt b i v) Hb eq_refl). assert (put32 (enc_branch b) (countOff + i * CountWidth) v = enc_branch (set_cnt b i v)) as ->; [|done].
  rewrite enc_branch_eq, <- (app_nil_r (bcnts b)), !(assoc_L (++)), <- (assoc_L (++) _ (bcnts b)). unfold put32, bcnts.
  rewrite (array_put 4 ((bhead b ++ bseps b) ++ bkids b) [] _ i x Hx H0); [by rewrite <- !(assoc_L (++)), app_nil_r|by rewrite !zlen_app, zlen_bhead, zlen_bseps, zlen_bkids by done].
Qed.

Lemma bSetSep_enc s r : i < 15 -> bSetSep (enc a) o i s r = Ok (enc (upd_branch a o (set_sep b i s r))).
Proof.
  intros H1. destruct (lookup_lt_is_Some_2 (ab_seps b) (Z.to_nat i)) as [x Hx]; [rewrite (proj1 (bo_seps _ Hok)); lia|]. destruct (lookup_lt_is_Some_2 (ab_refs b) (Z.to_nat i)) as [y Hy]; [rewrite (proj1 (bo_refs _ Hok)); lia|].
  pose proof (bSepScore_enc x Hx) as Hc. pose proof (sref_enc i y Hy H0) as Hr. unfold bSetSep, bSepScore in *. rewrite (branch_enc _ _ _ Hb) in *. rewrite Hc.
  set (b1 := mkAbranch (ab_k b) (<[Z.to_nat i := s]> (ab_seps b)) (ab_refs b) (ab_kids b) (ab_cnts b)). assert (put64 (enc_branch b) (branchHdr + i * 8) s = enc_branch b1) as ->.
  { rewrite enc_branch_eq. unfold put64, bseps. rewrite (array_put 8 (bhead b) _ _ i x Hx H0); done. }
  rewrite (set_branch_enc _ _ _ b1 Hb eq_refl). assert (Hb1 : branch_of (upd_branch a o b1) o = Some b1) by (by eapply branch_of_upd).
  destruct srefs_at as [Ho Ho0]. unfold set_sref, ix_set. assert (t_srefs (enc (upd_branch a o b1)) = t_srefs (enc a)) as Es.
  { cbn [enc upd_branch t_srefs ar_branches]. rewrite list_fmap_insert. cbn [b1 ab_refs]. f_equal. by apply list_insert_id. }
  rewrite Es, Hr. unfold enc, with_branches, upd_branch. cbn [t_leaves t_branches t_srefs t_leafFree t_branchFree t_nLeaf t_nBranch t_root t_rootIsLeaf t_height t_entries t_minLeaf t_maxLeaf ar_leaves ar_branches ar_rest].
  do 2 f_equal; [by rewrite !list_fmap_insert|]. rewrite list_fmap_insert. cbn [set_sep ab_refs]. change sepMax with 15. replace (Z.to_nat (o * 15 + i)) with (Z.to_nat o * 15 + Z.to_nat i)%nat by lia.
  apply groups_insert; [apply srefs_width|done|rewrite (proj1 (bo_refs _ Hok)); lia].
Qed.
End cell.
End branch_access.

(** The cells keep their ranges. *)
Lemma set_n_ok l n : leaf_ok l -> is_u8 n -> leaf_ok (set_n l n).
Proof. intros [? ? ? ?] ?. by split. Qed.
Lemma set_next_ok l v : leaf_ok l -> is_u32 v -> leaf_ok (set_next l v).
Proof. intros [? ? ? ?] ?. by split. Qed.
Lemma set_ents_ok l es : leaf_ok l -> length es = 31%nat -> Forall ent_ok es -> leaf_ok (set_ents l es).
Proof. intros [? ? ? ?] ? ?. by split. Qed.
Lemma set_k_ok b k : branch_ok b -> is_u8 k -> branch_ok (set_k b k).
Proof. intros [? ? ? ? ?] ?. by split. Qed.
Lemma set_sep_ok b i s r : branch_ok b -> is_u64 s -> is_u32 r -> branch_ok (set_sep b i s r).
Proof. intros [? [? ?] [? ?] ? ?] ? ?. split; cbn; try done; (split; [by rewrite length_insert|by apply Forall_insert]). Qed.
Lemma set_kid_ok b i v : branch_ok b -> is_u32 v -> branch_ok (set_kid b i v).
Proof. intros [? ? ? [? ?] ?] ?. split; cbn; try done; (split; [by rewrite length_insert|by apply Forall_insert]). Qed.
Lemma set_cnt_ok b i v : branch_ok b -> is_u32 v -> branch_ok (set_cnt b i v).
Proof. intros [? ? ? ? [? ?]] ?. split; cbn; try done; (split; [by rewrite length_insert|by apply Forall_insert]). Qed.
Create HintDb nodes.
#[export] Hint Resolve set_n_ok set_next_ok set_ents_ok set_k_ok set_sep_ok set_kid_ok set_cnt_ok arena_ok_upd_leaf arena_ok_upd_branch leaf_of_ok branch_of_ok : nodes.
