(* ===== verification/TreeOps.v ===== *)
(** The counted B+ tree (engine/f3/struct/tree.go and tree_pop.go): insertion with splits, the
    right-edge append, rank, point and positional reads, walks and cursors, deletion with
    borrowing and merging, the fused pops and the bulk load.

    A node is known by its ordinal and its level, as in the code; level 1 is the leaf level.  The
    levels of a descent are counted down structurally.  A walk over the leaf chain visits each
    leaf at most once, so it runs for at most as many leaves as the arena has. *)

From S2P Require Import Prelude Ordered TreeBlocks.
#[local] Open Scope Z_scope.

(** The bytes behind a reference, for the compares of equal scores. *)
Class Members := Member : Z -> P bytes.

(** ** Construction *)

Definition empty_arena : Tree := mkTree [] [] [] [] [] 0 0 0 true 0 0 leafNone leafNone.

Definition NewTree : P Tree :=
  let* '(t, o) := allocLeaf empty_arena in
  Ok (set_root t o true 1).

Definition Tree_Len (t : Tree) : Z := t_entries t.

Definition Bytes (t : Tree) : Z :=
  let liveLeaf := t_nLeaf t - zlen (t_leafFree t) in
  let liveBranch := t_nBranch t - zlen (t_branchFree t) in
  liveLeaf * LeafSize + liveBranch * (BranchSize + sepMax * ordSz).

Definition invalidateEdges (t : Tree) : Tree := with_edges t leafNone leafNone.

(** ** Searching a node *)

Definition cmp_key (s1 : Z) (m1 : P bytes) (s2 : Z) (m2 : bytes) : P comparison :=
  if negb (s1 =? s2) then Ok (if s1 <? s2 then Lt else Gt)
  else let* m1 := m1 in Ok (bytes_Compare m1 m2).

Definition leb_cmp (c : comparison) : bool := match c with Gt => false | _ => true end.
Definition ltb_cmp (c : comparison) : bool := match c with Lt => true | _ => false end.

(** The least position of [[lo, hi)] that does not satisfy [goes_right]. *)
Fixpoint bisect (fuel : nat) (goes_right : Z -> P bool) (lo hi : Z) : P Z :=
  match fuel with
  | O => Panic
  | S fuel' =>
      if lo <? hi then
        let mid := (lo + hi) / 2 in
        let* b := goes_right mid in
        if b then bisect fuel' goes_right (mid + 1) hi else bisect fuel' goes_right lo mid
      else Ok lo
  end.

Section search.
Context {M : Members}.

Definition cmpSep (t : Tree) (o i score : Z) (member : bytes) : P comparison :=
  let* ss := bSepScore t o i in
  cmp_key ss (let* r := bSepRef t o i in Member r) score member.

Definition cmpEntry (t : Tree) (o i score : Z) (member : bytes) : P comparison :=
  let* es := lScore t o i in
  cmp_key es (let* r := lRef t o i in Member r) score member.

Definition route (t : Tree) (o score : Z) (member : bytes) : P Z :=
  let* n := bNkeys t o in
  bisect (S (Z.to_nat n)) (fun mid => let* c := cmpSep t o mid score member in Ok (leb_cmp c)) 0 n.

Definition leafPos (t : Tree) (o score : Z) (member : bytes) : P (Z * bool) :=
  let* n := lNent t o in
  let* lo := bisect (S (Z.to_nat n)) (fun mid => let* c := cmpEntry t o mid score member in Ok (ltb_cmp c)) 0 n in
  if lo <? n then
    let* c := cmpEntry t o lo score member in
    Ok (lo, match c with Eq => true | _ => false end)
  else Ok (lo, false).
End search.

(** ** Leaves *)

Definition leafShiftIn (t : Tree) (o pos score ref : Z) : P Tree :=
  let* n := lNent t o in
  let* blk := leaf t o in
  let src := leafHdr + pos * entrySz in
  let* moved := slice blk src (leafHdr + n * entrySz) in
  let* blk := copy_in blk (src + entrySz) (leafHdr + (n + 1) * entrySz) moved in
  let* t := set_leaf t o blk in
  let* t := lSetNent t o (n + 1) in
  lSetEnt t o pos score ref.

Definition leafPrepend (t : Tree) (o score ref : Z) : P Tree :=
  let* n := lNent t o in
  let* blk := leaf t o in
  let* moved := slice blk leafHdr (leafHdr + n * entrySz) in
  let* blk := copy_in blk (leafHdr + entrySz) (leafHdr + (n + 1) * entrySz) moved in
  let* t := set_leaf t o blk in
  let* t := lSetEnt t o 0 score ref in
  lSetNent t o (n + 1).

Definition leafRemove (t : Tree) (o pos : Z) : P Tree :=
  let* n := lNent t o in
  let* blk := leaf t o in
  let dst := leafHdr + pos * entrySz in
  let* moved := slice blk (dst + entrySz) (leafHdr + n * entrySz) in
  let* blk := copy_in blk dst (leafHdr + (n - 1) * entrySz) moved in
  let* t := set_leaf t o blk in
  lSetNent t o (n - 1).

Definition splitLeaf (t : Tree) (o : Z) : P (Tree * Z) :=
  let t := invalidateEdges t in
  let* n := lNent t o in
  let half := n / 2 in
  let* '(t, rgt) := allocLeaf t in
  let* blk := leaf t o in
  let* rblk := leaf t rgt in
  let* moved := slice blk (leafHdr + half * entrySz) (leafHdr + n * entrySz) in
  let* rblk := copy_in rblk leafHdr (zlen rblk) moved in
  let* t := set_leaf t rgt rblk in
  let* t := lSetNent t rgt (n - half) in
  let* t := lSetNent t o half in
  let* nx := lNext t o in
  let* t := lSetNext t rgt nx in
  let* t := lSetNext t o rgt in
  Ok (t, rgt).

(** ** Branches *)

(** [for i := hi; i > lo; i--] and [for i := lo; i < hi; i++]. *)
Fixpoint for_down (n : nat) (i : Z) (f : Z -> Tree -> P Tree) (t : Tree) : P Tree :=
  match n with O => Ok t | S n' => let* t := f i t in for_down n' (i - 1) f t end.
Fixpoint for_up (n : nat) (i : Z) (f : Z -> Tree -> P Tree) (t : Tree) : P Tree :=
  match n with O => Ok t | S n' => let* t := f i t in for_up n' (i + 1) f t end.

(** Child [src] and its count copied to slot [dst]. *)
Definition move_kid (o dst src : Z) (t : Tree) : P Tree :=
  let* c := bChild t o src in
  let* t := bSetChild t o dst c in
  let* n := bCount t o src in
  bSetCount t o dst n.

Definition branchShiftIn (t : Tree) (o ci sepScore sepRef child cnt : Z) : P Tree :=
  let* k := bNkeys t o in
  let* t := for_down (Z.to_nat (k + 1 - ci)) (k + 1) (fun i t => move_kid o i (i - 1) t) t in
  let* t := bSetChild t o ci child in
  let* t := bSetCount t o ci cnt in
  let* t := for_down (Z.to_nat (k - (ci - 1))) k (fun i t => bMoveSep t o i (i - 1)) t in
  let* t := bSetSep t o (ci - 1) sepScore sepRef in
  bSetNkeys t o (k + 1).

(** The children from [i] on with the newcomer in its place, and the separators likewise. *)
Fixpoint gather_kids (n : nat) (t : Tree) (o i ci : Z) (new : Z * Z) : P (list (Z * Z)) :=
  match n with
  | O => Ok []
  | S n' =>
      let* c := bChild t o i in
      let* m := bCount t o i in
      let* rest := gather_kids n' t o (i + 1) ci new in
      Ok ((if i =? ci then [new] else []) ++ (c, m) :: rest)
  end.

Fixpoint gather_seps (n : nat) (t : Tree) (o i oi ci : Z) (new : Z * Z) : P (list (Z * Z)) :=
  match n with
  | O => Ok []
  | S n' =>
      if i + 1 =? ci then let* rest := gather_seps n' t o (i + 1) oi ci new in Ok (new :: rest)
      else
        let* s := bSepScore t o oi in
        let* r := bSepRef t o oi in
        let* rest := gather_seps n' t o (i + 1) (oi + 1) ci new in
        Ok ((s, r) :: rest)
  end.

Fixpoint write_kids (t : Tree) (o i : Z) (l : list (Z * Z)) : P Tree :=
  match l with
  | [] => Ok t
  | (c, n) :: l' =>
      let* t := bSetChild t o i c in
      let* t := bSetCount t o i n in
      write_kids t o (i + 1) l'
  end.

Fixpoint write_seps (t : Tree) (o i : Z) (l : list (Z * Z)) : P Tree :=
  match l with
  | [] => Ok t
  | (s, r) :: l' => let* t := bSetSep t o i s r in write_seps t o (i + 1) l'
  end.

(** The promoted separator and the new right branch, when the branch splits. *)
Definition branchInsertChild (t : Tree) (o ci sepScore sepRef child cnt : Z) : P (Tree * option (Z * Z * Z)) :=
  let* k := bNkeys t o in
  if k <? sepMax then
    let* t := branchShiftIn t o ci sepScore sepRef child cnt in
    Ok (t, None)
  else
    let* front := gather_kids (Z.to_nat (k + 1)) t o 0 ci (child, cnt) in
    let kids := front ++ (if ci =? k + 1 then [(child, cnt)] else []) in
    let* seps := gather_seps (length kids - 1) t o 0 0 ci (sepScore, sepRef) in
    let total := zlen kids in
    let mid := total / 2 in
    let* '(upScore, upRef) := get_at seps (mid - 1) in
    let* '(t, rgt) := allocBranch t in
    let* t := bSetNkeys t o (mid - 1) in
    let* t := write_kids t o 0 (ztake mid kids) in
    let* t := write_seps t o 0 (ztake (mid - 1) seps) in
    let rk := total - mid in
    let* t := bSetNkeys t rgt (rk - 1) in
    let* t := write_kids t rgt 0 (zdrop mid kids) in
    let* t := write_seps t rgt 0 (zdrop mid seps) in
    Ok (t, Some (upScore, upRef, rgt)).

(** ** Insertion *)

(** The root's two halves under a fresh branch. *)
Definition grow_root (t : Tree) (ss sr rgt : Z) : P Tree :=
  let leftLeaf := t_height t =? 1 in
  let* '(t, nr) := allocBranch t in
  let* t := bSetNkeys t nr 1 in
  let* t := bSetSep t nr 0 ss sr in
  let* t := bSetChild t nr 0 (t_root t) in
  let* t := bSetChild t nr 1 rgt in
  let* c0 := subtreeCount t (t_root t) leftLeaf in
  let* t := bSetCount t nr 0 c0 in
  let* c1 := subtreeCount t rgt leftLeaf in
  let* t := bSetCount t nr 1 c1 in
  Ok (set_root t nr false (t_height t + 1)).

(** The tail of the recursion: the child's half hung in beside it. *)
Definition hang (t : Tree) (ord c child : Z) (childLeaf : bool) (half : Z * Z * Z) : P (Tree * option (Z * Z * Z)) :=
  let '(css, csr, cright) := half in
  let* n := subtreeCount t child childLeaf in
  let* t := bSetCount t ord c n in
  let* m := subtreeCount t cright childLeaf in
  branchInsertChild t ord (c + 1) css csr cright m.

Section insertion.
Context {M : Members}.

Definition leafInsert (t : Tree) (o score : Z) (member : bytes) (ref : Z) : P (Tree * bool * option (Z * Z * Z)) :=
  let* '(pos, present) := leafPos t o score member in
  if present then Ok (t, false, None)
  else
    let* n := lNent t o in
    if n <? leafCap then
      let* t := leafShiftIn t o pos score ref in
      Ok (t, true, None)
    else
      let* '(t, rgt) := splitLeaf t o in
      let* c := cmpEntry t rgt 0 score member in
      let* t := if leb_cmp c then
                  let* '(p, _) := leafPos t rgt score member in leafShiftIn t rgt p score ref
                else
                  let* '(p, _) := leafPos t o score member in leafShiftIn t o p score ref in
      let* s := lScore t rgt 0 in
      let* r := lRef t rgt 0 in
      Ok (t, true, Some (s, r, rgt)).

Fixpoint insertInto (level : nat) (t : Tree) (ord score : Z) (member : bytes) (ref : Z) : P (Tree * bool * option (Z * Z * Z)) :=
  match level with
  | O => Panic
  | S O => leafInsert t ord score member ref
  | S ((S l) as level') =>
      let* c := route t ord score member in
      let* child := bChild t ord c in
      let childLeaf := bool_decide (l = O) in
      let* '(t, cadded, csplit) := insertInto level' t child score member ref in
      let* t := if cadded then let* n := bCount t ord c in bSetCount t ord c (n + 1) else Ok t in
      match csplit with
      | None => Ok (t, cadded, None)
      | Some half => let* '(t, up) := hang t ord c child childLeaf half in Ok (t, cadded, up)
      end
  end.

Definition Tree_Insert (t : Tree) (score : Z) (member : bytes) (ref : Z) : P (Tree * bool) :=
  let* '(t, added, split) := insertInto (Z.to_nat (t_height t)) t (t_root t) score member ref in
  let t := if added then with_entries t (add64 (t_entries t) 1) else t in
  match split with
  | None => Ok (t, added)
  | Some (ss, sr, rgt) => let* t := grow_root t ss sr rgt in Ok (t, added)
  end.
End insertion.

(** The right-edge append of a key above every other. *)
Fixpoint appendInto (level : nat) (t : Tree) (ord score ref : Z) : P (Tree * option (Z * Z * Z)) :=
  match level with
  | O => Panic
  | S O =>
      let* n := lNent t ord in
      if n <? leafCap then
        let* t := lSetEnt t ord n score ref in
        let* t := lSetNent t ord (n + 1) in
        Ok (t, None)
      else
        let* '(t, rgt) := splitLeaf t ord in
        let* rn := lNent t rgt in
        let* t := lSetEnt t rgt rn score ref in
        let* t := lSetNent t rgt (rn + 1) in
        let* s := lScore t rgt 0 in
        let* r := lRef t rgt 0 in
        Ok (t, Some (s, r, rgt))
  | S ((S l) as level') =>
      let* c := bNkeys t ord in
      let* child := bChild t ord c in
      let childLeaf := bool_decide (l = O) in
      let* '(t, csplit) := appendInto level' t child score ref in
      let* n := bCount t ord c in
      let* t := bSetCount t ord c (n + 1) in
      match csplit with
      | None => Ok (t, None)
      | Some half => hang t ord c child childLeaf half
      end
  end.

Definition Tree_Append (t : Tree) (score ref : Z) : P Tree :=
  let* '(t, split) := appendInto (Z.to_nat (t_height t)) t (t_root t) score ref in
  let t := with_entries t (add64 (t_entries t) 1) in
  match split with
  | None => Ok t
  | Some (ss, sr, rgt) => grow_root t ss sr rgt
  end.

(** ** Reads *)

Section reads.
Context {M : Members}.

Fixpoint rank_descent (level : nat) (t : Tree) (ord score : Z) (member : bytes) (acc : Z) : P (Z * Z) :=
  match level with
  | O => Panic
  | S O => Ok (ord, acc)
  | S level' =>
      let* c := route t ord score member in
      let* n := bCountPrefix t ord c in
      let* child := bChild t ord c in
      rank_descent level' t child score member (add64 acc n)
  end.

Definition Tree_Rank (t : Tree) (score : Z) (member : bytes) : P (Z * bool) :=
  let* '(ord, acc) := rank_descent (Z.to_nat (t_height t)) t (t_root t) score member 0 in
  let* '(pos, present) := leafPos t ord score member in
  Ok (add64 acc pos, present).

(** The leaf a key routes to. *)
Fixpoint key_descent (level : nat) (t : Tree) (ord score : Z) (member : bytes) : P Z :=
  match level with
  | O => Panic
  | S O => Ok ord
  | S level' =>
      let* c := route t ord score member in
      let* child := bChild t ord c in
      key_descent level' t child score member
  end.

Definition Tree_Find (t : Tree) (score : Z) (member : bytes) : P (Z * bool) :=
  let* ord := key_descent (Z.to_nat (t_height t)) t (t_root t) score member in
  let* '(pos, present) := leafPos t ord score member in
  if negb present then Ok (0, false)
  else let* r := lRef t ord pos in Ok (r, true).
End reads.

(** The child holding rank [r] of the branch, and the rank within it. *)
Fixpoint pick_child (n : nat) (t : Tree) (o c r : Z) : P (Z * Z) :=
  match n with
  | O => Ok (c, r)
  | S n' =>
      let* cc := bCount t o c in
      if r <? cc then Ok (c, r) else pick_child n' t o (c + 1) (sub64 r cc)
  end.

Definition child_at_rank (t : Tree) (o r : Z) : P (Z * Z) :=
  let* nk := bNkeys t o in pick_child (Z.to_nat (nk + 1)) t o 0 r.

Fixpoint rank_to_leaf (level : nat) (t : Tree) (ord r : Z) : P (Z * Z) :=
  match level with
  | O => Panic
  | S O => Ok (ord, r)
  | S level' =>
      let* '(c, r) := child_at_rank t ord r in
      let* child := bChild t ord c in
      rank_to_leaf level' t child r
  end.

Definition descendToRank (t : Tree) (r : Z) : P (Z * Z) := rank_to_leaf (Z.to_nat (t_height t)) t (t_root t) r.

Definition entry_at (t : Tree) (o i : Z) : P (Z * Z) := let* s := lScore t o i in let* r := lRef t o i in Ok (s, r).

Definition SelectAt (t : Tree) (r : Z) : P (option (Z * Z)) :=
  if t_entries t <=? r then Ok None
  else
    let* '(ord, off) := descendToRank t r in
    let* e := entry_at t ord off in
    Ok (Some e).

(** ** Walks

    A visitor folds a state over the entries and stops the walk with [false]. *)

Section walks.
Context {A : Type} (fn : A -> Z -> Z -> A * bool).

(** The entries [off], [off+1], ... of one leaf. *)
Fixpoint leaf_walk (n : nat) (t : Tree) (ord off : Z) (s : A) : P (A * bool) :=
  match n with
  | O => Ok (s, true)
  | S n' =>
      let* '(sc, rf) := entry_at t ord off in
      let '(s, go) := fn s sc rf in
      if go then leaf_walk n' t ord (off + 1) s else Ok (s, false)
  end.

Fixpoint chain_walk (fuel : nat) (t : Tree) (ord off : Z) (s : A) : P A :=
  match fuel with
  | O => Panic
  | S fuel' =>
      let* n := lNent t ord in
      let* '(s, go) := leaf_walk (Z.to_nat (n - off)) t ord off s in
      if negb go then Ok s
      else
        let* nx := lNext t ord in
        if nx =? 0 then Ok s else chain_walk fuel' t nx 0 s
  end.

Definition WalkFromRank (t : Tree) (start : Z) (s : A) : P A :=
  if t_entries t <=? start then Ok s
  else
    let* '(ord, off) := descendToRank t start in
    chain_walk (length (t_leaves t)) t ord off s.

Definition WalkFrom {M : Members} (t : Tree) (score : Z) (member : bytes) (s : A) : P A :=
  let* ord := key_descent (Z.to_nat (t_height t)) t (t_root t) score member in
  let* '(off, _) := leafPos t ord score member in
  chain_walk (length (t_leaves t)) t ord off s.

(** The entries [off], [off-1], ..., 0 of one leaf. *)
Fixpoint leaf_walk_rev (n : nat) (t : Tree) (ord off : Z) (s : A) : P (A * bool) :=
  match n with
  | O => Ok (s, true)
  | S n' =>
      let* '(sc, rf) := entry_at t ord off in
      let '(s, go) := fn s sc rf in
      if go then leaf_walk_rev n' t ord (off - 1) s else Ok (s, false)
  end.

Fixpoint rev_walk (fuel : nat) (t : Tree) (ord off base : Z) (s : A) : P A :=
  match fuel with
  | O => Panic
  | S fuel' =>
      let* '(s, go) := leaf_walk_rev (Z.to_nat (off + 1)) t ord off s in
      if negb go then Ok s
      else if base =? 0 then Ok s
      else
        let prev := base - 1 in
        let* '(ord, k) := descendToRank t prev in
        rev_walk fuel' t ord k (prev - k) s
  end.

Definition WalkFromRankRev (t : Tree) (start : Z) (s : A) : P A :=
  if t_entries t =? 0 then Ok s
  else
    let start := if t_entries t <=? start then t_entries t - 1 else start in
    let* '(ord, k) := descendToRank t start in
    rev_walk (length (t_leaves t)) t ord k (start - k) s.

(** [Each] also stops at an empty leaf, the lone leaf of an empty tree. *)
Fixpoint each_walk (fuel : nat) (t : Tree) (ord : Z) (s : A) : P A :=
  match fuel with
  | O => Panic
  | S fuel' =>
      let* n := lNent t ord in
      let* '(s, go) := leaf_walk (Z.to_nat n) t ord 0 s in
      if negb go then Ok s
      else
        let* nx := lNext t ord in
        if (nx =? 0) || (n =? 0) then Ok s else each_walk fuel' t nx s
  end.
End walks.

Fixpoint edge_descent (level : nat) (t : Tree) (ord : Z) (hi : bool) : P Z :=
  match level with
  | O => Panic
  | S O => Ok ord
  | S level' =>
      let* c := if hi then bNkeys t ord else Ok 0 in
      let* child := bChild t ord c in
      edge_descent level' t child hi
  end.

Definition leftmostLeaf (t : Tree) : P (Tree * Z) :=
  if negb (t_minLeaf t =? leafNone) then Ok (t, t_minLeaf t)
  else
    let* ord := edge_descent (Z.to_nat (t_height t)) t (t_root t) false in
    Ok (with_edges t ord (t_maxLeaf t), ord).

Definition rightmostLeaf (t : Tree) : P (Tree * Z) :=
  if negb (t_maxLeaf t =? leafNone) then Ok (t, t_maxLeaf t)
  else
    let* ord := edge_descent (Z.to_nat (t_height t)) t (t_root t) true in
    Ok (with_edges t (t_minLeaf t) ord, ord).

Definition Tree_Each {A} (fn : A -> Z -> Z -> A * bool) (t : Tree) (s : A) : P (Tree * A) :=
  let* '(t, ord) := leftmostLeaf t in
  let* s := each_walk fn (length (t_leaves t)) t ord s in
  Ok (t, s).

(** ** Cursors *)

Record RankCursor := mkRankCursor { rc_ord : Z; rc_off : Z; rc_n : Z; rc_ok : bool }.

Definition SeekRank (t : Tree) (start : Z) : P RankCursor :=
  if t_entries t <=? start then Ok (mkRankCursor 0 0 0 false)
  else
    let* '(ord, k) := descendToRank t start in
    let* n := lNent t ord in
    Ok (mkRankCursor ord k n true).

Definition Cursor_Ref (t : Tree) (c : RankCursor) : P Z := lRef t (rc_ord c) (rc_off c).

Definition Cursor_Next (t : Tree) (c : RankCursor) : P RankCursor :=
  let off := rc_off c + 1 in
  if off <? rc_n c then Ok (mkRankCursor (rc_ord c) off (rc_n c) (rc_ok c))
  else
    let* nx := lNext t (rc_ord c) in
    if nx =? 0 then Ok (mkRankCursor (rc_ord c) off (rc_n c) false)
    else
      let* n := lNent t nx in
      Ok (mkRankCursor nx 0 n (rc_ok c)).

Record RevRankCursor := mkRevRankCursor { rv_ord : Z; rv_off : Z; rv_base : Z; rv_ok : bool }.

Definition SeekRankRev (t : Tree) (start : Z) : P RevRankCursor :=
  if t_entries t =? 0 then Ok (mkRevRankCursor 0 0 0 false)
  else
    let start := if t_entries t <=? start then t_entries t - 1 else start in
    let* '(ord, k) := descendToRank t start in
    Ok (mkRevRankCursor ord k (start - k) true).

Definition RevCursor_Ref (t : Tree) (c : RevRankCursor) : P Z := lRef t (rv_ord c) (rv_off c).

Definition RevCursor_Next (t : Tree) (c : RevRankCursor) : P RevRankCursor :=
  let off := rv_off c - 1 in
  if 0 <=? off then Ok (mkRevRankCursor (rv_ord c) off (rv_base c) (rv_ok c))
  else if rv_base c =? 0 then Ok (mkRevRankCursor (rv_ord c) off (rv_base c) false)
  else
    let prev := rv_base c - 1 in
    let* '(ord, k) := descendToRank t prev in
    Ok (mkRevRankCursor ord k (prev - k) (rv_ok c)).

(** ** Deletion *)

(** Separator [c] and child [c+1] dropped, the count of [c+1] folded into [c]. *)
Definition bDropChild (t : Tree) (parent c : Z) : P Tree :=
  let* k := bNkeys t parent in
  let* n0 := bCount t parent c in
  let* n1 := bCount t parent (c + 1) in
  let* t := bSetCount t parent c (add64 n0 n1) in
  let* t := for_up (Z.to_nat (k - (c + 1))) (c + 1) (fun i t => move_kid parent i (i + 1) t) t in
  let* t := for_up (Z.to_nat (k - 1 - c)) c (fun i t => bMoveSep t parent i (i + 1)) t in
  bSetNkeys t parent (k - 1).

Definition mergeLeaves (t : Tree) (parent c : Z) : P Tree :=
  let t := invalidateEdges t in
  let* lft := bChild t parent c in
  let* rgt := bChild t parent (c + 1) in
  let* ln := lNent t lft in
  let* rn := lNent t rgt in
  let* lblk := leaf t lft in
  let* rblk := leaf t rgt in
  let* moved := slice rblk leafHdr (leafHdr + rn * entrySz) in
  let* lblk := copy_in lblk (leafHdr + ln * entrySz) (leafHdr + (ln + rn) * entrySz) moved in
  let* t := set_leaf t lft lblk in
  let* t := lSetNent t lft (ln + rn) in
  let* nx := lNext t rgt in
  let* t := lSetNext t lft nx in
  bDropChild (freeLeaf t rgt) parent c.

(** One entry moved between the counts of two children. *)
Definition shift_count (t : Tree) (parent from to n : Z) : P Tree :=
  let* a := bCount t parent to in
  let* t := bSetCount t parent to (add64 a n) in
  let* b := bCount t parent from in
  bSetCount t parent from (sub64 b n).

Definition fixLeafUnderflow (t : Tree) (parent c : Z) : P Tree :=
  let* k := bNkeys t parent in
  let* child := bChild t parent c in
  if c <? k then
    let* rgt := bChild t parent (c + 1) in
    let* rn := lNent t rgt in
    if leafMin <? rn then
      let* n := lNent t child in
      let* '(s, r) := entry_at t rgt 0 in
      let* t := lSetEnt t child n s r in
      let* n := lNent t child in
      let* t := lSetNent t child (n + 1) in
      let* t := leafRemove t rgt 0 in
      let* t := shift_count t parent (c + 1) c 1 in
      let* '(s, r) := entry_at t rgt 0 in
      bSetSep t parent c s r
    else mergeLeaves t parent c
  else
    let* lft := bChild t parent (c - 1) in
    let* ln := lNent t lft in
    if leafMin <? ln then
      let* '(s, r) := entry_at t lft (ln - 1) in
      let* t := leafPrepend t child s r in
      let* t := leafRemove t lft (ln - 1) in
      let* t := shift_count t parent (c - 1) c 1 in
      let* '(s, r) := entry_at t child 0 in
      bSetSep t parent (c - 1) s r
    else mergeLeaves t parent (c - 1).

Definition branchBorrowRight (t : Tree) (parent c child rgt : Z) : P Tree :=
  let* ck := bNkeys t child in
  let* s := bSepScore t parent c in
  let* r := bSepRef t parent c in
  let* t := bSetSep t child ck s r in
  let* kid := bChild t rgt 0 in
  let* t := bSetChild t child (ck + 1) kid in
  let* n := bCount t rgt 0 in
  let* t := bSetCount t child (ck + 1) n in
  let* t := bSetNkeys t child (ck + 1) in
  let* moved := bCount t rgt 0 in
  let* s := bSepScore t rgt 0 in
  let* r := bSepRef t rgt 0 in
  let* t := bSetSep t parent c s r in
  let* rk := bNkeys t rgt in
  let* t := for_up (Z.to_nat rk) 0 (fun i t => move_kid rgt i (i + 1) t) t in
  let* t := for_up (Z.to_nat (rk - 1)) 0 (fun i t => bMoveSep t rgt i (i + 1)) t in
  let* t := bSetNkeys t rgt (rk - 1) in
  shift_count t parent (c + 1) c moved.

Definition branchBorrowLeft (t : Tree) (parent c lft child : Z) : P Tree :=
  let* lk := bNkeys t lft in
  let* moved := bCount t lft lk in
  let* ck := bNkeys t child in
  let* t := for_down (Z.to_nat (ck + 1)) (ck + 1) (fun i t => move_kid child i (i - 1) t) t in
  let* t := for_down (Z.to_nat ck) ck (fun i t => bMoveSep t child i (i - 1)) t in
  let* s := bSepScore t parent c in
  let* r := bSepRef t parent c in
  let* t := bSetSep t child 0 s r in
  let* kid := bChild t lft lk in
  let* t := bSetChild t child 0 kid in
  let* t := bSetCount t child 0 moved in
  let* t := bSetNkeys t child (ck + 1) in
  let* s := bSepScore t lft (lk - 1) in
  let* r := bSepRef t lft (lk - 1) in
  let* t := bSetSep t parent c s r in
  let* t := bSetNkeys t lft (lk - 1) in
  let* a := bCount t parent c in
  let* t := bSetCount t parent c (sub64 a moved) in
  let* b := bCount t parent (c + 1) in
  bSetCount t parent (c + 1) (add64 b moved).

Definition mergeBranches (t : Tree) (parent c : Z) : P Tree :=
  let* lft := bChild t parent c in
  let* rgt := bChild t parent (c + 1) in
  let* lk := bNkeys t lft in
  let* rk := bNkeys t rgt in
  let* s := bSepScore t parent c in
  let* r := bSepRef t parent c in
  let* t := bSetSep t lft lk s r in
  let* t := for_up (Z.to_nat (rk + 1)) 0 (fun i t =>
              let* kid := bChild t rgt i in
              let* t := bSetChild t lft (lk + 1 + i) kid in
              let* n := bCount t rgt i in
              bSetCount t lft (lk + 1 + i) n) t in
  let* t := for_up (Z.to_nat rk) 0 (fun i t =>
              let* s := bSepScore t rgt i in
              let* r := bSepRef t rgt i in
              bSetSep t lft (lk + 1 + i) s r) t in
  let* t := bSetNkeys t lft (lk + 1 + rk) in
  bDropChild (freeBranch t rgt) parent c.

Definition fixBranchUnderflow (t : Tree) (parent c : Z) : P Tree :=
  let* k := bNkeys t parent in
  let* child := bChild t parent c in
  if c <? k then
    let* rgt := bChild t parent (c + 1) in
    let* rk := bNkeys t rgt in
    if branchMin <? rk then branchBorrowRight t parent c child rgt else mergeBranches t parent c
  else
    let* lft := bChild t parent (c - 1) in
    let* lk := bNkeys t lft in
    if branchMin <? lk then branchBorrowLeft t parent (c - 1) lft child else mergeBranches t parent (c - 1).

Definition collapseRoot (t : Tree) : P Tree :=
  if t_rootIsLeaf t then Ok t
  else
    let* k := bNkeys t (t_root t) in
    if k =? 0 then
      let old := t_root t in
      let* r := bChild t old 0 in
      Ok (freeBranch (set_root t r (t_height t - 1 =? 1) (t_height t - 1)) old)
    else Ok t.

(** The way back up: the count of the child the entry left, and its fill. *)
Definition unwind (t : Tree) (ord c child : Z) (childLeaf : bool) : P Tree :=
  let* n := bCount t ord c in
  let* t := bSetCount t ord c (sub64 n 1) in
  if childLeaf then
    let* n := lNent t child in
    if n <? leafMin then fixLeafUnderflow t ord c else Ok t
  else
    let* k := bNkeys t child in
    if k <? branchMin then fixBranchUnderflow t ord c else Ok t.

Section deletion.
Context {M : Members}.

Fixpoint deleteFrom (level : nat) (t : Tree) (ord score : Z) (member : bytes) : P (Tree * option Z) :=
  match level with
  | O => Panic
  | S O =>
      let* '(pos, present) := leafPos t ord score member in
      if negb present then Ok (t, None)
      else
        let* ref := lRef t ord pos in
        let* t := leafRemove t ord pos in
        Ok (t, Some ref)
  | S ((S l) as level') =>
      let* c := route t ord score member in
      let* child := bChild t ord c in
      let* '(t, r) := deleteFrom level' t child score member in
      match r with
      | None => Ok (t, None)
      | Some ref => let* t := unwind t ord c child (bool_decide (l = O)) in Ok (t, Some ref)
      end
  end.

Definition Tree_Delete (t : Tree) (score : Z) (member : bytes) : P (Tree * option Z) :=
  let* '(t, r) := deleteFrom (Z.to_nat (t_height t)) t (t_root t) score member in
  let t := match r with Some _ => with_entries t (sub64 (t_entries t) 1) | None => t end in
  let* t := collapseRoot t in
  Ok (t, r).
End deletion.

Fixpoint deleteAtFrom (level : nat) (t : Tree) (ord r : Z) : P (Tree * (Z * Z)) :=
  match level with
  | O => Panic
  | S O =>
      let* e := entry_at t ord r in
      let* t := leafRemove t ord r in
      Ok (t, e)
  | S ((S l) as level') =>
      let* '(c, r) := child_at_rank t ord r in
      let* child := bChild t ord c in
      let* '(t, e) := deleteAtFrom level' t child r in
      let* t := unwind t ord c child (bool_decide (l = O)) in
      Ok (t, e)
  end.

(** The end of every removal by position. *)
Definition removed (t : Tree) : P Tree := collapseRoot (with_entries t (sub64 (t_entries t) 1)).

Definition DeleteAt (t : Tree) (r : Z) : P (Tree * option (Z * Z)) :=
  if t_entries t <=? r then Ok (t, None)
  else
    let* '(t, e) := deleteAtFrom (Z.to_nat (t_height t)) t (t_root t) r in
    let* t := removed t in
    Ok (t, Some e).

Fixpoint popMinFrom (level : nat) (t : Tree) (ord : Z) : P (Tree * (Z * Z)) :=
  match level with
  | O => Panic
  | S O =>
      let* e := entry_at t ord 0 in
      let* t := leafRemove t ord 0 in
      Ok (t, e)
  | S ((S l) as level') =>
      let* child := bChild t ord 0 in
      let* '(t, e) := popMinFrom level' t child in
      let* t := unwind t ord 0 child (bool_decide (l = O)) in
      Ok (t, e)
  end.

Fixpoint popMaxFrom (level : nat) (t : Tree) (ord : Z) : P (Tree * (Z * Z)) :=
  match level with
  | O => Panic
  | S O =>
      let* n := lNent t ord in
      let* e := entry_at t ord (n - 1) in
      let* t := lSetNent t ord (n - 1) in
      Ok (t, e)
  | S ((S l) as level') =>
      let* c := bNkeys t ord in
      let* child := bChild t ord c in
      let* '(t, e) := popMaxFrom level' t child in
      let* t := unwind t ord c child (bool_decide (l = O)) in
      Ok (t, e)
  end.

Definition PopMin (t : Tree) : P (Tree * option (Z * Z)) :=
  if t_entries t =? 0 then Ok (t, None)
  else
    let* '(t, e) := popMinFrom (Z.to_nat (t_height t)) t (t_root t) in
    let* t := removed t in
    Ok (t, Some e).

Definition PopMax (t : Tree) : P (Tree * option (Z * Z)) :=
  if t_entries t =? 0 then Ok (t, None)
  else
    let* '(t, e) := popMaxFrom (Z.to_nat (t_height t)) t (t_root t) in
    let* t := removed t in
    Ok (t, Some e).

(** The drains, with the entries they emit. *)
Fixpoint PopMinN (want : nat) (t : Tree) : P (Tree * list (Z * Z)) :=
  match want with
  | O => Ok (t, [])
  | S want' =>
      let* '(t, e) := PopMin t in
      match e with
      | None => Ok (t, [])
      | Some e => let* '(t, es) := PopMinN want' t in Ok (t, e :: es)
      end
  end.

Fixpoint PopMaxN (want : nat) (t : Tree) : P (Tree * list (Z * Z)) :=
  match want with
  | O => Ok (t, [])
  | S want' =>
      let* '(t, e) := PopMax t in
      match e with
      | None => Ok (t, [])
      | Some e => let* '(t, es) := PopMaxN want' t in Ok (t, e :: es)
      end
  end.

(** ** Bulk load *)

Record bnode := mkBnode { bn_ord : Z; bn_score : Z; bn_ref : Z; bn_count : Z }.

Fixpoint fill_leaf (t : Tree) (o i : Z) (es : list (Z * Z)) : P Tree :=
  match es with
  | [] => Ok t
  | (s, r) :: es' => let* t := lSetEnt t o i s r in fill_leaf t o (i + 1) es'
  end.

Fixpoint link_leaves (t : Tree) (ns : list bnode) : P Tree :=
  match ns with
  | a :: ((b :: _) as ns') => let* t := lSetNext t (bn_ord a) (bn_ord b) in link_leaves t ns'
  | _ => Ok t
  end.

(** The children [j - sp[0]] of one branch and the running sum of their counts. *)
Fixpoint fill_branch (t : Tree) (o i sum : Z) (ns : list bnode) : P (Tree * Z) :=
  match ns with
  | [] => Ok (t, sum)
  | nd :: ns' =>
      let* t := bSetChild t o i (bn_ord nd) in
      let* t := bSetCount t o i (bn_count nd) in
      let* t := if 0 <? i then bSetSep t o (i - 1) (bn_score nd) (bn_ref nd) else Ok t in
      fill_branch t o (i + 1) (add64 sum (bn_count nd)) ns'
  end.

Section bulk.
(** [int(float64(n)/(0.9*float64(capacity)) + 0.5)]: the group count the fill aims at, before it
    is clamped. *)
Context (aim : Z -> Z -> Z).

(** The sizes of the groups, evenly spread. *)
Definition fillSpans (n capacity : Z) : list Z :=
  let groups := aim n capacity in
  let lo := (n + capacity - 1) / capacity in
  let groups := if groups <? lo then lo else groups in
  let groups := if groups <? 1 then 1 else groups in
  let groups := if n <? groups then n else groups in
  let base := n / groups in
  let extra := n mod groups in
  map (fun g => if g <? extra then base + 1 else base) (seqZ 0 groups).

Fixpoint load_leaves (t : Tree) (spans : list Z) (es : list (Z * Z)) : P (Tree * list bnode) :=
  match spans with
  | [] => Ok (t, [])
  | sz :: spans' =>
      let* '(t, o) := allocLeaf t in
      let mine := ztake sz es in
      let* t := fill_leaf t o 0 mine in
      let* t := lSetNent t o sz in
      let* '(s, r) := get_at es 0 in
      let* '(t, ns) := load_leaves t spans' (zdrop sz es) in
      Ok (t, mkBnode o s r sz :: ns)
  end.

Fixpoint load_branches (t : Tree) (spans : list Z) (ns : list bnode) : P (Tree * list bnode) :=
  match spans with
  | [] => Ok (t, [])
  | sz :: spans' =>
      let* '(t, o) := allocBranch t in
      let* t := bSetNkeys t o (sz - 1) in
      let* '(t, sum) := fill_branch t o 0 0 (ztake sz ns) in
      let* nd := get_at ns 0 in
      let* '(t, up) := load_branches t spans' (zdrop sz ns) in
      Ok (t, mkBnode o (bn_score nd) (bn_ref nd) sum :: up)
  end.

Fixpoint load_levels (fuel : nat) (t : Tree) (ns : list bnode) (height : Z) : P (Tree * list bnode * Z) :=
  match fuel with
  | O => Panic
  | S fuel' =>
      if 1 <? zlen ns then
        let* '(t, up) := load_branches t (fillSpans (zlen ns) arity) ns in
        load_levels fuel' t up (height + 1)
      else Ok (t, ns, height)
  end.

(** On a fresh arena: [bulkLoad] first discards the leaf [NewTree] allocated. *)
Definition BulkLoad (es : list (Z * Z)) : P Tree :=
  match es with
  | [] => NewTree
  | _ =>
      let* '(t, ns) := load_leaves empty_arena (fillSpans (zlen es) leafCap) es in
      let* t := link_leaves t ns in
      let* '(t, top, height) := load_levels (S (length ns)) t ns 1 in
      let* nd := get_at top 0 in
      Ok (with_entries (set_root t (bn_ord nd) (height =? 1) height) (zlen es))
  end.
End bulk.
