(* ===== verification/TreeShape.v ===== *)
(** The counted tree as a value: nodes with their ordinals, entries and separators, and its
    in-order sequence of entries and separators.  The search order is sortedness of that sequence,
    with everything before a separator below it and every entry after it at or above it; a branch
    split, a rotation between branches and a branch merge leave the sequence as it is. *)

From stdpp Require Import sorting.
From S2P Require Import Prelude Ordered TreeBlocks TreeArrays.
#[local] Open Scope Z_scope.
#[local] Set Warnings "-register-all".

(** ** Keys *)

Abbreviation key := (Z * bytes)%type.

Definition key_cmp (a b : key) : comparison := match a.1 ?= b.1 with Eq => bytes_Compare a.2 b.2 | c => c end.
Definition key_lt (a b : key) : Prop := key_cmp a b = Lt.
Definition key_le (a b : key) : Prop := key_cmp a b <> Gt.

#[global] Instance key_lt_dec : RelDecision key_lt.
Proof. intros a b. unfold key_lt. apply _. Defined.
#[global] Instance key_le_dec : RelDecision key_le.
Proof. intros a b. unfold key_le. apply _. Defined.

Lemma key_cmp_refl a : key_cmp a a = Eq.
Proof. unfold key_cmp. by rewrite Z.compare_refl, bytes_Compare_refl. Qed.
Lemma key_cmp_eq a b : key_cmp a b = Eq -> a = b.
Proof. destruct a as [s m], b as [s' m']. unfold key_cmp. cbn. destruct (Z.compare_spec s s') as [->| |]; try done. by intros ->%bytes_Compare_eq. Qed.
Lemma key_cmp_antisym a b : key_cmp b a = CompOpp (key_cmp a b).
Proof. unfold key_cmp. rewrite (Z.compare_antisym a.1 b.1), (bytes_Compare_antisym a.2 b.2). by destruct (a.1 ?= b.1). Qed.

#[global] Instance key_lt_trans : Transitive key_lt.
Proof.
  intros [s1 m1] [s2 m2] [s3 m3]. unfold key_lt, key_cmp. cbn. destruct (Z.compare_spec s1 s2), (Z.compare_spec s2 s3), (Z.compare_spec s1 s3); try done; try lia. apply bytes_lt_trans.
Qed.
Lemma key_lt_irrefl a : ~ key_lt a a.
Proof. unfold key_lt. by rewrite key_cmp_refl. Qed.
Lemma key_le_lteq a b : key_le a b <-> key_lt a b \/ a = b.
Proof.
  unfold key_le, key_lt. split; [|intros [-> | ->]; [done|by rewrite key_cmp_refl]]. destruct (key_cmp a b) eqn:E; try done; [|by left]. right. by apply key_cmp_eq.
Qed.
Lemma key_not_lt a b : ~ key_lt a b <-> key_le b a.
Proof. unfold key_lt, key_le. rewrite (key_cmp_antisym a b). destruct (key_cmp a b); cbn; intuition congruence. Qed.
Lemma key_not_le a b : ~ key_le a b <-> key_lt b a.
Proof. unfold key_lt, key_le. rewrite (key_cmp_antisym a b). destruct (key_cmp a b); cbn; intuition congruence. Qed.
Lemma key_le_lt_trans a b c : key_le a b -> key_lt b c -> key_lt a c.
Proof. intros [H| ->]%key_le_lteq; [|done]. by transitivity b. Qed.
Lemma key_lt_le_trans a b c : key_lt a b -> key_le b c -> key_lt a c.
Proof. intros H [?|<-]%key_le_lteq; [|done]. by transitivity b. Qed.
Lemma key_lt_le a b : key_lt a b -> key_le a b.
Proof. intros H. apply key_le_lteq. by left. Qed.
#[export] Hint Resolve key_lt_le key_le_lt_trans key_lt_le_trans : core.

Section order.
Context (mb : Z -> bytes).

Definition ekey (e : ent) : key := (e.1, mb e.2).

(** ** The in-order sequence *)

Inductive item : Type := IEnt (e : ent) | ISep (e : ent).

Definition ikey (x : item) : key := match x with IEnt e | ISep e => ekey e end.

Definition below (x y : item) : Prop := match x, y with ISep a, IEnt b => key_le (ekey a) (ekey b) | _, _ => key_lt (ikey x) (ikey y) end.

Lemma below_le x y : below x y -> key_le (ikey x) (ikey y).
Proof. destruct x, y; cbn; auto. Qed.
Lemma below_lt_sep x e : below x (ISep e) <-> key_lt (ikey x) (ekey e).
Proof. by destruct x. Qed.
Lemma below_ent e y : below (IEnt e) y <-> key_lt (ekey e) (ikey y).
Proof. by destruct y. Qed.

#[global] Instance below_trans : Transitive below.
Proof.
  intros x y z Hxy Hyz. destruct x as [a|a], z as [c|c]; cbn; [|by destruct y; cbn in *; eauto using key_le_lt_trans, key_lt_le_trans|..]; destruct y; cbn in *; eauto using key_lt_trans, key_le_lt_trans, key_lt_le_trans.
Qed.

Definition sorted (l : list item) : Prop := StronglySorted below l.

Lemma sorted_app l1 l2 : sorted (l1 ++ l2) <-> sorted l1 /\ sorted l2 /\ forall x y, x ∈ l1 -> y ∈ l2 -> below x y.
Proof.
  unfold sorted. induction l1 as [|x l1 IH]; cbn [app].
  - split; [intros H; split_and!; [constructor|done|by intros ? ? ?%not_elem_of_nil]|by intros (_ & ? & _)].
  - split.
    + intros [H1 H2]%StronglySorted_inv. apply IH in H1 as (H1 & H3 & H4). apply Forall_app in H2 as [H2 H5]. split_and!; [by constructor|done|]. intros y z [->|Hy]%elem_of_cons Hz; [by rewrite Forall_forall in H5; apply H5|by apply H4].
    + intros (H1 & H2 & H3). apply StronglySorted_inv in H1 as [H1 H4]. constructor; [apply IH; split_and!; [done|done|]; intros y z Hy Hz; apply H3; [by right|done]|].
      apply Forall_app. split; [done|]. apply Forall_forall. intros z Hz. apply H3; [by left|done].
Qed.

Lemma sorted_cons x l : sorted (x :: l) <-> sorted l /\ forall y, y ∈ l -> below x y.
Proof.
  change (x :: l) with ([x] ++ l). rewrite sorted_app. split; [intros (_ & H1 & H2); split; [done|]; intros y Hy; apply H2; [by left|done]|].
  intros [H1 H2]. split_and!; [by repeat constructor|done|]. intros y z ->%list_elem_of_singleton Hz. by apply H2.
Qed.

(** Dropping a run keeps the order. *)
Lemma sorted_drop_mid A X B : sorted (A ++ X ++ B) -> sorted (A ++ B).
Proof.
  rewrite !sorted_app. intros (H1 & (H2 & H3 & H4) & H5). split_and!; [done|done|]. intros x y Hx Hy. apply H5; [done|]. apply elem_of_app. by right.
Qed.

(** An entry at its place. *)
Definition bef (k : key) (x : item) : Prop := match x with IEnt e => key_lt (ekey e) k | ISep s => key_le (ekey s) k end.
Definition aft (k : key) (x : item) : Prop := key_lt k (ikey x).

Lemma sorted_insert A B e : sorted (A ++ B) -> Forall (bef (ekey e)) A -> Forall (aft (ekey e)) B -> sorted (A ++ IEnt e :: B).
Proof.
  rewrite !sorted_app, Forall_forall, Forall_forall. intros (H1 & H2 & H3) Ha Hb. split_and!; [done| |].
  - apply sorted_cons. split; [done|]. intros y Hy. apply below_ent. by apply Hb.
  - intros x y Hx [->|Hy]%elem_of_cons; [|by apply H3]. specialize (Ha x Hx). by destruct x.
Qed.

(** A separator in front of an entry that is not the first of its leaf. *)
Lemma sorted_insert_sep A B e1 e2 : sorted (A ++ IEnt e1 :: IEnt e2 :: B) -> sorted (A ++ IEnt e1 :: ISep e2 :: IEnt e2 :: B).
Proof.
  rewrite !sorted_app, !sorted_cons. intros (H1 & ((H2 & H3) & H4) & H5).
  assert (H12 : key_lt (ekey e1) (ekey e2)) by (apply (below_ent e1 (IEnt e2)), H4; left).
  split_and!; [done|done|done| | |].
  - intros y [->|Hy]%elem_of_cons; cbn; [apply key_le_lteq; by right|]. specialize (H3 y Hy). apply below_ent in H3. destruct y; cbn; auto.
  - intros y [->|Hy]%elem_of_cons; [done|by apply H4].
  - intros x y Hx [->|[->|Hy]%elem_of_cons]%elem_of_cons; [apply H5; [done|left]| |apply H5; [done|by right]].
    apply below_lt_sep. eapply key_le_lt_trans; [|exact H12]. apply (below_le x (IEnt e1)). apply H5; [done|left].
Qed.

Definition ents (l : list item) : list ent := omap (fun x => match x with IEnt e => Some e | ISep _ => None end) l.

Lemma ents_app l1 l2 : ents (l1 ++ l2) = ents l1 ++ ents l2.
Proof. apply omap_app. Qed.
Lemma ents_IEnt es : ents (IEnt <$> es) = es.
Proof. induction es as [|e es IH]; [done|]. cbn. f_equal. exact IH. Qed.
Lemma elem_of_ents l e : e ∈ ents l <-> IEnt e ∈ l.
Proof.
  unfold ents. rewrite list_elem_of_omap. split; [intros ([e'|s] & Hx & [= ->]); done|]. intros H. by exists (IEnt e).
Qed.

Lemma sorted_ents l : sorted l -> StronglySorted (fun a b => key_lt (ekey a) (ekey b)) (ents l).
Proof.
  induction l as [|[e|s] l IH]; cbn; [constructor| |]; intros [H1 H2]%sorted_cons; [|by apply IH]. constructor; [by apply IH|]. apply Forall_forall. intros e' He%elem_of_ents. by apply (below_ent e (IEnt e')), H2.
Qed.
End order.

(** ** Trees *)

Inductive ptree : Type := PLeaf (o nx : Z) (es : list ent) | PNode (o : Z) (seps : list ent) (kids : list ptree).

Lemma ptree_ind_kids (Q : ptree -> Prop) : (forall o nx es, Q (PLeaf o nx es)) -> (forall o seps kids, Forall Q kids -> Q (PNode o seps kids)) -> forall p, Q p.
Proof.
  intros Hl Hn. fix IH 1. intros [o nx es|o seps kids]; [apply Hl|apply Hn]. induction kids as [|c kids IHk]; constructor; [apply IH|exact IHk].
Qed.

Definition pord (p : ptree) : Z := match p with PLeaf o _ _ | PNode o _ _ => o end.

(** Separators between the sequences of the children. *)
Definition wr (seps : list ent) (fs : list (list item)) : list item := concat (zip_with (fun s f => ISep s :: f) seps fs).
Definition wl (fs : list (list item)) (seps : list ent) : list item := concat (zip_with (fun f s => f ++ [ISep s]) fs seps).
Definition weave (seps : list ent) (fs : list (list item)) : list item := match fs with [] => [] | f :: fs' => f ++ wr seps fs' end.

Fixpoint flat (p : ptree) : list item :=
  match p with
  | PLeaf _ _ es => IEnt <$> es
  | PNode _ seps kids => weave seps (map flat kids)
  end.

Definition pents (p : ptree) : list ent := ents (flat p).
Definition pcount (p : ptree) : Z := zlen (pents p).

(** The leaves in order with their links, and the branches. *)
Fixpoint leaf_links (p : ptree) : list (Z * Z) :=
  match p with
  | PLeaf o nx _ => [(o, nx)]
  | PNode _ _ kids => concat (map leaf_links kids)
  end.
Definition lords (p : ptree) : list Z := (leaf_links p).*1.
Fixpoint bords (p : ptree) : list Z :=
  match p with
  | PLeaf _ _ _ => []
  | PNode o _ kids => o :: concat (map bords kids)
  end.

Lemma weave_split S1 S2 F1 f F2 : length F1 = length S1 -> weave (S1 ++ S2) (F1 ++ f :: F2) = wl F1 S1 ++ f ++ wr S2 F2.
Proof.
  revert F1. induction S1 as [|s S1 IH]; intros [|f1 F1] Hl; try done. injection Hl as Hl. specialize (IH F1 Hl). unfold wl in *. cbn [app zip_with concat weave]. rewrite <- !(assoc_L (++)). f_equal. cbn [app]. rewrite <- IH.
  unfold wr, weave. destruct F1 as [|f2 F1]; cbn [app zip_with concat]; done.
Qed.

Lemma weave_snoc seps fs s f : length fs = S (length seps) -> weave (seps ++ [s]) (fs ++ [f]) = weave seps fs ++ ISep s :: f.
Proof.
  intros Hl. destruct fs as [|f0 fs]; [done|]. injection Hl as Hl. cbn [app weave]. unfold wr. rewrite zip_with_app, concat_app by done. cbn. by rewrite app_nil_r, <- (assoc_L (++)).
Qed.

Lemma weave_app S1 s S2 F1 F2 : length F1 = S (length S1) -> length F2 = S (length S2) -> weave (S1 ++ s :: S2) (F1 ++ F2) = weave S1 F1 ++ ISep s :: weave S2 F2.
Proof.
  intros H1 H2. destruct F1 as [|f0 F1]; [done|]. destruct F2 as [|f2 F2]; [done|]. injection H1 as H1. cbn [app weave]. unfold wr. rewrite zip_with_app, concat_app by done. cbn [zip_with concat]. by rewrite <- !(assoc_L (++)).
Qed.

Lemma elem_of_wl x F S : x ∈ wl F S -> exists f s, s ∈ S /\ (x ∈ f \/ x = ISep s) /\ f ∈ F.
Proof.
  unfold wl. revert F. induction S as [|s S IH]; intros [|f F]; cbn; try by intros ?%not_elem_of_nil. intros [H|H]%elem_of_app.
  - exists f, s. split_and!; [left| |left]. apply elem_of_app in H as [H|H%list_elem_of_singleton]; auto.
  - destruct (IH F H) as (f' & s' & Hs & Hx & Hf). exists f', s'. split_and!; [by right|done|by right].
Qed.

(** What lies left and right of the child a key routes to. *)
Section routing.
Context (mb : Z -> bytes).

Lemma wl_bef F S k : sorted mb (wl F S) -> Forall (fun s => key_le (ekey mb s) k) S -> Forall (bef mb k) (wl F S).
Proof.
  unfold wl. revert F. induction S as [|s S IH]; intros [|f F] Hs Hk; cbn [zip_with concat] in *; try by constructor. apply sorted_app in Hs as (H1 & H2 & _). apply Forall_cons in Hk as [Hk Hks].
  apply Forall_app. split; [|by apply IH]. apply sorted_app in H1 as (_ & _ & H3). apply Forall_app. split; [|by apply Forall_singleton]. apply Forall_forall. intros x Hx.
  assert (Hl : key_lt (ikey mb x) (ekey mb s)) by (apply below_lt_sep, H3; [done|left]). destruct x; cbn in *; eauto using key_lt_le_trans.
Qed.

Lemma wr_aft S F k : sorted mb (wr S F) -> Forall (fun s => key_lt k (ekey mb s)) S -> Forall (aft mb k) (wr S F).
Proof.
  unfold wr. revert F. induction S as [|s S IH]; intros [|f F] Hs Hk; cbn [zip_with concat] in *; try by constructor. apply sorted_app in Hs as (H1 & H2 & _). apply Forall_cons in Hk as [Hk Hks].
  apply Forall_app. split; [|by apply IH]. apply sorted_cons in H1 as (_ & H3). constructor; [done|]. apply Forall_forall. intros x Hx. unfold aft. eapply key_lt_le_trans; [exact Hk|]. apply (below_le mb (ISep s)). by apply H3.
Qed.

Lemma wr_seps S F : (length S <= length F)%nat -> sorted mb (wr S F) -> StronglySorted (fun a b => key_lt (ekey mb a) (ekey mb b)) S.
Proof.
  unfold wr. revert F. induction S as [|s S IH]; intros [|f F] Hl Hs; cbn in *; try lia; try by constructor. apply sorted_cons in Hs as [H1 H2]. apply sorted_app in H1 as (_ & H3 & _). constructor; [apply (IH F); [lia|done]|].
  apply Forall_forall. intros s' Hs'. assert (Hin : ISep s' ∈ concat (zip_with (fun s f => ISep s :: f) S F)).
  { clear -Hl Hs'. revert F Hl. induction S as [|s1 S IH]; intros [|f F] Hl; cbn in *; try lia; try by apply not_elem_of_nil in Hs'. apply elem_of_cons in Hs' as [->|Hs']; [left|]. right. apply elem_of_app. right. apply IH; [done|lia]. }
  apply (H2 (ISep s')), elem_of_app. by right.
Qed.

Lemma weave_seps S F : length F = Datatypes.S (length S) -> sorted mb (weave S F) -> StronglySorted (fun a b => key_lt (ekey mb a) (ekey mb b)) S.
Proof. intros Hl Hs. destruct F as [|f F]; [done|]. apply sorted_app in Hs as (_ & Hs & _). apply (wr_seps S F); [cbn in Hl; lia|done]. Qed.
End routing.

(** ** Shape *)

Definition full (p : ptree) : Prop := match p with PLeaf _ _ es => (7 <= length es)%nat | PNode _ seps _ => (3 <= length seps)%nat end.

(** A node of the given level: its fill below the capacity, every child filled at least a
    quarter. *)
Inductive shape : nat -> ptree -> Prop :=
  | shape_leaf o nx es : (length es <= 31)%nat -> shape 1 (PLeaf o nx es)
  | shape_node l o seps kids : length kids = S (length seps) -> (length seps <= 15)%nat -> Forall (fun c => shape (S l) c /\ full c) kids -> shape (S (S l)) (PNode o seps kids).

Inductive chain : list (Z * Z) -> Z -> Z -> Prop :=
  | chain_nil f : chain [] f f
  | chain_cons o nx l e : chain l nx e -> chain ((o, nx) :: l) o e.

Lemma chain_app l1 l2 f e : chain (l1 ++ l2) f e <-> exists m, chain l1 f m /\ chain l2 m e.
Proof.
  revert f. induction l1 as [|[o nx] l1 IH]; intros f; cbn [app].
  - split; [intros H; exists f; split; [constructor|done]|]. intros (m & H1 & H2). by inversion H1; subst.
  - split.
    + inversion 1 as [|? ? ? ? H1]; subst. apply IH in H1 as (m & H1 & H2). exists m. split; [by constructor|done].
    + intros (m & H1 & H2). inversion H1 as [|? ? ? ? H3]; subst. constructor. apply IH. by exists m.
Qed.

(** ** Nodes in the arena *)

Definition leafv (l : aleaf) (es : list ent) (nx : Z) : Prop := al_n l = zlen es /\ al_next l = nx /\ take (length es) (al_ents l) = es.

Definition mkB (k : Z) (ss ks : list (Z * Z)) : abranch := mkAbranch k ss.*1 ss.*2 ks.*1 ks.*2.

(** The separators and the children with their counts, and whatever the slots past them hold. *)
Definition branchv (b : abranch) (seps : list ent) (kids : list (Z * Z)) : Prop := exists gs gk, b = mkB (zlen seps) (seps ++ gs) (kids ++ gk).

Definition kc (p : ptree) : Z * Z := (pord p, pcount p).

Inductive holds_tree (a : arena) : ptree -> Prop :=
  | holds_leaf o nx es l : leaf_of a o = Some l -> leafv l es nx -> holds_tree a (PLeaf o nx es)
  | holds_node o seps kids b : branch_of a o = Some b -> branchv b seps (kc <$> kids) -> Forall (holds_tree a) kids -> holds_tree a (PNode o seps kids).

Lemma lords_node o seps kids : lords (PNode o seps kids) = concat (map lords kids).
Proof. unfold lords. cbn [leaf_links]. induction kids as [|c kids IH]; [done|]. cbn. by rewrite fmap_app, IH. Qed.

(** Nodes whose blocks did not change are still there. *)
Lemma holds_frame a a' p : holds_tree a p -> (forall o, o ∈ lords p -> leaf_of a' o = leaf_of a o) -> (forall o, o ∈ bords p -> branch_of a' o = branch_of a o) -> holds_tree a' p.
Proof.
  induction p as [o nx es|o seps kids IH] using ptree_ind_kids; intros H Hl Hb; inversion H; subst.
  - econstructor; [|done]. rewrite Hl; [done|]. left.
  - econstructor; [|done|]; [rewrite Hb; [done|left]|]. rewrite lords_node in Hl. cbn [bords] in Hb. rewrite Forall_forall in *. intros c Hc. apply IH; [done|by auto|..].
    + intros o' Ho. apply Hl. rewrite list_elem_of_In, in_concat. exists (lords c). rewrite <- !list_elem_of_In. split; [by apply list_elem_of_fmap_2|done].
    + intros o' Ho. apply Hb. right. rewrite list_elem_of_In, in_concat. exists (bords c). rewrite <- !list_elem_of_In. split; [by apply list_elem_of_fmap_2|done].
Qed.

(** ** Ownership

    Every block of the two arenas is in use or on its free list, once. *)

Definition own (a : arena) (L B : list Z) : Prop :=
  L ++ t_leafFree (ar_rest a) ≡ₚ seqZ 0 (zlen (ar_leaves a)) /\ B ++ t_branchFree (ar_rest a) ≡ₚ seqZ 0 (zlen (ar_branches a)).

Lemma own_perm a L L' B B' : own a L B -> L ≡ₚ L' -> B ≡ₚ B' -> own a L' B'.
Proof. intros [H1 H2] EL EB. split; [by rewrite <- EL|by rewrite <- EB]. Qed.

Lemma own_NoDup a L B : own a L B -> NoDup L /\ NoDup B.
Proof.
  intros [H1 H2]. assert (HL : NoDup (L ++ t_leafFree (ar_rest a))) by (rewrite H1; apply NoDup_seqZ). assert (HB : NoDup (B ++ t_branchFree (ar_rest a))) by (rewrite H2; apply NoDup_seqZ).
  apply NoDup_app in HL as [? _]. by apply NoDup_app in HB as [? _].
Qed.

Lemma own_upd_leaf a o l L B : own a L B -> own (upd_leaf a o l) L B.
Proof. intros [H1 H2]. split; [|done]. cbn. rewrite H1. unfold zlen. by rewrite length_insert. Qed.
Lemma own_upd_branch a o b L B : own a L B -> own (upd_branch a o b) L B.
Proof. intros [H1 H2]. split; [done|]. cbn. rewrite H2. unfold zlen. by rewrite length_insert. Qed.
#[export] Hint Resolve own_upd_leaf own_upd_branch : nodes.
