(* ===== verification/TreeNodes.v ===== *)
(** What each block operation of the counted tree does to the entries, separators, children and
    counts of its node (engine/f3/struct/tree.go). *)

From S2P Require Import Prelude Ordered TreeBlocks TreeArrays TreeOps TreeShape.
#[local] Open Scope Z_scope.

Lemma upd_leaf_upd a o l l' : upd_leaf (upd_leaf a o l) o l' = upd_leaf a o l'.
Proof. unfold upd_leaf. cbn. by rewrite list_insert_insert_eq. Qed.
Lemma upd_branch_upd a o b b' : upd_branch (upd_branch a o b) o b' = upd_branch a o b'.
Proof. unfold upd_branch. cbn. by rewrite list_insert_insert_eq. Qed.
Lemma leaf_of_upd_branch a o b o' : leaf_of (upd_branch a o b) o' = leaf_of a o'.
Proof. done. Qed.
Lemma branch_of_upd_leaf a o l o' : branch_of (upd_leaf a o l) o' = branch_of a o'.
Proof. done. Qed.

(** ** Leaves *)

(** The slots past the entries. *)
Lemma leafv_slots l es nx : leaf_ok l -> leafv l es nx -> exists g, al_ents l = es ++ g /\ (length es + length g = 31)%nat /\ Forall ent_ok es /\ Forall ent_ok g /\ is_u8 (zlen es) /\ (length es <= 31)%nat.
Proof.
  intros [Hn Hx Hs He] (E1 & E2 & E3). exists (drop (length es) (al_ents l)). assert (E : al_ents l = es ++ drop (length es) (al_ents l)) by (rewrite <- (take_drop (length es) (al_ents l)) at 1; by rewrite E3).
  split; [done|]. rewrite E in He, Hs. apply Forall_app in He as [He1 He2]. rewrite length_app in Hs. rewrite <- E1. split_and!; try done; lia.
Qed.

Lemma leafv_at l es nx i e : leafv l es nx -> es !! i = Some e -> al_ents l !! i = Some e.
Proof. intros (_ & _ & E) Hi. rewrite <- E in Hi. rewrite lookup_take in Hi. by case_decide. Qed.

Lemma entry_at_ok a o l es nx i e : arena_ok a -> leaf_of a o = Some l -> leafv l es nx -> es !! Z.to_nat i = Some e -> 0 <= i -> entry_at (enc a) o i = Ok e.
Proof.
  intros Ha Hl Hv Hi H0. pose proof (leaf_of_ok _ _ _ Ha Hl) as Hok. pose proof (leafv_at _ _ _ _ _ Hv Hi) as Hi'. unfold entry_at.
  rewrite (lScore_enc a o l Hl Hok i e Hi' H0), (lRef_enc a o l Hl Hok i e Hi' H0). by destruct e.
Qed.

(** The entries of a leaf replaced, with slots left over. *)
Lemma leafv_new l es g nx : al_n l = zlen es -> al_next l = nx -> al_ents l = es ++ g -> is_u32 nx -> Forall ent_ok es -> Forall ent_ok g -> (length es + length g = 31)%nat -> leaf_ok l /\ leafv l es nx.
Proof.
  intros En Ex Ee Hn He Hg Hl. split.
  - split; [rewrite En; unfold is_u8, zlen; lia|by rewrite Ex|by rewrite Ee, length_app|rewrite Ee; by apply Forall_app].
  - split_and!; [done|done|]. by rewrite Ee, take_app_length.
Qed.

Section leaf_ops.
Context (a : arena) (o : Z) (l : aleaf) (es : list ent) (nx : Z).
Hypothesis (Ha : arena_ok a) (Hl : leaf_of a o = Some l) (Hv : leafv l es nx).

Lemma leaf_size : lNent (enc a) o = Ok (zlen es).
Proof. rewrite (lNent_enc a o l Hl (leaf_of_ok _ _ _ Ha Hl)). f_equal. apply Hv. Qed.

(** A write of the whole entry area. *)
Lemma leaf_write l1 l2 : leaf_of (upd_leaf a o l1) o = Some l1 /\ upd_leaf (upd_leaf a o l1) o l2 = upd_leaf a o l2.
Proof. split; [by eapply leaf_of_upd|apply upd_leaf_upd]. Qed.

(** The copy that opens slot [pos]. *)
Lemma open_slot pos : (length es < 31)%nat -> 0 <= pos <= zlen es ->
  exists y g, ent_ok y /\ Forall ent_ok g /\ Forall ent_ok es /\ (length es + length g = 30)%nat
    /\ (let* moved := slice (enc_leaf l) (leafHdr + pos * entrySz) (leafHdr + zlen es * entrySz) in
        let* blk := copy_in (enc_leaf l) (leafHdr + pos * entrySz + entrySz) (leafHdr + (zlen es + 1) * entrySz) moved in set_leaf (enc a) o blk : P Tree)
       = Ok (enc (upd_leaf a o (set_ents l (take (Z.to_nat pos) es ++ y :: drop (Z.to_nat pos) es ++ g)))).
Proof.
  intros Hlt Hpos. pose proof (leaf_of_ok _ _ _ Ha Hl) as Hok. destruct (leafv_slots l es nx Hok Hv) as (g & Eg & Hlen & Hes & Hg & _). destruct g as [|x g]; [cbn in Hlen; lia|]. apply Forall_cons in Hg as [Hx Hg].
  unfold zlen in Hpos. rewrite slice_ents by (rewrite ?Eg, ?length_app; cbn [length] in *; unfold zlen; lia).
  set (p := Z.to_nat pos) in *. pose proof Hes as Hes'. rewrite <- (take_drop p es) in Eg, Hes. set (e1 := take p es) in *. set (e2 := drop p es) in *.
  assert (H1 : length e1 = p) by (subst e1; rewrite length_take; lia). assert (H2 : length e2 = (length es - p)%nat) by (subst e2; by rewrite length_drop). cbn [length] in Hlen.
  assert (Esl : sl (al_ents l) pos (zlen es - pos) = e2).
  { unfold sl. rewrite ztake_take, zdrop_drop, Eg, <- (assoc_L (++)). fold p. rewrite <- H1, drop_app_length. replace (Z.to_nat (zlen es - pos)) with (length e2) by (unfold zlen; lia). by rewrite take_app_length. }
  rewrite Esl. unfold copy_in. assert (Hz : zlen (enc_leaf l) = 512) by (apply zlen_enc_leaf; apply Hok). rewrite Hz. replace (_ && _ && _) with true by (unfold leafHdr, entrySz, zlen; lia).
  replace (leafHdr + pos * entrySz + entrySz) with (leafHdr + (pos + 1) * entrySz) by (unfold entrySz; lia). rewrite ztake_all by (rewrite zlen_ents; unfold leafHdr, entrySz, zlen; lia).
  rewrite put_ents by (try apply Hok; unfold zlen; lia). rewrite (set_leaf_enc _ _ _ _ Hl). exists (match e2 ++ x :: g with y :: _ => y | [] => x end), g. split_and!; [|done|done|lia|].
  - apply Forall_app in Hes as [_ Hes2]. destruct e2 as [|z e2]; [done|]. by apply Forall_cons in Hes2 as [? _].
  - do 4 f_equal. rewrite Eg, <- (assoc_L (++)). replace (Z.to_nat (pos + 1)) with (length e1 + 1)%nat by lia. rewrite take_app_ge by lia. replace (length e1 + 1 - length e1)%nat with 1%nat by lia. rewrite <- (assoc_L (++)). f_equal.
    rewrite drop_app_ge by lia. replace (length e1 + 1 + length e2 - length e1)%nat with (length e2 + 1)%nat by lia. rewrite drop_app_ge by lia. replace (length e2 + 1 - length e2)%nat with 1%nat by lia. by destruct e2.
Qed.

(** The slot filled and counted, in either order. *)
Lemma fill_slot pos e y g : 0 <= pos <= zlen es -> ent_ok y -> ent_ok e -> Forall ent_ok g -> Forall ent_ok es -> (length es + length g = 30)%nat ->
  let l1 := set_ents l (take (Z.to_nat pos) es ++ y :: drop (Z.to_nat pos) es ++ g) in
  exists l', (let* t := lSetNent (enc (upd_leaf a o l1)) o (zlen es + 1) in lSetEnt t o pos e.1 e.2) = Ok (enc (upd_leaf a o l'))
    /\ (let* t := lSetEnt (enc (upd_leaf a o l1)) o pos e.1 e.2 in lSetNent t o (zlen es + 1)) = Ok (enc (upd_leaf a o l'))
    /\ leaf_ok l' /\ leafv l' (take (Z.to_nat pos) es ++ e :: drop (Z.to_nat pos) es) nx.
Proof.
  intros Hpos Hy He Hg Hes Hlen l1. pose proof (leaf_of_ok _ _ _ Ha Hl) as Hok. unfold zlen in Hpos. set (p := Z.to_nat pos) in *. set (e1 := take p es) in *. set (e2 := drop p es) in *.
  assert (H1 : length e1 = p) by (subst e1; rewrite length_take; lia). assert (H2 : length e2 = (length es - p)%nat) by (subst e2; by rewrite length_drop).
  assert (Hes1 : Forall ent_ok e1) by (by apply Forall_take). assert (Hes2 : Forall ent_ok e2) by (by apply Forall_drop).
  assert (Hok1 : leaf_ok l1). { apply set_ents_ok; [done|rewrite length_app; cbn [length]; rewrite length_app; lia|]. apply Forall_app. split; [done|]. constructor; [done|by apply Forall_app]. }
  assert (Hy1 : al_ents l1 !! p = Some y) by (cbn; rewrite <- H1; by apply list_lookup_middle).
  set (l' := mkAleaf (zlen es + 1) nx (e1 ++ e :: e2 ++ g)). exists l'. assert (Hi : <[p := e]> (al_ents l1) = e1 ++ e :: e2 ++ g) by (cbn; rewrite <- H1, insert_app_r_alt, Nat.sub_diag by lia; done).
  assert (Hn : al_next l = nx) by apply Hv. destruct (leaf_write l1 l1) as [Hl1 _]. split; [|split].
  - rewrite (lSetNent_enc _ _ _ Hl1), upd_leaf_upd. set (l2 := set_n l1 _). destruct (leaf_write l2 l2) as [Hl2 _]. rewrite (lSetEnt_enc _ _ _ Hl2) with (e := y); [|apply set_n_ok; [done|unfold is_u8, zlen; lia]|done|lia].
    rewrite upd_leaf_upd, <- surjective_pairing. fold p. cbn [l2 set_n set_ents al_ents]. rewrite Hi. unfold set_ents, l2, l1. cbn. by rewrite Hn.
  - rewrite (lSetEnt_enc _ _ _ Hl1 Hok1 pos y Hy1) by lia. rewrite upd_leaf_upd, <- surjective_pairing. fold p. rewrite Hi. set (l2 := set_ents l1 _). destruct (leaf_write l2 l2) as [Hl2 _]. rewrite (lSetNent_enc _ _ _ Hl2), upd_leaf_upd. unfold set_n, l2, set_ents, l1. cbn. by rewrite Hn.
  - apply (leafv_new l' _ g); cbn; [unfold zlen; rewrite length_app; cbn [length]; lia|done|by rewrite <- (assoc_L (++))|rewrite <- Hn; apply Hok| |done|rewrite length_app; cbn [length]; lia]. apply Forall_app. split; [done|by constructor].
Qed.

Lemma leafShiftIn_ok pos e : (length es < 31)%nat -> 0 <= pos <= zlen es -> ent_ok e ->
  exists l', leafShiftIn (enc a) o pos e.1 e.2 = Ok (enc (upd_leaf a o l')) /\ leaf_ok l' /\ leafv l' (take (Z.to_nat pos) es ++ e :: drop (Z.to_nat pos) es) nx.
Proof.
  intros Hlt Hpos He. destruct (open_slot pos Hlt Hpos) as (y & g & Hy & Hg & Hes & Hlen & E1). destruct (fill_slot pos e y g Hpos Hy He Hg Hes Hlen) as (l' & E2 & _ & H). exists l'. split; [|done].
  unfold leafShiftIn. rewrite leaf_size, (leaf_enc _ _ _ Hl). cbv zeta. destruct (slice _ _ _) as [moved|? |]; try done. destruct (copy_in _ _ _ _) as [blk|? |]; try done. by rewrite E1.
Qed.

Lemma leafPrepend_ok e : (length es < 31)%nat -> ent_ok e -> exists l', leafPrepend (enc a) o e.1 e.2 = Ok (enc (upd_leaf a o l')) /\ leaf_ok l' /\ leafv l' (e :: es) nx.
Proof.
  intros Hlt He. assert (Hpos : 0 <= 0 <= zlen es) by (unfold zlen; lia). destruct (open_slot 0 Hlt Hpos) as (y & g & Hy & Hg & Hes & Hlen & E1). destruct (fill_slot 0 e y g Hpos Hy He Hg Hes Hlen) as (l' & _ & E2 & H). exists l'. split; [|done].
  unfold leafPrepend. rewrite leaf_size, (leaf_enc _ _ _ Hl). change (leafHdr + 0 * entrySz) with leafHdr in E1. destruct (slice _ _ _) as [moved|? |]; try done. destruct (copy_in _ _ _ _) as [blk|? |]; try done. by rewrite E1.
Qed.

(** The entries cut to a prefix, a run appended. *)
Lemma leafSetNent_ok es' : es' `prefix_of` es -> exists l', lSetNent (enc a) o (zlen es') = Ok (enc (upd_leaf a o l')) /\ leaf_ok l' /\ leafv l' es' nx.
Proof.
  intros [t ->]. pose proof (leaf_of_ok _ _ _ Ha Hl) as Hok. destruct (leafv_slots l _ nx Hok Hv) as (g & Eg & Hlen & Hes & Hg & _). rewrite (lSetNent_enc _ _ _ Hl). eexists. split; [done|]. apply Forall_app in Hes as [Hes1 Hes2]. rewrite length_app in Hlen.
  apply (leafv_new _ es' (t ++ g)); cbn; [done|apply Hv|by rewrite Eg, <- (assoc_L (++))| |done|by apply Forall_app|rewrite length_app; lia]. destruct Hv as (_ & <- & _). apply Hok.
Qed.

Lemma leafRemove_ok pos e : es !! Z.to_nat pos = Some e -> 0 <= pos -> exists l', leafRemove (enc a) o pos = Ok (enc (upd_leaf a o l')) /\ leaf_ok l' /\ leafv l' (delete (Z.to_nat pos) es) nx.
Proof.
  intros He Hpos. pose proof (leaf_of_ok _ _ _ Ha Hl) as Hok. destruct (leafv_slots l es nx Hok Hv) as (g & Eg & Hlen & Hes & Hg & _). pose proof (lookup_lt_Some _ _ _ He) as Hlt.
  unfold leafRemove. rewrite leaf_size, (leaf_enc _ _ _ Hl). cbv zeta. replace (leafHdr + pos * entrySz + entrySz) with (leafHdr + (pos + 1) * entrySz) by (unfold entrySz; lia).
  rewrite slice_ents by (try apply Hok; unfold zlen; lia). set (p := Z.to_nat pos) in *. rewrite <- (take_drop_middle es p e He) in Eg, Hes. rewrite delete_take_drop. set (e1 := take p es) in *. set (e2 := drop (S p) es) in *.
  assert (H1 : length e1 = p) by (subst e1; rewrite length_take; lia). assert (H2 : length e2 = (length es - S p)%nat) by (subst e2; by rewrite length_drop).
  assert (Esl : sl (al_ents l) (pos + 1) (zlen es - (pos + 1)) = e2).
  { unfold sl. rewrite ztake_take, zdrop_drop, Eg, <- (assoc_L (++)). replace (Z.to_nat (pos + 1)) with (length e1 + 1)%nat by lia. rewrite drop_app_add. cbn [drop app]. replace (Z.to_nat (zlen es - (pos + 1))) with (length e2) by (unfold zlen; lia). apply take_app_length. }
  rewrite Esl. unfold copy_in. assert (Hz : zlen (enc_leaf l) = 512) by (apply zlen_enc_leaf; apply Hok). rewrite Hz. replace (_ && _ && _) with true by (unfold leafHdr, entrySz, zlen; lia).
  rewrite ztake_all by (rewrite zlen_ents; unfold leafHdr, entrySz, zlen; lia). rewrite put_ents by (try apply Hok; unfold zlen; lia). rewrite (set_leaf_enc _ _ _ _ Hl). set (l1 := set_ents l _). destruct (leaf_write l1 l1) as [Hl1 _].
  rewrite (lSetNent_enc _ _ _ Hl1), upd_leaf_upd. eexists. split; [done|]. apply Forall_app in Hes as [Hes1 [He' Hes2]%Forall_cons].
  apply (leafv_new _ (e1 ++ e2) (drop (length e2) (e :: e2 ++ g))); cbn; [unfold zlen; rewrite length_app; lia|apply Hv| |destruct Hv as (_ & <- & _); apply Hok|by apply Forall_app|apply Forall_drop; constructor; [done|by apply Forall_app]|].
  - rewrite Eg, <- !(assoc_L (++)). fold p. rewrite <- H1. rewrite take_app_length. do 2 f_equal. by rewrite drop_app_add.
  - rewrite length_app, length_drop. cbn [length]. rewrite length_app. lia.
Qed.
End leaf_ops.

(** ** Allocation *)

Definition tree_core (a : arena) : Z * bool * Z * Z := let t := ar_rest a in (t_root t, t_rootIsLeaf t, t_height t, t_entries t).
Definition edges (a : arena) : Z * Z := let t := ar_rest a in (t_minLeaf t, t_maxLeaf t).

Lemma ix_app_new {A} (l : list A) x o : o = zlen l -> get_at (l ++ [x]) o = Ok x.
Proof. intros ->. unfold get_at. pose proof (zlen_nonneg l). destruct (Z.ltb_spec (zlen l) 0); [lia|]. replace (Z.to_nat (zlen l)) with (length l) by (unfold zlen; lia). by rewrite list_lookup_middle. Qed.

Lemma ix_set_app_new {A} (l : list A) x y o : o = zlen l -> ix_set (l ++ [x]) o y = Ok (l ++ [y]).
Proof. intros Ho. unfold ix_set. rewrite (ix_app_new l x o Ho). subst o. replace (Z.to_nat (zlen l)) with (length l) by (unfold zlen; lia). rewrite insert_app_r_alt, Nat.sub_diag by lia. done. Qed.

Lemma seqZ_succ n : 0 <= n -> seqZ 0 (n + 1) = seqZ 0 n ++ [n].
Proof. intros Hn. rewrite seqZ_app by lia. cbn. done. Qed.

(** What an allocation from one of the arenas guarantees. *)
Record leaf_alloc (a a' : arena) (o : Z) (L B : list Z) : Prop := {
  la_ok : arena_ok a';
  la_new : leaf_of a' o = Some clear_leaf;
  la_old : forall o', o' ∈ L -> leaf_of a' o' = leaf_of a o';
  la_branches : ar_branches a' = ar_branches a;
  la_own : own a' (o :: L) B;
  la_core : tree_core a' = tree_core a /\ edges a' = edges a;
  la_size : zlen (ar_leaves a') <= zlen (ar_leaves a) + 1;
  la_range : is_u32 o
}.

Lemma allocLeaf_ok a L B : arena_ok a -> own a L B -> zlen (ar_leaves a) < two32 - 1 -> exists a' o, allocLeaf (enc a) = Ok (enc a', o) /\ leaf_alloc a a' o L B.
Proof.
  intros Ha Hown Hsz. pose proof (own_NoDup _ _ _ Hown) as [HL _]. destruct Hown as [H1 H2]. unfold allocLeaf. cbn [enc t_leafFree t_nLeaf t_leaves]. destruct (last (t_leafFree (ar_rest a))) as [o|] eqn:El.
  - apply last_Some in El as [fr Efr]. rewrite Efr, length_app. cbn [length]. rewrite Nat.add_sub, take_app_length.
    assert (Ho : o ∈ seqZ 0 (zlen (ar_leaves a))) by (rewrite <- H1, Efr; rewrite !elem_of_app; right; right; left). apply elem_of_seqZ in Ho.
    destruct (lookup_lt_is_Some_2 (ar_leaves a) (Z.to_nat o)) as [l Hl]; [unfold zlen in Ho; lia|]. assert (Hlo : leaf_of a o = Some l) by (unfold leaf_of; destruct (Z.ltb_spec o 0); [lia|done]).
    set (a0 := mkArena (ar_leaves a) (ar_branches a) (with_leaves (ar_rest a) [] fr (t_nLeaf (ar_rest a)))). assert (Hl0 : leaf_of a0 o = Some l) by done. match goal with |- context [clearLeaf ?T o] => change T with (enc a0) end.
    unfold clearLeaf. rewrite (leaf_enc _ _ _ Hl0), <- enc_clear_leaf, (set_leaf_enc _ _ _ _ Hl0). exists (upd_leaf a0 o clear_leaf), o. split; [done|]. split.
    + apply arena_ok_upd_leaf; [|apply clear_leaf_ok]. destruct Ha as [? ? ? ?]. by split.
    + by eapply leaf_of_upd.
    + intros o' Ho'. apply (leaf_of_upd_ne a0); [lia|]. intros ->. rewrite Efr in H1. assert (HN : NoDup (L ++ fr ++ [o'])) by (rewrite H1; apply NoDup_seqZ). apply NoDup_app in HN as (_ & HN & _). apply (HN o' Ho'), elem_of_app. right. left.
    + done.
    + apply own_upd_leaf. split; [|done]. cbn. rewrite <- H1, Efr. solve_Permutation.
    + done.
    + cbn. unfold zlen. rewrite length_insert. lia.
    + unfold is_u32. lia.
  - apply last_None in El. rewrite (ao_nLeaf _ Ha). set (n := zlen (ar_leaves a)) in *. assert (Hn0 : 0 <= n) by apply zlen_nonneg.
    set (a0 := mkArena (ar_leaves a ++ [clear_leaf]) (ar_branches a) (with_leaves (ar_rest a) [] (t_leafFree (ar_rest a)) (n + 1))). exists a0, n.
    assert (En : n = zlen (enc_leaf <$> ar_leaves a)) by (unfold zlen; by rewrite length_fmap). assert (Hnew : forall o', o' <> n -> 0 <= o' -> leaf_of a0 o' = leaf_of a o').
    { intros o' Hne Ho. unfold leaf_of. destruct (o' <? 0); [done|]. cbn. destruct (decide (o' < n)); [by rewrite lookup_app_l by (unfold n, zlen in *; lia)|]. rewrite !lookup_ge_None_2; [done|unfold n, zlen in *; lia|rewrite length_app; cbn; unfold n, zlen in *; lia]. }
    split.
    + unfold clearLeaf, leaf, set_leaf. cbn [with_leaves t_leaves]. rewrite (ix_app_new _ _ _ En), (ix_set_app_new _ _ _ _ En), <- enc_clear_leaf. unfold cast32. rewrite Z.mod_small by lia. unfold enc, a0, with_leaves. cbn. by rewrite fmap_app.
    + split.
      * destruct Ha as [? ? ? ?]. split; cbn; [apply Forall_app; split; [done|apply Forall_singleton, clear_leaf_ok]|done|rewrite zlen_app, zlen_cons, zlen_nil; unfold n; lia|done].
      * unfold leaf_of. destruct (Z.ltb_spec n 0); [lia|]. cbn. replace (Z.to_nat n) with (length (ar_leaves a)) by (unfold n, zlen; lia). by apply list_lookup_middle.
      * intros o' Ho'. assert (Hr : o' ∈ seqZ 0 n) by (rewrite <- H1; apply elem_of_app; by left). apply elem_of_seqZ in Hr. apply Hnew; lia.
      * done.
      * split; [|done]. cbn. rewrite El, app_nil_r in *. replace (zlen (ar_leaves a ++ [clear_leaf])) with (n + 1) by (rewrite zlen_app, zlen_cons, zlen_nil; unfold n; lia). rewrite (seqZ_succ n) by done. etransitivity; [by apply perm_skip|]. apply (Permutation_app_comm [n]).
      * done.
      * cbn. rewrite zlen_app, zlen_cons, zlen_nil. unfold n. lia.
      * unfold is_u32. lia.
Qed.
