(* ===== verification/TreeBranches.v ===== *)
(** What each branch operation of the counted tree does to its node (engine/f3/struct/tree.go).
    A branch is seen as two arrays of pairs: its separators with their member references and its
    children with their counts.  The shifting loops move one run of an array by one slot. *)

From S2P Require Import Prelude Ordered TreeBlocks TreeArrays TreeOps TreeShape TreeNodes.
#[local] Open Scope Z_scope.

(** ** Branches as arrays of pairs *)

Definition kid_ok (x : Z * Z) : Prop := is_u32 x.1 /\ is_u32 x.2.

Record bview_ok (k : Z) (ss ks : list (Z * Z)) : Prop := {
  bv_k : is_u8 k;
  bv_ss : length ss = 15%nat;
  bv_ents : Forall ent_ok ss;
  bv_ks : length ks = 16%nat;
  bv_kids : Forall kid_ok ks
}.

Lemma mkB_ok k ss ks : bview_ok k ss ks <-> branch_ok (mkB k ss ks).
Proof.
  split.
  - intros [? ? He ? Hk]. unfold ent_ok, kid_ok in *. apply Forall_and in He as [? ?], Hk as [? ?]. split; cbn; [done|..]; (split; [by rewrite length_fmap|by apply Forall_fmap]).
  - intros [Gk [G1 G2] [G3 G4] [G5 G6] [G7 G8]]. cbn in *. rewrite !length_fmap in *. rewrite !Forall_fmap in *. split; try done; apply Forall_and; done.
Qed.

Lemma view_branch b : branch_ok b -> exists ss ks, b = mkB (ab_k b) ss ks.
Proof.
  intros [? [? _] [? _] [? _] [? _]]. exists (zip (ab_seps b) (ab_refs b)), (zip (ab_kids b) (ab_cnts b)). unfold mkB. rewrite !fst_zip, !snd_zip by lia. by destruct b.
Qed.

Lemma zlen_snoc {A} (l : list A) x : zlen (l ++ [x]) = zlen l + 1.
Proof. unfold zlen. rewrite length_app. cbn. lia. Qed.

Lemma zip_fst_snd {A B} (l : list (A * B)) : zip l.*1 l.*2 = l.
Proof. induction l as [|[x y] l IH]; cbn; [done|]. by f_equal. Qed.

Lemma mkB_inj k ss ks k' ss' ks' : mkB k ss ks = mkB k' ss' ks' -> k = k' /\ ss = ss' /\ ks = ks'.
Proof. intros [= -> E1 E2 E3 E4]. split_and!; [done| |]; [rewrite <- (zip_fst_snd ss), <- (zip_fst_snd ss')|rewrite <- (zip_fst_snd ks), <- (zip_fst_snd ks')]; congruence. Qed.

Lemma upd_branch_id a o b : branch_of a o = Some b -> upd_branch a o b = a.
Proof. unfold branch_of, upd_branch. destruct (o <? 0); [done|]. intros H. rewrite list_insert_id by done. by destruct a. Qed.

(** ** One cell at a time *)

Section node.
Context (a : arena) (o : Z) (b0 : abranch).
Hypothesis (Ha : arena_ok a) (Hb : branch_of a o = Some b0).

Definition at_ (k : Z) (ss ks : list (Z * Z)) : arena := upd_branch a o (mkB k ss ks).

Lemma at_branch k ss ks : branch_of (at_ k ss ks) o = Some (mkB k ss ks).
Proof. by eapply branch_of_upd. Qed.
Lemma at_ok k ss ks : bview_ok k ss ks -> arena_ok (at_ k ss ks).
Proof. intros H%mkB_ok. by apply arena_ok_upd_branch. Qed.

Context (k : Z) (ss ks : list (Z * Z)).
Hypothesis (Hok : bview_ok k ss ks).
#[local] Abbreviation t := (enc (at_ k ss ks)).
#[local] Abbreviation Hk := (at_ok _ _ _ Hok).
#[local] Abbreviation Hat := (at_branch k ss ks).

Lemma get_k : bNkeys t o = Ok k.
Proof. by rewrite (bNkeys_enc _ o _ Hk Hat). Qed.

Lemma put_k k' : bSetNkeys t o k' = Ok (enc (at_ k' ss ks)).
Proof. rewrite (bSetNkeys_enc _ o _ Hat). unfold at_. by rewrite upd_branch_upd. Qed.

Context (i : Z).
Hypothesis (H0 : 0 <= i).

Lemma get_sep x : ss !! Z.to_nat i = Some x -> bSepScore t o i = Ok x.1 /\ bSepRef t o i = Ok x.2.
Proof.
  intros Hi. split; [rewrite (bSepScore_enc _ o _ Hk Hat i H0 x.1)|rewrite (bSepRef_enc _ o _ Hk Hat i x.2)]; try done; cbn; by rewrite list_lookup_fmap, Hi.
Qed.

Lemma get_kid x : ks !! Z.to_nat i = Some x -> bChild t o i = Ok x.1 /\ bCount t o i = Ok x.2.
Proof.
  intros Hi. split; [rewrite (bChild_enc _ o _ Hk Hat i H0 x.1)|rewrite (bCount_enc _ o _ Hk Hat i H0 x.2)]; try done; cbn; by rewrite list_lookup_fmap, Hi.
Qed.

Lemma put_sep s r : i < 15 -> bSetSep t o i s r = Ok (enc (at_ k (<[Z.to_nat i := (s, r)]> ss) ks)).
Proof. intros Hi. rewrite (bSetSep_enc _ o _ Hk Hat i H0 s r Hi). unfold at_. rewrite upd_branch_upd. do 3 f_equal. unfold mkB, set_sep. cbn. by rewrite !list_fmap_insert. Qed.

Lemma put_child c x : ks !! Z.to_nat i = Some x -> bSetChild t o i c = Ok (enc (at_ k ss (<[Z.to_nat i := (c, x.2)]> ks))).
Proof.
  intros Hx. pose proof (lookup_lt_Some _ _ _ Hx) as Hi. rewrite (bv_ks _ _ _ Hok) in Hi. rewrite (bSetChild_enc _ o _ Hk Hat i H0 c) by lia. unfold at_. rewrite upd_branch_upd. do 3 f_equal. unfold mkB, set_kid. cbn. rewrite !list_fmap_insert. cbn. f_equal. symmetry. apply list_insert_id. by rewrite list_lookup_fmap, Hx.
Qed.

Lemma put_count n x : ks !! Z.to_nat i = Some x -> bSetCount t o i n = Ok (enc (at_ k ss (<[Z.to_nat i := (x.1, n)]> ks))).
Proof.
  intros Hx. pose proof (lookup_lt_Some _ _ _ Hx) as Hi. rewrite (bv_ks _ _ _ Hok) in Hi. rewrite (bSetCount_enc _ o _ Hk Hat i H0 n) by lia. unfold at_. rewrite upd_branch_upd. do 3 f_equal. unfold mkB, set_cnt. cbn. rewrite !list_fmap_insert. cbn. f_equal. symmetry. apply list_insert_id. by rewrite list_lookup_fmap, Hx.
Qed.

Lemma move_sep dst x : ss !! Z.to_nat i = Some x -> 0 <= dst < 15 -> bMoveSep t o dst i = bSetSep t o dst x.1 x.2.
Proof. intros Hx Hd. unfold bMoveSep. by destruct (get_sep x Hx) as [-> ->]. Qed.
End node.

Lemma bview_sep k ss ks i x : bview_ok k ss ks -> ent_ok x -> bview_ok k (<[i := x]> ss) ks.
Proof. intros [? ? ? ? ?] ?. split; try done; [by rewrite length_insert|by apply Forall_insert]. Qed.
Lemma bview_kid k ss ks i x : bview_ok k ss ks -> kid_ok x -> bview_ok k ss (<[i := x]> ks).
Proof. intros [? ? ? ? ?] ?. split; try done; [by rewrite length_insert|by apply Forall_insert]. Qed.
Lemma bview_k k k' ss ks : bview_ok k ss ks -> is_u8 k' -> bview_ok k' ss ks.
Proof. intros [? ? ? ? ?] ?. by split. Qed.
Lemma kid_at k ss ks i x : bview_ok k ss ks -> ks !! i = Some x -> kid_ok x.
Proof. intros H Hi. eapply (Forall_lookup_1 kid_ok); [apply H|exact Hi]. Qed.
Lemma sep_at k ss ks i x : bview_ok k ss ks -> ss !! i = Some x -> ent_ok x.
Proof. intros H Hi. eapply (Forall_lookup_1 ent_ok); [apply H|exact Hi]. Qed.
#[export] Hint Resolve bview_sep bview_kid bview_k : nodes.

Section moves.
Context (a : arena) (o : Z) (b0 : abranch).
Hypothesis (Ha : arena_ok a) (Hb : branch_of a o = Some b0).
#[local] Abbreviation now k ss ks := (enc (at_ a o k ss ks)).

(** A child with its count. *)
Lemma put_kid k ss ks i x : bview_ok k ss ks -> 0 <= i < 16 -> kid_ok x ->
  (let* t := bSetChild (now k ss ks) o i x.1 in bSetCount t o i x.2) = Ok (now k ss (<[Z.to_nat i := x]> ks)) /\ bview_ok k ss (<[Z.to_nat i := x]> ks).
Proof.
  intros Hok Hi Hx. split; [|by apply bview_kid]. destruct (lookup_lt_is_Some_2 ks (Z.to_nat i)) as [y Hy]; [rewrite (bv_ks _ _ _ Hok); lia|].
  rewrite (put_child a o b0 Ha Hb k ss ks Hok i ltac:(lia) x.1 y Hy). assert (Hok1 : bview_ok k ss (<[Z.to_nat i := (x.1, y.2)]> ks)).
  { apply bview_kid; [done|]. split; [apply Hx|apply (kid_at _ _ _ _ _ Hok Hy)]. }
  rewrite (put_count a o b0 Ha Hb k ss _ Hok1 i ltac:(lia) x.2 (x.1, y.2)); [|apply list_lookup_insert_eq; eapply lookup_lt_Some, Hy]. cbn. by rewrite list_insert_insert_eq, <- surjective_pairing.
Qed.

Lemma move_kid_ok k ss ks dst src x : bview_ok k ss ks -> 0 <= src -> ks !! Z.to_nat src = Some x -> 0 <= dst < 16 -> dst <> src ->
  move_kid o dst src (now k ss ks) = Ok (now k ss (<[Z.to_nat dst := x]> ks)) /\ bview_ok k ss (<[Z.to_nat dst := x]> ks).
Proof.
  intros Hok Hs Hx Hd Hne. assert (Hkx : kid_ok x) by (by eapply kid_at). destruct (put_kid k ss ks dst x Hok Hd Hkx) as [E Hok']. split; [|done]. rewrite <- E. unfold move_kid.
  destruct (get_kid a o b0 Ha Hb k ss ks Hok src Hs x Hx) as [-> _]. destruct (lookup_lt_is_Some_2 ks (Z.to_nat dst)) as [y Hy]; [rewrite (bv_ks _ _ _ Hok); lia|].
  rewrite (put_child a o b0 Ha Hb k ss ks Hok dst ltac:(lia) x.1 y Hy). assert (Hok1 : bview_ok k ss (<[Z.to_nat dst := (x.1, y.2)]> ks)).
  { apply bview_kid; [done|]. split; [apply Hkx|apply (kid_at _ _ _ _ _ Hok Hy)]. }
  destruct (get_kid a o b0 Ha Hb k ss _ Hok1 src Hs x) as [_ ->]; [|done]. by rewrite list_lookup_insert_ne by lia.
Qed.

Lemma move_sep_ok k ss ks dst src x : bview_ok k ss ks -> 0 <= src -> ss !! Z.to_nat src = Some x -> 0 <= dst < 15 ->
  bMoveSep (now k ss ks) o dst src = Ok (now k (<[Z.to_nat dst := x]> ss) ks) /\ bview_ok k (<[Z.to_nat dst := x]> ss) ks.
Proof.
  intros Hok Hs Hx Hd. split; [|apply bview_sep; [done|by eapply sep_at]].
  rewrite (move_sep a o b0 Ha Hb k ss ks Hok src Hs dst x Hx Hd), (put_sep a o b0 Ha Hb k ss ks Hok dst) by lia. by rewrite <- surjective_pairing.
Qed.

(** The loops [for i := |A|+|M|; i > |A|; i--] and [for i := |A|; i < |A|+|M|; i++]. *)
Lemma shift_kids_right k ss A M y B : bview_ok k ss (A ++ M ++ y :: B) ->
  exists z, for_down (length M) (zlen A + zlen M) (fun i t => move_kid o i (i - 1) t) (now k ss (A ++ M ++ y :: B)) = Ok (now k ss (A ++ z :: M ++ B)) /\ bview_ok k ss (A ++ z :: M ++ B).
Proof.
  revert y B. induction M as [|x M IH] using rev_ind; intros y B Hok; [by exists y|]. rewrite length_app, Nat.add_1_r. cbn [for_down]. pose proof (bv_ks _ _ _ Hok) as Hl. rewrite !length_app in Hl. cbn in Hl.
  destruct (move_kid_ok k ss _ (zlen A + zlen (M ++ [x])) (zlen A + zlen (M ++ [x]) - 1) x Hok) as [E Hok']; rewrite ?zlen_snoc; [unfold zlen; lia| |unfold zlen; lia|lia|].
  { replace (Z.to_nat (zlen A + (zlen M + 1) - 1)) with (length (A ++ M)) by (rewrite length_app; unfold zlen; lia). rewrite <- (assoc_L (++)), (assoc_L (++)). by apply list_lookup_middle. }
  rewrite zlen_snoc in E, Hok'. rewrite E. assert (Ei : <[Z.to_nat (zlen A + (zlen M + 1)) := x]> (A ++ (M ++ [x]) ++ y :: B) = A ++ M ++ x :: x :: B).
  { replace (Z.to_nat (zlen A + (zlen M + 1))) with (length (A ++ M ++ [x])) by (rewrite !length_app; cbn; unfold zlen; lia). rewrite (assoc_L (++) A (M ++ [x])), insert_app_r_alt, Nat.sub_diag by lia. cbn. by rewrite <- !(assoc_L (++)). }
  rewrite Ei in *. destruct (IH x (x :: B) Hok') as (z & E2 & Hok2). exists z. replace (zlen A + (zlen M + 1) - 1) with (zlen A + zlen M) by lia. rewrite E2. by rewrite <- !(assoc_L (++)).
Qed.

Lemma shift_seps_right k ks A M y B : bview_ok k (A ++ M ++ y :: B) ks ->
  exists z, for_down (length M) (zlen A + zlen M) (fun i t => bMoveSep t o i (i - 1)) (now k (A ++ M ++ y :: B) ks) = Ok (now k (A ++ z :: M ++ B) ks) /\ bview_ok k (A ++ z :: M ++ B) ks.
Proof.
  revert y B. induction M as [|x M IH] using rev_ind; intros y B Hok; [by exists y|]. rewrite length_app, Nat.add_1_r. cbn [for_down]. pose proof (bv_ss _ _ _ Hok) as Hl. rewrite !length_app in Hl. cbn in Hl.
  destruct (move_sep_ok k _ ks (zlen A + zlen (M ++ [x])) (zlen A + zlen (M ++ [x]) - 1) x Hok) as [E Hok']; rewrite ?zlen_snoc; [unfold zlen; lia| |unfold zlen; lia|].
  { replace (Z.to_nat (zlen A + (zlen M + 1) - 1)) with (length (A ++ M)) by (rewrite length_app; unfold zlen; lia). rewrite <- (assoc_L (++)), (assoc_L (++)). by apply list_lookup_middle. }
  rewrite zlen_snoc in E, Hok'. rewrite E. assert (Ei : <[Z.to_nat (zlen A + (zlen M + 1)) := x]> (A ++ (M ++ [x]) ++ y :: B) = A ++ M ++ x :: x :: B).
  { replace (Z.to_nat (zlen A + (zlen M + 1))) with (length (A ++ M ++ [x])) by (rewrite !length_app; cbn; unfold zlen; lia). rewrite (assoc_L (++) A (M ++ [x])), insert_app_r_alt, Nat.sub_diag by lia. cbn. by rewrite <- !(assoc_L (++)). }
  rewrite Ei in *. destruct (IH x (x :: B) Hok') as (z & E2 & Hok2). exists z. replace (zlen A + (zlen M + 1) - 1) with (zlen A + zlen M) by lia. rewrite E2. by rewrite <- !(assoc_L (++)).
Qed.

Lemma shift_kids_left k ss A M y B : bview_ok k ss (A ++ y :: M ++ B) ->
  exists z, for_up (length M) (zlen A) (fun i t => move_kid o i (i + 1) t) (now k ss (A ++ y :: M ++ B)) = Ok (now k ss (A ++ M ++ z :: B)) /\ bview_ok k ss (A ++ M ++ z :: B).
Proof.
  revert y A. induction M as [|x M IH]; intros y A Hok; [by exists y|]. cbn [for_up length]. pose proof (bv_ks _ _ _ Hok) as Hl. rewrite !length_app in Hl. cbn in Hl.
  destruct (move_kid_ok k ss _ (zlen A) (zlen A + 1) x Hok) as [E Hok']; [unfold zlen; lia| |unfold zlen; lia|lia|].
  { replace (Z.to_nat (zlen A + 1)) with (length A + 1)%nat by (unfold zlen; lia). by rewrite lookup_app_r, Nat.add_comm, Nat.add_sub by lia. }
  rewrite E. assert (Ei : <[Z.to_nat (zlen A) := x]> (A ++ y :: (x :: M) ++ B) = (A ++ [x]) ++ x :: M ++ B).
  { replace (Z.to_nat (zlen A)) with (length A) by (unfold zlen; lia). rewrite insert_app_r_alt, Nat.sub_diag by lia. cbn. by rewrite <- !(assoc_L (++)). }
  rewrite Ei in *. destruct (IH x (A ++ [x]) Hok') as (z & E2 & Hok2). exists z. rewrite zlen_snoc in E2. rewrite E2. by rewrite <- !(assoc_L (++)) in *.
Qed.

Lemma shift_seps_left k ks A M y B : bview_ok k (A ++ y :: M ++ B) ks ->
  exists z, for_up (length M) (zlen A) (fun i t => bMoveSep t o i (i + 1)) (now k (A ++ y :: M ++ B) ks) = Ok (now k (A ++ M ++ z :: B) ks) /\ bview_ok k (A ++ M ++ z :: B) ks.
Proof.
  revert y A. induction M as [|x M IH]; intros y A Hok; [by exists y|]. cbn [for_up length]. pose proof (bv_ss _ _ _ Hok) as Hl. rewrite !length_app in Hl. cbn in Hl.
  destruct (move_sep_ok k _ ks (zlen A) (zlen A + 1) x Hok) as [E Hok']; [unfold zlen; lia| |unfold zlen; lia|].
  { replace (Z.to_nat (zlen A + 1)) with (length A + 1)%nat by (unfold zlen; lia). by rewrite lookup_app_r, Nat.add_comm, Nat.add_sub by lia. }
  rewrite E. assert (Ei : <[Z.to_nat (zlen A) := x]> (A ++ y :: (x :: M) ++ B) = (A ++ [x]) ++ x :: M ++ B).
  { replace (Z.to_nat (zlen A)) with (length A) by (unfold zlen; lia). rewrite insert_app_r_alt, Nat.sub_diag by lia. cbn. by rewrite <- !(assoc_L (++)). }
  rewrite Ei in *. destruct (IH x (A ++ [x]) Hok') as (z & E2 & Hok2). exists z. rewrite zlen_snoc in E2. rewrite E2. by rewrite <- !(assoc_L (++)) in *.
Qed.
End moves.

(** ** Allocation *)

Definition set_refs (b : abranch) (rs : list Z) : abranch := mkAbranch (ab_k b) (ab_seps b) rs (ab_kids b) (ab_cnts b).

Lemma set_refs_ok b i r : branch_ok b -> is_u32 r -> branch_ok (set_refs b (<[i := r]> (ab_refs b))).
Proof. intros [? ? [? ?] ? ?] ?. split; cbn; try done; (split; [by rewrite length_insert|by apply Forall_insert]). Qed.

Lemma set_sref_enc a o b i r : arena_ok a -> branch_of a o = Some b -> 0 <= i < 15 -> set_sref (enc a) (o * sepMax + i) r = Ok (enc (upd_branch a o (set_refs b (<[Z.to_nat i := r]> (ab_refs b))))).
Proof.
  intros Ha Hb Hi. pose proof (branch_of_ok _ _ _ Ha Hb) as Hok. destruct (lookup_lt_is_Some_2 (ab_refs b) (Z.to_nat i)) as [y Hy]; [rewrite (proj1 (bo_refs _ Hok)); lia|].
  destruct (srefs_at a o b Hb) as [Ho Ho0]. unfold set_sref, ix_set. rewrite (sref_enc a o b Ha Hb i y Hy ltac:(lia)).
  unfold enc, with_branches, upd_branch. cbn [t_leaves t_branches t_srefs t_leafFree t_branchFree t_nLeaf t_nBranch t_root t_rootIsLeaf t_height t_entries t_minLeaf t_maxLeaf ar_leaves ar_branches ar_rest].
  change sepMax with 15. replace (Z.to_nat (o * 15 + i)) with (Z.to_nat o * 15 + Z.to_nat i)%nat by lia.
  rewrite !list_fmap_insert, (list_insert_id (enc_branch <$> _)); [|unfold branch_of in Hb; destruct (o <? 0); [done|]; rewrite list_lookup_fmap, Hb; done].
  rewrite (groups_insert 15 _ _ _ _ _ (srefs_width a Ha) Ho); [done|rewrite (proj1 (bo_refs _ Hok)); lia].
Qed.

Lemma clear_srefs_enc n a o b i : arena_ok a -> branch_of a o = Some b -> 0 <= i -> i + Z.of_nat n <= 15 ->
  clear_srefs n (enc a) (o * sepMax + i) = Ok (enc (upd_branch a o (set_refs b (take (Z.to_nat i) (ab_refs b) ++ replicate n 0 ++ drop (Z.to_nat i + n) (ab_refs b))))).
Proof.
  revert a b i. induction n as [|n IH]; intros a b i Ha Hb Hi Hn.
  - cbn. rewrite Nat.add_0_r, take_drop. replace (set_refs b (ab_refs b)) with b by (by destruct b). by rewrite upd_branch_id.
  - cbn [clear_srefs]. pose proof (branch_of_ok _ _ _ Ha Hb) as Hok. rewrite (set_sref_enc a o b i 0 Ha Hb) by lia. set (b1 := set_refs b _). assert (Hb1 : branch_of (upd_branch a o b1) o = Some b1) by (by eapply branch_of_upd).
    rewrite <- Z.add_assoc. rewrite (IH _ b1 (i + 1)); [|apply arena_ok_upd_branch; [done|apply set_refs_ok; [done|unfold is_u32; lia]]|done|lia|lia]. rewrite upd_branch_upd. do 4 f_equal. unfold b1. cbn.
    assert (Hl : (Z.to_nat i < length (ab_refs b))%nat) by (rewrite (proj1 (bo_refs _ Hok)); lia). replace (Z.to_nat (i + 1)) with (S (Z.to_nat i)) by lia.
    rewrite (take_S_r _ _ 0) by (by apply list_lookup_insert_eq). rewrite take_insert_ge, drop_insert_lt by lia. rewrite <- (assoc_L (++)). cbn. do 3 f_equal. f_equal. lia.
Qed.

(** What an allocation from the branch arena guarantees. *)
Record branch_alloc (a a' : arena) (o : Z) (L B : list Z) : Prop := {
  ba_ok : arena_ok a';
  ba_new : branch_of a' o = Some clear_branch;
  ba_old : forall o', o' ∈ B -> branch_of a' o' = branch_of a o';
  ba_leaves : ar_leaves a' = ar_leaves a;
  ba_own : own a' L (o :: B);
  ba_core : tree_core a' = tree_core a /\ edges a' = edges a;
  ba_size : zlen (ar_branches a') <= zlen (ar_branches a) + 1;
  ba_range : is_u32 o
}.

(** A block whose bytes are those of a cleared branch, its references cleared. *)
Lemma clear_refs_enc a o b : arena_ok a -> branch_of a o = Some (set_refs clear_branch b) -> clear_srefs (Z.to_nat sepMax) (enc a) (o * sepMax) = Ok (enc (upd_branch a o clear_branch)).
Proof.
  intros Ha Hb. pose proof (branch_of_ok _ _ _ Ha Hb) as Hok. rewrite <- (Z.add_0_r (o * sepMax)), (clear_srefs_enc _ _ _ _ _ Ha Hb) by done. do 4 f_equal. unfold clear_branch, set_refs. cbn. f_equal.
  rewrite drop_ge; [done|]. destruct Hok as [_ _ [Hr _] _ _]. cbn in Hr. rewrite Hr. done.
Qed.

Lemma allocBranch_ok a L B : arena_ok a -> own a L B -> zlen (ar_branches a) < two32 - 1 -> exists a' o, allocBranch (enc a) = Ok (enc a', o) /\ branch_alloc a a' o L B.
Proof.
  intros Ha Hown Hsz. destruct Hown as [H1 H2]. unfold allocBranch. cbn [enc t_branchFree t_nBranch t_branches t_srefs]. destruct (last (t_branchFree (ar_rest a))) as [o|] eqn:El.
  - apply last_Some in El as [fr Efr]. rewrite Efr, length_app. cbn [length]. rewrite Nat.add_sub, take_app_length.
    assert (Ho : o ∈ seqZ 0 (zlen (ar_branches a))) by (rewrite <- H2, Efr; rewrite !elem_of_app; right; right; left). apply elem_of_seqZ in Ho.
    destruct (lookup_lt_is_Some_2 (ar_branches a) (Z.to_nat o)) as [b Hb]; [unfold zlen in Ho; lia|]. assert (Hbo : branch_of a o = Some b) by (unfold branch_of; destruct (Z.ltb_spec o 0); [lia|done]). pose proof (branch_of_ok _ _ _ Ha Hbo) as Hok.
    set (a0 := mkArena (ar_leaves a) (ar_branches a) (with_branches (ar_rest a) [] [] fr (t_nBranch (ar_rest a)))). assert (Hb0 : branch_of a0 o = Some b) by done. match goal with |- context [clearBranch ?T o] => change T with (enc a0) end.
    assert (Ha0 : arena_ok a0) by (destruct Ha as [? ? ? ?]; by split). set (b1 := set_refs clear_branch (ab_refs b)). assert (Hok1 : branch_ok b1) by (destruct clear_branch_ok as [? ? _ ? ?]; destruct Hok as [_ _ ? _ _]; by split).
    unfold clearBranch. rewrite (branch_enc _ _ _ Hb0), <- enc_clear_branch. change (enc_branch clear_branch) with (enc_branch b1). rewrite (set_branch_enc _ _ _ b1 Hb0 eq_refl).
    rewrite (clear_refs_enc _ o (ab_refs b)); [|by apply arena_ok_upd_branch|by eapply branch_of_upd]. rewrite upd_branch_upd. exists (upd_branch a0 o clear_branch), o. split; [done|]. split.
    + apply arena_ok_upd_branch; [done|apply clear_branch_ok].
    + by eapply branch_of_upd.
    + intros o' Ho'. apply (branch_of_upd_ne a0); [lia|]. intros ->. rewrite Efr in H2. assert (HN : NoDup (B ++ fr ++ [o'])) by (rewrite H2; apply NoDup_seqZ). apply NoDup_app in HN as (_ & HN & _). apply (HN o' Ho'), elem_of_app. right. left.
    + done.
    + apply own_upd_branch. split; [done|]. cbn. rewrite <- H2, Efr. solve_Permutation.
    + done.
    + cbn. unfold zlen. rewrite length_insert. lia.
    + unfold is_u32. lia.
  - apply last_None in El. rewrite (ao_nBranch _ Ha). set (n := zlen (ar_branches a)) in *. assert (Hn0 : 0 <= n) by apply zlen_nonneg.
    set (a0 := mkArena (ar_leaves a) (ar_branches a ++ [clear_branch]) (with_branches (ar_rest a) [] [] (t_branchFree (ar_rest a)) (n + 1))). exists a0, n.
    assert (En : n = zlen (enc_branch <$> ar_branches a)) by (unfold zlen; by rewrite length_fmap). assert (Hnew : forall o', o' <> n -> 0 <= o' -> branch_of a0 o' = branch_of a o').
    { intros o' Hne Ho. unfold branch_of. destruct (o' <? 0); [done|]. cbn. destruct (decide (o' < n)); [by rewrite lookup_app_l by (unfold n, zlen in *; lia)|]. rewrite !lookup_ge_None_2; [done|unfold n, zlen in *; lia|rewrite length_app; cbn; unfold n, zlen in *; lia]. }
    assert (Hat : branch_of a0 n = Some clear_branch). { unfold branch_of. destruct (Z.ltb_spec n 0); [lia|]. cbn. replace (Z.to_nat n) with (length (ar_branches a)) by (unfold n, zlen; lia). by apply list_lookup_middle. }
    assert (Ha0 : arena_ok a0). { destruct Ha as [? ? ? ?]. split; cbn; [done|apply Forall_app; split; [done|apply Forall_singleton, clear_branch_ok]|done|rewrite zlen_snoc; done]. }
    split.
    + unfold clearBranch, branch, set_branch. cbn [with_branches t_branches]. rewrite (ix_app_new _ _ _ En), (ix_set_app_new _ _ _ _ En), <- enc_clear_branch. unfold cast32. rewrite Z.mod_small by lia.
      match goal with |- context [clear_srefs _ ?T _] => replace T with (enc a0) end; [by rewrite (clear_refs_enc a0 n (ab_refs clear_branch) Ha0 Hat), upd_branch_id|].
      unfold enc, a0, with_branches. cbn [ar_leaves ar_branches ar_rest t_leaves t_branches t_srefs t_leafFree t_branchFree t_nLeaf t_nBranch t_root t_rootIsLeaf t_height t_entries t_minLeaf t_maxLeaf]. rewrite !fmap_app, concat_app. done.
    + split; try done.
      * intros o' Ho'. assert (Hr : o' ∈ seqZ 0 n) by (rewrite <- H2; apply elem_of_app; by left). apply elem_of_seqZ in Hr. apply Hnew; lia.
      * split; [done|]. cbn. rewrite El, app_nil_r in *. rewrite zlen_snoc. fold n. rewrite (seqZ_succ n) by done. etransitivity; [by apply perm_skip|]. apply (Permutation_app_comm [n]).
      * cbn. rewrite zlen_snoc. lia.
      * unfold is_u32. lia.
Qed.

(** ** Inserting a child *)

Lemma branchv_view b seps kids : branch_ok b -> branchv b seps kids -> exists gs gk, b = mkB (zlen seps) (seps ++ gs) (kids ++ gk) /\ bview_ok (zlen seps) (seps ++ gs) (kids ++ gk) /\ (length seps + length gs = 15)%nat /\ (length kids + length gk = 16)%nat.
Proof.
  intros Hok (gs & gk & ->). apply mkB_ok in Hok. exists gs, gk. pose proof (bv_ss _ _ _ Hok) as H1. pose proof (bv_ks _ _ _ Hok) as H2. rewrite length_app in *. done.
Qed.

Lemma branchv_new k seps gs kids gk ks ss : k = zlen seps -> ss = seps ++ gs -> ks = kids ++ gk -> bview_ok k ss ks -> branch_ok (mkB k ss ks) /\ branchv (mkB k ss ks) seps kids.
Proof. intros -> -> -> H. split; [by apply mkB_ok|]. by exists gs, gk. Qed.

Lemma insert_here {A} (l1 : list A) x y l2 i : i = zlen l1 -> <[Z.to_nat i := y]> (l1 ++ x :: l2) = l1 ++ y :: l2.
Proof. intros ->. replace (Z.to_nat (zlen l1)) with (length l1) by (unfold zlen; lia). rewrite insert_app_r_alt, Nat.sub_diag by lia. done. Qed.
Lemma lookup_here {A} (l1 : list A) x l2 i : i = zlen l1 -> (l1 ++ x :: l2) !! Z.to_nat i = Some x.
Proof. intros ->. replace (Z.to_nat (zlen l1)) with (length l1) by (unfold zlen; lia). by apply list_lookup_middle. Qed.

Lemma view_enc a o b k ss ks : branch_of a o = Some b -> b = mkB k ss ks -> enc a = enc (at_ a o k ss ks).
Proof. intros Hb ->. unfold at_. by rewrite upd_branch_id. Qed.

Section write.
Context (a : arena) (o : Z) (b0 : abranch).
Hypothesis (Ha : arena_ok a) (Hb : branch_of a o = Some b0).
#[local] Abbreviation now k ss ks := (enc (at_ a o k ss ks)).

Lemma write_kids_ok k ss l A M B : bview_ok k ss (A ++ M ++ B) -> length M = length l -> Forall kid_ok l ->
  write_kids (now k ss (A ++ M ++ B)) o (zlen A) l = Ok (now k ss (A ++ l ++ B)) /\ bview_ok k ss (A ++ l ++ B).
Proof.
  revert A M. induction l as [|[c n] l IH]; intros A [|m M] Hok Hl Hk; try done. injection Hl as Hl. apply Forall_cons in Hk as [Hx Hk]. cbn [write_kids]. pose proof (bv_ks _ _ _ Hok) as Hz. rewrite !length_app in Hz. cbn in Hz.
  destruct (put_kid a o b0 Ha Hb k ss _ (zlen A) (c, n) Hok) as [E Hok']; [unfold zlen; lia|done|]. cbn [fst snd] in E. destruct (bSetChild _ _ _ _) as [t| |]; try done. rewrite E. cbn [app] in *. rewrite insert_here in * by done.
  destruct (IH (A ++ [(c, n)]) M) as [E2 Hok2]; [by rewrite <- (assoc_L (++))|done|done|]. rewrite zlen_snoc, <- !(assoc_L (++)) in E2. rewrite <- (assoc_L (++)) in Hok2. cbn [app] in *. by rewrite E2.
Qed.

Lemma write_seps_ok k ks l A M B : bview_ok k (A ++ M ++ B) ks -> length M = length l -> Forall ent_ok l ->
  write_seps (now k (A ++ M ++ B) ks) o (zlen A) l = Ok (now k (A ++ l ++ B) ks) /\ bview_ok k (A ++ l ++ B) ks.
Proof.
  revert A M. induction l as [|[c n] l IH]; intros A [|m M] Hok Hl Hk; try done. injection Hl as Hl. apply Forall_cons in Hk as [Hx Hk]. cbn [write_seps]. pose proof (bv_ss _ _ _ Hok) as Hz. rewrite !length_app in Hz. cbn in Hz.
  rewrite (put_sep a o b0 Ha Hb k _ _ Hok) by (unfold zlen; lia). pose proof (bview_sep _ _ _ (Z.to_nat (zlen A)) (c, n) Hok Hx) as Hok'. cbn [app] in *. rewrite insert_here in * by done.
  destruct (IH (A ++ [(c, n)]) M) as [E2 Hok2]; [by rewrite <- (assoc_L (++))|done|done|]. rewrite zlen_snoc, <- !(assoc_L (++)) in E2. rewrite <- (assoc_L (++)) in Hok2. cbn [app] in *. by rewrite E2.
Qed.
End write.

Section insert_child.
Context (a : arena) (o : Z) (b : abranch) (S1 S2 K1 K2 : list (Z * Z)) (s x : Z * Z).
Hypothesis (Ha : arena_ok a) (Hb : branch_of a o = Some b) (Hv : branchv b (S1 ++ S2) (K1 ++ K2)).
Hypothesis (HK1 : length K1 = S (length S1)) (HK2 : length K2 = length S2) (Hs : ent_ok s) (Hx : kid_ok x).

Lemma branchShiftIn_ok : (length (S1 ++ S2) < 15)%nat ->
  exists b', branchShiftIn (enc a) o (zlen K1) s.1 s.2 x.1 x.2 = Ok (enc (upd_branch a o b')) /\ branch_ok b' /\ branchv b' (S1 ++ s :: S2) (K1 ++ x :: K2).
Proof.
  intros Hlt. pose proof (branch_of_ok _ _ _ Ha Hb) as Hok. destruct (branchv_view _ _ _ Hok Hv) as (gs & gk & E & Hw & Hgs & Hgk). rewrite length_app in Hlt, Hgs, Hgk. destruct gs as [|g1 gs]; [cbn in Hgs; lia|]. destruct gk as [|g2 gk]; [cbn in Hgk; lia|].
  rewrite (view_enc a o b _ _ _ Hb E). rewrite <- !(assoc_L (++)) in *. set (k := zlen (S1 ++ S2)) in *. assert (Hk : k = zlen S1 + zlen S2) by apply zlen_app.
  unfold branchShiftIn. rewrite (get_k a o b Ha Hb _ _ _ Hw). replace (Z.to_nat (k + 1 - zlen K1)) with (length K2) by (unfold zlen in *; lia). 
  destruct (shift_kids_right a o b Ha Hb k _ K1 K2 g2 gk Hw) as (z & E1 & Hw1). replace (zlen K1 + zlen K2) with (k + 1) in E1 by (unfold zlen in *; lia). rewrite E1. destruct (put_kid a o b Ha Hb k _ _ (zlen K1) x Hw1) as [E2 Hw2]; [pose proof (bv_ks _ _ _ Hw1) as Hz; rewrite length_app in Hz; cbn in Hz; unfold zlen; lia|done|].
  destruct (bSetChild _ _ _ _) as [t| |]; try done. rewrite E2. rewrite insert_here in * by done. replace (Z.to_nat (k - (zlen K1 - 1))) with (length S2) by (unfold zlen in *; lia).
  destruct (shift_seps_right a o b Ha Hb k _ S1 S2 g1 gs Hw2) as (z' & E3 & Hw3). rewrite <- Hk in E3. rewrite E3. rewrite (put_sep a o b Ha Hb k _ _ Hw3) by (unfold zlen; lia). pose proof (bview_sep _ _ _ (Z.to_nat (zlen K1 - 1)) s Hw3 Hs) as Hw4. rewrite <- surjective_pairing.
  rewrite insert_here in * by (unfold zlen; lia). rewrite (put_k a o b Hb k _ _). eexists. split; [done|]. apply (branchv_new _ _ gs _ gk); [unfold k; rewrite !zlen_app, zlen_cons; lia|by rewrite <- (assoc_L (++))|by rewrite <- (assoc_L (++))|]. eapply bview_k; [done|]. unfold is_u8, zlen in *. lia.
Qed.

End insert_child.

Section gather.
Context (a : arena) (o : Z) (b : abranch) (S1 S2 K1 K2 : list (Z * Z)) (s x : Z * Z).
Hypothesis (Ha : arena_ok a) (Hb : branch_of a o = Some b).

(** The children and separators of a full branch with the newcomer among them. *)
Lemma gather_kids_tail ci D R : branch_of a o = Some (mkB (zlen (S1 ++ S2)) (S1 ++ S2) (D ++ R)) -> ci < zlen D -> gather_kids (length R) (enc a) o (zlen D) ci x = Ok R.
Proof.
  intros Hm Hc. pose proof (branch_of_ok _ _ _ Ha Hm) as Hw%mkB_ok. revert D Hm Hc Hw. induction R as [|y R IH]; intros D Hm Hc Hw; [done|]. cbn [length gather_kids].
  rewrite <- (upd_branch_id a o _ Hm). destruct (get_kid a o b Ha Hb _ _ _ Hw (zlen D) (zlen_nonneg _) y) as [E1 E2]; [by apply lookup_here|]. unfold at_ in E1, E2. rewrite E1, E2. rewrite (upd_branch_id a o _ Hm). specialize (IH (D ++ [y])). rewrite <- (assoc_L (++)), zlen_snoc in IH. rewrite IH by (done || lia).
  destruct (Z.eqb_spec (zlen D) ci); [lia|]. cbn. by rewrite <- surjective_pairing.
Qed.

Lemma gather_kids_ok D R : branch_of a o = Some (mkB (zlen (S1 ++ S2)) (S1 ++ S2) (D ++ R ++ K2)) -> K1 = D ++ R ->
  gather_kids (length (R ++ K2)) (enc a) o (zlen D) (zlen K1) x = Ok (R ++ match K2 with [] => [] | _ => x :: K2 end).
Proof.
  intros Hm E. pose proof (branch_of_ok _ _ _ Ha Hm) as Hw%mkB_ok. revert D Hm E Hw. induction R as [|y R IH]; intros D Hm E Hw; cbn [app] in *.
  - rewrite app_nil_r in E. subst D. destruct K2 as [|y R] eqn:EK; [done|]. clear EK. cbn [length gather_kids]. rewrite <- (upd_branch_id a o _ Hm). destruct (get_kid a o b Ha Hb _ _ _ Hw (zlen K1) (zlen_nonneg _) y) as [E1 E2]; [by apply lookup_here|]. unfold at_ in E1, E2. rewrite E1, E2.
    rewrite (upd_branch_id a o _ Hm). pose proof (gather_kids_tail (zlen K1) (K1 ++ [y]) R) as IH. rewrite <- (assoc_L (++)), zlen_snoc in IH. rewrite IH by (done || lia). rewrite Z.eqb_refl. cbn. by rewrite <- surjective_pairing.
  - cbn [length gather_kids]. rewrite <- (upd_branch_id a o _ Hm). destruct (get_kid a o b Ha Hb _ _ _ Hw (zlen D) (zlen_nonneg _) y) as [E1 E2]; [by apply lookup_here|]. unfold at_ in E1, E2. rewrite E1, E2.
    rewrite (upd_branch_id a o _ Hm). specialize (IH (D ++ [y])). rewrite <- !(assoc_L (++)), zlen_snoc in IH. rewrite IH by done. destruct (Z.eqb_spec (zlen D) (zlen K1)) as [Hz|_]; [rewrite E, zlen_app, zlen_cons in Hz; pose proof (zlen_nonneg R); lia|]. cbn. by rewrite <- surjective_pairing.
Qed.

Lemma gather_seps_tail ks ci i D R : branch_of a o = Some (mkB (zlen (S1 ++ S2)) (D ++ R) ks) -> ci <= i -> gather_seps (length R) (enc a) o i (zlen D) ci s = Ok R.
Proof.
  intros Hm Hc. pose proof (branch_of_ok _ _ _ Ha Hm) as Hw%mkB_ok. revert i D Hm Hc Hw. induction R as [|y R IH]; intros i D Hm Hc Hw; [done|]. cbn [length gather_seps]. destruct (Z.eqb_spec (i + 1) ci); [lia|].
  rewrite <- (upd_branch_id a o _ Hm). destruct (get_sep a o b Ha Hb _ _ _ Hw (zlen D) (zlen_nonneg _) y) as [E1 E2]; [by apply lookup_here|]. unfold at_ in E1, E2. rewrite E1, E2. rewrite (upd_branch_id a o _ Hm). specialize (IH (i + 1) (D ++ [y])). rewrite <- (assoc_L (++)), zlen_snoc in IH. rewrite IH by (done || lia).
  by rewrite <- surjective_pairing.
Qed.

Lemma gather_seps_ok ks D R : branch_of a o = Some (mkB (zlen (S1 ++ S2)) (D ++ R ++ S2) ks) -> S1 = D ++ R ->
  gather_seps (length (R ++ s :: S2)) (enc a) o (zlen D) (zlen D) (zlen S1 + 1) s = Ok (R ++ s :: S2).
Proof.
  intros Hm E. pose proof (branch_of_ok _ _ _ Ha Hm) as Hw%mkB_ok. revert D Hm E Hw. induction R as [|y R IH]; intros D Hm E Hw; cbn [app] in *.
  - rewrite app_nil_r in E. subst D. cbn [length gather_seps]. rewrite Z.eqb_refl. by rewrite (gather_seps_tail ks (zlen S1 + 1) (zlen S1 + 1) S1 S2).
  - cbn [length gather_seps]. destruct (Z.eqb_spec (zlen D + 1) (zlen S1 + 1)) as [Hz|_]; [rewrite E, zlen_app, zlen_cons in Hz; pose proof (zlen_nonneg R); lia|].
    rewrite <- (upd_branch_id a o _ Hm). destruct (get_sep a o b Ha Hb _ _ _ Hw (zlen D) (zlen_nonneg _) y) as [E1 E2]; [by apply lookup_here|]. unfold at_ in E1, E2. rewrite E1, E2.
    rewrite (upd_branch_id a o _ Hm). specialize (IH (D ++ [y])). rewrite <- !(assoc_L (++)), zlen_snoc in IH. rewrite IH by done. by rewrite <- surjective_pairing.
Qed.
End gather.

Ltac follow E := repeat match type of E with (match ?X with Ok _ => _ | Err _ => _ | Panic => _ end = _) => let u := fresh "u" in destruct X as [u| |]; [|discriminate E|discriminate E] end; rewrite E.

(** A node rewritten from the front: its key count, its first children and its first separators. *)
Lemma rewrite_node a o b k ks ss : arena_ok a -> branch_of a o = Some b -> k = zlen ss -> (length ss < 15)%nat -> length ks = S (length ss) -> Forall kid_ok ks -> Forall ent_ok ss ->
  exists b', (let* t := bSetNkeys (enc a) o k in let* t := write_kids t o 0 ks in write_seps t o 0 ss) = Ok (enc (upd_branch a o b')) /\ branch_ok b' /\ branchv b' ss ks.
Proof.
  intros Ha Hb -> Hlt Hks Hk Hs. pose proof (branch_of_ok _ _ _ Ha Hb) as Hok. destruct (view_branch b Hok) as (s0 & k0 & Eb). rewrite Eb in Hok. apply mkB_ok in Hok. pose proof (bv_ss _ _ _ Hok) as Z1. pose proof (bv_ks _ _ _ Hok) as Z2.
  rewrite (view_enc a o b _ _ _ Hb Eb), (put_k a o b Hb).
  assert (Hw : bview_ok (zlen ss) s0 k0) by (eapply bview_k; [done|unfold is_u8, zlen; lia]). 
  assert (Ek : k0 = take (length ks) k0 ++ drop (length ks) k0) by (by rewrite take_drop). assert (Es : s0 = take (length ss) s0 ++ drop (length ss) s0) by (by rewrite take_drop). rewrite Ek in Hw.
  destruct (write_kids_ok a o b Ha Hb (zlen ss) s0 ks [] (take (length ks) k0) (drop (length ks) k0)) as [E1 Hw1]; [done|rewrite length_take; lia|done|]. change (zlen []) with 0 in E1. cbn [app] in *. rewrite <- Ek in E1. rewrite E1. rewrite Es in Hw1.
  destruct (write_seps_ok a o b Ha Hb (zlen ss) (ks ++ drop (length ks) k0) ss [] (take (length ss) s0) (drop (length ss) s0)) as [E2 Hw2]; [done|rewrite length_take; lia|done|]. change (zlen []) with 0 in E2. cbn [app] in *. rewrite <- Es in E2. rewrite E2. eexists. split; [done|]. by apply (branchv_new _ _ (drop (length ss) s0) _ (drop (length ks) k0)).
Qed.

(** What the insertion of a child leaves: the branch grown, or its two halves around the
    promoted separator. *)
Inductive child_inserted (a a' : arena) (o : Z) (seps kids : list (Z * Z)) (L B : list Z) : option (Z * Z * Z) -> Prop :=
  | child_fits b : (length seps <= 15)%nat -> branch_ok b -> branchv b seps kids -> a' = upd_branch a o b -> child_inserted a a' o seps kids L B None
  | child_splits SL SR KL KR bl br us ur rgt :
      seps = SL ++ (us, ur) :: SR -> kids = KL ++ KR -> length SL = 7%nat -> length SR = 8%nat -> length KL = 8%nat -> length KR = 9%nat ->
      arena_ok a' -> branch_of a' o = Some bl -> branchv bl SL KL -> branch_of a' rgt = Some br -> branchv br SR KR ->
      ar_leaves a' = ar_leaves a -> (forall o', o' ∈ B -> branch_of a' o' = branch_of a o') -> own a' L (o :: rgt :: B) -> tree_core a' = tree_core a -> edges a' = edges a ->
      zlen (ar_branches a') <= zlen (ar_branches a) + 1 -> is_u32 rgt -> child_inserted a a' o seps kids L B (Some (us, ur, rgt)).

Section insert_child_ok.
Context (a : arena) (o : Z) (b : abranch) (S1 S2 K1 K2 : list (Z * Z)) (s x : Z * Z) (L B : list Z).
Hypothesis (Ha : arena_ok a) (Hb : branch_of a o = Some b) (Hv : branchv b (S1 ++ S2) (K1 ++ K2)).
Hypothesis (HK1 : length K1 = S (length S1)) (HK2 : length K2 = length S2) (Hs : ent_ok s) (Hx : kid_ok x).
Hypothesis (Hown : own a L (o :: B)) (Hsz : zlen (ar_branches a) < two32 - 1).

Lemma full_view : length (S1 ++ S2) = 15%nat -> b = mkB 15 (S1 ++ S2) (K1 ++ K2) /\ Forall ent_ok (S1 ++ s :: S2) /\ Forall kid_ok (K1 ++ x :: K2).
Proof.
  intros Hf. pose proof (branch_of_ok _ _ _ Ha Hb) as Hok. destruct (branchv_view _ _ _ Hok Hv) as (gs & gk & E & Hw & Hgs & Hgk). rewrite length_app in *. destruct gs; [|cbn in *; lia]. destruct gk; [|cbn in *; lia]. rewrite !app_nil_r in *.
  split; [rewrite E; f_equal; unfold zlen; rewrite length_app; lia|]. pose proof (bv_ents _ _ _ Hw) as F1. pose proof (bv_kids _ _ _ Hw) as F2. rewrite Forall_app in F1, F2. rewrite !Forall_app, !Forall_cons. tauto.
Qed.

(** The lists the code gathers. *)
Lemma gather_full : length (S1 ++ S2) = 15%nat ->
  (let* front := gather_kids 16 (enc a) o 0 (zlen K1) x in Ok (front ++ (if zlen K1 =? 16 then [x] else []))) = (Ok (K1 ++ x :: K2) : P _)
  /\ gather_seps 16 (enc a) o 0 0 (zlen K1) s = Ok (S1 ++ s :: S2).
Proof.
  intros Hf. destruct (full_view Hf) as (E & _). rewrite length_app in Hf. split.
  - pose proof (gather_kids_ok a o b S1 S2 K1 K2 x Ha Hb [] K1) as G. cbn [app] in G. change (zlen []) with 0 in G. rewrite length_app, HK1, HK2 in G. replace (S (length S1) + length S2)%nat with 16%nat in G by lia. rewrite G; [|rewrite Hb, E; unfold zlen; rewrite length_app, Hf; done|done].
    rewrite <- (assoc_L (++)). do 2 f_equal. clear G. destruct (Z.eqb_spec (zlen K1) 16) as [Hz|Hz].
    + assert (K2 = []) as -> by (apply length_zero_iff_nil; unfold zlen in Hz; lia). done.
    + assert (K2 <> []) by (intros EK; rewrite EK in HK2; cbn in HK2; unfold zlen in Hz; lia). destruct K2; [done|]. by rewrite app_nil_r.
  - pose proof (gather_seps_ok a o b S1 S2 s Ha Hb (K1 ++ K2) [] S1) as G. cbn [app] in G. change (zlen []) with 0 in G. rewrite length_app in G. cbn [length] in G. replace (length S1 + S (length S2))%nat with 16%nat in G by lia. replace (zlen K1) with (zlen S1 + 1) by (unfold zlen; lia). rewrite G; [done| |done].
    rewrite Hb, E. unfold zlen. rewrite length_app, Hf. done.
Qed.

Lemma split_at_mid {A} (l : list A) n : (n < length l)%nat -> exists y, get_at l (Z.of_nat n) = (Ok y : P A) /\ l = take n l ++ y :: drop (S n) l.
Proof. intros Hn. destruct (lookup_lt_is_Some_2 l n Hn) as [y Hy]. exists y. unfold get_at. destruct (Z.ltb_spec (Z.of_nat n) 0); [lia|]. rewrite Nat2Z.id, Hy. split; [done|]. by rewrite take_drop_middle. Qed.

Lemma branchInsertChild_ok : (length (S1 ++ S2) <= 15)%nat -> exists a' up, branchInsertChild (enc a) o (zlen K1) s.1 s.2 x.1 x.2 = Ok (enc a', up) /\ child_inserted a a' o (S1 ++ s :: S2) (K1 ++ x :: K2) L B up.
Proof.
  intros Hle. pose proof (branch_of_ok _ _ _ Ha Hb) as Hok. assert (Ek : bNkeys (enc a) o = Ok (zlen (S1 ++ S2))). { rewrite (bNkeys_enc a o b Ha Hb). destruct Hv as (gs & gk & ->). done. }
  unfold branchInsertChild. rewrite Ek. change sepMax with 15. destruct (Z.ltb_spec (zlen (S1 ++ S2)) 15) as [Hlt|Hge].
  - destruct (branchShiftIn_ok a o b S1 S2 K1 K2 s x Ha Hb Hv HK1 HK2 Hs Hx) as (b' & -> & Hok' & Hv'); [unfold zlen in Hlt; lia|]. exists (upd_branch a o b'), None. split; [done|]. econstructor; [|done|done|done]. rewrite length_app in *. cbn. unfold zlen in Hlt. rewrite length_app in Hlt. lia.
  - assert (Hf : length (S1 ++ S2) = 15%nat) by (unfold zlen in Hge; lia). destruct (full_view Hf) as (E & Fs & Fk). destruct (gather_full Hf) as [G1 G2]. replace (zlen (S1 ++ S2)) with 15 by (unfold zlen; lia). change (Z.to_nat (15 + 1)) with 16%nat. change (15 + 1) with 16.
    rewrite <- !surjective_pairing. destruct (gather_kids _ _ _ _ _ _) as [front| |]; try done. injection G1 as G1. rewrite G1. set (kids := K1 ++ x :: K2) in *. set (seps := S1 ++ s :: S2) in *.
    assert (Lk : length kids = 17%nat) by (unfold kids; rewrite length_app in *; cbn; lia). assert (Ls : length seps = 16%nat) by (unfold seps; rewrite length_app in *; cbn; lia).
    rewrite Lk. change (17 - 1)%nat with 16%nat. rewrite G2. replace (zlen kids) with 17 by (unfold zlen; lia). change (17 / 2) with 8. change (8 - 1) with 7. destruct (split_at_mid seps 7 ltac:(lia)) as ([us ur] & E7 & Esp). change (Z.of_nat 7) with 7 in E7. rewrite E7.
    destruct (allocBranch_ok a L (o :: B) Ha Hown Hsz) as (a1 & rgt & -> & [A1 A2 A3 A4 A5 [A6 A6'] A7 A8]). pose proof (own_NoDup _ _ _ A5) as [_ [Hni HN]%NoDup_cons].
    assert (Hbo : branch_of a1 o = Some b) by (rewrite A3; [done|left]).
    destruct (rewrite_node a1 o b 7 (ztake 8 kids) (ztake 7 seps) A1 Hbo) as (bl & E1 & Hl1 & Hl2); rewrite ?ztake_take; try (unfold zlen; rewrite ?length_take, ?Lk, ?Ls; lia); try by apply Forall_take.
    pose proof (arena_ok_upd_branch a1 o bl A1 Hl1) as A1'. assert (Hro : branch_of (upd_branch a1 o bl) rgt = Some clear_branch). { pose proof (branch_of_range _ _ _ Hbo). rewrite branch_of_upd_ne; [done|lia|]. intros ->. apply Hni. left. }
    destruct (rewrite_node (upd_branch a1 o bl) rgt _ 8 (zdrop 8 kids) (zdrop 8 seps) A1' Hro) as (br & E2 & Hr1 & Hr2); rewrite ?zdrop_drop; try (unfold zlen; rewrite ?length_drop, ?Lk, ?Ls; lia); try (by apply Forall_drop).
    rewrite <- ztake_take, <- ztake_take, <- !zdrop_drop. follow E1. change (17 - 8 - 1) with 8. follow E2. rewrite !ztake_take, !zdrop_drop in *. exists (upd_branch (upd_branch a1 o bl) rgt br), (Some (us, ur, rgt)). split; [done|].
    pose proof (branch_of_range _ _ _ Hbo) as Hro1. pose proof (branch_of_range _ _ _ A2) as Hro2. apply not_elem_of_cons in Hni as [Hni1 Hni2]. apply NoDup_cons in HN as [HN1 HN2].
    apply (child_splits _ _ _ _ _ _ _ (take 7 seps) (drop 8 seps) (take 8 kids) (drop 8 kids) bl br); [exact Esp|by rewrite take_drop|..]; try (rewrite ?length_take, ?length_drop, ?Lk, ?Ls; done); try done.
    + by apply arena_ok_upd_branch.
    + rewrite branch_of_upd_ne by lia. by eapply branch_of_upd.
    + by eapply branch_of_upd.
    + intros o' Ho'. rewrite !branch_of_upd_ne; [apply A3; by right|lia|congruence|lia|congruence].
    + apply own_upd_branch, own_upd_branch. eapply own_perm; [exact A5|done|solve_Permutation].
    + cbn. unfold zlen in *. by rewrite !length_insert.
Qed.
End insert_child_ok.

(** ** Cells of a node *)

Section node_cells.
Context (a : arena) (o : Z) (b : abranch).
Hypothesis (Ha : arena_ok a) (Hb : branch_of a o = Some b).

Lemma node_kid seps K1 x K2 i : branchv b seps (K1 ++ x :: K2) -> i = zlen K1 -> bChild (enc a) o i = Ok x.1 /\ bCount (enc a) o i = Ok x.2 /\ kid_ok x.
Proof.
  intros Hv ->. destruct (branchv_view _ _ _ (branch_of_ok _ _ _ Ha Hb) Hv) as (gs & gk & E & Hw & _). rewrite (view_enc a o b _ _ _ Hb E). rewrite <- (assoc_L (++)) in *. cbn [app] in *.
  destruct (get_kid a o b Ha Hb _ _ _ Hw (zlen K1) (zlen_nonneg _) x) as [-> ->]; [by apply lookup_here|]. split_and!; [done|done|]. eapply (kid_at _ _ _ (length K1)); [exact Hw|by apply list_lookup_middle].
Qed.

Lemma node_set_count seps K1 x K2 i n : branchv b seps (K1 ++ x :: K2) -> i = zlen K1 -> is_u32 n -> exists b', bSetCount (enc a) o i n = Ok (enc (upd_branch a o b')) /\ branch_ok b' /\ branchv b' seps (K1 ++ (x.1, n) :: K2).
Proof.
  intros Hv -> Hn. destruct (branchv_view _ _ _ (branch_of_ok _ _ _ Ha Hb) Hv) as (gs & gk & E & Hw & _). rewrite (view_enc a o b _ _ _ Hb E). rewrite <- (assoc_L (++)) in *. cbn [app] in *.
  rewrite (put_count a o b Ha Hb _ _ _ Hw (zlen K1) (zlen_nonneg _) n x); [|by apply lookup_here]. rewrite insert_here by done. eexists. split; [done|]. apply (branchv_new _ _ gs _ gk); [done|done|by rewrite <- (assoc_L (++))|].
  pose proof (bview_kid _ _ _ (length K1) (x.1, n) Hw) as Hw'. rewrite insert_app_r_alt, Nat.sub_diag in Hw' by lia. apply Hw'. assert (Hx : kid_ok x) by (eapply (kid_at _ _ _ (length K1)); [exact Hw|by apply list_lookup_middle]). split; [apply Hx|done].
Qed.

Lemma node_sep S1 s S2 kids i : branchv b (S1 ++ s :: S2) kids -> i = zlen S1 -> bSepScore (enc a) o i = Ok s.1 /\ bSepRef (enc a) o i = Ok s.2 /\ ent_ok s.
Proof.
  intros Hv ->. destruct (branchv_view _ _ _ (branch_of_ok _ _ _ Ha Hb) Hv) as (gs & gk & E & Hw & _). rewrite (view_enc a o b _ _ _ Hb E). rewrite <- (assoc_L (++)) in *. cbn [app] in *.
  destruct (get_sep a o b Ha Hb _ _ _ Hw (zlen S1) (zlen_nonneg _) s) as [-> ->]; [by apply lookup_here|]. split_and!; [done|done|]. eapply (sep_at _ _ _ (length S1)); [exact Hw|by apply list_lookup_middle].
Qed.

Lemma node_set_sep S1 s S2 kids i s' : branchv b (S1 ++ s :: S2) kids -> i = zlen S1 -> ent_ok s' -> exists b', bSetSep (enc a) o i s'.1 s'.2 = Ok (enc (upd_branch a o b')) /\ branch_ok b' /\ branchv b' (S1 ++ s' :: S2) kids.
Proof.
  intros Hv -> Hs. destruct (branchv_view _ _ _ (branch_of_ok _ _ _ Ha Hb) Hv) as (gs & gk & E & Hw & Hl & _). rewrite (view_enc a o b _ _ _ Hb E). rewrite length_app in Hl. cbn in Hl. rewrite <- (assoc_L (++)) in *. cbn [app] in *.
  rewrite (put_sep a o b Ha Hb _ _ _ Hw (zlen S1) (zlen_nonneg _)) by (unfold zlen; lia). rewrite <- surjective_pairing, insert_here by done. eexists. split; [done|]. apply (branchv_new _ _ gs _ gk); [rewrite !zlen_app, !zlen_cons; lia|by rewrite <- (assoc_L (++))|done|].
  pose proof (bview_sep _ _ _ (length S1) s' Hw Hs) as Hw'. rewrite insert_app_r_alt, Nat.sub_diag in Hw' by lia. exact Hw'.
Qed.
End node_cells.
