(* ===== verification/TreeSearch.v ===== *)
(** Searching a node of the counted tree: the bisections over the separators of a branch and the
    entries of a leaf find the place of a key (engine/f3/struct/tree.go). *)

From stdpp Require Import sorting.
From S2P Require Import Prelude Ordered TreeBlocks TreeArrays TreeOps TreeShape TreeNodes TreeBranches.
#[local] Open Scope Z_scope.
#[local] Set Warnings "-register-all".

(** ** Bisection *)

Lemma StronglySorted_impl {A} (R Q : A -> A -> Prop) l : StronglySorted R l -> (forall x y, R x y -> Q x y) -> StronglySorted Q l.
Proof. induction 1 as [|x l Hs IH Hf]; intros HQ; constructor; [by apply IH|]. eapply Forall_impl; [exact Hf|]. apply HQ. Qed.

Lemma bisect_ok (f : Z -> P bool) (p : Z -> bool) fuel lo hi : 0 <= lo <= hi -> hi - lo < Z.of_nat fuel -> (forall i, lo <= i < hi -> f i = Ok (p i)) -> (forall i j, lo <= i <= j -> j < hi -> p j = true -> p i = true) ->
  exists r, bisect fuel f lo hi = Ok r /\ lo <= r <= hi /\ (forall i, lo <= i < r -> p i = true) /\ (forall i, r <= i < hi -> p i = false).
Proof.
  revert lo hi. induction fuel as [|fuel IH]; intros lo hi Hr Hf Hp Hm; [lia|]. cbn [bisect]. destruct (Z.ltb_spec lo hi) as [Hlt|Hge]; [|exists lo; split_and!; (done || lia)].
  assert (Hmid : lo <= (lo + hi) / 2 < hi) by (split; [apply Z.div_le_lower_bound; lia|apply Z.div_lt_upper_bound; lia]). set (mid := (lo + hi) / 2) in *. rewrite Hp by lia. destruct (p mid) eqn:Em.
  - destruct (IH (mid + 1) hi) as (r & -> & Hr1 & Ht & Hfl); [lia|lia|intros; apply Hp; lia|intros i j ? ?; apply Hm; lia|]. exists r. split_and!; try (done || lia). intros i Hi. destruct (decide (i <= mid)); [by apply (Hm i mid); [lia..|]|apply Ht; lia].
  - destruct (IH lo mid) as (r & -> & Hr1 & Ht & Hfl); [lia|lia|intros; apply Hp; lia|intros i j ? ?; apply Hm; lia|]. exists r. split_and!; try (done || lia). intros i Hi. destruct (decide (i < mid)); [apply Hfl; lia|]. destruct (p i) eqn:Ei; [|done]. rewrite (Hm mid i) in Em; (done || lia).
Qed.

(** Over a list whose elements satisfy [q] up to a point. *)
Lemma bisect_list {A} (q : A -> bool) (l : list A) (f : Z -> P bool) : (forall i x, 0 <= i -> l !! Z.to_nat i = Some x -> f i = Ok (q x)) -> StronglySorted (fun x y => q y = true -> q x = true) l ->
  exists l1 l2, l = l1 ++ l2 /\ bisect (S (Z.to_nat (zlen l))) f 0 (zlen l) = Ok (zlen l1) /\ Forall (fun x => q x = true) l1 /\ Forall (fun x => q x = false) l2.
Proof.
  intros Hf Hs. set (p := fun i => match l !! Z.to_nat i with Some x => q x | None => false end). pose proof (zlen_nonneg l) as H0.
  destruct (bisect_ok f p (S (Z.to_nat (zlen l))) 0 (zlen l)) as (r & -> & Hr & Ht & Hfl); [lia|lia| | |].
  - intros i Hi. destruct (lookup_lt_is_Some_2 l (Z.to_nat i)) as [x Hx]; [unfold zlen in Hi; lia|]. unfold p. rewrite Hx. apply Hf; [lia|done].
  - intros i j Hij Hj. unfold p. destruct (decide (i = j)) as [->|Hne]; [done|]. destruct (lookup_lt_is_Some_2 l (Z.to_nat j)) as [y Hy]; [unfold zlen in Hj; lia|]. destruct (lookup_lt_is_Some_2 l (Z.to_nat i)) as [x Hx]; [unfold zlen in Hj; lia|]. rewrite Hx, Hy.
    pose proof (StronglySorted_app_1_elem_of (fun x y => q y = true -> q x = true) (take (Z.to_nat j) l) (drop (Z.to_nat j) l) x y) as HR. rewrite take_drop in HR. apply HR; [done|apply list_elem_of_lookup..].
    + exists (Z.to_nat i). by rewrite lookup_take_lt by lia.
    + exists 0%nat. by rewrite lookup_drop, Nat.add_0_r.
  - exists (take (Z.to_nat r) l), (drop (Z.to_nat r) l). rewrite take_drop. split; [done|]. split; [f_equal; unfold zlen in *; rewrite length_take; lia|]. split; apply Forall_lookup; intros i x Hi.
    + pose proof (lookup_lt_Some _ _ _ Hi) as Hl. rewrite length_take in Hl. rewrite lookup_take_lt in Hi by lia. specialize (Ht (Z.of_nat i)). unfold p in Ht. rewrite Nat2Z.id, Hi in Ht. apply Ht. lia.
    + rewrite lookup_drop in Hi. pose proof (lookup_lt_Some _ _ _ Hi) as Hl. specialize (Hfl (r + Z.of_nat i)). unfold p in Hfl. replace (Z.to_nat (r + Z.of_nat i)) with (Z.to_nat r + i)%nat in Hfl by lia. rewrite Hi in Hfl. apply Hfl. unfold zlen. lia.
Qed.

(** ** Keys *)

Section search.
Context {M : Members} (mb : Z -> bytes).

Definition known (e : ent) : Prop := Member e.2 = Ok (mb e.2).

Lemma cmp_key_ok e (mr : P bytes) k : known e -> mr = Member e.2 -> cmp_key e.1 mr k.1 k.2 = Ok (key_cmp (ekey mb e) k).
Proof.
  intros Hk ->. unfold cmp_key, key_cmp, ekey. cbn. unfold known in Hk. rewrite Hk. destruct (Z.compare_spec e.1 k.1) as [E|E|E].
  - by rewrite E, Z.eqb_refl.
  - destruct (Z.eqb_spec e.1 k.1); [lia|]. destruct (Z.ltb_spec e.1 k.1); [done|lia].
  - destruct (Z.eqb_spec e.1 k.1); [lia|]. destruct (Z.ltb_spec e.1 k.1); [lia|done].
Qed.

Definition klt (a b : ent) : Prop := key_lt (ekey mb a) (ekey mb b).

Section route.
Context (a : arena) (o : Z) (b : abranch) (seps : list ent) (kids : list (Z * Z)).
Hypothesis (Ha : arena_ok a) (Hb : branch_of a o = Some b) (Hv : branchv b seps kids).

Lemma cmpSep_ok i e k : seps !! Z.to_nat i = Some e -> 0 <= i -> known e -> cmpSep (enc a) o i k.1 k.2 = Ok (key_cmp (ekey mb e) k).
Proof.
  intros Hi H0 Hk. pose proof (branch_of_ok _ _ _ Ha Hb) as Hok. destruct (branchv_view _ _ _ Hok Hv) as (gs & gk & E & Hw & _). rewrite (view_enc a o b _ _ _ Hb E). unfold cmpSep.
  destruct (get_sep a o b Ha Hb _ _ _ Hw i H0 e) as [-> ->]; [rewrite lookup_app_l; [done|by eapply lookup_lt_Some]|]. by apply cmp_key_ok.
Qed.

Lemma branch_keys : bNkeys (enc a) o = Ok (zlen seps).
Proof. rewrite (bNkeys_enc a o b Ha Hb). destruct Hv as (gs & gk & ->). done. Qed.

(** The separators at or below the key, and those above it. *)
Lemma route_ok k : StronglySorted klt seps -> Forall known seps ->
  exists S1 S2, seps = S1 ++ S2 /\ route (enc a) o k.1 k.2 = Ok (zlen S1) /\ Forall (fun s => key_le (ekey mb s) k) S1 /\ Forall (fun s => key_lt k (ekey mb s)) S2.
Proof.
  intros Hs Hk. unfold route. rewrite branch_keys.
  destruct (bisect_list (fun e => leb_cmp (key_cmp (ekey mb e) k)) seps (fun mid => let* c := cmpSep (enc a) o mid k.1 k.2 in Ok (leb_cmp c))) as (S1 & S2 & E & Eb & F1 & F2).
  - intros i x H0 Hi. rewrite (cmpSep_ok i x k Hi H0); [done|]. by eapply Forall_lookup_1.
  - eapply StronglySorted_impl; [exact Hs|]. intros x y Hxy. unfold klt in Hxy. intros Hy. assert (key_le (ekey mb x) k); [|unfold key_le in *; by destruct (key_cmp (ekey mb x) k)]. apply key_lt_le. eapply key_lt_le_trans; [exact Hxy|]. unfold key_le. by destruct (key_cmp (ekey mb y) k).
  - exists S1, S2. split; [done|]. rewrite Eb. split; [done|]. split; [eapply Forall_impl; [exact F1|]|eapply Forall_impl; [exact F2|]]; cbn; intros x Hx.
    + unfold key_le. by destruct (key_cmp (ekey mb x) k).
    + unfold key_lt. rewrite key_cmp_antisym. by destruct (key_cmp (ekey mb x) k).
Qed.
End route.

Section leaf_search.
Context (a : arena) (o : Z) (l : aleaf) (es : list ent) (nx : Z).
Hypothesis (Ha : arena_ok a) (Hl : leaf_of a o = Some l) (Hv : leafv l es nx).

Lemma cmpEntry_ok i e k : es !! Z.to_nat i = Some e -> 0 <= i -> known e -> cmpEntry (enc a) o i k.1 k.2 = Ok (key_cmp (ekey mb e) k).
Proof.
  intros Hi H0 Hk. pose proof (entry_at_ok a o l es nx i e Ha Hl Hv Hi H0) as He. unfold entry_at in He. unfold cmpEntry. destruct (lScore _ _ _) as [s| |]; try done. destruct (lRef _ _ _) as [r| |]; try done. injection He as <-. by apply (cmp_key_ok (s, r)).
Qed.

(** The entries below the key, those at or above it, and whether it is there. *)
Lemma leafPos_ok k : StronglySorted klt es -> Forall known es ->
  exists E1 E2, es = E1 ++ E2 /\ leafPos (enc a) o k.1 k.2 = Ok (zlen E1, match E2 with e :: _ => bool_decide (ekey mb e = k) | [] => false end) /\ Forall (fun e => key_lt (ekey mb e) k) E1 /\ Forall (fun e => key_le k (ekey mb e)) E2.
Proof.
  intros Hs Hk. unfold leafPos. rewrite (leaf_size a o l es nx Ha Hl Hv).
  destruct (bisect_list (fun e => ltb_cmp (key_cmp (ekey mb e) k)) es (fun mid => let* c := cmpEntry (enc a) o mid k.1 k.2 in Ok (ltb_cmp c))) as (E1 & E2 & E & Eb & F1 & F2).
  - intros i x H0 Hi. rewrite (cmpEntry_ok i x k Hi H0); [done|]. by eapply Forall_lookup_1.
  - eapply StronglySorted_impl; [exact Hs|]. intros x y Hxy Hy. assert (Hl1 : key_lt (ekey mb x) k); [|by rewrite Hl1]. transitivity (ekey mb y); [exact Hxy|]. unfold key_lt. by destruct (key_cmp (ekey mb y) k).
  - exists E1, E2. split; [done|]. rewrite Eb. split.
    + destruct E2 as [|e E2]; [rewrite E, app_nil_r; destruct (Z.ltb_spec (zlen E1) (zlen E1)); [lia|done]|]. destruct (Z.ltb_spec (zlen E1) (zlen es)) as [Hlt|Hge]; [|rewrite E, zlen_app, zlen_cons in Hge; pose proof (zlen_nonneg E2); lia].
      assert (Hi : es !! Z.to_nat (zlen E1) = Some e) by (rewrite E; by apply lookup_here). rewrite (cmpEntry_ok _ e k Hi (zlen_nonneg _)); [|by eapply Forall_lookup_1]. do 2 f_equal. case_bool_decide as He; [by rewrite He, key_cmp_refl|]. destruct (key_cmp (ekey mb e) k) eqn:Ec; try done. by apply key_cmp_eq in Ec.
    + split; [eapply Forall_impl; [exact F1|]|eapply Forall_impl; [exact F2|]]; cbn; intros x Hx.
      * unfold key_lt. by destruct (key_cmp (ekey mb x) k).
      * unfold key_le. rewrite key_cmp_antisym. by destruct (key_cmp (ekey mb x) k).
Qed.
End leaf_search.
End search.

(** A key that is not where the search ends is nowhere. *)
Lemma keys_absent mb k E1 E2 : StronglySorted (klt mb) (E1 ++ E2) -> Forall (fun x => key_lt (ekey mb x) k) E1 -> Forall (fun x => key_le k (ekey mb x)) E2 -> match E2 with x :: _ => bool_decide (ekey mb x = k) | [] => false end = false -> Forall (fun x => ekey mb x <> k) (E1 ++ E2).
Proof.
  intros Hs H1 H2 Hb. apply Forall_app. split.
  - eapply Forall_impl; [exact H1|]. cbn. intros x Hx Ex. rewrite Ex in Hx. by apply key_lt_irrefl in Hx.
  - destruct E2 as [|x E2]; [constructor|]. apply bool_decide_eq_false in Hb. apply Forall_cons in H2 as [H2 _]. assert (Hx : key_lt k (ekey mb x)) by (apply key_le_lteq in H2 as [?|?]; [done|congruence]).
    apply StronglySorted_app_1_r in Hs. apply StronglySorted_inv in Hs as [_ Hs]. constructor; [done|]. eapply Forall_impl; [exact Hs|]. cbn. intros y Hy Ey. unfold klt in Hy. rewrite Ey in Hy. apply (key_lt_irrefl k). by transitivity (ekey mb x).
Qed.
