(* ===== verification/TreeInsert.v ===== *)
(** Insertion into the counted tree keeps the search order, the fill, the leaf chain, the counts and the
    ownership of the blocks, and adds the entry at its place (engine/f3/struct/tree.go). *)

From stdpp Require Import sorting.
From S2P Require Import Prelude Ordered TreeBlocks TreeArrays TreeOps TreeShape TreeNodes TreeBranches TreeSearch.
#[local] Open Scope Z_scope.
#[local] Set Warnings "-register-all".

(** What an operation leaves alone: the nodes it was not given, the root and the size. *)
Record tree_frame (a a' : arena) (L B : list Z) : Prop := {
  fr_leaves : forall o, o ∈ L -> leaf_of a' o = leaf_of a o;
  fr_branches : forall o, o ∈ B -> branch_of a' o = branch_of a o;
  fr_core : tree_core a' = tree_core a
}.

Lemma frame_refl a L B : tree_frame a a L B.
Proof. by split. Qed.
Lemma frame_trans a1 a2 a3 L B : tree_frame a1 a2 L B -> tree_frame a2 a3 L B -> tree_frame a1 a3 L B.
Proof. intros [H1 H2 H3] [G1 G2 G3]. split; [intros o Ho; by rewrite G1, H1|intros o Ho; by rewrite G2, H2|congruence]. Qed.
Lemma frame_sub a a' L B L' B' : tree_frame a a' L B -> L' ⊆ L -> B' ⊆ B -> tree_frame a a' L' B'.
Proof. intros [H1 H2 H3] HL HB. split; [intros o Ho; apply H1, HL, Ho|intros o Ho; apply H2, HB, Ho|done]. Qed.
Lemma frame_upd_leaf a o l L B : 0 <= o -> o ∉ L -> tree_frame a (upd_leaf a o l) L B.
Proof. intros H0 Ho. split; try done. intros o' Ho'. apply leaf_of_upd_ne; [done|]. by intros ->. Qed.
Lemma frame_upd_branch a o b L B : 0 <= o -> o ∉ B -> tree_frame a (upd_branch a o b) L B.
Proof. intros H0 Ho. split; try done. intros o' Ho'. apply branch_of_upd_ne; [done|]. by intros ->. Qed.

Definition size_le (a a' : arena) (dl db : Z) : Prop := zlen (ar_leaves a') <= zlen (ar_leaves a) + dl /\ zlen (ar_branches a') <= zlen (ar_branches a) + db.

Lemma zlen_upd_leaf a o l : zlen (ar_leaves (upd_leaf a o l)) = zlen (ar_leaves a).
Proof. unfold zlen. cbn. by rewrite length_insert. Qed.
Lemma zlen_upd_branch a o b : zlen (ar_branches (upd_branch a o b)) = zlen (ar_branches a).
Proof. unfold zlen. cbn. by rewrite length_insert. Qed.

Definition no_edges (a : arena) : Prop := edges a = (leafNone, leafNone).

(** ** Splitting a leaf *)

Definition forget (a : arena) : arena := mkArena (ar_leaves a) (ar_branches a) (with_edges (ar_rest a) leafNone leafNone).

Lemma invalidateEdges_enc a : invalidateEdges (enc a) = enc (forget a).
Proof. done. Qed.

Record leaf_split (a a' : arena) (o rgt : Z) (es : list ent) (nx : Z) (L B : list Z) : Prop := {
  ls_ok : arena_ok a';
  ls_left : exists l, leaf_of a' o = Some l /\ leafv l (take (length es / 2) es) rgt;
  ls_right : exists l, leaf_of a' rgt = Some l /\ leafv l (drop (length es / 2) es) nx;
  ls_own : own a' (o :: rgt :: L) B;
  ls_frame : tree_frame a a' L B;
  ls_branches : ar_branches a' = ar_branches a;
  ls_edges : no_edges a';
  ls_size : zlen (ar_leaves a') <= zlen (ar_leaves a) + 1;
  ls_range : is_u32 rgt
}.

Lemma splitLeaf_ok a o l es nx L B : arena_ok a -> leaf_of a o = Some l -> leafv l es nx -> own a (o :: L) B -> zlen (ar_leaves a) < two32 - 1 ->
  exists a' rgt, splitLeaf (enc a) o = Ok (enc a', rgt) /\ leaf_split a a' o rgt es nx L B.
Proof.
  intros Ha Hl Hv Hown Hsz. unfold splitLeaf. rewrite invalidateEdges_enc. assert (Ha0 : arena_ok (forget a)) by (destruct Ha as [? ? ? ?]; by split). assert (Hl0 : leaf_of (forget a) o = Some l) by done. pose proof (leaf_of_ok _ _ _ Ha Hl) as Hok. destruct (leafv_slots l es nx Hok Hv) as (g & Eg & Hlen & Hes & Hg & _).
  rewrite (leaf_size _ o l es nx Ha0 Hl0 Hv). set (h := zlen es / 2). assert (Hh : h = Z.of_nat (length es / 2)) by (unfold h, zlen; by rewrite Nat2Z.inj_div). assert (Hh2 : 0 <= h <= zlen es) by (unfold h, zlen; split; [apply Z.div_pos; lia|apply Z.div_le_upper_bound; lia]).
  destruct (allocLeaf_ok (forget a) (o :: L) B Ha0 Hown Hsz) as (a1 & rgt & -> & [A1 A2 A3 A4 A5 [A6 A6'] A7 A8]). assert (Hl1 : leaf_of a1 o = Some l) by (rewrite A3; [done|left]).
  pose proof (own_NoDup _ _ _ A5) as [[Hn1 [Hn2 Hn3]%NoDup_cons]%NoDup_cons _]. apply not_elem_of_cons in Hn1 as [Hn1 Hn4]. pose proof (leaf_of_range _ _ _ Hl1) as Ro. pose proof (leaf_of_range _ _ _ A2) as Rr.
  rewrite (leaf_enc _ _ _ Hl1), (leaf_enc _ _ _ A2), slice_ents by (try apply Hok; unfold zlen in *; lia). set (m := drop (length es / 2) es).
  assert (Em : sl (al_ents l) h (zlen es - h) = m).
  { unfold sl. rewrite ztake_take, zdrop_drop, Eg, Hh, Nat2Z.id, drop_app_le by (unfold zlen in *; lia). unfold m. apply take_app_length'. rewrite length_drop. unfold zlen. lia. }
  assert (Lm : zlen m = zlen es - h) by (unfold m, zlen; rewrite length_drop; unfold zlen in *; lia). assert (Fm : Forall ent_ok m) by (by apply Forall_drop). rewrite Em. unfold copy_in.
  rewrite (zlen_enc_leaf clear_leaf eq_refl). replace (_ && _ && _) with true by done. rewrite ztake_all by (rewrite zlen_ents; unfold leafHdr, zlen in *; lia).
  change leafHdr with (leafHdr + 0 * entrySz) at 1. rewrite put_ents by (done || (unfold zlen in *; lia)). rewrite (set_leaf_enc _ _ _ _ A2).
  set (l1 := set_ents clear_leaf _). destruct (lookup_lt_is_Some_2 (ar_leaves a1) (Z.to_nat rgt)) as [? _]; [unfold zlen in *; lia|].
  assert (H1 : leaf_of (upd_leaf a1 rgt l1) rgt = Some l1) by (by eapply leaf_of_upd). rewrite (lSetNent_enc _ _ _ H1), upd_leaf_upd. set (l2 := set_n l1 _).
  assert (H2 : leaf_of (upd_leaf a1 rgt l2) o = Some l) by (rewrite leaf_of_upd_ne; [done|lia|congruence]). rewrite (lSetNent_enc _ _ _ H2). set (l3 := set_n l h). set (a3 := upd_leaf (upd_leaf a1 rgt l2) o l3).
  assert (H3 : leaf_of a3 o = Some l3) by (by eapply leaf_of_upd). assert (Hok3 : leaf_ok l3) by (apply set_n_ok; [done|unfold is_u8, zlen in *; lia]). rewrite (lNext_enc _ _ _ H3 Hok3).
  assert (H4 : leaf_of a3 rgt = Some l2) by (unfold a3; rewrite leaf_of_upd_ne; [by eapply leaf_of_upd|lia|congruence]). rewrite (lSetNext_enc _ _ _ H4). set (l4 := set_next l2 _). set (a4 := upd_leaf a3 rgt l4).
  assert (H5 : leaf_of a4 o = Some l3) by (unfold a4; rewrite leaf_of_upd_ne; [done|lia|congruence]). rewrite (lSetNext_enc _ _ _ H5). set (l5 := set_next l3 rgt). exists (upd_leaf a4 o l5), rgt. split; [done|].
  assert (Hnx : al_next l = nx) by apply Hv. assert (E4 : al_ents l2 = m ++ replicate (31 - length m) (0, 0)). { unfold l2, l1. cbn [set_n set_ents al_ents clear_leaf]. change (Z.to_nat 0) with 0%nat. cbn [take app]. by rewrite drop_replicate. }
  destruct (leafv_new l2 m (replicate (31 - length m) (0, 0)) 0) as [Ok2 [V2 [_ V2']]]; [unfold l2; cbn [set_n al_n]; lia|done|done|unfold is_u32; lia|done|apply Forall_replicate; split; cbn; unfold is_u64, is_u32; lia|rewrite length_replicate; unfold zlen in *; lia|].
  assert (Ok4 : leaf_ok l4) by (apply set_next_ok; [done|apply Hok3]). assert (V4 : leafv l4 m nx) by (by split_and!).
  destruct (leafv_new l5 (take (length es / 2) es) (drop (length es / 2) es ++ g) rgt) as [Ok5 V5]; [unfold l5, l3; cbn [set_next set_n al_n]; unfold zlen in *; rewrite length_take; lia|done|unfold l5, l3; cbn [set_next set_n al_ents]; rewrite Eg; by rewrite (assoc_L (++)), take_drop|done|by apply Forall_take|by apply Forall_app|rewrite length_app, length_take, length_drop; lia|].
  split.
  - unfold a4, a3. by repeat apply arena_ok_upd_leaf.
  - exists l5. split; [by eapply leaf_of_upd|done].
  - exists l4. split; [|done]. rewrite leaf_of_upd_ne; [by eapply leaf_of_upd|lia|congruence].
  - unfold a4, a3. do 4 apply own_upd_leaf. eapply own_perm; [exact A5|solve_Permutation|done].
  - split; [|intros o' _; unfold a4, a3; cbn; unfold branch_of; cbn; by rewrite A4|exact A6]. intros o' Ho'. unfold a4, a3. rewrite !leaf_of_upd_ne; [apply A3; by right|lia|congruence|lia|congruence|lia|congruence|lia|congruence].
  - exact A4.
  - exact A6'.
  - unfold a4, a3. rewrite !zlen_upd_leaf. exact A7.
  - done.
Qed.

(** ** Trees and their halves *)

Definition ient (x : item) : ent := match x with IEnt e | ISep e => e end.

Inductive forest : Type := One (p : ptree) | Two (p : ptree) (s : ent) (q : ptree).

Definition split_of (f : forest) : option (Z * Z * Z) := match f with One _ => None | Two _ s q => Some (s.1, s.2, pord q) end.
Definition first_of (f : forest) : ptree := match f with One p | Two p _ _ => p end.
Definition fflat (f : forest) : list item := match f with One p => flat p | Two p s q => flat p ++ ISep s :: flat q end.
Definition flinks (f : forest) : list (Z * Z) := match f with One p => leaf_links p | Two p _ q => leaf_links p ++ leaf_links q end.
Definition flords (f : forest) : list Z := (flinks f).*1.
Definition fbords (f : forest) : list Z := match f with One p => bords p | Two p _ q => bords p ++ bords q end.

Definition psize (p : ptree) : nat := match p with PLeaf _ _ es => length es | PNode _ seps _ => length seps end.

(** The nodes of a forest in the arena, at their level and fill. *)
Definition stands (a : arena) (l : nat) (p : ptree) : Prop := holds_tree a p /\ shape l p.
Inductive grown_to (a : arena) (l : nat) (p : ptree) : forest -> Prop :=
  | grown_one p' : stands a l p' -> pord p' = pord p -> (full p -> full p') -> (psize p <= psize p')%nat -> grown_to a l p (One p')
  | grown_two p' s q : stands a l p' -> stands a l q -> pord p' = pord p -> full p' -> full q -> ent_ok s -> is_u32 (pord q) -> grown_to a l p (Two p' s q).

Lemma pents_node o seps kids : length kids = S (length seps) -> pents (PNode o seps kids) = concat (map pents kids).
Proof.
  intros Hl. unfold pents. cbn [flat]. destruct kids as [|c kids]; [done|]. injection Hl as Hl. cbn [map weave concat]. rewrite ents_app. f_equal. unfold wr. revert seps Hl. induction kids as [|d kids IH]; intros [|s seps] Hl; try done. injection Hl as Hl. cbn [map zip_with concat]. rewrite ents_app, IH by done. done.
Qed.

Definition sum (l : list Z) : Z := foldr Z.add 0 l.
Lemma sum_app l1 l2 : sum (l1 ++ l2) = sum l1 + sum l2.
Proof. unfold sum. induction l1 as [|x l1 IH]; cbn; [done|]. lia. Qed.
Lemma zlen_concat {A} (ls : list (list A)) : zlen (concat ls) = sum (map zlen ls).
Proof. induction ls as [|l ls IH]; cbn; [done|]. by rewrite zlen_app, IH. Qed.
Lemma pcount_node o seps kids : length kids = S (length seps) -> pcount (PNode o seps kids) = sum (map pcount kids).
Proof. intros Hl. unfold pcount. rewrite pents_node, zlen_concat by done. by rewrite map_map. Qed.
Lemma pcount_nonneg p : 0 <= pcount p.
Proof. apply zlen_nonneg. Qed.
Lemma sum_pcount_nonneg kids : 0 <= sum (map pcount kids).
Proof. induction kids as [|c kids IH]; [done|]. pose proof (pcount_nonneg c). unfold sum in *. cbn. lia. Qed.
Lemma pcount_le o seps kids c : length kids = S (length seps) -> c ∈ kids -> pcount c <= pcount (PNode o seps kids).
Proof.
  intros Hl (K1 & K2 & ->)%list_elem_of_split. rewrite pcount_node by done. rewrite map_app, sum_app. pose proof (sum_pcount_nonneg K1). pose proof (sum_pcount_nonneg K2). unfold sum in *. cbn. lia.
Qed.

(** The ordinal of a node of the arena. *)
Definition small_arena (a : arena) : Prop := zlen (ar_leaves a) < two32 /\ zlen (ar_branches a) < two32.
Lemma pord_range a p : small_arena a -> holds_tree a p -> is_u32 (pord p).
Proof. intros [H1 H2] H. destruct H as [o nx es l Hl _|o seps kids b Hb _ _]; cbn; [apply leaf_of_range in Hl|apply branch_of_range in Hb]; unfold is_u32; lia. Qed.

(** ** Counting a subtree *)

Lemma sum_counts_ok a o b n A M B s : arena_ok a -> branch_of a o = Some b -> forall k ss, b = mkB k ss (A ++ M ++ B) -> length M = n -> 0 <= s -> s + sum M.*2 < two64 -> sum_counts_from n (enc a) o (zlen A) s = Ok (s + sum M.*2).
Proof.
  intros Ha Hb k ss E Hn Hs Hsm. revert A M s E Hn Hs Hsm. induction n as [|n IH]; intros A [|x M] s E Hn Hs Hsm; try done; [cbn; f_equal; lia|]. injection Hn as Hn. cbn [sum_counts_from]. pose proof (branch_of_ok _ _ _ Ha Hb) as Hok. rewrite E in Hok. apply mkB_ok in Hok.
  destruct (get_kid a o b Ha Hb _ _ _ Hok (zlen A) (zlen_nonneg _) x) as [_ E2]; [by apply lookup_here|]. rewrite <- (view_enc a o b _ _ _ Hb E) in E2. rewrite E2. assert (Hx : kid_ok x) by (eapply (kid_at _ _ _ (length A)); [exact Hok|by apply list_lookup_middle]). destruct Hx as [_ Hx]. unfold is_u32 in Hx.
  assert (HM : 0 <= sum M.*2). { pose proof (bv_kids _ _ _ Hok) as F. apply Forall_app in F as [_ F]. apply Forall_cons in F as [_ F]. apply Forall_app in F as [F _]. clear -F. induction F as [|y M [_ Hy] _ IH]; [done|]. cbn in *. unfold is_u32, sum in *. lia. }
  assert (Es : sum (x :: M).*2 = x.2 + sum M.*2) by done. rewrite Es in *. rewrite add64_small by lia. specialize (IH (A ++ [x]) M (s + x.2)). rewrite zlen_snoc in IH. rewrite IH; [f_equal; lia|by rewrite <- (assoc_L (++))|done|lia|lia].
Qed.

Lemma subtreeCount_ok a l p : arena_ok a -> stands a (S l) p -> pcount p < two64 -> subtreeCount (enc a) (pord p) (bool_decide (l = O)) = Ok (pcount p).
Proof.
  intros Ha [Hh Hs] Hc. inversion Hs as [o nx es Hle|l' o seps kids Hlen Hmax Hk]; subst; inversion Hh as [? ? ? lf Hlf Hvf|? ? ? b Hb Hvb Hkids]; subst; cbn [pord].
  - rewrite bool_decide_eq_true_2 by done. unfold subtreeCount. rewrite (leaf_size _ _ _ _ _ Ha Hlf Hvf). unfold pcount, pents. cbn [flat]. by rewrite ents_IEnt.
  - rewrite bool_decide_eq_false_2 by done. unfold subtreeCount. pose proof (branch_of_ok _ _ _ Ha Hb) as Hok. rewrite (branch_keys _ _ _ _ _ Ha Hb Hvb). destruct (branchv_view _ _ _ Hok Hvb) as (gs & gk & E & Hw & _).
    assert (Ep : pcount (PNode o seps kids) = sum (kc <$> kids).*2). { rewrite pcount_node by done. f_equal. clear. induction kids as [|c kids IH]; [done|]. cbn. by f_equal. }
    pose proof (sum_counts_ok a o b (Z.to_nat (zlen seps + 1)) [] (kc <$> kids) gk 0 Ha Hb _ _ E) as G. change (zlen []) with 0 in G. rewrite Z.add_0_l in G. rewrite G; [by rewrite Ep|rewrite length_fmap; unfold zlen; lia|lia|by rewrite <- Ep].
Qed.

(** ** Insertion into a leaf *)

Section insert.
Context {M : Members} (mb : Z -> bytes) (e : ent).
#[local] Abbreviation k := (ekey mb e).

Definition kn (x : item) : Prop := known mb (ient x).

(** What an insertion leaves of the subtree it was given. *)
Record inserted (a a' : arena) (l : nat) (p : ptree) (f : forest) (A B : list item) (RL RB : list Z) (hd tl : Z) : Prop := {
  in_ok : arena_ok a';
  in_nodes : grown_to a' l p f;
  in_sorted : sorted mb (A ++ fflat f ++ B);
  in_ents : exists X Y, pents p = X ++ Y /\ ents (fflat f) = X ++ e :: Y;
  in_known : Forall kn (fflat f);
  in_chain : chain (flinks f) hd tl;
  in_own : own a' (flords f ++ RL) (fbords f ++ RB);
  in_frame : tree_frame a a' RL RB;
  in_size : size_le a a' 1 (Z.of_nat (l - 1));
  in_edges : (flords f = lords p /\ edges a' = edges a) \/ no_edges a'
}.

#[local] Abbreviation absent es := (Forall (fun x => ekey mb x <> k) es).

Lemma strictly_above es : Forall (fun x => key_le k (ekey mb x)) es -> absent es -> Forall (fun x => key_lt k (ekey mb x)) es.
Proof. intros H1 H2. rewrite Forall_forall in *. intros x Hx. destruct (proj1 (key_le_lteq _ _) (H1 x Hx)) as [?|Heq]; [done|]. by destruct (H2 x Hx). Qed.

Lemma sorted_place A E1 E2 B : sorted mb (A ++ (IEnt <$> E1 ++ E2) ++ B) -> Forall (bef mb k) A -> Forall (aft mb k) B -> Forall (fun x => key_lt (ekey mb x) k) E1 -> Forall (fun x => key_lt k (ekey mb x)) E2 ->
  sorted mb (A ++ (IEnt <$> E1 ++ e :: E2) ++ B).
Proof.
  intros Hs HA HB H1 H2. rewrite !fmap_app, fmap_cons in *. rewrite <- !(assoc_L (++)) in *. rewrite (assoc_L (++)) in Hs. rewrite (assoc_L (++)). apply sorted_insert; [done|apply Forall_app; split; [done|by apply Forall_fmap]|apply Forall_app; split; [by apply Forall_fmap|done]].
Qed.

Lemma sorted_cut A E1 x E2 B : E1 <> [] -> sorted mb (A ++ (IEnt <$> E1 ++ x :: E2) ++ B) -> sorted mb (A ++ ((IEnt <$> E1) ++ ISep x :: (IEnt <$> x :: E2)) ++ B).
Proof.
  intros Hne. destruct E1 as [|y E1 _] using rev_ind; [done|]. rewrite !fmap_app, !fmap_cons, <- !(assoc_L (++)). cbn [fmap list_fmap app]. rewrite (assoc_L (++) A). intros Hs. rewrite (assoc_L (++) A). by apply (sorted_insert_sep mb).
Qed.

Lemma leaf_sorted A es B : sorted mb (A ++ (IEnt <$> es) ++ B) -> StronglySorted (klt mb) es.
Proof. intros H. apply sorted_app in H as (_ & H & _). apply sorted_app in H as (H & _). apply sorted_ents in H. by rewrite ents_IEnt in H. Qed.

Lemma known_ents es : Forall kn (IEnt <$> es) <-> Forall (known mb) es.
Proof. by rewrite Forall_fmap. Qed.

(** The entry put at its place of a leaf with room. *)
Lemma leaf_place a o l es nx : arena_ok a -> leaf_of a o = Some l -> leafv l es nx -> (length es < 31)%nat -> StronglySorted (klt mb) es -> Forall (known mb) es -> absent es -> ent_ok e ->
  exists E1 E2 l', es = E1 ++ E2 /\ Forall (fun x => key_lt (ekey mb x) k) E1 /\ Forall (fun x => key_lt k (ekey mb x)) E2
    /\ (let* '(p, _) := leafPos (enc a) o e.1 (mb e.2) in leafShiftIn (enc a) o p e.1 e.2) = Ok (enc (upd_leaf a o l')) /\ leaf_ok l' /\ leafv l' (E1 ++ e :: E2) nx.
Proof.
  intros Ha Hl Hv Hlt Hs Hk Hab He. destruct (leafPos_ok mb a o l es nx Ha Hl Hv k Hs Hk) as (E1 & E2 & E & Ep & F1 & F2). cbn [ekey fst snd] in Ep. rewrite Ep. rewrite E in Hab. apply Forall_app in Hab as [_ Hab].
  destruct (leafShiftIn_ok a o l es nx Ha Hl Hv (zlen E1) e) as (l' & -> & Hok' & Hv'); [done|rewrite E, zlen_app; pose proof (zlen_nonneg E1); pose proof (zlen_nonneg E2); lia|done|]. exists E1, E2, l'. split_and!; try done; [by apply strictly_above|].
  replace (Z.to_nat (zlen E1)) with (length E1) in Hv' by (unfold zlen; lia). rewrite E, take_app_length, drop_app_length in Hv'. done.
Qed.

Section leaf.
Context (a : arena) (o nx : Z) (es : list ent) (A B : list item) (RL RB : list Z).
Hypothesis (Ha : arena_ok a) (Hst : stands a 1 (PLeaf o nx es)) (Hs : sorted mb (A ++ (IEnt <$> es) ++ B)) (HA : Forall (bef mb k) A) (HB : Forall (aft mb k) B).
Hypothesis (Hk : Forall (known mb) es) (Hown : own a (o :: RL) RB) (Hsz : zlen (ar_leaves a) < two32 - 1) (He : ent_ok e) (Hke : known mb e).

Lemma leaf_here : exists l, leaf_of a o = Some l /\ leafv l es nx /\ (length es <= 31)%nat /\ is_u32 nx /\ Forall ent_ok es /\ 0 <= o /\ o ∉ RL.
Proof.
  destruct Hst as [Hh Hsh]. inversion Hh as [? ? ? l Hl Hv|]; subst. inversion Hsh; subst. pose proof (leaf_of_ok _ _ _ Ha Hl) as Hok. destruct (leafv_slots _ _ _ Hok Hv) as (_ & _ & _ & He' & _). exists l. split_and!; try done; [|apply leaf_of_range in Hl; lia|].
  - destruct Hv as (_ & <- & _). apply Hok.
  - apply own_NoDup in Hown as [[? _]%NoDup_cons _]. done.
Qed.

(** The leaf has room. *)
Lemma leaf_fits E1 E2 l' : es = E1 ++ E2 -> Forall (fun x => key_lt (ekey mb x) k) E1 -> Forall (fun x => key_lt k (ekey mb x)) E2 -> (length es < 31)%nat -> leaf_ok l' -> leafv l' (E1 ++ e :: E2) nx ->
  inserted a (upd_leaf a o l') 1 (PLeaf o nx es) (One (PLeaf o nx (E1 ++ e :: E2))) A B RL RB o nx.
Proof.
  intros E F1 F2 Hlt Hok Hv. destruct leaf_here as (l & Hl & _ & _ & _ & _ & Ho & Hni). split.
  - by apply arena_ok_upd_leaf.
  - constructor; [split|done|..]; [econstructor; [by eapply leaf_of_upd|done]|constructor; rewrite E, length_app in Hlt; rewrite length_app; cbn; lia|cbn; rewrite E, !length_app; cbn; lia|cbn; rewrite E, !length_app; cbn; lia].
  - cbn [fflat flat]. apply sorted_place; [by rewrite <- E|done..].
  - exists E1, E2. unfold pents. cbn [flat fflat]. by rewrite !ents_IEnt.
  - cbn [fflat flat]. apply known_ents. rewrite E in Hk. apply Forall_app in Hk as [? ?]. apply Forall_app. split; [done|by constructor].
  - repeat constructor.
  - cbn. by apply own_upd_leaf.
  - by apply frame_upd_leaf.
  - split; [rewrite zlen_upd_leaf; lia|cbn; lia].
  - by left.
Qed.

(** The leaf splits, the entry in one of the halves. *)
Lemma leaf_splits a1 rgt l' lft' rgt' x R : leaf_split a a1 o rgt es nx RL RB -> length es = 31%nat -> leaf_ok l' ->
  sorted mb (A ++ (IEnt <$> lft' ++ rgt') ++ B) -> (exists X Y, es = X ++ Y /\ lft' ++ rgt' = X ++ e :: Y) -> rgt' = x :: R -> (15 <= length lft' <= 16)%nat -> (16 <= length rgt' <= 17)%nat -> Forall ent_ok (lft' ++ rgt') ->
  forall a', (a' = upd_leaf a1 o l' /\ leafv l' lft' rgt /\ rgt' = drop 15 es \/ a' = upd_leaf a1 rgt l' /\ leafv l' rgt' nx /\ lft' = take 15 es) ->
  inserted a a' 1 (PLeaf o nx es) (Two (PLeaf o rgt lft') x (PLeaf rgt nx rgt')) A B RL RB o nx.
Proof.
  intros [A1 (ll & Hll & Hvl) (lr & Hlr & Hvr) A4 A5 A6 A7 A8 A9] H31 Hok Hs' (X & Y & EX & EY) Er L1 L2 Fe a' Ha'. rewrite H31 in *. change (31 / 2)%nat with 15%nat in *.
  pose proof (leaf_of_range _ _ _ Hll) as Ro. pose proof (leaf_of_range _ _ _ Hlr) as Rr. pose proof (own_NoDup _ _ _ A4) as [[Hn1 [Hn2 _]%NoDup_cons]%NoDup_cons _]. apply not_elem_of_cons in Hn1 as [Hn0 Hn1].
  assert (Hst' : holds_tree a' (PLeaf o rgt lft') /\ holds_tree a' (PLeaf rgt nx rgt') /\ arena_ok a' /\ own a' (o :: rgt :: RL) RB /\ tree_frame a1 a' RL RB /\ zlen (ar_leaves a') = zlen (ar_leaves a1) /\ ar_branches a' = ar_branches a1 /\ edges a' = edges a1).
  { destruct Ha' as [(-> & Hv & ->)|(-> & Hv & ->)]; split_and!; try (by apply arena_ok_upd_leaf); try (by apply own_upd_leaf); try apply zlen_upd_leaf; try done; try (apply frame_upd_leaf; [lia|done]).
    - econstructor; [by eapply leaf_of_upd|done].
    - econstructor; [rewrite leaf_of_upd_ne; [exact Hlr|lia|congruence]|done].
    - econstructor; [rewrite leaf_of_upd_ne; [exact Hll|lia|congruence]|done].
    - econstructor; [by eapply leaf_of_upd|done]. }
  destruct Hst' as (S1 & S2 & S3 & S4 & S5 & S6 & S7 & S8). apply Forall_app in Fe as [_ Fe]. rewrite Er in Fe. apply Forall_cons in Fe as [Fx _]. split; try done.
  - constructor; try done; [by split; [|constructor; lia]|by split; [|constructor; lia]|cbn; lia|cbn; lia].
  - cbn [fflat flat]. rewrite Er in *. apply sorted_cut; [|done]. intros ->. cbn in L1. lia.
  - exists X, Y. unfold pents. cbn [flat fflat]. rewrite ents_app, !ents_IEnt. cbn. rewrite ents_IEnt. done.
  - assert (Hk' : Forall (known mb) (lft' ++ rgt')). { rewrite EY. rewrite EX in Hk. apply Forall_app in Hk as [? ?]. apply Forall_app. split; [done|by constructor]. } apply Forall_app in Hk' as [Hk1 Hk2].
    cbn [fflat flat]. apply Forall_app. split; [by apply known_ents|]. constructor; [|by apply known_ents]. rewrite Er in Hk2. by apply Forall_cons in Hk2 as [? _].
  - cbn. repeat constructor.
  - eapply frame_trans; done.
  - split; [lia|rewrite S7, A6; cbn; lia].
  - right. unfold no_edges. by rewrite S8.
Qed.

Lemma leafInsert_ok : 
  (leafInsert (enc a) o e.1 (mb e.2) e.2 = Ok (enc a, false, None) /\ exists x, x ∈ es /\ ekey mb x = k)
  \/ exists a' f, leafInsert (enc a) o e.1 (mb e.2) e.2 = Ok (enc a', true, split_of f) /\ inserted a a' 1 (PLeaf o nx es) f A B RL RB o nx.
Proof.
  destruct leaf_here as (l & Hl & Hv & Hle & Hnx & Hes & Ho & Hni). pose proof (leaf_sorted _ _ _ Hs) as Hss. unfold leafInsert. destruct (leafPos_ok mb a o l es nx Ha Hl Hv k Hss Hk) as (E1 & E2 & E & Ep & F1 & F2). change (ekey mb e).1 with e.1 in Ep. change (ekey mb e).2 with (mb e.2) in Ep.
  rewrite Ep. destruct (match E2 with x :: _ => _ | [] => false end) eqn:Eb.
  { left. split; [done|]. destruct E2 as [|x E2]; [done|]. apply bool_decide_eq_true in Eb. exists x. split; [|done]. rewrite E. apply elem_of_app. right. left. }
  right. assert (Hab : absent es) by (rewrite E in *; by apply keys_absent). rewrite (leaf_size a o l es nx Ha Hl Hv). change leafCap with 31. destruct (Z.ltb_spec (zlen es) 31) as [Hlt|Hge].
  - assert (Hlt' : (length es < 31)%nat) by (unfold zlen in Hlt; lia). destruct (leaf_place a o l es nx Ha Hl Hv Hlt' Hss Hk Hab He) as (D1 & D2 & l' & D & G1 & G2 & Eq & Hok' & Hv').
    rewrite Ep in Eq. rewrite Eq. exists (upd_leaf a o l'), (One (PLeaf o nx (D1 ++ e :: D2))). split; [done|]. by apply leaf_fits.
  - assert (H31 : length es = 31%nat) by (unfold zlen in Hge; lia). clear Ep. destruct (splitLeaf_ok a o l es nx RL RB Ha Hl Hv Hown Hsz) as (a1 & rgt & -> & Hsp). pose proof Hsp as [A1 (ll & Hll & Hvl) (lr & Hlr & Hvr) _ _ _ _ _ _]. rewrite H31 in Hvl, Hvr. change (31 / 2)%nat with 15%nat in *.
    set (EL := take 15 es) in *. set (ER := drop 15 es) in *. assert (Ees : es = EL ++ ER) by (unfold EL, ER; by rewrite take_drop). assert (LL : length EL = 15%nat) by (unfold EL; rewrite length_take; lia). assert (LR : length ER = 16%nat) by (unfold ER; rewrite length_drop; lia).
    pose proof Hk as Hk'. rewrite Ees in Hss, Hk', Hab. apply StronglySorted_app in Hss as (Hlr' & HsL & HsR). apply Forall_app in Hk' as [HkL HkR]. apply Forall_app in Hab as [HaL HaR]. destruct ER as [|x R] eqn:EE; [done|]. rewrite <- EE in *.
    assert (Hx0 : ER !! Z.to_nat 0 = Some x) by (by rewrite EE). assert (Hkx : known mb x) by (rewrite EE in HkR; by apply Forall_cons in HkR as [? _]). assert (Hnk : ekey mb x <> k) by (rewrite EE in HaR; by apply Forall_cons in HaR as [? _]).
    pose proof (cmpEntry_ok mb a1 rgt lr ER nx A1 Hlr Hvr 0 x k Hx0 ltac:(lia) Hkx) as Ec. change (ekey mb e).1 with e.1 in Ec. change (ekey mb e).2 with (mb e.2) in Ec. rewrite Ec. assert (Fe : Forall ent_ok (EL ++ ER)) by (by rewrite <- Ees). apply Forall_app in Fe as [FeL FeR].
    destruct (leb_cmp (key_cmp (ekey mb x) k)) eqn:El.
    + assert (Hxk : key_lt (ekey mb x) k). { assert (Hle' : key_le (ekey mb x) k) by (unfold key_le; by destruct (key_cmp (ekey mb x) k)). apply key_le_lteq in Hle' as [?|?]; done. }
      destruct (leaf_place a1 rgt lr ER nx A1 Hlr Hvr ltac:(lia) HsR HkR HaR He) as (D1 & D2 & l' & ED & G1 & G2 & Eq & Hok' & Hv'). rewrite Eq. destruct D1 as [|y D1]; [rewrite EE in ED; cbn in ED; rewrite <- ED in G2; apply Forall_cons in G2 as [G2 _]; destruct (key_lt_irrefl k); by transitivity (ekey mb x)|].
      assert (y = x) as -> by (rewrite EE in ED; by injection ED as ->). assert (Hl1 : leaf_of (upd_leaf a1 rgt l') rgt = Some l') by (by eapply leaf_of_upd). pose proof (entry_at_ok _ rgt l' _ nx 0 x (arena_ok_upd_leaf _ rgt l' A1 Hok') Hl1 Hv' eq_refl ltac:(lia)) as He0. unfold entry_at in He0.
      destruct (lScore _ _ _) as [s0| |]; try done. destruct (lRef _ _ _) as [r0| |]; try done. injection He0 as Ex0. exists (upd_leaf a1 rgt l'), (Two (PLeaf o rgt EL) x (PLeaf rgt nx (x :: D1 ++ e :: D2))). split; [cbn [split_of pord]; by rewrite <- Ex0|].
      assert (Lr : length ER = S (length D1 + length D2)) by (rewrite ED; cbn; by rewrite length_app). apply (leaf_splits a1 rgt l' EL _ x (D1 ++ e :: D2)); try done.
      * assert (HEL : Forall (fun y => key_lt (ekey mb y) k) EL). { apply Forall_forall. intros y Hy. transitivity (ekey mb x); [|done]. apply Hlr'; [done|]. rewrite EE. left. }
        pose proof (sorted_place A (EL ++ x :: D1) D2 B) as Hp. rewrite <- !(assoc_L (++)) in Hp. cbn [app] in Hp. apply Hp; try done; [rewrite Ees in Hs; by rewrite ED in Hs|by apply Forall_app].
      * exists (EL ++ x :: D1), D2. rewrite <- !(assoc_L (++)). cbn. split; [|done]. rewrite Ees, ED. done.
      * lia.
      * cbn. rewrite length_app. cbn. lia.
      * apply Forall_app. split; [done|]. rewrite ED in FeR. apply Forall_app in FeR as [? ?]. change (x :: D1 ++ e :: D2) with ((x :: D1) ++ e :: D2). apply Forall_app. split; [done|by constructor].
      * right. done.
    + assert (Hkx' : key_lt k (ekey mb x)). { unfold key_lt. rewrite key_cmp_antisym. by destruct (key_cmp (ekey mb x) k). }
      destruct (leaf_place a1 o ll EL rgt A1 Hll Hvl ltac:(lia) HsL HkL HaL He) as (D1 & D2 & l' & ED & G1 & G2 & Eq & Hok' & Hv'). rewrite Eq.
      assert (Hne : o <> rgt). { destruct Hsp as [_ _ _ Hw _ _ _ _ _]. apply own_NoDup in Hw as [[Hw _]%NoDup_cons _]. intros ->. apply Hw. left. }
      assert (Hl1 : leaf_of (upd_leaf a1 o l') rgt = Some lr) by (rewrite leaf_of_upd_ne; done). pose proof (entry_at_ok _ rgt lr _ nx 0 x (arena_ok_upd_leaf _ o l' A1 Hok') Hl1 Hvr Hx0 ltac:(lia)) as He0. unfold entry_at in He0.
      destruct (lScore _ _ _) as [s0| |]; try done. destruct (lRef _ _ _) as [r0| |]; try done. injection He0 as Ex0. exists (upd_leaf a1 o l'), (Two (PLeaf o rgt (D1 ++ e :: D2)) x (PLeaf rgt nx ER)). split; [cbn [split_of pord]; by rewrite <- Ex0|].
      assert (Lr : length EL = (length D1 + length D2)%nat) by (rewrite ED; by rewrite length_app). apply (leaf_splits a1 rgt l' _ ER x R); try done.
      * assert (HER : Forall (fun y => key_lt k (ekey mb y)) ER). { rewrite EE in *. constructor; [done|]. apply StronglySorted_inv in HsR as [_ HsR]. eapply Forall_impl; [exact HsR|]. cbn. intros y Hy. by transitivity (ekey mb x). }
        pose proof (sorted_place A D1 (D2 ++ ER) B) as Hp. rewrite <- (assoc_L (++) D1). apply Hp; try done; [rewrite Ees in Hs; rewrite ED in Hs; by rewrite <- (assoc_L (++)) in Hs|by apply Forall_app].
      * exists D1, (D2 ++ ER). rewrite <- !(assoc_L (++)). cbn. split; [|done]. rewrite Ees at 1. by rewrite ED, <- (assoc_L (++)).
      * rewrite length_app. cbn. lia.
      * lia.
      * apply Forall_app. split; [|done]. rewrite ED in FeL. apply Forall_app in FeL as [? ?]. apply Forall_app. split; [done|by constructor].
      * left. done.
Qed.
End leaf.
End insert.
