(* ===== verification/TreeGrow.v ===== *)
(** Insertion into the counted tree, from a leaf up to the root (engine/f3/struct/tree.go,
    [insertInto], [branchInsertChild], [Insert]). *)

From stdpp Require Import sorting.
From S2P Require Import Prelude Ordered TreeBlocks TreeArrays TreeOps TreeShape TreeNodes TreeBranches TreeSearch TreeInsert.
#[local] Open Scope Z_scope.
#[local] Set Warnings "-register-all".

(** ** A node and its children *)

Definition klinks (K : list ptree) : list (Z * Z) := concat (map leaf_links K).
Definition klords (K : list ptree) : list Z := (klinks K).*1.
Definition kbords (K : list ptree) : list Z := concat (map bords K).

Lemma klinks_app K1 K2 : klinks (K1 ++ K2) = klinks K1 ++ klinks K2.
Proof. unfold klinks. by rewrite map_app, concat_app. Qed.
Lemma klords_app K1 K2 : klords (K1 ++ K2) = klords K1 ++ klords K2.
Proof. unfold klords. by rewrite klinks_app, fmap_app. Qed.
Lemma kbords_app K1 K2 : kbords (K1 ++ K2) = kbords K1 ++ kbords K2.
Proof. unfold kbords. by rewrite map_app, concat_app. Qed.
Lemma klords_cons c K : klords (c :: K) = lords c ++ klords K.
Proof. unfold klords, klinks. cbn. by rewrite fmap_app. Qed.
Lemma kbords_cons c K : kbords (c :: K) = bords c ++ kbords K.
Proof. done. Qed.
Lemma klinks_cons c K : klinks (c :: K) = leaf_links c ++ klinks K.
Proof. done. Qed.
Lemma flords_two c s d : flords (Two c s d) = lords c ++ lords d.
Proof. unfold flords. cbn [flinks]. by rewrite fmap_app. Qed.
Lemma lords_knode o seps kids : lords (PNode o seps kids) = klords kids.
Proof. done. Qed.
Lemma bords_knode o seps kids : bords (PNode o seps kids) = o :: kbords kids.
Proof. done. Qed.
Lemma flat_node o S1 S2 K1 c K2 : length K1 = length S1 -> flat (PNode o (S1 ++ S2) (K1 ++ c :: K2)) = wl (map flat K1) S1 ++ flat c ++ wr S2 (map flat K2).
Proof. intros H. cbn [flat]. rewrite map_app. cbn [map]. apply weave_split. by rewrite length_map. Qed.

Definition kid (a : arena) (l : nat) (c : ptree) : Prop := stands a l c /\ full c.

Lemma stands_node a l o seps kids : stands a (S (S l)) (PNode o seps kids) <-> exists b, branch_of a o = Some b /\ branchv b seps (kc <$> kids) /\ Forall (kid a (S l)) kids /\ length kids = S (length seps) /\ (length seps <= 15)%nat.
Proof.
  split.
  - intros [Hh Hs]. inversion Hh as [|? ? ? b Hb Hv Hk]; subst. inversion Hs as [|? ? ? ? Hl Hm Hf]; subst. exists b. split_and!; try done. rewrite Forall_forall in *. intros c Hc. destruct (Hf c Hc). split; [split; auto|done].
  - intros (b & Hb & Hv & Hk & Hl & Hm). split; [econstructor; [done|done|]|constructor; [done|done|]]; (eapply Forall_impl; [exact Hk|]; intros c [[? ?] ?]; try split; done).
Qed.

Lemma stands_leaf_inv a p : stands a 1 p -> exists o nx es, p = PLeaf o nx es.
Proof. intros [_ H]. inversion H; subst. eauto. Qed.
Lemma stands_node_inv a l p : stands a (S (S l)) p -> exists o seps kids, p = PNode o seps kids /\ length kids = S (length seps).
Proof. intros [_ H]. inversion H; subst. eauto 6. Qed.

Lemma stands_frame a a' l p : stands a l p -> (forall o, o ∈ lords p -> leaf_of a' o = leaf_of a o) -> (forall o, o ∈ bords p -> branch_of a' o = branch_of a o) -> stands a' l p.
Proof. intros [H1 H2] HL HB. split; [by eapply holds_frame|done]. Qed.

Lemma kids_frame a a' l K L B : Forall (kid a l) K -> tree_frame a a' L B -> klords K ⊆ L -> kbords K ⊆ B -> Forall (kid a' l) K.
Proof.
  intros HK [F1 F2 _] HL HB. induction HK as [|c K [Hc Hf] HK IH]; [constructor|]. rewrite klords_cons in HL. rewrite kbords_cons in HB. constructor; [split; [|done]|apply IH; set_solver].
  eapply stands_frame; [exact Hc|intros o Ho; apply F1; set_solver|intros o Ho; apply F2; set_solver].
Qed.

Lemma pord_bords a l o seps kids : stands a (S (S l)) (PNode o seps kids) -> o ∈ bords (PNode o seps kids).
Proof. intros _. rewrite bords_knode. left. Qed.

(** The children with one of them replaced by a forest. *)
Definition regrown (o : Z) (S1 S2 : list ent) (K1 K2 : list ptree) (f : forest) : ptree :=
  match f with One c => PNode o (S1 ++ S2) (K1 ++ c :: K2) | Two c s d => PNode o (S1 ++ s :: S2) (K1 ++ c :: d :: K2) end.

Section regrown.
Context (o : Z) (S1 S2 : list ent) (K1 K2 : list ptree) (f : forest).

Lemma flat_regrown : length K1 = length S1 -> length K2 = length S2 -> flat (regrown o S1 S2 K1 K2 f) = wl (map flat K1) S1 ++ fflat f ++ wr S2 (map flat K2).
Proof.
  intros H1 H2. destruct f as [c|c s d]; cbn [regrown fflat]; [by apply flat_node|]. rewrite flat_node by done. rewrite <- (assoc_L (++)). do 2 f_equal.
Qed.
Lemma links_regrown : leaf_links (regrown o S1 S2 K1 K2 f) = klinks K1 ++ flinks f ++ klinks K2.
Proof. destruct f as [c|c s d]; cbn [regrown flinks leaf_links]; fold (klinks (K1 ++ c :: K2)); unfold klinks; rewrite map_app, concat_app; cbn; by rewrite <- ?(assoc_L (++)). Qed.
Lemma lords_regrown : lords (regrown o S1 S2 K1 K2 f) = klords K1 ++ flords f ++ klords K2.
Proof. unfold lords. by rewrite links_regrown, !fmap_app. Qed.
Lemma bords_regrown : bords (regrown o S1 S2 K1 K2 f) = o :: kbords K1 ++ fbords f ++ kbords K2.
Proof. destruct f as [c|c s d]; cbn [regrown fbords bords]; unfold kbords; rewrite map_app, concat_app; cbn; by rewrite <- ?(assoc_L (++)). Qed.
End regrown.

Lemma known_seps {M : Members} mb o seps kids : length kids = Datatypes.S (length seps) -> Forall (kn mb) (flat (PNode o seps kids)) -> Forall (known mb) seps.
Proof.
  intros Hl Hk. rewrite Forall_forall in Hk. apply Forall_forall. intros s Hs. apply (Hk (ISep s)). cbn [flat]. apply list_elem_of_split in Hs as (S1 & S2 & ->). rewrite length_app in Hl. cbn in Hl. rewrite <- (take_drop (Datatypes.S (length S1)) kids), map_app.
  rewrite weave_app; [apply elem_of_app; right; left|rewrite length_map, length_take; lia|rewrite length_map, length_drop; lia].
Qed.

Lemma split_kids {X Y} (S1 S2 : list X) (kids : list Y) : length kids = S (length (S1 ++ S2)) -> exists K1 c K2, kids = K1 ++ c :: K2 /\ length K1 = length S1 /\ length K2 = length S2.
Proof.
  intros Hl. rewrite length_app in Hl. destruct (lookup_lt_is_Some_2 kids (length S1)) as [c Hc]; [lia|]. exists (take (length S1) kids), c, (drop (S (length S1)) kids). rewrite take_drop_middle by done. rewrite length_take, length_drop. split_and!; [done|lia|lia].
Qed.

(** The child a key routes to. *)
Record routed {M : Members} (mb : Z -> bytes) (a : arena) (l : nat) (o : Z) (seps : list ent) (kids : list ptree) (k : key) (S1 S2 : list ent) (K1 : list ptree) (c : ptree) (K2 : list ptree) (b : abranch) : Prop := {
  ro_seps : seps = S1 ++ S2;
  ro_kids : kids = K1 ++ c :: K2;
  ro_len1 : length K1 = length S1;
  ro_len2 : length K2 = length S2;
  ro_node : branch_of a o = Some b;
  ro_view : branchv b (S1 ++ S2) (kc <$> K1 ++ c :: K2);
  ro_kid : Forall (kid a (S l)) (K1 ++ c :: K2);
  ro_max : (length (S1 ++ S2) <= 15)%nat;
  ro_route : route (enc a) o k.1 k.2 = Ok (zlen S1);
  ro_child : bChild (enc a) o (zlen S1) = Ok (pord c);
  ro_before : Forall (bef mb k) (wl (map flat K1) S1);
  ro_after : Forall (aft mb k) (wr S2 (map flat K2))
}.

Lemma route_split {M : Members} mb a l o seps kids k : arena_ok a -> stands a (S (S l)) (PNode o seps kids) -> sorted mb (flat (PNode o seps kids)) -> Forall (kn mb) (flat (PNode o seps kids)) ->
  exists S1 S2 K1 c K2 b, routed mb a l o seps kids k S1 S2 K1 c K2 b.
Proof.
  intros Ha Hst Hs Hkn. apply stands_node in Hst as (b & Hb & Hv & Hkids & Hlen & Hmax). destruct (route_ok mb a o b seps (kc <$> kids) Ha Hb Hv k) as (S1 & S2 & -> & Er & R1 & R2).
  { apply (weave_seps mb _ (map flat kids)); [by rewrite length_map|done]. }
  { by apply (known_seps mb o seps kids). }
  destruct (split_kids _ _ _ Hlen) as (K1 & c & K2 & -> & HK1 & HK2). exists S1, S2, K1, c, K2, b. assert (EK : zlen S1 = zlen (kc <$> K1)) by (unfold zlen; by rewrite length_fmap, HK1). pose proof Hv as Hv0. rewrite fmap_app, fmap_cons in Hv0. destruct (node_kid a o b Ha Hb _ _ _ _ (zlen S1) Hv0 EK) as (Ec & _).
  rewrite flat_node in Hs by done. apply sorted_app in Hs as (Hs1 & Hs2 & _). apply sorted_app in Hs2 as (_ & Hs2 & _). split; try done; [by apply wl_bef|by apply wr_aft].
Qed.

Section insert.
Context {M : Members} (mb : Z -> bytes) (e : ent).
#[local] Abbreviation k := (ekey mb e).

(** What does not depend on how the branch took the new child. *)
Record inserted_pure (p : ptree) (f : forest) (A B : list item) (hd tl : Z) : Prop := {
  ip_sorted : sorted mb (A ++ fflat f ++ B);
  ip_ents : exists X Y, pents p = X ++ Y /\ ents (fflat f) = X ++ e :: Y;
  ip_known : Forall (kn mb) (fflat f);
  ip_chain : chain (flinks f) hd tl
}.

Section node.
Context (a : arena) (l : nat) (o : Z) (S1 S2 : list ent) (K1 K2 : list ptree) (c : ptree) (A B : list item) (RL RB : list Z) (hd tl : Z).
Hypothesis (HK1 : length K1 = length S1) (HK2 : length K2 = length S2).
#[local] Abbreviation p := (PNode o (S1 ++ S2) (K1 ++ c :: K2)).
#[local] Abbreviation AL := (A ++ wl (map flat K1) S1).
#[local] Abbreviation BR := (wr S2 (map flat K2) ++ B).
#[local] Abbreviation RLc := (klords K1 ++ klords K2 ++ RL).
#[local] Abbreviation RBc := (o :: kbords K1 ++ kbords K2 ++ RB).

Lemma flat_ctx : A ++ flat p ++ B = AL ++ flat c ++ BR.
Proof. rewrite flat_node by done. by rewrite <- !(assoc_L (++)). Qed.

Lemma own_child : own a (lords p ++ RL) (bords p ++ RB) -> own a (lords c ++ RLc) (bords c ++ RBc).
Proof.
  intros H. eapply own_perm; [exact H|rewrite lords_knode, klords_app, klords_cons; solve_Permutation|rewrite bords_knode, kbords_app, kbords_cons; solve_Permutation].
Qed.

Lemma pure_up f F m1 m2 : chain (klinks K1) hd m1 -> chain (klinks K2) m2 tl -> Forall (kn mb) (flat p) -> inserted_pure c f AL BR m1 m2 -> fflat F = flat (regrown o S1 S2 K1 K2 f) -> flinks F = leaf_links (regrown o S1 S2 K1 K2 f) -> inserted_pure p F A B hd tl.
Proof.
  intros C1 C2 Hkn [Hs (X & Y & EX & EY) Hk Hc] EF EL. rewrite flat_regrown in EF by done. rewrite links_regrown in EL. rewrite flat_node in Hkn by done. apply Forall_app in Hkn as [Hk1 [_ Hk2]%Forall_app]. split.
  - rewrite EF. by rewrite <- !(assoc_L (++)) in *.
  - exists (ents (wl (map flat K1) S1) ++ X), (Y ++ ents (wr S2 (map flat K2))). rewrite EF. unfold pents. rewrite flat_node by done. rewrite !ents_app. unfold pents in EX. rewrite EX, EY. by rewrite <- !(assoc_L (++)).
  - rewrite EF. apply Forall_app. split; [done|]. by apply Forall_app.
  - rewrite EL. apply chain_app. exists m1. split; [done|]. apply chain_app. exists m2. done.
Qed.

Lemma inserted_parts a' f m n : inserted mb e a a' m c f AL BR RLc RBc n tl -> inserted_pure c f AL BR n tl.
Proof. intros [? ? ? ? ? ? ? ? ? ?]. by split. Qed.

Lemma inserted_count q f A' B' m n : inserted_pure q f A' B' m n -> zlen (ents (fflat f)) = pcount q + 1.
Proof. intros [_ (X & Y & EX & EY) _ _]. unfold pcount. rewrite EX, EY, !zlen_app, zlen_cons. lia. Qed.

Section arena.
Context (a1 : arena) (f : forest) (m1 m2 : Z) (b : abranch).
Hypothesis (Ha : arena_ok a) (Hb : branch_of a o = Some b) (Hv : branchv b (S1 ++ S2) (kc <$> K1 ++ c :: K2)) (Hkids : Forall (kid a (S l)) (K1 ++ c :: K2)) (Hmax : (length (S1 ++ S2) <= 15)%nat).
Hypothesis (Hin : inserted mb e a a1 (S l) c f AL BR RLc RBc m1 m2) (Hni : o ∉ RB ++ kbords K1 ++ kbords K2) (Hcnt : pcount c + 1 < two32).
Hypothesis (C1 : chain (klinks K1) hd m1) (C2 : chain (klinks K2) m2 tl) (Hkn : Forall (kn mb) (flat p)).
Hypothesis (Hsm : zlen (ar_leaves a) < two32 - 1) (Hsb : zlen (ar_branches a) + Z.of_nat (S l) < two32 - 1).

Lemma kids_kept : Forall (kid a1 (S l)) K1 /\ Forall (kid a1 (S l)) K2 /\ branch_of a1 o = Some b /\ 0 <= o /\ arena_ok a1.
Proof.
  apply Forall_app in Hkids as [F1 [_ F2]%Forall_cons]. pose proof (in_frame _ _ _ _ _ _ _ _ _ _ _ _ _ Hin) as Hfr. split_and!.
  - eapply kids_frame; [exact F1|exact Hfr|clear; set_solver|clear; set_solver].
  - eapply kids_frame; [exact F2|exact Hfr|clear; set_solver|clear; set_solver].
  - rewrite (fr_branches _ _ _ _ Hfr); [done|left].
  - apply branch_of_range in Hb. lia.
  - apply (in_ok _ _ _ _ _ _ _ _ _ _ _ _ _ Hin).
Qed.

(** The branch rewritten in place around its new children. *)
Lemma node_refilled b' F : branch_ok b' -> o ∉ fbords f -> branchv b' (S1 ++ match f with One _ => [] | Two _ s _ => [s] end ++ S2) (kc <$> K1 ++ match f with One d => [d] | Two d _ q => [d; q] end ++ K2) ->
  F = One (regrown o S1 S2 K1 K2 f) -> (length (S1 ++ match f with One _ => [] | Two _ s _ => [s] end ++ S2) <= 15)%nat ->
  inserted mb e a (upd_branch a1 o b') (S (S l)) p F A B RL RB hd tl.
Proof.
  intros Hok Hno Hv' -> Hlen. assert (Hfc : full c) by (apply Forall_app in Hkids as [_ [[_ ?] _]%Forall_cons]; done). destruct kids_kept as (F1 & F2 & Hb1 & Ho & Ha1). destruct (pure_up f (One (regrown o S1 S2 K1 K2 f)) m1 m2 C1 C2 Hkn) as [? ? ? ?]; [destruct Hin; by split|done|done|]. destruct Hin as [I1 I2 _ _ _ _ I7 I8 I9 I10].
  assert (Hkf : forall K, Forall (kid a1 (S l)) K -> o ∉ kbords K -> Forall (kid (upd_branch a1 o b') (S l)) K) by (intros K HK Hn; eapply kids_frame; [exact HK|apply frame_upd_branch; [done|exact Hn]|reflexivity|reflexivity]).
  assert (Hb' : branch_of (upd_branch a1 o b') o = Some b') by (by eapply branch_of_upd). pose proof (lords_regrown o S1 S2 K1 K2 f : flords (One _) = _) as EL'. pose proof (bords_regrown o S1 S2 K1 K2 f : fbords (One _) = _) as EB'. split; try done.
  - by apply arena_ok_upd_branch.
  - assert (Hfk : Forall (kid a1 (S l)) match f with One d => [d] | Two d _ q => [d; q] end). { destruct I2 as [d Hd Ed Hfd _|d s q Hd Hq Ed Hfd Hfq _ _]; [constructor; [split; [done|by apply Hfd]|constructor]|constructor; [by split|constructor; [by split|constructor]]]. }
    assert (Hfo : o ∉ kbords match f with One d => [d] | Two d _ q => [d; q] end) by (destruct f; cbn [fbords] in Hno; unfold kbords; cbn; by rewrite app_nil_r).
    constructor; [|by destruct f|..].
    + destruct f as [d|d s q]; cbn [regrown app] in *; apply stands_node; exists b'; split_and!; try done.
      * change (d :: K2) with ([d] ++ K2). apply Hkf; [by apply Forall_app; split; [|apply Forall_app]|rewrite !kbords_app; set_solver].
      * rewrite !length_app. cbn. rewrite HK1, HK2. lia.
      * change (d :: q :: K2) with ([d; q] ++ K2). apply Hkf; [by apply Forall_app; split; [|apply Forall_app]|rewrite !kbords_app; set_solver].
      * rewrite !length_app. cbn. rewrite HK1, HK2. lia.
    + destruct f; cbn [regrown full]; [done|]. rewrite !length_app. cbn. lia.
    + destruct f; cbn [regrown psize]; [done|]. rewrite !length_app. cbn. lia.
  - rewrite EL', EB'. apply own_upd_branch. eapply own_perm; [exact I7|solve_Permutation|solve_Permutation].
  - eapply frame_trans; [eapply frame_sub; [exact I8|clear; set_solver|clear; set_solver]|]. apply frame_upd_branch; [done|set_solver].
  - destruct I9 as [J1 J2]. split; [done|]. rewrite zlen_upd_branch. lia.
  - destruct I10 as [[J1 J2]|J]; [left|by right]. split; [|done]. rewrite EL', J1, lords_knode, klords_app, klords_cons. done.
Qed.

Lemma fresh_branch : o ∉ fbords f.
Proof. pose proof (in_own _ _ _ _ _ _ _ _ _ _ _ _ _ Hin) as Hw. apply own_NoDup in Hw as [_ Hw]. apply NoDup_app in Hw as (_ & Hw & _). intros Ho. apply (Hw o Ho). left. Qed.

Lemma grown_two_inv a0 m q0 g d s q : grown_to a0 m q0 g -> g = Two d s q -> stands a0 m d /\ stands a0 m q /\ pord d = pord q0 /\ full d /\ full q /\ ent_ok s /\ is_u32 (pord q).
Proof. intros [? ? ? ? ?|? ? ? ? ? ? ? ? ? ?]; [done|]. by intros [= -> -> ->]. Qed.

(** The branch cut in two. *)
Lemma node_split a' d s q us ur rgt kidsL kidsR SL SR bl br : f = Two d s q -> S1 ++ s :: S2 = SL ++ (us, ur) :: SR -> K1 ++ d :: q :: K2 = kidsL ++ kidsR -> length SL = 7%nat -> length SR = 8%nat -> length kidsL = 8%nat -> length kidsR = 9%nat ->
  arena_ok a' -> branch_of a' o = Some bl -> branchv bl SL (kc <$> kidsL) -> branch_of a' rgt = Some br -> branchv br SR (kc <$> kidsR) -> ent_ok (us, ur) -> is_u32 rgt ->
  tree_frame a1 a' (flords f ++ RLc) (fbords f ++ kbords K1 ++ kbords K2 ++ RB) -> own a' (flords f ++ RLc) (o :: rgt :: fbords f ++ kbords K1 ++ kbords K2 ++ RB) -> edges a' = edges a1 ->
  size_le a1 a' 0 1 -> inserted mb e a a' (S (S l)) p (Two (PNode o SL kidsL) (us, ur) (PNode rgt SR kidsR)) A B RL RB hd tl.
Proof.
  intros Ef Es Ek L1 L2 L3 L4 Ha' Hbl Hvl Hbr Hvr Hu Hr Hfr Hown' Hed [Z1 Z2]. destruct kids_kept as (F1 & F2 & Hb1 & Ho & Ha1).
  assert (EF : fflat (Two (PNode o SL kidsL) (us, ur) (PNode rgt SR kidsR)) = flat (regrown o S1 S2 K1 K2 f)). { rewrite Ef. cbn [fflat regrown flat]. rewrite Es, Ek, map_app. rewrite weave_app; [done|rewrite length_map; lia..]. }
  assert (EL' : flinks (Two (PNode o SL kidsL) (us, ur) (PNode rgt SR kidsR)) = leaf_links (regrown o S1 S2 K1 K2 f)). { rewrite Ef. cbn [flinks regrown leaf_links]. rewrite Ek, map_app, concat_app. done. }
  destruct (pure_up f (Two (PNode o SL kidsL) (us, ur) (PNode rgt SR kidsR)) m1 m2 C1 C2 Hkn) as [? ? ? ?]; [destruct Hin; by split|done|done|]. destruct Hin as [I1 I2 _ _ _ _ I7 I8 I9 I10].
  assert (Hall : Forall (kid a' (S l)) (kidsL ++ kidsR)). { rewrite <- Ek. rewrite Ef in I2. inversion I2 as [|? ? ? Hd Hq _ Hfd Hfq _ _]; subst. eapply kids_frame; [|exact Hfr|..].
    - apply Forall_app. split; [done|]. constructor; [by split|]. constructor; [by split|done].
    - rewrite klords_app, !klords_cons, flords_two. clear; set_solver.
    - rewrite kbords_app, !kbords_cons. cbn [fbords]. clear; set_solver. }
  assert (EF' : flords (Two (PNode o SL kidsL) (us, ur) (PNode rgt SR kidsR)) = klords K1 ++ flords f ++ klords K2) by (transitivity (lords (regrown o S1 S2 K1 K2 f)); [unfold flords; by rewrite EL'|apply lords_regrown]).
  apply Forall_app in Hall as [HL HR]. assert (EB : kbords kidsL ++ kbords kidsR = kbords K1 ++ fbords f ++ kbords K2). { rewrite <- kbords_app, <- Ek, Ef, kbords_app, !kbords_cons. cbn [fbords]. by rewrite <- !(assoc_L (++)). }
  split; try done.
  - constructor; [apply stands_node; exists bl; split_and!; try done; lia|apply stands_node; exists br; split_and!; try done; lia|done|cbn; lia|cbn; lia|done|done].
  - rewrite EF'. eapply own_perm; [exact Hown'|solve_Permutation|]. cbn [fbords]. rewrite !bords_knode. change ((o :: kbords kidsL) ++ rgt :: kbords kidsR) with (o :: kbords kidsL ++ rgt :: kbords kidsR). rewrite <- Permutation_middle, EB. solve_Permutation.
  - eapply frame_trans; [eapply frame_sub; [exact I8|clear; set_solver|clear; set_solver]|]. eapply frame_sub; [exact Hfr|clear; set_solver|clear; set_solver].
  - destruct I9 as [J1 J2]. split; [lia|]. lia.
  - destruct I10 as [[J1 J2]|J]; [left|right; unfold no_edges in *; by rewrite Hed]. split; [|by rewrite Hed]. rewrite EF', J1, lords_knode, klords_app, klords_cons. done.
Qed.

Lemma forest_stands b' : branch_ok b' -> Forall (kid (upd_branch a1 o b') (S l)) match f with One d => [d] | Two d _ q => [d; q] end.
Proof.
  intros Hok'. destruct kids_kept as (_ & _ & Hb1 & Ho & _). pose proof fresh_branch as Hno. assert (Hfc : full c) by (apply Forall_app in Hkids as [_ [[_ ?] _]%Forall_cons]; done).
  eapply kids_frame; [|apply (frame_upd_branch a1 o b' (flords f) (fbords f)); [done|exact Hno]|..].
  - destruct Hin as [_ I2 _ _ _ _ _ _ _ _]. destruct I2 as [d Hd Ed Hfd _|d s q Hd Hq Ed Hfd Hfq _ _]; [constructor; [split; [done|by apply Hfd]|constructor]|constructor; [by split|constructor; [by split|constructor]]].
  - destruct f; [rewrite klords_cons; unfold klords, klinks; cbn; by rewrite app_nil_r|rewrite !klords_cons, flords_two; unfold klords, klinks; cbn; by rewrite app_nil_r].
  - destruct f; rewrite !kbords_cons; unfold kbords; cbn; by rewrite app_nil_r.
Qed.

Lemma hang_ok d s q b1 : f = Two d s q -> branch_ok b1 -> branchv b1 (S1 ++ S2) ((kc <$> K1) ++ (pord c, pcount c + 1) :: (kc <$> K2)) ->
  exists a' F, hang (enc (upd_branch a1 o b1)) o (zlen S1) (pord c) (bool_decide (l = O)) (s.1, s.2, pord q) = Ok (enc a', split_of F) /\ inserted mb e a a' (S (S l)) p F A B RL RB hd tl.
Proof.
  intros Ef Hok1 Hv1. destruct kids_kept as (F1 & F2 & Hb1 & Ho & Ha1). pose proof fresh_branch as Hno. assert (Hsum : pcount d + pcount q = pcount c + 1).
  { assert (Hip : inserted_pure c f AL BR m1 m2) by (destruct Hin; by split). apply inserted_count in Hip. rewrite <- Hip, Ef. cbn [fflat]. rewrite ents_app, zlen_app. done. }
  pose proof (in_nodes _ _ _ _ _ _ _ _ _ _ _ _ _ Hin) as I2. destruct (grown_two_inv _ _ _ _ _ _ _ I2 Ef) as (Hd & Hq & Ed & Hfd & Hfq & Hse & Hpq). pose proof (pcount_nonneg d). pose proof (pcount_nonneg q).
  set (a2 := upd_branch a1 o b1). assert (Ha2 : arena_ok a2) by (by apply arena_ok_upd_branch). assert (Hb2 : branch_of a2 o = Some b1) by (by eapply branch_of_upd). pose proof (forest_stands b1 Hok1) as Hk2. rewrite Ef in Hk2. apply Forall_cons in Hk2 as [[Hd2 _] _].
  unfold hang. rewrite <- Ed. rewrite (subtreeCount_ok a2 l d Ha2 Hd2) by lia. destruct (node_set_count a2 o b1 Ha2 Hb2 _ _ _ _ (zlen S1) (pcount d) Hv1) as (b3 & E3 & Hok3 & Hv3); [unfold zlen; by rewrite length_fmap, HK1|unfold is_u32; lia|]. rewrite E3. unfold a2. rewrite upd_branch_upd. cbn [fst] in Hv3. rewrite <- Ed in Hv3. change (pord d, pcount d) with (kc d) in Hv3.
  set (a3 := upd_branch a1 o b3). assert (Ha3 : arena_ok a3) by (by apply arena_ok_upd_branch). assert (Hb3 : branch_of a3 o = Some b3) by (by eapply branch_of_upd). pose proof (forest_stands b3 Hok3) as Hk3. rewrite Ef in Hk3. apply Forall_cons in Hk3 as [_ Hk3]. apply Forall_cons in Hk3 as [[Hq3 _] _].
  rewrite (subtreeCount_ok a3 l q Ha3 Hq3) by lia. pose proof (in_size _ _ _ _ _ _ _ _ _ _ _ _ _ Hin) as [J1 J2].
  assert (Hown3 : own a3 (flords f ++ RLc) (o :: fbords f ++ kbords K1 ++ kbords K2 ++ RB)). { apply own_upd_branch. eapply own_perm; [exact (in_own _ _ _ _ _ _ _ _ _ _ _ _ _ Hin)|done|solve_Permutation]. }
  destruct (branchInsertChild_ok a3 o b3 S1 S2 (kc <$> K1 ++ [d]) (kc <$> K2) s (kc q) (flords f ++ RLc) (fbords f ++ kbords K1 ++ kbords K2 ++ RB) Ha3 Hb3) as (a' & up & E4 & Hci); try done.
  - rewrite fmap_app, <- (assoc_L (++)). exact Hv3.
  - rewrite length_fmap, length_app. cbn. lia.
  - by rewrite length_fmap.
  - split; [exact Hpq|unfold is_u32; cbn; lia].
  - unfold a3. rewrite zlen_upd_branch. lia.
  - replace (zlen S1 + 1) with (zlen (kc <$> K1 ++ [d])) by (unfold zlen; rewrite length_fmap, length_app; cbn; lia). cbn [kc fst snd] in E4. rewrite E4. destruct Hci as [b' Hlen Hok' Hv' Ea'|SL SR KL KR bl br us ur rgt Es Ek L1 L2 L3 L4 Ha' Hbl Hvl Hbr Hvr Hlv Hold Hown' Hco Hed Hsz Hr].
    + exists a', (One (regrown o S1 S2 K1 K2 f)). split; [done|]. rewrite Ea'. unfold a3. rewrite upd_branch_upd. apply (node_refilled b'); try done; rewrite Ef; [|done]. rewrite fmap_app in Hv'. rewrite fmap_app. cbn [app]. rewrite !fmap_cons. by rewrite <- (assoc_L (++)) in Hv'.
    + change (kc q :: (kc <$> K2)) with (kc <$> q :: K2) in Ek. rewrite <- fmap_app, <- (assoc_L (++)) in Ek. apply fmap_app_inv in Ek as (kl & kr & EKL & EKR & EK). rewrite EKL in Hvl, L3. rewrite EKR in Hvr, L4. rewrite length_fmap in L3, L4.
      exists a', (Two (PNode o SL kl) (us, ur) (PNode rgt SR kr)). split; [done|]. assert (Hu : ent_ok (us, ur)). { destruct (branchv_view _ _ _ Hok3 Hv3) as (gs & gk & _ & Hw & _). pose proof (bv_ents _ _ _ Hw) as Fs. apply Forall_app in Fs as [[Fs1 Fs2]%Forall_app _]. assert (Fs : Forall ent_ok (S1 ++ s :: S2)) by (apply Forall_app; split; [done|by constructor]). rewrite Es in Fs. apply Forall_app in Fs as [_ [? _]%Forall_cons]. done. }
      eapply node_split; try done.
      * split; [intros o' Ho'; unfold leaf_of; by rewrite Hlv|intros o' Ho'; rewrite Hold by done; unfold a3; apply branch_of_upd_ne; [done|]|exact Hco]. intros ->. set_solver.
      * split; [rewrite Hlv; cbn; lia|]. unfold a3 in Hsz. rewrite zlen_upd_branch in Hsz. done.
Qed.

(** The way back up from the child. *)
Lemma node_step : exists a' F,
  (let* t := let* n := bCount (enc a1) o (zlen S1) in bSetCount (enc a1) o (zlen S1) (n + 1) in
   match split_of f with
   | None => Ok (t, true, None)
   | Some half => let* '(t, up) := hang t o (zlen S1) (pord c) (bool_decide (l = O)) half in Ok (t, true, up)
   end) = Ok (enc a', true, split_of F) /\ inserted mb e a a' (S (S l)) p F A B RL RB hd tl.
Proof.
  destruct kids_kept as (F1 & F2 & Hb1 & Ho & Ha1). pose proof fresh_branch as Hno. pose proof Hv as Hv0. rewrite fmap_app, fmap_cons in Hv0. assert (EK : zlen S1 = zlen (kc <$> K1)) by (unfold zlen; by rewrite length_fmap, HK1). pose proof (pcount_nonneg c) as Hc0.
  destruct (node_kid a1 o b Ha1 Hb1 _ _ _ _ (zlen S1) Hv0 EK) as (_ & -> & _). destruct (node_set_count a1 o b Ha1 Hb1 _ _ _ _ (zlen S1) ((kc c).2 + 1) Hv0 EK) as (b1 & -> & Hok1 & Hv1); [unfold is_u32; cbn; lia|]. cbn [kc fst snd] in Hv1.
  assert (Hcase : (exists d, f = One d) \/ exists d s q, f = Two d s q) by (clear; destruct f; eauto). destruct Hcase as [(d & Ef)|(d & s & q & Ef)]; rewrite Ef; cbn [split_of].
  - exists (upd_branch a1 o b1), (One (regrown o S1 S2 K1 K2 f)). split; [done|]. apply (node_refilled b1); try done; rewrite Ef; [|done].
    assert (Ed : kc d = (pord c, pcount c + 1)). { assert (Hip : inserted_pure c f AL BR m1 m2) by (destruct Hin; by split). apply inserted_count in Hip. rewrite Ef in Hip. unfold kc. f_equal; [|done]. pose proof (in_nodes _ _ _ _ _ _ _ _ _ _ _ _ _ Hin) as I2. rewrite Ef in I2. by inversion I2. }
    rewrite fmap_app. cbn [app]. rewrite fmap_cons, Ed. done.
  - destruct (hang_ok d s q b1 Ef Hok1 Hv1) as (a' & F & E & HF). exists a', F. rewrite E. done.
Qed.
End arena.
End node.

Lemma insertInto_node l t ord score member ref : insertInto (S (S l)) t ord score member ref =
  let* c := route t ord score member in
  let* child := bChild t ord c in
  let* '(t, cadded, csplit) := insertInto (S l) t child score member ref in
  let* t := if cadded then let* n := bCount t ord c in bSetCount t ord c (n + 1) else Ok t in
  match csplit with
  | None => Ok (t, cadded, None)
  | Some half => let* '(t, up) := hang t ord c child (bool_decide (l = O)) half in Ok (t, cadded, up)
  end.
Proof. done. Qed.

Lemma insertInto_ok l a p A B RL RB hd tl : arena_ok a -> stands a (S l) p -> sorted mb (A ++ flat p ++ B) -> Forall (bef mb k) A -> Forall (aft mb k) B -> Forall (kn mb) (flat p) ->
  own a (lords p ++ RL) (bords p ++ RB) -> chain (leaf_links p) hd tl -> zlen (ar_leaves a) < two32 - 1 -> zlen (ar_branches a) + Z.of_nat l < two32 - 1 -> pcount p + 1 < two32 -> ent_ok e -> known mb e ->
  (insertInto (S l) (enc a) (pord p) e.1 (mb e.2) e.2 = Ok (enc a, false, None) /\ exists x, x ∈ pents p /\ ekey mb x = k)
  \/ exists a' f, insertInto (S l) (enc a) (pord p) e.1 (mb e.2) e.2 = Ok (enc a', true, split_of f) /\ inserted mb e a a' (S l) p f A B RL RB hd tl.
Proof.
  intros Ha Hst. revert a p A B RL RB hd tl Ha Hst. induction l as [|l IH]; intros a p A B RL RB hd tl Ha Hst Hs HA HB Hkn Hown Hch Hsl Hsb Hcnt He Hke.
  - destruct p as [o nx es|o seps kids]; [|by destruct Hst as [_ Hsh]; inversion Hsh]. cbn [insertInto pord leaf_links lords bords flat] in *. inversion Hch as [|? ? ? ? Hc2]; subst. inversion Hc2; subst. unfold pents. cbn [flat]. rewrite ents_IEnt.
    apply (leafInsert_ok mb e a); try done. by apply known_ents.
  - destruct p as [o nx es|o seps kids]; [by destruct Hst as [_ Hsh]; inversion Hsh|]. rewrite insertInto_node. cbn [pord].
    pose proof Hs as Hs0. apply sorted_app in Hs0 as (_ & Hs0 & _). apply sorted_app in Hs0 as (Hs0 & _). destruct (route_split mb a l o seps kids k Ha Hst Hs0 Hkn) as (S1 & S2 & K1 & c & K2 & b & [-> -> HK1 HK2 Hb Hv Hkids Hmax Er Ec R1 R2]).
    change (ekey mb e).1 with e.1 in Er. change (ekey mb e).2 with (mb e.2) in Er. rewrite Er, Ec. assert (Hlen : length (K1 ++ c :: K2) = S (length (S1 ++ S2))) by (rewrite !length_app; cbn; lia).
    rewrite (flat_ctx o S1 S2 K1 K2 c A B HK1) in Hs. pose proof (own_child a o S1 S2 K1 K2 c RL RB Hown) as Hown'. pose proof Hkids as Hkids'. apply Forall_app in Hkids' as [_ [[Hc Hfc] _]%Forall_cons].
    pose proof Hch as Hch'. change (leaf_links (PNode o (S1 ++ S2) (K1 ++ c :: K2))) with (klinks (K1 ++ c :: K2)) in Hch'. rewrite klinks_app, klinks_cons in Hch'. apply chain_app in Hch' as (m1 & C1 & C2). apply chain_app in C2 as (m2 & Cc & C2).
    pose proof (flat_node o S1 S2 K1 c K2 HK1) as Efl. pose proof Hkn as Hkn'. rewrite Efl in Hkn'. apply Forall_app in Hkn' as [_ [Hknc _]%Forall_app].
    assert (Hcc : pcount c + 1 < two32) by (pose proof (pcount_le o (S1 ++ S2) (K1 ++ c :: K2) c Hlen); assert (c ∈ K1 ++ c :: K2) by (apply elem_of_app; right; left); intuition lia).
    destruct (IH a c _ _ (klords K1 ++ klords K2 ++ RL) (o :: kbords K1 ++ kbords K2 ++ RB) m1 m2 Ha Hc Hs) as [(E & x & Hx & Ex)|(a1 & f & E & Hin)]; try done; try lia.
    + by apply Forall_app.
    + by apply Forall_app.
    + left. rewrite E. split; [done|]. exists x. split; [|done]. unfold pents. rewrite Efl, !ents_app, !elem_of_app. tauto.
    + right. rewrite E. eapply (node_step a l o S1 S2 K1 K2 c); try done. apply own_NoDup in Hown' as [_ Hnd]. apply NoDup_app in Hnd as (_ & _ & Hnd). apply NoDup_cons in Hnd as [Hnd _]. set_solver.
Qed.
End insert.
