(* ===== verification/TreeRep.v ===== *)
(** The counted tree as the sorted sequence it stands for: the invariant of a tree, and [Insert]
    as insertion into the sequence (engine/f3/struct/tree.go). *)

From stdpp Require Import sorting.
From S2P Require Import Prelude Ordered TreeBlocks TreeArrays TreeOps TreeShape TreeNodes TreeBranches TreeSearch TreeInsert TreeGrow.
#[local] Open Scope Z_scope.
#[local] Set Warnings "-register-all".

(** ** The sequence a sorted set keeps *)

Section spec.
Context (mb : Z -> bytes).

Definition increasing (es : list ent) : Prop := StronglySorted (klt mb) es.

(** The entry put at its place unless its key is there. *)
Fixpoint place_entry (e : ent) (es : list ent) : list ent * bool :=
  match es with
  | [] => ([e], true)
  | x :: es' =>
      match key_cmp (ekey mb x) (ekey mb e) with
      | Lt => let '(es'', b) := place_entry e es' in (x :: es'', b)
      | Eq => (es, false)
      | Gt => (e :: es, true)
      end
  end.

Lemma place_absent e X Y : increasing (X ++ e :: Y) -> place_entry e (X ++ Y) = (X ++ e :: Y, true).
Proof.
  induction X as [|x X IH]; cbn.
  - intros [_ H]%StronglySorted_inv. destruct Y as [|y Y]; [done|]. apply Forall_cons in H as [H _]. unfold klt, key_lt in H. cbn. rewrite key_cmp_antisym, H. done.
  - intros [Hs H]%StronglySorted_inv. rewrite IH by done. apply Forall_app in H as [_ H]. apply Forall_cons in H as [H _]. unfold klt, key_lt in H. by rewrite H.
Qed.

Lemma place_present e es x : increasing es -> x ∈ es -> ekey mb x = ekey mb e -> place_entry e es = (es, false).
Proof.
  induction es as [|y es IH]; [by intros ? ?%not_elem_of_nil|]. intros [Hs H]%StronglySorted_inv Hx Ek. cbn. apply elem_of_cons in Hx as [<-|Hx]; [by rewrite Ek, key_cmp_refl|].
  rewrite Forall_forall in H. pose proof (H x Hx) as Hlt. unfold klt, key_lt in Hlt. rewrite Ek in Hlt. rewrite Hlt, IH by done. done.
Qed.
End spec.

(** ** Trees *)

Definition upd_rest (a : arena) (g : Tree -> Tree) : arena := mkArena (ar_leaves a) (ar_branches a) (g (ar_rest a)).

Record tree_ok {M : Members} (mb : Z -> bytes) (a : arena) (p : ptree) : Prop := {
  to_ok : arena_ok a;
  to_height : 1 <= t_height (ar_rest a);
  to_nodes : stands a (Z.to_nat (t_height (ar_rest a))) p;
  to_root : t_root (ar_rest a) = pord p;
  to_leaf : t_rootIsLeaf (ar_rest a) = (t_height (ar_rest a) =? 1);
  to_fill : match p with PNode _ seps _ => seps <> [] | _ => True end;
  to_entries : t_entries (ar_rest a) = pcount p;
  to_own : own a (lords p) (bords p);
  to_chain : chain (leaf_links p) 0 0;
  to_sorted : sorted mb (flat p);
  to_known : Forall (kn mb) (flat p);
  to_min : t_minLeaf (ar_rest a) = leafNone \/ head (lords p) = Some (t_minLeaf (ar_rest a));
  to_max : t_maxLeaf (ar_rest a) = leafNone \/ last (lords p) = Some (t_maxLeaf (ar_rest a))
}.

(** The tree [t] keeps the entries [es], in this order. *)
Definition tree_rep {M : Members} (mb : Z -> bytes) (t : Tree) (es : list ent) : Prop := exists a p, t = enc a /\ tree_ok mb a p /\ pents p = es.

(** Room for one insertion: the arenas may grow by one leaf and one branch per level, and the
    counts by one. *)
Definition has_room (t : Tree) : Prop := t_nLeaf t < two32 - 1 /\ t_nBranch t + t_height t < two32 - 1 /\ t_entries t + 1 < two32.

Lemma rep_increasing {M : Members} mb t es : tree_rep mb t es -> increasing mb es.
Proof. intros (a & p & _ & H & <-). apply sorted_ents. apply H. Qed.

(** ** The first tree *)

Lemma NewTree_ok {M : Members} mb : exists t, NewTree = Ok t /\ tree_rep mb t [].
Proof.
  set (a := mkArena [clear_leaf] [] (set_root (with_leaves empty_arena [] [] 1) 0 true 1)). exists (enc a). split; [by vm_compute|]. exists a, (PLeaf 0 0 []). split; [done|]. split; [|done]. split; try done; try lia.
  - split; cbn; [apply Forall_singleton, clear_leaf_ok|done|done|done].
  - split; [|constructor; cbn; lia]. by apply (holds_leaf _ _ _ _ clear_leaf).
  - repeat constructor.
  - constructor.
  - by left.
  - by left.
Qed.

(** ** A new root *)

Lemma clear_view : clear_branch = mkB 0 (replicate 15 (0, 0)) (replicate 16 (0, 0)).
Proof. done. Qed.

Section grow.
Context (a : arena) (h : nat) (p q : ptree) (s : ent).
Hypothesis (Ha : arena_ok a) (Hp : stands a (S h) p) (Hq : stands a (S h) q) (Fp : full p) (Fq : full q) (Hs : ent_ok s) (Hown : own a (lords p ++ lords q) (bords p ++ bords q)).
Hypothesis (Hh : t_height (ar_rest a) = Z.of_nat (S h)) (Hr : t_root (ar_rest a) = pord p) (Hsb : zlen (ar_branches a) < two32 - 1) (Hsl : zlen (ar_leaves a) < two32) (Hcnt : pcount p + pcount q < two32).

Lemma grow_root_ok : exists a' nr, grow_root (enc a) s.1 s.2 (pord q) = Ok (enc (upd_rest a' (fun t => set_root t nr false (t_height t + 1)))) /\ arena_ok a' /\ stands a' (S (S h)) (PNode nr [s] [p; q])
  /\ own a' (lords p ++ lords q) (nr :: bords p ++ bords q) /\ tree_core a' = tree_core a /\ edges a' = edges a /\ zlen (ar_leaves a') = zlen (ar_leaves a).
Proof.
  unfold grow_root. cbn [enc t_height]. rewrite Hh. destruct (allocBranch_ok a _ _ Ha Hown Hsb) as (a1 & nr & -> & [A1 A2 A3 A4 A5 [A6 A6'] A7 A8]). pose proof (pcount_nonneg p). pose proof (pcount_nonneg q).
  assert (Hsm : small_arena a) by (split; lia). pose proof (pord_range a p Hsm (proj1 Hp)) as Rp. pose proof (pord_range a q Hsm (proj1 Hq)) as Rq. pose proof (branch_of_range _ _ _ A2) as Rn.
  assert (Hni : nr ∉ bords p ++ bords q) by (apply own_NoDup in A5 as [_ [? _]%NoDup_cons]; done). assert (Hroot : t_root (ar_rest a1) = pord p) by (unfold tree_core in A6; congruence). assert (Hhe : t_height (ar_rest a1) = Z.of_nat (S h)) by (unfold tree_core in A6; congruence).
  assert (Hkid : forall b, Forall (kid (upd_branch a1 nr b) (S h)) [p; q]).
  { intros b. eapply (kids_frame a _ _ _ (lords p ++ lords q) (bords p ++ bords q)); [constructor; [by split|constructor; [by split|constructor]]| |rewrite !klords_cons; unfold klords, klinks; cbn; by rewrite app_nil_r|rewrite !kbords_cons; unfold kbords; cbn; by rewrite app_nil_r].
    eapply frame_trans; [|apply frame_upd_branch; [lia|done]]. split; [intros o' _; unfold leaf_of; by rewrite A4|done|done]. }
  assert (E0 : enc a1 = enc (at_ a1 nr 0 (replicate 15 (0, 0)) (replicate 16 (0, 0)))) by (by apply (view_enc a1 nr clear_branch)). rewrite E0.
  assert (W0 : bview_ok 1 (replicate 15 (0, 0)) (replicate 16 (0, 0))) by (apply (bview_k 0); [apply mkB_ok, clear_branch_ok|unfold is_u8; lia]). rewrite (put_k a1 nr _ A2).
  rewrite (put_sep a1 nr _ A1 A2 _ _ _ W0 0 ltac:(lia) s.1 s.2 ltac:(lia)). pose proof (bview_sep _ _ _ (Z.to_nat 0) (s.1, s.2) W0) as W1. rewrite <- surjective_pairing in *. specialize (W1 Hs).
  cbn [at_ enc upd_branch t_root ar_rest]. rewrite Hroot. change (<[Z.to_nat 0:=s]> (replicate 15 (0, 0))) with (s :: replicate 14 (0, 0)) in *. change (replicate 16 (0, 0)) with ((0, 0) :: (0, 0) :: replicate 14 (0, 0)) in *. set (ss := s :: replicate 14 (0, 0)) in *.
  rewrite (put_child a1 nr _ A1 A2 _ _ _ W1 0 ltac:(lia) (pord p) (0, 0) eq_refl). match goal with |- context [at_ a1 nr 1 ss ?L] => change L with ((pord p, 0) :: (0, 0) :: replicate 14 (0, 0)) end. assert (W2 : bview_ok 1 ss ((pord p, 0) :: (0, 0) :: replicate 14 (0, 0))) by (apply (bview_kid _ _ _ 0 (pord p, 0)) in W1; [done|split; [done|unfold is_u32; cbn; lia]]).
  rewrite (put_child a1 nr _ A1 A2 _ _ _ W2 1 ltac:(lia) (pord q) (0, 0) eq_refl). match goal with |- context [at_ a1 nr 1 ss ?L] => change L with ((pord p, 0) :: (pord q, 0) :: replicate 14 (0, 0)) end. assert (W3 : bview_ok 1 ss ((pord p, 0) :: (pord q, 0) :: replicate 14 (0, 0))) by (apply (bview_kid _ _ _ 1 (pord q, 0)) in W2; [done|split; [done|unfold is_u32; cbn; lia]]).
  assert (El : (Z.of_nat (S h) =? 1) = bool_decide (h = 0%nat)) by (destruct (Z.eqb_spec (Z.of_nat (S h)) 1); case_bool_decide; done || lia). rewrite El. cbn [at_ enc upd_branch t_root ar_rest]. rewrite Hroot.
  assert (Hst : forall k ss ks r, r = p \/ r = q -> bview_ok k ss ks -> subtreeCount (enc (at_ a1 nr k ss ks)) (pord r) (bool_decide (h = 0%nat)) = Ok (pcount r)).
  { intros k0 ss0 ks0 r Hrr W. specialize (Hkid (mkB k0 ss0 ks0)). apply Forall_cons in Hkid as [[K1 _] Hkid]. apply Forall_cons in Hkid as [[K2 _] _]. apply subtreeCount_ok; [by apply at_ok|by destruct Hrr as [-> | ->]|destruct Hrr as [-> | ->]; lia]. }
  fold (enc (at_ a1 nr 1 ss ((pord p, 0) :: (pord q, 0) :: replicate 14 (0, 0)))). rewrite Hst by auto.
  rewrite (put_count a1 nr _ A1 A2 _ _ _ W3 0 ltac:(lia) (pcount p) (pord p, 0) eq_refl). match goal with |- context [at_ a1 nr 1 ss ?L] => change L with ((pord p, pcount p) :: (pord q, 0) :: replicate 14 (0, 0)) end. assert (W4 : bview_ok 1 ss ((pord p, pcount p) :: (pord q, 0) :: replicate 14 (0, 0))) by (apply (bview_kid _ _ _ 0 (pord p, pcount p)) in W3; [done|split; [done|unfold is_u32; cbn; lia]]).
  rewrite Hst by auto. rewrite (put_count a1 nr _ A1 A2 _ _ _ W4 1 ltac:(lia) (pcount q) (pord q, 0) eq_refl). match goal with |- context [at_ a1 nr 1 ss ?L] => change L with ((pord p, pcount p) :: (pord q, pcount q) :: replicate 14 (0, 0)) end. assert (W5 : bview_ok 1 ss ((pord p, pcount p) :: (pord q, pcount q) :: replicate 14 (0, 0))) by (apply (bview_kid _ _ _ 1 (pord q, pcount q)) in W4; [done|split; [done|unfold is_u32; cbn; lia]]).
  exists (at_ a1 nr 1 ss ((pord p, pcount p) :: (pord q, pcount q) :: replicate 14 (0, 0))), nr. split; [done|]. split_and!.
  - by apply at_ok.
  - apply stands_node. eexists. split; [by eapply at_branch|]. split_and!; [|apply Hkid|done|cbn; lia]. by exists (replicate 14 (0, 0)), (replicate 14 (0, 0)).
  - by apply own_upd_branch.
  - done.
  - done.
  - cbn. by rewrite A4.
Qed.
End grow.

(** ** Insert *)

Section insert.
Context {M : Members} (mb : Z -> bytes).

Lemma upd_entries_enc a n : with_entries (enc a) n = enc (upd_rest a (fun t => with_entries t n)).
Proof. done. Qed.

Lemma stands_rest a g l p : stands a l p -> stands (upd_rest a g) l p.
Proof. intros H. by eapply stands_frame. Qed.

Lemma own_rest a g L B : (forall t, t_leafFree (g t) = t_leafFree t /\ t_branchFree (g t) = t_branchFree t) -> own a L B -> own (upd_rest a g) L B.
Proof. intros Hg [H1 H2]. destruct (Hg (ar_rest a)) as [E1 E2]. split; cbn; [by rewrite E1|by rewrite E2]. Qed.

Lemma arena_rest a g : (forall t, t_nLeaf (g t) = t_nLeaf t /\ t_nBranch (g t) = t_nBranch t) -> arena_ok a -> arena_ok (upd_rest a g).
Proof. intros Hg [H1 H2 H3 H4]. destruct (Hg (ar_rest a)) as [E1 E2]. split; cbn; [done|done|by rewrite E1|by rewrite E2]. Qed.

(** The cached edges after an operation that kept the leaves or dropped the cache. *)
Lemma edges_kept a a' L L' : (L' = L /\ edges a' = edges a) \/ no_edges a' ->
  (t_minLeaf (ar_rest a) = leafNone \/ head L = Some (t_minLeaf (ar_rest a))) -> (t_maxLeaf (ar_rest a) = leafNone \/ last L = Some (t_maxLeaf (ar_rest a))) ->
  (t_minLeaf (ar_rest a') = leafNone \/ head L' = Some (t_minLeaf (ar_rest a'))) /\ (t_maxLeaf (ar_rest a') = leafNone \/ last L' = Some (t_maxLeaf (ar_rest a'))).
Proof. unfold no_edges, edges. intros [[-> [= -> ->]]|[= -> ->]] ? ?; auto. Qed.

(** The end of every insertion: the entry counted, and the root's halves under a new root. *)
Lemma planted_ok e a p h a' f : tree_ok mb a p -> Z.to_nat (t_height (ar_rest a)) = S h -> has_room (enc a) -> inserted mb e a a' (S h) p f [] [] [] [] 0 0 ->
  exists t', (let t := with_entries (enc a') (add64 (t_entries (enc a')) 1) in match split_of f with None => Ok t | Some (ss, sr, rgt) => grow_root t ss sr rgt end) = (Ok t' : P Tree) /\ tree_rep mb t' (ents (fflat f)).
Proof.
  intros HT Eh (R1 & R2 & R3) [I1 I2 I3 (X & Y & EX & EY) I5 I6 I7 I8 [I9 I9'] I10]. pose proof HT as [T1 T2 T3 T4 T5 T6 T7 T8 T9 T10 T11 T12 T13]. cbn [enc t_height t_root t_entries t_nLeaf t_nBranch] in R1, R2, R3. rewrite (ao_nLeaf _ T1) in R1. rewrite (ao_nBranch _ T1) in R2. rewrite T7 in R3. rewrite Eh in T3. cbn [app] in I3. rewrite app_nil_r in I3. rewrite !app_nil_r in I7.
  assert (Hc : zlen (ents (fflat f)) = pcount p + 1) by (unfold pcount; rewrite EX, EY, !zlen_app, zlen_cons; lia). pose proof (pcount_nonneg p) as Hp0. destruct I8 as [_ _ I8]. unfold tree_core in I8. injection I8 as C1 C2 C3 C4. cbn [enc t_entries]. rewrite C4, T7, add64_small by lia. fold (enc a').
  destruct (edges_kept a a' _ _ I10 T12 T13) as [Emin Emax]. destruct I2 as [p' P1 P2 P3 P4|p' s q P1 P2 P3 P4 P5 P6 P7]; cbn [split_of].
  - eexists. split; [done|]. rewrite upd_entries_enc. eexists _, p'. split; [done|]. split; [|done]. split; cbn [upd_rest ar_rest with_entries t_root t_height t_entries t_rootIsLeaf t_minLeaf t_maxLeaf]; try done; try congruence.
    + by apply arena_rest.
    + rewrite C3, Eh. by apply stands_rest.
    + destruct p' as [|o' seps' kids']; [done|]. destruct p as [|o seps kids]; [destruct P1 as [_ P1], T3 as [_ T3]; inversion P1; inversion T3; congruence|]. cbn in P4. destruct seps, seps'; done || (cbn in P4; lia).
  - rewrite upd_entries_enc. set (a2 := upd_rest a' _). assert (Hc2 : pcount p' + pcount q = pcount p + 1) by (rewrite <- Hc; cbn [fflat]; by rewrite ents_app, zlen_app). rewrite flords_two in I7. cbn [fbords] in I7.
    destruct (grow_root_ok a2 h p' q s) as (a3 & nr & -> & G1 & G2 & G3 & G4 & G5 & G6); try done; try (by apply stands_rest); try (by apply arena_rest); try (by apply own_rest); cbn [a2 upd_rest ar_rest ar_branches ar_leaves with_entries t_height t_root]; try lia; try congruence.
    eexists. split; [done|]. eexists _, (PNode nr [s] [p'; q]). split; [done|]. assert (EF : flat (PNode nr [s] [p'; q]) = fflat (Two p' s q)) by (cbn; by rewrite app_nil_r). assert (EL : leaf_links (PNode nr [s] [p'; q]) = flinks (Two p' s q)) by (cbn; by rewrite app_nil_r).
    unfold tree_core, edges in G4, G5. injection G4 as D1 D2 D3 D4. injection G5 as D5 D6. cbn [a2 upd_rest ar_rest with_entries t_root t_rootIsLeaf t_height t_entries t_minLeaf t_maxLeaf] in D1, D2, D3, D4, D5, D6. split; [|unfold pents; by rewrite EF].
    split; cbn [upd_rest ar_rest set_root t_root t_rootIsLeaf t_height t_entries t_minLeaf t_maxLeaf]; try done; try lia; unfold lords; rewrite ?EL, ?EF; try done.
    + by apply arena_rest.
    + replace (Z.to_nat (t_height (ar_rest a3) + 1)) with (S (S h)) by lia. by apply stands_rest.
    + rewrite D4. unfold pcount, pents. rewrite EF, Hc. done.
    + apply own_rest; [done|]. cbn [flinks]. rewrite fmap_app. rewrite bords_knode, !kbords_cons. unfold kbords. cbn [map concat]. rewrite app_nil_r. done.
    + rewrite D5. done.
    + rewrite D6. done.
Qed.

Lemma Tree_Insert_ok t es e : tree_rep mb t es -> has_room t -> ent_ok e -> known mb e ->
  exists t', Tree_Insert t e.1 (mb e.2) e.2 = Ok (t', (place_entry mb e es).2) /\ tree_rep mb t' (place_entry mb e es).1.
Proof.
  intros (a & p & -> & HT & <-) HR He Hk. pose proof HT as [T1 T2 T3 T4 T5 T6 T7 T8 T9 T10 T11 T12 T13]. pose proof HR as (R1 & R2 & R3). unfold Tree_Insert. cbn [enc t_height t_root t_entries t_nLeaf t_nBranch] in *. rewrite (ao_nLeaf _ T1) in R1. rewrite (ao_nBranch _ T1) in R2. rewrite T7 in R3. rewrite T4. fold (enc a).
  destruct (Z.to_nat (t_height (ar_rest a))) as [|h] eqn:Eh; [lia|].
  pose proof (insertInto_ok mb e h a p [] [] [] [] 0 0 T1 T3) as HI. cbn [app] in HI. rewrite !app_nil_r in HI. specialize (HI T10 (Forall_nil_2 _) (Forall_nil_2 _) T11 T8 T9 ltac:(lia) ltac:(lia) ltac:(lia) He Hk).
  destruct HI as [(E & x & Hx & Ex)|(a' & f & E & Hin)].
  - rewrite E. rewrite (place_present mb e (pents p) x) by (done || apply sorted_ents, T10). exists (enc a). split; [done|]. exists a, p. done.
  - rewrite E. destruct (planted_ok e a p h a' f HT Eh HR Hin) as (t' & Ef & HR'). destruct Hin as [_ _ I3 (X & Y & EX & EY) _ _ _ _ _ _]. cbn [app] in I3. rewrite app_nil_r in I3. assert (Hinc : increasing mb (X ++ e :: Y)) by (rewrite <- EY; by apply sorted_ents). rewrite EX, (place_absent mb e X Y Hinc). cbn [fst snd]. rewrite <- EY. exists t'. cbv zeta in Ef. destruct (split_of f) as [[[ss sr] rgt]|]; [rewrite Ef|injection Ef as <-]; done.
Qed.
End insert.
