(* ===== verification/TreeReads.v ===== *)
(** Reads of the counted tree: the descents by key and by position end at the leaf that holds the
    place asked for (engine/f3/struct/tree.go). *)

From stdpp Require Import sorting.
From S2P Require Import Prelude Ordered TreeBlocks TreeArrays TreeOps TreeShape TreeNodes TreeBranches TreeSearch TreeInsert TreeGrow TreeRep.
#[local] Open Scope Z_scope.
#[local] Set Warnings "-register-all".

(** ** The leaves in order *)

Fixpoint plf (p : ptree) : list (Z * Z * list ent) :=
  match p with
  | PLeaf o nx es => [(o, nx, es)]
  | PNode _ _ kids => concat (map plf kids)
  end.

Definition entries_of (P : list (Z * Z * list ent)) : list ent := concat (map snd P).

Lemma entries_of_app P1 P2 : entries_of (P1 ++ P2) = entries_of P1 ++ entries_of P2.
Proof. unfold entries_of. by rewrite map_app, concat_app. Qed.

Lemma links_plf p : leaf_links p = map fst (plf p).
Proof.
  induction p as [o nx es|o seps kids IH] using ptree_ind_kids; [done|]. cbn [leaf_links plf]. induction IH as [|c kids Hc _ IH]; [done|]. cbn. by rewrite map_app, <- Hc, IH.
Qed.

Lemma pents_plf l p : shape l p -> pents p = entries_of (plf p).
Proof.
  revert l. induction p as [o nx es|o seps kids IH] using ptree_ind_kids; intros l Hs.
  - unfold pents, entries_of. cbn. by rewrite ents_IEnt, app_nil_r.
  - inversion Hs as [|l' ? ? ? Hl Hm Hk]; subst. rewrite pents_node by done. cbn [plf]. clear Hl Hm Hs. induction IH as [|c kids Hc _ IH]; [done|]. apply Forall_cons in Hk as [[Hk _] Hks]. cbn [map concat]. rewrite entries_of_app, (Hc _ Hk), IH by done. done.
Qed.

Definition leaf_at (a : arena) (x : Z * Z * list ent) : Prop := exists l, leaf_of a x.1.1 = Some l /\ leafv l x.2 x.1.2.

Lemma holds_plf a p : holds_tree a p -> Forall (leaf_at a) (plf p).
Proof.
  induction p as [o nx es|o seps kids IH] using ptree_ind_kids; intros H; inversion H as [? ? ? lf Hlf Hvf|? ? ? b Hb Hv Hk]; subst.
  - apply Forall_singleton. by exists lf.
  - cbn [plf]. clear H Hb Hv. induction IH as [|c kids Hc _ IH]; [constructor|]. apply Forall_cons in Hk as [Hk Hks]. cbn. apply Forall_app. auto.
Qed.

(** A leaf of the tree with what is before and after it. *)
Record focus (a : arena) (p : ptree) (o nx : Z) (es : list ent) (P1 P2 : list (Z * Z * list ent)) (F1 F2 : list item) : Prop := {
  fo_plf : plf p = P1 ++ (o, nx, es) :: P2;
  fo_flat : flat p = F1 ++ (IEnt <$> es) ++ F2;
  fo_before : ents F1 = entries_of P1;
  fo_after : ents F2 = entries_of P2;
  fo_leaf : leaf_at a (o, nx, es)
}.

Lemma ents_wl S K : length K = length S -> ents (wl (map flat K) S) = concat (map pents K).
Proof. unfold wl. revert S. induction K as [|c K IH]; intros [|s S] H; try done. injection H as H. cbn [map zip_with concat]. rewrite !ents_app, IH by done. cbn. by rewrite app_nil_r. Qed.
Lemma ents_wr S K : length K = length S -> ents (wr S (map flat K)) = concat (map pents K).
Proof. unfold wr. revert S. induction K as [|c K IH]; intros [|s S] H; try done. injection H as H. cbn [map zip_with concat]. rewrite ents_app, IH by done. done. Qed.

Lemma kids_pents_plf l K : Forall (fun c => shape l c) K -> concat (map pents K) = entries_of (concat (map plf K)).
Proof. induction 1 as [|c K Hc _ IH]; [done|]. cbn [map concat]. by rewrite entries_of_app, (pents_plf _ _ Hc), IH. Qed.

Lemma focus_up a l o0 S1 S2 K1 K2 c o nx es P1 P2 F1 F2 : length K1 = length S1 -> length K2 = length S2 -> Forall (kid a (S l)) (K1 ++ c :: K2) -> focus a c o nx es P1 P2 F1 F2 ->
  focus a (PNode o0 (S1 ++ S2) (K1 ++ c :: K2)) o nx es (concat (map plf K1) ++ P1) (P2 ++ concat (map plf K2)) (wl (map flat K1) S1 ++ F1) (F2 ++ wr S2 (map flat K2)).
Proof.
  intros H1 H2 Hk [E1 E2 E3 E4 E5]. assert (Hsh : Forall (fun c => shape (S l) c) (K1 ++ c :: K2)) by (eapply Forall_impl; [exact Hk|]; intros x [[_ ?] _]; done). apply Forall_app in Hsh as [Hs1 [_ Hs2]%Forall_cons]. split.
  - cbn [plf]. rewrite map_app, concat_app. cbn [map concat]. rewrite E1. by rewrite <- !(assoc_L (++)).
  - rewrite flat_node by done. rewrite E2. by rewrite <- !(assoc_L (++)).
  - rewrite ents_app, ents_wl, E3, entries_of_app by done. by rewrite (kids_pents_plf _ _ Hs1).
  - rewrite ents_app, ents_wr, E4, entries_of_app by done. by rewrite (kids_pents_plf _ _ Hs2).
  - done.
Qed.

Lemma focus_leaf a o nx es : stands a 1 (PLeaf o nx es) -> focus a (PLeaf o nx es) o nx es [] [] [] [].
Proof. intros [Hh _]. inversion Hh as [? ? ? lf Hlf Hvf|]; subst. split; try done; [cbn; by rewrite app_nil_r|by exists lf]. Qed.

(** ** The packed prefix sum *)

Lemma le_dec_app b1 b2 : le_dec (b1 ++ b2) = le_dec b1 + 256 ^ zlen b1 * le_dec b2.
Proof.
  induction b1 as [|x b1 IH]; cbn [app le_dec]; [change (256 ^ zlen (@nil byte)) with 1; ring|]. rewrite IH, zlen_cons. pose proof (zlen_nonneg b1). rewrite (Z.pow_add_r 256 1 (zlen b1)) by lia. change (256 ^ 1) with 256. ring.
Qed.

Fixpoint evens (l : list Z) : list Z := match l with x :: _ :: l' => x :: evens l' | [x] => [x] | [] => [] end.
Fixpoint odds (l : list Z) : list Z := match l with _ :: y :: l' => y :: odds l' | _ => [] end.

Lemma sum_nonneg l : Forall (fun x => 0 <= x) l -> 0 <= sum l.
Proof. unfold sum. induction 1; cbn; lia. Qed.

Lemma halves_nonneg l : Forall is_u32 l -> 0 <= sum (evens l) /\ 0 <= sum (odds l) /\ sum l = sum (evens l) + sum (odds l).
Proof.
  assert (Hn : forall n l, (length l <= n)%nat -> Forall is_u32 l -> 0 <= sum (evens l) /\ 0 <= sum (odds l) /\ sum l = sum (evens l) + sum (odds l)); [|intros H; by eapply Hn].
  clear l. induction n as [|n IH]; intros [|x [|y l]] Hl Hf; cbn in Hl; try lia; try (cbn; lia).
  - apply Forall_cons in Hf as [Hx _]. unfold is_u32 in Hx. unfold sum. cbn. lia.
  - apply Forall_cons in Hf as [Hx [Hy Hf]%Forall_cons]. destruct (IH l) as (? & ? & ?); [lia|done|]. unfold is_u32 in *. unfold sum in *. cbn [evens odds foldr]. lia.
Qed.

Lemma packed_ok n b H xs ys T acc : b = H ++ concat (map (le_enc 4) xs) ++ T -> zlen H = countOff -> Forall is_u32 xs -> (length ys + 2 * n <= length xs)%nat -> ys = take (length ys) xs ->
  forall zs, zs = take (2 * n) (drop (length ys) xs) -> 0 <= acc -> acc + sum (evens zs) + two32 * sum (odds zs) < two64 ->
  packed_counts n b (zlen ys) acc = Ok (acc + sum (evens zs) + two32 * sum (odds zs)).
Proof.
  intros Eb Hz Fx. revert ys acc. induction n as [|n IH]; intros ys acc Hl Ey zs Ez Ha Hs; [cbn in Ez; rewrite take_0 in Ez; subst zs; cbn [packed_counts]; f_equal; change (sum (evens [])) with 0; change (sum (odds [])) with 0; lia|]. cbn [packed_counts].
  destruct (drop (length ys) xs) as [|x [|y R]] eqn:Ed; [apply (f_equal length) in Ed; rewrite length_drop in Ed; cbn in Ed; lia|apply (f_equal length) in Ed; rewrite length_drop in Ed; cbn in Ed; lia|].
  assert (Ex : xs = ys ++ x :: y :: R) by (rewrite <- (take_drop (length ys) xs), <- Ey, Ed; done). assert (Fxy : is_u32 x /\ is_u32 y). { rewrite Ex in Fx. apply Forall_app in Fx as [_ [? [? _]%Forall_cons]%Forall_cons]. done. } destruct Fxy as [Hx Hy]. unfold is_u32 in *.
  assert (Ew : u64at b (countOff + zlen ys * 4) = (Ok (x + two32 * y) : P Z)).
  { rewrite Eb, Ex, map_app, concat_app. cbn [map concat]. rewrite <- !(assoc_L (++)), (assoc_L (++) H), (assoc_L (++) (le_enc 4 x)). unfold u64at. rewrite uint_at_ok.
    - f_equal. rewrite sl_mid; [|rewrite zlen_app, zlen_array, Hz; change (Z.of_nat 4) with 4; done|done]. rewrite le_dec_app, zlen_le_enc, !le_dec_enc by (pow; done). done.
    - rewrite <- Hz. pose proof (zlen_nonneg H). pose proof (zlen_nonneg ys). lia.
    - rewrite !zlen_app, !zlen_le_enc, zlen_array, <- Hz. match goal with |- context [zlen ?X] => pose proof (zlen_nonneg T) end. pose proof (zlen_nonneg (concat (map (le_enc 4) R))). rewrite zlen_array in *. change (Z.of_nat 4) with 4 in *. change (Z.of_nat 8) with 8. lia. }
  rewrite Ew. assert (Es : zs = x :: y :: take (2 * n) R) by (rewrite Ez; replace (2 * S n)%nat with (S (S (2 * n))) by lia; done). rewrite Es in Hs. cbn [evens odds] in Hs. unfold sum in Hs. cbn [foldr] in Hs. fold (sum (evens (take (2 * n) R))) in Hs. fold (sum (odds (take (2 * n) R))) in Hs.
  assert (HR : Forall is_u32 (take (2 * n) R)) by (rewrite Ex in Fx; apply Forall_app in Fx as [_ [_ [_ Fx]%Forall_cons]%Forall_cons]; by apply Forall_take). assert (Hev : 0 <= sum (evens (take (2 * n) R)) /\ 0 <= sum (odds (take (2 * n) R))). { by destruct (halves_nonneg _ HR) as (? & ? & _). }
  rewrite add64_small by lia. replace (zlen ys + 2) with (zlen (ys ++ [x; y])) by (rewrite zlen_app; done). rewrite (IH (ys ++ [x; y]) (acc + (x + two32 * y))) with (zs := take (2 * n) R).
  - rewrite Es. cbn [evens odds]. unfold sum. cbn [foldr]. f_equal. lia.
  - rewrite length_app. cbn. lia.
  - rewrite length_app, Ex. cbn [length]. rewrite take_app_ge by lia. replace (length ys + 2 - length ys)%nat with 2%nat by lia. done.
  - rewrite length_app, Ex. cbn [length]. rewrite drop_app_ge by lia. replace (length ys + 2 - length ys)%nat with 2%nat by lia. done.
  - lia.
  - lia.
Qed.

Lemma sum_take_le l n : Forall is_u32 l -> 0 <= sum (take n l) <= sum l.
Proof.
  intros Hf. rewrite <- (take_drop n l) at 3. rewrite sum_app. assert (H : forall l, Forall is_u32 l -> 0 <= sum l) by (intros l0 H0; apply sum_nonneg; eapply Forall_impl; [exact H0|]; unfold is_u32; lia).
  pose proof (H _ (Forall_take _ n _ Hf)). pose proof (H _ (Forall_drop _ n _ Hf)). lia.
Qed.

Lemma bCountPrefix_ok a o b seps K1 K2 i : arena_ok a -> branch_of a o = Some b -> branchv b seps (K1 ++ K2) -> i = zlen K1 -> sum K1.*2 < two32 -> bCountPrefix (enc a) o i = Ok (sum K1.*2).
Proof.
  intros Ha Hb Hv -> Hs. pose proof (branch_of_ok _ _ _ Ha Hb) as Hok. destruct (branchv_view _ _ _ Hok Hv) as (gs & gk & E & Hw & _ & Lk). unfold bCountPrefix. rewrite (branch_enc _ _ _ Hb). set (cs := ab_cnts b). assert (Ecs : cs = K1.*2 ++ (K2 ++ gk).*2) by (unfold cs; rewrite E; cbn; by rewrite <- (assoc_L (++)), fmap_app).
  destruct Hok as [_ _ _ _ [Hlc Fc]]. fold cs in Hlc, Fc. rewrite enc_branch_eq, <- (app_nil_r (bcnts b)). rewrite !(assoc_L (++)), <- (assoc_L (++) _ (bcnts b)). set (H := (bhead b ++ bseps b) ++ bkids b). assert (HH : zlen H = countOff). { pose proof (branch_of_ok _ _ _ Ha Hb). unfold H. by rewrite !zlen_app, zlen_bhead, zlen_bseps, zlen_bkids by done. }
  unfold bcnts. fold cs. set (n := length K1) in *. assert (Hn : zlen K1 = Z.of_nat n) by done. rewrite Hn. assert (Hln : (n <= 16)%nat) by (rewrite length_app in Lk; lia). replace (Z.to_nat (Z.of_nat n / 2)) with (n / 2)%nat by (change 2 with (Z.of_nat 2); rewrite <- (Nat2Z.inj_div n 2), Nat2Z.id; done). pose proof (Nat.div_mod_eq n 2) as Hdm. pose proof (Nat.mod_upper_bound n 2 ltac:(lia)) as Hmb. set (m := (n / 2)%nat) in *.
  assert (F1 : Forall is_u32 K1.*2) by (rewrite Ecs in Fc; by apply Forall_app in Fc as [? _]). assert (Ef : K1.*2 = take n cs) by (rewrite Ecs; unfold n; rewrite <- (length_fmap snd K1), take_app_length; done).
  set (zs := take (2 * m) cs). assert (Ezs : zs = take (2 * m) K1.*2) by (rewrite Ef, take_take; unfold zs; f_equal; lia). pose proof (sum_take_le K1.*2 (2 * m) F1) as Hz. rewrite <- Ezs in Hz. destruct (halves_nonneg zs) as (G1 & G2 & G3); [by apply Forall_take|].
  assert (Hbd : (length (@nil Z) + 2 * m <= length cs)%nat) by (rewrite Hlc; cbn [length]; lia).
  pose proof (packed_ok m _ H cs [] [] 0 eq_refl HH Fc Hbd eq_refl zs eq_refl ltac:(lia)) as Hp. change (zlen []) with 0 in Hp. rewrite Hp by lia. rewrite Z.add_0_l. set (ev := sum (evens zs)) in *. set (od := sum (odds zs)) in *.
  assert (El : Z.land (ev + two32 * od) 4294967295 = ev). { change 4294967295 with (Z.ones 32). rewrite Z.land_ones by lia. change (2 ^ 32) with two32. rewrite (Z.mul_comm two32), Z.mod_add by lia. apply Z.mod_small. lia. }
  assert (Er : Z.shiftr (ev + two32 * od) 32 = od). { rewrite Z.shiftr_div_pow2 by lia. change (2 ^ 32) with two32. rewrite (Z.mul_comm two32), Z.div_add, Z.div_small by lia. lia. }
  rewrite El, Er, add64_small by lia. rewrite <- G3. replace (Z.of_nat n / 2) with (Z.of_nat m) by (unfold m; change 2 with (Z.of_nat 2); apply Nat2Z.inj_div). destruct (Z.ltb_spec (Z.of_nat m * 2) (Z.of_nat n)) as [Hlt|Hge].
  - assert (E2 : n = S (2 * m)) by lia. destruct (lookup_lt_is_Some_2 cs (2 * m)) as [x Hx]; [lia|]. assert (Fx : is_u32 x) by exact (Forall_lookup_1 is_u32 _ _ _ Fc Hx). unfold u32at. rewrite (array_get 4 H [] cs (Z.of_nat m * 2) x); [|replace (Z.to_nat (Z.of_nat m * 2)) with (2 * m)%nat by lia; done|lia|rewrite HH; done|pow; exact Fx].
    assert (Es : sum K1.*2 = sum zs + x). { rewrite Ef, E2, (take_S_r _ _ x Hx), sum_app. unfold zs, sum. cbn [foldr]. lia. } unfold is_u32 in Fx. rewrite add64_small by lia. by rewrite Es.
  - assert (E2 : n = (2 * m)%nat) by lia. f_equal. rewrite Ef. unfold zs. by rewrite E2.
Qed.

(** ** Descents *)

Lemma kc_counts K : (kc <$> K).*2 = map pcount K.
Proof. induction K as [|c K IH]; [done|]. cbn. by f_equal. Qed.

Section key_descents.
Context {M : Members} (mb : Z -> bytes) (a : arena) (k : key).
Hypothesis (Ha : arena_ok a).

Lemma rank_descent_node l t ord score member acc : rank_descent (S (S l)) t ord score member acc =
  let* c := route t ord score member in let* n := bCountPrefix t ord c in let* child := bChild t ord c in rank_descent (S l) t child score member (add64 acc n).
Proof. done. Qed.
Lemma key_descent_node l t ord score member : key_descent (S (S l)) t ord score member = let* c := route t ord score member in let* child := bChild t ord c in key_descent (S l) t child score member.
Proof. done. Qed.

(** The leaf a key belongs to, and the number of entries before it. *)
Lemma descent_ok l p acc : stands a (S l) p -> sorted mb (flat p) -> Forall (kn mb) (flat p) -> pcount p < two32 -> 0 <= acc -> acc + pcount p < two64 ->
  exists o nx es P1 P2 F1 F2, focus a p o nx es P1 P2 F1 F2 /\ Forall (bef mb k) F1 /\ Forall (aft mb k) F2
    /\ rank_descent (S l) (enc a) (pord p) k.1 k.2 acc = Ok (o, acc + zlen (ents F1)) /\ key_descent (S l) (enc a) (pord p) k.1 k.2 = Ok o.
Proof.
  revert p acc. induction l as [|l IH]; intros p acc Hst Hs Hkn Hc H0 Hacc.
  - destruct (stands_leaf_inv _ _ Hst) as (o & nx & es & ->). exists o, nx, es, [], [], [], []. split; [by apply focus_leaf|]. do 2 (split; [constructor|]). split; [|done]. cbn [rank_descent pord]. change (zlen (ents [])) with 0. by rewrite Z.add_0_r.
  - destruct (stands_node_inv _ _ _ Hst) as (o & seps & kids & -> & Hlen). destruct (route_split mb a l o seps kids k Ha Hst Hs Hkn) as (S1 & S2 & K1 & c & K2 & b & [-> -> HK1 HK2 Hb Hv Hkids Hmax Er Ec R1 R2]).
    rewrite rank_descent_node, key_descent_node. cbn [pord]. rewrite Er, Ec. pose proof (pcount_node o _ _ Hlen) as Hpc. rewrite map_app, sum_app in Hpc. unfold sum in Hpc at 2. cbn [map foldr] in Hpc. fold (sum (map pcount K2)) in Hpc. pose proof (sum_pcount_nonneg K1). pose proof (sum_pcount_nonneg K2). pose proof (pcount_nonneg c).
    rewrite fmap_app in Hv. rewrite (bCountPrefix_ok a o b _ _ _ (zlen S1) Ha Hb Hv); [|unfold zlen; by rewrite length_fmap, HK1|rewrite kc_counts; lia]. rewrite kc_counts, add64_small by lia.
    pose proof Hkids as Hkids'. apply Forall_app in Hkids' as [_ [[Hc1 _] _]%Forall_cons]. rewrite flat_node in Hs, Hkn by done. apply sorted_app in Hs as (_ & Hs & _). apply sorted_app in Hs as (Hs & _). apply Forall_app in Hkn as [_ [Hkn _]%Forall_app].
    destruct (IH c (acc + sum (map pcount K1)) Hc1 Hs Hkn) as (o' & nx & es & P1 & P2 & F1 & F2 & Hf & B1 & B2 & E1 & E2); try lia. pose proof (focus_up a l o S1 S2 K1 K2 c _ _ _ _ _ _ _ HK1 HK2 Hkids Hf) as Hfu.
    eexists o', nx, es, _, _, _, _. split; [exact Hfu|]. split; [by apply Forall_app|]. split; [by apply Forall_app|]. split; [|exact E2]. rewrite E1. do 2 f_equal. rewrite ents_app, zlen_app, ents_wl by done. rewrite zlen_concat, map_map. fold (sum (map pcount K1)). unfold pcount. lia.
Qed.
End key_descents.

(** ** Descents by position *)

Section rank_descents.
Context (a : arena).
Hypothesis (Ha : arena_ok a).

Lemma pick_child_ok o b seps n A0 x B0 r : branch_of a o = Some b -> forall D, branchv b seps (D ++ A0 ++ x :: B0) -> 0 <= r - sum A0.*2 < x.2 -> (length A0 < n)%nat -> Forall (fun y => is_u32 y.2) A0 -> 0 <= r < two64 ->
  pick_child n (enc a) o (zlen D) r = Ok (zlen (D ++ A0), r - sum A0.*2).
Proof.
  intros Hb. revert A0 r. induction n as [|n IH]; intros A0 r D Hv Hr Hn HA Hr2; [lia|]. cbn [pick_child]. destruct A0 as [|y A0].
  - cbn [app] in *. destruct (node_kid a o b Ha Hb _ _ _ _ (zlen D) Hv eq_refl) as (_ & -> & _). unfold sum in *. cbn in *. rewrite Z.sub_0_r in *. destruct (Z.ltb_spec r x.2); [|lia]. by rewrite app_nil_r.
  - cbn [app] in Hv. destruct (node_kid a o b Ha Hb _ _ _ _ (zlen D) Hv eq_refl) as (_ & -> & _). apply Forall_cons in HA as [Hy HA]. unfold is_u32 in Hy. assert (Es : sum (y :: A0).*2 = y.2 + sum A0.*2) by done. rewrite Es in *.
    assert (H0 : 0 <= sum A0.*2) by (apply sum_nonneg, Forall_fmap; eapply Forall_impl; [exact HA|]; cbn; unfold is_u32; lia). destruct (Z.ltb_spec r y.2); [lia|]. unfold sub64. rewrite Z.mod_small by lia.
    specialize (IH A0 (r - y.2) (D ++ [y])). rewrite zlen_snoc in IH. rewrite IH; [rewrite <- (assoc_L (++)); f_equal; f_equal; lia|by rewrite <- (assoc_L (++))|lia|cbn in Hn; lia|done|lia].
Qed.

Lemma rank_to_leaf_node l t ord r : rank_to_leaf (S (S l)) t ord r = let* '(c, r) := child_at_rank t ord r in let* child := bChild t ord c in rank_to_leaf (S l) t child r.
Proof. done. Qed.

(** The child that holds a position. *)
Lemma split_by_rank kids r : 0 <= r < sum (map pcount kids) -> exists K1 c K2, kids = K1 ++ c :: K2 /\ 0 <= r - sum (map pcount K1) < pcount c.
Proof.
  revert r. induction kids as [|c kids IH]; intros r Hr; [unfold sum in Hr; cbn in Hr; lia|]. unfold sum in Hr. cbn [map foldr] in Hr. fold (sum (map pcount kids)) in Hr. destruct (decide (r < pcount c)).
  - exists [], c, kids. split; [done|]. unfold sum. cbn. lia.
  - destruct (IH (r - pcount c)) as (K1 & d & K2 & -> & H); [lia|]. exists (c :: K1), d, K2. split; [done|]. unfold sum in *. cbn. lia.
Qed.

Lemma child_at_rank_ok l o seps kids r : stands a (S (S l)) (PNode o seps kids) -> 0 <= r < pcount (PNode o seps kids) -> pcount (PNode o seps kids) < two32 ->
  exists K1 c K2 S1 S2, kids = K1 ++ c :: K2 /\ seps = S1 ++ S2 /\ length K1 = length S1 /\ length K2 = length S2 /\ child_at_rank (enc a) o r = Ok (zlen K1, r - sum (map pcount K1)) /\ bChild (enc a) o (zlen K1) = Ok (pord c)
    /\ 0 <= r - sum (map pcount K1) < pcount c /\ Forall (kid a (S l)) (K1 ++ c :: K2).
Proof.
  intros (b & Hb & Hv & Hkids & Hlen & Hmax)%stands_node Hr Hc. rewrite pcount_node in * by done. destruct (split_by_rank kids r Hr) as (K1 & c & K2 & -> & Hr'). rewrite length_app in Hlen. cbn in Hlen.
  exists K1, c, K2, (take (length K1) seps), (drop (length K1) seps). rewrite take_drop, length_take, length_drop. rewrite fmap_app, fmap_cons in Hv. assert (EK : zlen K1 = zlen (kc <$> K1)) by (unfold zlen; by rewrite length_fmap).
  destruct (node_kid a o b Ha Hb _ _ _ _ (zlen K1) Hv EK) as (Ec & _ & _). split_and!; try done; try lia. unfold child_at_rank. rewrite (branch_keys _ _ _ _ _ Ha Hb Hv).
  pose proof (pick_child_ok o b seps (Z.to_nat (zlen seps + 1)) (kc <$> K1) (kc c) (kc <$> K2) r Hb [] Hv) as Hp. change (zlen []) with 0 in Hp. cbn [app] in Hp. rewrite kc_counts, <- EK in Hp. apply Hp; [exact Hr'|rewrite length_fmap; unfold zlen; lia| |lia].
  apply Forall_fmap. eapply Forall_impl; [apply Forall_forall; intros x Hx; exact Hx|]. cbn. intros x Hx. rewrite map_app, sum_app in Hc. unfold sum in Hc at 2. cbn [map foldr] in Hc. fold (sum (map pcount K2)) in Hc. pose proof (sum_pcount_nonneg K2). pose proof (pcount_nonneg c). pose proof (pcount_nonneg x). apply list_elem_of_split in Hx as (X1 & X2 & ->). rewrite map_app, sum_app in Hc. unfold sum in Hc at 2. cbn [map foldr] in Hc. fold (sum (map pcount X2)) in Hc. pose proof (sum_pcount_nonneg X1). pose proof (sum_pcount_nonneg X2). unfold is_u32. lia.
Qed.

Lemma rank_to_leaf_ok l p r : stands a (S l) p -> 0 <= r < pcount p -> pcount p < two32 ->
  exists o nx es P1 P2 F1 F2 off, focus a p o nx es P1 P2 F1 F2 /\ rank_to_leaf (S l) (enc a) (pord p) r = Ok (o, off) /\ 0 <= off < zlen es /\ r = zlen (entries_of P1) + off.
Proof.
  revert p r. induction l as [|l IH]; intros p r Hst Hr Hc.
  - destruct (stands_leaf_inv _ _ Hst) as (o & nx & es & ->). exists o, nx, es, [], [], [], [], r. split; [by apply focus_leaf|]. unfold pcount, pents in Hr. cbn [flat] in Hr. rewrite ents_IEnt in Hr. done.
  - destruct (stands_node_inv _ _ _ Hst) as (o & seps & kids & -> & Hlen). destruct (child_at_rank_ok l o seps kids r Hst Hr Hc) as (K1 & c & K2 & S1 & S2 & -> & -> & HK1 & HK2 & Er & Ec & Hr' & Hkids). rewrite rank_to_leaf_node. cbn [pord]. rewrite Er, Ec.
    pose proof Hkids as Hkids'. apply Forall_app in Hkids' as [Hk1 [[Hc1 _] _]%Forall_cons]. destruct (IH c (r - sum (map pcount K1)) Hc1 Hr') as (o' & nx & es & P1 & P2 & F1 & F2 & off & Hf & E & Ho & Er'); [pose proof (pcount_le o (S1 ++ S2) (K1 ++ c :: K2) c Hlen); assert (c ∈ K1 ++ c :: K2) by (apply elem_of_app; right; left); intuition lia|].
    pose proof (focus_up a l o S1 S2 K1 K2 c _ _ _ _ _ _ _ HK1 HK2 Hkids Hf) as Hfu. eexists o', nx, es, _, _, _, _, off. split; [exact Hfu|]. split; [done|]. split; [done|]. rewrite entries_of_app, zlen_app. rewrite <- (kids_pents_plf (S l)) by (eapply Forall_impl; [exact Hk1|]; intros x [[_ ?] _]; done).
    rewrite zlen_concat, map_map. change (map (fun x => zlen (pents x)) K1) with (map pcount K1). lia.
Qed.
End rank_descents.
