(* ===== verification/TreeWalks.v ===== *)
(** Reads and walks of a whole counted tree against the sequence it stands for: rank, point and
    positional lookups, forward and reverse walks, cursors (engine/f3/struct/tree.go). *)

From stdpp Require Import sorting.
From S2P Require Import Prelude Ordered TreeBlocks TreeArrays TreeOps TreeShape TreeNodes TreeBranches TreeSearch TreeInsert TreeGrow TreeRep TreeReads.
#[local] Open Scope Z_scope.
#[local] Set Warnings "-register-all".

(** ** The reads of a sequence *)

Section spec.
Context (mb : Z -> bytes).

(** The entries below a key, and whether it is there. *)
Fixpoint locate_key (k : key) (es : list ent) : Z * bool :=
  match es with
  | [] => (0, false)
  | x :: es' =>
      match key_cmp (ekey mb x) k with
      | Lt => let '(n, b) := locate_key k es' in (1 + n, b)
      | Eq => (0, true)
      | Gt => (0, false)
      end
  end.

Definition find_ref (k : key) (es : list ent) : Z * bool :=
  let '(n, b) := locate_key k es in
  if b then (match es !! Z.to_nat n with Some e => e.2 | None => 0 end, true) else (0, false).

Lemma locate_split k X Y : Forall (fun x => key_lt (ekey mb x) k) X -> Forall (fun x => key_le k (ekey mb x)) Y -> locate_key k (X ++ Y) = (zlen X, match Y with y :: _ => bool_decide (ekey mb y = k) | [] => false end).
Proof.
  induction 1 as [|x X Hx _ IH]; cbn [app locate_key].
  - destruct 1 as [|y Y Hy _]; [done|]. cbn. unfold key_le in Hy. rewrite key_cmp_antisym in Hy. destruct (key_cmp (ekey mb y) k) eqn:E; cbn in Hy; try done.
    + apply key_cmp_eq in E. by rewrite bool_decide_eq_true_2.
    + rewrite bool_decide_eq_false_2; [done|]. intros Hy'. by rewrite Hy', key_cmp_refl in E.
  - intros HY. unfold key_lt in Hx. rewrite Hx, IH by done. by rewrite zlen_cons.
Qed.

Lemma locate_range k es : 0 <= (locate_key k es).1 <= zlen es.
Proof. induction es as [|x es IH]; [done|]. cbn. rewrite zlen_cons. pose proof (zlen_nonneg es). destruct (key_cmp _ _); cbn; try lia. destruct (locate_key k es). cbn in *. lia. Qed.
End spec.

(** A visitor folded over a sequence until it stops. *)
Fixpoint walk_list {A} (fn : A -> Z -> Z -> A * bool) (s : A) (es : list ent) : A * bool :=
  match es with
  | [] => (s, true)
  | e :: es' => let '(s, go) := fn s e.1 e.2 in if go then walk_list fn s es' else (s, false)
  end.

Lemma walk_list_app {A} fn (s : A) l1 l2 : walk_list fn s (l1 ++ l2) = let '(s', go) := walk_list fn s l1 in if go then walk_list fn s' l2 else (s', false).
Proof. revert s. induction l1 as [|e l1 IH]; intros s; cbn; [done|]. destruct (fn s e.1 e.2) as [s' [|]]; [apply IH|done]. Qed.

(** ** Lookups *)

Section lookups.
Context {M : Members} (mb : Z -> bytes).

Lemma bef_ents k F : Forall (bef mb k) F -> Forall (fun e => key_lt (ekey mb e) k) (ents F).
Proof. intros H. rewrite Forall_forall in H. apply Forall_forall. intros e He%elem_of_ents. apply (H _ He). Qed.
Lemma aft_ents k F : Forall (aft mb k) F -> Forall (fun e => key_lt k (ekey mb e)) (ents F).
Proof. intros H. rewrite Forall_forall in H. apply Forall_forall. intros e He%elem_of_ents. apply (H _ He). Qed.

(** The place of a key: its leaf, the position in it and whether it is there. *)
Lemma key_place a p h k : tree_ok mb a p -> Z.to_nat (t_height (ar_rest a)) = S h -> pcount p < two32 ->
  exists o nx es P1 P2 off, plf p = P1 ++ (o, nx, es) :: P2 /\ leaf_at a (o, nx, es)
    /\ rank_descent (S h) (enc a) (pord p) k.1 k.2 0 = Ok (o, zlen (entries_of P1)) /\ key_descent (S h) (enc a) (pord p) k.1 k.2 = Ok o
    /\ leafPos (enc a) o k.1 k.2 = Ok (off, (locate_key mb k (pents p)).2) /\ 0 <= off <= zlen es /\ zlen (entries_of P1) + off = (locate_key mb k (pents p)).1 /\ ((locate_key mb k (pents p)).2 = true -> off < zlen es).
Proof.
  intros [T1 T2 T3 T4 T5 T6 T7 T8 T9 T10 T11 T12 T13] Eh Hc. rewrite Eh in T3. pose proof (pcount_nonneg p).
  destruct (descent_ok mb a k T1 h p 0 T3 T10 T11 Hc ltac:(lia) ltac:(lia)) as (o & nx & es & P1 & P2 & F1 & F2 & [D1 D2 D3 D4 D5] & B1 & B2 & E1 & E2). exists o, nx, es, P1, P2.
  assert (Es : sorted mb (IEnt <$> es)) by (rewrite D2 in T10; apply sorted_app in T10 as (_ & T10 & _); by apply sorted_app in T10 as (T10 & _)). assert (Ek : Forall (known mb) es) by (rewrite D2 in T11; apply Forall_app in T11 as [_ [T11 _]%Forall_app]; by apply known_ents).
  pose proof D5 as (lf & Hlf & Hvf). cbn [fst snd] in Hlf, Hvf. pose proof (sorted_ents mb _ Es) as Es'. rewrite ents_IEnt in Es'. destruct (leafPos_ok mb a o lf es nx T1 Hlf Hvf k Es' Ek) as (X & Y & EX & Ep & HX & HY). exists (zlen X).
  assert (Ee : pents p = (ents F1 ++ X) ++ (Y ++ ents F2)) by (unfold pents; rewrite D2, !ents_app, ents_IEnt, EX; by rewrite <- !(assoc_L (++))).
  assert (El : locate_key mb k (pents p) = (zlen (ents F1 ++ X), match Y with e :: _ => bool_decide (ekey mb e = k) | [] => false end)).
  { rewrite Ee, locate_split; [|apply Forall_app; split; [by apply bef_ents|done]|apply Forall_app; split; [done|]; eapply Forall_impl; [apply aft_ents, B2|]; cbn; auto]. f_equal. destruct Y as [|y Y]; [|done]. pose proof (aft_ents _ _ B2) as HF. cbn [app]. destruct (ents F2) as [|y F]; [done|]. apply Forall_cons in HF as [HF _]. rewrite bool_decide_eq_false_2; [done|]. intros <-. by apply key_lt_irrefl in HF. }
  rewrite El. cbn [fst snd]. rewrite zlen_app, D3. rewrite Z.add_0_l, D3 in E1. split_and!; try done; [unfold zlen; lia|rewrite EX, zlen_app; pose proof (zlen_nonneg Y); lia|]. intros Hb. destruct Y as [|y Y]; [done|]. rewrite EX, zlen_app, zlen_cons. pose proof (zlen_nonneg Y). lia.
Qed.

Lemma rep_height a p : tree_ok mb a p -> exists h, Z.to_nat (t_height (ar_rest a)) = S h.
Proof. intros H. pose proof (to_height _ _ _ H). exists (Z.to_nat (t_height (ar_rest a) - 1)). lia. Qed.

Lemma Tree_Rank_ok t es k : tree_rep mb t es -> t_entries t < two32 -> Tree_Rank t k.1 k.2 = Ok (locate_key mb k es).
Proof.
  intros (a & p & -> & HT & <-) Hc. destruct (rep_height _ _ HT) as [h Eh]. cbn [enc t_entries] in Hc. rewrite (to_entries _ _ _ HT) in Hc. destruct (key_place a p h k HT Eh Hc) as (o & nx & es & P1 & P2 & off & _ & _ & E1 & _ & E3 & E4 & E5 & _).
  unfold Tree_Rank. cbn [enc t_height t_root]. rewrite (to_root _ _ _ HT), Eh, E1, E3. pose proof (locate_range mb k (pents p)). unfold pcount in Hc. rewrite add64_small by lia. by rewrite E5, <- surjective_pairing.
Qed.

Lemma pents_at a p P1 o nx es P2 off e : stands a (Z.to_nat (t_height (ar_rest a))) p -> plf p = P1 ++ (o, nx, es) :: P2 -> es !! off = Some e -> pents p !! (length (entries_of P1) + off)%nat = Some e.
Proof.
  intros [_ Hs] E Ho. rewrite (pents_plf _ _ Hs), E, entries_of_app. rewrite lookup_app_r by lia. replace (length (entries_of P1) + off - length (entries_of P1))%nat with off by lia. unfold entries_of. cbn [map concat]. rewrite lookup_app_l; [done|]. by eapply lookup_lt_Some.
Qed.

Lemma Tree_Find_ok t es k : tree_rep mb t es -> t_entries t < two32 -> Tree_Find t k.1 k.2 = Ok (find_ref mb k es).
Proof.
  intros (a & p & -> & HT & <-) Hc. destruct (rep_height _ _ HT) as [h Eh]. cbn [enc t_entries] in Hc. rewrite (to_entries _ _ _ HT) in Hc. destruct (key_place a p h k HT Eh Hc) as (o & nx & es & P1 & P2 & off & Ep & (lf & Hlf & Hvf) & _ & E2 & E3 & E4 & E5 & E6).
  unfold Tree_Find, find_ref. cbn [enc t_height t_root]. rewrite (to_root _ _ _ HT), Eh, E2, E3. destruct (locate_key mb k (pents p)) as [n b]. cbn [fst snd] in *. destruct b; [|done]. cbn [negb]. specialize (E6 eq_refl).
  destruct (lookup_lt_is_Some_2 es (Z.to_nat off)) as [e He]; [unfold zlen in E6; lia|]. pose proof (entry_at_ok a o lf es nx off e (to_ok _ _ _ HT) Hlf Hvf He ltac:(lia)) as Hen. unfold entry_at in Hen. destruct (lScore _ _ _) as [sc| |]; try done. destruct (lRef _ _ _) as [r| |]; try done. injection Hen as <-.
  pose proof (pents_at a p P1 o nx es P2 _ _ (to_nodes _ _ _ HT) Ep He) as Hat. replace (length (entries_of P1) + Z.to_nat off)%nat with (Z.to_nat n) in Hat by (unfold zlen in *; lia). by rewrite Hat.
Qed.

(** The entry at a position: its leaf, the leaves around it. *)
Lemma descendToRank_ok a p r : tree_ok mb a p -> 0 <= r < pcount p -> pcount p < two32 ->
  exists o nx es P1 P2 off, plf p = P1 ++ (o, nx, es) :: P2 /\ leaf_at a (o, nx, es) /\ descendToRank (enc a) r = Ok (o, off) /\ 0 <= off < zlen es /\ r = zlen (entries_of P1) + off.
Proof.
  intros HT Hr Hc. destruct (rep_height _ _ HT) as [h Eh]. unfold descendToRank. cbn [enc t_height t_root]. rewrite (to_root _ _ _ HT), Eh. pose proof (to_nodes _ _ _ HT) as Hst. rewrite Eh in Hst.
  destruct (rank_to_leaf_ok a (to_ok _ _ _ HT) h p r Hst Hr Hc) as (o & nx & es & P1 & P2 & F1 & F2 & off & [D1 D2 D3 D4 D5] & E & Ho & Er). by exists o, nx, es, P1, P2, off.
Qed.

Lemma SelectAt_ok t es r : tree_rep mb t es -> t_entries t < two32 -> 0 <= r -> SelectAt t r = Ok (es !! Z.to_nat r).
Proof.
  intros (a & p & -> & HT & <-) Hc H0. cbn [enc t_entries] in Hc. unfold SelectAt. cbn [enc t_entries]. rewrite (to_entries _ _ _ HT) in *. destruct (Z.leb_spec (pcount p) r) as [Hle|Hlt]; [rewrite lookup_ge_None_2; [done|unfold pcount, zlen in Hle; lia]|].
  destruct (descendToRank_ok a p r HT ltac:(lia) Hc) as (o & nx & es & P1 & P2 & off & Ep & (lf & Hlf & Hvf) & E & Ho & ->). fold (enc a). rewrite E. destruct (lookup_lt_is_Some_2 es (Z.to_nat off)) as [e He]; [unfold zlen in Ho; lia|]. rewrite (entry_at_ok a o lf es nx off e (to_ok _ _ _ HT) Hlf Hvf He ltac:(lia)).
  pose proof (pents_at a p P1 o nx es P2 _ _ (to_nodes _ _ _ HT) Ep He) as Hat. replace (Z.to_nat (zlen (entries_of P1) + off)) with (length (entries_of P1) + Z.to_nat off)%nat by (unfold zlen; lia). by rewrite Hat.
Qed.
End lookups.

(** ** Forward walks *)

Section walks.
Context {M : Members} (mb : Z -> bytes) {A : Type} (fn : A -> Z -> Z -> A * bool).
Context (a : arena) (p : ptree).
Hypothesis (HT : tree_ok mb a p).

Lemma leaf_walk_ok o nx es n off s : leaf_at a (o, nx, es) -> 0 <= off -> off + Z.of_nat n = zlen es -> leaf_walk fn n (enc a) o off s = Ok (walk_list fn s (drop (Z.to_nat off) es)).
Proof.
  intros (lf & Hlf & Hvf) Ho. cbn [fst snd] in *. revert off s Ho. induction n as [|n IH]; intros off s Ho Hn.
  - rewrite drop_ge by (unfold zlen in Hn; lia). done.
  - cbn [leaf_walk]. destruct (lookup_lt_is_Some_2 es (Z.to_nat off)) as [e He]; [unfold zlen in Hn; lia|]. rewrite (entry_at_ok a o lf es nx off e (to_ok _ _ _ HT) Hlf Hvf He Ho). rewrite (drop_S _ e) by done. cbn [walk_list]. destruct e as [sc rf]. cbn [fst snd]. destruct (fn s sc rf) as [s' [|]]; [|done]. rewrite IH by lia. by replace (Z.to_nat (off + 1)) with (S (Z.to_nat off)) by lia.
Qed.

(** The link of a leaf: none after the last, the next leaf otherwise, which is not leaf 0. *)
Lemma next_leaf P1 o nx es P2 : plf p = P1 ++ (o, nx, es) :: P2 -> match P2 with [] => nx = 0 | (o', _, _) :: _ => nx = o' /\ o' <> 0 end.
Proof.
  intros E. pose proof (to_chain _ _ _ HT) as Hc. rewrite links_plf, E, map_app in Hc. cbn [map fst] in Hc. pose proof Hc as Hc'. apply chain_app in Hc' as (m & _ & C2). inversion C2 as [|? ? ? ? C3]; subst.
  destruct P2 as [|[[o' nx'] es'] P2]; [by inversion C3|]. cbn [map fst] in C3. inversion C3; subst. split; [done|]. intros ->.
  pose proof (proj1 (own_NoDup _ _ _ (to_own _ _ _ HT))) as Hnd. unfold lords in Hnd. rewrite links_plf, E, map_app in Hnd. cbn [map fst] in Hnd. destruct P1 as [|[[o1 n1] e1] P1]; cbn [map fst app] in Hc, Hnd; inversion Hc; subst; cbn in Hnd; apply NoDup_cons in Hnd as [Hnd _]; apply Hnd; [left|].
  rewrite fmap_app. cbn. apply elem_of_app. right. right. left.
Qed.

Lemma leaves_bound : (length (plf p) <= length (ar_leaves a))%nat.
Proof.
  destruct (to_own _ _ _ HT) as [H _]. apply Permutation_length in H. rewrite length_app, length_seqZ in H. unfold lords in H. rewrite links_plf, length_fmap, length_map in H. unfold zlen in H. lia.
Qed.

Lemma plf_leaf P1 x P2 : plf p = P1 ++ x :: P2 -> leaf_at a x.
Proof. intros E. pose proof (holds_plf _ _ (proj1 (to_nodes _ _ _ HT))) as H. rewrite E in H. by apply Forall_app in H as [_ [? _]%Forall_cons]. Qed.

Lemma chain_walk_ok fuel P1 o nx es P2 off s : plf p = P1 ++ (o, nx, es) :: P2 -> (length P2 < fuel)%nat -> 0 <= off <= zlen es ->
  chain_walk fn fuel (enc a) o off s = Ok (walk_list fn s (drop (Z.to_nat off) es ++ entries_of P2)).1.
Proof.
  revert P1 o nx es P2 off s. induction fuel as [|fuel IH]; intros P1 o nx es P2 off s E Hf Ho; [lia|]. cbn [chain_walk]. pose proof (plf_leaf _ _ _ E) as Hat. pose proof Hat as (lf & Hlf & Hvf). cbn [fst snd] in *. pose proof (to_ok _ _ _ HT) as Ha.
  rewrite (leaf_size a o lf es nx Ha Hlf Hvf), (leaf_walk_ok o nx es _ off s Hat) by lia. rewrite walk_list_app. destruct (walk_list fn s (drop (Z.to_nat off) es)) as [s' [|]] eqn:Ew; [|done]. cbn [negb]. rewrite (lNext_enc a o lf Hlf (leaf_of_ok _ _ _ Ha Hlf)). destruct Hvf as (_ & -> & _). pose proof (next_leaf _ _ _ _ _ E) as Hn.
  destruct P2 as [|[[o' nx'] es'] P2]; [rewrite Hn; done|]. destruct Hn as [-> Hn]. destruct (Z.eqb_spec o' 0); [done|]. rewrite (IH (P1 ++ [(o, o', es)]) o' nx' es' P2); [done|by rewrite <- (assoc_L (++))|cbn in Hf; lia|pose proof (zlen_nonneg es'); lia].
Qed.
End walks.

Lemma len_leaves a : length (t_leaves (enc a)) = length (ar_leaves a).
Proof. apply length_fmap. Qed.

Section walk_ops.
Context {M : Members} (mb : Z -> bytes) {A : Type} (fn : A -> Z -> Z -> A * bool).

Lemma tail_entries a p P1 o nx es P2 off : tree_ok mb a p -> plf p = P1 ++ (o, nx, es) :: P2 -> (off <= length es)%nat -> drop (length (entries_of P1) + off) (pents p) = drop off es ++ entries_of P2.
Proof.
  intros HT E Ho. rewrite (pents_plf _ _ (proj2 (to_nodes _ _ _ HT))), E, entries_of_app. rewrite drop_app_add. unfold entries_of at 1. cbn [map concat]. fold (entries_of P2). by rewrite drop_app_le.
Qed.

Lemma WalkFromRank_ok t es start s : tree_rep mb t es -> t_entries t < two32 -> 0 <= start -> WalkFromRank fn t start s = Ok (walk_list fn s (drop (Z.to_nat start) es)).1.
Proof.
  intros (a & p & -> & HT & <-) Hc H0. cbn [enc t_entries] in Hc. unfold WalkFromRank. change (t_entries (enc a)) with (t_entries (ar_rest a)). rewrite (to_entries _ _ _ HT) in *. destruct (Z.leb_spec (pcount p) start) as [Hle|Hlt]; [rewrite drop_ge; [done|unfold pcount, zlen in Hle; lia]|].
  destruct (descendToRank_ok mb a p start HT ltac:(lia) Hc) as (o & nx & es & P1 & P2 & off & Ep & _ & -> & Ho & ->). rewrite len_leaves. pose proof (leaves_bound mb a p HT) as Hb. rewrite Ep, length_app in Hb. cbn in Hb.
  rewrite (chain_walk_ok mb fn a p HT _ P1 o nx es P2) by (done || lia). rewrite <- (tail_entries a p P1 o nx es P2) by (done || unfold zlen in Ho; lia). do 4 f_equal. unfold zlen. lia.
Qed.

Lemma WalkFrom_ok t es k s : tree_rep mb t es -> t_entries t < two32 -> WalkFrom fn t k.1 k.2 s = Ok (walk_list fn s (drop (Z.to_nat (locate_key mb k es).1) es)).1.
Proof.
  intros (a & p & -> & HT & <-) Hc. destruct (rep_height mb _ _ HT) as [h Eh]. cbn [enc t_entries] in Hc. rewrite (to_entries _ _ _ HT) in Hc. destruct (key_place mb a p h k HT Eh Hc) as (o & nx & es & P1 & P2 & off & Ep & _ & _ & E2 & E3 & E4 & E5 & _).
  unfold WalkFrom. rewrite len_leaves. cbn [enc t_height t_root]. fold (enc a). rewrite (to_root _ _ _ HT), Eh, E2, E3. pose proof (leaves_bound mb a p HT) as Hb. rewrite Ep, length_app in Hb. cbn in Hb.
  rewrite (chain_walk_ok mb fn a p HT _ P1 o nx es P2) by (done || lia). rewrite <- (tail_entries a p P1 o nx es P2) by (done || unfold zlen in E4; lia). do 4 f_equal. rewrite <- E5. unfold zlen. lia.
Qed.
End walk_ops.

(** ** Reverse walks *)

Lemma head_entries {M : Members} mb a p P1 o nx es P2 off : tree_ok mb a p -> plf p = P1 ++ (o, nx, es) :: P2 -> 0 <= off < zlen es -> take (S (Z.to_nat (zlen (entries_of P1) + off))) (pents p) = entries_of P1 ++ take (S (Z.to_nat off)) es.
Proof.
  intros HT Ep Ho. rewrite (pents_plf _ _ (proj2 (to_nodes _ _ _ HT))), Ep, entries_of_app. replace (S (Z.to_nat (zlen (entries_of P1) + off))) with (length (entries_of P1) + S (Z.to_nat off))%nat by (unfold zlen in *; lia). rewrite take_app_add. f_equal. unfold entries_of. cbn [map concat snd]. rewrite take_app_le; [done|unfold zlen in Ho; lia].
Qed.

(** The entries before a leaf, cut at the leaf before it. *)
Lemma head_entries_before {M : Members} mb a p P1 x P2 P1' o nx es P2' off : tree_ok mb a p -> plf p = P1 ++ x :: P2 -> plf p = P1' ++ (o, nx, es) :: P2' -> 0 <= off < zlen es -> zlen (entries_of P1) - 1 = zlen (entries_of P1') + off -> entries_of P1' ++ take (S (Z.to_nat off)) es = entries_of P1.
Proof.
  intros HT E E' Ho Er. rewrite <- (head_entries mb a p P1' o nx es P2' off HT E' Ho), <- Er. rewrite (pents_plf _ _ (proj2 (to_nodes _ _ _ HT))), E, entries_of_app. replace (S (Z.to_nat (zlen (entries_of P1) - 1))) with (length (entries_of P1)) by (pose proof (zlen_nonneg (entries_of P1')); unfold zlen in *; lia). apply take_app_length.
Qed.

Section reverse.
Context {M : Members} (mb : Z -> bytes) {A : Type} (fn : A -> Z -> Z -> A * bool).
Context (a : arena) (p : ptree).
Hypothesis (HT : tree_ok mb a p) (Hc : pcount p < two32).

Lemma leaf_walk_rev_ok o nx es n s : leaf_at a (o, nx, es) -> (n <= length es)%nat -> leaf_walk_rev fn n (enc a) o (Z.of_nat n - 1) s = Ok (walk_list fn s (rev (take n es))).
Proof.
  intros (lf & Hlf & Hvf). cbn [fst snd] in *. revert s. induction n as [|n IH]; intros s Hn; [done|]. cbn [leaf_walk_rev]. destruct (lookup_lt_is_Some_2 es n) as [e He]; [lia|]. replace (Z.of_nat (S n) - 1) with (Z.of_nat n) by lia.
  rewrite (entry_at_ok a o lf es nx (Z.of_nat n) e (to_ok _ _ _ HT) Hlf Hvf); [|by rewrite Nat2Z.id|lia]. rewrite (take_S_r _ _ e) by done. rewrite rev_app_distr. cbn [rev app walk_list]. destruct e as [sc rf]. cbn [fst snd]. destruct (fn s sc rf) as [s' [|]]; [|done]. apply IH. lia.
Qed.

(** Two ways to cut the leaves, the first cut before the second. *)
Lemma cut_before {X} (P1 P1' P2 P2' : list (Z * Z * list X)) x x' : P1 ++ x :: P2 = P1' ++ x' :: P2' -> zlen (concat (map snd P1')) < zlen (concat (map snd P1)) -> (length P1' < length P1)%nat.
Proof.
  revert P1'. induction P1 as [|y P1 IH]; intros P1' E Hl; [cbn in Hl; pose proof (zlen_nonneg (concat (map snd P1'))); unfold zlen in *; cbn in *; lia|]. destruct P1' as [|y' P1']; [cbn; lia|]. cbn in E. injection E as -> E. cbn in Hl. rewrite !zlen_app in Hl. cbn. assert (length P1' < length P1)%nat; [|lia]. eapply IH; [done|lia].
Qed.

Lemma rev_walk_ok fuel P1 o nx es P2 n s : plf p = P1 ++ (o, nx, es) :: P2 -> (length P1 < fuel)%nat -> (0 < n <= length es)%nat ->
  rev_walk fn fuel (enc a) o (Z.of_nat n - 1) (zlen (entries_of P1)) s = Ok (walk_list fn s (rev (entries_of P1 ++ take n es))).1.
Proof.
  revert P1 o nx es P2 n s. induction fuel as [|fuel IH]; intros P1 o nx es P2 n s E Hf Hn; [lia|]. cbn [rev_walk]. pose proof (plf_leaf mb a p HT _ _ _ E) as Hat. replace (Z.to_nat (Z.of_nat n - 1 + 1)) with n by lia. rewrite (leaf_walk_rev_ok o nx es n s Hat) by lia. rewrite rev_app_distr, walk_list_app.
  destruct (walk_list fn s (rev (take n es))) as [s' [|]] eqn:Ew; [|done]. cbn [negb]. destruct (Z.eqb_spec (zlen (entries_of P1)) 0) as [H0|Hne]; [assert (entries_of P1 = []) as -> by (apply zlen_0_nil; lia); done|].
  pose proof (pents_plf _ _ (proj2 (to_nodes _ _ _ HT))) as Ee. pose proof (zlen_nonneg (entries_of P1)) as Hp. assert (Hle : zlen (entries_of P1) <= pcount p). { unfold pcount. rewrite Ee, E, entries_of_app, zlen_app. pose proof (zlen_nonneg (entries_of ((o, nx, es) :: P2))). lia. }
  destruct (descendToRank_ok mb a p (zlen (entries_of P1) - 1) HT ltac:(lia) Hc) as (o' & nx' & es' & P1' & P2' & off' & E' & Hat' & -> & Ho' & Er). replace (zlen (entries_of P1) - 1 - off') with (zlen (entries_of P1')) by lia. replace off' with (Z.of_nat (S (Z.to_nat off')) - 1) by lia.
  assert (Hlt : (length P1' < length P1)%nat) by (rewrite E in E'; eapply (cut_before (X := ent)); [exact E'|fold (entries_of P1') (entries_of P1); lia]).
  rewrite (IH P1' o' nx' es' P2') by (done || (unfold zlen in Ho'; lia)). by rewrite (head_entries_before mb a p P1 _ P2 P1' o' nx' es' P2' off' HT E E' Ho' Er).
Qed.
End reverse.

Lemma WalkFromRankRev_ok {M : Members} mb {A} (fn : A -> Z -> Z -> A * bool) t es start s : tree_rep mb t es -> t_entries t < two32 -> 0 <= start -> WalkFromRankRev fn t start s = Ok (walk_list fn s (rev (take (S (Z.to_nat start)) es))).1.
Proof.
  intros (a & p & -> & HT & <-) Hc H0. change (t_entries (enc a)) with (t_entries (ar_rest a)) in Hc. unfold WalkFromRankRev. change (t_entries (enc a)) with (t_entries (ar_rest a)). rewrite (to_entries _ _ _ HT) in *. pose proof (pcount_nonneg p). destruct (Z.eqb_spec (pcount p) 0) as [Hz|Hnz].
  { assert (pents p = []) as -> by (apply zlen_0_nil; unfold pcount in Hz; lia). done. }
  set (st := if pcount p <=? start then pcount p - 1 else start). assert (Hst : 0 <= st < pcount p) by (unfold st; destruct (Z.leb_spec (pcount p) start); lia). assert (Et : take (S (Z.to_nat start)) (pents p) = take (S (Z.to_nat st)) (pents p)).
  { unfold st. destruct (Z.leb_spec (pcount p) start); [|done]. rewrite !take_ge; [done|unfold pcount, zlen in *; lia..]. }
  rewrite Et. destruct (descendToRank_ok mb a p st HT Hst Hc) as (o & nx & es & P1 & P2 & off & Ep & _ & -> & Ho & Es). rewrite len_leaves. pose proof (leaves_bound mb a p HT) as Hb. rewrite Ep, length_app in Hb. cbn in Hb.
  replace (st - off) with (zlen (entries_of P1)) by lia. replace off with (Z.of_nat (S (Z.to_nat off)) - 1) by lia. rewrite (rev_walk_ok mb fn a p HT Hc _ P1 o nx es P2) by (done || (unfold zlen in Ho; lia)). by rewrite Es, (head_entries mb a p P1 o nx es P2 off HT Ep Ho).
Qed.

(** ** The edge leaves and Each *)

Lemma edge_descent_node l t ord hi : edge_descent (S (S l)) t ord hi = let* c := if hi then bNkeys t ord else Ok 0 in let* child := bChild t ord c in edge_descent (S l) t child hi.
Proof. done. Qed.

Lemma edge_descent_ok a l p hi : arena_ok a -> stands a (S l) p -> exists o, edge_descent (S l) (enc a) (pord p) hi = Ok o /\ (if hi then last (lords p) else head (lords p)) = Some o.
Proof.
  intros Ha. revert p. induction l as [|l IH]; intros p Hst.
  - destruct (stands_leaf_inv _ _ Hst) as (o & nx & es & ->). exists o. by destruct hi.
  - destruct (stands_node_inv _ _ _ Hst) as (o & seps & kids & -> & Hlen). apply stands_node in Hst as (b & Hb & Hv & Hkids & _ & Hmax). rewrite edge_descent_node. cbn [pord]. rewrite lords_knode. destruct hi.
    + destruct kids as [|c kids _] using rev_ind; [done|]. rewrite length_app in Hlen. cbn in Hlen. rewrite (branch_keys _ _ _ _ _ Ha Hb Hv). rewrite fmap_app in Hv. cbn in Hv. destruct (node_kid a o b Ha Hb _ _ _ _ (zlen seps) Hv) as (-> & _ & _); [unfold zlen; rewrite length_fmap; lia|]. apply Forall_app in Hkids as [_ [[Hc _] _]%Forall_cons].
      destruct (IH c Hc) as (o' & E & Hl). exists o'. split; [done|]. rewrite klords_app, klords_cons. replace (klords []) with (@nil Z) by done. rewrite app_nil_r. rewrite last_app, Hl. done.
    + destruct kids as [|c kids]; [done|]. cbn in Hv. destruct (node_kid a o b Ha Hb _ [] _ _ 0 Hv eq_refl) as (-> & _ & _). apply Forall_cons in Hkids as [[Hc _] _]. destruct (IH c Hc) as (o' & E & Hl). exists o'. split; [done|]. rewrite klords_cons, head_app, Hl. done.
Qed.

Section edges.
Context {M : Members} (mb : Z -> bytes).

Lemma tree_ok_edges a p lo hi : tree_ok mb a p -> (lo = leafNone \/ head (lords p) = Some lo) -> (hi = leafNone \/ last (lords p) = Some hi) -> tree_ok mb (upd_rest a (fun t => with_edges t lo hi)) p.
Proof. intros [T1 T2 T3 T4 T5 T6 T7 T8 T9 T10 T11 T12 T13] H1 H2. split; try done; [by apply arena_rest|by apply stands_rest]. Qed.

Lemma leftmostLeaf_ok a p : tree_ok mb a p -> exists a' o, leftmostLeaf (enc a) = Ok (enc a', o) /\ tree_ok mb a' p /\ ar_leaves a' = ar_leaves a /\ head (lords p) = Some o.
Proof.
  intros HT. pose proof (to_min _ _ _ HT) as Hm. unfold leftmostLeaf. cbn [enc t_minLeaf]. fold (enc a). destruct (Z.eqb_spec (t_minLeaf (ar_rest a)) leafNone) as [E|E]; cbn [negb].
  - destruct (rep_height mb _ _ HT) as [h Eh]. pose proof (to_nodes _ _ _ HT) as Hst. rewrite Eh in Hst. destruct (edge_descent_ok a h p false (to_ok _ _ _ HT) Hst) as (o & Ed & Hl). cbn [enc t_height t_root]. fold (enc a). rewrite (to_root _ _ _ HT), Eh, Ed. eexists (upd_rest a (fun t => with_edges t o (t_maxLeaf t))), o.
    split; [done|]. split; [|done]. apply tree_ok_edges; [done|by right|apply HT].
  - exists a, (t_minLeaf (ar_rest a)). split; [done|]. split; [done|]. split; [done|]. by destruct Hm.
Qed.

Lemma rightmostLeaf_ok a p : tree_ok mb a p -> exists a' o, rightmostLeaf (enc a) = Ok (enc a', o) /\ tree_ok mb a' p /\ ar_leaves a' = ar_leaves a /\ last (lords p) = Some o.
Proof.
  intros HT. pose proof (to_max _ _ _ HT) as Hm. unfold rightmostLeaf. cbn [enc t_maxLeaf]. fold (enc a). destruct (Z.eqb_spec (t_maxLeaf (ar_rest a)) leafNone) as [E|E]; cbn [negb].
  - destruct (rep_height mb _ _ HT) as [h Eh]. pose proof (to_nodes _ _ _ HT) as Hst. rewrite Eh in Hst. destruct (edge_descent_ok a h p true (to_ok _ _ _ HT) Hst) as (o & Ed & Hl). cbn [enc t_height t_root]. fold (enc a). rewrite (to_root _ _ _ HT), Eh, Ed. eexists (upd_rest a (fun t => with_edges t (t_minLeaf t) o)), o.
    split; [done|]. split; [|done]. apply tree_ok_edges; [done|apply HT|by right].
  - exists a, (t_maxLeaf (ar_rest a)). split; [done|]. split; [done|]. split; [done|]. by destruct Hm.
Qed.

(** Only a lone leaf may be empty. *)
Lemma full_leaves l p : shape l p -> full p -> Forall (fun x : Z * Z * list ent => x.2 <> []) (plf p).
Proof.
  revert l. induction p as [o nx es|o seps kids IH] using ptree_ind_kids; intros l Hs Hf.
  - apply Forall_singleton. cbn in *. destruct es; [cbn in Hf; lia|done].
  - inversion Hs as [|l' ? ? ? Hl Hm Hk]; subst. cbn [plf]. clear Hl Hm Hs Hf. induction IH as [|c kids Hc _ IH]; [constructor|]. apply Forall_cons in Hk as [[Hk Hf] Hks]. cbn. apply Forall_app. split; [by eapply Hc|by apply IH].
Qed.

Lemma lone_or_full a p P1 x P2 : tree_ok mb a p -> plf p = P1 ++ x :: P2 -> (P1 = [] /\ P2 = []) \/ x.2 <> [].
Proof.
  intros HT E. pose proof (proj2 (to_nodes _ _ _ HT)) as Hs. destruct p as [o nx es|o seps kids].
  - left. cbn in E. destruct P1 as [|? P1]; [by injection E as _ <-|]. injection E as _ E. by destruct P1.
  - right. inversion Hs as [|l ? ? ? _ _ Hk Eh]; subst. assert (HF : Forall (fun x : Z * Z * list ent => x.2 <> []) (plf (PNode o seps kids))); [|rewrite E in HF; by apply Forall_app in HF as [_ [? _]%Forall_cons]].
    cbn [plf]. clear -Hk. induction Hk as [|c kids [H1 H2] _ IH]; [constructor|]. cbn. apply Forall_app. split; [by eapply full_leaves|done].
Qed.

Lemma each_walk_ok {A} (fn : A -> Z -> Z -> A * bool) a p fuel P1 o nx es P2 s : tree_ok mb a p -> plf p = P1 ++ (o, nx, es) :: P2 -> (length P2 < fuel)%nat -> each_walk fn fuel (enc a) o s = Ok (walk_list fn s (es ++ entries_of P2)).1.
Proof.
  intros HT. revert P1 o nx es P2 s. induction fuel as [|fuel IH]; intros P1 o nx es P2 s E Hf; [lia|]. cbn [each_walk]. pose proof (plf_leaf mb a p HT _ _ _ E) as Hat. pose proof Hat as (lf & Hlf & Hvf). cbn [fst snd] in *. pose proof (to_ok _ _ _ HT) as Ha.
  rewrite (leaf_size a o lf es nx Ha Hlf Hvf), (leaf_walk_ok mb fn a p HT o nx es _ 0 s Hat) by (unfold zlen; lia). change (Z.to_nat 0) with 0%nat. rewrite drop_0, walk_list_app. destruct (walk_list fn s es) as [s' [|]] eqn:Ew; [|done]. cbn [negb]. rewrite (lNext_enc a o lf Hlf (leaf_of_ok _ _ _ Ha Hlf)). destruct Hvf as (_ & -> & _). pose proof (next_leaf mb a p HT _ _ _ _ _ E) as Hn.
  destruct P2 as [|[[o' nx'] es'] P2]; [rewrite Hn; done|]. destruct Hn as [-> Hn]. destruct (lone_or_full a p _ _ _ HT E) as [[? ?]|Hne]; [done|]. cbn in Hne. destruct (Z.eqb_spec o' 0); [done|]. destruct (Z.eqb_spec (zlen es) 0) as [Hz|_]; [exfalso; apply Hne, zlen_0_nil; lia|]. cbn [orb].
  rewrite (IH (P1 ++ [(o, o', es)]) o' nx' es' P2); [done|by rewrite <- (assoc_L (++))|cbn in Hf; lia].
Qed.

Lemma Tree_Each_ok {A} (fn : A -> Z -> Z -> A * bool) t es s : tree_rep mb t es -> exists t', Tree_Each fn t s = Ok (t', (walk_list fn s es).1) /\ tree_rep mb t' es.
Proof.
  intros (a & p & -> & HT & <-). destruct (leftmostLeaf_ok a p HT) as (a' & o & E & HT' & El & Hh). unfold Tree_Each. rewrite E, len_leaves. pose proof (pents_plf _ _ (proj2 (to_nodes _ _ _ HT'))) as Ee. destruct (plf p) as [|[[o1 nx] es] P2] eqn:Ep; [unfold lords in Hh; by rewrite links_plf, Ep in Hh|].
  assert (o1 = o) as -> by (unfold lords in Hh; rewrite links_plf, Ep in Hh; by injection Hh). pose proof (leaves_bound mb a' p HT') as Hb. rewrite Ep in Hb. cbn in Hb. rewrite (each_walk_ok fn a' p _ [] o nx es P2 s HT' Ep) by lia. exists (enc a'). rewrite Ee. split; [done|]. by exists a', p.
Qed.
End edges.

(** ** Cursors *)

(** What a client reads with a cursor in at most [n] steps. *)
Fixpoint cursor_drain (n : nat) (t : Tree) (c : RankCursor) : P (list Z) :=
  match n with
  | O => Ok []
  | S n' =>
      if rc_ok c then
        let* r := Cursor_Ref t c in
        let* c := Cursor_Next t c in
        let* rs := cursor_drain n' t c in
        Ok (r :: rs)
      else Ok []
  end.

Section cursors.
Context {M : Members} (mb : Z -> bytes) (a : arena) (p : ptree).
Hypothesis (HT : tree_ok mb a p).

Lemma cursor_step n P1 o nx es P2 off : plf p = P1 ++ (o, nx, es) :: P2 -> 0 <= off < zlen es -> cursor_drain n (enc a) (mkRankCursor o off (zlen es) true) = Ok (take n (drop (Z.to_nat off) es ++ entries_of P2)).*2.
Proof.
  revert P1 o nx es P2 off. induction n as [|n IH]; intros P1 o nx es P2 off E Ho; [done|]. cbn [cursor_drain rc_ok]. pose proof (plf_leaf mb a p HT _ _ _ E) as (lf & Hlf & Hvf). cbn [fst snd] in *. pose proof (to_ok _ _ _ HT) as Ha. destruct (lookup_lt_is_Some_2 es (Z.to_nat off)) as [e He]; [unfold zlen in Ho; lia|].
  unfold Cursor_Ref. cbn [rc_ord rc_off]. rewrite (lRef_enc a o lf Hlf (leaf_of_ok _ _ _ Ha Hlf) off e (leafv_at _ _ _ _ _ Hvf He) ltac:(lia)). rewrite (drop_S _ e) by done. cbn [app take fmap list_fmap]. unfold Cursor_Next. cbn [rc_ord rc_off rc_n rc_ok]. destruct (Z.ltb_spec (off + 1) (zlen es)) as [Hlt|Hge].
  - rewrite (IH P1 o nx es P2 (off + 1) E) by lia. by replace (Z.to_nat (off + 1)) with (S (Z.to_nat off)) by lia.
  - rewrite (lNext_enc a o lf Hlf (leaf_of_ok _ _ _ Ha Hlf)). destruct Hvf as (_ & -> & _). rewrite (drop_ge es) by (unfold zlen in *; lia). cbn [app]. pose proof (next_leaf mb a p HT _ _ _ _ _ E) as Hn. destruct P2 as [|[[o' nx'] es'] P2].
    + rewrite Hn. cbn. rewrite take_nil. by destruct n.
    + destruct Hn as [-> Hn]. destruct (Z.eqb_spec o' 0); [done|]. assert (E' : plf p = (P1 ++ [(o, o', es)]) ++ (o', nx', es') :: P2) by (by rewrite <- (assoc_L (++))). pose proof (plf_leaf mb a p HT _ _ _ E') as (lf' & Hlf' & Hvf'). cbn [fst snd] in *. rewrite (leaf_size a o' lf' es' nx' Ha Hlf' Hvf').
      destruct es' as [|e' es'].
      * destruct (lone_or_full mb a p _ _ _ HT E') as [[Hnil _]|Hne]; [by destruct P1|done].
      * rewrite (IH _ o' nx' (e' :: es') P2 0 E') by (rewrite zlen_cons; pose proof (zlen_nonneg es'); lia). done.
Qed.
End cursors.

Lemma SeekRank_ok {M : Members} mb t es start n : tree_rep mb t es -> t_entries t < two32 -> 0 <= start -> exists c, SeekRank t start = Ok c /\ cursor_drain n t c = Ok (take n (drop (Z.to_nat start) es)).*2.
Proof.
  intros (a & p & -> & HT & <-) Hc H0. change (t_entries (enc a)) with (t_entries (ar_rest a)) in Hc. unfold SeekRank. change (t_entries (enc a)) with (t_entries (ar_rest a)). rewrite (to_entries _ _ _ HT) in *. destruct (Z.leb_spec (pcount p) start) as [Hle|Hlt].
  - eexists. split; [done|]. rewrite drop_ge by (unfold pcount, zlen in Hle; lia). rewrite take_nil. by destruct n.
  - destruct (descendToRank_ok mb a p start HT ltac:(lia) Hc) as (o & nx & es & P1 & P2 & off & Ep & (lf & Hlf & Hvf) & -> & Ho & ->). cbn [fst snd] in *. rewrite (leaf_size a o lf es nx (to_ok _ _ _ HT) Hlf Hvf). eexists. split; [done|]. rewrite (cursor_step mb a p HT n P1 o nx es P2 off Ep Ho).
    rewrite <- (tail_entries mb a p P1 o nx es P2) by (done || unfold zlen in Ho; lia). do 4 f_equal. unfold zlen. lia.
Qed.

Fixpoint rev_cursor_drain (n : nat) (t : Tree) (c : RevRankCursor) : P (list Z) :=
  match n with
  | O => Ok []
  | S n' =>
      if rv_ok c then
        let* r := RevCursor_Ref t c in
        let* c := RevCursor_Next t c in
        let* rs := rev_cursor_drain n' t c in
        Ok (r :: rs)
      else Ok []
  end.

Lemma rev_cursor_step {M : Members} mb a p n P1 o nx es P2 off : tree_ok mb a p -> pcount p < two32 -> plf p = P1 ++ (o, nx, es) :: P2 -> 0 <= off < zlen es ->
  rev_cursor_drain n (enc a) (mkRevRankCursor o off (zlen (entries_of P1)) true) = Ok (take n (rev (entries_of P1 ++ take (S (Z.to_nat off)) es))).*2.
Proof.
  intros HT Hc. revert P1 o nx es P2 off. induction n as [|n IH]; intros P1 o nx es P2 off E Ho; [done|]. cbn [rev_cursor_drain rv_ok]. pose proof (plf_leaf mb a p HT _ _ _ E) as (lf & Hlf & Hvf). cbn [fst snd] in *. pose proof (to_ok _ _ _ HT) as Ha. destruct (lookup_lt_is_Some_2 es (Z.to_nat off)) as [e He]; [unfold zlen in Ho; lia|].
  unfold RevCursor_Ref. cbn [rv_ord rv_off]. rewrite (lRef_enc a o lf Hlf (leaf_of_ok _ _ _ Ha Hlf) off e (leafv_at _ _ _ _ _ Hvf He) ltac:(lia)). rewrite (take_S_r es _ e He). rewrite (assoc_L (++)), rev_app_distr. cbn [rev app take fmap list_fmap]. unfold RevCursor_Next. cbn [rv_ord rv_off rv_base rv_ok]. destruct (Z.leb_spec 0 (off - 1)) as [Hle|Hgt].
  - rewrite (IH P1 o nx es P2 (off - 1) E) by lia. by replace (S (Z.to_nat (off - 1))) with (Z.to_nat off) by lia.
  - replace (Z.to_nat off) with 0%nat by lia. rewrite take_0, app_nil_r. destruct (Z.eqb_spec (zlen (entries_of P1)) 0) as [H0|Hne]; [assert (entries_of P1 = []) as -> by (apply zlen_0_nil; lia); cbn; rewrite take_nil; by destruct n|].
    pose proof (pents_plf _ _ (proj2 (to_nodes _ _ _ HT))) as Ee. pose proof (zlen_nonneg (entries_of P1)) as Hp. assert (Hle : zlen (entries_of P1) <= pcount p). { unfold pcount. rewrite Ee, E, entries_of_app, zlen_app. pose proof (zlen_nonneg (entries_of ((o, nx, es) :: P2))). lia. }
    destruct (descendToRank_ok mb a p (zlen (entries_of P1) - 1) HT ltac:(lia) Hc) as (o' & nx' & es' & P1' & P2' & off' & E' & _ & -> & Ho' & Er). replace (zlen (entries_of P1) - 1 - off') with (zlen (entries_of P1')) by lia. rewrite (IH P1' o' nx' es' P2' off' E' Ho'). by rewrite (head_entries_before mb a p P1 _ P2 P1' o' nx' es' P2' off' HT E E' Ho' Er).
Qed.

Lemma SeekRankRev_ok {M : Members} mb t es start n : tree_rep mb t es -> t_entries t < two32 -> 0 <= start -> exists c, SeekRankRev t start = Ok c /\ rev_cursor_drain n t c = Ok (take n (rev (take (S (Z.to_nat start)) es))).*2.
Proof.
  intros (a & p & -> & HT & <-) Hc H0. change (t_entries (enc a)) with (t_entries (ar_rest a)) in Hc. unfold SeekRankRev. change (t_entries (enc a)) with (t_entries (ar_rest a)). rewrite (to_entries _ _ _ HT) in *. pose proof (pcount_nonneg p). destruct (Z.eqb_spec (pcount p) 0) as [Hz|Hnz].
  { eexists. split; [done|]. assert (pents p = []) as -> by (apply zlen_0_nil; unfold pcount in Hz; lia). cbn. rewrite take_nil. by destruct n. }
  set (st := if pcount p <=? start then pcount p - 1 else start). assert (Hst : 0 <= st < pcount p) by (unfold st; destruct (Z.leb_spec (pcount p) start); lia). assert (Et : take (S (Z.to_nat start)) (pents p) = take (S (Z.to_nat st)) (pents p)).
  { unfold st. destruct (Z.leb_spec (pcount p) start); [|done]. rewrite !take_ge; [done|unfold pcount, zlen in *; lia..]. }
  rewrite Et. destruct (descendToRank_ok mb a p st HT Hst Hc) as (o & nx & es & P1 & P2 & off & Ep & _ & -> & Ho & Es). eexists. split; [done|]. replace (st - off) with (zlen (entries_of P1)) by lia. rewrite (rev_cursor_step mb a p n P1 o nx es P2 off HT Hc Ep Ho). by rewrite Es, (head_entries mb a p P1 o nx es P2 off HT Ep Ho).
Qed.
