(* ===== verification/TreeRemove.v ===== *)
(** What the repairs after a deletion do to the nodes of the counted tree: dropping a child, moving
    one entry or one child between neighbours, merging two neighbours (engine/f3/struct/tree.go). *)

From stdpp Require Import sorting.
From S2P Require Import Prelude Ordered TreeBlocks TreeArrays TreeOps TreeShape TreeNodes TreeBranches TreeSearch TreeInsert TreeGrow TreeRep.
#[local] Open Scope Z_scope.
#[local] Set Warnings "-register-all".

Lemma sub64_small a b : 0 <= a - b < two64 -> sub64 a b = a - b.
Proof. intros H. unfold sub64. by apply Z.mod_small. Qed.

(** ** The parent *)

Section parent.
Context (a : arena) (o : Z) (b : abranch) (S1 S2 : list ent) (s : ent) (K1 K2 : list (Z * Z)) (x y : Z * Z).
Hypothesis (Ha : arena_ok a) (Hb : branch_of a o = Some b) (Hv : branchv b (S1 ++ s :: S2) (K1 ++ x :: y :: K2)) (H1 : length K1 = length S1) (H2 : length K2 = length S2).

Lemma pair_reads : bNkeys (enc a) o = Ok (zlen S1 + 1 + zlen S2) /\ bChild (enc a) o (zlen S1) = Ok x.1 /\ bChild (enc a) o (zlen S1 + 1) = Ok y.1 /\ bCount (enc a) o (zlen S1) = Ok x.2 /\ bCount (enc a) o (zlen S1 + 1) = Ok y.2 /\ kid_ok x /\ kid_ok y.
Proof.
  rewrite (branch_keys _ _ _ _ _ Ha Hb Hv). rewrite zlen_app, zlen_cons. destruct (node_kid a o b Ha Hb _ _ _ _ (zlen S1) Hv) as (-> & -> & Hx); [unfold zlen; lia|]. pose proof Hv as Hv'. change (K1 ++ x :: y :: K2) with (K1 ++ [x] ++ y :: K2) in Hv'. rewrite (assoc_L (++)) in Hv'.
  destruct (node_kid a o b Ha Hb _ _ _ _ (zlen S1 + 1) Hv') as (-> & -> & Hy); [unfold zlen; rewrite length_app; cbn; lia|]. split_and!; try done. f_equal. lia.
Qed.

(** Child [c+1] and its separator dropped, its count folded into child [c]. *)
Lemma bDropChild_ok : x.2 + y.2 < two32 -> exists b', bDropChild (enc a) o (zlen S1) = Ok (enc (upd_branch a o b')) /\ branch_ok b' /\ branchv b' (S1 ++ S2) (K1 ++ (x.1, x.2 + y.2) :: K2).
Proof.
  intros Hc. pose proof (branch_of_ok _ _ _ Ha Hb) as Hok. destruct (branchv_view _ _ _ Hok Hv) as (gs & gk & E & Hw & Lg & Lk). unfold bDropChild. destruct pair_reads as (-> & _ & _ & -> & -> & [Hx1 Hx2] & [Hy1 Hy2]). unfold is_u32 in *. rewrite add64_small by lia.
  rewrite (view_enc a o b _ _ _ Hb E). set (k := zlen (S1 ++ s :: S2)) in *. assert (Ek : k = zlen S1 + 1 + zlen S2) by (unfold k; rewrite zlen_app, zlen_cons; lia). rewrite <- !(assoc_L (++)) in *. cbn [app] in *.
  assert (EK : zlen S1 = zlen K1) by (unfold zlen; lia). rewrite (put_count a o b Ha Hb _ _ _ Hw (zlen S1) (zlen_nonneg _) (x.2 + y.2) x) by (by apply lookup_here). rewrite insert_here by done. set (x' := (x.1, x.2 + y.2)) in *.
  assert (W1 : bview_ok k (S1 ++ s :: S2 ++ gs) ((K1 ++ [x']) ++ y :: K2 ++ gk)). { rewrite <- (assoc_L (++)). cbn [app]. pose proof (bview_kid _ _ _ (Z.to_nat (zlen K1)) x' Hw) as W. rewrite insert_here in W by done. apply W. split; unfold is_u32; cbn; lia. }
  destruct (shift_kids_left a o b Ha Hb k _ (K1 ++ [x']) K2 y gk W1) as (z & E1 & W2). replace (Z.to_nat (zlen S1 + 1 + zlen S2 - (zlen S1 + 1))) with (length K2) by (unfold zlen; lia). rewrite zlen_snoc, <- EK, <- !(assoc_L (++)) in E1. cbn [app] in E1. rewrite E1.
  rewrite <- !(assoc_L (++)) in W2. cbn [app] in W2. destruct (shift_seps_left a o b Ha Hb k _ S1 S2 s gs W2) as (z' & E2 & W3). replace (Z.to_nat (zlen S1 + 1 + zlen S2 - 1 - zlen S1)) with (length S2) by (unfold zlen; lia). rewrite E2. rewrite (put_k a o b Hb).
  eexists. split; [done|]. apply (branchv_new _ _ (z' :: gs) _ (z :: gk)); [rewrite zlen_app; lia|by rewrite <- (assoc_L (++))|by rewrite <- (assoc_L (++))|]. eapply bview_k; [exact W3|]. rewrite length_app in Lg. cbn in Lg. unfold is_u8, zlen. lia.
Qed.

(** [n] entries moved from one of the two neighbours to the other. *)
Lemma shift_right_ok n : 0 <= n <= y.2 -> x.2 + n < two32 -> exists b', shift_count (enc a) o (zlen S1 + 1) (zlen S1) n = Ok (enc (upd_branch a o b')) /\ branch_ok b' /\ branchv b' (S1 ++ s :: S2) (K1 ++ (x.1, x.2 + n) :: (y.1, y.2 - n) :: K2).
Proof.
  intros Hn Hx. unfold shift_count. destruct pair_reads as (_ & _ & _ & -> & _ & [Hx1 Hx2] & [Hy1 Hy2]). unfold is_u32 in *. rewrite add64_small by lia. assert (EK : zlen S1 = zlen K1) by (unfold zlen; lia). destruct (node_set_count a o b Ha Hb _ _ _ _ (zlen S1) (x.2 + n) Hv EK) as (b1 & -> & Hok1 & Hv1); [unfold is_u32; lia|].
  assert (Ha1 : arena_ok (upd_branch a o b1)) by (by apply arena_ok_upd_branch). assert (Hb1 : branch_of (upd_branch a o b1) o = Some b1) by (by eapply branch_of_upd). change (K1 ++ (x.1, x.2 + n) :: y :: K2) with (K1 ++ [(x.1, x.2 + n)] ++ y :: K2) in Hv1. rewrite (assoc_L (++)) in Hv1.
  assert (EK' : zlen S1 + 1 = zlen (K1 ++ [(x.1, x.2 + n)])) by (rewrite zlen_snoc; lia). destruct (node_kid _ o b1 Ha1 Hb1 _ _ _ _ _ Hv1 EK') as (_ & -> & _). rewrite sub64_small by lia. destruct (node_set_count _ o b1 Ha1 Hb1 _ _ _ _ _ (y.2 - n) Hv1 EK') as (b2 & -> & Hok2 & Hv2); [unfold is_u32; lia|]. rewrite upd_branch_upd. exists b2. split_and!; [done|done|]. by rewrite <- (assoc_L (++)) in Hv2.
Qed.

Lemma shift_left_ok n : 0 <= n <= x.2 -> y.2 + n < two32 -> exists b', shift_count (enc a) o (zlen S1) (zlen S1 + 1) n = Ok (enc (upd_branch a o b')) /\ branch_ok b' /\ branchv b' (S1 ++ s :: S2) (K1 ++ (x.1, x.2 - n) :: (y.1, y.2 + n) :: K2).
Proof.
  intros Hn Hy. unfold shift_count. destruct pair_reads as (_ & _ & _ & _ & -> & [Hx1 Hx2] & [Hy1 Hy2]). unfold is_u32 in *. rewrite add64_small by lia. pose proof Hv as Hv0. change (K1 ++ x :: y :: K2) with (K1 ++ [x] ++ y :: K2) in Hv0. rewrite (assoc_L (++)) in Hv0. assert (EK : zlen S1 = zlen K1) by (unfold zlen; lia). assert (EK' : zlen S1 + 1 = zlen (K1 ++ [x])) by (rewrite zlen_snoc; lia).
  destruct (node_set_count a o b Ha Hb _ _ _ _ _ (y.2 + n) Hv0 EK') as (b1 & -> & Hok1 & Hv1); [unfold is_u32; lia|]. assert (Ha1 : arena_ok (upd_branch a o b1)) by (by apply arena_ok_upd_branch). assert (Hb1 : branch_of (upd_branch a o b1) o = Some b1) by (by eapply branch_of_upd). rewrite <- (assoc_L (++)) in Hv1. cbn [app] in Hv1.
  destruct (node_kid _ o b1 Ha1 Hb1 _ _ _ _ _ Hv1 EK) as (_ & -> & _). rewrite sub64_small by lia. destruct (node_set_count _ o b1 Ha1 Hb1 _ _ _ _ _ (x.2 - n) Hv1 EK) as (b2 & -> & Hok2 & Hv2); [unfold is_u32; lia|]. rewrite upd_branch_upd. exists b2. done.
Qed.
End parent.

(** ** Leaves *)

Section leaf_grow.
Context (a : arena) (o : Z) (l : aleaf) (es : list ent) (nx : Z).
Hypothesis (Ha : arena_ok a) (Hl : leaf_of a o = Some l) (Hv : leafv l es nx).

(** An entry written past the last one, then counted. *)
Lemma leaf_poke e : (length es < 31)%nat -> ent_ok e -> exists l1, lSetEnt (enc a) o (zlen es) e.1 e.2 = Ok (enc (upd_leaf a o l1)) /\ leaf_ok l1 /\ leafv l1 es nx
  /\ exists l2, lSetNent (enc (upd_leaf a o l1)) o (zlen es + 1) = Ok (enc (upd_leaf a o l2)) /\ leaf_ok l2 /\ leafv l2 (es ++ [e]) nx.
Proof.
  intros Hlt He. pose proof (leaf_of_ok _ _ _ Ha Hl) as Hok. destruct (leafv_slots l es nx Hok Hv) as (g & Eg & Hlen & Hes & Hg & _). destruct g as [|x g]; [cbn in Hlen; lia|]. apply Forall_cons in Hg as [Hx Hg].
  rewrite (lSetEnt_enc _ _ _ Hl Hok (zlen es) x); [|rewrite Eg; by apply lookup_here|apply zlen_nonneg]. rewrite <- surjective_pairing, Eg, insert_here by done. set (l1 := set_ents l (es ++ e :: g)). exists l1. split; [done|]. cbn in Hlen. assert (Hn : al_next l = nx) by apply Hv. assert (Hnx : is_u32 nx) by (rewrite <- Hn; apply Hok).
  destruct (leafv_new l1 es (e :: g) nx) as [Ok1 V1]; [apply Hv|done|done|done|done|by constructor|cbn; lia|]. split; [done|]. split; [done|]. assert (Hl1 : leaf_of (upd_leaf a o l1) o = Some l1) by (by eapply leaf_of_upd). rewrite (lSetNent_enc _ _ _ Hl1), upd_leaf_upd. eexists. split; [done|].
  apply (leafv_new _ (es ++ [e]) g); cbn; [by rewrite zlen_snoc|done|by rewrite <- (assoc_L (++))|done|apply Forall_app; split; [done|by constructor]|done|rewrite length_app; cbn; lia].
Qed.

(** The entries of another leaf copied behind its own. *)
Lemma leaf_append_run r es' nx' : leaf_ok r -> leafv r es' nx' -> (length es + length es' <= 31)%nat ->
  exists l1, (let* moved := slice (enc_leaf r) leafHdr (leafHdr + zlen es' * entrySz) in let* lblk := copy_in (enc_leaf l) (leafHdr + zlen es * entrySz) (leafHdr + (zlen es + zlen es') * entrySz) moved in let* t := set_leaf (enc a) o lblk in lSetNent t o (zlen es + zlen es')) = Ok (enc (upd_leaf a o l1))
    /\ leaf_ok l1 /\ leafv l1 (es ++ es') nx.
Proof.
  intros Hrok Hrv Hlt. pose proof (leaf_of_ok _ _ _ Ha Hl) as Hok. destruct (leafv_slots l es nx Hok Hv) as (g & Eg & Hlen & Hes & Hg & _). destruct (leafv_slots r es' nx' Hrok Hrv) as (g' & Eg' & Hlen' & Hes' & Hg' & _).
  pose proof (slice_ents r 0 (zlen es') (lo_size _ Hrok) ltac:(unfold zlen; lia) ltac:(unfold zlen; lia)) as Hsl. rewrite Z.sub_0_r in Hsl. change (leafHdr + 0 * entrySz) with leafHdr in Hsl. rewrite Hsl. assert (Esl : sl (al_ents r) 0 (zlen es') = es'). { unfold sl. rewrite zdrop_nonpos, ztake_take, Eg' by lia. replace (Z.to_nat (zlen es')) with (length es') by (unfold zlen; lia). apply take_app_length. }
  rewrite Esl. unfold copy_in. rewrite (zlen_enc_leaf l (lo_size _ Hok)). replace (_ && _ && _) with true by (unfold leafHdr, entrySz, zlen; lia). rewrite ztake_all by (rewrite zlen_ents; unfold leafHdr, entrySz, zlen; lia). rewrite put_ents by (try apply Hok; unfold zlen; lia). rewrite (set_leaf_enc _ _ _ _ Hl).
  set (l1 := set_ents l _). assert (Hl1 : leaf_of (upd_leaf a o l1) o = Some l1) by (by eapply leaf_of_upd). rewrite (lSetNent_enc _ _ _ Hl1), upd_leaf_upd. eexists. split; [done|]. assert (Hn : al_next l = nx) by apply Hv.
  apply (leafv_new _ (es ++ es') (drop (length es') g)); cbn; [by rewrite zlen_app|done| |rewrite <- Hn; apply Hok|by apply Forall_app|by apply Forall_drop|rewrite length_app, length_drop; lia].
  rewrite Eg. replace (Z.to_nat (zlen es)) with (length es) by (unfold zlen; lia). rewrite take_app_length, drop_app_add. by rewrite <- (assoc_L (++)).
Qed.

Lemma leaf_relink v : is_u32 v -> exists l1, lSetNext (enc a) o v = Ok (enc (upd_leaf a o l1)) /\ leaf_ok l1 /\ leafv l1 es v.
Proof.
  intros Hvv. pose proof (leaf_of_ok _ _ _ Ha Hl) as Hok. rewrite (lSetNext_enc _ _ _ Hl). eexists. split; [done|]. split; [by apply set_next_ok|]. destruct Hv as (E1 & E2 & E3). by split_and!.
Qed.
End leaf_grow.

(** ** Freed blocks *)

Definition free_leaf (a : arena) (o : Z) : arena := upd_rest a (fun t => with_leaves t (t_leaves t) (t_leafFree t ++ [o]) (t_nLeaf t)).
Definition free_branch (a : arena) (o : Z) : arena := upd_rest a (fun t => with_branches t (t_branches t) (t_srefs t) (t_branchFree t ++ [o]) (t_nBranch t)).

Lemma freeLeaf_enc a o : freeLeaf (enc a) o = enc (free_leaf a o).
Proof. done. Qed.
Lemma freeBranch_enc a o : freeBranch (enc a) o = enc (free_branch a o).
Proof. done. Qed.
Lemma own_free_leaf a o L B : own a (o :: L) B -> own (free_leaf a o) L B.
Proof. intros [H1 H2]. split; [|done]. cbn. rewrite <- H1. cbn. solve_Permutation. Qed.
Lemma own_free_branch a o L B : own a L (o :: B) -> own (free_branch a o) L B.
Proof. intros [H1 H2]. split; [done|]. cbn. rewrite <- H2. cbn. solve_Permutation. Qed.

(** ** Branches *)

Section push.
Context (a : arena) (o : Z) (b : abranch) (seps kids : list (Z * Z)) (s x : Z * Z).
Hypothesis (Ha : arena_ok a) (Hb : branch_of a o = Some b) (Hv : branchv b seps kids) (Hl : length kids = S (length seps)) (Hlt : (length seps < 15)%nat) (Hs : ent_ok s) (Hx : kid_ok x).

(** A separator and a child behind the last ones. *)
Lemma node_push : exists b1,
  bSetSep (enc a) o (zlen seps) s.1 s.2 = Ok (enc (upd_branch a o b1)) /\ branch_ok b1 /\ exists b2,
  bSetChild (enc (upd_branch a o b1)) o (zlen seps + 1) x.1 = Ok (enc (upd_branch a o b2)) /\ branch_ok b2 /\ exists b3,
  bSetCount (enc (upd_branch a o b2)) o (zlen seps + 1) x.2 = Ok (enc (upd_branch a o b3)) /\ branch_ok b3 /\ exists b4,
  bSetNkeys (enc (upd_branch a o b3)) o (zlen seps + 1) = Ok (enc (upd_branch a o b4)) /\ branch_ok b4 /\ branchv b4 (seps ++ [s]) (kids ++ [x]).
Proof.
  pose proof (branch_of_ok _ _ _ Ha Hb) as Hok. destruct (branchv_view _ _ _ Hok Hv) as (gs & gk & E & Hw & Lg & Lk). destruct gs as [|g1 gs]; [cbn in Lg; lia|]. destruct gk as [|g2 gk]; [cbn in Lk; lia|]. set (k := zlen seps) in *. assert (EK : k + 1 = zlen kids) by (unfold k, zlen; lia).
  rewrite (view_enc a o b _ _ _ Hb E). rewrite (put_sep a o b Ha Hb _ _ _ Hw k (zlen_nonneg _)) by (unfold k, zlen; lia). rewrite <- (surjective_pairing s), (insert_here seps g1 s gs k eq_refl). pose proof (bview_sep _ _ _ (Z.to_nat k) s Hw Hs) as W1. rewrite insert_here in W1 by done.
  exists (mkB k (seps ++ s :: gs) (kids ++ g2 :: gk)). split; [done|]. split; [by apply mkB_ok|]. destruct (put_kid a o b Ha Hb k _ _ (k + 1) x W1) as [E2 W2]; [unfold k, zlen; lia|done|]. rewrite (insert_here kids) in E2, W2 by done.
  pose proof (put_child a o b Ha Hb k _ _ W1 (k + 1) ltac:(unfold k, zlen; lia) x.1 g2) as E3. specialize (E3 ltac:(by apply lookup_here)). rewrite (insert_here kids) in E3 by done. unfold at_ in E3, E2. rewrite E3 in E2. exists (mkB k (seps ++ s :: gs) (kids ++ (x.1, g2.2) :: gk)). split; [exact E3|].
  assert (W3 : bview_ok k (seps ++ s :: gs) (kids ++ (x.1, g2.2) :: gk)). { pose proof (bview_kid _ _ _ (Z.to_nat (k + 1)) (x.1, g2.2) W1) as W. rewrite (insert_here kids) in W by done. apply W. split; [apply Hx|]. apply (kid_at _ _ _ (length kids) g2 W1). by apply list_lookup_middle. }
  split; [by apply mkB_ok|]. exists (mkB k (seps ++ s :: gs) (kids ++ x :: gk)). split; [exact E2|]. split; [by apply mkB_ok|]. pose proof (put_k a o b Hb k (seps ++ s :: gs) (kids ++ x :: gk) (k + 1)) as E4. unfold at_ in E4. eexists. split; [exact E4|].
  apply (branchv_new _ _ gs _ gk); [unfold k; by rewrite zlen_snoc|by rewrite <- (assoc_L (++))|by rewrite <- (assoc_L (++))|]. eapply bview_k; [exact W2|]. unfold is_u8, k, zlen. lia.
Qed.

(** And in front of the first ones. *)
Lemma node_unshift : exists b1,
  for_down (Z.to_nat (zlen seps + 1)) (zlen seps + 1) (fun i t => move_kid o i (i - 1) t) (enc a) = Ok (enc (upd_branch a o b1)) /\ branch_ok b1 /\ exists b2,
  for_down (Z.to_nat (zlen seps)) (zlen seps) (fun i t => bMoveSep t o i (i - 1)) (enc (upd_branch a o b1)) = Ok (enc (upd_branch a o b2)) /\ branch_ok b2 /\ exists b3,
  bSetSep (enc (upd_branch a o b2)) o 0 s.1 s.2 = Ok (enc (upd_branch a o b3)) /\ branch_ok b3 /\ exists b4,
  bSetChild (enc (upd_branch a o b3)) o 0 x.1 = Ok (enc (upd_branch a o b4)) /\ branch_ok b4 /\ exists b5,
  bSetCount (enc (upd_branch a o b4)) o 0 x.2 = Ok (enc (upd_branch a o b5)) /\ branch_ok b5 /\ exists b6,
  bSetNkeys (enc (upd_branch a o b5)) o (zlen seps + 1) = Ok (enc (upd_branch a o b6)) /\ branch_ok b6 /\ branchv b6 (s :: seps) (x :: kids).
Proof.
  pose proof (branch_of_ok _ _ _ Ha Hb) as Hok. destruct (branchv_view _ _ _ Hok Hv) as (gs & gk & E & Hw & Lg & Lk). destruct gs as [|g1 gs]; [cbn in Lg; lia|]. destruct gk as [|g2 gk]; [cbn in Lk; lia|]. set (k := zlen seps) in *. assert (EK : k + 1 = zlen kids) by (unfold k, zlen; lia).
  rewrite (view_enc a o b _ _ _ Hb E). destruct (shift_kids_right a o b Ha Hb k _ [] kids g2 gk Hw) as (z & E1 & W1). change (zlen []) with 0 in E1. rewrite Z.add_0_l, <- EK in E1. replace (Z.to_nat (k + 1)) with (length kids) by (unfold k, zlen; lia). cbn [app] in E1, W1. exists (mkB k (seps ++ g1 :: gs) (z :: kids ++ gk)). split; [exact E1|]. split; [by apply mkB_ok|].
  destruct (shift_seps_right a o b Ha Hb k _ [] seps g1 gs W1) as (z' & E2 & W2). change (zlen []) with 0 in E2. rewrite Z.add_0_l in E2. fold k in E2. replace (Z.to_nat k) with (length seps) by (unfold k, zlen; lia). cbn [app] in E2, W2. exists (mkB k (z' :: seps ++ gs) (z :: kids ++ gk)). split; [exact E2|]. split; [by apply mkB_ok|].
  pose proof (put_sep a o b Ha Hb k _ _ W2 0 ltac:(lia) s.1 s.2 ltac:(lia)) as E3. rewrite <- surjective_pairing in E3. pose proof (bview_sep _ _ _ (Z.to_nat 0) s W2 Hs) as W3. change (<[Z.to_nat 0 := s]> (z' :: seps ++ gs)) with (s :: seps ++ gs) in E3, W3. exists (mkB k (s :: seps ++ gs) (z :: kids ++ gk)). split; [exact E3|]. split; [by apply mkB_ok|].
  pose proof (put_child a o b Ha Hb k _ _ W3 0 ltac:(lia) x.1 z eq_refl) as E4. change (<[Z.to_nat 0 := (x.1, z.2)]> (z :: kids ++ gk)) with ((x.1, z.2) :: kids ++ gk) in E4. assert (W4 : bview_ok k (s :: seps ++ gs) ((x.1, z.2) :: kids ++ gk)). { pose proof (bview_kid _ _ _ (Z.to_nat 0) (x.1, z.2) W3) as W. apply W. split; [apply Hx|]. apply (kid_at _ _ _ 0 z W3). done. }
  exists (mkB k (s :: seps ++ gs) ((x.1, z.2) :: kids ++ gk)). split; [exact E4|]. split; [by apply mkB_ok|]. pose proof (put_count a o b Ha Hb k _ _ W4 0 ltac:(lia) x.2 (x.1, z.2) eq_refl) as E5. change (<[Z.to_nat 0 := ((x.1, z.2).1, x.2)]> ((x.1, z.2) :: kids ++ gk)) with ((x.1, x.2) :: kids ++ gk) in E5. rewrite <- (surjective_pairing x) in E5.
  assert (W5 : bview_ok k (s :: seps ++ gs) (x :: kids ++ gk)). { pose proof (bview_kid _ _ _ (Z.to_nat 0) x W4 Hx) as W. exact W. }
  exists (mkB k (s :: seps ++ gs) (x :: kids ++ gk)). split; [exact E5|]. split; [by apply mkB_ok|]. pose proof (put_k a o b Hb k (s :: seps ++ gs) (x :: kids ++ gk) (k + 1)) as E6. unfold at_ in E6. eexists. split; [exact E6|].
  apply (branchv_new _ _ gs _ gk); [unfold k; rewrite zlen_cons; lia|done|done|]. eapply bview_k; [exact W5|]. unfold is_u8, k, zlen. lia.
Qed.
End push.

Section pull.
Context (a : arena) (o : Z) (b : abranch).
Hypothesis (Ha : arena_ok a) (Hb : branch_of a o = Some b).

(** The first separator and child taken out. *)
Lemma node_shift_out s seps x kids : branchv b (s :: seps) (x :: kids) -> length kids = S (length seps) ->
  exists b1, for_up (Z.to_nat (zlen (s :: seps))) 0 (fun i t => move_kid o i (i + 1) t) (enc a) = Ok (enc (upd_branch a o b1)) /\ branch_ok b1 /\ exists b2,
    for_up (Z.to_nat (zlen (s :: seps) - 1)) 0 (fun i t => bMoveSep t o i (i + 1)) (enc (upd_branch a o b1)) = Ok (enc (upd_branch a o b2)) /\ branch_ok b2 /\ exists b3,
    bSetNkeys (enc (upd_branch a o b2)) o (zlen (s :: seps) - 1) = Ok (enc (upd_branch a o b3)) /\ branch_ok b3 /\ branchv b3 seps kids.
Proof.
  intros Hv Hl. pose proof (branch_of_ok _ _ _ Ha Hb) as Hok. destruct (branchv_view _ _ _ Hok Hv) as (gs & gk & E & Hw & Lg & Lk). set (k := zlen (s :: seps)) in *. assert (Ek : k = zlen seps + 1) by (unfold k; rewrite zlen_cons; lia). rewrite (view_enc a o b _ _ _ Hb E). cbn [app] in *.
  destruct (shift_kids_left a o b Ha Hb k _ [] kids x gk Hw) as (z & E1 & W1). change (zlen []) with 0 in E1. replace (Z.to_nat k) with (length kids) by (unfold zlen in *; lia). cbn [app] in *. exists (mkB k (s :: seps ++ gs) (kids ++ z :: gk)). split; [exact E1|]. split; [by apply mkB_ok|].
  destruct (shift_seps_left a o b Ha Hb k _ [] seps s gs W1) as (z' & E2 & W2). change (zlen []) with 0 in E2. replace (Z.to_nat (k - 1)) with (length seps) by (unfold zlen in *; lia). cbn [app] in *. exists (mkB k (seps ++ z' :: gs) (kids ++ z :: gk)). split; [exact E2|]. split; [by apply mkB_ok|].
  pose proof (put_k a o b Hb k (seps ++ z' :: gs) (kids ++ z :: gk) (k - 1)) as E4. unfold at_ in E4. eexists. split; [exact E4|]. apply (branchv_new _ _ (z' :: gs) _ (z :: gk)); [lia|done|done|]. eapply bview_k; [exact W2|]. cbn in Lg. unfold is_u8, zlen in *. lia.
Qed.

(** The last ones dropped. *)
Lemma node_pop s seps x kids : branchv b (seps ++ [s]) (kids ++ [x]) -> exists b1, bSetNkeys (enc a) o (zlen seps) = Ok (enc (upd_branch a o b1)) /\ branch_ok b1 /\ branchv b1 seps kids.
Proof.
  intros Hv. pose proof (branch_of_ok _ _ _ Ha Hb) as Hok. destruct (branchv_view _ _ _ Hok Hv) as (gs & gk & E & Hw & Lg & Lk). rewrite (view_enc a o b _ _ _ Hb E). rewrite (put_k a o b Hb). eexists. split; [done|]. rewrite <- !(assoc_L (++)) in *. apply (branchv_new _ _ ([s] ++ gs) _ ([x] ++ gk)); try done. eapply bview_k; [exact Hw|]. rewrite length_app in Lg. unfold is_u8, zlen. lia.
Qed.
End pull.

(** The children and separators of one branch copied behind those of another. *)
Section copy.
Context (a : arena) (o r : Z) (b br : abranch) (rs rk : list (Z * Z)).
Hypothesis (Ha : arena_ok a) (Hb : branch_of a o = Some b) (Hr : branch_of a r = Some br) (Hv : branchv br rs rk) (Hne : o <> r).
#[local] Abbreviation now k ss ks := (enc (at_ a o k ss ks)).

Lemma other_branch k ss ks : branch_of (at_ a o k ss ks) r = Some br.
Proof. unfold at_. rewrite branch_of_upd_ne; [done|apply branch_of_range in Hb; lia|done]. Qed.

Lemma copy_kids k ss A M B D R off : rk = D ++ R -> off + zlen D = zlen A -> length M = length R -> bview_ok k ss (A ++ M ++ B) ->
  for_up (length R) (zlen D) (fun i t => let* kid := bChild t r i in let* t := bSetChild t o (off + i) kid in let* n := bCount t r i in bSetCount t o (off + i) n) (now k ss (A ++ M ++ B)) = Ok (now k ss (A ++ R ++ B)) /\ bview_ok k ss (A ++ R ++ B).
Proof.
  revert A M D. induction R as [|x R IH]; intros A [|m M] D E Hoff Hl Hw; try done. injection Hl as Hl. cbn [for_up length]. pose proof (at_ok a o Ha _ _ _ Hw) as Ha1. rewrite E in Hv. destruct (node_kid _ r br Ha1 (other_branch _ _ _) _ _ _ _ (zlen D) Hv eq_refl) as (-> & _ & Hx).
  pose proof (bv_ks _ _ _ Hw) as Lz. rewrite !length_app in Lz. cbn in Lz. rewrite Hoff. destruct (put_kid a o b Ha Hb k ss _ (zlen A) x Hw) as [E2 W2]; [unfold zlen; lia|done|]. cbn [app] in *. rewrite (insert_here A) in E2, W2 by done.
  rewrite (put_child a o b Ha Hb k _ _ Hw (zlen A) (zlen_nonneg _) x.1 m) in E2 |- * by (by apply lookup_here). rewrite (insert_here A) in E2 |- * by done.
  assert (W3 : bview_ok k ss (A ++ (x.1, m.2) :: M ++ B)). { pose proof (bview_kid _ _ _ (Z.to_nat (zlen A)) (x.1, m.2) Hw) as W. rewrite (insert_here A) in W by done. apply W. split; [apply Hx|]. apply (kid_at _ _ _ (length A) m Hw). by apply list_lookup_middle. }
  destruct (node_kid _ r br (at_ok a o Ha _ _ _ W3) (other_branch _ _ _) _ _ _ _ (zlen D) Hv eq_refl) as (_ & -> & _). rewrite E2. specialize (IH (A ++ [x]) M (D ++ [x])). rewrite <- !(assoc_L (++)), !zlen_snoc in IH. apply IH; [done|lia|done|done].
Qed.

Lemma copy_seps k ks A M B D R off : rs = D ++ R -> off + zlen D = zlen A -> length M = length R -> bview_ok k (A ++ M ++ B) ks ->
  for_up (length R) (zlen D) (fun i t => let* s := bSepScore t r i in let* rf := bSepRef t r i in bSetSep t o (off + i) s rf) (now k (A ++ M ++ B) ks) = Ok (now k (A ++ R ++ B) ks) /\ bview_ok k (A ++ R ++ B) ks.
Proof.
  revert A M D. induction R as [|x R IH]; intros A [|m M] D E Hoff Hl Hw; try done. injection Hl as Hl. cbn [for_up length]. pose proof (at_ok a o Ha _ _ _ Hw) as Ha1. rewrite E in Hv. destruct (node_sep _ r br Ha1 (other_branch _ _ _) _ _ _ _ (zlen D) Hv eq_refl) as (-> & -> & Hx).
  pose proof (bv_ss _ _ _ Hw) as Lz. rewrite !length_app in Lz. cbn in Lz. rewrite Hoff. rewrite (put_sep a o b Ha Hb k _ _ Hw (zlen A) (zlen_nonneg _)) by (unfold zlen; lia). rewrite <- (surjective_pairing x). pose proof (bview_sep _ _ _ (Z.to_nat (zlen A)) x Hw Hx) as W2. cbn [app] in *. rewrite (insert_here A) in W2 |- * by done.
  specialize (IH (A ++ [x]) M (D ++ [x])). rewrite <- !(assoc_L (++)), !zlen_snoc in IH. apply IH; [done|lia|done|done].
Qed.
End copy.

(** A separator and all of another branch taken in. *)
Lemma node_absorb a o r b br ss ks s rs rk : arena_ok a -> branch_of a o = Some b -> branch_of a r = Some br -> branchv b ss ks -> branchv br rs rk -> o <> r -> length ks = S (length ss) -> length rk = S (length rs) -> (length ss + 1 + length rs <= 15)%nat -> ent_ok s ->
  exists b1, bSetSep (enc a) o (zlen ss) s.1 s.2 = Ok (enc (upd_branch a o b1)) /\ branch_ok b1 /\ exists b2,
    for_up (Z.to_nat (zlen rs + 1)) 0 (fun i t => let* kid := bChild t r i in let* t := bSetChild t o (zlen ss + 1 + i) kid in let* n := bCount t r i in bSetCount t o (zlen ss + 1 + i) n) (enc (upd_branch a o b1)) = Ok (enc (upd_branch a o b2)) /\ branch_ok b2 /\ exists b3,
    for_up (Z.to_nat (zlen rs)) 0 (fun i t => let* s := bSepScore t r i in let* rf := bSepRef t r i in bSetSep t o (zlen ss + 1 + i) s rf) (enc (upd_branch a o b2)) = Ok (enc (upd_branch a o b3)) /\ branch_ok b3 /\ exists b4,
    bSetNkeys (enc (upd_branch a o b3)) o (zlen ss + 1 + zlen rs) = Ok (enc (upd_branch a o b4)) /\ branch_ok b4 /\ branchv b4 (ss ++ s :: rs) (ks ++ rk).
Proof.
  intros Ha Hb Hr Hv Hvr Hne Lk Lr Lt Hs. pose proof (branch_of_ok _ _ _ Ha Hb) as Hok. destruct (branchv_view _ _ _ Hok Hv) as (gs & gk & E & Hw & Lg & Lgk). destruct gs as [|g1 gs]; [cbn in Lg; lia|]. set (k := zlen ss) in *. rewrite (view_enc a o b _ _ _ Hb E).
  rewrite (put_sep a o b Ha Hb _ _ _ Hw k (zlen_nonneg _)) by (unfold k, zlen; lia). rewrite <- (surjective_pairing s), (insert_here ss g1 s gs k eq_refl). pose proof (bview_sep _ _ _ (Z.to_nat k) s Hw Hs) as W1. rewrite (insert_here ss) in W1 by done. exists (mkB k (ss ++ s :: gs) (ks ++ gk)). split; [done|]. split; [by apply mkB_ok|].
  cbn in Lg. rewrite <- (take_drop (length rk) gk) in W1 |- *. destruct (copy_kids a o r b br rs rk Ha Hb Hr Hvr Hne k (ss ++ s :: gs) ks (take (length rk) gk) (drop (length rk) gk) [] rk (k + 1)) as [E2 W2]; [done|change (zlen []) with 0; unfold k, zlen; lia|rewrite length_take; lia|done|]. change (zlen []) with 0 in E2.
  replace (Z.to_nat (zlen rs + 1)) with (length rk) by (unfold zlen; lia). eexists. split; [exact E2|]. split; [by apply mkB_ok|].
  change (ss ++ s :: gs) with (ss ++ [s] ++ gs) in W2 |- *. rewrite (assoc_L (++)) in W2 |- *. rewrite <- (take_drop (length rs) gs) in W2 |- *. destruct (copy_seps a o r b br rs rk Ha Hb Hr Hvr Hne k (ks ++ rk ++ drop (length rk) gk) (ss ++ [s]) (take (length rs) gs) (drop (length rs) gs) [] rs (k + 1)) as [E3 W3]; [done|change (zlen []) with 0; rewrite zlen_snoc; unfold k, zlen; lia|rewrite length_take; lia|exact W2|]. change (zlen []) with 0 in E3.
  replace (Z.to_nat (zlen rs)) with (length rs) by (unfold zlen; lia). eexists. split; [exact E3|]. split; [by apply mkB_ok|]. pose proof (put_k a o b Hb k _ _ (k + 1 + zlen rs) : bSetNkeys (enc (at_ a o k ((ss ++ [s]) ++ rs ++ drop (length rs) gs) (ks ++ rk ++ drop (length rk) gk))) o _ = _) as E4. unfold at_ in E4. eexists. split; [exact E4|].
  apply (branchv_new _ _ (drop (length rs) gs) _ (drop (length rk) gk)); [unfold k; rewrite zlen_app, zlen_cons; lia|by rewrite <- !(assoc_L (++))|by rewrite <- (assoc_L (++))|]. eapply bview_k; [exact W3|]. unfold is_u8, k, zlen. lia.
Qed.
