(* ===== verification/TreeMend.v ===== *)
(** The repair of an underfilled child of the counted tree: borrowing from a neighbour and merging
    with it keep the entries, the order, the leaf chain and the blocks of the subtree, for leaves
    and for branches (engine/f3/struct/tree.go, [fixLeafUnderflow], [mergeLeaves],
    [branchBorrowRight], [branchBorrowLeft], [mergeBranches]). *)

From stdpp Require Import sorting.
From S2P Require Import Prelude Ordered TreeBlocks TreeArrays TreeOps TreeShape TreeNodes TreeBranches TreeSearch TreeInsert TreeGrow TreeRep TreeRemove.
#[local] Open Scope Z_scope.
#[local] Set Warnings "-register-all".

Section mend.
Context (mb : Z -> bytes).

(** ** Sequences that fit wherever another does *)

Record refit (F F' : list item) : Prop := {
  rf_sorted : forall A B, sorted mb (A ++ F ++ B) -> sorted mb (A ++ F' ++ B);
  rf_items : forall x, x ∈ F' -> exists y, y ∈ F /\ ient y = ient x
}.

Lemma refit_refl F : refit F F.
Proof. split; [done|]. intros x Hx. by exists x. Qed.
Lemma refit_trans F1 F2 F3 : refit F1 F2 -> refit F2 F3 -> refit F1 F3.
Proof. intros [H1 H2] [G1 G2]. split; [auto|]. intros x Hx. destruct (G2 x Hx) as (y & Hy & Ey). destruct (H2 y Hy) as (z & Hz & Ez). exists z. by rewrite Ez. Qed.
Lemma refit_ctx A B F F' : refit F F' -> refit (A ++ F ++ B) (A ++ F' ++ B).
Proof.
  intros [H1 H2]. split.
  - intros C D H. rewrite <- !(assoc_L (++)) in *. rewrite (assoc_L (++) C A) in *. by apply H1.
  - intros x Hx. rewrite !elem_of_app in Hx. destruct Hx as [Hx|[Hx|Hx]]; [exists x|destruct (H2 x Hx) as (y & Hy & Ey); exists y|exists x]; (split; [rewrite !elem_of_app; tauto|done]).
Qed.
Lemma refit_drop A X B : refit (A ++ X ++ B) (A ++ B).
Proof. split; [|intros x Hx; exists x; split; [rewrite elem_of_app in Hx; rewrite !elem_of_app; tauto|done]]. intros C D H. rewrite <- !(assoc_L (++)) in *. rewrite (assoc_L (++) C A) in *. by apply sorted_drop_mid in H. Qed.
(** A separator moved to stand in front of another entry. *)
Lemma refit_sep A e1 e2 B : refit (A ++ IEnt e1 :: IEnt e2 :: B) (A ++ IEnt e1 :: ISep e2 :: IEnt e2 :: B).
Proof.
  split.
  - intros C D H. rewrite <- !(assoc_L (++)) in *. cbn [app] in *. rewrite (assoc_L (++) C A) in *. by apply sorted_insert_sep.
  - intros x Hx. rewrite elem_of_app, !elem_of_cons in Hx. destruct Hx as [Hx|[->|[->|[->|Hx]]]]; [exists x|exists (IEnt e1)|exists (IEnt e2)|exists (IEnt e2)|exists x]; (split; [rewrite elem_of_app, !elem_of_cons; tauto|done]).
Qed.

(** ** A mended node *)

Record mended (a a' : arena) (l : nat) (p p' : ptree) (RL RB : list Z) : Prop := {
  me_ok : arena_ok a';
  me_nodes : stands a' (S l) p';
  me_ord : pord p' = pord p;
  me_size : (psize p <= psize p' + 1)%nat /\ (psize p' <= psize p)%nat;
  me_ents : pents p' = pents p;
  me_refit : refit (flat p) (flat p');
  me_chain : forall hd tl, chain (leaf_links p) hd tl -> chain (leaf_links p') hd tl;
  me_own : own a' (lords p' ++ RL) (bords p' ++ RB);
  me_frame : tree_frame a a' RL RB;
  me_arena : zlen (ar_leaves a') = zlen (ar_leaves a) /\ zlen (ar_branches a') = zlen (ar_branches a);
  me_edges : (lords p' = lords p /\ edges a' = edges a) \/ no_edges a'
}.

Definition fseps (f : forest) : list ent := match f with One _ => [] | Two _ s _ => [s] end.
Definition fkids (f : forest) : list ptree := match f with One c => [c] | Two c _ d => [c; d] end.

Lemma regrown_eq o S1 S2 K1 K2 f : regrown o S1 S2 K1 K2 f = PNode o (S1 ++ fseps f ++ S2) (K1 ++ fkids f ++ K2).
Proof. by destruct f. Qed.

Section pair.
Context (a : arena) (l : nat) (o : Z) (S1 S2 : list ent) (K1 K2 : list ptree) (RL RB : list Z) (x y : ptree) (s : ent).
Hypothesis (H1 : length K1 = length S1) (H2 : length K2 = length S2) (Hk1 : Forall (kid a (S l)) K1) (Hk2 : Forall (kid a (S l)) K2) (Hmax : (length (S1 ++ s :: S2) <= 15)%nat).
#[local] Abbreviation p := (regrown o S1 S2 K1 K2 (Two x s y)).

(** Two neighbours replaced by the forest [f]. *)
Lemma pair_mended a' b' f : arena_ok a' -> branch_of a' o = Some b' -> branchv b' (S1 ++ fseps f ++ S2) (kc <$> K1 ++ fkids f ++ K2) -> Forall (kid a' (S l)) (fkids f) ->
  ents (fflat f) = pents x ++ pents y -> refit (flat x ++ ISep s :: flat y) (fflat f) -> (forall hd tl, chain (leaf_links x ++ leaf_links y) hd tl -> chain (flinks f) hd tl) ->
  own a' (flords f ++ klords K1 ++ klords K2 ++ RL) (o :: fbords f ++ kbords K1 ++ kbords K2 ++ RB) -> tree_frame a a' (klords K1 ++ klords K2 ++ RL) (kbords K1 ++ kbords K2 ++ RB) ->
  zlen (ar_leaves a') = zlen (ar_leaves a) -> zlen (ar_branches a') = zlen (ar_branches a) -> (flords f = lords x ++ lords y /\ edges a' = edges a) \/ no_edges a' ->
  mended a a' (S l) p (regrown o S1 S2 K1 K2 f) RL RB.
Proof.
  intros Ha' Hb' Hv' Hkf He Hrf Hch Hown Hfr HzL HzB Hed. split; try done.
  - rewrite regrown_eq. apply stands_node. exists b'. split_and!; try done.
    + apply Forall_app. split; [eapply kids_frame; [exact Hk1|exact Hfr|clear; set_solver|clear; set_solver]|]. apply Forall_app. split; [done|]. eapply kids_frame; [exact Hk2|exact Hfr|clear; set_solver|clear; set_solver].
    + rewrite !length_app. destruct f; cbn; lia.
    + rewrite !length_app in *. cbn in Hmax. destruct f; cbn; lia.
  - by destruct f.
  - destruct f; cbn [regrown psize]; rewrite !length_app; cbn; lia.
  - unfold pents. rewrite !flat_regrown by done. rewrite !ents_app. cbn [fflat]. rewrite ents_app. cbn. unfold pents in He. rewrite He. done.
  - rewrite !flat_regrown by done. by apply refit_ctx.
  - intros hd tl. rewrite !links_regrown. intros (m1 & C1 & C2)%chain_app. apply chain_app. exists m1. split; [done|]. apply chain_app in C2 as (m2 & C2 & C3). apply chain_app. exists m2. split; [|done]. by apply Hch.
  - rewrite lords_regrown, bords_regrown. eapply own_perm; [exact Hown|solve_Permutation|solve_Permutation].
  - eapply frame_sub; [exact Hfr|clear; set_solver|clear; set_solver].
  - destruct Hed as [[E1 E2]|E]; [left|by right]. split; [|done]. by rewrite !lords_regrown, E1, flords_two.
Qed.
End pair.

(** ** Neighbouring leaves *)

(** Two leaves whose entries were shared out anew. *)
Section balanced.
Context (a : arena) (o : Z) (S1 S2 : list ent) (K1 K2 : list ptree) (RL RB : list Z) (s : ent) (ox nx oy ny : Z) (ex ey : list ent).
#[local] Abbreviation p := (regrown o S1 S2 K1 K2 (Two (PLeaf ox nx ex) s (PLeaf oy ny ey))).
Hypothesis (H1 : length K1 = length S1) (H2 : length K2 = length S2) (Hk1 : Forall (kid a 1) K1) (Hk2 : Forall (kid a 1) K2) (Hmax : (length (S1 ++ s :: S2) <= 15)%nat).

Lemma kc_leaf o0 n0 e0 : kc (PLeaf o0 n0 e0) = (o0, zlen e0).
Proof. unfold kc, pcount, pents. cbn [flat pord]. by rewrite ents_IEnt. Qed.

Lemma leaves_balanced a3 b2 ex' ey' s' l2 l3 : arena_ok a3 -> leaf_of a3 ox = Some l2 -> leafv l2 ex' nx -> leaf_of a3 oy = Some l3 -> leafv l3 ey' ny -> (7 <= length ex' <= 31)%nat -> (7 <= length ey' <= 31)%nat -> ex' ++ ey' = ex ++ ey ->
  branch_ok b2 -> branchv b2 (S1 ++ s' :: S2) ((kc <$> K1) ++ (ox, zlen ex') :: (oy, zlen ey') :: (kc <$> K2)) -> refit ((IEnt <$> ex) ++ ISep s :: (IEnt <$> ey)) ((IEnt <$> ex') ++ ISep s' :: (IEnt <$> ey')) ->
  own a3 (ox :: oy :: klords K1 ++ klords K2 ++ RL) (o :: kbords K1 ++ kbords K2 ++ RB) -> tree_frame a a3 (klords K1 ++ klords K2 ++ RL) (kbords K1 ++ kbords K2 ++ RB) -> zlen (ar_leaves a3) = zlen (ar_leaves a) -> ar_branches a3 = ar_branches a -> edges a3 = edges a -> (exists b, branch_of a o = Some b) ->
  mended a (upd_branch a3 o b2) 1 p (regrown o S1 S2 K1 K2 (Two (PLeaf ox nx ex') s' (PLeaf oy ny ey'))) RL RB.
Proof.
  intros Ha3 Hx Vx Hy Vy Lx Ly Ee Okb Vb Hrf Hown Hfr Hz Hbr Hed [b Hb]. assert (Hb3 : branch_of a3 o = Some b) by (unfold branch_of in *; by rewrite Hbr). pose proof (own_NoDup _ _ _ Hown) as [_ [Hno _]%NoDup_cons]. pose proof (branch_of_range _ _ _ Hb). apply (pair_mended a 0) with (b' := b2); try done.
  - by apply arena_ok_upd_branch.
  - by eapply branch_of_upd.
  - cbn [fkids fseps app]. by rewrite fmap_app, !fmap_cons, !kc_leaf.
  - cbn [fkids]. constructor; [|constructor; [|constructor]]; (split; [split; [|constructor; lia]|cbn; lia]); [by apply (holds_leaf _ _ _ _ l2)|by apply (holds_leaf _ _ _ _ l3)].
  - unfold pents. cbn [fflat flat]. rewrite ents_app. change (ISep s' :: (IEnt <$> ey')) with ([ISep s'] ++ (IEnt <$> ey')). rewrite ents_app, !ents_IEnt. done.
  - by apply own_upd_branch.
  - eapply frame_trans; [exact Hfr|]. apply frame_upd_branch; [lia|done].
  - rewrite zlen_upd_branch. by rewrite Hbr.
  - by left.
Qed.
End balanced.

Section leaves.
Context (a : arena) (o : Z) (S1 S2 : list ent) (K1 K2 : list ptree) (RL RB : list Z) (s : ent) (b : abranch) (ox nx oy ny : Z) (ex ey : list ent).
#[local] Abbreviation x := (PLeaf ox nx ex).
#[local] Abbreviation y := (PLeaf oy ny ey).
#[local] Abbreviation p := (regrown o S1 S2 K1 K2 (Two x s y)).
Hypothesis (H1 : length K1 = length S1) (H2 : length K2 = length S2) (Hk1 : Forall (kid a 1) K1) (Hk2 : Forall (kid a 1) K2) (Hmax : (length (S1 ++ s :: S2) <= 15)%nat).
Hypothesis (Ha : arena_ok a) (Hb : branch_of a o = Some b) (Hv : branchv b (S1 ++ s :: S2) (kc <$> K1 ++ x :: y :: K2)) (Hx : stands a 1 x) (Hy : stands a 1 y) (Hown : own a (lords p ++ RL) (bords p ++ RB)).

Record pair_facts (lx ly : aleaf) : Prop := {
  pf_x : leaf_of a ox = Some lx;
  pf_vx : leafv lx ex nx;
  pf_y : leaf_of a oy = Some ly;
  pf_vy : leafv ly ey ny;
  pf_ex : (length ex <= 31)%nat /\ Forall ent_ok ex;
  pf_ey : (length ey <= 31)%nat /\ Forall ent_ok ey;
  pf_ne : ox <> oy;
  pf_fx : ox ∉ klords K1 ++ klords K2 ++ RL;
  pf_fy : oy ∉ klords K1 ++ klords K2 ++ RL;
  pf_fo : o ∉ kbords K1 ++ kbords K2 ++ RB;
  pf_pos : 0 <= ox /\ 0 <= oy /\ 0 <= o;
  pf_own : own a (ox :: oy :: klords K1 ++ klords K2 ++ RL) (o :: kbords K1 ++ kbords K2 ++ RB);
  pf_cx : kc x = (ox, zlen ex);
  pf_cy : kc y = (oy, zlen ey)
}.

Lemma pair_leaves : exists lx ly, pair_facts lx ly.
Proof.
  destruct Hx as [Hhx Hsx], Hy as [Hhy Hsy]. inversion Hhx as [? ? ? lx Hlx Hvx|]; subst. inversion Hhy as [? ? ? ly Hly Hvy|]; subst. inversion Hsx; subst. inversion Hsy; subst. exists lx, ly.
  assert (Hw : own a (ox :: oy :: klords K1 ++ klords K2 ++ RL) (o :: kbords K1 ++ kbords K2 ++ RB)). { eapply own_perm; [exact Hown|rewrite lords_regrown; cbn; solve_Permutation|rewrite bords_regrown; cbn; solve_Permutation]. }
  pose proof (own_NoDup _ _ _ Hw) as [[Hn1 [Hn2 _]%NoDup_cons]%NoDup_cons [Hn3 _]%NoDup_cons]. apply not_elem_of_cons in Hn1 as [Hn0 Hn1]. pose proof (leaf_of_range _ _ _ Hlx). pose proof (leaf_of_range _ _ _ Hly). pose proof (branch_of_range _ _ _ Hb).
  split; try done; [by split; [|destruct (leafv_slots _ _ _ (leaf_of_ok _ _ _ Ha Hlx) Hvx) as (_ & _ & _ & ? & _)]|by split; [|destruct (leafv_slots _ _ _ (leaf_of_ok _ _ _ Ha Hly) Hvy) as (_ & _ & _ & ? & _)]|split_and!; lia|unfold kc, pcount, pents; cbn [flat pord]; by rewrite ents_IEnt|unfold kc, pcount, pents; cbn [flat pord]; by rewrite ents_IEnt].
Qed.

Definition borrow_right_code : P Tree :=
  let* n := lNent (enc a) ox in
  let* '(s, r) := entry_at (enc a) oy 0 in
  let* t := lSetEnt (enc a) ox n s r in
  let* n := lNent t ox in
  let* t := lSetNent t ox (n + 1) in
  let* t := leafRemove t oy 0 in
  let* t := shift_count t o (zlen S1 + 1) (zlen S1) 1 in
  let* '(s, r) := entry_at t oy 0 in
  bSetSep t o (zlen S1) s r.

Lemma leaf_borrow_right : (6 <= length ex < 31)%nat -> (7 < length ey)%nat -> exists a' p', borrow_right_code = Ok (enc a') /\ mended a a' 1 p p' RL RB.
Proof.
  intros Lx Ly. destruct pair_leaves as (lx & ly & [F1 F2 F3 F4 [F5 F5'] [F6 F6'] F7 F8 F9 F10 (P1 & P2 & P3) F11 F12 F13]). destruct ey as [|e1 [|e2 R]] eqn:Ey; [cbn in Ly; lia|cbn in Ly; lia|]. apply Forall_cons in F6' as [He1 F6']. pose proof F6' as [He2 _]%Forall_cons.
  unfold borrow_right_code. rewrite (leaf_size a ox lx ex nx Ha F1 F2), (entry_at_ok a oy ly _ ny 0 e1 Ha F3 F4 eq_refl ltac:(lia)). destruct e1 as [s1 r1].
  destruct (leaf_poke a ox lx ex nx Ha F1 F2 (s1, r1) ltac:(lia) He1) as (l1 & E1 & Ok1 & V1 & l2 & E2 & Ok2 & V2). cbn [fst snd] in E1. rewrite E1. assert (Ha1 : arena_ok (upd_leaf a ox l1)) by (by apply arena_ok_upd_leaf). assert (Hl1 : leaf_of (upd_leaf a ox l1) ox = Some l1) by (by eapply leaf_of_upd).
  rewrite (leaf_size _ ox l1 ex nx Ha1 Hl1 V1), E2. set (a2 := upd_leaf a ox l2). assert (Ha2 : arena_ok a2) by (by apply arena_ok_upd_leaf). assert (Hy2 : leaf_of a2 oy = Some ly) by (unfold a2; rewrite leaf_of_upd_ne; done).
  destruct (leafRemove_ok a2 oy ly _ ny Ha2 Hy2 F4 0 (s1, r1) eq_refl ltac:(lia)) as (l3 & -> & Ok3 & V3). change (delete (Z.to_nat 0) ((s1, r1) :: e2 :: R)) with (e2 :: R) in V3. set (a3 := upd_leaf a2 oy l3). assert (Ha3 : arena_ok a3) by (by apply arena_ok_upd_leaf). assert (Hb3 : branch_of a3 o = Some b) by done.
  rewrite fmap_app, !fmap_cons, F12, F13 in Hv. rewrite <- (length_fmap kc) in H1, H2. destruct (shift_right_ok a3 o b S1 S2 s (kc <$> K1) (kc <$> K2) _ _ Ha3 Hb3 Hv H1 H2 1) as (b1 & -> & Okb1 & Vb1); [cbn; unfold zlen; cbn; lia|cbn; unfold zlen; lia|]. cbn [fst snd] in Vb1.
  set (a4 := upd_branch a3 o b1). assert (Ha4 : arena_ok a4) by (by apply arena_ok_upd_branch). assert (Hy4 : leaf_of a4 oy = Some l3) by (by eapply leaf_of_upd). assert (Hb4 : branch_of a4 o = Some b1) by (by eapply branch_of_upd).
  rewrite (entry_at_ok a4 oy l3 _ ny 0 e2 Ha4 Hy4 V3 eq_refl ltac:(lia)). destruct e2 as [s2 r2]. destruct (node_set_sep a4 o b1 Ha4 Hb4 _ _ _ _ (zlen S1) (s2, r2) Vb1 eq_refl He2) as (b2 & E5 & Okb2 & Vb2). cbn [fst snd] in E5. rewrite E5. unfold a4. rewrite upd_branch_upd. set (a5 := upd_branch a3 o b2).
  exists a5, (regrown o S1 S2 K1 K2 (Two (PLeaf ox nx (ex ++ [(s1, r1)])) (s2, r2) (PLeaf oy ny ((s2, r2) :: R)))). split; [done|]. rewrite !length_fmap in *. cbn [length] in *. unfold a5.
  apply (leaves_balanced a o S1 S2 K1 K2 RL RB s ox nx oy ny ex ((s1, r1) :: (s2, r2) :: R) H1 H2 Hk1 Hk2 Hmax a3 b2 _ _ (s2, r2) l2 l3); try done.
  - unfold a3. rewrite leaf_of_upd_ne by congruence. by eapply leaf_of_upd.
  - rewrite length_app. cbn. lia.
  - cbn. lia.
  - by rewrite <- (assoc_L (++)).
  - rewrite zlen_snoc. replace (zlen ((s2, r2) :: R)) with (zlen ((s1, r1) :: (s2, r2) :: R) - 1) by (rewrite !zlen_cons; lia). done.
  - eapply refit_trans; [apply (refit_drop (IEnt <$> ex) [ISep s])|]. rewrite fmap_app, !fmap_cons, <- (assoc_L (++)). cbn [fmap list_fmap app]. apply refit_sep.
  - by apply own_upd_leaf, own_upd_leaf.
  - eapply frame_trans; [apply frame_upd_leaf; [exact P1|exact F8]|]. apply frame_upd_leaf; [exact P2|exact F9].
  - unfold a3, a2. by rewrite !zlen_upd_leaf.
  - by exists b.
Qed.

Definition borrow_left_code : P Tree :=
  let* '(s, r) := entry_at (enc a) ox (zlen ex - 1) in
  let* t := leafPrepend (enc a) oy s r in
  let* t := leafRemove t ox (zlen ex - 1) in
  let* t := shift_count t o (zlen S1) (zlen S1 + 1) 1 in
  let* '(s, r) := entry_at t oy 0 in
  bSetSep t o (zlen S1) s r.

Lemma leaf_borrow_left : (7 < length ex)%nat -> (6 <= length ey < 31)%nat -> exists a' p', borrow_left_code = Ok (enc a') /\ mended a a' 1 p p' RL RB.
Proof.
  intros Lx Ly. destruct pair_leaves as (lx & ly & [F1 F2 F3 F4 [F5 F5'] [F6 F6'] F7 F8 F9 F10 (P1 & P2 & P3) F11 F12 F13]). destruct ex as [|e2 R0 _] eqn:Ex0 using rev_ind; [cbn in Lx; lia|]. destruct R0 as [|e1 R _] eqn:ER using rev_ind; [cbn in Lx; lia|]. set (R' := R ++ [e1]) in *. apply Forall_app in F5' as [F5' [He2 _]%Forall_cons].
  unfold borrow_left_code. rewrite Ex0. replace (zlen (R' ++ [e2]) - 1) with (zlen R') by (rewrite zlen_snoc; lia). assert (Hat : (R' ++ [e2]) !! Z.to_nat (zlen R') = Some e2) by (by apply lookup_here). rewrite (entry_at_ok a ox lx _ nx (zlen R') e2 Ha F1 F2 Hat (zlen_nonneg _)). destruct e2 as [s2 r2]. rewrite length_app in Lx, F5. cbn in Lx, F5.
  destruct (leafPrepend_ok a oy ly ey ny Ha F3 F4 (s2, r2) ltac:(lia) He2) as (l3 & E1 & Ok3 & V3). cbn [fst snd] in E1. rewrite E1. set (a1 := upd_leaf a oy l3). assert (Ha1 : arena_ok a1) by (by apply arena_ok_upd_leaf). assert (Hx1 : leaf_of a1 ox = Some lx) by (unfold a1; rewrite leaf_of_upd_ne; done).
  destruct (leafRemove_ok a1 ox lx _ nx Ha1 Hx1 F2 (zlen R') (s2, r2) Hat (zlen_nonneg _)) as (l2 & -> & Ok2 & V2). assert (Ed : delete (Z.to_nat (zlen R')) (R' ++ [(s2, r2)]) = R') by (replace (Z.to_nat (zlen R')) with (length R') by (unfold zlen; lia); rewrite delete_middle; by rewrite app_nil_r). rewrite Ed in V2.
  set (a3 := upd_leaf a1 ox l2). assert (Ha3 : arena_ok a3) by (by apply arena_ok_upd_leaf). assert (Hb3 : branch_of a3 o = Some b) by done. rewrite fmap_app, !fmap_cons, F12, F13 in Hv. rewrite <- (length_fmap kc) in H1, H2.
  destruct (shift_left_ok a3 o b S1 S2 s (kc <$> K1) (kc <$> K2) _ _ Ha3 Hb3 Hv H1 H2 1) as (b1 & -> & Okb1 & Vb1); [cbn; rewrite zlen_snoc; pose proof (zlen_nonneg R'); lia|cbn; unfold zlen; lia|]. cbn [fst snd] in Vb1.
  set (a4 := upd_branch a3 o b1). assert (Ha4 : arena_ok a4) by (by apply arena_ok_upd_branch). assert (Hy4 : leaf_of a4 oy = Some l3) by (unfold a4, a3; rewrite leaf_of_upd_branch, leaf_of_upd_ne by done; by eapply leaf_of_upd). assert (Hb4 : branch_of a4 o = Some b1) by (by eapply branch_of_upd).
  rewrite (entry_at_ok a4 oy l3 _ ny 0 (s2, r2) Ha4 Hy4 V3 eq_refl ltac:(lia)). destruct (node_set_sep a4 o b1 Ha4 Hb4 _ _ _ _ (zlen S1) (s2, r2) Vb1 eq_refl He2) as (b2 & E5 & Okb2 & Vb2). cbn [fst snd] in E5. rewrite E5. unfold a4. rewrite upd_branch_upd.
  eexists _, (regrown o S1 S2 K1 K2 (Two (PLeaf ox nx R') (s2, r2) (PLeaf oy ny ((s2, r2) :: ey)))). split; [done|]. rewrite !length_fmap in *. apply (leaves_balanced a o S1 S2 K1 K2 RL RB s ox nx oy ny (R' ++ [(s2, r2)]) ey H1 H2 Hk1 Hk2 Hmax a3 b2 _ _ (s2, r2) l2 l3); try done.
  - by eapply leaf_of_upd.
  - lia.
  - cbn. lia.
  - by rewrite <- (assoc_L (++)).
  - rewrite zlen_cons. replace (zlen R') with (zlen (R' ++ [(s2, r2)]) - 1) by (rewrite zlen_snoc; lia). by rewrite (Z.add_comm 1).
  - eapply refit_trans; [apply (refit_drop (IEnt <$> R' ++ [(s2, r2)]) [ISep s])|]. unfold R'. rewrite !fmap_app, !fmap_cons, <- !(assoc_L (++)). cbn [fmap list_fmap app]. apply refit_sep.
  - by apply own_upd_leaf, own_upd_leaf.
  - eapply frame_trans; [apply frame_upd_leaf; [exact P2|exact F9]|]. apply frame_upd_leaf; [exact P1|exact F8].
  - unfold a3, a1. by rewrite !zlen_upd_leaf.
  - by exists b.
Qed.

Lemma mergeLeaves_ok : (7 <= length ex + length ey <= 31)%nat -> exists a' p', mergeLeaves (enc a) o (zlen S1) = Ok (enc a') /\ mended a a' 1 p p' RL RB.
Proof.
  intros Lxy. destruct pair_leaves as (lx & ly & [F1 F2 F3 F4 [F5 F5'] [F6 F6'] F7 F8 F9 F10 (P1 & P2 & P3) F11 F12 F13]). unfold mergeLeaves. rewrite invalidateEdges_enc. set (a0 := forget a). assert (Ha0 : arena_ok a0) by (destruct Ha as [? ? ? ?]; by split). assert (Hb0 : branch_of a0 o = Some b) by done.
  rewrite fmap_app, !fmap_cons, F12, F13 in Hv. pose proof H1 as H1'. pose proof H2 as H2'. rewrite <- (length_fmap kc) in H1', H2'. destruct (pair_reads a0 o b S1 S2 s (kc <$> K1) (kc <$> K2) _ _ Ha0 Hb0 Hv H1' H2') as (_ & -> & -> & _). cbn [fst].
  assert (G1 : leaf_of a0 ox = Some lx) by done. assert (G3 : leaf_of a0 oy = Some ly) by done. rewrite (leaf_size a0 ox lx ex nx Ha0 G1 F2), (leaf_size a0 oy ly ey ny Ha0 G3 F4), (leaf_enc _ _ _ G1), (leaf_enc _ _ _ G3).
  destruct (leaf_append_run a0 ox lx ex nx Ha0 G1 F2 ly ey ny (leaf_of_ok _ _ _ Ha F3) F4 ltac:(lia)) as (l1 & E1 & Ok1 & V1). follow E1. set (a1 := upd_leaf a0 ox l1). assert (Ha1 : arena_ok a1) by (by apply arena_ok_upd_leaf). assert (Hy1 : leaf_of a1 oy = Some ly) by (unfold a1; rewrite leaf_of_upd_ne; done). assert (Hx1 : leaf_of a1 ox = Some l1) by (by eapply leaf_of_upd).
  pose proof (leaf_of_ok _ _ _ Ha1 Hy1) as Oky. rewrite (lNext_enc _ _ _ Hy1 Oky). assert (Hny : al_next ly = ny) by apply F4. rewrite Hny. assert (Rny : is_u32 ny) by (rewrite <- Hny; apply Oky). destruct (leaf_relink a1 ox l1 _ nx Ha1 Hx1 V1 ny Rny) as (l2 & -> & Ok2 & V2). unfold a1. rewrite upd_leaf_upd. set (a2 := upd_leaf a0 ox l2).
  rewrite freeLeaf_enc. set (a3 := free_leaf a2 oy). assert (Ha2 : arena_ok a2) by (by apply arena_ok_upd_leaf). assert (Ha3 : arena_ok a3) by (by apply arena_rest). assert (Hb3 : branch_of a3 o = Some b) by done.
  destruct (bDropChild_ok a3 o b S1 S2 s (kc <$> K1) (kc <$> K2) _ _ Ha3 Hb3 Hv H1' H2') as (b1 & -> & Okb1 & Vb1); [cbn; unfold zlen; lia|]. cbn [fst snd] in Vb1. rewrite <- zlen_app in Vb1.
  exists (upd_branch a3 o b1), (regrown o S1 S2 K1 K2 (One (PLeaf ox ny (ex ++ ey)))). split; [done|]. apply (pair_mended a 0) with (b' := b1); try done.
  - by apply arena_ok_upd_branch.
  - by eapply branch_of_upd.
  - cbn [fkids fseps app]. by rewrite fmap_app, fmap_cons, kc_leaf.
  - cbn [fkids]. constructor; [|constructor]. split; [split; [|constructor; rewrite length_app; lia]|cbn; rewrite length_app; lia]. apply (holds_leaf _ _ _ _ l2); [|done]. by eapply (leaf_of_upd a0).
  - unfold pents. cbn [fflat flat]. rewrite !ents_IEnt. done.
  - cbn [fflat flat]. rewrite fmap_app. apply (refit_drop (IEnt <$> ex) [ISep s]).
  - intros hd tl Hc. cbn in *. inversion Hc as [|? ? ? ? Hc2]; subst. inversion Hc2 as [|? ? ? ? Hc3]; subst. by constructor.
  - apply own_upd_branch. unfold a3. apply own_free_leaf. unfold a2. apply own_upd_leaf. eapply own_perm; [exact F11|cbn; solve_Permutation|done].
  - eapply frame_trans; [|by apply frame_upd_branch]. split; [|done|done]. intros o' Ho'. change (leaf_of a3 o') with (leaf_of a2 o'). unfold a2. rewrite leaf_of_upd_ne; [done|done|]. intros ->. set_solver.
  - cbn [upd_branch ar_leaves a3 free_leaf upd_rest]. unfold a2. by rewrite zlen_upd_leaf.
  - by rewrite zlen_upd_branch.
  - by right.
Qed.
End leaves.

(** ** An underfilled child *)

Record loose (a : arena) (l : nat) (o : Z) (seps : list ent) (K1 : list ptree) (c : ptree) (K2 : list ptree) (RL RB : list Z) (b : abranch) : Prop := {
  lo_ok : arena_ok a;
  lo_branch : branch_of a o = Some b;
  lo_view : branchv b seps (kc <$> K1 ++ c :: K2);
  lo_left : Forall (kid a (S l)) K1;
  lo_child : stands a (S l) c;
  lo_right : Forall (kid a (S l)) K2;
  lo_len : length (K1 ++ c :: K2) = S (length seps);
  lo_max : (length seps <= 15)%nat;
  lo_some : seps <> [];
  lo_own : own a (lords (PNode o seps (K1 ++ c :: K2)) ++ RL) (bords (PNode o seps (K1 ++ c :: K2)) ++ RB)
}.

(** The neighbour the repair turns to: the right one, or the left one of the last child. *)
Lemma neighbour a l o seps K1 c K2 RL RB b : loose a l o seps K1 c K2 RL RB b ->
  (exists S1 s S2 y K2', K2 = y :: K2' /\ seps = S1 ++ s :: S2 /\ length K1 = length S1 /\ length K2' = length S2) \/ (exists S1 s K1' x, K2 = [] /\ K1 = K1' ++ [x] /\ seps = S1 ++ [s] /\ length K1' = length S1).
Proof.
  intros H. pose proof (lo_len _ _ _ _ _ _ _ _ _ _ H) as Hl. rewrite length_app in Hl. cbn in Hl. destruct K2 as [|y K2'].
  - right. destruct K1 as [|x K1' _] using rev_ind; [cbn in Hl; pose proof (lo_some _ _ _ _ _ _ _ _ _ _ H); destruct seps; [done|cbn in Hl; lia]|]. destruct seps as [|s S1 _] using rev_ind; [rewrite length_app in Hl; cbn in Hl; lia|]. exists S1, s, K1', x. rewrite !length_app in Hl. cbn in Hl. split_and!; (done || lia).
  - left. cbn in Hl. destruct (lookup_lt_is_Some_2 seps (length K1)) as [s Hs]; [lia|]. exists (take (length K1) seps), s, (drop (S (length K1)) seps), y, K2'. rewrite take_drop_middle by done. rewrite length_take, length_drop. split_and!; (done || lia).
Qed.

Lemma fixLeafUnderflow_ok a o seps K1 c K2 RL RB b : loose a 0 o seps K1 c K2 RL RB b -> psize c = 6%nat -> exists a' p', fixLeafUnderflow (enc a) o (zlen K1) = Ok (enc a') /\ mended a a' 1 (PNode o seps (K1 ++ c :: K2)) p' RL RB.
Proof.
  intros HL Hc. pose proof HL as [Ha Hb Hv Hk1 Hsc Hk2 Hlen Hmax Hsome Hown]. destruct (stands_leaf_inv a c Hsc) as (oc & nc & ec & ->). cbn in Hc. unfold fixLeafUnderflow. destruct (neighbour _ _ _ _ _ _ _ _ _ _ HL) as [(S1 & s & S2 & y & K2' & -> & -> & H1 & H2)|(S1 & s & K1' & x & -> & -> & -> & H1)].
  - apply Forall_cons in Hk2 as [[Hsy Hfy] Hk2]. destruct (stands_leaf_inv a y Hsy) as (oy & ny & ey & ->). pose proof Hv as Hv0. rewrite fmap_app, !fmap_cons in Hv0. destruct (pair_reads a o b S1 S2 s (kc <$> K1) (kc <$> K2') _ _ Ha Hb Hv0) as (-> & R1 & R2 & _); [by rewrite length_fmap..|]. assert (EK : zlen K1 = zlen S1) by (unfold zlen; lia). rewrite EK, R1, R2. cbn [kc pord fst].
    destruct (Z.ltb_spec (zlen S1) (zlen S1 + 1 + zlen S2)) as [_|Hge]; [|pose proof (zlen_nonneg S2); lia]. assert (Hey : lNent (enc a) oy = Ok (zlen ey) /\ (length ey <= 31)%nat). { destruct Hsy as [Hh Hsh]. inversion Hh as [? ? ? ly Hly Hvy|]; subst. inversion Hsh; subst. split; [by eapply leaf_size|done]. } destruct Hey as [-> Hey]. cbn in Hfy. change leafMin with 7.
    destruct (Z.ltb_spec 7 (zlen ey)) as [Hlt|Hge].
    + destruct (leaf_borrow_right a o S1 S2 K1 K2' RL RB s b oc nc oy ny ec ey) as (a' & p' & E & Hm); try done; [lia|unfold zlen in Hlt; lia|]. exists a', p'. done.
    + destruct (mergeLeaves_ok a o S1 S2 K1 K2' RL RB s b oc nc oy ny ec ey) as (a' & p' & E & Hm); try done; [unfold zlen in Hge; lia|]. exists a', p'. done.
  - apply Forall_app in Hk1 as [Hk1 [[Hsx Hfx] _]%Forall_cons]. destruct (stands_leaf_inv a x Hsx) as (ox & nx & ex & ->). pose proof Hv as Hv0. rewrite <- (assoc_L (++)), fmap_app in Hv0. cbn [fmap list_fmap app] in Hv0. destruct (pair_reads a o b S1 [] s (kc <$> K1') [] _ _ Ha Hb Hv0) as (-> & R1 & R2 & _); [by rewrite length_fmap|done|]. rewrite zlen_snoc. assert (EK : zlen K1' = zlen S1) by (unfold zlen; lia). rewrite EK, R2. replace (zlen S1 + 1 - 1) with (zlen S1) by lia. rewrite R1. cbn [kc pord fst]. change (zlen []) with 0.
    destruct (Z.ltb_spec (zlen S1 + 1) (zlen S1 + 1 + 0)) as [Hlt|_]; [lia|]. assert (Hex : lNent (enc a) ox = Ok (zlen ex) /\ (length ex <= 31)%nat). { destruct Hsx as [Hh Hsh]. inversion Hh as [? ? ? ly Hly Hvy|]; subst. inversion Hsh; subst. split; [by eapply leaf_size|done]. } destruct Hex as [-> Hex]. cbn in Hfx. change leafMin with 7.
    rewrite <- (assoc_L (++)) in Hv, Hown |- *. cbn [app] in *. destruct (Z.ltb_spec 7 (zlen ex)) as [Hlt|Hge].
    + destruct (leaf_borrow_left a o S1 [] K1' [] RL RB s b ox nx oc nc ex ec) as (a' & p' & E & Hm); try done; [unfold zlen in Hlt; lia|lia|]. exists a', p'. done.
    + destruct (mergeLeaves_ok a o S1 [] K1' [] RL RB s b ox nx oc nc ex ec) as (a' & p' & E & Hm); try done; [unfold zlen in Hge; lia|]. exists a', p'. done.
Qed.
End mend.

(** ** Neighbouring branches *)

Section rotate.
Context (mb : Z -> bytes).
Context (a : arena) (l : nat) (o : Z) (S1 S2 : list ent) (K1 K2 : list ptree) (RL RB : list Z) (s : ent) (b : abranch) (ox oy : Z) (sx sy : list ent) (kx ky : list ptree).
#[local] Abbreviation x := (PNode ox sx kx).
#[local] Abbreviation y := (PNode oy sy ky).
#[local] Abbreviation p := (regrown o S1 S2 K1 K2 (Two x s y)).
#[local] Abbreviation RBr := (kbords K1 ++ kbords K2 ++ RB).
#[local] Abbreviation RLr := (klords K1 ++ klords K2 ++ RL).
Hypothesis (H1 : length K1 = length S1) (H2 : length K2 = length S2) (Hk1 : Forall (kid a (S (S l))) K1) (Hk2 : Forall (kid a (S (S l))) K2) (Hmax : (length (S1 ++ s :: S2) <= 15)%nat).
Hypothesis (Ha : arena_ok a) (Hb : branch_of a o = Some b) (Hv : branchv b (S1 ++ s :: S2) (kc <$> K1 ++ x :: y :: K2)) (Hx : stands a (S (S l)) x) (Hy : stands a (S (S l)) y) (Hown : own a (lords p ++ RL) (bords p ++ RB)).
Hypothesis (Hcnt : pcount x + pcount y < two32).

Record branch_pair (bx by_ : abranch) : Prop := {
  bp_x : branch_of a ox = Some bx;
  bp_vx : branchv bx sx (kc <$> kx);
  bp_y : branch_of a oy = Some by_;
  bp_vy : branchv by_ sy (kc <$> ky);
  bp_kx : Forall (kid a (S l)) kx;
  bp_ky : Forall (kid a (S l)) ky;
  bp_lx : length kx = S (length sx) /\ (length sx <= 15)%nat;
  bp_ly : length ky = S (length sy) /\ (length sy <= 15)%nat;
  bp_ne : ox <> oy /\ o <> ox /\ o <> oy;
  bp_pos : 0 <= ox /\ 0 <= oy /\ 0 <= o;
  bp_out : forall o', o' ∈ kbords kx ++ kbords ky ++ RBr -> o' <> o /\ o' <> ox /\ o' <> oy;
  bp_own : own a (klords kx ++ klords ky ++ RLr) (o :: ox :: oy :: kbords kx ++ kbords ky ++ RBr)
}.

Lemma the_pair : exists bx by_, branch_pair bx by_.
Proof.
  pose proof Hx as (bx & X1 & X2 & X3 & X4 & X5)%stands_node. pose proof Hy as (by_ & Y1 & Y2 & Y3 & Y4 & Y5)%stands_node. exists bx, by_.
  assert (Hw : own a (klords kx ++ klords ky ++ RLr) (o :: ox :: oy :: kbords kx ++ kbords ky ++ RBr)). { eapply own_perm; [exact Hown|rewrite lords_regrown, flords_two, !lords_knode; solve_Permutation|rewrite bords_regrown; cbn [fbords]; rewrite !bords_knode; solve_Permutation]. }
  pose proof (own_NoDup _ _ _ Hw) as [_ [N1 [N2 [N3 _]%NoDup_cons]%NoDup_cons]%NoDup_cons]. apply branch_of_range in X1 as Rx. apply branch_of_range in Y1 as Ry. apply branch_of_range in Hb as Ro. apply not_elem_of_cons in N1 as [N0 N1]. apply not_elem_of_cons in N1 as [N0' N1]. apply not_elem_of_cons in N2 as [N2' N2]. split; try done; [lia|].
  intros o' Ho'. split_and!; by intros ->.
Qed.

(** The nodes below, wherever only the three branches changed. *)
Section after.
Context (bx by_ : abranch) (a' : arena) (b' : abranch).
Hypothesis (Hp : branch_pair bx by_) (Ha' : arena_ok a') (Hlv : ar_leaves a' = ar_leaves a) (Hbr : forall o', o' <> o -> o' <> ox -> o' <> oy -> branch_of a' o' = branch_of a o') (Hco : tree_core a' = tree_core a) (Hed : edges a' = edges a) (Hz : zlen (ar_branches a') = zlen (ar_branches a)) (Hb' : branch_of a' o = Some b').

Lemma after_frame : tree_frame a a' (klords kx ++ klords ky ++ RLr) (kbords kx ++ kbords ky ++ RBr).
Proof. split; [intros o' _; unfold leaf_of; by rewrite Hlv| |done]. intros o' Ho'. destruct (bp_out _ _ Hp o' Ho') as (? & ? & ?). by apply Hbr. Qed.

Lemma after_kids : Forall (kid a' (S l)) (kx ++ ky).
Proof. apply Forall_app. split; [eapply kids_frame; [apply (bp_kx _ _ Hp)|apply after_frame|clear; set_solver|clear; set_solver]|eapply kids_frame; [apply (bp_ky _ _ Hp)|apply after_frame|clear; set_solver|clear; set_solver]]. Qed.

Lemma rotated t sx' sy' kx' ky' bx' by' : own a' (klords kx ++ klords ky ++ RLr) (o :: ox :: oy :: kbords kx ++ kbords ky ++ RBr) ->
  branch_of a' ox = Some bx' -> branchv bx' sx' (kc <$> kx') -> branch_of a' oy = Some by' -> branchv by' sy' (kc <$> ky') -> branchv b' (S1 ++ t :: S2) (kc <$> K1 ++ PNode ox sx' kx' :: PNode oy sy' ky' :: K2) ->
  sx' ++ t :: sy' = sx ++ s :: sy -> kx' ++ ky' = kx ++ ky -> length kx' = S (length sx') -> length ky' = S (length sy') -> (3 <= length sx' <= 15)%nat -> (3 <= length sy' <= 15)%nat ->
  mended mb a a' (S (S l)) p (regrown o S1 S2 K1 K2 (Two (PNode ox sx' kx') t (PNode oy sy' ky'))) RL RB.
Proof.
  intros Hown' Hx' Vx Hy' Vy Vb Es Ek Lx Ly Zx Zy. destruct (bp_lx _ _ Hp) as [Lx0 _], (bp_ly _ _ Hp) as [Ly0 _]. pose proof after_kids as Hak. rewrite <- Ek in Hak. apply Forall_app in Hak as [Hax Hay].
  assert (EF : flat (PNode ox sx' kx') ++ ISep t :: flat (PNode oy sy' ky') = flat x ++ ISep s :: flat y). { cbn [flat]. rewrite <- !weave_app by (rewrite length_map; lia). rewrite <- !map_app, Es, Ek. done. }
  assert (EL : klinks kx' ++ klinks ky' = klinks kx ++ klinks ky) by (by rewrite <- !klinks_app, Ek). assert (ELo : klords kx' ++ klords ky' = klords kx ++ klords ky) by (by rewrite <- !klords_app, Ek). assert (EB : kbords kx' ++ kbords ky' = kbords kx ++ kbords ky) by (by rewrite <- !kbords_app, Ek).
  apply (pair_mended mb a (S l)) with (b' := b'); try done.
  - cbn [fkids]. constructor; [|constructor; [|constructor]]; (split; [|cbn; lia]); apply stands_node; [exists bx'|exists by']; split_and!; (done || lia).
  - cbn [fflat]. rewrite EF, ents_app. done.
  - cbn [fflat]. rewrite EF. apply refit_refl.
  - intros hd tl. cbn [flinks leaf_links]. fold (klinks kx') (klinks ky') (klinks kx) (klinks ky). by rewrite EL.
  - rewrite flords_two, !lords_knode, ELo. cbn [fbords]. rewrite !bords_knode. eapply own_perm; [exact Hown'|solve_Permutation|]. change ((ox :: kbords kx') ++ oy :: kbords ky') with (ox :: kbords kx' ++ oy :: kbords ky'). rewrite <- (Permutation_middle (kbords kx')), EB. solve_Permutation.
  - eapply frame_sub; [apply after_frame|clear; set_solver|clear; set_solver].
  - by rewrite Hlv.
  - left. split; [|done]. by rewrite flords_two, !lords_knode, ELo.
Qed.
End after.

End rotate.

(** What the three operations share. *)
Section ops.
Context (mb : Z -> bytes).
Context (a : arena) (l : nat) (o : Z) (S1 S2 : list ent) (K1 K2 : list ptree) (RL RB : list Z) (s : ent) (b : abranch) (ox oy : Z).
Hypothesis (H1 : length K1 = length S1) (H2 : length K2 = length S2) (Hk1 : Forall (kid a (S (S l))) K1) (Hk2 : Forall (kid a (S (S l))) K2) (Hmax : (length (S1 ++ s :: S2) <= 15)%nat) (Ha : arena_ok a) (Hb : branch_of a o = Some b).

(** One child moved from the right neighbour. *)
Lemma branchBorrowRight_ok sx kx t sy c ky : branchv b (S1 ++ s :: S2) (kc <$> K1 ++ PNode ox sx kx :: PNode oy (t :: sy) (c :: ky) :: K2) -> stands a (S (S l)) (PNode ox sx kx) -> stands a (S (S l)) (PNode oy (t :: sy) (c :: ky)) ->
  own a (lords (regrown o S1 S2 K1 K2 (Two (PNode ox sx kx) s (PNode oy (t :: sy) (c :: ky)))) ++ RL) (bords (regrown o S1 S2 K1 K2 (Two (PNode ox sx kx) s (PNode oy (t :: sy) (c :: ky)))) ++ RB) ->
  pcount (PNode ox sx kx) + pcount (PNode oy (t :: sy) (c :: ky)) < two32 -> (2 <= length sx < 15)%nat -> (3 <= length sy)%nat ->
  exists a' p', branchBorrowRight (enc a) o (zlen S1) ox oy = Ok (enc a') /\ mended mb a a' (S (S l)) (regrown o S1 S2 K1 K2 (Two (PNode ox sx kx) s (PNode oy (t :: sy) (c :: ky)))) p' RL RB.
Proof.
  intros Hv Hx Hy Hown Hcnt Zx Zy. destruct (the_pair a l o S1 S2 K1 K2 RL RB s b ox oy sx (t :: sy) kx (c :: ky) H1 H2 Hmax Hb Hx Hy Hown) as (bx & by_ & Hp). pose proof Hp as [X1 X2 Y1 Y2 X3 Y3 [X4 X5] [Y4 Y5] (N1 & N2 & N3) (P1 & P2 & P3) Hout Hw]. injection Y4 as Y4. unfold branchBorrowRight.
  rewrite (branch_keys _ _ _ _ _ Ha X1 X2). destruct (node_sep a o b Ha Hb _ _ _ _ (zlen S1) Hv eq_refl) as (-> & -> & Hse). rewrite fmap_cons in Y2.
  assert (Hkc : kid_ok (kc c)) by (destruct (node_kid a oy by_ Ha Y1 _ [] _ _ 0 Y2 eq_refl) as (_ & _ & ?); done). assert (Hte : ent_ok t) by (destruct (node_sep a oy by_ Ha Y1 [] _ _ _ 0 Y2 eq_refl) as (_ & _ & ?); done).
  destruct (node_push a ox bx sx (kc <$> kx) s (kc c) Ha X1 X2) as (b1 & -> & Q1 & b2 & E2 & Q2 & b3 & E3 & Q3 & b4 & E4 & Q4 & V4); try done; [by rewrite length_fmap|lia|].
  assert (HR : forall b0, branch_ok b0 -> arena_ok (upd_branch a ox b0) /\ branch_of (upd_branch a ox b0) oy = Some by_ /\ branch_of (upd_branch a ox b0) o = Some b) by (intros b0 Hb0; split; [by apply arena_ok_upd_branch|]; rewrite !branch_of_upd_ne by done; done).
  destruct (HR b1 Q1) as (Ha1 & Hy1 & _). destruct (node_kid _ oy by_ Ha1 Hy1 _ [] _ _ 0 Y2 eq_refl) as (-> & _ & _). rewrite E2. destruct (HR b2 Q2) as (Ha2 & Hy2 & _). destruct (node_kid _ oy by_ Ha2 Hy2 _ [] _ _ 0 Y2 eq_refl) as (_ & -> & _). rewrite E3, E4. destruct (HR b4 Q4) as (Ha4 & Hy4 & Ho4). set (a4 := upd_branch a ox b4) in *.
  destruct (node_kid _ oy by_ Ha4 Hy4 _ [] _ _ 0 Y2 eq_refl) as (_ & -> & _). destruct (node_sep _ oy by_ Ha4 Hy4 [] _ _ _ 0 Y2 eq_refl) as (-> & -> & _). destruct (node_set_sep a4 o b Ha4 Ho4 _ _ _ _ (zlen S1) t Hv eq_refl Hte) as (b5 & -> & Q5 & V5). set (a5 := upd_branch a4 o b5). assert (Ha5 : arena_ok a5) by (by apply arena_ok_upd_branch).
  assert (Hy5 : branch_of a5 oy = Some by_) by (unfold a5; rewrite branch_of_upd_ne; done). rewrite (branch_keys _ _ _ _ _ Ha5 Hy5 Y2). destruct (node_shift_out a5 oy by_ Ha5 Hy5 t sy (kc c) (kc <$> ky) Y2) as (b6 & -> & Q6 & b7 & -> & Q7 & b8 & -> & Q8 & V8); [by rewrite length_fmap|].
  set (a8 := upd_branch a5 oy b8). assert (Ha8 : arena_ok a8) by (by apply arena_ok_upd_branch). assert (Ho8 : branch_of a8 o = Some b5) by (unfold a8; rewrite branch_of_upd_ne by done; by eapply branch_of_upd). rewrite fmap_app, !fmap_cons in V5.
  pose proof (pcount_nonneg (PNode ox sx kx)). pose proof (pcount_nonneg c). assert (Ey : pcount (PNode oy (t :: sy) (c :: ky)) = pcount c + pcount (PNode oy sy ky)) by (rewrite !pcount_node by (cbn; lia); done). assert (Ex : pcount (PNode ox (sx ++ [s]) (kx ++ [c])) = pcount (PNode ox sx kx) + pcount c) by (rewrite !pcount_node by (rewrite ?length_app; cbn; lia); rewrite map_app, sum_app; unfold sum; cbn; lia). pose proof (pcount_nonneg (PNode oy sy ky)).
  destruct (shift_right_ok a8 o b5 S1 S2 t (kc <$> K1) (kc <$> K2) _ _ Ha8 Ho8 V5) with (n := pcount c) as (b9 & E9 & Q9 & V9); [by rewrite length_fmap|by rewrite length_fmap|unfold kc; cbn [snd]; lia|unfold kc; cbn [snd]; lia|]. cbn [kc snd] in E9. change (kc c).2 with (pcount c). rewrite E9. set (a9 := upd_branch a8 o b9).
  exists a9, (regrown o S1 S2 K1 K2 (Two (PNode ox (sx ++ [s]) (kx ++ [c])) t (PNode oy sy ky))). split; [done|].
  apply (rotated mb a l o S1 S2 K1 K2 RL RB s ox oy sx (t :: sy) kx (c :: ky) H1 H2 Hk1 Hk2 Hmax bx by_ a9 b9 Hp) with (bx' := b4) (by' := b8); try done.
  - by apply arena_ok_upd_branch.
  - intros o' ? ? ?. unfold a9, a8, a5, a4. by rewrite !branch_of_upd_ne by congruence.
  - unfold a9, a8, a5, a4. by rewrite !zlen_upd_branch.
  - by eapply branch_of_upd.
  - unfold a9, a8, a5, a4. by repeat apply own_upd_branch.
  - unfold a9, a8, a5. rewrite !(branch_of_upd_ne _ _ ox) by congruence. by eapply branch_of_upd.
  - by rewrite fmap_app.
  - unfold a9. rewrite branch_of_upd_ne by congruence. by eapply branch_of_upd.
  - rewrite fmap_app, !fmap_cons. unfold kc at 2 3. cbn [pord]. rewrite Ex. cbn [kc fst snd pord] in V9. rewrite Ey in V9. replace (pcount c + pcount (PNode oy sy ky) - pcount c) with (pcount (PNode oy sy ky)) in V9 by lia. exact V9.
  - by rewrite <- (assoc_L (++)).
  - by rewrite <- (assoc_L (++)).
  - rewrite !length_app. cbn. lia.
  - rewrite length_app. cbn. lia.
  - cbn in Y5. lia.
Qed.

(** One child moved from the left neighbour. *)
Lemma branchBorrowLeft_ok sx t kx z sy ky : branchv b (S1 ++ s :: S2) (kc <$> K1 ++ PNode ox (sx ++ [t]) (kx ++ [z]) :: PNode oy sy ky :: K2) -> stands a (S (S l)) (PNode ox (sx ++ [t]) (kx ++ [z])) -> stands a (S (S l)) (PNode oy sy ky) ->
  own a (lords (regrown o S1 S2 K1 K2 (Two (PNode ox (sx ++ [t]) (kx ++ [z])) s (PNode oy sy ky))) ++ RL) (bords (regrown o S1 S2 K1 K2 (Two (PNode ox (sx ++ [t]) (kx ++ [z])) s (PNode oy sy ky))) ++ RB) ->
  pcount (PNode ox (sx ++ [t]) (kx ++ [z])) + pcount (PNode oy sy ky) < two32 -> (3 <= length sx)%nat -> (2 <= length sy < 15)%nat ->
  exists a' p', branchBorrowLeft (enc a) o (zlen S1) ox oy = Ok (enc a') /\ mended mb a a' (S (S l)) (regrown o S1 S2 K1 K2 (Two (PNode ox (sx ++ [t]) (kx ++ [z])) s (PNode oy sy ky))) p' RL RB.
Proof.
  intros Hv Hx Hy Hown Hcnt Zx Zy. destruct (the_pair a l o S1 S2 K1 K2 RL RB s b ox oy (sx ++ [t]) sy (kx ++ [z]) ky H1 H2 Hmax Hb Hx Hy Hown) as (bx & by_ & Hp). pose proof Hp as [X1 X2 Y1 Y2 X3 Y3 [X4 X5] [Y4 Y5] (N1 & N2 & N3) (P1 & P2 & P3) Hout Hw]. rewrite !length_app in X4. cbn in X4. rewrite length_app in X5. cbn in X5.
  unfold branchBorrowLeft. rewrite (branch_keys _ _ _ _ _ Ha X1 X2). rewrite zlen_snoc. rewrite fmap_app in X2. cbn [fmap list_fmap] in X2. assert (EK : zlen sx + 1 = zlen (kc <$> kx)) by (unfold zlen; rewrite length_fmap; lia). destruct (node_kid a ox bx Ha X1 _ _ _ _ (zlen sx + 1) X2 EK) as (_ & -> & Hkz). cbn [kc snd]. rewrite (branch_keys _ _ _ _ _ Ha Y1 Y2).
  destruct (node_sep a o b Ha Hb _ _ _ _ (zlen S1) Hv eq_refl) as (_ & _ & Hse). assert (Hte : ent_ok t) by (destruct (node_sep a ox bx Ha X1 _ _ _ _ (zlen sx) X2 eq_refl) as (_ & _ & ?); done).
  destruct (node_unshift a oy by_ sy (kc <$> ky) s (kc z) Ha Y1 Y2) as (b1 & -> & Q1 & b2 & -> & Q2 & b3 & E3 & Q3 & b4 & E4 & Q4 & b5 & E5 & Q5 & b6 & E6 & Q6 & V6); try done; [by rewrite length_fmap|lia|].
  assert (HR : forall b0, branch_ok b0 -> arena_ok (upd_branch a oy b0) /\ branch_of (upd_branch a oy b0) ox = Some bx /\ branch_of (upd_branch a oy b0) o = Some b) by (intros b0 Hb0; split; [by apply arena_ok_upd_branch|]; rewrite !branch_of_upd_ne by done; done).
  destruct (HR b2 Q2) as (Ha2 & _ & Ho2). destruct (node_sep _ o b Ha2 Ho2 _ _ _ _ (zlen S1) Hv eq_refl) as (-> & -> & _). rewrite E3. destruct (HR b3 Q3) as (Ha3 & Hx3 & _). destruct (node_kid _ ox bx Ha3 Hx3 _ _ _ _ (zlen sx + 1) X2 EK) as (-> & _ & _). rewrite E4. change (kc z).2 with (pcount z) in E5. rewrite E5, E6.
  destruct (HR b6 Q6) as (Ha6 & Hx6 & Ho6). set (a6 := upd_branch a oy b6) in *. replace (zlen sx + 1 - 1) with (zlen sx) by lia. destruct (node_sep _ ox bx Ha6 Hx6 _ _ _ _ (zlen sx) X2 eq_refl) as (-> & -> & _). destruct (node_set_sep a6 o b Ha6 Ho6 _ _ _ _ (zlen S1) t Hv eq_refl Hte) as (b7 & -> & Q7 & V7). set (a7 := upd_branch a6 o b7). assert (Ha7 : arena_ok a7) by (by apply arena_ok_upd_branch).
  assert (Hx7 : branch_of a7 ox = Some bx) by (unfold a7; rewrite branch_of_upd_ne; done). destruct (node_pop a7 ox bx Ha7 Hx7 t sx (kc z) (kc <$> kx) X2) as (b8 & -> & Q8 & V8). set (a8 := upd_branch a7 ox b8). assert (Ha8 : arena_ok a8) by (by apply arena_ok_upd_branch). assert (Ho8 : branch_of a8 o = Some b7) by (unfold a8; rewrite branch_of_upd_ne by congruence; by eapply branch_of_upd). rewrite fmap_app, !fmap_cons in V7.
  pose proof (pcount_nonneg (PNode oy sy ky)). pose proof (pcount_nonneg z). assert (Ex : pcount (PNode ox (sx ++ [t]) (kx ++ [z])) = pcount (PNode ox sx kx) + pcount z) by (rewrite !pcount_node by (rewrite ?length_app; cbn; lia); rewrite map_app, sum_app; unfold sum; cbn; lia). assert (Ey : pcount (PNode oy (s :: sy) (z :: ky)) = pcount z + pcount (PNode oy sy ky)) by (rewrite !pcount_node by (cbn; lia); done). pose proof (pcount_nonneg (PNode ox sx kx)).
  assert (EK1 : zlen S1 = zlen (kc <$> K1)) by (unfold zlen; rewrite length_fmap; lia). destruct (node_kid a8 o b7 Ha8 Ho8 _ _ _ _ (zlen S1) V7 EK1) as (_ & -> & Hkx). cbn [kc snd]. rewrite sub64_small by lia. destruct (node_set_count a8 o b7 Ha8 Ho8 _ _ _ _ (zlen S1) (pcount (PNode ox (sx ++ [t]) (kx ++ [z])) - pcount z) V7 EK1) as (b9 & -> & Q9 & V9); [unfold is_u32; lia|].
  set (a9 := upd_branch a8 o b9). assert (Ha9 : arena_ok a9) by (by apply arena_ok_upd_branch). assert (Ho9 : branch_of a9 o = Some b9) by (by eapply branch_of_upd). match type of V9 with branchv _ _ (?A ++ ?u :: ?v :: ?B) => change (A ++ u :: v :: B) with (A ++ [u] ++ v :: B) in V9; rewrite (assoc_L (++)) in V9 end.
  assert (EK2 : zlen S1 + 1 = zlen ((kc <$> K1) ++ [((kc (PNode ox (sx ++ [t]) (kx ++ [z]))).1, pcount (PNode ox (sx ++ [t]) (kx ++ [z])) - pcount z)])) by (rewrite zlen_snoc; lia). destruct (node_kid a9 o b9 Ha9 Ho9 _ _ _ _ _ V9 EK2) as (_ & -> & Hky). cbn [kc snd]. rewrite add64_small by lia. destruct (node_set_count a9 o b9 Ha9 Ho9 _ _ _ _ _ (pcount (PNode oy sy ky) + pcount z) V9 EK2) as (b10 & -> & Q10 & V10); [unfold is_u32; lia|]. unfold a9. rewrite upd_branch_upd. set (a10 := upd_branch a8 o b10).
  exists a10, (regrown o S1 S2 K1 K2 (Two (PNode ox sx kx) t (PNode oy (s :: sy) (z :: ky)))). split; [done|].
  apply (rotated mb a l o S1 S2 K1 K2 RL RB s ox oy (sx ++ [t]) sy (kx ++ [z]) ky H1 H2 Hk1 Hk2 Hmax bx by_ a10 b10 Hp) with (bx' := b8) (by' := b6); try done.
  - by apply arena_ok_upd_branch.
  - intros o' ? ? ?. unfold a10, a8, a7, a6. by rewrite !branch_of_upd_ne by congruence.
  - unfold a10, a8, a7, a6. by rewrite !zlen_upd_branch.
  - by eapply branch_of_upd.
  - unfold a10, a8, a7, a6. by repeat apply own_upd_branch.
  - unfold a10. rewrite branch_of_upd_ne by congruence. by eapply branch_of_upd.
  - unfold a10, a8, a7. rewrite !(branch_of_upd_ne _ _ oy) by congruence. by eapply branch_of_upd.
  - rewrite fmap_app, !fmap_cons. unfold kc at 2 3. cbn [pord]. rewrite Ey. rewrite <- (assoc_L (++)) in V10. cbn [kc fst snd pord app] in V10. rewrite Ex in V10. replace (pcount (PNode ox sx kx) + pcount z - pcount z) with (pcount (PNode ox sx kx)) in V10 by lia. by rewrite (Z.add_comm (pcount z)).
  - by rewrite <- (assoc_L (++)).
  - by rewrite <- (assoc_L (++)).
  - lia.
  - cbn. lia.
  - lia.
  - cbn. lia.
Qed.

(** The two neighbours joined. *)
Lemma mergeBranches_ok sx kx sy ky : branchv b (S1 ++ s :: S2) (kc <$> K1 ++ PNode ox sx kx :: PNode oy sy ky :: K2) -> stands a (S (S l)) (PNode ox sx kx) -> stands a (S (S l)) (PNode oy sy ky) ->
  own a (lords (regrown o S1 S2 K1 K2 (Two (PNode ox sx kx) s (PNode oy sy ky))) ++ RL) (bords (regrown o S1 S2 K1 K2 (Two (PNode ox sx kx) s (PNode oy sy ky))) ++ RB) ->
  pcount (PNode ox sx kx) + pcount (PNode oy sy ky) < two32 -> (3 <= length sx + 1 + length sy <= 15)%nat ->
  exists a' p', mergeBranches (enc a) o (zlen S1) = Ok (enc a') /\ mended mb a a' (S (S l)) (regrown o S1 S2 K1 K2 (Two (PNode ox sx kx) s (PNode oy sy ky))) p' RL RB.
Proof.
  intros Hv Hx Hy Hown Hcnt Zxy. destruct (the_pair a l o S1 S2 K1 K2 RL RB s b ox oy sx sy kx ky H1 H2 Hmax Hb Hx Hy Hown) as (bx & by_ & Hp). pose proof Hp as [X1 X2 Y1 Y2 X3 Y3 [X4 X5] [Y4 Y5] (N1 & N2 & N3) (P1 & P2 & P3) Hout Hw].
  pose proof Hv as Hv0. rewrite fmap_app, !fmap_cons in Hv0. unfold mergeBranches. pose proof H1 as H1'. pose proof H2 as H2'. rewrite <- (length_fmap kc) in H1', H2'. destruct (pair_reads a o b S1 S2 s (kc <$> K1) (kc <$> K2) _ _ Ha Hb Hv0 H1' H2') as (_ & -> & -> & _). cbn [kc pord fst]. rewrite (branch_keys _ _ _ _ _ Ha X1 X2), (branch_keys _ _ _ _ _ Ha Y1 Y2). destruct (node_sep a o b Ha Hb _ _ _ _ (zlen S1) Hv eq_refl) as (-> & -> & Hse).
  destruct (node_absorb a ox oy bx by_ sx (kc <$> kx) s sy (kc <$> ky) Ha X1 Y1 X2 Y2 N1) as (b1 & -> & Q1 & b2 & -> & Q2 & b3 & -> & Q3 & b4 & -> & Q4 & V4); [by rewrite length_fmap|by rewrite length_fmap|lia|done|]. set (a4 := upd_branch a ox b4). assert (Ha4 : arena_ok a4) by (by apply arena_ok_upd_branch).
  rewrite freeBranch_enc. set (a5 := free_branch a4 oy). assert (Ha5 : arena_ok a5) by (by apply arena_rest). assert (Ho5 : branch_of a5 o = Some b) by (change (branch_of a5 o) with (branch_of a4 o); unfold a4; rewrite branch_of_upd_ne; done).
  destruct (bDropChild_ok a5 o b S1 S2 s (kc <$> K1) (kc <$> K2) _ _ Ha5 Ho5 Hv0 H1' H2') as (b6 & -> & Q6 & V6); [exact Hcnt|]. set (a6 := upd_branch a5 o b6). cbn [kc fst snd pord] in V6. assert (Ez : pcount (PNode ox (sx ++ s :: sy) (kx ++ ky)) = pcount (PNode ox sx kx) + pcount (PNode oy sy ky)) by (rewrite !pcount_node by (rewrite ?length_app; cbn; lia); by rewrite map_app, sum_app).
  assert (Hfr : tree_frame a a6 (klords kx ++ klords ky ++ klords K1 ++ klords K2 ++ RL) (kbords kx ++ kbords ky ++ kbords K1 ++ kbords K2 ++ RB)). { split; [done| |done]. intros o' Ho'. destruct (Hout o' Ho') as (O1 & O2 & O3). unfold a6. rewrite branch_of_upd_ne by congruence. change (branch_of a5 o') with (branch_of a4 o'). unfold a4. by rewrite branch_of_upd_ne by congruence. }
  exists a6, (regrown o S1 S2 K1 K2 (One (PNode ox (sx ++ s :: sy) (kx ++ ky)))). split; [done|]. apply (pair_mended mb a (S l)) with (b' := b6); try done.
  - by apply arena_ok_upd_branch.
  - by eapply branch_of_upd.
  - cbn [fkids fseps app]. rewrite fmap_app, fmap_cons. unfold kc at 2. cbn [pord]. by rewrite Ez.
  - cbn [fkids]. constructor; [|constructor]. split; [|cbn; rewrite length_app; cbn; lia]. apply stands_node. exists b4. split_and!.
    + unfold a6. rewrite branch_of_upd_ne by congruence. change (branch_of a5 ox) with (branch_of a4 ox). by eapply branch_of_upd.
    + by rewrite fmap_app.
    + apply Forall_app. split; [eapply kids_frame; [exact X3|exact Hfr|clear; set_solver|clear; set_solver]|eapply kids_frame; [exact Y3|exact Hfr|clear; set_solver|clear; set_solver]].
    + rewrite !length_app. cbn. lia.
    + rewrite length_app. cbn. lia.
  - cbn [fflat flat]. rewrite map_app, weave_app by (rewrite length_map; lia). rewrite ents_app. done.
  - cbn [fflat flat]. rewrite map_app, weave_app by (rewrite length_map; lia). apply refit_refl.
  - intros hd tl. cbn [flinks leaf_links]. by rewrite map_app, concat_app.
  - unfold a6. apply own_upd_branch. unfold a5. apply own_free_branch. unfold a4. apply own_upd_branch. change (flords (One (PNode ox (sx ++ s :: sy) (kx ++ ky)))) with (klords (kx ++ ky)). cbn [fbords]. rewrite bords_knode, klords_app, kbords_app. eapply own_perm; [exact Hw|solve_Permutation|solve_Permutation].
  - eapply frame_sub; [exact Hfr|clear; set_solver|clear; set_solver].
  - unfold a6. rewrite zlen_upd_branch. cbn [free_branch upd_rest ar_branches a5]. unfold a4. by rewrite zlen_upd_branch.
  - left. split; [|done]. change (flords (One (PNode ox (sx ++ s :: sy) (kx ++ ky)))) with (klords (kx ++ ky)). by rewrite klords_app.
Qed.
End ops.
