(* ===== verification/TreeDelete.v ===== *)
(** Removal from a subtree of the counted tree: the way back up mends what the leaf's loss of an
    entry broke, whichever descent found the entry, by key, by position or at either end
    (engine/f3/struct/tree.go, tree_pop.go: [fixBranchUnderflow], [deleteFrom], [deleteAtFrom],
    [popMinFrom], [popMaxFrom]). *)

From stdpp Require Import sorting.
From S2P Require Import Prelude Ordered TreeBlocks TreeArrays TreeOps TreeShape TreeNodes TreeBranches TreeSearch TreeInsert TreeGrow TreeRep TreeReads TreeRemove TreeMend.
#[local] Open Scope Z_scope.
#[local] Set Warnings "-register-all".

Section delete.
Context (mb : Z -> bytes).

(** ** An underfilled branch *)

Lemma stands_keys a l o seps kids : arena_ok a -> stands a (S (S l)) (PNode o seps kids) -> bNkeys (enc a) o = Ok (zlen seps) /\ length kids = S (length seps) /\ (length seps <= 15)%nat.
Proof. intros Ha (b & Hb & Hv & _ & Hlen & Hmax)%stands_node. split; [by eapply branch_keys|done]. Qed.

Lemma pair_count o seps K1 x y K2 : length (K1 ++ x :: y :: K2) = S (length seps) -> pcount x + pcount y <= pcount (PNode o seps (K1 ++ x :: y :: K2)).
Proof. intros H. rewrite pcount_node by done. rewrite map_app, sum_app. unfold sum at 2. cbn. fold (sum (map pcount K2)). pose proof (sum_pcount_nonneg K1). pose proof (sum_pcount_nonneg K2). lia. Qed.

Lemma fixBranchUnderflow_ok a l o seps K1 c K2 RL RB b : loose a (S l) o seps K1 c K2 RL RB b -> psize c = 2%nat -> pcount (PNode o seps (K1 ++ c :: K2)) < two32 ->
  exists a' p', fixBranchUnderflow (enc a) o (zlen K1) = Ok (enc a') /\ mended mb a a' (S (S l)) (PNode o seps (K1 ++ c :: K2)) p' RL RB.
Proof.
  intros HL Hc Hcnt. pose proof HL as [Ha Hb Hv Hk1 Hsc Hk2 Hlen Hmax Hsome Hown]. destruct (stands_node_inv a l c Hsc) as (oc & sc & kc' & -> & Lc). cbn in Hc. unfold fixBranchUnderflow. destruct (neighbour _ _ _ _ _ _ _ _ _ _ HL) as [(S1 & s & S2 & y & K2' & -> & -> & H1 & H2)|(S1 & s & K1' & x & -> & -> & -> & H1)].
  - apply Forall_cons in Hk2 as [[Hsy Hfy] Hk2]. destruct (stands_node_inv a l y Hsy) as (oy & sy & ky & -> & Ly). pose proof Hv as Hv0. rewrite fmap_app, !fmap_cons in Hv0. destruct (pair_reads a o b S1 S2 s (kc <$> K1) (kc <$> K2') _ _ Ha Hb Hv0) as (-> & R1 & R2 & _); [by rewrite length_fmap..|]. assert (EK : zlen K1 = zlen S1) by (unfold zlen; lia). rewrite EK, R1, R2. cbn [kc pord fst].
    destruct (Z.ltb_spec (zlen S1) (zlen S1 + 1 + zlen S2)) as [_|Hge]; [|pose proof (zlen_nonneg S2); lia]. destruct (stands_keys _ _ _ _ _ Ha Hsy) as (-> & _ & My). pose proof (pair_count o _ _ _ _ _ Hlen) as Hpc. cbn in Hfy. change branchMin with 3.
    destruct (Z.ltb_spec 3 (zlen sy)) as [Hlt|Hge].
    + destruct sy as [|t sy]; [done|]. destruct ky as [|d ky]; [done|]. destruct (branchBorrowRight_ok mb a l o S1 S2 K1 K2' RL RB s b oc oy) with (sx := sc) (kx := kc') (t := t) (sy := sy) (c := d) (ky := ky) as (a' & p' & E & Hm); try done; try lia; [unfold zlen in Hlt; cbn in Hlt; lia|]. exists a', p'. done.
    + destruct (mergeBranches_ok mb a l o S1 S2 K1 K2' RL RB s b oc oy) with (sx := sc) (kx := kc') (sy := sy) (ky := ky) as (a' & p' & E & Hm); try done; [lia|unfold zlen in Hge; lia|]. exists a', p'. done.
  - apply Forall_app in Hk1 as [Hk1 [[Hsx Hfx] _]%Forall_cons]. destruct (stands_node_inv a l x Hsx) as (ox & sx & kx & -> & Lx). pose proof Hv as Hv0. rewrite <- (assoc_L (++)), fmap_app in Hv0. cbn [fmap list_fmap app] in Hv0. destruct (pair_reads a o b S1 [] s (kc <$> K1') [] _ _ Ha Hb Hv0) as (-> & R1 & R2 & _); [by rewrite length_fmap|done|]. rewrite zlen_snoc. assert (EK : zlen K1' = zlen S1) by (unfold zlen; lia). rewrite EK, R2. replace (zlen S1 + 1 - 1) with (zlen S1) by lia. rewrite R1. cbn [kc pord fst]. change (zlen []) with 0.
    destruct (Z.ltb_spec (zlen S1 + 1) (zlen S1 + 1 + 0)) as [Hlt|_]; [lia|]. destruct (stands_keys _ _ _ _ _ Ha Hsx) as (-> & _ & Mx). cbn in Hfx. change branchMin with 3.
    rewrite <- (assoc_L (++)) in Hv, Hown, Hlen, Hcnt |- *. cbn [app] in *. pose proof (pair_count o _ _ _ _ _ Hlen) as Hpc. destruct (Z.ltb_spec 3 (zlen sx)) as [Hlt|Hge].
    + destruct sx as [|t sx _] using rev_ind; [done|]. destruct kx as [|z kx _] using rev_ind; [done|]. rewrite zlen_snoc in Hlt. destruct (branchBorrowLeft_ok mb a l o S1 [] K1' [] RL RB s b ox oc) with (sx := sx) (t := t) (kx := kx) (z := z) (sy := sc) (ky := kc') as (a' & p' & E & Hm); try done; try lia; [unfold zlen in Hlt; lia|]. exists a', p'. done.
    + destruct (mergeBranches_ok mb a l o S1 [] K1' [] RL RB s b ox oc) with (sx := sx) (kx := kx) (sy := sc) (ky := kc') as (a' & p' & E & Hm); try done; [lia|unfold zlen in Hge; lia|]. exists a', p'. done.
Qed.

(** ** A subtree that lost an entry *)

Record shrunk (a a' : arena) (l : nat) (p p' : ptree) (X : list ent) (e : ent) (Y : list ent) (RL RB : list Z) : Prop := {
  sh_ok : arena_ok a';
  sh_nodes : stands a' l p';
  sh_ord : pord p' = pord p;
  sh_size : (psize p <= psize p' + 1)%nat /\ (psize p' <= psize p)%nat;
  sh_before : pents p = X ++ e :: Y;
  sh_after : pents p' = X ++ Y;
  sh_refit : refit mb (flat p) (flat p');
  sh_chain : forall hd tl, chain (leaf_links p) hd tl -> chain (leaf_links p') hd tl;
  sh_own : own a' (lords p' ++ RL) (bords p' ++ RB);
  sh_frame : tree_frame a a' RL RB;
  sh_edges : (lords p' = lords p /\ edges a' = edges a) \/ no_edges a'
}.

(** The entries in front of and behind the children. *)
Definition kents (K : list ptree) : list ent := concat (map pents K).

Lemma pents_split o seps K1 c K2 : length (K1 ++ c :: K2) = S (length seps) -> pents (PNode o seps (K1 ++ c :: K2)) = kents K1 ++ pents c ++ kents K2.
Proof. intros H. rewrite pents_node by done. unfold kents. by rewrite map_app, map_cons, concat_app, concat_cons. Qed.

Section up.
Context (a a1 : arena) (l : nat) (o : Z) (S1 S2 : list ent) (K1 K2 : list ptree) (c c' : ptree) (X : list ent) (e : ent) (Y : list ent) (RL RB : list Z) (b : abranch).
#[local] Abbreviation p := (PNode o (S1 ++ S2) (K1 ++ c :: K2)).
#[local] Abbreviation pm := (PNode o (S1 ++ S2) (K1 ++ c' :: K2)).
#[local] Abbreviation RLc := (klords K1 ++ klords K2 ++ RL).
#[local] Abbreviation RBc := (o :: kbords K1 ++ kbords K2 ++ RB).
Hypothesis (H1 : length K1 = length S1) (H2 : length K2 = length S2) (Hmax : (length (S1 ++ S2) <= 15)%nat) (Hne : S1 ++ S2 <> []).
Hypothesis (Hb : branch_of a o = Some b) (Hv : branchv b (S1 ++ S2) (kc <$> K1 ++ c :: K2)) (Hkids : Forall (kid a (S l)) (K1 ++ c :: K2)) (Hcnt : pcount p < two32).
Hypothesis Hsh : shrunk a a1 (S l) c c' X e Y RLc RBc.

Lemma up_len : length (K1 ++ c' :: K2) = S (length (S1 ++ S2)).
Proof. rewrite !length_app. cbn. lia. Qed.

Lemma up_count : pcount c' = pcount c - 1 /\ 0 <= pcount c' /\ pcount c < two32 /\ pcount pm < two32.
Proof.
  assert (E : pcount c' = pcount c - 1) by (unfold pcount; rewrite (sh_before _ _ _ _ _ _ _ _ _ _ Hsh), (sh_after _ _ _ _ _ _ _ _ _ _ Hsh), !zlen_app, zlen_cons; lia). pose proof (pcount_nonneg c'). split_and!; try done.
  - pose proof (pcount_le o (S1 ++ S2) (K1 ++ c :: K2) c) as Hle. assert (pcount c <= pcount p); [|lia]. apply Hle; [rewrite !length_app; cbn; lia|apply elem_of_app; right; left].
  - assert (pcount pm <= pcount p); [|lia]. rewrite !pcount_node by (rewrite !length_app; cbn; lia). rewrite !map_app, !sum_app, !map_cons. unfold sum. cbn. lia.
Qed.

(** The counts corrected, before the child's fill is looked at. *)
Lemma up_loose : exists b1, (let* n := bCount (enc a1) o (zlen S1) in bSetCount (enc a1) o (zlen S1) (sub64 n 1)) = Ok (enc (upd_branch a1 o b1)) /\ loose (upd_branch a1 o b1) l o (S1 ++ S2) K1 c' K2 RL RB b1 /\ tree_frame a (upd_branch a1 o b1) RL RB.
Proof.
  destruct up_count as (Ec & E0 & Elt & _). pose proof Hsh as [Q1 Q2 Q3 Q4 Q5 Q6 Q7 Q8 Q9 Q10 Q11]. assert (Hb1 : branch_of a1 o = Some b) by (rewrite (fr_branches _ _ _ _ Q10); [done|left]). pose proof (branch_of_range _ _ _ Hb1) as Ro.
  pose proof Hv as Hv0. rewrite fmap_app, fmap_cons in Hv0. assert (EK : zlen S1 = zlen (kc <$> K1)) by (unfold zlen; by rewrite length_fmap, H1). destruct (node_kid a1 o b Q1 Hb1 _ _ _ _ _ Hv0 EK) as (_ & -> & _). cbn [kc snd]. rewrite sub64_small by lia.
  destruct (node_set_count a1 o b Q1 Hb1 _ _ _ _ _ (pcount c - 1) Hv0 EK) as (b1 & -> & Ok1 & V1); [unfold is_u32; lia|]. exists b1. split; [done|]. assert (Hno : o ∉ bords c' ++ kbords K1 ++ kbords K2 ++ RB). { apply own_NoDup in Q9 as [_ Q9]. rewrite <- Permutation_middle in Q9. by apply NoDup_cons in Q9 as [? _]. }
  assert (Hfr : tree_frame a1 (upd_branch a1 o b1) (lords c' ++ RLc) (bords c' ++ kbords K1 ++ kbords K2 ++ RB)) by (apply frame_upd_branch; [lia|done]). apply Forall_app in Hkids as [Hk1 [_ Hk2]%Forall_cons]. split.
  - split; try done.
    + by apply arena_ok_upd_branch.
    + by eapply branch_of_upd.
    + rewrite fmap_app, fmap_cons. unfold kc at 2. rewrite Ec, Q3. done.
    + eapply kids_frame; [eapply kids_frame; [exact Hk1|exact Q10|clear; set_solver|clear; set_solver]|exact Hfr|clear; set_solver|clear; set_solver].
    + eapply stands_frame; [exact Q2|intros; done|]. intros o' Ho'. apply (fr_branches _ _ _ _ Hfr), elem_of_app. by left.
    + eapply kids_frame; [eapply kids_frame; [exact Hk2|exact Q10|clear; set_solver|clear; set_solver]|exact Hfr|clear; set_solver|clear; set_solver].
    + apply up_len.
    + apply own_upd_branch. rewrite lords_knode, bords_knode, klords_app, kbords_app, klords_cons, kbords_cons. eapply own_perm; [exact Q9|solve_Permutation|solve_Permutation].
  - eapply frame_trans; [eapply frame_sub; [exact Q10|clear; set_solver|clear; set_solver]|]. eapply frame_sub; [exact Hfr|clear; set_solver|clear; set_solver].
Qed.

Lemma loose_settled a2 b1 : loose a2 l o (S1 ++ S2) K1 c' K2 RL RB b1 -> full c' -> mended mb a2 a2 (S l) pm pm RL RB.
Proof.
  intros [L1 L2 L3 L4 L5 L6 L7 L8 L9 L10] Hf. split; try done; [|lia|apply refit_refl|by left]. apply stands_node. exists b1. split_and!; try done. apply Forall_app. split; [done|]. by constructor.
Qed.

Lemma full_psize a0 m q : stands a0 (S m) q -> full q <-> (if bool_decide (m = O) then 7 <= psize q else 3 <= psize q)%nat.
Proof. intros [_ Hs]. inversion Hs; subst; case_bool_decide; (done || lia). Qed.

(** The fill of the child, mended when it fell below the least. *)
Lemma refill a2 b1 : loose a2 l o (S1 ++ S2) K1 c' K2 RL RB b1 -> exists a' p',
  (if bool_decide (l = O) then let* n := lNent (enc a2) (pord c) in if n <? leafMin then fixLeafUnderflow (enc a2) o (zlen S1) else Ok (enc a2)
   else let* k := bNkeys (enc a2) (pord c) in if k <? branchMin then fixBranchUnderflow (enc a2) o (zlen S1) else Ok (enc a2)) = Ok (enc a') /\ mended mb a2 a' (S l) pm p' RL RB.
Proof.
  intros HL. pose proof HL as [L1 L2 L3 L4 L5 L6 L7 L8 L9 L10]. destruct up_count as (_ & _ & _ & Hpm). assert (Hc : kid a (S l) c) by (rewrite Forall_forall in Hkids; apply Hkids, elem_of_app; right; left). destruct Hc as [Hc Hf]. apply (full_psize _ _ _ Hc) in Hf. pose proof (full_psize _ _ _ L5) as Hf'. destruct (sh_size _ _ _ _ _ _ _ _ _ _ Hsh) as [Z1 Z2]. rewrite <- (sh_ord _ _ _ _ _ _ _ _ _ _ Hsh). replace (zlen S1) with (zlen K1) by (unfold zlen; lia).
  assert (Hkeep : full c' -> exists a' p', Ok (enc a2) = (Ok (enc a') : P Tree) /\ mended mb a2 a' (S l) pm p' RL RB) by (intros Hfull; exists a2, pm; split; [done|by eapply loose_settled]).
  case_bool_decide as El.
  - subst l. destruct (stands_leaf_inv _ _ L5) as (oc & nc & ec & ->). assert (Hn : lNent (enc a2) oc = Ok (zlen ec)) by (destruct L5 as [Hh _]; inversion Hh; subst; by eapply leaf_size). cbn [pord psize] in *. rewrite Hn. change leafMin with 7. destruct (Z.ltb_spec (zlen ec) 7) as [Hlt|Hge]; unfold zlen in *.
    + eapply fixLeafUnderflow_ok; [done|cbn; lia].
    + apply Hkeep, Hf'. lia.
  - destruct l as [|m]; [done|]. destruct (stands_node_inv _ _ _ L5) as (oc & sc & kc' & -> & _). destruct (stands_keys _ _ _ _ _ L1 L5) as (Hn & _). cbn [pord psize] in *. rewrite Hn. change branchMin with 3. destruct (Z.ltb_spec (zlen sc) 3) as [Hlt|Hge]; unfold zlen in *.
    + eapply fixBranchUnderflow_ok; [done|cbn; lia|done].
    + apply Hkeep, Hf'. lia.
Qed.

Lemma unwind_ok : exists a' p', unwind (enc a1) o (zlen S1) (pord c) (bool_decide (l = O)) = Ok (enc a') /\ shrunk a a' (S (S l)) p p' (kents K1 ++ X) e (Y ++ kents K2) RL RB.
Proof.
  destruct up_loose as (b1 & E1 & HL & Hfr). destruct (refill _ _ HL) as (a' & p' & E2 & [M1 M2 M3 M4 M5 M6 M7 M8 M9 M10 M11]). exists a', p'. pose proof Hsh as [Q1 Q2 Q3 Q4 Q5 Q6 Q7 Q8 Q9 Q10 Q11]. split.
  - unfold unwind. follow E1. exact E2.
  - assert (Lp : length (K1 ++ c :: K2) = S (length (S1 ++ S2))) by (rewrite !length_app; cbn; lia). pose proof up_len as Lm. split; try done.
    + rewrite pents_split by done. rewrite Q5, <- !(assoc_L (++)). done.
    + rewrite M5, pents_split by done. rewrite Q6, <- !(assoc_L (++)). done.
    + eapply refit_trans; [|exact M6]. rewrite !flat_node by done. by apply refit_ctx.
    + intros hd tl Hc. apply M7. revert Hc. change (leaf_links p) with (klinks (K1 ++ c :: K2)). change (leaf_links pm) with (klinks (K1 ++ c' :: K2)). rewrite !klinks_app, !klinks_cons. intros (m1 & C1 & (m2 & C2 & C3)%chain_app)%chain_app. apply chain_app. exists m1. split; [done|]. apply chain_app. exists m2. split; [by apply Q8|done].
    + eapply frame_trans; [exact Hfr|exact M9].
    + change (edges (upd_branch a1 o b1)) with (edges a1) in M11. destruct M11 as [[M11 M12]|M11]; [|by right]. destruct Q11 as [[Q11 Q12]|Q11]; [left|right; unfold no_edges in *; congruence]. split; [|congruence]. rewrite M11, !lords_knode, !klords_app, !klords_cons. congruence.
Qed.
End up.
End delete.

(** ** The descents of a removal *)

Section drop.
Context (mb : Z -> bytes).

(** A node with at least one separator: every inner node, and the root above the leaves. *)
Definition inner (p : ptree) : Prop := match p with PNode _ seps _ => seps <> [] | _ => True end.

Lemma full_inner p : full p -> inner p.
Proof. destruct p as [|? seps]; [done|]. intros H ->. cbn in H. lia. Qed.

Lemma full_count m q : shape m q -> full q -> 7 <= pcount q.
Proof.
  revert q. induction m as [|m IH]; intros q Hs Hf; inversion Hs as [o nx es Hes|l o seps kids Hlen Hmax Hk]; subst; cbn in Hf.
  - unfold pcount, pents. cbn [flat]. rewrite ents_IEnt. unfold zlen. lia.
  - rewrite pcount_node by done. destruct kids as [|c kids]; [done|]. apply Forall_cons in Hk as [[Hc Hfc] _]. specialize (IH c Hc Hfc). unfold sum. cbn. fold (sum (map pcount kids)). pose proof (sum_pcount_nonneg kids). lia.
Qed.

Lemma leaf_shrunk a o nx l' X e Y RL RB : arena_ok a -> stands a 1 (PLeaf o nx (X ++ e :: Y)) -> own a (o :: RL) RB -> leaf_ok l' -> leafv l' (X ++ Y) nx ->
  shrunk mb a (upd_leaf a o l') 1 (PLeaf o nx (X ++ e :: Y)) (PLeaf o nx (X ++ Y)) X e Y RL RB.
Proof.
  intros Ha [Hh Hs] Hown Hok Hv. inversion Hh as [? ? ? l Hl _|]; subst. inversion Hs; subst. pose proof (leaf_of_range _ _ _ Hl). pose proof (own_NoDup _ _ _ Hown) as [[Hn _]%NoDup_cons _]. rewrite length_app in *. cbn in *. split; try done.
  - by apply arena_ok_upd_leaf.
  - split; [|constructor; rewrite length_app; lia]. econstructor; [by eapply leaf_of_upd|done].
  - cbn. rewrite !length_app. cbn. lia.
  - unfold pents. cbn [flat]. by rewrite ents_IEnt.
  - unfold pents. cbn [flat]. by rewrite ents_IEnt.
  - cbn [flat]. rewrite !fmap_app, fmap_cons. apply (refit_drop mb (IEnt <$> X) [IEnt e]).
  - by apply own_upd_leaf.
  - apply frame_upd_leaf; [lia|done].
  - by left.
Qed.

Lemma node_unwind a l o S1 S2 K1 c K2 RL RB : stands a (S (S l)) (PNode o (S1 ++ S2) (K1 ++ c :: K2)) -> length K1 = length S1 -> length K2 = length S2 -> S1 ++ S2 <> [] -> pcount (PNode o (S1 ++ S2) (K1 ++ c :: K2)) < two32 ->
  forall a1 c' X e Y, shrunk mb a a1 (S l) c c' X e Y (klords K1 ++ klords K2 ++ RL) (o :: kbords K1 ++ kbords K2 ++ RB) ->
  exists a' p', unwind (enc a1) o (zlen K1) (pord c) (bool_decide (l = O)) = Ok (enc a') /\ shrunk mb a a' (S (S l)) (PNode o (S1 ++ S2) (K1 ++ c :: K2)) p' (kents K1 ++ X) e (Y ++ kents K2) RL RB.
Proof.
  intros (b & Hb & Hv & Hkids & _ & Hmax)%stands_node H1 H2 Hne Hcnt a1 c' X e Y Hsh. replace (zlen K1) with (zlen S1) by (unfold zlen; lia). by eapply (unwind_ok mb a a1 l o S1 S2 K1 K2 c c').
Qed.

(** What a removal below a node needs of the child. *)
Lemma child_facts a l o S1 S2 K1 c K2 RL RB : stands a (S (S l)) (PNode o (S1 ++ S2) (K1 ++ c :: K2)) -> length K1 = length S1 -> length K2 = length S2 -> pcount (PNode o (S1 ++ S2) (K1 ++ c :: K2)) < two32 ->
  own a (lords (PNode o (S1 ++ S2) (K1 ++ c :: K2)) ++ RL) (bords (PNode o (S1 ++ S2) (K1 ++ c :: K2)) ++ RB) ->
  stands a (S l) c /\ inner c /\ 0 < pcount c < two32 /\ own a (lords c ++ klords K1 ++ klords K2 ++ RL) (bords c ++ o :: kbords K1 ++ kbords K2 ++ RB).
Proof.
  intros (b & Hb & Hv & Hkids & Hlen & Hmax)%stands_node H1 H2 Hcnt Hown. apply Forall_app in Hkids as [_ [[Hc Hf] _]%Forall_cons]. split_and!; [done|by apply full_inner|..].
  - destruct Hc as [_ Hc]. pose proof (full_count _ _ Hc Hf). lia.
  - pose proof (pcount_le o (S1 ++ S2) (K1 ++ c :: K2) c Hlen) as Hle. assert (pcount c <= pcount (PNode o (S1 ++ S2) (K1 ++ c :: K2))); [|lia]. apply Hle, elem_of_app. right. left.
  - by apply (own_child a o S1 S2 K1 K2 c RL RB).
Qed.

Lemma leaf_parts a o nx es RL RB : arena_ok a -> stands a 1 (PLeaf o nx es) -> own a (lords (PLeaf o nx es) ++ RL) (bords (PLeaf o nx es) ++ RB) -> exists l, leaf_of a o = Some l /\ leafv l es nx /\ own a (o :: RL) RB /\ pents (PLeaf o nx es) = es.
Proof. intros Ha [Hh _] Hown. inversion Hh as [? ? ? l Hl Hv|]; subst. exists l. split_and!; try done. unfold pents. cbn [flat]. apply ents_IEnt. Qed.

(** One entry taken out of a leaf. *)
Lemma leaf_take a o nx es l r RL RB : arena_ok a -> stands a 1 (PLeaf o nx es) -> leaf_of a o = Some l -> leafv l es nx -> own a (o :: RL) RB -> 0 <= r < zlen es ->
  exists a' X e Y, leafRemove (enc a) o r = Ok (enc a') /\ shrunk mb a a' 1 (PLeaf o nx es) (PLeaf o nx (X ++ Y)) X e Y RL RB /\ zlen X = r /\ es = X ++ e :: Y /\ entry_at (enc a) o r = Ok e.
Proof.
  intros Ha Hst Hl Hv Hown Hr. destruct (lookup_lt_is_Some_2 es (Z.to_nat r)) as [e He]; [unfold zlen in Hr; lia|]. pose proof (take_drop_middle _ _ _ He) as Ees. set (X := take (Z.to_nat r) es) in *. set (Y := drop (S (Z.to_nat r)) es) in *. assert (LX : length X = Z.to_nat r) by (unfold X; rewrite length_take; unfold zlen in Hr; lia).
  destruct (leafRemove_ok a o l es nx Ha Hl Hv r e He ltac:(lia)) as (l' & -> & Hok & Hv'). pose proof (entry_at_ok a o l es nx r e Ha Hl Hv He ltac:(lia)) as Ee. exists (upd_leaf a o l'), X, e, Y. rewrite <- Ees in Hv', Hst |- *. rewrite <- LX, delete_middle in Hv'. split_and!; try done; [by apply leaf_shrunk|unfold zlen; lia].
Qed.

Lemma deleteAtFrom_node l t ord r : deleteAtFrom (S (S l)) t ord r = let* '(c, r) := child_at_rank t ord r in let* child := bChild t ord c in let* '(t, e) := deleteAtFrom (S l) t child r in let* t := unwind t ord c child (bool_decide (l = O)) in Ok (t, e).
Proof. done. Qed.

Lemma zlen_kents K : zlen (kents K) = sum (map pcount K).
Proof. unfold kents. by rewrite zlen_concat, map_map. Qed.

Lemma deleteAtFrom_ok l a p r RL RB : arena_ok a -> stands a (S l) p -> inner p -> 0 <= r < pcount p -> pcount p < two32 -> own a (lords p ++ RL) (bords p ++ RB) ->
  exists a' p' X e Y, deleteAtFrom (S l) (enc a) (pord p) r = Ok (enc a', e) /\ shrunk mb a a' (S l) p p' X e Y RL RB /\ zlen X = r.
Proof.
  revert a p r RL RB. induction l as [|l IH]; intros a p r RL RB Ha Hst Hin Hr Hcnt Hown.
  - destruct (stands_leaf_inv _ _ Hst) as (o & nx & es & ->). destruct (leaf_parts _ _ _ _ _ _ Ha Hst Hown) as (lf & Hl & Hv & Hown' & Ep). unfold pcount in Hr. rewrite Ep in Hr. destruct (leaf_take a o nx es lf r RL RB Ha Hst Hl Hv Hown' Hr) as (a' & X & e & Y & E & Hsh & HX & _ & Ee). cbn [deleteAtFrom pord]. rewrite Ee, E. exists a', (PLeaf o nx (X ++ Y)), X, e, Y. done.
  - destruct (stands_node_inv _ _ _ Hst) as (o & seps & kids & -> & Hlen). destruct (child_at_rank_ok a Ha l o seps kids r Hst Hr Hcnt) as (K1 & c & K2 & S1 & S2 & -> & -> & HK1 & HK2 & Er & Ec & Hr' & _). rewrite deleteAtFrom_node. cbn [pord]. rewrite Er, Ec. destruct (child_facts a l o S1 S2 K1 c K2 RL RB Hst HK1 HK2 Hcnt Hown) as (Hc & Hic & Hcc & Hown').
    destruct (IH a c _ _ _ Ha Hc Hic Hr' (proj2 Hcc) Hown') as (a1 & c' & X & e & Y & -> & Hsh & HX). destruct (node_unwind a l o S1 S2 K1 c K2 RL RB Hst HK1 HK2 Hin Hcnt a1 c' X e Y Hsh) as (a' & p' & -> & Hsh'). exists a', p', (kents K1 ++ X), e, (Y ++ kents K2). split_and!; try done. rewrite zlen_app, zlen_kents. lia.
Qed.

Lemma popMinFrom_node l t ord : popMinFrom (S (S l)) t ord = let* child := bChild t ord 0 in let* '(t, e) := popMinFrom (S l) t child in let* t := unwind t ord 0 child (bool_decide (l = O)) in Ok (t, e).
Proof. done. Qed.

Lemma popMinFrom_ok l a p RL RB : arena_ok a -> stands a (S l) p -> inner p -> 0 < pcount p < two32 -> own a (lords p ++ RL) (bords p ++ RB) ->
  exists a' p' e Y, popMinFrom (S l) (enc a) (pord p) = Ok (enc a', e) /\ shrunk mb a a' (S l) p p' [] e Y RL RB.
Proof.
  revert a p RL RB. induction l as [|l IH]; intros a p RL RB Ha Hst Hin Hcnt Hown.
  - destruct (stands_leaf_inv _ _ Hst) as (o & nx & es & ->). destruct (leaf_parts _ _ _ _ _ _ Ha Hst Hown) as (lf & Hl & Hv & Hown' & Ep). unfold pcount in Hcnt. rewrite Ep in Hcnt. destruct (leaf_take a o nx es lf 0 RL RB Ha Hst Hl Hv Hown' ltac:(lia)) as (a' & X & e & Y & E & Hsh & HX & _ & Ee). cbn [popMinFrom pord]. rewrite Ee, E. destruct X; [|rewrite zlen_cons in HX; pose proof (zlen_nonneg X); lia]. by exists a', (PLeaf o nx Y), e, Y.
  - destruct (stands_node_inv _ _ _ Hst) as (o & seps & [|c K2] & -> & Hlen); [done|]. injection Hlen as Hlen. rewrite popMinFrom_node. cbn [pord]. pose proof Hst as (b & Hb & Hv & _)%stands_node. rewrite fmap_cons in Hv. destruct (node_kid a o b Ha Hb _ [] _ _ 0 Hv eq_refl) as (-> & _). cbn [kc fst].
    destruct (child_facts a l o [] seps [] c K2 RL RB Hst eq_refl Hlen (proj2 Hcnt) Hown) as (Hc & Hic & Hcc & Hown'). destruct (IH a c _ _ Ha Hc Hic Hcc Hown') as (a1 & c' & e & Y & -> & Hsh). destruct (node_unwind a l o [] seps [] c K2 RL RB Hst eq_refl Hlen Hin (proj2 Hcnt) a1 c' [] e Y Hsh) as (a' & p' & E & Hsh'). change (zlen []) with 0 in E. rewrite E. by exists a', p', e, (Y ++ kents K2).
Qed.

Lemma popMaxFrom_node l t ord : popMaxFrom (S (S l)) t ord = let* c := bNkeys t ord in let* child := bChild t ord c in let* '(t, e) := popMaxFrom (S l) t child in let* t := unwind t ord c child (bool_decide (l = O)) in Ok (t, e).
Proof. done. Qed.

Lemma popMaxFrom_ok l a p RL RB : arena_ok a -> stands a (S l) p -> inner p -> 0 < pcount p < two32 -> own a (lords p ++ RL) (bords p ++ RB) ->
  exists a' p' X e, popMaxFrom (S l) (enc a) (pord p) = Ok (enc a', e) /\ shrunk mb a a' (S l) p p' X e [] RL RB.
Proof.
  revert a p RL RB. induction l as [|l IH]; intros a p RL RB Ha Hst Hin Hcnt Hown.
  - destruct (stands_leaf_inv _ _ Hst) as (o & nx & es & ->). destruct (leaf_parts _ _ _ _ _ _ Ha Hst Hown) as (lf & Hl & Hv & Hown' & Ep). unfold pcount in Hcnt. rewrite Ep in Hcnt. destruct es as [|e X _] using rev_ind; [unfold zlen in Hcnt; cbn in Hcnt; lia|]. cbn [popMaxFrom pord]. rewrite (leaf_size a o lf _ nx Ha Hl Hv), zlen_snoc. replace (zlen X + 1 - 1) with (zlen X) by lia.
    rewrite (entry_at_ok a o lf _ nx (zlen X) e Ha Hl Hv) by (by apply lookup_here || apply zlen_nonneg). destruct (leafSetNent_ok a o lf _ nx Ha Hl Hv X) as (l' & -> & Hok & Hv'); [by exists [e]|]. exists (upd_leaf a o l'), (PLeaf o nx X), X, e. split; [done|]. pose proof (leaf_shrunk a o nx l' X e [] RL RB Ha Hst Hown' Hok) as Hsh. rewrite app_nil_r in Hsh. by apply Hsh.
  - destruct (stands_node_inv _ _ _ Hst) as (o & seps & kids & -> & Hlen). destruct kids as [|c K1 _] using rev_ind; [cbn in Hlen; lia|]. rewrite length_app in Hlen. cbn in Hlen. assert (HK1 : length K1 = length seps) by lia. rewrite popMaxFrom_node. cbn [pord]. pose proof Hst as (b & Hb & Hv & _)%stands_node. rewrite (branch_keys _ _ _ _ _ Ha Hb Hv). rewrite fmap_app in Hv. cbn [fmap list_fmap] in Hv. assert (EK : zlen seps = zlen (kc <$> K1)) by (unfold zlen; rewrite length_fmap; lia). destruct (node_kid a o b Ha Hb _ _ _ _ _ Hv EK) as (-> & _). cbn [kc fst].
    pose proof (child_facts a l o seps [] K1 c [] RL RB) as CF. pose proof (node_unwind a l o seps [] K1 c [] RL RB) as NU. rewrite app_nil_r in CF, NU. destruct (CF Hst HK1 eq_refl (proj2 Hcnt) Hown) as (Hc & Hic & Hcc & Hown'). destruct (IH a c _ _ Ha Hc Hic Hcc Hown') as (a1 & c' & X & e & -> & Hsh).
    destruct (NU Hst HK1 eq_refl Hin (proj2 Hcnt) a1 c' X e [] Hsh) as (a' & p' & E & Hsh'). replace (zlen seps) with (zlen K1) by (unfold zlen; lia). rewrite E. by exists a', p', (kents K1 ++ X), e.
Qed.

(** ** By key *)

Section by_key.
Context {M : Members} (k : key).
#[local] Abbreviation absent es := (Forall (fun x => ekey mb x <> k) es).

Lemma deleteFrom_node l t ord score member : deleteFrom (S (S l)) t ord score member = let* c := route t ord score member in let* child := bChild t ord c in let* '(t, r) := deleteFrom (S l) t child score member in match r with None => Ok (t, None) | Some ref => let* t := unwind t ord c child (bool_decide (l = O)) in Ok (t, Some ref) end.
Proof. done. Qed.

Lemma absent_bef F : Forall (bef mb k) F -> absent (ents F).
Proof. intros H. apply Forall_forall. intros x Hx%elem_of_ents Ex. rewrite Forall_forall in H. specialize (H _ Hx). cbn in H. rewrite Ex in H. by apply key_lt_irrefl in H. Qed.
Lemma absent_aft F : Forall (aft mb k) F -> absent (ents F).
Proof. intros H. apply Forall_forall. intros x Hx%elem_of_ents Ex. rewrite Forall_forall in H. specialize (H _ Hx). cbn in H. unfold aft in H. cbn in H. rewrite Ex in H. by apply key_lt_irrefl in H. Qed.

Lemma deleteFrom_ok l a p RL RB : arena_ok a -> stands a (S l) p -> inner p -> pcount p < two32 -> own a (lords p ++ RL) (bords p ++ RB) -> sorted mb (flat p) -> Forall (kn mb) (flat p) ->
  (deleteFrom (S l) (enc a) (pord p) k.1 k.2 = Ok (enc a, None) /\ absent (pents p))
  \/ exists a' p' X e Y, deleteFrom (S l) (enc a) (pord p) k.1 k.2 = Ok (enc a', Some e.2) /\ shrunk mb a a' (S l) p p' X e Y RL RB /\ ekey mb e = k.
Proof.
  revert a p RL RB. induction l as [|l IH]; intros a p RL RB Ha Hst Hin Hcnt Hown Hs Hkn.
  - destruct (stands_leaf_inv _ _ Hst) as (o & nx & es & ->). destruct (leaf_parts _ _ _ _ _ _ Ha Hst Hown) as (lf & Hl & Hv & Hown' & Ep). assert (Hss : StronglySorted (klt mb) es) by (apply sorted_ents in Hs; cbn [flat] in Hs; by rewrite ents_IEnt in Hs). cbn [flat] in Hkn. apply known_ents in Hkn.
    cbn [deleteFrom pord]. destruct (leafPos_ok mb a o lf es nx Ha Hl Hv k Hss Hkn) as (E1 & E2 & E & -> & F1 & F2). destruct (match E2 with x :: _ => _ | [] => false end) eqn:Eb; cbn [negb].
    + right. destruct E2 as [|x E2]; [done|]. apply bool_decide_eq_true in Eb. assert (Hr : 0 <= zlen E1 < zlen es) by (rewrite E, zlen_app, zlen_cons; pose proof (zlen_nonneg E1); pose proof (zlen_nonneg E2); lia). destruct (leaf_take a o nx es lf _ RL RB Ha Hst Hl Hv Hown' Hr) as (a' & X & e & Y & Er & Hsh & HX & EX & Ee).
      assert (e = x) as -> by (rewrite E in EX; apply (f_equal (fun z => z !! length E1)) in EX; replace (length E1) with (length X) in EX at 2 by (unfold zlen in HX; lia); rewrite !list_lookup_middle in EX by done; congruence). unfold entry_at in Ee. destruct (lScore _ _ _) as [s0| |]; try done. destruct (lRef _ _ _) as [r0| |]; try done. injection Ee as <-. rewrite Er. by exists a', (PLeaf o nx (X ++ Y)), X, (s0, r0), Y.
    + left. split; [done|]. rewrite Ep, E. rewrite E in Hss. by apply keys_absent.
  - destruct (stands_node_inv _ _ _ Hst) as (o & seps & kids & -> & Hlen). rewrite deleteFrom_node. cbn [pord]. destruct (route_split mb a l o seps kids k Ha Hst Hs Hkn) as (S1 & S2 & K1 & c & K2 & b & [-> -> HK1 HK2 Hb Hv Hkids Hmax -> -> R1 R2]). destruct (child_facts a l o S1 S2 K1 c K2 RL RB Hst HK1 HK2 Hcnt Hown) as (Hc & Hic & Hcc & Hown').
    pose proof (flat_node o S1 S2 K1 c K2 HK1) as Efl. rewrite Efl in Hs, Hkn. apply sorted_app in Hs as (_ & (Hs & _)%sorted_app & _). apply Forall_app in Hkn as [_ [Hkn _]%Forall_app].
    destruct (IH a c _ _ Ha Hc Hic (proj2 Hcc) Hown' Hs Hkn) as [(-> & Hab)|(a1 & c' & X & e & Y & -> & Hsh & Ek)].
    + left. split; [done|]. unfold pents. rewrite Efl, !ents_app. apply Forall_app. split; [by apply absent_bef|]. apply Forall_app. split; [done|by apply absent_aft].
    + right. destruct (node_unwind a l o S1 S2 K1 c K2 RL RB Hst HK1 HK2 Hin Hcnt a1 c' X e Y Hsh) as (a' & p' & E & Hsh'). replace (zlen S1) with (zlen K1) by (unfold zlen; lia). rewrite E. by exists a', p', (kents K1 ++ X), e, (Y ++ kents K2).
Qed.
End by_key.
End drop.
