(* ===== verification/TreePops.v ===== *)
(** Removal from a whole counted tree as removal from the sequence it stands for: by key, by
    position, at the ends, one entry or a run (engine/f3/struct/tree.go, tree_pop.go); and the
    tree under two resolutions of its references. *)

From stdpp Require Import sorting.
From S2P Require Import Prelude Ordered TreeBlocks TreeArrays TreeOps TreeShape TreeNodes TreeBranches TreeSearch TreeInsert TreeGrow TreeRep TreeReads TreeWalks TreeRemove TreeMend TreeDelete.
#[local] Open Scope Z_scope.
#[local] Set Warnings "-register-all".

(** ** Removal from a sequence *)

Section spec.
Context (mb : Z -> bytes).

(** The entry with a key taken out, and its reference. *)
Fixpoint remove_key (k : key) (es : list ent) : list ent * option Z :=
  match es with
  | [] => ([], None)
  | x :: es' => if bool_decide (ekey mb x = k) then (es', Some x.2) else let '(r, o) := remove_key k es' in (x :: r, o)
  end.

Lemma remove_absent k es : Forall (fun x => ekey mb x <> k) es -> remove_key k es = (es, None).
Proof. induction 1 as [|x es Hx _ IH]; [done|]. cbn. rewrite bool_decide_eq_false_2 by done. by rewrite IH. Qed.

Lemma remove_present k X e Y : increasing mb (X ++ e :: Y) -> ekey mb e = k -> remove_key k (X ++ e :: Y) = (X ++ Y, Some e.2).
Proof.
  intros Hs Ek. induction X as [|x X IH]; cbn; [by rewrite bool_decide_eq_true_2|]. apply StronglySorted_inv in Hs as [Hs Hx]. rewrite bool_decide_eq_false_2; [by rewrite IH|]. apply Forall_app in Hx as [_ [Hx _]%Forall_cons]. unfold klt in Hx. rewrite Ek in Hx. intros Ex. rewrite Ex in Hx. by apply key_lt_irrefl in Hx.
Qed.
End spec.

Section pops.
Context {M : Members} (mb : Z -> bytes).

(** ** The root after a removal *)

(** A tree but for the fill of its root. *)
Record tree_bare (a : arena) (p : ptree) : Prop := {
  tb_ok : arena_ok a;
  tb_height : 1 <= t_height (ar_rest a);
  tb_nodes : stands a (Z.to_nat (t_height (ar_rest a))) p;
  tb_root : t_root (ar_rest a) = pord p;
  tb_leaf : t_rootIsLeaf (ar_rest a) = (t_height (ar_rest a) =? 1);
  tb_entries : t_entries (ar_rest a) = pcount p;
  tb_own : own a (lords p) (bords p);
  tb_chain : chain (leaf_links p) 0 0;
  tb_sorted : sorted mb (flat p);
  tb_known : Forall (kn mb) (flat p);
  tb_min : t_minLeaf (ar_rest a) = leafNone \/ head (lords p) = Some (t_minLeaf (ar_rest a));
  tb_max : t_maxLeaf (ar_rest a) = leafNone \/ last (lords p) = Some (t_maxLeaf (ar_rest a))
}.

Lemma bare_tree a p : tree_bare a p -> inner p -> tree_ok mb a p.
Proof. intros [? ? ? ? ? ? ? ? ? ? ? ?] ?. by split. Qed.
Lemma tree_is_bare a p : tree_ok mb a p -> tree_bare a p.
Proof. intros [? ? ? ? ? ? ? ? ? ? ? ? ?]. by split. Qed.

Lemma collapseRoot_ok a p : tree_bare a p -> exists a' p', collapseRoot (enc a) = Ok (enc a') /\ tree_ok mb a' p' /\ pents p' = pents p.
Proof.
  intros HB. pose proof HB as [B1 B2 B3 B4 B5 B6 B7 B8 B9 B10 B11 B12]. unfold collapseRoot. cbn [enc t_rootIsLeaf t_root]. rewrite B5. destruct (Z.eqb_spec (t_height (ar_rest a)) 1) as [Eh|Eh].
  - exists a, p. split; [done|]. split; [|done]. apply bare_tree; [done|]. rewrite Eh in B3. by destruct (stands_leaf_inv _ _ B3) as (? & ? & ? & ->).
  - destruct (Z.to_nat (t_height (ar_rest a))) as [|[|h]] eqn:En; [lia|lia|]. destruct (stands_node_inv _ _ _ B3) as (o & seps & kids & -> & Hlen). rewrite B4. cbn [pord]. fold (enc a). destruct (stands_keys _ _ _ _ _ B1 B3) as (-> & _). destruct (Z.eqb_spec (zlen seps) 0) as [E0|E0]; [|exists a, (PNode o seps kids); split; [done|]; split; [|done]; apply bare_tree; [done|]; by intros ->].
    destruct seps; [|rewrite zlen_cons in E0; pose proof (zlen_nonneg seps); lia]. destruct kids as [|c [|? ?]]; [done| |done]. pose proof B3 as (b & Hb & Hv & [[Hc Hf] _]%Forall_cons & _)%stands_node. cbn [fmap list_fmap] in Hv. destruct (node_kid a o b B1 Hb _ [] _ _ 0 Hv eq_refl) as (-> & _). cbn [kc fst].
    set (a1 := upd_rest a (fun t => set_root t (pord c) (t_height t - 1 =? 1) (t_height t - 1))). exists (free_branch a1 o), c. split; [done|]. assert (Ef : flat (PNode o [] [c]) = flat c) by (cbn; by rewrite app_nil_r). assert (El : leaf_links (PNode o [] [c]) = leaf_links c) by (cbn; by rewrite app_nil_r). unfold pcount, pents, lords in *. rewrite Ef, El in *. split; [|done].
    apply bare_tree; [|by apply full_inner]. split; try done; cbn [free_branch upd_rest ar_rest with_branches a1 set_root t_height t_root t_rootIsLeaf t_entries t_minLeaf t_maxLeaf]; try lia.
    + by apply arena_rest, arena_rest.
    + replace (Z.to_nat (t_height (ar_rest a) - 1)) with (S h) by lia. by apply stands_rest, stands_rest.
    + apply own_free_branch. unfold a1. apply own_rest; [done|]. cbn in B7. rewrite app_nil_r in B7. done.
Qed.

Lemma collapseRoot_id a p : tree_ok mb a p -> collapseRoot (enc a) = Ok (enc a).
Proof.
  intros [T1 T2 T3 T4 T5 T6 _ _ _ _ _ _ _]. unfold collapseRoot. cbn [enc t_rootIsLeaf t_root]. rewrite T5. destruct (Z.eqb_spec (t_height (ar_rest a)) 1) as [Eh|Eh]; [done|]. destruct (Z.to_nat (t_height (ar_rest a))) as [|[|h]] eqn:En; [lia|lia|]. destruct (stands_node_inv _ _ _ T3) as (o & seps & kids & -> & Hlen). rewrite T4. cbn [pord]. fold (enc a). destruct (stands_keys _ _ _ _ _ T1 T3) as (-> & _).
  destruct (Z.eqb_spec (zlen seps) 0) as [E0|E0]; [|done]. destruct seps; [done|rewrite zlen_cons in E0; pose proof (zlen_nonneg seps); lia].
Qed.

(** The end of every removal. *)
Lemma removed_ok a p h a' p' X e Y : tree_ok mb a p -> pcount p < two32 -> Z.to_nat (t_height (ar_rest a)) = S h -> shrunk mb a a' (S h) p p' X e Y [] [] ->
  exists t', removed (enc a') = Ok t' /\ tree_rep mb t' (X ++ Y).
Proof.
  intros HT Hcnt Eh [Q1 Q2 Q3 _ Q5 Q6 [Q7 Q7'] Q8 Q9 Q10 Q11]. pose proof HT as [T1 T2 T3 T4 T5 T6 T7 T8 T9 T10 T11 T12 T13]. rewrite !app_nil_r in Q9. destruct Q10 as [_ _ Co]. unfold tree_core in Co. injection Co as C1 C2 C3 C4. unfold removed. cbn [enc t_entries]. rewrite C4, T7.
  assert (Ec : pcount p' = pcount p - 1) by (unfold pcount; rewrite Q5, Q6, !zlen_app, zlen_cons; lia). pose proof (pcount_nonneg p'). rewrite sub64_small by lia. fold (enc a'). rewrite upd_entries_enc. set (a2 := upd_rest a' _). destruct (edges_kept a a' _ _ Q11 T12 T13) as [Emin Emax].
  destruct (collapseRoot_ok a2 p') as (a3 & p3 & -> & HT3 & E3).
  - split; cbn [a2 upd_rest ar_rest with_entries t_height t_root t_rootIsLeaf t_entries t_minLeaf t_maxLeaf]; try done; try lia; try congruence.
    + by apply arena_rest.
    + rewrite C3, Eh. by apply stands_rest.
    + by apply Q8.
    + specialize (Q7 [] []). cbn in Q7. rewrite !app_nil_r in Q7. by apply Q7.
    + apply Forall_forall. intros x Hx. destruct (Q7' x Hx) as (y & Hy & Ey). rewrite Forall_forall in T11. specialize (T11 y Hy). unfold kn in *. by rewrite <- Ey.
  - eexists. split; [done|]. exists a3, p3. split; [done|]. split; [done|]. by rewrite E3, Q6.
Qed.

Lemma rep_shape a p : tree_ok mb a p -> exists h, Z.to_nat (t_height (ar_rest a)) = S h /\ stands a (S h) p /\ inner p /\ own a (lords p ++ []) (bords p ++ []).
Proof. intros HT. destruct (rep_height mb a p HT) as [h Eh]. exists h. rewrite !app_nil_r. destruct HT as [? ? T3 ? ? T6 ? T8 ? ? ? ? ?]. rewrite Eh in T3. done. Qed.

(** ** The operations *)

Lemma Tree_Delete_ok t es k : tree_rep mb t es -> t_entries t < two32 -> exists t', Tree_Delete t k.1 k.2 = Ok (t', (remove_key mb k es).2) /\ tree_rep mb t' (remove_key mb k es).1.
Proof.
  intros (a & p & -> & HT & <-) Hlt. cbn [enc t_entries] in Hlt. rewrite (to_entries _ _ _ HT) in Hlt. destruct (rep_shape a p HT) as (h & Eh & Hst & Hin & Hown). unfold Tree_Delete. cbn [enc t_height t_root]. rewrite Eh, (to_root _ _ _ HT). fold (enc a).
  destruct (deleteFrom_ok mb k h a p [] []) as [(-> & Hab)|(a' & p' & X & e & Y & -> & Hsh & Ek)]; try done; try apply HT.
  - rewrite (collapseRoot_id a p HT), remove_absent by done. eexists. split; [done|]. by exists a, p.
  - destruct (removed_ok a p h a' p' X e Y HT Hlt Eh Hsh) as (t' & E & HR). unfold removed in E. rewrite E. pose proof (sh_before _ _ _ _ _ _ _ _ _ _ _ Hsh) as Ep. rewrite Ep, remove_present; [by exists t'| |done]. rewrite <- Ep. apply sorted_ents, HT.
Qed.

Lemma DeleteAt_ok t es r : tree_rep mb t es -> t_entries t < two32 -> 0 <= r -> exists t', DeleteAt t r = Ok (t', es !! Z.to_nat r) /\ tree_rep mb t' (delete (Z.to_nat r) es).
Proof.
  intros (a & p & -> & HT & <-) Hlt Hr. unfold DeleteAt. cbn [enc t_entries] in *. rewrite (to_entries _ _ _ HT) in *. destruct (Z.leb_spec (pcount p) r) as [Hge|Hr'].
  - exists (enc a). unfold pcount, zlen in Hge. rewrite lookup_ge_None_2, delete_take_drop, take_ge, drop_ge, app_nil_r by lia. split; [done|]. by exists a, p.
  - destruct (rep_shape a p HT) as (h & Eh & Hst & Hin & Hown). cbn [enc t_height t_root]. rewrite Eh, (to_root _ _ _ HT). fold (enc a). destruct (deleteAtFrom_ok mb h a p r [] []) as (a' & p' & X & e & Y & -> & Hsh & HX); try done; [apply HT|]. destruct (removed_ok a p h a' p' X e Y HT Hlt Eh Hsh) as (t' & -> & HR). exists t'.
    rewrite (sh_before _ _ _ _ _ _ _ _ _ _ _ Hsh). replace (Z.to_nat r) with (length X) by (unfold zlen in HX; lia). by rewrite list_lookup_middle, delete_middle.
Qed.

Lemma empty_rep a p : tree_ok mb a p -> t_entries (enc a) = 0 <-> pents p = [].
Proof. intros HT. cbn. rewrite (to_entries _ _ _ HT). unfold pcount, zlen. destruct (pents p); cbn; split; (done || lia). Qed.

Lemma PopMin_ok t es : tree_rep mb t es -> t_entries t < two32 -> exists t', PopMin t = Ok (t', head es) /\ tree_rep mb t' (tail es).
Proof.
  intros (a & p & -> & HT & <-) Hlt. unfold PopMin. destruct (Z.eqb_spec (t_entries (enc a)) 0) as [E0|E0].
  - apply (empty_rep a p HT) in E0 as E1. rewrite E1. exists (enc a). split; [done|]. by exists a, p.
  - cbn [enc t_entries] in *. rewrite (to_entries _ _ _ HT) in *. pose proof (pcount_nonneg p). destruct (rep_shape a p HT) as (h & Eh & Hst & Hin & Hown). cbn [enc t_height t_root]. rewrite Eh, (to_root _ _ _ HT). fold (enc a). destruct (popMinFrom_ok mb h a p [] []) as (a' & p' & e & Y & -> & Hsh); try done; [apply HT|lia|]. destruct (removed_ok a p h a' p' [] e Y HT Hlt Eh Hsh) as (t' & -> & HR). exists t'. by rewrite (sh_before _ _ _ _ _ _ _ _ _ _ _ Hsh).
Qed.

Lemma PopMax_ok t es : tree_rep mb t es -> t_entries t < two32 -> exists t', PopMax t = Ok (t', last es) /\ tree_rep mb t' (take (pred (length es)) es).
Proof.
  intros (a & p & -> & HT & <-) Hlt. unfold PopMax. destruct (Z.eqb_spec (t_entries (enc a)) 0) as [E0|E0].
  - apply (empty_rep a p HT) in E0 as E1. rewrite E1. exists (enc a). split; [done|]. by exists a, p.
  - cbn [enc t_entries] in *. rewrite (to_entries _ _ _ HT) in *. pose proof (pcount_nonneg p). destruct (rep_shape a p HT) as (h & Eh & Hst & Hin & Hown). cbn [enc t_height t_root]. rewrite Eh, (to_root _ _ _ HT). fold (enc a). destruct (popMaxFrom_ok mb h a p [] []) as (a' & p' & X & e & -> & Hsh); try done; [apply HT|lia|]. destruct (removed_ok a p h a' p' X e [] HT Hlt Eh Hsh) as (t' & -> & HR). exists t'. rewrite (sh_before _ _ _ _ _ _ _ _ _ _ _ Hsh). rewrite last_snoc, length_app. cbn [length]. rewrite app_nil_r in HR. replace (pred (length X + 1)) with (length X) by lia. by rewrite take_app_length.
Qed.

Lemma rep_len t es : tree_rep mb t es -> t_entries t = zlen es.
Proof. intros (a & p & -> & HT & <-). apply (to_entries _ _ _ HT). Qed.

Lemma PopMinN_ok want t es : tree_rep mb t es -> t_entries t < two32 -> exists t', PopMinN want t = Ok (t', take want es) /\ tree_rep mb t' (drop want es).
Proof.
  revert t es. induction want as [|want IH]; intros t es HR Hlt; [by exists t|]. cbn [PopMinN]. destruct (PopMin_ok t es HR Hlt) as (t1 & -> & HR1). destruct es as [|e es]; cbn [head tail]; [by exists t1|]. rewrite (rep_len _ _ HR), zlen_cons in Hlt. destruct (IH t1 es HR1) as (t' & -> & HR'); [rewrite (rep_len _ _ HR1); cbn [tail]; lia|]. by exists t'.
Qed.

Lemma PopMaxN_ok want t es : tree_rep mb t es -> t_entries t < two32 -> exists t', PopMaxN want t = Ok (t', take want (rev es)) /\ tree_rep mb t' (take (length es - want) es).
Proof.
  revert t es. induction want as [|want IH]; intros t es HR Hlt; [exists t; by rewrite Nat.sub_0_r, firstn_all|]. cbn [PopMaxN]. destruct (PopMax_ok t es HR Hlt) as (t1 & -> & HR1). destruct es as [|e es _] using rev_ind; [by exists t1|]. rewrite last_snoc. rewrite length_app in HR1 |- *. cbn [length] in *. replace (pred (length es + 1)) with (length es) in HR1 by lia. rewrite take_app_length in HR1. rewrite (rep_len _ _ HR), zlen_app, zlen_cons in Hlt. pose proof (zlen_nonneg (@nil ent)).
  destruct (IH t1 es HR1) as (t' & -> & HR'); [rewrite (rep_len _ _ HR1); lia|]. exists t'. rewrite rev_app_distr. split; [done|]. replace (length es + 1 - S want)%nat with (length es - want)%nat by lia. by rewrite take_app_le by lia.
Qed.
End pops.

(** ** Trees under two resolutions of their references *)

Lemma sorted_ext mb mb' F : (forall x, x ∈ F -> mb' (ient x).2 = mb (ient x).2) -> sorted mb F -> sorted mb' F.
Proof.
  intros He. induction F as [|x F IH]; [constructor|]. intros [Hs Hx]%sorted_cons. apply sorted_cons. split; [apply IH; [intros y Hy; apply He; by right|done]|]. intros y Hy. specialize (Hx y Hy). pose proof (He x ltac:(by left)) as Ex. pose proof (He y ltac:(by right)) as Ey. destruct x, y; cbn in *; unfold ekey in *; by rewrite Ex, Ey.
Qed.

(** Whatever resolved before resolves to the same bytes now. *)
Definition extends (M1 : Members) (mb1 : Z -> bytes) (M2 : Members) (mb2 : Z -> bytes) : Prop :=
  forall r, @Member M1 r = Ok (mb1 r) -> @Member M2 r = Ok (mb2 r) /\ mb2 r = mb1 r.

Lemma tree_rep_ext (M1 M2 : Members) mb1 mb2 t es : extends M1 mb1 M2 mb2 -> @tree_rep M1 mb1 t es -> @tree_rep M2 mb2 t es.
Proof.
  intros He (a & p & -> & [T1 T2 T3 T4 T5 T6 T7 T8 T9 T10 T11 T12 T13] & Hes). exists a, p. split; [done|]. split; [|done]. rewrite Forall_forall in T11. split; try done.
  - eapply sorted_ext; [|exact T10]. intros x Hx. by apply (He (ient x).2), T11.
  - apply Forall_forall. intros x Hx. unfold kn, known in *. by apply (He (ient x).2), T11.
Qed.

Lemma rep_known {M : Members} mb t es : tree_rep mb t es -> Forall (known mb) es.
Proof. intros (a & p & -> & HT & <-). apply Forall_forall. intros e He%elem_of_ents. pose proof (to_known _ _ _ HT) as Hk. rewrite Forall_forall in Hk. by specialize (Hk _ He). Qed.

(** ** The sequence, read by predicates *)

Lemma filter_all {A} (P : A -> Prop) `{!forall x, Decision (P x)} (l : list A) : Forall P l -> filter P l = l.
Proof. induction 1; [done|]. rewrite filter_cons, decide_True by done. by f_equal. Qed.
Lemma filter_none {A} (P : A -> Prop) `{!forall x, Decision (P x)} (l : list A) : Forall (fun x => ~ P x) l -> filter P l = [].
Proof. induction 1; [done|]. by rewrite filter_cons, decide_False. Qed.


Section seq.
Context (mb : Z -> bytes).

Lemma keys_differ x es : increasing mb (x :: es) -> Forall (fun y => ekey mb y <> ekey mb x) es.
Proof. intros [_ H]%StronglySorted_inv. eapply Forall_impl; [exact H|]. cbn. unfold klt. intros y Hy Ey. rewrite Ey in Hy. by apply key_lt_irrefl in Hy. Qed.

Lemma remove_key_filter k es : increasing mb es -> remove_key mb k es = (filter (fun x => ekey mb x <> k) es, snd <$> head (filter (fun x => ekey mb x = k) es)).
Proof.
  induction es as [|x es IH]; [done|]. intros Hs. pose proof (keys_differ x es Hs) as Hd. apply StronglySorted_inv in Hs as [Hs _]. cbn [remove_key]. rewrite !filter_cons. case_bool_decide as Ek.
  - rewrite decide_False by tauto. rewrite decide_True by done. cbn. f_equal. symmetry. apply filter_all. by rewrite <- Ek.
  - rewrite IH by done. rewrite decide_True by done. by rewrite decide_False by done.
Qed.

Lemma find_ref_filter k es : increasing mb es -> find_ref mb k es = match head (filter (fun x => ekey mb x = k) es) with Some e => (e.2, true) | None => (0, false) end.
Proof.
  intros Hs. unfold find_ref. assert (Hl : forall es, increasing mb es -> match head (filter (fun x => ekey mb x = k) es) with Some e => (locate_key mb k es).2 = true /\ es !! Z.to_nat (locate_key mb k es).1 = Some e | None => (locate_key mb k es).2 = false end).
  { clear. induction es as [|x es IH]; [done|]. intros Hs. pose proof Hs as [Hs' Hx]%StronglySorted_inv. cbn [locate_key]. rewrite filter_cons. specialize (IH Hs'). destruct (key_cmp (ekey mb x) k) eqn:Ec.
    - apply key_cmp_eq in Ec. by rewrite decide_True by done.
    - rewrite decide_False by (intros Ex; by rewrite Ex, key_cmp_refl in Ec). pose proof (locate_range mb k es) as Hr. destruct (locate_key mb k es) as [n b]. cbn [fst snd] in *. destruct (head _); [|done]. destruct IH as [-> IH]. split; [done|]. replace (Z.to_nat (1 + n)) with (S (Z.to_nat n)) by lia. done.
    - rewrite decide_False by (intros Ex; by rewrite Ex, key_cmp_refl in Ec). assert (filter (fun x => ekey mb x = k) es = []) as ->; [|done]. apply filter_none. eapply Forall_impl; [exact Hx|]. cbn. unfold klt. intros y Hy Ey. rewrite Ey in Hy. unfold key_lt in Hy. congruence. }
  specialize (Hl es Hs). destruct (locate_key mb k es) as [n b]. cbn [fst snd] in *. destruct (head _); [destruct Hl as [-> ->]; done|by rewrite Hl].
Qed.

(** The entries from the place of a key on. *)
Lemma drop_locate k es : increasing mb es -> drop (Z.to_nat (locate_key mb k es).1) es = filter (fun e => key_cmp (ekey mb e) k <> Lt) es.
Proof.
  intros Hs.
  induction es as [|e es IH]; [done|]. pose proof Hs as [Hs' Hx]%StronglySorted_inv. cbn [locate_key]. rewrite filter_cons. destruct (key_cmp (ekey mb e) k) eqn:Ec.
  - rewrite decide_True by done. cbn [fst]. change (Z.to_nat 0) with 0%nat. cbn [drop]. f_equal. symmetry. apply filter_all. apply key_cmp_eq in Ec. eapply Forall_impl; [exact Hx|]. cbn. unfold klt, key_lt. rewrite Ec. intros y Hy Hc. rewrite key_cmp_antisym, Hc in Hy. done.
  - rewrite decide_False by tauto. rewrite <- IH by done. pose proof (locate_range mb k es). destruct (locate_key _ _ es) as [n b]. cbn [fst] in *. replace (Z.to_nat (1 + n)) with (S (Z.to_nat n)) by lia. done.
  - rewrite decide_True by done. cbn [fst]. change (Z.to_nat 0) with 0%nat. cbn [drop]. f_equal. symmetry. apply filter_all. eapply Forall_impl; [exact Hx|]. cbn. unfold klt. intros y Hy Hc. assert (Hlt' : key_lt (ekey mb e) k) by (by transitivity (ekey mb y)). unfold key_lt in Hlt'. congruence.
Qed.

Lemma place_true e es : Forall (fun x => ekey mb x <> ekey mb e) es -> (place_entry mb e es).2 = true /\ (place_entry mb e es).1 ≡ₚ e :: es.
Proof.
  induction 1 as [|x es Hx _ IH]; [done|]. cbn [place_entry]. destruct (key_cmp (ekey mb x) (ekey mb e)) eqn:Ec; [by apply key_cmp_eq in Ec| |done]. destruct (place_entry mb e es) as [es' b]. cbn [fst snd] in *. destruct IH as [-> IH]. split; [done|]. rewrite IH. apply Permutation_swap.
Qed.
End seq.
