(* ===== verification/TreeAppend.v ===== *)
(** The right-edge append of the counted tree: a key above every other goes to the end of the
    sequence without a search (engine/f3/struct/tree.go, [Append], [appendInto]). *)

From stdpp Require Import sorting.
From S2P Require Import Prelude Ordered TreeBlocks TreeArrays TreeOps TreeShape TreeNodes TreeBranches TreeSearch TreeInsert TreeGrow TreeRep TreeRemove TreeDelete.
#[local] Open Scope Z_scope.
#[local] Set Warnings "-register-all".

Section append.
Context {M : Members} (mb : Z -> bytes) (e : ent).
#[local] Abbreviation k := (ekey mb e).

(** ** A leaf *)

Section leaf.
Context (a : arena) (o nx : Z) (es : list ent) (A : list item) (RL RB : list Z).
Hypothesis (Ha : arena_ok a) (Hst : stands a 1 (PLeaf o nx es)) (Hs : sorted mb (A ++ (IEnt <$> es) ++ [])) (HA : Forall (bef mb k) A) (Hes : Forall (fun x => key_lt (ekey mb x) k) es).
Hypothesis (Hk : Forall (known mb) es) (Hown : own a (o :: RL) RB) (Hsz : zlen (ar_leaves a) < two32 - 1) (He : ent_ok e) (Hke : known mb e).

Lemma leaf_appended l nx' es' a0 o' : arena_ok a0 -> leaf_of a0 o' = Some l -> leafv l es' nx' -> (length es' < 31)%nat -> exists l',
  (let* n := lNent (enc a0) o' in let* t := lSetEnt (enc a0) o' n e.1 e.2 in lSetNent t o' (n + 1)) = Ok (enc (upd_leaf a0 o' l')) /\ leaf_ok l' /\ leafv l' (es' ++ [e]) nx'.
Proof.
  intros Ha0 Hl Hv Hlt. rewrite (leaf_size a0 o' l es' nx' Ha0 Hl Hv). destruct (leaf_poke a0 o' l es' nx' Ha0 Hl Hv e Hlt He) as (l1 & -> & _ & _ & l2 & -> & Hok2 & Hv2). by exists l2.
Qed.

Lemma append_leaf : exists a' f, appendInto 1 (enc a) o e.1 e.2 = Ok (enc a', split_of f) /\ inserted mb e a a' 1 (PLeaf o nx es) f A [] RL RB o nx.
Proof.
  destruct (leaf_here a o nx es RL RB) as (l & Hl & Hv & Hle & Hnx & Hok & Ho & Hni); try done. cbn [appendInto]. rewrite (leaf_size a o l es nx Ha Hl Hv). change leafCap with 31. destruct (Z.ltb_spec (zlen es) 31) as [Hlt|Hge].
  - destruct (leaf_appended l nx es a o Ha Hl Hv) as (l' & E & Hok' & Hv'); [unfold zlen in Hlt; lia|]. rewrite (leaf_size a o l es nx Ha Hl Hv) in E. follow E. exists (upd_leaf a o l'), (One (PLeaf o nx (es ++ [e]))). split; [done|]. apply (leaf_fits mb e a o nx es A [] RL RB) with (E2 := []); try done; [by rewrite app_nil_r|unfold zlen in Hlt; lia].
  - assert (H31 : length es = 31%nat) by (unfold zlen in Hge; lia). destruct (splitLeaf_ok a o l es nx RL RB Ha Hl Hv Hown Hsz) as (a1 & rgt & -> & Hsp). pose proof Hsp as [A1 _ (lr & Hlr & Hvr) _ _ _ _ _ _]. rewrite H31 in Hvr. change (31 / 2)%nat with 15%nat in Hvr. assert (LR : length (drop 15 es) = 16%nat) by (rewrite length_drop; lia).
    destruct (leaf_appended lr nx (drop 15 es) a1 rgt A1 Hlr Hvr) as (l' & E & Hok' & Hv'); [lia|]. follow E. destruct (drop 15 es) as [|x R] eqn:ER; [done|]. assert (Hl1 : leaf_of (upd_leaf a1 rgt l') rgt = Some l') by (by eapply leaf_of_upd). pose proof (entry_at_ok _ rgt l' _ nx 0 x (arena_ok_upd_leaf _ rgt l' A1 Hok') Hl1 Hv' eq_refl ltac:(lia)) as He0. unfold entry_at in He0.
    destruct (lScore _ _ _) as [s0| |]; try done. destruct (lRef _ _ _) as [r0| |]; try done. injection He0 as Ex0. exists (upd_leaf a1 rgt l'), (Two (PLeaf o rgt (take 15 es)) x (PLeaf rgt nx ((x :: R) ++ [e]))). split; [cbn [split_of pord]; by rewrite <- Ex0|].
    assert (Ees : take 15 es ++ x :: R = es) by (rewrite <- ER; apply take_drop). assert (LL : length (take 15 es) = 15%nat) by (rewrite length_take; lia). apply (leaf_splits mb e a o nx es A [] RL RB) with (a1 := a1) (l' := l') (R := R ++ [e]); try done.
    + rewrite (assoc_L (++) (take 15 es)), Ees. apply (sorted_place mb e A es [] []); try done; by rewrite (app_nil_r es).
    + exists es, []. by rewrite app_nil_r, (assoc_L (++)), Ees.
    + lia.
    + rewrite length_app. cbn in *. lia.
    + rewrite (assoc_L (++)), Ees. apply Forall_app. split; [done|by constructor].
    + by right.
Qed.
End leaf.

(** ** The descent *)

Lemma flat_last o seps K1 c : length K1 = length seps -> flat (PNode o seps (K1 ++ [c])) = wl (map flat K1) seps ++ flat c.
Proof. intros H. pose proof (flat_node o seps [] K1 c [] H) as E. rewrite app_nil_r in E. rewrite E. cbn [wr map zip_with concat]. by rewrite app_nil_r. Qed.


Lemma appendInto_node l t ord score ref : appendInto (S (S l)) t ord score ref =
  let* c := bNkeys t ord in
  let* child := bChild t ord c in
  let* '(t, csplit) := appendInto (S l) t child score ref in
  let* n := bCount t ord c in
  let* t := bSetCount t ord c (n + 1) in
  match csplit with
  | None => Ok (t, None)
  | Some half => hang t ord c child (bool_decide (l = O)) half
  end.
Proof. done. Qed.

Lemma ents_below F : Forall (bef mb k) (IEnt <$> F) -> Forall (fun x => key_lt (ekey mb x) k) F.
Proof. by rewrite Forall_fmap. Qed.

Lemma appendInto_ok l a p A RL RB hd tl : arena_ok a -> stands a (S l) p -> sorted mb (A ++ flat p) -> Forall (bef mb k) (A ++ flat p) -> Forall (kn mb) (flat p) ->
  own a (lords p ++ RL) (bords p ++ RB) -> chain (leaf_links p) hd tl -> zlen (ar_leaves a) < two32 - 1 -> zlen (ar_branches a) + Z.of_nat l < two32 - 1 -> pcount p + 1 < two32 -> ent_ok e -> known mb e ->
  exists a' f, appendInto (S l) (enc a) (pord p) e.1 e.2 = Ok (enc a', split_of f) /\ inserted mb e a a' (S l) p f A [] RL RB hd tl.
Proof.
  intros Ha Hst. revert a p A RL RB hd tl Ha Hst. induction l as [|l IH]; intros a p A RL RB hd tl Ha Hst Hs HA Hkn Hown Hch Hsl Hsb Hcnt He Hke.
  - destruct (stands_leaf_inv _ _ Hst) as (o & nx & es & ->). cbn [leaf_links lords bords flat pord] in *. inversion Hch as [|? ? ? ? Hc2]; subst. inversion Hc2; subst. apply Forall_app in HA as [HA Hes]. apply append_leaf; try done; [by rewrite app_nil_r|by apply ents_below|by apply known_ents].
  - destruct (stands_node_inv _ _ _ Hst) as (o & seps & kids & -> & Hlen). destruct kids as [|c K1 _] using rev_ind; [cbn in Hlen; lia|]. assert (HK1 : length K1 = length seps) by (rewrite length_app in Hlen; cbn in Hlen; lia). rewrite appendInto_node. cbn [pord]. pose proof Hst as (b & Hb & Hv & Hkids & _ & Hmax)%stands_node. rewrite (branch_keys _ _ _ _ _ Ha Hb Hv). pose proof Hv as Hv0. rewrite fmap_app in Hv0. cbn [fmap list_fmap] in Hv0.
    assert (EK : zlen seps = zlen (kc <$> K1)) by (unfold zlen; rewrite length_fmap; lia). destruct (node_kid a o b Ha Hb _ _ _ _ _ Hv0 EK) as (-> & _). cbn [kc fst]. pose proof (flat_last o seps K1 c HK1) as Efl. rewrite Efl in Hs, HA. rewrite (assoc_L (++)) in Hs, HA. pose proof Hkn as Hkn'. rewrite Efl in Hkn'. apply Forall_app in Hkn' as [_ Hknc].
    pose proof (own_child a o seps [] K1 [] c RL RB) as Hown'. rewrite app_nil_r in Hown'. specialize (Hown' Hown). pose proof Hkids as Hkids'. apply Forall_app in Hkids' as [_ [[Hc Hfc] _]%Forall_cons].
    pose proof Hch as Hch'. change (leaf_links (PNode o seps (K1 ++ [c]))) with (klinks (K1 ++ [c])) in Hch'. rewrite klinks_app, klinks_cons in Hch'. apply chain_app in Hch' as (m1 & C1 & C2). apply chain_app in C2 as (m2 & Cc & C2).
    assert (Hcc : pcount c + 1 < two32) by (pose proof (pcount_le o seps (K1 ++ [c]) c Hlen); assert (c ∈ K1 ++ [c]) by (apply elem_of_app; right; left); intuition lia).
    destruct (IH a c _ (klords K1 ++ klords [] ++ RL) (o :: kbords K1 ++ kbords [] ++ RB) m1 m2 Ha Hc Hs) as (a1 & f & E & Hin); try done; try lia. rewrite E.
    pose proof (node_step mb e a l o seps [] K1 [] c A [] RL RB hd tl HK1 eq_refl a1 f m1 m2 b Ha Hb) as HN. rewrite !app_nil_r in HN. destruct HN as (a' & F & EN & HF); try done; try lia. { apply own_NoDup in Hown' as [_ Hnd]. apply NoDup_app in Hnd as (_ & _ & Hnd). apply NoDup_cons in Hnd as [Hnd _]. clear -Hnd. set_solver. }
    exists a', F. split; [|done]. destruct (bCount _ _ _) as [n| |]; try done. destruct (bSetCount _ _ _ _) as [t| |]; try done. destruct (split_of f) as [half|]; [|congruence]. destruct (hang _ _ _ _ _ _) as [[t' up]| |]; congruence.
Qed.

(** ** The tree *)

(** A subtree ends in an entry. *)
Lemma flat_end m q : shape m q -> full q -> exists F x, flat q = F ++ [IEnt x].
Proof.
  revert q. induction m as [|m IH]; intros q Hs Hf; inversion Hs as [o nx es Hes|l o seps kids Hlen Hmax Hk]; subst; cbn in Hf.
  - destruct es as [|x es _] using rev_ind; [cbn in Hf; lia|]. exists (IEnt <$> es), x. cbn [flat]. by rewrite fmap_app.
  - destruct kids as [|c K1 _] using rev_ind; [cbn in Hlen; lia|]. apply Forall_app in Hk as [_ [[Hc Hfc] _]%Forall_cons]. destruct (IH c Hc Hfc) as (F & x & E). assert (HK1 : length K1 = length seps) by (rewrite length_app in Hlen; cbn in Hlen; lia). rewrite (flat_last o seps K1 c HK1), E. eexists (_ ++ F), x. by rewrite <- (assoc_L (++)).
Qed.

Lemma flat_end_root m q : shape m q -> (exists es, flat q = IEnt <$> es) \/ exists F x, flat q = F ++ [IEnt x].
Proof.
  intros Hs. inversion Hs as [o nx es Hes|l o seps kids Hlen Hmax Hk]; subst; [left; by exists es|right].
  destruct kids as [|c K1 _] using rev_ind; [cbn in Hlen; lia|]. apply Forall_app in Hk as [_ [[Hc Hfc] _]%Forall_cons]. destruct (flat_end _ c Hc Hfc) as (F & x & E). assert (HK1 : length K1 = length seps) by (rewrite length_app in Hlen; cbn in Hlen; lia). rewrite (flat_last o seps K1 c HK1), E. eexists (_ ++ F), x. by rewrite <- (assoc_L (++)).
Qed.

Lemma flat_bef m q : shape m q -> sorted mb (flat q) -> Forall (fun x => key_lt (ekey mb x) k) (pents q) -> Forall (bef mb k) (flat q).
Proof.
  intros Hsh Hs Hlt. unfold pents in Hlt. rewrite Forall_forall in Hlt. destruct (flat_end_root m q Hsh) as [(es & E)|(F & x & E)]; rewrite E in *.
  - apply Forall_fmap, Forall_forall. intros y Hy. apply Hlt. by rewrite ents_IEnt.
  - assert (Hx : key_lt (ekey mb x) k) by (apply Hlt, elem_of_ents, elem_of_app; right; left). apply sorted_app in Hs as (_ & _ & Hs). apply Forall_app. split; [|by constructor]. apply Forall_forall. intros [y|s] Hy; [apply Hlt, elem_of_ents, elem_of_app; by left|]. specialize (Hs _ (IEnt x) Hy ltac:(left)). cbn in Hs |- *. apply key_lt_le. by eapply key_le_lt_trans.
Qed.

Lemma Tree_Append_ok t es : tree_rep mb t es -> has_room t -> ent_ok e -> known mb e -> Forall (fun x => key_lt (ekey mb x) k) es -> exists t', Tree_Append t e.1 e.2 = Ok t' /\ tree_rep mb t' (es ++ [e]).
Proof.
  intros (a & p & -> & HT & <-) HR He Hk Hlt. pose proof HT as [T1 T2 T3 T4 T5 T6 T7 T8 T9 T10 T11 T12 T13]. pose proof HR as (R1 & R2 & R3). unfold Tree_Append. cbn [enc t_height t_root t_entries t_nLeaf t_nBranch] in *. rewrite (ao_nLeaf _ T1) in R1. rewrite (ao_nBranch _ T1) in R2. rewrite T7 in R3. rewrite T4. fold (enc a).
  destruct (Z.to_nat (t_height (ar_rest a))) as [|h] eqn:Eh; [lia|]. pose proof (appendInto_ok h a p [] [] [] 0 0 T1 T3) as HI. cbn [app] in HI. rewrite !app_nil_r in HI. destruct HI as (a' & f & -> & Hin); try done; try lia; [by eapply flat_bef; [apply T3|..]|].
  destruct (planted_ok mb e a p h a' f HT Eh HR Hin) as (t' & Ef & HR'). destruct Hin as [_ _ I3 (X & Y & EX & EY) _ _ _ _ _ _]. cbn [app] in I3. rewrite app_nil_r in I3. assert (Hinc : increasing mb (X ++ e :: Y)) by (rewrite <- EY; by apply sorted_ents). exists t'. cbv zeta in Ef. rewrite EY in HR'.
  assert (Y = []) as ->. { destruct Y as [|y Y]; [done|]. rewrite EX in Hlt. apply Forall_app in Hlt as [_ [Hy _]%Forall_cons]. apply StronglySorted_app_1_r in Hinc. apply StronglySorted_inv in Hinc as [_ [Hey _]%Forall_cons]. destruct (key_lt_irrefl (ekey mb y)). by transitivity (ekey mb e). }
  rewrite app_nil_r in EX. rewrite EX. destruct (split_of f) as [[[ss sr] rgt]|]; [rewrite Ef|injection Ef as <-]; done.
Qed.
End append.
