(* ===== verification/TreeHistory.v ===== *)
(** A counted tree driven by any sequence of its operations answers what the sorted sequence
    answers, and keeps its blocks at their widths (engine/f3/struct/tree.go, tree_pop.go). *)

From stdpp Require Import sorting.
From S2P Require Import Prelude Ordered TreeBlocks TreeArrays TreeOps TreeShape TreeNodes TreeBranches TreeSearch TreeInsert TreeGrow TreeRep TreeReads TreeWalks TreePops TreeDelete TreeAppend.
#[local] Open Scope Z_scope.
#[local] Set Warnings "-register-all".

(** ** Operations and answers *)

Inductive tree_op : Type :=
  | OpInsert (e : ent) | OpAppend (e : ent) | OpDelete (k : key) | OpDeleteAt (r : Z) | OpPopMin (n : nat) | OpPopMax (n : nat)
  | OpRank (k : key) | OpFind (k : key) | OpSelect (r : Z) | OpWalk (k : key) (n : nat) | OpWalkRev (r : Z) (n : nat) | OpEach.

Inductive tree_ans : Type :=
  | AnsBool (b : bool) | AnsRef (r : option Z) | AnsEntry (e : option ent) | AnsEntries (es : list ent) | AnsRank (r : Z * bool) | AnsNone.

(** A visitor that keeps the first [n] entries. *)
Definition collect (n : nat) (l : list ent) (s r : Z) : list ent * bool := (l ++ [(s, r)], (length l + 1 <? n)%nat).

Section history.
Context {M : Members} (mb : Z -> bytes).

Definition tree_apply (t : Tree) (op : tree_op) : P (Tree * tree_ans) :=
  match op with
  | OpInsert e => let* '(t, b) := Tree_Insert t e.1 (mb e.2) e.2 in Ok (t, AnsBool b)
  | OpAppend e => let* t := Tree_Append t e.1 e.2 in Ok (t, AnsNone)
  | OpDelete k => let* '(t, r) := Tree_Delete t k.1 k.2 in Ok (t, AnsRef r)
  | OpDeleteAt r => let* '(t, e) := DeleteAt t r in Ok (t, AnsEntry e)
  | OpPopMin n => let* '(t, es) := PopMinN n t in Ok (t, AnsEntries es)
  | OpPopMax n => let* '(t, es) := PopMaxN n t in Ok (t, AnsEntries es)
  | OpRank k => let* r := Tree_Rank t k.1 k.2 in Ok (t, AnsRank r)
  | OpFind k => let* r := Tree_Find t k.1 k.2 in Ok (t, AnsRank r)
  | OpSelect r => let* e := SelectAt t r in Ok (t, AnsEntry e)
  | OpWalk k n => let* es := WalkFrom (collect n) t k.1 k.2 [] in Ok (t, AnsEntries es)
  | OpWalkRev r n => let* es := WalkFromRankRev (collect n) t r [] in Ok (t, AnsEntries es)
  | OpEach => let* '(t, es) := Tree_Each (fun l s r => (l ++ [(s, r)], true)) t [] in Ok (t, AnsEntries es)
  end.

Definition seq_apply (es : list ent) (op : tree_op) : list ent * tree_ans :=
  match op with
  | OpInsert e => let '(es, b) := place_entry mb e es in (es, AnsBool b)
  | OpAppend e => (es ++ [e], AnsNone)
  | OpDelete k => let '(es, r) := remove_key mb k es in (es, AnsRef r)
  | OpDeleteAt r => (delete (Z.to_nat r) es, AnsEntry (es !! Z.to_nat r))
  | OpPopMin n => (drop n es, AnsEntries (take n es))
  | OpPopMax n => (take (length es - n) es, AnsEntries (take n (rev es)))
  | OpRank k => (es, AnsRank (locate_key mb k es))
  | OpFind k => (es, AnsRank (find_ref mb k es))
  | OpSelect r => (es, AnsEntry (es !! Z.to_nat r))
  | OpWalk k n => (es, AnsEntries (take (max n 1) (drop (Z.to_nat (locate_key mb k es).1) es)))
  | OpWalkRev r n => (es, AnsEntries (take (max n 1) (rev (take (S (Z.to_nat r)) es))))
  | OpEach => (es, AnsEntries es)
  end.

(** What the callers of an operation promise: entries in range whose references resolve, a key
    above every other for the right-edge append, positions that are not negative. *)
Definition op_ok (es : list ent) (op : tree_op) : Prop :=
  match op with
  | OpInsert e => ent_ok e /\ known mb e
  | OpAppend e => ent_ok e /\ known mb e /\ match last es with Some x => key_lt (ekey mb x) (ekey mb e) | None => True end
  | OpDeleteAt r | OpSelect r | OpWalkRev r _ => 0 <= r
  | _ => True
  end.

Lemma last_above es e : increasing mb es -> match last es with Some x => key_lt (ekey mb x) (ekey mb e) | None => True end -> Forall (fun x => key_lt (ekey mb x) (ekey mb e)) es.
Proof.
  intros Hs. destruct es as [|x es _] using rev_ind; [constructor|]. rewrite last_snoc. intros Hx. apply StronglySorted_app in Hs as (Hs & _ & _). apply Forall_app. split; [|by constructor]. apply Forall_forall. intros y Hy. transitivity (ekey mb x); [|done]. apply (Hs y x Hy). left.
Qed.

Lemma walk_collect n l es : (length l < max n 1)%nat -> (walk_list (collect n) l es).1 = l ++ take (max n 1 - length l) es.
Proof.
  revert l. induction es as [|[s r] es IH]; intros l Hl; cbn [walk_list]; [by rewrite take_nil, app_nil_r|]. unfold collect at 1. cbn [fst snd]. destruct (Nat.ltb_spec (length l + 1) n) as [Hlt|Hge].
  - rewrite IH by (rewrite length_app; cbn; lia). rewrite length_app. cbn [length]. replace (max n 1 - length l)%nat with (S (max n 1 - (length l + 1))) by lia. cbn [take]. by rewrite <- (assoc_L (++)).
  - cbn [fst]. replace (max n 1 - length l)%nat with 1%nat by lia. done.
Qed.

Lemma walk_all l es : (walk_list (fun (l : list ent) s r => (l ++ [(s, r)], true)) l es).1 = l ++ es.
Proof. revert l. induction es as [|[s r] es IH]; intros l; cbn [walk_list]; [by rewrite app_nil_r|]. rewrite IH. by rewrite <- (assoc_L (++)). Qed.

Lemma tree_apply_ok t es op : tree_rep mb t es -> has_room t -> op_ok es op -> exists t', tree_apply t op = Ok (t', (seq_apply es op).2) /\ tree_rep mb t' (seq_apply es op).1.
Proof.
  intros HR Hroom Hop. assert (Hlt : t_entries t < two32) by (destruct Hroom as (_ & _ & ?); lia). destruct op as [e|e|k|r|n|n|k|k|r|k n|r n|]; cbn [tree_apply seq_apply op_ok fst snd] in *.
  - destruct Hop as [He Hk]. destruct (Tree_Insert_ok mb t es e HR Hroom He Hk) as (t' & -> & HR'). exists t'. by destruct (place_entry mb e es).
  - destruct Hop as (He & Hk & Hab). pose proof (last_above es e (rep_increasing _ _ _ HR) Hab) as Hall. destruct (Tree_Append_ok mb e t es HR Hroom He Hk Hall) as (t' & -> & HR'). by exists t'.
  - destruct (Tree_Delete_ok mb t es k HR Hlt) as (t' & -> & HR'). exists t'. by destruct (remove_key mb k es).
  - destruct (DeleteAt_ok mb t es r HR Hlt Hop) as (t' & -> & HR'). by exists t'.
  - destruct (PopMinN_ok mb n t es HR Hlt) as (t' & -> & HR'). by exists t'.
  - destruct (PopMaxN_ok mb n t es HR Hlt) as (t' & -> & HR'). by exists t'.
  - rewrite (Tree_Rank_ok mb t es k HR Hlt). by exists t.
  - rewrite (Tree_Find_ok mb t es k HR Hlt). by exists t.
  - rewrite (SelectAt_ok mb t es r HR Hlt Hop). by exists t.
  - rewrite (WalkFrom_ok mb (collect n) t es k [] HR Hlt). exists t. rewrite walk_collect by (cbn; lia). by rewrite Nat.sub_0_r.
  - rewrite (WalkFromRankRev_ok mb (collect n) t es r [] HR Hlt Hop). exists t. rewrite walk_collect by (cbn; lia). by rewrite Nat.sub_0_r.
  - destruct (Tree_Each_ok mb (fun l s r => (l ++ [(s, r)], true)) t es [] HR) as (t' & -> & HR'). exists t'. by rewrite walk_all.
Qed.

(** ** Histories *)

Fixpoint tree_run (t : Tree) (ops : list tree_op) : P (Tree * list tree_ans) :=
  match ops with
  | [] => Ok (t, [])
  | op :: ops' =>
      let* '(t, x) := tree_apply t op in
      let* '(t, xs) := tree_run t ops' in
      Ok (t, x :: xs)
  end.

Fixpoint seq_run (es : list ent) (ops : list tree_op) : list ent * list tree_ans :=
  match ops with
  | [] => (es, [])
  | op :: ops' => let '(es, x) := seq_apply es op in let '(es, xs) := seq_run es ops' in (es, x :: xs)
  end.

(** Every operation meets its promise on the sequence it finds, and the tree it finds has room. *)
Fixpoint history_ok (t : Tree) (es : list ent) (ops : list tree_op) : Prop :=
  match ops with
  | [] => True
  | op :: ops' => has_room t /\ op_ok es op /\ match tree_apply t op with Ok (t', _) => history_ok t' (seq_apply es op).1 ops' | _ => True end
  end.

Lemma tree_run_ok t es ops : tree_rep mb t es -> history_ok t es ops -> exists t', tree_run t ops = Ok (t', (seq_run es ops).2) /\ tree_rep mb t' (seq_run es ops).1.
Proof.
  revert t es. induction ops as [|op ops IH]; intros t es HR Hok; [by exists t|]. destruct Hok as (Hroom & Hop & Hok). destruct (tree_apply_ok t es op HR Hroom Hop) as (t1 & E & HR1). rewrite E in Hok. destruct (IH t1 _ HR1 Hok) as (t2 & E2 & HR2). exists t2. cbn [tree_run seq_run]. rewrite E, E2. destruct (seq_apply es op) as [es1 x]. cbn [fst snd] in *. by destruct (seq_run es1 ops).
Qed.

(** ** Widths *)

Lemma enc_ent_len e : zlen (enc_ent e) = 16.
Proof. unfold enc_ent, zlen. rewrite !length_app, !length_le_enc. done. Qed.

Lemma zlen_concat_width {A} (f : A -> bytes) (w : Z) (l : list A) : (forall x, zlen (f x) = w) -> zlen (concat (map f l)) = w * zlen l.
Proof. intros Hw. induction l as [|x l IH]; [cbn; change (zlen []) with 0; lia|]. cbn [map concat]. rewrite zlen_app, zlen_cons, IH, Hw. lia. Qed.

Lemma enc_leaf_len l : leaf_ok l -> zlen (enc_leaf l) = LeafSize.
Proof. intros [_ _ Hs _]. unfold enc_leaf. rewrite !zlen_app, !zlen_le_enc, (zlen_concat_width enc_ent 16) by apply enc_ent_len. replace (zlen (al_ents l)) with 31 by (unfold zlen; lia). by vm_compute. Qed.

Lemma enc_branch_len b : branch_ok b -> zlen (enc_branch b) = BranchSize.
Proof.
  intros [_ [Hs _] _ [Hk _] [Hc _]]. unfold enc_branch. rewrite !zlen_app, !zlen_le_enc. rewrite (zlen_concat_width (le_enc 8) 8), (zlen_concat_width (le_enc 4) 4 (ab_kids b)), (zlen_concat_width (le_enc 4) 4 (ab_cnts b)) by (intros; apply zlen_le_enc). replace (zlen (ab_seps b)) with 15 by (unfold zlen; lia). replace (zlen (ab_kids b)) with 16 by (unfold zlen; lia). replace (zlen (ab_cnts b)) with 16 by (unfold zlen; lia). by vm_compute.
Qed.

(** Blocks of their size, one group of separator references per branch, ordinals in range. *)
Definition blocks_typed (t : Tree) : Prop :=
  Forall (fun b => zlen b = LeafSize) (t_leaves t) /\ Forall (fun b => zlen b = BranchSize) (t_branches t) /\ zlen (t_leaves t) = t_nLeaf t /\ zlen (t_branches t) = t_nBranch t
  /\ zlen (t_srefs t) = sepMax * t_nBranch t /\ Forall is_u32 (t_srefs t) /\ NoDup (t_leafFree t) /\ NoDup (t_branchFree t) /\ Forall (fun o => 0 <= o < t_nLeaf t) (t_leafFree t) /\ Forall (fun o => 0 <= o < t_nBranch t) (t_branchFree t)
  /\ t_rootIsLeaf t = (t_height t =? 1) /\ 0 <= t_root t < (if t_rootIsLeaf t then t_nLeaf t else t_nBranch t).

Lemma free_typed L F n : L ++ F ≡ₚ seqZ 0 n -> NoDup F /\ Forall (fun o => 0 <= o < n) F.
Proof.
  intros Hp. pose proof (NoDup_seqZ 0 n) as Hn. rewrite <- Hp in Hn. apply NoDup_app in Hn as (_ & _ & Hn). split; [done|]. apply Forall_forall. intros o Ho. assert (Hin : o ∈ seqZ 0 n) by (rewrite <- Hp; apply elem_of_app; by right). apply elem_of_seqZ in Hin. lia.
Qed.

Lemma tree_blocks_typed t es : tree_rep mb t es -> blocks_typed t.
Proof.
  intros (a & p & -> & HT & _). pose proof HT as [[A1 A2 A3 A4] T2 T3 T4 T5 _ _ [O1 O2] _ _ _ _ _]. destruct (free_typed _ _ _ O1) as [N1 F1]. destruct (free_typed _ _ _ O2) as [N2 F2]. unfold blocks_typed. cbn [enc t_leaves t_branches t_srefs t_nBranch t_nLeaf t_leafFree t_branchFree t_root t_rootIsLeaf t_height]. rewrite A3, A4.
  assert (EL : zlen (enc_leaf <$> ar_leaves a) = zlen (ar_leaves a)) by (unfold zlen; by rewrite length_fmap). assert (EB : zlen (enc_branch <$> ar_branches a) = zlen (ar_branches a)) by (unfold zlen; by rewrite length_fmap). 
  assert (Hroot : 0 <= t_root (ar_rest a) < (if t_rootIsLeaf (ar_rest a) then zlen (ar_leaves a) else zlen (ar_branches a))).
  { rewrite T5, T4. destruct (Z.eqb_spec (t_height (ar_rest a)) 1) as [Eh|Eh]; destruct T3 as [Hh Hs].
    - rewrite Eh in Hs. inversion Hs; subst. inversion Hh as [? ? ? l Hl _|]; subst. cbn [pord]. apply leaf_of_range in Hl. done.
    - destruct (Z.to_nat (t_height (ar_rest a))) as [|[|h]] eqn:En; [lia|lia|]. inversion Hs; subst. inversion Hh as [|? ? ? b Hb]; subst. cbn [pord]. apply branch_of_range in Hb. done. }
  split_and!; try done; try apply Hroot.
  - apply Forall_fmap. eapply Forall_impl; [exact A1|]. cbn. apply enc_leaf_len.
  - apply Forall_fmap. eapply Forall_impl; [exact A2|]. cbn. apply enc_branch_len.
  - clear -A2. induction A2 as [|b bs [_ _ [Hr _] _ _] _ IH]; [done|]. rewrite fmap_cons. cbn [concat]. rewrite zlen_app, zlen_cons, IH. unfold zlen at 1. rewrite Hr. change sepMax with 15. lia.
  - clear -A2. induction A2 as [|b bs [_ _ [_ Hr] _ _] _ IH]; [constructor|]. rewrite fmap_cons. cbn [concat]. by apply Forall_app.
Qed.

(** ** Space *)

Lemma kids_sum (f g : ptree -> nat) kids : Forall (fun q => (f q + 1 <= g q)%nat) kids -> (list_sum (map f kids) + length kids <= list_sum (map g kids))%nat.
Proof. induction 1 as [|q kids Hq _ IH]; [done|]. cbn [map length list_sum foldr] in *. unfold list_sum in *. cbn [foldr]. lia. Qed.

Lemma length_klords kids : length (klords kids) = list_sum (map (fun q => length (lords q)) kids).
Proof. induction kids as [|q kids IH]; [done|]. rewrite klords_cons, length_app, IH. done. Qed.
Lemma length_kbords kids : length (kbords kids) = list_sum (map (fun q => length (bords q)) kids).
Proof. induction kids as [|q kids IH]; [done|]. rewrite kbords_cons, length_app, IH. done. Qed.

(** Every node but the root has at least two children, every leaf but the root seven entries. *)
Lemma node_counts m q : shape m q -> inner q -> (length (bords q) + 1 <= length (lords q))%nat.
Proof.
  revert q. induction m as [|m IH]; intros q Hs Hi; inversion Hs as [o nx es Hes|l o seps kids Hlen Hmax Hk]; subst; [cbn; lia|]. rewrite lords_knode, bords_knode. cbn [length]. rewrite length_klords, length_kbords. assert (Hf : Forall (fun q => (length (bords q) + 1 <= length (lords q))%nat) kids) by (eapply Forall_impl; [exact Hk|]; cbn; intros c [Hc Hfc]; apply IH; [done|by apply full_inner]). apply (kids_sum (fun q => length (bords q)) (fun q => length (lords q))) in Hf. cbn in Hi. destruct seps; [done|]. cbn in Hlen. lia.
Qed.

Lemma leaf_counts m q : shape m q -> full q -> 7 * zlen (lords q) <= pcount q.
Proof.
  revert q. induction m as [|m IH]; intros q Hs Hf; inversion Hs as [o nx es Hes|l o seps kids Hlen Hmax Hk]; subst; cbn in Hf.
  - unfold pcount, pents, zlen. cbn [flat]. rewrite ents_IEnt. cbn. lia.
  - rewrite pcount_node, lords_knode by done. clear Hs Hlen Hmax Hf. induction Hk as [|c kids [Hc Hfc] _ IHk]; [done|]. rewrite klords_cons, zlen_app. unfold sum. cbn [map foldr]. fold (sum (map pcount kids)). specialize (IH c Hc Hfc). lia.
Qed.

Lemma tree_space t es : tree_rep mb t es -> 7 * Bytes t <= 828 * zlen es + 7 * LeafSize.
Proof.
  intros (a & p & -> & HT & <-). pose proof HT as [[_ _ A3 A4] T2 [_ T3] _ _ T6 _ [O1 O2] _ _ _ _ _]. apply Permutation_length in O1, O2. rewrite length_app, length_seqZ in O1, O2. unfold Bytes. cbn [enc t_nLeaf t_nBranch t_leafFree t_branchFree]. rewrite A3, A4. fold (pcount p). pose proof (node_counts _ _ T3 T6) as Hn. pose proof (zlen_nonneg (ar_leaves a)). pose proof (zlen_nonneg (ar_branches a)). change sepMax with 15. change ordSz with 4. change BranchSize with 256. change LeafSize with 512. assert (EL : zlen (ar_leaves a) - zlen (t_leafFree (ar_rest a)) = zlen (lords p)) by (unfold zlen in *; lia). assert (EB : zlen (ar_branches a) - zlen (t_branchFree (ar_rest a)) = zlen (bords p)) by (unfold zlen in *; lia). rewrite EL, EB.
  assert (Hl : 7 * zlen (lords p) <= pcount p \/ zlen (lords p) = 1 /\ zlen (bords p) = 0). { inversion T3 as [o nx es Hes|l o seps kids Hlen Hmax Hk]; subst; [by right|left]. rewrite pcount_node, lords_knode by done. clear -Hk. induction Hk as [|c kids [Hc Hfc] _ IHk]; [done|]. rewrite klords_cons, zlen_app. unfold sum. cbn [map foldr]. fold (sum (map pcount kids)). pose proof (leaf_counts _ _ Hc Hfc). lia. }
  pose proof (pcount_nonneg p). unfold zlen in *. lia.
Qed.
End history.
