(* ===== verification/Pel.v ===== *)
(** The pending-entries list of a consumer group (engine/f3/stream/pel.go): a slab arena and a
    counted tree over it, keyed by entry ID.

    A tree reference is a slab ordinal; the tree resolves it to the sequence number of the slab's
    ID when two keys share a millisecond.  The list stands for its slabs in ID order: lookups,
    acknowledgements, walks and end peeks always; insertions while the free list is empty, since a
    reused slab changes what the tree's separators resolve to. *)

From stdpp Require Import sorting.
From S2P Require Import Prelude Ordered ScoreCodec TreeBlocks TreeArrays TreeOps TreeShape TreeBranches TreeSearch TreeInsert TreeRep TreeWalks TreePops.
#[local] Open Scope Z_scope.
#[local] Set Warnings "-register-all".

(** ** Data *)

Record streamID := mkID { ms : Z; seq : Z }.
#[export] Instance streamID_eq_dec : EqDecision streamID.
Proof. solve_decision. Defined.

(** [streamID.cmp]. *)
Definition id_cmp (a b : streamID) : comparison :=
  if negb (ms a =? ms b) then (if ms a <? ms b then Lt else Gt)
  else if negb (seq a =? seq b) then (if seq a <? seq b then Lt else Gt)
  else Eq.

Definition id_less (a b : streamID) : bool := match id_cmp a b with Lt => true | _ => false end.

Definition seqKey (id : streamID) : bytes := be_enc 8 (seq id).

Record pelEntry := mkPelEntry { pe_id : streamID; pe_deliveryTime : Z; pe_deliveryCount : Z; pe_consumerOrd : Z }.

Definition noOwner : Z := two32 - 1.

Record groupPEL := mkPEL { slabs : list pelEntry; pfree : list Z; ptree : Tree }.

Definition newPEL : P groupPEL := let* t := NewTree in Ok (mkPEL [] [] t).

(** ** Operations *)

(** [groupPEL.Member]. *)
Definition pel_Member (sl : list pelEntry) : Members := fun ref => let* x := get_at sl ref in Ok (seqKey (pe_id x)).

(** The reused or new ordinal, and the arena it is in. *)
Definition pel_alloc (p : groupPEL) : groupPEL * Z :=
  match last (pfree p) with
  | Some ord => (mkPEL (slabs p) (take (pred (length (pfree p))) (pfree p)) (ptree p), ord)
  | None =>
      let sl := slabs p ++ [mkPelEntry (mkID 0 0) 0 0 0] in
      (mkPEL sl (pfree p) (ptree p), (zlen sl - 1) mod two32)
  end.

(** A slab filled in and hung into the tree: the tail of both insertions. *)
Definition pel_put (p : groupPEL) (x : pelEntry) : P (groupPEL * Z) :=
  let '(p, ord) := pel_alloc p in
  let* sl := ix_set (slabs p) ord x in
  let* '(t, _) := @Tree_Insert (pel_Member sl) (ptree p) (ms (pe_id x)) (seqKey (pe_id x)) ord in
  Ok (mkPEL sl (pfree p) t, ord).

Definition pel_insert (p : groupPEL) (id : streamID) (now consumerOrd : Z) : P groupPEL :=
  let* '(p, _) := pel_put p (mkPelEntry id now 1 consumerOrd) in Ok p.

(** The slab the caller fills, by its ordinal. *)
Definition pel_insertClaimed (p : groupPEL) (id : streamID) : P (groupPEL * Z) := pel_put p (mkPelEntry id 0 0 noOwner).

(** The owner of the entry acknowledged. *)
Definition pel_ack (p : groupPEL) (id : streamID) : P (groupPEL * option Z) :=
  let* '(t, present) := @Tree_Delete (pel_Member (slabs p)) (ptree p) (ms id) (seqKey id) in
  match present with
  | None => Ok (mkPEL (slabs p) (pfree p) t, None)
  | Some ord =>
      let* x := get_at (slabs p) ord in
      Ok (mkPEL (slabs p) (pfree p ++ [ord]) t, Some (pe_consumerOrd x))
  end.

(** The slab and its ordinal. *)
Definition pel_find (p : groupPEL) (id : streamID) : P (option (Z * pelEntry)) :=
  let* '(ref, ok) := @Tree_Find (pel_Member (slabs p)) (ptree p) (ms id) (seqKey id) in
  if negb ok then Ok None
  else let* x := get_at (slabs p) ref in Ok (Some (ref, x)).

(** A visitor of slabs as a visitor of references; a reference outside the arena panics. *)
Definition on_slabs {A} (sl : list pelEntry) (fn : A -> pelEntry -> A * bool) (s : P A) (_ ref : Z) : P A * bool :=
  match s, get_at sl ref with
  | Ok s, Ok x => let '(s', go) := fn s x in (Ok s', go)
  | _, _ => (Panic, false)
  end.

Definition pel_walkFrom {A} (fn : A -> pelEntry -> A * bool) (p : groupPEL) (start : streamID) (s : A) : P A :=
  let* r := @WalkFrom _ (on_slabs (slabs p) fn) (pel_Member (slabs p)) (ptree p) (ms start) (seqKey start) (Ok s) in r.

Definition slab_at_rank (p : groupPEL) (r : Z) : P pelEntry :=
  let* e := SelectAt (ptree p) r in
  get_at (slabs p) (match e with Some (_, ref) => ref | None => 0 end).

Definition pel_minEntry (p : groupPEL) : P (option pelEntry) :=
  if Tree_Len (ptree p) =? 0 then Ok None else let* x := slab_at_rank p 0 in Ok (Some x).

Definition pel_maxEntry (p : groupPEL) : P (option pelEntry) :=
  let n := Tree_Len (ptree p) in
  if n =? 0 then Ok None else let* x := slab_at_rank p (n - 1) in Ok (Some x).

(** ** A reused slab *)

Definition deliver (p : groupPEL) (ids : list streamID) : P groupPEL :=
  foldl (fun p id => let* p := p in pel_insert p id 0 0) (Ok p) ids.

Definition one_ms (seqs : list Z) : list streamID := mkID 1 <$> seqs.

(** ** The list of slabs in ID order *)

(** ** IDs as keys *)

Definition id_ok (i : streamID) : Prop := is_u64 (ms i) /\ is_u64 (seq i).
Definition id_key (i : streamID) : key := (ms i, seqKey i).

Lemma id_key_cmp i j : id_ok i -> id_ok j -> key_cmp (id_key i) (id_key j) = id_cmp i j.
Proof.
  intros [_ Hi] [_ Hj]. unfold key_cmp, id_cmp, id_key. cbn [fst snd]. unfold seqKey. rewrite <- (app_nil_r (be_enc 8 (seq i))), <- (app_nil_r (be_enc 8 (seq j))). rewrite be_enc_compare by (done || (unfold is_u64 in *; cbn; lia)).
  destruct (Z.compare_spec (ms i) (ms j)), (Z.eqb_spec (ms i) (ms j)), (Z.ltb_spec (ms i) (ms j)); cbn [negb]; try lia; try done. destruct (Z.compare_spec (seq i) (seq j)), (Z.eqb_spec (seq i) (seq j)), (Z.ltb_spec (seq i) (seq j)); cbn [negb]; try lia; done.
Qed.

Lemma id_key_inj i j : id_ok i -> id_ok j -> id_key i = id_key j -> i = j.
Proof.
  intros Hi Hj E. pose proof (id_key_cmp i j Hi Hj) as H. rewrite E, key_cmp_refl in H. unfold id_cmp in H. destruct i as [m s], j as [m' s']. cbn in *. destruct (Z.eqb_spec m m'); [|by destruct (m <? m')]. destruct (Z.eqb_spec s s'); [by subst|by destruct (s <? s')].
Qed.

(** ** The list a tree of slabs stands for *)

Definition slab_at (sl : list pelEntry) (r : Z) : pelEntry := default (mkPelEntry (mkID 0 0) 0 0 0) (sl !! Z.to_nat r).
Definition seqs (sl : list pelEntry) (r : Z) : bytes := seqKey (pe_id (slab_at sl r)).

(** Every entry's reference is in the arena, and its score is the slab's millisecond. *)
Definition slab_ref (sl : list pelEntry) (e : ent) : Prop := 0 <= e.2 < zlen sl /\ e.1 = ms (pe_id (slab_at sl e.2)) /\ id_ok (pe_id (slab_at sl e.2)).

Definition pel_rep (p : groupPEL) (L : list pelEntry) : Prop :=
  exists es, @tree_rep (pel_Member (slabs p)) (seqs (slabs p)) (ptree p) es /\ Forall (slab_ref (slabs p)) es /\ L = (fun e => slab_at (slabs p) e.2) <$> es.

Lemma ix_slab sl r : 0 <= r < zlen sl -> get_at sl r = Ok (slab_at sl r).
Proof. intros Hr. unfold get_at, slab_at. destruct (Z.ltb_spec r 0); [lia|]. destruct (lookup_lt_is_Some_2 sl (Z.to_nat r)) as [x ->]; [unfold zlen in Hr; lia|done]. Qed.

Lemma slab_key sl e : slab_ref sl e -> ekey (seqs sl) e = id_key (pe_id (slab_at sl e.2)).
Proof. intros (_ & E & _). unfold ekey, id_key. by rewrite E. Qed.

Lemma slab_key_is sl e i : slab_ref sl e -> id_ok i -> ekey (seqs sl) e = id_key i <-> pe_id (slab_at sl e.2) = i.
Proof. intros He Hi. rewrite slab_key by done. split; [|by intros ->]. apply id_key_inj; [apply He|done]. Qed.

Lemma filter_slabs sl es (P : ent -> Prop) (Q : pelEntry -> Prop) `{!forall x, Decision (P x), !forall x, Decision (Q x)} : Forall (fun e => P e <-> Q (slab_at sl e.2)) es ->
  (fun e => slab_at sl e.2) <$> filter P es = filter Q ((fun e => slab_at sl e.2) <$> es).
Proof.
  induction 1 as [|e es He _ IH]; [done|]. rewrite fmap_cons, !filter_cons. destruct (decide (P e)) as [Hp|Hp]; [rewrite decide_True by tauto; by rewrite fmap_cons, IH|by rewrite decide_False by tauto].
Qed.

(** The list is strictly increasing in the order of IDs. *)
Lemma pel_sorted p L : pel_rep p L -> StronglySorted (fun x y => id_cmp (pe_id x) (pe_id y) = Lt) L.
Proof.
  intros (es & HR & Hr & ->). apply rep_increasing in HR. induction es as [|e es IH]; [constructor|]. apply Forall_cons in Hr as [He Hr]. apply StronglySorted_inv in HR as [HR Hx]. rewrite fmap_cons. constructor; [by apply IH|]. apply Forall_fmap, Forall_forall. intros y Hy. rewrite Forall_forall in Hx, Hr. specialize (Hx y Hy). specialize (Hr y Hy). unfold klt, key_lt in Hx. rewrite !slab_key in Hx by done. rewrite id_key_cmp in Hx by (apply He || apply Hr). done.
Qed.

Lemma newPEL_ok : exists p, newPEL = Ok p /\ pel_rep p [].
Proof. unfold newPEL. destruct (@NewTree_ok (pel_Member []) (seqs [])) as (t & -> & HR). exists (mkPEL [] [] t). split; [done|]. by exists []. Qed.

Section ops.
Context (p : groupPEL) (L : list pelEntry).
Hypothesis (HR : pel_rep p L) (Hlt : t_entries (ptree p) < two32).

Lemma pel_find_ok i : id_ok i -> exists o, pel_find p i = Ok o /\ snd <$> o = head (filter (fun x => pe_id x = i) L).
Proof.
  intros Hi. destruct HR as (es & HT & Hr & ->). unfold pel_find. change (ms i) with (id_key i).1. change (seqKey i) with (id_key i).2. rewrite (@Tree_Find_ok (pel_Member (slabs p)) (seqs (slabs p)) _ es) by done. rewrite find_ref_filter by (by eapply rep_increasing).
  rewrite <- (filter_slabs (slabs p) es (fun e => ekey (seqs (slabs p)) e = id_key i) (fun x => pe_id x = i)) by (eapply Forall_impl; [exact Hr|]; cbn; intros e He; by apply slab_key_is). destruct (filter (fun e => ekey (seqs (slabs p)) e = id_key i) es) as [|e l] eqn:E; [by exists None|]. cbn. assert (He : e ∈ es) by (apply (list_elem_of_filter (fun e => ekey (seqs (slabs p)) e = id_key i)); rewrite E; left). rewrite Forall_forall in Hr. destruct (Hr e He) as (Hrange & _). rewrite ix_slab by done. by exists (Some (e.2, slab_at (slabs p) e.2)).
Qed.

Lemma pel_ack_ok i : id_ok i -> exists p', pel_ack p i = Ok (p', pe_consumerOrd <$> head (filter (fun x => pe_id x = i) L)) /\ pel_rep p' (filter (fun x => pe_id x <> i) L).
Proof.
  intros Hi. destruct HR as (es & HT & Hr & ->). unfold pel_ack. change (ms i) with (id_key i).1. change (seqKey i) with (id_key i).2. destruct (@Tree_Delete_ok (pel_Member (slabs p)) (seqs (slabs p)) (ptree p) es (id_key i) HT Hlt) as (t' & -> & HT'). rewrite remove_key_filter in * by (by eapply rep_increasing). cbn [fst snd] in *.
  assert (Hk : Forall (fun e => ekey (seqs (slabs p)) e = id_key i <-> pe_id (slab_at (slabs p) e.2) = i) es) by (eapply Forall_impl; [exact Hr|]; cbn; intros e He; by apply slab_key_is). rewrite <- (filter_slabs (slabs p) es (fun e => ekey (seqs (slabs p)) e = id_key i) (fun x => pe_id x = i)) by done.
  rewrite <- (filter_slabs (slabs p) es (fun e => ekey (seqs (slabs p)) e <> id_key i) (fun x => pe_id x <> i)) by (eapply Forall_impl; [exact Hk|]; cbn; tauto).
  assert (Hrep : forall fr, pel_rep (mkPEL (slabs p) fr t') ((fun e => slab_at (slabs p) e.2) <$> filter (fun e => ekey (seqs (slabs p)) e <> id_key i) es)) by (intros fr; eexists; split; [exact HT'|]; split; [|done]; apply Forall_forall; intros x [_ Hx]%list_elem_of_filter; rewrite Forall_forall in Hr; by apply Hr).
  destruct (filter (fun e => ekey (seqs (slabs p)) e = id_key i) es) as [|e l] eqn:E; cbn; [by eexists|]. assert (He : e ∈ es) by (apply (list_elem_of_filter (fun e => ekey (seqs (slabs p)) e = id_key i)); rewrite E; left). rewrite Forall_forall in Hr. destruct (Hr e He) as (Hrange & _). rewrite ix_slab by done. by eexists.
Qed.

(** The walk hands the slabs from the first at or above the start to the visitor. *)
Fixpoint fold_slabs {A} (fn : A -> pelEntry -> A * bool) (s : A) (l : list pelEntry) : A :=
  match l with
  | [] => s
  | x :: l' => let '(s', go) := fn s x in if go then fold_slabs fn s' l' else s'
  end.

Lemma walk_slabs {A} (fn : A -> pelEntry -> A * bool) sl es s : Forall (slab_ref sl) es -> (walk_list (on_slabs sl fn) (Ok s) es).1 = Ok (fold_slabs fn s ((fun e => slab_at sl e.2) <$> es)).
Proof.
  intros H. revert s. induction H as [|e es He _ IH]; intros s; [done|]. cbn [walk_list on_slabs fmap list_fmap fold_slabs]. destruct He as (Hrange & _). rewrite ix_slab by done. destruct (fn s (slab_at sl e.2)) as [s' go]. destruct go; [apply IH|done].
Qed.

Lemma pel_walkFrom_ok {A} (fn : A -> pelEntry -> A * bool) i s : id_ok i -> pel_walkFrom fn p i s = Ok (fold_slabs fn s (filter (fun x => id_cmp (pe_id x) i <> Lt) L)).
Proof.
  intros Hi. destruct HR as (es & HT & Hr & ->). unfold pel_walkFrom. change (ms i) with (id_key i).1. change (seqKey i) with (id_key i).2. rewrite (@WalkFrom_ok (pel_Member (slabs p)) (seqs (slabs p)) _ _ (ptree p) es (id_key i)) by done. rewrite walk_slabs by (by apply Forall_drop). do 2 f_equal. pose proof (rep_increasing _ _ _ HT) as Hs. clear HT.
  rewrite <- (filter_slabs (slabs p) es (fun e => key_cmp (ekey (seqs (slabs p)) e) (id_key i) <> Lt) (fun x => id_cmp (pe_id x) i <> Lt)) by (eapply Forall_impl; [exact Hr|]; cbn; intros e He; rewrite slab_key, id_key_cmp by (done || apply He); done). f_equal. clear Hr.
  by apply drop_locate.
Qed.

Lemma pel_len : t_entries (ptree p) = zlen L.
Proof. destruct HR as (es & HT & _ & ->). rewrite (rep_len _ _ _ HT). unfold zlen. by rewrite length_fmap. Qed.

Lemma slab_at_rank_ok r : 0 <= r < zlen L -> exists x, slab_at_rank p r = Ok x /\ L !! Z.to_nat r = Some x.
Proof.
  intros Hr'. destruct HR as (es & HT & Hr & EL). unfold slab_at_rank. rewrite (@SelectAt_ok (pel_Member (slabs p)) (seqs (slabs p)) (ptree p) es r) by (done || lia). rewrite EL in Hr'. unfold zlen in Hr'. rewrite length_fmap in Hr'. destruct (lookup_lt_is_Some_2 es (Z.to_nat r)) as [[s f] He]; [lia|]. rewrite He. rewrite Forall_forall in Hr. destruct (Hr (s, f)) as (Hrange & _); [by eapply list_elem_of_lookup_2|]. cbn in Hrange. rewrite ix_slab by done. exists (slab_at (slabs p) f). split; [done|]. rewrite EL, list_lookup_fmap, He. done.
Qed.

Lemma pel_ends_ok : pel_minEntry p = Ok (head L) /\ pel_maxEntry p = Ok (last L).
Proof.
  unfold pel_minEntry, pel_maxEntry, Tree_Len. rewrite pel_len. destruct (Z.eqb_spec (zlen L) 0) as [E0|E0]; [destruct L; [done|rewrite zlen_cons in E0; pose proof (zlen_nonneg l); lia]|]. pose proof (zlen_nonneg L) as Hn. split.
  - destruct (slab_at_rank_ok 0) as (x & -> & Hx); [lia|]. by destruct L as [|y l]; [|injection Hx as ->].
  - destruct (slab_at_rank_ok (zlen L - 1)) as (x & -> & Hx); [lia|]. rewrite last_lookup. replace (pred (length L)) with (Z.to_nat (zlen L - 1)) by (unfold zlen; lia). by rewrite Hx.
Qed.
End ops.

(** ** Insertion *)

Lemma slab_at_snoc sl x r : 0 <= r < zlen sl -> slab_at (sl ++ [x]) r = slab_at sl r.
Proof. intros Hr. unfold slab_at. rewrite lookup_app_l; [done|unfold zlen in Hr; lia]. Qed.

Lemma slab_at_new sl x : slab_at (sl ++ [x]) (zlen sl) = x.
Proof. unfold slab_at. replace (Z.to_nat (zlen sl)) with (length sl) by (unfold zlen; lia). by rewrite list_lookup_middle. Qed.

Lemma members_snoc sl x : extends (pel_Member sl) (seqs sl) (pel_Member (sl ++ [x])) (seqs (sl ++ [x])).
Proof.
  intros r. unfold Member, pel_Member. destruct (decide (0 <= r < zlen sl)) as [Hr|Hr].
  - rewrite !ix_slab by (rewrite ?zlen_snoc; lia). intros _. unfold seqs. by rewrite slab_at_snoc.
  - assert (get_at sl r = Panic) as ->; [|done]. unfold get_at. destruct (Z.ltb_spec r 0); [done|]. rewrite lookup_ge_None_2; [done|unfold zlen in Hr; lia].
Qed.

(** A new ID, while no slab waits to be reused. *)
Lemma pel_put_ok p L x : pel_rep p L -> pfree p = [] -> has_room (ptree p) -> zlen (slabs p) < two32 - 1 -> id_ok (pe_id x) -> Forall (fun y => pe_id y <> pe_id x) L ->
  exists p' L', pel_put p x = Ok (p', zlen (slabs p)) /\ pel_rep p' L' /\ L' ≡ₚ x :: L /\ pfree p' = [].
Proof.
  intros (es & HT & Hr & ->) Hf Hroom Hz Hx Hnew. unfold pel_put, pel_alloc. rewrite Hf. cbn [last slabs pfree ptree]. set (sl := slabs p). set (y0 := mkPelEntry (mkID 0 0) 0 0 0). assert (Eo : (zlen (sl ++ [y0]) - 1) mod two32 = zlen sl) by (rewrite zlen_snoc; replace (zlen sl + 1 - 1) with (zlen sl) by lia; apply Z.mod_small; pose proof (zlen_nonneg sl); fold sl in Hz; lia). rewrite Eo.
  assert (Es : ix_set (sl ++ [y0]) (zlen sl) x = Ok (sl ++ [x])). { unfold ix_set, get_at. destruct (Z.ltb_spec (zlen sl) 0); [pose proof (zlen_nonneg sl); lia|]. replace (Z.to_nat (zlen sl)) with (length sl) by (unfold zlen; lia). rewrite list_lookup_middle by done. rewrite insert_app_r_alt by done. by rewrite Nat.sub_diag. }
  rewrite Es. set (sl' := sl ++ [x]). pose proof (tree_rep_ext _ _ _ _ _ _ (members_snoc sl x) HT) as HT'. fold sl' in HT'. set (e := (ms (pe_id x), zlen sl)).
  assert (Hr' : Forall (slab_ref sl') es). { eapply Forall_impl; [exact Hr|]. intros e0 (H1 & H2 & H3). unfold slab_ref, sl'. rewrite slab_at_snoc by done. split; [rewrite zlen_snoc; fold sl in H1; lia|done]. }
  assert (He : slab_ref sl' e). { unfold slab_ref, sl', e. cbn [fst snd]. rewrite slab_at_new, zlen_snoc. pose proof (zlen_nonneg sl). split; [lia|done]. }
  assert (Em : (fun e0 => slab_at sl e0.2) <$> es = (fun e0 => slab_at sl' e0.2) <$> es). { clear -Hr. induction Hr as [|e0 es (H1 & _) _ IH]; [done|]. rewrite !fmap_cons, IH. unfold sl'. by rewrite slab_at_snoc. }
  destruct (@Tree_Insert_ok (pel_Member sl') (seqs sl') (ptree p) es e HT' Hroom) as (t' & E & HT2).
  { unfold e, ent_ok. cbn. destruct Hx as [Hx _]. pose proof (zlen_nonneg sl). unfold is_u64, is_u32, sl in *. lia. }
  { unfold known, Member, pel_Member, e. cbn [snd]. rewrite ix_slab; [done|]. destruct He as (He & _). done. }
  assert (Ek : seqs sl' e.2 = seqKey (pe_id x)) by (unfold seqs, e, sl'; cbn [snd]; by rewrite slab_at_new). rewrite Ek in E. change e.1 with (ms (pe_id x)) in E. change e.2 with (zlen sl) in E. rewrite E.
  destruct (place_true (seqs sl') e es) as [_ Hperm]. { fold sl in Hnew. rewrite Em in Hnew. apply Forall_forall. intros y Hy Ey. rewrite Forall_forall in Hr'. rewrite (slab_key sl' y (Hr' y Hy)), (slab_key sl' e He) in Ey. apply id_key_inj in Ey; [|apply Hr', Hy|apply He]. rewrite Forall_fmap, Forall_forall in Hnew. apply (Hnew y Hy). cbn. rewrite Ey. unfold e, sl'. cbn [snd]. by rewrite slab_at_new. }
  eexists _, _. split; [done|]. split; [|split; [|done]].
  - eexists. split; [exact HT2|]. split; [|done]. cbn [slabs]. rewrite Hperm. by constructor.
  - cbn [slabs]. rewrite Hperm, fmap_cons, Em. unfold e, sl'. cbn [snd]. by rewrite slab_at_new.
Qed.
