(* ===== verification/Examples.v ===== *)
(** Concrete inputs the theorems are exercised on: a one-shard file created on an
    empty disk, a record, a batch and the small tables around them. *)

From S2P Require Import Prelude Loop Crc Format Rows Headers Tables Frames Device Scan File Rebuild Recovery Regions Crash.

#[local] Opaque ParsePrefix ParseMetaSlot ParseSegHeader VerifyPayload crc32c ParseSRT.

(** Closes a well-formedness goal about a concrete value by evaluating it. *)
Ltac concrete :=
  lazymatch goal with
  | |- Forall _ _ => first [apply Forall_nil; exact I | apply Forall_cons; split; concrete]
  | |- _ /\ _ => split; concrete
  | |- ?P => let P' := eval hnf in P in
             lazymatch P' with
             | _ /\ _ => change P'; concrete
             | _ => first [done | vm_compute; done]
             end
  end.

Definition ex_clock : clock := fun _ => 0.
Definition ex_disk : Disk := mkDisk [] [] [].

Definition ex_create (sync : SyncPolicy) : CreateOptions :=
  {| cro_ShardCount := 1; cro_SepThreshold := 0; cro_UUID := zeros 16; cro_CreatedUnixNanos := 0;
     cro_Sync := sync; cro_SyncInterval := 0; cro_Now := None |}.
Definition ex_open : OpenOptions :=
  {| opo_Sync := SyncAlways; opo_SyncInterval := 0; opo_Now := None |}.

Definition ex_pending : Pending := pending 0 KindLog 1 (str "payload").
Definition ex_meta : MetaSlot := fresh_meta.
Definition ex_row : SRTRow := mkSRTRow 0 0 0 0 0 0 0 0 0 0.
Definition ex_srt : SRT := {| srt_Gen := 1; srt_SnapWbar := 0; srt_Flags := 0; srt_Rows := [ex_row] |}.
Definition ex_stats : CheckpointStats := mkStats 0 0 0 0 true.
Definition ex_globals : CheckpointGlobals := mkGlobals 0 0 0 0.

Lemma ex_create_wf sync : CreateOptions_wf (ex_create sync).
Proof. unfold CreateOptions_wf. cbn. split_and!; (done || lia). Qed.

Lemma ex_pending_wf : Pending_wf ex_pending.
Proof. unfold Pending_wf. cbn. split_and!; (done || lia). Qed.

Lemma ex_srt_wf : SRT_wf ex_srt.
Proof.
  unfold SRT_wf. cbn. split_and!; try (done || lia). constructor; [|constructor].
  unfold SRTRow_wf. cbn. split_and!; lia.
Qed.

Lemma ex_stats_wf : CheckpointStats_wf ex_stats.
Proof. unfold CheckpointStats_wf. cbn. split_and!; lia. Qed.

Lemma ex_globals_wf : CheckpointGlobals_wf ex_globals.
Proof. unfold CheckpointGlobals_wf. cbn. split_and!; lia. Qed.

(** Creating a file flushes it. *)
Lemma create_flushed time_Now (dev dev' : Disk) opts f :
  CreateOnDevice time_Now dev opts = (dev', Ok f) -> dk_pending dev' = [].
Proof.
  unfold CreateOnDevice. destruct (WriteAt _ _ _) as [d1 [? [e|]]]; [done|].
  destruct (MetaSlot_Marshal _ _) as [mb|e|]; [|done|done].
  destruct (WriteAt d1 _ _) as [d2 [? [e|]]]; [done|].
  destruct (WriteAt d2 _ _) as [d3 [? [e|]]]; [done|].
  destruct (Truncate d3 _) as [d4 [e|]]; [done|].
  destruct (Sync d4) as [d5 [e|]] eqn:S; [done|]. intros [= <- _].
  cbn in S. unfold disk_Sync in S. by destruct (next_fault d4) as [[] fs]; simplify_eq.
Qed.

(** The fault script of a disk is not part of what the file holds. *)
Definition with_faults (f : File Disk) (fs : list fault) : File Disk :=
  with_dev f (mkDisk (dk_durable (fl_dev f)) (dk_pending (fl_dev f)) fs).

Lemma with_faults_inv f m segs fs :
  file_inv f m segs -> file_inv (with_faults f fs) m segs.
Proof.
  intros [Hi Hr]. split; [|exact Hr]. apply log_inv_dev; [done|exact I|].
  change (contents (mkDisk _ _ fs)) with (contents (fl_dev f)). done.
Qed.

(** A created file, under a policy and a fault script for what follows. *)
Lemma ex_file sync fs :
  exists f : File Disk, file_inv f fresh_meta [] /\ tidy f [] /\ dk_faults (fl_dev f) = fs
    /\ dk_pending (fl_dev f) = [] /\ fl_cursor f = PageSize /\ fl_globalSeq f = 0
    /\ fl_commitSeq f = 0 /\ px_ShardCount (fl_prefix f) = 1 /\ fl_sync f = sync.
Proof.
  destruct (CreateOnDevice_ok ex_clock ex_disk (ex_create sync)) as (d & f & Hc & Hd & Hh & Hi & Ht & ? & ? & Hp & ?);
    [done|apply ex_create_wf|].
  exists (with_faults f fs). split_and!; try done.
  - by apply with_faults_inv.
  - cbn. rewrite Hd. by eapply create_flushed.
  - destruct Hi as [_ [_ Hcs]]. exact (eq_sym Hcs).
  - cbn [fl_prefix with_faults with_dev]. by rewrite Hp.
Qed.

(** The same file with one segment appended. *)
Lemma ex_appended p :
  Pending_wf p -> zlen (pn_Payload p) < 100000 ->
  exists f : File Disk,
    file_inv f fresh_meta [mkSeg PageSize (stamped 1 p) (pn_Payload p)]
    /\ tidy f [mkSeg PageSize (stamped 1 p) (pn_Payload p)] /\ healthy (fl_dev f)
    /\ zlen (contents (fl_dev f)) <= fl_cursor f < two32 /\ fl_globalSeq f = 1
    /\ px_ChecksumKind (fl_prefix f) = ChecksumCRC32C /\ px_ShardCount (fl_prefix f) = 1.
Proof.
  intros Hw Hz. destruct (ex_file SyncAlways []) as (f & Hi & Ht & Hh & _ & Hc & Hs & _ & Hn & _).
  assert (Hg : Forall Pending_wf [p]) by (by constructor).
  assert (Hb : fl_globalSeq f + zlen [p] < two64) by (rewrite Hs; done).
  pose proof (zlen_nonneg (pn_Payload p)).
  pose proof (proj1 (SegmentSpan_spec (zlen (pn_Payload p)) ltac:(lia))) as Hsp.
  assert (He : group_end (fl_cursor f) [p] < two32) by (cbn [group_end]; lia).
  destruct (AppendGroup_healthy f _ _ [p] Hi Hh Hg Hb ltac:(lia)) as (f' & offs & Ha & Hh').
  destruct (AppendGroup_inv _ _ _ _ _ _ _ Hi Hg Hb Ha) as (Hi' & _ & Hroot & _ & _ & Hok).
  destruct (Hok eq_refl) as (Hlen & Hc' & Hs' & Ht'). rewrite Hlen in *. specialize (Ht' Ht).
  cbn [length group_segs take app] in *. change (zlen [p]) with 1 in *. rewrite Hs, Hc in *.
  exists f'. split_and!; try done; [apply Ht'|lia| |].
  - by destruct (li_std _ _ (proj1 Hi')) as (_&_&_&?).
  - destruct Hroot as (-> & _). exact Hn.
Qed.

(** A checkpoint of the created file. *)
Lemma ex_checkpoint sync :
  exists f f' : File Disk, file_inv f fresh_meta [] /\ tidy f [] /\ dk_faults (fl_dev f) = []
    /\ dk_pending (fl_dev f) = [] /\ fl_cursor f = PageSize /\ fl_globalSeq f = 0
    /\ fl_commitSeq f = 0 /\ px_ShardCount (fl_prefix f) = 1 /\ fl_sync f = sync
    /\ CheckpointWithGlobals f ex_srt [] ex_stats ex_globals = (f', Ok tt)
    /\ zlen (contents (fl_dev f')) < two63.
Proof.
  destruct (ex_file sync []) as (f & Hi & Ht & Hh & Hp & Hc & Hs & Hcs & Hn & Hsy).
  destruct (CheckpointWithGlobals_healthy f fresh_meta [] ex_srt [] ex_stats ex_globals Hi Hh)
    as (f' & Hck & _); try (rewrite ?Hc, ?Hs; done).
  destruct (CheckpointWithGlobals_ok f fresh_meta [] ex_srt [] ex_stats ex_globals f' Hi)
    as (srtBytes & Hm & _ & _ & _ & _ & Hc' & Ht'); try (rewrite ?Hc, ?Hs, ?Hcs; done);
    [apply ex_srt_wf|].
  destruct (Ht' Ht) as [Hz _]. pose proof (SRT_Marshal_len _ _ _ Hm) as Hl.
  rewrite Hc', Hc in Hz. unfold checkpoint_group in Hz. cbn [group_end pending pn_Payload] in Hz. rewrite Hl in Hz.
  exists f, f'. split_and!; try done. eapply Z.le_lt_trans; [exact Hz|done].
Qed.

(** A one-shard barrier on a healthy file. *)
Lemma ex_barrier (f : File Disk) m segs :
  file_inv f m segs -> healthy (fl_dev f) -> fl_globalSeq f = 1 -> fl_cursor f < two32 ->
  exists f1 off wbar, WriteBarrier f [mkBarrierShard 0 0] = (f1, Ok (off, wbar)) /\ fl_cursor f1 < two63.
Proof.
  intros Hi Hh Hs Hc. unfold WriteBarrier. rewrite Hs.
  change (add64 1 1) with 2. set (bh := {| bh_Wbar := 2; bh_ShardCount := _ |}).
  change (BarrierConsistent bh [mkBarrierShard 0 0]) with true. cbn [negb].
  set (p := pending _ _ _ _). pose proof (li_cursor _ _ (proj1 Hi)).
  assert (Hl : zlen (pn_Payload p) = 40) by done.
  assert (Hg : Forall Pending_wf [p]).
  { constructor; [|constructor]. unfold Pending_wf. rewrite Hl. unfold p, pending, ShardOwnerless, KindBarrier.
    cbn [pn_Shard pn_Kind pn_ShardSeq pn_PrevShardSeg pn_TTLClass pn_Flags]. split_and!; lia. }
  assert (He : group_end (fl_cursor f) [p] = fl_cursor f + 4096) by (cbn [group_end]; by rewrite Hl).
  assert (Hb : fl_globalSeq f + zlen [p] < two64) by (by rewrite Hs).
  destruct (AppendGroup_healthy f m segs [p] Hi Hh Hg Hb ltac:(lia)) as (f1 & offs & Ha & _).
  destruct (AppendGroup_inv _ _ _ _ _ _ _ Hi Hg Hb Ha) as (_ & _ & _ & _ & _ & Hok).
  destruct (Hok eq_refl) as (Hn & Hc1 & _). rewrite Ha. destruct offs as [|o offs]; [done|].
  exists f1, o, 2. split; [done|]. rewrite Hc1. lia.
Qed.

(** An inline record. *)
Definition ex_record : RecordRow := mkRecordRow RecFlagInline 0 3 0 (str "val") (str "key").

Lemma ex_record_wf : RecordRow_wf ex_record.
Proof. unfold RecordRow_wf. cbn. split_and!; (done || lia). Qed.

(** The example file with one record in its log. *)
Definition ex_record_pending : Pending := pending 0 KindLog 1 (pack rec_enc [ex_record]).

(** An append whose first write the device refuses. *)
Lemma append_refused (f : File Disk) m segs p n fs :
  file_inv f m segs -> fl_cursor f < two63 -> dk_faults (fl_dev f) = FWrite n (Some ErrIO) :: fs ->
  exists f', AppendGroup f [p] = (f', [], Err ErrIO) /\ dk_faults (fl_dev f') = fs.
Proof.
  intros Hi Hc Hf. pose proof (li_cursor _ _ (proj1 Hi)). destruct (li_std _ _ (proj1 Hi)) as (_&_&_&Hk).
  cbn [AppendGroup append_loop]. fsimpl. rewrite Hk.
  destruct (SegHeader_Marshal _ _ _) as [[hb h']|e|] eqn:Hm;
    [|unfold SegHeader_Marshal in Hm; by rewrite checksum_CRC32C in Hm..].
  unfold writeAt at 1. rewrite int64_small by lia. cbn [WriteAt Disk_device fl_dev with_seq].
  unfold disk_WriteAt, next_fault. rewrite Hf. destruct (Z.ltb_spec (fl_cursor f) 0); [lia|].
  by eexists.
Qed.

Lemma ex_recorded :
  exists f : File Disk,
    file_inv f fresh_meta [mkSeg PageSize (stamped 1 ex_record_pending) (pack rec_enc [ex_record])]
    /\ tidy f [mkSeg PageSize (stamped 1 ex_record_pending) (pack rec_enc [ex_record])]
    /\ healthy (fl_dev f) /\ fl_cursor f < two32 /\ fl_globalSeq f = 1
    /\ ReadRecordAt f (PageSize + SegHeaderLen) = Ok ex_record
    /\ px_ShardCount (fl_prefix f) = 1.
Proof.
  assert (Hl : zlen (pack rec_enc [ex_record]) < 100000) by done.
  destruct (ex_appended ex_record_pending) as (f & Hi & Ht & Hh & Hz & Hs & _ & Hn).
  { unfold Pending_wf, ex_record_pending, pending, KindLog.
    cbn [pn_Shard pn_Kind pn_ShardSeq pn_PrevShardSeg pn_TTLClass pn_Flags pn_Payload]. split_and!; lia. }
  { exact Hl. }
  exists f. split_and!; try done; [lia|].
  destruct (packed_on_device rec_enc f _ _ _ [ex_record] 0 ex_record Hi (list_elem_of_here _ _) eq_refl eq_refl)
    as (o & Ho & _ & _ & Hfit & Hsl). injection Ho as <-. cbn [sg_off] in Hfit, Hsl. rewrite Z.add_0_r in Hfit, Hsl.
  apply ReadRecordAt_ok; [exact I|apply ex_record_wf|done|lia|done|done].
Qed.
