(* ===== verification/CodecTheorems.v ===== *)
(** The bytes: every structure of the file reads back as it was written, corrupt
    bytes in memory are an error and never a panic, and the live slot is the newest whole one. *)

From S2P Require Import Prelude Loop Crc Format Rows Headers Tables Frames Regions Examples.

#[local] Opaque crc32c.

(** C35: the decoders that take bytes in memory never panic, whatever the bytes: the
    fixed headers and the slot election; the root table and the extent map; the
    header, the row and the whole-table decoder of every recovery table (for any
    count a header can carry, or under the header that parsed); record bodies,
    collection rows and value pointers; and, on a payload a Go slice can hold, the
    record and value frame walks, the value read and the cold frame length, at any
    offset (the last one at an offset inside the payload, as its caller gives it).
    The readers that go to the device are not among them. *)
Theorem parsers_never_panic (b b2 : bytes) kind :
  no_panic (ParsePrefix b) /\ no_panic (ParseMetaSlot b kind) /\ no_panic (MetaLive b b2 kind)
  /\ no_panic (ParseSegHeader b) /\ no_panic (ParseSRT b kind) /\ no_panic (ParseExtents b)
  /\ no_panic (ParseCkptHeader b) /\ no_panic (ParseSegStatsHeader b)
  /\ no_panic (ParseChunkDirHeader b) /\ no_panic (ParseBarrierHeader b)
  /\ no_panic (ParseFreeMapHeader b) /\ no_panic (ParseTTLIndexHeader b) /\ no_panic (ParseMetaKVHeader b)
  /\ no_panic (ParseCkptEntry b) /\ no_panic (ParseSegStatsEntry b) /\ no_panic (ParseFreeExtent b)
  /\ no_panic (parseChunkDirRow b)
  /\ (forall h, ParseCkptHeader b = Ok h -> no_panic (CkptEntries b h))
  /\ (forall h, ParseSegStatsHeader b = Ok h -> no_panic (SegStatsEntries b h))
  /\ (forall h, 0 <= fm_EntryCount h -> no_panic (FreeExtents b h))
  /\ (forall h, 0 <= bh_ShardCount h -> no_panic (BarrierShards b h))
  /\ (forall h, no_panic (ChunkDirCollections b h)) /\ (forall h, no_panic (TTLClasses b h))
  /\ (forall h, no_panic (MetaKVPairs b h))
  /\ no_panic (ParseRecordBody b) /\ no_panic (ParseCollOp b) /\ no_panic (ParseCollSnap b)
  /\ no_panic (ParseValuePointer b)
  /\ (zlen b <= max_alloc ->
      (forall off, 0 <= off -> no_panic (NextRecordFrame b off) /\ no_panic (NextValueFrame b off))
      /\ (forall base p, 0 <= base -> 0 <= vp_ValueLen p -> no_panic (ReadValue b base p))
      /\ (forall off, 0 <= off <= zlen b -> no_panic (coldFrameTotal b off))).
Proof.
  split_and!; auto using ParsePrefix_no_panic, ParseMetaSlot_no_panic, MetaLive_no_panic, ParseSegHeader_no_panic,
    ParseSRT_no_panic, ParseExtents_no_panic, ParseCkptHeader_no_panic, ParseSegStatsHeader_no_panic,
    ParseChunkDirHeader_no_panic, ParseBarrierHeader_no_panic, ChunkDirCollections_no_panic,
    TTLClasses_no_panic, MetaKVPairs_no_panic, ParseRecordBody_no_panic, ParseCollOp_no_panic,
    ParseCollSnap_no_panic, ParseCkptEntry_no_panic, ParseSegStatsEntry_no_panic, ParseFreeExtent_no_panic,
    parseChunkDirRow_no_panic, ParseValuePointer_no_panic; try apply count_header_no_panic.
  - intros h [(_ & _ & ? & _) _]%ParseCkptHeader_ok. apply table_rows_no_panic; lia.
  - intros h [(_ & _ & ? & _) _]%ParseSegStatsHeader_ok. apply table_rows_no_panic; lia.
  - intros h ?. by apply table_rows_no_panic.
  - intros h ?. by apply table_rows_no_panic.
  - intros Hm. split; [|split].
    + intros off Ho. unfold no_panic.
      destruct (NextRecordFrame_step b off Hm Ho) as [[e ->]|(? & ? & ? & -> & _)],
        (NextValueFrame_step b off Hm Ho) as [[e2 ->]|(? & ? & ? & -> & _)]; done.
    + intros base p ? ?. by apply ReadValue_no_panic.
    + intros off Ho. by apply coldFrameTotal_no_panic.
Qed.

(** C34: the file's roots read back as written: the prefix, a meta slot (whatever
    follows it in its sector), a segment header with the payload it sums, the shard
    root table and the extent map. *)
Theorem roots_roundtrip :
  (forall p, Prefix_wf p -> px_FormatMajor p = FormatMajor -> ParsePrefix (Prefix_Marshal p) = Ok p)
  /\ (forall m kind b post, MetaSlot_wf m -> MetaSlot_Marshal m kind = Ok b ->
        ParseMetaSlot (b ++ post) kind = Ok m)
  /\ (forall h kind payload b h', SegHeader_wf h -> is_u64 (zlen payload) ->
        SegHeader_Marshal h kind payload = Ok (b, h') ->
        ParseSegHeader b = Ok h' /\ VerifyPayload h' payload kind = None)
  /\ (forall s kind b, SRT_wf s -> SRT_Marshal s kind = Ok b -> ParseSRT b kind = Ok s)
  /\ (forall es, Forall Extent_wf es -> ParseExtents (MarshalExtents es) = Ok es).
Proof.
  split_and!; eauto using ParsePrefix_Marshal_ok, ParseMetaSlot_Marshal_ok, ParseSRT_Marshal_ok, ParseExtents_Marshal_ok.
  intros h kind payload b h' Hw Hl Hm. split; [by eapply ParseSegHeader_Marshal_ok|].
  by apply SegHeader_Marshal_verifies in Hm as [? _].
Qed.

Lemma roots_roundtrip_witness :
  ParsePrefix (Prefix_Marshal (NewPrefix 4 64 (zeros 16) 9)) = Ok (NewPrefix 4 64 (zeros 16) 9).
Proof. apply roots_roundtrip; [concrete|done]. Defined.

(** The tables recovery depends on read back as streamed: the index checkpoint,
    the segment statistics, the chunk directory, the TTL index, the free map, the
    configuration pairs and a snapshot barrier. *)
Theorem tables_roundtrip :
  (forall h es, CkptHeader_wf h -> Forall CkptEntry_wf es -> ch_EntryCount h = zlen es ->
     full_or_delta_ok (ch_FullOrDelta h) (ch_BaseCkptOff h) CkptFull CkptDelta = true ->
     ParseCkptHeader (Ckpt_stream h es) = Ok h /\ CkptEntries (Ckpt_stream h es) h = Ok es)
  /\ (forall h es, SegStatsHeader_wf h -> Forall SegStatsEntry_wf es -> sth_EntryCount h = zlen es ->
     full_or_delta_ok (sth_FullOrDelta h) (sth_BaseCkptOff h) SegStatsFull SegStatsDelta = true ->
     ParseSegStatsHeader (SegStats_stream h es) = Ok h /\ SegStatsEntries (SegStats_stream h es) h = Ok es)
  /\ (forall h cs, ChunkDirHeader_wf h -> Forall ChunkDirCollection_wf cs -> cdh_CollectionCount h = zlen cs ->
     full_or_delta_ok (cdh_FullOrDelta h) (cdh_BaseCkptOff h) ChunkDirFull ChunkDirDelta = true ->
     ParseChunkDirHeader (ChunkDir_stream h cs) = Ok h /\ ChunkDirCollections (ChunkDir_stream h cs) h = Ok cs)
  /\ (forall cs, Forall TTLClass_wf cs -> is_u64 (zlen cs) ->
     ParseTTLIndexHeader (TTLIndex_stream cs) = Ok {| th_ClassCount := zlen cs |}
     /\ TTLClasses (TTLIndex_stream cs) {| th_ClassCount := zlen cs |} = Ok cs)
  /\ (forall es, Forall FreeExtent_wf es -> is_u64 (zlen es) ->
     ParseFreeMapHeader (FreeMap_stream es) = Ok {| fm_EntryCount := zlen es |}
     /\ FreeExtents (FreeMap_stream es) {| fm_EntryCount := zlen es |} = Ok es)
  /\ (forall ps, Forall MetaKVPair_wf ps -> is_u64 (zlen ps) ->
     ParseMetaKVHeader (MetaKV_stream ps) = Ok {| mk_EntryCount := zlen ps |}
     /\ MetaKVPairs (MetaKV_stream ps) {| mk_EntryCount := zlen ps |} = Ok ps)
  /\ (forall h ss, BarrierHeader_wf h -> Forall BarrierShard_wf ss -> bh_ShardCount h = zlen ss ->
     ParseBarrierHeader (MarshalBarrier h ss) = Ok h /\ BarrierShards (MarshalBarrier h ss) h = Ok ss).
Proof.
  split_and!; [apply Ckpt_stream_ok|apply SegStats_stream_ok|apply ChunkDir_stream_ok|apply TTLIndex_stream_ok
    |apply FreeMap_stream_ok|apply MetaKV_stream_ok|apply MarshalBarrier_ok].
Qed.

Lemma tables_roundtrip_witness :
  FreeExtents (FreeMap_stream [mkFreeExtent 16384 4096 0]) {| fm_EntryCount := 1 |}
  = Ok [mkFreeExtent 16384 4096 0].
Proof. apply tables_roundtrip; [concrete|done]. Defined.

(** A framed record or value, anywhere in a payload, is read back with its
    frame and the offset of the next one; a collection row reads back from its
    value; and the varints that frame them read back with their length. *)
Theorem frames_roundtrip :
  (forall pre row post, RecordRow_wf row -> zlen ((AppendRecordFrame pre row).1 ++ post) <= max_alloc ->
     NextRecordFrame ((AppendRecordFrame pre row).1 ++ post) (zlen pre)
     = Ok ((AppendRecordFrame pre row).2, row, zlen (AppendRecordFrame pre row).1))
  /\ (forall pre val post, zlen ((AppendValueFrame pre val).1 ++ post) <= max_alloc ->
     NextValueFrame ((AppendValueFrame pre val).1 ++ post) (zlen pre)
     = Ok ((AppendValueFrame pre val).2, val, zlen (AppendValueFrame pre val).1))
  /\ (forall row, is_u8 (co_Kind row) -> is_u8 (co_Op row) ->
     zlen (co_SubKey row) + zlen (co_SubValue row) <= max_alloc -> ParseCollOp (AppendCollOp [] row) = Ok row)
  /\ (forall row, is_u8 (cs_Kind row) -> zlen (cs_Header row) + zlen (cs_ElementRun row) <= max_alloc ->
     ParseCollSnap (AppendCollSnap [] row) = Ok row)
  /\ (forall x post, is_u64 x -> Uvarint (PutUvarint x ++ post) = (x, zlen (PutUvarint x))).
Proof.
  split_and!; [apply NextRecordFrame_put|apply NextValueFrame_put|apply ParseCollOp_put|apply ParseCollSnap_put
    |apply Uvarint_Put].
Qed.

Lemma frames_roundtrip_witness :
  ParseCollSnap (AppendCollSnap [] (mkCollSnapRow CollKindList (str "h") (str "run")))
  = Ok (mkCollSnapRow CollKindList (str "h") (str "run")).
Proof. apply frames_roundtrip; concrete. Defined.

(** C33: the election is safe.  The elected slot is a whole one and no whole slot is
    newer; slot A wins a tie; and a slot whose summed bytes differ from a whole one's
    within any window of four bytes is rejected, so the other slot is elected. *)
Theorem meta_election :
  (forall a b kind m which, MetaLive a b kind = Ok (m, which) ->
     (which = 0 /\ ParseMetaSlot a kind = Ok m
        /\ forall mb, ParseMetaSlot b kind = Ok mb -> ms_CommitSeq mb <= ms_CommitSeq m)
     \/ (which = 1 /\ ParseMetaSlot b kind = Ok m
        /\ forall ma, ParseMetaSlot a kind = Ok ma -> ms_CommitSeq ma < ms_CommitSeq m))
  /\ (forall p x y s a kind m m', zlen (p ++ x ++ s) = MetaSlotSize -> zlen p + zlen x <= 120 ->
     length x = length y -> zlen x <= 4 -> x <> y ->
     ParseMetaSlot (p ++ x ++ s) kind = Ok m -> ParseMetaSlot a kind = Ok m' ->
     ParseMetaSlot (p ++ y ++ s) kind = Err ErrChecksum
     /\ MetaLive a (p ++ y ++ s) kind = Ok (m', 0) /\ MetaLive (p ++ y ++ s) a kind = Ok (m', 1)).
Proof.
  split; [apply MetaLive_ok|]. intros p x y s a kind m m' Hz Hp Hl Hw Hne Hm Ha.
  pose proof (ParseMetaSlot_burst p x y s kind m Hz Hp Hl Hw Hne Hm) as Hb.
  split; [exact Hb|]. unfold MetaLive. by rewrite Hb, Ha.
Qed.

Definition ex_slot : MetaSlot :=
  {| ms_CommitSeq := 3; ms_GlobalSeq := 0; ms_SRTOff := 0; ms_SRTLen := 0;
     ms_SRTShardCount := 0; ms_ExtentTableOff := 0; ms_ExtentTableLen := 0;
     ms_TTLIndexLen := 0; ms_TTLIndexOff := 0; ms_FreeMapOff := 0;
     ms_FileSize := 16384; ms_LiveBytes := 0; ms_DeadBytes := 0;
     ms_RecordCount := 0; ms_LastCkptUnix := 0; ms_CleanShutdown := 1; ms_MetaKVOff := 0 |}.

Lemma meta_election_witness :
  exists b y s, MetaSlot_Marshal ex_slot ChecksumCRC32C = Ok b /\ MetaLive b (y ++ s) ChecksumCRC32C = Ok (ex_slot, 0).
Proof.
  destruct (MetaSlot_Marshal ex_slot ChecksumCRC32C) as [b|e|] eqn:Hm;
    [|unfold MetaSlot_Marshal in Hm; by rewrite checksum_CRC32C in Hm..].
  assert (Hw : MetaSlot_wf ex_slot) by concrete.
  pose proof (ParseMetaSlot_Marshal_ok ex_slot _ b [] Hw Hm) as Hp. rewrite app_nil_r in Hp.
  apply MetaSlot_Marshal_ok in Hm as Hz. destruct Hz as (_ & _ & _ & Hz).
  destruct b as [|x s]; [done|]. set (y := if decide (x = Byte.x00) then Byte.x01 else Byte.x00).
  exists (x :: s), [y], s. split; [done|].
  apply (proj2 meta_election [] [x] [y] s (x :: s) ChecksumCRC32C ex_slot ex_slot); try done.
  unfold y. destruct (decide _); congruence.
Defined.

(** The reclaim set of the TTL index is exact: a segment is returned if and only
    if it belongs to a class whose upper expiry bound has passed; and the free-map
    totals split the free bytes into available and pending without loss. *)
Theorem reclaim_exact :
  (forall classes now s, s ∈ ExpiredSegments classes now <->
     exists c, c ∈ classes /\ tc_ExpiryUpperUnix c <= now /\ s ∈ tc_Segments c)
  /\ (forall es, Forall FreeExtent_wf es -> sum_length es < two64 ->
     FreeMapTotals es = (sum_length (filter (fun e => is_pending e = false) es),
                         sum_length (filter (fun e => is_pending e = true) es))).
Proof. split; [apply ExpiredSegments_in|apply FreeMapTotals_exact]. Qed.

Lemma reclaim_exact_witness :
  FreeMapTotals [mkFreeExtent 0 5 0; mkFreeExtent 8 7 FreeMapPending] = (5, 7).
Proof. rewrite (proj2 reclaim_exact); [done|concrete|done]. Defined.
