(* ===== verification/FileTheorems.v ===== *)
(** What an open .aki file guarantees: create, append, commit, checkpoint and
    reopen, on a healthy device, on a failing one and across a power loss. *)

From S2P Require Import Prelude Loop Crc Format Rows Headers Tables Frames Device Scan File Rebuild Recovery Regions Crash Examples.

#[local] Opaque ParsePrefix ParseMetaSlot ParseSegHeader VerifyPayload crc32c ParseSRT.

(** ** Append and reopen *)

(** C3: on a healthy device with room, a group append succeeds and returns the
    offsets of the group's segments, each stamped with the next sequence.  Whatever
    stale bytes lie past the append cursor, any open that then succeeds finds a log
    that starts with the old log and the group.  It finds exactly these, and does
    open, when the file has no bytes past its cursor ([tidy]: every earlier append
    succeeded), or when the bytes past the group are not an intact segment; without
    that a stale segment of a torn run can follow the group. *)
Theorem append_reopen {D} `{DeviceLaws D} (f : File D) m segs g time_Now opts :
  file_inv f m segs -> healthy (fl_dev f) -> Forall Pending_wf g ->
  fl_globalSeq f + zlen g < two64 -> group_end (fl_cursor f) g < two63 ->
  let new := group_segs (fl_globalSeq f + 1) (fl_cursor f) g in
  exists f' offs, AppendGroup f g = (f', offs, Ok tt) /\ offs = sg_off <$> new
    /\ let c := contents (fl_dev f') in
       (zlen c < two63 -> forall f2, OpenOnDevice time_Now (fl_dev f') opts = Ok f2 ->
          exists stale, log c ChecksumCRC32C PageSize (segs ++ new ++ stale) (fl_cursor f2))
       /\ (tidy f segs
            \/ (zlen c < two63 /\ torn c ChecksumCRC32C (zlen c) (group_end (fl_cursor f) g)) ->
            exists f2, OpenOnDevice time_Now (fl_dev f') opts = Ok f2
              /\ file_inv f2 m (segs ++ new) /\ fl_cursor f2 = group_end (fl_cursor f) g
              /\ (tidy f segs -> fl_globalSeq f2 = fl_globalSeq f + zlen g)).
Proof.
  intros Hi Hh Hw Hb He new.
  destruct (AppendGroup_healthy f m segs g Hi Hh Hw Hb He) as (f' & offs & Ha & Hh').
  destruct (AppendGroup_inv _ _ _ _ _ _ _ Hi Hw Hb Ha) as (Hi' & Ho & _ & _ & _ & Hok).
  destruct (Hok eq_refl) as (Hn & Hc & Hs & Ht'). fold new in Hi', Ho, Ht'.
  rewrite Hn, take_ge in Hi', Ho, Ht' by (unfold new; rewrite length_group_segs; lia).
  exists f', offs. split; [done|]. split; [done|]. cbv zeta. split.
  - intros Hz f2 Hop. destruct (OpenOnDevice_covers _ _ _ _ _ _ Hi' ltac:(lia) Hz Hop) as [_ [stale Hl]].
    exists stale. by rewrite app_assoc.
  - intros Hcase.
    assert (zlen (contents (fl_dev f')) < two63
      /\ torn (contents (fl_dev f')) ChecksumCRC32C (zlen (contents (fl_dev f'))) (fl_cursor f')) as [Hz Htn].
    { rewrite Hc. destruct Hcase as [[Hz Hm]%Ht'|?]; [|done]. split; [lia|]. left. lia. }
    destruct (OpenOnDevice_inv time_Now f' m _ opts Hi') as (f2 & Hop & Hi2 & _ & _ & Hc2 & _ & Hs2 & _);
      [lia|done|done|].
    exists f2. split_and!; [done|done|lia|]. intros [_ Hm]%Ht'. congruence.
Qed.

Lemma append_reopen_witness :
  exists f f' offs f2, file_inv f fresh_meta [] /\ AppendGroup f [ex_pending] = (f', offs, Ok tt)
    /\ OpenOnDevice ex_clock (fl_dev (D:=Disk) f') ex_open = Ok f2 /\ fl_globalSeq f2 = 1.
Proof.
  destruct (ex_file SyncAlways []) as (f & Hi & Ht & Hh & _ & Hc & Hs & _).
  destruct (append_reopen f fresh_meta [] [ex_pending] ex_clock ex_open Hi Hh) as (f' & offs & Ha & _ & _ & Hopen).
  - constructor; [apply ex_pending_wf|constructor].
  - rewrite Hs. done.
  - rewrite Hc. done.
  - destruct (Hopen (or_introl Ht)) as (f2 & Ho & _ & _ & Hq).
    exists f, f', offs, f2. split_and!; try done. by rewrite (Hq Ht), Hs.
Defined.

(** C4: whatever the device does (short writes, write errors, a failed flush), a
    group append keeps the invariant: the log grows by exactly the segments whose
    offsets come back, nothing below the old cursor changes, the root stays live,
    and success means the whole group landed. *)
Theorem append_every_outcome {D} `{DeviceLaws D} (f : File D) m segs g f' offs r :
  file_inv f m segs -> Forall Pending_wf g -> fl_globalSeq f + zlen g < two64 ->
  AppendGroup f g = (f', offs, r) ->
  let new := take (length offs) (group_segs (fl_globalSeq f + 1) (fl_cursor f) g) in
  file_inv f' m (segs ++ new) /\ offs = sg_off <$> new
  /\ keeps 0 (fl_cursor f) (contents (fl_dev f)) (contents (fl_dev f'))
  /\ r <> Panic
  /\ (r = Ok tt -> length offs = length g /\ fl_cursor f' = group_end (fl_cursor f) g).
Proof.
  intros Hi Hw Hb Ha.
  destruct (AppendGroup_inv _ _ _ _ _ _ _ Hi Hw Hb Ha) as (? & ? & (_&_&_&_&?) & _ & ? & Hok).
  split_and!; try done; intros Hr; by destruct (Hok Hr) as (? & ? & _).
Qed.

Lemma append_every_outcome_witness :
  exists f f' e, dk_faults (fl_dev f) = [FWrite 3 (Some ErrIO)]
    /\ AppendGroup f [ex_pending] = (f', [], Err e) /\ file_inv f' fresh_meta [].
Proof.
  destruct (ex_file SyncAlways [FWrite 3 (Some ErrIO)]) as (f & Hi & _ & Hf & _ & Hc & Hs & _).
  destruct (AppendGroup f [ex_pending]) as [[f' offs] r] eqn:Ha.
  pose proof (append_every_outcome f fresh_meta [] [ex_pending] f' offs r Hi) as Hout.
  assert (Hfail : offs = [] /\ r = Err ErrIO).
  { destruct (append_refused f _ _ ex_pending 3 [] Hi) as (f1 & Ha1 & _); [by rewrite Hc|done|].
    rewrite Ha in Ha1. by injection Ha1 as _ -> ->. }
  destruct Hfail as [-> ->]. exists f, f', ErrIO. split_and!; [done|done|].
  apply Hout; [|by rewrite Hs|done]. constructor; [apply ex_pending_wf|constructor].
Defined.

(** Creating a file on any healthy device and opening it gives an empty log
    at the header page, sequence 0, the fresh root and the prefix the options ask
    for. *)
Theorem create_open {D} `{DeviceLaws D} time_Now (dev : D) opts oopts :
  healthy dev -> CreateOptions_wf opts ->
  exists dev' f f2, CreateOnDevice time_Now dev opts = (dev', Ok f)
    /\ OpenOnDevice time_Now dev' oopts = Ok f2
    /\ file_inv f2 fresh_meta [] /\ fl_cursor f2 = PageSize /\ fl_globalSeq f2 = 0
    /\ fl_prefix f2 = NewPrefix (cro_ShardCount opts) (cro_SepThreshold opts) (cro_UUID opts)
                        (cro_CreatedUnixNanos opts).
Proof.
  intros Hh Hw.
  destruct (CreateOnDevice_ok time_Now dev opts Hh Hw) as (d & f & Hc & Hd & _ & Hi & Ht & Hcu & Hs & Hp & _).
  pose proof Ht as [Hz _].
  destruct (OpenOnDevice_inv time_Now f fresh_meta [] oopts Hi)
    as (f2 & Ho & Hi2 & _ & Hp2 & Hc2 & _ & Hs2 & _); [rewrite Hcu; lia|lia|by eapply tidy_torn|].
  exists d, f, f2. rewrite <- Hd. split_and!; try done; congruence.
Qed.

Lemma create_open_witness :
  exists dev' f f2, CreateOnDevice ex_clock ex_disk (ex_create SyncNo) = (dev', Ok f)
    /\ OpenOnDevice ex_clock dev' ex_open = Ok f2 /\ fl_cursor f2 = PageSize.
Proof.
  destruct (create_open ex_clock ex_disk (ex_create SyncNo) ex_open) as (d & f & f2 & ? & ? & _ & ? & _);
    [done|apply ex_create_wf|]. eauto 10.
Defined.

(** ** Commits *)

(** A commit on a healthy device succeeds, makes the given root live in the
    other slot under the next commit sequence with the file's sequence and size
    stamped, and leaves the log alone; so successive commits alternate slots. *)
Theorem commit_flips {D} `{DeviceLaws D} (f : File D) m0 segs m :
  file_inv f m0 segs -> healthy (fl_dev f) -> MetaSlot_wf m -> fl_commitSeq f + 1 < two64 ->
  exists f', CommitRoots f m = (f', Ok tt) /\ file_inv f' (stamp_meta f m) segs
    /\ fl_liveSlot f' = 1 - fl_liveSlot f /\ fl_commitSeq f' = fl_commitSeq f + 1
    /\ ms_GlobalSeq (stamp_meta f m) = fl_globalSeq f /\ ms_FileSize (stamp_meta f m) = fl_cursor f.
Proof.
  intros Hi Hh Hw Hb. destruct (CommitRoots_healthy f segs m (proj1 Hi) Hh) as (f' & Hc & _).
  destruct (CommitRoots_ok _ _ _ _ _ Hi Hw Hb Hc) as (? & ? & ? & _). exists f'. by split_and!.
Qed.

Lemma commit_flips_witness :
  exists f f', file_inv f fresh_meta [] /\ CommitRoots f ex_meta = (f', Ok tt)
    /\ fl_commitSeq (D:=Disk) f' = 1.
Proof.
  destruct (ex_file SyncNo []) as (f & Hi & _ & Hf & _ & _ & _ & Hcs & _).
  destruct (commit_flips f fresh_meta [] ex_meta Hi) as (f' & Hc & _ & _ & Hq & _);
    [done|apply fresh_meta_wf|by rewrite Hcs|].
  exists f, f'. split_and!; try done. by rewrite Hq, Hcs.
Defined.

(** C1: power loss during a commit, on a file with no bytes past its log and no
    earlier unflushed write.  Whichever sectors of the slot write reached
    the media, the file reopens at the same log with the old root or the new one;
    after a commit that returned success, with the new one. *)
Theorem commit_crash_atomic (f : File Disk) m0 segs m f' r img time_Now opts :
  file_inv f m0 segs -> tidy f segs -> fl_cursor f < two63 ->
  dk_pending (fl_dev f) = [] -> no_short_write (dk_faults (fl_dev f)) ->
  MetaSlot_wf m -> fl_commitSeq f + 1 < two64 ->
  CommitRoots f m = (f', r) -> crash_image (fl_dev f') img ->
  exists f2 m2, OpenOnDevice time_Now (reboot img) opts = Ok f2 /\ file_inv f2 m2 segs
    /\ fl_cursor f2 = fl_cursor f
    /\ (m2 = m0 \/ m2 = stamp_meta f m) /\ (r = Ok tt -> m2 = stamp_meta f m).
Proof. apply commit_crash. Qed.

Lemma commit_crash_atomic_witness :
  exists f f' f2 m2, CommitRoots f ex_meta = (f', Err ErrIO)
    /\ OpenOnDevice ex_clock (reboot (contents (fl_dev f))) ex_open = Ok f2 /\ file_inv f2 m2 [].
Proof.
  destruct (ex_file SyncNo [FNone; FSync]) as (f & Hi & Ht & Hf & Hp & Hc & _ & Hcs & _).
  destruct (commit_unflushed f ex_meta [] (dk_durable (fl_dev f)) []) as (f' & b & Hcm & _ & Hd).
  { apply Hi. }
  { by destruct Hi as [_ [(Hw & _)%live_root_slots _]]. }
  { destruct (fl_dev f). cbn in *. congruence. }
  destruct (commit_crash_atomic f fresh_meta [] ex_meta f' (Err ErrIO) (contents (fl_dev f)) ex_clock ex_open)
    as (f2 & m2 & Ho & Hi2 & _); try done.
  - rewrite Hc. done.
  - rewrite Hf. repeat constructor.
  - by rewrite Hcs.
  - unfold crash_image. rewrite Hd. cbn [dk_durable dk_pending app].
    replace (contents (fl_dev f)) with (dk_durable (fl_dev f)) by (cbn; unfold disk_contents; by rewrite Hp).
    apply crash_none.
  - exists f, f', f2, m2. by split_and!.
Defined.

(** ** Appends across a power loss *)

(** C2: under [SyncAlways], on a disk with no earlier unflushed write, an append
    that returned success survives every power loss: whatever the disk comes back
    with, an open that succeeds finds a log that starts with the old log and the
    whole group.  The file does reopen, with the group at the very end of its log,
    when it had no bytes past its cursor before the append ([tidy]), or when the
    bytes past the group are not an intact segment; without that a stale segment of
    an earlier torn run can follow the group. *)
Theorem append_ack_durable (f : File Disk) m segs g f' offs img time_Now opts :
  file_inv f m segs -> dk_pending (fl_dev f) = [] -> fl_sync f = SyncAlways ->
  Forall Pending_wf g -> fl_globalSeq f + zlen g < two64 -> group_end (fl_cursor f) g < two63 ->
  AppendGroup f g = (f', offs, Ok tt) -> crash_image (fl_dev f') img ->
  let new := group_segs (fl_globalSeq f + 1) (fl_cursor f) g in
  (zlen img < two63 -> forall f2, OpenOnDevice time_Now (reboot img) opts = Ok f2 ->
     exists stale, log img ChecksumCRC32C PageSize (segs ++ new ++ stale) (fl_cursor f2))
  /\ (tidy f segs
       \/ (zlen img < two63 /\ torn img ChecksumCRC32C (zlen img) (group_end (fl_cursor f) g)) ->
       exists f2, OpenOnDevice time_Now (reboot img) opts = Ok f2
         /\ file_inv f2 m (segs ++ new) /\ fl_cursor f2 = fl_cursor f').
Proof.
  intros Hi Hp Hsy Hw Hb He Ha Himg new.
  destruct (AppendGroup_disk _ _ _ _ _ _ _ Hi Hp Hw Hb Ha) as [_ Hfl]. specialize (Hfl Hsy eq_refl).
  apply (crash_flushed _ _ Hfl) in Himg as ->.
  destruct (AppendGroup_inv _ _ _ _ _ _ _ Hi Hw Hb Ha) as (Hi' & _ & _ & _ & _ & Hok).
  destruct (Hok eq_refl) as (Hn & Hc & Hs & Ht'). fold new in Hi', Ht'.
  rewrite Hn, take_ge in Hi', Ht' by (unfold new; rewrite length_group_segs; lia).
  split.
  - intros Hz f2 Hop.
    assert (Hre : file_inv (with_dev f' (reboot (contents (fl_dev f')))) m (segs ++ new)) by (by apply file_inv_reboot).
    destruct (OpenOnDevice_covers _ _ _ _ _ _ Hre ltac:(fsimpl; lia) ltac:(fsimpl; done) Hop) as [_ [stale Hl]].
    exists stale. by rewrite app_assoc.
  - intros Hcase.
    assert (zlen (contents (fl_dev f')) < two63
      /\ torn (contents (fl_dev f')) ChecksumCRC32C (zlen (contents (fl_dev f'))) (fl_cursor f')) as [Hz Htn].
    { rewrite Hc. destruct Hcase as [[Hz Hm]%Ht'|?]; [|done]. split; [lia|]. left. lia. }
    destruct Hi' as [[] [? _]].
    edestruct (reopen_image time_Now opts (contents (fl_dev f'))) as (f2 & Ho & Hi2 & Hc2 & _);
      [done|done|lia|done|done|lia|done|done|done|]. by exists f2.
Qed.

Lemma append_ack_durable_witness :
  exists f f' offs f2, AppendGroup f [ex_pending] = (f', offs, Ok tt)
    /\ crash_image (fl_dev f') (dk_durable (fl_dev f'))
    /\ OpenOnDevice ex_clock (reboot (dk_durable (fl_dev f'))) ex_open = Ok f2
    /\ file_inv f2 fresh_meta (group_segs 1 PageSize [ex_pending]).
Proof.
  destruct (ex_file SyncAlways []) as (f & Hi & Ht & Hh & Hp & Hc & Hs & _ & _ & Hsy).
  assert (Hg : Forall Pending_wf [ex_pending]) by (constructor; [apply ex_pending_wf|constructor]).
  destruct (AppendGroup_healthy f _ _ _ Hi Hh Hg) as (f' & offs & Ha & _); [by rewrite Hs|by rewrite Hc|].
  pose proof (crash_none (dk_durable (fl_dev f')) (dk_pending (fl_dev f'))) as Himg.
  destruct (append_ack_durable f fresh_meta [] [ex_pending] f' offs (dk_durable (fl_dev f')) ex_clock ex_open)
    as [_ Hopen]; try done; [by rewrite Hs|by rewrite Hc|].
  destruct (Hopen (or_introl Ht)) as (f2 & Ho & Hi2 & _).
  rewrite Hs, Hc in Hi2. exists f, f', offs, f2. by split_and!.
Defined.

(** An append never damages what came before it.  Whatever the fault and
    whichever sectors a power loss keeps of it, the earlier log and the live root
    read back unchanged, and if the image is torn at the old end of the log the
    file reopens there. *)
Theorem append_crash_preserves (f : File Disk) m segs g f' offs r img time_Now opts :
  file_inv f m segs -> dk_pending (fl_dev f) = [] -> Forall Pending_wf g ->
  fl_globalSeq f + zlen g < two64 -> AppendGroup f g = (f', offs, r) ->
  crash_image (fl_dev f') img ->
  live_root img ChecksumCRC32C = Ok (m, fl_liveSlot f)
  /\ log img ChecksumCRC32C PageSize segs (fl_cursor f)
  /\ (torn img ChecksumCRC32C (zlen img) (fl_cursor f) -> fl_cursor f < two63 -> zlen img < two63 ->
      exists f2, OpenOnDevice time_Now (reboot img) opts = Ok f2 /\ file_inv f2 m segs
        /\ fl_cursor f2 = fl_cursor f).
Proof.
  intros Hi Hp Hw Hb Ha Himg. pose proof (append_crash _ _ _ _ _ _ _ _ Hi Hp Hw Hb Ha Himg) as Hk.
  destruct Hi as [Hi [Hr Hcs]]. pose proof (log_le _ _ _ _ _ (li_log _ _ Hi)).
  pose proof (li_page _ _ Hi).
  assert (Hroot : live_root img ChecksumCRC32C = Ok (m, fl_liveSlot f)).
  { rewrite (root_keeps (contents (fl_dev f))); [done|done|]. eapply keeps_mono; [| |exact Hk]; [done|lia]. }
  assert (Hi2 : log_inv (with_dev f (reboot img)) segs) by (by apply log_inv_dev).
  split_and!; [done|apply Hi2|]. intros Htn Hc Hz. destruct Hi2.
  edestruct (reopen_image time_Now opts img) as (f2 & ? & ? & ? & _);
    [done|done|cbn in *; lia|done|done|done|done|done|done|]. by exists f2.
Qed.

Lemma append_crash_preserves_witness :
  exists f f' offs f2, AppendGroup f [ex_pending] = (f', offs, Ok tt)
    /\ dk_pending (fl_dev f') <> [] /\ crash_image (fl_dev f') (dk_durable (fl_dev f'))
    /\ OpenOnDevice ex_clock (reboot (dk_durable (fl_dev f'))) ex_open = Ok f2
    /\ file_inv f2 fresh_meta [].
Proof.
  destruct (ex_file SyncNo [FNone; FNone]) as (f & Hi & [Hz _] & Hf & Hp & Hc & Hs & _ & _ & Hsy).
  destruct (append_one_disk f fresh_meta [] ex_pending [] Hi ex_pending_wf) as (f' & hb & Ha & Hd);
    [by rewrite Hs|by rewrite Hc|done|done|].
  assert (Hdur : dk_durable (fl_dev f') = contents (fl_dev f)).
  { rewrite Hd. cbn. unfold disk_contents. by rewrite Hp. }
  destruct (append_crash_preserves f fresh_meta [] [ex_pending] f' [fl_cursor f] (Ok tt) (dk_durable (fl_dev f'))
    ex_clock ex_open Hi Hp) as (_ & _ & Hopen);
    [constructor; [apply ex_pending_wf|constructor]|by rewrite Hs|done|apply crash_none|].
  destruct Hopen as (f2 & Ho & Hi2 & _).
  - left. rewrite Hdur. lia.
  - by rewrite Hc.
  - rewrite Hdur. rewrite Hc in Hz. lia.
  - exists f, f', [fl_cursor f], f2. split_and!; [done| |apply crash_none|done|done].
    rewrite Hd, Hp. done.
Defined.

(** ** Checkpoints *)

(** C5: a checkpoint on a healthy device succeeds, and recovery then elects its
    root (clean or crashed as the caller said) and reads back the shard root table
    and the extent map it was given. *)
Theorem checkpoint_recovers {D} `{DeviceLaws D} (f : File D) m0 segs srt extents stats globals :
  file_inv f m0 segs -> tidy f segs -> healthy (fl_dev f) -> SRT_wf srt -> Forall Extent_wf extents ->
  CheckpointStats_wf stats -> CheckpointGlobals_wf globals ->
  SRTHeaderLen + zlen (srt_Rows srt) * SRTRowSize < two32 -> zlen extents * ExtentSize < two32 ->
  fl_globalSeq f + 2 < two64 -> fl_commitSeq f + 1 < two64 -> fl_cursor f + 4 * two32 < two63 ->
  zlen (srt_Rows srt) = px_ShardCount (fl_prefix f) ->
  exists f', CheckpointWithGlobals f srt extents stats globals = (f', Ok tt)
    /\ (zlen (contents (fl_dev f')) < two63 ->
        let m := checkpoint_root (fl_commitSeq f + 1) (fl_globalSeq f') (fl_cursor f) (fl_cursor f')
                   srt extents stats globals in
        ReadOpenState (fl_dev f') =
          Ok {| os_Prefix := fl_prefix f; os_Meta := Some m; os_Which := 1 - fl_liveSlot f;
                os_Outcome := if ck_Clean stats then OpenClean else OpenCrashed |}
        /\ ReadSRT (fl_dev f') (fl_prefix f) (Some m) = Ok (Some srt)
        /\ ReadExtentTable (fl_dev f') (Some m) = Ok extents).
Proof.
  intros Hi Ht Hh Hs He Hst Hg Hsz Hez Hgs Hcs Hcur Hr.
  destruct (CheckpointWithGlobals_healthy f m0 segs srt extents stats globals Hi Hh Hsz Hez Hgs Hcur)
    as (f' & Hc & _).
  exists f'. split; [done|]. intros Hz. apply (checkpoint_reads f m0 segs); try done. lia.
Qed.

Lemma checkpoint_recovers_witness :
  exists f f', CheckpointWithGlobals f ex_srt [] ex_stats ex_globals = (f', Ok tt)
    /\ file_inv (D:=Disk) f fresh_meta [].
Proof.
  destruct (ex_file SyncAlways []) as (f & Hi & Ht & Hh & _ & Hc & Hs & Hcs & Hn & _).
  destruct (checkpoint_recovers f fresh_meta [] ex_srt [] ex_stats ex_globals Hi Ht Hh) as (f' & Hck & _);
    try (rewrite ?Hc, ?Hs, ?Hcs; done); [apply ex_srt_wf|].
  by exists f, f'.
Defined.

(** C6: power loss anywhere in a checkpoint under [SyncAlways], on a disk whose
    flushes may fail: the live root is the old one, or the new one with the shard
    root table it names readable. *)
Theorem checkpoint_crash_safe (f : File Disk) m0 segs srt extents stats globals f' r img :
  file_inv f m0 segs -> fl_sync f = SyncAlways -> dk_pending (fl_dev f) = [] ->
  no_short_write (dk_faults (fl_dev f)) -> SRT_wf srt ->
  CheckpointStats_wf stats -> CheckpointGlobals_wf globals ->
  SRTHeaderLen + zlen (srt_Rows srt) * SRTRowSize < two32 -> zlen extents * ExtentSize < two32 ->
  fl_globalSeq f + 2 < two64 -> fl_commitSeq f + 1 < two64 -> fl_cursor f < two63 ->
  zlen (srt_Rows srt) = px_ShardCount (fl_prefix f) ->
  CheckpointWithGlobals f srt extents stats globals = (f', r) ->
  crash_image (fl_dev f') img -> zlen img < two63 ->
  live_root img ChecksumCRC32C = Ok (m0, fl_liveSlot f)
  \/ exists m1, live_root img ChecksumCRC32C = Ok (m1, 1 - fl_liveSlot f)
       /\ ReadSRT (reboot img) (fl_prefix f) (Some m1) = Ok (Some srt).
Proof. apply checkpoint_crash. Qed.

Lemma checkpoint_crash_safe_witness :
  exists f f' r img, CheckpointWithGlobals f ex_srt [] ex_stats ex_globals = (f', r)
    /\ crash_image (fl_dev f') img
    /\ (live_root img ChecksumCRC32C = Ok (fresh_meta, fl_liveSlot f)
        \/ exists m1, live_root img ChecksumCRC32C = Ok (m1, 1 - fl_liveSlot f)
             /\ ReadSRT (reboot img) (fl_prefix f) (Some m1) = Ok (Some ex_srt)).
Proof.
  destruct (ex_checkpoint SyncAlways) as (f & f' & Hi & Ht & Hf & Hp & Hc & Hs & Hcs & Hn & Hsy & Hck & Hz).
  exists f, f', (Ok tt), (contents (fl_dev f')). split_and!; [done|apply crash_all|].
  apply (checkpoint_crash_safe f fresh_meta [] ex_srt [] ex_stats ex_globals f' (Ok tt));
    try (rewrite ?Hc, ?Hs, ?Hcs; done);
    [rewrite Hf; repeat constructor|apply ex_srt_wf|apply crash_all].
Defined.

(** C40: under [SyncNo] the commit's one flush does not order the shard root table
    before the slot that names it: a power loss before that flush can keep the slot
    and lose the table, and recovery then fails with an unexpected end of file. *)
Theorem checkpoint_unordered_loses (f : File Disk) m0 segs srt stats :
  file_inv f m0 segs -> tidy f segs -> dk_pending (fl_dev f) = [] -> fl_sync f = SyncNo ->
  dk_faults (fl_dev f) = [FNone; FNone; FNone; FSync] ->
  SRT_wf srt -> CheckpointStats_wf stats ->
  SRTHeaderLen + zlen (srt_Rows srt) * SRTRowSize < two32 ->
  zlen (srt_Rows srt) = px_ShardCount (fl_prefix f) ->
  fl_globalSeq f + 2 < two64 -> fl_commitSeq f + 1 < two64 -> fl_cursor f + two32 < two63 ->
  exists f' img, Checkpoint f srt [] stats = (f', Err ErrIO)
    /\ crash_image (fl_dev f') img /\ Recover (reboot img) = Err EOF.
Proof. apply checkpoint_unordered. Qed.

Lemma checkpoint_unordered_loses_witness :
  exists f f' img, file_inv f fresh_meta [] /\ Checkpoint f ex_srt [] ex_stats = (f', Err ErrIO)
    /\ crash_image (fl_dev f') img /\ Recover (reboot img) = Err EOF.
Proof.
  destruct (ex_file SyncNo [FNone; FNone; FNone; FSync]) as (f & Hi & Ht & Hf & Hp & Hc & Hs & Hcs & Hn & Hsy).
  destruct (checkpoint_unordered_loses f fresh_meta [] ex_srt ex_stats Hi Ht Hp Hsy Hf ex_srt_wf ex_stats_wf)
    as (f' & img & ? & ? & ?); try (rewrite ?Hc, ?Hs, ?Hcs; done).
  exists f, f', img. by split_and!.
Defined.

(** ** Replay *)

(** C7: over a log that ends where a segment is torn or missing, [ReplayTail]
    visits every segment, in file order, with its offset, header and verified
    payload, stops where the visitor asks, and returns the end of the log. *)
Theorem replay_complete {D} `{DeviceLaws D} {St} (dev : D) prefix from size (visit : visitor St) st segs to :
  readable dev -> 0 <= from -> size < two63 -> to < two63 ->
  log (contents dev) (px_ChecksumKind prefix) from segs to ->
  (forall s, s ∈ segs -> sg_off s + SegHeaderLen + zlen (sg_payload s) <= size) ->
  torn (contents dev) (px_ChecksumKind prefix) size to ->
  ReplayTail dev prefix from size (Some visit) st = fold_visit visit st segs to.
Proof. apply ReplayTail_log. Qed.

Lemma replay_complete_witness :
  exists f : File Disk, ReplayTail (fl_dev f) (fl_prefix f) PageSize (fl_cursor f) (Some scan_visit) 0
    = Ok (fl_cursor f, 1, None).
Proof.
  destruct (ex_appended ex_pending ex_pending_wf) as (f & Hi & Ht & Hh & Hz & Hs & Hk & _); [done|].
  exists f. pose proof (li_log _ _ (proj1 Hi)) as Hl.
  rewrite (replay_complete (fl_dev f) (fl_prefix f) PageSize (fl_cursor f) scan_visit 0
    [mkSeg PageSize (stamped 1 ex_pending) (pn_Payload ex_pending)] (fl_cursor f));
    try (rewrite ?Hk; done); try lia.
  - intros s Hin. by eapply log_fits.
  - left. lia.
Defined.

(** C8: [ReplayTail] never invents a segment: whatever is on the device, the walk
    it makes is the walk over a run of intact, checksummed segments starting at
    [from], and it returns that walk's result. *)
Theorem replay_sound {D} `{DeviceLaws D} {St} (dev : D) prefix from size (visit : visitor St) st r :
  is_u64 from -> ReplayTail dev prefix from size (Some visit) st = Ok r ->
  exists segs to, log (contents dev) (px_ChecksumKind prefix) from segs to
    /\ fold_visit visit st segs to = Ok r /\ is_u64 to.
Proof. apply ReplayTail_sound. Qed.

Lemma replay_sound_witness :
  exists (f : File Disk) segs to, ReplayTail (fl_dev f) (fl_prefix f) PageSize (fl_cursor f) (Some scan_visit) 0 = Ok (fl_cursor f, 1, None)
    /\ log (contents (fl_dev f)) ChecksumCRC32C PageSize segs to
    /\ fold_visit scan_visit 0 segs to = Ok (fl_cursor f, 1, None) /\ is_u64 to.
Proof.
  destruct (ex_appended ex_pending ex_pending_wf) as (f & Hi & Ht & Hh & Hz & Hs & Hk & _); [done|].
  pose proof (li_log _ _ (proj1 Hi)) as Hl.
  assert (Hr : ReplayTail (fl_dev f) (fl_prefix f) PageSize (fl_cursor f) (Some scan_visit) 0 = Ok (fl_cursor f, 1, None)).
  { rewrite (ReplayTail_log (fl_dev f) (fl_prefix f) PageSize (fl_cursor f) scan_visit 0
      [mkSeg PageSize (stamped 1 ex_pending) (pn_Payload ex_pending)] (fl_cursor f)); try (rewrite ?Hk; done); try lia.
    - intros s Hin. by eapply log_fits.
    - left. lia. }
  exists f. destruct (replay_sound (fl_dev f) (fl_prefix f) PageSize (fl_cursor f) scan_visit 0 (fl_cursor f, 1, None))
    as (segs & to & Hg & Hv & Hu); [unfold is_u64; by vm_compute|exact Hr|].
  exists segs, to. rewrite Hk in Hg. by split_and!.
Defined.

(** C32: [ReplayTail] terminates on every device, prefix, range and visitor: the
    loop leaves within its bound, because each step moves the cursor forward by a
    whole span and never wraps. *)
Theorem replay_loop_ends {D} `{DeviceLaws D} {St} (dev : D) prefix size (visit : option (visitor St)) from st :
  is_u64 from -> exists r, loop (replay_body dev prefix size visit) fuel64 (from, st) = inr r.
Proof. apply replay_terminates. Qed.

Lemma replay_loop_ends_witness :
  exists r, loop (replay_body ex_disk (NewPrefix 1 0 (zeros 16) 0) 4096 (Some scan_visit)) fuel64 (0, 0) = inr r.
Proof. apply replay_loop_ends. lia. Defined.

(** ** Point-in-time recovery *)

(** Once a barrier is written, a replay up to its watermark sees, at any later
    state of the file, exactly the data segments that were in the log when the
    barrier was written: none of the later ones and no barrier. *)
Theorem barrier_cut {D} `{DeviceLaws D} {St} (f f1 f2 : File D) m m2 segs later shards off wbar
    (v : visitor St) st :
  file_inv f m segs -> Forall BarrierShard_wf shards ->
  zlen shards * BarrierShardSize < max_alloc - 64 -> fl_globalSeq f + 1 < two64 ->
  Forall (not_cut (fl_globalSeq f + 1)) segs ->
  WriteBarrier f shards = (f1, Ok (off, wbar)) ->
  let bh := {| bh_Wbar := wbar; bh_ShardCount := zlen shards |} in
  let s := mkSeg off (stamped wbar (pending ShardOwnerless KindBarrier 0 (MarshalBarrier bh shards)))
             (MarshalBarrier bh shards) in
  file_inv f1 m (segs ++ [s]) /\
  (file_inv f2 m2 (segs ++ s :: later) -> fl_cursor f2 < two63 ->
   ReplayToBarrier (fl_dev f2) (fl_prefix f2) PageSize (fl_cursor f2) wbar (Some v) st
   = match fold_visit v st (filter data_seg segs) (fl_cursor f2) with
     | Panic => (st, Panic)
     | Err e => (st, Err e)
     | Ok (_, st', None) => (st', Ok (bh, shards))
     | Ok (_, st', Some e) => (st', if decide (e = errStopScan) then Ok (bh, shards) else Err e)
     end).
Proof.
  intros Hi Hw Hz Hb Hn Hbar bh s.
  destruct (WriteBarrier_ok _ _ _ _ _ _ _ Hi Hw Hz Hb Hbar) as (Hwb & Ho & Hi1 & Hcut & _).
  split; [exact Hi1|]. intros Hi2 Hc2. rewrite <- Hwb in Hn.
  by eapply ReplayToBarrier_log.
Qed.

Lemma barrier_cut_witness :
  exists (f f1 : File Disk) off wbar bh,
    file_inv f fresh_meta [mkSeg PageSize (stamped 1 ex_pending) (pn_Payload ex_pending)]
    /\ WriteBarrier f [mkBarrierShard 0 0] = (f1, Ok (off, wbar))
    /\ ReplayToBarrier (fl_dev f1) (fl_prefix f1) PageSize (fl_cursor f1) wbar
         (Some (fun n _ _ _ => VCont (n + 1))) 0
       = (1, Ok (bh, [mkBarrierShard 0 0])).
Proof.
  destruct (ex_appended ex_pending ex_pending_wf) as (f & Hi & Ht & Hh & Hz & Hs & Hk & _); [done|].
  destruct (ex_barrier f _ _ Hi Hh) as (f1 & off & wbar & Hbar & Hc1); [by rewrite Hs|lia|].
  pose proof (barrier_cut f f1 f1 fresh_meta fresh_meta _ [] [mkBarrierShard 0 0] off wbar
    (fun n _ _ _ => VCont (n + 1)) 0 Hi) as Hcut.
  destruct Hcut as [Hi1 Hrep]; try done.
  - constructor; [|constructor]. unfold BarrierShard_wf. cbn. lia.
  - by rewrite Hs.
  - constructor; [|constructor]. intros Hkind. done.
  - exists f, f1, off, wbar, {| bh_Wbar := wbar; bh_ShardCount := 1 |}.
    split_and!; [done|done|]. rewrite Hrep; [done|exact Hi1|lia].
Defined.

(** ** The read-only adapter *)

(** A file opened through the read-only adapter reads exactly what the wrapped
    device holds and every operation that would change it fails with
    [ErrReadOnly] and changes nothing: an append of any non-empty group, a commit
    and a close's flush included. *)
Theorem read_only_rejects {D} `{DeviceLaws D} (f : File (roDevice D)) m segs p g root :
  file_inv f m segs -> fl_globalSeq f + 1 < two64 ->
  ReadOpenState (fl_dev f) = ReadOpenState (ro_dev (fl_dev f))
  /\ (exists f', AppendGroup f (p :: g) = (f', [], Err ErrReadOnly) /\ fl_dev f' = fl_dev f)
  /\ (exists f', CommitRoots f root = (f', Err ErrReadOnly) /\ fl_dev f' = fl_dev f)
  /\ doSync f = (f, Some ErrReadOnly).
Proof.
  intros [Hi _] Hb. destruct (li_std _ _ Hi) as (_&_&_&Hk). split_and!.
  - reflexivity.
  - cbn [AppendGroup append_loop]. fsimpl. rewrite Hk.
    destruct (SegHeader_Marshal _ _ _) as [[hb h']|e|] eqn:Hm;
      [|unfold SegHeader_Marshal in Hm; by rewrite checksum_CRC32C in Hm..].
    unfold writeAt at 1. cbn [WriteAt roDevice_device]. eauto.
  - unfold CommitRoots. rewrite Hk.
    destruct (MetaSlot_Marshal _ _) as [b|e|] eqn:Hm;
      [|unfold MetaSlot_Marshal in Hm; by rewrite checksum_CRC32C in Hm..].
    unfold writeAt. cbn [WriteAt roDevice_device]. eauto.
  - unfold doSync. cbn [Sync roDevice_device]. by destruct f.
Qed.

Lemma read_only_rejects_witness :
  exists f : File (roDevice Disk), file_inv f fresh_meta []
    /\ doSync f = (f, Some ErrReadOnly).
Proof.
  destruct (ex_file SyncNo []) as (f0 & Hi & _ & _ & _ & Hc & Hs & Hcs & _).
  set (f := mkFile (mkRO (fl_dev f0)) (fl_prefix f0) (fl_cursor f0) (fl_globalSeq f0) (fl_commitSeq f0)
              (fl_liveSlot f0) SyncNo 0 ex_clock 0 0).
  assert (Hif : file_inv f fresh_meta []).
  { destruct Hi as [[] Hr]. split; [by constructor|exact Hr]. }
  exists f. split; [done|]. apply (read_only_rejects f fresh_meta [] ex_pending [] ex_meta Hif).
  unfold f. fsimpl. by rewrite Hs.
Defined.
