(* ===== verification/RecoveryTheorems.v ===== *)
(** What recovery rebuilds: the checkpoint chains, their totals and the
    cross-checks over a whole recovery. *)

From S2P Require Import Prelude Loop Crc Format Rows Headers Tables Frames Device Scan File Rebuild Recovery Regions Crash Examples.

#[local] Opaque ParsePrefix ParseMetaSlot ParseSegHeader VerifyPayload crc32c ParseSRT.

(** ** Checkpoint chains *)

(** C9: rebuilding a shard's index from a checkpoint chain gives, for every key
    hash, the newest entry of the chain that mentions it, none if that entry is a
    delta's tombstone, and nothing older than the full checkpoint under it; the
    replay position is the newest checkpoint's. *)
Theorem index_rebuild {D} `{DeviceLaws D} (dev : D) prefix off l ds :
  readable dev -> is_u64 off -> off <> 0 ->
  chain_at (Rb:=IndexRebuilder) (Hd:=CkptHeader) (contents dev) (px_ChecksumKind prefix) off l ->
  l.*2 = map (fun d => Ckpt_stream d.1 d.2) ds -> Forall ckpt_dump_ok ds ->
  exists r, RebuildShardIndex dev prefix off = Ok r
    /\ (forall k, ir_entries r !! k = chain_lookup ce_KeyHash ckpt_dead (map ckpt_dump ds) k)
    /\ (forall d, head ds = Some d -> ir_LogPos r = ch_CkptLogPos d.1).
Proof. apply RebuildShardIndex_ok. Qed.

(** A chain of one full checkpoint. *)
Definition ex_ckpt : CkptHeader * list CkptEntry :=
  (mkCkptHeader CkptFull 16384 1 1 0 1, [mkCkptEntry 42 16448 0 0]).
Definition ex_ckpt_pending : Pending := pending 0 KindIndexCkpt 1 (Ckpt_stream ex_ckpt.1 ex_ckpt.2).

Lemma ex_ckpt_ok : ckpt_dump_ok ex_ckpt.
Proof.
  unfold ckpt_dump_ok. split_and!; [concrete|concrete|done|done].
Qed.

(** A pending segment appended to the example file, as it lies on the device. *)
Lemma ex_seg_at p :
  Pending_wf p -> zlen (pn_Payload p) < 100000 ->
  exists f : File Disk, seg_at (contents (fl_dev f)) ChecksumCRC32C PageSize (stamped 1 p) (pn_Payload p)
    /\ px_ChecksumKind (fl_prefix f) = ChecksumCRC32C.
Proof.
  intros Hw Hz. destruct (ex_appended p Hw Hz) as (f & Hi & _ & _ & _ & _ & Hk & _). exists f. split; [|done].
  refine (log_seg_at _ _ _ _ _ (mkSeg PageSize (stamped 1 p) (pn_Payload p)) (li_log _ _ (proj1 Hi)) _). left.
Qed.

Lemma index_rebuild_witness :
  exists (f : File Disk) r, RebuildShardIndex (fl_dev f) (fl_prefix f) PageSize = Ok r
    /\ ir_entries r !! 42 = Some (mkCkptEntry 42 16448 0 0) /\ ir_LogPos r = 16384.
Proof.
  destruct (ex_seg_at ex_ckpt_pending) as (f & Hs & Hk); [concrete|done|].
  destruct (index_rebuild (fl_dev f) (fl_prefix f) PageSize [(PageSize, Ckpt_stream ex_ckpt.1 ex_ckpt.2)] [ex_ckpt])
    as (r & Hr & Hl & Hp); try done.
  - rewrite Hk. exists [], PageSize, (Ckpt_stream ex_ckpt.1 ex_ckpt.2), ex_ckpt.1.
    split_and!; [constructor| |done|done].
    exists (stamped 1 ex_ckpt_pending). split_and!; [exact Hs|done|done|].
    destruct ex_ckpt_ok as (H1 & H2 & H3 & H4). exact (proj1 (Ckpt_stream_ok _ _ H1 H2 H3 H4)).
  - constructor; [apply ex_ckpt_ok|constructor].
  - exists f, r. split_and!; [done|by rewrite Hl|by apply (Hp ex_ckpt)].
Defined.

(** The same for a shard's segment statistics: the newest word of the chain on
    every segment offset, deltas' freed segments removed. *)
Theorem segstats_rebuild {D} `{DeviceLaws D} (dev : D) prefix off l ds :
  readable dev -> is_u64 off -> off <> 0 ->
  chain_at (Rb:=SegStatsRebuilder) (Hd:=SegStatsHeader) (contents dev) (px_ChecksumKind prefix) off l ->
  l.*2 = map (fun d => SegStats_stream d.1 d.2) ds -> Forall segstats_dump_ok ds ->
  exists r, RebuildShardSegStats dev prefix off = Ok r
    /\ (forall k, ssr_entries r !! k = chain_lookup se_SegOff segstats_dead (map segstats_dump ds) k)
    /\ (forall d, head ds = Some d -> ssr_LogPos r = sth_CkptLogPos d.1).
Proof. apply RebuildShardSegStats_ok. Qed.

Definition ex_segstats : SegStatsHeader * list SegStatsEntry :=
  (mkSegStatsHeader SegStatsFull 16384 1 0, [mkSegStatsEntry 16384 10 20 0]).
Definition ex_segstats_pending : Pending :=
  pending 0 KindSegStats 1 (SegStats_stream ex_segstats.1 ex_segstats.2).

Lemma segstats_rebuild_witness :
  exists (f : File Disk) r, RebuildShardSegStats (fl_dev f) (fl_prefix f) PageSize = Ok r
    /\ ssr_entries r !! 16384 = Some (mkSegStatsEntry 16384 10 20 0).
Proof.
  destruct (ex_seg_at ex_segstats_pending) as (f & Hs & Hk); [concrete|done|].
  assert (Hok : segstats_dump_ok ex_segstats).
  { unfold segstats_dump_ok. split_and!; [concrete|concrete|done|done]. }
  destruct (segstats_rebuild (fl_dev f) (fl_prefix f) PageSize
    [(PageSize, SegStats_stream ex_segstats.1 ex_segstats.2)] [ex_segstats]) as (r & Hr & Hl & _); try done.
  - rewrite Hk. exists [], PageSize, (SegStats_stream ex_segstats.1 ex_segstats.2), ex_segstats.1.
    split_and!; [constructor| |done|done].
    exists (stamped 1 ex_segstats_pending). split_and!; [exact Hs|done|done|].
    destruct Hok as (H1 & H2 & H3 & H4). exact (proj1 (SegStats_stream_ok _ _ H1 H2 H3 H4)).
  - by constructor.
  - exists f, r. split; [done|by rewrite Hl].
Defined.

(** The same for a shard's chunk directory: every collection has the chunk
    rows of its newest mention, and a delta's tombstone removes it. *)
Theorem chunkdir_rebuild {D} `{DeviceLaws D} (dev : D) prefix off l ds :
  readable dev -> is_u64 off -> off <> 0 ->
  chain_at (Rb:=ChunkDirRebuilder) (Hd:=ChunkDirHeader) (contents dev) (px_ChecksumKind prefix) off l ->
  l.*2 = map (fun d => ChunkDir_stream d.1 d.2) ds -> Forall chunkdir_dump_ok ds ->
  exists r, RebuildShardChunkDir dev prefix off = Ok r
    /\ (forall k, cdr_collections r !! k = chain_lookup cc_KeyHash chunkdir_dead (map chunkdir_dump ds) k)
    /\ (forall d, head ds = Some d -> cdr_LogPos r = cdh_CkptLogPos d.1).
Proof. apply RebuildShardChunkDir_ok. Qed.

Definition ex_chunkdir : ChunkDirHeader * list ChunkDirCollection :=
  (mkChunkDirHeader ChunkDirFull 16384 1 0, [mkChunkDirCollection 7 0 []]).
Definition ex_chunkdir_pending : Pending :=
  pending 0 KindChunkDir 1 (ChunkDir_stream ex_chunkdir.1 ex_chunkdir.2).

Lemma chunkdir_rebuild_witness :
  exists (f : File Disk) r, RebuildShardChunkDir (fl_dev f) (fl_prefix f) PageSize = Ok r
    /\ cdr_collections r !! 7 = Some (mkChunkDirCollection 7 0 []).
Proof.
  destruct (ex_seg_at ex_chunkdir_pending) as (f & Hs & Hk); [concrete|done|].
  assert (Hok : chunkdir_dump_ok ex_chunkdir).
  { unfold chunkdir_dump_ok. split_and!; [concrete|concrete|done|done]. }
  destruct (chunkdir_rebuild (fl_dev f) (fl_prefix f) PageSize
    [(PageSize, ChunkDir_stream ex_chunkdir.1 ex_chunkdir.2)] [ex_chunkdir]) as (r & Hr & Hl & _); try done.
  - rewrite Hk. exists [], PageSize, (ChunkDir_stream ex_chunkdir.1 ex_chunkdir.2), ex_chunkdir.1.
    split_and!; [constructor| |done|done].
    exists (stamped 1 ex_chunkdir_pending). split_and!; [exact Hs|done|done|].
    destruct Hok as (H1 & H2 & H3 & H4). exact (proj1 (ChunkDir_stream_ok _ _ H1 H2 H3 H4)).
  - by constructor.
  - exists f, r. split; [done|by rewrite Hl].
Defined.

(** A chain whose bases lead back to an offset already visited is rejected with
    the table's own error, for each of the three tables; the walk does not loop. *)
Theorem chain_cycle_rejected {D} `{DeviceLaws D} {Rb Hd} `{DeltaTableLaws Rb Hd}
    (dev : D) kind off l last :
  readable dev -> is_u64 off -> hops (Rb:=Rb) (Hd:=Hd) (contents dev) kind off l last ->
  NoDup l.*1 -> last ∈ l.*1 ->
  walk_chain (Rb:=Rb) (Hd:=Hd) dev kind off = Err (dt_err (Rb:=Rb) (Hd:=Hd)).
Proof. apply walk_chain_cycle. Qed.

(** A delta that names itself as its base. *)
Definition ex_loop : CkptHeader * list CkptEntry := (mkCkptHeader CkptDelta 16384 0 1 16384 1, []).
Definition ex_loop_pending : Pending := pending 0 KindIndexCkpt 1 (Ckpt_stream ex_loop.1 ex_loop.2).

Lemma chain_cycle_rejected_witness :
  exists f : File Disk,
    walk_chain (Rb:=IndexRebuilder) (Hd:=CkptHeader) (fl_dev f) ChecksumCRC32C PageSize = Err ErrCheckpoint.
Proof.
  destruct (ex_seg_at ex_loop_pending) as (f & Hs & Hk); [concrete|done|]. exists f.
  change ErrCheckpoint with (dt_err (Rb:=IndexRebuilder) (Hd:=CkptHeader)).
  apply (chain_cycle_rejected (Rb:=IndexRebuilder) (Hd:=CkptHeader) (fl_dev f) ChecksumCRC32C PageSize
    [(PageSize, Ckpt_stream ex_loop.1 ex_loop.2)] PageSize); try done.
  - eapply hops_cons with (ch := ex_loop.1); [|done|constructor].
    exists (stamped 1 ex_loop_pending). split_and!; [exact Hs|done|done|].
    apply (Ckpt_stream_ok ex_loop.1 ex_loop.2); [concrete|concrete|done|done].
  - apply NoDup_singleton.
  - left.
Defined.

(** The chain walk ends on every device and starting offset, for every table:
    it never visits an offset twice and a segment offset is below 2^63. *)
Theorem chain_walk_ends {D} `{DeviceLaws D} {Rb Hd} `{DeltaTableLaws Rb Hd} (dev : D) kind off :
  is_u64 off ->
  exists r, loop (chain_body (Rb:=Rb) (Hd:=Hd) dev kind) fuel64 (off, ∅, []) = inr r.
Proof. apply chain_walk_terminates. Qed.

Lemma chain_walk_ends_witness :
  exists r, loop (chain_body (Rb:=SegStatsRebuilder) (Hd:=SegStatsHeader) ex_disk 1) fuel64 (5, ∅, []) = inr r.
Proof. apply chain_walk_ends. lia. Defined.

(** ** The whole recovery *)

(** Every recovery that succeeds can be cross-checked without a fault, and the
    report names exactly the shards whose root-table row disagrees with the rebuilt
    index on the record count or the highest sequence, with both sides' numbers. *)
Theorem crosscheck_exact {D} `{Device D} (dev : D) r :
  Recover dev = Ok r ->
  exists ds, CrossCheck r = Ok ds /\
    forall d, d ∈ ds <-> exists srt n row idx,
      rc_SRT r = Some srt /\ srt_Rows srt !! n = Some row /\ rc_Indexes r !! n = Some idx
      /\ ~ (IndexRebuilder_Len idx = sr_LiveRecords row /\ ir_SeqHigh idx = sr_ShardSeqHigh row)
      /\ d = {| dr_Shard := Z.of_nat n; dr_RowLiveRecords := sr_LiveRecords row;
                dr_CkptEntries := IndexRebuilder_Len idx; dr_RowSeqHigh := sr_ShardSeqHigh row;
                dr_CkptSeqHigh := ir_SeqHigh idx |}.
Proof.
  intros Hr. unfold CrossCheck. destruct (rc_SRT r) as [srt|] eqn:Es.
  - destruct (Recover_lengths _ _ _ Hr Es) as (Hl & _).
    destruct (drift_rows_ok (srt_Rows srt) 0 (rc_Indexes r)) as (ds & Hd & Hds); [lia|].
    exists ds. split; [done|]. intros d. rewrite Hds. unfold row_agrees. split.
    + intros (n & row & idx & ? & ? & Ha & ->). exists srt, n, row, idx. split_and!; try done.
      intros [E1 E2]. by rewrite E1, E2, !Z.eqb_refl in Ha.
    + intros (srt' & n & row & idx & [= <-] & ? & ? & Ha & ->). exists n, row, idx. split_and!; try done.
      destruct (Z.eqb_spec (IndexRebuilder_Len idx) (sr_LiveRecords row)); [|done].
      destruct (Z.eqb_spec (ir_SeqHigh idx) (sr_ShardSeqHigh row)); [|done]. by destruct Ha.
  - exists []. split; [done|]. intros d. split; [by intros ?%elem_of_nil|by intros (? & ? & ? & ? & ? & _)].
Qed.

Lemma crosscheck_exact_witness :
  exists (f : File Disk) r ds, Recover (fl_dev f) = Ok r /\ CrossCheck r = Ok ds /\ ds = [].
Proof.
  destruct (ex_file SyncNo []) as (f & Hi & _).
  pose proof (ReadOpenState_ok f fresh_meta [] Hi (or_introl eq_refl)) as Hos.
  assert (Hr : exists r, Recover (fl_dev f) = Ok r /\ rc_SRT r = None).
  { unfold Recover. rewrite Hos. eexists. split; reflexivity. }
  destruct Hr as (r & Hr & Hn). destruct (crosscheck_exact (fl_dev f) r Hr) as (ds & Hc & Hd).
  exists f, r, ds. split_and!; try done. destruct ds as [|d ds]; [done|].
  destruct (proj1 (Hd d) (list_elem_of_here _ _)) as (? & ? & ? & ? & ? & _). congruence.
Defined.
