(* ===== verification/RegionTheorems.v ===== *)
(** What the regions promise their clients: a record, a value or a cold frame read
    back through the address its append returned, before and after a flush, across
    compaction, and by the linear walks. *)

From S2P Require Import Prelude Loop Crc Format Rows Headers Tables Frames Device Scan File Rebuild Recovery Regions Crash Examples.

#[local] Opaque ParsePrefix ParseMetaSlot ParseSegHeader VerifyPayload crc32c ParseRecordBody.

(** ** Records *)

(** Staging a run of rows in a fresh writer. *)
Definition stage_rows (shard : Z) (rows : list RecordRow) : RecordLogWriter :=
  foldl (fun w row => (RecordLogWriter_Stage w row).1) (NewRecordLogWriter shard) rows.

Lemma stage_rows_holds shard rows :
  record_writer_holds (stage_rows shard rows) rows /\ rw_shard (stage_rows shard rows) = shard.
Proof.
  unfold stage_rows. induction rows as [|row rows IH] using rev_ind; [done|].
  rewrite foldl_app. cbn [foldl]. destruct IH as [Hh Hs]. split; [by apply record_Stage_holds|].
  unfold RecordLogWriter_Stage. by destruct (AppendRecordFrame _ _).
Qed.

(** Flushing a writer that holds [rows] on a healthy device. *)
Lemma record_flush_reads {D} `{DeviceLaws D} (f : File D) m segs w rows shardSeq :
  file_inv f m segs -> tidy f segs -> healthy (fl_dev f) -> record_writer_holds w rows -> rows <> [] ->
  region_ok f (rw_shard w) KindLog shardSeq (pack rec_enc rows) -> Forall RecordRow_wf rows ->
  fl_cursor f + SegmentSpan (zlen (pack rec_enc rows)) < two63 ->
  exists f' addrs, RecordLogWriter_Flush f w shardSeq = (f', NewRecordLogWriter (rw_shard w), Ok addrs)
    /\ file_inv f' m (segs ++ [region_seg f (rw_shard w) KindLog shardSeq (pack rec_enc rows)])
    /\ length addrs = length rows
    /\ forall i a, addrs !! i = Some a -> exists row, rows !! i = Some row /\ ReadRecordAt f' a = Ok row.
Proof.
  intros Hi Ht Hh [Hp Hf] Hne Hok Hw Hc. pose proof (zlen_nonneg (pack rec_enc rows)).
  destruct Hok as (?&?&?&Hz&?). pose proof (span_bounds _ Hz).
  destruct (append_one_segment_healthy f m segs (rw_shard w) KindLog shardSeq (pack rec_enc rows) Hi Ht Hh)
    as (f' & base & Ha & _ & Hlen); [done|done|].
  pose proof Ha as Ha'. apply (append_one_segment_ok _ m segs) in Ha' as (Hi' & _); [|done|done|lia].
  assert (rw_frames w <> []) as Hnil.
  { rewrite Hf. intros E. apply (f_equal length) in E. rewrite zip_frames_length in E. by destruct rows. }
  assert (Hfl : RecordLogWriter_Flush f w shardSeq = (f', NewRecordLogWriter (rw_shard w),
    Ok (map (fun fr => add64 base (rf_FrameOff fr)) (rw_frames w)))).
  { unfold RecordLogWriter_Flush. rewrite Hp, Ha. by destruct (rw_frames w). }
  rewrite Hf in Hfl. eexists f', _. split; [exact Hfl|]. split; [done|]. split.
  - by rewrite length_map, zip_frames_length.
  - intros i a Hia. by eapply (flush_records_read f m segs (rw_shard w) shardSeq rows f' base); try done; lia.
Qed.

(** Rows staged in a record writer are readable by their index before the
    segment is cut, and after a flush on a healthy device each returned address
    reads its row back; the flush leaves the writer empty. *)
Theorem record_stage_flush {D} `{DeviceLaws D} (f : File D) m segs shard shardSeq rows :
  file_inv f m segs -> tidy f segs -> healthy (fl_dev f) -> rows <> [] ->
  region_ok f shard KindLog shardSeq (pack rec_enc rows) -> Forall RecordRow_wf rows ->
  fl_cursor f + SegmentSpan (zlen (pack rec_enc rows)) < two63 ->
  (forall i row, rows !! i = Some row ->
     RecordLogWriter_ReadStaged (stage_rows shard rows) (Z.of_nat i) = Ok row)
  /\ exists f' addrs,
       RecordLogWriter_Flush f (stage_rows shard rows) shardSeq = (f', NewRecordLogWriter shard, Ok addrs)
       /\ length addrs = length rows
       /\ forall i a, addrs !! i = Some a -> exists row, rows !! i = Some row /\ ReadRecordAt f' a = Ok row.
Proof.
  intros Hi Ht Hh Hne Hok Hw Hc. destruct (stage_rows_holds shard rows) as [Hholds Hs]. split.
  - intros i row Hr. apply (record_ReadStaged _ rows); [done|apply Hok|done|].
    by eapply Forall_lookup_1.
  - rewrite <- Hs in Hok.
    destruct (record_flush_reads f m segs _ rows shardSeq Hi Ht Hh Hholds Hne Hok Hw Hc) as (f' & addrs & E & _ & ? & ?).
    exists f', addrs. rewrite Hs in E. by split_and!.
Qed.

Lemma record_stage_flush_witness :
  exists f f' addrs, file_inv f fresh_meta []
    /\ RecordLogWriter_Flush f (stage_rows 0 [ex_record]) 1 = (f', NewRecordLogWriter 0, Ok addrs)
    /\ forall i a, addrs !! i = Some a ->
         exists row, [ex_record] !! i = Some row /\ ReadRecordAt (D:=Disk) f' a = Ok row.
Proof.
  destruct (ex_file SyncAlways []) as (f & Hi & Ht & Hh & _ & Hc & Hs & _).
  destruct (record_stage_flush f fresh_meta [] 0 1 [ex_record] Hi Ht Hh) as [_ (f' & addrs & ? & _ & ?)];
    [done| | | |].
  - unfold region_ok. rewrite Hs. split_and!; (done || lia).
  - constructor; [apply ex_record_wf|constructor].
  - rewrite Hc. done.
  - exists f, f', addrs. by split_and!.
Defined.

(** Compaction preserves records: the rows read at the live addresses are
    rewritten in one new segment, and each new address reads the same row. *)
Theorem compact_records {D} `{DeviceLaws D} (f : File D) m segs shard shardSeq live rows :
  file_inv f m segs -> tidy f segs -> healthy (fl_dev f) -> live <> [] ->
  read_rows f live = Ok rows -> Forall RecordRow_wf rows ->
  region_ok f shard KindLog shardSeq (pack rec_enc rows) ->
  fl_cursor f + SegmentSpan (zlen (pack rec_enc rows)) < two63 ->
  exists f' addrs, CompactRecords f shard shardSeq live = (f', Ok addrs)
    /\ length addrs = length live
    /\ forall i a, addrs !! i = Some a -> exists old row,
         live !! i = Some old /\ ReadRecordAt f old = Ok row /\ ReadRecordAt f' a = Ok row.
Proof.
  intros Hi Ht Hh Hne Hr Hw Hok Hc.
  assert (Hall : forall l rs, read_rows f l = Ok rs ->
    length rs = length l /\ forall i row, rs !! i = Some row ->
      exists old, l !! i = Some old /\ ReadRecordAt f old = Ok row).
  { induction l as [|a l IH]; intros rs Hrs; cbn [read_rows] in Hrs; [by simplify_eq|].
    destruct (ReadRecordAt f a) as [row0|e|] eqn:E0; [|done|done].
    destruct (read_rows f l) as [rs0|e|]; [|done|done]. injection Hrs as <-.
    destruct (IH rs0 eq_refl) as [Hl Hlk]. split; [simpl; lia|].
    intros [|i] row Hi0; [|by apply Hlk]. injection Hi0 as <-. by exists a. }
  destruct (Hall _ _ Hr) as [Hlen Hlk].
  destruct Hok as (?&?&?&Hz&?). pose proof (span_bounds _ Hz). pose proof (zlen_nonneg (pack rec_enc rows)).
  destruct (append_one_segment_healthy f m segs shard KindLog shardSeq (pack rec_enc rows) Hi Ht Hh)
    as (f' & base & Ha & _ & Hz'); [done|done|].
  unfold CompactRecords. destruct live as [|l0 live]; [done|]. rewrite Hr.
  rewrite (frame_all_eq rec_enc AppendRecordFrame rec_frame AppendRecordFrame_enc).
  change ([] ++ pack rec_enc rows) with (pack rec_enc rows). rewrite Ha.
  eexists f', _. split; [reflexivity|]. split; [by rewrite length_map, zip_frames_length|].
  intros i a Hia.
  destruct (flush_records_read f m segs shard shardSeq rows f' base Hi) with (i := i) (addr := a)
    as (row & Hrow & Hread); try done; [lia|].
  destruct (Hlk _ _ Hrow) as (old & ? & ?). by exists old, row.
Qed.

Lemma compact_records_witness :
  exists (f f' : File Disk) addrs, CompactRecords f 0 2 [PageSize + SegHeaderLen] = (f', Ok addrs)
    /\ length addrs = 1%nat
    /\ forall i a, addrs !! i = Some a -> exists old row,
         [PageSize + SegHeaderLen] !! i = Some old /\ ReadRecordAt f old = Ok row /\ ReadRecordAt f' a = Ok row.
Proof.
  destruct ex_recorded as (f & Hi & Ht & Hh & Hc & Hs & Hr & _).
  destruct (compact_records f fresh_meta _ 0 2 [PageSize + SegHeaderLen] [ex_record] Hi Ht Hh)
    as (f' & addrs & ? & ? & ?); [done| | | | |].
  - cbn [read_rows]. by rewrite Hr.
  - constructor; [apply ex_record_wf|constructor].
  - unfold region_ok. rewrite Hs. split_and!; (done || lia).
  - assert (SegmentSpan (zlen (pack rec_enc [ex_record])) = 4096) as -> by done. lia.
  - exists f, f', addrs. by split_and!.
Defined.

(** The linear walk over a file visits, in file order, every record of every
    [log] segment with the address [ReadRecordAt] takes, and stops with the
    visitor's error; the walk over one shard visits exactly that shard's records. *)
Theorem walk_records {D} `{DeviceLaws D} {St} (f : File D) m segs rows shard
    (visit : St -> Z -> RecordRow -> vres St) st :
  file_inv f m segs -> fl_cursor f < two63 -> Forall (cut_from rows) segs ->
  let walked l := walk_result (fold_items (fun st '(a, row) => visit st a row) st l) in
  WalkRecords f PageSize visit st = walked (concat (map (log_records rows) segs))
  /\ WalkShardRecords f shard PageSize visit st = walked (concat (map (shard_records shard rows) segs)).
Proof. intros Hi Hc Hr. split; [by eapply WalkRecords_log|by eapply WalkShardRecords_log]. Qed.

Lemma walk_records_witness :
  exists f : File Disk,
    WalkRecords f PageSize (fun l a row => VCont (l ++ [(a, row)])) []
      = Ok ([(PageSize + SegHeaderLen, ex_record)], None)
    /\ WalkShardRecords f 1 PageSize (fun l a row => VCont (l ++ [(a, row)])) [] = Ok ([], None).
Proof.
  destruct ex_recorded as (f & Hi & _ & _ & Hc & _). exists f.
  destruct (walk_records f fresh_meta _ (fun _ => [ex_record]) 1 (fun l a row => VCont (l ++ [(a, row)])) [] Hi)
    as [-> ->]; [lia| |done].
  constructor; [|constructor]. intros _. split; [done|]. constructor; [apply ex_record_wf|constructor].
Defined.

(** ** Values *)

(** Appending values on a healthy device returns one pointer per value, in
    order, and each pointer reads its value back through the checksum. *)
Theorem append_values_read {D} `{DeviceLaws D} (f : File D) m segs shard shardSeq vals :
  file_inv f m segs -> tidy f segs -> healthy (fl_dev f) -> vals <> [] ->
  region_ok f shard KindValueLog shardSeq (pack val_enc vals) -> Forall (fun v => zlen v < two32) vals ->
  fl_cursor f + SegmentSpan (zlen (pack val_enc vals)) < two63 ->
  exists f' ps, AppendValues f shard shardSeq vals = (f', Ok ps) /\ length ps = length vals
    /\ forall i p, ps !! i = Some p -> exists val, vals !! i = Some val /\ ReadValueAt f' p = Ok val.
Proof.
  intros Hi Ht Hh Hne Hok Hw Hc. pose proof Hok as (?&?&?&Hz&?).
  pose proof (span_bounds _ Hz). pose proof (zlen_nonneg (pack val_enc vals)).
  destruct (append_one_segment_healthy f m segs shard KindValueLog shardSeq (pack val_enc vals) Hi Ht Hh Hok Hc)
    as (f' & base & Ha & _ & Hz').
  unfold AppendValues. destruct vals as [|v0 vals]; [done|].
  rewrite (frame_all_eq val_enc AppendValueFrame val_frame AppendValueFrame_enc).
  change ([] ++ pack val_enc (v0 :: vals)) with (pack val_enc (v0 :: vals)). rewrite Ha.
  eexists f', _. split; [reflexivity|]. split; [by rewrite length_map, zip_frames_length|].
  intros i p Hp. eapply (flush_values_read f m segs shard shardSeq (v0 :: vals) f' base); try done. lia.
Qed.

Lemma append_values_read_witness :
  exists (f f' : File Disk) ps, AppendValues f 0 1 [str "v"] = (f', Ok ps) /\ length ps = 1%nat
    /\ forall i p, ps !! i = Some p -> exists val, [str "v"] !! i = Some val /\ ReadValueAt f' p = Ok val.
Proof.
  destruct (ex_file SyncAlways []) as (f & Hi & Ht & Hh & _ & Hc & Hs & _).
  destruct (append_values_read f fresh_meta [] 0 1 [str "v"] Hi Ht Hh) as (f' & ps & ? & ? & ?); [done| | | |].
  - unfold region_ok. rewrite Hs. split_and!; (done || lia).
  - by repeat constructor.
  - rewrite Hc. done.
  - exists f, f', ps. by split_and!.
Defined.

(** ** Cold chunks *)

(** Cold frames appended to a healthy device read back whole, each at the
    offset returned for it. *)
Theorem cold_frames_read {D} `{DeviceLaws D} (f : File D) m segs shard shardSeq frames :
  file_inv f m segs -> tidy f segs -> healthy (fl_dev f) -> frames <> [] ->
  region_ok f shard KindColdChunk shardSeq (concat frames) -> Forall cold_ok frames ->
  fl_cursor f + SegmentSpan (zlen (concat frames)) < two63 ->
  exists f' offs, AppendColdFrames f shard shardSeq frames = (f', Ok offs) /\ length offs = length frames
    /\ forall i off, offs !! i = Some off -> exists fr, frames !! i = Some fr /\ ReadColdFrame f' off = Ok fr.
Proof.
  intros Hi Ht Hh Hne Hok Hw Hc. pose proof Hok as (?&?&?&Hz&?).
  pose proof (span_bounds _ Hz). pose proof (zlen_nonneg (concat frames)).
  destruct (append_one_segment_healthy f m segs shard KindColdChunk shardSeq (concat frames) Hi Ht Hh Hok Hc)
    as (f' & base & Ha & _ & Hz').
  assert (Hap : exists offs, AppendColdFrames f shard shardSeq frames = (f', Ok offs)).
  { unfold AppendColdFrames. destruct frames; [done|]. rewrite Ha. eauto. }
  destruct Hap as (offs & Hap). exists f', offs. split; [done|].
  eapply (AppendColdFrames_read f m segs shard shardSeq frames f' offs); try done. lia.
Qed.

Lemma cold_frames_read_witness :
  exists (f f' : File Disk) offs, AppendColdFrames f 0 1 [le_enc 4 6 ++ str "xy"] = (f', Ok offs)
    /\ length offs = 1%nat /\ forall i off, offs !! i = Some off ->
         exists fr, [le_enc 4 6 ++ str "xy"] !! i = Some fr /\ ReadColdFrame f' off = Ok fr.
Proof.
  destruct (ex_file SyncAlways []) as (f & Hi & Ht & Hh & _ & Hc & Hs & _).
  destruct (cold_frames_read f fresh_meta [] 0 1 [le_enc 4 6 ++ str "xy"] Hi Ht Hh) as (f' & offs & ? & ? & ?);
    [done| | | |].
  - unfold region_ok. rewrite Hs. split_and!; (done || lia).
  - constructor; [|constructor]. by split.
  - rewrite Hc. done.
  - exists f, f', offs. by split_and!.
Defined.

(** ** What the readers do on corrupt bytes *)

(** A device that holds one corrupt length. *)
Definition corrupt_length (n : Z) : File Disk :=
  mkFile (reboot (PutUvarint n ++ zeros 16)) (NewPrefix 1 0 (zeros 16) 0) PageSize 0 0 0 SyncNo 0 ex_clock 0 0.

(** [ReadRecordAt] does not guard the length it decodes: a corrupt varint near
    2^64 wraps in [bl+4] and the slice [buf[:bl]] panics, and one above the
    allocation limit panics in [make], where the documented outcome of a torn
    record is an error. *)
Theorem read_record_panics :
  ReadRecordAt (corrupt_length (two64 - 2)) 0 = Panic
  /\ ReadRecordAt (corrupt_length (2 * max_alloc)) 0 = Panic.
Proof. split; vm_compute; reflexivity. Qed.

(** An inline record body whose value length outruns it. *)
Definition torn_body : bytes := le_enc 4 RecFlagInline ++ le_enc 8 0 ++ le_enc 4 9 ++ le_enc 8 0.

(** [NextRecordFrame] drops the decode error of a checksummed frame: where
    [ParseRecordBody] reports [ErrLength] the walk is handed a zero row and goes on,
    although the documented outcome of a torn frame is that the walk stops. *)
Theorem next_record_frame_zero_row :
  exists fr next,
    ParseRecordBody torn_body = Err ErrLength
    /\ NextRecordFrame (PutUvarint (zlen torn_body) ++ torn_body ++ le_enc 4 (crc32c torn_body)) 0
       = Ok (fr, zeroRecordRow, next).
Proof. do 2 eexists. split; vm_compute; reflexivity. Qed.
