(* ===== verification/GroupTheorems.v ===== *)
(** What the group-commit writer promises the shard owners: order, wakeups,
    barriers, shutdown, and addresses that read back. *)

From S2P Require Import Prelude Loop Crc Format Rows Headers Tables Frames Device Scan File Rebuild Recovery Regions GroupWriter Crash Examples.

#[local] Opaque ParsePrefix ParseMetaSlot ParseSegHeader VerifyPayload crc32c ParseRecordBody.

(** C11: accepted batches are never lost, duplicated or reordered within a shard: in
    every reachable state the batches a shard submitted are, in order, the ones
    handed to the append, the ones the writer holds, and the ones in its ring; and a ring never
    exceeds its capacity. *)
Theorem group_fifo {D} `{Device D} (f : File D) shards ring g k q :
  reachable f shards ring g -> gs_rings g !! k = Some q ->
  proj k (gs_submitted g) = proj k (gs_committed g) ++ proj k (in_flight (gs_pc g)) ++ q
  /\ (length q <= gs_cap g)%nat.
Proof.
  intros Hr%reachable_ginv Hk. split; [by apply (gi_fifo _ Hr)|by apply (gi_cap _ Hr k)].
Qed.

(** A batch with one record. *)
Definition ex_batch : sealed :=
  mkSealed 0 1 (pack rec_enc [ex_record]) (zip_with rec_frame (offs_at rec_enc 0 [ex_record]) [ex_record]) true.

Lemma ex_batch_of : batch_of ex_batch [ex_record].
Proof.
  split_and!; try done; [|cbn; lia..]. constructor; [apply ex_record_wf|constructor].
Qed.

(** A run of the writer over one shard of a file. *)
Definition g_parked (f : File Disk) : gstate Disk := with_pc (NewGroupWriter f 1 2) PParked.
Definition g_pushed (f : File Disk) : gstate Disk := (Submit_push (g_parked f) ex_batch).1.

(** The same run at the end of the pass that serves a barrier. *)
Definition g_barrier (f : File Disk) : gstate Disk :=
  let g := g_pushed f in
  mkG (gs_file g) [[]] (gs_cap g) (gs_signal g) (gs_quit g)
    (PDrain 1 [ex_batch] (MBarrier [ex_batch])) (gs_ringing g) (gs_submitted g)
    (gs_groups g) (gs_calls g) (gs_acks g).

Definition ex_gfile : File Disk :=
  mkFile ex_disk (NewPrefix 1 0 (zeros 16) 0) PageSize 0 0 0 SyncNo 0 ex_clock 0 0.

Section example_run.
Context (f : File Disk).

Lemma reach_parked : reachable f 1 2 (g_parked f).
Proof.
  assert (H1 : reachable f 1 2 (start (NewGroupWriter f 1 2)))
    by (eapply reach_step; [apply reach_new|by apply step_start_barrier]).
  assert (H2 : reachable f 1 2 (with_pc (NewGroupWriter f 1 2) (PDrain 1 [] MLoop)))
    by (eapply reach_step; [exact H1|by eapply step_drain]).
  eapply reach_step; [exact H2|by eapply step_drain].
Qed.

Lemma reach_pushed : reachable f 1 2 (g_pushed f).
Proof. eapply reach_step; [apply reach_parked|]. by eapply (step_push _ ex_batch). Qed.

Lemma reach_barrier : reachable f 1 2 (g_barrier f).
Proof.
  set (at_ring := fun i rings group => let g := g_pushed f in
    mkG (gs_file g) rings (gs_cap g) (gs_signal g) (gs_quit g) (PDrain i group (MBarrier [ex_batch]))
      (gs_ringing g) (gs_submitted g) (gs_groups g) (gs_calls g) (gs_acks g)).
  assert (H1 : reachable f 1 2 (at_ring 0%nat [[ex_batch]] []))
    by (eapply reach_step; [apply reach_pushed|by apply (step_barrier (g_pushed f))]).
  assert (H2 : reachable f 1 2 (at_ring 0%nat [[]] [ex_batch]))
    by (eapply reach_step; [exact H1|by eapply step_drain]).
  eapply reach_step; [exact H2|by eapply step_drain].
Qed.
End example_run.

Lemma group_fifo_witness :
  let g := g_pushed ex_gfile in
  gs_rings g !! 0%nat = Some [ex_batch] /\ proj 0 (gs_submitted g) = [ex_batch].
Proof.
  split; [done|].
  destruct (group_fifo ex_gfile 1 2 (g_pushed ex_gfile) 0 [ex_batch] (reach_pushed _) eq_refl) as [-> _]. done.
Defined.

(** No lost wakeup: whenever the writer is parked while a ring holds a batch,
    the doorbell is rung or a producer is about to ring it. *)
Theorem group_no_lost_wakeup {D} `{Device D} (f : File D) shards ring g k b q :
  reachable f shards ring g -> gs_pc g = PParked -> gs_rings g !! k = Some (b :: q) ->
  gs_signal g = true \/ (0 < gs_ringing g)%nat.
Proof.
  intros Hr%reachable_ginv Hp Hk. pose proof (gi_pc _ Hr) as Hi. unfold pc_inv in Hi. rewrite Hp in Hi.
  by eapply Hi.
Qed.

Lemma group_no_lost_wakeup_witness :
  gs_signal (g_pushed ex_gfile) = true \/ (0 < gs_ringing (g_pushed ex_gfile))%nat.
Proof. by apply (group_no_lost_wakeup ex_gfile 1 2 (g_pushed ex_gfile) 0 ex_batch [] (reach_pushed _)). Defined.

(** C10: liveness: from every running state the writer, on its own and the doorbells
    already promised, reaches a parked state in which every ring is empty and every
    batch accepted so far has been handed to the append, in its shard's order. *)
Theorem group_drains {D} `{Device D} (f : File D) shards ring g :
  reachable f shards ring g -> gs_pc g <> PIdle -> gs_quit g = false ->
  exists g', rtc quiet g g' /\ gs_pc g' = PParked
    /\ forall k q, gs_rings g' !! k = Some q -> q = [] /\ proj k (gs_committed g') = proj k (gs_submitted g).
Proof.
  intros Hr Hi Hq. destruct (writer_drains f shards ring g Hr Hi Hq) as (g' & Hrun & Hp & Hs & _ & He).
  exists g'. split_and!; try done. intros k q Hk. pose proof (He k q Hk) as ->. split; [done|].
  pose proof (reachable_ginv _ _ _ _ (quiet_reachable _ _ _ _ _ Hrun Hr)) as Hg.
  rewrite <- Hs, (gi_fifo _ Hg k [] Hk), Hp. cbn [in_flight]. by rewrite !app_nil_r.
Qed.

Lemma group_drains_witness :
  exists g', rtc quiet (g_pushed ex_gfile) g' /\ gs_pc g' = PParked
    /\ forall k q, gs_rings g' !! k = Some q -> q = [] /\ proj k (gs_committed g') = proj k [ex_batch].
Proof. by apply (group_drains ex_gfile 1 2 (g_pushed ex_gfile) (reach_pushed _)). Defined.



(** A barrier's nil answer hides an append that failed in its own pass: the device
    refuses the batch's write, the flush after it succeeds, the barrier answers nil,
    and the batch accepted before it is in no log. *)
Theorem barrier_hides_append_error :
  exists (f : File Disk) g', file_inv f fresh_meta [] /\ reachable f 1 2 g'
    /\ gs_submitted g' = [ex_batch] /\ gs_groups g' = [([ex_batch], Some ErrIO)]
    /\ gs_acks g' = [None] /\ file_inv (gs_file g') fresh_meta [].
Proof.
  destruct (ex_file SyncNo [FWrite 0 (Some ErrIO)]) as (f & Hi & _ & Hf & _ & Hc & Hs & _).
  destruct (append_refused f _ _ (sealed_pending ex_batch) 0 [] Hi) as (f1 & Ha & Hf1); [by rewrite Hc|done|].
  destruct (AppendGroup_inv _ _ _ _ _ _ _ Hi (Forall_cons_2 _ _ _ (batch_pending_wf _ _ ex_batch_of) (Forall_nil_2 _))
    ltac:(by rewrite Hs) Ha) as (Hi1 & _). cbn [length take app] in Hi1.
  destruct (doSync_healthy f1) as (f2 & Hsy & _); [done|].
  pose proof (doSync_synced _ _ _ Hsy) as Hsd.
  exists f, (mkG f2 [[]] 2 false false (PDrain 0 [] MLoop) 1 [ex_batch] [([ex_batch], Some ErrIO)]
    [(ex_batch, Err ErrIO)] [None]).
  split_and!; try done.
  - eapply reach_step; [apply (reach_barrier f)|]. eapply step_drain; [done|].
    unfold drain_step. cbn [g_barrier gs_rings lookup list_lookup]. unfold finish, commit_group, commit, append_error.
    change (gs_file (g_barrier f)) with f. cbn [map]. rewrite Ha. cbn [gs_file]. by rewrite Hsy.
  - destruct Hi1 as [Hl Hroot]. split; [by eapply log_inv_synced|by eapply root_inv_synced].
Qed.

(** Shutdown loses nothing: when the writer has exited, every ring is empty and
    every accepted batch is committed. *)
Theorem group_exit_drained {D} `{Device D} (f : File D) shards ring g k q :
  reachable f shards ring g -> gs_pc g = PExited -> gs_rings g !! k = Some q ->
  q = [] /\ proj k (gs_committed g) = proj k (gs_submitted g).
Proof.
  intros Hr%reachable_ginv Hp Hk. pose proof (gi_pc _ Hr) as Hi. unfold pc_inv in Hi. rewrite Hp in Hi.
  destruct Hi as [_ Hi]. pose proof (Hi k q Hk) as ->. split; [done|].
  rewrite (gi_fifo _ Hr k [] Hk), Hp. cbn [in_flight]. by rewrite !app_nil_r.
Qed.

Definition g_exited : gstate Disk :=
  mkG ex_gfile [[]] 2 false true PExited 0 [] [] [] [].

Lemma group_exit_drained_witness :
  reachable ex_gfile 1 2 g_exited /\ proj 0 (gs_committed g_exited) = proj 0 (gs_submitted g_exited).
Proof.
  assert (Hr : reachable ex_gfile 1 2 g_exited).
  { set (quitting := fun pc => mkG ex_gfile [[]] 2 false true pc 0 [] [] [] []).
    assert (H1 : reachable ex_gfile 1 2 (quitting PParked))
      by (eapply reach_step; [apply reach_parked|by apply (step_stop (g_parked ex_gfile))]).
    assert (H2 : reachable ex_gfile 1 2 (quitting (PDrain 0 [] MQuit)))
      by (eapply reach_step; [exact H1|by apply (step_quit (quitting PParked))]).
    assert (H3 : reachable ex_gfile 1 2 (quitting (PDrain 1 [] MQuit)))
      by (eapply reach_step; [exact H2|by eapply step_drain]).
    eapply reach_step; [exact H3|by eapply step_drain]. }
  split; [done|]. by apply (group_exit_drained ex_gfile 1 2 g_exited 0 [] Hr).
Defined.

(** C13: a commit completes each batch that asked for it exactly once, in group
    order, on every device.  When the append returns an error every completion gets
    that error, and the log grew by the segments whose offsets came back; when the
    append succeeds the whole group is in the log and each batch gets one address
    per record, every address reading that record back. *)
Theorem group_commit_publishes {D} `{DeviceLaws D} (f : File D) m segs group :
  file_inv f m segs -> (forall b, b ∈ group -> exists rows, batch_of b rows) ->
  fl_globalSeq f + zlen group < two64 ->
  let new := group_segs (fl_globalSeq f + 1) (fl_cursor f) (map sealed_pending group) in
  exists f' offs r calls, AppendGroup f (map sealed_pending group) = (f', offs, r)
    /\ commit f group = (f', Ok calls)
    /\ calls.*1 = filter (fun b => sd_done b = true) group
    /\ file_inv f' m (segs ++ take (length offs) new)
    /\ match r with
       | Err e => Forall (fun c => c.2 = Err e) calls
       | Ok _ => length offs = length group
           /\ (zlen (contents (fl_dev f')) < two63 ->
               forall b r rows, (b, r) ∈ calls -> batch_of b rows ->
                 exists addrs, r = Ok addrs /\ length addrs = length rows
                   /\ forall i a, addrs !! i = Some a ->
                        exists row, rows !! i = Some row /\ ReadRecordAt f' a = Ok row)
       | Panic => False
       end.
Proof. apply commit_ok. Qed.

Lemma group_commit_publishes_witness :
  exists (f f' : File Disk) a, file_inv f fresh_meta []
    /\ commit f [ex_batch] = (f', Ok [(ex_batch, Ok [a])]) /\ ReadRecordAt f' a = Ok ex_record.
Proof.
  destruct (ex_file SyncAlways []) as (f & Hi & Ht & Hh & _ & Hc & Hs & _).
  assert (Hw : Forall Pending_wf (map sealed_pending [ex_batch]))
    by (constructor; [exact (batch_pending_wf _ _ ex_batch_of)|constructor]).
  destruct (AppendGroup_healthy f _ _ _ Hi Hh Hw) as (f1 & offs1 & Happ & _); [by rewrite Hs|by rewrite Hc|].
  destruct (AppendGroup_inv _ _ _ _ _ _ _ Hi Hw ltac:(by rewrite Hs) Happ) as (_ & _ & _ & _ & _ & Hok).
  destruct (Hok eq_refl) as (_ & Hcur & _ & Ht1). destruct (Ht1 Ht) as [Hz _]. rewrite Hcur, Hc in Hz.
  destruct (group_commit_publishes f fresh_meta [] [ex_batch] Hi) as (f' & offs & r & calls & Ha & Hcm & Hf & _ & Hr).
  - intros b ->%list_elem_of_singleton. exists [ex_record]. apply ex_batch_of.
  - by rewrite Hs.
  - rewrite Happ in Ha. injection Ha as <- <- <-. destruct Hr as [_ Hr].
    destruct calls as [|[b r] [|]]; try done. injection Hf as ->.
    destruct (Hr ltac:(eapply Z.le_lt_trans; [exact Hz|done]) ex_batch r [ex_record]) as (addrs & -> & Hl & Hread);
      [by left|apply ex_batch_of|].
    destruct addrs as [|a [|]]; try done. destruct (Hread 0%nat a eq_refl) as (row & [= <-] & Hrd).
    exists f, f1, a. by split_and!.
Defined.
