(* ===== verification/ToolTheorems.v ===== *)
(** Properties of the read-only tools: the inspection report, the persistence fields
    derived from it and the logical dump. *)

From S2P Require Import Prelude Ordered Loop Crc Format Rows Headers Tables Frames Device Scan File Rebuild Recovery Regions Inspect Crash Examples.
From stdpp Require Import sorting strings.
#[local] Open Scope Z_scope.

#[local] Opaque loop ParsePrefix ParseMetaSlot ParseSegHeader VerifyPayload crc32c ParseSRT.

(** Inspecting a consistent file succeeds and reports the prefix, the live slot and
    root recovery elects, the end of the log and the exact segment population by kind;
    and on any device at all, a report that is produced agrees with every open that
    succeeds on the prefix, the slot, the commit sequence and the end of the log. *)
Theorem inspect_agrees {D} `{DeviceLaws D} (f : File D) m segs :
  file_inv f m segs -> fl_cursor f < two63 -> zlen (contents (fl_dev f)) < two63 ->
  torn (contents (fl_dev f)) ChecksumCRC32C (zlen (contents (fl_dev f))) (fl_cursor f) ->
  roots_read (fl_dev f) (fl_prefix f) m ->
  (exists rep, Inspect (fl_dev f) = Ok rep
    /\ rp_Prefix rep = fl_prefix f /\ rp_Live rep = fl_liveSlot f /\ rp_LiveMeta rep = Some m
    /\ st_DurableTail (rp_Segments rep) = fl_cursor f /\ st_Total (rp_Segments rep) = zlen segs
    /\ forall k, default 0 (st_ByKind (rp_Segments rep) !! k) = kind_count k segs)
  /\ forall (dev : D) rep time_Now opts f2,
       Inspect dev = Ok rep -> OpenOnDevice time_Now dev opts = Ok f2 -> px_PageSize (rp_Prefix rep) = PageSize ->
       fl_prefix f2 = rp_Prefix rep /\ fl_liveSlot f2 = rp_Live rep
       /\ (ms_CommitSeq <$> rp_LiveMeta rep) = Some (fl_commitSeq f2)
       /\ fl_cursor f2 = st_DurableTail (rp_Segments rep).
Proof.
  intros Hi Hc Hz Ht Hr. split; [by apply Inspect_file|]. intros dev rep time_Now opts f2 Hin Ho Hp.
  by apply (Inspect_OpenOnDevice dev rep time_Now opts f2).
Qed.

Lemma inspect_agrees_witness :
  exists (f : File Disk) rep, Inspect (fl_dev f) = Ok rep /\ rp_LiveMeta rep = Some fresh_meta
    /\ st_DurableTail (rp_Segments rep) = PageSize /\ st_Total (rp_Segments rep) = 0.
Proof.
  destruct (ex_file SyncAlways []) as (f & Hi & Ht & Hh & _ & Hc & _). exists f.
  destruct (inspect_agrees f fresh_meta [] Hi) as [(rep & HI & _ & _ & Hm & Htl & Htot & _) _].
  - rewrite Hc. done.
  - destruct Ht as [Hz _]. rewrite Hc in Hz. eapply Z.le_lt_trans; [exact Hz|done].
  - by eapply tidy_torn.
  - split_and!; done.
  - exists rep. rewrite Hc in Htl. by split_and!.
Defined.

(** The dump visits the shards in order and, within a shard, the keys in byte order,
    each once, and a key appears exactly when the last record logged for it is not a
    tombstone, with the fields of that record. *)
Theorem dump_exact {D} `{DeviceLaws D} {St} (f : File D) m segs rows (visit : St -> DumpRecord -> vres St) st :
  file_inv f m segs -> fl_cursor f < two63 -> Forall (cut_from rows) segs ->
  px_ShardCount (fl_prefix f) <= two16 ->
  let recs shard := concat (map (shard_records shard rows) segs) in
  let out shard := shard_dump (foldl (row_step shard) ∅ (recs shard)) in
  Dump f visit st
    = walk_result (fold_items visit st
        (concat (map (fun i => out (Z.of_nat i)) (seq 0 (Z.to_nat (px_ShardCount (fl_prefix f)))))))
  /\ forall shard, StronglySorted bytes_lt (du_Key <$> out shard)
     /\ forall d, d ∈ out shard <-> exists row, last_row (rr_Key row) (recs shard) = Some row
                                      /\ is_tombstone row = false /\ d = dump_of shard row.
Proof.
  intros Hi Hc Hcut Hn. cbv zeta. split.
  - unfold Dump. rewrite (dump_shards_log f m segs rows) by (done || lia). do 2 f_equal.
  - intros shard. split; [rewrite shard_dump_keys; apply sorted_keys_sorted|intros d; apply shard_dump_elem].
Qed.

Lemma dump_exact_witness :
  exists f : File Disk, Dump f (fun l d => VCont (l ++ [d])) [] = Ok ([dump_of 0 ex_record], None).
Proof.
  destruct ex_recorded as (f & Hi & _ & _ & Hc & _ & _ & Hn). exists f.
  destruct (dump_exact f fresh_meta _ (fun _ => [ex_record]) (fun l d => VCont (l ++ [d])) [] Hi) as [-> _];
    [lia| |rewrite Hn; lia|rewrite Hn; vm_compute; reflexivity].
  constructor; [|constructor]. intros _. split; [done|]. constructor; [apply ex_record_wf|constructor].
Defined.

(** The checkpoint lag a report derives is between zero and the durable tail, no
    shard's unreplayed tail is longer, and when it is not zero some shard's is that
    long: the subtraction never wraps. *)
Theorem persistence_lag_bounds r m s :
  rp_LiveMeta r = Some m -> rp_SRT r = Some s -> is_u64 (st_DurableTail (rp_Segments r)) ->
  Forall (fun row => 0 <= sr_FirstTailSeg row) (srt_Rows s) ->
  let tail := st_DurableTail (rp_Segments r) in
  let lag := pi_CkptLagBytes (Persistence r) in
  0 <= lag <= tail
  /\ Forall (fun row => in_tail tail row -> tail - sr_FirstTailSeg row <= lag) (srt_Rows s)
  /\ (lag = 0 \/ exists row, row ∈ srt_Rows s /\ in_tail tail row /\ lag = tail - sr_FirstTailSeg row).
Proof. apply Persistence_lag_eq. Qed.

(** A two-shard report whose tail starts at 4096 and 8192 and ends at 16384. *)
Definition ex_tail_row (ft : Z) : SRTRow := mkSRTRow 0 0 0 0 0 0 0 0 ft 0.

Definition ex_report : Report :=
  {| rp_Prefix := NewPrefix 2 0 [] 0;
     rp_SlotA := mkSlotReport 0 true 0 false None; rp_SlotB := mkSlotReport 0 true 0 false None;
     rp_Live := 0; rp_LiveMeta := Some fresh_meta; rp_PhysicalSize := 16384;
     rp_SRT := Some {| srt_Gen := 1; srt_SnapWbar := 0; srt_Flags := 0; srt_Rows := [ex_tail_row 8192; ex_tail_row 4096] |};
     rp_SRTErr := None; rp_Extents := []; rp_ExtErr := None; rp_TTL := []; rp_TTLErr := None;
     rp_FreeMap := []; rp_FreeMapErr := None; rp_MetaKV := []; rp_MetaKVErr := None;
     rp_Segments := mkTally ∅ 3 16384 |}.

Lemma persistence_lag_bounds_witness :
  pi_CkptLagBytes (Persistence ex_report) = 12288 /\ 0 <= pi_CkptLagBytes (Persistence ex_report) <= 16384.
Proof.
  split; [reflexivity|].
  apply (persistence_lag_bounds ex_report fresh_meta _ eq_refl eq_refl); [unfold is_u64; cbn; lia|].
  repeat constructor; cbn; lia.
Defined.
