(* ===== verification/RespTheorems.v ===== *)
(** Properties of the wire protocol's request parser and reply builders. *)

From S2P Require Import Prelude Format Decimal Resp.
#[local] Open Scope Z_scope.

(** C26: parsing does not depend on how the stream was cut into reads: fed any chunks, the
    parser delivers the commands, the error and the unread bytes of the whole stream. *)
Theorem resp_chop_invariant chunks :
  let c := receive_all chunks in let w := parse_all (concat chunks) in
  cn_cmds c = cn_cmds w /\ cn_err c = cn_err w /\ (cn_err c = None -> cn_buf c = cn_buf w).
Proof. apply receive_all_concat. Qed.

(** C27: a command in the standard framing parses back to its arguments, consuming exactly
    its bytes and nothing of what follows; and the presized bulk emitter writes the same
    framing as the plain one, whatever the grown buffer held before. *)
Theorem resp_command_roundtrip args rest spare dst v :
  args <> [] -> zlen args <= maxMultibulk -> Forall (fun v => zlen v <= MaxBulk) args ->
  is_u64 (zlen v) -> grown spare (1 + declen (zlen v) + 2 + zlen v + 2) ->
  Next (encode_command args ++ rest) = POk args (length (encode_command args))
  /\ AppendBulk spare dst v = dst ++ bulk v.
Proof. intros. split; [by apply Next_encode|by apply AppendBulk_eq]. Qed.

Lemma resp_command_roundtrip_witness :
  Next (encode_command [str "GET"; str "key"] ++ str "*1") = POk [str "GET"; str "key"] 22
  /\ AppendBulk (replicate 11 x7a) (str "+OK") (str "hello") = str "+OK" ++ bulk (str "hello").
Proof.
  apply (resp_command_roundtrip [str "GET"; str "key"] (str "*1") (replicate 11 x7a) (str "+OK") (str "hello"));
    [done|done| |done|done].
  rewrite !Forall_cons, Forall_nil. by split_and!.
Defined.
