(* ===== verification/EngineTheorems.v ===== *)
(** Properties of the in-memory engine's parts: the tier directory, the sorted-set score
    codec, integer parsing, the expiry core, the member table and the native set. *)

From stdpp Require Import sorting.
From S2P Require Import Prelude Loop Format Ordered TierDirectory ScoreCodec Decimal Expire Swar SwissTable SetTable.
#[local] Open Scope Z_scope.

#[local] Opaque loop.

(** ** The tier directory *)

(** A discriminator longer than the inline array matches no descriptor, so inserting it
    always adds one. *)
Lemma search_long ds t disc :
  Forall (fun d => de_dlen d <= maxDisc) ds -> maxDisc < zlen disc ->
  exists i, search (mkDirectory ds t) disc = (i, false).
Proof.
  intros Hf Hd. unfold search. cbn [dir_descs]. set (i := sort_Search _ _). exists i. f_equal.
  destruct (decide (i < length ds)%nat) as [Hi|Hi]; [|by rewrite bool_decide_eq_false_2].
  apply lookup_lt_is_Some_2 in Hi as [d Hi]. apply andb_false_intro2, not_true_is_false.
  intros E%bytes_eqb_eq. unfold disc_at in E. rewrite Hi in E. cbn [from_option] in E.
  apply (f_equal zlen) in E. unfold discBytes in E. rewrite zlen_ztake in E.
  pose proof (Forall_lookup_1 _ _ _ _ Hf Hi) as Hl. cbn beta in Hl. unfold maxDisc in *. lia.
Qed.

(** It is stored cut to the array. *)
Lemma insert_long_cut dir disc count off :
  dir_inv dir -> maxDisc < zlen disc ->
  exists i d, dir_descs (Directory_Insert dir disc count off) = take i (dir_descs dir) ++ d :: drop i (dir_descs dir)
    /\ discBytes d = ztake maxDisc disc /\ de_off d = off /\ de_count d = count.
Proof.
  intros Hi Hd. destruct dir as [ds t]. destruct (search_long ds t disc) as [i Hs]; [|done|].
  { eapply Forall_impl; [apply (di_wf _ Hi)|]. intros d (_ & ? & _). lia. }
  unfold Directory_Insert. rewrite Hs. exists i. eexists. split; [reflexivity|]. split; [|done].
  by apply desc_disc_long.
Qed.

Lemma insert_long ds t disc count off :
  Forall (fun d => de_dlen d <= maxDisc) ds -> maxDisc < zlen disc ->
  exists ds' t', Directory_Insert (mkDirectory ds t) disc count off = mkDirectory ds' t'
    /\ length ds' = S (length ds) /\ Forall (fun d => de_dlen d <= maxDisc) ds'.
Proof.
  intros Hf Hd. destruct (search_long ds t disc Hf Hd) as [i Hs]. unfold Directory_Insert. rewrite Hs.
  do 2 eexists. split; [reflexivity|]. cbn [dir_descs]. split.
  - rewrite length_app. cbn [length]. rewrite length_take, length_drop. lia.
  - apply Forall_app. split; [by apply Forall_take|]. apply Forall_cons. split; [cbn; lia|by apply Forall_drop].
Qed.

(** C30: a directory implements the finite map from first discriminators to frames,
    for discriminators of at most 32 bytes: inserting one does to the map what it says.
    A longer one, which the sorted-set caller does pass, is stored cut to 32 bytes as a
    new descriptor each time (so it duplicates on a second insert).  Removing and
    restatusing a descriptor do to the map what they say and keep the descriptors sorted
    and the total exact, [Floor] finds the last descriptor at or before a discriminator
    of any length, and [RankBefore] counts the elements before a descriptor. *)
Theorem directory_refines dir disc count off idx d status :
  dir_inv dir -> is_u32 count -> dir_descs dir !! idx = Some d ->
  (zlen disc <= maxDisc ->
   dir_inv (Directory_Insert dir disc count off)
   /\ dir_map (Directory_Insert dir disc count off) = <[disc := (off, count)]> (dir_map dir))
  /\ (maxDisc < zlen disc ->
      exists i e, dir_descs (Directory_Insert dir disc count off) = take i (dir_descs dir) ++ e :: drop i (dir_descs dir)
        /\ discBytes e = ztake maxDisc disc /\ de_off e = off /\ de_count e = count)
  /\ (exists dir', Directory_Remove dir idx = Some dir' /\ dir_inv dir'
      /\ dir_map dir' = delete (discBytes d) (dir_map dir))
  /\ (exists dir', SetStatus dir idx status = Some dir' /\ dir_inv dir' /\ dir_map dir' = dir_map dir
      /\ Directory_At dir' idx = Some (de_off d, de_count d, status))
  /\ match Floor dir disc with
     | Some i => exists e, dir_descs dir !! i = Some e /\ bytes_le (discBytes e) disc
         /\ Forall (fun e => bytes_lt disc (discBytes e)) (drop (S i) (dir_descs dir))
     | None => Forall (fun e => bytes_lt disc (discBytes e)) (dir_descs dir)
     end
  /\ RankBefore dir idx = sum_counts (take idx (dir_descs dir)) mod two64.
Proof.
  intros Hi Hc Hidx. split; [intros Hd; by apply Directory_Insert_ok|].
  split; [intros Hd; by apply insert_long_cut|]. split_and!.
  - by apply Directory_Remove_ok.
  - by apply SetStatus_ok.
  - by apply Floor_ok.
  - apply RankBefore_eq.
Qed.

Definition ex_dir : Directory := insert_all (mkDirectory [] 0) [(str "m", (100, 5)); (str "d", (200, 7))].

Lemma directory_refines_witness :
  DiscAt ex_dir 0 = Some (str "d") /\ Floor ex_dir (str "k") = Some 0%nat
  /\ dir_map (Directory_Insert ex_dir (str "k") 3 300) = <[str "k" := (300, 3)]> (dir_map ex_dir).
Proof.
  split; [vm_compute; reflexivity|]. split; [vm_compute; reflexivity|].
  assert (dir_inv (mkDirectory [] 0)) as H0 by (split; [constructor|constructor|done]).
  destruct (insert_all_ok [(str "m", (100, 5)); (str "d", (200, 7))] (mkDirectory [] 0) H0) as [Hi _].
  { rewrite !Forall_cons, Forall_nil. by split_and!. }
  destruct (dir_descs ex_dir !! 0%nat) as [d|] eqn:Hd; [|vm_compute in Hd; discriminate].
  destruct (directory_refines ex_dir (str "k") 3 300 0 d 0 Hi) as [H1 _]; [done|exact Hd|].
  apply H1. vm_compute. discriminate.
Defined.

(** Inserting one long discriminator [n] times leaves [n] descriptors, not one. *)
Theorem directory_long_disc_duplicates disc l :
  maxDisc < zlen disc ->
  Directory_Len (insert_all (mkDirectory [] 0) ((fun v => (disc, v)) <$> l)) = zlen l.
Proof.
  intros Hd. enough (forall ds t, Forall (fun d => de_dlen d <= maxDisc) ds ->
    Directory_Len (insert_all (mkDirectory ds t) ((fun v => (disc, v)) <$> l)) = zlen ds + zlen l) as H.
  { rewrite H by constructor. done. }
  induction l as [|[off count] l IH]; intros ds t Hf; cbn [fmap list_fmap insert_all foldl].
  { change (zlen []) with 0. rewrite Z.add_0_r. done. }
  destruct (insert_long ds t disc count off Hf Hd) as (ds' & t' & -> & Hl & Hf').
  fold (insert_all (mkDirectory ds' t') ((fun v => (disc, v)) <$> l)).
  rewrite IH by done. rewrite zlen_cons. unfold zlen. rewrite Hl. lia.
Qed.

(** ** Scores *)

(** C29: the tree key orders scores numerically, with the two zeros equal, and ties broken
    by the member bytes in the cold discriminator; the key gives the score back; and the
    inline encoding of a score reads back at the width it announces, whatever follows. *)
Theorem score_codec f g m m' rest :
  is_u64 f -> is_u64 g ->
  (scoreKey f < scoreKey g <-> f64_scaled f < f64_scaled g)
  /\ bytes_Compare (discOf (scoreKey f) m) (discOf (scoreKey g) m')
     = match f64_scaled f ?= f64_scaled g with Eq => bytes_Compare m m' | c => c end
  /\ scoreFromKey (scoreKey f) = (if f64_is_zero f then 0 else f)
  /\ @readScore Empty_set (score_bytes f ++ rest)
     = Ok (match intScore f with Some _ => if f64_is_zero f then 0 else f | None => f end, encScoreWidth f)
  /\ @scoreWidthAt Empty_set (score_bytes f ++ rest) 0 = Ok (encScoreWidth f)
  /\ zlen (score_bytes f) = encScoreWidth f.
Proof.
  intros Hf Hg. split; [by apply scoreKey_lt|]. split.
  - rewrite discOf_compare by (by apply scoreKey_u64).
    pose proof (scoreKey_lt f g Hf Hg). pose proof (scoreKey_lt g f Hg Hf).
    destruct (Z.compare_spec (scoreKey f) (scoreKey g)), (Z.compare_spec (f64_scaled f) (f64_scaled g)); (done || lia).
  - split; [by apply scoreFromKey_scoreKey|]. by apply readScore_score_bytes.
Qed.

(** 1.5 against -2 *)
Lemma score_codec_witness :
  scoreKey 13835058055282163712 < scoreKey 4609434218613702656
  /\ @readScore Empty_set (score_bytes 4609434218613702656 ++ str "member") = Ok (4609434218613702656, 9).
Proof.
  destruct (score_codec 13835058055282163712 4609434218613702656 [] [] []) as [H1 _]; [unfold is_u64; lia..|].
  destruct (score_codec 4609434218613702656 0 [] [] (str "member")) as (_ & _ & _ & H2 & _); [unfold is_u64; lia..|].
  split; [apply H1; vm_compute; reflexivity|]. rewrite H2. vm_compute. reflexivity.
Defined.

(** ** Integers *)

(** [ParseInt] accepts exactly the canonical decimal text of a 64-bit signed
    integer, and answers that integer. *)
Theorem parse_int_exact b n :
  ParseInt b = Some n <-> - 9223372036854775808 <= n < 9223372036854775808 /\ b = FormatInt n.
Proof. apply ParseInt_spec. Qed.

(** ** Expiry *)




(** The most negative EXPIRE a clock could absorb is refused for its product alone. *)
Example expire_product_refused :
  secToMs (-9223372036854776) = None /\ is_i64 (1000 + -9223372036854776 * 1000)
  /\ instant 1000 unitEXsec (-9223372036854776) = None.
Proof. split_and!; [reflexivity|unfold is_i64; lia..|reflexivity]. Qed.

(** Every operation of the list keyspace keeps the running resident total equal to
    what the live lists posted, and KEYS and SCAN offer exactly the keys EXISTS confirms,
    lazily expired lists excluded from both. *)
Theorem list_keyspace {L} (residentBytes : L -> Z) (g : ListKeys.reg (L:=L)) cx key args verb :
  ListKeys.acct_inv g ->
  (forall g' cx' r, ListKeys.live g cx key = (g', cx', r) -> ListKeys.acct_inv g')
  /\ ListKeys.acct_inv (ListKeys.note residentBytes g key) /\ ListKeys.acct_inv (ListKeys.Flush g)
  /\ (forall l, ListKeys.rg_m g !! key = None -> ListKeys.ls_acct l = 0 -> ListKeys.acct_inv (ListKeys.install g cx key l))
  /\ (forall g' cx' b, ListKeys.Delete_key g cx key = (g', cx', b) -> ListKeys.acct_inv g')
  /\ (forall g' cx' b, ListKeys.Persist g cx key = (g', cx', b) -> ListKeys.acct_inv g')
  /\ (forall g' cx' r, ListKeys.Expire g cx args verb = Some (g', cx', r) -> ListKeys.acct_inv g')
  /\ (key ∈ ListKeys.RangeKeys g cx <-> (ListKeys.Has g cx key).2 = true).
Proof.
  intros Hi. split_and!.
  - intros g' cx' r Hl. by eapply ListKeys.live_acct.
  - by apply ListKeys.note_acct.
  - apply ListKeys.Flush_acct.
  - intros l Hn Hl. by apply ListKeys.install_acct.
  - intros g' cx' b Hl. by eapply ListKeys.Delete_key_acct.
  - intros g' cx' b Hl. by eapply ListKeys.Persist_acct.
  - intros g' cx' r Hl. by eapply ListKeys.Expire_acct.
  - apply ListKeys.RangeKeys_Has.
Qed.

(** Accounting on, one list that has posted nothing yet. *)
Definition ex_acct : ListKeys.reg (L := nat) :=
  ListKeys.mkReg (<[str "k" := ListKeys.mkLst 3%nat 0 0 0]> ∅) 0 true [].

Lemma list_keyspace_witness :
  ListKeys.acct_inv ex_acct /\ ListKeys.acct_inv (ListKeys.note Z.of_nat ex_acct (str "k")).
Proof.
  assert (ListKeys.acct_inv ex_acct) as Hi.
  { intros _. unfold ex_acct. cbn [ListKeys.rg_m ListKeys.rg_resident].
    rewrite ListKeys.acct_insert by apply lookup_empty. unfold ListKeys.acct_total. rewrite map_fold_empty. reflexivity. }
  split; [exact Hi|].
  apply (list_keyspace Z.of_nat ex_acct (mkCtx 0 []) (str "k") [] []) in Hi as (_ & H1 & _). exact H1.
Defined.

(** ** The member table *)

(** C25: over any member store that keeps its promises, the table is the set of the
    ordinals it contains: [Find] always answers, with the member's ordinal exactly when it
    is there; [Insert] of a new member, growing or not, adds exactly its ordinal while the
    table has fewer than 7 * 2^26, and [Delete] removes exactly the key's; every probe
    ends. *)
Theorem table_refines {S} `{MemberSetLaws S} (s : S) t k :
  table_inv s t k ->
  (forall key, exists r, Find t (hash key) key s = Ok r
     /\ match r with
        | Some o => o ∈ contents t /\ member s o = key
        | None => key ∉ member s <$> contents t
        end)
  /\ (forall o, valid s o -> member s o ∉ member s <$> contents t -> t_count t + 1 <= 469762048 ->
       exists t' k', Insert t (hash (member s o)) o s = Ok t' /\ table_inv s t' k' /\ contents t' ≡ₚ o :: contents t)
  /\ (forall key, exists t' r, Delete t (hash key) key s = Ok (t', r) /\ table_inv s t' k
       /\ match r with
          | Some o => contents t ≡ₚ o :: contents t' /\ member s o = key
          | None => t' = t /\ key ∉ member s <$> contents t
          end).
Proof.
  intros Hi. split_and!.
  - intros key. by eapply Find_spec.
  - intros o Hv Hn Hc. destruct (Insert_ok s t k o Hi Hv Hn Hc) as (t' & k' & ? & ? & ? & _). by exists t', k'.
  - intros key. by apply Delete_ok.
Qed.

(** A cold tier without chunks. *)
#[export] Instance no_chunks : ColdTier unit :=
  {| cold_member _ _ := None; cold_markDirty c _ := c; cold_promote h _ := Ok h |}.

(** A store holding the member "a" at ordinal 0. *)
Definition ex_store : htable unit := mkHtable (init 8) [mkRecord 0 0 1 0] (str "a") [0] [] 0 0 None.

Lemma table_refines_witness :
  Find (init 8) (Hash (str "a")) (str "a") ex_store = Ok None
  /\ exists t' k', Insert (init 8) (Hash (str "a")) 0 ex_store = Ok t' /\ table_inv ex_store t' k' /\ contents t' ≡ₚ [0].
Proof.
  assert (table_inv ex_store (init 8) 0) as Hi by (apply (init_inv ex_store 0); unfold maxGroupBits; lia).
  destruct (table_refines ex_store (init 8) 0 Hi) as (Hf & Hins & _). split.
  - destruct (Hf (str "a")) as (r & Hr & Hs). change (hash (str "a")) with (Hash (str "a")) in Hr. rewrite Hr.
    destruct r as [o|]; [|reflexivity]. destruct Hs as [Ho _]. rewrite init_contents, elem_of_nil in Ho. done.
  - destruct (Hins 0) as (t' & k' & H1 & H2 & H3).
    + exists (mkRecord 0 0 1 0). split_and!; (done || (vm_compute; congruence)).
    + rewrite init_contents. apply not_elem_of_nil.
    + cbn. lia.
    + exists t', k'. rewrite init_contents in H3. split_and!; done.
Defined.

(** C31: growing a table ends within its 32-bit capacity for every member count below
    [7 * 2^26]; at that count the load product wraps, the doubled capacity shifts out to
    zero, and the loop never ends. *)
Theorem table_growth_bound count k :
  0 <= k <= maxGroupBits -> 0 <= count < 469762048 ->
  (exists k', loop (grow_body count) fuel64 (8 * 2 ^ k) = inr (8 * 2 ^ k')
     /\ k <= k' <= maxGroupBits /\ count + 1 <= 7 * 2 ^ k')
  /\ forall n, exists c, loop (grow_body 469762048) n (8 * 2 ^ maxGroupBits) = inl c.
Proof.
  intros Hk Hc. split; [apply grow_loop; lia|]. intros n. rewrite loop_loopn. eexists. apply grow_stuck.
Qed.

Lemma table_growth_bound_witness :
  (exists k', loop (grow_body 7) fuel64 8 = inr (8 * 2 ^ k') /\ 0 <= k' <= maxGroupBits /\ 8 <= 7 * 2 ^ k')
  /\ exists c, loop (grow_body 469762048) 1000 (8 * 2 ^ maxGroupBits) = inl c.
Proof.
  destruct (table_growth_bound 7 0) as [H1 H2]; [unfold maxGroupBits; lia|lia|]. split; [exact H1|exact (H2 1000%positive)].
Defined.

(** The byte match flags a byte that differs from the target when it sits above one that
    matches; the lowest flag is always a match. *)
Theorem matchByte_overmatches :
  matchByte (word [5; 4; 128; 128; 128; 128; 128; 128]) 5 = mask [true; true; false; false; false; false; false; false].
Proof. reflexivity. Qed.

(** ** The native set *)

(** C24: a native set built for any hint and driven by any sequence of adds, removes and
    lookups within its size limits answers what the mathematical set answers, holds the
    same members, counts them, and enumerates each once. *)
Theorem set_refines {C} `{ColdTier C} hint ops :
  0 <= hint <= 469762048 -> room (fresh (C:=C)) ops ->
  exists (h h' : htable C) k, newHashtable hint = Ok h /\ srun h ops = Ok (h', (set_run ∅ ops).2)
    /\ hinv h' k /\ elems h' = (set_run ∅ ops).1
    /\ card h' = Z.of_nat (size (elems h'))
    /\ exists ms, each h' = Ok ms /\ NoDup ms /\ list_to_set ms = elems h'.
Proof.
  intros Hh Hr. destruct (newHashtable_ok hint Hh) as (h & k & Hn & Hi & He & Hs & Hrec & _).
  destruct (srun_ok ops h k Hi) as (h' & k' & Hrun & Hi' & He' & _).
  { unfold room in *. by rewrite Hs, Hrec. }
  rewrite He in Hrun, He'. exists h, h', k'. split_and!; try done; [by eapply card_ok|by eapply each_ok].
Qed.

Definition ex_ops : list sop := [SAdd (str "a"); SAdd (str "b"); SAdd (str "a"); SRem (str "b"); SHas (str "b")].

Lemma ex_ops_room {C} (h : htable C) : zlen (h_slab h) < 1000 -> zlen (h_recs h) < 1000 -> room h ex_ops.
Proof.
  intros Hs Hr. unfold room, ex_ops. split_and!.
  - rewrite !Forall_cons, Forall_nil. by split_and!.
  - cbn [foldr op_bytes]. change (zlen (str "a")) with 1. change (zlen (str "b")) with 1. lia.
  - cbn [foldr op_recs]. lia.
Qed.

Lemma set_refines_witness :
  exists h h' : htable unit, newHashtable 0 = Ok h /\ srun h ex_ops = Ok (h', (set_run ∅ ex_ops).2).
Proof.
  destruct (set_refines 0 ex_ops) as (h & h' & k & H1 & H2 & _); [lia|by apply ex_ops_room|].
  exists h, h'. split; [exact H1|exact H2].
Defined.

(** While an enumeration is open, no sequence of adds and removes changes the bytes
    an ordinal readable at its start reads: a streamed reply is the snapshot it took. *)
Theorem set_pinned_stream {C} `{ColdTier C} (h : htable C) k ops o :
  hinv h k -> 0 < h_streams h -> room h ops -> h_valid h o ->
  exists h' bs, srun h ops = Ok (h', bs) /\ memberByOrd h' o = memberByOrd h o.
Proof.
  intros Hi Hst Hr Hv. destruct (srun_ok ops h k Hi Hr) as (h' & k' & Hrun & _).
  exists h', (set_run (elems h) ops).2. split; [done|].
  destruct (srun_pins ops h k h' _ Hi Hr Hst Hrun) as [Hp Hs]. by apply pins_read.
Qed.

Lemma set_pinned_stream_witness :
  exists (h : htable unit) o h' bs, 0 < h_streams h /\ o ∈ h_vec h /\ srun h ex_ops = Ok (h', bs) /\ memberByOrd h' o = memberByOrd h o.
Proof.
  destruct (add_ok fresh 0 (str "x") fresh_inv) as (h & k & _ & Hi & He & Hs & Hr & _); [done..|].
  destruct (pinStream_inv h k Hi) as (Hi' & Hst & _).
  destruct (h_vec h) as [|o vec] eqn:Ev.
  { unfold elems in He. rewrite Ev in He. cbn in He. set_solver. }
  destruct (set_pinned_stream (pinStream h) k ex_ops o Hi' Hst) as (h' & bs & H1 & H2).
  - apply ex_ops_room; cbn [pinStream with_streams h_slab h_recs].
    + eapply Z.le_lt_trans; [exact Hs|done].
    + eapply Z.le_lt_trans; [exact Hr|done].
  - pose proof (recs_vec_valid _ (hi_recs _ _ Hi')) as Hv. rewrite Forall_forall in Hv. apply Hv.
    cbn [pinStream with_streams h_vec]. rewrite Ev. left.
  - exists (pinStream h), o, h', bs. split; [exact Hst|]. split; [|by split].
    cbn [pinStream with_streams h_vec]. rewrite Ev. left.
Defined.

(** C36: a member of 65536 bytes or more is stored with its length cut to 16 bits: adding
    it to a fresh set reports a gain and counts one member, and the set then denies
    having it. *)
Theorem set_long_member_lost {C} `{ColdTier C} m :
  two16 <= zlen m < two32 ->
  exists h : htable C, add fresh m = Ok (h, true) /\ card h = 1 /\ has h m = Ok false.
Proof.
  intros Hm. destruct (fresh_add m) as (i & tag & Ht & Ha); [lia|].
  eexists. split; [exact Ha|]. split; [done|]. apply one_record_misses; [done| |lia|].
  - split; [done|]. cbn. pose proof (Z.mod_le (zlen m) two16 ltac:(lia) ltac:(lia)).
    pose proof (Z.mod_pos_bound (zlen m) two16 ltac:(lia)). lia.
  - intros E. apply (f_equal zlen) in E. cbn [r_loc r_mlen] in E.
    pose proof (Z.mod_pos_bound (zlen m) two16 ltac:(lia)).
    rewrite zlen_sl in E by lia. lia.
Qed.

Lemma set_long_member_lost_witness :
  exists h : htable unit, add fresh (replicate (Z.to_nat 65536) x41) = Ok (h, true) /\ card h = 1
    /\ has h (replicate (Z.to_nat 65536) x41) = Ok false.
Proof. apply set_long_member_lost. unfold zlen. rewrite length_replicate. lia. Defined.
