(* ===== verification/ListTheorems.v ===== *)
(** Properties of the list engine (engine/f3/list) and of the store's value log
    (engine/f3/store): the two bands of a list as one sequence, the rank directory, demotion to
    the cold region, and the region's frames. *)

From S2P Require Import Prelude Format Frames Device Decimal Resp Ordered TierDirectory InlineList ChunkRing Fenwick ValueLog NativeList NativeRefines NativeOps NativeSweeps NativeTrim NativeDemote ListMeaning ListRun.
#[local] Open Scope Z_scope.

#[local] Abbreviation P A := (res Empty_set A).

(** ** One list *)


Definition ex_list_ops : list lop :=
  [OPush false [] (str "b"); OPush true [] (str "a"); OPush false [] (zeros 9000); OPush false [] (str "b"); OGet 1; ORem (-1) (str "b"); ODemote (fun _ => None) (str "k");
   OTrim 0 1; OPop false; OLen].

Lemma ex_list_ops_legal : legal_run [] ex_list_ops.
Proof.
  unfold ex_list_ops, legal_run, legal, okv, small. rewrite !zlen_frame. cbv [spec_step fst snd pushed app].
  assert (Hz : zlen (PutUvarint (zlen (zeros 9000))) <= 10) by (by vm_compute).
  assert (Hz9 : zlen (zeros 9000) = 9000) by (by rewrite zlen_zeros). split_and!; try (vm_compute; done); try lia.
Qed.


(** At every point of such a run the list reports the compact encoding only while its
    elements fit the compact budget and no chunk was built, and once it reports the chunked
    encoding it never reports the compact one again. *)
Theorem list_band_budget st ops1 ops2 : region_wf st -> region_tail st + run_need (ops1 ++ ops2) < two63 -> legal_run [] (ops1 ++ ops2) ->
  exists st1 l1 tr1 st2 l2 tr2, engine_run st newList ops1 = Ok (st1, l1, tr1) /\ engine_run st1 l1 ops2 = Ok (st2, l2, tr2)
    /\ match encoding_of l1 with
       | encListpack => kl_nat l1 = None /\ lpOverhead + sizes (spec_run [] ops1).1 <= listpackBudget
       | encQuicklist => is_Some (kl_nat l1) /\ encoding_of l2 = encQuicklist
       end.
Proof.
  intros Hwf Hroom Hleg. apply legal_run_app in Hleg as [Hleg1 Hleg2]. rewrite run_need_app in Hroom.
  destruct (engine_run_ok ops1 st newList [] (new_list_holds st) Hwf Hleg1) as (st1 & l1 & E1 & Hl1 & Hwf1 & _ & Ht1); [pose proof (run_need_nonneg ops2); lia|].
  destruct (engine_run_ok ops2 st1 l1 _ Hl1 Hwf1 Hleg2) as (st2 & l2 & E2 & Hl2 & _); [lia|]. exists st1, l1, (spec_run [] ops1).2, st2, l2. eexists. split_and!; [done|done|].
  pose proof (list_holds_band _ _ _ Hl1) as Hb. destruct (encoding_of l1) eqn:Ee; [done|]. split; [done|]. unfold encoding_of in *. rewrite (engine_run_large _ _ _ _ _ _ E2 Hb). by destruct (kl_everLarge l1).
Qed.

Lemma list_band_budget_witness : exists st1 l1 tr1, engine_run (Some openVlog) newList (take 2 ex_list_ops) = Ok (st1, l1, tr1) /\ encoding_of l1 = encListpack.
Proof.
  destruct (list_band_budget (Some openVlog) (take 2 ex_list_ops) (drop 2 ex_list_ops) openVlog_wf ltac:(by vm_compute) ex_list_ops_legal) as (st1 & l1 & tr1 & st2 & l2 & tr2 & E & _ & _).
  exists st1, l1, tr1. split; [done|]. vm_compute in E. injection E as _ <- _. reflexivity.
Defined.

(** ** Lists of one region *)





(** A demotion pass over a healthy region sheds the resident interior chunks, up to the
    quantum, and [hasResidentInterior] tells beforehand whether it will shed any. *)
Theorem demote_sheds_interior st nt xs key : holds st nt xs -> healthy st -> region_wf st -> zlen key < 65536 -> region_tail st + demoteQuantum * run_room key < two63 ->
  exists st' nt' n chs, demote (fun _ => None) st nt key = Ok (st', nt', n) /\ holds st' nt' xs /\ hasResidentInterior nt = Ok (0 <? n)
    /\ rview (nt_ring nt) chs /\ n = Z.min demoteQuantum (residents (interior chs)).
Proof.
  intros Hh Hhe Hwf Hk Hroom. pose proof Hh as (chs & yss & H & _ & Hne & _). destruct (demote_healthy st nt chs yss key H Hne Hhe Hwf Hk Hroom) as (st1 & nt1 & E1).
  destruct (demote_ok (fun _ => None) st nt xs key Hh Hwf Hk Hroom) as (st2 & nt2 & n & E2 & Hh2 & _). rewrite E1 in E2. injection E2 as <- <- <-.
  eexists st1, nt1, _, chs. split_and!; [done|done| |apply H|done]. rewrite (hasResidentInterior_ok _ _ _ _ H). f_equal.
  pose proof (residents_nonneg (interior chs)). unfold demoteQuantum. destruct (Z.ltb_spec 0 (residents (interior chs))), (Z.ltb_spec 0 (Z.min 8 (residents (interior chs)))); lia.
Qed.

Definition four_chunks : P native := push_vals new_native (replicate 4 (zeros 4000)).

Definition demoted_by (n : P native) : P Z := let* nt := n in let* '(_, _, n) := demote (fun _ => None) (Some openVlog) nt (str "k") in Ok n.

Lemma demoted_by_eq o nt st' nt' n : o = Ok nt -> demote (fun _ => None) (Some openVlog) nt (str "k") = Ok (st', nt', n) -> demoted_by o = Ok n.
Proof. intros -> E. unfold demoted_by. by rewrite E. Qed.

Lemma four_chunks_holds : exists nt, four_chunks = Ok nt /\ holds (Some openVlog) nt (replicate 4 (zeros 4000)).
Proof.
  unfold four_chunks. assert (Hok : okv (zeros 4000)) by (unfold okv; rewrite zlen_frame, zlen_zeros by done; by vm_compute).
  assert (Hg : forall n nt xs, holds (Some openVlog) nt xs -> exists nt', push_vals nt (replicate n (zeros 4000)) = Ok nt' /\ holds (Some openVlog) nt' (xs ++ replicate n (zeros 4000))).
  { induction n as [|n IH]; intros nt xs Hh; cbn [replicate push_vals]; [exists nt; by rewrite app_nil_r|].
    destruct (nt_pushBack_ok _ _ _ _ Hh Hok) as (nt1 & -> & H1). destruct (IH nt1 _ H1) as (nt2 & -> & H2). exists nt2. by rewrite <- (assoc_L (++)) in H2. }
  apply (Hg 4%nat new_native []). apply new_native_holds.
Qed.

Lemma demote_sheds_interior_witness : exists nt st' nt', four_chunks = Ok nt /\ demote (fun _ => None) (Some openVlog) nt (str "k") = Ok (st', nt', 2) /\ holds st' nt' (replicate 4 (zeros 4000)).
Proof.
  destruct four_chunks_holds as (nt & E & Hh).
  assert (Hhe : healthy (Some openVlog)) by (exists openVlog; split; reflexivity). assert (Hk : zlen (str "k") < 65536) by (vm_compute; reflexivity).
  assert (Hroom : region_tail (Some openVlog) + demoteQuantum * run_room (str "k") < two63) by (vm_compute; reflexivity).
  destruct (demote_sheds_interior (Some openVlog) nt _ (str "k") Hh Hhe openVlog_wf Hk Hroom) as (st' & nt' & n & chs & Ed & Hh' & _ & _ & _).
  exists nt, st', nt'. split; [exact E|split; [|exact Hh']].
  assert (Hn : demoted_by four_chunks = Ok 2) by (vm_compute; reflexivity). rewrite (demoted_by_eq _ _ _ _ _ E Ed) in Hn. injection Hn as ->. exact Ed.
Defined.

(** ** The rank directory *)

(** The position [locate] answers through the Fenwick tree of chunk counts, stale, fresh or
    rebuilt, is the one a scan of the counts from the front answers. *)
Theorem locate_matches_scan d r cs k : rview r cs -> Forall (fun c => 0 <= c) cs -> psum cs (zlen cs) < two64 -> zlen cs < 2 ^ 62 -> dir_ok d cs -> 0 <= k < psum cs (zlen cs) ->
  exists d' ci ord, locate (fun c => c) d r k = Ok (d', (ci, ord)) /\ flat_scan 0 k cs = Some (ci, ord) /\ dir_ok d' cs
    /\ 0 <= ci < zlen cs /\ k = psum cs ci + ord.
Proof.
  intros Hr Hnn Hfit Hsz Hd Hk. assert (Hm : map (fun c : Z => c) cs = cs) by apply map_id.
  destruct (locate_view (fun c => c) d r cs k) as (d' & [ci ord] & E & Hs & Hd'); rewrite ?Hm; try done. rewrite Hm in Hs, Hd'. exists d', ci, ord. split_and!; try done.
  - destruct (flat_scan_spec cs cs 0 k) as (ci' & ord' & Es & Hc & _); [lia|by exists []|rewrite <- psum_all; lia|]. rewrite Hs in Es. injection Es as <- <-. lia.
  - destruct (flat_scan_spec cs cs 0 k) as (ci' & ord' & Es & Hc & _); [lia|by exists []|rewrite <- psum_all; lia|]. rewrite Hs in Es. injection Es as <- <-. lia.
  - destruct (flat_scan_spec cs cs 0 k) as (ci' & ord' & Es & _ & _ & Hp & _); [lia|by exists []|rewrite <- psum_all; lia|]. rewrite Hs in Es. injection Es as <- <-.
    change (psum cs 0) with 0 in Hp. lia.
Qed.

Lemma full_ring_view {C} (cs : list C) : cs <> [] -> rview (mkRing (map Some cs) 0 (zlen cs)) cs.
Proof.
  intros Hne. assert (Hz : zlen (map Some cs) = zlen cs) by (unfold zlen; by rewrite length_map). assert (0 < zlen cs) by (destruct cs; [done|]; rewrite zlen_cons; pose proof (zlen_nonneg cs); lia).
  split_and!; cbn [cr_buf cr_head cr_n]; [done|lia|left; lia|]. intros i c Hi Hc. unfold ix. rewrite Hz. pose proof (lookup_lt_Some _ _ _ Hc). rewrite Z.add_0_l, Z.mod_small by (unfold zlen in *; lia).
  change (map Some cs) with (Some <$> cs). by rewrite list_lookup_fmap, Hc.
Qed.

Lemma locate_matches_scan_witness : exists d', locate (fun c => c) empty_dir (mkRing (map Some (replicate 200 3)) 0 200) 500 = Ok (d', (166, 2)).
Proof.
  destruct (locate_matches_scan empty_dir (mkRing (map Some (replicate 200 3)) 0 200) (replicate 200 3) 500) as (d' & ci & ord & E & Hs & _).
  - by apply (full_ring_view (replicate 200 3)).
  - by apply Forall_replicate.
  - by vm_compute.
  - by vm_compute.
  - intros _ _ Hn. by vm_compute in Hn.
  - by vm_compute.
  - exists d'. rewrite E. vm_compute in Hs. by injection Hs as -> ->.
Defined.

(** ** The value log *)

(** A step of the log: an append, an explicit flush, a reservation, each with what its write does
    ([None]: it goes through; [Some n]: it stops after [n] bytes and fails). *)
Inductive vop : Type :=
  | VAppend (w : option Z) (val : bytes)
  | VFlush (w : option Z)
  | VReserve (w : option Z) (n : Z).

Definition vlog_step (l : vlog) (o : vop) : vlog * option Z :=
  match o with
  | VAppend w val => vlog_append w l val
  | VFlush w => ((vlog_flush w l).1, None)
  | VReserve w n => vlog_reserve w l n
  end.

(** The run, with the values handed an offset. *)
Fixpoint vlog_run (l : vlog) (ops : list vop) : vlog * list (Z * bytes) :=
  match ops with
  | [] => (l, [])
  | o :: ops' =>
      let '(l, r) := vlog_step l o in
      let '(l, hs) := vlog_run l ops' in
      (l, match o, r with VAppend _ val, Some off => (off, val) :: hs | _, _ => hs end)
  end.

Definition vop_len (o : vop) : Z := match o with VAppend _ val => zlen val | VFlush _ => 0 | VReserve _ n => Z.max 0 n end.

Lemma vlog_run_ok ops : forall l, vl_wf l -> Forall (fun o => match o with VReserve _ n => 0 <= n | _ => True end) ops -> vl_tail l + foldr (fun o n => vop_len o + n) 0 ops < two63 ->
  let '(l', hs) := vlog_run l ops in
  vl_wf l' /\ log_keeps l l' /\ Forall (fun '(off, val) => 0 < zlen val -> stored l' off val) hs.
Proof.
  induction ops as [|o ops IH]; intros l Hwf Hn Hfit; cbn [vlog_run]; [split_and!; (done || apply log_keeps_refl)|]. apply Forall_cons in Hn as [Ho Hn]. cbn [foldr] in Hfit.
  assert (Hrest : 0 <= foldr (fun o n => vop_len o + n) 0 ops).
  { clear. induction ops as [|[w val|w|w n] ops IH]; cbn [foldr vop_len]; [lia| | |]; [pose proof (zlen_nonneg val)| |]; lia. }
  assert (Hstep : let '(l1, r) := vlog_step l o in vl_wf l1 /\ log_keeps l l1 /\ vl_tail l1 <= vl_tail l + vop_len o
    /\ match o, r with VAppend _ val, Some off => 0 < zlen val -> stored l1 off val | _, _ => True end).
  { destruct o as [w val|w|w n]; cbn [vlog_step vop_len] in *.
    - pose proof (vlog_append_ok w l val Hwf ltac:(lia)) as Ha. destruct (vlog_append w l val) as [l1 [off|]]; [|by destruct Ha as (? & ? & ? & _)].
      destruct Ha as (? & ? & ? & -> & Hs & _). by split_and!.
    - pose proof (vlog_flush_ok w l Hwf) as Hf. destruct (vlog_flush w l) as [l1 ok]. cbn [fst]. destruct Hf as (? & -> & ? & _). split_and!; (done || lia).
    - rewrite Z.max_r in * by lia. pose proof (vlog_reserve_ok w l n Hwf Ho ltac:(lia)) as Hr. pose proof (vlog_reserve_tail w l n Hwf Ho ltac:(lia)) as Ht.
      destruct (vlog_reserve w l n) as [l1 r]. destruct Hr as (? & ? & _). by split_and!. }
  destruct (vlog_step l o) as [l1 r]. destruct Hstep as (Hwf1 & Hk1 & Ht1 & Hs1). specialize (IH l1 Hwf1 Hn ltac:(lia)). destruct (vlog_run l1 ops) as [l2 hs]. destruct IH as (Hwf2 & Hk2 & Hhs).
  split_and!; [done|by eapply log_keeps_trans|]. destruct o as [w val|w|w n], r as [off|]; try done. apply Forall_cons. split; [|done]. intros Hv. by apply Hk2, Hs1.
Qed.

(** C20: whatever the log's writes do, every value that was handed an offset reads back whole
    from that offset at any later point, whether its bytes are on disk, still pending, or partly
    written by a write that failed. *)
Theorem value_log_reads_back ops : Forall (fun o => match o with VReserve _ n => 0 <= n | _ => True end) ops -> foldr (fun o n => vop_len o + n) 0 ops < two63 ->
  forall off val, (off, val) ∈ (vlog_run openVlog ops).2 -> 0 < zlen val -> vlog_read (vlog_run openVlog ops).1 off (zlen val) = Ok (Some val).
Proof.
  intros Hn Hfit off val Hin Hv. pose proof (vlog_run_ok ops openVlog openVlog_wf Hn Hfit) as Hr. destruct (vlog_run openVlog ops) as [l hs]. destruct Hr as (Hwf & _ & Hhs).
  rewrite Forall_forall in Hhs. apply stored_read; [done|]. by apply (Hhs (off, val)).
Qed.

Definition ex_vops : list vop := [VAppend None (str "ab"); VFlush None; VAppend None (str "cde"); VFlush (Some 1); VAppend None (str "lost")].

Lemma value_log_reads_back_witness : vlog_read (vlog_run openVlog ex_vops).1 2 3 = Ok (Some (str "cde")).
Proof.
  assert (Hin : (2, str "cde") ∈ (vlog_run openVlog ex_vops).2) by (apply list_elem_of_further, list_elem_of_here).
  refine (value_log_reads_back ex_vops _ _ 2 (str "cde") Hin _); [|by vm_compute|by vm_compute]. unfold ex_vops. rewrite !Forall_cons, Forall_nil. by split_and!.
Defined.

(** A chunk frame reads back whole, at any place of a log, with its length; every proper
    prefix of it is refused as torn; and on arbitrary bytes the decoder answers without a fault,
    a frame it accepts lying within them and filling its length exactly. *)
Theorem chunk_frame_codec kind flags n key disc payload rest k buf : chunk_fits kind flags n key disc payload ->
  0 <= k < chunkHdr + zlen key + zlen disc + zlen payload ->
  decodeChunkFrame (appendChunkFrame [] kind flags n key disc payload ++ rest) = Ok (Some (mkChunkFrame kind flags n key disc payload, chunkHdr + zlen key + zlen disc + zlen payload))
  /\ decodeChunkFrame (ztake k (appendChunkFrame [] kind flags n key disc payload)) = Ok None
  /\ exists r, decodeChunkFrame buf = Ok r /\ forall f m, r = Some (f, m) -> chunkHdr <= m <= zlen buf /\ m = chunkHdr + zlen (cf_key f) + zlen (cf_disc f) + zlen (cf_payload f).
Proof. intros Hf Hk. split_and!; [by apply decodeChunkFrame_append|by apply decodeChunkFrame_torn|apply decodeChunkFrame_total]. Qed.

Lemma chunk_frame_codec_witness : decodeChunkFrame (appendChunkFrame [] 131 0 2 (str "k") (str "d") (str "pay") ++ str "tail") = Ok (Some (mkChunkFrame 131 0 2 (str "k") (str "d") (str "pay"), 21)).
Proof.
  assert (Hf : chunk_fits 131 0 2 (str "k") (str "d") (str "pay")) by (unfold chunk_fits, is_u8, is_u16; split_and!; by vm_compute).
  destruct (chunk_frame_codec 131 0 2 (str "k") (str "d") (str "pay") (str "tail") 3 [] Hf ltac:(by vm_compute)) as (H & _). exact H.
Defined.

(** ** A slab wider than its offsets *)

(** An element over 64 KiB gets a slab of its own; LSET of a short element over it keeps that
    slab, and the pushes that follow fill it past the 65536 bytes its 16-bit offsets reach. *)
Definition wide_slab : list lop := [OPush false [] (zeros 65700); OSet 0 (str "a"); OPush false [] (zeros 65600); OPush false [] (str "b"); OGet 2].

Definition answers (st : cold_region) (ops : list lop) : P (list lans) := let* '(_, _, tr) := engine_run st newList ops in Ok tr.

(** LINDEX of the third element answers the empty string, not [b]. *)
Theorem wide_slab_misreads : answers None wide_slab = Ok [ADone; ADone; ADone; ADone; AElem []]
  /\ (spec_run [] wide_slab).2 = [ADone; ADone; ADone; ADone; AElem (str "b")].
Proof. split; [vm_compute; reflexivity|reflexivity]. Qed.

(** ** The least LREM count *)

(** LREM with the count -2^63 keeps every element, whatever the element asked for: the count
    negates to itself, and the removal stops before its first match. *)
Theorem lrem_min_count_keeps xs v : removeMatches xs (- two63) v = (xs, 0).
Proof. rewrite removeMatches_spec by (by vm_compute). unfold lrem_spec. cbn. by rewrite Z.sub_diag. Qed.
