(* ===== verification/KeyspaceTheorems.v ===== *)
(** Properties of the list keyspace of a shard (engine/f3/list): every command as a step of a
    map from keys to sequences, the clients blocked on its keys, the log and the checkpoints that
    bring it back, and two interleavings in which the code loses elements. *)

From stdpp Require Import gmap.
From S2P Require Import Prelude Format Frames Device Decimal Resp Ordered TierDirectory Expire InlineList ChunkRing Fenwick ValueLog NativeList NativeRefines NativeOps NativeSweeps NativeTrim NativeDemote ListMeaning ListRun ListWorld ListCommands ListDurable WaitSlab ListSpec ListRefines ListServe ListBlocked ListHistory ListClients ListReplay.
#[local] Open Scope Z_scope.

#[local] Abbreviation P A := (res Empty_set A).
#[local] Abbreviation R A := (res error A).

(** ** Commands *)

(** C14: on a shard without blocked clients, any history of list commands that add no element of
    more than 64 KiB (length prefix included), each at its own clock (not before the epoch for
    EXPIRE), never faults, and leaves, answers, publishes and logs what the map from keys to sequences and deadlines prescribes: lazy
    expiry, type errors, argument errors and emptied keys included. What LREM, LPOS, LMPOP, LRANGE
    and EXPIRE are to do with their words is stated apart from the code; LREM with the count -2^63
    is specified to remove nothing. A wider element can break the list ([wide_slab_misreads]). *)
Theorem list_commands_refine rb spare sp e cs N w m : roomy sp -> Forall (fun x => cmd_ok x.1 x.2) cs -> 0 <= N -> shows [] e w m -> bounded N m -> N + cmds_room cs < 2 ^ 62 ->
  exists w', run_cmds rb spare sp e w cs = Ok (w', (spec_cmds e m cs).1.2) /\ shows [] e w' (spec_cmds e m cs).1.1 /\ w_out w' = w_out w ++ (spec_cmds e m cs).2.
Proof. intros Hsp Hc HN H Hb Hr. by apply (run_cmds_ok rb spare sp e cs Hsp Hc N w m). Qed.

Definition ex_env : env := mkEnv 0 None false (fun k => bytes_eqb k (str "s")) (fun _ => false).
Definition ex_sp (a b : bytes) : bytes := zeros (1 + declen (zlen b) + 2 + zlen b + 2).
Definition ex_rb (l : klist native) : Z := 0.
Definition key_k : bytes := str "k".

Definition ex_cmds : list (Z * cmd) :=
  [(0, KPush false true key_k [str "a"; str "b"; str "c"]); (1, KLmove key_k (str "d") (str "left") (str "RIGHT")); (1, KExpire (str "PEXPIRE") key_k (str "4") [str "nx"]); (2, KLlen key_k); (2, KPush true true (str "s") [str "x"]);
   (9, KPop true key_k []); (9, KLmpop [str "2"; key_k; str "d"; str "LEFT"])].

Lemma ex_sp_roomy : roomy ex_sp.
Proof.
  intros a b. unfold grown, ex_sp. set (n := 1 + declen (zlen b) + 2 + zlen b + 2). destruct (decide (0 <= n)); [by rewrite zlen_zeros|]. pose proof (zlen_nonneg (zeros n)). lia.
Qed.

Lemma list_commands_refine_witness : exists w', run_cmds ex_rb [] ex_sp ex_env empty_world ex_cmds = Ok (w', (spec_cmds ex_env ∅ ex_cmds).1.2)
  /\ (spec_cmds ex_env ∅ ex_cmds).1.2 = [RpInt 3; RpBulk (str "a"); RpInt 1; RpInt 2; RpErr wrongType; RpNull; RpRaw (AppendArrayHeader [] 2 ++ bulk (str "d") ++ array [str "a"])].
Proof.
  destruct (list_commands_refine ex_rb [] ex_sp ex_env ex_cmds 0 empty_world ∅ ex_sp_roomy) as (w' & E & _).
  - unfold ex_cmds. rewrite !Forall_cons, Forall_nil. unfold cmd_ok, wide_ok, okv. cbn [fst snd]. rewrite ?Forall_cons, ?Forall_nil. split_and!; by vm_compute.
  - done.
  - apply empty_shows.
  - apply map_Forall_empty.
  - by vm_compute.
  - exists w'. split; [done|]. by vm_compute.
Defined.

(** ** Blocked clients *)

(** C15: from its start, and through any history of commands, BLPOP, BRPOP and BLMPOP calls and
    timeouts in which no element of more than 64 KiB (length prefix included) is added and no
    EXPIRE runs before the epoch, a shard takes the next one without a fault: the keyspace, the reply and the effects are the specified
    ones, an added element goes to the client that parked on the key first, a blocked client takes
    the last place of every queue it waits in and leaves all of them once served or timed out. *)
Theorem blocked_pops_refine rb spare sp e N w m As now ev : roomy sp -> reached rb spare sp e N w m As -> event_ok As w now ev -> N + event_room ev < 2 ^ 62 ->
  let o := spec_event (at_time e now) (erase <$> As) m ev in
  exists w' As', bexec rb spare sp (at_time e now) w ev = Ok (w', o.1.1.2) /\ shows As' e w' o.1.1.1 /\ reached rb spare sp e (N + event_room ev) w' o.1.1.1 As' /\ erase <$> As' = o.2 /\ w_out w' = w_out w ++ o.1.2.
Proof.
  intros Hsp H Hok Hr o. destruct (reached_step rb spare sp e N w m As now ev Hsp H Hok Hr) as (w' & As' & E & H' & Ee & Eo). exists w', As'. destruct (reached_serves _ _ _ _ _ _ _ _ Hsp H') as [_ (Hs & _)]. by split_and!.
Qed.

Definition parked (c : Z) : blocking := mkBlocking None 0 c 1 false.
Definition ex_park (c : Z) : bevent := BPop [key_k; str "d"] true (parked c).
Definition ex_push : bevent := BCmd (KPush false true key_k [str "a"]).

Lemma ex_park_ok As w now : w_nodes w = [] -> event_ok As w now (ex_park 1).
Proof. intros E. unfold event_ok, ex_park, room. rewrite E, !Forall_cons, Forall_nil. unfold wide_ok. split_and!; by vm_compute. Qed.

Lemma ex_push_ok As w now : event_ok As w now ex_push.
Proof. unfold event_ok, ex_push, cmd_ok, wide_ok, okv. rewrite Forall_cons, Forall_nil. split_and!; by vm_compute. Qed.

Lemma blocked_pops_refine_witness : exists w1 As1 w2 As2, bexec ex_rb [] ex_sp (at_time ex_env 0) empty_world (ex_park 1) = Ok (w1, RpPark) /\ reached ex_rb [] ex_sp ex_env 0 w1 ∅ As1
  /\ bexec ex_rb [] ex_sp (at_time ex_env 7) w1 ex_push = Ok (w2, RpInt 1) /\ erase <$> As2 = [] /\ In (EComplete 1 1 (AppendArrayHeader [] 2 ++ bulk key_k ++ bulk (str "a"))) (w_out w2).
Proof.
  destruct (blocked_pops_refine ex_rb [] ex_sp ex_env 0 empty_world ∅ [] 0 (ex_park 1) ex_sp_roomy (at_start _ _ _ _) (ex_park_ok [] empty_world 0 eq_refl) ltac:(done)) as (w1 & As1 & E1 & _ & H1 & Ee1 & _).
  destruct (blocked_pops_refine ex_rb [] ex_sp ex_env 0 w1 ∅ As1 7 ex_push ex_sp_roomy H1 (ex_push_ok _ _ _) ltac:(done)) as (w2 & As2 & E2 & _ & _ & Ee2 & Eo2).
  rewrite Ee1 in E2, Ee2, Eo2. exists w1, As1, w2, As2. split_and!; [exact E1|exact H1|exact E2|rewrite Ee2; by vm_compute|]. rewrite Eo2. apply in_or_app. right. vm_compute. tauto.
Defined.

(** C16: no wake-up is lost: in every shard reachable by such a history a key that has a queue of blocked clients
    has no list, so an element never sits beside a client that waits for it. *)
Theorem no_lost_wakeup rb spare sp e N w m As key wl : roomy sp -> reached rb spare sp e N w m As -> w_waiters w !! key = Some wl -> w_m w !! key = None.
Proof. intros Hsp H Hw. destruct (reached_serves _ _ _ _ _ _ _ _ Hsp H) as [_ Hs]. by eapply serves_idle. Qed.

Lemma no_lost_wakeup_witness : exists w1 As1 wl, reached ex_rb [] ex_sp ex_env 0 w1 ∅ As1 /\ w_waiters w1 !! key_k = Some wl /\ w_m w1 !! key_k = None.
Proof.
  destruct (reached_step ex_rb [] ex_sp ex_env 0 empty_world ∅ [] 0 (ex_park 1) ex_sp_roomy (at_start _ _ _ _) (ex_park_ok [] empty_world 0 eq_refl) ltac:(done)) as (w1 & As1 & E1 & H1 & _).
  assert (Hw : exists wl, w_waiters w1 !! key_k = Some wl).
  { assert (Hc : match bexec ex_rb [] ex_sp (at_time ex_env 0) empty_world (ex_park 1) with Ok (w, _) => is_Some (w_waiters w !! key_k) | _ => False end) by (vm_compute; by eexists). rewrite E1 in Hc. exact Hc. }
  destruct Hw as [wl Hw]. exists w1, As1, wl. split_and!; [exact H1|exact Hw|]. exact (no_lost_wakeup ex_rb [] ex_sp ex_env 0 w1 ∅ As1 key_k wl ex_sp_roomy H1 Hw).
Defined.

(** ** Recovery *)

(** C17: a shard driven by any history of the commands that log (all but LMOVE, RPOPLPUSH and
    LMPOP) with checkpoints in between, no element added above 64 KiB (length prefix included) and
    no deadline falling within the history, over a log that keeps every frame it is handed, leaves
    a log whose replay on an empty registry succeeds and shows the same keyspace: every later
    history of commands, of any kind, at any clock (not before the epoch for EXPIRE) and within the
    same width, gets the same replies from the recovered shard as from the live one. *)
Theorem list_log_recovers rb spare sp e T ss : roomy sp -> 0 <= T -> Forall (fun x => step_ok x.1 x.2) ss -> Forall (step_timely T) ss -> steps_room ss < 2 ^ 62 ->
  exists w w' m, run_steps rb spare e sp empty_world ss = Ok w /\ Recover rb spare e empty_world (w_out w) = Ok w' /\ shows [] e w m /\ shows [] e w' m
    /\ forall cs, Forall (fun x => cmd_ok x.1 x.2) cs -> steps_room ss + cmds_room cs < 2 ^ 62 ->
       exists w1 w1' rs, run_cmds rb spare sp e w cs = Ok (w1, rs) /\ run_cmds rb spare sp e w' cs = Ok (w1', rs).
Proof.
  intros Hsp HT Hok Ht Hr. destruct (steps_redone rb spare e sp T ss Hsp HT Hok Ht 0 empty_world ∅) as (w & m & evs & E & H & Ho & Hre & Hb); [done|apply empty_shows|apply map_Forall_empty|apply map_Forall_empty|lia|].
  destruct (Hre empty_world (empty_shows e)) as (w' & Er & H'). cbn [empty_world w_out app] in Ho. exists w, w', m. rewrite Ho. split_and!; try done.
  intros cs Hcs Hr'. pose proof (steps_room_nonneg ss). destruct (run_cmds_ok rb spare sp e cs Hsp Hcs (0 + steps_room ss) w m) as (w1 & E1 & _); try (done || lia).
  destruct (run_cmds_ok rb spare sp e cs Hsp Hcs (0 + steps_room ss) w' m) as (w1' & E1' & _); try (done || lia). by exists w1, w1', (spec_cmds e m cs).1.2.
Qed.

Definition ex_steps : list (Z * lstep) :=
  [(0, SCmd (KPush false true key_k [str "a"; str "b"; str "a"])); (1, SCmd (KExpire (str "PEXPIREAT") key_k (str "500") [])); (2, SCheckpoint [key_k]); (3, SCmd (KLrem key_k (str "-1") (str "a")));
   (4, SCmd (KLinsert key_k (str "before") (str "b") (str "c")))].

Lemma list_log_recovers_witness : exists w w', run_steps ex_rb [] ex_env ex_sp empty_world ex_steps = Ok w /\ Recover ex_rb [] ex_env empty_world (w_out w) = Ok w'
  /\ exists w1 w1' r, run_cmds ex_rb [] ex_sp ex_env w [(5, KLrange key_k (str "0") (str "-1"))] = Ok (w1, r) /\ run_cmds ex_rb [] ex_sp ex_env w' [(5, KLrange key_k (str "0") (str "-1"))] = Ok (w1', r).
Proof.
  destruct (list_log_recovers ex_rb [] ex_sp ex_env 100 ex_steps ex_sp_roomy) as (w & w' & m & E & Er & _ & _ & Hl).
  - done.
  - unfold ex_steps. rewrite !Forall_cons, Forall_nil. unfold step_ok, cmd_ok, okv. cbn [fst snd]. rewrite ?Forall_cons, ?Forall_nil. split_and!; by vm_compute.
  - unfold ex_steps. rewrite !Forall_cons, Forall_nil. unfold step_timely, timely. cbn [fst snd]. split_and!; first [lia | done | right; by vm_compute].
  - by vm_compute.
  - exists w, w'. split_and!; [done|done|]. apply Hl; [by rewrite Forall_singleton|by vm_compute].
Defined.

(** ** Elements that are lost *)

Definition shard_env (now : Z) : env := mkEnv now None false (fun _ => false) (fun _ => false).

(** Five blocked clients on the keys A, B and C, then one RPUSH. *)
Definition chained_moves : P (world * rep) :=
  let* '(w, _) := blmoveDir ex_rb [] ex_sp (shard_env 0) empty_world (str "A") (str "B") true false (parked 1) in
  let* '(w, _) := blmoveDir ex_rb [] ex_sp (shard_env 0) w (str "A") (str "C") true false (parked 2) in
  let* '(w, _) := blockpop ex_rb ex_sp (shard_env 0) w [str "A"] (parked 3) true in
  let* '(w, _) := blmoveDir ex_rb [] ex_sp (shard_env 0) w (str "C") (str "A") true false (parked 4) in
  let* '(w, _) := blmoveDir ex_rb [] ex_sp (shard_env 0) w (str "B") (str "A") true false (parked 5) in
  Rpush ex_rb [] ex_sp (shard_env 0) w [str "A"; str "x"; str "y"].

(** The push settles on the list object it held when it started. A chained move that re-creates
    the key during the serve loop has installed another one: the last move is acknowledged with
    the element in A, and the push then drops A, so the element is in no list. *)
Theorem chained_move_loses : exists w, chained_moves = Ok (w, RpInt 2) /\ In (EComplete 5 1 (bulk (str "x"))) (w_out w) /\ w_m w = ∅.
Proof.
  assert (H : match chained_moves with Ok (w, r) => r = RpInt 2 /\ In (EComplete 5 1 (bulk (str "x"))) (w_out w) /\ w_m w = ∅ | _ => False end) by (vm_compute; tauto).
  destruct chained_moves as [[w r]|? |]; [|done|done]. destruct H as [-> H]. by exists w.
Qed.

(** A list re-created after its deadline passed, and its log replayed. *)
Definition recreated : R (rep * rep) :=
  let* '(w, _) := up (Rpush ex_rb [] ex_sp (shard_env 0) empty_world [key_k; str "a"]) in
  let* '(w, _) := up (ListCommands.Expire (shard_env 0) w [key_k; str "100"] (str "PEXPIREAT")) in
  let* '(w, _) := up (Rpush ex_rb [] ex_sp (shard_env 200) w [key_k; str "b"]) in
  let* '(_, r) := up (Lrange ex_sp (shard_env 200) w [key_k; str "0"; str "-1"]) in
  let* w' := Recover ex_rb [] (shard_env 200) empty_world (w_out w) in
  let* '(_, r') := up (Lrange ex_sp (shard_env 200) w' [key_k; str "0"; str "-1"]) in
  Ok (r, r').

(** The lazy reap leaves no frame, so the replay pushes onto the expired list and keeps its
    deadline: the live list answers its element, the recovered one is gone. *)
Theorem expired_recreate_lost : recreated = Ok (RpRaw (array [str "b"]), RpRaw (array [])).
Proof. by vm_compute. Qed.
