(* ===== verification/TreeTheorems.v ===== *)
(** The counted tree and its clients: the sorted sequence a history of operations keeps, its
    visitors and cursors, the widths and the space of its blocks (engine/f3/struct/tree.go,
    tree_pop.go), and the pending-entries list over it (engine/f3/stream/pel.go). *)

From stdpp Require Import sorting.
From S2P Require Import Prelude Ordered ScoreCodec TreeBlocks TreeArrays TreeOps TreeShape TreeSearch TreeRep TreeWalks TreePops TreeHistory Pel.
#[local] Open Scope Z_scope.
#[local] Set Warnings "-register-all".

(** ** Concrete trees for the witnesses *)

Definition demo_members (r : Z) : bytes := be_enc 4 r.
#[local] Instance demo_Members : Members := fun r => Ok (demo_members r).

(** Forty entries of one score out of order, enough to split and to merge back, and every
    operation. *)
Definition demo_ops : list tree_op :=
  ((fun r => OpInsert (7, r)) <$> seqZ 20 20) ++ ((fun r => OpInsert (7, r)) <$> seqZ 0 20) ++ [OpAppend (7, 50); OpAppend (9, 3); OpInsert (7, 5); OpRank (7, demo_members 11); OpFind (7, demo_members 33); OpSelect 12; OpWalk (7, demo_members 30) 3; OpWalkRev 9 4; OpEach]
  ++ ((fun r => OpDelete (7, demo_members r)) <$> seqZ 10 14) ++ [OpDelete (8, []); OpDeleteAt 4; OpPopMin 5; OpPopMax 30; OpRank (7, [])].

Ltac by_computing := vm_compute; repeat match goal with
  | |- _ /\ _ => split
  | |- Forall _ _ => constructor
  | |- True => exact I
  | |- _ = _ => reflexivity
  | |- _ -> False => discriminate
  end.

Definition demo_t0 : Tree := match NewTree with Ok t => t | _ => empty_arena end.
Lemma demo_start : NewTree = Ok demo_t0.
Proof. vm_compute. reflexivity. Qed.
Lemma demo_ok : history_ok demo_members demo_t0 [] demo_ops.
Proof. by_computing. Qed.

Lemma run_from_new {M : Members} mb t0 ops : NewTree = Ok t0 -> history_ok mb t0 [] ops -> exists t', tree_run mb t0 ops = Ok (t', (seq_run mb [] ops).2) /\ tree_rep mb t' (seq_run mb [] ops).1.
Proof. intros E Hok. destruct (NewTree_ok mb) as (t & E' & HR). assert (t0 = t) as -> by congruence. by apply tree_run_ok. Qed.

(** C21: A tree driven from its start by any sequence of inserts, right-edge appends, deletes by key and by position, drains of either end, rank, point and positional reads and walks answers what the sorted sequence of its entries answers and keeps that sequence, without a fault, as long as the 32-bit ordinals and counts have room. *)
Theorem tree_history_refines {M : Members} (mb : Z -> bytes) (t0 : Tree) (ops : list tree_op) :
  NewTree = Ok t0 -> history_ok mb t0 [] ops ->
  exists t', tree_run mb t0 ops = Ok (t', (seq_run mb [] ops).2) /\ tree_rep mb t' (seq_run mb [] ops).1 /\ increasing mb (seq_run mb [] ops).1 /\ Tree_Len t' = zlen (seq_run mb [] ops).1.
Proof.
  intros E Hok. destruct (run_from_new mb t0 ops E Hok) as (t' & Er & HR). exists t'. split_and!; [done|done|by eapply rep_increasing|by eapply rep_len].
Qed.

Lemma tree_history_refines_witness : exists t', tree_run demo_members demo_t0 demo_ops = Ok (t', (seq_run demo_members [] demo_ops).2).
Proof. destruct (tree_history_refines demo_members demo_t0 demo_ops demo_start demo_ok) as (t' & Er & _). exists t'. exact Er. Defined.

(** C38: Whatever history a tree went through, its leaf blocks are 512 and its branch blocks 256 bytes, the reference array has one slot per separator, every counter agrees with its array, the free lists hold each ordinal once and inside its arena, and the root is a block of the arena its flag names. *)
Theorem tree_blocks_keep_width {M : Members} (mb : Z -> bytes) (t0 : Tree) (ops : list tree_op) :
  NewTree = Ok t0 -> history_ok mb t0 [] ops -> exists t' xs, tree_run mb t0 ops = Ok (t', xs) /\ blocks_typed t'.
Proof. intros E Hok. destruct (run_from_new mb t0 ops E Hok) as (t' & Er & HR). eexists _, _. split; [exact Er|]. by eapply tree_blocks_typed. Qed.

Lemma tree_blocks_keep_width_witness : exists t' xs, tree_run demo_members demo_t0 demo_ops = Ok (t', xs) /\ blocks_typed t'.
Proof. exact (tree_blocks_keep_width demo_members demo_t0 demo_ops demo_start demo_ok). Defined.

(** C39: Blocks do not leak and do not stay empty: after any history the live blocks take at most 512 bytes and 828 for every seven entries, so deletes give back what inserts took. *)
Theorem tree_space_bounded {M : Members} (mb : Z -> bytes) (t0 : Tree) (ops : list tree_op) :
  NewTree = Ok t0 -> history_ok mb t0 [] ops -> exists t' xs, tree_run mb t0 ops = Ok (t', xs) /\ 7 * Bytes t' <= 828 * Tree_Len t' + 7 * 512.
Proof. intros E Hok. destruct (run_from_new mb t0 ops E Hok) as (t' & Er & HR). eexists _, _. split; [exact Er|]. unfold Tree_Len. rewrite (rep_len _ _ _ HR). by eapply tree_space. Qed.

Lemma tree_space_bounded_witness : exists t' xs, tree_run demo_members demo_t0 demo_ops = Ok (t', xs) /\ 7 * Bytes t' <= 828 * Tree_Len t' + 7 * 512.
Proof. exact (tree_space_bounded demo_members demo_t0 demo_ops demo_start demo_ok). Defined.

(** C22: On a tree that keeps the entries es every walk hands its visitor, until it stops, exactly the entries of es from its start on: by key and by rank in order, by rank in reverse order, and all of them; the forward and the reverse rank cursor read the same references one step at a time. *)
Theorem tree_walks_match {M : Members} (mb : Z -> bytes) {A} (fn : A -> Z -> Z -> A * bool) (t : Tree) (es : list ent) (k : key) (r : Z) (n : nat) (s : A) :
  tree_rep mb t es -> t_entries t < two32 -> 0 <= r ->
  WalkFrom fn t k.1 k.2 s = Ok (walk_list fn s (drop (Z.to_nat (locate_key mb k es).1) es)).1
  /\ WalkFromRank fn t r s = Ok (walk_list fn s (drop (Z.to_nat r) es)).1
  /\ WalkFromRankRev fn t r s = Ok (walk_list fn s (rev (take (S (Z.to_nat r)) es))).1
  /\ (exists t', Tree_Each fn t s = Ok (t', (walk_list fn s es).1) /\ tree_rep mb t' es)
  /\ (exists c, SeekRank t r = Ok c /\ cursor_drain n t c = Ok (take n (drop (Z.to_nat r) es)).*2)
  /\ (exists c, SeekRankRev t r = Ok c /\ rev_cursor_drain n t c = Ok (take n (rev (take (S (Z.to_nat r)) es))).*2).
Proof.
  intros HR Hlt Hr. split_and!; [by apply WalkFrom_ok|by eapply WalkFromRank_ok|by eapply WalkFromRankRev_ok|by apply Tree_Each_ok|by eapply SeekRank_ok|by eapply SeekRankRev_ok].
Qed.

Lemma demo_run : exists t', tree_run demo_members demo_t0 (take 42 demo_ops) = Ok (t', (seq_run demo_members [] (take 42 demo_ops)).2) /\ tree_rep demo_members t' (seq_run demo_members [] (take 42 demo_ops)).1.
Proof. apply run_from_new; [exact demo_start|by_computing]. Qed.

Lemma tree_walks_match_witness : exists t', tree_rep demo_members t' (seq_run demo_members [] (take 42 demo_ops)).1 /\ WalkFrom (collect 3) t' 7 (demo_members 30) [] = Ok (walk_list (collect 3) [] (drop 30 (seq_run demo_members [] (take 42 demo_ops)).1)).1.
Proof.
  destruct demo_run as (t' & Er & HR). exists t'. split; [exact HR|]. assert (Hlt : t_entries t' < two32) by (rewrite (rep_len _ _ _ HR); vm_compute; reflexivity).
  exact (proj1 (tree_walks_match demo_members (collect 3) t' _ (7, demo_members 30) 0 0%nat [] HR Hlt ltac:(lia))).
Defined.

(** ** The pending-entries list *)

Definition demo_pel : groupPEL := match newPEL with Ok p => p | _ => mkPEL [] [] empty_arena end.
Lemma demo_pel_rep : pel_rep demo_pel [].
Proof. destruct newPEL_ok as (p & E & HR). assert (demo_pel = p) as -> by (unfold demo_pel; by rewrite E). exact HR. Qed.

(** C23: The pending-entries list stands for the list L of its slabs in ID order: find answers the entry of an ID, ack answers its owner and takes it out, a walk visits the entries at or above its start, the end peeks answer the first and the last, and, while no slab waits to be reused, recording a new ID adds its slab. *)
Theorem pel_refines (p : groupPEL) (L : list pelEntry) (i : streamID) (x : pelEntry) :
  pel_rep p L -> has_room (ptree p) -> id_ok i -> id_ok (pe_id x) -> zlen (slabs p) < two32 - 1 -> Forall (fun y => pe_id y <> pe_id x) L ->
  StronglySorted (fun x y => id_cmp (pe_id x) (pe_id y) = Lt) L
  /\ (exists o, pel_find p i = Ok o /\ snd <$> o = head (filter (fun x => pe_id x = i) L))
  /\ (exists p', pel_ack p i = Ok (p', pe_consumerOrd <$> head (filter (fun x => pe_id x = i) L)) /\ pel_rep p' (filter (fun x => pe_id x <> i) L))
  /\ (forall A (fn : A -> pelEntry -> A * bool) s, pel_walkFrom fn p i s = Ok (fold_slabs fn s (filter (fun x => id_cmp (pe_id x) i <> Lt) L)))
  /\ pel_minEntry p = Ok (head L) /\ pel_maxEntry p = Ok (last L)
  /\ (pfree p = [] -> exists p' L', pel_put p x = Ok (p', zlen (slabs p)) /\ pel_rep p' L' /\ L' ≡ₚ x :: L /\ pfree p' = []).
Proof.
  intros HR Hroom Hi Hx Hz Hnew. assert (Hlt : t_entries (ptree p) < two32) by (destruct Hroom as (_ & _ & ?); lia). destruct (pel_ends_ok p L HR Hlt) as [E1 E2]. split_and!; [by eapply pel_sorted|by apply pel_find_ok|by apply pel_ack_ok|by intros; apply pel_walkFrom_ok|done|done|]. intros Hf. by apply pel_put_ok.
Qed.

Lemma pel_refines_witness : pel_find demo_pel (mkID 1 2) = Ok None /\ exists p', pel_put demo_pel (mkPelEntry (mkID 1 2) 0 1 0) = Ok (p', 0) /\ pel_rep p' [mkPelEntry (mkID 1 2) 0 1 0]
  /\ (exists o, pel_find p' (mkID 1 2) = Ok o /\ snd <$> o = Some (mkPelEntry (mkID 1 2) 0 1 0)) /\ (exists p2, pel_ack p' (mkID 1 2) = Ok (p2, Some 0) /\ pel_rep p2 [])
  /\ exists p3 L3, pel_put p' (mkPelEntry (mkID 1 3) 0 1 0) = Ok (p3, 1) /\ pel_rep p3 L3 /\ L3 ≡ₚ [mkPelEntry (mkID 1 3) 0 1 0; mkPelEntry (mkID 1 2) 0 1 0].
Proof.
  destruct (pel_refines demo_pel [] (mkID 1 2) (mkPelEntry (mkID 1 2) 0 1 0) demo_pel_rep) as (_ & (o & Ef & Eo) & _ & _ & _ & _ & Hput); [vm_compute; auto|vm_compute; intuition discriminate|vm_compute; intuition discriminate|vm_compute; reflexivity|constructor|].
  split; [destruct o; [discriminate Eo|exact Ef]|]. destruct (Hput eq_refl) as (p' & L' & E & HR & HL & _). exists p'. split; [exact E|].
  apply Permutation_singleton_r in HL. subst L'. split; [exact HR|].
  destruct (pel_refines p' _ (mkID 1 2) (mkPelEntry (mkID 1 3) 0 1 0) HR) as (_ & Hf & (p2 & Ea & Ha) & _ & _ & _ & Hput2).
  - vm_compute in E. injection E as <-. vm_compute. auto.
  - vm_compute. intuition discriminate.
  - vm_compute. intuition discriminate.
  - vm_compute in E. injection E as <-. vm_compute. reflexivity.
  - constructor; [discriminate|constructor].
  - split; [exact Hf|]. split; [exists p2; split; [exact Ea|exact Ha]|].
    destruct Hput2 as (p3 & L3 & E3 & H3 & HL3 & _); [vm_compute in E; injection E as <-; reflexivity|]. exists p3, L3. split; [|split; [exact H3|exact HL3]].
    rewrite E3. vm_compute in E. injection E as <-. reflexivity.
Defined.

(** C37: A reused slab loses a pending entry: after 32 deliveries within one millisecond, an acknowledgement of 1-16 and the delivery of 1-100 into the slab it freed, the entry 1-20 is still walked, but find and ack no longer see it, since the tree's separator resolves through the reused slab. *)
Theorem pel_reuse_loses_entry :
  exists p before p1 p2 l,
    (let* p := newPEL in deliver p (one_ms (seqZ 1 32))) = Ok p /\ pel_find p (mkID 1 20) = Ok (Some (19, before)) /\ pe_id before = mkID 1 20
    /\ pel_ack p (mkID 1 16) = Ok (p1, Some 0) /\ pel_insert p1 (mkID 1 100) 0 0 = Ok p2
    /\ pel_walkFrom (fun l x => (l ++ [pe_id x], true)) p2 (mkID 0 0) [] = Ok l /\ mkID 1 20 ∈ l
    /\ pel_find p2 (mkID 1 20) = Ok None /\ (exists p3, pel_ack p2 (mkID 1 20) = Ok (p3, None)).
Proof.
  eexists _, _, _, _, _. split; [vm_compute; reflexivity|]. split; [vm_compute; reflexivity|]. split; [reflexivity|]. split; [vm_compute; reflexivity|]. split; [vm_compute; reflexivity|]. split; [vm_compute; reflexivity|]. split; [apply (list_elem_of_lookup_2 _ 18); reflexivity|]. split; [vm_compute; reflexivity|]. eexists. vm_compute. reflexivity.
Qed.
